(* ===== verification/_CoqProject ===== *)
-Q . S2P
Prelude.v
Memory.v
Descr.v
Decode.v
Encode.v
Wire.v
Input.v
Layout.v
Safety.v
DecodeSafe.v
FieldSafe.v
Required.v
Examples.v
DecodeTheorems.v
Output.v
EncodeTheorems.v
Findings.v
RoundtripTheorems.v
Malloc.v
MallocTheorems.v
Slice.v
Coding.v
DbFormat.v
SkipList.v
SkipSearch.v
SkipInsert.v
SkipContents.v
Crc32c.v
Status.v
Iterator.v
TwoLevelProof.v
MergeLists.v
Env.v
Log.v
LogTheorems.v
Bloom.v
FilterBlock.v
WriteBatch.v
MemTable.v
MemTheorems.v
MemIterator.v
Arena.v
Block.v
BlockTheorems.v
Format.v
TableBuilder.v
TableTheorems.v
TableBuild.v
LRU.v
LRUList.v
LRUProof.v
LRUShard.v
LRUTheorems.v
Table.v
TableFile.v
Merger.v
MergerProof.v
UserView.v
DbIter.v
DbIterProof.v
ReadPath.v
FileName.v
VersionEdit.v
VersionEditProof.v
LevelFiles.v
LevelFilesProof.v
Version.v
VersionSet.v
Compaction.v
TableCache.v
VersionRead.v
Snapshot.v
LevelTheorems.v
DbImpl.v
CompactProof.v
DbProof.v
DbWrite.v
TableCacheProof.v
DbRead.v
BuilderProof.v
