(* ===== verification/Prelude.v ===== *)
(** * SharkCollector: the native libraries behind the application

    SharkCollector is an iOS application (Swift, under src/sharkCollector/sharkCollector)
    that stores its data with Firebase.  Its own Swift code is views and calls to
    the Firebase SDK; the C and C++ code of the repository is what the SDK is
    built on: nanopb, which turns structures into protocol-buffer messages and
    back, and LevelDB, the key-value store of the local cache.  This development
    models these two libraries.

    ** Conventions

    A w-bit integer is a [Z]; every place where C truncates is an explicit
    conversion ([u32], [s64], [usize], ... of this file).  The width of [size_t]
    and of pointers is the class [Platform] (32 or 64).  C code that works on
    memory is a function of the monad [M] of this file: it returns ([Ok]), fails
    leaving a state ([Err]), reaches undefined behaviour ([Ub]: an access outside
    the mapped memory, a shift by the width, a call through null), or runs out of
    fuel ([OutOfFuel]).  [wp] is its program logic: [wp m Q E s] says that [m]
    neither is undefined nor diverges, that [Q] holds where it returns and [E]
    where it fails.  C++ code that works on byte strings is a pure function on
    lists of bytes, with [option] for a failed check, an assertion or an access
    out of range.  Code of the application, the C library or the compiler that
    the libraries call (stream and field callbacks, the allocator) is a class
    whose laws are hypotheses of the theorems that need them.

    ** nanopb (src/sharkCollector/Pods/nanopb)

    - Memory.v: the byte-addressed memory and its loads and stores.
    - Descr.v: pb.h and pb_common.c; type codes, [pb_field_t], the PB_FIELD macros,
      the field iterator.
    - Decode.v: pb_decode.c and pb_decode.h; streams, varints and tags, the field
      decoders, default values, extensions, the message loop.
    - Encode.v: pb_encode.c and pb_encode.h.
    - Malloc.v: pb_decode.c as it is compiled with PB_ENABLE_MALLOC: the heap,
      [allocate_field], [pb_release], and the decoder on them.  This build does not
      set the flag; the code is the library's.  The allocator is a class: realloc
      may leave a block where it is, let it grow over its own end, or move it.

    The specifications: Wire.v (the wire format as functions on byte lists),
    Input.v and Output.v (the stream primitives refine them), Layout.v (the
    positions an iterator visits), EncodeTheorems.v ([message_items], the encoding
    a value is meant to have).  The program logics: Safety.v ([safe], memory safety
    of decoding), Output.v ([emits], the encoder writes exactly these bytes).

    The theorems: decoding of any input into any well-formed message is memory
    safe, terminates within a fuel that depends only on the input and the
    descriptors (messages without extension fields), and returns only messages whose
    required fields were present, whatever their number below 2^32 (DecodeSafe.v, FieldSafe.v, Required.v, DecodeTheorems.v);
    encoding writes the specified bytes or fails when the buffer is too small, and
    the size computed in advance is the size written (EncodeTheorems.v); encoded
    values decode to themselves, unknown records are skipped
    (RoundtripTheorems.v); allocation does not overflow and blocks are not freed
    twice (MallocTheorems.v).  Findings.v has the inputs on which the library
    misbehaves.

    ** LevelDB (src/sharkCollector/Pods/leveldb-library)

    The components, from the bottom to the top of the library:

    - Slice.v: slice.h, comparator.h, comparator.cc; byte strings and their
      order.  The class [Comparator] with its laws [ComparatorLaws] is the
      contract of leveldb::Comparator.
    - Coding.v: coding.h, coding.cc; fixed and variable-length integers.
      Crc32c.v: crc32c.h, crc32c.cc.  Status.v: status.h, status.cc.
    - DbFormat.v: dbformat.h, dbformat.cc; internal keys and their order.
    - SkipList.v: random.h, skiplist.h; the skip list of the memtable.
      SkipSearch.v has the invariant and what the searches compute, SkipInsert.v
      that insertion keeps it, SkipContents.v a writer and a reader interleaved
      step by step, and the list of keys a skip list stands for.
    - Iterator.v: iterator.h, iterator.cc; the class [Iterator] of the operations
      and the contract [cursor]: positions are indices into a sorted list of
      entries.  Every iterator of the library is an instance, and the theorem about
      it says that it is a cursor over the right list.  Also iterator_wrapper.h
      and two_level_iterator.cc; TwoLevelProof.v: a two-level iterator is a cursor
      over the entries of all blocks.
    - MergeLists.v: the union of sorted lists.
    - Env.v: env.h, env.cc; the files that the log, the tables and the descriptors
      use, as classes with their laws, with instances that keep byte strings.
      [SyncedFile] says what of a file outlives the machine, and that a sync which
      succeeds makes this all of it.
    - Log.v: log_format.h, log_writer.cc, log_reader.cc; the write-ahead log.
      LogTheorems.v has its layout, that the reader inverts the writer, and the
      properties of checksums and of the log.
    - Bloom.v: hash.cc, filter_policy.h, bloom.cc.  FilterBlock.v: filter_block.cc,
      proved against the class of filter policies; [TableFilter] has what tables ask
      of a policy.
    - WriteBatch.v: write_batch.h, write_batch.cc; batches, iterated over with any
      handler.  MemTable.v: memtable.h, memtable.cc; MemTheorems.v has the list of
      updates a memtable stands for and the theorems about both, MemIterator.v the
      iterator.  Arena.v: arena.h, arena.cc; the memory the entries take, which [new]
      may refuse.
    - Block.v: block_builder.cc, block.cc.  BlockTheorems.v is what the builder
      leaves in its buffer, that the iterator is a cursor over it, and the inputs
      for which the reader leaves its memory.
    - Format.v: format.cc.  TableBuilder.v: table_builder.cc.  TableBuild.v is the
      invariant of the builder, TableTheorems.v the theorems about the format.
    - LRU.v: cache.h as a class with laws, cache.cc over a heap of entries.
      LRUList.v (the circular list and the hash table), LRUProof.v (the invariant),
      LRUShard.v (the operations of one shard), LRUTheorems.v (a shard refines a
      list of entries in the order of their last use, the whole implements the
      class).
    - Table.v: table.cc.  TableFile.v is what the reader finds in a finished file,
      and the theorems from the builder to the reader.
    - Merger.v: merger.cc, and MergerProof.v: it is a cursor over the union.
    - UserView.v (what is visible at a sequence number), DbIter.v: db_iter.cc, and
      DbIterProof.v: it is a cursor over what is visible.  ReadPath.v composes
      memtables, the merging iterator and this one, and shows that iterating and
      looking up agree.
    - FileName.v: logging.h, logging.cc, filename.h, filename.cc.  VersionEdit.v:
      version_edit.h, version_edit.cc; VersionEditProof.v.
    - LevelFiles.v, Version.v, VersionSet.v, Compaction.v: version_set.h and
      version_set.cc; searching the files of a level, versions with their counts
      of references and the builder that applies edits to them, the set of
      versions with its descriptor, the choice of the inputs of a compaction.
      LevelFilesProof.v has what the searches find; VersionRead.v that a lookup
      finds the newest entry in all files; BuilderProof.v that applying an edit to
      a version makes the version with the files of the base that are not deleted
      and those that were added, in order, each counted once more.
    - TableCache.v: table_cache.h, table_cache.cc; an implementation of the
      interface through which Version.v reads tables.  TableCacheProof.v shows that
      it keeps the contract: whatever the caches of tables and of blocks hold or have
      dropped, a lookup gives an entry of the file with that number, and the ids of
      the tables keep their blocks apart, for as many lookups as there are ids left.
    - Snapshot.v: snapshot.h; the list of snapshots and its invariant.
    - DbImpl.v: db_impl.h, db_impl.cc, builder.cc; the database, as functions of the
      state that its mutex protects.  [others] stands for what other threads do where
      the code releases the mutex or waits.  CompactProof.v: what a compaction drops
      is invisible to every read at or behind the oldest snapshot, and the test for
      deeper levels is right.  DbProof.v: exactly the files that are not needed are
      deleted.  DbWrite.v: the writer at the front of the queue writes for those
      behind it, as many as the limits of a group let, in order, once, syncs the log
      before the memtable changes if it is to, and wakes them.  DbRead.v: a read finds the newest
      entry of the memtables and the files, down to the bytes of the files.
    - LevelTheorems.v: the theorems about keys, encodings, random numbers and the
      skip list.

    Bounds of these theorems: a block holds less than 2^28 bytes of entries; the
    entries of a table and of a memtable have keys and values shorter than 2^32
    bytes; a cache has fewer entries and less charge than 2^32 and 2^64 (the names
    are [max_live] and [max_charge]).  The options of a table have a restart interval
    of at least one, its entries have less than 2^28 bytes together, and if there is a
    filter policy it keeps the laws [TableFilter]: its filters match the keys they are
    made from, answer for every key, do not tell equal keys apart and take at most 32
    bytes a key.  Bloom filters with up to 200 bits a key have them, and so have the
    policies for internal keys that the database makes from them.
    Different iterators share nothing: the children of a merging iterator have
    states of their own.

    ** Fuel

    A recursion or loop that is not structural takes a number of steps as an
    argument.  The decoder's fuel bounds the nesting of messages and the rounds of
    the message loop: the safety theorems hold from the fuel they name (the input
    length plus the nesting depth of the descriptors), so with that much the
    result is never [OutOfFuel].  The loops over arrays, bytes and list nodes are
    given their length: the chains of the cache get one more than the size of its
    heap, the iterator of the database at least the number of internal entries,
    a two-level iterator more than the number of its blocks, the decoder of
    version edits one more than the length of its input, [overlapping_fuel] the
    rounds in which a range of level 0 can grow.  The growth of a hash
    table doubles at most 32 times, and the loop that draws random sampling
    periods ends because no two periods in a row are zero.

    ** Not modelled

    Alignment, effective types and pointer provenance of C; compiler
    reorderings.  The memory model under SkipContents.v is sequentially
    consistent: the release and acquire operations of port/atomic_pointer.h are
    taken for what they promise.  Of LevelDB: the repair of a database (repair.cc, dumpfile.cc),
    the C binding, and the environment (env_posix.cc).  What other threads do while
    the mutex is released is an argument of the model; the statistics of compactions,
    the messages to the info log and the memory a memtable takes are left out.
    Memory is allocated without failure, a mutex makes what it protects one step, and
    memory that is not used any more is forgotten instead of freed, except in Arena.v,
    LRU.v and for versions, their files, memtables and snapshots.
    The Swift application, the Objective-C pods and the headers of
    the binary Firebase frameworks have no logic that a kernel could check. *)

From Stdlib Require Import ZArith Lia.
From stdpp Require Export base relations option list list_numbers strings gmap.

#[global] Open Scope Z_scope.

Declare Scope c_scope.
Delimit Scope c_scope with C.

(** ** Machine integers

    An unsigned value of width [w] is a [Z] in [0, 2^w); the conversions below
    are the C conversions to the fixed-width types of <stdint.h>.  Shifts and
    masks are those of [Z]; every place where C truncates is an explicit
    conversion. *)

Definition uwrap (w x : Z) : Z := x mod 2 ^ w.

Definition swrap (w x : Z) : Z :=
  let y := x mod 2 ^ w in if y <? 2 ^ (w - 1) then y else y - 2 ^ w.

Abbreviation u8 := (uwrap 8).
Abbreviation u32 := (uwrap 32).
Abbreviation u64 := (uwrap 64).

Abbreviation s8 := (swrap 8).
Abbreviation s16 := (swrap 16).
Abbreviation s32 := (swrap 32).
Abbreviation s64 := (swrap 64).

Definition UINT32_MAX : Z := 2 ^ 32 - 1.

(** The width of [size_t] and of pointers: the application is built for 32-bit
    and for 64-bit devices. *)
Class Platform := {
  size_bits : Z;
  size_bits_cases : size_bits = 32 \/ size_bits = 64
}.

Definition usize `{!Platform} (x : Z) : Z := uwrap size_bits x.
Definition ptr_size `{!Platform} : Z := size_bits / 8.
Definition SIZE_MAX `{!Platform} : Z := 2 ^ size_bits - 1.

(** ** Outcomes of a C function

    [Ok a s]: the function returned normally (true, for a function returning a
    status) with result [a] in state [s].  [Err s]: it returned false; the state
    it leaves still matters, callers inspect it.  [Ub]: the execution reached
    undefined behaviour (an access outside the mapped memory, a shift by the
    width, a call through a null function pointer).  [OutOfFuel]: a loop or a
    recursion did not finish within the fuel. *)
Inductive res (S A : Type) : Type :=
  | Ok (a : A) (s : S)
  | Err (s : S)
  | Ub
  | OutOfFuel.
Arguments Ok {S A} a s.
Arguments Err {S A} s.
Arguments Ub {S A}.
Arguments OutOfFuel {S A}.

Definition M (S A : Type) : Type := S -> res S A.

Definition ret {S A} (a : A) : M S A := fun s => Ok a s.
Definition fail {S A} : M S A := fun s => Err s.
Definition ub {S A} : M S A := fun _ => Ub.
Definition out_of_fuel {S A} : M S A := fun _ => OutOfFuel.

Definition bind {S A B} (m : M S A) (k : A -> M S B) : M S B := fun s =>
  match m s with
  | Ok a s' => k a s'
  | Err s' => Err s'
  | Ub => Ub
  | OutOfFuel => OutOfFuel
  end.

Definition gets {S A} (f : S -> A) : M S A := fun s => Ok (f s) s.
Definition modify {S} (f : S -> S) : M S unit := fun s => Ok tt (f s).

(** The returned status as a boolean, for callers that go on after a failure. *)
Definition attempt {S A} (m : M S A) : M S (option A) := fun s =>
  match m s with
  | Ok a s' => Ok (Some a) s'
  | Err s' => Ok None s'
  | Ub => Ub
  | OutOfFuel => OutOfFuel
  end.

(** A call on a part of the state. *)
Definition zoom {S T A} (get : T -> S) (set : S -> T -> T) (m : M S A) : M T A := fun t =>
  match m (get t) with
  | Ok a s => Ok a (set s t)
  | Err s => Err (set s t)
  | Ub => Ub
  | OutOfFuel => OutOfFuel
  end.

(** A value whose absence is undefined behaviour. *)
Definition or_ub {S A} (o : option A) : M S A :=
  match o with Some a => ret a | None => ub end.

(** [assert]: a failed assertion is treated as undefined. *)
Definition assert_ {S} (b : bool) : M S unit := if b then ret tt else ub.

Notation "'let!' x ':=' m 'in' k" := (bind m (fun x => k))
  (at level 10, x binder, m at level 100, k at level 200,
   format "'[v' 'let!'  x  ':='  m  'in' '/' k ']'") : c_scope.
Notation "m ';;;' k" := (bind m (fun _ => k))
  (at level 101, k at level 200, right associativity) : c_scope.
#[global] Open Scope c_scope.

(** A loop: [inl a] goes round again with loop variables [a], [inr b] leaves
    with [b]. *)
Fixpoint loop {S A B} (fuel : nat) (body : A -> M S (A + B)) (a : A) : M S B :=
  match fuel with
  | O => out_of_fuel
  | Datatypes.S n =>
      let! r := body a in
      match r with
      | inl a' => loop n body a'
      | inr b => ret b
      end
  end.

(** Loops over the elements of a list. *)
Fixpoint map_m {S A B} (f : A -> M S B) (l : list A) : M S (list B) :=
  match l with
  | [] => ret []
  | x :: l => let! y := f x in let! ys := map_m f l in ret (y :: ys)
  end.

Fixpoint iter_m {S A} (f : A -> M S unit) (l : list A) : M S unit :=
  match l with
  | [] => ret tt
  | x :: l => f x ;;; iter_m f l
  end.

Fixpoint fold_m {S A B} (f : B -> A -> M S B) (b : B) (l : list A) : M S B :=
  match l with
  | [] => ret b
  | x :: l => let! b := f b x in fold_m f b l
  end.

(** The elements for which a test that can fail an assertion says true. *)
Fixpoint filter_opt {A} (f : A -> option bool) (l : list A) : option (list A) :=
  match l with
  | [] => Some []
  | x :: l => b ← f x; r ← filter_opt f l; Some (if b : bool then x :: r else r)
  end.

(** ** The program logic

    [wp m Q E s]: run from [s], [m] neither reaches undefined behaviour nor runs
    out of fuel; if it returns [a], [Q a] holds of the final state, and if it
    fails, [E] does. *)
Definition wp {S A} (m : M S A) (Q : A -> S -> Prop) (E : S -> Prop) (s : S) : Prop :=
  match m s with
  | Ok a s' => Q a s'
  | Err s' => E s'
  | Ub => False
  | OutOfFuel => False
  end.

Section wp_rules.
Context {S : Type}.
Implicit Types (s : S) (E : S -> Prop).

Lemma wp_mono {A} (m : M S A) (Q Q' : A -> S -> Prop) E E' s :
  wp m Q E s ->
  (forall a s', Q a s' -> Q' a s') -> (forall s', E s' -> E' s') ->
  wp m Q' E' s.
Proof. unfold wp. destruct (m s); naive_solver. Qed.

Lemma wp_ret {A} (a : A) (Q : A -> S -> Prop) E s : Q a s -> wp (ret a) Q E s.
Proof. done. Qed.

Lemma wp_fail {A} (Q : A -> S -> Prop) E s : E s -> wp fail Q E s.
Proof. done. Qed.

Lemma wp_gets {A} (f : S -> A) (Q : A -> S -> Prop) E s :
  Q (f s) s -> wp (gets f) Q E s.
Proof. done. Qed.

Lemma wp_modify (f : S -> S) (Q : unit -> S -> Prop) E s :
  Q tt (f s) -> wp (modify f) Q E s.
Proof. done. Qed.

Lemma wp_bind {A B} (m : M S A) (k : A -> M S B) (Q : B -> S -> Prop) E s :
  wp m (fun a => wp (k a) Q E) E s -> wp (bind m k) Q E s.
Proof. unfold wp, bind. by destruct (m s). Qed.

Lemma wp_attempt {A} (m : M S A) (Q : option A -> S -> Prop) E s :
  wp m (fun a => Q (Some a)) (Q None) s -> wp (attempt m) Q E s.
Proof. unfold wp, attempt. by destruct (m s). Qed.

Lemma wp_or_ub {A} (o : option A) (Q : A -> S -> Prop) E s :
  (exists a, o = Some a /\ Q a s) -> wp (or_ub o) Q E s.
Proof. intros (a & -> & H). done. Qed.

(** A loop whose variant [f] decreases from below the fuel. *)
Lemma wp_loop {A B} (I : A -> S -> Prop) (f : A -> S -> nat)
    (body : A -> M S (A + B)) (Q : B -> S -> Prop) E fuel a s :
  (forall a s, I a s ->
     wp (body a) (fun r s' => match r with
                              | inl a' => I a' s' /\ (f a' s' < f a s)%nat
                              | inr b => Q b s'
                              end) E s) ->
  I a s -> (f a s < fuel)%nat -> wp (loop fuel body a) Q E s.
Proof.
  intros Hbody. revert a s. induction fuel as [|n IH]; intros a s HI Hf; [lia|].
  cbn [loop]. apply wp_bind.
  eapply wp_mono; [by apply Hbody| |done].
  intros [a'|b] s'; [intros [HI' Hlt]; apply IH; [done|lia]|done].
Qed.

Lemma wp_ok {A} (m : M S A) (Q : A -> S -> Prop) E s a s' :
  m s = Ok a s' -> Q a s' -> wp m Q E s.
Proof. unfold wp. by intros ->. Qed.

Lemma wp_err {A} (m : M S A) (Q : A -> S -> Prop) E s s' :
  m s = Err s' -> E s' -> wp m Q E s.
Proof. unfold wp. by intros ->. Qed.

Lemma wp_conj {A} (m : M S A) (Q Q' : A -> S -> Prop) E E' s :
  wp m Q E s -> wp m Q' E' s ->
  wp m (fun a s' => Q a s' /\ Q' a s') (fun s' => E s' /\ E' s') s.
Proof. unfold wp. by destruct (m s). Qed.

(** What an execution that is not undefined and does not diverge is. *)
Lemma wp_inv {A} (m : M S A) (Q : A -> S -> Prop) E s :
  wp m Q E s ->
  (exists a s', m s = Ok a s' /\ Q a s') \/ (exists s', m s = Err s' /\ E s').
Proof. unfold wp. destruct (m s); naive_solver. Qed.
End wp_rules.

Create HintDb wp.
#[export] Hint Resolve wp_ret wp_fail wp_gets wp_modify : wp.

(** ** Equations of the monad *)
Section equations.
Context {S : Type}.

Lemma bind_ok {A B} (m : M S A) (k : A -> M S B) s a s' :
  m s = Ok a s' -> bind m k s = k a s'.
Proof. unfold bind. by intros ->. Qed.

Lemma bind_err {A B} (m : M S A) (k : A -> M S B) s s' :
  m s = Err s' -> bind m k s = Err s'.
Proof. unfold bind. by intros ->. Qed.

Lemma bind_ub {A B} (m : M S A) (k : A -> M S B) s :
  m s = Ub -> bind m k s = Ub.
Proof. unfold bind. by intros ->. Qed.

Lemma bind_ret {A B} (a : A) (k : A -> M S B) s : bind (ret a) k s = k a s.
Proof. done. Qed.

Lemma bind_gets {A B} (f : S -> A) (k : A -> M S B) s :
  bind (gets f) k s = k (f s) s.
Proof. done. Qed.

Lemma bind_modify {B} (f : S -> S) (k : unit -> M S B) s :
  bind (modify f) k s = k tt (f s).
Proof. done. Qed.

Lemma bind_or_ub {A B} (o : option A) a (k : A -> M S B) s :
  o = Some a -> bind (or_ub o) k s = k a s.
Proof. by intros ->. Qed.

Lemma bind_assert {B} b (k : unit -> M S B) s : b = true -> bind (assert_ b) k s = k tt s.
Proof. by intros ->. Qed.

Lemma zoom_ok {T A} (get : T -> S) (set : S -> T -> T) (m : M S A) t a s' :
  m (get t) = Ok a s' -> zoom get set m t = Ok a (set s' t).
Proof. intros E. unfold zoom. by rewrite E. Qed.

Lemma bind_assoc {A B C} (m : M S A) (k : A -> M S B) (h : B -> M S C) s :
  bind (bind m k) h s = bind m (fun a => bind (k a) h) s.
Proof. unfold bind. by destruct (m s). Qed.

Lemma attempt_ok {A} (m : M S A) s a s' : m s = Ok a s' -> attempt m s = Ok (Some a) s'.
Proof. unfold attempt. by intros ->. Qed.

Lemma attempt_err {A} (m : M S A) s s' : m s = Err s' -> attempt m s = Ok None s'.
Proof. unfold attempt. by intros ->. Qed.

Lemma loop_S {A B} n (body : A -> M S (A + B)) a s :
  loop (Datatypes.S n) body a s =
  bind (body a) (fun r => match r with
                          | inl a' => loop n body a'
                          | inr b => ret b
                          end) s.
Proof. done. Qed.

Lemma loop_cont {A B} n (body : A -> M S (A + B)) a a' s s' :
  body a s = Ok (inl a') s' -> loop (Datatypes.S n) body a s = loop n body a' s'.
Proof. intros H. rewrite loop_S. by rewrite (bind_ok _ _ _ _ _ H). Qed.

(** A loop whose rounds change nothing but the loop variables. *)
Lemma pure_loop_ok {A B} (body : A -> M S (A + B)) (I : A -> Prop) (Q : B -> Prop) (f : A -> nat) s :
  (forall a, I a -> exists r, body a s = Ok r s /\ match r with inl a' => I a' /\ (f a' < f a)%nat | inr b => Q b end) ->
  forall fuel a, I a -> (f a < fuel)%nat -> exists b, loop fuel body a s = Ok b s /\ Q b.
Proof.
  intros Hbody fuel. induction fuel as [|fuel IH]; intros a Ha Hf; [lia|]. rewrite loop_S.
  destruct (Hbody a Ha) as ([a'|b] & E & H); rewrite (bind_ok _ _ _ _ _ E).
  - apply IH; [apply H|lia].
  - by exists b.
Qed.

Lemma iter_m_app {A} (f : A -> M S unit) l l' s : iter_m f (l ++ l') s = (iter_m f l ;;; iter_m f l') s.
Proof. revert s. induction l as [|x l IH]; intros s; [done|]. cbn. unfold bind in *. destruct (f x s); [apply IH|done..]. Qed.

Lemma fold_m_app {A B} (f : B -> A -> M S B) b l l' s :
  fold_m f b (l ++ l') s = (let! b := fold_m f b l in fold_m f b l') s.
Proof.
  revert b s. induction l as [|x l IH]; intros b s; [done|]. cbn. unfold bind in *. destruct (f b x s); [apply IH|done..].
Qed.

Lemma loop_ub {A B} n (body : A -> M S (A + B)) a s :
  body a s = Ub -> loop (Datatypes.S n) body a s = Ub.
Proof. intros H. rewrite loop_S. by rewrite (bind_ub _ _ _ H). Qed.
End equations.

(** ** Inversion of successful runs *)
Section inversion.
Context {S : Type}.

Lemma bind_ok_inv {A B} (m : M S A) (k : A -> M S B) s b s2 :
  bind m k s = Ok b s2 -> exists a s1, m s = Ok a s1 /\ k a s1 = Ok b s2.
Proof. unfold bind. destruct (m s) as [a s1|s1| |]; try done. by exists a, s1. Qed.

Lemma loop_ok_inv {A B} fuel (body : A -> M S (A + B)) a s b s2 :
  loop fuel body a s = Ok b s2 ->
  exists c, rtc (fun c c' => body (fst c) (snd c) = Ok (inl (fst c')) (snd c')) (a, s) c /\
            body (fst c) (snd c) = Ok (inr b) s2.
Proof.
  revert a s. induction fuel as [|n IH]; intros a s; [done|]. rewrite loop_S.
  intros (r & s1 & H1 & H2)%bind_ok_inv. destruct r as [a'|b'].
  - destruct (IH _ _ H2) as (c & Hc & Hb). exists c. split; [|done].
    by eapply (rtc_l _ _ (a', s1)).
  - exists (a, s). split; [done|]. injection H2 as <- <-. exact H1.
Qed.
End inversion.

Create Rewrite HintDb monad.
#[export] Hint Rewrite @bind_ret @bind_gets @bind_modify : monad.

(** One step of symbolic execution in the logic. *)
Ltac wp_step :=
  lazymatch goal with
  | |- wp (bind _ _) _ _ _ => apply wp_bind
  | |- wp (ret _) _ _ _ => apply wp_ret
  | |- wp fail _ _ _ => apply wp_fail
  | |- wp (gets _) _ _ _ => apply wp_gets
  | |- wp (modify _) _ _ _ => apply wp_modify
  | |- wp (attempt _) _ _ _ => apply wp_attempt
  | |- wp (if ?b then _ else _) _ _ _ => destruct b eqn:?
  end.

(** Arithmetic that mentions boolean tests. *)
Ltac zbool :=
  repeat match goal with
  | H : (_ =? _) = true |- _ => apply Z.eqb_eq in H
  | H : (_ =? _) = false |- _ => apply Z.eqb_neq in H
  | H : (_ <? _) = true |- _ => apply Z.ltb_lt in H
  | H : (_ <? _) = false |- _ => apply Z.ltb_ge in H
  | H : (_ <=? _) = true |- _ => apply Z.leb_le in H
  | H : (_ <=? _) = false |- _ => apply Z.leb_gt in H
  | H : andb _ _ = true |- _ => apply andb_prop in H; destruct H
  | H : negb _ = true |- _ => apply negb_true_iff in H
  | H : negb _ = false |- _ => apply negb_false_iff in H
  end.

(** Decide the tests between constants. *)
Ltac ztests :=
  repeat match goal with
  | |- context [Z.eqb ?a ?b] =>
      let r := eval compute in (Z.eqb a b) in
      match r with
      | true => change (Z.eqb a b) with true
      | false => change (Z.eqb a b) with false
      end
  | |- context [Z.leb ?a ?b] =>
      let r := eval compute in (Z.leb a b) in
      match r with
      | true => change (Z.leb a b) with true
      | false => change (Z.leb a b) with false
      end
  end; cbn [andb orb negb]; cbv iota.

(** ** Facts about machine integers *)

Lemma uwrap_small w x : 0 <= x < 2 ^ w -> uwrap w x = x.
Proof. intros. by apply Z.mod_small. Qed.

Lemma uwrap_range w x : 0 <= w -> 0 <= uwrap w x < 2 ^ w.
Proof. intros. apply Z.mod_pos_bound, Z.pow_pos_nonneg; lia. Qed.

Lemma swrap_small w x : 0 < w -> - 2 ^ (w - 1) <= x < 2 ^ (w - 1) -> swrap w x = x.
Proof.
  intros Hw Hx. unfold swrap.
  assert (2 ^ w = 2 * 2 ^ (w - 1)) as E.
  { rewrite <- Z.pow_succ_r by lia. f_equal. lia. }
  destruct (Z_lt_ge_dec x 0).
  - replace (x mod 2 ^ w) with (x + 2 ^ w).
    + destruct (Z.ltb_spec (x + 2 ^ w) (2 ^ (w - 1))); lia.
    + apply Z.mod_unique with (-1); lia.
  - rewrite Z.mod_small by lia.
    destruct (Z.ltb_spec x (2 ^ (w - 1))); lia.
Qed.

Lemma swrap_uwrap w x : 0 < w -> swrap w (uwrap w x) = swrap w x.
Proof.
  intros. unfold swrap, uwrap. rewrite Z.mod_mod; [done|].
  apply Z.pow_nonzero; lia.
Qed.

Lemma uwrap_swrap w x : 0 < w -> uwrap w (swrap w x) = uwrap w x.
Proof.
  intros. unfold swrap, uwrap. cbv zeta.
  assert (2 ^ w <> 0) by (apply Z.pow_nonzero; lia).
  destruct (x mod 2 ^ w <? 2 ^ (w - 1)).
  - by rewrite Z.mod_mod.
  - pose proof (Z.mod_pos_bound x (2 ^ w)).
    assert (0 < 2 ^ w) by (apply Z.pow_pos_nonneg; lia).
    symmetry. apply Z.mod_unique with (-1); lia.
Qed.

Lemma uwrap_uwrap_le w k x : 0 <= w <= k -> uwrap w (uwrap k x) = uwrap w x.
Proof.
  intros H. unfold uwrap. replace (2 ^ k) with (2 ^ w * 2 ^ (k - w)).
  - rewrite Z.rem_mul_r by (apply Z.pow_nonzero || apply Z.pow_pos_nonneg; lia).
    rewrite Z.mul_comm, Z.mod_add by (apply Z.pow_nonzero; lia).
    apply Z.mod_mod, Z.pow_nonzero; lia.
  - rewrite <- Z.pow_add_r by lia. f_equal. lia.
Qed.

(** Truncating first to a wider type does not matter. *)
Lemma swrap_uwrap_le w k x : 0 < w <= k -> swrap w (uwrap k x) = swrap w x.
Proof.
  intros H. rewrite <- (swrap_uwrap w (uwrap k x)), uwrap_uwrap_le by lia.
  apply swrap_uwrap. lia.
Qed.

Lemma uwrap_uwrap w x : 0 <= w -> uwrap w (uwrap w x) = uwrap w x.
Proof. intros. apply Z.mod_mod, Z.pow_nonzero; lia. Qed.

Lemma swrap_range w x : 0 < w -> - 2 ^ (w - 1) <= swrap w x < 2 ^ (w - 1).
Proof.
  intros Hw. unfold swrap. cbv zeta.
  assert (2 ^ w = 2 * 2 ^ (w - 1)) as E.
  { rewrite <- Z.pow_succ_r by lia. f_equal. lia. }
  assert (0 < 2 ^ (w - 1)) by (apply Z.pow_pos_nonneg; lia).
  pose proof (Z.mod_pos_bound x (2 ^ w)).
  destruct (Z.ltb_spec (x mod 2 ^ w) (2 ^ (w - 1))); lia.
Qed.

Lemma size_bits_bound `{!Platform} : 2 ^ 32 <= 2 ^ size_bits <= 2 ^ 64.
Proof. destruct size_bits_cases as [-> | ->]; lia. Qed.

Lemma usize_small `{!Platform} x : 0 <= x < 2 ^ size_bits -> usize x = x.
Proof. apply uwrap_small. Qed.

Lemma usize_small_32 `{!Platform} x : 0 <= x < 2 ^ 32 -> usize x = x.
Proof. intros. apply usize_small. pose proof size_bits_bound. lia. Qed.

Lemma ptr_size_cases `{!Platform} : ptr_size = 4 \/ ptr_size = 8.
Proof. unfold ptr_size. by destruct size_bits_cases as [-> | ->]; [left|right]. Qed.

Lemma land_7F_range x : 0 <= Z.land x 127 < 128.
Proof. change 127 with (Z.ones 7). rewrite Z.land_ones by lia. apply Z.mod_pos_bound; lia. Qed.

Lemma land_7F x : Z.land x 127 = x mod 128.
Proof. change 127 with (Z.ones 7). by rewrite Z.land_ones by lia. Qed.

(** A decidable fact about bytes holds if it holds of each of the 256. *)
Lemma byte_cases (f : Z -> bool) :
  forallb f (seqZ 0 256) = true -> forall x, 0 <= x < 256 -> f x = true.
Proof.
  intros H x Hx. rewrite forallb_forall in H. apply H.
  apply list_elem_of_In, elem_of_seqZ. lia.
Qed.

(** The continuation bit of a byte. *)
Lemma land_80 x : 0 <= x < 256 -> Z.land x 128 = if x <? 128 then 0 else 128.
Proof.
  intros Hx. apply Z.eqb_eq.
  by apply (byte_cases (fun x => Z.land x 128 =? if x <? 128 then 0 else 128)).
Qed.

(** Joining two bit fields that do not overlap. *)
Lemma lor_shiftl_add x y n :
  0 <= n -> 0 <= x < 2 ^ n -> Z.lor x (Z.shiftl y n) = x + y * 2 ^ n.
Proof.
  intros Hn Hx.
  assert (Z.land x (Z.shiftl y n) = 0) as Hd.
  { apply Z.bits_inj'. intros i Hi. rewrite Z.land_spec, Z.bits_0, Z.shiftl_spec by lia.
    destruct (Z_lt_ge_dec i n).
    - rewrite (Z.testbit_neg_r y) by lia. apply andb_false_r.
    - rewrite <- (Z.mod_small x (2 ^ n)) by lia.
      rewrite Z.mod_pow2_bits_high by lia. done. }
  rewrite <- Z.lxor_lor, <- Z.add_nocarry_lxor by done.
  by rewrite Z.shiftl_mul_pow2.
Qed.

Lemma uwrap_shiftl w y n :
  0 <= n <= w -> uwrap w (Z.shiftl y n) = Z.shiftl (y mod 2 ^ (w - n)) n.
Proof.
  intros Hn. unfold uwrap. rewrite !Z.shiftl_mul_pow2 by lia.
  replace (2 ^ w) with (2 ^ (w - n) * 2 ^ n).
  - apply Z.mul_mod_distr_r; apply Z.pow_nonzero; lia.
  - rewrite <- Z.pow_add_r by lia. f_equal. lia.
Qed.

(** ** Lists *)

Lemma filter_all {A} (f : A -> bool) l : Forall (fun x => f x = true) l -> List.filter f l = l.
Proof. induction 1 as [|x l Hx _ IH]; [done|]. cbn. by rewrite Hx, IH. Qed.

Lemma filter_none {A} (f : A -> bool) l : Forall (fun x => f x = false) l -> List.filter f l = [].
Proof. induction 1 as [|x l Hx _ IH]; [done|]. cbn. by rewrite Hx, IH. Qed.

Lemma filter_opt_some {A} (f : A -> option bool) (g : A -> bool) l :
  Forall (fun x => f x = Some (g x)) l -> filter_opt f l = Some (List.filter g l).
Proof. induction 1 as [|x l E _ IH]; [done|]. cbn. rewrite E, IH. cbn. by destruct (g x). Qed.

Lemma elem_of_concat {A} (B : list (list A)) x : x ∈ concat B <-> exists i c, B !! i = Some c /\ x ∈ c.
Proof.
  rewrite list_elem_of_In, in_concat. split.
  - intros (c & Hc & Hx). apply list_elem_of_In, list_elem_of_lookup in Hc as (i & Hi).
    exists i, c. by rewrite list_elem_of_In.
  - intros (i & c & Hi & Hx). exists c. rewrite <- !list_elem_of_In. split; [by eapply list_elem_of_lookup_2|done].
Qed.
