(* ===== verification/Memory.v ===== *)
(** * Memory

    The memory of the C program: a finite map from addresses to bytes.  An
    access to an unmapped address is undefined behaviour.  Multi-byte values are
    little-endian, as on the ARM and x86 devices the application is built for.
    Alignment and effective types are not tracked; address 0 is the null pointer
    and is never mapped in the states the theorems are about. *)

From Stdlib Require Import ZArith Lia.
From stdpp Require Import base option list strings gmap.
From S2P Require Import Prelude.

Abbreviation mem := (gmap Z Z).

(** Little-endian representation. *)
Fixpoint le_split (n : nat) (v : Z) : list Z :=
  match n with
  | O => []
  | S n => Z.land v 255 :: le_split n (Z.shiftr v 8)
  end.

Fixpoint le_combine (l : list Z) : Z :=
  match l with
  | [] => 0
  | b :: l => b + 256 * le_combine l
  end.

Fixpoint mem_load (m : mem) (a : Z) (n : nat) : option (list Z) :=
  match n with
  | O => Some []
  | S n =>
      match m !! a, mem_load m (a + 1) n with
      | Some b, Some l => Some (b :: l)
      | _, _ => None
      end
  end.

Fixpoint mem_store (m : mem) (a : Z) (l : list Z) : option mem :=
  match l with
  | [] => Some m
  | b :: l =>
      match m !! a with
      | Some _ => mem_store (<[a := b]> m) (a + 1) l
      | None => None
      end
  end.

(** The byte-by-byte copy [for (i = 0; i < n; i++) dst[i] = src[i];]. *)
Fixpoint mem_copy (m : mem) (dst src : Z) (n : nat) : option mem :=
  match n with
  | O => Some m
  | S n =>
      match m !! src, m !! dst with
      | Some b, Some _ => mem_copy (<[dst := b]> m) (dst + 1) (src + 1) n
      | _, _ => None
      end
  end.

(** The first address above every mapped one: where the storage of an
    addressable local array is placed. *)
Definition mem_fresh (m : mem) : Z :=
  map_fold (fun a _ acc => Z.max acc (a + 1)) 1 m.

Fixpoint mem_alloc (m : mem) (a : Z) (l : list Z) : mem :=
  match l with
  | [] => m
  | b :: l => mem_alloc (<[a := b]> m) (a + 1) l
  end.

Fixpoint mem_free (m : mem) (a : Z) (n : nat) : mem :=
  match n with
  | O => m
  | S n => mem_free (delete a m) (a + 1) n
  end.

(** ** Operations on a state that contains a memory *)

Class HasMem (S : Type) := {
  get_mem : S -> mem;
  set_mem : mem -> S -> S
}.

(** The two components of a state do not interfere. *)
Class HasMemLaws (S : Type) `{!HasMem S} := {
  get_set_mem m s : get_mem (set_mem m s) = m;
  set_set_mem m m' s : set_mem m (set_mem m' s) = set_mem m s
}.

Section mem_ops.
Context {St : Type} {HM : HasMem St}.

Definition load_bytes (a : Z) (n : nat) : M St (list Z) := fun s =>
  match mem_load (get_mem s) a n with Some l => Ok l s | None => Ub end.

Definition store_bytes (a : Z) (l : list Z) : M St unit := fun s =>
  match mem_store (get_mem s) a l with Some m => Ok tt (set_mem m s) | None => Ub end.

Definition copy_bytes (dst src : Z) (n : nat) : M St unit := fun s =>
  match mem_copy (get_mem s) dst src n with Some m => Ok tt (set_mem m s) | None => Ub end.

Definition load_le (n : nat) (a : Z) : M St Z :=
  let! l := load_bytes a n in ret (le_combine l).

Definition store_le (n : nat) (a v : Z) : M St unit :=
  store_bytes a (le_split n v).

(** An object of type [bool] holds 0 or 1; reading any other representation is
    undefined. *)
Definition load_bool (a : Z) : M St bool :=
  let! v := load_le 1 a in
  if v =? 0 then ret false else if v =? 1 then ret true else ub.

Definition store_bool (a : Z) (b : bool) : M St unit :=
  store_le 1 a (if b then 1 else 0).

Definition load_ptr `{!Platform} (a : Z) : M St Z :=
  load_le (Z.to_nat ptr_size) a.

Definition memset (a c n : Z) : M St unit :=
  store_bytes a (replicate (Z.to_nat n) (u8 c)).

Definition memcpy (dst src n : Z) : M St unit :=
  let! l := load_bytes src (Z.to_nat n) in store_bytes dst l.

End mem_ops.

(** ** Regions *)

(** Every address of [lo, hi) is mapped. *)
Definition mapped (m : mem) (lo hi : Z) : Prop :=
  forall x, lo <= x < hi -> is_Some (m !! x).

(** The two memories agree outside [lo, hi). *)
Definition agree_off (lo hi : Z) (m m' : mem) : Prop :=
  forall x, ~ (lo <= x < hi) -> m' !! x = m !! x.

(** The two memories agree on [lo, hi). *)
Definition agree_on (lo hi : Z) (m m' : mem) : Prop :=
  forall x, lo <= x < hi -> m' !! x = m !! x.

(** The memory after a write of [lo, hi): same outside, still mapped. *)
Definition mem_le (lo hi : Z) (m m' : mem) : Prop :=
  agree_off lo hi m m' /\ forall x, is_Some (m !! x) -> is_Some (m' !! x).

Definition is_byte (b : Z) : Prop := 0 <= b < 256.

Definition mem_bytes (m : mem) : Prop := forall a b, m !! a = Some b -> is_byte b.

#[export] Instance agree_off_equiv lo hi : Equivalence (agree_off lo hi).
Proof.
  split.
  - intros m x _. done.
  - intros m m' H x Hx. symmetry. by apply H.
  - intros m1 m2 m3 H1 H2 x Hx. rewrite H2 by done. by apply H1.
Qed.

#[export] Instance agree_on_equiv lo hi : Equivalence (agree_on lo hi).
Proof.
  split.
  - intros m x _. done.
  - intros m m' H x Hx. symmetry. by apply H.
  - intros m1 m2 m3 H1 H2 x Hx. rewrite H2 by done. by apply H1.
Qed.

#[export] Instance mem_le_preorder lo hi : PreOrder (mem_le lo hi).
Proof.
  split.
  - intros m. split; [done|]. auto.
  - intros m1 m2 m3 [H1 D1] [H2 D2]. split; [by etrans|]. auto.
Qed.

Lemma mem_le_weaken lo hi lo' hi' m m' :
  mem_le lo hi m m' -> lo' <= lo -> hi <= hi' -> mem_le lo' hi' m m'.
Proof. intros [H D] ??. split; [|done]. intros x Hx. apply H. lia. Qed.

Lemma mapped_le lo hi lo' hi' m m' :
  mem_le lo hi m m' -> mapped m lo' hi' -> mapped m' lo' hi'.
Proof. intros [_ D] H x Hx. apply D, H, Hx. Qed.

Lemma mapped_sub m lo hi lo' hi' : mapped m lo hi -> lo <= lo' -> hi' <= hi -> mapped m lo' hi'.
Proof. intros H ?? x Hx. apply H. lia. Qed.

(** ** Little-endian lemmas *)

Lemma le_split_length n v : length (le_split n v) = n.
Proof. revert v. induction n as [|n IH]; intros v; cbn; [done|]. by rewrite IH. Qed.

Lemma le_split_bytes n v : Forall is_byte (le_split n v).
Proof.
  revert v. induction n as [|n IH]; intros v; cbn; [constructor|].
  constructor; [|apply IH]. unfold is_byte.
  change 255 with (Z.ones 8). rewrite Z.land_ones by lia.
  apply Z.mod_pos_bound. lia.
Qed.

Lemma le_combine_split n v : le_combine (le_split n v) = uwrap (8 * Z.of_nat n) v.
Proof.
  revert v. induction n as [|n IH]; intros v; cbn [le_split le_combine].
  - unfold uwrap. cbn. by rewrite Z.mod_1_r.
  - rewrite IH. unfold uwrap.
    change 255 with (Z.ones 8). rewrite Z.land_ones, Z.shiftr_div_pow2 by lia.
    replace (8 * Z.of_nat (S n)) with (8 + 8 * Z.of_nat n) by lia.
    rewrite Z.pow_add_r by lia. change (2 ^ 8) with 256.
    assert (0 < 2 ^ (8 * Z.of_nat n)) by (apply Z.pow_pos_nonneg; lia).
    rewrite Z.rem_mul_r by lia. lia.
Qed.

Lemma le_combine_range l :
  Forall is_byte l -> 0 <= le_combine l < 2 ^ (8 * Z.of_nat (length l)).
Proof.
  induction 1 as [|b l Hb _ IH]; cbn [le_combine length]; [cbn; lia|].
  replace (8 * Z.of_nat (S (length l))) with (8 + 8 * Z.of_nat (length l)) by lia.
  rewrite Z.pow_add_r by lia. unfold is_byte in Hb. lia.
Qed.

Lemma le_split_combine l : Forall is_byte l -> le_split (length l) (le_combine l) = l.
Proof.
  induction 1 as [|b l Hb Hl IH]; cbn [le_split le_combine length]; [done|].
  unfold is_byte in Hb.
  change 255 with (Z.ones 8). rewrite Z.land_ones, Z.shiftr_div_pow2 by lia.
  change (2 ^ 8) with 256. f_equal.
  - rewrite Z.mul_comm, Z.mod_add by lia. by apply Z.mod_small.
  - rewrite (Z.mul_comm 256), Z.div_add by lia. by rewrite Z.div_small by lia.
Qed.

(** ** Loads and stores *)

Lemma mem_load_lookup m a n l :
  mem_load m a n = Some l <->
  length l = n /\ forall i : nat, (i < n)%nat -> m !! (a + Z.of_nat i) = l !! i.
Proof.
  revert a l. induction n as [|n IH]; intros a l; cbn.
  - split.
    + intros [= <-]. split; [done|]. lia.
    + intros [Hl _]. by destruct l.
  - split.
    + intros H. destruct (m !! a) as [b|] eqn:Ha; [|done].
      destruct (mem_load m (a + 1) n) as [l'|] eqn:Hl; [|done].
      injection H as <-. apply IH in Hl as [Hlen Hl]. split; [cbn; lia|].
      intros [|i] Hi; cbn; [by rewrite Z.add_0_r|].
      rewrite <- Hl by lia. f_equal. lia.
    + intros [Hlen H]. destruct l as [|b l]; [done|]. cbn in Hlen.
      pose proof (H 0%nat ltac:(lia)) as H0. cbn in H0. rewrite Z.add_0_r in H0.
      rewrite H0. replace (mem_load m (a + 1) n) with (Some l); [done|].
      symmetry. apply IH. split; [lia|]. intros i Hi.
      change (l !! i) with ((b :: l) !! S i). rewrite <- H by lia. f_equal. lia.
Qed.

Lemma mem_load_length m a n l : mem_load m a n = Some l -> length l = n.
Proof. intros H. by apply mem_load_lookup in H as [? _]. Qed.

Lemma mem_load_mapped m a n :
  mapped m a (a + Z.of_nat n) -> exists l, mem_load m a n = Some l /\ length l = n.
Proof.
  revert a. induction n as [|n IH]; intros a H; cbn; [by exists []|].
  destruct (H a ltac:(lia)) as [b ->].
  destruct (IH (a + 1)) as (l & -> & Hl); [intros x Hx; apply H; lia|].
  exists (b :: l). cbn. auto.
Qed.

Lemma mem_load_bytes m a n l : mem_bytes m -> mem_load m a n = Some l -> Forall is_byte l.
Proof.
  intros Hm. revert a l. induction n as [|n IH]; intros a l H; cbn in H.
  - injection H as <-. constructor.
  - destruct (m !! a) as [b|] eqn:Ha; [|done].
    destruct (mem_load m (a + 1) n) as [l'|] eqn:Hl; [|done].
    injection H as <-. constructor; [by eapply Hm|by eapply IH].
Qed.

Lemma mem_load_agree m m' a n :
  agree_on a (a + Z.of_nat n) m m' -> mem_load m' a n = mem_load m a n.
Proof.
  revert a. induction n as [|n IH]; intros a H; cbn; [done|].
  rewrite (H a) by lia. rewrite IH; [done|]. intros x Hx. apply H. lia.
Qed.

Lemma mem_load_app m a n1 n2 l1 l2 :
  mem_load m a n1 = Some l1 -> mem_load m (a + Z.of_nat n1) n2 = Some l2 ->
  mem_load m a (n1 + n2) = Some (l1 ++ l2).
Proof.
  revert a l1. induction n1 as [|n1 IH]; intros a l1 H1 H2; cbn in H1.
  - injection H1 as <-. cbn. by rewrite Z.add_0_r in H2.
  - cbn [plus mem_load]. destruct (m !! a) as [b|]; [|done].
    destruct (mem_load m (a + 1) n1) as [l|] eqn:El; [|done].
    injection H1 as <-. rewrite (IH (a + 1) l); [done|done|].
    rewrite <- H2. f_equal. lia.
Qed.

Lemma mem_store_mapped m a l :
  mapped m a (a + Z.of_nat (length l)) -> exists m', mem_store m a l = Some m'.
Proof.
  revert m a. induction l as [|b l IH]; intros m a H; cbn; [by eexists|].
  cbn in H. destruct (H a ltac:(lia)) as [b' ->].
  apply IH. intros x Hx. rewrite lookup_insert. case_decide; [done|]. apply H. lia.
Qed.

Lemma mem_store_lookup m a l m' x :
  mem_store m a l = Some m' ->
  m' !! x = if decide (a <= x < a + Z.of_nat (length l)) then l !! Z.to_nat (x - a)
            else m !! x.
Proof.
  revert m a. induction l as [|b l IH]; intros m a H; cbn in H.
  - injection H as ->. cbn. rewrite decide_False by lia. done.
  - destruct (m !! a) eqn:Ha; [|done]. rewrite (IH _ _ H). cbn [length].
    destruct (decide (x = a)) as [->|Hne].
    + rewrite decide_False by lia. rewrite lookup_insert_eq, decide_True by lia.
      by rewrite Z.sub_diag.
    + rewrite lookup_insert_ne by done.
      destruct (decide (a + 1 <= x < a + 1 + Z.of_nat (length l))).
      * rewrite decide_True by lia.
        replace (Z.to_nat (x - a)) with (S (Z.to_nat (x - (a + 1)))) by lia. done.
      * rewrite decide_False by lia. done.
Qed.

Lemma mem_store_le m a l m' :
  mem_store m a l = Some m' -> mem_le a (a + Z.of_nat (length l)) m m'.
Proof.
  intros H. split.
  - intros x Hx. rewrite (mem_store_lookup _ _ _ _ x H). by rewrite decide_False.
  - intros x Hx. rewrite (mem_store_lookup _ _ _ _ x H). case_decide; [|done].
    apply lookup_lt_is_Some. lia.
Qed.

Lemma mem_store_bytes m a l m' :
  mem_store m a l = Some m' -> Forall is_byte l -> mem_bytes m -> mem_bytes m'.
Proof.
  intros H Hl Hm x b. rewrite (mem_store_lookup _ _ _ _ x H). case_decide.
  - intros Hb. eapply Forall_lookup_1; eauto.
  - apply Hm.
Qed.

Lemma mem_load_store m a l m' :
  mem_store m a l = Some m' -> mem_load m' a (length l) = Some l.
Proof.
  intros H. apply mem_load_lookup. split; [done|]. intros i Hi.
  rewrite (mem_store_lookup _ _ _ _ _ H), decide_True by lia. f_equal. lia.
Qed.

Lemma mem_load_store_ne m a l m' b n :
  mem_store m a l = Some m' ->
  b + Z.of_nat n <= a \/ a + Z.of_nat (length l) <= b ->
  mem_load m' b n = mem_load m b n.
Proof.
  intros H Hd. apply mem_load_agree. intros x Hx.
  rewrite (mem_store_lookup _ _ _ _ _ H), decide_False by lia. done.
Qed.

Lemma mem_store_idem m a l m' : mem_store m a l = Some m' -> mem_store m' a l = Some m'.
Proof.
  intros H. destruct (mem_store_mapped m' a l) as [m2 H2].
  - intros x Hx. rewrite (mem_store_lookup _ _ _ _ x H), decide_True by lia.
    apply lookup_lt_is_Some. lia.
  - rewrite H2. f_equal. apply map_eq. intros x.
    rewrite (mem_store_lookup _ _ _ _ x H2). case_decide; [|done].
    by rewrite (mem_store_lookup _ _ _ _ x H), decide_True by lia.
Qed.

(** A copy between disjoint regions is a load followed by a store. *)
Lemma mem_copy_disjoint m dst src n :
  dst + Z.of_nat n <= src \/ src + Z.of_nat n <= dst ->
  mem_copy m dst src n =
  match mem_load m src n with Some l => mem_store m dst l | None => None end.
Proof.
  revert m dst src. induction n as [|n IH]; intros m dst src H; cbn; [done|].
  destruct (m !! src) as [b|] eqn:Hs; [|done].
  destruct (m !! dst) as [b'|] eqn:Hd.
  - rewrite IH by lia.
    rewrite (mem_load_agree m (<[dst:=b]> m)).
    + destruct (mem_load m (src + 1) n) as [l|]; [|done]. cbn. by rewrite Hd.
    + intros x Hx. rewrite lookup_insert_ne by lia. done.
  - destruct (mem_load m (src + 1) n); [|done]. cbn. by rewrite Hd.
Qed.

Lemma mem_copy_mapped m dst src n :
  mapped m dst (dst + Z.of_nat n) -> mapped m src (src + Z.of_nat n) ->
  exists m', mem_copy m dst src n = Some m' /\ mem_le dst (dst + Z.of_nat n) m m'
             /\ (mem_bytes m -> mem_bytes m').
Proof.
  revert m dst src. induction n as [|n IH]; intros m dst src Hd Hs; cbn.
  - exists m. split; [done|]. split; [done|]. auto.
  - destruct (Hs src ltac:(lia)) as [b Hb], (Hd dst ltac:(lia)) as [b' Hb'].
    rewrite Hb, Hb'.
    assert (mem_le dst (dst + Z.of_nat (S n)) m (<[dst:=b]> m)) as Hle.
    { split.
      - intros x Hx. rewrite lookup_insert_ne by lia. done.
      - intros x Hx. rewrite lookup_insert. by case_decide. }
    destruct (IH (<[dst:=b]> m) (dst + 1) (src + 1)) as (m' & Hm' & Hle' & Hby).
    { eapply mapped_le; [done|]. eapply mapped_sub; [exact Hd|lia..]. }
    { eapply mapped_le; [done|]. eapply mapped_sub; [exact Hs|lia..]. }
    exists m'. split; [done|]. split.
    + etrans; [done|]. eapply mem_le_weaken; [done|lia..].
    + intros Hm. apply Hby. intros x c. rewrite lookup_insert.
      case_decide; [intros [= <-]; by eapply Hm|apply Hm].
Qed.

(** What a copy between disjoint regions leaves. *)
Lemma mem_copy_lookup m dst src n :
  mapped m dst (dst + Z.of_nat n) -> mapped m src (src + Z.of_nat n) ->
  dst + Z.of_nat n <= src \/ src + Z.of_nat n <= dst ->
  exists m', mem_copy m dst src n = Some m' /\
    forall x, m' !! x = if decide (dst <= x < dst + Z.of_nat n)
                        then m !! (src + (x - dst)) else m !! x.
Proof.
  intros Hd Hs Hdis. rewrite mem_copy_disjoint by done.
  destruct (mem_load_mapped _ _ _ Hs) as (l & Hl & Hlen). rewrite Hl.
  destruct (mem_store_mapped m dst l) as [m' Hm']; [by rewrite Hlen|].
  exists m'. split; [done|]. intros x. rewrite (mem_store_lookup _ _ _ _ x Hm'), Hlen.
  case_decide; [|done]. apply mem_load_lookup in Hl as [_ Hl].
  rewrite <- Hl by lia. f_equal. lia.
Qed.

(** ** Storage of local arrays *)

Lemma mem_fresh_spec m x : is_Some (m !! x) -> x < mem_fresh m.
Proof.
  unfold mem_fresh.
  apply (map_fold_weak_ind (fun r m => is_Some (m !! x) -> x < r)).
  - rewrite lookup_empty. by intros [? ?].
  - intros a b m' r Hn IH. rewrite lookup_insert. case_decide; intros H'; [subst; lia|].
    specialize (IH H'). lia.
Qed.

Lemma mem_fresh_pos m : 0 < mem_fresh m.
Proof.
  unfold mem_fresh.
  apply (map_fold_weak_ind (fun r m => 0 < r)); [lia|]. intros. lia.
Qed.

Lemma mem_alloc_lookup m a l x :
  mem_alloc m a l !! x =
  if decide (a <= x < a + Z.of_nat (length l)) then l !! Z.to_nat (x - a) else m !! x.
Proof.
  revert m a. induction l as [|b l IH]; intros m a; cbn.
  - rewrite decide_False by lia. done.
  - rewrite IH. destruct (decide (x = a)) as [->|Hne].
    + rewrite decide_False by lia. rewrite lookup_insert_eq, decide_True by lia.
      by rewrite Z.sub_diag.
    + rewrite lookup_insert_ne by done.
      destruct (decide (a + 1 <= x < a + 1 + Z.of_nat (length l))).
      * rewrite decide_True by lia.
        replace (Z.to_nat (x - a)) with (S (Z.to_nat (x - (a + 1)))) by lia. done.
      * rewrite decide_False by lia. done.
Qed.

Lemma mem_free_lookup m a n x :
  mem_free m a n !! x = if decide (a <= x < a + Z.of_nat n) then None else m !! x.
Proof.
  revert m a. induction n as [|n IH]; intros m a; cbn [mem_free].
  - rewrite decide_False by lia. done.
  - rewrite IH, lookup_delete. repeat case_decide; try lia; done.
Qed.

(** ** Lists of bytes, decidably *)

Definition all_bytes (l : list Z) : bool := forallb (fun b => (0 <=? b) && (b <? 256)) l.

Lemma all_bytes_Forall l : all_bytes l = true -> Forall is_byte l.
Proof.
  unfold all_bytes. rewrite forallb_forall. intros H. apply list.Forall_forall.
  intros b Hb. apply list_elem_of_In in Hb. specialize (H b Hb). zbool. unfold is_byte. lia.
Qed.
