(* ===== verification/Descr.v ===== *)
(** * Field descriptors and the field iterator (pb.h, pb_common.c)

    The type codes, the descriptor record [pb_field_t] with its widths under the
    build's PB_FIELD_32BIT setting, the layouts of the structures shared with
    user code, and the PB_FIELD macros that generated code uses to build
    descriptor arrays from the layout of a C struct.  Then the iterator over the
    fields of a message. *)

From Stdlib Require Import ZArith Lia.
From stdpp Require Import base option list strings gmap.
From S2P Require Import Prelude Memory.

(** ** Type codes *)

Definition PB_LTYPE_VARINT : Z := 0x00.
Definition PB_LTYPE_UVARINT : Z := 0x01.
Definition PB_LTYPE_SVARINT : Z := 0x02.
Definition PB_LTYPE_FIXED32 : Z := 0x03.
Definition PB_LTYPE_FIXED64 : Z := 0x04.
Definition PB_LTYPE_LAST_PACKABLE : Z := 0x04.
Definition PB_LTYPE_BYTES : Z := 0x05.
Definition PB_LTYPE_STRING : Z := 0x06.
Definition PB_LTYPE_SUBMESSAGE : Z := 0x07.
Definition PB_LTYPE_EXTENSION : Z := 0x08.
Definition PB_LTYPE_FIXED_LENGTH_BYTES : Z := 0x09.
Definition PB_LTYPES_COUNT : Z := 0x0A.
Definition PB_LTYPE_MASK : Z := 0x0F.

Definition PB_HTYPE_REQUIRED : Z := 0x00.
Definition PB_HTYPE_OPTIONAL : Z := 0x10.
Definition PB_HTYPE_REPEATED : Z := 0x20.
Definition PB_HTYPE_ONEOF : Z := 0x30.
Definition PB_HTYPE_MASK : Z := 0x30.

Definition PB_ATYPE_STATIC : Z := 0x00.
Definition PB_ATYPE_POINTER : Z := 0x80.
Definition PB_ATYPE_CALLBACK : Z := 0x40.
Definition PB_ATYPE_MASK : Z := 0xC0.

Definition PB_ATYPE (x : Z) : Z := Z.land x PB_ATYPE_MASK.
Definition PB_HTYPE (x : Z) : Z := Z.land x PB_HTYPE_MASK.
Definition PB_LTYPE (x : Z) : Z := Z.land x PB_LTYPE_MASK.

(** [pb_size_t] is [uint32_t] and [pb_ssize_t] is [int32_t] (PB_FIELD_32BIT). *)
Definition PB_SIZE_MAX : Z := 2 ^ 32 - 1.
Definition sizeof_pb_size_t : nat := 4.

Definition PB_MAX_REQUIRED_FIELDS : Z := 64.

(** Wire types; a tag read from the wire can also carry 3, 4, 6 and 7. *)
Definition PB_WT_VARINT : Z := 0.
Definition PB_WT_64BIT : Z := 1.
Definition PB_WT_STRING : Z := 2.
Definition PB_WT_32BIT : Z := 5.

(** ** Descriptors *)

(** [pf_ptr] is an address: of the submessage's descriptor array, of the default
    value, or 0. *)
Record pb_field_t := mk_pb_field {
  pf_tag : Z;
  pf_type : Z;
  pf_data_offset : Z;
  pf_size_offset : Z;
  pf_data_size : Z;
  pf_array_size : Z;
  pf_ptr : Z
}.

#[export] Instance pb_field_t_eq_dec : EqDecision pb_field_t.
Proof. solve_decision. Defined.

(** The initializer [{tag, type, ...}]: each value is converted to the width of
    its member. *)
Definition pb_field_init (tag type data_offset size_offset data_size array_size ptr : Z)
    : pb_field_t :=
  {| pf_tag := u32 tag; pf_type := u8 type; pf_data_offset := u32 data_offset;
     pf_size_offset := s32 size_offset; pf_data_size := u32 data_size;
     pf_array_size := u32 array_size; pf_ptr := ptr |}.

Definition PB_LAST_FIELD : pb_field_t := pb_field_init 0 0 0 0 0 0 0.

(** Every member is in the range of its C type, the pointer excepted. *)
Definition well_typed (f : pb_field_t) : bool :=
  (0 <=? pf_tag f) && (pf_tag f <? 2 ^ 32) && (0 <=? pf_type f) && (pf_type f <? 2 ^ 8) &&
  (0 <=? pf_data_offset f) && (pf_data_offset f <? 2 ^ 32) &&
  (- 2 ^ 31 <=? pf_size_offset f) && (pf_size_offset f <? 2 ^ 31) &&
  (0 <=? pf_data_size f) && (pf_data_size f <? 2 ^ 32) &&
  (0 <=? pf_array_size f) && (pf_array_size f <? 2 ^ 32).

(** The descriptor arrays of the program, by address.  They are constants, not
    part of the writable memory; an array carries its terminator. *)
Class Descriptors := descriptors_at : Z -> option (list pb_field_t).

(** ** Structures shared with user code *)

Section layouts.
Context {PL : Platform}.

(** [struct pb_bytes_array_s { pb_size_t size; pb_byte_t bytes[1]; }] *)
Definition offsetof_bytes : Z := 4.

(** [(size_t)n + offsetof(pb_bytes_array_t, bytes)] *)
Definition PB_BYTES_ARRAY_T_ALLOCSIZE (n : Z) : Z := usize (usize n + offsetof_bytes).

(** [struct pb_callback_s { union { decode; encode } funcs; void *arg; }] *)
Definition callback_funcs (a : Z) : Z := a.
Definition callback_arg (a : Z) : Z := a + ptr_size.
Definition sizeof_callback : Z := 2 * ptr_size.

(** [struct pb_extension_type_s { decode; encode; const void *arg; }] *)
Definition ext_type_decode (a : Z) : Z := a.
Definition ext_type_encode (a : Z) : Z := a + ptr_size.
Definition ext_type_arg (a : Z) : Z := a + 2 * ptr_size.

(** [struct pb_extension_s { type; void *dest; next; bool found; }] *)
Definition ext_type (a : Z) : Z := a.
Definition ext_dest (a : Z) : Z := a + ptr_size.
Definition ext_next (a : Z) : Z := a + 2 * ptr_size.
Definition ext_found (a : Z) : Z := a + 3 * ptr_size.
End layouts.

(** ** Descriptor macros *)

Inductive pb_proto_type :=
  | BOOL | BYTES | DOUBLE | ENUM | UENUM | FIXED32 | FIXED64 | FLOAT | INT32 | INT64
  | MESSAGE | SFIXED32 | SFIXED64 | SINT32 | SINT64 | STRING | UINT32 | UINT64
  | EXTENSION | FIXED_LENGTH_BYTES.

Inductive pb_rules := REQUIRED | OPTIONAL | SINGULAR | REPEATED | OPTEXT.
Inductive pb_allocation := STATIC | POINTER | CALLBACK.
Inductive pb_oneof_allocation := ONEOF_STATIC | ONEOF_POINTER.
Inductive pb_placement := FIRST | OTHER | UNION.

Definition PB_LTYPE_MAP (t : pb_proto_type) : Z :=
  match t with
  | BOOL => PB_LTYPE_VARINT
  | BYTES => PB_LTYPE_BYTES
  | DOUBLE => PB_LTYPE_FIXED64
  | ENUM => PB_LTYPE_VARINT
  | UENUM => PB_LTYPE_UVARINT
  | FIXED32 => PB_LTYPE_FIXED32
  | FIXED64 => PB_LTYPE_FIXED64
  | FLOAT => PB_LTYPE_FIXED32
  | INT32 => PB_LTYPE_VARINT
  | INT64 => PB_LTYPE_VARINT
  | MESSAGE => PB_LTYPE_SUBMESSAGE
  | SFIXED32 => PB_LTYPE_FIXED32
  | SFIXED64 => PB_LTYPE_FIXED64
  | SINT32 => PB_LTYPE_SVARINT
  | SINT64 => PB_LTYPE_SVARINT
  | STRING => PB_LTYPE_STRING
  | UINT32 => PB_LTYPE_UVARINT
  | UINT64 => PB_LTYPE_UVARINT
  | EXTENSION => PB_LTYPE_EXTENSION
  | FIXED_LENGTH_BYTES => PB_LTYPE_FIXED_LENGTH_BYTES
  end.

(** What the macros take from a C struct: [offsetof(st, m)], [sizeof(st.m)],
    [sizeof(st.m[0])] and the offset of the member [has_m], [m_count] or
    [which_u] that goes with [m]. *)
Record member := mk_member {
  m_offset : Z;
  pb_membersize : Z;
  pb_membersize_0 : Z;
  m_companion : Z
}.

Definition pb_arraysize (m : member) : Z := pb_membersize m / pb_membersize_0 m.
Definition pb_delta (m : member) : Z := m_companion m - m_offset m.

Definition PB_DATAOFFSET (p : pb_placement) (m1 m2 : member) : Z :=
  match p with
  | FIRST => m_offset m1
  | OTHER => m_offset m1 - m_offset m2 - pb_membersize m2
  | UNION => PB_SIZE_MAX
  end.

Definition PB_REQUIRED_STATIC (tag : Z) (m : member) (fd ltype ptr : Z) : pb_field_t :=
  pb_field_init tag (Z.lor (Z.lor PB_ATYPE_STATIC PB_HTYPE_REQUIRED) ltype)
    fd 0 (pb_membersize m) 0 ptr.

Definition PB_OPTIONAL_STATIC (tag : Z) (m : member) (fd ltype ptr : Z) : pb_field_t :=
  pb_field_init tag (Z.lor (Z.lor PB_ATYPE_STATIC PB_HTYPE_OPTIONAL) ltype)
    fd (pb_delta m) (pb_membersize m) 0 ptr.

Definition PB_SINGULAR_STATIC (tag : Z) (m : member) (fd ltype ptr : Z) : pb_field_t :=
  pb_field_init tag (Z.lor (Z.lor PB_ATYPE_STATIC PB_HTYPE_OPTIONAL) ltype)
    fd 0 (pb_membersize m) 0 ptr.

Definition PB_REPEATED_STATIC (tag : Z) (m : member) (fd ltype ptr : Z) : pb_field_t :=
  pb_field_init tag (Z.lor (Z.lor PB_ATYPE_STATIC PB_HTYPE_REPEATED) ltype)
    fd (pb_delta m) (pb_membersize_0 m) (pb_arraysize m) ptr.

Definition PB_REQUIRED_POINTER (tag : Z) (m : member) (fd ltype ptr : Z) : pb_field_t :=
  pb_field_init tag (Z.lor (Z.lor PB_ATYPE_POINTER PB_HTYPE_REQUIRED) ltype)
    fd 0 (pb_membersize_0 m) 0 ptr.

Definition PB_OPTIONAL_POINTER (tag : Z) (m : member) (fd ltype ptr : Z) : pb_field_t :=
  pb_field_init tag (Z.lor (Z.lor PB_ATYPE_POINTER PB_HTYPE_OPTIONAL) ltype)
    fd 0 (pb_membersize_0 m) 0 ptr.

Definition PB_SINGULAR_POINTER (tag : Z) (m : member) (fd ltype ptr : Z) : pb_field_t :=
  PB_OPTIONAL_POINTER tag m fd ltype ptr.

Definition PB_REPEATED_POINTER (tag : Z) (m : member) (fd ltype ptr : Z) : pb_field_t :=
  pb_field_init tag (Z.lor (Z.lor PB_ATYPE_POINTER PB_HTYPE_REPEATED) ltype)
    fd (pb_delta m) (pb_membersize_0 m) 0 ptr.

Definition PB_CALLBACK (htype tag : Z) (m : member) (fd ltype ptr : Z) : pb_field_t :=
  pb_field_init tag (Z.lor (Z.lor PB_ATYPE_CALLBACK htype) ltype)
    fd 0 (pb_membersize m) 0 ptr.

Definition PB_OPTEXT_STATIC (tag : Z) (m : member) (fd ltype ptr : Z) : pb_field_t :=
  pb_field_init tag (Z.lor (Z.lor PB_ATYPE_STATIC PB_HTYPE_REQUIRED) ltype)
    0 0 (pb_membersize m) 0 ptr.

Definition PB_ONEOF_STATIC (tag : Z) (m : member) (fd ltype ptr : Z) : pb_field_t :=
  pb_field_init tag (Z.lor (Z.lor PB_ATYPE_STATIC PB_HTYPE_ONEOF) ltype)
    fd (pb_delta m) (pb_membersize m) 0 ptr.

Definition PB_ONEOF_POINTER (tag : Z) (m : member) (fd ltype ptr : Z) : pb_field_t :=
  pb_field_init tag (Z.lor (Z.lor PB_ATYPE_POINTER PB_HTYPE_ONEOF) ltype)
    fd (pb_delta m) (pb_membersize_0 m) 0 ptr.

Definition PB_FIELD (tag : Z) (type : pb_proto_type) (rules : pb_rules)
    (allocation : pb_allocation) (placement : pb_placement)
    (field prevfield : member) (ptr : Z) : pb_field_t :=
  let fd := PB_DATAOFFSET placement field prevfield in
  let ltype := PB_LTYPE_MAP type in
  match rules, allocation with
  | REQUIRED, STATIC => PB_REQUIRED_STATIC tag field fd ltype ptr
  | OPTIONAL, STATIC => PB_OPTIONAL_STATIC tag field fd ltype ptr
  | SINGULAR, STATIC => PB_SINGULAR_STATIC tag field fd ltype ptr
  | REPEATED, STATIC => PB_REPEATED_STATIC tag field fd ltype ptr
  | OPTEXT, STATIC => PB_OPTEXT_STATIC tag field fd ltype ptr
  | REQUIRED, POINTER => PB_REQUIRED_POINTER tag field fd ltype ptr
  | OPTIONAL, POINTER => PB_OPTIONAL_POINTER tag field fd ltype ptr
  | SINGULAR, POINTER => PB_SINGULAR_POINTER tag field fd ltype ptr
  | REPEATED, POINTER => PB_REPEATED_POINTER tag field fd ltype ptr
  | OPTEXT, POINTER => PB_OPTIONAL_POINTER tag field fd ltype ptr
  | REQUIRED, CALLBACK => PB_CALLBACK PB_HTYPE_REQUIRED tag field fd ltype ptr
  | OPTIONAL, CALLBACK => PB_CALLBACK PB_HTYPE_OPTIONAL tag field fd ltype ptr
  | SINGULAR, CALLBACK => PB_CALLBACK PB_HTYPE_OPTIONAL tag field fd ltype ptr
  | REPEATED, CALLBACK => PB_CALLBACK PB_HTYPE_REPEATED tag field fd ltype ptr
  | OPTEXT, CALLBACK => PB_CALLBACK PB_HTYPE_OPTIONAL tag field fd ltype ptr
  end.

Definition PB_ONEOF_FIELD (tag : Z) (type : pb_proto_type)
    (allocation : pb_oneof_allocation) (placement : pb_placement)
    (field prevfield : member) (ptr : Z) : pb_field_t :=
  let fd := PB_DATAOFFSET placement field prevfield in
  let ltype := PB_LTYPE_MAP type in
  match allocation with
  | ONEOF_STATIC => PB_ONEOF_STATIC tag field fd ltype ptr
  | ONEOF_POINTER => PB_ONEOF_POINTER tag field fd ltype ptr
  end.

(** The members of an anonymous union are members of the structure itself. *)
Definition PB_ANONYMOUS_ONEOF_STATIC (tag : Z) (m : member) (fd ltype ptr : Z) : pb_field_t :=
  pb_field_init tag (Z.lor (Z.lor PB_ATYPE_STATIC PB_HTYPE_ONEOF) ltype)
    fd (pb_delta m) (pb_membersize m) 0 ptr.

Definition PB_ANONYMOUS_ONEOF_POINTER (tag : Z) (m : member) (fd ltype ptr : Z) : pb_field_t :=
  pb_field_init tag (Z.lor (Z.lor PB_ATYPE_POINTER PB_HTYPE_ONEOF) ltype)
    fd (pb_delta m) (pb_membersize_0 m) 0 ptr.

Definition PB_ANONYMOUS_ONEOF_FIELD (tag : Z) (type : pb_proto_type)
    (allocation : pb_oneof_allocation) (placement : pb_placement)
    (field prevfield : member) (ptr : Z) : pb_field_t :=
  let fd := PB_DATAOFFSET placement field prevfield in
  let ltype := PB_LTYPE_MAP type in
  match allocation with
  | ONEOF_STATIC => PB_ANONYMOUS_ONEOF_STATIC tag field fd ltype ptr
  | ONEOF_POINTER => PB_ANONYMOUS_ONEOF_POINTER tag field fd ltype ptr
  end.

(** ** Facts about the type byte *)

Lemma PB_LTYPE_range x : 0 <= PB_LTYPE x < 16.
Proof.
  unfold PB_LTYPE, PB_LTYPE_MASK. change 0x0F with (Z.ones 4).
  rewrite Z.land_ones by lia. apply Z.mod_pos_bound. lia.
Qed.

(** The type byte is determined by its three parts. *)
Lemma type_split x : 0 <= x < 256 -> x = PB_ATYPE x + PB_HTYPE x + PB_LTYPE x.
Proof.
  intros Hx. apply Z.eqb_eq.
  by apply (byte_cases (fun x => x =? PB_ATYPE x + PB_HTYPE x + PB_LTYPE x)).
Qed.

(** Bits 4 and 5 of the type. *)
Lemma PB_HTYPE_cases x :
  PB_HTYPE x = PB_HTYPE_REQUIRED \/ PB_HTYPE x = PB_HTYPE_OPTIONAL \/
  PB_HTYPE x = PB_HTYPE_REPEATED \/ PB_HTYPE x = PB_HTYPE_ONEOF.
Proof.
  unfold PB_HTYPE, PB_HTYPE_MASK.
  assert (Z.land x 0x30 = Z.land (x mod 256) 0x30) as ->.
  { change 256 with (2 ^ 8). rewrite <- (Z.land_ones x 8) by lia.
    rewrite <- Z.land_assoc. done. }
  pose proof (Z.mod_pos_bound x 256 ltac:(lia)) as Hr.
  pose proof (byte_cases (fun y => let h := Z.land y 0x30 in
    (h =? 0) || (h =? 0x10) || (h =? 0x20) || (h =? 0x30)) eq_refl _ Hr) as H.
  cbn beta zeta in H. rewrite !orb_true_iff, !Z.eqb_eq in H.
  unfold PB_HTYPE_REQUIRED, PB_HTYPE_OPTIONAL, PB_HTYPE_REPEATED, PB_HTYPE_ONEOF. tauto.
Qed.

Lemma pb_field_init_typed tag type fd so size n ptr :
  well_typed (pb_field_init tag type fd so size n ptr) = true.
Proof.
  unfold well_typed, pb_field_init. cbn [pf_tag pf_type pf_data_offset pf_size_offset
    pf_data_size pf_array_size].
  pose proof (uwrap_range 32 tag ltac:(lia)). pose proof (uwrap_range 8 type ltac:(lia)).
  pose proof (uwrap_range 32 fd ltac:(lia)). pose proof (swrap_range 32 so ltac:(lia)).
  pose proof (uwrap_range 32 size ltac:(lia)). pose proof (uwrap_range 32 n ltac:(lia)).
  change (32 - 1) with 31 in *.
  rewrite !andb_true_iff, !Z.leb_le, !Z.ltb_lt. lia.
Qed.

(** The size of a bytes value does not wrap when it fits a 32-bit size. *)
Lemma alloc_size_fits `{!Platform} n size :
  0 <= n < 2 ^ 32 -> size < 2 ^ 32 -> PB_BYTES_ARRAY_T_ALLOCSIZE n <= size ->
  n + 4 < 2 ^ size_bits -> 4 + n <= size.
Proof.
  unfold PB_BYTES_ARRAY_T_ALLOCSIZE, offsetof_bytes. intros Hn Hs Ha Hb.
  pose proof size_bits_bound. rewrite (usize_small n) in Ha by lia.
  rewrite usize_small in Ha by lia. lia.
Qed.

(** * The field iterator (pb_common.c)

    [pb_field_iter_t] walks a descriptor array, computing the address of each
    field from the sizes of the fields before it. *)

(** [it_start] is the descriptor array and [it_pos] the index of the current
    entry in it; the pointers into the message are addresses. *)
Record pb_field_iter_t := mk_iter {
  it_start : list pb_field_t;
  it_pos : nat;
  it_required_field_index : Z;
  it_dest_struct : Z;
  it_pData : Z;
  it_pSize : Z
}.

Section iter.
Context {St : Type} {PL : Platform}.

(** [*iter->pos]; reading past the end of the array is undefined. *)
Definition iter_field (it : pb_field_iter_t) : M St pb_field_t :=
  or_ub (it_start it !! it_pos it).

Definition pb_field_iter_begin (fields : list pb_field_t) (dest_struct : Z)
    : M St (pb_field_iter_t * bool) :=
  let! f := or_ub (fields !! 0%nat) in
  let pData := dest_struct + pf_data_offset f in
  let it := {| it_start := fields; it_pos := 0; it_required_field_index := 0;
               it_dest_struct := dest_struct; it_pData := pData;
               it_pSize := pData + pf_size_offset f |} in
  ret (it, negb (pf_tag f =? 0)).

Definition pb_field_iter_next (it : pb_field_iter_t) : M St (pb_field_iter_t * bool) :=
  let! prev_field := iter_field it in
  if pf_tag prev_field =? 0 then ret (it, false)
  else
    let pos := S (it_pos it) in
    let! cur := or_ub (it_start it !! pos) in
    if pf_tag cur =? 0 then
      let! r := pb_field_iter_begin (it_start it) (it_dest_struct it) in
      ret (fst r, false)
    else if (PB_HTYPE (pf_type prev_field) =? PB_HTYPE_ONEOF) &&
            (PB_HTYPE (pf_type cur) =? PB_HTYPE_ONEOF) &&
            (pf_data_offset cur =? PB_SIZE_MAX) then
      ret ({| it_start := it_start it; it_pos := pos;
              it_required_field_index := it_required_field_index it;
              it_dest_struct := it_dest_struct it;
              it_pData := it_pData it; it_pSize := it_pSize it |}, true)
    else
      let prev_size :=
        if (PB_ATYPE (pf_type prev_field) =? PB_ATYPE_STATIC) &&
           (PB_HTYPE (pf_type prev_field) =? PB_HTYPE_REPEATED)
        then usize (usize (pf_data_size prev_field) * pf_array_size prev_field)
        else if PB_ATYPE (pf_type prev_field) =? PB_ATYPE_POINTER
        then ptr_size
        else usize (pf_data_size prev_field) in
      let required_field_index :=
        if PB_HTYPE (pf_type prev_field) =? PB_HTYPE_REQUIRED
        then u32 (it_required_field_index it + 1)
        else it_required_field_index it in
      let pData := it_pData it + prev_size + pf_data_offset cur in
      ret ({| it_start := it_start it; it_pos := pos;
              it_required_field_index := required_field_index;
              it_dest_struct := it_dest_struct it;
              it_pData := pData; it_pSize := pData + pf_size_offset cur |}, true).

(** [do { if (found(iter->pos)) return true; next(iter); } while (iter->pos !=
    start); return false;], the search shared by [pb_field_iter_find] and
    [find_extension_field].  The array bounds the number of rounds. *)
Definition iter_search (found : pb_field_t -> bool) (it : pb_field_iter_t)
    : M St (pb_field_iter_t * bool) :=
  let start := it_pos it in
  loop (S (length (it_start it))) (fun it =>
    let! f := iter_field it in
    if found f then ret (inr (it, true))
    else
      let! r := pb_field_iter_next it in
      if Nat.eqb (it_pos (fst r)) start then ret (inr (fst r, false))
      else ret (inl (fst r))) it.

Definition pb_field_iter_find (it : pb_field_iter_t) (tag : Z)
    : M St (pb_field_iter_t * bool) :=
  iter_search (fun f => (pf_tag f =? tag) &&
                        negb (PB_LTYPE (pf_type f) =? PB_LTYPE_EXTENSION)) it.

(** pb_decode.c *)
Definition find_extension_field (it : pb_field_iter_t) : M St (pb_field_iter_t * bool) :=
  iter_search (fun f => PB_LTYPE (pf_type f) =? PB_LTYPE_EXTENSION) it.

End iter.
