(* ===== verification/Decode.v ===== *)
(** * Decoding (pb_decode.h, pb_decode.c)

    The stream structure, reading and skipping, substreams, and the decoders of
    varints, tags and fixed-width values; then fields, default values, extensions
    and the message loop. *)

From Stdlib Require Import ZArith Lia.
From stdpp Require Import base option list strings gmap.
From S2P Require Import Prelude Memory Descr.

(** The [callback] member: the library's own [buf_read], or a function of the
    application, by address. *)
Inductive istream_callback := cb_buf_read | cb_user_read (fn : Z).

Record pb_istream_t := mk_istream {
  is_callback : istream_callback;
  is_state : Z;
  is_bytes_left : Z;
  is_errmsg : option string
}.

(** What a decoding function works on: the stream it was given and the memory. *)
Record dstate := mk_dstate { ds_in : pb_istream_t; ds_mem : mem }.

#[export] Instance dstate_mem : HasMem dstate :=
  {| get_mem := ds_mem; set_mem m s := mk_dstate (ds_in s) m |}.

#[export] Instance dstate_mem_laws : HasMemLaws dstate.
Proof. done. Qed.

(** The [buf] argument of a read: null, a local array of the caller (the bytes
    are the result of the read), or an address. *)
Inductive rbuf := RNull | RLocal | RMem (a : Z).

(** Stream callbacks of the application: a callback delivers [count] bytes to
    [buf] and may change the stream it is given and the memory. *)
Class UserRead := user_read : Z -> rbuf -> Z -> M dstate (list Z).

Definition set_state (v : Z) (i : pb_istream_t) : pb_istream_t :=
  mk_istream (is_callback i) v (is_bytes_left i) (is_errmsg i).
Definition set_bytes_left (v : Z) (i : pb_istream_t) : pb_istream_t :=
  mk_istream (is_callback i) (is_state i) v (is_errmsg i).
Definition set_errmsg (v : option string) (i : pb_istream_t) : pb_istream_t :=
  mk_istream (is_callback i) (is_state i) (is_bytes_left i) v.

Definition on_in (f : pb_istream_t -> pb_istream_t) : M dstate unit :=
  modify (fun s => mk_dstate (f (ds_in s)) (ds_mem s)).

(** [PB_SET_ERROR]: the first message is kept. *)
Definition PB_SET_ERROR (msg : string) (i : pb_istream_t) : pb_istream_t :=
  set_errmsg (Some (default msg (is_errmsg i))) i.

Definition PB_RETURN_ERROR {A} (msg : string) : M dstate A :=
  on_in (PB_SET_ERROR msg) ;;; fail.

(** Run a function on another stream: its status and the stream it leaves. *)
Definition on_substream {A} (sub : pb_istream_t) (m : M dstate A)
    : M dstate (option A * pb_istream_t) := fun s =>
  match m (mk_dstate sub (ds_mem s)) with
  | Ok a s' => Ok (Some a, ds_in s') (mk_dstate (ds_in s) (ds_mem s'))
  | Err s' => Ok (None, ds_in s') (mk_dstate (ds_in s) (ds_mem s'))
  | Ub => Ub
  | OutOfFuel => OutOfFuel
  end.

Section istream.
Context {PL : Platform} {UR : UserRead}.

Definition buf_read (buf : rbuf) (count : Z) : M dstate (list Z) :=
  let! source := gets (fun s => is_state (ds_in s)) in
  on_in (fun i => set_state (is_state i + count) i) ;;;
  match buf with
  | RNull => ret []
  | RLocal => load_bytes source (Z.to_nat count)
  | RMem a => copy_bytes a source (Z.to_nat count) ;;; ret []
  end.

(** [stream->callback(stream, buf, count)] *)
Definition call_read (buf : rbuf) (count : Z) : M dstate (list Z) :=
  let! cb := gets (fun s => is_callback (ds_in s)) in
  match cb with
  | cb_buf_read => buf_read buf count
  | cb_user_read fn =>
      let! l := user_read fn buf count in
      match buf with
      | RLocal => if Nat.eqb (length l) (Z.to_nat count) then ret l else ub
      | _ => ret []
      end
  end.

(** [pb_read] after the branch that skips input. *)
Definition pb_read_data (buf : rbuf) (count : Z) : M dstate (list Z) :=
  let! bytes_left := gets (fun s => is_bytes_left (ds_in s)) in
  if bytes_left <? count then PB_RETURN_ERROR "end-of-stream"
  else
    let! r := attempt (call_read buf count) in
    match r with
    | None => PB_RETURN_ERROR "io error"
    | Some l =>
        on_in (fun i => set_bytes_left (usize (is_bytes_left i - count)) i) ;;;
        ret l
    end.

Definition pb_read (buf : rbuf) (count : Z) : M dstate (list Z) :=
  let! cb := gets (fun s => is_callback (ds_in s)) in
  match buf, cb with
  | RNull, cb_user_read _ =>
      let! rest := loop (S (Z.to_nat (count / 16))) (fun count =>
        if 16 <? count then
          pb_read_data RLocal 16 ;;; ret (inl (count - 16))
        else ret (inr count)) count in
      pb_read_data RLocal rest ;;; ret []
  | _, _ => pb_read_data buf count
  end.

Definition pb_readbyte : M dstate Z :=
  let! bytes_left := gets (fun s => is_bytes_left (ds_in s)) in
  if bytes_left =? 0 then PB_RETURN_ERROR "end-of-stream"
  else
    let! r := attempt (call_read RLocal 1) in
    match r with
    | None => PB_RETURN_ERROR "io error"
    | Some l =>
        on_in (fun i => set_bytes_left (usize (is_bytes_left i - 1)) i) ;;;
        or_ub (head l)
    end.

Definition pb_istream_from_buffer (buf bufsize : Z) : pb_istream_t :=
  {| is_callback := cb_buf_read; is_state := buf; is_bytes_left := bufsize;
     is_errmsg := None |}.

(** ** Varints *)

Definition pb_decode_varint32 : M dstate Z :=
  let! byte := pb_readbyte in
  if Z.land byte 0x80 =? 0 then ret byte
  else
    loop 5 (fun '(bitpos, result) =>
      if 32 <=? bitpos then PB_RETURN_ERROR "varint overflow"
      else
        let! byte := pb_readbyte in
        let result := Z.lor result (u32 (Z.shiftl (Z.land byte 0x7F) bitpos)) in
        let bitpos := u8 (bitpos + 7) in
        if Z.land byte 0x80 =? 0 then ret (inr result) else ret (inl (bitpos, result)))
      (7, Z.land byte 0x7F).

Definition pb_decode_varint : M dstate Z :=
  loop 11 (fun '(bitpos, result) =>
    if 64 <=? bitpos then PB_RETURN_ERROR "varint overflow"
    else
      let! byte := pb_readbyte in
      let result := Z.lor result (u64 (Z.shiftl (Z.land byte 0x7F) bitpos)) in
      let bitpos := u8 (bitpos + 7) in
      if Z.land byte 0x80 =? 0 then ret (inr result) else ret (inl (bitpos, result)))
    (0, 0).

Definition pb_skip_varint : M dstate unit :=
  let! bytes_left := gets (fun s => is_bytes_left (ds_in s)) in
  loop (S (Z.to_nat bytes_left)) (fun _ =>
    let! l := pb_read RLocal 1 in
    let! byte := or_ub (head l) in
    if Z.land byte 0x80 =? 0 then ret (inr tt) else ret (inl tt)) tt.

Definition pb_skip_string : M dstate unit :=
  let! len := pb_decode_varint32 in
  pb_read RNull len ;;; ret tt.

(** ** Tags *)

(** What [pb_decode_tag] returns and stores through its pointers. *)
Record tag_result := mk_tag {
  dt_ok : bool;
  dt_wire_type : Z;
  dt_tag : Z;
  dt_eof : bool
}.

Definition pb_decode_tag : M dstate tag_result :=
  let! r := attempt pb_decode_varint32 in
  match r with
  | None =>
      let! bytes_left := gets (fun s => is_bytes_left (ds_in s)) in
      ret (mk_tag false 0 0 (bytes_left =? 0))
  | Some temp =>
      if temp =? 0 then ret (mk_tag false 0 0 true)
      else ret (mk_tag true (Z.land temp 7) (Z.shiftr temp 3) false)
  end.

Definition pb_skip_field (wire_type : Z) : M dstate unit :=
  if wire_type =? PB_WT_VARINT then pb_skip_varint
  else if wire_type =? PB_WT_64BIT then pb_read RNull 8 ;;; ret tt
  else if wire_type =? PB_WT_STRING then pb_skip_string
  else if wire_type =? PB_WT_32BIT then pb_read RNull 4 ;;; ret tt
  else PB_RETURN_ERROR "invalid wire_type".

(** The bytes put in [buf]; their number is the size on return. *)
Definition read_raw_value (wire_type : Z) (max_size : Z) : M dstate (list Z) :=
  if wire_type =? PB_WT_VARINT then
    loop (S (Z.to_nat max_size)) (fun '(size, buf) =>
      let size := usize (size + 1) in
      if max_size <? size then fail
      else
        let! l := pb_read RLocal 1 in
        let! byte := or_ub (head l) in
        let buf := buf ++ [byte] in
        if Z.land byte 0x80 =? 0 then ret (inr buf) else ret (inl (size, buf)))
      (0, [])
  else if wire_type =? PB_WT_64BIT then pb_read RLocal 8
  else if wire_type =? PB_WT_32BIT then pb_read RLocal 4
  else PB_RETURN_ERROR "invalid wire_type".

(** ** Substreams *)

Definition pb_make_string_substream : M dstate pb_istream_t :=
  let! size := pb_decode_varint32 in
  let! substream := gets ds_in in
  if is_bytes_left substream <? size then PB_RETURN_ERROR "parent stream too short"
  else
    on_in (fun i => set_bytes_left (usize (is_bytes_left i - size)) i) ;;;
    ret (set_bytes_left size substream).

Definition pb_close_string_substream (substream : pb_istream_t) : M dstate unit :=
  let! sub :=
    if is_bytes_left substream =? 0 then ret substream
    else
      let! r := on_substream substream (pb_read RNull (is_bytes_left substream)) in
      match fst r with
      | None => fail
      | Some _ => ret (snd r)
      end in
  on_in (fun i => set_errmsg (is_errmsg sub) (set_state (is_state sub) i)).

(** ** Signed and fixed-width values *)

(** The [int64_t] stored through [dest]. *)
Definition pb_decode_svarint : M dstate Z :=
  let! value := pb_decode_varint in
  if Z.land value 1 =? 0 then ret (s64 (Z.shiftr value 1))
  else ret (s64 (u64 (Z.lnot (Z.shiftr value 1)))).

Definition byte_at (bytes : list Z) (i : nat) : Z := default 0 (bytes !! i).

Definition pb_decode_fixed32 (dest : Z) : M dstate unit :=
  let! bytes := pb_read RLocal 4 in
  store_le 4 dest
    (Z.lor (Z.lor (Z.lor (Z.shiftl (byte_at bytes 0) 0)
                         (Z.shiftl (byte_at bytes 1) 8))
                  (Z.shiftl (byte_at bytes 2) 16))
           (Z.shiftl (byte_at bytes 3) 24)).

Definition pb_decode_fixed64 (dest : Z) : M dstate unit :=
  let! bytes := pb_read RLocal 8 in
  store_le 8 dest
    (Z.lor (Z.lor (Z.lor (Z.lor (Z.lor (Z.lor (Z.lor
             (Z.shiftl (byte_at bytes 0) 0)
             (Z.shiftl (byte_at bytes 1) 8))
             (Z.shiftl (byte_at bytes 2) 16))
             (Z.shiftl (byte_at bytes 3) 24))
             (Z.shiftl (byte_at bytes 4) 32))
             (Z.shiftl (byte_at bytes 5) 40))
             (Z.shiftl (byte_at bytes 6) 48))
             (Z.shiftl (byte_at bytes 7) 56)).

End istream.

(** * Decoding messages (pb_decode.c)

    The field decoders, the dispatch on storage and repetition, extensions,
    default values and the message loop, in the build configuration of the
    application (no PB_ENABLE_MALLOC, no PB_BUFFER_ONLY, error messages on). *)

(** Application code the decoder calls: the [decode] callback of a callback
    field (function, descriptor, address of [arg]) and of an extension type
    (function, address of the extension, tag, wire type). *)
Class UserDecode := {
  user_decode : Z -> pb_field_t -> Z -> M dstate unit;
  user_ext_decode : Z -> Z -> Z -> Z -> M dstate unit
}.

Definition pb_decoder_t : Type := pb_field_t -> Z -> M dstate unit.

Section decode.
Context {PL : Platform} {UR : UserRead} {UD : UserDecode} {DS : Descriptors}.

(** ** Scalar and length-delimited field decoders *)

Definition pb_dec_varint : pb_decoder_t := fun field dest =>
  let! value := pb_decode_varint in
  let svalue := if pf_data_size field =? 8 then s64 value else s32 value in
  let! clamped :=
    if pf_data_size field =? 8 then store_le 8 dest svalue ;;; ret svalue
    else if pf_data_size field =? 4 then store_le 4 dest (s32 svalue) ;;; ret (s32 svalue)
    else if pf_data_size field =? 2 then store_le 2 dest (s16 svalue) ;;; ret (s16 svalue)
    else if pf_data_size field =? 1 then store_le 1 dest (s8 svalue) ;;; ret (s8 svalue)
    else PB_RETURN_ERROR "invalid data_size" in
  if clamped =? svalue then ret tt else PB_RETURN_ERROR "integer too large".

Definition pb_dec_uvarint : pb_decoder_t := fun field dest =>
  let! value := pb_decode_varint in
  let! clamped :=
    if pf_data_size field =? 8 then store_le 8 dest value ;;; ret value
    else if pf_data_size field =? 4 then store_le 4 dest (u32 value) ;;; ret (u32 value)
    else if pf_data_size field =? 2
    then store_le 2 dest (uwrap 16 value) ;;; ret (uwrap 16 value)
    else if pf_data_size field =? 1 then store_le 1 dest (u8 value) ;;; ret (u8 value)
    else PB_RETURN_ERROR "invalid data_size" in
  if clamped =? value then ret tt else PB_RETURN_ERROR "integer too large".

Definition pb_dec_svarint : pb_decoder_t := fun field dest =>
  let! value := pb_decode_svarint in
  let! clamped :=
    if pf_data_size field =? 8 then store_le 8 dest value ;;; ret value
    else if pf_data_size field =? 4 then store_le 4 dest (s32 value) ;;; ret (s32 value)
    else if pf_data_size field =? 2 then store_le 2 dest (s16 value) ;;; ret (s16 value)
    else if pf_data_size field =? 1 then store_le 1 dest (s8 value) ;;; ret (s8 value)
    else PB_RETURN_ERROR "invalid data_size" in
  if clamped =? value then ret tt else PB_RETURN_ERROR "integer too large".

Definition pb_dec_fixed32 : pb_decoder_t := fun _ dest => pb_decode_fixed32 dest.

Definition pb_dec_fixed64 : pb_decoder_t := fun _ dest => pb_decode_fixed64 dest.

Definition pb_dec_bytes : pb_decoder_t := fun field dest =>
  let! size := pb_decode_varint32 in
  if PB_SIZE_MAX <? size then PB_RETURN_ERROR "bytes overflow"
  else
    let alloc_size := PB_BYTES_ARRAY_T_ALLOCSIZE size in
    if alloc_size <? size then PB_RETURN_ERROR "size too large"
    else if PB_ATYPE (pf_type field) =? PB_ATYPE_POINTER
    then PB_RETURN_ERROR "no malloc support"
    else if pf_data_size field <? alloc_size then PB_RETURN_ERROR "bytes overflow"
    else
      store_le sizeof_pb_size_t dest size ;;;
      pb_read (RMem (dest + offsetof_bytes)) size ;;; ret tt.

Definition pb_dec_string : pb_decoder_t := fun field dest =>
  let! size := pb_decode_varint32 in
  let alloc_size := u32 (size + 1) in
  if alloc_size <? size then PB_RETURN_ERROR "size too large"
  else if PB_ATYPE (pf_type field) =? PB_ATYPE_POINTER
  then PB_RETURN_ERROR "no malloc support"
  else if pf_data_size field <? alloc_size then PB_RETURN_ERROR "string overflow"
  else
    let! status := attempt (pb_read (RMem dest) size) in
    store_le 1 (dest + size) 0 ;;;
    match status with Some _ => ret tt | None => fail end.

Definition pb_dec_fixed_length_bytes : pb_decoder_t := fun field dest =>
  let! size := pb_decode_varint32 in
  if PB_SIZE_MAX <? size then PB_RETURN_ERROR "bytes overflow"
  else if size =? 0 then memset dest 0 (pf_data_size field)
  else if negb (size =? pf_data_size field)
  then PB_RETURN_ERROR "incorrect fixed length bytes size"
  else pb_read (RMem dest) (pf_data_size field) ;;; ret tt.

(** ** Default values *)

(** A field iterator for the single field of an extension. *)
Definition iter_from_extension (extension : Z) : M dstate pb_field_iter_t :=
  let! type := load_ptr (ext_type extension) in
  let! arg := load_ptr (ext_type_arg type) in
  let! fields := or_ub (descriptors_at arg) in
  let! field := or_ub (fields !! 0%nat) in
  let! dest := load_ptr (ext_dest extension) in
  let! r := pb_field_iter_begin fields dest in
  let it := fst r in
  let pData := if PB_ATYPE (pf_type field) =? PB_ATYPE_POINTER
               then ext_dest extension else dest in
  ret {| it_start := it_start it; it_pos := it_pos it;
         it_required_field_index := it_required_field_index it;
         it_dest_struct := it_dest_struct it;
         it_pData := pData; it_pSize := ext_found extension |}.

(** [pb_message_set_to_defaults], given the treatment of one field. *)
Definition message_set_to_defaults (field_set_to_default : pb_field_iter_t -> M dstate unit)
    (fields : list pb_field_t) (dest_struct : Z) : M dstate unit :=
  let! r := pb_field_iter_begin fields dest_struct in
  if negb (snd r) then ret tt
  else
    loop (S (length fields)) (fun it =>
      field_set_to_default it ;;;
      let! r := pb_field_iter_next it in
      if snd r then ret (inl (fst r)) else ret (inr tt)) (fst r).

(** The recursion is on the nesting of static submessages and the length of
    extension chains. *)
Fixpoint pb_field_set_to_default (fuel : nat) (it : pb_field_iter_t) : M dstate unit :=
  match fuel with
  | O => out_of_fuel
  | S fuel =>
      let! f := iter_field it in
      let type := pf_type f in
      if PB_LTYPE type =? PB_LTYPE_EXTENSION then
        let! ext := load_ptr (it_pData it) in
        loop (S fuel) (fun ext =>
          if ext =? 0 then ret (inr tt)
          else
            store_bool (ext_found ext) false ;;;
            let! ext_iter := iter_from_extension ext in
            pb_field_set_to_default fuel ext_iter ;;;
            let! next := load_ptr (ext_next ext) in
            ret (inl next)) ext
      else if PB_ATYPE type =? PB_ATYPE_STATIC then
        let! init_data :=
          if (PB_HTYPE type =? PB_HTYPE_OPTIONAL) && negb (it_pSize it =? it_pData it)
          then store_bool (it_pSize it) false ;;; ret true
          else if (PB_HTYPE type =? PB_HTYPE_REPEATED) || (PB_HTYPE type =? PB_HTYPE_ONEOF)
          then store_le sizeof_pb_size_t (it_pSize it) 0 ;;; ret false
          else ret true in
        if init_data : bool then
          if PB_LTYPE type =? PB_LTYPE_SUBMESSAGE then
            let! submsg_fields := or_ub (descriptors_at (pf_ptr f)) in
            message_set_to_defaults (pb_field_set_to_default fuel) submsg_fields (it_pData it)
          else if negb (pf_ptr f =? 0) then memcpy (it_pData it) (pf_ptr f) (pf_data_size f)
          else memset (it_pData it) 0 (pf_data_size f)
        else ret tt
      else if PB_ATYPE type =? PB_ATYPE_POINTER then
        store_le (Z.to_nat ptr_size) (it_pData it) 0 ;;;
        if (PB_HTYPE type =? PB_HTYPE_REPEATED) || (PB_HTYPE type =? PB_HTYPE_ONEOF)
        then store_le sizeof_pb_size_t (it_pSize it) 0
        else ret tt
      else ret tt
  end.

Definition pb_message_set_to_defaults (fuel : nat) (fields : list pb_field_t)
    (dest_struct : Z) : M dstate unit :=
  message_set_to_defaults (pb_field_set_to_default fuel) fields dest_struct.

(** ** One field

    [decode_noinit] is the recursive call on a submessage, [fuel] bounds the
    recursion of the defaults and the loops that application code drives. *)
Section one_field.
Context (fuel : nat) (decode_noinit : list pb_field_t -> Z -> M dstate unit).

Definition pb_decode_with (fields : list pb_field_t) (dest_struct : Z) : M dstate unit :=
  pb_message_set_to_defaults fuel fields dest_struct ;;;
  decode_noinit fields dest_struct.

Definition pb_dec_submessage : pb_decoder_t := fun field dest =>
  let! substream := pb_make_string_substream in
  if pf_ptr field =? 0 then PB_RETURN_ERROR "invalid field descriptor"
  else
    let! submsg_fields := or_ub (descriptors_at (pf_ptr field)) in
    let! r := on_substream substream
      (if PB_HTYPE (pf_type field) =? PB_HTYPE_REPEATED
       then pb_decode_with submsg_fields dest
       else decode_noinit submsg_fields dest) in
    pb_close_string_substream (snd r) ;;;
    match fst r with Some _ => ret tt | None => fail end.

(** A null entry stands for the null function pointer. *)
Definition PB_DECODERS : list (option pb_decoder_t) :=
  [ Some pb_dec_varint; Some pb_dec_uvarint; Some pb_dec_svarint;
    Some pb_dec_fixed32; Some pb_dec_fixed64;
    Some pb_dec_bytes; Some pb_dec_string; Some pb_dec_submessage;
    None; Some pb_dec_fixed_length_bytes ].

(** The call through [PB_DECODERS[PB_LTYPE(type)]]. *)
Definition call_decoder (field : pb_field_t) (dest : Z) : M dstate unit :=
  let! func := or_ub (mjoin (PB_DECODERS !! Z.to_nat (PB_LTYPE (pf_type field)))) in
  func field dest.

(** The loop over a packed array: the status and the substream left. *)
Definition decode_packed_items (it : pb_field_iter_t) (f : pb_field_t)
    (substream : pb_istream_t) : M dstate (bool * pb_istream_t) :=
  loop (S (Z.to_nat (is_bytes_left substream))) (fun substream =>
    let! size := load_le sizeof_pb_size_t (it_pSize it) in
    if (0 <? is_bytes_left substream) && (size <? pf_array_size f) then
      let pItem := it_pData it + u32 (pf_data_size f * size) in
      let! r := on_substream substream (call_decoder f pItem) in
      match fst r with
      | None => ret (inr (false, snd r))
      | Some _ =>
          let! size := load_le sizeof_pb_size_t (it_pSize it) in
          store_le sizeof_pb_size_t (it_pSize it) (u32 (size + 1)) ;;;
          ret (inl (snd r))
      end
    else ret (inr (true, substream))) substream.

Definition decode_static_field (wire_type : Z) (it : pb_field_iter_t) : M dstate unit :=
  let! f := iter_field it in
  let type := pf_type f in
  or_ub (PB_DECODERS !! Z.to_nat (PB_LTYPE type)) ;;;
  if PB_HTYPE type =? PB_HTYPE_REQUIRED then call_decoder f (it_pData it)
  else if PB_HTYPE type =? PB_HTYPE_OPTIONAL then
    (if negb (it_pSize it =? it_pData it) then store_bool (it_pSize it) true else ret tt) ;;;
    call_decoder f (it_pData it)
  else if PB_HTYPE type =? PB_HTYPE_REPEATED then
    if (wire_type =? PB_WT_STRING) && (PB_LTYPE type <=? PB_LTYPE_LAST_PACKABLE) then
      let! substream := pb_make_string_substream in
      let! r := decode_packed_items it f substream in
      if negb (is_bytes_left (snd r) =? 0) then PB_RETURN_ERROR "array overflow"
      else
        pb_close_string_substream (snd r) ;;;
        if fst r : bool then ret tt else fail
    else
      let! size := load_le sizeof_pb_size_t (it_pSize it) in
      let pItem := it_pData it + u32 (pf_data_size f * size) in
      if pf_array_size f <=? size then PB_RETURN_ERROR "array overflow"
      else
        store_le sizeof_pb_size_t (it_pSize it) (u32 (size + 1)) ;;;
        call_decoder f pItem
  else if PB_HTYPE type =? PB_HTYPE_ONEOF then
    store_le sizeof_pb_size_t (it_pSize it) (pf_tag f) ;;;
    (if PB_LTYPE type =? PB_LTYPE_SUBMESSAGE then
       memset (it_pData it) 0 (pf_data_size f) ;;;
       let! submsg_fields := or_ub (descriptors_at (pf_ptr f)) in
       pb_message_set_to_defaults fuel submsg_fields (it_pData it)
     else ret tt) ;;;
    call_decoder f (it_pData it)
  else PB_RETURN_ERROR "invalid field type".

(** Without PB_ENABLE_MALLOC. *)
Definition decode_pointer_field (wire_type : Z) (it : pb_field_iter_t) : M dstate unit :=
  PB_RETURN_ERROR "no malloc support".

(** [pb_byte_t buffer[10]] is an array whose address escapes: it is mapped at a
    fresh address for the time of the call. *)
Definition with_local_array {A} (l : list Z) (k : Z -> M dstate A) : M dstate A :=
  let! a := gets (fun s => mem_fresh (ds_mem s)) in
  modify (fun s => mk_dstate (ds_in s) (mem_alloc (ds_mem s) a l)) ;;;
  let! r := attempt (k a) in
  modify (fun s => mk_dstate (ds_in s) (mem_free (ds_mem s) a (length l))) ;;;
  match r with Some x => ret x | None => fail end.

Definition decode_callback_field (wire_type : Z) (it : pb_field_iter_t) : M dstate unit :=
  let! f := iter_field it in
  let pCallback := it_pData it in
  let arg := callback_arg pCallback in
  let! decode := load_ptr (callback_funcs pCallback) in
  if decode =? 0 then pb_skip_field wire_type
  else if wire_type =? PB_WT_STRING then
    let! substream := pb_make_string_substream in
    let! substream :=
      loop (S fuel) (fun substream =>
        let! decode := load_ptr (callback_funcs pCallback) in
        let! r := on_substream substream (user_decode decode f arg) in
        match fst r with
        | None => PB_RETURN_ERROR "callback failed"
        | Some _ =>
            if is_bytes_left (snd r) =? 0 then ret (inr (snd r)) else ret (inl (snd r))
        end) substream in
    pb_close_string_substream substream
  else
    let! bytes := read_raw_value wire_type 10 in
    with_local_array bytes (fun buffer =>
      let substream := pb_istream_from_buffer buffer (Z.of_nat (length bytes)) in
      let! decode := load_ptr (callback_funcs pCallback) in
      let! r := on_substream substream (user_decode decode f arg) in
      match fst r with Some _ => ret tt | None => fail end).

Definition decode_field (wire_type : Z) (it : pb_field_iter_t) : M dstate unit :=
  let! f := iter_field it in
  let atype := PB_ATYPE (pf_type f) in
  if atype =? PB_ATYPE_STATIC then decode_static_field wire_type it
  else if atype =? PB_ATYPE_POINTER then decode_pointer_field wire_type it
  else if atype =? PB_ATYPE_CALLBACK then decode_callback_field wire_type it
  else PB_RETURN_ERROR "invalid field type".

(** ** Extensions *)

Definition default_extension_decoder (extension tag wire_type : Z) : M dstate unit :=
  let! type := load_ptr (ext_type extension) in
  let! arg := load_ptr (ext_type_arg type) in
  let! fields := or_ub (descriptors_at arg) in
  let! field := or_ub (fields !! 0%nat) in
  if negb (pf_tag field =? tag) then ret tt
  else
    let! it := iter_from_extension extension in
    store_bool (ext_found extension) true ;;;
    decode_field wire_type it.

Definition decode_extension (tag wire_type : Z) (it : pb_field_iter_t) : M dstate unit :=
  let! extension := load_ptr (it_pData it) in
  let! pos := gets (fun s => is_bytes_left (ds_in s)) in
  loop (S fuel) (fun extension =>
    let! bytes_left := gets (fun s => is_bytes_left (ds_in s)) in
    if negb (extension =? 0) && (pos =? bytes_left) then
      let! type := load_ptr (ext_type extension) in
      let! decode := load_ptr (ext_type_decode type) in
      (if negb (decode =? 0) then user_ext_decode decode extension tag wire_type
       else default_extension_decoder extension tag wire_type) ;;;
      let! next := load_ptr (ext_next extension) in
      ret (inl next)
    else ret (inr tt)) extension.

(** ** The message loop *)

(** The loop variables of [pb_decode_noinit]. *)
Record decode_vars := mk_vars {
  dv_iter : pb_field_iter_t;
  dv_fields_seen : list Z;
  dv_extension_range_start : Z
}.

Definition allbits : Z := 2 ^ 32 - 1.

(** No field of the message has the tag: try the extensions, else skip. *)
Definition decode_unknown_field (tag wire_type : Z) (it : pb_field_iter_t)
    (extension_range_start : Z) : M dstate (pb_field_iter_t * Z) :=
  if extension_range_start <=? tag then
    let! r := find_extension_field it in
    let it := fst r in
    let! range_start :=
      if negb (snd r) then ret UINT32_MAX
      else let! f := iter_field it in ret (pf_tag f) in
    if range_start <=? tag then
      let! pos := gets (fun s => is_bytes_left (ds_in s)) in
      decode_extension tag wire_type it ;;;
      let! bytes_left := gets (fun s => is_bytes_left (ds_in s)) in
      if negb (pos =? bytes_left) then ret (it, range_start)
      else pb_skip_field wire_type ;;; ret (it, range_start)
    else pb_skip_field wire_type ;;; ret (it, range_start)
  else pb_skip_field wire_type ;;; ret (it, extension_range_start).

(** [fields_seen[index >> 5] |= 1 << (index & 31)] for a required field. *)
Definition mark_required (f : pb_field_t) (index : Z) (fields_seen : list Z)
    : M dstate (list Z) :=
  if (PB_HTYPE (pf_type f) =? PB_HTYPE_REQUIRED) && (index <? PB_MAX_REQUIRED_FIELDS) then
    let tmp := Z.shiftl 1 (Z.land index 31) in
    let i := Z.to_nat (Z.shiftr index 5) in
    let! w := or_ub (fields_seen !! i) in
    ret (<[i := Z.lor w tmp]> fields_seen)
  else ret fields_seen.

(** One round of [while (stream->bytes_left)]. *)
Definition decode_step (v : decode_vars) : M dstate (decode_vars + decode_vars) :=
  let! bytes_left := gets (fun s => is_bytes_left (ds_in s)) in
  if bytes_left =? 0 then ret (inr v)
  else
    let! t := pb_decode_tag in
    if negb (dt_ok t) then (if dt_eof t then ret (inr v) else fail)
    else
      let! r := pb_field_iter_find (dv_iter v) (dt_tag t) in
      if negb (snd r) then
        let! u := decode_unknown_field (dt_tag t) (dt_wire_type t) (fst r)
                    (dv_extension_range_start v) in
        ret (inl (mk_vars (fst u) (dv_fields_seen v) (snd u)))
      else
        let it := fst r in
        let! f := iter_field it in
        let! seen := mark_required f (it_required_field_index it) (dv_fields_seen v) in
        decode_field (dt_wire_type t) it ;;;
        ret (inl (mk_vars it seen (dv_extension_range_start v))).

(** [do { ... } while (pb_field_iter_next(&iter));]: the number of required
    fields, the type of the last field and the iterator left. *)
Definition seek_last_field (it : pb_field_iter_t) : M dstate (Z * Z * pb_field_iter_t) :=
  loop (S (length (it_start it))) (fun it =>
    let! f := iter_field it in
    let! r := pb_field_iter_next it in
    if snd r then ret (inl (fst r))
    else ret (inr (it_required_field_index it, pf_type f, fst r))) it.

(** [allbits >> n] on [uint32_t]; undefined for [n >= 32]. *)
Definition shr32 (x n : Z) : M dstate Z :=
  if (0 <=? n) && (n <? 32) then ret (Z.shiftr x n) else ub.

(** The test that the first [req_field_count] bits of [fields_seen] are set. *)
Definition check_seen (req_field_count : Z) (fields_seen : list Z) : M dstate unit :=
  if 0 <? req_field_count then
    loop (S (Z.to_nat (Z.shiftr req_field_count 5))) (fun i =>
      if i <? Z.shiftr req_field_count 5 then
        let! w := or_ub (fields_seen !! Z.to_nat i) in
        if negb (w =? allbits) then PB_RETURN_ERROR "missing required field"
        else ret (inl (i + 1))
      else ret (inr tt)) 0 ;;;
    let! w := or_ub (fields_seen !! Z.to_nat (Z.shiftr req_field_count 5)) in
    let! mask := shr32 allbits (32 - Z.land req_field_count 31) in
    if negb (w =? mask) then PB_RETURN_ERROR "missing required field" else ret tt
  else ret tt.

Definition check_required_fields (it : pb_field_iter_t) (fields_seen : list Z)
    : M dstate unit :=
  let! r := seek_last_field it in
  let '(count, last_type, it) := r in
  let! f := iter_field it in
  let req_field_count :=
    if (PB_HTYPE last_type =? PB_HTYPE_REQUIRED) && negb (pf_tag f =? 0)
    then u32 (count + 1) else count in
  check_seen req_field_count fields_seen.

End one_field.

(** ** The entry points *)

Fixpoint pb_decode_noinit (fuel : nat) (fields : list pb_field_t) (dest_struct : Z)
    : M dstate unit :=
  match fuel with
  | O => out_of_fuel
  | S n =>
      let! r := pb_field_iter_begin fields dest_struct in
      let! v := loop fuel (decode_step n (pb_decode_noinit n))
                  (mk_vars (fst r) [0; 0] 0) in
      check_required_fields (dv_iter v) (dv_fields_seen v)
  end.

Definition pb_decode (fuel : nat) (fields : list pb_field_t) (dest_struct : Z)
    : M dstate unit :=
  pb_decode_with fuel (pb_decode_noinit fuel) fields dest_struct.

Definition pb_decode_delimited (fuel : nat) (fields : list pb_field_t) (dest_struct : Z)
    : M dstate unit :=
  let! substream := pb_make_string_substream in
  let! r := on_substream substream (pb_decode fuel fields dest_struct) in
  pb_close_string_substream (snd r) ;;;
  match fst r with Some _ => ret tt | None => fail end.

End decode.
