(* ===== verification/Encode.v ===== *)
(** * Encoding (pb_encode.h, pb_encode.c)

    The stream structure, writing, sizing streams, and the encoders of varints,
    tags, strings and fixed-width values; then fields, extensions and messages. *)

From Stdlib Require Import ZArith Lia.
From stdpp Require Import base option list strings gmap.
From S2P Require Import Prelude Memory Descr.

(** The [callback] member: null for a sizing stream, the library's own
    [buf_write], or a function of the application, by address. *)
Inductive ostream_callback := cb_null | cb_buf_write | cb_user_write (fn : Z).

Record pb_ostream_t := mk_ostream {
  os_callback : ostream_callback;
  os_state : Z;
  os_max_size : Z;
  os_bytes_written : Z;
  os_errmsg : option string
}.

(** What an encoding function works on: the stream it was given and the memory. *)
Record estate := mk_estate { es_out : pb_ostream_t; es_mem : mem }.

#[export] Instance estate_mem : HasMem estate :=
  {| get_mem := es_mem; set_mem m s := mk_estate (es_out s) m |}.

#[export] Instance estate_mem_laws : HasMemLaws estate.
Proof. done. Qed.

(** The [buf] argument of a write: null, a local array of the caller, or an
    address. *)
Inductive wbuf := WNull | WLocal (bytes : list Z) | WMem (a : Z).

(** Stream callbacks of the application. *)
Class UserWrite := user_write : Z -> wbuf -> Z -> M estate unit.

Definition on_out (f : pb_ostream_t -> pb_ostream_t) : M estate unit :=
  modify (fun s => mk_estate (f (es_out s)) (es_mem s)).

Definition set_os_errmsg (v : option string) (o : pb_ostream_t) : pb_ostream_t :=
  mk_ostream (os_callback o) (os_state o) (os_max_size o) (os_bytes_written o) v.
Definition set_os_state (v : Z) (o : pb_ostream_t) : pb_ostream_t :=
  mk_ostream (os_callback o) v (os_max_size o) (os_bytes_written o) (os_errmsg o).
Definition set_bytes_written (v : Z) (o : pb_ostream_t) : pb_ostream_t :=
  mk_ostream (os_callback o) (os_state o) (os_max_size o) v (os_errmsg o).

Definition PB_SET_ERROR_OUT (msg : string) (o : pb_ostream_t) : pb_ostream_t :=
  set_os_errmsg (Some (default msg (os_errmsg o))) o.

Definition PB_RETURN_ERROR_OUT {A} (msg : string) : M estate A :=
  on_out (PB_SET_ERROR_OUT msg) ;;; fail.

Definition PB_OSTREAM_SIZING : pb_ostream_t := mk_ostream cb_null 0 0 0 None.

Definition pb_ostream_from_buffer (buf bufsize : Z) : pb_ostream_t :=
  {| os_callback := cb_buf_write; os_state := buf; os_max_size := bufsize;
     os_bytes_written := 0; os_errmsg := None |}.

(** Run a function on another stream: its status and the stream it leaves. *)
Definition on_ostream {A} (sub : pb_ostream_t) (m : M estate A)
    : M estate (option A * pb_ostream_t) := fun s =>
  match m (mk_estate sub (es_mem s)) with
  | Ok a s' => Ok (Some a, es_out s') (mk_estate (es_out s) (es_mem s'))
  | Err s' => Ok (None, es_out s') (mk_estate (es_out s) (es_mem s'))
  | Ub => Ub
  | OutOfFuel => OutOfFuel
  end.

Section ostream.
Context {PL : Platform} {UW : UserWrite}.

Definition buf_write (buf : wbuf) (count : Z) : M estate unit :=
  let! dest := gets (fun s => os_state (es_out s)) in
  on_out (set_os_state (dest + count)) ;;;
  match buf with
  | WNull => if count =? 0 then ret tt else ub
  | WLocal l =>
      if (Z.to_nat count <=? length l)%nat then store_bytes dest (take (Z.to_nat count) l)
      else ub
  | WMem a => copy_bytes dest a (Z.to_nat count)
  end.

(** [stream->callback(stream, buf, count)] for a callback that is not null. *)
Definition call_write (buf : wbuf) (count : Z) : M estate unit :=
  let! cb := gets (fun s => os_callback (es_out s)) in
  match cb with
  | cb_null => ub
  | cb_buf_write => buf_write buf count
  | cb_user_write fn => user_write fn buf count
  end.

Definition is_sizing (o : pb_ostream_t) : bool :=
  match os_callback o with cb_null => true | _ => false end.

Definition pb_write (buf : wbuf) (count : Z) : M estate unit :=
  let! o := gets es_out in
  (if negb (is_sizing o) then
     if os_max_size o <? usize (os_bytes_written o + count)
     then PB_RETURN_ERROR_OUT "stream full"
     else
       let! r := attempt (call_write buf count) in
       match r with
       | None => PB_RETURN_ERROR_OUT "io error"
       | Some _ => ret tt
       end
   else ret tt) ;;;
  on_out (fun o => set_bytes_written (usize (os_bytes_written o + count)) o).

(** [buffer] after the loop of [pb_encode_varint]: an array of 10 bytes. *)
Definition varint_buffer (value : Z) : M estate (list Z) :=
  loop 11 (fun '(value, buffer) =>
    if value =? 0 then ret (inr buffer)
    else if (length buffer <? 10)%nat then
      ret (inl (Z.shiftr value 7, buffer ++ [u8 (Z.lor (Z.land value 0x7F) 0x80)]))
    else ub) (value, []).

Definition pb_encode_varint (value : Z) : M estate unit :=
  if value <=? 0x7F then pb_write (WLocal [u8 value]) 1
  else
    let! buffer := varint_buffer value in
    let i := length buffer in
    let! last := or_ub (buffer !! (i - 1)%nat) in
    pb_write (WLocal (<[(i - 1)%nat := Z.land last 0x7F]> buffer)) (Z.of_nat i).

Definition pb_encode_svarint (value : Z) : M estate unit :=
  let zigzagged :=
    if value <? 0 then u64 (Z.lnot (u64 (Z.shiftl (u64 value) 1)))
    else u64 (Z.shiftl (u64 value) 1) in
  pb_encode_varint zigzagged.

Definition pb_encode_fixed32 (value : Z) : M estate unit :=
  let! val := load_le 4 value in
  pb_write (WLocal [u8 (Z.land val 0xFF);
                    u8 (Z.land (Z.shiftr val 8) 0xFF);
                    u8 (Z.land (Z.shiftr val 16) 0xFF);
                    u8 (Z.land (Z.shiftr val 24) 0xFF)]) 4.

Definition pb_encode_fixed64 (value : Z) : M estate unit :=
  let! val := load_le 8 value in
  pb_write (WLocal [u8 (Z.land val 0xFF);
                    u8 (Z.land (Z.shiftr val 8) 0xFF);
                    u8 (Z.land (Z.shiftr val 16) 0xFF);
                    u8 (Z.land (Z.shiftr val 24) 0xFF);
                    u8 (Z.land (Z.shiftr val 32) 0xFF);
                    u8 (Z.land (Z.shiftr val 40) 0xFF);
                    u8 (Z.land (Z.shiftr val 48) 0xFF);
                    u8 (Z.land (Z.shiftr val 56) 0xFF)]) 8.

Definition pb_encode_tag (wiretype field_number : Z) : M estate unit :=
  let tag := Z.lor (u64 (Z.shiftl (u64 field_number) 3)) wiretype in
  pb_encode_varint tag.

Definition wiretype_of_ltype (ltype : Z) : option Z :=
  if (ltype =? PB_LTYPE_VARINT) || (ltype =? PB_LTYPE_UVARINT) || (ltype =? PB_LTYPE_SVARINT)
  then Some PB_WT_VARINT
  else if ltype =? PB_LTYPE_FIXED32 then Some PB_WT_32BIT
  else if ltype =? PB_LTYPE_FIXED64 then Some PB_WT_64BIT
  else if (ltype =? PB_LTYPE_BYTES) || (ltype =? PB_LTYPE_STRING) ||
          (ltype =? PB_LTYPE_SUBMESSAGE) || (ltype =? PB_LTYPE_FIXED_LENGTH_BYTES)
  then Some PB_WT_STRING
  else None.

Definition pb_encode_tag_for_field (field : pb_field_t) : M estate unit :=
  match wiretype_of_ltype (PB_LTYPE (pf_type field)) with
  | Some wiretype => pb_encode_tag wiretype (pf_tag field)
  | None => PB_RETURN_ERROR_OUT "invalid field type"
  end.

Definition pb_encode_string (buffer : wbuf) (size : Z) : M estate unit :=
  pb_encode_varint (u64 size) ;;;
  pb_write buffer size.

End ostream.

(** * Encoding messages (pb_encode.c)

    The field encoders, arrays, the proto3 presence test, extensions and the
    message loop. *)

(** Application code the encoder calls: the [encode] callback of a callback
    field (function, descriptor, address of [arg]) and of an extension type
    (function, address of the extension). *)
Class UserEncode := {
  user_encode : Z -> pb_field_t -> Z -> M estate unit;
  user_ext_encode : Z -> Z -> M estate unit
}.

Definition pb_encoder_t : Type := pb_field_t -> Z -> M estate unit.

Section encode.
Context {PL : Platform} {UW : UserWrite} {UE : UserEncode} {DS : Descriptors}.

(** ** Field encoders *)

(** The signed value read from [src] at the size of the field. *)
Definition load_signed (data_size src : Z) : M estate Z :=
  if data_size =? 1 then let! v := load_le 1 src in ret (s8 v)
  else if data_size =? 2 then let! v := load_le 2 src in ret (s16 v)
  else if data_size =? 4 then let! v := load_le 4 src in ret (s32 v)
  else if data_size =? 8 then let! v := load_le 8 src in ret (s64 v)
  else PB_RETURN_ERROR_OUT "invalid data_size".

Definition load_unsigned (data_size src : Z) : M estate Z :=
  if data_size =? 1 then load_le 1 src
  else if data_size =? 2 then load_le 2 src
  else if data_size =? 4 then load_le 4 src
  else if data_size =? 8 then load_le 8 src
  else PB_RETURN_ERROR_OUT "invalid data_size".

Definition pb_enc_varint : pb_encoder_t := fun field src =>
  let! value := load_signed (pf_data_size field) src in
  pb_encode_varint (u64 value).

Definition pb_enc_uvarint : pb_encoder_t := fun field src =>
  let! value := load_unsigned (pf_data_size field) src in
  pb_encode_varint value.

Definition pb_enc_svarint : pb_encoder_t := fun field src =>
  let! value := load_signed (pf_data_size field) src in
  pb_encode_svarint value.

Definition pb_enc_fixed32 : pb_encoder_t := fun _ src => pb_encode_fixed32 src.

Definition pb_enc_fixed64 : pb_encoder_t := fun _ src => pb_encode_fixed64 src.

Definition pb_enc_bytes : pb_encoder_t := fun field src =>
  if src =? 0 then pb_encode_string WNull 0
  else
    let! size := load_le sizeof_pb_size_t src in
    if (PB_ATYPE (pf_type field) =? PB_ATYPE_STATIC) &&
       (pf_data_size field <? PB_BYTES_ARRAY_T_ALLOCSIZE size)
    then PB_RETURN_ERROR_OUT "bytes size exceeded"
    else
      let! size := load_le sizeof_pb_size_t src in
      pb_encode_string (WMem (src + offsetof_bytes)) size.

(** [while (size < max_size && *p != '\0')]: the length of the string.  Without
    a terminator the loop leaves the memory; [n] bounds the number of rounds by
    [max_size]. *)
Fixpoint string_length (n : nat) (p : Z) (size : Z) : M estate Z :=
  match n with
  | O => ret size
  | S n =>
      let! c := load_le 1 p in
      if c =? 0 then ret size else string_length n (p + 1) (size + 1)
  end.

(** For a pointer field the bound is [SIZE_MAX]; a scan that long has left the
    memory before, so the number of mapped bytes bounds it too. *)
Definition pb_enc_string : pb_encoder_t := fun field src =>
  if src =? 0 then pb_encode_string WNull 0
  else
    let! mapped_bytes := gets (fun s => size (es_mem s)) in
    let max_size := if PB_ATYPE (pf_type field) =? PB_ATYPE_POINTER
                    then S mapped_bytes else Z.to_nat (pf_data_size field) in
    let! size := string_length max_size src 0 in
    pb_encode_string (WMem src) size.

Definition pb_enc_fixed_length_bytes : pb_encoder_t := fun field src =>
  pb_encode_string (WMem src) (pf_data_size field).

(** ** The proto3 presence test *)

(** [for (i = 0; i < field->data_size; i++) if (p[i] != 0) return false;] *)
Fixpoint all_zero (n : nat) (p : Z) : M estate bool :=
  match n with
  | O => ret true
  | S n =>
      let! c := load_le 1 p in
      if negb (c =? 0) then ret false else all_zero n (p + 1)
  end.

(** The recursion is on the nesting of static submessages. *)
Fixpoint pb_check_proto3_default_value (fuel : nat) (field : pb_field_t) (pData : Z)
    : M estate bool :=
  match fuel with
  | O => out_of_fuel
  | S fuel =>
      let type := pf_type field in
      let is_static := PB_ATYPE type =? PB_ATYPE_STATIC in
      if is_static && (PB_LTYPE type =? PB_LTYPE_BYTES) then
        let! size := load_le sizeof_pb_size_t pData in ret (size =? 0)
      else if is_static && (PB_LTYPE type =? PB_LTYPE_STRING) then
        let! c := load_le 1 pData in ret (c =? 0)
      else if is_static && (PB_LTYPE type =? PB_LTYPE_FIXED_LENGTH_BYTES) then
        ret (pf_data_size field =? 0)
      else if is_static && (PB_LTYPE type =? PB_LTYPE_SUBMESSAGE) then
        let! fields := or_ub (descriptors_at (pf_ptr field)) in
        let! r := pb_field_iter_begin fields pData in
        if snd r then
          loop (S (length fields)) (fun it =>
            let! f := iter_field it in
            let! b := pb_check_proto3_default_value fuel f (it_pData it) in
            if negb b then ret (inr false)
            else
              let! r := pb_field_iter_next it in
              if snd r then ret (inl (fst r)) else ret (inr true)) (fst r)
        else ret true
      else all_zero (Z.to_nat (pf_data_size field)) pData
  end.

(** ** One field

    [encode] is the recursive call on a submessage; [fuel] bounds the proto3
    test and the walk over extensions. *)
Section one_field.
Context (fuel : nat) (encode : list pb_field_t -> Z -> M estate unit).

Definition pb_encode_submessage (fields : list pb_field_t) (src_struct : Z) : M estate unit :=
  let! r := on_ostream PB_OSTREAM_SIZING (encode fields src_struct) in
  match fst r with
  | None =>
      on_out (set_os_errmsg (os_errmsg (snd r))) ;;; fail
  | Some _ =>
      let size := os_bytes_written (snd r) in
      pb_encode_varint (u64 size) ;;;
      let! stream := gets es_out in
      if is_sizing stream then pb_write WNull size
      else if os_max_size stream <? usize (os_bytes_written stream + size)
      then PB_RETURN_ERROR_OUT "stream full"
      else
        let substream := mk_ostream (os_callback stream) (os_state stream) size 0 None in
        let! r := on_ostream substream (encode fields src_struct) in
        let substream := snd r in
        on_out (fun o =>
          set_os_errmsg (os_errmsg substream)
            (set_os_state (os_state substream)
              (set_bytes_written
                 (usize (os_bytes_written o + os_bytes_written substream)) o))) ;;;
        if negb (os_bytes_written substream =? size)
        then PB_RETURN_ERROR_OUT "submsg size changed"
        else match fst r with Some _ => ret tt | None => fail end
  end.

Definition pb_enc_submessage : pb_encoder_t := fun field src =>
  if pf_ptr field =? 0 then PB_RETURN_ERROR_OUT "invalid field descriptor"
  else
    let! fields := or_ub (descriptors_at (pf_ptr field)) in
    pb_encode_submessage fields src.

(** A null entry stands for the null function pointer. *)
Definition PB_ENCODERS : list (option pb_encoder_t) :=
  [ Some pb_enc_varint; Some pb_enc_uvarint; Some pb_enc_svarint;
    Some pb_enc_fixed32; Some pb_enc_fixed64;
    Some pb_enc_bytes; Some pb_enc_string; Some pb_enc_submessage;
    None; Some pb_enc_fixed_length_bytes ].

(** The call through [PB_ENCODERS[PB_LTYPE(field->type)]]. *)
Definition call_encoder (field : pb_field_t) (src : Z) : M estate unit :=
  let! func := or_ub (mjoin (PB_ENCODERS !! Z.to_nat (PB_LTYPE (pf_type field)))) in
  func field src.

(** [for (i = 0; i < count; i++) { if (!item(p)) return false; p += data_size; }] *)
Fixpoint encode_items (n : nat) (data_size p : Z) (item : Z -> M estate unit)
    : M estate unit :=
  match n with
  | O => ret tt
  | S n => item p ;;; encode_items n data_size (p + data_size) item
  end.

(** The size of the packed items: computed, or measured on a sizing stream. *)
Definition packed_size (field : pb_field_t) (pData count : Z) : M estate Z :=
  if PB_LTYPE (pf_type field) =? PB_LTYPE_FIXED32 then ret (usize (4 * count))
  else if PB_LTYPE (pf_type field) =? PB_LTYPE_FIXED64 then ret (usize (8 * count))
  else
    let! r := on_ostream PB_OSTREAM_SIZING
      (encode_items (Z.to_nat count) (pf_data_size field) pData (call_encoder field)) in
    match fst r with
    | None => fail
    | Some _ => ret (os_bytes_written (snd r))
    end.

Definition encode_array (field : pb_field_t) (pData count : Z) : M estate unit :=
  let type := pf_type field in
  if count =? 0 then ret tt
  else if negb (PB_ATYPE type =? PB_ATYPE_POINTER) && (pf_array_size field <? count)
  then PB_RETURN_ERROR_OUT "array max size exceeded"
  else if PB_LTYPE type <=? PB_LTYPE_LAST_PACKABLE then
    pb_encode_tag PB_WT_STRING (pf_tag field) ;;;
    let! size := packed_size field pData count in
    pb_encode_varint (u64 size) ;;;
    let! stream := gets es_out in
    if is_sizing stream then pb_write WNull size
    else encode_items (Z.to_nat count) (pf_data_size field) pData (call_encoder field)
  else
    encode_items (Z.to_nat count) (pf_data_size field) pData (fun p =>
      pb_encode_tag_for_field field ;;;
      if (PB_ATYPE type =? PB_ATYPE_POINTER) &&
         ((PB_LTYPE type =? PB_LTYPE_STRING) || (PB_LTYPE type =? PB_LTYPE_BYTES))
      then let! p' := load_ptr p in call_encoder field p'
      else call_encoder field p).

(** [pSize]: the address of the local [implicit_has], with its value, or an
    address in the message. *)
Inductive size_ptr := implicit_has (b : bool) | size_at (a : Z).

Definition load_has (p : size_ptr) : M estate bool :=
  match p with implicit_has b => ret b | size_at a => load_bool a end.

(** A local [bool] is too small to be read as a [pb_size_t]. *)
Definition load_count (p : size_ptr) : M estate Z :=
  match p with implicit_has _ => ub | size_at a => load_le sizeof_pb_size_t a end.

Definition encode_basic_field (field : pb_field_t) (pData : Z) : M estate unit :=
  let type := pf_type field in
  or_ub (PB_ENCODERS !! Z.to_nat (PB_LTYPE type)) ;;;
  let! pSize :=
    if negb (pf_size_offset field =? 0) then ret (size_at (pData + pf_size_offset field))
    else if PB_HTYPE type =? PB_HTYPE_OPTIONAL then
      let! b := pb_check_proto3_default_value fuel field pData in
      ret (implicit_has (negb b))
    else ret (implicit_has true) in
  let! p :=
    if PB_ATYPE type =? PB_ATYPE_POINTER then
      let! pData := load_ptr pData in
      ret (pData, match pSize with
                  | implicit_has _ => implicit_has (negb (pData =? 0))
                  | size_at a => size_at a
                  end)
    else ret (pData, pSize) in
  let '(pData, pSize) := p in
  if PB_HTYPE type =? PB_HTYPE_REQUIRED then
    if pData =? 0 then PB_RETURN_ERROR_OUT "missing required field"
    else pb_encode_tag_for_field field ;;; call_encoder field pData
  else if PB_HTYPE type =? PB_HTYPE_OPTIONAL then
    let! has := load_has pSize in
    if has : bool then pb_encode_tag_for_field field ;;; call_encoder field pData
    else ret tt
  else if PB_HTYPE type =? PB_HTYPE_REPEATED then
    let! count := load_count pSize in
    encode_array field pData count
  else if PB_HTYPE type =? PB_HTYPE_ONEOF then
    let! which := load_count pSize in
    if which =? pf_tag field then pb_encode_tag_for_field field ;;; call_encoder field pData
    else ret tt
  else PB_RETURN_ERROR_OUT "invalid field type".

Definition encode_callback_field (field : pb_field_t) (pData : Z) : M estate unit :=
  let! fn := load_ptr (callback_funcs pData) in
  if negb (fn =? 0) then
    let! r := attempt (user_encode fn field (callback_arg pData)) in
    match r with
    | None => PB_RETURN_ERROR_OUT "callback error"
    | Some _ => ret tt
    end
  else ret tt.

Definition encode_field (field : pb_field_t) (pData : Z) : M estate unit :=
  let atype := PB_ATYPE (pf_type field) in
  if (atype =? PB_ATYPE_STATIC) || (atype =? PB_ATYPE_POINTER)
  then encode_basic_field field pData
  else if atype =? PB_ATYPE_CALLBACK then encode_callback_field field pData
  else PB_RETURN_ERROR_OUT "invalid field type".

(** ** Extensions *)

Definition default_extension_encoder (extension : Z) : M estate unit :=
  let! type := load_ptr (ext_type extension) in
  let! arg := load_ptr (ext_type_arg type) in
  let! fields := or_ub (descriptors_at arg) in
  let! field := or_ub (fields !! 0%nat) in
  if PB_ATYPE (pf_type field) =? PB_ATYPE_POINTER
  then encode_field field (ext_dest extension)
  else let! dest := load_ptr (ext_dest extension) in encode_field field dest.

Definition encode_extension_field (pData : Z) : M estate unit :=
  let! extension := load_ptr pData in
  loop (S fuel) (fun extension =>
    if negb (extension =? 0) then
      let! type := load_ptr (ext_type extension) in
      let! encode := load_ptr (ext_type_encode type) in
      (if negb (encode =? 0) then user_ext_encode encode extension
       else default_extension_encoder extension) ;;;
      let! next := load_ptr (ext_next extension) in
      ret (inl next)
    else ret (inr tt)) extension.

(** One round of the loop of [pb_encode]. *)
Definition encode_step (it : pb_field_iter_t) : M estate (pb_field_iter_t + unit) :=
  let! f := iter_field it in
  (if PB_LTYPE (pf_type f) =? PB_LTYPE_EXTENSION
   then encode_extension_field (it_pData it)
   else encode_field f (it_pData it)) ;;;
  let! r := pb_field_iter_next it in
  if snd r then ret (inl (fst r)) else ret (inr tt).

End one_field.

(** ** The entry points *)

Fixpoint pb_encode (fuel : nat) (fields : list pb_field_t) (src_struct : Z) : M estate unit :=
  match fuel with
  | O => out_of_fuel
  | S n =>
      let! r := pb_field_iter_begin fields src_struct in
      if negb (snd r) then ret tt
      else loop (S (length fields)) (encode_step n (pb_encode n)) (fst r)
  end.

Definition pb_encode_delimited (fuel : nat) (fields : list pb_field_t) (src_struct : Z)
    : M estate unit :=
  pb_encode_submessage (pb_encode fuel) fields src_struct.

Definition pb_get_encoded_size (fuel : nat) (fields : list pb_field_t) (src_struct : Z)
    : M estate Z :=
  let! r := on_ostream PB_OSTREAM_SIZING (pb_encode fuel fields src_struct) in
  match fst r with
  | None => fail
  | Some _ => ret (os_bytes_written (snd r))
  end.

End encode.
