(* ===== verification/Wire.v ===== *)
(** * The wire format

    The abstract specification of the Protocol Buffers wire format that the
    stream code implements: base-128 varints, zigzag, tags and little-endian
    fixed-width values, as functions on lists of bytes.  Nothing here depends on
    the program. *)

From Stdlib Require Import ZArith Lia.
From stdpp Require Import base option list strings gmap.
From S2P Require Import Prelude Memory.

(** A varint at the head of the input: its value and its length. *)
Fixpoint parse_varint (l : list Z) : option (Z * nat) :=
  match l with
  | [] => None
  | b :: l =>
      if b <? 128 then Some (b, 1%nat)
      else
        match parse_varint l with
        | Some (v, n) => Some (b mod 128 + 128 * v, S n)
        | None => None
        end
  end.

(** The canonical encoding, of at most [S n] bytes. *)
Fixpoint varint_bytes_n (n : nat) (v : Z) : list Z :=
  if v <? 128 then [v]
  else match n with
       | O => []
       | S n => (v mod 128 + 128) :: varint_bytes_n n (v / 128)
       end.

(** A 64-bit value takes at most 10 bytes. *)
Definition varint_bytes (v : Z) : list Z := varint_bytes_n 9 v.

(** What a decoder that accepts at most [k] bytes does on an input. *)
Inductive varint_result :=
  | VOk (v : Z) (n : nat)
  | VOverflow (n : nat)
  | VTruncated (n : nat).

Definition scan_varint (k : nat) (l : list Z) : varint_result :=
  match parse_varint l with
  | Some (v, n) => if (n <=? k)%nat then VOk v n else VOverflow k
  | None => if (length l <? k)%nat then VTruncated (length l) else VOverflow k
  end.

(** Zigzag: the bijection between signed and unsigned 64-bit values. *)
Definition zigzag (v : Z) : Z := if v <? 0 then - 2 * v - 1 else 2 * v.
Definition unzigzag (v : Z) : Z := if Z.even v then v / 2 else - (v / 2) - 1.

(** A field header. *)
Definition tag_value (wire_type number : Z) : Z := 8 * number + wire_type.

Lemma parse_varint_bytes_n n v l :
  0 <= v < 2 ^ (7 * Z.of_nat (S n)) ->
  parse_varint (varint_bytes_n n v ++ l) = Some (v, length (varint_bytes_n n v)).
Proof.
  revert v. induction n as [|n IH]; intros v Hv; cbn [varint_bytes_n].
  - destruct (Z.ltb_spec v 128); [|cbn in Hv; lia].
    cbn. destruct (Z.ltb_spec v 128); [done|lia].
  - destruct (Z.ltb_spec v 128).
    + cbn. destruct (Z.ltb_spec v 128); [done|lia].
    + cbn [app parse_varint length].
      pose proof (Z.mod_pos_bound v 128 ltac:(lia)).
      destruct (Z.ltb_spec (v mod 128 + 128) 128); [lia|].
      rewrite IH.
      * do 2 f_equal. rewrite <- (Z.mul_1_l 128) at 2.
        rewrite Z.mod_add by lia. rewrite Z.mod_mod by lia.
        pose proof (Z.div_mod v 128 ltac:(lia)). lia.
      * split; [apply Z.div_pos; lia|]. apply Z.div_lt_upper_bound; [lia|].
        replace (7 * Z.of_nat (S (S n))) with (7 + 7 * Z.of_nat (S n)) in Hv by lia.
        rewrite Z.pow_add_r in Hv by lia. lia.
Qed.

Lemma parse_varint_bytes v l :
  0 <= v < 2 ^ 64 ->
  parse_varint (varint_bytes v ++ l) = Some (v, length (varint_bytes v)).
Proof. intros. apply parse_varint_bytes_n. lia. Qed.

Lemma varint_bytes_n_length n v :
  (length (varint_bytes_n n v) <= S n)%nat /\
  ((0 < n)%nat -> (1 <= length (varint_bytes_n n v))%nat).
Proof.
  revert v. induction n as [|n IH]; intros v; cbn [varint_bytes_n].
  - destruct (v <? 128); cbn; lia.
  - destruct (v <? 128); cbn [length]; [lia|].
    destruct (IH (v / 128)). lia.
Qed.

Lemma varint_bytes_length v : (1 <= length (varint_bytes v) <= 10)%nat.
Proof. unfold varint_bytes. destruct (varint_bytes_n_length 9 v). lia. Qed.

Lemma varint_bytes_n_bytes n v : 0 <= v -> Forall is_byte (varint_bytes_n n v).
Proof.
  revert v. induction n as [|n IH]; intros v Hv; cbn [varint_bytes_n].
  - destruct (Z.ltb_spec v 128); repeat constructor; unfold is_byte; lia.
  - destruct (Z.ltb_spec v 128).
    + repeat constructor; unfold is_byte; lia.
    + constructor; [|apply IH, Z.div_pos; lia].
      pose proof (Z.mod_pos_bound v 128 ltac:(lia)). unfold is_byte. lia.
Qed.

Lemma varint_bytes_bytes v : 0 <= v -> Forall is_byte (varint_bytes v).
Proof. apply varint_bytes_n_bytes. Qed.

Lemma scan_varint_bytes v l :
  0 <= v < 2 ^ 64 -> scan_varint 10 (varint_bytes v ++ l) = VOk v (length (varint_bytes v)).
Proof.
  intros Hv. unfold scan_varint. rewrite parse_varint_bytes by done.
  pose proof (varint_bytes_length v).
  destruct (Nat.leb_spec (length (varint_bytes v)) 10); [done|lia].
Qed.

Lemma varint_bytes_length_32 v :
  0 <= v < 2 ^ 32 -> (length (varint_bytes v) <= 5)%nat.
Proof.
  intros Hv. unfold varint_bytes.
  assert (forall n m v, 0 <= v < 2 ^ (7 * Z.of_nat (S m)) -> (m <= n)%nat ->
            varint_bytes_n n v = varint_bytes_n m v) as Hn.
  { clear. induction n as [|n IH]; intros m v Hv Hm.
    - by replace m with 0%nat by lia.
    - destruct m as [|m]; cbn [varint_bytes_n].
      + destruct (Z.ltb_spec v 128); [done|cbn in Hv; lia].
      + destruct (Z.ltb_spec v 128); [done|]. f_equal. apply IH; [|lia].
        split; [apply Z.div_pos; lia|]. apply Z.div_lt_upper_bound; [lia|].
        replace (7 * Z.of_nat (S (S m))) with (7 + 7 * Z.of_nat (S m)) in Hv by lia.
        rewrite Z.pow_add_r in Hv by lia. lia. }
  rewrite (Hn 9%nat 4%nat) by (cbn; lia).
  by apply varint_bytes_n_length.
Qed.

Lemma scan_varint_bytes_32 v l :
  0 <= v < 2 ^ 32 -> scan_varint 5 (varint_bytes v ++ l) = VOk v (length (varint_bytes v)).
Proof.
  intros Hv. unfold scan_varint. rewrite parse_varint_bytes by lia.
  pose proof (varint_bytes_length_32 v Hv).
  destruct (Nat.leb_spec (length (varint_bytes v)) 5); [done|lia].
Qed.

Lemma parse_varint_pos l v n :
  Forall is_byte l -> parse_varint l = Some (v, n) ->
  0 <= v /\ (1 <= n <= length l)%nat.
Proof.
  intros Hl. revert v n. induction Hl as [|b l Hb _ IH]; intros v n; cbn; [done|].
  unfold is_byte in Hb. destruct (Z.ltb_spec b 128).
  - intros [= <- <-]. lia.
  - destruct (parse_varint l) as [[v' n']|]; [|done]. intros [= <- <-].
    destruct (IH _ _ eq_refl). pose proof (Z.mod_pos_bound b 128 ltac:(lia)). lia.
Qed.

Lemma unzigzag_zigzag v : unzigzag (zigzag v) = v.
Proof.
  unfold unzigzag, zigzag. destruct (Z.ltb_spec v 0).
  - replace (Z.even (-2 * v - 1)) with false.
    + replace (-2 * v - 1) with (1 + (- v - 1) * 2) by lia.
      rewrite Z.div_add by lia. change (1 / 2) with 0. lia.
    + replace (-2 * v - 1) with (1 + 2 * (- v - 1)) by lia.
      by rewrite Z.even_add_mul_2.
  - rewrite Z.even_mul. cbn [Z.even orb]. rewrite Z.mul_comm, Z.div_mul by lia. done.
Qed.

Lemma varint_bytes_n_bound n v :
  0 <= v < 2 ^ (7 * Z.of_nat (S n)) -> v < 2 ^ (7 * Z.of_nat (length (varint_bytes_n n v))).
Proof.
  revert v. induction n as [|n IH]; intros v Hv; cbn [varint_bytes_n].
  - destruct (Z.ltb_spec v 128); cbn in *; lia.
  - destruct (Z.ltb_spec v 128); [cbn; lia|]. cbn [length].
    replace (7 * Z.of_nat (S (length (varint_bytes_n n (v / 128)))))
      with (7 + 7 * Z.of_nat (length (varint_bytes_n n (v / 128)))) by lia.
    rewrite Z.pow_add_r by lia. change (2 ^ 7) with 128.
    assert (v / 128 < 2 ^ (7 * Z.of_nat (length (varint_bytes_n n (v / 128))))) as Hd.
    { apply IH. split; [apply Z.div_pos; lia|]. apply Z.div_lt_upper_bound; [lia|].
      replace (7 * Z.of_nat (S (S n))) with (7 + 7 * Z.of_nat (S n)) in Hv by lia.
      rewrite Z.pow_add_r in Hv by lia. lia. }
    pose proof (Z.div_mod v 128 ltac:(lia)). pose proof (Z.mod_pos_bound v 128 ltac:(lia)). lia.
Qed.

(** A value has at least five digits from 2^28 on. *)
Lemma varint_bytes_length_5 v :
  2 ^ 28 <= v < 2 ^ 64 -> (5 <= length (varint_bytes v))%nat.
Proof.
  intros Hv. destruct (Nat.leb_spec 5 (length (varint_bytes v))) as [|Hlt]; [done|]. exfalso.
  pose proof (varint_bytes_n_bound 9 v ltac:(change (7 * Z.of_nat 10) with 70; lia)) as Hb.
  fold (varint_bytes v) in Hb.
  assert (2 ^ (7 * Z.of_nat (length (varint_bytes v))) <= 2 ^ 28)
    by (apply Z.pow_le_mono_r; lia). lia.
Qed.

(** Adding the next seven bits, modulo [2^w]. *)
Lemma varint_accumulate w p r b :
  0 <= p < w -> 0 <= r < 2 ^ p -> 
  Z.lor r (uwrap w (Z.shiftl (Z.land b 0x7F) p)) = uwrap w (r + b mod 128 * 2 ^ p).
Proof.
  intros Hp Hr. rewrite land_7F, uwrap_shiftl, lor_shiftl_add by lia.
  unfold uwrap. assert (0 < 2 ^ p) by (apply Z.pow_pos_nonneg; lia).
  assert (0 < 2 ^ (w - p)) by (apply Z.pow_pos_nonneg; lia).
  assert (2 ^ w = 2 ^ p * 2 ^ (w - p)) as -> by (rewrite <- Z.pow_add_r; [f_equal|..]; lia).
  rewrite Z.rem_mul_r by lia.
  rewrite Z.mod_add, Z.div_add by lia.
  rewrite (Z.mod_small r), (Z.div_small r), Z.add_0_l by lia. f_equal. apply Z.mul_comm.
Qed.
