(* ===== verification/Input.v ===== *)
(** * Input streams refine the wire format

    Over a memory buffer, each reading function of the library behaves as its
    specification on the list of bytes still in the buffer: same values, same
    number of bytes consumed, same errors, and never undefined behaviour. *)

From Stdlib Require Import ZArith Lia.
From stdpp Require Import base option list strings gmap.
From S2P Require Import Prelude Memory Descr Decode Wire.

(** ** The view of a buffer stream as a list of bytes *)

(** [stream] reads from a memory buffer whose remaining content is [l]. *)
Definition buf_input `{!Platform} (s : dstate) (l : list Z) : Prop :=
  is_callback (ds_in s) = cb_buf_read /\
  is_bytes_left (ds_in s) = Z.of_nat (length l) /\
  Z.of_nat (length l) < 2 ^ size_bits /\
  mem_load (ds_mem s) (is_state (ds_in s)) (length l) = Some l /\
  Forall is_byte l.

(** The state after consuming [n] bytes. *)
Definition advance (n : nat) (s : dstate) : dstate :=
  mk_dstate (set_bytes_left (is_bytes_left (ds_in s) - Z.of_nat n)
              (set_state (is_state (ds_in s) + Z.of_nat n) (ds_in s)))
            (ds_mem s).

(** The state after an error. *)
Definition with_error (msg : string) (s : dstate) : dstate :=
  mk_dstate (PB_SET_ERROR msg (ds_in s)) (ds_mem s).

(** A value decoded by a varint reader that keeps [w] bits, and its error
    cases. *)
Definition varint_outcome (w : Z) (r : varint_result) (s : dstate) : res dstate Z :=
  match r with
  | VOk v n => Ok (uwrap w v) (advance n s)
  | VOverflow n => Err (with_error "varint overflow" (advance n s))
  | VTruncated n => Err (with_error "end-of-stream" (advance n s))
  end.

Section input.
Context {PL : Platform} {UR : UserRead}.

Lemma advance_0 s : advance 0 s = s.
Proof.
  destruct s as [[cb st bl er] m]. unfold advance; cbn. by rewrite Z.sub_0_r, Z.add_0_r.
Qed.

Lemma advance_advance n k s : advance n (advance k s) = advance (k + n) s.
Proof.
  destruct s as [[cb st bl er] m]. unfold advance, set_bytes_left, set_state; cbn.
  do 2 f_equal; lia.
Qed.

Lemma advance_mem n s : ds_mem (advance n s) = ds_mem s.
Proof. done. Qed.

Lemma mem_load_drop m a l1 l2 :
  mem_load m a (length (l1 ++ l2)) = Some (l1 ++ l2) ->
  mem_load m (a + Z.of_nat (length l1)) (length l2) = Some l2.
Proof.
  intros [_ H]%mem_load_lookup. apply mem_load_lookup. split; [done|].
  intros i Hi. rewrite length_app in H.
  specialize (H (length l1 + i)%nat ltac:(lia)).
  rewrite lookup_app_r in H by lia.
  replace (length l1 + i - length l1)%nat with i in H by lia.
  rewrite <- H. f_equal. lia.
Qed.

Lemma mem_load_take m a l1 l2 :
  mem_load m a (length (l1 ++ l2)) = Some (l1 ++ l2) ->
  mem_load m a (length l1) = Some l1.
Proof.
  intros [_ H]%mem_load_lookup. apply mem_load_lookup. split; [done|].
  intros i Hi. rewrite length_app in H. rewrite H by lia. by rewrite lookup_app_l.
Qed.

Lemma buf_input_advance s l1 l2 :
  buf_input s (l1 ++ l2) -> buf_input (advance (length l1) s) l2.
Proof.
  intros (Hcb & Hbl & Hsz & Hm & Hb). rewrite length_app in Hbl, Hsz.
  repeat split; cbn; try done; try lia.
  - by apply mem_load_drop in Hm.
  - by apply Forall_app in Hb as [_ Hb].
Qed.

Lemma buf_input_byte s b l : buf_input s (b :: l) -> is_byte b.
Proof. intros (_ & _ & _ & _ & H). by inversion H. Qed.

(** ** Reading bytes *)

Lemma on_in_ok f s : on_in f s = Ok tt (mk_dstate (f (ds_in s)) (ds_mem s)).
Proof. done. Qed.

Lemma error_ok {A} msg s : PB_RETURN_ERROR (A := A) msg s = Err (with_error msg s).
Proof. done. Qed.

Lemma pb_readbyte_cons s b l :
  buf_input s (b :: l) -> pb_readbyte s = Ok b (advance 1 s).
Proof.
  intros (Hcb & Hbl & Hsz & Hm & _). cbn [length] in *.
  apply (mem_load_take _ _ [b] l) in Hm.
  unfold pb_readbyte. rewrite bind_gets, Hbl.
  destruct (Z.eqb_spec (Z.of_nat (S (length l))) 0); [lia|].
  rewrite (bind_ok _ _ _ (Some [b])
    (mk_dstate (set_state (is_state (ds_in s) + 1) (ds_in s)) (ds_mem s))).
  - rewrite (bind_ok _ _ _ _ _ (on_in_ok _ _)). cbn.
    unfold ret, advance. do 2 f_equal.
    rewrite Hbl. rewrite usize_small by lia.
    by destruct (ds_in s).
  - apply attempt_ok. unfold call_read. rewrite bind_gets, Hcb. unfold buf_read.
    rewrite bind_gets, (bind_ok _ _ _ _ _ (on_in_ok _ _)). cbn [ds_mem ds_in].
    unfold load_bytes. change (get_mem _) with (ds_mem s).
    change (Z.to_nat 1) with 1%nat. cbn [length] in Hm. by rewrite Hm.
Qed.

Lemma pb_readbyte_nil s :
  buf_input s [] -> pb_readbyte s = Err (with_error "end-of-stream" s).
Proof. intros (Hcb & Hbl & _). unfold pb_readbyte. rewrite bind_gets, Hbl. done. Qed.

(** ** Varints *)

(** The loop shared by [pb_decode_varint32] and [pb_decode_varint]. *)
Definition varint_round (w : Z) : Z * Z -> M dstate (Z * Z + Z) := fun '(bitpos, result) =>
  if w <=? bitpos then PB_RETURN_ERROR "varint overflow"
  else
    let! byte := pb_readbyte in
    let result := Z.lor result (uwrap w (Z.shiftl (Z.land byte 0x7F) bitpos)) in
    let bitpos := u8 (bitpos + 7) in
    if Z.land byte 0x80 =? 0 then ret (inr result) else ret (inl (bitpos, result)).

(** From round [i], with the value [r] of the [i] bytes read so far. *)
Lemma varint_loop w k i fuel l r s :
  7 * (k - 1) < w <= 7 * k -> 0 < k -> 7 * k < 256 ->
  0 <= i <= k -> (Z.to_nat (k - i) < fuel)%nat ->
  buf_input s l -> 0 <= r < 2 ^ (7 * i) ->
  (match scan_varint (Z.to_nat (k - i)) l with
   | VOk v n => loop fuel (varint_round w) (7 * i, uwrap w r) s
                = Ok (uwrap w (r + v * 2 ^ (7 * i))) (advance n s)
   | VOverflow n => loop fuel (varint_round w) (7 * i, uwrap w r) s
                    = Err (with_error "varint overflow" (advance n s))
   | VTruncated n => loop fuel (varint_round w) (7 * i, uwrap w r) s
                     = Err (with_error "end-of-stream" (advance n s))
   end).
Proof.
  intros Hw Hk Hk8. revert i fuel r s. induction l as [|b l IH]; intros i fuel r s Hi Hf Hs Hr.
  - destruct fuel as [|fuel]; [lia|]. rewrite loop_S.
    unfold scan_varint. cbn [parse_varint length].
    destruct (Nat.ltb_spec 0 (Z.to_nat (k - i))) as [Hlt|Hge].
    + rewrite advance_0. apply bind_err. unfold varint_round.
      destruct (Z.leb_spec w (7 * i)); [lia|]. apply bind_err. by apply pb_readbyte_nil.
    + replace (Z.to_nat (k - i)) with 0%nat by lia. rewrite advance_0.
      apply bind_err. unfold varint_round. destruct (Z.leb_spec w (7 * i)); [done|lia].
  - destruct fuel as [|fuel]; [lia|].
    pose proof (buf_input_byte _ _ _ Hs) as Hb. unfold is_byte in Hb.
    destruct (decide (i = k)) as [->|Hne].
    { replace (Z.to_nat (k - k)) with 0%nat by lia.
      replace (scan_varint 0 (b :: l)) with (VOverflow 0).
      - rewrite advance_0, loop_S. apply bind_err. unfold varint_round.
        destruct (Z.leb_spec w (7 * k)); [done|lia].
      - unfold scan_varint. destruct (parse_varint (b :: l)) as [[v n]|] eqn:E; [|done].
        destruct Hs as (_ & _ & _ & _ & Hl). apply parse_varint_pos in E as [_ E]; [|done].
        destruct (Nat.leb_spec n 0); [lia|done]. }
    assert (0 < 2 ^ (7 * i)) as Hp by (apply Z.pow_pos_nonneg; lia).
    rewrite loop_S.
    assert (varint_round w (7 * i, uwrap w r) s =
            Ok (if b <? 128 then inr (uwrap w (r + b mod 128 * 2 ^ (7 * i)))
                else inl (7 * (i + 1), uwrap w (r + b mod 128 * 2 ^ (7 * i)))) (advance 1 s)) as Hround.
    { unfold varint_round. destruct (Z.leb_spec w (7 * i)); [lia|].
      rewrite (bind_ok _ _ _ _ _ (pb_readbyte_cons _ _ _ Hs)).
      rewrite (uwrap_small w r)
        by (split; [lia|]; eapply Z.lt_le_trans; [apply Hr|]; apply Z.pow_le_mono_r; lia).
      rewrite varint_accumulate by lia.
      rewrite land_80 by lia. destruct (Z.ltb_spec b 128); [done|]. cbn [Z.eqb].
      rewrite (uwrap_small 8) by lia. unfold ret. do 3 f_equal. lia. }
    rewrite (bind_ok _ _ _ _ _ Hround).
    apply (buf_input_advance _ [b] l) in Hs as Hs'. cbn [length] in Hs'.
    unfold scan_varint in *. cbn [parse_varint].
    destruct (Z.ltb_spec b 128) as [Hlt|Hge].
    + destruct (Nat.leb_spec 1 (Z.to_nat (k - i))); [|lia].
      unfold ret. rewrite Z.mod_small by lia. done.
    + pose proof (Z.mod_pos_bound b 128 ltac:(lia)).
      assert (2 ^ (7 * (i + 1)) = 128 * 2 ^ (7 * i)) as Hp'.
      { replace (7 * (i + 1)) with (7 + 7 * i) by lia. by rewrite Z.pow_add_r by lia. }
      specialize (IH (i + 1) fuel (r + b mod 128 * 2 ^ (7 * i)) (advance 1 s)
                    ltac:(lia) ltac:(lia) Hs' ltac:(nia)).
      replace (Z.to_nat (k - i)) with (S (Z.to_nat (k - (i + 1)))) by lia.
      destruct (parse_varint l) as [[v n]|].
      * change (S n <=? S (Z.to_nat (k - (i + 1))))%nat with (n <=? Z.to_nat (k - (i + 1)))%nat.
        destruct (n <=? Z.to_nat (k - (i + 1)))%nat; rewrite IH, advance_advance; [|done].
        do 2 f_equal. rewrite Hp'. lia.
      * cbn [length].
        change (S (length l) <? S (Z.to_nat (k - (i + 1))))%nat
          with (length l <? Z.to_nat (k - (i + 1)))%nat.
        destruct (length l <? Z.to_nat (k - (i + 1)))%nat; by rewrite IH, advance_advance.
Qed.

(** The 64-bit reader computes the varint modulo 2^64 and rejects more than ten
    bytes. *)
Lemma pb_decode_varint_refines s l :
  buf_input s l -> pb_decode_varint s = varint_outcome 64 (scan_varint 10 l) s.
Proof.
  intros Hs.
  pose proof (varint_loop 64 10 0 11 l 0 s ltac:(lia) ltac:(lia) ltac:(lia) ltac:(lia)
                ltac:(cbn; lia) Hs ltac:(cbn; lia)) as H.
  change (Z.to_nat (10 - 0)) with 10%nat in H. change (uwrap 64 0) with 0 in H.
  change (7 * 0) with 0 in H. unfold varint_outcome.
  destruct (scan_varint 10 l); cbn [Z.add] in H; rewrite ?Z.mul_1_r in H; exact H.
Qed.

(** The 32-bit reader: a quick case for one byte, then the same loop. *)
Lemma pb_decode_varint32_refines s l :
  buf_input s l -> pb_decode_varint32 s = varint_outcome 32 (scan_varint 5 l) s.
Proof.
  intros Hs. unfold pb_decode_varint32. destruct l as [|b l].
  - rewrite (bind_err _ _ _ _ (pb_readbyte_nil _ Hs)). cbn. by rewrite advance_0.
  - rewrite (bind_ok _ _ _ _ _ (pb_readbyte_cons _ _ _ Hs)).
    pose proof (buf_input_byte _ _ _ Hs) as Hb. unfold is_byte in Hb.
    rewrite land_80 by lia. unfold scan_varint. cbn [parse_varint].
    destruct (Z.ltb_spec b 128) as [Hlt|Hge].
    + cbn. unfold ret. by rewrite uwrap_small by lia.
    + cbn [Z.eqb].
      apply (buf_input_advance _ [b] l) in Hs as Hs'. cbn [length] in Hs'.
      pose proof (Z.mod_pos_bound b 128 ltac:(lia)).
      pose proof (varint_loop 32 5 1 5 l (b mod 128) (advance 1 s) ltac:(lia) ltac:(lia)
                    ltac:(lia) ltac:(lia) ltac:(cbn; lia) Hs' ltac:(cbn; lia)) as H'.
      change (Z.to_nat (5 - 1)) with 4%nat in H'. change (7 * 1) with 7 in H'.
      rewrite (uwrap_small 32) in H' by lia. rewrite land_7F.
      unfold scan_varint in H'.
      destruct (parse_varint l) as [[v n]|].
      * change (S n <=? 5)%nat with (n <=? 4)%nat.
        destruct (n <=? 4)%nat; rewrite advance_advance in H'; [|exact H'].
        unfold varint_outcome. change (2 ^ 7) with 128 in H'.
        replace (b mod 128 + 128 * v) with (b mod 128 + v * 128) by lia. exact H'.
      * cbn [length]. change (S (length l) <? 5)%nat with (length l <? 4)%nat.
        destruct (length l <? 4)%nat; rewrite advance_advance in H'; exact H'.
Qed.

(** ** Reading and skipping bytes *)

Lemma buf_input_left s l : buf_input s l -> is_bytes_left (ds_in s) = Z.of_nat (length l).
Proof. by intros (_ & H & _). Qed.

(** What [call_read] does to the stream of a buffer. *)
Lemma call_read_buf buf count s :
  is_callback (ds_in s) = cb_buf_read ->
  call_read buf count s =
  let s' := mk_dstate (set_state (is_state (ds_in s) + count) (ds_in s)) (ds_mem s) in
  match buf with
  | RNull => Ok [] s'
  | RLocal => load_bytes (is_state (ds_in s)) (Z.to_nat count) s'
  | RMem a => bind (copy_bytes a (is_state (ds_in s)) (Z.to_nat count)) (fun _ => ret []) s'
  end.
Proof.
  intros Hcb. unfold call_read. rewrite bind_gets, Hcb. unfold buf_read.
  rewrite bind_gets, (bind_ok _ _ _ _ _ (on_in_ok _ _)). by destruct buf.
Qed.

Lemma pb_read_is_data buf count s :
  is_callback (ds_in s) = cb_buf_read -> pb_read buf count s = pb_read_data buf count s.
Proof. intros Hcb. unfold pb_read. rewrite bind_gets, Hcb. by destruct buf. Qed.

Lemma pb_read_short buf count l s :
  buf_input s l -> Z.of_nat (length l) < count ->
  pb_read buf count s = Err (with_error "end-of-stream" s).
Proof.
  intros Hs Hc. rewrite pb_read_is_data by apply Hs. unfold pb_read_data.
  rewrite bind_gets, (buf_input_left _ _ Hs).
  destruct (Z.ltb_spec (Z.of_nat (length l)) count); [done|lia].
Qed.

(** The bookkeeping after a successful callback. *)
Lemma pb_read_data_ok buf (l1 l2 r : list Z) s m :
  buf_input s (l1 ++ l2) ->
  call_read buf (Z.of_nat (length l1)) s =
    Ok r (mk_dstate (set_state (is_state (ds_in s) + Z.of_nat (length l1)) (ds_in s)) m) ->
  pb_read buf (Z.of_nat (length l1)) s =
    Ok r (mk_dstate (ds_in (advance (length l1) s)) m).
Proof.
  intros Hs Hc. rewrite pb_read_is_data by apply Hs. unfold pb_read_data.
  rewrite bind_gets, (buf_input_left _ _ Hs), length_app.
  destruct (Z.ltb_spec (Z.of_nat (length l1 + length l2)) (Z.of_nat (length l1))); [lia|].
  rewrite (bind_ok _ _ _ _ _ (attempt_ok _ _ _ _ Hc)).
  rewrite (bind_ok _ _ _ _ _ (on_in_ok _ _)). unfold ret. cbn.
  destruct Hs as (_ & Hbl & Hsz & _). rewrite length_app in Hbl, Hsz.
  rewrite usize_small by lia. done.
Qed.

(** Skipping does not touch the memory. *)
Lemma pb_read_null_raw s n :
  is_callback (ds_in s) = cb_buf_read ->
  Z.of_nat n <= is_bytes_left (ds_in s) < 2 ^ size_bits ->
  pb_read RNull (Z.of_nat n) s = Ok [] (advance n s).
Proof.
  intros Hcb Hn. rewrite pb_read_is_data by done. unfold pb_read_data. rewrite bind_gets.
  destruct (Z.ltb_spec (is_bytes_left (ds_in s)) (Z.of_nat n)); [lia|].
  rewrite (bind_ok _ _ _ (Some [])
    (mk_dstate (set_state (is_state (ds_in s) + Z.of_nat n) (ds_in s)) (ds_mem s))).
  - rewrite (bind_ok _ _ _ _ _ (on_in_ok _ _)). unfold ret. cbn.
    by rewrite usize_small by lia.
  - apply attempt_ok. by rewrite call_read_buf by done.
Qed.

Lemma pb_read_null s l1 l2 :
  buf_input s (l1 ++ l2) ->
  pb_read RNull (Z.of_nat (length l1)) s = Ok [] (advance (length l1) s).
Proof.
  intros (Hcb & Hbl & Hsz & _). rewrite length_app in Hbl, Hsz.
  apply pb_read_null_raw; [done|lia].
Qed.

Lemma pb_read_local s l1 l2 :
  buf_input s (l1 ++ l2) ->
  pb_read RLocal (Z.of_nat (length l1)) s = Ok l1 (advance (length l1) s).
Proof.
  intros Hs. rewrite (pb_read_data_ok _ l1 l2 l1 s (ds_mem s)); [done|done|].
  rewrite call_read_buf by apply Hs. unfold load_bytes. cbn [get_mem dstate_mem ds_mem].
  rewrite Nat2Z.id. destruct Hs as (_ & _ & _ & Hm & _).
  apply mem_load_take in Hm. by rewrite Hm.
Qed.

(** A read into memory that does not overlap the input stores the bytes. *)
Lemma pb_read_mem s l1 l2 a m :
  buf_input s (l1 ++ l2) ->
  a + Z.of_nat (length l1) <= is_state (ds_in s) \/
    is_state (ds_in s) + Z.of_nat (length l1) <= a ->
  mem_store (ds_mem s) a l1 = Some m ->
  pb_read (RMem a) (Z.of_nat (length l1)) s
  = Ok [] (mk_dstate (ds_in (advance (length l1) s)) m).
Proof.
  intros Hs Hd Hst. apply (pb_read_data_ok _ l1 l2); [done|].
  rewrite call_read_buf by apply Hs. unfold bind, copy_bytes.
  cbn [get_mem dstate_mem ds_mem]. rewrite Nat2Z.id, mem_copy_disjoint by done.
  destruct Hs as (_ & _ & _ & Hm & _). apply mem_load_take in Hm. by rewrite Hm, Hst.
Qed.

(** ** Skipping *)

Lemma pb_skip_varint_refines s l :
  buf_input s l ->
  pb_skip_varint s =
  match parse_varint l with
  | Some (_, n) => Ok tt (advance n s)
  | None => Err (with_error "end-of-stream" (advance (length l) s))
  end.
Proof.
  intros Hs. unfold pb_skip_varint. rewrite bind_gets, (buf_input_left _ _ Hs), Nat2Z.id.
  assert (forall fuel, (length l < fuel)%nat ->
    loop fuel (fun _ : unit =>
      let! l := pb_read RLocal 1 in
      let! byte := or_ub (head l) in
      if Z.land byte 0x80 =? 0 then ret (inr tt) else ret (inl tt)) tt s =
    match parse_varint l with
    | Some (_, n) => Ok tt (advance n s)
    | None => Err (with_error "end-of-stream" (advance (length l) s))
    end) as H; [|apply H; lia].
  revert s Hs. induction l as [|b l IH]; intros s Hs fuel Hf;
    (destruct fuel as [|fuel]; [lia|]); rewrite loop_S, bind_assoc.
  - cbn [parse_varint length]. rewrite advance_0. apply bind_err.
    by apply (pb_read_short _ _ []).
  - pose proof (buf_input_byte _ _ _ Hs) as Hb. unfold is_byte in Hb.
    change 1 with (Z.of_nat (length [b])) at 1.
    rewrite (bind_ok _ _ _ _ _ (pb_read_local _ [b] l Hs)). cbn [head or_ub].
    rewrite bind_assoc, bind_ret. rewrite land_80 by lia.
    apply (buf_input_advance _ [b] l) in Hs as Hs'. cbn [length] in *.
    cbn [parse_varint]. destruct (Z.ltb_spec b 128); [done|]. cbn [Z.eqb].
    rewrite bind_ret, (IH _ Hs') by lia.
    destruct (parse_varint l) as [[v n]|]; by rewrite advance_advance.
Qed.

(** The number of bytes the payload of a field of a given wire type takes. *)
Definition payload_length (wire_type : Z) (l : list Z) : option nat :=
  if wire_type =? PB_WT_VARINT then snd <$> parse_varint l
  else if wire_type =? PB_WT_64BIT then Some 8%nat
  else if wire_type =? PB_WT_STRING then
    match scan_varint 5 l with
    | VOk v n => Some (n + Z.to_nat (u32 v))%nat
    | _ => None
    end
  else if wire_type =? PB_WT_32BIT then Some 4%nat
  else None.

Lemma pb_read_null_n s l n :
  buf_input s l -> (n <= length l)%nat ->
  pb_read RNull (Z.of_nat n) s = Ok [] (advance n s).
Proof.
  intros Hs Hn. rewrite <- (take_drop n l) in Hs.
  pose proof (pb_read_null _ _ _ Hs) as H. by rewrite length_take_le in H by done.
Qed.

Lemma buf_input_advance_n s l n :
  buf_input s l -> (n <= length l)%nat -> buf_input (advance n s) (drop n l).
Proof.
  intros Hs Hn. rewrite <- (take_drop n l) in Hs.
  apply buf_input_advance in Hs. by rewrite length_take_le in Hs.
Qed.

Lemma scan_varint_ok k l v n :
  Forall is_byte l -> scan_varint k l = VOk v n -> 0 <= v /\ (1 <= n <= length l)%nat.
Proof.
  intros Hl. unfold scan_varint. destruct (parse_varint l) as [[v' n']|] eqn:E.
  - destruct (n' <=? k)%nat; [|done]. intros [= <- <-]. by apply parse_varint_pos.
  - by destruct (_ <? _)%nat.
Qed.

(** The state after a failure that consumed at most [bound] bytes. *)
Definition failed_within (bound : nat) (s s' : dstate) : Prop :=
  exists k e, (k <= bound)%nat /\ s' = mk_dstate (set_errmsg e (ds_in (advance k s))) (ds_mem s).

Lemma with_error_advance_failed msg k bound s :
  (k <= bound)%nat -> failed_within bound s (with_error msg (advance k s)).
Proof. intros Hk. eexists k, _. by split. Qed.

Lemma with_error_failed msg bound s : failed_within bound s (with_error msg s).
Proof.
  rewrite <- (advance_0 s) at 2. apply with_error_advance_failed. lia.
Qed.

Lemma failed_within_advance n k s s' :
  failed_within n (advance k s) s' -> failed_within (k + n) s s'.
Proof.
  intros (j & e & Hj & ->). exists (k + j)%nat, e. split; [lia|].
  by rewrite advance_advance.
Qed.

Lemma scan_varint_consumed k l :
  Forall is_byte l ->
  match scan_varint k l with
  | VOk _ n | VOverflow n | VTruncated n => (n <= length l)%nat
  end.
Proof.
  intros Hl. unfold scan_varint. destruct (parse_varint l) as [[v n]|] eqn:E.
  - apply parse_varint_pos in E as [_ ?]; [|done]. destruct (Nat.leb_spec n k); lia.
  - destruct (Nat.ltb_spec (length l) k); lia.
Qed.

(** Skipping a field consumes exactly its payload, and fails when the payload is
    not there. *)
Lemma pb_skip_field_refines wire_type s l :
  buf_input s l ->
  match payload_length wire_type l with
  | Some n => if (n <=? length l)%nat then pb_skip_field wire_type s = Ok tt (advance n s)
              else exists s', pb_skip_field wire_type s = Err s' /\ failed_within (length l) s s'
  | None => exists s', pb_skip_field wire_type s = Err s' /\ failed_within (length l) s s'
  end.
Proof.
  intros Hs. unfold payload_length, pb_skip_field.
  assert (forall k : nat, if (k <=? length l)%nat
     then (pb_read RNull (Z.of_nat k) ;;; ret tt) s = Ok tt (advance k s)
     else exists s', (pb_read RNull (Z.of_nat k) ;;; ret tt) s = Err s' /\
                     failed_within (length l) s s') as Hfix.
  { intros k. destruct (Nat.leb_spec k (length l)).
    - by rewrite (bind_ok _ _ _ _ _ (pb_read_null_n _ _ _ Hs ltac:(done))).
    - eexists. split; [|apply with_error_failed].
      apply bind_err. eapply pb_read_short; [done|lia]. }
  pose proof Hs as (_ & _ & _ & _ & Hl).
  destruct (wire_type =? PB_WT_VARINT).
  { rewrite (pb_skip_varint_refines _ _ Hs).
    destruct (parse_varint l) as [[v n]|] eqn:E; cbn.
    - apply parse_varint_pos in E as [_ ?]; [|done].
      destruct (Nat.leb_spec n (length l)); [done|lia].
    - eexists. split; [done|]. by apply with_error_advance_failed. }
  destruct (wire_type =? PB_WT_64BIT); [apply (Hfix 8%nat)|].
  destruct (wire_type =? PB_WT_STRING).
  { unfold pb_skip_string. pose proof (pb_decode_varint32_refines _ _ Hs) as Hv.
    pose proof (scan_varint_consumed 5 l Hl) as Hc.
    destruct (scan_varint 5 l) as [v n|n|n] eqn:E; cbn [varint_outcome] in Hv.
    2,3: eexists; split; [by apply bind_err|by apply with_error_advance_failed].
    rewrite (bind_ok _ _ _ _ _ Hv).
    pose proof (uwrap_range 32 v ltac:(lia)).
    apply (buf_input_advance_n _ _ n) in Hs as Hs'; [|lia].
    destruct (Z_of_nat_complete (u32 v)) as [k ->]; [lia|]. rewrite Nat2Z.id.
    destruct (Nat.leb_spec (n + k) (length l)).
    - rewrite (bind_ok _ _ _ _ _
        (pb_read_null_n _ (drop n l) k Hs' ltac:(rewrite length_drop; lia))).
      by rewrite advance_advance.
    - eexists. split.
      + apply bind_err. eapply pb_read_short; [done|]. rewrite length_drop. lia.
      + by apply with_error_advance_failed. }
  destruct (wire_type =? PB_WT_32BIT); [apply (Hfix 4%nat)|].
  eexists. split; [done|]. apply with_error_failed.
Qed.

(** ** Tags *)

(** The header at the head of the input: what is returned and how many bytes are
    consumed.  A truncated or overlong header is an error, unless it ends the
    input: then it counts as the end of the message. *)
Definition scan_tag (l : list Z) : tag_result * nat :=
  match scan_varint 5 l with
  | VOk v n =>
      if u32 v =? 0 then (mk_tag false 0 0 true, n)
      else (mk_tag true (u32 v mod 8) (u32 v / 8) false, n)
  | VOverflow n => (mk_tag false 0 0 (length l =? n)%nat, n)
  | VTruncated n => (mk_tag false 0 0 true, n)
  end.

Lemma pb_decode_tag_refines s l :
  buf_input s l ->
  exists e, pb_decode_tag s =
    Ok (fst (scan_tag l))
       (mk_dstate (set_errmsg e (ds_in (advance (snd (scan_tag l)) s))) (ds_mem s)) /\
    (dt_ok (fst (scan_tag l)) = true -> e = is_errmsg (ds_in s)).
Proof.
  intros Hs. unfold pb_decode_tag, scan_tag.
  pose proof (pb_decode_varint32_refines _ _ Hs) as Hv.
  pose proof (buf_input_left _ _ Hs) as Hleft.
  destruct (scan_varint 5 l) as [v n|n|n] eqn:E; cbn [varint_outcome] in Hv.
  - rewrite (bind_ok _ _ _ _ _ (attempt_ok _ _ _ _ Hv)). exists (is_errmsg (ds_in s)).
    pose proof (uwrap_range 32 v ltac:(lia)).
    change 7 with (Z.ones 3). rewrite Z.land_ones, Z.shiftr_div_pow2 by lia.
    destruct (u32 v =? 0); cbn [fst snd]; (split; [|done]); by destruct s as [[]].
  - rewrite (bind_ok _ _ _ _ _ (attempt_err _ _ _ Hv)), bind_gets.
    cbn [fst snd]. exists (Some (default "varint overflow" (is_errmsg (ds_in s)))).
    split; [|done]. unfold ret. f_equal. f_equal. cbn. rewrite Hleft.
    destruct (Nat.eqb_spec (length l) n), (Z.eqb_spec (Z.of_nat (length l) - Z.of_nat n) 0);
      try done; lia.
  - rewrite (bind_ok _ _ _ _ _ (attempt_err _ _ _ Hv)), bind_gets.
    cbn [fst snd]. exists (Some (default "end-of-stream" (is_errmsg (ds_in s)))).
    split; [|done]. unfold ret. f_equal. f_equal. cbn. rewrite Hleft.
    unfold scan_varint in E. destruct (parse_varint l) as [[v' n']|].
    + by destruct (n' <=? 5)%nat.
    + destruct (length l <? 5)%nat; [|done]. injection E as <-. rewrite Z.sub_diag. done.
Qed.

(** ** Substreams *)

(** The parent stream while a substream of [size] bytes is open. *)
Definition reserve (size : Z) (s : dstate) : dstate :=
  mk_dstate (set_bytes_left (is_bytes_left (ds_in s) - size) (ds_in s)) (ds_mem s).

(** The substream opened at [s]. *)
Definition substream_at (size : Z) (s : dstate) : pb_istream_t :=
  set_bytes_left size (ds_in s).

Lemma pb_make_string_substream_refines s l :
  buf_input s l ->
  pb_make_string_substream s =
  match scan_varint 5 l with
  | VOk v n =>
      if (n + Z.to_nat (u32 v) <=? length l)%nat
      then Ok (substream_at (u32 v) (advance n s)) (reserve (u32 v) (advance n s))
      else Err (with_error "parent stream too short" (advance n s))
  | VOverflow n => Err (with_error "varint overflow" (advance n s))
  | VTruncated n => Err (with_error "end-of-stream" (advance n s))
  end.
Proof.
  intros Hs. unfold pb_make_string_substream.
  pose proof (pb_decode_varint32_refines _ _ Hs) as Hv.
  destruct (scan_varint 5 l) as [v n|n|n] eqn:E; cbn [varint_outcome] in Hv;
    [|by apply bind_err..].
  rewrite (bind_ok _ _ _ _ _ Hv), bind_gets.
  apply scan_varint_ok in E as [Hv0 Hn]; [|apply Hs].
  pose proof (uwrap_range 32 v ltac:(lia)).
  destruct Hs as (_ & Hbl & Hsz & _).
  cbn [advance ds_in is_bytes_left set_bytes_left]. rewrite Hbl.
  destruct (Z.ltb_spec (Z.of_nat (length l) - Z.of_nat n) (u32 v)),
    (Nat.leb_spec (n + Z.to_nat (u32 v)) (length l)); try lia; [done|].
  rewrite (bind_ok _ _ _ _ _ (on_in_ok _ _)). unfold ret, reserve, substream_at.
  cbn. rewrite Hbl, usize_small by lia. done.
Qed.

(** The substream sees exactly the announced bytes. *)
Lemma substream_at_input s l size :
  buf_input s l -> (size <= length l)%nat ->
  buf_input (mk_dstate (substream_at (Z.of_nat size) s) (ds_mem s)) (take size l).
Proof.
  intros (Hcb & Hbl & Hsz & Hm & Hb) Hn.
  unfold buf_input. rewrite length_take_le by done. repeat split; cbn; try done; try lia.
  - rewrite <- (take_drop size l) in Hm. apply mem_load_take in Hm.
    by rewrite length_take_le in Hm.
  - by apply Forall_take.
Qed.

(** Closing: whatever the substream consumed, the parent continues after the
    announced bytes, with the error message of the substream. *)
Lemma pb_close_string_substream_refines s n size sub k m :
  is_callback (ds_in s) = cb_buf_read ->
  0 <= size < 2 ^ size_bits -> Z.of_nat k <= size ->
  is_callback sub = cb_buf_read ->
  is_state sub = is_state (ds_in s) + Z.of_nat n + Z.of_nat k ->
  is_bytes_left sub = size - Z.of_nat k ->
  pb_close_string_substream sub (mk_dstate (ds_in (reserve size (advance n s))) m)
  = Ok tt (mk_dstate (set_errmsg (is_errmsg sub)
                        (ds_in (advance (n + Z.to_nat size) s))) m).
Proof.
  intros Hcb Hsz Hk Hscb Hst Hbl. unfold pb_close_string_substream.
  destruct (Z.eqb_spec (is_bytes_left sub) 0) as [Hz|Hz].
  - rewrite bind_ret, on_in_ok. do 2 f_equal.
    unfold set_errmsg, advance, reserve, set_bytes_left, set_state. cbn. f_equal; lia.
  - rewrite bind_assoc.
    pose proof (pb_read_null_raw (mk_dstate sub m) (Z.to_nat (is_bytes_left sub))
                  Hscb ltac:(cbn; lia)) as Hr.
    rewrite Z2Nat.id in Hr by lia.
    rewrite (bind_ok _ _ _ (Some [], ds_in (advance (Z.to_nat (is_bytes_left sub))
                                       (mk_dstate sub m)))
               (mk_dstate (ds_in (reserve size (advance n s))) m)).
    + cbn [fst snd]. rewrite bind_ret, on_in_ok. do 2 f_equal.
      unfold set_errmsg, advance, reserve, set_bytes_left, set_state. cbn. f_equal; lia.
    + unfold on_substream. cbn [ds_mem]. by rewrite Hr.
Qed.

(** ** Signed and fixed-width values *)

Lemma land_1 x : Z.land x 1 = x mod 2.
Proof. change 1 with (Z.ones 1). by rewrite Z.land_ones by lia. Qed.

Lemma pb_decode_svarint_refines s l :
  buf_input s l ->
  pb_decode_svarint s =
  match scan_varint 10 l with
  | VOk v n => Ok (unzigzag (u64 v)) (advance n s)
  | VOverflow n => Err (with_error "varint overflow" (advance n s))
  | VTruncated n => Err (with_error "end-of-stream" (advance n s))
  end.
Proof.
  intros Hs. unfold pb_decode_svarint. pose proof (pb_decode_varint_refines _ _ Hs) as Hv.
  destruct (scan_varint 10 l) as [v n|n|n]; cbn [varint_outcome] in Hv;
    [|by apply bind_err..].
  rewrite (bind_ok _ _ _ _ _ Hv). pose proof (uwrap_range 64 v ltac:(lia)) as Hr.
  set (x := u64 v) in *. rewrite land_1, Z.shiftr_div_pow2 by lia. change (2 ^ 1) with 2.
  assert (0 <= x / 2 < 2 ^ 63) as Hd.
  { split; [apply Z.div_pos; lia|apply Z.div_lt_upper_bound; lia]. }
  unfold unzigzag. rewrite Zeven_mod. unfold ret.
  destruct (Z.eqb_spec (x mod 2) 0) as [E|E].
  - by rewrite swrap_small by lia.
  - pose proof (Z.mod_pos_bound x 2 ltac:(lia)).
    unfold Z.lnot. by rewrite swrap_uwrap, swrap_small by lia.
Qed.

Lemma combine_4 b0 b1 b2 b3 :
  is_byte b0 -> is_byte b1 -> is_byte b2 -> is_byte b3 ->
  Z.lor (Z.lor (Z.lor (Z.shiftl b0 0) (Z.shiftl b1 8)) (Z.shiftl b2 16)) (Z.shiftl b3 24)
  = le_combine [b0; b1; b2; b3].
Proof.
  unfold is_byte. intros. cbn [le_combine]. rewrite Z.shiftl_0_r.
  rewrite (lor_shiftl_add b0), (lor_shiftl_add (b0 + _)), lor_shiftl_add by lia. lia.
Qed.

Lemma combine_8 b0 b1 b2 b3 b4 b5 b6 b7 :
  is_byte b0 -> is_byte b1 -> is_byte b2 -> is_byte b3 ->
  is_byte b4 -> is_byte b5 -> is_byte b6 -> is_byte b7 ->
  Z.lor (Z.lor (Z.lor (Z.lor (Z.lor (Z.lor (Z.lor (Z.shiftl b0 0) (Z.shiftl b1 8))
    (Z.shiftl b2 16)) (Z.shiftl b3 24)) (Z.shiftl b4 32)) (Z.shiftl b5 40))
    (Z.shiftl b6 48)) (Z.shiftl b7 56)
  = le_combine [b0; b1; b2; b3; b4; b5; b6; b7].
Proof.
  intros H0 H1 H2 H3 ????. rewrite (combine_4 b0 b1 b2 b3) by done.
  unfold is_byte in *. cbn [le_combine].
  rewrite (lor_shiftl_add (b0 + _) b4), (lor_shiftl_add (_ + b4 * _) b5),
    (lor_shiftl_add (_ + b5 * _) b6), (lor_shiftl_add (_ + b6 * _) b7) by lia. lia.
Qed.

(** A fixed-width value is stored byte for byte. *)
Lemma pb_decode_fixed32_refines s bs l dest :
  buf_input s (bs ++ l) -> length bs = 4%nat ->
  pb_decode_fixed32 dest s =
  match mem_store (ds_mem s) dest bs with
  | Some m => Ok tt (mk_dstate (ds_in (advance 4 s)) m)
  | None => Ub
  end.
Proof.
  intros Hs Hlen. unfold pb_decode_fixed32.
  pose proof (pb_read_local _ _ _ Hs) as Hr. rewrite Hlen in Hr.
  rewrite (bind_ok _ _ _ _ _ Hr).
  destruct Hs as (_ & _ & _ & _ & Hb). apply Forall_app in Hb as [Hb _].
  destruct bs as [|b0 [|b1 [|b2 [|b3 [|]]]]]; try done.
  rewrite !Forall_cons in Hb. destruct Hb as (?&?&?&?&_).
  unfold byte_at. cbn [lookup list_lookup from_option id].
  unfold store_le, store_bytes.
  pose proof (combine_4 b0 b1 b2 b3) as ->; [|done..].
  change 4%nat with (length [b0; b1; b2; b3]).
  rewrite le_split_combine by (rewrite !Forall_cons; naive_solver). done.
Qed.

Lemma pb_decode_fixed64_refines s bs l dest :
  buf_input s (bs ++ l) -> length bs = 8%nat ->
  pb_decode_fixed64 dest s =
  match mem_store (ds_mem s) dest bs with
  | Some m => Ok tt (mk_dstate (ds_in (advance 8 s)) m)
  | None => Ub
  end.
Proof.
  intros Hs Hlen. unfold pb_decode_fixed64.
  pose proof (pb_read_local _ _ _ Hs) as Hr. rewrite Hlen in Hr.
  rewrite (bind_ok _ _ _ _ _ Hr).
  destruct Hs as (_ & _ & _ & _ & Hb). apply Forall_app in Hb as [Hb _].
  destruct bs as [|b0 [|b1 [|b2 [|b3 [|b4 [|b5 [|b6 [|b7 [|]]]]]]]]]; try done.
  rewrite !Forall_cons in Hb. destruct Hb as (?&?&?&?&?&?&?&?&_).
  unfold byte_at. cbn [lookup list_lookup from_option id].
  unfold store_le, store_bytes.
  pose proof (combine_8 b0 b1 b2 b3 b4 b5 b6 b7) as ->; [|done..].
  change 8%nat with (length [b0; b1; b2; b3; b4; b5; b6; b7]).
  rewrite le_split_combine by (rewrite !Forall_cons; naive_solver). done.
Qed.

End input.
