(* ===== verification/Layout.v ===== *)
(** * The layout a descriptor array denotes

    The list of positions the iterator of pb_common.c goes through, and the
    theorems that say so: advancing visits the fields in order and wraps, a
    search returns the first match in cyclic order, and a walk over the array is
    one pass over the list of positions. *)

From Stdlib Require Import ZArith Lia.
From stdpp Require Import base option list strings gmap.
From S2P Require Import Prelude Memory Descr.

Section layout.
Context {PL : Platform}.

(** The space a field takes in the message structure. *)
Definition field_extent (f : pb_field_t) : Z :=
  if (PB_ATYPE (pf_type f) =? PB_ATYPE_STATIC) && (PB_HTYPE (pf_type f) =? PB_HTYPE_REPEATED)
  then usize (usize (pf_data_size f) * pf_array_size f)
  else if PB_ATYPE (pf_type f) =? PB_ATYPE_POINTER then ptr_size
  else usize (pf_data_size f).

(** [cur] shares the union of the oneof field [prev]. *)
Definition same_union (prev cur : pb_field_t) : bool :=
  (PB_HTYPE (pf_type prev) =? PB_HTYPE_ONEOF) && (PB_HTYPE (pf_type cur) =? PB_HTYPE_ONEOF) &&
  (pf_data_offset cur =? PB_SIZE_MAX).

Definition is_required (f : pb_field_t) : bool :=
  PB_HTYPE (pf_type f) =? PB_HTYPE_REQUIRED.

(** The position of [cur], after [prev] at [it]. *)
Definition next_position (prev cur : pb_field_t) (it : pb_field_iter_t) : pb_field_iter_t :=
  if same_union prev cur then
    {| it_start := it_start it; it_pos := S (it_pos it);
       it_required_field_index := it_required_field_index it;
       it_dest_struct := it_dest_struct it;
       it_pData := it_pData it; it_pSize := it_pSize it |}
  else
    let pData := it_pData it + field_extent prev + pf_data_offset cur in
    {| it_start := it_start it; it_pos := S (it_pos it);
       it_required_field_index :=
         if is_required prev then u32 (it_required_field_index it + 1)
         else it_required_field_index it;
       it_dest_struct := it_dest_struct it;
       it_pData := pData; it_pSize := pData + pf_size_offset cur |}.

Definition first_position (fields : list pb_field_t) (f : pb_field_t) (base : Z)
    : pb_field_iter_t :=
  {| it_start := fields; it_pos := 0; it_required_field_index := 0;
     it_dest_struct := base; it_pData := base + pf_data_offset f;
     it_pSize := base + pf_data_offset f + pf_size_offset f |}.

(** The positions from [it] at [f] on, up to the terminator. *)
Fixpoint positions_from (it : pb_field_iter_t) (f : pb_field_t) (rest : list pb_field_t)
    : list (pb_field_iter_t * pb_field_t) :=
  (it, f) ::
  match rest with
  | [] => []
  | g :: rest =>
      if pf_tag g =? 0 then [] else positions_from (next_position f g it) g rest
  end.

Definition positions (fields : list pb_field_t) (base : Z)
    : list (pb_field_iter_t * pb_field_t) :=
  match fields with
  | [] => []
  | f :: rest =>
      if pf_tag f =? 0 then [] else positions_from (first_position fields f base) f rest
  end.

(** Move a position to another base address. *)
Definition shift_iter (d : Z) (it : pb_field_iter_t) : pb_field_iter_t :=
  {| it_start := it_start it; it_pos := it_pos it;
     it_required_field_index := it_required_field_index it;
     it_dest_struct := it_dest_struct it + d;
     it_pData := it_pData it + d; it_pSize := it_pSize it + d |}.

(** The array ends with its terminator and only there. *)
Definition terminated (fields : list pb_field_t) : bool :=
  match last fields with
  | Some t => (pf_tag t =? 0) && forallb (fun f => negb (pf_tag f =? 0)) (removelast fields)
  | None => false
  end.

(** One pass over the positions. *)
Fixpoint run_all {St} (body : pb_field_iter_t -> pb_field_t -> M St unit)
    (ps : list (pb_field_iter_t * pb_field_t)) : M St unit :=
  match ps with
  | [] => ret tt
  | p :: ps => body (fst p) (snd p) ;;; run_all body ps
  end.

(** How many of the positions are of required fields. *)
Definition required_count (ps : list (pb_field_iter_t * pb_field_t)) : Z :=
  Z.of_nat (length (List.filter (fun p => is_required (snd p)) ps)).

(** The order in which a search that starts at index [i] looks at the fields. *)
Definition search_order (i : nat) (ps : list (pb_field_iter_t * pb_field_t))
    : list (pb_field_iter_t * pb_field_t) :=
  drop i ps ++ take i ps.

(** ** Advancing *)

Lemma positions_from_lookup it f rest i p :
  positions_from it f rest !! i = Some p ->
  (f :: rest) !! i = Some (snd p) /\
  it_pos (fst p) = (it_pos it + i)%nat /\
  it_start (fst p) = it_start it /\
  it_dest_struct (fst p) = it_dest_struct it /\
  ((0 < i)%nat -> pf_tag (snd p) <> 0) /\
  match positions_from it f rest !! S i with
  | Some q => fst q = next_position (snd p) (snd q) (fst p) /\ (f :: rest) !! S i = Some (snd q) /\
              pf_tag (snd q) <> 0
  | None => match (f :: rest) !! S i with Some t => pf_tag t = 0 | None => True end
  end.
Proof.
  revert it f i. induction rest as [|g rest IH]; intros it f i; cbn [positions_from].
  - destruct i as [|i]; [|done]. intros [= <-]. cbn. rewrite Nat.add_0_r. repeat split. lia.
  - destruct i as [|i].
    + intros [= <-]. cbn [fst snd]. rewrite Nat.add_0_r. do 4 (split; [done|]).
      split; [lia|]. cbn. destruct (Z.eqb_spec (pf_tag g) 0); [done|].
      destruct rest as [|h rest]; cbn; done.
    + cbn. destruct (Z.eqb_spec (pf_tag g) 0) as [|Hg]; [done|]. intros H.
      destruct (IH _ _ _ H) as (H1 & H2 & H3 & H4 & H5 & H6).
      assert (it_pos (next_position f g it) = S (it_pos it) /\
              it_start (next_position f g it) = it_start it /\
              it_dest_struct (next_position f g it) = it_dest_struct it) as (E1 & E2 & E3)
        by (unfold next_position; by destruct (same_union f g)).
      split; [done|]. rewrite H2, H3, H4, E1, E2, E3.
      split; [lia|]. do 2 (split; [done|]). split; [|exact H6].
      intros _. destruct i as [|i]; [|apply H5; lia]. cbn in H1. by injection H1 as <-.
Qed.

Lemma positions_lookup fields base i p :
  positions fields base !! i = Some p ->
  fields !! i = Some (snd p) /\ it_pos (fst p) = i /\ it_start (fst p) = fields /\
  it_dest_struct (fst p) = base /\ pf_tag (snd p) <> 0 /\
  match positions fields base !! S i with
  | Some q => fst q = next_position (snd p) (snd q) (fst p) /\ fields !! S i = Some (snd q) /\
              pf_tag (snd q) <> 0
  | None => match fields !! S i with Some t => pf_tag t = 0 | None => True end
  end.
Proof.
  unfold positions. destruct fields as [|f rest]; [done|].
  destruct (Z.eqb_spec (pf_tag f) 0) as [|Hf]; [done|]. intros H.
  destruct (positions_from_lookup _ _ _ _ _ H) as (H1 & H2 & H3 & H4 & H5 & H6).
  do 4 (split; [done|]). split; [|exact H6].
  destruct i as [|i]; [|apply H5; lia]. cbn in H1. by injection H1 as <-.
Qed.

(** A terminated array has an entry after every field. *)
Lemma terminated_next fields i f :
  terminated fields = true -> fields !! i = Some f -> pf_tag f <> 0 ->
  is_Some (fields !! S i).
Proof.
  unfold terminated. intros Ht Hi Hf. destruct (last fields) as [t|] eqn:E; [|done].
  apply lookup_lt_is_Some. apply lookup_lt_Some in Hi as Hlt.
  destruct (decide (S i = length fields)) as [Hl|]; [|lia]. exfalso.
  apply andb_prop in Ht as [Ht _]. apply Z.eqb_eq in Ht.
  rewrite last_lookup, <- Hl in E. cbn in E. congruence.
Qed.

Lemma positions_nonempty fields base f :
  fields !! 0%nat = Some f -> pf_tag f <> 0 ->
  positions fields base !! 0%nat = Some (first_position fields f base, f).
Proof.
  destruct fields as [|g rest]; [done|]. intros [= ->] Hf. unfold positions.
  destruct (Z.eqb_spec (pf_tag f) 0); [done|]. by destruct rest.
Qed.

Lemma pb_field_iter_begin_eq {St} fields base f (s : St) :
  fields !! 0%nat = Some f ->
  pb_field_iter_begin fields base s = Ok (first_position fields f base, negb (pf_tag f =? 0)) s.
Proof. intros H. unfold pb_field_iter_begin. by rewrite H. Qed.

Lemma iter_field_eq {St} fields base i p (s : St) :
  positions fields base !! i = Some p -> iter_field (fst p) s = Ok (snd p) s.
Proof.
  intros H. destruct (positions_lookup _ _ _ _ H) as (H1 & H2 & H3 & _).
  unfold iter_field. by rewrite H3, H2, H1.
Qed.

(** [pb_field_iter_next] moves to the next position, or wraps to the first. *)
Lemma pb_field_iter_next_eq {St} fields base i p (s : St) :
  terminated fields = true ->
  positions fields base !! i = Some p ->
  pb_field_iter_next (fst p) s =
  match positions fields base !! S i with
  | Some q => Ok (fst q, true) s
  | None =>
      match positions fields base !! 0%nat with
      | Some q => Ok (fst q, false) s
      | None => Ub
      end
  end.
Proof.
  intros Ht H.
  destruct (positions_lookup _ _ _ _ H) as (H1 & H2 & H3 & H4 & H5 & H6).
  destruct (terminated_next _ _ _ Ht H1 H5) as [g Hg].
  unfold pb_field_iter_next. rewrite (bind_ok _ _ _ _ _ (iter_field_eq _ _ _ _ s H)).
  destruct (Z.eqb_spec (pf_tag (snd p)) 0); [done|].
  rewrite H3, H2, Hg. cbn [or_ub]. rewrite bind_ret. rewrite Hg in H6.
  destruct (positions fields base !! S i) as [q|] eqn:Eq.
  - destruct H6 as (-> & [= ->] & Hq).
    destruct (Z.eqb_spec (pf_tag (snd q)) 0); [done|].
    unfold next_position, same_union, field_extent, is_required. rewrite H2, H3.
    destruct ((PB_HTYPE (pf_type (snd p)) =? PB_HTYPE_ONEOF) && _ && _); done.
  - rewrite H6. cbn [Z.eqb].
    destruct (fields !! 0%nat) as [f0|] eqn:Ef0.
    2:{ destruct fields; [by rewrite lookup_nil in H1|done]. }
    assert (pf_tag f0 <> 0) as Hf0.
    { destruct fields as [|f rest]; [done|]. cbn in Ef0. injection Ef0 as ->.
      unfold positions in H. by destruct (Z.eqb_spec (pf_tag f0) 0). }
    rewrite (positions_nonempty _ _ _ Ef0 Hf0).
    rewrite H4, (bind_ok _ _ _ _ _ (pb_field_iter_begin_eq _ _ _ s Ef0)). done.
Qed.
Lemma positions_from_length it f rest : (length (positions_from it f rest) <= S (length rest))%nat.
Proof.
  revert it f. induction rest as [|g rest IH]; intros it f; cbn; [done|].
  destruct (pf_tag g =? 0); cbn; [lia|]. specialize (IH (next_position f g it) g). lia.
Qed.

Lemma positions_length fields base : (length (positions fields base) <= length fields)%nat.
Proof.
  destruct fields as [|f rest]; cbn; [done|]. destruct (pf_tag f =? 0); cbn; [lia|].
  pose proof (positions_from_length (first_position (f :: rest) f base) f rest). lia.
Qed.

(** ** Walks *)

(** A loop that treats one field and advances is one pass over the positions. *)
Lemma walk_from {St} fields base (step : pb_field_iter_t -> M St (pb_field_iter_t + unit))
    (body : pb_field_iter_t -> pb_field_t -> M St unit) :
  terminated fields = true ->
  (forall i p s, positions fields base !! i = Some p ->
     step (fst p) s =
     bind (body (fst p) (snd p)) (fun _ =>
       let! r := pb_field_iter_next (fst p) in
       if snd r then ret (inl (fst r)) else ret (inr tt)) s) ->
  forall fuel i p s,
    positions fields base !! i = Some p ->
    (length (positions fields base) - i < fuel)%nat ->
    loop fuel step (fst p) s = run_all body (drop i (positions fields base)) s.
Proof.
  intros Ht Hstep. induction fuel as [|fuel IH]; intros i p s Hp Hf; [lia|].
  rewrite loop_S, (drop_S _ _ _ Hp). cbn [run_all].
  unfold bind at 1. rewrite (Hstep _ _ _ Hp). unfold bind at 1 3.
  destruct (body (fst p) (snd p) s) as [[] s'|s'| |]; try done.
  unfold bind. rewrite (pb_field_iter_next_eq _ _ _ _ s' Ht Hp).
  apply lookup_lt_Some in Hp as Hlt.
  destruct (positions fields base !! S i) as [q|] eqn:Eq.
  - cbn. apply IH; [done|lia].
  - apply lookup_ge_None in Eq. rewrite drop_ge by lia.
    destruct (positions fields base !! 0%nat) as [q|] eqn:E0; [done|].
    apply lookup_ge_None in E0. lia.
Qed.

Lemma walk_run_all {St} fields base f0 step (body : pb_field_iter_t -> pb_field_t -> M St unit)
    fuel s :
  terminated fields = true ->
  fields !! 0%nat = Some f0 -> pf_tag f0 <> 0 ->
  (forall i p s, positions fields base !! i = Some p ->
     step (fst p) s =
     bind (body (fst p) (snd p)) (fun _ =>
       let! r := pb_field_iter_next (fst p) in
       if snd r then ret (inl (fst r)) else ret (inr tt)) s) ->
  (length fields < fuel)%nat ->
  loop fuel step (first_position fields f0 base) s = run_all body (positions fields base) s.
Proof.
  intros Ht H0 Hf Hstep Hfuel. pose proof (positions_length fields base).
  rewrite (walk_from fields base step body Ht Hstep fuel 0
             (first_position fields f0 base, f0)); [done| |lia].
  by apply positions_nonempty.
Qed.

(** ** Searches *)

Section search.
Context {St : Type} (found : pb_field_t -> bool) (fields : list pb_field_t) (base : Z).
Context (Hterm : terminated fields = true).

Abbreviation ps := (positions fields base).
Abbreviation hit := (fun p : pb_field_iter_t * pb_field_t => found (snd p)).

Definition search_result (i : nat) (rest : list (pb_field_iter_t * pb_field_t)) (s : St)
    : res St (pb_field_iter_t * bool) :=
  match List.find hit rest, ps !! i with
  | Some q, _ => Ok (fst q, true) s
  | None, Some p => Ok (fst p, false) s
  | None, None => Ub
  end.

Definition search_round (start : nat) (it : pb_field_iter_t)
    : M St (pb_field_iter_t + pb_field_iter_t * bool) :=
  let! f := iter_field it in
  if found f then ret (inr (it, true))
  else
    let! r := pb_field_iter_next it in
    if Nat.eqb (it_pos (fst r)) start then ret (inr (fst r, false))
    else ret (inl (fst r)).

Lemma search_round_eq start j p s :
  ps !! j = Some p ->
  search_round start (fst p) s =
  if found (snd p) then Ok (inr (fst p, true)) s
  else match ps !! S j with
       | Some q => Ok (if Nat.eqb (S j) start then inr (fst q, false) else inl (fst q)) s
       | None => match ps !! 0%nat with
                 | Some q => Ok (if Nat.eqb 0 start then inr (fst q, false) else inl (fst q)) s
                 | None => Ub
                 end
       end.
Proof.
  intros Hp. unfold search_round. rewrite (bind_ok _ _ _ _ _ (iter_field_eq _ _ _ _ s Hp)).
  destruct (found (snd p)); [done|]. unfold bind.
  rewrite (pb_field_iter_next_eq _ _ _ _ s Hterm Hp).
  destruct (ps !! S j) as [q|] eqn:Eq; [|destruct (ps !! 0%nat) as [q|] eqn:Eq'; [|done]].
  - apply positions_lookup in Eq as (_ & E & _). cbn [fst]. rewrite E. by destruct (S j =? start)%nat.
  - apply positions_lookup in Eq' as (_ & E & _). cbn [fst]. rewrite E. by destruct (0 =? start)%nat.
Qed.

(** After the search has wrapped: from [j] up to the start. *)
Lemma search_wrapped fuel i j p s :
  (j < i)%nat -> (i < length ps)%nat -> ps !! j = Some p -> (i - j < fuel)%nat ->
  loop fuel (search_round i) (fst p) s = search_result i (drop j (take i ps)) s.
Proof.
  revert j p. induction fuel as [|fuel IH]; intros j p Hji Hi Hp Hf; [lia|].
  rewrite loop_S. unfold bind. rewrite (search_round_eq _ _ _ _ Hp).
  unfold search_result. rewrite (drop_S (take i ps) p j) by (by rewrite lookup_take_lt).
  cbn [List.find]. destruct (found (snd p)); [done|].
  destruct (lookup_lt_is_Some_2 ps (S j)) as [q Hq]; [lia|]. rewrite Hq.
  destruct (Nat.eqb_spec (S j) i) as [Hij|Hij].
  - subst i. rewrite Hq, drop_ge; [done|]. rewrite length_take. lia.
  - apply IH; [lia|done|done|lia].
Qed.

Lemma search_forward fuel i j p s :
  (i <= j)%nat -> ps !! j = Some p -> (length ps - j + i < fuel)%nat ->
  loop fuel (search_round i) (fst p) s = search_result i (drop j ps ++ take i ps) s.
Proof.
  revert j p. induction fuel as [|fuel IH]; intros j p Hij Hp Hf; [lia|].
  apply lookup_lt_Some in Hp as Hlt.
  rewrite loop_S. unfold bind. rewrite (search_round_eq _ _ _ _ Hp).
  unfold search_result. rewrite (drop_S _ _ _ Hp). cbn [List.find app].
  destruct (found (snd p)); [done|].
  destruct (ps !! S j) as [q|] eqn:Eq.
  - destruct (Nat.eqb_spec (S j) i); [lia|]. apply lookup_lt_Some in Eq as ?.
    apply IH; [lia|done|lia].
  - apply lookup_ge_None in Eq. rewrite drop_ge by lia. cbn [app].
    destruct (lookup_lt_is_Some_2 ps 0) as [q Hq]; [lia|]. rewrite Hq.
    destruct (Nat.eqb_spec 0 i) as [<-|Hi].
    + rewrite Hq. done.
    + rewrite (search_wrapped fuel i 0) by (done || lia). done.
Qed.

(** A search returns the first hit in cyclic order, or its starting point. *)
Lemma iter_search_eq i p (s : St) :
  ps !! i = Some p ->
  iter_search found (fst p) s =
  Ok (match List.find hit (search_order i ps) with
      | Some q => (fst q, true)
      | None => (fst p, false)
      end) s.
Proof.
  intros Hp. unfold iter_search.
  destruct (positions_lookup _ _ _ _ Hp) as (_ & H2 & H3 & _). rewrite H2, H3.
  pose proof (positions_length fields base). apply lookup_lt_Some in Hp as Hlt.
  pose proof (search_forward (S (length fields)) i i p s ltac:(lia) Hp ltac:(lia)) as H'.
  unfold search_result in H'. rewrite Hp in H'. unfold search_order.
  etrans; [exact H'|]. by destruct (List.find _ _).
Qed.

End search.

(** ** Base addresses *)

Lemma shift_next_position d f g it :
  next_position f g (shift_iter d it) = shift_iter d (next_position f g it).
Proof.
  unfold next_position, shift_iter. destruct (same_union f g); cbn; [done|]. f_equal; lia.
Qed.

Lemma positions_shift fields base d :
  positions fields (base + d) = (fun p => (shift_iter d (fst p), snd p)) <$> positions fields base.
Proof.
  unfold positions. destruct fields as [|f rest]; [done|].
  destruct (pf_tag f =? 0); [done|].
  assert (first_position (f :: rest) f (base + d) =
          shift_iter d (first_position (f :: rest) f base)) as ->.
  { unfold first_position, shift_iter; cbn. f_equal; lia. }
  generalize (first_position (f :: rest) f base).
  revert f. induction rest as [|g rest IH]; intros f it; cbn; [done|].
  f_equal. destruct (pf_tag g =? 0); [done|].
  by rewrite shift_next_position, IH.
Qed.

Lemma required_count_base fields base :
  required_count (positions fields base) = required_count (positions fields 0).
Proof.
  rewrite <- (Z.add_0_l base), positions_shift. unfold required_count. f_equal.
  induction (positions fields 0) as [|p ps IH]; [done|].
  rewrite fmap_cons. cbn [List.filter snd]. destruct (is_required (snd p)); [|exact IH].
  cbn [length]. by rewrite IH.
Qed.

End layout.
