(* ===== verification/Safety.v ===== *)
(** * Memory safety and termination of the stream level

    [safe m s Q]: run from a good state, [m] stays within the mapped memory,
    finishes, changes only the writable addresses, and moves the input stream
    forward within its bounds; if it returns [a], [Q a] holds of the final
    state.  The rules for the stream-level functions are proved here, those for
    messages in [DecodeSafe]. *)

From Stdlib Require Import ZArith Lia.
From stdpp Require Import base option list strings gmap.
From S2P Require Import Prelude Memory Descr Decode Wire Input.

Section safety.
Context {PL : Platform} {UR : UserRead}.

(** [W]: the addresses the decoder may write; [clo, chi): the constants it may
    read besides the input. *)
Context (W : Z -> Prop) (clo chi : Z).

(** The program's memory after some steps: no byte of it is gone, and only
    writable bytes have changed. *)
Definition mem_step (m m' : mem) : Prop :=
  (forall x v, m !! x = Some v -> is_Some (m' !! x) /\ (~ W x -> m' !! x = Some v)) /\
  (mem_bytes m -> mem_bytes m').

Record state_le (s s' : dstate) : Prop := mk_state_le {
  sl_mem : mem_step (ds_mem s) (ds_mem s');
  sl_callback : is_callback (ds_in s') = is_callback (ds_in s);
  sl_state : is_state (ds_in s) <= is_state (ds_in s');
  sl_left : is_bytes_left (ds_in s') <= is_bytes_left (ds_in s) /\
            (0 <= is_bytes_left (ds_in s) -> 0 <= is_bytes_left (ds_in s'));
  sl_end : is_state (ds_in s') + is_bytes_left (ds_in s') <=
           is_state (ds_in s) + is_bytes_left (ds_in s)
}.

(** A stream over readable memory, with the writable addresses mapped. *)
Record good (s : dstate) : Prop := mk_good {
  g_callback : is_callback (ds_in s) = cb_buf_read;
  g_left : 0 <= is_bytes_left (ds_in s) < 2 ^ size_bits;
  g_input : mapped (ds_mem s) (is_state (ds_in s))
              (is_state (ds_in s) + is_bytes_left (ds_in s));
  g_bytes : mem_bytes (ds_mem s);
  g_writable : forall x, W x -> is_Some (ds_mem s !! x);
  g_const : mapped (ds_mem s) clo chi
}.

(** The region [a, a+n) may be written. *)
Definition owns (a n : Z) : Prop := forall x, a <= x < a + n -> W x.

Definition safe {A} (m : M dstate A) (s : dstate) (Q : A -> dstate -> Prop) : Prop :=
  good s -> wp m (fun a s' => state_le s s' /\ Q a s') (state_le s) s.

Abbreviation left s := (is_bytes_left (ds_in s)).

(** ** The order on states *)

#[export] Instance mem_step_preorder : PreOrder mem_step.
Proof.
  split.
  - intros m. split; [|done]. intros x v Hx. rewrite Hx. split; [by eexists|done].
  - intros m1 m2 m3 [H1 B1] [H2 B2]. split; [|auto]. intros x v Hx.
    destruct (H1 x v Hx) as [[v2 Hv2] Hn]. destruct (H2 x v2 Hv2) as [Hs Hn2].
    split; [done|]. intros HW. rewrite (Hn HW) in Hv2. injection Hv2 as <-. auto.
Qed.

#[export] Instance state_le_preorder : PreOrder state_le.
Proof.
  split.
  - intros s. by split; try lia.
  - intros s1 s2 s3 [M1 C1 S1 L1 E1] [M2 C2 S2 L2 E2]. split; [|congruence|lia..].
    by etrans.
Qed.

Lemma mem_step_mapped m m' lo hi : mem_step m m' -> mapped m lo hi -> mapped m' lo hi.
Proof. intros [H _] Hm x Hx. destruct (Hm x Hx) as [v Hv]. by destruct (H x v Hv). Qed.

Lemma good_le s s' : good s -> state_le s s' -> good s'.
Proof.
  intros [C L I B HW K] [M C' S' L' E]. split.
  - congruence.
  - lia.
  - eapply mapped_sub; [eapply mem_step_mapped; [exact M|exact I]|lia..].
  - by apply M.
  - intros x Hx. destruct (HW x Hx) as [v Hv]. by destruct M as [M _]; destruct (M x v Hv).
  - eapply mem_step_mapped; [exact M|exact K].
Qed.

Lemma good_owns s a n : good s -> owns a n -> mapped (ds_mem s) a (a + n).
Proof. intros G O x Hx. by apply (g_writable _ G), O. Qed.

Lemma owns_sub a n b k : owns a n -> a <= b -> b + k <= a + n -> owns b k.
Proof. intros O ?? x Hx. apply O. lia. Qed.

Lemma good_input s : good s -> exists l, buf_input s l.
Proof.
  intros [C L I B _ _].
  destruct (mem_load_mapped (ds_mem s) (is_state (ds_in s)) (Z.to_nat (left s))) as (l & Hl & Hlen).
  { rewrite Z2Nat.id by lia. done. }
  exists l. unfold buf_input. rewrite Hlen, Z2Nat.id by lia. repeat split; try done; try lia.
  by eapply mem_load_bytes.
Qed.

(** ** States reached by stream operations *)

Lemma state_le_stream s e k :
  Z.of_nat k <= left s ->
  state_le s (mk_dstate (set_errmsg e (ds_in (advance k s))) (ds_mem s)).
Proof. intros Hk. split; cbn; try done; lia. Qed.

Lemma state_le_advance s k : Z.of_nat k <= left s -> state_le s (advance k s).
Proof. intros Hk. split; cbn; try done; lia. Qed.

Lemma state_le_error_advance s msg k :
  Z.of_nat k <= left s -> state_le s (with_error msg (advance k s)).
Proof. intros Hk. split; cbn; try done; lia. Qed.

Lemma state_le_failed s s' l n :
  buf_input s l -> failed_within n s s' -> (n <= length l)%nat -> state_le s s'.
Proof.
  intros Hs (k & e & Hk & ->) Hn. apply state_le_stream.
  rewrite (buf_input_left _ _ Hs). lia.
Qed.

Lemma state_le_error s msg : state_le s (with_error msg s).
Proof. by split; try lia. Qed.

Lemma state_le_mem s m : mem_step (ds_mem s) m -> state_le s (mk_dstate (ds_in s) m).
Proof. intros H. split; cbn; try done; lia. Qed.

Lemma mem_step_store m a l m' :
  mem_store m a l = Some m' -> owns a (Z.of_nat (length l)) -> Forall is_byte l ->
  mem_step m m'.
Proof.
  intros Hst O Hl. destruct (mem_store_le _ _ _ _ Hst) as [Ha Hd]. split.
  - intros x v Hx. split; [by apply Hd; eexists|]. intros HW. rewrite Ha; [done|].
    intros Hr. apply HW, O, Hr.
  - intros B. by eapply mem_store_bytes.
Qed.

(** ** Rules *)

Lemma safe_mono {A} (m : M dstate A) s Q Q' :
  safe m s Q -> (forall a s', Q a s' -> Q' a s') -> safe m s Q'.
Proof. intros H HQ G. eapply wp_mono; [by apply H| |done]. cbn. intros a s' [??]. auto. Qed.

(** The final state is good and reachable. *)
Lemma safe_reach {A} (m : M dstate A) s Q Q' :
  safe m s Q -> (forall a s', good s' -> state_le s s' -> Q a s' -> Q' a s') -> safe m s Q'.
Proof.
  intros H HQ G. eapply wp_mono; [by apply H| |done]. cbn. intros a s' [Hle ?].
  split; [done|]. apply HQ; [by eapply good_le|done..].
Qed.

Lemma safe_ret {A} (a : A) s (Q : A -> dstate -> Prop) : Q a s -> safe (ret a) s Q.
Proof. intros H _. apply wp_ret. done. Qed.

Lemma safe_fail {A} s (Q : A -> dstate -> Prop) : safe fail s Q.
Proof. intros _. by apply wp_fail. Qed.

Lemma safe_error {A} msg s (Q : A -> dstate -> Prop) : safe (PB_RETURN_ERROR msg) s Q.
Proof. intros _. eapply wp_err; [done|]. apply state_le_error. Qed.

Lemma safe_gets {A} (f : dstate -> A) s (Q : A -> dstate -> Prop) :
  Q (f s) s -> safe (gets f) s Q.
Proof. intros H _. by apply wp_gets. Qed.

Lemma safe_or_ub {A} (o : option A) a s (Q : A -> dstate -> Prop) :
  o = Some a -> Q a s -> safe (or_ub o) s Q.
Proof. intros -> H. by apply safe_ret. Qed.

(** The continuation runs from a good state that is reachable from the first. *)
Lemma safe_bind {A B} (m : M dstate A) (k : A -> M dstate B) s Q' Q :
  safe m s Q' ->
  (forall a s', good s' -> state_le s s' -> Q' a s' -> safe (k a) s' Q) ->
  safe (bind m k) s Q.
Proof.
  intros Hm Hk G. apply wp_bind. eapply wp_mono; [by apply Hm| |done].
  intros a s' [Hle HQ]. pose proof (good_le _ _ G Hle) as G'.
  eapply wp_mono; [by apply Hk| |]; cbn.
  - intros b s'' [Hle' HQ']. split; [by etrans|done].
  - intros s'' Hle'. by etrans.
Qed.

Lemma safe_attempt {A} (m : M dstate A) s Q (Q' : option A -> dstate -> Prop) :
  safe m s Q ->
  (forall a s', state_le s s' -> Q a s' -> Q' (Some a) s') ->
  (forall s', state_le s s' -> Q' None s') ->
  safe (attempt m) s Q'.
Proof.
  intros Hm HS HN G. apply wp_attempt.
  eapply wp_mono; [by apply Hm| |]; cbn; [intros a s' [??]|intros s' ?]; auto.
Qed.

(** A pure computation: same state. *)
Lemma safe_pure {A} (m : M dstate A) a s (Q : A -> dstate -> Prop) :
  m s = Ok a s -> Q a s -> safe m s Q.
Proof. intros Hm H _. by eapply wp_ok. Qed.

Lemma safe_bind_pure {A B} (m : M dstate A) (k : A -> M dstate B) a s Q :
  m s = Ok a s -> safe (k a) s Q -> safe (bind m k) s Q.
Proof. intros Hm Hk G. unfold wp. rewrite (bind_ok _ _ _ _ _ Hm). by apply Hk. Qed.

Lemma safe_ok {A} (m : M dstate A) a s s' (Q : A -> dstate -> Prop) :
  m s = Ok a s' -> state_le s s' -> Q a s' -> safe m s Q.
Proof. intros Hm ? H _. by eapply wp_ok. Qed.

Lemma safe_err {A} (m : M dstate A) s s' (Q : A -> dstate -> Prop) :
  m s = Err s' -> state_le s s' -> safe m s Q.
Proof. intros Hm ? _. by eapply wp_err. Qed.

(** A loop: invariant [I], variant [f], all states good and reachable. *)
Lemma safe_loop {A B} (I : A -> dstate -> Prop) (f : A -> dstate -> nat) fuel
    (body : A -> M dstate (A + B)) a s Q :
  (forall a s', good s' -> state_le s s' -> I a s' ->
     safe (body a) s' (fun r s'' => match r with
                                    | inl a' => I a' s'' /\ (f a' s'' < f a s')%nat
                                    | inr b => Q b s''
                                    end)) ->
  I a s -> (f a s < fuel)%nat -> safe (loop fuel body a) s Q.
Proof.
  intros Hb HI Hf G.
  apply (wp_loop (fun a s' => I a s' /\ good s' /\ state_le s s') f); [|done|done].
  clear a HI Hf. intros a s' (HI & G' & Hle).
  eapply wp_mono; [by apply Hb| |]; cbn.
  - intros [a'|b] s'' [Hle' H]; [|split; [by etrans|done]].
    destruct H as [H1 H2]. split; [|done]. split; [done|]. split; [by eapply good_le|by etrans].
  - intros s'' Hle'. by etrans.
Qed.

(** ** Memory *)

Lemma safe_load_le n a s (Q : Z -> dstate -> Prop) :
  owns a (Z.of_nat n) ->
  (forall v, 0 <= v < 2 ^ (8 * Z.of_nat n) -> Q v s) ->
  safe (load_le n a) s Q.
Proof.
  intros O HQ G. destruct (mem_load_mapped (ds_mem s) a n) as (l & Hl & Hlen).
  { by apply good_owns. }
  eapply wp_ok; [|split; [reflexivity|]].
  - unfold load_le, load_bytes, bind. cbn. by rewrite Hl.
  - apply HQ. rewrite <- Hlen. apply le_combine_range. eapply mem_load_bytes; [apply G|done].
Qed.

Lemma safe_store_bytes a l s (Q : unit -> dstate -> Prop) :
  owns a (Z.of_nat (length l)) -> Forall is_byte l ->
  (forall s', left s' = left s -> Q tt s') ->
  safe (store_bytes a l) s Q.
Proof.
  intros O Hl HQ G.
  destruct (mem_store_mapped (ds_mem s) a l) as [m Hm]; [by apply good_owns|].
  eapply wp_ok; [unfold store_bytes; cbn; by rewrite Hm|].
  split; [|by apply HQ]. apply state_le_mem. by eapply mem_step_store.
Qed.

Lemma safe_store_le n a v s (Q : unit -> dstate -> Prop) :
  owns a (Z.of_nat n) -> (forall s', left s' = left s -> Q tt s') ->
  safe (store_le n a v) s Q.
Proof.
  intros O HQ. apply safe_store_bytes; [by rewrite le_split_length|apply le_split_bytes|done].
Qed.

Lemma safe_store_bool a b s (Q : unit -> dstate -> Prop) :
  owns a 1 -> (forall s', left s' = left s -> Q tt s') -> safe (store_bool a b) s Q.
Proof. intros O HQ. by apply safe_store_le. Qed.

Lemma safe_memset a c n s (Q : unit -> dstate -> Prop) :
  owns a n -> (forall s', left s' = left s -> Q tt s') -> safe (memset a c n) s Q.
Proof.
  intros O HQ. apply safe_store_bytes; [|apply Forall_replicate|done].
  - rewrite length_replicate. intros x Hx. apply O. lia.
  - unfold is_byte. apply uwrap_range. lia.
Qed.
(** ** Reading *)

Lemma varint_outcome_safe w k (m : M dstate Z) s (Q : Z -> dstate -> Prop) :
  0 <= w ->
  (forall l, buf_input s l -> m s = varint_outcome w (scan_varint k l) s) ->
  (forall v s', 0 <= v < 2 ^ w -> left s' < left s -> Q v s') ->
  safe m s Q.
Proof.
  intros Hw Hm HQ G. destruct (good_input _ G) as [l Hl]. specialize (Hm l Hl).
  pose proof (buf_input_left _ _ Hl) as Hleft. pose proof Hl as (_ & _ & _ & _ & Hb).
  pose proof (scan_varint_consumed k l Hb) as Hc.
  destruct (scan_varint k l) as [v n|n|n] eqn:E; cbn [varint_outcome] in Hm.
  - eapply wp_ok; [done|]. apply scan_varint_ok in E as [_ Hn]; [|done].
    split; [apply state_le_advance; lia|]. apply HQ; [by apply uwrap_range|]. cbn. lia.
  - eapply wp_err; [done|]. apply state_le_error_advance. lia.
  - eapply wp_err; [done|]. apply state_le_error_advance. lia.
Qed.

Lemma safe_varint32 s (Q : Z -> dstate -> Prop) :
  (forall v s', 0 <= v < 2 ^ 32 -> left s' < left s -> Q v s') ->
  safe pb_decode_varint32 s Q.
Proof.
  apply (varint_outcome_safe 32 5); [lia|]. intros l Hl. by apply pb_decode_varint32_refines.
Qed.

Lemma safe_varint s (Q : Z -> dstate -> Prop) :
  (forall v s', 0 <= v < 2 ^ 64 -> left s' < left s -> Q v s') ->
  safe pb_decode_varint s Q.
Proof.
  apply (varint_outcome_safe 64 10); [lia|]. intros l Hl. by apply pb_decode_varint_refines.
Qed.

Lemma safe_svarint s (Q : Z -> dstate -> Prop) :
  (forall v s', left s' < left s -> Q v s') -> safe pb_decode_svarint s Q.
Proof.
  intros HQ. unfold pb_decode_svarint.
  eapply safe_bind; [apply (safe_varint s (fun _ s' => left s' < left s)); done|].
  cbn. intros v s' _ _ Hl. destruct (_ =? _); apply safe_ret; auto.
Qed.

(** Reads through [call_read]: the stream part. *)
Lemma safe_read_null count s (Q : list Z -> dstate -> Prop) :
  0 <= count -> (forall s', left s' = left s - count -> Q [] s') ->
  safe (pb_read RNull count) s Q.
Proof.
  intros Hc HQ G. destruct (good_input _ G) as [l Hl].
  pose proof (buf_input_left _ _ Hl) as Hleft.
  destruct (Z_lt_ge_dec (Z.of_nat (length l)) count).
  - eapply wp_err; [by eapply pb_read_short|]. apply state_le_error.
  - pose proof (pb_read_null_n _ _ (Z.to_nat count) Hl ltac:(lia)) as Hr.
    rewrite Z2Nat.id in Hr by lia. eapply wp_ok; [done|].
    split; [apply state_le_advance; lia|]. apply HQ. cbn. lia.
Qed.

Lemma safe_read_local (n : nat) s (Q : list Z -> dstate -> Prop) :
  (forall l s', length l = n -> Forall is_byte l -> left s' = left s - Z.of_nat n -> Q l s') ->
  safe (pb_read RLocal (Z.of_nat n)) s Q.
Proof.
  intros HQ G. destruct (good_input _ G) as [l Hl].
  pose proof (buf_input_left _ _ Hl) as Hleft.
  destruct (Z_lt_ge_dec (Z.of_nat (length l)) (Z.of_nat n)).
  - eapply wp_err; [by eapply pb_read_short|]. apply state_le_error.
  - rewrite <- (take_drop n l) in Hl. pose proof (pb_read_local _ _ _ Hl) as Hr.
    rewrite length_take_le in Hr by lia.
    eapply wp_ok; [done|]. split; [apply state_le_advance; lia|].
    apply HQ; [rewrite length_take_le; lia| |cbn; lia].
    destruct Hl as (_ & _ & _ & _ & Hb). by apply Forall_app in Hb as [? _].
Qed.

Lemma safe_read_mem a count s (Q : list Z -> dstate -> Prop) :
  0 <= count -> owns a count -> (forall s', left s' = left s - count -> Q [] s') ->
  safe (pb_read (RMem a) count) s Q.
Proof.
  intros Hc O HQ G. destruct (good_input _ G) as [l Hl].
  pose proof (buf_input_left _ _ Hl) as Hleft.
  destruct (Z_lt_ge_dec (Z.of_nat (length l)) count).
  { eapply wp_err; [by eapply pb_read_short|]. apply state_le_error. }
  destruct (mem_copy_mapped (ds_mem s) a (is_state (ds_in s)) (Z.to_nat count))
    as (m & Hm & [Hoff Hdom] & Hby).
  { rewrite Z2Nat.id by lia. by apply good_owns. }
  { rewrite Z2Nat.id by lia. eapply mapped_sub; [apply (g_input _ G)|lia..]. }
  rewrite <- (take_drop (Z.to_nat count) l) in Hl.
  assert (length (take (Z.to_nat count) l) = Z.to_nat count) as Hlen
    by (rewrite length_take_le; lia).
  pose proof (pb_read_data_ok (RMem a) _ _ [] s m Hl) as Hr. rewrite Hlen, Z2Nat.id in Hr by lia.
  eapply wp_ok.
  - apply Hr. rewrite call_read_buf by apply G. unfold bind, copy_bytes.
    cbn [get_mem dstate_mem ds_mem]. by rewrite Hm.
  - split; [|apply HQ; cbn; lia]. split; cbn; try done; try lia.
    split; [|done]. intros x v Hx. split; [by apply Hdom; eexists|].
    intros HW. rewrite Hoff; [done|]. rewrite Z2Nat.id by lia. intros Hr'. by apply HW, O.
Qed.

Lemma safe_skip_field wire_type s (Q : unit -> dstate -> Prop) :
  (forall s', left s' <= left s -> Q tt s') -> safe (pb_skip_field wire_type) s Q.
Proof.
  intros HQ G. destruct (good_input _ G) as [l Hl].
  pose proof (buf_input_left _ _ Hl) as Hleft.
  pose proof (pb_skip_field_refines wire_type _ _ Hl) as H.
  assert (forall s', pb_skip_field wire_type s = Err s' /\ failed_within (length l) s s' ->
            wp (pb_skip_field wire_type) (fun a s' => state_le s s' /\ Q a s') (state_le s) s)
    as Hfail.
  { intros s' [He Hf]. eapply wp_err; [done|]. by eapply state_le_failed. }
  destruct (payload_length wire_type l) as [n|]; [destruct (Nat.leb_spec n (length l))|].
  - eapply wp_ok; [done|]. split; [apply state_le_advance; lia|]. apply HQ. cbn. lia.
  - destruct H as [s' H]. by eapply Hfail.
  - destruct H as [s' H]. by eapply Hfail.
Qed.

Lemma safe_decode_tag s (Q : tag_result -> dstate -> Prop) :
  (forall t s', 0 <= dt_tag t < 2 ^ 29 -> (dt_ok t = true -> left s' < left s) -> Q t s') ->
  safe pb_decode_tag s Q.
Proof.
  intros HQ G. destruct (good_input _ G) as [l Hl].
  pose proof (buf_input_left _ _ Hl) as Hleft.
  destruct (pb_decode_tag_refines _ _ Hl) as (e & Ht & _).
  assert ((snd (scan_tag l) <= length l)%nat /\ 0 <= dt_tag (fst (scan_tag l)) < 2 ^ 29 /\
          (dt_ok (fst (scan_tag l)) = true -> (0 < snd (scan_tag l))%nat)) as (Hn & Htag & Hpos).
  { unfold scan_tag. destruct Hl as (_ & _ & _ & _ & Hb).
    pose proof (scan_varint_consumed 5 l Hb) as Hc.
    destruct (scan_varint 5 l) as [v n|n|n] eqn:E; [|cbn; split; [done|lia]..].
    apply scan_varint_ok in E as [_ Hn]; [|done]. pose proof (uwrap_range 32 v ltac:(lia)).
    destruct (u32 v =? 0); cbn; (split; [lia|]); (split; [|lia]); [done|].
    split; [apply Z.div_pos; lia|apply Z.div_lt_upper_bound; lia]. }
  eapply wp_ok; [done|]. split; [apply state_le_stream; lia|].
  apply HQ; [done|]. intros Hok. specialize (Hpos Hok). cbn. lia.
Qed.

(** ** Substreams

    Between [pb_make_string_substream] and [pb_close_string_substream] the
    parent has given up the announced bytes and the substream may read them. *)
Record bracket (s0 : dstate) (sub : pb_istream_t) (s : dstate) : Prop := mk_bracket {
  br_parent : state_le s0 s;
  br_sub : good (mk_dstate sub (ds_mem s));
  br_state : is_state (ds_in s0) <= is_state sub;
  br_left : 0 <= left s;
  br_end : is_state sub + is_bytes_left sub + left s <= is_state (ds_in s0) + left s0;
  br_progress : is_bytes_left sub + left s < left s0
}.

Lemma wp_make_substream s0 :
  good s0 -> wp pb_make_string_substream (bracket s0) (state_le s0) s0.
Proof.
  intros G. destruct (good_input _ G) as [l Hl].
  pose proof (buf_input_left _ _ Hl) as Hleft. pose proof Hl as (_ & _ & _ & _ & Hb).
  pose proof (pb_make_string_substream_refines _ _ Hl) as Hm.
  pose proof (scan_varint_consumed 5 l Hb) as Hc.
  destruct (scan_varint 5 l) as [v n|n|n] eqn:E.
  2,3: eapply wp_err; [done|]; apply state_le_error_advance; lia.
  apply scan_varint_ok in E as [_ Hn]; [|done]. pose proof (uwrap_range 32 v ltac:(lia)).
  destruct (Nat.leb_spec (n + Z.to_nat (u32 v)) (length l)).
  - eapply wp_ok; [done|]. pose proof G as [C L I B HW K].
    split; cbn; try lia.
    + split; cbn; try done; lia.
    + split; cbn; try done; [lia|]. eapply mapped_sub; [exact I|lia..].
  - eapply wp_err; [done|]. apply state_le_error_advance. lia.
Qed.

(** Running [m] on the substream keeps the bracket. *)
Lemma wp_on_substream {A} s0 sub s (m : M dstate A) Q
    (Q' : option A * pb_istream_t -> dstate -> Prop) (E : dstate -> Prop) :
  bracket s0 sub s ->
  safe m (mk_dstate sub (ds_mem s)) Q ->
  (forall r s', bracket s0 (snd r) s' -> is_bytes_left (snd r) <= is_bytes_left sub ->
     match fst r with
     | Some a => Q a (mk_dstate (snd r) (ds_mem s'))
     | None => True
     end -> Q' r s') ->
  wp (on_substream sub m) Q' E s.
Proof.
  intros Hbr Hm HQ. specialize (Hm (br_sub _ _ _ Hbr)).
  assert (forall s', state_le (mk_dstate sub (ds_mem s)) s' ->
            bracket s0 (ds_in s') (mk_dstate (ds_in s) (ds_mem s')) /\
            left s' <= is_bytes_left sub) as Hk.
  { intros s' Hle. destruct Hbr as [Hp Hs Hst Hl He Hpr].
    pose proof (good_le _ _ Hs Hle) as Hg. pose proof (g_left _ Hs).
    destruct Hle as [M C S L En]. cbn in *. split; [|lia].
    split; cbn; try lia.
    - etrans; [exact Hp|]. apply state_le_mem. exact M.
    - by destruct s'. }
  unfold wp, on_substream in *.
  destruct (m (mk_dstate sub (ds_mem s))) as [a s'|s'| |]; try done.
  - destruct Hm as [Hle Ha]. destruct (Hk _ Hle) as [Hb Hl]. apply HQ; [done|done|].
    cbn. by destruct s'.
  - destruct (Hk _ Hm) as [Hb Hl]. by apply HQ.
Qed.

Lemma wp_close_substream s0 sub s :
  bracket s0 sub s -> good s0 ->
  wp (pb_close_string_substream sub)
     (fun _ s' => state_le s0 s' /\ left s' < left s0) (state_le s0) s.
Proof.
  intros [Hp Hs Hst Hl He Hpr] G. pose proof Hs as [C L _ _ _ _]. cbn in C, L.
  assert (forall sub' : pb_istream_t,
    is_state sub <= is_state sub' <= is_state sub + is_bytes_left sub ->
    wp (on_in (fun i => set_errmsg (is_errmsg sub') (set_state (is_state sub') i)))
       (fun _ s' => state_le s0 s' /\ left s' < left s0) (state_le s0) s) as Hcopy.
  { intros sub' Hsub'. eapply wp_ok; [apply on_in_ok|]. cbn. destruct Hp as [M C' S' L' E'].
    split; [|lia]. split; cbn; try done; lia. }
  unfold pb_close_string_substream. apply wp_bind.
  destruct (Z.eqb_spec (is_bytes_left sub) 0).
  { apply wp_ret, Hcopy. lia. }
  pose proof (pb_read_null_raw (mk_dstate sub (ds_mem s)) (Z.to_nat (is_bytes_left sub))
                C ltac:(cbn; lia)) as Hr.
  rewrite Z2Nat.id in Hr by lia.
  apply wp_bind. eapply wp_ok; [unfold on_substream; by rewrite Hr|].
  cbn [fst snd]. apply wp_ret. rewrite advance_mem.
  replace (mk_dstate (ds_in s) (ds_mem (mk_dstate sub (ds_mem s)))) with s by (by destruct s).
  apply Hcopy. cbn. lia.
Qed.

(** Memory accesses of the code around the substream. *)
Lemma wp_bracket_load n a s0 sub s (Q : Z -> dstate -> Prop) (E : dstate -> Prop) :
  bracket s0 sub s -> owns a (Z.of_nat n) ->
  (forall v, 0 <= v < 2 ^ (8 * Z.of_nat n) -> Q v s) ->
  wp (load_le n a) Q E s.
Proof.
  intros Hbr O HQ. pose proof (br_sub _ _ _ Hbr) as G.
  destruct (mem_load_mapped (ds_mem s) a n) as (l & Hl & Hlen).
  { by apply (good_owns (mk_dstate sub (ds_mem s))). }
  eapply wp_ok; [unfold load_le, load_bytes, bind; cbn; by rewrite Hl|].
  apply HQ. rewrite <- Hlen. apply le_combine_range.
  eapply mem_load_bytes; [apply (g_bytes _ G)|done].
Qed.

Lemma bracket_mem s0 sub s m :
  bracket s0 sub s -> mem_step (ds_mem s) m -> bracket s0 sub (mk_dstate (ds_in s) m).
Proof.
  intros [Hp Hs Hst Hl He Hpr] Hm. split; cbn; try done.
  - etrans; [done|]. by apply state_le_mem.
  - eapply good_le; [exact Hs|]. by apply (state_le_mem (mk_dstate sub (ds_mem s))).
Qed.

Lemma wp_bracket_store n a v s0 sub s (Q : unit -> dstate -> Prop) (E : dstate -> Prop) :
  bracket s0 sub s -> owns a (Z.of_nat n) ->
  (forall s', bracket s0 sub s' -> Q tt s') ->
  wp (store_le n a v) Q E s.
Proof.
  intros Hbr O HQ. pose proof (br_sub _ _ _ Hbr) as G.
  destruct (mem_store_mapped (ds_mem s) a (le_split n v)) as [m Hm].
  { rewrite le_split_length. by apply (good_owns (mk_dstate sub (ds_mem s))). }
  eapply wp_ok; [unfold store_le, store_bytes; cbn; by rewrite Hm|].
  apply HQ. apply (bracket_mem _ _ s); [done|].
  eapply mem_step_store; [done|by rewrite le_split_length|apply le_split_bytes].
Qed.

(** The code between the opening of a substream and the return. *)
Lemma safe_with_substream {A} (k : pb_istream_t -> M dstate A) s Q :
  (forall sub s', good s -> bracket s sub s' ->
     wp (k sub) (fun a s'' => state_le s s'' /\ Q a s'') (state_le s) s') ->
  safe (bind pb_make_string_substream k) s Q.
Proof.
  intros Hk G. apply wp_bind. eapply wp_mono; [by apply wp_make_substream| |done].
  intros sub s' Hbr. by apply Hk.
Qed.

(** Run [m] on the substream, close it and return the status of [m]. *)
Lemma wp_delegate {A} s0 sub s (m : M dstate A) Q :
  bracket s0 sub s -> good s0 -> safe m (mk_dstate sub (ds_mem s)) Q ->
  wp (let! r := on_substream sub m in
      pb_close_string_substream (snd r) ;;;
      match fst r with Some _ => ret tt | None => fail end)
     (fun _ s' => state_le s0 s' /\ left s' < left s0) (state_le s0) s.
Proof.
  intros Hbr G Hm. apply wp_bind. eapply wp_on_substream; [done|exact Hm|].
  intros r s1 Hbr1 _ _. apply wp_bind.
  eapply wp_mono; [by eapply wp_close_substream| |done].
  cbn. intros a s2 H2. destruct (fst r); [by apply wp_ret|]. destruct H2. by apply wp_fail.
Qed.

End safety.
