(* ===== verification/DecodeSafe.v ===== *)
(** * Memory safety and termination of message decoding

    A descriptor array is well formed for a message of a given size when every
    region it denotes lies in the message.  For such an array, decoding any
    input into a message of that size stays within the message, the input and
    the default values, and terminates. *)

From Stdlib Require Import ZArith Lia.
From stdpp Require Import base option list strings gmap.
From S2P Require Import Prelude Memory Descr Decode Wire Input Layout Safety.

(** ** Well-formed descriptors *)

Section wf.
Context {PL : Platform} {DS : Descriptors} (clo chi : Z).

Definition region_ok (off n size : Z) : bool := (0 <=? off) && (0 <=? n) && (off + n <=? size).

(** What the decoder of a single item relies on. *)
Definition item_ok (wf : list pb_field_t -> Z -> bool) (f : pb_field_t) : bool :=
  let ltype := PB_LTYPE (pf_type f) in
  (0 <=? pf_data_size f) && (ltype <? PB_LTYPES_COUNT) && negb (ltype =? PB_LTYPE_EXTENSION) &&
  (if ltype =? PB_LTYPE_FIXED32 then 4 <=? pf_data_size f else true) &&
  (if ltype =? PB_LTYPE_FIXED64 then 8 <=? pf_data_size f else true) &&
  (if ltype =? PB_LTYPE_SUBMESSAGE then
     match descriptors_at (pf_ptr f) with
     | Some sub => wf sub (pf_data_size f)
     | None => false
     end
   else true).

(** The default value of a singular static field is among the constants. *)
Definition default_ok (f : pb_field_t) : bool :=
  (PB_LTYPE (pf_type f) =? PB_LTYPE_SUBMESSAGE) || (pf_ptr f =? 0) ||
  ((clo <=? pf_ptr f) && (pf_ptr f + pf_data_size f <=? chi)).

Definition static_ok (wf : list pb_field_t -> Z -> bool) (size : Z)
    (it : pb_field_iter_t) (f : pb_field_t) : bool :=
  let htype := PB_HTYPE (pf_type f) in
  item_ok wf f &&
  (if htype =? PB_HTYPE_REPEATED then
     (0 <=? pf_array_size f) &&
     region_ok (it_pData it) (pf_data_size f * pf_array_size f) size &&
     region_ok (it_pSize it) 4 size
   else
     region_ok (it_pData it) (pf_data_size f) size &&
     (if htype =? PB_HTYPE_ONEOF then region_ok (it_pSize it) 4 size
      else
        default_ok f &&
        (if htype =? PB_HTYPE_OPTIONAL
         then (it_pSize it =? it_pData it) || region_ok (it_pSize it) 1 size
         else true))).

Definition pointer_ok (size : Z) (it : pb_field_iter_t) (f : pb_field_t) : bool :=
  let htype := PB_HTYPE (pf_type f) in
  region_ok (it_pData it) ptr_size size &&
  (if (htype =? PB_HTYPE_REPEATED) || (htype =? PB_HTYPE_ONEOF)
   then region_ok (it_pSize it) 4 size else true).

Definition field_ok (wf : list pb_field_t -> Z -> bool) (size : Z)
    (p : pb_field_iter_t * pb_field_t) : bool :=
  let it := fst p in
  let f := snd p in
  let atype := PB_ATYPE (pf_type f) in
  negb (PB_LTYPE (pf_type f) =? PB_LTYPE_EXTENSION) &&
  if atype =? PB_ATYPE_STATIC then static_ok wf size it f
  else if atype =? PB_ATYPE_POINTER then pointer_ok size it f
  else if atype =? PB_ATYPE_CALLBACK then region_ok (it_pData it) sizeof_callback size
  else true.

(** The counts for which the test on [fields_seen] is defined. *)
Definition required_ok (n : Z) : bool := (n =? 0) || ((n <? 64) && negb (n mod 32 =? 0)).

(** [n] bounds the nesting of submessages. *)
Fixpoint wf_msg (n : nat) (fields : list pb_field_t) (size : Z) : bool :=
  match n with
  | O => false
  | S n =>
      let ps := positions fields 0 in
      terminated fields && bool_decide (last fields = Some PB_LAST_FIELD) &&
      (0 <=? size) && (size <? 2 ^ 32) && required_ok (required_count ps) &&
      forallb (field_ok (wf_msg n) size) ps
  end.
End wf.

(** ** The contract of application callbacks

    A decode callback keeps to the memory it may write and to its stream, and
    each successful call consumes input unless there is none left. *)
Class SafeUserDecode {PL : Platform} {UD : UserDecode} (W : Z -> Prop) (clo chi : Z) : Prop :=
  safe_user_decode fn f arg s :
    safe W clo chi (user_decode fn f arg) s
      (fun _ s' => is_bytes_left (ds_in s') < is_bytes_left (ds_in s) \/
                   is_bytes_left (ds_in s') = 0).

Section decode_safe.
Context {PL : Platform} {UR : UserRead} {UD : UserDecode} {DS : Descriptors}.
Context (W : Z -> Prop) (clo chi : Z) {SU : SafeUserDecode W clo chi}.

Abbreviation safe := (safe W clo chi).
Abbreviation owns := (owns W).
Abbreviation left s := (is_bytes_left (ds_in s)).
Abbreviation wf_msg := (wf_msg clo chi).
Abbreviation decreases s := (fun _ s' => left s' < left s).
Abbreviation nothing := (fun _ _ => True).

Lemma region_ok_owns off n size base :
  region_ok off n size = true -> owns base size -> owns (off + base) n.
Proof.
  unfold region_ok. intros H O. zbool. intros x Hx. apply O. lia.
Qed.

(** ** Items *)

Lemma safe_bind_error {A B} msg (k : A -> M dstate B) s Q :
  safe (bind (PB_RETURN_ERROR msg) k) s Q.
Proof. intros _. eapply wp_err; [done|]. apply state_le_error. Qed.

(** Storing at the width the descriptor selects, in the three integer decoders. *)
Lemma safe_store_clamped (field : pb_field_t) dest (v8 v4 v2 v1 : Z) (k : Z -> M dstate unit) s Q :
  owns dest (pf_data_size field) ->
  (forall c s', left s' = left s -> safe (k c) s' Q) ->
  safe (let! clamped :=
          if pf_data_size field =? 8 then store_le 8 dest v8 ;;; ret v8
          else if pf_data_size field =? 4 then store_le 4 dest v4 ;;; ret v4
          else if pf_data_size field =? 2 then store_le 2 dest v2 ;;; ret v2
          else if pf_data_size field =? 1 then store_le 1 dest v1 ;;; ret v1
          else PB_RETURN_ERROR "invalid data_size" in
        k clamped) s Q.
Proof.
  intros O Hk. eapply safe_bind with (Q' := fun _ s' => left s' = left s).
  - destruct (Z.eqb_spec (pf_data_size field) 8) as [E|_];
      [|destruct (Z.eqb_spec (pf_data_size field) 4) as [E|_];
        [|destruct (Z.eqb_spec (pf_data_size field) 2) as [E|_];
          [|destruct (Z.eqb_spec (pf_data_size field) 1) as [E|_]; [|apply safe_error]]]];
      rewrite E in O;
      (eapply safe_bind with (Q' := fun _ s' => left s' = left s);
       [apply safe_store_le; [exact O|done]|intros; by apply safe_ret]).
  - intros c s' _ _ Hl. by apply Hk.
Qed.

Lemma safe_dec_varint f dest s :
  owns dest (pf_data_size f) -> safe (pb_dec_varint f dest) s (decreases s).
Proof.
  intros O. eapply safe_bind; [apply (safe_varint _ _ _ s (decreases s)); done|].
  cbn. intros v s1 _ _ Hl. apply safe_store_clamped; [done|]. intros c s2 Hl2.
  destruct (c =? _); [apply safe_ret; lia|apply safe_error].
Qed.

Lemma safe_dec_uvarint f dest s :
  owns dest (pf_data_size f) -> safe (pb_dec_uvarint f dest) s (decreases s).
Proof.
  intros O. eapply safe_bind; [apply (safe_varint _ _ _ s (decreases s)); done|].
  cbn. intros v s1 _ _ Hl. apply safe_store_clamped; [done|]. intros c s2 Hl2.
  destruct (c =? _); [apply safe_ret; lia|apply safe_error].
Qed.

Lemma safe_dec_svarint f dest s :
  owns dest (pf_data_size f) -> safe (pb_dec_svarint f dest) s (decreases s).
Proof.
  intros O. eapply safe_bind; [apply (safe_svarint _ _ _ s (decreases s)); done|].
  cbn. intros v s1 _ _ Hl. apply safe_store_clamped; [done|]. intros c s2 Hl2.
  destruct (c =? _); [apply safe_ret; lia|apply safe_error].
Qed.

Lemma safe_dec_fixed32 f dest s :
  owns dest (pf_data_size f) -> 4 <= pf_data_size f ->
  safe (pb_dec_fixed32 f dest) s (decreases s).
Proof.
  intros O Hsz. eapply safe_bind.
  - apply (safe_read_local _ _ _ 4 s (fun _ s' => left s' = left s - 4)). done.
  - cbn. intros l s1 _ _ Hl. apply safe_store_le; [|lia]. eapply owns_sub; [exact O|lia..].
Qed.

Lemma safe_dec_fixed64 f dest s :
  owns dest (pf_data_size f) -> 8 <= pf_data_size f ->
  safe (pb_dec_fixed64 f dest) s (decreases s).
Proof.
  intros O Hsz. eapply safe_bind.
  - apply (safe_read_local _ _ _ 8 s (fun _ s' => left s' = left s - 8)). done.
  - cbn. intros l s1 _ _ Hl. apply safe_store_le; [|lia]. eapply owns_sub; [exact O|lia..].
Qed.

(** The length prefix of the three length-delimited decoders. *)
Lemma safe_prefixed (k : Z -> M dstate unit) s :
  (forall size s', 0 <= size < 2 ^ 32 -> left s' < left s -> safe (k size) s' (decreases s)) ->
  safe (let! size := pb_decode_varint32 in k size) s (decreases s).
Proof.
  intros Hk. eapply safe_bind.
  - apply (safe_varint32 _ _ _ s (fun v s' => 0 <= v < 2 ^ 32 /\ left s' < left s)). auto.
  - cbn. intros v s1 _ _ [Hv Hl]. by apply Hk.
Qed.

Lemma safe_dec_bytes f dest s :
  owns dest (pf_data_size f) -> safe (pb_dec_bytes f dest) s (decreases s).
Proof.
  intros O. apply safe_prefixed. intros size s1 Hv Hl. cbv zeta.
  destruct (PB_SIZE_MAX <? size); [apply safe_error|].
  destruct (PB_BYTES_ARRAY_T_ALLOCSIZE size <? size) eqn:Hov; [apply safe_error|].
  destruct (_ =? PB_ATYPE_POINTER); [apply safe_error|].
  destruct (pf_data_size f <? _) eqn:Hfit; [apply safe_error|]. zbool.
  assert (size + 4 <= pf_data_size f) as Hsz.
  { revert Hov Hfit. unfold PB_BYTES_ARRAY_T_ALLOCSIZE, offsetof_bytes.
    rewrite (usize_small_32 size) by lia. unfold usize, uwrap.
    pose proof size_bits_bound. intros.
    destruct (Z_lt_ge_dec (size + 4) (2 ^ size_bits)).
    - rewrite Z.mod_small in Hfit by lia. lia.
    - assert ((size + 4) mod 2 ^ size_bits = size + 4 - 2 ^ size_bits) as E
        by (symmetry; apply Z.mod_unique with 1; lia).
      rewrite E in Hov. lia. }
  eapply safe_bind.
  - apply (safe_store_le _ _ _ _ _ _ s1 (fun _ s' => left s' = left s1)); [|done].
    eapply owns_sub; [exact O|lia|unfold sizeof_pb_size_t; lia].
  - cbn. intros _ s2 _ _ Hl2. eapply safe_bind.
    + apply (safe_read_mem _ _ _ _ _ s2 (fun _ s' => left s' = left s2 - size)); [lia| |done].
      unfold offsetof_bytes. eapply owns_sub; [exact O|lia..].
    + cbn. intros _ s3 _ _ Hl3. apply safe_ret. lia.
Qed.

Lemma safe_dec_string f dest s :
  owns dest (pf_data_size f) -> safe (pb_dec_string f dest) s (decreases s).
Proof.
  intros O. apply safe_prefixed. intros size s1 Hv Hl. cbv zeta.
  destruct (u32 (size + 1) <? size) eqn:Hov; [apply safe_error|].
  destruct (_ =? PB_ATYPE_POINTER); [apply safe_error|].
  destruct (pf_data_size f <? u32 (size + 1)) eqn:Hfit; [apply safe_error|]. zbool.
  assert (size + 1 <= pf_data_size f) as Hsz.
  { unfold uwrap in *. destruct (Z_lt_ge_dec (size + 1) (2 ^ 32)).
    - rewrite Z.mod_small in Hfit by lia. lia.
    - replace (size + 1) with (2 ^ 32) in Hov by lia. rewrite Z.mod_same in Hov by lia. lia. }
  eapply safe_bind.
  - apply (safe_attempt _ _ _ _ s1 (fun _ s' => left s' = left s1 - size)
             (fun r s' => left s' <= left s1)).
    + apply safe_read_mem; [lia| |done]. eapply owns_sub; [exact O|lia..].
    + intros _ s' _ Hs. lia.
    + intros s' Hs. apply Hs.
  - cbn. intros r s2 _ _ Hl2. eapply safe_bind.
    + apply (safe_store_le _ _ _ _ _ _ s2 (fun _ s' => left s' = left s2)); [|done].
      eapply owns_sub; [exact O|lia..].
    + cbn. intros _ s3 _ _ Hl3. destruct r; [apply safe_ret; lia|apply safe_fail].
Qed.

Lemma safe_dec_fixed_length_bytes f dest s :
  owns dest (pf_data_size f) -> 0 <= pf_data_size f ->
  safe (pb_dec_fixed_length_bytes f dest) s (decreases s).
Proof.
  intros O Hpos. apply safe_prefixed. intros size s1 Hv Hl.
  destruct (PB_SIZE_MAX <? size); [apply safe_error|].
  destruct (size =? 0).
  { apply safe_memset; [done|]. lia. }
  destruct (negb _); [apply safe_error|]. eapply safe_bind.
  - by apply (safe_read_mem _ _ _ _ _ s1 (fun _ s' => left s' = left s1 - pf_data_size f)).
  - cbn. intros _ s2 _ _ Hl2. apply safe_ret. lia.
Qed.
(** ** Positions of a well-formed message at an address *)

Lemma wf_msg_inv n fields size :
  wf_msg n fields size = true ->
  exists n', n = S n' /\ terminated fields = true /\ last fields = Some PB_LAST_FIELD /\
    0 <= size < 2 ^ 32 /\ required_ok (required_count (positions fields 0)) = true /\
    forallb (field_ok clo chi (wf_msg n') size) (positions fields 0) = true.
Proof.
  destruct n as [|n]; [done|]. cbn [DecodeSafe.wf_msg]. intros H.
  repeat (apply andb_prop in H as [H ?]). zbool.
  exists n. repeat split; try done. by eapply bool_decide_eq_true.
Qed.

Lemma wf_position wf fields size base i p :
  forallb (field_ok clo chi wf size) (positions fields 0) = true ->
  positions fields base !! i = Some p ->
  exists it, fst p = shift_iter base it /\ field_ok clo chi wf size (it, snd p) = true.
Proof.
  intros Hall Hp. rewrite <- (Z.add_0_l base), positions_shift, list_lookup_fmap in Hp.
  destruct (positions fields 0 !! i) as [[it f]|] eqn:E; [|done].
  cbn in Hp. injection Hp as <-. exists it. split; [done|].
  rewrite forallb_forall in Hall. apply Hall, list_elem_of_In. by eapply list_elem_of_lookup_2.
Qed.

Lemma wf_first n fields size :
  wf_msg n fields size = true -> exists f, fields !! 0%nat = Some f.
Proof.
  intros H. apply wf_msg_inv in H as (n' & _ & Ht & _). unfold terminated in Ht.
  destruct fields as [|f fields]; [done|]. by exists f.
Qed.

(** ** Default values *)

Lemma safe_memcpy dst src n s :
  0 <= n -> owns dst n -> clo <= src -> src + n <= chi -> safe (memcpy dst src n) s nothing.
Proof.
  intros Hn O Hlo Hhi. unfold memcpy.
  eapply safe_bind with (Q' := fun l _ => length l = Z.to_nat n /\ Forall is_byte l).
  - intros G. destruct (mem_load_mapped (ds_mem s) src (Z.to_nat n)) as (l & Hl & Hlen).
    { eapply mapped_sub; [apply (g_const _ _ _ _ G)|lia..]. }
    eapply wp_ok; [unfold load_bytes; cbn; by rewrite Hl|]. split; [reflexivity|].
    split; [done|]. eapply mem_load_bytes; [apply G|done].
  - intros l s1 _ _ [Hlen Hb]. apply safe_store_bytes; [|done|done].
    by rewrite Hlen, Z2Nat.id by lia.
Qed.

Lemma safe_run_all (body : pb_field_iter_t -> pb_field_t -> M dstate unit) ps s :
  (forall p s, p ∈ ps -> safe (body (fst p) (snd p)) s nothing) ->
  safe (run_all body ps) s nothing.
Proof.
  revert s. induction ps as [|p ps IH]; intros s H; cbn; [by apply safe_ret|].
  eapply safe_bind; [apply H, list_elem_of_here|]. intros _ s1 _ _ _.
  apply IH. intros q s' Hq. by apply H, list_elem_of_further.
Qed.

(** One pass over the fields of a message. *)
Lemma safe_message_set_to_defaults fields base body s :
  terminated fields = true ->
  (forall i p s, positions fields base !! i = Some p -> safe (body (fst p)) s nothing) ->
  safe (message_set_to_defaults body fields base) s nothing.
Proof.
  intros Ht H. unfold message_set_to_defaults.
  assert (exists f, fields !! 0%nat = Some f) as [f Hf].
  { destruct fields as [|f]; [done|]. by exists f. }
  eapply safe_bind_pure; [by apply pb_field_iter_begin_eq|]. cbn [fst snd]. rewrite negb_involutive.
  destruct (Z.eqb_spec (pf_tag f) 0) as [|Hz]; [by apply safe_ret|].
  intros G. unfold wp.
  rewrite (walk_run_all fields base f _ (fun it _ => body it)); [|done|done|done|done|lia].
  apply safe_run_all; [|done]. intros p s' [i Hp]%list_elem_of_lookup. by eapply H.
Qed.

(** The fields of a well-formed message, at the address where it lies. *)
Record located (wf : list pb_field_t -> Z -> bool) (size base : Z) (it : pb_field_iter_t)
    (f : pb_field_t) : Prop := mk_located {
  lc_iter : iter_field (St := dstate) it = fun s => Ok f s;
  lc_field : exists it0, it = shift_iter base it0 /\ field_ok clo chi wf size (it0, f) = true
}.

Lemma region_ok_owns_n off n size base (k : nat) :
  region_ok off n size = true -> owns base size -> Z.of_nat k = n -> owns (off + base) (Z.of_nat k).
Proof. intros H O ->. by eapply region_ok_owns. Qed.

Lemma safe_static_default n fuel base it0 f s :
  (forall fields dsize base s,
     wf_msg n fields dsize = true -> owns base dsize ->
     safe (pb_message_set_to_defaults fuel fields base) s nothing) ->
  item_ok  (wf_msg n) f = true -> default_ok clo chi f = true -> owns (it0 + base) (pf_data_size f) ->
  safe (if PB_LTYPE (pf_type f) =? PB_LTYPE_SUBMESSAGE then
          let! submsg_fields := or_ub (descriptors_at (pf_ptr f)) in
          message_set_to_defaults (pb_field_set_to_default fuel) submsg_fields (it0 + base)
        else if negb (pf_ptr f =? 0) then memcpy (it0 + base) (pf_ptr f) (pf_data_size f)
        else memset (it0 + base) 0 (pf_data_size f)) s nothing.
Proof.
  intros IH Hi Hd O. unfold item_ok in Hi. unfold default_ok in Hd.
  apply andb_prop in Hi as [Hi Hsub]. zbool.
  destruct (PB_LTYPE (pf_type f) =? PB_LTYPE_SUBMESSAGE).
  { destruct (descriptors_at (pf_ptr f)) as [sub|]; [|done].
    eapply safe_bind_pure; [done|]. by apply (IH sub (pf_data_size f)). }
  cbn in Hd. destruct (pf_ptr f =? 0); cbn in Hd |- *; [by apply safe_memset|].
  zbool. by apply safe_memcpy.
Qed.

Lemma safe_field_default n fuel size base it f s :
  (forall fields dsize base s,
     wf_msg n fields dsize = true -> owns base dsize ->
     safe (pb_message_set_to_defaults fuel fields base) s nothing) ->
  located (wf_msg n) size base it f -> owns base size ->
  safe (pb_field_set_to_default (S fuel) it) s nothing.
Proof.
  intros IH [Hf (it0 & -> & Hok)] O. cbn [pb_field_set_to_default].
  eapply safe_bind_pure; [by rewrite Hf|]. cbv zeta.
  unfold field_ok in Hok. cbn [fst snd] in Hok. apply andb_prop in Hok as [Hext Hok].
  apply negb_true_iff in Hext. rewrite Hext. cbn [shift_iter it_pData it_pSize].
  destruct (PB_ATYPE (pf_type f) =? PB_ATYPE_STATIC).
  - unfold static_ok in Hok. apply andb_prop in Hok as [Hi Hok].
    eapply safe_bind with (Q' := fun (b : bool) _ => b = true ->
      default_ok clo chi f = true /\ owns (it_pData it0 + base) (pf_data_size f)).
    + pose proof (fun k => region_ok_owns (it_pSize it0) k size base) as Hsz.
      destruct (Z.eqb_spec (PB_HTYPE (pf_type f)) PB_HTYPE_REPEATED) as [->|Hr].
      { cbn. zbool. eapply safe_bind; [by apply (safe_store_le _ _ _ _ _ _ _ nothing); [apply Hsz|]|].
        intros. by apply safe_ret. }
      destruct (Z.eqb_spec (PB_HTYPE (pf_type f)) PB_HTYPE_ONEOF) as [->|Hn].
      { cbn. zbool. eapply safe_bind; [by apply (safe_store_le _ _ _ _ _ _ _ nothing); [apply Hsz|]|].
        intros. by apply safe_ret. }
      cbn [orb]. apply andb_prop in Hok as [Hd Hok]. apply andb_prop in Hok as [Hdef Hok].
      assert (owns (it_pData it0 + base) (pf_data_size f)) by by eapply region_ok_owns.
      destruct (PB_HTYPE (pf_type f) =? PB_HTYPE_OPTIONAL); cbn [andb]; [|by apply safe_ret].
      destruct (Z.eqb_spec (it_pSize it0 + base) (it_pData it0 + base)) as [|Hne];
        cbn [negb]; [by apply safe_ret|].
      destruct (Z.eqb_spec (it_pSize it0) (it_pData it0)); [lia|].
      eapply safe_bind; [by apply (safe_store_bool _ _ _ _ _ _ nothing); [apply Hsz|]|].
      intros. by apply safe_ret.
    + intros [] s1 _ _ Hb; [|by apply safe_ret]. destruct (Hb eq_refl).
      by apply (safe_static_default n).
  - destruct (PB_ATYPE (pf_type f) =? PB_ATYPE_POINTER); [|by apply safe_ret].
    unfold pointer_ok in Hok. apply andb_prop in Hok as [Hd Hs].
    eapply safe_bind.
    + apply (safe_store_le _ _ _ _ _ _ _ nothing); [|done]. eapply region_ok_owns_n; [done..|].
      destruct ptr_size_cases as [-> | ->]; done.
    + intros _ s1 _ _ _. destruct (_ || _); [|by apply safe_ret].
      apply safe_store_le; [|done]. by apply (region_ok_owns _ _ _ _ Hs).
Qed.
Lemma positions_located n fields size base i p :
  wf_msg (S n) fields size = true -> positions fields base !! i = Some p ->
  located (wf_msg n) size base (fst p) (snd p).
Proof.
  intros H Hp. destruct (wf_msg_inv _ _ _ H) as (n' & [= <-] & _ & _ & _ & _ & Hall).
  split.
  - destruct (positions_lookup _ _ _ _ Hp) as (H1 & H2 & H3 & _).
    unfold iter_field. by rewrite H2, H3, H1.
  - by eapply wf_position.
Qed.

(** Setting the default values of a well-formed message. *)
Lemma safe_set_to_defaults n fuel fields size base s :
  (n <= fuel)%nat -> wf_msg n fields size = true -> owns base size ->
  safe (pb_message_set_to_defaults fuel fields base) s nothing.
Proof.
  revert fuel fields size base s.
  induction n as [|n IH]; intros fuel fields size base s Hn Hwf O; [done|].
  destruct fuel as [|fuel]; [lia|].
  pose proof (wf_msg_inv _ _ _ Hwf) as (n' & [= <-] & Ht & _).
  apply safe_message_set_to_defaults; [done|]. intros i p s' Hp.
  eapply (safe_field_default n fuel size base); [|by eapply positions_located|done].
  intros sub dsize base' s'' Hsub O'. apply (IH fuel sub dsize); [lia|done|done].
Qed.

End decode_safe.
