(* ===== verification/FieldSafe.v ===== *)
(** * Memory safety of field decoding

    The dispatch on the type of an item, packed and unpacked arrays, oneofs and
    callback fields, for a decoder of submessages that is itself safe. *)

From Stdlib Require Import ZArith Lia.
From stdpp Require Import base option list strings gmap.
From S2P Require Import Prelude Memory Descr Decode Wire Input Layout Safety DecodeSafe.

Section field_safe.
Context {PL : Platform} {UR : UserRead} {UD : UserDecode} {DS : Descriptors}.
Context (W : Z -> Prop) (clo chi : Z) {SU : SafeUserDecode W clo chi}.

Abbreviation safe := (safe W clo chi).
Abbreviation owns := (owns W).
Abbreviation bracket := (bracket W clo chi).
Abbreviation left s := (is_bytes_left (ds_in s)).
Abbreviation wf_msg := (wf_msg clo chi).
Abbreviation decreases s := (fun _ s' => left s' < left s).
Abbreviation nothing := (fun _ _ => True).

Context (fuel : nat) (noinit : list pb_field_t -> Z -> M dstate unit).

(** The submessage decoder is safe on well-formed messages for which the fuel
    suffices. *)
Context (Hnoinit : forall n fields size base s,
  (n <= fuel)%nat -> wf_msg n fields size = true -> owns base size ->
  left s < Z.of_nat fuel -> safe (noinit fields base) s nothing).

Lemma safe_decode_with n fields size base s :
  (n <= fuel)%nat -> wf_msg n fields size = true -> owns base size ->
  left s < Z.of_nat fuel -> safe (pb_decode_with fuel noinit fields base) s nothing.
Proof.
  intros Hn Hwf O Hl. eapply safe_bind; [by eapply safe_set_to_defaults|].
  intros _ s1 _ Hle _. eapply Hnoinit; [done..|]. destruct (sl_left _ _ _ Hle). lia.
Qed.

Lemma safe_dec_submessage n f dest s :
  (n <= fuel)%nat -> item_ok (wf_msg n) f = true ->
  PB_LTYPE (pf_type f) = PB_LTYPE_SUBMESSAGE ->
  owns dest (pf_data_size f) -> left s <= Z.of_nat fuel ->
  safe (pb_dec_submessage fuel noinit f dest) s (decreases s).
Proof.
  intros Hn Hi Hl O Hleft. apply safe_with_substream. intros sub s1 G Hbr.
  destruct (pf_ptr f =? 0); [eapply wp_err; [apply error_ok|]|].
  { etrans; [apply Hbr|]. apply state_le_error. }
  unfold item_ok in Hi. apply andb_prop in Hi as [_ Hi]. rewrite Hl in Hi. cbn in Hi.
  destruct (descriptors_at (pf_ptr f)) as [fields|]; [|done].
  cbn [or_ub]. apply wp_bind, wp_ret.
  eapply wp_delegate with (Q := nothing); [exact Hbr|done|].
  pose proof (br_progress _ _ _ _ _ _ Hbr). pose proof (br_left _ _ _ _ _ _ Hbr).
  destruct (_ =? PB_HTYPE_REPEATED).
  - eapply safe_decode_with; [done..|]. cbn. lia.
  - eapply Hnoinit; [done..|]. cbn. lia.
Qed.

(** The call through the table. *)
Lemma safe_call_decoder n f dest s :
  (n <= fuel)%nat -> item_ok (wf_msg n) f = true ->
  owns dest (pf_data_size f) -> left s <= Z.of_nat fuel ->
  safe (call_decoder fuel noinit f dest) s (decreases s).
Proof.
  intros Hn Hi O Hleft. pose proof Hi as Hi'. unfold item_ok in Hi'.
  pose proof (PB_LTYPE_range (pf_type f)). unfold call_decoder.
  set (lt := PB_LTYPE (pf_type f)) in *.
  repeat apply andb_prop in Hi' as [Hi' ?]. zbool.
  assert (lt = 0 \/ lt = 1 \/ lt = 2 \/ lt = 3 \/ lt = 4 \/ lt = 5 \/ lt = 6 \/ lt = 7 \/ lt = 9)
    as Hlt by (unfold PB_LTYPES_COUNT, PB_LTYPE_EXTENSION in *; lia).
  destruct Hlt as [E|[E|[E|[E|[E|[E|[E|[E|E]]]]]]]]; rewrite E in *;
    (eapply safe_bind_pure; [reflexivity|]).
  - by apply safe_dec_varint.
  - by apply safe_dec_uvarint.
  - by apply safe_dec_svarint.
  - apply safe_dec_fixed32; [done|]. by apply Z.leb_le.
  - apply safe_dec_fixed64; [done|]. by apply Z.leb_le.
  - by apply safe_dec_bytes.
  - by apply safe_dec_string.
  - by apply (safe_dec_submessage n).
  - by apply safe_dec_fixed_length_bytes.
Qed.

(** ** Static fields *)

Lemma owns_array_item f off size base v :
  size < 2 ^ 32 -> 0 <= pf_data_size f -> owns base size ->
  region_ok off (pf_data_size f * pf_array_size f) size = true ->
  0 <= v < pf_array_size f ->
  owns (off + base + u32 (pf_data_size f * v)) (pf_data_size f).
Proof.
  unfold region_ok. intros Hsz Hd O Hr Hv. zbool.
  assert (pf_data_size f * v + pf_data_size f <= pf_data_size f * pf_array_size f) by nia.
  rewrite uwrap_small by nia. eapply owns_sub; [exact O|nia..].
Qed.

Lemma wp_packed_items n f it0 size base s0 sub s :
  (n <= fuel)%nat -> item_ok (wf_msg n) f = true -> size < 2 ^ 32 -> owns base size ->
  region_ok (it_pData it0) (pf_data_size f * pf_array_size f) size = true ->
  region_ok (it_pSize it0) 4 size = true ->
  bracket s0 sub s -> left s0 <= Z.of_nat fuel ->
  wp (decode_packed_items fuel noinit (shift_iter base it0) f sub)
     (fun r s' => bracket s0 (snd r) s') (state_le W s0) s.
Proof.
  intros Hn Hi Hsz O Hd Hc Hbr Hleft. unfold decode_packed_items.
  cbn [shift_iter it_pData it_pSize].
  assert (0 <= pf_data_size f) by (unfold item_ok in Hi; zbool; done).
  assert (owns (it_pSize it0 + base) 4) as Oc by by eapply region_ok_owns.
  apply (wp_loop (fun sub s => bracket s0 sub s) (fun sub _ => Z.to_nat (is_bytes_left sub)));
    [|done|lia].
  clear sub s Hbr. intros sub s Hbr. apply wp_bind.
  eapply wp_bracket_load; [exact Hbr|done|]. intros v Hv.
  destruct ((0 <? is_bytes_left sub) && (v <? pf_array_size f)) eqn:Hc'; [|by apply wp_ret].
  zbool. apply wp_bind. eapply wp_on_substream; [exact Hbr| |].
  - apply (safe_call_decoder n); [done|done| |].
    + apply (owns_array_item _ _ size); try done. lia.
    + cbn. pose proof (br_progress _ _ _ _ _ _ Hbr). pose proof (br_left _ _ _ _ _ _ Hbr). lia.
  - intros [[[]|] sub'] s1 Hbr1 _ Hdec; cbn [fst snd] in *; [|by apply wp_ret].
    apply wp_bind. eapply wp_bracket_load; [exact Hbr1|done|]. intros v' _.
    apply wp_bind. eapply wp_bracket_store; [exact Hbr1|done|]. intros s2 Hbr2.
    apply wp_ret. split; [done|]. cbn in Hdec.
    pose proof (g_left _ _ _ _ (br_sub _ _ _ _ _ _ Hbr2)) as Hg. cbn in Hg. lia.
Qed.

Lemma safe_decode_array n f it0 size base wire_type s :
  (n <= fuel)%nat -> item_ok (wf_msg n) f = true -> size < 2 ^ 32 -> owns base size ->
  region_ok (it_pData it0) (pf_data_size f * pf_array_size f) size = true ->
  region_ok (it_pSize it0) 4 size = true -> left s <= Z.of_nat fuel ->
  let it := shift_iter base it0 in
  safe (if (wire_type =? PB_WT_STRING) && (PB_LTYPE (pf_type f) <=? PB_LTYPE_LAST_PACKABLE)
        then
          let! substream := pb_make_string_substream in
          let! r := decode_packed_items fuel noinit it f substream in
          if negb (is_bytes_left (snd r) =? 0) then PB_RETURN_ERROR "array overflow"
          else
            pb_close_string_substream (snd r) ;;;
            if fst r : bool then ret tt else fail
        else
          let! size := load_le sizeof_pb_size_t (it_pSize it) in
          let pItem := it_pData it + u32 (pf_data_size f * size) in
          if pf_array_size f <=? size then PB_RETURN_ERROR "array overflow"
          else
            store_le sizeof_pb_size_t (it_pSize it) (u32 (size + 1)) ;;;
            call_decoder fuel noinit f pItem) s nothing.
Proof.
  intros Hn Hi Hsz O Hd Hc Hleft it.
  assert (owns (it_pSize it0 + base) 4) as Oc by by eapply region_ok_owns.
  destruct (_ && _).
  - apply safe_with_substream. intros sub s1 G Hbr. apply wp_bind.
    eapply wp_mono; [by eapply wp_packed_items| |done]. cbn beta. intros r s2 Hbr2.
    destruct (negb _).
    { eapply wp_err; [apply error_ok|]. etrans; [apply Hbr2|]. apply state_le_error. }
    apply wp_bind. eapply wp_mono; [by eapply wp_close_substream| |done].
    cbn. intros _u s3 [H3 _]. destruct (fst r); [by apply wp_ret|by apply wp_fail].
  - eapply safe_bind.
    + apply (safe_load_le _ _ _ _ _ _ (fun v s' => 0 <= v /\ left s' = left s)); [done|]. lia.
    + cbn beta zeta. intros v s1 _ _ [Hv Hl].
      destruct (Z.leb_spec (pf_array_size f) v); [apply safe_error|].
      eapply safe_bind; [by apply (safe_store_le _ _ _ _ _ _ _ (fun _ s' => left s' = left s1))|].
      cbn beta. intros _u s2 _ _ Hl2. eapply safe_mono.
      * apply (safe_call_decoder n); [done|done| |lia].
        apply (owns_array_item _ _ size); try done. unfold item_ok in Hi. by zbool.
      * done.
Qed.

Lemma safe_decode_oneof n f it0 size base s :
  (n <= fuel)%nat -> item_ok (wf_msg n) f = true -> owns base size ->
  region_ok (it_pData it0) (pf_data_size f) size = true ->
  region_ok (it_pSize it0) 4 size = true -> left s <= Z.of_nat fuel ->
  let it := shift_iter base it0 in
  safe (store_le sizeof_pb_size_t (it_pSize it) (pf_tag f) ;;;
        (if PB_LTYPE (pf_type f) =? PB_LTYPE_SUBMESSAGE then
           memset (it_pData it) 0 (pf_data_size f) ;;;
           let! submsg_fields := or_ub (descriptors_at (pf_ptr f)) in
           pb_message_set_to_defaults fuel submsg_fields (it_pData it)
         else ret tt) ;;;
        call_decoder fuel noinit f (it_pData it)) s nothing.
Proof.
  intros Hn Hi O Hd Hc Hleft it.
  assert (owns (it_pData it) (pf_data_size f)) as Od by by eapply region_ok_owns.
  eapply safe_bind.
  { apply (safe_store_le _ _ _ _ _ _ _ (fun _ s' => left s' = left s)); [|done].
    by apply (region_ok_owns _ _ _ _ _ Hc). }
  cbn beta. intros _u s1 _ _ Hl1. eapply safe_bind with (Q' := nothing).
  - pose proof Hi as Hsub. unfold item_ok in Hsub. apply andb_prop in Hsub as [Hp Hsub]. zbool.
    destruct (_ =? PB_LTYPE_SUBMESSAGE); [|by apply safe_ret].
    destruct (descriptors_at (pf_ptr f)) as [fields|]; [|done].
    eapply safe_bind; [by apply (safe_memset _ _ _ _ _ _ _ nothing)|].
    intros _v s2 _ _ _. eapply safe_bind_pure; [done|]. by eapply safe_set_to_defaults.
  - intros _v s2 _ Hle _. destruct (sl_left _ _ _ Hle). eapply safe_mono.
    + apply (safe_call_decoder n); [done|done|done|lia].
    + done.
Qed.

Lemma safe_decode_static_field n f it size base wire_type s :
  (n <= fuel)%nat -> size < 2 ^ 32 -> owns base size ->
  located clo chi (wf_msg n) size base it f ->
  PB_ATYPE (pf_type f) = PB_ATYPE_STATIC -> left s <= Z.of_nat fuel ->
  safe (decode_static_field fuel noinit wire_type it) s nothing.
Proof.
  intros Hn Hsz O [Hf (it0 & -> & Hok)] Hat Hleft.
  unfold field_ok in Hok. cbn [fst snd] in Hok. apply andb_prop in Hok as [_ Hok].
  rewrite Hat in Hok. cbn in Hok. apply andb_prop in Hok as [Hi Hok].
  unfold decode_static_field. eapply safe_bind_pure; [by rewrite Hf|]. cbv zeta.
  assert (is_Some (PB_DECODERS fuel noinit !! Z.to_nat (PB_LTYPE (pf_type f)))) as [fn Hfn].
  { apply lookup_lt_is_Some. cbn. unfold item_ok, PB_LTYPES_COUNT in Hi. zbool. lia. }
  eapply safe_bind_pure; [by rewrite Hfn|].
  assert (forall s1, left s1 <= Z.of_nat fuel ->
            owns (it_pData it0 + base) (pf_data_size f) ->
            safe (call_decoder fuel noinit f (it_pData it0 + base)) s1 nothing) as Hcall.
  { intros s1 Hl1 Od. eapply safe_mono; [by apply (safe_call_decoder n)|done]. }
  destruct (PB_HTYPE_cases (pf_type f)) as [E|[E|[E|E]]]; rewrite E in *; cbn in Hok |- *; zbool.
  - apply Hcall; [done|]. by eapply region_ok_owns.
  - eapply safe_bind with (Q' := fun _ s' => left s' = left s).
    + destruct (Z.eqb_spec (it_pSize it0 + base) (it_pData it0 + base)) as [|Hne];
        cbn [negb]; [by apply safe_ret|].
      destruct (Z.eqb_spec (it_pSize it0) (it_pData it0)); [lia|].
      cbn [orb] in *. apply safe_store_bool; [|done]. by eapply region_ok_owns.
    + cbn beta. intros _u s1 _ _ Hl. apply Hcall; [lia|]. by eapply region_ok_owns.
  - apply (safe_decode_array n f it0 size base wire_type s); try done.
  - by apply (safe_decode_oneof n f it0 size base s).
Qed.

(** ** Callback fields *)

(** A stream of its own: the stream of the caller is not touched. *)
Lemma safe_on_separate {A} sub (m : M dstate A) s Q :
  good W clo chi (mk_dstate sub (ds_mem s)) ->
  safe m (mk_dstate sub (ds_mem s)) Q ->
  safe (on_substream sub m) s (fun _ s' => left s' = left s).
Proof.
  intros Gs Hm G. specialize (Hm Gs). unfold wp, on_substream in *.
  destruct (m (mk_dstate sub (ds_mem s))) as [a s'|s'| |]; try done.
  - destruct Hm as [[M _ _ _ _] _]. split; [by apply state_le_mem|done].
  - destruct Hm as [M _ _ _ _]. split; [by apply state_le_mem|done].
Qed.

(** The storage of a local array is fresh and goes away at the end. *)
Lemma mem_step_local m l m' :
  mem_step W (mem_alloc m (mem_fresh m) l) m' ->
  mem_bytes (mem_alloc m (mem_fresh m) l) ->
  mem_step W m (mem_free m' (mem_fresh m) (length l)).
Proof.
  intros [Hs Hb] Ha. split.
  - intros x v Hx. pose proof (mem_fresh_spec m x ltac:(by rewrite Hx)).
    destruct (Hs x v) as [Hi Hn].
    { rewrite mem_alloc_lookup, decide_False by lia. done. }
    rewrite mem_free_lookup, decide_False by lia. done.
  - intros _ x b. rewrite mem_free_lookup. case_decide; [done|]. by apply Hb.
Qed.

Lemma good_local s l :
  good W clo chi s -> Forall is_byte l ->
  let m := mem_alloc (ds_mem s) (mem_fresh (ds_mem s)) l in
  mem_step W (ds_mem s) m /\ good W clo chi (mk_dstate (ds_in s) m) /\
  mapped m (mem_fresh (ds_mem s)) (mem_fresh (ds_mem s) + Z.of_nat (length l)).
Proof.
  intros G Hl m. assert (mem_step W (ds_mem s) m) as Hm.
  { split.
    - intros x v Hx. pose proof (mem_fresh_spec (ds_mem s) x ltac:(by rewrite Hx)).
      unfold m. rewrite mem_alloc_lookup, decide_False by lia. rewrite Hx. split; [by eexists|done].
    - intros Hb x b. unfold m. rewrite mem_alloc_lookup. case_decide; [|by apply Hb].
      intros Hx. by eapply Forall_lookup_1. }
  split; [done|]. split; [eapply good_le; [exact G|]; by apply state_le_mem|].
  intros x Hx. unfold m. rewrite mem_alloc_lookup, decide_True by lia.
  apply lookup_lt_is_Some. lia.
Qed.

Lemma safe_with_local_array {A} l (k : Z -> M dstate A) s :
  Forall is_byte l ->
  (forall a m, good W clo chi (mk_dstate (ds_in s) m) -> mapped m a (a + Z.of_nat (length l)) ->
     safe (k a) (mk_dstate (ds_in s) m) nothing) ->
  safe (with_local_array l k) s nothing.
Proof.
  intros Hl Hk G. unfold with_local_array.
  destruct (good_local s l G Hl) as (Hm & G' & Hmap).
  specialize (Hk _ _ G' Hmap G'). unfold wp in *. rewrite bind_gets, bind_modify.
  unfold bind, attempt. cbn [ds_in ds_mem].
  assert (forall s', state_le W (mk_dstate (ds_in s)
              (mem_alloc (ds_mem s) (mem_fresh (ds_mem s)) l)) s' ->
            state_le W s (mk_dstate (ds_in s')
              (mem_free (ds_mem s') (mem_fresh (ds_mem s)) (length l)))) as Hfree.
  { intros s' [M C S L E]. split; try done. apply mem_step_local; [done|]. apply G'. }
  destruct (k _ _) as [a s'|s'| |]; cbn; try done.
  - destruct Hk as [Hle _]. split; [by apply Hfree|done].
  - by apply Hfree.
Qed.

Lemma safe_read_raw_value wire_type n s (Q : list Z -> dstate -> Prop) :
  (forall l s', Forall is_byte l -> Z.of_nat (length l) < 2 ^ 32 -> Q l s') ->
  0 <= n < 2 ^ 31 -> safe (read_raw_value wire_type n) s Q.
Proof.
  intros HQ Hn. unfold read_raw_value.
  assert (forall k : nat, Z.of_nat k < 2 ^ 32 -> safe (pb_read RLocal (Z.of_nat k)) s Q) as Hfix.
  { intros k Hk. apply safe_read_local. intros l s' Hl Hb _. apply HQ; [done|lia]. }
  destruct (wire_type =? PB_WT_VARINT).
  2:{ destruct (wire_type =? PB_WT_64BIT); [by apply (Hfix 8%nat)|].
      destruct (wire_type =? PB_WT_32BIT); [by apply (Hfix 4%nat)|apply safe_error]. }
  apply (safe_loop _ _ _
    (fun v _ => fst v = Z.of_nat (length (snd v)) /\ Forall is_byte (snd v) /\ fst v <= n)
    (fun v _ => Z.to_nat (n - fst v))); [|cbn; split; [done|split; [constructor|lia]]|cbn; lia].
  intros [size buf] s1 _ _ (Hsz & Hb & Hle). cbn [fst snd] in *. cbv zeta.
  pose proof size_bits_bound. rewrite (usize_small (size + 1)) by lia.
  destruct (Z.ltb_spec n (size + 1)); [apply safe_fail|].
  eapply safe_bind.
  - apply (safe_read_local _ _ _ 1 s1 (fun l _ => length l = 1%nat /\ Forall is_byte l)). auto.
  - cbn beta. intros l s2 _ _ [Hl Hbl]. destruct l as [|b [|]]; try done.
    apply Forall_cons_1 in Hbl as [Hbb _].
    assert (Forall is_byte (buf ++ [b])) by (apply Forall_app; split; [done|by constructor]).
    eapply safe_bind_pure; [done|]. destruct (_ =? 0); apply safe_ret.
    + apply HQ; [done|]. rewrite length_app. cbn. lia.
    + cbn [fst snd]. rewrite length_app. cbn [length]. split; [|lia]. split; [lia|]. split; [done|lia].
Qed.

Lemma safe_decode_callback_field size base wire_type it f s :
  owns base size -> iter_field (St := dstate) it = (fun s => Ok f s) ->
  (exists it0, it = shift_iter base it0 /\ region_ok (it_pData it0) sizeof_callback size = true) ->
  left s <= Z.of_nat fuel ->
  safe (decode_callback_field fuel wire_type it) s nothing.
Proof.
  intros O Hf (it0 & -> & Hr) Hleft. unfold decode_callback_field.
  eapply safe_bind_pure; [by rewrite Hf|]. cbv zeta. cbn [shift_iter it_pData].
  assert (owns (it_pData it0 + base) (Z.of_nat (Z.to_nat ptr_size))) as Oc.
  { eapply owns_sub; [by eapply region_ok_owns|lia|]. unfold sizeof_callback.
    destruct ptr_size_cases as [-> | ->]; cbn; lia. }
  unfold callback_funcs, load_ptr.
  eapply safe_bind; [apply (safe_load_le _ _ _ _ _ _ (fun _ s' => left s' = left s)); done|].
  cbn beta. intros fn s1 _ _ Hl1. destruct (fn =? 0); [by apply safe_skip_field|].
  destruct (wire_type =? PB_WT_STRING).
  - apply safe_with_substream. intros sub s2 G Hbr. apply wp_bind.
    eapply wp_mono; [|intros sub' s3 H3; eapply wp_mono;
                      [eapply wp_close_substream; [exact H3|done]|intros ?? [??]; done|done]|done].
    apply (wp_loop (fun sub s => bracket s1 sub s) (fun sub _ => Z.to_nat (is_bytes_left sub)));
      [|done|].
    2:{ pose proof (br_progress _ _ _ _ _ _ Hbr). pose proof (br_left _ _ _ _ _ _ Hbr). lia. }
    clear sub s2 Hbr. intros sub s2 Hbr. apply wp_bind.
    eapply wp_bracket_load; [exact Hbr|done|]. intros fn' _. apply wp_bind.
    eapply wp_on_substream; [exact Hbr|apply safe_user_decode|].
    intros [[[]|] sub'] s3 Hbr3 _ Hdec; cbn [fst snd] in *.
    + pose proof (g_left _ _ _ _ (br_sub _ _ _ _ _ _ Hbr3)) as Hg. cbn in Hg, Hdec.
      destruct (Z.eqb_spec (is_bytes_left sub') 0); apply wp_ret; [done|]. split; [done|]. lia.
    + eapply wp_err; [apply error_ok|]. etrans; [apply Hbr3|]. apply state_le_error.
  - eapply safe_bind.
    + apply (safe_read_raw_value wire_type 10 s1
               (fun l _ => Forall is_byte l /\ Z.of_nat (length l) < 2 ^ 32)); [done|lia].
    + cbn beta. intros l s2 _ _ [Hb Hlen]. apply safe_with_local_array; [done|].
      intros a m G Hm.
      eapply safe_bind; [apply (safe_load_le _ _ _ _ _ _ nothing); done|].
      cbn beta. intros fn' s3 G3 Hle3 _. eapply safe_bind.
      * eapply safe_on_separate; [|apply safe_user_decode].
        pose proof size_bits_bound. destruct G3 as [C L I B HW K].
        split; cbn; try done; [lia|]. eapply mem_step_mapped; [apply Hle3|done].
      * cbn beta. intros r s4 _ _ _. destruct (fst r); [by apply safe_ret|apply safe_fail].
Qed.

(** ** Any field *)

Lemma safe_decode_field n f it size base wire_type s :
  (n <= fuel)%nat -> size < 2 ^ 32 -> owns base size ->
  located clo chi (wf_msg n) size base it f -> left s <= Z.of_nat fuel ->
  safe (decode_field fuel noinit wire_type it) s nothing.
Proof.
  intros Hn Hsz O Hloc Hleft. pose proof Hloc as [Hf (it0 & Hit & Hok)].
  unfold decode_field. eapply safe_bind_pure; [by rewrite Hf|]. cbv zeta.
  unfold field_ok in Hok. apply andb_prop in Hok as [_ Hok]. cbn [fst snd] in Hok.
  destruct (Z.eqb_spec (PB_ATYPE (pf_type f)) PB_ATYPE_STATIC).
  { by eapply safe_decode_static_field. }
  destruct (PB_ATYPE (pf_type f) =? PB_ATYPE_POINTER); [apply safe_error|].
  destruct (PB_ATYPE (pf_type f) =? PB_ATYPE_CALLBACK); [|apply safe_error].
  eapply safe_decode_callback_field; [done|done|by exists it0|done].
Qed.

End field_safe.
