(* ===== verification/Required.v ===== *)
(** * Required fields

    Where the iterator stands while a message is decoded, the numbering of the
    required fields and the test that all of them have been seen. *)

From Stdlib Require Import ZArith Lia.
From stdpp Require Import base option list strings gmap.
From S2P Require Import Prelude Memory Descr Decode Wire Input Layout.

(** ** The iterator while a message is decoded *)

Section cursor.
Context {PL : Platform}.

(** On a field, or on the terminator of a message without fields. *)
Inductive cursor (fields : list pb_field_t) (base : Z) : pb_field_iter_t -> Prop :=
  | cursor_at i p :
      positions fields base !! i = Some p -> cursor fields base (fst p)
  | cursor_empty :
      fields = [PB_LAST_FIELD] -> cursor fields base (first_position fields PB_LAST_FIELD base).

(** The first entry is the terminator only in an array without fields. *)
Lemma first_cursor fields base :
  terminated fields = true -> last fields = Some PB_LAST_FIELD ->
  exists f, fields !! 0%nat = Some f /\ cursor fields base (first_position fields f base).
Proof.
  intros Ht Hl. destruct fields as [|f rest]; [done|]. exists f. split; [done|].
  destruct (decide (pf_tag f = 0)) as [Hz|Hz].
  - destruct rest as [|g rest].
    + cbn in Hl. injection Hl as ->. by apply cursor_empty.
    + unfold terminated in Ht. rewrite Hl in Ht. apply andb_prop in Ht as [_ Ht].
      cbn in Ht. by rewrite Hz in Ht.
  - apply (cursor_at _ _ 0 (first_position (f :: rest) f base, f)). by apply positions_nonempty.
Qed.

Lemma empty_search {St} found base (s : St) :
  let it := first_position [PB_LAST_FIELD] PB_LAST_FIELD base in
  iter_search found it s = Ok (it, found PB_LAST_FIELD) s.
Proof. unfold iter_search. cbn. unfold bind. cbn. by destruct (found PB_LAST_FIELD). Qed.

(** A search keeps the cursor in the array; a hit satisfies the test. *)
Lemma cursor_search {St} found fields base it (s : St) :
  terminated fields = true -> cursor fields base it ->
  exists it' b, iter_search found it s = Ok (it', b) s /\ cursor fields base it' /\
    if b : bool then
      (exists i p, positions fields base !! i = Some p /\ it' = fst p /\ found (snd p) = true) \/
      (fields = [PB_LAST_FIELD] /\ it' = it /\ found PB_LAST_FIELD = true)
    else it' = it /\ forall p, p ∈ positions fields base -> found (snd p) = false.
Proof.
  intros Ht [i p Hp | ->].
  - rewrite (iter_search_eq found fields base Ht i p s Hp).
    destruct (List.find _ _) as [q|] eqn:E.
    + apply List.find_some in E as [Hin Hq]. exists (fst q), true. split; [done|].
      assert (q ∈ positions fields base) as [j Hj]%list_elem_of_lookup.
      { apply list_elem_of_In in Hin. unfold search_order in Hin.
        apply elem_of_app in Hin. rewrite <- (take_drop i (positions fields base)).
        apply elem_of_app. tauto. }
      split; [by eapply cursor_at|]. left. by exists j, q.
    + exists (fst p), false. split; [done|]. split; [by eapply cursor_at|]. split; [done|].
      intros q Hq. apply (List.find_none _ _ E). apply list_elem_of_In.
      unfold search_order. rewrite <- (take_drop i (positions fields base)) in Hq.
      apply elem_of_app in Hq. apply elem_of_app. tauto.
  - exists (first_position [PB_LAST_FIELD] PB_LAST_FIELD base), (found PB_LAST_FIELD).
    split; [apply empty_search|]. split; [by apply cursor_empty|].
    destruct (found PB_LAST_FIELD); [by right|]. split; [done|].
    intros q Hq. by apply elem_of_nil in Hq.
Qed.

(** ** The number of required fields *)

Lemma required_index fields base i p :
  positions fields base !! i = Some p ->
  it_required_field_index (fst p) = u32 (required_count (take i (positions fields base))).
Proof.
  revert p. induction i as [|i IH]; intros p Hp.
  - unfold positions in Hp. destruct fields as [|f rest]; [done|].
    destruct (pf_tag f =? 0); [done|]. destruct rest; by injection Hp as <-.
  - destruct (lookup_lt_is_Some_2 (positions fields base) i) as [q Hq].
    { apply lookup_lt_Some in Hp. lia. }
    pose proof (positions_lookup _ _ _ _ Hq) as (_ & _ & _ & _ & _ & H). rewrite Hp in H.
    destruct H as (-> & _ & _). rewrite (take_S_r _ _ _ Hq). specialize (IH _ Hq).
    unfold required_count in *. rewrite List.filter_app, length_app. cbn [List.filter].
    unfold next_position. destruct (same_union (snd q) (snd p)) eqn:Hu.
    + assert (is_required (snd q) = false) as ->.
      { unfold same_union in Hu. unfold is_required.
        apply andb_prop in Hu as [Hu _]. apply andb_prop in Hu as [Hu _].
        apply Z.eqb_eq in Hu. by rewrite Hu. }
      cbn. by rewrite IH, Nat.add_0_r.
    + cbn [it_required_field_index]. rewrite IH.
      destruct (is_required (snd q)); cbn [length]; [|by rewrite Nat.add_0_r].
      unfold uwrap. rewrite Zplus_mod_idemp_l. f_equal. lia.
Qed.

(** ** The last field *)

Lemma seek_last_field_from fields base q0 qn fuel i p (s : dstate) :
  terminated fields = true ->
  positions fields base !! 0%nat = Some q0 -> last (positions fields base) = Some qn ->
  positions fields base !! i = Some p -> (length (positions fields base) - i < fuel)%nat ->
  loop fuel (fun it =>
    let! f := iter_field it in
    let! r := pb_field_iter_next it in
    if snd r then ret (inl (fst r))
    else ret (inr (it_required_field_index it, pf_type f, fst r))) (fst p) s
  = Ok (it_required_field_index (fst qn), pf_type (snd qn), fst q0) s.
Proof.
  intros Ht H0 Hn. revert i p. induction fuel as [|fuel IH]; intros i p Hp Hf; [lia|].
  apply lookup_lt_Some in Hp as Hlt. rewrite loop_S. unfold bind.
  rewrite (iter_field_eq _ _ _ _ s Hp), (pb_field_iter_next_eq _ _ _ _ s Ht Hp).
  destruct (positions fields base !! S i) as [q|] eqn:Eq.
  - cbn. apply (IH (S i)); [done|lia].
  - rewrite H0. cbn. apply lookup_ge_None in Eq.
    rewrite last_lookup in Hn. replace (pred (length (positions fields base))) with i in Hn by lia.
    rewrite Hn in Hp. by injection Hp as <-.
Qed.

Lemma seek_last_field_eq fields base q0 qn i p (s : dstate) :
  terminated fields = true ->
  positions fields base !! 0%nat = Some q0 -> last (positions fields base) = Some qn ->
  positions fields base !! i = Some p ->
  seek_last_field (fst p) s = Ok (it_required_field_index (fst qn), pf_type (snd qn), fst q0) s.
Proof.
  intros Ht H0 Hn Hp. unfold seek_last_field.
  destruct (positions_lookup _ _ _ _ Hp) as (_ & _ & H3 & _). rewrite H3.
  pose proof (positions_length fields base).
  eapply seek_last_field_from; [done..|lia].
Qed.

(** [check_required_fields] tests the bits of all the required fields. *)
Lemma check_required_fields_eq fields base it seen (s : dstate) :
  terminated fields = true -> cursor fields base it ->
  required_count (positions fields base) < 2 ^ 32 ->
  check_required_fields it seen s = check_seen (required_count (positions fields base)) seen s.
Proof.
  intros Ht Hc Hlt. unfold check_required_fields. destruct Hc as [i p Hp | ->].
  2:{ reflexivity. }
  destruct (positions fields base !! 0%nat) as [q0|] eqn:E0.
  2:{ apply lookup_ge_None in E0. apply lookup_lt_Some in Hp. lia. }
  destruct (last (positions fields base)) as [qn|] eqn:En.
  2:{ apply last_None in En. by rewrite En in E0. }
  rewrite (bind_ok _ _ _ _ _ (seek_last_field_eq _ _ _ _ _ _ s Ht E0 En Hp)).
  rewrite (bind_ok _ _ _ _ _ (iter_field_eq _ _ _ _ s E0)).
  apply positions_lookup in E0 as (_ & _ & _ & _ & Htag & _).
  destruct (Z.eqb_spec (pf_tag (snd q0)) 0); [done|]. rewrite andb_true_r.
  f_equal. rewrite last_lookup in En.
  rewrite (required_index _ _ _ _ En).
  apply lookup_lt_Some in En as Hlen.
  assert (required_count (positions fields base) =
          required_count (take (pred (length (positions fields base))) (positions fields base)) +
          (if is_required (snd qn) then 1 else 0)) as Hcount.
  { rewrite <- (take_drop (pred (length (positions fields base))) (positions fields base)) at 1.
    rewrite (drop_S _ _ _ En), (drop_ge _ (S _)) by lia.
    unfold required_count. rewrite List.filter_app, length_app. cbn.
    destruct (is_required (snd qn)); cbn; lia. }
  assert (0 <= required_count (take (pred (length (positions fields base)))
            (positions fields base))) by (unfold required_count; lia).
  change (PB_HTYPE (pf_type (snd qn)) =? PB_HTYPE_REQUIRED) with (is_required (snd qn)).
  destruct (is_required (snd qn)); rewrite Hcount in *; rewrite !uwrap_small; try lia.
  rewrite uwrap_small; lia.
Qed.

(** ** The set of fields seen *)

(** The array [fields_seen] that represents a set of indices, as bits. *)
Definition seen_words (bits : Z) : list Z := [bits mod 2 ^ 32; bits / 2 ^ 32].

Lemma seen_words_0 : seen_words 0 = [0; 0].
Proof. done. Qed.

Lemma shr32_allbits k (s : dstate) :
  1 <= k < 32 -> shr32 allbits (32 - k) s = Ok (2 ^ k - 1) s.
Proof.
  intros Hk. unfold shr32.
  destruct (Z.leb_spec 0 (32 - k)), (Z.ltb_spec (32 - k) 32); try lia. cbn [andb].
  unfold ret. f_equal. rewrite Z.shiftr_div_pow2 by lia.
  assert (2 ^ 32 = 2 ^ k * 2 ^ (32 - k)) as E by (rewrite <- Z.pow_add_r by lia; f_equal; lia).
  assert (0 < 2 ^ (32 - k)) by (apply Z.pow_pos_nonneg; lia).
  symmetry. apply Z.div_unique with (2 ^ (32 - k) - 1); unfold allbits; [lia|]. rewrite E. lia.
Qed.

(** The test succeeds exactly when every bit is set, for the counts at which it
    is defined. *)
Lemma check_seen_eq c bits (s : dstate) :
  0 <= c < 64 -> c = 0 \/ c mod 32 <> 0 -> 0 <= bits < 2 ^ c ->
  check_seen c (seen_words bits) s =
  if bits =? 2 ^ c - 1 then Ok tt s else Err (with_error "missing required field" s).
Proof.
  intros Hc Hm Hb. unfold check_seen. destruct (Z.ltb_spec 0 c).
  2:{ replace c with 0 in * by lia. by replace bits with 0 by (cbn in Hb; lia). }
  rewrite !Z.shiftr_div_pow2 by lia. change (2 ^ 5) with 32.
  change 31 with (Z.ones 5). rewrite Z.land_ones by lia. change (2 ^ 5) with 32.
  destruct (Z_lt_ge_dec c 32) as [Hlt|Hge].
  - rewrite (Z.div_small c), (Z.mod_small c) by lia. cbn [Z.to_nat].
    rewrite (bind_ok _ _ _ tt s) by done.
    assert (bits < 2 ^ 32).
    { enough (2 ^ c <= 2 ^ 32) by lia. apply Z.pow_le_mono_r; lia. }
    change (seen_words bits !! Z.to_nat 0) with (Some (bits mod 2 ^ 32)). cbn [or_ub].
    rewrite Z.mod_small, bind_ret, (bind_ok _ _ _ _ _ (shr32_allbits c s ltac:(lia))) by lia.
    by destruct (bits =? 2 ^ c - 1).
  - assert (c <> 32) by (intros ->; destruct Hm as [|Hm]; [done|by apply Hm]).
    assert (c / 32 = 1) as -> by (symmetry; apply Z.div_unique with (c - 32); lia).
    assert (c mod 32 = c - 32) as -> by (symmetry; apply Z.mod_unique with 1; lia).
    assert (2 ^ c = 2 ^ 32 * 2 ^ (c - 32)) as Ec by (rewrite <- Z.pow_add_r by lia; f_equal; lia).
    pose proof (Z.div_mod bits (2 ^ 32) ltac:(lia)) as Hd.
    pose proof (Z.mod_pos_bound bits (2 ^ 32) ltac:(lia)).
    change (Z.to_nat 1) with 1%nat.
    change (seen_words bits !! 1%nat) with (Some (bits / 2 ^ 32)).
    unfold seen_words. set (w0 := bits mod 2 ^ 32) in *. cbn [or_ub].
    assert (0 <= bits / 2 ^ 32 < 2 ^ (c - 32)).
    { split; [apply Z.div_pos; lia|apply Z.div_lt_upper_bound; lia]. }
    destruct (Z.eqb_spec w0 allbits) as [Ea|Ea].
    + rewrite (bind_ok _ _ _ tt s) by by rewrite Ea. rewrite bind_ret.
      rewrite (bind_ok _ _ _ _ _ (shr32_allbits (c - 32) s
        ltac:(lia))).
      unfold allbits in Ea.
      destruct (Z.eqb_spec (bits / 2 ^ 32) (2 ^ (c - 32) - 1)), (Z.eqb_spec bits (2 ^ c - 1));
        try done; lia.
    + rewrite (bind_err _ _ _ (with_error "missing required field" s)).
      2:{ apply Z.eqb_neq in Ea. rewrite loop_S. apply bind_err.
          change (0 <? 1) with true. cbv iota. change ([w0; bits / 2 ^ 32] !! Z.to_nat 0) with (Some w0).
          unfold bind. cbn [or_ub]. unfold ret. by rewrite Ea. }
      unfold allbits in Ea. destruct (Z.eqb_spec bits (2 ^ c - 1)); [|done]. exfalso.
      assert (bits / 2 ^ 32 <= 2 ^ (c - 32) - 1) by lia. nia.
Qed.

Lemma lor_mod_pow2 a b n : 0 <= n -> Z.lor a b mod 2 ^ n = Z.lor (a mod 2 ^ n) (b mod 2 ^ n).
Proof. intros. rewrite <- !Z.land_ones by lia. apply Z.land_lor_distr_l. Qed.

Lemma lor_div_pow2 a b n : 0 <= n -> Z.lor a b / 2 ^ n = Z.lor (a / 2 ^ n) (b / 2 ^ n).
Proof. intros. rewrite <- !Z.shiftr_div_pow2 by lia. apply Z.shiftr_lor. Qed.

(** Marking a field adds its index to the set. *)
Lemma mark_required_eq f index bits (s : dstate) :
  0 <= index ->
  mark_required f index (seen_words bits) s =
  Ok (seen_words (if is_required f && (index <? PB_MAX_REQUIRED_FIELDS)
                  then Z.lor bits (2 ^ index) else bits)) s.
Proof.
  intros Hi. unfold mark_required.
  change (PB_HTYPE (pf_type f) =? PB_HTYPE_REQUIRED) with (is_required f).
  destruct (is_required f); [|done]. cbn [andb].
  destruct (Z.ltb_spec index PB_MAX_REQUIRED_FIELDS) as [Hlt|]; [|done].
  unfold PB_MAX_REQUIRED_FIELDS in Hlt. cbv zeta.
  rewrite Z.shiftr_div_pow2, Z.shiftl_mul_pow2, Z.mul_1_l; [|apply Z.land_nonneg; lia|lia].
  change 31 with (Z.ones 5). rewrite Z.land_ones by lia. change (2 ^ 5) with 32.
  unfold seen_words. rewrite lor_mod_pow2, lor_div_pow2 by lia.
  destruct (Z_lt_ge_dec index 32).
  - rewrite (Z.div_small index), (Z.mod_small index) by lia.
    assert (0 < 2 ^ index < 2 ^ 32).
    { split; [apply Z.pow_pos_nonneg; lia|apply Z.pow_lt_mono_r; lia]. }
    rewrite (Z.mod_small (2 ^ index)), (Z.div_small (2 ^ index)), Z.lor_0_r by lia. done.
  - assert (index / 32 = 1) as -> by (symmetry; apply Z.div_unique with (index - 32); lia).
    assert (index mod 32 = index - 32) as -> by (symmetry; apply Z.mod_unique with 1; lia).
    assert (2 ^ index = 2 ^ (index - 32) * 2 ^ 32) as ->
      by (rewrite <- Z.pow_add_r by lia; f_equal; lia).
    rewrite Z.mod_mul, Z.div_mul, Z.lor_0_r by lia. done.
Qed.

(** ** Counts at which the test is not defined *)

Lemma check_seen_32 (s : dstate) : check_seen 32 (seen_words (2 ^ 32 - 1)) s = Ub.
Proof. reflexivity. Qed.

Lemma check_seen_64 (s : dstate) : check_seen 64 (seen_words (2 ^ 64 - 1)) s = Ub.
Proof. reflexivity. Qed.

(** Whatever the bits, the test can only succeed at a count at which it is defined. *)
Lemma check_seen_defined c bits (s s' : dstate) :
  0 <= c -> check_seen c (seen_words bits) s = Ok tt s' -> c < 64 /\ (c = 0 \/ c mod 32 <> 0).
Proof.
  intros Hc. unfold check_seen. destruct (Z.ltb_spec 0 c) as [Hpos|]; [|split; [lia|left; lia]].
  rewrite !Z.shiftr_div_pow2 by lia. change (2 ^ 5) with 32. change 31 with (Z.ones 5). rewrite Z.land_ones by lia.
  change (2 ^ 5) with 32. intros (u & s1 & _ & H)%bind_ok_inv. apply bind_ok_inv in H as (w & s2 & Hw & H).
  apply bind_ok_inv in H as (mask & s3 & Hmask & _).
  assert (0 <= c / 32) by (apply Z.div_pos; lia). pose proof (Z.div_mod c 32 ltac:(lia)). pose proof (Z.mod_pos_bound c 32 ltac:(lia)).
  destruct (seen_words bits !! Z.to_nat (c / 32)) as [w'|] eqn:E; [|done].
  apply lookup_lt_Some in E. unfold seen_words in E. cbn [length] in E. split; [lia|]. right. intros Hm.
  unfold shr32 in Hmask. rewrite Hm in Hmask. by destruct (Z.ltb_spec (32 - 0) 32); [lia|rewrite andb_false_r in Hmask].
Qed.

(** ** The rounds of the message loop *)

Section rounds.
Context {UR : UserRead} {UD : UserDecode} {DS : Descriptors}.
Context (fuel : nat) (noinit : list pb_field_t -> Z -> M dstate unit).
Context (fields : list pb_field_t) (base : Z) (Ht : terminated fields = true).

Abbreviation ps := (positions fields base).

(** One round that goes on. *)
Definition round (c c' : decode_vars * dstate) : Prop :=
  decode_step fuel noinit (fst c) (snd c) = Ok (inl (fst c')) (snd c').

(** The rounds from [c0] on include one in which the tag of the field [p] was read
    and the field was decoded. *)
Definition decoded_in (c0 : decode_vars * dstate) (p : pb_field_iter_t * pb_field_t) : Prop :=
  exists c1 t s1 s2,
    rtc round c0 c1 /\ pb_decode_tag (snd c1) = Ok t s1 /\
    dt_ok t = true /\ dt_tag t = pf_tag (snd p) /\
    decode_field fuel noinit (dt_wire_type t) (fst p) s1 = Ok tt s2.

(** What is known of the bits that are set. *)
Definition seen_inv (c0 : decode_vars * dstate) (v : decode_vars) : Prop :=
  cursor fields base (dv_iter v) /\
  exists bits, dv_fields_seen v = seen_words bits /\ 0 <= bits /\
    forall i, Z.testbit bits i = true ->
      (exists k p, ps !! k = Some p /\ is_required (snd p) = true /\
                   i = it_required_field_index (fst p) /\ decoded_in c0 p) \/
      (i = 0 /\ fields = [PB_LAST_FIELD]).

Lemma unknown_field_cursor tag wt it r s u s' :
  cursor fields base it ->
  decode_unknown_field fuel noinit tag wt it r s = Ok u s' -> cursor fields base (fst u).
Proof.
  intros Hc. unfold decode_unknown_field.
  assert (forall (it1 : pb_field_iter_t) (r1 : Z) s1,
    cursor fields base it1 -> (pb_skip_field wt ;;; ret (it1, r1)) s1 = Ok u s' ->
    cursor fields base (fst u)) as Hskip.
  { intros it1 r1 s1 Hc1 (a & s2 & _ & H)%bind_ok_inv. by injection H as <- _. }
  destruct (r <=? tag); [|by apply Hskip].
  destruct (cursor_search (fun f => PB_LTYPE (pf_type f) =? PB_LTYPE_EXTENSION) _ _ _ s Ht Hc)
    as (it' & b & Hs & Hc' & _).
  rewrite (bind_ok _ _ _ _ _ Hs). cbn [fst snd].
  intros (range & s1 & _ & H)%bind_ok_inv.
  destruct (range <=? tag); [|by eapply Hskip].
  apply bind_ok_inv in H as (pos & s2 & _ & H). apply bind_ok_inv in H as (x & s3 & _ & H).
  apply bind_ok_inv in H as (left & s4 & _ & H).
  destruct (negb _); [by injection H as <- _|by eapply Hskip].
Qed.

(** A round keeps the invariant: a bit is set when its field is decoded. *)
Lemma round_inv c0 c1 c2 :
  rtc round c0 c1 -> round c1 c2 -> seen_inv c0 (fst c1) -> seen_inv c0 (fst c2).
Proof.
  intros Hr Hround (Hc & bits & Hseen & Hpos & Hbits). pose proof Hround as H. unfold round in H.
  unfold decode_step in H. apply bind_ok_inv in H as (bl & s1 & [= <- <-] & H).
  destruct (_ =? 0); [by apply bind_ok_inv in H || done|].
  apply bind_ok_inv in H as (t & s2 & Htag & H).
  destruct (dt_ok t) eqn:Hok; cbn [negb] in H; [|by destruct (dt_eof t)].
  destruct (cursor_search (fun f => (pf_tag f =? dt_tag t) &&
      negb (PB_LTYPE (pf_type f) =? PB_LTYPE_EXTENSION)) _ _ _ s2 Ht Hc)
    as (it & b & Hs & Hc' & Hb).
  unfold pb_field_iter_find in H. rewrite (bind_ok _ _ _ _ _ Hs) in H. cbn [fst snd] in H.
  destruct b; cbn [negb] in H.
  2:{ apply bind_ok_inv in H as (u & s3 & Hu & H). injection H as E _. rewrite <- E.
      split; [by eapply unknown_field_cursor|]. by exists bits. }
  apply bind_ok_inv in H as (f & s3 & Hf & H). apply bind_ok_inv in H as (seen & s4 & Hm & H).
  apply bind_ok_inv in H as (x & s5 & Hd & H). injection H as E _. rewrite <- E.
  split; [done|]. cbn [dv_fields_seen dv_iter].
  destruct Hb as [(k & p & Hp & -> & Hfound) | (Hfields & -> & _)].
  - rewrite (iter_field_eq _ _ _ _ s2 Hp) in Hf. injection Hf as <- <-.
    rewrite Hseen in Hm. pose proof (required_index _ _ _ _ Hp) as Hidx.
    pose proof (uwrap_range 32 (required_count (take k ps)) ltac:(lia)).
    rewrite mark_required_eq in Hm by (rewrite Hidx; lia). injection Hm as <- <-.
    eexists. split; [reflexivity|]. split.
    { destruct (_ && _); [|done]. apply Z.lor_nonneg. split; [done|]. apply Z.pow_nonneg. lia. }
    intros i. destruct (is_required (snd p)) eqn:Hreq;
      cbn [andb]; [|apply Hbits]. destruct (_ <? PB_MAX_REQUIRED_FIELDS); [|apply Hbits].
    rewrite Z.lor_spec. intros [Hi|Hi]%orb_prop; [by apply Hbits|]. left.
    exists k, p. split; [done|]. split; [done|]. split.
    { destruct (Z_lt_ge_dec i 0); [by rewrite Z.testbit_neg_r in Hi by lia|].
      rewrite Z.pow2_bits_eqb in Hi by lia. by apply Z.eqb_eq in Hi. }
    exists c1, t, s2, s5. destruct x. split; [done|]. split; [done|]. split; [done|].
    split; [|done]. apply andb_prop in Hfound as [Hfound _]. apply Z.eqb_eq in Hfound. congruence.
  - destruct Hc as [i p Hp | _]; [by rewrite Hfields in Hp|].
    rewrite Hseen, mark_required_eq in Hm by done. injection Hm as <- _.
    eexists. split; [reflexivity|]. split.
    { destruct (_ && _); [|done]. apply Z.lor_nonneg. split; [done|]. apply Z.pow_nonneg. lia. }
    intros i. cbn [first_position it_required_field_index].
    destruct (_ && _); [|apply Hbits]. rewrite Z.lor_spec.
    intros [Hi|Hi]%orb_prop; [by apply Hbits|]. right. split; [|done].
    destruct (Z_lt_ge_dec i 0); [by rewrite Z.testbit_neg_r in Hi by lia|].
    rewrite Z.pow2_bits_eqb in Hi by lia. by apply Z.eqb_eq in Hi.
Qed.

(** The message loop: what has been seen when it ends. *)
Lemma rounds_inv c0 c :
  rtc round c0 c -> seen_inv c0 (fst c0) -> seen_inv c0 (fst c).
Proof.
  intros Hr H0. revert c Hr. apply (rtc_ind_r (fun c => seen_inv c0 (fst c))); [done|].
  intros c1 c2 Hr Hround IH. by eapply round_inv.
Qed.

Lemma required_before i p :
  ps !! i = Some p -> is_required (snd p) = true ->
  required_count (take i ps) < required_count ps.
Proof.
  intros Hp Hr. rewrite <- (take_drop i ps) at 2.
  rewrite (drop_S _ _ _ Hp). unfold required_count.
  rewrite List.filter_app, length_app. cbn [List.filter]. rewrite Hr. cbn [length]. lia.
Qed.

(** The index of a required field is below their number. *)
Lemma required_index_lt i p :
  required_count ps < 64 -> ps !! i = Some p -> is_required (snd p) = true ->
  0 <= it_required_field_index (fst p) < required_count ps.
Proof.
  intros Hc Hp Hr. rewrite (required_index _ _ _ _ Hp). pose proof (required_before _ _ Hp Hr).
  assert (0 <= required_count (take i ps)) by (unfold required_count; lia).
  rewrite uwrap_small by lia. lia.
Qed.

Lemma bits_below bits c :
  0 <= bits -> 0 <= c -> (forall i, Z.testbit bits i = true -> i < c) -> bits < 2 ^ c.
Proof.
  intros Hb Hc H. assert (bits mod 2 ^ c = bits) as <-.
  { apply Z.bits_inj'. intros i Hi. destruct (Z_lt_ge_dec i c).
    - by apply Z.mod_pow2_bits_low.
    - rewrite Z.mod_pow2_bits_high by lia. symmetry. apply not_true_is_false.
      intros Ht'. specialize (H i Ht'). lia. }
  apply Z.mod_pos_bound, Z.pow_pos_nonneg; lia.
Qed.

(** When all required fields are reported as seen, each has been decoded. *)
Lemma check_required_decoded c0 v s s' k p :
  required_count ps < 2 ^ 32 ->
  seen_inv c0 v -> check_required_fields (dv_iter v) (dv_fields_seen v) s = Ok tt s' ->
  ps !! k = Some p -> is_required (snd p) = true -> decoded_in c0 p.
Proof.
  intros Hc32 (Hcur & bits & Hseen & Hpos & Hbits) Hok Hp Hr.
  assert (0 <= required_count ps) by (unfold required_count; lia).
  rewrite (check_required_fields_eq fields base), Hseen in Hok by (done || lia).
  destruct (check_seen_defined _ _ _ _ ltac:(done) Hok) as [Hc Hm].
  assert (forall i, Z.testbit bits i = true -> i < required_count ps) as Hlt.
  { intros i [(k' & p' & Hp' & Hr' & -> & _) | (-> & Hf)]%Hbits.
    - by eapply (required_index_lt k').
    - by rewrite Hf in Hp. }
  rewrite check_seen_eq in Hok; [|lia|done|split; [done|by apply bits_below]].
  destruct (Z.eqb_spec bits (2 ^ required_count ps - 1)) as [E|]; [|done].
  pose proof (required_index_lt k p ltac:(lia) Hp Hr) as Hidx.
  destruct (Hbits (it_required_field_index (fst p))) as [(k' & p' & Hp' & Hr' & Hi & Hd) | (_ & Hf)].
  - rewrite E, Z.sub_1_r, <- Z.ones_equiv. apply Z.ones_spec_low. lia.
  - assert (p' = p) as <-; [|done].
    enough (k' = k) as ->; [congruence|].
    rewrite (required_index _ _ _ _ Hp'), (required_index _ _ _ _ Hp) in Hi.
    pose proof (required_before _ _ Hp Hr). pose proof (required_before _ _ Hp' Hr').
    assert (forall j, 0 <= required_count (take j ps)) as Hnn by (intros; unfold required_count; lia).
    pose proof (Hnn k). pose proof (Hnn k'). rewrite !uwrap_small in Hi by lia.
    assert (forall a b q, (a < b)%nat -> ps !! a = Some q -> is_required (snd q) = true ->
              required_count (take a ps) < required_count (take b ps)) as Hmono.
    { intros a b q Hab Hq Hrq. unfold required_count.
      rewrite <- (take_drop (S a) (take b ps)), take_take, Nat.min_l by lia.
      rewrite (take_S_r _ _ _ Hq), !List.filter_app, !length_app. cbn [List.filter].
      rewrite Hrq. cbn [length]. lia. }
    destruct (Nat.lt_trichotomy k k') as [Hkk|[->|Hkk]]; [|done|].
    + specialize (Hmono _ _ _ Hkk Hp Hr). lia.
    + specialize (Hmono _ _ _ Hkk Hp' Hr'). lia.
  - by rewrite Hf in Hp.
Qed.

End rounds.

(** A message is accepted only if every required field was decoded. *)
Lemma decode_noinit_required {UR : UserRead} {UD : UserDecode} {DS : Descriptors}
    n fields base s s' k p :
  terminated fields = true -> last fields = Some PB_LAST_FIELD ->
  required_count (positions fields base) < 2 ^ 32 ->
  pb_decode_noinit (S n) fields base s = Ok tt s' ->
  positions fields base !! k = Some p -> is_required (snd p) = true ->
  exists f, fields !! 0%nat = Some f /\
    decoded_in n (pb_decode_noinit n)
      (mk_vars (first_position fields f base) [0; 0] 0, s) p.
Proof.
  intros Ht Hlast Hc Hok Hp Hr.
  destruct (first_cursor fields base Ht Hlast) as (f & Hf & Hcur). exists f. split; [done|].
  cbn [pb_decode_noinit] in Hok.
  rewrite (bind_ok _ _ _ _ _ (pb_field_iter_begin_eq fields base f s Hf)) in Hok. cbn [fst] in Hok.
  apply bind_ok_inv in Hok as (v & s1 & Hloop & Hcheck).
  apply loop_ok_inv in Hloop as ([v1 s2] & Hrtc & Hend). cbn [fst snd] in Hend.
  set (c0 := (mk_vars (first_position fields f base) [0; 0] 0, s)) in *.
  assert (seen_inv n (pb_decode_noinit n) fields base c0 (fst c0)) as H0.
  { split; [done|]. exists 0. split; [done|]. split; [done|]. intros i. by rewrite Z.bits_0. }
  pose proof (rounds_inv n (pb_decode_noinit n) fields base Ht c0 (v1, s2) Hrtc H0) as H1.
  cbn [fst] in H1.
  assert (v = v1) as ->.
  { unfold decode_step in Hend. apply bind_ok_inv in Hend as (bl & s3 & _ & Hend).
    destruct (_ =? 0); [by injection Hend as <- _|].
    apply bind_ok_inv in Hend as (t & s4 & _ & Hend).
    destruct (dt_ok t); cbn [negb] in Hend; [|destruct (dt_eof t); [by injection Hend as <- _|done]].
    apply bind_ok_inv in Hend as (r & s5 & _ & Hend). destruct (negb (snd r)).
    - by apply bind_ok_inv in Hend as (u & s6 & _ & Hend).
    - apply bind_ok_inv in Hend as (g & s6 & _ & Hend).
      apply bind_ok_inv in Hend as (x & s7 & _ & Hend).
      by apply bind_ok_inv in Hend as (y & s8 & _ & Hend). }
  by eapply (check_required_decoded n (pb_decode_noinit n) fields base Ht c0 v1).
Qed.

End cursor.
