(* ===== verification/Examples.v ===== *)
(** * A message, as a program that uses the library declares it

    The structures, descriptors, callbacks and memory at which the theorems are
    instantiated.  The build is the one for 64-bit devices. *)

From Stdlib Require Import ZArith Lia.
From stdpp Require Import base option list strings gmap.
From S2P Require Import Prelude Memory Descr Decode Encode Input Layout Safety.

#[export] Instance example_platform : Platform :=
  {| size_bits := 64; size_bits_cases := or_intror eq_refl |}.

(** A stream callback that fails, and a stream callback at address 1 that
    delivers zero bytes for ever. *)
#[export] Instance example_user_read : UserRead := fun fn buf count =>
  if fn =? 1 then ret (replicate (Z.to_nat count) 0) else fail.
#[export] Instance example_user_write : UserWrite := fun _ _ _ => fail.

(** A field callback that ignores the value. *)
#[export] Instance example_user_decode : UserDecode := {|
  user_decode := fun _ _ _ =>
    let! n := gets (fun s => is_bytes_left (ds_in s)) in pb_read RNull n ;;; ret tt;
  user_ext_decode := fun _ _ _ _ => fail
|}.
#[export] Instance example_user_encode : UserEncode := {|
  user_encode := fun _ _ _ => fail;
  user_ext_encode := fun _ _ => fail
|}.

(** [struct Point { int32_t z; }] *)
Definition m_z := mk_member 0 4 4 0.
Definition Point_fields : list pb_field_t :=
  [ PB_FIELD 1 SINT32 REQUIRED STATIC FIRST m_z m_z 0; PB_LAST_FIELD ].

(** [struct Message { int32_t a; bool has_b; char b[8]; pb_size_t xs_count;
    uint32_t xs[4]; Point sub; pb_callback_t cb; }], 56 bytes. *)
Definition m_a := mk_member 0 4 4 0.
Definition m_b := mk_member 5 8 1 4.
Definition m_xs := mk_member 20 16 4 16.
Definition m_sub := mk_member 36 4 4 36.
Definition m_cb := mk_member 40 16 16 40.

Definition Point_address : Z := 500.

Definition Message_fields : list pb_field_t :=
  [ PB_FIELD 1 INT32 REQUIRED STATIC FIRST m_a m_a 0;
    PB_FIELD 2 STRING OPTIONAL STATIC OTHER m_b m_a 0;
    PB_FIELD 3 UINT32 REPEATED STATIC OTHER m_xs m_b 0;
    PB_FIELD 4 MESSAGE REQUIRED STATIC OTHER m_sub m_xs Point_address;
    PB_FIELD 5 BYTES OPTIONAL CALLBACK OTHER m_cb m_sub 0;
    PB_LAST_FIELD ].

Definition sizeof_Message : Z := 56.

#[export] Instance example_descriptors : Descriptors := fun a =>
  if a =? Point_address then Some Point_fields else None.

(** [{-3, true, b = hi, 3, {1, 300, 7, 0}, {-5}, {NULL, NULL}}] *)
Definition Message_value : list Z :=
  le_split 4 (-3) ++ [1] ++ [104; 105; 0; 0; 0; 0; 0; 0] ++ [0; 0; 0] ++ le_split 4 3 ++
  le_split 4 1 ++ le_split 4 300 ++ le_split 4 7 ++ le_split 4 0 ++ le_split 4 (-5) ++
  replicate 16 0.

(** Its encoding. *)
Definition Message_bytes : list Z :=
  [0x08; 0xFD; 0xFF; 0xFF; 0xFF; 0xFF; 0xFF; 0xFF; 0xFF; 0xFF; 0x01;
   0x12; 0x02; 104; 105; 0x1A; 0x04; 1; 0xAC; 0x02; 7; 0x22; 0x02; 0x08; 0x09].

(** The value at 1000, a buffer of 100 bytes at 2000, a zeroed message
    at 3000. *)
Definition value_at : Z := 1000.
Definition buffer_at : Z := 2000.
Definition message_at : Z := 3000.

Definition example_memory (buffer : list Z) : mem :=
  mem_alloc (mem_alloc (mem_alloc ∅ value_at Message_value) buffer_at buffer)
    message_at (replicate 56 0).

Definition in_message (x : Z) : Prop := message_at <= x < message_at + sizeof_Message.

(** A decoder reading [l] from the buffer. *)
Definition decoding (l : list Z) : dstate :=
  mk_dstate (pb_istream_from_buffer buffer_at (Z.of_nat (length l))) (example_memory l).

(** An encoder writing to the buffer. *)
Definition encoding : estate :=
  mk_estate (pb_ostream_from_buffer buffer_at 100) (example_memory (replicate 100 0)).

(** The part of it that holds the value. *)
Definition value_memory : mem := mem_alloc ∅ value_at Message_value.

(** The state in which the example is accepted. *)
Definition Message_decoded : dstate :=
  match pb_decode_noinit 60 Message_fields message_at (decoding Message_bytes) with
  | Ok _ s => s
  | _ => decoding Message_bytes
  end.

Definition Message_position (i : nat) : pb_field_iter_t * pb_field_t :=
  default (first_position Message_fields PB_LAST_FIELD message_at, PB_LAST_FIELD)
    (positions Message_fields message_at !! i).

Lemma example_memory_bytes l : Forall is_byte l -> mem_bytes (example_memory l).
Proof.
  intros Hl x b. unfold example_memory. rewrite !mem_alloc_lookup.
  assert (Forall is_byte Message_value).
  { by apply all_bytes_Forall. }
  assert (Forall is_byte (replicate 56 0)) by by apply Forall_replicate.
  repeat case_decide; intros Hx;
    try (eapply (Forall_lookup_1 is_byte); [|exact Hx]; done).
  done.
Qed.

Lemma decoding_input l :
  Forall is_byte l -> Z.of_nat (length l) <= 1000 -> buf_input (decoding l) l.
Proof.
  intros Hl Hlen. unfold buf_input, decoding. cbn [ds_in ds_mem pb_istream_from_buffer
    is_callback is_bytes_left is_state]. do 2 (split; [done|]).
  split; [change (2 ^ size_bits) with (2 ^ 64); lia|]. split; [|done].
  apply mem_load_lookup. split; [done|]. intros i Hi. unfold example_memory, buffer_at, message_at.
  rewrite !mem_alloc_lookup. rewrite decide_False by lia. rewrite decide_True by lia.
  f_equal. lia.
Qed.

Lemma decoding_good l :
  Forall is_byte l -> Z.of_nat (length l) <= 1000 -> good in_message 0 0 (decoding l).
Proof.
  intros Hl Hlen. destruct (decoding_input l Hl Hlen) as (H1 & H2 & H3 & H4 & H5).
  split; [done| |  | | |].
  - rewrite H2. lia.
  - rewrite H2. intros x Hx. apply mem_load_lookup in H4 as [_ H4].
    replace x with (is_state (ds_in (decoding l)) + Z.of_nat (Z.to_nat (x - buffer_at)))
      by (cbn in *; unfold buffer_at in *; lia).
    rewrite H4 by (cbn in *; unfold buffer_at in *; lia).
    apply lookup_lt_is_Some. cbn in *; unfold buffer_at in *; lia.
  - by apply example_memory_bytes.
  - unfold in_message, sizeof_Message. intros x Hx. cbn [ds_mem decoding].
    unfold example_memory. rewrite mem_alloc_lookup, length_replicate.
    rewrite decide_True by lia. apply lookup_lt_is_Some. rewrite length_replicate. lia.
  - intros x Hx. lia.
Qed.
