(* ===== verification/DecodeTheorems.v ===== *)
(** * Memory safety and termination of [pb_decode]

    The message loop, the check of required fields and the entry points. *)

From Stdlib Require Import ZArith Lia.
From stdpp Require Import base option list strings gmap.
From S2P Require Import Prelude Memory Descr Decode Wire Input Layout Safety DecodeSafe FieldSafe Required Examples.

Section message_safe.
Context {PL : Platform} {UR : UserRead} {UD : UserDecode} {DS : Descriptors}.
Context (W : Z -> Prop) (clo chi : Z) {SU : SafeUserDecode W clo chi}.

Abbreviation safe := (safe W clo chi).
Abbreviation owns := (owns W).
Abbreviation left s := (is_bytes_left (ds_in s)).
Abbreviation wf_msg := (wf_msg clo chi).
Abbreviation nothing := (fun _ _ => True).

Lemma wf_no_extension n fields size base p :
  wf_msg n fields size = true -> p ∈ positions fields base ->
  (PB_LTYPE (pf_type (snd p)) =? PB_LTYPE_EXTENSION) = false.
Proof.
  intros H [i Hp]%list_elem_of_lookup.
  destruct (wf_msg_inv _ _ _ _ _ H) as (n' & _ & _ & _ & _ & _ & Hall).
  destruct (wf_position _ _ _ _ _ _ _ _ Hall Hp) as (it & _ & Hf).
  unfold field_ok in Hf. cbn in Hf. apply andb_prop in Hf as [Hf _]. by apply negb_true_iff.
Qed.

(** What the message loop maintains of its variables. *)
Definition vars_ok (fields : list pb_field_t) (base : Z) (v : decode_vars) : Prop :=
  cursor fields base (dv_iter v) /\
  exists bits, dv_fields_seen v = seen_words bits /\
               0 <= bits < 2 ^ Z.max 1 (required_count (positions fields base)).

Section step.
Context (fuel : nat) (noinit : list pb_field_t -> Z -> M dstate unit).
Context (Hnoinit : forall n fields size base s,
  (n <= fuel)%nat -> wf_msg n fields size = true -> owns base size ->
  left s < Z.of_nat fuel -> safe (noinit fields base) s nothing).
Context (n : nat) (fields : list pb_field_t) (size base : Z).
Context (Hn : (n <= fuel)%nat) (Hwf : wf_msg (S n) fields size = true) (O : owns base size).

Lemma safe_unknown_field tag wire_type it range_start s :
  0 <= tag < 2 ^ 29 -> cursor fields base it ->
  safe (decode_unknown_field fuel noinit tag wire_type it range_start) s
    (fun u _ => cursor fields base (fst u)).
Proof.
  intros Htag Hc. pose proof (wf_msg_inv _ _ _ _ _ Hwf) as (n' & _ & Ht & _).
  assert (forall s1 it1 (r : Z), cursor fields base it1 ->
    safe (pb_skip_field wire_type ;;; ret (it1, r)) s1 (fun (u : pb_field_iter_t * Z) _ => cursor fields base (fst u)))
    as Hskip.
  { intros s1 it1 r Hc1. eapply safe_bind; [by apply (safe_skip_field _ _ _ _ _ nothing)|].
    intros. by apply safe_ret. }
  unfold decode_unknown_field. destruct (range_start <=? tag); [|by apply Hskip].
  destruct (cursor_search (fun f => PB_LTYPE (pf_type f) =? PB_LTYPE_EXTENSION) _ _ _ s Ht Hc)
    as (it' & b & Hs & Hc' & Hb).
  eapply safe_bind_pure; [exact Hs|]. cbn [fst snd].
  assert (b = false) as ->.
  { destruct b; [|done]. exfalso. destruct Hb as [(i & p & Hp & _ & Hx) | (_ & _ & Hx)]; [|done].
    rewrite (wf_no_extension _ _ _ base p Hwf) in Hx; [done|]. by eapply list_elem_of_lookup_2. }
  cbn [negb]. eapply safe_bind_pure; [done|].
  destruct (Z.leb_spec UINT32_MAX tag); [unfold UINT32_MAX in *; lia|]. by apply Hskip.
Qed.

Lemma required_ok_inv :
  let c := required_count (positions fields base) in
  0 <= c < 64 /\ (c = 0 \/ c mod 32 <> 0).
Proof.
  cbv zeta. pose proof (wf_msg_inv _ _ _ _ _ Hwf) as (n' & _ & _ & _ & _ & Hr & _).
  rewrite (required_count_base fields base).
  assert (0 <= required_count (positions fields 0)) by (unfold required_count; lia).
  unfold required_ok in Hr. apply orb_prop in Hr as [Hr|Hr]; zbool; lia.
Qed.

(** Marking the field the cursor is on. *)
Lemma mark_position i p bits s :
  positions fields base !! i = Some p ->
  0 <= bits < 2 ^ Z.max 1 (required_count (positions fields base)) ->
  exists bits', mark_required (snd p) (it_required_field_index (fst p)) (seen_words bits) s =
                Ok (seen_words bits') s /\
                0 <= bits' < 2 ^ Z.max 1 (required_count (positions fields base)).
Proof.
  intros Hp Hb. destruct required_ok_inv as [Hc _].
  rewrite (required_index _ _ _ _ Hp).
  eexists. split; [apply mark_required_eq, uwrap_range; lia|].
  destruct (is_required (snd p)) eqn:Hr; [|done]. cbn [andb].
  pose proof (required_before fields base _ _ Hp Hr).
  assert (0 <= required_count (take i (positions fields base))) by (unfold required_count; lia).
  rewrite uwrap_small by lia. unfold PB_MAX_REQUIRED_FIELDS.
  destruct (Z.ltb_spec (required_count (take i (positions fields base))) 64); [|lia].
  set (c := Z.max 1 _) in *. split; [apply Z.lor_nonneg; split; [lia|apply Z.pow_nonneg; lia]|].
  destruct (decide (bits = 0)) as [->|].
  { rewrite Z.lor_0_l. apply Z.pow_lt_mono_r; lia. }
  assert (0 < 2 ^ required_count (take i (positions fields base))) by (apply Z.pow_pos_nonneg; lia).
  assert (0 < Z.lor bits (2 ^ required_count (take i (positions fields base)))).
  { enough (Z.lor bits (2 ^ required_count (take i (positions fields base))) <> 0).
    { pose proof (proj2 (Z.lor_nonneg bits (2 ^ required_count (take i (positions fields base))))).
      lia. }
    rewrite Z.lor_eq_0_iff. lia. }
  apply Z.log2_lt_pow2; [done|]. rewrite Z.log2_lor by lia.
  rewrite Z.log2_pow2 by lia. apply Z.max_lub_lt; [apply Z.log2_lt_pow2; lia|lia].
Qed.

(** A field whose tag is 0 is found in a message without fields: the terminator
    is decoded as a varint of size 0, which fails. *)
Lemma safe_decode_terminator wire_type b s :
  safe (decode_field fuel noinit wire_type (first_position [PB_LAST_FIELD] PB_LAST_FIELD b)) s
    nothing.
Proof.
  eapply safe_bind_pure; [reflexivity|]. cbv zeta. cbn [Z.eqb].
  change (PB_ATYPE (pf_type PB_LAST_FIELD) =? PB_ATYPE_STATIC) with true. cbv iota.
  eapply safe_bind_pure; [reflexivity|]. cbv zeta.
  eapply safe_bind_pure; [reflexivity|].
  change (PB_HTYPE (pf_type PB_LAST_FIELD) =? PB_HTYPE_REQUIRED) with true. cbv iota.
  eapply safe_bind_pure; [reflexivity|].
  eapply safe_mono; [apply (safe_dec_varint W clo chi PB_LAST_FIELD)|done].
  intros x Hx. change (pf_data_size PB_LAST_FIELD) with 0 in Hx. lia.
Qed.

Lemma safe_decode_step v s :
  vars_ok fields base v -> left s <= Z.of_nat fuel ->
  safe (decode_step fuel noinit v) s (fun r s' =>
    match r with
    | inl v' => vars_ok fields base v' /\ left s' < left s
    | inr v' => vars_ok fields base v'
    end).
Proof.
  intros Hv Hleft. pose proof Hv as [Hc (bits & Hseen & Hbits)].
  pose proof (wf_msg_inv _ _ _ _ _ Hwf) as (n' & [= <-] & Ht & Hlast & Hsize & _).
  unfold decode_step. eapply safe_bind_pure; [done|].
  destruct (left s =? 0); [by apply safe_ret|].
  eapply safe_bind.
  { apply (safe_decode_tag _ _ _ s (fun t s' => 0 <= dt_tag t < 2 ^ 29 /\
                                                (dt_ok t = true -> left s' < left s))). auto. }
  cbn beta. intros t s1 _ _ [Htag Hl1].
  destruct (dt_ok t); cbn [negb]; [|destruct (dt_eof t); [by apply safe_ret|apply safe_fail]].
  specialize (Hl1 eq_refl).
  edestruct (cursor_search (St := dstate)) as (it & b & Hs & Hc' & Hb); [exact Ht|exact Hc|].
  eapply safe_bind_pure; [exact Hs|]. cbn [fst snd]. destruct b; cbn [negb].
  - destruct Hb as [(i & p & Hp & -> & _) | (Hf & -> & _)].
    + eapply safe_bind_pure; [by eapply iter_field_eq|]. rewrite Hseen.
      destruct (mark_position i p bits s1 Hp Hbits) as (bits' & Hm & Hb').
      eapply safe_bind_pure; [exact Hm|]. eapply safe_bind.
      * eapply (safe_decode_field W clo chi fuel noinit Hnoinit n (snd p) (fst p) size base);
          [done|lia|done|by eapply positions_located|lia].
      * intros _u s2 _ Hle2 _. destruct (sl_left _ _ _ Hle2). apply safe_ret.
        split; [|lia]. split; [done|]. by exists bits'.
    + destruct Hc as [i p Hp | _]; [by rewrite Hf in Hp|].
      rewrite Hf. eapply safe_bind_pure; [reflexivity|]. rewrite Hseen.
      eapply safe_bind_pure; [by apply mark_required_eq|]. eapply safe_bind.
      * apply safe_decode_terminator.
      * intros _u s2 _ Hle2 _. destruct (sl_left _ _ _ Hle2). apply safe_ret.
        split; [|lia]. rewrite Hf in Hc', Hbits. split; [done|].
        change (2 ^ Z.max 1 (required_count (positions [PB_LAST_FIELD] base))) with 2 in Hbits.
        eexists. split; [reflexivity|].
        change (2 ^ Z.max 1 (required_count (positions [PB_LAST_FIELD] base))) with 2.
        assert (bits = 0 \/ bits = 1) as [-> | ->] by lia; by vm_compute.
  - destruct Hb as [-> _]. eapply safe_bind; [by apply safe_unknown_field|].
    cbn beta. intros u s2 _ Hle2 Hu. destruct (sl_left _ _ _ Hle2). apply safe_ret.
    split; [|lia]. split; [exact Hu|]. by exists bits.
Qed.

Lemma safe_check_required v s :
  vars_ok fields base v -> safe (check_required_fields (dv_iter v) (dv_fields_seen v)) s nothing.
Proof.
  intros [Hc (bits & -> & Hbits)].
  pose proof (wf_msg_inv _ _ _ _ _ Hwf) as (n' & _ & Ht & _).
  pose proof required_ok_inv as [Hr Hm]. cbv zeta in Hm.
  intros G. unfold wp. rewrite (check_required_fields_eq fields base) by (done || lia).
  destruct Hm as [Hz|Hm].
  - rewrite Hz. cbn. done.
  - rewrite check_seen_eq; [|lia|by right|].
    2:{ destruct (decide (required_count (positions fields base) = 0)) as [Hz|].
        - rewrite Hz in Hm. done.
        - by rewrite Z.max_r in Hbits by lia. }
    destruct (_ =? _); [done|apply state_le_error].
Qed.

End step.
(** ** The entry points *)

Lemma safe_decode_noinit fuel n fields size base s :
  (n <= fuel)%nat -> wf_msg n fields size = true -> owns base size ->
  left s < Z.of_nat fuel -> safe (pb_decode_noinit fuel fields base) s nothing.
Proof.
  revert n fields size base s.
  induction fuel as [|fuel IH]; intros n fields size base s Hn Hwf O Hl G;
    [pose proof (g_left _ _ _ _ G); cbn in Hl; lia|].
  revert G. pose proof (wf_msg_inv _ _ _ _ _ Hwf) as (n' & -> & Ht & Hlast & _).
  destruct (first_cursor fields base Ht Hlast) as (f & Hf & Hc). cbn [pb_decode_noinit].
  eapply safe_bind_pure; [by apply pb_field_iter_begin_eq|]. cbn [fst].
  eapply safe_bind.
  - apply (safe_loop _ _ _ (fun v s' => vars_ok fields base v /\ left s' <= Z.of_nat fuel)
             (fun _ s' => Z.to_nat (left s')) _ _ _ s (fun v _ => vars_ok fields base v)).
    + intros v s1 _ _ [Hv Hl1]. eapply safe_reach.
      { eapply (safe_decode_step fuel (pb_decode_noinit fuel) IH n' fields size base); try done. lia. }
      cbn beta. intros [v'|v'] s2 G2 _; [|done]. intros [Hv' Hl2].
      split; [split; [done|lia]|]. pose proof (g_left _ _ _ _ G2). lia.
    + split; [|lia]. split; [done|]. exists 0. split; [done|]. cbn [dv_fields_seen].
      split; [done|]. apply Z.pow_pos_nonneg; lia.
    + lia.
  - cbn beta. intros v s1 _ _ Hv. eapply (safe_check_required fuel); [|exact Hwf|exact Hv]. lia.
Qed.

Lemma safe_decode fuel n fields size base s :
  (n <= fuel)%nat -> wf_msg n fields size = true -> owns base size ->
  left s < Z.of_nat fuel -> safe (pb_decode fuel fields base) s nothing.
Proof.
  intros Hn Hwf O Hl. eapply safe_bind; [by eapply safe_set_to_defaults|].
  intros _u s1 _ Hle _. eapply safe_decode_noinit; [done..|]. destruct (sl_left _ _ _ Hle). lia.
Qed.

Lemma safe_decode_delimited fuel n fields size base s :
  (n <= fuel)%nat -> wf_msg n fields size = true -> owns base size ->
  left s <= Z.of_nat fuel ->
  safe (pb_decode_delimited fuel fields base) s (fun _ s' => left s' < left s).
Proof.
  intros Hn Hwf O Hl. apply safe_with_substream. intros sub s1 G Hbr.
  eapply wp_delegate; [exact Hbr|done|]. eapply safe_decode; [done..|].
  pose proof (br_progress _ _ _ _ _ _ Hbr). pose proof (br_left _ _ _ _ _ _ Hbr). cbn. lia.
Qed.

End message_safe.

(** * The decoder: theorems

    What the entry points and the stream functions of pb_decode.c promise, each
    with an instance on the message of [Examples]. *)

(** The field callback of the example keeps its contract. *)
#[export] Instance example_safe_user_decode W clo chi : SafeUserDecode W clo chi.
Proof.
  intros fn f arg s. cbn [user_decode example_user_decode].
  eapply safe_bind_pure; [reflexivity|]. intros G. pose proof (g_left _ _ _ _ G).
  revert G. eapply safe_bind; [apply (safe_read_null _ _ _ _ _ (fun _ s' =>
    is_bytes_left (ds_in s') = 0)); [lia|intros s' ->; lia]|].
  intros l s' _ _ Hl. apply safe_ret. by right.
Qed.

Lemma Message_wf : wf_msg 0 0 3 Message_fields sizeof_Message = true.
Proof. reflexivity. Qed.

Lemma Message_bytes_bytes : Forall is_byte Message_bytes.
Proof. by apply all_bytes_Forall. Qed.

Section decoder.
Context {PL : Platform} {UR : UserRead} {UD : UserDecode} {DS : Descriptors}.

(** ** Messages *)

(** C1: Decoding any input, valid or not, into a message whose descriptors are
    well formed terminates and never reaches undefined behaviour; whether it
    succeeds or fails, it has changed no byte outside the writable addresses and
    has read the input stream forwards within its bounds.  A well formed message has
    no extension fields: what those point to is the program's. *)
Theorem pb_decode_memory_safe W clo chi {SU : SafeUserDecode W clo chi} fuel n fields size base s :
  wf_msg clo chi n fields size = true -> (n <= fuel)%nat ->
  good W clo chi s -> owns W base size -> is_bytes_left (ds_in s) < Z.of_nat fuel ->
  exists s', (pb_decode fuel fields base s = Ok tt s' \/ pb_decode fuel fields base s = Err s') /\
             state_le W s s'.
Proof.
  intros Hwf Hn G O Hl.
  destruct (wp_inv _ _ _ _ (safe_decode W clo chi fuel n fields size base s Hn Hwf O Hl G))
    as [([] & s' & E & H & _) | (s' & E & H)]; exists s'; auto.
Qed.

(** The same for a message preceded by its length: in addition, a successful
    call consumes input, so a loop over delimited messages terminates. *)
Theorem pb_decode_delimited_memory_safe W clo chi {SU : SafeUserDecode W clo chi}
    fuel n fields size base s :
  wf_msg clo chi n fields size = true -> (n <= fuel)%nat ->
  good W clo chi s -> owns W base size -> is_bytes_left (ds_in s) <= Z.of_nat fuel ->
  exists s', state_le W s s' /\
    (pb_decode_delimited fuel fields base s = Ok tt s' /\
     is_bytes_left (ds_in s') < is_bytes_left (ds_in s) \/
     pb_decode_delimited fuel fields base s = Err s').
Proof.
  intros Hwf Hn G O Hl.
  destruct (wp_inv _ _ _ _ (safe_decode_delimited W clo chi fuel n fields size base s Hn Hwf O Hl G))
    as [([] & s' & E & H & ?) | (s' & E & H)]; exists s'; auto.
Qed.

(** Setting the default values of a message, as [pb_decode] does before it
    reads any input, stays within the message and leaves the stream alone. *)
Theorem pb_message_set_to_defaults_memory_safe W clo chi fuel n fields size base s :
  wf_msg clo chi n fields size = true -> (n <= fuel)%nat ->
  good W clo chi s -> owns W base size ->
  exists s', (pb_message_set_to_defaults fuel fields base s = Ok tt s' \/
              pb_message_set_to_defaults fuel fields base s = Err s') /\ state_le W s s'.
Proof.
  intros Hwf Hn G O.
  destruct (wp_inv _ _ _ _ (safe_set_to_defaults W clo chi n fuel fields size base s Hn Hwf O G))
    as [([] & s' & E & H & _) | (s' & E & H)]; exists s'; auto.
Qed.

(** C4: A message is accepted only if each of its required fields was read: the
    rounds of the loop include one in which the tag of the field was read and the
    field was decoded at its place in the message.  This holds for any number of
    required fields below 2^32: at the numbers where the final test is undefined, no
    message gets past it. *)
Theorem pb_decode_required_present n fields base s s' k p :
  terminated fields = true -> last fields = Some PB_LAST_FIELD ->
  required_count (positions fields base) < 2 ^ 32 ->
  pb_decode_noinit (S n) fields base s = Ok tt s' ->
  positions fields base !! k = Some p -> is_required (snd p) = true ->
  exists f, fields !! 0%nat = Some f /\
    decoded_in n (pb_decode_noinit n) (mk_vars (first_position fields f base) [0; 0] 0, s) p.
Proof. apply decode_noinit_required. Qed.

(** ** Streams *)

(** The 64-bit varint decoder: a varint of at most 10 bytes gives its value
    modulo 2^64 and is consumed; a longer one is an overflow after 10 bytes, and
    the end of the input an error after all of it. *)
Theorem pb_decode_varint_spec s l :
  buf_input s l ->
  pb_decode_varint s =
  match scan_varint 10 l with
  | VOk v n => Ok (v mod 2 ^ 64) (advance n s)
  | VOverflow n => Err (with_error "varint overflow" (advance n s))
  | VTruncated n => Err (with_error "end-of-stream" (advance n s))
  end.
Proof. apply pb_decode_varint_refines. Qed.

(** The 32-bit varint decoder: the same with 5 bytes and modulo 2^32. *)
Theorem pb_decode_varint32_spec s l :
  buf_input s l ->
  pb_decode_varint32 s =
  match scan_varint 5 l with
  | VOk v n => Ok (v mod 2 ^ 32) (advance n s)
  | VOverflow n => Err (with_error "varint overflow" (advance n s))
  | VTruncated n => Err (with_error "end-of-stream" (advance n s))
  end.
Proof. apply pb_decode_varint32_refines. Qed.

(** A field header: a number and a wire type, or the end of the message: the
    input is exhausted, or the header is 0. *)
Theorem pb_decode_tag_spec s l :
  buf_input s l ->
  exists e, pb_decode_tag s =
    Ok (fst (scan_tag l))
       (mk_dstate (set_errmsg e (ds_in (advance (snd (scan_tag l)) s))) (ds_mem s)) /\
    (dt_ok (fst (scan_tag l)) = true -> e = is_errmsg (ds_in s)).
Proof. apply pb_decode_tag_refines. Qed.

(** Skipping a field consumes exactly its payload, whatever its wire type,
    and fails when the payload is cut short or the wire type is not one. *)
Theorem pb_skip_field_spec wire_type s l :
  buf_input s l ->
  match payload_length wire_type l with
  | Some n => if (n <=? length l)%nat then pb_skip_field wire_type s = Ok tt (advance n s)
              else exists s', pb_skip_field wire_type s = Err s' /\ failed_within (length l) s s'
  | None => exists s', pb_skip_field wire_type s = Err s' /\ failed_within (length l) s s'
  end.
Proof. apply pb_skip_field_refines. Qed.

(** Opening a substream: it is given exactly the announced bytes, the parent
    keeps the rest; if they are not there, the parent reports it. *)
Theorem pb_make_string_substream_spec s l :
  buf_input s l ->
  pb_make_string_substream s =
  match scan_varint 5 l with
  | VOk v n =>
      if (n + Z.to_nat (u32 v) <=? length l)%nat
      then Ok (substream_at (u32 v) (advance n s)) (reserve (u32 v) (advance n s))
      else Err (with_error "parent stream too short" (advance n s))
  | VOverflow n => Err (with_error "varint overflow" (advance n s))
  | VTruncated n => Err (with_error "end-of-stream" (advance n s))
  end.
Proof. apply pb_make_string_substream_refines. Qed.

(** Closing a substream: whatever part of its bytes was consumed, the parent
    goes on after all of them, with the error message of the substream. *)
Theorem pb_close_string_substream_spec s n size sub k m :
  is_callback (ds_in s) = cb_buf_read ->
  0 <= size < 2 ^ size_bits -> Z.of_nat k <= size ->
  is_callback sub = cb_buf_read ->
  is_state sub = is_state (ds_in s) + Z.of_nat n + Z.of_nat k ->
  is_bytes_left sub = size - Z.of_nat k ->
  pb_close_string_substream sub (mk_dstate (ds_in (reserve size (advance n s))) m)
  = Ok tt (mk_dstate (set_errmsg (is_errmsg sub) (ds_in (advance (n + Z.to_nat size) s))) m).
Proof. apply pb_close_string_substream_refines. Qed.

(** ** The iterator *)

(** Advancing the iterator goes to the next field and reports it, and from
    the last field back to the first and reports the wrap. *)
Theorem pb_field_iter_next_spec {St} fields base i p (s : St) :
  terminated fields = true ->
  positions fields base !! i = Some p ->
  pb_field_iter_next (fst p) s =
  match positions fields base !! S i with
  | Some q => Ok (fst q, true) s
  | None =>
      match positions fields base !! 0%nat with
      | Some q => Ok (fst q, false) s
      | None => Ub
      end
  end.
Proof. apply pb_field_iter_next_eq. Qed.

(** A search finds the first field with the tag in the cyclic order from the
    current one, extensions excepted; without one the iterator is where it was.
    It ends whatever the tag. *)
Theorem pb_field_iter_find_spec {St} fields base i p tag (s : St) :
  terminated fields = true ->
  positions fields base !! i = Some p ->
  pb_field_iter_find (fst p) tag s =
  Ok (match List.find (fun q => (pf_tag (snd q) =? tag) &&
                                negb (PB_LTYPE (pf_type (snd q)) =? PB_LTYPE_EXTENSION))
              (search_order i (positions fields base)) with
      | Some q => (fst q, true)
      | None => (fst p, false)
      end) s.
Proof.
  intros Ht Hp. exact (iter_search_eq (fun f => (pf_tag f =? tag) &&
    negb (PB_LTYPE (pf_type f) =? PB_LTYPE_EXTENSION)) fields base Ht i p s Hp).
Qed.

End decoder.

(** ** Instances *)

Lemma in_message_owns : owns in_message message_at sizeof_Message.
Proof. by intros x Hx. Qed.

Lemma decoding_Message : good in_message 0 0 (decoding Message_bytes).
Proof. by apply decoding_good; [apply Message_bytes_bytes|]. Qed.

Lemma pb_decode_memory_safe_witness :
  exists s', (pb_decode 60 Message_fields message_at (decoding Message_bytes) = Ok tt s' \/
              pb_decode 60 Message_fields message_at (decoding Message_bytes) = Err s') /\
             state_le in_message (decoding Message_bytes) s'.
Proof.
  apply (pb_decode_memory_safe in_message 0 0 60 3 Message_fields sizeof_Message message_at).
  - reflexivity.
  - lia.
  - exact decoding_Message.
  - exact in_message_owns.
  - reflexivity.
Defined.

Lemma pb_decode_delimited_memory_safe_witness :
  exists s', state_le in_message (decoding (25 :: Message_bytes)) s' /\
    (pb_decode_delimited 60 Message_fields message_at (decoding (25 :: Message_bytes)) = Ok tt s' /\
     is_bytes_left (ds_in s') < is_bytes_left (ds_in (decoding (25 :: Message_bytes))) \/
     pb_decode_delimited 60 Message_fields message_at (decoding (25 :: Message_bytes)) = Err s').
Proof.
  apply (pb_decode_delimited_memory_safe in_message 0 0 60 3 Message_fields sizeof_Message).
  - reflexivity.
  - lia.
  - apply decoding_good; [by apply all_bytes_Forall|done].
  - exact in_message_owns.
  - discriminate.
Defined.

Lemma pb_message_set_to_defaults_memory_safe_witness :
  exists s', (pb_message_set_to_defaults 3 Message_fields message_at (decoding []) = Ok tt s' \/
              pb_message_set_to_defaults 3 Message_fields message_at (decoding []) = Err s') /\
             state_le in_message (decoding []) s'.
Proof.
  apply (pb_message_set_to_defaults_memory_safe in_message 0 0 3 3 Message_fields sizeof_Message).
  - reflexivity.
  - lia.
  - by apply decoding_good; [constructor|].
  - exact in_message_owns.
Defined.

Lemma pb_decode_required_present_witness :
  exists f, Message_fields !! 0%nat = Some f /\
    decoded_in 59 (pb_decode_noinit 59)
      (mk_vars (first_position Message_fields f message_at) [0; 0] 0, decoding Message_bytes)
      (Message_position 3).
Proof.
  apply (pb_decode_required_present 59 Message_fields message_at (decoding Message_bytes)
           Message_decoded 3).
  - reflexivity.
  - reflexivity.
  - reflexivity.
  - vm_compute. reflexivity.
  - reflexivity.
  - reflexivity.
Defined.

Lemma pb_decode_varint_spec_witness :
  pb_decode_varint (decoding [0xAC; 0x02; 7]) = Ok 300 (advance 2 (decoding [0xAC; 0x02; 7])).
Proof.
  rewrite (pb_decode_varint_spec _ [0xAC; 0x02; 7]); [reflexivity|].
  apply decoding_input; [by apply all_bytes_Forall|done].
Defined.

Lemma pb_decode_varint32_spec_witness :
  pb_decode_varint32 (decoding [0x80; 0x80; 0x80; 0x80; 0x80; 0x01]) =
  Err (with_error "varint overflow" (advance 5 (decoding [0x80; 0x80; 0x80; 0x80; 0x80; 0x01]))).
Proof.
  rewrite (pb_decode_varint32_spec _ [0x80; 0x80; 0x80; 0x80; 0x80; 0x01]); [reflexivity|].
  apply decoding_input; [by apply all_bytes_Forall|done].
Defined.

Lemma pb_decode_tag_spec_witness :
  exists e, pb_decode_tag (decoding [0x12]) =
    Ok (mk_tag true 2 2 false)
       (mk_dstate (set_errmsg e (ds_in (advance 1 (decoding [0x12])))) (ds_mem (decoding [0x12]))) /\
    (dt_ok (mk_tag true 2 2 false) = true -> e = is_errmsg (ds_in (decoding [0x12]))).
Proof.
  apply (pb_decode_tag_spec (decoding [0x12]) [0x12]).
  apply decoding_input; [by apply all_bytes_Forall|done].
Defined.

Lemma pb_skip_field_spec_witness :
  pb_skip_field PB_WT_STRING (decoding [2; 104; 105; 1]) =
  Ok tt (advance 3 (decoding [2; 104; 105; 1])).
Proof.
  apply (pb_skip_field_spec PB_WT_STRING (decoding [2; 104; 105; 1]) [2; 104; 105; 1]).
  apply decoding_input; [by apply all_bytes_Forall|done].
Defined.

Lemma pb_make_string_substream_spec_witness :
  let s := decoding [2; 104; 105; 1] in
  pb_make_string_substream s = Ok (substream_at 2 (advance 1 s)) (reserve 2 (advance 1 s)).
Proof.
  cbv zeta. rewrite (pb_make_string_substream_spec _ [2; 104; 105; 1]); [reflexivity|].
  apply decoding_input; [by apply all_bytes_Forall|done].
Defined.

Lemma pb_close_string_substream_spec_witness :
  let s := decoding [2; 104; 105; 1] in
  pb_close_string_substream (substream_at 2 (advance 1 s)) (reserve 2 (advance 1 s)) =
  Ok tt (advance 3 s).
Proof.
  apply (pb_close_string_substream_spec (decoding [2; 104; 105; 1]) 1 2
           (substream_at 2 (advance 1 (decoding [2; 104; 105; 1]))) 0
           (ds_mem (decoding [2; 104; 105; 1]))); done || (change (2 ^ size_bits) with (2 ^ 64); lia).
Defined.

Lemma pb_field_iter_next_spec_witness :
  pb_field_iter_next (fst (Message_position 1)) (decoding []) =
  Ok (fst (Message_position 2), true) (decoding []).
Proof. by apply (pb_field_iter_next_spec Message_fields message_at 1). Defined.

Lemma pb_field_iter_find_spec_witness :
  pb_field_iter_find (fst (Message_position 3)) 2 (decoding []) =
  Ok (fst (Message_position 1), true) (decoding []).
Proof.
  rewrite (pb_field_iter_find_spec Message_fields message_at 3 (Message_position 3));
    [reflexivity..].
Defined.
