(* ===== verification/Output.v ===== *)
(** * What an encoder emits

    [emits m bs]: on any stream with an intact message memory, [m] adds exactly
    the bytes [bs].  A sizing stream counts them; a buffer stream stores them, or
    reports that it is full, and never writes outside the buffer.  The rules for
    the stream-level encoders are proved here, messages are in [EncodeSpec]. *)

From Stdlib Require Import ZArith Lia.
From stdpp Require Import base option list strings gmap.
From S2P Require Import Prelude Memory Descr Decode Encode Wire Input.

Section output.
Context {PL : Platform} {UW : UserWrite}.

(** [ro]: the memory the encoder reads, a part of the memory; [lo, hi): the
    output buffer, which it does not overlap. *)
Context (ro : mem) (lo hi : Z).

(** A stream with no error so far, over memory that contains [ro]. *)
Record ready (s : estate) : Prop := mk_ready {
  rd_ro : ro ⊆ es_mem s;
  rd_errmsg : os_errmsg (es_out s) = None;
  rd_written : 0 <= os_bytes_written (es_out s);
  rd_stream :
    match os_callback (es_out s) with
    | cb_null => True
    | cb_buf_write =>
        mapped (es_mem s) lo hi /\ lo <= os_state (es_out s) /\
        os_bytes_written (es_out s) <= os_max_size (es_out s) < 2 ^ size_bits /\
        os_state (es_out s) + (os_max_size (es_out s) - os_bytes_written (es_out s)) <= hi
    | cb_user_write _ => False
    end
}.

(** The stream after [n] more bytes. *)
Definition written (n : Z) (o : pb_ostream_t) : pb_ostream_t :=
  mk_ostream (os_callback o)
    (if is_sizing o then os_state o else os_state o + n)
    (os_max_size o) (os_bytes_written o + n) (os_errmsg o).

(** The state in which a full stream leaves the encoder. *)
Definition filled (s s' : estate) : Prop :=
  is_sizing (es_out s) = false /\
  mem_le lo hi (es_mem s) (es_mem s') /\
  os_errmsg (es_out s') = Some "stream full"%string.

Definition room (n : Z) (o : pb_ostream_t) : bool :=
  is_sizing o || (os_bytes_written o + n <=? os_max_size o).

Definition emits (m : M estate unit) (bs : list Z) : Prop := forall s,
  ready s -> os_bytes_written (es_out s) + Z.of_nat (length bs) < 2 ^ size_bits ->
  if room (Z.of_nat (length bs)) (es_out s) then
    exists mem', m s = Ok tt (mk_estate (written (Z.of_nat (length bs)) (es_out s)) mem') /\
      if is_sizing (es_out s) then mem' = es_mem s
      else mem_store (es_mem s) (os_state (es_out s)) bs = Some mem'
  else exists s', m s = Err s' /\ filled s s'.

(** [m] only reads, from [ro]. *)
Definition reads {A} (m : M estate A) (a : A) : Prop := forall s,
  ro ⊆ es_mem s -> m s = Ok a s.

Context (Hdisj : forall x, is_Some (ro !! x) -> ~ (lo <= x < hi)).

(** ** Rules *)

Lemma ro_preserved m m' : mem_le lo hi m m' -> ro ⊆ m -> ro ⊆ m'.
Proof.
  intros [Hoff _] Hro. apply map_subseteq_spec. intros x v Hx.
  rewrite Hoff; [by eapply lookup_weaken|]. apply Hdisj. by rewrite Hx.
Qed.

Lemma room_mono n k o : 0 <= k <= n -> room n o = true -> room k o = true.
Proof.
  unfold room. intros Hk Hn. destruct (is_sizing o); [done|].
  cbn [orb] in *. zbool. lia.
Qed.

(** After a successful step the stream is ready for the next. *)
Lemma ready_written s n mem' :
  ready s -> 0 <= n -> room n (es_out s) = true ->
  mem_le lo hi (es_mem s) mem' ->
  ready (mk_estate (written n (es_out s)) mem').
Proof.
  intros [Hro He Hw Hst] Hn Hroom Hle. split; cbn; [by eapply ro_preserved|done|lia|].
  unfold room, is_sizing in *. destruct (os_callback (es_out s)); try done.
  destruct Hst as (Hm & Hl & Hmax & Hend). cbn [orb] in Hroom. zbool.
  split; [by eapply mapped_le|]. lia.
Qed.

Lemma store_le_buffer s bs mem' :
  ready s -> is_sizing (es_out s) = false -> room (Z.of_nat (length bs)) (es_out s) = true ->
  mem_store (es_mem s) (os_state (es_out s)) bs = Some mem' ->
  mem_le lo hi (es_mem s) mem'.
Proof.
  intros [Hro He Hw Hst] Hs Hroom Hm. unfold room, is_sizing in *.
  destruct (os_callback (es_out s)); try done. destruct Hst as (_ & Hl & Hmax & Hend).
  cbn [orb] in Hroom. zbool. eapply mem_le_weaken; [by apply mem_store_le|lia|lia].
Qed.

Lemma mem_store_app m a l1 l2 m1 :
  mem_store m a l1 = Some m1 ->
  mem_store m a (l1 ++ l2) = mem_store m1 (a + Z.of_nat (length l1)) l2.
Proof.
  revert m a. induction l1 as [|b l1 IH]; intros m a H; cbn in H |- *.
  - injection H as ->. by rewrite Z.add_0_r.
  - destruct (m !! a); [|done]. rewrite (IH _ _ H). f_equal. lia.
Qed.

Lemma written_written n k o : written k (written n o) = written (n + k) o.
Proof.
  unfold written, is_sizing. destruct o as [[] ? ? ? ?]; cbn; f_equal; lia.
Qed.

Lemma emits_nil : emits (ret tt) [].
Proof.
  intros s Hs _. cbn [length]. unfold room.
  assert (written (Z.of_nat 0) (es_out s) = es_out s) as E.
  { unfold written. destruct s as [[[] ? ? ? ?] ?]; cbn; f_equal; lia. }
  assert (is_sizing (es_out s) || (os_bytes_written (es_out s) + Z.of_nat 0 <=?
            os_max_size (es_out s)) = true) as ->.
  { destruct Hs as [_ _ _ Hst]. unfold is_sizing. destruct (os_callback (es_out s)); try done.
    cbn [orb]. apply Z.leb_le. lia. }
  exists (es_mem s). rewrite E. split; [by destruct s|]. by destruct (is_sizing _).
Qed.

Lemma emits_seq m1 m2 b1 b2 :
  emits m1 b1 -> emits m2 b2 -> emits (m1 ;;; m2) (b1 ++ b2).
Proof.
  intros H1 H2 s Hs Hov. rewrite length_app, Nat2Z.inj_add in *.
  specialize (H1 s Hs ltac:(lia)).
  destruct (room (Z.of_nat (length b1)) (es_out s)) eqn:R1.
  - destruct H1 as (mem1 & E1 & M1).
    assert (mem_le lo hi (es_mem s) mem1) as L1.
    { destruct (is_sizing (es_out s)) eqn:Es; [by subst|]. by eapply store_le_buffer. }
    assert (ready (mk_estate (written (Z.of_nat (length b1)) (es_out s)) mem1)) as Hs1
      by (apply ready_written; done || lia).
    specialize (H2 _ Hs1). cbn [es_out es_mem written os_bytes_written] in H2.
    specialize (H2 ltac:(lia)). rewrite (bind_ok _ _ _ _ _ E1).
    assert (room (Z.of_nat (length b2)) (written (Z.of_nat (length b1)) (es_out s)) =
            room (Z.of_nat (length b1) + Z.of_nat (length b2)) (es_out s)) as ER.
    { unfold room, written, is_sizing. destruct (es_out s) as [[] ? ? ? ?]; cbn;
        [done|f_equal; lia..]. }
    rewrite ER in H2. clear ER.
    assert (is_sizing (written (Z.of_nat (length b1)) (es_out s)) = is_sizing (es_out s))
      as EZ by done. rewrite EZ in H2.
    destruct (room (Z.of_nat (length b1) + Z.of_nat (length b2)) (es_out s)) eqn:R2.
    + destruct H2 as (mem2 & E2 & M2). exists mem2. rewrite E2, written_written.
      split; [done|]. destruct (is_sizing (es_out s)) eqn:Es; [congruence|].
      rewrite (mem_store_app _ _ _ _ _ M1), <- M2. cbn. by rewrite Es.
    + destruct H2 as (s' & E2 & (Hz & M2 & Herr)). exists s'. split; [done|].
      split; [done|]. split; [by etrans|done].
  - destruct H1 as (s' & E1 & F1).
    destruct (room (Z.of_nat (length b1) + Z.of_nat (length b2)) (es_out s)) eqn:R2.
    + rewrite (room_mono (Z.of_nat (length b1) + Z.of_nat (length b2))) in R1; [done|lia|done].
    + exists s'. split; [by apply bind_err|done].
Qed.

Lemma emits_bind_reads {A} (m : M estate A) (k : A -> M estate unit) a bs :
  reads m a -> emits (k a) bs -> emits (bind m k) bs.
Proof.
  intros Hm Hk s Hs Hov. specialize (Hk s Hs Hov).
  assert (bind m k s = k a s) as -> by (apply bind_ok, Hm, Hs). exact Hk.
Qed.

Lemma emits_eq m m' bs : emits m bs -> (forall s, ready s -> m' s = m s) -> emits m' bs.
Proof. intros H E s Hs Hov. rewrite (E s Hs). by apply H. Qed.

Lemma reads_ret {A} (a : A) : reads (ret a) a.
Proof. done. Qed.

Lemma reads_bind {A B} (m : M estate A) (k : A -> M estate B) a b :
  reads m a -> reads (k a) b -> reads (bind m k) b.
Proof. intros Hm Hk s Hs. rewrite (bind_ok _ _ _ _ _ (Hm s Hs)). by apply Hk. Qed.

(** ** Reading the message *)

Lemma ro_load m a n l : ro ⊆ m -> mem_load ro a n = Some l -> mem_load m a n = Some l.
Proof.
  intros Hro Hl. apply mem_load_lookup in Hl as [Hlen Hl]. apply mem_load_lookup.
  split; [done|]. intros i Hi. specialize (Hl i Hi).
  destruct (lookup_lt_is_Some_2 l i) as [b Hb]; [lia|]. rewrite Hb in *.
  by eapply lookup_weaken.
Qed.

Lemma reads_load n a l :
  mem_load ro a n = Some l -> reads (load_le n a) (le_combine l).
Proof.
  intros Hl s Hs. unfold load_le, load_bytes, bind. cbn. by rewrite (ro_load _ _ _ _ Hs Hl).
Qed.

(** ** Writing *)

Lemma usize_written s n :
  ready s -> 0 <= n -> os_bytes_written (es_out s) + n < 2 ^ size_bits ->
  usize (os_bytes_written (es_out s) + n) = os_bytes_written (es_out s) + n.
Proof. intros [_ _ Hw _] Hn Hov. apply usize_small. lia. Qed.

(** [pb_write] of bytes that the callback can store. *)
Lemma emits_write buf bs :
  (forall s mem', ready s -> is_sizing (es_out s) = false ->
     room (Z.of_nat (length bs)) (es_out s) = true ->
     mem_store (es_mem s) (os_state (es_out s)) bs = Some mem' ->
     buf_write buf (Z.of_nat (length bs)) s =
     Ok tt (mk_estate (set_os_state (os_state (es_out s) + Z.of_nat (length bs)) (es_out s)) mem')) ->
  emits (pb_write buf (Z.of_nat (length bs))) bs.
Proof.
  intros Hbuf s Hs Hov. pose proof (usize_written s (Z.of_nat (length bs)) Hs ltac:(lia) Hov) as Eu.
  unfold pb_write. rewrite bind_gets, Eu. specialize (Hbuf s).
  destruct (is_sizing (es_out s)) eqn:Es.
  - unfold room. rewrite Es. exists (es_mem s). cbn [orb negb]. split; [|done].
    rewrite bind_ret. unfold on_out, modify, set_bytes_written, written. by rewrite Eu, Es.
  - unfold room in Hbuf |- *. rewrite Es in *. cbn [orb negb] in *.
    destruct (Z.ltb_spec (os_max_size (es_out s)) (os_bytes_written (es_out s) + Z.of_nat (length bs))),
      (Z.leb_spec (os_bytes_written (es_out s) + Z.of_nat (length bs)) (os_max_size (es_out s)));
      try lia.
    + eexists. split; [by apply bind_err|]. split; [done|]. split; [done|].
      cbn. by rewrite (rd_errmsg _ Hs).
    + pose proof (rd_stream _ Hs) as Hst. unfold is_sizing in Es.
      destruct (os_callback (es_out s)) eqn:Ec; try done. destruct Hst as (Hm & Hl & Hmax & Hend).
      destruct (mem_store_mapped (es_mem s) (os_state (es_out s)) bs) as [mem' Hmem'].
      { eapply mapped_sub; [exact Hm|lia|lia]. }
      specialize (Hbuf mem' Hs eq_refl eq_refl Hmem'). exists mem'. split; [|done].
      rewrite bind_assoc, (bind_ok _ _ _ _ _ (attempt_ok (call_write buf (Z.of_nat (length bs)))
                s tt _ ltac:(unfold call_write; rewrite bind_gets, Ec; exact Hbuf))).
      rewrite bind_ret. unfold on_out, modify. f_equal. f_equal.
      unfold set_bytes_written, written, is_sizing. cbn. by rewrite Eu, Ec.
Qed.

Lemma emits_write_local bs : emits (pb_write (WLocal bs) (Z.of_nat (length bs))) bs.
Proof.
  apply emits_write. intros s mem' Hs _ _ Hm. unfold buf_write. rewrite bind_gets.
  rewrite (bind_ok _ _ _ tt (mk_estate (set_os_state (os_state (es_out s) +
            Z.of_nat (length bs)) (es_out s)) (es_mem s))) by done.
  rewrite Nat2Z.id, Nat.leb_refl, firstn_all. unfold store_bytes. cbn. by rewrite Hm.
Qed.

Lemma emits_write_mem a bs :
  mem_load ro a (length bs) = Some bs -> emits (pb_write (WMem a) (Z.of_nat (length bs))) bs.
Proof.
  intros Hl. apply emits_write. intros s mem' Hs Hz Hroom Hm. unfold buf_write.
  rewrite bind_gets.
  rewrite (bind_ok _ _ _ tt (mk_estate (set_os_state (os_state (es_out s) +
            Z.of_nat (length bs)) (es_out s)) (es_mem s))) by done.
  rewrite Nat2Z.id. unfold copy_bytes. cbn.
  assert (bs = [] \/ os_state (es_out s) + Z.of_nat (length bs) <= a \/
          a + Z.of_nat (length bs) <= os_state (es_out s)) as Hd.
  { destruct bs as [|b bs]; [by left|right].
    assert (forall i, (i < length (b :: bs))%nat -> ~ (lo <= a + Z.of_nat i < hi)) as Hi.
    { intros i Hi. apply Hdisj. apply mem_load_lookup in Hl as [_ Hl]. rewrite Hl by done.
      by apply lookup_lt_is_Some. }
    destruct (Z_le_gt_dec (os_state (es_out s) + Z.of_nat (length (b :: bs))) a); [by left|].
    destruct (Z_le_gt_dec (a + Z.of_nat (length (b :: bs))) (os_state (es_out s))); [by right|].
    exfalso. destruct Hs as [_ _ _ Hst]. unfold room, is_sizing in *.
    destruct (os_callback (es_out s)); try done. cbn [orb] in Hroom. zbool.
    destruct (Z_lt_ge_dec a (os_state (es_out s))).
    - apply (Hi (Z.to_nat (os_state (es_out s) - a))); lia.
    - apply (Hi 0%nat); cbn [length] in *; lia. }
  destruct Hd as [-> | Hd]; [cbn in Hm |- *; congruence|].
  rewrite mem_copy_disjoint by done. rewrite (ro_load _ _ _ _ (rd_ro _ Hs) Hl). by rewrite Hm.
Qed.

(** ** Varints *)

(** The base-128 digits of a value, each with the continuation bit. *)
Fixpoint groups (n : nat) (v : Z) : list Z :=
  match n with
  | O => []
  | S n => if v =? 0 then [] else (v mod 128 + 128) :: groups n (v / 128)
  end.

Lemma groups_length n v : (length (groups n v) <= n)%nat.
Proof. revert v. induction n as [|n IH]; intros v; cbn; [lia|]. destruct (v =? 0); cbn; [lia|]. specialize (IH (v / 128)). lia. Qed.

Lemma groups_0 n : groups n 0 = [].
Proof. by destruct n. Qed.

Lemma last_digit v : 0 <= v < 128 -> v = Z.land (v mod 128 + 128) 0x7F.
Proof.
  intros Hv. rewrite land_7F, (Z.mod_small v) by lia. apply Z.mod_unique with 1; lia.
Qed.

(** A varint is its digits, the last one without the continuation bit. *)
Lemma groups_varint n v :
  0 < v < 2 ^ (7 * Z.of_nat (S n)) ->
  exists g b, groups (S n) v = g ++ [b] /\ varint_bytes_n n v = g ++ [Z.land b 0x7F].
Proof.
  revert v. induction n as [|n IH]; intros v Hv.
  - cbn in Hv. exists [], (v mod 128 + 128). cbn. destruct (Z.eqb_spec v 0); [lia|].
    split; [done|]. destruct (Z.ltb_spec v 128); [|lia]. cbn [app]. f_equal.
    apply last_digit. lia.
  - cbn [varint_bytes_n]. change (groups (S (S n)) v) with
      (if v =? 0 then [] else (v mod 128 + 128) :: groups (S n) (v / 128)).
    destruct (Z.eqb_spec v 0); [lia|]. destruct (Z.ltb_spec v 128).
    + rewrite (Z.div_small v) by lia. rewrite groups_0. exists [], (v mod 128 + 128).
      split; [done|]. cbn [app]. f_equal.
      apply last_digit. lia.
    + destruct (IH (v / 128)) as (g & b & -> & ->).
      { split; [apply Z.div_str_pos; lia|]. apply Z.div_lt_upper_bound; [lia|].
        replace (7 * Z.of_nat (S (S n))) with (7 + 7 * Z.of_nat (S n)) in Hv by lia.
        rewrite Z.pow_add_r in Hv by lia. lia. }
      by exists ((v mod 128 + 128) :: g), b.
Qed.

Lemma continuation_byte v : u8 (Z.lor (Z.land v 0x7F) 0x80) = v mod 128 + 128.
Proof.
  rewrite land_7F. pose proof (Z.mod_pos_bound v 128 ltac:(lia)).
  change (Z.lor (v mod 128) 128) with (Z.lor (v mod 128) (Z.shiftl 1 7)).
  rewrite (lor_shiftl_add (v mod 128)) by (change (2 ^ 7) with 128; lia). change (1 * 2 ^ 7) with 128.
  apply uwrap_small. lia.
Qed.

Lemma varint_buffer_loop n fuel v buffer (s : estate) :
  0 <= v < 2 ^ (7 * Z.of_nat n) -> (length buffer + n <= 10)%nat -> (n < fuel)%nat ->
  loop fuel (fun '(value, buffer) =>
    if value =? 0 then ret (inr buffer)
    else if (length buffer <? 10)%nat then
      ret (inl (Z.shiftr value 7, buffer ++ [u8 (Z.lor (Z.land value 0x7F) 0x80)]))
    else ub) (v, buffer) s = Ok (buffer ++ groups n v) s.
Proof.
  revert fuel v buffer. induction n as [|n IH]; intros fuel v buffer Hv Hlen Hf;
    (destruct fuel as [|fuel]; [lia|]); rewrite loop_S.
  - cbn in Hv. replace v with 0 by lia. cbn. by rewrite app_nil_r.
  - cbn [groups]. destruct (Z.eqb_spec v 0) as [->|Hz].
    + cbn. by rewrite app_nil_r.
    + destruct (Nat.ltb_spec (length buffer) 10); [|lia]. rewrite bind_ret.
      rewrite continuation_byte, Z.shiftr_div_pow2 by lia. change (2 ^ 7) with 128.
      rewrite IH; [by rewrite <- app_assoc| |rewrite length_app; cbn; lia|lia].
      split; [apply Z.div_pos; lia|]. apply Z.div_lt_upper_bound; [lia|].
      replace (7 * Z.of_nat (S n)) with (7 + 7 * Z.of_nat n) in Hv by lia.
      rewrite Z.pow_add_r in Hv by lia. lia.
Qed.

Lemma insert_last {A} (g : list A) b c : <[(length (g ++ [b]) - 1)%nat := c]> (g ++ [b]) = g ++ [c].
Proof.
  rewrite length_app. cbn. replace (length g + 1 - 1)%nat with (length g + 0)%nat by lia.
  by rewrite insert_app_r.
Qed.

(** [pb_encode_varint] writes the canonical varint. *)
Lemma emits_varint v : 0 <= v < 2 ^ 64 -> emits (pb_encode_varint v) (varint_bytes v).
Proof.
  intros Hv. unfold pb_encode_varint. destruct (Z.leb_spec v 0x7F) as [Hle|Hgt].
  - rewrite uwrap_small by lia.
    assert (varint_bytes v = [v]) as -> by
      (unfold varint_bytes; cbn; destruct (Z.ltb_spec v 128); [done|lia]).
    apply (emits_write_local [v]).
  - destruct (groups_varint 9 v) as (g & b & Hg & Hb); [change (7 * Z.of_nat 10) with 70; lia|].
    eapply emits_bind_reads.
    { intros s _. unfold varint_buffer.
      rewrite (varint_buffer_loop 10); [reflexivity| |done|lia].
      change (7 * Z.of_nat 10) with 70. lia. }
    rewrite app_nil_l, Hg.
    eapply emits_bind_reads.
    { rewrite length_app. cbn. replace (length g + 1 - 1)%nat with (length g + 0)%nat by lia.
      rewrite lookup_app_r by lia. replace (length g + 0 - length g)%nat with 0%nat by lia.
      cbn. apply reads_ret. }
    rewrite insert_last. unfold varint_bytes. rewrite Hb.
    replace (length (g ++ [b])) with (length (g ++ [Z.land b 127])) by by rewrite !length_app.
    apply emits_write_local.
Qed.

(** The zigzag transformation on 64-bit values. *)
Lemma emits_svarint v :
  - 2 ^ 63 <= v < 2 ^ 63 -> emits (pb_encode_svarint v) (varint_bytes (zigzag v)).
Proof.
  intros Hv. unfold pb_encode_svarint.
  assert ((if v <? 0 then u64 (Z.lnot (u64 (Z.shiftl (u64 v) 1)))
           else u64 (Z.shiftl (u64 v) 1)) = zigzag v) as ->.
  { rewrite Z.shiftl_mul_pow2 by lia. change (2 ^ 1) with 2.
    assert (u64 (u64 v * 2) = u64 (v * 2)) as ->
      by (unfold uwrap; rewrite Z.mul_mod_idemp_l by lia; done).
    unfold zigzag. destruct (Z.ltb_spec v 0).
    - unfold Z.lnot, uwrap.
      assert ((v * 2) mod 2 ^ 64 = 2 ^ 64 + v * 2) as -> by
        (symmetry; apply Z.mod_unique with (-1); lia).
      symmetry; apply Z.mod_unique with (-1); lia.
    - rewrite uwrap_small by lia. lia. }
  apply emits_varint. unfold zigzag. destruct (Z.ltb_spec v 0); lia.
Qed.

Lemma tag_value_eq wt tag :
  0 <= tag < 2 ^ 32 -> 0 <= wt < 8 ->
  Z.lor (u64 (Z.shiftl (u64 tag) 3)) wt = tag_value wt tag /\ 0 <= tag_value wt tag < 2 ^ 64.
Proof.
  intros Ht Hw. rewrite (uwrap_small 64 tag) by lia.
  rewrite (uwrap_small 64) by (rewrite Z.shiftl_mul_pow2; lia).
  rewrite Z.lor_comm, lor_shiftl_add by lia. unfold tag_value. lia.
Qed.

Lemma emits_tag wt tag :
  0 <= tag < 2 ^ 32 -> 0 <= wt < 8 ->
  emits (pb_encode_tag wt tag) (varint_bytes (tag_value wt tag)).
Proof.
  intros Ht Hw. unfold pb_encode_tag. destruct (tag_value_eq wt tag Ht Hw) as [-> ?].
  by apply emits_varint.
Qed.

Lemma emits_tag_for_field f wt :
  wiretype_of_ltype (PB_LTYPE (pf_type f)) = Some wt -> 0 <= pf_tag f < 2 ^ 32 ->
  emits (pb_encode_tag_for_field f) (varint_bytes (tag_value wt (pf_tag f))).
Proof.
  intros Hw Ht. unfold pb_encode_tag_for_field. rewrite Hw. apply emits_tag; [done|].
  unfold wiretype_of_ltype in Hw.
  repeat match type of Hw with (if ?c then _ else _) = _ => destruct c end; simplify_eq; done.
Qed.

(** Fixed-width values are copied. *)
Lemma emits_fixed32 a l : mem_load ro a 4 = Some l -> Forall is_byte l -> emits (pb_encode_fixed32 a) l.
Proof.
  intros Hl Hb. unfold pb_encode_fixed32. eapply emits_bind_reads; [by apply reads_load|].
  assert ([u8 (Z.land (le_combine l) 255); u8 (Z.land (Z.shiftr (le_combine l) 8) 255);
           u8 (Z.land (Z.shiftr (le_combine l) 16) 255);
           u8 (Z.land (Z.shiftr (le_combine l) 24) 255)] = l) as E.
  { apply mem_load_length in Hl. rewrite <- (le_split_combine l Hb) at 5. rewrite Hl.
    cbn [le_split]. rewrite !Z.shiftr_shiftr by lia. cbn [Z.add Pos.add Pos.succ].
    assert (forall x, u8 (Z.land x 255) = Z.land x 255) as Hu.
    { intros x. change 255 with (Z.ones 8). rewrite Z.land_ones by lia. apply uwrap_uwrap. lia. }
    by rewrite !Hu. }
  rewrite E. pose proof (emits_write_local l) as H. apply mem_load_length in Hl.
  rewrite Hl in H. exact H.
Qed.

Lemma emits_fixed64 a l : mem_load ro a 8 = Some l -> Forall is_byte l -> emits (pb_encode_fixed64 a) l.
Proof.
  intros Hl Hb. unfold pb_encode_fixed64. eapply emits_bind_reads; [by apply reads_load|].
  set (v := le_combine l).
  assert ([u8 (Z.land v 255); u8 (Z.land (Z.shiftr v 8) 255); u8 (Z.land (Z.shiftr v 16) 255);
           u8 (Z.land (Z.shiftr v 24) 255); u8 (Z.land (Z.shiftr v 32) 255);
           u8 (Z.land (Z.shiftr v 40) 255); u8 (Z.land (Z.shiftr v 48) 255);
           u8 (Z.land (Z.shiftr v 56) 255)] = l) as E.
  { apply mem_load_length in Hl. rewrite <- (le_split_combine l Hb). rewrite Hl.
    cbn [le_split]. fold v. rewrite !Z.shiftr_shiftr by lia. cbn [Z.add Pos.add Pos.succ].
    assert (forall x, u8 (Z.land x 255) = Z.land x 255) as Hu.
    { intros x. change 255 with (Z.ones 8). rewrite Z.land_ones by lia. apply uwrap_uwrap. lia. }
    by rewrite !Hu. }
  rewrite E. pose proof (emits_write_local l) as H. apply mem_load_length in Hl.
  rewrite Hl in H. exact H.
Qed.

(** A length-delimited value from the message. *)
Lemma emits_string a l :
  mem_load ro a (length l) = Some l -> Z.of_nat (length l) < 2 ^ 64 ->
  emits (pb_encode_string (WMem a) (Z.of_nat (length l)))
        (varint_bytes (Z.of_nat (length l)) ++ l).
Proof.
  intros Hl Hlen. unfold pb_encode_string. rewrite uwrap_small by lia.
  apply emits_seq; [apply emits_varint; lia|by apply emits_write_mem].
Qed.

Lemma emits_empty_string :
  emits (pb_encode_string WNull 0) [0].
Proof.
  apply (emits_seq _ _ [0] []); [by apply (emits_varint 0)|].
  apply (emits_write WNull []). intros s mem' _ _ _ [= <-]. unfold buf_write. rewrite bind_gets.
  cbn. unfold on_out, bind, modify, ret. done.
Qed.

(** ** Measuring *)

(** The bound on the stream bounds every piece of the output. *)
Lemma emits_bounded m bs :
  (Z.of_nat (length bs) < 2 ^ size_bits -> emits m bs) -> emits m bs.
Proof.
  intros H s Hs Hov. apply H; [|done|done]. pose proof (rd_written _ Hs). lia.
Qed.

Lemma ready_sizing m : ro ⊆ m -> ready (mk_estate PB_OSTREAM_SIZING m).
Proof. intros H. by split. Qed.

(** A sizing stream measures the output and changes nothing. *)
Lemma reads_sizing m bs :
  emits m bs -> Z.of_nat (length bs) < 2 ^ size_bits ->
  reads (on_ostream PB_OSTREAM_SIZING m)
        (Some tt, written (Z.of_nat (length bs)) PB_OSTREAM_SIZING).
Proof.
  intros H Hlen s Hro. destruct (H _ (ready_sizing _ Hro)) as (mem' & E & ->); [done|].
  unfold on_ostream. rewrite E. by destruct s.
Qed.

(** Once the size is known, a sizing stream only counts. *)
Lemma emits_sized m bs :
  emits m bs ->
  emits (let! stream := gets es_out in
         if is_sizing stream then pb_write WNull (Z.of_nat (length bs)) else m) bs.
Proof.
  intros H s Hs Hov. rewrite bind_gets. specialize (H s Hs Hov).
  destruct (is_sizing (es_out s)) eqn:Es; [|exact H].
  assert (pb_write WNull (Z.of_nat (length bs)) s =
          Ok tt (mk_estate (written (Z.of_nat (length bs)) (es_out s)) (es_mem s))) as Hw.
  { unfold pb_write. rewrite bind_gets, Es. cbn [negb].
    rewrite bind_ret. unfold on_out, modify, set_bytes_written, written.
    by rewrite Es, usize_written by (done || lia). }
  rewrite Hw. unfold room. rewrite Es. by exists (es_mem s).
Qed.

End output.

(** ** Encoding into a buffer *)

Section on_buffer.
Context {PL : Platform} {UW : UserWrite}.
Context (ro m : mem) (buf cap : Z).

(** [ro] holds the message; the buffer of [cap] bytes at [buf] is elsewhere. *)
Record output_buffer : Prop := mk_output_buffer {
  ob_message : ro ⊆ m;
  ob_bytes : mem_bytes ro;
  ob_disjoint : forall x, is_Some (ro !! x) -> ~ (buf <= x < buf + cap);
  ob_mapped : mapped m buf (buf + cap);
  ob_size : 0 <= cap < 2 ^ size_bits
}.

Definition on_buffer : estate := mk_estate (pb_ostream_from_buffer buf cap) m.

Lemma on_buffer_ready : output_buffer -> ready ro buf (buf + cap) on_buffer.
Proof. intros [Hro Hb Hd Hm Hc]. split; cbn; try done. split; [done|]. lia. Qed.

(** What a buffer stream holds after [bs] has been emitted. *)
Lemma emits_on_buffer (w : M estate unit) bs :
  output_buffer -> emits ro buf (buf + cap) w bs -> Z.of_nat (length bs) <= cap ->
  exists m', w on_buffer = Ok tt (mk_estate (written (Z.of_nat (length bs)) (es_out on_buffer)) m') /\
             mem_store m buf bs = Some m'.
Proof.
  intros OB H Hlen. pose proof (ob_size OB) as Hc.
  specialize (H on_buffer (on_buffer_ready OB)). cbn [os_bytes_written es_out on_buffer
    pb_ostream_from_buffer] in H. specialize (H ltac:(lia)).
  unfold room in H. cbn [is_sizing os_callback pb_ostream_from_buffer es_out on_buffer
    os_bytes_written os_max_size orb] in H.
  destruct (Z.leb_spec (0 + Z.of_nat (length bs)) cap); [|lia].
  destruct H as (m' & -> & H). by exists m'.
Qed.

Lemma emits_overflow (w : M estate unit) bs :
  output_buffer -> emits ro buf (buf + cap) w bs ->
  cap < Z.of_nat (length bs) < 2 ^ size_bits ->
  exists s', w on_buffer = Err s' /\ os_errmsg (es_out s') = Some "stream full"%string /\
             mem_le buf (buf + cap) m (es_mem s').
Proof.
  intros OB H Hlen. specialize (H on_buffer (on_buffer_ready OB)).
  cbn [os_bytes_written es_out on_buffer pb_ostream_from_buffer] in H. specialize (H ltac:(lia)).
  unfold room in H. cbn [is_sizing os_callback pb_ostream_from_buffer es_out on_buffer
    os_bytes_written os_max_size orb] in H.
  destruct (Z.leb_spec (0 + Z.of_nat (length bs)) cap); [lia|].
  destruct H as (s' & -> & _ & Hle & He). by exists s'.
Qed.

(** The bytes emitted are the input of a stream opened on the buffer. *)
Definition reading (m' : mem) (n : Z) : dstate := mk_dstate (pb_istream_from_buffer buf n) m'.

Lemma emitted_input (w : M estate unit) bs :
  output_buffer -> emits ro buf (buf + cap) w bs -> Z.of_nat (length bs) <= cap ->
  Forall is_byte bs ->
  exists m', w on_buffer = Ok tt (mk_estate (written (Z.of_nat (length bs)) (es_out on_buffer)) m') /\
             mem_le buf (buf + cap) m m' /\
             buf_input (reading m' (Z.of_nat (length bs))) bs.
Proof.
  intros OB H Hlen Hb. destruct (emits_on_buffer w bs OB H Hlen) as (m' & E & Hm).
  exists m'. split; [done|]. split.
  { eapply mem_le_weaken; [by apply mem_store_le|lia..]. }
  pose proof (ob_size OB). split; [done|]. split; [done|]. split; [lia|].
  split; [by eapply mem_load_store|done].
Qed.

End on_buffer.
