(* ===== verification/EncodeTheorems.v ===== *)
(** * The bytes of a message

    The wire encoding of a message, computed from its descriptor array and the
    memory it lies in, without streams or effects; and the refinement theorem:
    the encoder emits exactly these bytes. *)

From Stdlib Require Import ZArith Lia.
From stdpp Require Import base option list strings gmap.
From S2P Require Import Prelude Memory Descr Encode Wire Layout Examples Output.

(** ** The specification *)

Section spec.
Context {PL : Platform} {DS : Descriptors} (ro : mem).

Definition le_at (n : nat) (a : Z) : option Z := le_combine <$> mem_load ro a n.

Definition ptr_at (a : Z) : option Z := le_at (Z.to_nat ptr_size) a.

Definition unsigned_at (data_size a : Z) : option Z :=
  if (data_size =? 1) || (data_size =? 2) || (data_size =? 4) || (data_size =? 8)
  then le_at (Z.to_nat data_size) a else None.

Definition signed_at (data_size a : Z) : option Z :=
  swrap (8 * data_size) <$> unsigned_at data_size a.

(** The bytes before the terminator, of which at most [n] are looked at. *)
Fixpoint c_string (bounded : bool) (n : nat) (a : Z) : option (list Z) :=
  match n with
  | O => if bounded then Some [] else None
  | S n =>
      match ro !! a with
      | Some b => if b =? 0 then Some [] else cons b <$> c_string bounded n (a + 1)
      | None => None
      end
  end.

(** A value preceded by its length. *)
Definition delimited (l : list Z) : list Z := varint_bytes (Z.of_nat (length l)) ++ l.

(** One value, without its tag. *)
Definition item_bytes (message : list pb_field_t -> Z -> option (list Z))
    (f : pb_field_t) (a : Z) : option (list Z) :=
  let ltype := PB_LTYPE (pf_type f) in
  let size := pf_data_size f in
  if ltype =? PB_LTYPE_VARINT then
    (fun v => varint_bytes (u64 v)) <$> signed_at size a
  else if ltype =? PB_LTYPE_UVARINT then
    (fun v => varint_bytes v) <$> unsigned_at size a
  else if ltype =? PB_LTYPE_SVARINT then
    (fun v => varint_bytes (zigzag v)) <$> signed_at size a
  else if ltype =? PB_LTYPE_FIXED32 then mem_load ro a 4
  else if ltype =? PB_LTYPE_FIXED64 then mem_load ro a 8
  else if ltype =? PB_LTYPE_BYTES then
    if a =? 0 then Some [0]
    else
      n ← le_at 4 a;
      if (PB_ATYPE (pf_type f) =? PB_ATYPE_STATIC) && (size <? PB_BYTES_ARRAY_T_ALLOCSIZE n)
      then None
      else delimited <$> mem_load ro (a + offsetof_bytes) (Z.to_nat n)
  else if ltype =? PB_LTYPE_STRING then
    if a =? 0 then Some [0]
    else if PB_ATYPE (pf_type f) =? PB_ATYPE_POINTER
    then delimited <$> c_string false (S (base.size ro)) a
    else delimited <$> c_string true (Z.to_nat size) a
  else if ltype =? PB_LTYPE_SUBMESSAGE then
    if pf_ptr f =? 0 then None
    else sub ← descriptors_at (pf_ptr f); delimited <$> message sub a
  else if ltype =? PB_LTYPE_FIXED_LENGTH_BYTES then
    delimited <$> mem_load ro a (Z.to_nat size)
  else None.

Definition tagged (f : pb_field_t) (l : list Z) : option (list Z) :=
  (fun wt => varint_bytes (tag_value wt (pf_tag f)) ++ l) <$>
  wiretype_of_ltype (PB_LTYPE (pf_type f)).

(** [n] consecutive values. *)
Fixpoint items_bytes (n : nat) (stride a : Z) (item : Z -> option (list Z))
    : option (list Z) :=
  match n with
  | O => Some []
  | S n => l ← item a; (fun l' => l ++ l') <$> items_bytes n stride (a + stride) item
  end.

(** Numbers are packed into one record, other values have a record each. *)
Definition array_bytes (message : list pb_field_t -> Z -> option (list Z))
    (f : pb_field_t) (a count : Z) : option (list Z) :=
  let pointer := PB_ATYPE (pf_type f) =? PB_ATYPE_POINTER in
  let n := Z.to_nat count in
  if count =? 0 then Some []
  else if negb pointer && (pf_array_size f <? count) then None
  else if PB_LTYPE (pf_type f) <=? PB_LTYPE_LAST_PACKABLE then
    (fun l => varint_bytes (tag_value PB_WT_STRING (pf_tag f)) ++ delimited l) <$>
    items_bytes n (pf_data_size f) a (item_bytes message f)
  else
    items_bytes n (pf_data_size f) a (fun p =>
      p' ← (if pointer && ((PB_LTYPE (pf_type f) =? PB_LTYPE_STRING) ||
                           (PB_LTYPE (pf_type f) =? PB_LTYPE_BYTES))
            then ptr_at p else Some p);
      l ← item_bytes message f p'; tagged f l).

(** Whether a value is the proto3 default. *)
Fixpoint zeros (n : nat) (a : Z) : option bool :=
  match n with
  | O => Some true
  | S n => b ← ro !! a; if b =? 0 then zeros n (a + 1) else Some false
  end.

(** The first field that is not default decides. *)
Fixpoint all_default (default : pb_field_t -> Z -> option bool)
    (ps : list (pb_field_iter_t * pb_field_t)) : option bool :=
  match ps with
  | [] => Some true
  | p :: ps =>
      b ← default (snd p) (it_pData (fst p));
      if b : bool then all_default default ps else Some false
  end.

Fixpoint is_default (fuel : nat) (f : pb_field_t) (a : Z) : option bool :=
  match fuel with
  | O => None
  | S fuel =>
      let static := PB_ATYPE (pf_type f) =? PB_ATYPE_STATIC in
      let ltype := PB_LTYPE (pf_type f) in
      if static && (ltype =? PB_LTYPE_BYTES) then (fun n => n =? 0) <$> le_at 4 a
      else if static && (ltype =? PB_LTYPE_STRING) then (fun n => n =? 0) <$> le_at 1 a
      else if static && (ltype =? PB_LTYPE_FIXED_LENGTH_BYTES)
      then Some (pf_data_size f =? 0)
      else if static && (ltype =? PB_LTYPE_SUBMESSAGE) then
        sub ← descriptors_at (pf_ptr f);
        if terminated sub then all_default (is_default fuel) (positions sub a) else None
      else zeros (Z.to_nat (pf_data_size f)) a
  end.

Definition bool_at (a : Z) : option bool :=
  v ← le_at 1 a; if v =? 0 then Some false else if v =? 1 then Some true else None.

(** A field that is stored in the message or behind a pointer of it. *)
Definition basic_bytes (fuel : nat) (message : list pb_field_t -> Z -> option (list Z))
    (f : pb_field_t) (pData : Z) : option (list Z) :=
  let htype := PB_HTYPE (pf_type f) in
  let pSize := pData + pf_size_offset f in
  let explicit := negb (pf_size_offset f =? 0) in
  default ← (if negb explicit && (htype =? PB_HTYPE_OPTIONAL)
             then is_default fuel f pData else Some false);
  let pointer := PB_ATYPE (pf_type f) =? PB_ATYPE_POINTER in
  a ← (if pointer then ptr_at pData else Some pData);
  if PB_LTYPES_COUNT <=? PB_LTYPE (pf_type f) then None else
  let one := l ← item_bytes message f a; tagged f l in
  if htype =? PB_HTYPE_REQUIRED then if a =? 0 then None else one
  else if htype =? PB_HTYPE_OPTIONAL then
    has ← (if explicit then bool_at pSize
           else if pointer then Some (negb (a =? 0)) else Some (negb default));
    if has : bool then one else Some []
  else if negb explicit then None
  else if htype =? PB_HTYPE_REPEATED then
    count ← le_at 4 pSize; array_bytes message f a count
  else
    which ← le_at 4 pSize; if which =? pf_tag f then one else Some [].

(** A callback field or an extension field contributes nothing when it is not
    set; what application code writes is not specified. *)
Definition field_bytes (fuel : nat) (message : list pb_field_t -> Z -> option (list Z))
    (f : pb_field_t) (pData : Z) : option (list Z) :=
  let atype := PB_ATYPE (pf_type f) in
  if PB_LTYPE (pf_type f) =? PB_LTYPE_EXTENSION then
    extension ← ptr_at pData; if extension =? 0 then Some [] else None
  else if (atype =? PB_ATYPE_STATIC) || (atype =? PB_ATYPE_POINTER)
  then basic_bytes fuel message f pData
  else if atype =? PB_ATYPE_CALLBACK then
    fn ← ptr_at pData; if fn =? 0 then Some [] else None
  else None.

Fixpoint concat_bytes (field : pb_field_t -> Z -> option (list Z))
    (ps : list (pb_field_iter_t * pb_field_t)) : option (list Z) :=
  match ps with
  | [] => Some []
  | p :: ps =>
      l ← field (snd p) (it_pData (fst p));
      (fun l' => l ++ l') <$> concat_bytes field ps
  end.

(** The fields in the order of the descriptors. *)
Fixpoint message_bytes (fuel : nat) (fields : list pb_field_t) (base : Z)
    : option (list Z) :=
  match fuel with
  | O => None
  | S fuel =>
      if terminated fields && forallb well_typed fields
      then concat_bytes (field_bytes fuel (message_bytes fuel)) (positions fields base)
      else None
  end.

End spec.

(** ** The encoder reads what the specification reads *)

Section refinement.
Context {PL : Platform} {UW : UserWrite} {UE : UserEncode} {DS : Descriptors}.
Context (ro : mem) (lo hi : Z).
Context (Hdisj : forall x, is_Some (ro !! x) -> ~ (lo <= x < hi)) (Hbytes : mem_bytes ro).

Abbreviation reads := (reads ro).
Abbreviation emits := (emits ro lo hi).

Lemma le_at_inv n a v :
  le_at ro n a = Some v -> reads (load_le n a) v /\ 0 <= v < 2 ^ (8 * Z.of_nat n).
Proof.
  unfold le_at. destruct (mem_load ro a n) as [l|] eqn:E; [|done]. intros [= <-].
  split; [by apply reads_load|]. pose proof (mem_load_length _ _ _ _ E) as <-.
  apply le_combine_range. by eapply mem_load_bytes.
Qed.

Lemma reads_ptr a v : ptr_at ro a = Some v -> reads (load_ptr a) v.
Proof. intros H. by apply le_at_inv in H as [H _]. Qed.

Lemma reads_unsigned size a v :
  unsigned_at ro size a = Some v -> reads (load_unsigned size a) v /\ 0 <= v < 2 ^ 64.
Proof.
  unfold unsigned_at, load_unsigned. intros H.
  assert (forall n, (n <= 8)%nat -> le_at ro n a = Some v ->
            reads (load_le n a) v /\ 0 <= v < 2 ^ 64) as Hle.
  { intros n Hn E. apply le_at_inv in E as [? ?]. split; [done|].
    assert (2 ^ (8 * Z.of_nat n) <= 2 ^ 64) by (apply Z.pow_le_mono_r; lia). lia. }
  destruct (Z.eqb_spec size 1) as [->|]; [by apply Hle; [lia|]|].
  destruct (Z.eqb_spec size 2) as [->|]; [by apply Hle; [lia|]|].
  destruct (Z.eqb_spec size 4) as [->|]; [by apply Hle; [lia|]|].
  destruct (Z.eqb_spec size 8) as [->|]; [by apply Hle; [lia|]|].
  done.
Qed.

Lemma reads_signed size a v :
  signed_at ro size a = Some v -> reads (load_signed size a) v /\ - 2 ^ 63 <= v < 2 ^ 63.
Proof.
  unfold signed_at, unsigned_at, load_signed. intros H.
  assert (forall n w, 0 < w <= 64 -> swrap w <$> le_at ro n a = Some v ->
            reads (let! v := load_le n a in ret (swrap w v)) v /\ - 2 ^ 63 <= v < 2 ^ 63) as Hr.
  { intros n w Hw Hn. destruct (le_at ro n a) as [k|] eqn:E; [|done]. injection Hn as <-.
    apply le_at_inv in E as [E _].
    split; [eapply reads_bind; [exact E|apply reads_ret]|].
    pose proof (swrap_range w k ltac:(lia)).
    assert (2 ^ (w - 1) <= 2 ^ 63) by (apply Z.pow_le_mono_r; lia). lia. }
  destruct (Z.eqb_spec size 1) as [->|]; [by apply Hr; [lia|]|].
  destruct (Z.eqb_spec size 2) as [->|]; [by apply Hr; [lia|]|].
  destruct (Z.eqb_spec size 4) as [->|]; [by apply Hr; [lia|]|].
  destruct (Z.eqb_spec size 8) as [->|]; [by apply Hr; [lia|]|].
  done.
Qed.

Lemma reads_byte a b : ro !! a = Some b -> reads (load_le 1 a) b.
Proof.
  intros H. assert (le_at ro 1 a = Some (le_combine [b])) as E.
  { unfold le_at. cbn. by rewrite H. }
  apply le_at_inv in E as [E _]. cbn in E. by rewrite Z.add_0_r in E.
Qed.

(** The length the encoder computes is that of the string. *)
Lemma reads_string_length bounded n k a l acc :
  c_string ro bounded n a = Some l -> (n <= k)%nat -> (bounded = true -> k = n) ->
  reads (string_length k a acc) (acc + Z.of_nat (length l)) /\
  mem_load ro a (length l) = Some l.
Proof.
  revert k a l acc. induction n as [|n IH]; intros k a l acc; cbn [c_string].
  - destruct bounded; [|done]. intros [= <-] _ Hk. rewrite (Hk eq_refl). cbn.
    rewrite Z.add_0_r. split; [apply reads_ret|done].
  - destruct (ro !! a) as [b|] eqn:Hb; [|done]. intros H Hle Hk.
    destruct k as [|k]; [lia|]. cbn [string_length].
    destruct (Z.eqb_spec b 0) as [->|Hz].
    + injection H as <-. cbn. rewrite Z.add_0_r. split; [|done].
      eapply reads_bind; [by apply reads_byte|]. apply reads_ret.
    + destruct (c_string ro bounded n (a + 1)) as [l'|] eqn:E; [|done]. injection H as <-.
      destruct (IH k (a + 1) l' (acc + 1) E) as [H1 H2]; [lia|intros Ht; specialize (Hk Ht); lia|].
      cbn [length mem_load]. rewrite Hb, H2. split; [|done].
      eapply reads_bind; [by apply reads_byte|]. destruct (Z.eqb_spec b 0); [done|].
      by replace (acc + Z.of_nat (S (length l'))) with (acc + 1 + Z.of_nat (length l')) by lia.
Qed.

Lemma reads_all_zero n a b : zeros ro n a = Some b -> reads (all_zero n a) b.
Proof.
  revert a. induction n as [|n IH]; intros a; cbn [zeros all_zero].
  - intros [= <-]. apply reads_ret.
  - destruct (ro !! a) as [c|] eqn:Hc; [|done]. cbn. intros H.
    eapply reads_bind; [by apply reads_byte|].
    destruct (c =? 0); cbn [negb]; [by apply IH|]. injection H as <-. apply reads_ret.
Qed.

Lemma reads_bool a b : bool_at ro a = Some b -> reads (load_bool a) b.
Proof.
  unfold bool_at, load_bool. destruct (le_at ro 1 a) as [v|] eqn:E; [|done]. cbn. intros H.
  eapply reads_bind; [by apply le_at_inv in E as [E _]|].
  destruct (v =? 0); [injection H as <-; apply reads_ret|].
  destruct (v =? 1); [injection H as <-; apply reads_ret|done].
Qed.

(** ** The proto3 presence test *)

Lemma reads_all_default default check fields base fuel i p b :
  (forall f a b, default f a = Some b -> reads (check f a) b) ->
  terminated fields = true -> positions fields base !! i = Some p ->
  (length (positions fields base) - i < fuel)%nat ->
  all_default default (drop i (positions fields base)) = Some b ->
  reads (loop fuel (fun it =>
    let! f := iter_field it in
    let! b := check f (it_pData it) in
    if negb b then ret (inr false)
    else
      let! r := pb_field_iter_next it in
      if snd r then ret (inl (fst r)) else ret (inr true)) (fst p)) b.
Proof.
  intros Hc Ht. revert i p b. induction fuel as [|fuel IH]; intros i p b Hp Hf Hall; [lia|].
  apply lookup_lt_Some in Hp as Hlt. rewrite (drop_S _ _ _ Hp) in Hall. cbn [all_default] in Hall.
  destruct (default (snd p) (it_pData (fst p))) as [d|] eqn:Ed; [|done]. cbn in Hall.
  apply Hc in Ed. intros s Hs. rewrite loop_S. unfold bind.
  rewrite (iter_field_eq _ _ _ _ s Hp), (Ed s Hs).
  destruct d; cbn [negb]; [|by injection Hall as <-].
  rewrite (pb_field_iter_next_eq _ _ _ _ s Ht Hp).
  destruct (positions fields base !! S i) as [q|] eqn:Eq.
  - cbn. eapply (IH (S i)); [done|lia|done|done].
  - apply lookup_ge_None in Eq. rewrite drop_ge in Hall by lia. injection Hall as <-.
    destruct (positions fields base !! 0%nat) as [q|] eqn:E0; [done|].
    apply lookup_ge_None in E0. lia.
Qed.

Lemma reads_default fuel f a b :
  is_default ro fuel f a = Some b -> reads (pb_check_proto3_default_value fuel f a) b.
Proof.
  revert f a b. induction fuel as [|fuel IH]; intros f a b; [done|].
  cbn [is_default pb_check_proto3_default_value].
  assert (forall n k, (fun v => v =? 0) <$> le_at ro n a = Some k ->
            reads (let! v := load_le n a in ret (v =? 0)) k) as Hle.
  { intros n k Hn. destruct (le_at ro n a) as [v|] eqn:E; [|done]. injection Hn as <-.
    apply le_at_inv in E as [E _]. eapply reads_bind; [exact E|apply reads_ret]. }
  destruct (_ && (_ =? PB_LTYPE_BYTES)); [by apply Hle|].
  destruct (_ && (_ =? PB_LTYPE_STRING)); [by apply Hle|].
  destruct (_ && (_ =? PB_LTYPE_FIXED_LENGTH_BYTES)); [intros [= <-]; apply reads_ret|].
  destruct (_ && (_ =? PB_LTYPE_SUBMESSAGE)); [|by apply reads_all_zero].
  destruct (descriptors_at (pf_ptr f)) as [sub|]; [|done]. cbn.
  destruct (terminated sub) eqn:Ht; [|done]. intros Hall.
  assert (exists f0, sub !! 0%nat = Some f0) as [f0 Hf0].
  { destruct sub as [|f0]; [done|]. by exists f0. }
  eapply reads_bind; [apply reads_ret|].
  eapply reads_bind; [intros s _; by apply pb_field_iter_begin_eq|]. cbn [fst snd].
  destruct (Z.eqb_spec (pf_tag f0) 0) as [Hz|Hz]; cbn [negb].
  - unfold positions in Hall. destruct sub as [|g rest]; [done|]. injection Hf0 as ->.
    rewrite Hz in Hall. injection Hall as <-. apply reads_ret.
  - pose proof (positions_length sub a).
    assert (positions sub a !! 0%nat = Some (first_position sub f0 a, f0)) as H0
      by by apply positions_nonempty.
    pose proof (reads_all_default (is_default ro fuel) (pb_check_proto3_default_value fuel) sub a
             (S (length sub)) 0 _ b IH Ht H0) as Hr.
    rewrite drop_0 in Hr. cbn [fst] in Hr. apply Hr; [lia|exact Hall].
Qed.

(** ** One value *)

Context (fuel : nat) (encode : list pb_field_t -> Z -> M estate unit)
  (message : list pb_field_t -> Z -> option (list Z)).
Context (Hencode : forall fields a bs, message fields a = Some bs -> emits (encode fields a) bs).

(** A submessage is measured, then emitted with its length. *)
Lemma emits_submessage fields a bs :
  message fields a = Some bs -> emits (pb_encode_submessage encode fields a) (delimited bs).
Proof.
  intros Hm. apply emits_bounded. intros Hlen. unfold delimited in Hlen.
  rewrite length_app in Hlen. pose proof size_bits_bound.
  eapply emits_bind_reads; [apply (reads_sizing ro lo hi _ bs); [by apply Hencode|lia]|].
  cbn [fst snd written os_bytes_written PB_OSTREAM_SIZING]. cbv zeta. rewrite Z.add_0_l.
  rewrite (uwrap_small 64) by lia.
  apply emits_seq; [done|apply emits_varint; lia|].
  intros s Hs Hov. pose proof (emits_sized ro lo hi _ _ (Hencode _ _ _ Hm) s Hs Hov) as Hsz.
  rewrite bind_gets in Hsz |- *. destruct (is_sizing (es_out s)) eqn:Es; [exact Hsz|].
  pose proof (usize_written ro lo hi s (Z.of_nat (length bs)) Hs ltac:(lia) Hov) as Eu.
  rewrite Eu. unfold room in Hsz |- *. rewrite Es in Hsz |- *. cbn [orb] in Hsz |- *.
  destruct (Z.ltb_spec (os_max_size (es_out s)) (os_bytes_written (es_out s) + Z.of_nat (length bs))),
    (Z.leb_spec (os_bytes_written (es_out s) + Z.of_nat (length bs)) (os_max_size (es_out s)));
    try lia.
  - eexists. split; [reflexivity|]. split; [done|]. split; [done|]. cbn.
    by rewrite (rd_errmsg _ _ _ _ Hs).
  - set (sub := mk_ostream (os_callback (es_out s)) (os_state (es_out s)) (Z.of_nat (length bs)) 0
                  None).
    assert (ready ro lo hi (mk_estate sub (es_mem s))) as Hsub.
    { pose proof Hs as [Hro He Hw Hst]. split; cbn; try done.
      destruct (os_callback (es_out s)); try done. destruct Hst as (Hmp & Hl & Hmax & Hend).
      split; [done|]. lia. }
    assert (room (Z.of_nat (length bs)) sub = true) as ER.
    { unfold room. cbn. by rewrite Z.leb_refl, orb_true_r. }
    pose proof (Hencode _ _ _ Hm _ Hsub ltac:(cbn; lia)) as Hok. cbn [es_out es_mem] in Hok.
    rewrite ER in Hok. destruct Hok as (mem' & Ew & Hmem').
    exists mem'. change (is_sizing sub) with (is_sizing (es_out s)) in Hmem'. rewrite Es in Hmem'.
    split; [|exact Hmem'].
    rewrite (bind_ok _ _ _ (Some tt, written (Z.of_nat (length bs)) sub)
               (mk_estate (es_out s) mem')) by (unfold on_ostream; by rewrite Ew).
    cbn [fst snd]. unfold on_out. rewrite bind_modify.
    cbn [written os_bytes_written]. rewrite Z.add_0_l, Z.eqb_refl. cbn [negb].
    unfold ret. f_equal. f_equal. unfold set_os_errmsg, set_os_state, set_bytes_written.
    cbn [os_callback os_state os_max_size os_bytes_written os_errmsg sub].
    cbn [es_out]. rewrite Eu. unfold written. change (is_sizing sub) with (is_sizing (es_out s)).
    rewrite Es, (rd_errmsg _ _ _ _ Hs). done.
Qed.

Lemma emits_delimited_mem a n l bs :
  mem_load ro a n = Some l -> bs = delimited l -> emits (pb_encode_string (WMem a) (Z.of_nat n)) bs.
Proof.
  intros Hl ->. apply emits_bounded. intros Hb. unfold delimited in *. rewrite length_app in Hb.
  pose proof size_bits_bound. pose proof (mem_load_length _ _ _ _ Hl) as <-.
  apply emits_string; [done|done|lia].
Qed.

Lemma emits_enc_bytes f a bs :
  PB_LTYPE (pf_type f) = PB_LTYPE_BYTES ->
  item_bytes ro message f a = Some bs -> emits (pb_enc_bytes f a) bs.
Proof.
  unfold item_bytes, pb_enc_bytes. intros ->. cbv zeta. ztests. destruct (a =? 0).
  { intros [= <-]. by apply emits_empty_string. }
  destruct (le_at ro 4 a) as [n|] eqn:E; [|done]. cbn [mbind option_bind]. apply le_at_inv in E as [E Hn].
  destruct (_ && _) eqn:Hg; [done|].
  destruct (mem_load ro _ _) as [l|] eqn:El; [|done]. intros [= <-].
  eapply emits_bind_reads; [exact E|]. rewrite Hg.
  eapply emits_bind_reads; [exact E|].
  replace n with (Z.of_nat (Z.to_nat n)) by lia. by eapply emits_delimited_mem.
Qed.

Lemma size_of_memory m : ro ⊆ m -> (base.size ro <= base.size m)%nat.
Proof. intros H. apply map_subseteq_size in H. exact H. Qed.

Lemma emits_enc_string f a bs :
  PB_LTYPE (pf_type f) = PB_LTYPE_STRING ->
  item_bytes ro message f a = Some bs -> emits (pb_enc_string f a) bs.
Proof.
  unfold item_bytes, pb_enc_string. intros ->. cbv zeta. ztests. destruct (a =? 0).
  { intros [= <-]. by apply emits_empty_string. }
  assert (forall bounded n k l, c_string ro bounded n a = Some l -> (n <= k)%nat ->
    (bounded = true -> k = n) ->
    emits (let! size := string_length k a 0 in pb_encode_string (WMem a) size) (delimited l))
    as Hstr.
  { intros bounded n k l Hl Hle Hk.
    destruct (reads_string_length bounded n k a l 0 Hl Hle Hk) as [Hr Hm].
    eapply emits_bind_reads; [exact Hr|]. rewrite Z.add_0_l. by eapply emits_delimited_mem. }
  destruct (PB_ATYPE (pf_type f) =? PB_ATYPE_POINTER).
  - destruct (c_string _ _ _ _) as [l|] eqn:El; [|done]. intros [= <-] s Hs.
    rewrite bind_gets. apply (Hstr false (S (base.size ro))); [done| |done|done].
    pose proof (size_of_memory _ (rd_ro _ _ _ _ Hs)). lia.
  - destruct (c_string _ _ _ _) as [l|] eqn:El; [|done]. intros [= <-] s Hs.
    rewrite bind_gets. by apply (Hstr true (Z.to_nat (pf_data_size f))).
Qed.

(** The encoder of each type emits the bytes of the value. *)
Lemma emits_item f a bs :
  0 <= pf_data_size f ->
  item_bytes ro message f a = Some bs -> emits (call_encoder encode f a) bs.
Proof.
  intros Hsz Hi. pose proof (PB_LTYPE_range (pf_type f)) as Hr.
  pose proof (emits_enc_bytes f a bs) as Hbytes'. pose proof (emits_enc_string f a bs) as Hstr.
  unfold call_encoder. unfold item_bytes in Hi. cbv zeta in Hi.
  set (lt := PB_LTYPE (pf_type f)) in *.
  destruct (Z.eqb_spec lt PB_LTYPE_VARINT) as [E0|].
  { rewrite E0. destruct (signed_at ro _ a) as [v|] eqn:E; [|done]. injection Hi as <-.
    apply reads_signed in E as [E Hv]. eapply emits_bind_reads; [apply reads_ret|].
    eapply emits_bind_reads; [exact E|]. apply emits_varint. apply uwrap_range. lia. }
  destruct (Z.eqb_spec lt PB_LTYPE_UVARINT) as [E0|].
  { rewrite E0. destruct (unsigned_at ro _ a) as [v|] eqn:E; [|done]. injection Hi as <-.
    apply reads_unsigned in E as [E Hv]. eapply emits_bind_reads; [apply reads_ret|].
    eapply emits_bind_reads; [exact E|]. by apply emits_varint. }
  destruct (Z.eqb_spec lt PB_LTYPE_SVARINT) as [E0|].
  { rewrite E0. destruct (signed_at ro _ a) as [v|] eqn:E; [|done]. injection Hi as <-.
    apply reads_signed in E as [E Hv]. eapply emits_bind_reads; [apply reads_ret|].
    eapply emits_bind_reads; [exact E|]. by apply emits_svarint. }
  destruct (Z.eqb_spec lt PB_LTYPE_FIXED32) as [E0|].
  { rewrite E0. eapply emits_bind_reads; [apply reads_ret|]. apply emits_fixed32; [done|].
    by eapply mem_load_bytes. }
  destruct (Z.eqb_spec lt PB_LTYPE_FIXED64) as [E0|].
  { rewrite E0. eapply emits_bind_reads; [apply reads_ret|]. apply emits_fixed64; [done|].
    by eapply mem_load_bytes. }
  destruct (Z.eqb_spec lt PB_LTYPE_BYTES) as [E|].
  { rewrite E. eapply emits_bind_reads; [apply reads_ret|]. apply Hbytes'; [done|].
    unfold item_bytes. fold lt. rewrite E. exact Hi. }
  destruct (Z.eqb_spec lt PB_LTYPE_STRING) as [E|].
  { rewrite E. eapply emits_bind_reads; [apply reads_ret|]. apply Hstr; [done|].
    unfold item_bytes. fold lt. rewrite E. exact Hi. }
  destruct (Z.eqb_spec lt PB_LTYPE_SUBMESSAGE) as [E0|].
  { rewrite E0. eapply emits_bind_reads; [apply reads_ret|]. unfold pb_enc_submessage.
    destruct (pf_ptr f =? 0); [done|].
    destruct (descriptors_at (pf_ptr f)) as [sub|]; [|done]. cbn in Hi.
    destruct (message sub a) as [l|] eqn:El; [|done]. injection Hi as <-.
    eapply emits_bind_reads; [apply reads_ret|]. by apply emits_submessage. }
  destruct (Z.eqb_spec lt PB_LTYPE_FIXED_LENGTH_BYTES) as [E0|]; [|done].
  rewrite E0. destruct (mem_load ro a _) as [l|] eqn:El; [|done]. injection Hi as <-.
  eapply emits_bind_reads; [apply reads_ret|]. unfold pb_enc_fixed_length_bytes.
  replace (pf_data_size f) with (Z.of_nat (Z.to_nat (pf_data_size f))) by lia.
  by eapply emits_delimited_mem.
Qed.

(** ** Fields *)

Context (f : pb_field_t) (Htyped : well_typed f = true).

Lemma typed_bounds : 0 <= pf_tag f < 2 ^ 32 /\ 0 <= pf_data_size f < 2 ^ 32.
Proof. unfold well_typed in Htyped. rewrite !andb_true_iff, !Z.leb_le, !Z.ltb_lt in Htyped. lia. Qed.

Lemma emits_tagged m l bs :
  emits m l -> tagged f l = Some bs -> emits (pb_encode_tag_for_field f ;;; m) bs.
Proof.
  unfold tagged. intros Hm. destruct (wiretype_of_ltype _) as [wt|] eqn:E; [|done].
  intros [= <-]. apply emits_seq; [done| |done].
  apply emits_tag_for_field; [done|apply typed_bounds].
Qed.

Lemma emits_one a bs :
  (l ← item_bytes ro message f a; tagged f l) = Some bs ->
  emits (pb_encode_tag_for_field f ;;; call_encoder encode f a) bs.
Proof.
  destruct (item_bytes ro message f a) as [l|] eqn:E; [|done]. cbn [mbind option_bind]. intros H.
  eapply emits_tagged; [|exact H]. apply emits_item; [apply typed_bounds|done].
Qed.

Lemma emits_items n stride a item encode_item bs :
  (forall p l, item p = Some l -> emits (encode_item p) l) ->
  items_bytes n stride a item = Some bs -> emits (encode_items n stride a encode_item) bs.
Proof.
  intros Hi. revert a bs. induction n as [|n IH]; intros a bs; cbn [items_bytes encode_items].
  - intros [= <-]. apply emits_nil.
  - destruct (item a) as [l|] eqn:E; [|done]. cbn [mbind option_bind].
    destruct (items_bytes n stride (a + stride) item) as [l'|] eqn:E'; [|done].
    intros [= <-]. apply emits_seq; [done|by apply Hi|by apply IH].
Qed.

Lemma items_length n stride a item bs k :
  (forall p l, item p = Some l -> length l = k) ->
  items_bytes n stride a item = Some bs -> length bs = (k * n)%nat.
Proof.
  intros Hi. revert a bs. induction n as [|n IH]; intros a bs; cbn [items_bytes].
  - intros [= <-]. cbn. lia.
  - destruct (item a) as [l|] eqn:E; [|done]. cbn [mbind option_bind].
    destruct (items_bytes n stride (a + stride) item) as [l'|] eqn:E'; [|done].
    intros [= <-]. rewrite length_app, (Hi _ _ E), (IH _ _ E'). lia.
Qed.

(** The computed size of the fixed-width items is the size of what is emitted. *)
Lemma reads_packed_size a count l :
  0 <= count -> Z.of_nat (length l) < 2 ^ size_bits ->
  items_bytes (Z.to_nat count) (pf_data_size f) a (item_bytes ro message f) = Some l ->
  reads (packed_size encode f a count) (Z.of_nat (length l)).
Proof.
  intros Hc Hlen Hl. unfold packed_size.
  destruct (Z.eqb_spec (PB_LTYPE (pf_type f)) PB_LTYPE_FIXED32) as [E|].
  { apply (items_length _ _ _ _ _ 4) in Hl.
    - rewrite usize_small by lia. replace (4 * count) with (Z.of_nat (length l)) by lia.
      apply reads_ret.
    - intros p l'. unfold item_bytes. rewrite E. ztests. apply mem_load_length. }
  destruct (Z.eqb_spec (PB_LTYPE (pf_type f)) PB_LTYPE_FIXED64) as [E|].
  { apply (items_length _ _ _ _ _ 8) in Hl.
    - rewrite usize_small by lia. replace (8 * count) with (Z.of_nat (length l)) by lia.
      apply reads_ret.
    - intros p l'. unfold item_bytes. rewrite E. ztests. apply mem_load_length. }
  eapply reads_bind.
  - apply (reads_sizing ro lo hi _ l); [|done]. eapply emits_items; [|exact Hl].
    intros p l'. apply emits_item; apply typed_bounds.
  - cbn. apply reads_ret.
Qed.

Lemma emits_array a count bs :
  0 <= count -> array_bytes ro message f a count = Some bs ->
  emits (encode_array encode f a count) bs.
Proof.
  unfold array_bytes, encode_array. cbv zeta. intros Hc.
  destruct (count =? 0); [intros [= <-]; apply emits_nil|].
  destruct (negb _ && _); [done|]. pose proof typed_bounds as [Htag Hsz].
  destruct (PB_LTYPE (pf_type f) <=? PB_LTYPE_LAST_PACKABLE).
  - destruct (items_bytes _ _ _ _) as [l|] eqn:El; [|done]. intros [= <-].
    apply emits_bounded. intros Hlen. unfold delimited in *. rewrite !length_app in Hlen.
    pose proof size_bits_bound.
    apply emits_seq; [done|by apply emits_tag|].
    eapply emits_bind_reads; [apply (reads_packed_size a count l); [done|lia|done]|].
    rewrite uwrap_small by lia. apply emits_seq; [done|apply emits_varint; lia|].
    apply emits_sized. eapply emits_items; [|exact El].
    intros p l'. by apply emits_item, typed_bounds.
  - intros H. eapply emits_items; [|exact H]. clear bs H. intros p bs. cbn beta.
    destruct (_ && (_ || _)).
    + destruct (ptr_at ro p) as [p'|] eqn:Ep; [|done]. cbn [mbind option_bind].
      destruct (item_bytes ro message f p') as [l|] eqn:E; [|done]. cbn [mbind option_bind].
      intros Ht. eapply emits_tagged; [|exact Ht].
      eapply emits_bind_reads; [by apply reads_ptr|]. apply emits_item; [apply Hsz|done].
    + cbn [mbind option_bind]. apply emits_one.
Qed.

(** The dispatch on the repetition rule, once the data and its size or presence
    have been found. *)
Lemma emits_by_htype a pSize has count bs :
  (forall b, has = Some b -> reads (load_has pSize) b) ->
  (forall n, count = Some n -> reads (load_count pSize) n /\ 0 <= n) ->
  (if PB_HTYPE (pf_type f) =? PB_HTYPE_REQUIRED
   then if a =? 0 then None else l ← item_bytes ro message f a; tagged f l
   else if PB_HTYPE (pf_type f) =? PB_HTYPE_OPTIONAL then
     b ← has; if b : bool then l ← item_bytes ro message f a; tagged f l else Some []
   else if PB_HTYPE (pf_type f) =? PB_HTYPE_REPEATED then
     n ← count; array_bytes ro message f a n
   else
     n ← count;
     if n =? pf_tag f then l ← item_bytes ro message f a; tagged f l else Some []) = Some bs ->
  emits (if PB_HTYPE (pf_type f) =? PB_HTYPE_REQUIRED then
           if a =? 0 then PB_RETURN_ERROR_OUT "missing required field"
           else pb_encode_tag_for_field f ;;; call_encoder encode f a
         else if PB_HTYPE (pf_type f) =? PB_HTYPE_OPTIONAL then
           let! has := load_has pSize in
           if has : bool then pb_encode_tag_for_field f ;;; call_encoder encode f a else ret tt
         else if PB_HTYPE (pf_type f) =? PB_HTYPE_REPEATED then
           let! count := load_count pSize in encode_array encode f a count
         else if PB_HTYPE (pf_type f) =? PB_HTYPE_ONEOF then
           let! which := load_count pSize in
           if which =? pf_tag f then pb_encode_tag_for_field f ;;; call_encoder encode f a
           else ret tt
         else PB_RETURN_ERROR_OUT "invalid field type") bs.
Proof.
  intros Hhas Hcount.
  destruct (PB_HTYPE_cases (pf_type f)) as [E|[E|[E|E]]]; rewrite E; ztests.
  - destruct (a =? 0); [done|]. apply emits_one.
  - destruct has as [b|]; [|done]. cbn [mbind option_bind]. intros H.
    eapply emits_bind_reads; [by apply Hhas|]. destruct b; [by apply emits_one|].
    injection H as <-. apply emits_nil.
  - destruct count as [n|]; [|done]. cbn [mbind option_bind]. intros H.
    destruct (Hcount n eq_refl). eapply emits_bind_reads; [done|]. by apply emits_array.
  - destruct count as [n|]; [|done]. cbn [mbind option_bind]. intros H.
    destruct (Hcount n eq_refl). eapply emits_bind_reads; [done|].
    destruct (n =? pf_tag f); [by apply emits_one|]. injection H as <-. apply emits_nil.
Qed.

Lemma reads_count a n :
  le_at ro 4 a = Some n -> reads (load_count (size_at a)) n /\ 0 <= n.
Proof. intros H. apply le_at_inv in H as [H ?]. split; [exact H|lia]. Qed.

Lemma emits_basic_field pData bs :
  basic_bytes ro fuel message f pData = Some bs ->
  emits (encode_basic_field fuel encode f pData) bs.
Proof.
  unfold basic_bytes, encode_basic_field. cbv zeta. intros H.
  set (explicit := negb (pf_size_offset f =? 0)) in *.
  set (pSize := pData + pf_size_offset f) in *.
  destruct (if negb explicit && (PB_HTYPE (pf_type f) =? PB_HTYPE_OPTIONAL)
            then is_default ro fuel f pData else Some false) as [d|] eqn:Ed; [|done].
  cbn [mbind option_bind] in H.
  destruct (if PB_ATYPE (pf_type f) =? PB_ATYPE_POINTER then ptr_at ro pData else Some pData)
    as [a|] eqn:Ea; [|done]. cbn [mbind option_bind] in H.
  destruct (Z.leb_spec PB_LTYPES_COUNT (PB_LTYPE (pf_type f))) as [|Hlt]; [done|].
  pose proof (PB_LTYPE_range (pf_type f)).
  assert (is_Some (PB_ENCODERS encode !! Z.to_nat (PB_LTYPE (pf_type f)))) as [fn Hfn].
  { apply lookup_lt_is_Some. cbn. unfold PB_LTYPES_COUNT in Hlt. lia. }
  eapply emits_bind_reads; [rewrite Hfn; apply reads_ret|].
  set (pointer := PB_ATYPE (pf_type f) =? PB_ATYPE_POINTER) in *.
  eapply emits_bind_reads with
    (a := if explicit then size_at pSize
          else implicit_has (if PB_HTYPE (pf_type f) =? PB_HTYPE_OPTIONAL then negb d else true)).
  { destruct explicit; [apply reads_ret|]. cbn [negb andb] in Ed.
    destruct (PB_HTYPE (pf_type f) =? PB_HTYPE_OPTIONAL); [|apply reads_ret].
    eapply reads_bind; [by apply reads_default|apply reads_ret]. }
  eapply emits_bind_reads with
    (a := (a, if explicit then size_at pSize
              else implicit_has (if pointer then negb (a =? 0)
                else if PB_HTYPE (pf_type f) =? PB_HTYPE_OPTIONAL then negb d else true))).
  { destruct pointer.
    - eapply reads_bind; [by apply reads_ptr|]. destruct explicit; apply reads_ret.
    - injection Ea as ->. apply reads_ret. }
  apply (emits_by_htype a _
    (if explicit then bool_at ro pSize
     else if pointer then Some (negb (a =? 0)) else Some (negb d))
    (if explicit then le_at ro 4 pSize else None)).
  - intros b. destruct explicit; [apply reads_bool|]. destruct pointer; [intros [= <-]; apply reads_ret|].
    intros [= <-]. cbn [negb andb] in Ed.
    destruct (PB_HTYPE (pf_type f) =? PB_HTYPE_OPTIONAL); [apply reads_ret|].
    injection Ed as <-. apply reads_ret.
  - intros n. destruct explicit; [apply reads_count|done].
  - rewrite <- H. by destruct explicit, (PB_HTYPE (pf_type f) =? PB_HTYPE_REQUIRED),
      (PB_HTYPE (pf_type f) =? PB_HTYPE_OPTIONAL), (PB_HTYPE (pf_type f) =? PB_HTYPE_REPEATED).
Qed.

(** A field that is stored by the message, or that nothing is set for. *)
Lemma emits_field pData bs :
  field_bytes ro fuel message f pData = Some bs ->
  emits (if PB_LTYPE (pf_type f) =? PB_LTYPE_EXTENSION
         then encode_extension_field fuel encode pData
         else encode_field fuel encode f pData) bs.
Proof.
  unfold field_bytes, encode_field, encode_extension_field, encode_callback_field. cbv zeta.
  destruct (_ =? PB_LTYPE_EXTENSION).
  { destruct (ptr_at ro pData) as [e|] eqn:E; [|done]. cbn [mbind option_bind].
    destruct (Z.eqb_spec e 0) as [->|]; [|done]. intros [= <-].
    eapply emits_bind_reads; [by apply reads_ptr|]. apply emits_nil. }
  destruct (_ || _); [apply emits_basic_field|].
  destruct (_ =? PB_ATYPE_CALLBACK); [|done].
  destruct (ptr_at ro pData) as [e|] eqn:E; [|done]. cbn [mbind option_bind].
  destruct (Z.eqb_spec e 0) as [->|]; [|done]. intros [= <-].
  eapply emits_bind_reads; [by apply reads_ptr|]. apply emits_nil.
Qed.

End refinement.

(** ** Messages *)

Section messages.
Context {PL : Platform} {UW : UserWrite} {UE : UserEncode} {DS : Descriptors}.
Context (ro : mem) (lo hi : Z).
Context (Hdisj : forall x, is_Some (ro !! x) -> ~ (lo <= x < hi)) (Hbytes : mem_bytes ro).

Lemma emits_concat field body ps bs :
  (forall p bs, p ∈ ps -> field (snd p) (it_pData (fst p)) = Some bs ->
     emits ro lo hi (body (fst p) (snd p)) bs) ->
  concat_bytes field ps = Some bs -> emits ro lo hi (run_all body ps) bs.
Proof.
  revert bs. induction ps as [|p ps IH]; intros bs Hf; cbn [concat_bytes run_all].
  - intros [= <-]. apply emits_nil.
  - destruct (field (snd p) (it_pData (fst p))) as [l|] eqn:E; [|done]. cbn [mbind option_bind].
    destruct (concat_bytes field ps) as [l'|] eqn:E'; [|done]. intros [= <-].
    apply emits_seq; [done|apply Hf; [apply list_elem_of_here|done]|].
    apply IH; [|done]. intros q bs Hq. by apply Hf, list_elem_of_further.
Qed.

(** The encoder emits the bytes of the message. *)
Lemma emits_message fuel fields base bs :
  message_bytes ro fuel fields base = Some bs -> emits ro lo hi (pb_encode fuel fields base) bs.
Proof.
  revert fields base bs. induction fuel as [|fuel IH]; intros fields base bs; [done|].
  cbn [message_bytes pb_encode]. destruct (terminated fields && _) eqn:Hf; [|done].
  apply andb_prop in Hf as [Ht Htyped]. intros Hc.
  assert (exists f0, fields !! 0%nat = Some f0) as [f0 Hf0].
  { destruct fields as [|f0]; [done|]. by exists f0. }
  eapply emits_bind_reads; [intros s _; by apply pb_field_iter_begin_eq|]. cbn [fst snd].
  rewrite negb_involutive. destruct (Z.eqb_spec (pf_tag f0) 0) as [Hz|Hz].
  { unfold positions in Hc. destruct fields as [|g rest]; [done|]. injection Hf0 as ->.
    rewrite Hz in Hc. injection Hc as <-. apply emits_nil. }
  eapply emits_eq.
  2:{ intros s _. eapply (walk_run_all fields base f0 (encode_step fuel (pb_encode fuel))
        (fun it f => if PB_LTYPE (pf_type f) =? PB_LTYPE_EXTENSION
                     then encode_extension_field fuel (pb_encode fuel) (it_pData it)
                     else encode_field fuel (pb_encode fuel) f (it_pData it))); try done; [|lia].
      intros i p s' Hp. unfold encode_step.
      by rewrite (bind_ok _ _ _ _ _ (iter_field_eq _ _ _ _ s' Hp)). }
  eapply emits_concat; [|exact Hc]. intros p l [i Hp]%list_elem_of_lookup Hl.
  apply (emits_field ro lo hi Hdisj Hbytes fuel (pb_encode fuel) (message_bytes ro fuel) IH);
    [|exact Hl].
  rewrite forallb_forall in Htyped. apply Htyped, list_elem_of_In.
  apply positions_lookup in Hp as [Hp _]. by eapply list_elem_of_lookup_2.
Qed.

End messages.

(** * The encoder: theorems

    The entry points of pb_encode.c emit the bytes of the specification, in a
    buffer of any size, and what is decoded back from them. *)

Section encoder.
Context {PL : Platform} {UW : UserWrite} {UE : UserEncode} {DS : Descriptors}.
Context (ro m : mem) (buf cap : Z).

Abbreviation on_buffer := (on_buffer m buf cap).
Abbreviation output_buffer := (output_buffer ro m buf cap).

(** C2: Encoding a message into a buffer that is large enough succeeds, writes
    exactly the bytes of the message at the start of the buffer, counts them, and
    changes nothing else in memory. *)
Theorem pb_encode_emits_message fuel fields base bs :
  output_buffer -> message_bytes ro fuel fields base = Some bs ->
  Z.of_nat (length bs) <= cap ->
  exists m',
    pb_encode fuel fields base on_buffer =
      Ok tt (mk_estate (written (Z.of_nat (length bs)) (es_out on_buffer)) m') /\
    mem_load m' buf (length bs) = Some bs /\
    agree_off buf (buf + Z.of_nat (length bs)) m m'.
Proof.
  intros OB Hbs Hlen. pose proof OB as [_ Hb Hd _ _].
  destruct (emits_on_buffer _ _ _ _ _ _ OB (emits_message ro _ _ Hd Hb fuel fields base bs Hbs) Hlen)
    as (m' & E & Hm). exists m'. split; [done|].
  split; [by eapply mem_load_store|]. by apply mem_store_le.
Qed.

(** C5: Encoding a message into a buffer that is too small fails with the error
    "stream full" and writes nothing outside the buffer. *)
Theorem pb_encode_buffer_too_small fuel fields base bs :
  output_buffer -> message_bytes ro fuel fields base = Some bs ->
  cap < Z.of_nat (length bs) < 2 ^ size_bits ->
  exists s', pb_encode fuel fields base on_buffer = Err s' /\
             os_errmsg (es_out s') = Some "stream full"%string /\
             mem_le buf (buf + cap) m (es_mem s').
Proof.
  intros OB Hbs Hlen. pose proof OB as [_ Hb Hd _ _].
  by apply (emits_overflow _ _ _ _ _ _ OB (emits_message ro _ _ Hd Hb fuel fields base bs Hbs)).
Qed.

(** The encoded size is computed without writing anything and is the number
    of bytes that encoding emits. *)
Theorem pb_get_encoded_size_exact fuel fields base bs s :
  mem_bytes ro -> ro ⊆ es_mem s -> message_bytes ro fuel fields base = Some bs ->
  Z.of_nat (length bs) < 2 ^ size_bits ->
  pb_get_encoded_size fuel fields base s = Ok (Z.of_nat (length bs)) s.
Proof.
  intros Hb Hro Hbs Hlen. unfold pb_get_encoded_size.
  assert (emits ro 0 0 (pb_encode fuel fields base) bs) as He by (apply emits_message; [lia|done..]).
  rewrite (bind_ok _ _ _ _ _ (reads_sizing ro 0 0 _ bs He Hlen s Hro)). cbn.
  by rewrite Z.add_0_l.
Qed.

(** The delimited form is the length as a varint, then the message: the
    second pass writes as many bytes as the first one counted. *)
Theorem pb_encode_delimited_emits fuel fields base bs :
  output_buffer -> message_bytes ro fuel fields base = Some bs ->
  Z.of_nat (length (delimited bs)) <= cap ->
  exists m',
    pb_encode_delimited fuel fields base on_buffer =
      Ok tt (mk_estate (written (Z.of_nat (length (delimited bs))) (es_out on_buffer)) m') /\
    mem_load m' buf (length (delimited bs)) = Some (delimited bs) /\
    agree_off buf (buf + Z.of_nat (length (delimited bs))) m m'.
Proof.
  intros OB Hbs Hlen. pose proof OB as [_ Hb Hd _ _].
  assert (emits ro buf (buf + cap) (pb_encode_delimited fuel fields base) (delimited bs)) as He.
  { eapply emits_submessage; [done| |done]. intros fs a l Hl. by apply emits_message. }
  destruct (emits_on_buffer _ _ _ _ _ _ OB He Hlen) as (m' & E & Hm). exists m'. split; [done|].
  split; [by eapply mem_load_store|]. by apply mem_store_le.
Qed.

(** A repeated field is encoded as the packed record of its numbers, or as
    one record per value; on a sizing stream the items of a packed field are
    counted, not encoded again. *)
Theorem encode_array_emits fuel f a count bs :
  output_buffer -> well_typed f = true -> 0 <= count ->
  array_bytes ro (message_bytes ro fuel) f a count = Some bs ->
  emits ro buf (buf + cap) (encode_array (pb_encode fuel) f a count) bs.
Proof.
  intros OB Ht Hc Harr. pose proof OB as [_ Hb Hd _ _].
  eapply emits_array; [done|done| |done|done|exact Harr]. intros fs b l Hl. by apply emits_message.
Qed.

End encoder.

(** ** Instances *)

Lemma Message_value_bytes : mem_bytes value_memory.
Proof.
  intros x b. unfold value_memory. rewrite mem_alloc_lookup.
  case_decide; [|by rewrite lookup_empty]. intros Hx.
  eapply (Forall_lookup_1 is_byte); [|exact Hx]. by apply all_bytes_Forall.
Qed.

Lemma value_memory_sub : value_memory ⊆ es_mem encoding.
Proof.
  apply map_subseteq_spec. intros x b. unfold value_memory, encoding, es_mem, example_memory.
  rewrite !mem_alloc_lookup, lookup_empty. unfold value_at, buffer_at, message_at.
  change (Z.of_nat (length Message_value)) with 56. rewrite !length_replicate.
  case_decide; [|done]. intros Hx. rewrite decide_False by lia. by rewrite decide_False by lia.
Qed.

Lemma encoding_buffer cap :
  0 <= cap <= 100 -> output_buffer value_memory (es_mem encoding) buffer_at cap.
Proof.
  intros Hcap. split.
  - apply value_memory_sub.
  - apply Message_value_bytes.
  - intros x. unfold value_memory. rewrite mem_alloc_lookup, lookup_empty.
    change (Z.of_nat (length Message_value)) with 56. unfold value_at, buffer_at.
    case_decide; [lia|]. by intros [? ?].
  - intros x Hx. unfold encoding, es_mem, example_memory. rewrite !mem_alloc_lookup.
    unfold value_at, buffer_at, message_at in *. rewrite !length_replicate.
    rewrite decide_False by lia. rewrite decide_True by lia.
    apply lookup_lt_is_Some. rewrite length_replicate. lia.
  - change (2 ^ size_bits) with (2 ^ 64). lia.
Qed.

Lemma pb_encode_emits_message_witness :
  exists m',
    pb_encode 5 Message_fields value_at (on_buffer (es_mem encoding) buffer_at 100) =
      Ok tt (mk_estate (written 25 (pb_ostream_from_buffer buffer_at 100)) m') /\
    mem_load m' buffer_at 25 = Some Message_bytes /\
    agree_off buffer_at (buffer_at + 25) (es_mem encoding) m'.
Proof.
  apply (pb_encode_emits_message value_memory (es_mem encoding) buffer_at 100 5 Message_fields
           value_at Message_bytes).
  - apply encoding_buffer. lia.
  - vm_compute. reflexivity.
  - discriminate.
Defined.

Lemma pb_encode_buffer_too_small_witness :
  exists s', pb_encode 5 Message_fields value_at (on_buffer (es_mem encoding) buffer_at 20) = Err s' /\
             os_errmsg (es_out s') = Some "stream full"%string /\
             mem_le buffer_at (buffer_at + 20) (es_mem encoding) (es_mem s').
Proof.
  apply (pb_encode_buffer_too_small value_memory (es_mem encoding) buffer_at 20 5 Message_fields
           value_at Message_bytes).
  - apply encoding_buffer. lia.
  - vm_compute. reflexivity.
  - split; reflexivity.
Defined.

Lemma pb_get_encoded_size_exact_witness :
  pb_get_encoded_size 5 Message_fields value_at encoding = Ok 25 encoding.
Proof.
  apply (pb_get_encoded_size_exact value_memory 5 Message_fields value_at Message_bytes).
  - apply Message_value_bytes.
  - apply value_memory_sub.
  - vm_compute. reflexivity.
  - reflexivity.
Defined.

Lemma pb_encode_delimited_emits_witness :
  exists m',
    pb_encode_delimited 5 Message_fields value_at (on_buffer (es_mem encoding) buffer_at 100) =
      Ok tt (mk_estate (written 26 (pb_ostream_from_buffer buffer_at 100)) m') /\
    mem_load m' buffer_at 26 = Some (25 :: Message_bytes) /\
    agree_off buffer_at (buffer_at + 26) (es_mem encoding) m'.
Proof.
  apply (pb_encode_delimited_emits value_memory (es_mem encoding) buffer_at 100 5 Message_fields
           value_at Message_bytes).
  - apply encoding_buffer. lia.
  - vm_compute. reflexivity.
  - discriminate.
Defined.

Lemma encode_array_emits_witness :
  emits value_memory buffer_at (buffer_at + 100)
    (encode_array (pb_encode 5) (PB_FIELD 3 UINT32 REPEATED STATIC OTHER m_xs m_b 0) 1020 3)
    [0x1A; 0x04; 1; 0xAC; 0x02; 7].
Proof.
  apply (encode_array_emits value_memory (es_mem encoding) buffer_at 100 5).
  - apply encoding_buffer. lia.
  - reflexivity.
  - lia.
  - vm_compute. reflexivity.
Defined.
