(* ===== verification/Findings.v ===== *)
(** * Where the code does not do what it means to do

    Inputs and messages, all of them legal, on which the library reaches
    undefined behaviour, accepts what is malformed, or drops data. *)

From Stdlib Require Import ZArith Lia.
From stdpp Require Import base option list strings gmap.
From S2P Require Import Prelude Memory Descr Decode Encode Wire Input Layout Required Examples.

(** ** Messages of the examples *)

(** [struct Tree { Leaf *leaf; }] with [struct Leaf { uint64_t a; uint64_t b; }]:
    the slot of the pointer is 8 bytes, the structure behind it 16. *)
Definition Leaf_address : Z := 600.
Definition m_leaf := mk_member 0 8 16 0.
Definition Leaf_fields : list pb_field_t :=
  [ PB_FIELD 1 UINT64 SINGULAR STATIC FIRST (mk_member 0 8 8 0) (mk_member 0 8 8 0) 0;
    PB_FIELD 2 UINT64 SINGULAR STATIC OTHER (mk_member 8 8 8 0) (mk_member 0 8 8 0) 0;
    PB_LAST_FIELD ].
Definition Tree_fields : list pb_field_t :=
  [ PB_FIELD 1 MESSAGE SINGULAR POINTER FIRST m_leaf m_leaf Leaf_address; PB_LAST_FIELD ].

(** [struct Box { Counts counts; }] with [struct Counts { pb_size_t n_count;
    uint32_t n[4]; }]. *)
Definition Counts_address : Z := 700.
Definition m_n := mk_member 4 16 4 0.
Definition Counts_fields : list pb_field_t :=
  [ PB_FIELD 1 UINT32 REPEATED STATIC FIRST m_n m_n 0; PB_LAST_FIELD ].
Definition m_counts := mk_member 0 20 20 0.
Definition Box_fields : list pb_field_t :=
  [ PB_FIELD 1 MESSAGE SINGULAR STATIC FIRST m_counts m_counts Counts_address; PB_LAST_FIELD ].

#[local] Instance finding_descriptors : Descriptors := fun a =>
  if a =? Leaf_address then Some Leaf_fields
  else if a =? Counts_address then Some Counts_fields else None.

(** A message at 1000 and a buffer of 10 bytes at 2000. *)
Definition encoding_of (value : list Z) : estate :=
  mk_estate (pb_ostream_from_buffer buffer_at 10)
    (mem_alloc (mem_alloc ∅ value_at value) buffer_at (replicate 10 0)).

Section findings.
Context {PL : Platform} {UR : UserRead} {UD : UserDecode} {DS : Descriptors}.

(** ** Required fields *)

(** With exactly 32 required fields, a message that has all of them makes the
    final test shift a 32-bit value by 32, which is undefined. *)
Theorem thirty_two_required_fields_undefined fields base it s :
  terminated fields = true -> cursor fields base it ->
  required_count (positions fields base) = 32 ->
  check_required_fields it (seen_words (2 ^ 32 - 1)) s = Ub.
Proof.
  intros Ht Hc Hn. rewrite (check_required_fields_eq fields base) by (done || lia).
  by rewrite Hn.
Qed.

(** With 64 or more required fields, a message that has all of them makes the
    final test read past the end of [fields_seen]. *)
Theorem many_required_fields_undefined fields base it s :
  terminated fields = true -> cursor fields base it ->
  64 <= required_count (positions fields base) < 2 ^ 32 ->
  check_required_fields it (seen_words (2 ^ 64 - 1)) s = Ub.
Proof.
  intros Ht Hc Hn. rewrite (check_required_fields_eq fields base) by (done || lia).
  generalize dependent (required_count (positions fields base)). intros c Hn.
  unfold check_seen. destruct (Z.ltb_spec 0 c); [|lia].
  rewrite !Z.shiftr_div_pow2 by lia. change (2 ^ 5) with 32.
  assert (2 <= c / 32) by (apply Z.div_le_lower_bound; lia).
  destruct (Z_of_nat_complete (c / 32)) as [k Hk]; [lia|]. rewrite Hk in *. rewrite Nat2Z.id.
  destruct k as [|[|k]]; [lia..|].
  change (seen_words (2 ^ 64 - 1)) with [allbits; allbits].
  destruct k as [|k]; [reflexivity|]. apply bind_ub.
  set (z := Z.of_nat (S (S (S k)))). assert (3 <= z) by lia.
  rewrite (loop_cont _ _ 0 1 s s) by (by destruct (Z.ltb_spec 0 z); [|lia]).
  rewrite (loop_cont _ _ 1 2 s s) by (by destruct (Z.ltb_spec 1 z); [|lia]).
  apply loop_ub. by destruct (Z.ltb_spec 2 z); [|lia].
Qed.

(** ** Truncated input *)

(** A field header that is cut off by the end of the input is taken for the
    end of the message: a message without required fields is accepted. *)
Theorem truncated_header_accepted n fields base f b s :
  terminated fields = true -> last fields = Some PB_LAST_FIELD ->
  fields !! 0%nat = Some f -> required_count (positions fields base) = 0 ->
  128 <= b -> buf_input s [b] ->
  exists s', pb_decode_noinit (S (S n)) fields base s = Ok tt s' /\
             ds_mem s' = ds_mem s /\ is_bytes_left (ds_in s') = 0.
Proof.
  intros Ht Hlast Hf Hc Hb Hs.
  destruct (first_cursor fields base Ht Hlast) as (g & Hg & Hcur). rewrite Hf in Hg.
  injection Hg as <-. pose proof (buf_input_left _ _ Hs) as Hl.
  destruct (pb_decode_tag_refines _ _ Hs) as (e & Htag & _).
  assert (scan_tag [b] = (mk_tag false 0 0 true, 1%nat)) as Escan.
  { unfold scan_tag, scan_varint. cbn [parse_varint].
    destruct (Z.ltb_spec b 128); [lia|]. reflexivity. }
  rewrite Escan in Htag. cbn [fst snd] in Htag.
  eexists. split; [|split].
  - cbn [pb_decode_noinit].
    rewrite (bind_ok _ _ _ _ _ (pb_field_iter_begin_eq fields base f s Hf)). cbn [fst].
    rewrite (bind_ok _ _ _ (mk_vars (first_position fields f base) [0; 0] 0)
      (mk_dstate (set_errmsg e (ds_in (advance 1 s))) (ds_mem s))).
    2:{ rewrite loop_S, (bind_ok _ _ _ (inr (mk_vars (first_position fields f base) [0; 0] 0))
          (mk_dstate (set_errmsg e (ds_in (advance 1 s))) (ds_mem s))); [done|].
        unfold decode_step. rewrite bind_gets, Hl.
        change (Z.of_nat (length [b]) =? 0) with false. cbv iota. by rewrite (bind_ok _ _ _ _ _ Htag). }
    cbn [dv_iter dv_fields_seen].
    rewrite (check_required_fields_eq fields base) by (done || lia). rewrite Hc. reflexivity.
  - done.
  - cbn. rewrite Hl. done.
Qed.

(** ** Negative numbers *)

(** The 32-bit varint decoder does not work for the int32 and enum types: a
    negative value, which is encoded in 10 bytes, is reported as an overflow. *)
Theorem negative_int32_overflows v l s :
  - 2 ^ 63 <= v < 0 -> buf_input s (varint_bytes (u64 v) ++ l) ->
  pb_decode_varint32 s = Err (with_error "varint overflow" (advance 5 s)).
Proof.
  intros Hv Hs. rewrite (pb_decode_varint32_refines _ _ Hs).
  pose proof (uwrap_range 64 v ltac:(lia)).
  assert (u64 v = 2 ^ 64 + v) as E by (symmetry; apply Z.mod_unique with (-1); lia).
  unfold scan_varint. rewrite parse_varint_bytes by lia.
  destruct (Nat.leb_spec (length (varint_bytes (u64 v))) 5) as [Hle|]; [|done]. exfalso.
  pose proof (varint_bytes_n_bound 9 (u64 v) ltac:(change (7 * Z.of_nat 10) with 70; lia)) as Hb.
  fold (varint_bytes (u64 v)) in Hb.
  assert (2 ^ (7 * Z.of_nat (length (varint_bytes (u64 v)))) <= 2 ^ 35)
    by (apply Z.pow_le_mono_r; lia). lia.
Qed.

End findings.

(** ** The proto3 presence test *)

(** The presence test reads as many bytes as the target of a pointer field
    has, at the pointer itself: for a null pointer it reads past the end of the
    message. *)
Theorem null_pointer_field_overread :
  pb_encode 5 Tree_fields value_at (encoding_of (replicate 8 0)) = Ub.
Proof. vm_compute. reflexivity. Qed.

(** The presence test looks at the first item of an array and not at its
    count: a submessage with the array [{0, 5}] is taken for empty, and dropped. *)
Theorem submessage_with_array_dropped :
  pb_encode 5 Box_fields value_at
    (encoding_of (le_split 4 2 ++ le_split 4 0 ++ le_split 4 5 ++ replicate 8 0)) =
  Ok tt (encoding_of (le_split 4 2 ++ le_split 4 0 ++ le_split 4 5 ++ replicate 8 0)).
Proof. vm_compute. reflexivity. Qed.

(** ** Instances *)

(** A message of [n] required fields of 4 bytes each. *)
Definition required_field (tag : Z) : pb_field_t :=
  if tag =? 1 then PB_FIELD 1 INT32 REQUIRED STATIC FIRST (mk_member 0 4 4 0) (mk_member 0 4 4 0) 0
  else PB_FIELD tag INT32 REQUIRED STATIC OTHER (mk_member (4 * (tag - 1)) 4 4 0)
         (mk_member (4 * (tag - 2)) 4 4 0) 0.

Definition required_fields (n : nat) : list pb_field_t :=
  (required_field <$> seqZ 1 (Z.of_nat n)) ++ [PB_LAST_FIELD].

Lemma thirty_two_required_fields_undefined_witness :
  check_required_fields (first_position (required_fields 32) (required_field 1) message_at)
    (seen_words (2 ^ 32 - 1)) (decoding []) = Ub.
Proof.
  apply (thirty_two_required_fields_undefined (required_fields 32) message_at).
  - vm_compute. reflexivity.
  - by apply (cursor_at (required_fields 32) message_at 0 (_, required_field 1)).
  - vm_compute. reflexivity.
Defined.

Lemma many_required_fields_undefined_witness :
  check_required_fields (first_position (required_fields 70) (required_field 1) message_at)
    (seen_words (2 ^ 64 - 1)) (decoding []) = Ub.
Proof.
  apply (many_required_fields_undefined (required_fields 70) message_at).
  - vm_compute. reflexivity.
  - by apply (cursor_at (required_fields 70) message_at 0 (_, required_field 1)).
  - vm_compute. split; [discriminate|reflexivity].
Defined.

(** A message with one optional field, cut off inside its header. *)
Lemma truncated_header_accepted_witness :
  exists s', pb_decode_noinit 5 Leaf_fields message_at (decoding [0x80]) = Ok tt s' /\
             ds_mem s' = ds_mem (decoding [0x80]) /\ is_bytes_left (ds_in s') = 0.
Proof.
  apply (truncated_header_accepted 3 Leaf_fields message_at
    (PB_FIELD 1 UINT64 SINGULAR STATIC FIRST (mk_member 0 8 8 0) (mk_member 0 8 8 0) 0) 0x80).
  - reflexivity.
  - reflexivity.
  - reflexivity.
  - reflexivity.
  - lia.
  - apply decoding_input; [by apply all_bytes_Forall|done].
Defined.

Lemma negative_int32_overflows_witness :
  pb_decode_varint32 (decoding (varint_bytes (u64 (-3)))) =
  Err (with_error "varint overflow" (advance 5 (decoding (varint_bytes (u64 (-3)))))).
Proof.
  apply (negative_int32_overflows (-3) []); [lia|]. rewrite app_nil_r.
  apply decoding_input; [by apply all_bytes_Forall|done].
Defined.
