(* ===== verification/RoundtripTheorems.v ===== *)
(** * What is decoded from what was encoded

    The decoder of each type reads back the bytes of the specification, which
    are those the encoder emits, and restores the value in memory; then the
    round trips of messages. *)

From Stdlib Require Import ZArith Lia.
From stdpp Require Import base option list strings gmap.
From S2P Require Import Prelude Memory Descr Decode Encode Wire Input Layout Required Examples Output EncodeTheorems.

(** ** The stream after the value *)

Section items.
Context {PL : Platform} {UR : UserRead} {UD : UserDecode} {DS : Descriptors}.

Lemma advance_app_n s (l1 l2 : list Z) :
  buf_input s (l1 ++ l2) -> buf_input (advance (length l1) s) l2.
Proof. intros H. by eapply buf_input_advance. Qed.

Lemma decode_varint_bytes s v l :
  0 <= v < 2 ^ 64 -> buf_input s (varint_bytes v ++ l) ->
  pb_decode_varint s = Ok v (advance (length (varint_bytes v)) s).
Proof.
  intros Hv Hs. rewrite (pb_decode_varint_refines _ _ Hs), scan_varint_bytes by done.
  cbn. by rewrite uwrap_small.
Qed.

Lemma decode_varint32_bytes s v l :
  0 <= v < 2 ^ 32 -> buf_input s (varint_bytes v ++ l) ->
  pb_decode_varint32 s = Ok v (advance (length (varint_bytes v)) s).
Proof.
  intros Hv Hs. rewrite (pb_decode_varint32_refines _ _ Hs), scan_varint_bytes_32 by done.
  cbn. by rewrite uwrap_small.
Qed.

Lemma zigzag_range v : - 2 ^ 63 <= v < 2 ^ 63 -> 0 <= zigzag v < 2 ^ 64.
Proof. intros. unfold zigzag. destruct (Z.ltb_spec v 0); lia. Qed.

Lemma decode_svarint_bytes s v l :
  - 2 ^ 63 <= v < 2 ^ 63 -> buf_input s (varint_bytes (zigzag v) ++ l) ->
  pb_decode_svarint s = Ok v (advance (length (varint_bytes (zigzag v))) s).
Proof.
  intros Hv Hs. pose proof (zigzag_range v Hv).
  rewrite (pb_decode_svarint_refines _ _ Hs), scan_varint_bytes by done.
  by rewrite uwrap_small, unzigzag_zigzag by done.
Qed.

Lemma decode_tag_bytes s wt tag l :
  0 < tag < 2 ^ 29 -> 0 <= wt < 8 -> buf_input s (varint_bytes (tag_value wt tag) ++ l) ->
  pb_decode_tag s = Ok (mk_tag true wt tag false) (advance (length (varint_bytes (tag_value wt tag))) s).
Proof.
  intros Ht Hw Hs. unfold pb_decode_tag.
  assert (0 <= tag_value wt tag < 2 ^ 32) as Hr by (unfold tag_value; lia).
  rewrite (bind_ok _ _ _ _ _ (attempt_ok _ _ _ _ (decode_varint32_bytes _ _ _ Hr Hs))).
  destruct (Z.eqb_spec (tag_value wt tag) 0); [unfold tag_value in *; lia|].
  unfold ret. f_equal. change 7 with (Z.ones 3). rewrite Z.land_ones, Z.shiftr_div_pow2 by lia.
  unfold tag_value. change (2 ^ 3) with 8. f_equal.
  - symmetry. apply Z.mod_unique with tag; lia.
  - symmetry. apply Z.div_unique with wt; lia.
Qed.

(** ** Values *)

Lemma le_split_uwrap n x : le_split n (uwrap (8 * Z.of_nat n) x) = le_split n x.
Proof.
  rewrite <- le_combine_split.
  pose proof (le_split_combine (le_split n x) (le_split_bytes n x)) as H.
  by rewrite le_split_length in H.
Qed.

(** Storing the value read from [l] restores [l]. *)
Lemma le_split_signed n l :
  length l = n -> (0 < n)%nat -> Forall is_byte l ->
  le_split n (swrap (8 * Z.of_nat n) (le_combine l)) = l.
Proof.
  intros Hl Hn Hb. rewrite <- le_split_uwrap, uwrap_swrap by lia.
  rewrite le_split_uwrap, <- Hl. by apply le_split_combine.
Qed.

(** The state after a value of [n] encoded bytes has been stored at [dest]. *)
Definition stored (s : dstate) (n : nat) (dest : Z) (l : list Z) (r : res dstate unit) : Prop :=
  exists m', mem_store (ds_mem s) dest l = Some m' /\
             r = Ok tt (mk_dstate (ds_in (advance n s)) m').

Lemma store_le_stored (k : nat) dest v l n s (c w : Z) :
  le_split k v = l -> c = w -> mapped (ds_mem s) dest (dest + Z.of_nat k) ->
  stored s n dest l
    ((let! clamped := (store_le k dest v ;;; ret c) in
      if clamped =? w then ret tt else PB_RETURN_ERROR "integer too large") (advance n s)).
Proof.
  intros Hl -> Hm.
  destruct (mem_store_mapped (ds_mem s) dest l) as [m' Hm'].
  { by rewrite <- Hl, le_split_length. }
  exists m'. split; [done|]. rewrite bind_assoc.
  rewrite (bind_ok _ _ _ tt (mk_dstate (ds_in (advance n s)) m')).
  - rewrite bind_ret, Z.eqb_refl. done.
  - unfold store_le, store_bytes. rewrite Hl. cbn. by rewrite Hm'.
Qed.

Context (ro : mem) (Hbytes : mem_bytes ro).

Lemma signed_at_inv size a v :
  signed_at ro size a = Some v ->
  (size = 1 \/ size = 2 \/ size = 4 \/ size = 8) /\
  exists l, mem_load ro a (Z.to_nat size) = Some l /\ v = swrap (8 * size) (le_combine l) /\
            le_split (Z.to_nat size) v = l.
Proof.
  unfold signed_at, unsigned_at. intros H.
  destruct (((size =? 1) || (size =? 2)) || (size =? 4) || (size =? 8)) eqn:Hs; [|done].
  unfold le_at in H. destruct (mem_load ro a (Z.to_nat size)) as [l|] eqn:E; [|done].
  injection H as <-. rewrite !orb_true_iff, !Z.eqb_eq in Hs. split; [tauto|].
  exists l. split; [done|]. split; [done|].
  replace (8 * size) with (8 * Z.of_nat (Z.to_nat size)) by lia.
  apply le_split_signed; [by eapply mem_load_length|lia|by eapply mem_load_bytes].
Qed.

Lemma unsigned_at_inv size a v :
  unsigned_at ro size a = Some v ->
  (size = 1 \/ size = 2 \/ size = 4 \/ size = 8) /\ 0 <= v < 2 ^ (8 * size) /\
  exists l, mem_load ro a (Z.to_nat size) = Some l /\ le_split (Z.to_nat size) v = l.
Proof.
  unfold unsigned_at. intros H.
  destruct (((size =? 1) || (size =? 2)) || (size =? 4) || (size =? 8)) eqn:Hs; [|done].
  unfold le_at in H. destruct (mem_load ro a (Z.to_nat size)) as [l|] eqn:E; [|done].
  injection H as <-. rewrite !orb_true_iff, !Z.eqb_eq in Hs. split; [tauto|].
  pose proof (mem_load_bytes _ _ _ _ Hbytes E) as Hb. pose proof (mem_load_length _ _ _ _ E) as Hl.
  split.
  { pose proof (le_combine_range l Hb) as Hr.
    by replace (8 * size) with (8 * Z.of_nat (length l)) by lia. }
  exists l. split; [done|]. rewrite <- Hl. by apply le_split_combine.
Qed.

Ltac size_cases H :=
  destruct H as [E | [E | [E | E]]]; rewrite E in *; ztests.

Lemma dec_varint_roundtrip f a v dest s rest :
  signed_at ro (pf_data_size f) a = Some v ->
  buf_input s (varint_bytes (u64 v) ++ rest) ->
  mapped (ds_mem s) dest (dest + pf_data_size f) ->
  exists l, mem_load ro a (Z.to_nat (pf_data_size f)) = Some l /\
    stored s (length (varint_bytes (u64 v))) dest l (pb_dec_varint f dest s).
Proof.
  intros Hv Hs Hm. destruct (signed_at_inv _ _ _ Hv) as (Hsize & l & Hl & Hval & Hsplit).
  exists l. split; [done|]. unfold pb_dec_varint.
  rewrite (bind_ok _ _ _ _ _ (decode_varint_bytes _ _ _ (uwrap_range 64 v ltac:(lia)) Hs)).
  assert (forall w, 8 * pf_data_size f <= w <= 64 -> swrap w (u64 v) = v) as Hwrap.
  { intros w Hw. rewrite swrap_uwrap_le by lia. apply swrap_small; [lia|].
    pose proof (swrap_range (8 * pf_data_size f) (le_combine l) ltac:(lia)) as Hr.
    rewrite <- Hval in Hr.
    assert (2 ^ (8 * pf_data_size f - 1) <= 2 ^ (w - 1)) by (apply Z.pow_le_mono_r; lia). lia. }
  assert (forall w, 8 * pf_data_size f <= w <= 64 -> swrap w v = v) as Hwrap'.
  { intros w Hw. rewrite <- (swrap_uwrap_le w 64) by lia. by apply Hwrap. }
  cbv zeta. size_cases Hsize; rewrite ?Hwrap, ?Hwrap' by lia;
    by apply store_le_stored.
Qed.

Lemma dec_uvarint_roundtrip f a v dest s rest :
  unsigned_at ro (pf_data_size f) a = Some v ->
  buf_input s (varint_bytes v ++ rest) ->
  mapped (ds_mem s) dest (dest + pf_data_size f) ->
  exists l, mem_load ro a (Z.to_nat (pf_data_size f)) = Some l /\
    stored s (length (varint_bytes v)) dest l (pb_dec_uvarint f dest s).
Proof.
  intros Hv Hs Hm. destruct (unsigned_at_inv _ _ _ Hv) as (Hsize & Hr & l & Hl & Hsplit).
  exists l. split; [done|]. unfold pb_dec_uvarint.
  assert (0 <= v < 2 ^ 64).
  { assert (2 ^ (8 * pf_data_size f) <= 2 ^ 64) by (apply Z.pow_le_mono_r; lia). lia. }
  rewrite (bind_ok _ _ _ _ _ (decode_varint_bytes _ _ _ ltac:(done) Hs)).
  cbv zeta. size_cases Hsize; rewrite ?(uwrap_small _ v) by lia; by apply store_le_stored.
Qed.

Lemma dec_svarint_roundtrip f a v dest s rest :
  signed_at ro (pf_data_size f) a = Some v ->
  buf_input s (varint_bytes (zigzag v) ++ rest) ->
  mapped (ds_mem s) dest (dest + pf_data_size f) ->
  exists l, mem_load ro a (Z.to_nat (pf_data_size f)) = Some l /\
    stored s (length (varint_bytes (zigzag v))) dest l (pb_dec_svarint f dest s).
Proof.
  intros Hv Hs Hm. destruct (signed_at_inv _ _ _ Hv) as (Hsize & l & Hl & Hval & Hsplit).
  exists l. split; [done|]. unfold pb_dec_svarint.
  pose proof (swrap_range (8 * pf_data_size f) (le_combine l) ltac:(lia)) as Hr.
  rewrite <- Hval in Hr.
  assert (forall w, 8 * pf_data_size f <= w <= 64 -> - 2 ^ (w - 1) <= v < 2 ^ (w - 1)) as Hr'.
  { intros w Hw. assert (2 ^ (8 * pf_data_size f - 1) <= 2 ^ (w - 1)) by
      (apply Z.pow_le_mono_r; lia). lia. }
  rewrite (bind_ok _ _ _ _ _ (decode_svarint_bytes _ _ _ (Hr' 64 ltac:(lia)) Hs)).
  assert (forall w, 8 * pf_data_size f <= w <= 64 -> swrap w v = v) as Hwrap.
  { intros w Hw. apply swrap_small; [lia|by apply Hr']. }
  size_cases Hsize; rewrite ?Hwrap by lia; by apply store_le_stored.
Qed.

Lemma dec_fixed_roundtrip (k : nat) dest l s rest (dec : M dstate unit) :
  (forall s, buf_input s (l ++ rest) -> length l = k ->
     dec s = match mem_store (ds_mem s) dest l with
             | Some m => Ok tt (mk_dstate (ds_in (advance k s)) m)
             | None => Ub
             end) ->
  length l = k -> buf_input s (l ++ rest) -> mapped (ds_mem s) dest (dest + Z.of_nat k) ->
  stored s k dest l (dec s).
Proof.
  intros Hdec Hl Hs Hm. destruct (mem_store_mapped (ds_mem s) dest l) as [m' Hm'].
  { by rewrite Hl. }
  exists m'. split; [done|]. by rewrite Hdec, Hm'.
Qed.

(** The destination does not overlap the input that is left. *)
Definition apart (s : dstate) (dest n : Z) : Prop :=
  dest + n <= is_state (ds_in s) \/
  is_state (ds_in s) + is_bytes_left (ds_in s) <= dest.

(** A store elsewhere leaves the input as it was. *)
Lemma buf_input_store s l dest bs m' :
  buf_input s l -> mem_store (ds_mem s) dest bs = Some m' ->
  apart s dest (Z.of_nat (length bs)) -> buf_input (mk_dstate (ds_in s) m') l.
Proof.
  intros (Hcb & Hbl & Hsz & Hm & Hb) Hst Hd. repeat split; try done.
  cbn [ds_mem ds_in]. rewrite (mem_load_store_ne _ _ _ _ _ _ Hst); [done|].
  unfold apart in Hd. lia.
Qed.

Lemma mem_store_mapped_after m a l m' lo hi :
  mem_store m a l = Some m' -> mapped m lo hi -> mapped m' lo hi.
Proof. intros Hst Hm x Hx. by apply (mem_store_le _ _ _ _ Hst), Hm. Qed.

(** A value behind its length, read to [dest]. *)
Lemma read_to_memory s l rest dest :
  buf_input s (l ++ rest) -> apart s dest (Z.of_nat (length l)) ->
  mapped (ds_mem s) dest (dest + Z.of_nat (length l)) ->
  exists m', mem_store (ds_mem s) dest l = Some m' /\
    pb_read (RMem dest) (Z.of_nat (length l)) s = Ok [] (mk_dstate (ds_in (advance (length l) s)) m').
Proof.
  intros Hs Hd Hm. destruct (mem_store_mapped (ds_mem s) dest l Hm) as [m' Hm'].
  exists m'. split; [done|]. eapply pb_read_mem; [done| |done].
  pose proof (buf_input_left _ _ Hs) as Hl. rewrite length_app in Hl. unfold apart in Hd. lia.
Qed.

Lemma apart_advance s dest n k :
  apart s dest n -> Z.of_nat k <= is_bytes_left (ds_in s) -> apart (advance k s) dest n.
Proof. unfold apart. cbn. lia. Qed.

Lemma apart_sub s dest n dest' n' :
  apart s dest n -> dest <= dest' -> dest' + n' <= dest + n -> apart s dest' n'.
Proof. unfold apart. lia. Qed.

Lemma stored_bytes_app s n dest l1 l2 m1 m2 :
  mem_store (ds_mem s) dest l1 = Some m1 ->
  mem_store m1 (dest + Z.of_nat (length l1)) l2 = Some m2 ->
  stored s n dest (l1 ++ l2) (Ok tt (mk_dstate (ds_in (advance n s)) m2)).
Proof.
  intros H1 H2. exists m2. split; [|done]. by rewrite (mem_store_app _ _ _ _ _ H1).
Qed.

Lemma dec_bytes_roundtrip f dest s l rest :
  PB_ATYPE (pf_type f) = PB_ATYPE_STATIC ->
  4 + Z.of_nat (length l) <= pf_data_size f < 2 ^ 32 ->
  buf_input s (delimited l ++ rest) -> apart s dest (pf_data_size f) ->
  mapped (ds_mem s) dest (dest + pf_data_size f) ->
  stored s (length (delimited l)) dest (le_split 4 (Z.of_nat (length l)) ++ l)
    (pb_dec_bytes f dest s).
Proof.
  intros Hat Hlen Hs Hd Hm. unfold delimited in *. rewrite <- app_assoc in Hs.
  pose proof (buf_input_left _ _ Hs) as Hleft. rewrite !length_app in Hleft.
  unfold pb_dec_bytes. rewrite (bind_ok _ _ _ _ _ (decode_varint32_bytes s (Z.of_nat (length l)) _ ltac:(lia) Hs)).
  set (n := length (varint_bytes (Z.of_nat (length l)))) in *.
  apply advance_app_n in Hs. fold n in Hs.
  destruct (Z.ltb_spec PB_SIZE_MAX (Z.of_nat (length l))); [unfold PB_SIZE_MAX in *; lia|].
  cbv zeta. pose proof size_bits_bound.
  assert (PB_BYTES_ARRAY_T_ALLOCSIZE (Z.of_nat (length l)) = Z.of_nat (length l) + 4) as ->.
  { unfold PB_BYTES_ARRAY_T_ALLOCSIZE, offsetof_bytes. rewrite (usize_small (Z.of_nat (length l))), usize_small by lia. lia. }
  destruct (Z.ltb_spec (Z.of_nat (length l) + 4) (Z.of_nat (length l))); [lia|].
  rewrite Hat. ztests. destruct (Z.ltb_spec (pf_data_size f) (Z.of_nat (length l) + 4)); [lia|].
  destruct (mem_store_mapped (ds_mem (advance n s)) dest (le_split 4 (Z.of_nat (length l))))
    as [m1 Hm1].
  { rewrite le_split_length. eapply mapped_sub; [exact Hm|lia..]. }
  rewrite (bind_ok _ _ _ tt (mk_dstate (ds_in (advance n s)) m1)).
  2:{ unfold store_le, store_bytes. cbn [get_mem dstate_mem]. unfold sizeof_pb_size_t. by rewrite Hm1. }
  assert (buf_input (mk_dstate (ds_in (advance n s)) m1) (l ++ rest)) as Hs1.
  { eapply buf_input_store; [exact Hs|exact Hm1|]. rewrite le_split_length.
    eapply apart_sub; [eapply apart_advance; [exact Hd|lia]|lia..]. }
  destruct (read_to_memory _ _ _ (dest + offsetof_bytes) Hs1) as (m2 & Hm2 & Hr).
  { unfold offsetof_bytes. eapply (apart_sub (advance n s) dest (pf_data_size f)); [|lia..].
    eapply apart_advance; [exact Hd|lia]. }
  { unfold offsetof_bytes. eapply mem_store_mapped_after; [exact Hm1|].
    eapply mapped_sub; [exact Hm|lia..]. }
  rewrite (bind_ok _ _ _ _ _ Hr). unfold ret.
  change (mk_dstate (ds_in (advance (length l) (mk_dstate (ds_in (advance n s)) m1))) m2)
    with (mk_dstate (ds_in (advance (length l) (advance n s))) m2).
  rewrite advance_advance, length_app. fold n. eapply stored_bytes_app; [exact Hm1|].
  rewrite le_split_length. exact Hm2.
Qed.

Lemma dec_string_roundtrip f dest s l rest :
  PB_ATYPE (pf_type f) = PB_ATYPE_STATIC ->
  Z.of_nat (length l) < pf_data_size f < 2 ^ 32 ->
  buf_input s (delimited l ++ rest) -> apart s dest (pf_data_size f) ->
  mapped (ds_mem s) dest (dest + pf_data_size f) ->
  stored s (length (delimited l)) dest (l ++ [0]) (pb_dec_string f dest s).
Proof.
  intros Hat Hlen Hs Hd Hm. unfold delimited in *. rewrite <- app_assoc in Hs.
  pose proof (buf_input_left _ _ Hs) as Hleft. rewrite !length_app in Hleft.
  unfold pb_dec_string. rewrite (bind_ok _ _ _ _ _ (decode_varint32_bytes s (Z.of_nat (length l)) _ ltac:(lia) Hs)).
  set (n := length (varint_bytes (Z.of_nat (length l)))) in *.
  apply advance_app_n in Hs. fold n in Hs. cbv zeta.
  rewrite (uwrap_small 32) by lia.
  destruct (Z.ltb_spec (Z.of_nat (length l) + 1) (Z.of_nat (length l))); [lia|].
  rewrite Hat. ztests. destruct (Z.ltb_spec (pf_data_size f) (Z.of_nat (length l) + 1)); [lia|].
  destruct (read_to_memory _ _ _ dest Hs) as (m1 & Hm1 & Hr).
  { eapply apart_sub; [eapply apart_advance; [exact Hd|lia]|lia..]. }
  { eapply mapped_sub; [exact Hm|lia..]. }
  rewrite (bind_ok _ _ _ _ _ (attempt_ok _ _ _ _ Hr)).
  destruct (mem_store_mapped m1 (dest + Z.of_nat (length l)) [0]) as [m2 Hm2].
  { eapply mem_store_mapped_after; [exact Hm1|]. eapply mapped_sub; [exact Hm|cbn; lia..]. }
  rewrite (bind_ok _ _ _ tt (mk_dstate (ds_in (advance (length l) (advance n s))) m2)).
  2:{ unfold store_le, store_bytes. cbn [get_mem dstate_mem ds_mem ds_in].
      change (le_split 1 0) with [0]. by rewrite Hm2. }
  unfold ret. rewrite advance_advance, length_app. fold n.
  by eapply stored_bytes_app.
Qed.

Lemma dec_fixed_length_bytes_roundtrip f dest s l rest :
  Z.of_nat (length l) = pf_data_size f -> pf_data_size f < 2 ^ 32 ->
  buf_input s (delimited l ++ rest) -> apart s dest (pf_data_size f) ->
  mapped (ds_mem s) dest (dest + pf_data_size f) ->
  stored s (length (delimited l)) dest l (pb_dec_fixed_length_bytes f dest s).
Proof.
  intros Hlen Hsz Hs Hd Hm. unfold delimited in *. rewrite <- app_assoc in Hs.
  pose proof (buf_input_left _ _ Hs) as Hleft. rewrite !length_app in Hleft.
  unfold pb_dec_fixed_length_bytes.
  rewrite (bind_ok _ _ _ _ _ (decode_varint32_bytes s (Z.of_nat (length l)) _ ltac:(lia) Hs)).
  set (n := length (varint_bytes (Z.of_nat (length l)))) in *.
  apply advance_app_n in Hs. fold n in Hs.
  destruct (Z.ltb_spec PB_SIZE_MAX (Z.of_nat (length l))); [unfold PB_SIZE_MAX in *; lia|].
  rewrite length_app. fold n.
  destruct (Z.eqb_spec (Z.of_nat (length l)) 0) as [Hz|Hz].
  - destruct l; [|cbn in Hz; lia]. rewrite <- Hlen. exists (ds_mem s). split; [done|].
    unfold memset, store_bytes. cbn. by rewrite Nat.add_0_r.
  - rewrite Hlen, Z.eqb_refl. cbn [negb]. rewrite <- Hlen.
    destruct (read_to_memory _ _ _ dest Hs) as (m1 & Hm1 & Hr).
    { rewrite Hlen. eapply apart_advance; [exact Hd|lia]. }
    { by rewrite Hlen. }
    exists m1. split; [done|]. rewrite (bind_ok _ _ _ _ _ Hr). unfold ret.
    by rewrite advance_advance.
Qed.

(** ** Any value that is not a message *)

(** The bytes of memory that make up a value: what follows the terminator of a
    string or the last byte of a bytes value is not part of it.  A string that
    fills its array has no terminator and cannot be restored. *)
Definition item_image (f : pb_field_t) (a : Z) : option (list Z) :=
  let ltype := PB_LTYPE (pf_type f) in
  let size := pf_data_size f in
  if ltype =? PB_LTYPE_FIXED32 then if 4 <=? size then mem_load ro a 4 else None
  else if ltype =? PB_LTYPE_FIXED64 then if 8 <=? size then mem_load ro a 8 else None
  else if ltype =? PB_LTYPE_BYTES then
    n ← le_at ro 4 a; mem_load ro a (4 + Z.to_nat n)
  else if ltype =? PB_LTYPE_STRING then
    l ← c_string ro true (Z.to_nat size) a;
    if Z.of_nat (length l) <? size then mem_load ro a (length l + 1) else None
  else if ltype =? PB_LTYPE_SUBMESSAGE then None
  else mem_load ro a (Z.to_nat size).

Lemma mem_load_split m a n1 n2 l :
  mem_load m a (n1 + n2) = Some l ->
  exists l1 l2, l = l1 ++ l2 /\ mem_load m a n1 = Some l1 /\
                mem_load m (a + Z.of_nat n1) n2 = Some l2.
Proof.
  revert a l. induction n1 as [|n1 IH]; intros a l H.
  - exists [], l. cbn in H |- *. rewrite Z.add_0_r. done.
  - cbn in H |- *. destruct (m !! a) as [b|]; [|done].
    destruct (mem_load m (a + 1) (n1 + n2)) as [l'|] eqn:E; [|done]. injection H as <-.
    destruct (IH _ _ E) as (l1 & l2 & -> & -> & H2). exists (b :: l1), l2.
    split; [done|]. split; [done|]. by replace (a + Z.of_nat (S n1)) with (a + 1 + Z.of_nat n1) by lia.
Qed.

Lemma c_string_bytes bounded n a l : c_string ro bounded n a = Some l -> Forall is_byte l.
Proof.
  revert a l. induction n as [|n IH]; intros a l; cbn [c_string].
  - destruct bounded; [|done]. intros [= <-]. constructor.
  - destruct (ro !! a) as [b|] eqn:Hb; [|done]. destruct (b =? 0); [intros [= <-]; constructor|].
    destruct (c_string ro bounded n (a + 1)) as [l'|] eqn:E; [|done]. intros [= <-].
    constructor; [by eapply Hbytes|by eapply IH].
Qed.

(** The bytes of a string are in memory, and a terminator follows. *)
Lemma c_string_terminated n a l :
  c_string ro true n a = Some l -> (length l < n)%nat ->
  mem_load ro a (length l + 1) = Some (l ++ [0]).
Proof.
  revert a l. induction n as [|n IH]; intros a l; cbn [c_string].
  - intros [= <-]. cbn. lia.
  - destruct (ro !! a) as [b|] eqn:Hb; [|done]. destruct (Z.eqb_spec b 0) as [->|Hz].
    + intros [= <-] _. cbn. by rewrite Hb.
    + destruct (c_string ro true n (a + 1)) as [l'|] eqn:E; [|done]. intros [= <-] Hlt.
      cbn in Hlt |- *. rewrite Hb, (IH _ _ E) by lia. done.
Qed.

Lemma bytes_image a n l img :
  le_at ro 4 a = Some n -> mem_load ro (a + offsetof_bytes) (Z.to_nat n) = Some l ->
  mem_load ro a (4 + Z.to_nat n) = Some img ->
  img = le_split 4 (Z.of_nat (length l)) ++ l /\ n = Z.of_nat (length l).
Proof.
  unfold le_at. intros Hn Hl Himg. destruct (mem_load_split _ _ _ _ _ Himg) as (l1 & l2 & -> & H1 & H2).
  rewrite H1 in Hn. injection Hn as <-. unfold offsetof_bytes in Hl.
  change (Z.of_nat 4) with 4 in H2. rewrite H2 in Hl. injection Hl as ->.
  pose proof (mem_load_bytes _ _ _ _ Hbytes H1) as Hb. pose proof (mem_load_length _ _ _ _ H1) as Hlen.
  pose proof (mem_load_length _ _ _ _ H2) as Hlen2. pose proof (le_combine_range l1 Hb).
  assert (le_combine l1 = Z.of_nat (length l)) as E by lia. split; [|exact E].
  rewrite <- E. f_equal. rewrite <- Hlen. symmetry. by apply le_split_combine.
Qed.

Lemma item_roundtrip message fuel noinit f a bs img dest s rest :
  PB_ATYPE (pf_type f) = PB_ATYPE_STATIC -> well_typed f = true -> a <> 0 ->
  item_bytes ro message f a = Some bs -> item_image f a = Some img ->
  buf_input s (bs ++ rest) -> apart s dest (pf_data_size f) ->
  mapped (ds_mem s) dest (dest + pf_data_size f) ->
  stored s (length bs) dest img (call_decoder fuel noinit f dest s).
Proof.
  intros Hat Hty Ha Hbs Himg Hs Hd Hm. destruct (typed_bounds f Hty) as [_ Hsz].
  unfold call_decoder, item_bytes, item_image in *. cbv zeta in *.
  destruct (Z.eqb_spec (PB_LTYPE (pf_type f)) PB_LTYPE_VARINT) as [E|].
  { rewrite E in *. destruct (signed_at ro _ a) as [v|] eqn:Ev; [|done]. injection Hbs as <-.
    destruct (dec_varint_roundtrip f a v dest s rest Ev Hs Hm) as (l & Hl & Hst).
    revert Himg. ztests. rewrite Hl. intros [= <-]. exact Hst. }
  destruct (Z.eqb_spec (PB_LTYPE (pf_type f)) PB_LTYPE_UVARINT) as [E|].
  { rewrite E in *. destruct (unsigned_at ro _ a) as [v|] eqn:Ev; [|done]. injection Hbs as <-.
    destruct (dec_uvarint_roundtrip f a v dest s rest Ev Hs Hm) as (l & Hl & Hst).
    revert Himg. ztests. rewrite Hl. intros [= <-]. exact Hst. }
  destruct (Z.eqb_spec (PB_LTYPE (pf_type f)) PB_LTYPE_SVARINT) as [E|].
  { rewrite E in *. destruct (signed_at ro _ a) as [v|] eqn:Ev; [|done]. injection Hbs as <-.
    destruct (dec_svarint_roundtrip f a v dest s rest Ev Hs Hm) as (l & Hl & Hst).
    revert Himg. ztests. rewrite Hl. intros [= <-]. exact Hst. }
  destruct (Z.eqb_spec (PB_LTYPE (pf_type f)) PB_LTYPE_FIXED32) as [E|].
  { rewrite E in *. destruct (Z.leb_spec 4 (pf_data_size f)); [|done].
    rewrite Himg in Hbs. injection Hbs as ->. pose proof (mem_load_length _ _ _ _ Himg) as Hl.
    rewrite Hl. apply (dec_fixed_roundtrip 4 dest bs s rest (pb_decode_fixed32 dest)); try done.
    - intros s' Hs' Hl'. by apply (pb_decode_fixed32_refines s' bs rest).
    - eapply mapped_sub; [exact Hm|lia..]. }
  destruct (Z.eqb_spec (PB_LTYPE (pf_type f)) PB_LTYPE_FIXED64) as [E|].
  { rewrite E in *. destruct (Z.leb_spec 8 (pf_data_size f)); [|done].
    rewrite Himg in Hbs. injection Hbs as ->. pose proof (mem_load_length _ _ _ _ Himg) as Hl.
    rewrite Hl. apply (dec_fixed_roundtrip 8 dest bs s rest (pb_decode_fixed64 dest)); try done.
    - intros s' Hs' Hl'. by apply (pb_decode_fixed64_refines s' bs rest).
    - eapply mapped_sub; [exact Hm|lia..]. }
  destruct (Z.eqb_spec a 0); [done|].
  destruct (Z.eqb_spec (PB_LTYPE (pf_type f)) PB_LTYPE_BYTES) as [E|].
  { rewrite E in *. destruct (le_at ro 4 a) as [k|] eqn:Ek; [|done]. cbn [mbind option_bind] in *.
    rewrite Hat, Z.eqb_refl in Hbs. cbn [andb] in Hbs.
    destruct (Z.ltb_spec (pf_data_size f) (PB_BYTES_ARRAY_T_ALLOCSIZE k)) as [|Hfit]; [done|].
    destruct (mem_load ro (a + offsetof_bytes) _) as [l|] eqn:El; [|done]. injection Hbs as <-.
    destruct (bytes_image _ _ _ _ Ek El Himg) as [-> Hk].
    apply (dec_bytes_roundtrip f dest s l rest); try done. split; [|lia].
    apply (le_at_inv ro Hbytes) in Ek as [_ Ek]. change (2 ^ (8 * Z.of_nat 4)) with (2 ^ 32) in Ek.
    pose proof Hs as (_ & _ & Hsz' & _). unfold delimited in Hsz'. rewrite !length_app in Hsz'.
    pose proof (varint_bytes_length_5 (Z.of_nat (length l))). pose proof size_bits_bound.
    apply alloc_size_fits in Hfit; lia. }
  destruct (Z.eqb_spec (PB_LTYPE (pf_type f)) PB_LTYPE_STRING) as [E|].
  { rewrite E in *. rewrite Hat in Hbs. change (PB_ATYPE_STATIC =? PB_ATYPE_POINTER) with false in Hbs.
    cbv iota in Hbs. destruct (c_string ro true _ a) as [l|] eqn:El; [|done]. injection Hbs as <-.
    cbn [mbind option_bind] in Himg.
    destruct (Z.ltb_spec (Z.of_nat (length l)) (pf_data_size f)); [|done].
    rewrite (c_string_terminated _ _ _ El) in Himg by lia. injection Himg as <-.
    apply (dec_string_roundtrip f dest s l rest); try done; lia. }
  destruct (Z.eqb_spec (PB_LTYPE (pf_type f)) PB_LTYPE_SUBMESSAGE) as [E|]; [done|].
  destruct (Z.eqb_spec (PB_LTYPE (pf_type f)) PB_LTYPE_FIXED_LENGTH_BYTES) as [E|]; [|done].
  rewrite E. rewrite Himg in Hbs. injection Hbs as <-.
  pose proof (mem_load_length _ _ _ _ Himg) as Hl.
  apply (dec_fixed_length_bytes_roundtrip f dest s img rest); try done; lia.
Qed.

(** ** The specification is made of bytes *)

(** The first computation of a chain in the option monad returned [x]. *)
Ltac step_option x :=
  match goal with
  | |- mbind _ ?o = _ -> _ => destruct o as [x|]; [cbn [mbind option_bind]|done]
  end.

Lemma wiretype_range ltype wt : wiretype_of_ltype ltype = Some wt -> 0 <= wt < 8.
Proof.
  unfold wiretype_of_ltype.
  repeat match goal with |- (if ?c then _ else _) = _ -> _ => destruct c end;
    intros [= <-]; unfold PB_WT_VARINT, PB_WT_64BIT, PB_WT_STRING, PB_WT_32BIT; lia.
Qed.

Lemma delimited_bytes l : Forall is_byte l -> Forall is_byte (delimited l).
Proof. intros. apply Forall_app. split; [apply varint_bytes_bytes; lia|done]. Qed.

Lemma item_bytes_bytes message f a bs :
  (forall fields a l, message fields a = Some l -> Forall is_byte l) ->
  item_bytes ro message f a = Some bs -> Forall is_byte bs.
Proof.
  intros Hmsg. unfold item_bytes. cbv zeta.
  assert (forall k b l, mem_load ro b k = Some l -> Forall is_byte l) as Hload.
  { intros k b l Hl. by eapply mem_load_bytes. }
  assert (forall o, (forall l, o = Some l -> Forall is_byte l) ->
            delimited <$> o = Some bs -> Forall is_byte bs) as Hdel.
  { intros [l|] Ho; [|done]. intros [= <-]. by apply delimited_bytes, Ho. }
  assert (Forall is_byte [0]) as H0 by (constructor; [unfold is_byte; lia|constructor]).
  repeat match goal with |- (if ?c then _ else _) = _ -> _ => destruct c end; try done;
    try (intros [= <-]; exact H0); try (by apply Hload); try (apply Hdel; by eauto using c_string_bytes).
  - destruct (signed_at ro _ a); [|done]. intros [= <-]. apply varint_bytes_bytes.
    apply uwrap_range. lia.
  - destruct (unsigned_at ro _ a) as [v|] eqn:E; [|done]. intros [= <-].
    apply unsigned_at_inv in E as (_ & E & _). apply varint_bytes_bytes. lia.
  - destruct (signed_at ro _ a); [|done]. intros [= <-]. apply varint_bytes_bytes.
    unfold zigzag. destruct (Z.ltb_spec z 0); lia.
  - destruct (le_at ro 4 a) as [k|]; [|done]. cbn [mbind option_bind].
    destruct (_ && _); [done|]. apply Hdel. eauto.
  - destruct (descriptors_at (pf_ptr f)) as [sub|]; [|done]. cbn [mbind option_bind].
    apply Hdel. eauto.
Qed.

Lemma tagged_bytes f l bs : 0 <= pf_tag f -> Forall is_byte l -> tagged f l = Some bs -> Forall is_byte bs.
Proof.
  unfold tagged. intros Ht Hl H. destruct (wiretype_of_ltype _) as [wt|] eqn:E; [|done].
  injection H as <-. apply wiretype_range in E. apply Forall_app. split; [|done].
  apply varint_bytes_bytes. unfold tag_value. lia.
Qed.

Lemma items_bytes_bytes n stride a item bs :
  (forall b l, item b = Some l -> Forall is_byte l) ->
  items_bytes n stride a item = Some bs -> Forall is_byte bs.
Proof.
  intros Hi. revert a bs. induction n as [|n IH]; intros a bs; cbn [items_bytes].
  - intros [= <-]. constructor.
  - destruct (item a) as [l|] eqn:E; [|done]. cbn [mbind option_bind].
    destruct (items_bytes n stride (a + stride) item) as [l'|] eqn:E'; [|done].
    intros [= <-]. apply Forall_app. eauto.
Qed.

Lemma array_bytes_bytes message f a count bs :
  (forall fields a l, message fields a = Some l -> Forall is_byte l) ->
  well_typed f = true -> array_bytes ro message f a count = Some bs -> Forall is_byte bs.
Proof.
  intros Hmsg Hty. destruct (typed_bounds f Hty) as [Htag _]. unfold array_bytes. cbv zeta.
  destruct (count =? 0); [intros [= <-]; constructor|].
  destruct (_ && _); [done|]. destruct (_ <=? _).
  - destruct (items_bytes _ _ _ _) as [l|] eqn:E; [|done]. intros [= <-].
    apply Forall_app. split; [apply varint_bytes_bytes; unfold tag_value, PB_WT_STRING; lia|].
    apply delimited_bytes. eapply items_bytes_bytes; [|exact E].
    intros b l'. by apply item_bytes_bytes.
  - apply items_bytes_bytes. intros b l. step_option p'. destruct (item_bytes _ _ _ _) as [l'|] eqn:E; [|done].
    cbn [mbind option_bind]. apply tagged_bytes; [lia|]. by eapply item_bytes_bytes.
Qed.

Lemma field_bytes_bytes fuel message f pData bs :
  (forall fields a l, message fields a = Some l -> Forall is_byte l) ->
  well_typed f = true -> field_bytes ro fuel message f pData = Some bs -> Forall is_byte bs.
Proof.
  intros Hmsg Hty. destruct (typed_bounds f Hty) as [Htag _].
  assert (forall a, (l ← item_bytes ro message f a; tagged f l) = Some bs -> Forall is_byte bs)
    as Hone.
  { intros a. destruct (item_bytes _ _ _ _) as [l'|] eqn:E; [|done]. cbn [mbind option_bind].
    apply tagged_bytes; [lia|]. by eapply item_bytes_bytes. }
  assert (forall o : option Z, (x ← o; if x =? 0 then Some [] else None) = Some bs ->
            Forall is_byte bs) as Hnull.
  { intros [x|]; [|done]. cbn. destruct (x =? 0); [intros [= <-]; constructor|done]. }
  unfold field_bytes. cbv zeta. destruct (_ =? PB_LTYPE_EXTENSION); [apply Hnull|].
  destruct (_ || _); [|destruct (_ =? PB_ATYPE_CALLBACK); [apply Hnull|done]].
  unfold basic_bytes. cbv zeta.
  step_option d. step_option a.
  destruct (_ <=? _); [done|].
  destruct (_ =? PB_HTYPE_REQUIRED); [destruct (a =? 0); [done|apply Hone]|].
  destruct (_ =? PB_HTYPE_OPTIONAL).
  { step_option has. destruct has; [apply Hone|intros [= <-]; constructor]. }
  destruct (negb (negb _)); [done|]. destruct (le_at ro 4 _) as [k|]; [|by destruct (_ =? _)].
  destruct (_ =? PB_HTYPE_REPEATED); cbn [mbind option_bind]; [by apply array_bytes_bytes|].
  destruct (_ =? _); [apply Hone|intros [= <-]; constructor].
Qed.

Lemma message_bytes_bytes fuel fields base bs :
  message_bytes ro fuel fields base = Some bs -> Forall is_byte bs.
Proof.
  revert fields base bs. induction fuel as [|fuel IH]; intros fields base bs; [done|].
  cbn [message_bytes]. destruct (terminated fields && forallb well_typed fields) eqn:E; [|done].
  apply andb_true_iff in E as [_ Hty]. rewrite forallb_forall in Hty.
  assert (Forall (fun p => well_typed (snd p) = true) (positions fields base)) as Hps.
  { apply Forall_lookup_2. intros i p Hp. apply positions_lookup in Hp as (Hp & _).
    apply Hty. apply list_elem_of_In. by eapply list_elem_of_lookup_2. }
  revert bs Hps. induction (positions fields base) as [|p ps IHps]; intros bs Hps; cbn [concat_bytes].
  - intros [= <-]. constructor.
  - apply Forall_cons in Hps as [Hp Hps].
    destruct (field_bytes _ _ _ _ _) as [l|] eqn:El; [|done]. cbn [mbind option_bind].
    destruct (concat_bytes _ ps) as [l'|] eqn:El'; [|done]. intros [= <-].
    apply Forall_app. split; [by eapply field_bytes_bytes|by apply IHps].
Qed.

(** ** Records *)

Lemma delimited_payload l rest :
  Forall is_byte l -> Z.of_nat (length l) < 2 ^ 32 ->
  payload_length PB_WT_STRING (delimited l ++ rest) = Some (length (delimited l)).
Proof.
  intros Hb Hl. unfold payload_length, delimited. ztests.
  rewrite <- app_assoc, scan_varint_bytes_32 by lia.
  rewrite uwrap_small by lia. f_equal. rewrite length_app. lia.
Qed.

Lemma varint_payload v rest :
  0 <= v < 2 ^ 64 ->
  payload_length PB_WT_VARINT (varint_bytes v ++ rest) = Some (length (varint_bytes v)).
Proof. intros Hv. unfold payload_length. ztests. by rewrite parse_varint_bytes. Qed.

(** The payload of a value has the length its wire type announces. *)
Lemma item_payload message f a wt bs rest :
  (forall fields a l, message fields a = Some l -> Forall is_byte l) ->
  wiretype_of_ltype (PB_LTYPE (pf_type f)) = Some wt ->
  item_bytes ro message f a = Some bs -> Z.of_nat (length bs) < 2 ^ 32 ->
  payload_length wt (bs ++ rest) = Some (length bs).
Proof.
  intros Hmsg Hwt Hbs Hlen. unfold item_bytes in Hbs. cbv zeta in Hbs.
  assert (forall l, Forall is_byte l -> Some (delimited l) = Some bs ->
            payload_length PB_WT_STRING (bs ++ rest) = Some (length bs)) as Hdel.
  { intros l Hb [= <-]. apply delimited_payload; [done|].
    unfold delimited in Hlen. rewrite length_app in Hlen. lia. }
  destruct (Z.eqb_spec (PB_LTYPE (pf_type f)) PB_LTYPE_VARINT) as [E|].
  { rewrite E in Hwt. injection Hwt as <-. destruct (signed_at ro _ a) as [v|]; [|done].
    injection Hbs as <-. apply varint_payload, uwrap_range. lia. }
  destruct (Z.eqb_spec (PB_LTYPE (pf_type f)) PB_LTYPE_UVARINT) as [E|].
  { rewrite E in Hwt. injection Hwt as <-. destruct (unsigned_at ro _ a) as [v|] eqn:Ev; [|done].
    injection Hbs as <-. apply (reads_unsigned ro Hbytes) in Ev as [_ Ev]. by apply varint_payload. }
  destruct (Z.eqb_spec (PB_LTYPE (pf_type f)) PB_LTYPE_SVARINT) as [E|].
  { rewrite E in Hwt. injection Hwt as <-. destruct (signed_at ro _ a) as [v|] eqn:Ev; [|done].
    injection Hbs as <-. apply (reads_signed ro Hbytes) in Ev as [_ Ev].
    by apply varint_payload, zigzag_range. }
  destruct (Z.eqb_spec (PB_LTYPE (pf_type f)) PB_LTYPE_FIXED32) as [E|].
  { rewrite E in Hwt. injection Hwt as <-. by rewrite (mem_load_length _ _ _ _ Hbs). }
  destruct (Z.eqb_spec (PB_LTYPE (pf_type f)) PB_LTYPE_FIXED64) as [E|].
  { rewrite E in Hwt. injection Hwt as <-. by rewrite (mem_load_length _ _ _ _ Hbs). }
  destruct (Z.eqb_spec (PB_LTYPE (pf_type f)) PB_LTYPE_BYTES) as [E|].
  { rewrite E in Hwt. injection Hwt as <-. destruct (a =? 0); [by apply (Hdel [])|].
    destruct (le_at ro 4 a) as [k|]; [|done]. cbn [mbind option_bind] in Hbs.
    destruct (_ && _); [done|]. destruct (mem_load ro _ _) as [l|] eqn:El; [|done].
    apply (Hdel l); [by eapply mem_load_bytes|done]. }
  destruct (Z.eqb_spec (PB_LTYPE (pf_type f)) PB_LTYPE_STRING) as [E|].
  { rewrite E in Hwt. injection Hwt as <-. destruct (a =? 0); [by apply (Hdel [])|].
    destruct (_ =? PB_ATYPE_POINTER);
      (destruct (c_string ro _ _ a) as [l|] eqn:El; [|done]); apply (Hdel l); try done;
      by eapply c_string_bytes. }
  destruct (Z.eqb_spec (PB_LTYPE (pf_type f)) PB_LTYPE_SUBMESSAGE) as [E|].
  { rewrite E in Hwt. injection Hwt as <-. destruct (pf_ptr f =? 0); [done|].
    destruct (descriptors_at (pf_ptr f)) as [sub|]; [|done]. cbn [mbind option_bind] in Hbs.
    destruct (message sub a) as [l|] eqn:El; [|done]. apply (Hdel l); [by eapply Hmsg|done]. }
  destruct (Z.eqb_spec (PB_LTYPE (pf_type f)) PB_LTYPE_FIXED_LENGTH_BYTES) as [E|]; [|done].
  rewrite E in Hwt. injection Hwt as <-. destruct (mem_load ro a _) as [l|] eqn:El; [|done].
  apply (Hdel l); [by eapply mem_load_bytes|done].
Qed.

(** The record of a value is read as its tag and its payload. *)
Lemma record_roundtrip message f a bs record s rest :
  (forall fields a l, message fields a = Some l -> Forall is_byte l) ->
  0 < pf_tag f < 2 ^ 29 ->
  item_bytes ro message f a = Some bs -> tagged f bs = Some record ->
  Z.of_nat (length bs) < 2 ^ 32 -> buf_input s (record ++ rest) ->
  exists wt s1,
    wiretype_of_ltype (PB_LTYPE (pf_type f)) = Some wt /\
    pb_decode_tag s = Ok (mk_tag true wt (pf_tag f) false) s1 /\
    buf_input s1 (bs ++ rest) /\ ds_mem s1 = ds_mem s /\
    pb_skip_field wt s1 = Ok tt (advance (length record) s).
Proof.
  intros Hmsg Htag Hbs Hrec Hlen Hs. unfold tagged in Hrec.
  destruct (wiretype_of_ltype _) as [wt|] eqn:Hwt; [|done]. injection Hrec as <-.
  rewrite <- app_assoc in Hs. exists wt. eexists. split; [done|].
  split; [apply (decode_tag_bytes s wt (pf_tag f) _ Htag (wiretype_range _ _ Hwt) Hs)|].
  pose proof (advance_app_n _ _ _ Hs) as Hs1. split; [exact Hs1|]. split; [done|].
  pose proof (pb_skip_field_refines wt _ _ Hs1) as Hskip.
  rewrite (item_payload message f a wt bs rest Hmsg Hwt Hbs Hlen) in Hskip.
  rewrite length_app in Hskip.
  destruct (Nat.leb_spec (length bs) (length bs + length rest)); [|lia].
  by rewrite Hskip, advance_advance, length_app.
Qed.

(** ** Unknown records *)

(** A search that no field satisfies leaves the iterator where it is. *)
Lemma search_misses {St} found fields base it (s : St) :
  terminated fields = true -> cursor fields base it -> found PB_LAST_FIELD = false ->
  Forall (fun p => found (snd p) = false) (positions fields base) ->
  iter_search found it s = Ok (it, false) s.
Proof.
  intros Ht Hc Hlast Hf.
  destruct (cursor_search found fields base it s Ht Hc) as (it' & [|] & E & _ & H).
  - destruct H as [(i & p & Hp & _ & Hfound) | (_ & _ & Hfound)]; [|congruence].
    eapply Forall_lookup_1 in Hf; [|exact Hp]. cbn in Hf. congruence.
  - destruct H as [-> _]. exact E.
Qed.

Lemma tag_not_found fields base tag :
  Forall (fun p => pf_tag (snd p) <> tag /\ PB_LTYPE (pf_type (snd p)) <> PB_LTYPE_EXTENSION)
    (positions fields base) ->
  Forall (fun p => (pf_tag (snd p) =? tag) &&
                   negb (PB_LTYPE (pf_type (snd p)) =? PB_LTYPE_EXTENSION) = false)
    (positions fields base).
Proof.
  intros Hf. eapply Forall_impl; [exact Hf|]. intros p [Hp _]. cbn.
  by destruct (Z.eqb_spec (pf_tag (snd p)) tag).
Qed.

(** Without an extension field, an unknown record is skipped. *)
Lemma unknown_field_skipped fuel noinit fields base it tag wt payload rest range s :
  terminated fields = true -> cursor fields base it ->
  Forall (fun p => PB_LTYPE (pf_type (snd p)) <> PB_LTYPE_EXTENSION) (positions fields base) ->
  tag < UINT32_MAX -> payload_length wt (payload ++ rest) = Some (length payload) ->
  buf_input s (payload ++ rest) ->
  exists r, decode_unknown_field fuel noinit tag wt it range s =
            Ok (it, r) (advance (length payload) s).
Proof.
  intros Ht Hc Hf Htag Hp Hs. pose proof (pb_skip_field_refines wt _ _ Hs) as Hskip.
  rewrite Hp, length_app in Hskip.
  destruct (Nat.leb_spec (length payload) (length payload + length rest)); [|lia].
  unfold decode_unknown_field. destruct (range <=? tag).
  - assert (find_extension_field it s = Ok (it, false) s) as E.
    { apply (search_misses _ fields base); [done..|]. eapply Forall_impl; [exact Hf|].
      intros p Hp'. by apply Z.eqb_neq. }
    rewrite (bind_ok _ _ _ _ _ E). cbn [fst snd negb]. rewrite bind_ret. destruct (Z.leb_spec UINT32_MAX tag); [lia|].
    rewrite (bind_ok _ _ _ _ _ Hskip). by eexists.
  - rewrite (bind_ok _ _ _ _ _ Hskip). by eexists.
Qed.

End items.

(** * Round trips: theorems

    What pb_encode.c writes into a buffer is read back by pb_decode.c from a
    stream opened on that buffer. *)

Section roundtrip.
Context {PL : Platform} {UR : UserRead} {UD : UserDecode} {DS : Descriptors}.
Context {UW : UserWrite} {UE : UserEncode}.
Context (ro m : mem) (buf cap : Z).

Abbreviation on_buffer := (on_buffer m buf cap).
Abbreviation output_buffer := (output_buffer ro m buf cap).
Abbreviation reading := (reading buf).

(** [w] fills the buffer with what [r] reads as [v]: nothing is left of the
    input, and reading does not touch the memory. *)
Definition restores {A} (w : M estate unit) (r : M dstate A) (v : A) : Prop :=
  exists o m' s',
    w on_buffer = Ok tt (mk_estate o m') /\
    r (reading m' (os_bytes_written o)) = Ok v s' /\
    is_bytes_left (ds_in s') = 0 /\ ds_mem s' = m'.

(** What has been written is an input that can be read. *)
Lemma emitted_read {A} (w : M estate unit) bs (r : M dstate A) (v : A) :
  output_buffer -> emits ro buf (buf + cap) w bs -> Z.of_nat (length bs) <= cap ->
  Forall is_byte bs ->
  (forall s, buf_input s (bs ++ []) -> r s = Ok v (advance (length bs) s)) ->
  restores w r v.
Proof.
  intros OB Hw Hc Hb Hr.
  destruct (emitted_input ro m buf cap w bs OB Hw Hc Hb) as (m' & E & _ & Hin).
  do 3 eexists. split; [exact E|]. cbn [os_bytes_written written es_out pb_ostream_from_buffer
    on_buffer]. rewrite Z.add_0_l.
  split; [apply Hr; by rewrite app_nil_r|]. split; [|done]. cbn. lia.
Qed.

(** A signed varint written to a buffer is read back. *)
Theorem svarint_roundtrip v :
  output_buffer -> - 2 ^ 63 <= v < 2 ^ 63 -> Z.of_nat (length (varint_bytes (zigzag v))) <= cap ->
  restores (pb_encode_svarint v) pb_decode_svarint v.
Proof.
  intros OB Hv Hc. pose proof (zigzag_range v Hv).
  eapply emitted_read; [done|by apply emits_svarint|done| |].
  - apply varint_bytes_bytes. lia.
  - intros s. by apply decode_svarint_bytes.
Qed.

(** C3: The value of a static field that is not a message, encoded from [a] and
    decoded to [dest], is the same in memory: integers of every width and sign,
    fixed-width numbers, bytes with their length, strings with their
    terminator. *)
Theorem value_roundtrip fuel noinit f a bs img dest :
  output_buffer -> PB_ATYPE (pf_type f) = PB_ATYPE_STATIC -> well_typed f = true -> a <> 0 ->
  item_bytes ro (fun _ _ => None) f a = Some bs -> item_image ro f a = Some img ->
  Z.of_nat (length bs) <= cap ->
  mapped m dest (dest + pf_data_size f) ->
  dest + pf_data_size f <= buf \/ buf + cap <= dest ->
  exists o m1 s',
    call_encoder (fun _ _ => fail) f a on_buffer = Ok tt (mk_estate o m1) /\
    call_decoder fuel noinit f dest (reading m1 (os_bytes_written o)) = Ok tt s' /\
    mem_load (ds_mem s') dest (length img) = Some img /\ is_bytes_left (ds_in s') = 0.
Proof.
  intros OB Hat Hty Ha Hbs Himg Hc Hm Hd. pose proof OB as [_ Hb Hdj _ _].
  assert (emits ro buf (buf + cap) (call_encoder (fun _ _ => fail) f a) bs) as He.
  { eapply emits_item; [done|done| |apply typed_bounds; done|exact Hbs]. done. }
  destruct (emitted_input ro m buf cap _ bs OB He Hc) as (m1 & E & Hle & Hin).
  { eapply item_bytes_bytes; [done| |exact Hbs]. done. }
  destruct (item_roundtrip ro Hb (fun _ _ => None) fuel noinit f a bs img dest _ []
    Hat Hty Ha Hbs Himg ltac:(by rewrite app_nil_r)) as (m2 & Hst & D).
  { unfold apart. cbn. lia. }
  { intros x Hx. by apply Hle, Hm. }
  do 3 eexists. split; [exact E|]. cbn [os_bytes_written written es_out pb_ostream_from_buffer
    on_buffer]. rewrite Z.add_0_l. split; [exact D|].
  split; [by eapply mem_load_store|]. cbn. lia.
Qed.

(** A record whose number no field of the message has is skipped by the
    message loop, whatever it holds: the destination, the required fields seen
    and the position of the iterator do not change, and the next record follows. *)
Theorem unknown_record_skipped fuel noinit fields base v wt tag payload rest s :
  terminated fields = true -> cursor fields base (dv_iter v) ->
  Forall (fun p => pf_tag (snd p) <> tag /\ PB_LTYPE (pf_type (snd p)) <> PB_LTYPE_EXTENSION)
    (positions fields base) ->
  0 < tag < 2 ^ 29 -> 0 <= wt < 8 ->
  payload_length wt (payload ++ rest) = Some (length payload) ->
  let record := varint_bytes (tag_value wt tag) ++ payload in
  buf_input s (record ++ rest) ->
  exists r,
    decode_step fuel noinit v s =
      Ok (inl (mk_vars (dv_iter v) (dv_fields_seen v) r)) (advance (length record) s).
Proof.
  cbv zeta. intros Ht Hc Hf Htag Hwt Hp Hs. rewrite <- app_assoc in Hs.
  pose proof (buf_input_left _ _ Hs) as Hl. rewrite length_app in Hl.
  pose proof (varint_bytes_length (tag_value wt tag)).
  unfold decode_step. rewrite bind_gets.
  destruct (Z.eqb_spec (is_bytes_left (ds_in s)) 0); [lia|].
  rewrite (bind_ok _ _ _ _ _ (decode_tag_bytes s wt tag _ Htag Hwt Hs)).
  cbn [dt_ok dt_tag dt_wire_type negb].
  set (s1 := advance _ s).
  assert (pb_field_iter_find (dv_iter v) tag s1 = Ok (dv_iter v, false) s1) as E.
  { apply (search_misses _ fields base); [done..| |by apply tag_not_found].
    destruct (Z.eqb_spec (pf_tag PB_LAST_FIELD) tag) as [E|]; [change (0 = tag) in E; lia|done]. }
  rewrite (bind_ok _ _ _ _ _ E).
  cbn [fst snd negb].
  destruct (unknown_field_skipped fuel noinit fields base (dv_iter v) tag wt payload rest
    (dv_extension_range_start v) s1)
    as [r Hr]; [done..| |change UINT32_MAX with (2 ^ 32 - 1); lia|done|by apply advance_app_n|].
  { eapply Forall_impl; [exact Hf|]. by intros p []. }
  exists r. rewrite (bind_ok _ _ _ _ _ Hr). cbn [fst snd]. unfold ret, s1.
  by rewrite advance_advance, length_app.
Qed.

End roundtrip.

(** ** Instances *)

Lemma svarint_roundtrip_witness :
  restores (es_mem encoding) buffer_at 100 (pb_encode_svarint (-70)) pb_decode_svarint (-70).
Proof.
  apply (svarint_roundtrip value_memory); [apply encoding_buffer; lia|lia|discriminate].
Defined.

(** The string of the example, without the padding behind its terminator. *)
Lemma value_roundtrip_witness :
  let f := snd (Message_position 1) in
  exists o m1 s',
    call_encoder (fun _ _ => fail) f 1005 (on_buffer (es_mem encoding) buffer_at 100) =
      Ok tt (mk_estate o m1) /\
    call_decoder 5 (fun _ _ => fail) f (message_at + 5)
      (reading buffer_at m1 (os_bytes_written o)) = Ok tt s' /\
    mem_load (ds_mem s') (message_at + 5) 3 = Some [104; 105; 0] /\
    is_bytes_left (ds_in s') = 0.
Proof.
  apply (value_roundtrip value_memory (es_mem encoding) buffer_at 100 5 (fun _ _ => fail)
           (snd (Message_position 1)) 1005 [2; 104; 105] [104; 105; 0] (message_at + 5)).
  - apply encoding_buffer. lia.
  - reflexivity.
  - reflexivity.
  - discriminate.
  - vm_compute. reflexivity.
  - vm_compute. reflexivity.
  - discriminate.
  - change (pf_data_size _) with 8. intros x Hx. unfold encoding, es_mem, example_memory.
    rewrite mem_alloc_lookup, length_replicate. unfold message_at in *. rewrite decide_True by lia.
    apply lookup_lt_is_Some. rewrite length_replicate. lia.
  - right. unfold buffer_at, message_at. lia.
Defined.

(** Field 2 is not a field of [Point]: [hi] is skipped, and field 1 follows. *)
Lemma unknown_record_skipped_witness :
  let v := mk_vars (first_position Point_fields (PB_FIELD 1 SINT32 REQUIRED STATIC FIRST m_z m_z 0)
                      message_at) [0; 0] 0 in
  let s := decoding [0x12; 2; 104; 105; 0x08; 9] in
  exists r, decode_step 5 (fun _ _ => fail) v s =
    Ok (inl (mk_vars (dv_iter v) (dv_fields_seen v) r)) (advance 4 s).
Proof.
  cbv zeta.
  apply (unknown_record_skipped 5 (fun _ _ => fail) Point_fields message_at
           (mk_vars (first_position Point_fields (PB_FIELD 1 SINT32 REQUIRED STATIC FIRST m_z m_z 0)
                      message_at) [0; 0] 0) PB_WT_STRING 2 [2; 104; 105] [0x08; 9]
           (decoding [0x12; 2; 104; 105; 0x08; 9])).
  - reflexivity.
  - by apply (cursor_at Point_fields message_at 0 (_, PB_FIELD 1 SINT32 REQUIRED STATIC FIRST m_z m_z 0)).
  - repeat constructor; discriminate.
  - lia.
  - unfold PB_WT_STRING. lia.
  - reflexivity.
  - apply decoding_input; [by apply all_bytes_Forall|done].
Defined.
