(* ===== verification/Malloc.v ===== *)
(** * Dynamic allocation (pb_decode.c and pb.h under PB_ENABLE_MALLOC)

    The application's build does not enable it, but the decoder carries the
    branch: fields of allocation type POINTER live in blocks obtained from
    [realloc].  This file models the heap, [allocate_field], the clearing of new
    items and the release of messages. *)

From Stdlib Require Import ZArith Lia.
From stdpp Require Import base option list strings gmap.
From S2P Require Import Prelude Memory Descr Decode.

(** ** The heap

    The state of the decoder with the blocks that are allocated: address and
    size in bytes.  The bytes of a block are part of the memory. *)
Record astate := mk_astate {
  as_ds : dstate;
  as_heap : gmap Z Z
}.

Abbreviation as_mem s := (ds_mem (as_ds s)).

#[export] Instance astate_has_mem : HasMem astate := {
  get_mem s := ds_mem (as_ds s);
  set_mem m s := mk_astate (mk_dstate (ds_in (as_ds s)) m) (as_heap s)
}.

(** The parts of the decoder that do not allocate. *)
Definition lift {A} (m : M dstate A) : M astate A := fun s =>
  match m (as_ds s) with
  | Ok a d => Ok a (mk_astate d (as_heap s))
  | Err d => Err (mk_astate d (as_heap s))
  | Ub => Ub
  | OutOfFuel => OutOfFuel
  end.

(** The allocator of the C library: where a block is placed that is to have [n] bytes
    and takes the place of the one a pointer leads to, or that the request is refused,
    and the contents a new byte happens to have. *)
Class Allocator := {
  heap_place : mem -> gmap Z Z -> Z -> Z -> option Z;
  heap_garbage : mem -> Z -> Z
}.

(** The size of the block that a pointer given to [realloc] leads to; null leads to none. *)
Definition old_size (h : gmap Z Z) (ptr : Z) : option Z := if ptr =? 0 then Some 0 else h !! ptr.

(** The new block lies in the address space, clear of the null pointer and of every
    object but the old block: it may be at the same address, or overlap it. *)
Class AllocatorLaws `{!Platform, !Allocator} : Prop := {
  heap_place_fresh m h p old n a : old_size h p = Some old -> heap_place m h p n = Some a ->
    0 < a /\ a + n <= 2 ^ size_bits /\
    forall x, a <= x < a + n -> m !! x = None \/ p <= x < p + old;
  heap_garbage_byte m a : is_byte (heap_garbage m a)
}.

Section malloc.
Context {PL : Platform} {UR : UserRead} {DS : Descriptors} {AL : Allocator}.

(** [realloc(ptr, size)]: the old block ends, and the new one begins with what it had.
    A request of no bytes is implementation-defined, and a pointer that is not a
    block's start is an error of the caller: both are undefined here. *)
Definition pb_realloc (ptr size : Z) : M astate Z := fun s =>
  let m := as_mem s in
  let h := as_heap s in
  if size <=? 0 then Ub
  else
    match old_size h ptr with
    | None => Ub
    | Some old =>
        match heap_place m h ptr size with
        | None => Ok 0 s
        | Some a =>
            match mem_load m ptr (Z.to_nat (Z.min old size)) with
            | None => Ub
            | Some kept =>
                let new := map (fun i => heap_garbage m (a + i)) (seqZ (Z.min old size) (size - Z.min old size)) in
                Ok a (mk_astate
                        (mk_dstate (ds_in (as_ds s)) (mem_alloc (mem_free m ptr (Z.to_nat old)) a (kept ++ new)))
                        (<[a := size]> (delete ptr h)))
            end
        end
    end.

(** [free(ptr)] *)
Definition pb_free (ptr : Z) : M astate unit := fun s =>
  if ptr =? 0 then Ok tt s
  else
    match as_heap s !! ptr with
    | None => Ub
    | Some size =>
        Ok tt (mk_astate
                 (mk_dstate (ds_in (as_ds s)) (mem_free (as_mem s) ptr (Z.to_nat size)))
                 (delete ptr (as_heap s)))
    end.

Definition store_ptr (a v : Z) : M astate unit := store_le (Z.to_nat ptr_size) a v.

(** [*(pb_size_t* )a] *)
Definition load_size (a : Z) : M astate Z := load_le sizeof_pb_size_t a.
Definition store_size (a v : Z) : M astate unit := store_le sizeof_pb_size_t a v.

(** [(size_t)1 << (sizeof(size_t) * 4)] *)
Definition check_limit : Z := Z.shiftl 1 (ptr_size * 4).

Definition allocate_field (pData data_size array_size : Z) : M astate unit :=
  let! ptr := load_ptr pData in
  if (data_size =? 0) || (array_size =? 0) then lift (PB_RETURN_ERROR "invalid size")
  else if ((check_limit <=? data_size) || (check_limit <=? array_size)) &&
          (SIZE_MAX / array_size <? data_size) then lift (PB_RETURN_ERROR "size too large")
  else
    let! ptr := pb_realloc ptr (usize (array_size * data_size)) in
    if ptr =? 0 then lift (PB_RETURN_ERROR "realloc failed") else store_ptr pData ptr.

Definition initialize_pointer_field (fuel : nat) (pItem : Z) (it : pb_field_iter_t)
    : M astate unit :=
  let! f := iter_field it in
  if (PB_LTYPE (pf_type f) =? PB_LTYPE_STRING) || (PB_LTYPE (pf_type f) =? PB_LTYPE_BYTES)
  then store_ptr pItem 0
  else if PB_LTYPE (pf_type f) =? PB_LTYPE_SUBMESSAGE then
    let! submsg_fields := or_ub (descriptors_at (pf_ptr f)) in
    lift (pb_message_set_to_defaults fuel submsg_fields pItem)
  else ret tt.

(** ** Releasing a message *)

(** [pb_release], given the treatment of one field. *)
Definition release_message (release_single_field : pb_field_iter_t -> M astate unit)
    (fields : list pb_field_t) (dest_struct : Z) : M astate unit :=
  if dest_struct =? 0 then ret tt
  else
    let! r := pb_field_iter_begin fields dest_struct in
    if negb (snd r) then ret tt
    else
      loop (S (length fields)) (fun it =>
        release_single_field it ;;;
        let! r := pb_field_iter_next it in
        if snd r then ret (inl (fst r)) else ret (inr tt)) (fst r).

(** [while (count--) { pb_release(fields, pItem); pItem += data_size; }] *)
Definition release_items (release : Z -> M astate unit) (data_size pItem count : Z)
    : M astate unit :=
  loop (S (Z.to_nat count)) (fun '(pItem, count) =>
    if count =? 0 then ret (inr tt)
    else release pItem ;;; ret (inl (pItem + data_size, count - 1))) (pItem, count).

(** [while (count--) { pb_free( *pItem); *pItem++ = NULL; }] *)
Definition release_entries (pItem count : Z) : M astate unit :=
  loop (S (Z.to_nat count)) (fun '(pItem, count) =>
    if count =? 0 then ret (inr tt)
    else
      let! p := load_ptr pItem in
      pb_free p ;;;
      store_ptr pItem 0 ;;;
      ret (inl (pItem + ptr_size, count - 1))) (pItem, count).

(** The number of items a field owns. *)
Definition release_count (f : pb_field_t) (it : pb_field_iter_t) : M astate Z :=
  if PB_HTYPE (pf_type f) =? PB_HTYPE_REPEATED then
    let! count := load_size (it_pSize it) in
    if (PB_ATYPE (pf_type f) =? PB_ATYPE_STATIC) && (pf_array_size f <? count)
    then ret (pf_array_size f) else ret count
  else ret 1.

(** The last part of [pb_release_single_field]: the entries of an array of
    strings, then the block itself. *)
Definition release_pointer (f : pb_field_t) (it : pb_field_iter_t) : M astate unit :=
  let type := pf_type f in
  if PB_ATYPE type =? PB_ATYPE_POINTER then
    (if (PB_HTYPE type =? PB_HTYPE_REPEATED) &&
        ((PB_LTYPE type =? PB_LTYPE_STRING) || (PB_LTYPE type =? PB_LTYPE_BYTES)) then
       let! pItem := load_ptr (it_pData it) in
       let! count := load_size (it_pSize it) in
       release_entries pItem count
     else ret tt) ;;;
    (if PB_HTYPE type =? PB_HTYPE_REPEATED then store_size (it_pSize it) 0 else ret tt) ;;;
    let! p := load_ptr (it_pData it) in
    pb_free p ;;;
    store_ptr (it_pData it) 0
  else ret tt.

(** The recursion is on the nesting of submessages and the length of extension
    chains. *)
Fixpoint pb_release_single_field (fuel : nat) (it : pb_field_iter_t) : M astate unit :=
  match fuel with
  | O => out_of_fuel
  | S fuel =>
      let! f := iter_field it in
      let type := pf_type f in
      let! current :=
        if PB_HTYPE type =? PB_HTYPE_ONEOF then
          let! which := load_size (it_pSize it) in ret (which =? pf_tag f)
        else ret true in
      if negb current then ret tt
      else
        (if PB_LTYPE type =? PB_LTYPE_EXTENSION then
           let! ext := load_ptr (it_pData it) in
           loop (S fuel) (fun ext =>
             if ext =? 0 then ret (inr tt)
             else
               let! ext_iter := lift (iter_from_extension ext) in
               pb_release_single_field fuel ext_iter ;;;
               let! next := load_ptr (ext_next ext) in
               ret (inl next)) ext
         else if PB_LTYPE type =? PB_LTYPE_SUBMESSAGE then
           let! pItem :=
             if PB_ATYPE type =? PB_ATYPE_POINTER then load_ptr (it_pData it)
             else ret (it_pData it) in
           let! count := release_count f it in
           if pItem =? 0 then ret tt
           else
             release_items (fun pItem =>
               let! submsg_fields := or_ub (descriptors_at (pf_ptr f)) in
               release_message (pb_release_single_field fuel) submsg_fields pItem)
               (pf_data_size f) pItem count
         else ret tt) ;;;
        release_pointer f it
  end.

Definition pb_release (fuel : nat) (fields : list pb_field_t) (dest_struct : Z)
    : M astate unit :=
  release_message (pb_release_single_field fuel) fields dest_struct.

(** A oneof that held another member: that member is released. *)
Definition pb_release_union_field (fuel : nat) (it : pb_field_iter_t)
    : M astate pb_field_iter_t :=
  let! f := iter_field it in
  let! old_tag := load_size (it_pSize it) in
  let new_tag := pf_tag f in
  if old_tag =? 0 then ret it
  else if old_tag =? new_tag then ret it
  else
    let! r := pb_field_iter_find it old_tag in
    if negb (snd r) then lift (PB_RETURN_ERROR "invalid union tag")
    else
      pb_release_single_field fuel (fst r) ;;;
      let! r := pb_field_iter_find (fst r) new_tag in
      if negb (snd r) then lift (PB_RETURN_ERROR "iterator error") else ret (fst r).

End malloc.

(** * The decoder with dynamic allocation (pb_decode.c under PB_ENABLE_MALLOC)

    The functions of Decode.v as they are compiled when allocation is enabled.
    The decoders that neither allocate nor call one that does are those of
    Decode.v; the functions of the application keep the heap as it is. *)

Abbreviation pb_alloc_decoder_t := (pb_field_t -> Z -> M astate unit).

(** Run a function on another stream: its status and the stream it leaves. *)
Definition on_alloc_substream {A} (sub : pb_istream_t) (m : M astate A)
    : M astate (option A * pb_istream_t) := fun s =>
  match m (mk_astate (mk_dstate sub (as_mem s)) (as_heap s)) with
  | Ok a s' =>
      Ok (Some a, ds_in (as_ds s')) (mk_astate (mk_dstate (ds_in (as_ds s)) (as_mem s')) (as_heap s'))
  | Err s' =>
      Ok (None, ds_in (as_ds s')) (mk_astate (mk_dstate (ds_in (as_ds s)) (as_mem s')) (as_heap s'))
  | Ub => Ub
  | OutOfFuel => OutOfFuel
  end.

Section malloc_decode.
Context {PL : Platform} {UR : UserRead} {UD : UserDecode} {DS : Descriptors} {AL : Allocator}.

Definition alloc_error {A} (msg : string) : M astate A := lift (PB_RETURN_ERROR msg).

(** ** The decoders that allocate *)

Definition alloc_dec_bytes : pb_alloc_decoder_t := fun field dest =>
  let! size := lift pb_decode_varint32 in
  if PB_SIZE_MAX <? size then alloc_error "bytes overflow"
  else
    let alloc_size := PB_BYTES_ARRAY_T_ALLOCSIZE size in
    if alloc_size <? size then alloc_error "size too large"
    else
      let! bdest :=
        if PB_ATYPE (pf_type field) =? PB_ATYPE_POINTER then
          allocate_field dest alloc_size 1 ;;; load_ptr dest
        else if pf_data_size field <? alloc_size then alloc_error "bytes overflow"
        else ret dest in
      store_size bdest size ;;;
      lift (pb_read (RMem (bdest + offsetof_bytes)) size ;;; ret tt).

Definition alloc_dec_string : pb_alloc_decoder_t := fun field dest =>
  let! size := lift pb_decode_varint32 in
  let alloc_size := u32 (size + 1) in
  if alloc_size <? size then alloc_error "size too large"
  else
    let! dest :=
      if PB_ATYPE (pf_type field) =? PB_ATYPE_POINTER then
        allocate_field dest alloc_size 1 ;;; load_ptr dest
      else if pf_data_size field <? alloc_size then alloc_error "string overflow"
      else ret dest in
    let! status := lift (attempt (pb_read (RMem dest) size)) in
    store_le 1 (dest + size) 0 ;;;
    match status with Some _ => ret tt | None => fail end.

(** ** One field *)
Section one_field.
Context (fuel : nat) (decode_noinit : list pb_field_t -> Z -> M astate unit).

(** [pb_decode]: a message that could not be decoded is released. *)
Definition alloc_decode_with (fields : list pb_field_t) (dest_struct : Z) : M astate unit :=
  lift (pb_message_set_to_defaults fuel fields dest_struct) ;;;
  let! status := attempt (decode_noinit fields dest_struct) in
  match status with
  | Some _ => ret tt
  | None => pb_release fuel fields dest_struct ;;; fail
  end.

Definition alloc_dec_submessage : pb_alloc_decoder_t := fun field dest =>
  let! substream := lift pb_make_string_substream in
  if pf_ptr field =? 0 then alloc_error "invalid field descriptor"
  else
    let! submsg_fields := or_ub (descriptors_at (pf_ptr field)) in
    let! r := on_alloc_substream substream
      (if PB_HTYPE (pf_type field) =? PB_HTYPE_REPEATED
       then alloc_decode_with submsg_fields dest
       else decode_noinit submsg_fields dest) in
    lift (pb_close_string_substream (snd r)) ;;;
    match fst r with Some _ => ret tt | None => fail end.

Definition ALLOC_DECODERS : list (option pb_alloc_decoder_t) :=
  [ Some (fun f d => lift (pb_dec_varint f d)); Some (fun f d => lift (pb_dec_uvarint f d));
    Some (fun f d => lift (pb_dec_svarint f d)); Some (fun f d => lift (pb_dec_fixed32 f d));
    Some (fun f d => lift (pb_dec_fixed64 f d));
    Some alloc_dec_bytes; Some alloc_dec_string; Some alloc_dec_submessage;
    None; Some (fun f d => lift (pb_dec_fixed_length_bytes f d)) ].

Definition alloc_call_decoder (field : pb_field_t) (dest : Z) : M astate unit :=
  let! func := or_ub (mjoin (ALLOC_DECODERS !! Z.to_nat (PB_LTYPE (pf_type field)))) in
  func field dest.

(** The loop over a packed array of static items. *)
Definition alloc_decode_packed_items (it : pb_field_iter_t) (f : pb_field_t)
    (substream : pb_istream_t) : M astate (bool * pb_istream_t) :=
  loop (S (Z.to_nat (is_bytes_left substream))) (fun substream =>
    let! size := load_size (it_pSize it) in
    if (0 <? is_bytes_left substream) && (size <? pf_array_size f) then
      let pItem := it_pData it + u32 (pf_data_size f * size) in
      let! r := on_alloc_substream substream (alloc_call_decoder f pItem) in
      match fst r with
      | None => ret (inr (false, snd r))
      | Some _ =>
          let! size := load_size (it_pSize it) in
          store_size (it_pSize it) (u32 (size + 1)) ;;;
          ret (inl (snd r))
      end
    else ret (inr (true, substream))) substream.

Definition alloc_decode_static_field (wire_type : Z) (it : pb_field_iter_t) : M astate unit :=
  let! f := iter_field it in
  let type := pf_type f in
  or_ub (ALLOC_DECODERS !! Z.to_nat (PB_LTYPE type)) ;;;
  if PB_HTYPE type =? PB_HTYPE_REQUIRED then alloc_call_decoder f (it_pData it)
  else if PB_HTYPE type =? PB_HTYPE_OPTIONAL then
    (if negb (it_pSize it =? it_pData it) then store_bool (it_pSize it) true else ret tt) ;;;
    alloc_call_decoder f (it_pData it)
  else if PB_HTYPE type =? PB_HTYPE_REPEATED then
    if (wire_type =? PB_WT_STRING) && (PB_LTYPE type <=? PB_LTYPE_LAST_PACKABLE) then
      let! substream := lift pb_make_string_substream in
      let! r := alloc_decode_packed_items it f substream in
      if negb (is_bytes_left (snd r) =? 0) then alloc_error "array overflow"
      else
        lift (pb_close_string_substream (snd r)) ;;;
        if fst r : bool then ret tt else fail
    else
      let! size := load_size (it_pSize it) in
      let pItem := it_pData it + u32 (pf_data_size f * size) in
      if pf_array_size f <=? size then alloc_error "array overflow"
      else
        store_size (it_pSize it) (u32 (size + 1)) ;;;
        alloc_call_decoder f pItem
  else if PB_HTYPE type =? PB_HTYPE_ONEOF then
    store_size (it_pSize it) (pf_tag f) ;;;
    (if PB_LTYPE type =? PB_LTYPE_SUBMESSAGE then
       memset (it_pData it) 0 (pf_data_size f) ;;;
       let! submsg_fields := or_ub (descriptors_at (pf_ptr f)) in
       lift (pb_message_set_to_defaults fuel submsg_fields (it_pData it))
     else ret tt) ;;;
    alloc_call_decoder f (it_pData it)
  else alloc_error "invalid field type".

(** ** Pointer fields *)

(** A required, optional or oneof field. *)
Definition decode_pointer_single (it : pb_field_iter_t) (f : pb_field_t) : M astate unit :=
  let type := pf_type f in
  (if PB_LTYPE type =? PB_LTYPE_SUBMESSAGE then
     let! p := load_ptr (it_pData it) in
     if negb (p =? 0) then pb_release_single_field fuel it else ret tt
   else ret tt) ;;;
  (if PB_HTYPE type =? PB_HTYPE_ONEOF then store_size (it_pSize it) (pf_tag f) else ret tt) ;;;
  if (PB_LTYPE type =? PB_LTYPE_STRING) || (PB_LTYPE type =? PB_LTYPE_BYTES)
  then alloc_call_decoder f (it_pData it)
  else
    allocate_field (it_pData it) (pf_data_size f) 1 ;;;
    let! p := load_ptr (it_pData it) in
    initialize_pointer_field fuel p it ;;;
    let! p := load_ptr (it_pData it) in
    alloc_call_decoder f p.

(** The loop over a packed array: the number of items with storage grows with
    what is left of the array.  The first error leaves the loop. *)
Definition decode_pointer_packed (it : pb_field_iter_t) (f : pb_field_t)
    (substream : pb_istream_t) (allocated_size : Z) : M astate (bool * pb_istream_t) :=
  loop (S (Z.to_nat (is_bytes_left substream))) (fun '(substream, allocated_size) =>
    if is_bytes_left substream =? 0 then ret (inr (true, substream))
    else
      let! size := load_size (it_pSize it) in
      let! grown :=
        if allocated_size <? usize (size + 1) then
          if pf_data_size f =? 0 then ub
          else
            let n := usize (allocated_size + (is_bytes_left substream - 1) / pf_data_size f + 1) in
            let! r := on_alloc_substream substream
                        (allocate_field (it_pData it) (pf_data_size f) n) in
            ret (fst r, snd r, n)
        else ret (Some tt, substream, allocated_size) in
      let '(status, substream, allocated_size) := grown in
      match status with
      | None => ret (inr (false, substream))
      | Some _ =>
          let! p := load_ptr (it_pData it) in
          let pItem := p + u32 (pf_data_size f * size) in
          initialize_pointer_field fuel pItem it ;;;
          let! r := on_alloc_substream substream (alloc_call_decoder f pItem) in
          match fst r with
          | None => ret (inr (false, snd r))
          | Some _ =>
              let! size := load_size (it_pSize it) in
              if size =? PB_SIZE_MAX then
                lift (on_in (set_errmsg (Some "too many array entries"%string))) ;;;
                ret (inr (false, snd r))
              else
                store_size (it_pSize it) (size + 1) ;;;
                ret (inl (snd r, allocated_size))
          end
      end) (substream, allocated_size).

(** One item of an array. *)
Definition decode_pointer_item (it : pb_field_iter_t) (f : pb_field_t) : M astate unit :=
  let! size := load_size (it_pSize it) in
  if size =? PB_SIZE_MAX then alloc_error "too many array entries"
  else
    store_size (it_pSize it) (size + 1) ;;;
    let! size := load_size (it_pSize it) in
    allocate_field (it_pData it) (pf_data_size f) size ;;;
    let! p := load_ptr (it_pData it) in
    let! size := load_size (it_pSize it) in
    let pItem := p + u32 (pf_data_size f * (size - 1)) in
    initialize_pointer_field fuel pItem it ;;;
    alloc_call_decoder f pItem.

Definition alloc_decode_pointer_field (wire_type : Z) (it : pb_field_iter_t) : M astate unit :=
  let! f := iter_field it in
  let type := pf_type f in
  or_ub (ALLOC_DECODERS !! Z.to_nat (PB_LTYPE type)) ;;;
  if PB_HTYPE type =? PB_HTYPE_REPEATED then
    if (wire_type =? PB_WT_STRING) && (PB_LTYPE type <=? PB_LTYPE_LAST_PACKABLE) then
      let! allocated_size := load_size (it_pSize it) in
      let! substream := lift pb_make_string_substream in
      let! r := decode_pointer_packed it f substream allocated_size in
      lift (pb_close_string_substream (snd r)) ;;;
      if fst r : bool then ret tt else fail
    else decode_pointer_item it f
  else decode_pointer_single it f.

(** The iterator the caller continues with: releasing another member of a oneof
    moves it there and back. *)
Definition alloc_decode_field (wire_type : Z) (it : pb_field_iter_t)
    : M astate pb_field_iter_t :=
  let! f := iter_field it in
  let! it :=
    if PB_HTYPE (pf_type f) =? PB_HTYPE_ONEOF then pb_release_union_field fuel it
    else ret it in
  let! f := iter_field it in
  let atype := PB_ATYPE (pf_type f) in
  (if atype =? PB_ATYPE_STATIC then alloc_decode_static_field wire_type it
   else if atype =? PB_ATYPE_POINTER then alloc_decode_pointer_field wire_type it
   else if atype =? PB_ATYPE_CALLBACK then lift (decode_callback_field fuel wire_type it)
   else alloc_error "invalid field type") ;;;
  ret it.

(** ** Extensions and the message loop *)

Definition alloc_default_extension_decoder (extension tag wire_type : Z) : M astate unit :=
  let! type := load_ptr (ext_type extension) in
  let! arg := load_ptr (ext_type_arg type) in
  let! fields := or_ub (descriptors_at arg) in
  let! field := or_ub (fields !! 0%nat) in
  if negb (pf_tag field =? tag) then ret tt
  else
    let! it := lift (iter_from_extension extension) in
    store_bool (ext_found extension) true ;;;
    alloc_decode_field wire_type it ;;; ret tt.

Definition alloc_decode_extension (tag wire_type : Z) (it : pb_field_iter_t) : M astate unit :=
  let! extension := load_ptr (it_pData it) in
  let! pos := gets (fun s => is_bytes_left (ds_in (as_ds s))) in
  loop (S fuel) (fun extension =>
    let! bytes_left := gets (fun s => is_bytes_left (ds_in (as_ds s))) in
    if negb (extension =? 0) && (pos =? bytes_left) then
      let! type := load_ptr (ext_type extension) in
      let! decode := load_ptr (ext_type_decode type) in
      (if negb (decode =? 0) then lift (user_ext_decode decode extension tag wire_type)
       else alloc_default_extension_decoder extension tag wire_type) ;;;
      let! next := load_ptr (ext_next extension) in
      ret (inl next)
    else ret (inr tt)) extension.

Definition alloc_decode_unknown_field (tag wire_type : Z) (it : pb_field_iter_t)
    (extension_range_start : Z) : M astate (pb_field_iter_t * Z) :=
  if extension_range_start <=? tag then
    let! r := find_extension_field it in
    let it := fst r in
    let! range_start :=
      if negb (snd r) then ret UINT32_MAX
      else let! f := iter_field it in ret (pf_tag f) in
    if range_start <=? tag then
      let! pos := gets (fun s => is_bytes_left (ds_in (as_ds s))) in
      alloc_decode_extension tag wire_type it ;;;
      let! bytes_left := gets (fun s => is_bytes_left (ds_in (as_ds s))) in
      if negb (pos =? bytes_left) then ret (it, range_start)
      else lift (pb_skip_field wire_type) ;;; ret (it, range_start)
    else lift (pb_skip_field wire_type) ;;; ret (it, range_start)
  else lift (pb_skip_field wire_type) ;;; ret (it, extension_range_start).

Definition alloc_decode_step (v : decode_vars) : M astate (decode_vars + decode_vars) :=
  let! bytes_left := gets (fun s => is_bytes_left (ds_in (as_ds s))) in
  if bytes_left =? 0 then ret (inr v)
  else
    let! t := lift pb_decode_tag in
    if negb (dt_ok t) then (if dt_eof t then ret (inr v) else fail)
    else
      let! r := pb_field_iter_find (dv_iter v) (dt_tag t) in
      if negb (snd r) then
        let! u := alloc_decode_unknown_field (dt_tag t) (dt_wire_type t) (fst r)
                    (dv_extension_range_start v) in
        ret (inl (mk_vars (fst u) (dv_fields_seen v) (snd u)))
      else
        let it := fst r in
        let! f := iter_field it in
        let! seen := lift (mark_required f (it_required_field_index it) (dv_fields_seen v)) in
        let! it := alloc_decode_field (dt_wire_type t) it in
        ret (inl (mk_vars it seen (dv_extension_range_start v))).

End one_field.

(** ** The entry points *)

Fixpoint alloc_decode_noinit (fuel : nat) (fields : list pb_field_t) (dest_struct : Z)
    : M astate unit :=
  match fuel with
  | O => out_of_fuel
  | S n =>
      let! r := pb_field_iter_begin fields dest_struct in
      let! v := loop fuel (alloc_decode_step n (alloc_decode_noinit n))
                  (mk_vars (fst r) [0; 0] 0) in
      lift (check_required_fields (dv_iter v) (dv_fields_seen v))
  end.

Definition alloc_decode (fuel : nat) (fields : list pb_field_t) (dest_struct : Z)
    : M astate unit :=
  alloc_decode_with fuel (alloc_decode_noinit fuel) fields dest_struct.

Definition alloc_decode_delimited (fuel : nat) (fields : list pb_field_t) (dest_struct : Z)
    : M astate unit :=
  let! substream := lift pb_make_string_substream in
  let! r := on_alloc_substream substream (alloc_decode fuel fields dest_struct) in
  lift (pb_close_string_substream (snd r)) ;;;
  match fst r with Some _ => ret tt | None => fail end.

End malloc_decode.
