(* ===== verification/MallocTheorems.v ===== *)
(** * Theorems about dynamic allocation

    The heap invariant, the effect of [realloc] and [free] on it, what
    [allocate_field] and the release of a pointer field guarantee, and an input
    on which releasing a half-built message leaves its blocks. *)

From Stdlib Require Import ZArith Lia.
From stdpp Require Import base option list strings gmap.
From S2P Require Import Prelude Memory Descr Decode Malloc.

(** ** The heap invariant: the blocks are disjoint stretches of mapped memory. *)
Definition heap_wf (s : astate) : Prop :=
  (forall a n, as_heap s !! a = Some n -> 0 < a /\ 0 < n /\ mapped (as_mem s) a (a + n)) /\
  (forall a n b k, as_heap s !! a = Some n -> as_heap s !! b = Some k -> a <> b ->
     a + n <= b \/ b + k <= a).

(** The size of what a pointer given to [realloc] points to. *)
Abbreviation block_size s p := (old_size (as_heap s) p).

(** The old block [p, p + old) has become the block [a, a + n), which may be in the
    same place: the bytes that fit are kept, what was in the old block only is gone,
    nothing else has changed. *)
Definition moved (m m' : mem) (p old a n : Z) : Prop :=
  mapped m' a (a + n) /\
  (forall i, 0 <= i < Z.min old n -> m' !! (a + i) = m !! (p + i)) /\
  (forall x, ~ (p <= x < p + old) -> ~ (a <= x < a + n) -> m' !! x = m !! x) /\
  (forall x, p <= x < p + old -> ~ (a <= x < a + n) -> m' !! x = None).

Section malloc_theorems.
Context {PL : Platform} {UR : UserRead} {DS : Descriptors} {AL : Allocator}.
Context {ALL : AllocatorLaws}.

Lemma heap_wf_block s p old :
  heap_wf s -> as_heap s !! 0 = None -> block_size s p = Some old ->
  0 <= old /\ mapped (as_mem s) p (p + old) /\ (old = 0 \/ as_heap s !! p = Some old).
Proof.
  intros [Hb _] H0. unfold block_size. destruct (p =? 0) eqn:E; intros Hp.
  - injection Hp as <-. split; [lia|]. split; [intros x Hx; lia|by left].
  - destruct (Hb _ _ Hp) as (? & ? & ?). split; [lia|]. split; [done|by right].
Qed.

Lemma heap_wf_null s : heap_wf s -> as_heap s !! 0 = None.
Proof. intros [Hb _]. destruct (as_heap s !! 0) as [n|] eqn:E; [|done]. apply Hb in E. lia. Qed.

(** The steps of [realloc] on the memory. *)
Lemma move_block m p old a n g :
  mapped m p (p + old) -> 0 <= old -> 0 < n ->
  exists kept, mem_load m p (Z.to_nat (Z.min old n)) = Some kept /\
    moved m (mem_alloc (mem_free m p (Z.to_nat old)) a (kept ++ map g (seqZ (Z.min old n) (n - Z.min old n)))) p old a n.
Proof.
  intros Hp Ho Hn.
  destruct (mem_load_mapped m p (Z.to_nat (Z.min old n))) as (kept & Hk & Hl).
  { intros x Hx. apply Hp. lia. }
  exists kept. split; [done|]. set (new := map g _).
  assert (Z.of_nat (length (kept ++ new)) = n) as Hlen
    by (unfold new; rewrite length_app, length_map, length_seqZ, Hl; lia).
  apply mem_load_lookup in Hk as [_ Hk].
  split; [|split; [|split]].
  - intros x Hx. rewrite mem_alloc_lookup, Hlen, decide_True by lia. apply lookup_lt_is_Some. lia.
  - intros i Hi. rewrite mem_alloc_lookup, Hlen, decide_True by lia.
    rewrite lookup_app_l by lia. replace (a + i - a) with i by lia.
    rewrite <- Hk by lia. f_equal. lia.
  - intros x H1 H2. rewrite mem_alloc_lookup, Hlen, decide_False by lia.
    by rewrite mem_free_lookup, decide_False by lia.
  - intros x H1 H2. rewrite mem_alloc_lookup, Hlen, decide_False by lia.
    by rewrite mem_free_lookup, decide_True by lia.
Qed.

(** [realloc] refuses and changes nothing, or it moves the block. *)
Lemma pb_realloc_spec s p old n :
  heap_wf s -> block_size s p = Some old -> 0 < n ->
  match heap_place (as_mem s) (as_heap s) p n with
  | None => pb_realloc p n s = Ok 0 s
  | Some a => exists m', pb_realloc p n s =
      Ok a (mk_astate (mk_dstate (ds_in (as_ds s)) m') (<[a := n]> (delete p (as_heap s)))) /\
      moved (as_mem s) m' p old a n
  end.
Proof.
  intros Hwf Hp Hn.
  destruct (heap_wf_block s p old Hwf (heap_wf_null s Hwf) Hp) as (Ho & Hm & _).
  unfold pb_realloc. destruct (Z.leb_spec n 0); [lia|]. rewrite Hp.
  destruct (heap_place _ _ p n) as [a|]; [|done].
  destruct (move_block (as_mem s) p old a n (fun i => heap_garbage (as_mem s) (a + i)) Hm Ho Hn) as (kept & Hk & Hmv).
  rewrite Hk. by eexists.
Qed.

(** So does a memory that has every byte of the old one. *)
Lemma heap_wf_le s s' :
  heap_wf s -> as_heap s' = as_heap s ->
  (forall x, is_Some (as_mem s !! x) -> is_Some (as_mem s' !! x)) -> heap_wf s'.
Proof.
  intros [Hb Hd] E Hm. unfold heap_wf. rewrite E. split; [|done].
  intros a n (? & ? & Hk)%Hb. split; [done|]. split; [done|]. intros x Hx. by apply Hm, Hk.
Qed.

(** Moving a block keeps the invariant. *)
Lemma moved_wf s p old n a m' i :
  heap_wf s -> block_size s p = Some old -> 0 < n ->
  heap_place (as_mem s) (as_heap s) p n = Some a -> moved (as_mem s) m' p old a n ->
  heap_wf (mk_astate (mk_dstate i m') (<[a := n]> (delete p (as_heap s)))).
Proof.
  intros Hwf Hp Hn Hplace (Hmap & _ & Hoff & _).
  destruct (heap_place_fresh _ _ _ _ _ _ Hp Hplace) as (Ha & _ & Hf).
  destruct (heap_wf_block s p old Hwf (heap_wf_null s Hwf) Hp) as (Ho & _ & Hold).
  destruct Hwf as [Hb Hdis].
  assert (Hapart : forall b k, as_heap s !! b = Some k -> b <> p -> p + old <= b \/ b + k <= p \/ old = 0).
  { intros b k Hk Hne. destruct Hold as [->|Hold]; [lia|]. destruct (Hdis _ _ _ _ Hk Hold Hne); lia. }
  assert (Hfresh : forall b k, as_heap s !! b = Some k -> b <> p -> a + n <= b \/ b + k <= a).
  { intros b k Hk Hne. destruct (Hb _ _ Hk) as (_ & Hk0 & Hmk). pose proof (Hapart b k Hk Hne).
    destruct (decide (a + n <= b)); [by left|]. right. apply Z.nlt_ge. intros Hlt.
    destruct (Hmk (Z.max a b)) as [c Hc]; [lia|]. destruct (Hf (Z.max a b)) as [Hx|Hx]; [lia|congruence|lia]. }
  split; cbn [as_heap as_ds ds_mem]; unfold as_mem; cbn.
  - intros b k. rewrite lookup_insert, lookup_delete. case_decide as E.
    { intros [= <-]. subst b. done. }
    case_decide as E'; [done|]. intros Hk. destruct (Hb _ _ Hk) as (? & ? & Hmk).
    split; [done|]. split; [done|]. intros x Hx. rewrite Hoff; [by apply Hmk| |].
    + destruct (Hapart b k Hk); [congruence|lia..].
    + destruct (Hfresh b k Hk); [congruence|lia..].
  - intros b k c l. rewrite !lookup_insert, !lookup_delete.
    repeat case_decide; intros Hk Hl Hne; simplify_eq; eauto.
    destruct (Hfresh b k Hk); [congruence|by right|by left].
Qed.

(** ** [allocate_field] *)

(** The test that avoids the division when both factors are small is exact. *)
Lemma size_check_exact data_size n :
  0 < data_size < 2 ^ size_bits -> 0 < n < 2 ^ size_bits ->
  ((check_limit <=? data_size) || (check_limit <=? n)) && (SIZE_MAX / n <? data_size) =
  (2 ^ size_bits <=? data_size * n).
Proof.
  intros Hd Hn. unfold SIZE_MAX.
  assert (0 < check_limit /\ check_limit * check_limit = 2 ^ size_bits) as [Hc Hcc].
  { unfold check_limit, ptr_size. destruct size_bits_cases as [-> | ->]; by vm_compute. }
  assert (((2 ^ size_bits - 1) / n <? data_size) = (2 ^ size_bits <=? data_size * n)) as ->.
  { destruct (Z.leb_spec (2 ^ size_bits) (data_size * n)).
    - apply Z.ltb_lt, Z.div_lt_upper_bound; nia.
    - apply Z.ltb_ge, Z.div_le_lower_bound; nia. }
  destruct (Z.leb_spec (2 ^ size_bits) (data_size * n)); [|by rewrite andb_false_r].
  rewrite andb_true_r. apply orb_true_iff. rewrite !Z.leb_le.
  destruct (Z.le_gt_cases check_limit data_size); [by left|].
  destruct (Z.le_gt_cases check_limit n); [by right|]. nia.
Qed.

(** A pointer cell: reading one, and what writing one leaves. *)
Lemma load_ptr_mapped cell s p : load_ptr cell s = Ok p s -> mapped (as_mem s) cell (cell + ptr_size).
Proof.
  unfold load_ptr, load_le, load_bytes, bind. cbn. intros H x Hx.
  destruct (mem_load _ _ _) as [l|] eqn:E; [|done].
  apply mem_load_lookup in E as [Hl E].
  specialize (E (Z.to_nat (x - cell))).
  rewrite Z2Nat.id in E by lia. replace (cell + (x - cell)) with x in E by lia.
  rewrite E by lia. apply lookup_lt_is_Some. lia.
Qed.

Lemma store_ptr_spec cell a s :
  mapped (as_mem s) cell (cell + ptr_size) -> 0 <= a < 2 ^ size_bits ->
  exists m, store_ptr cell a s = Ok tt (mk_astate (mk_dstate (ds_in (as_ds s)) m) (as_heap s)) /\
    mem_store (as_mem s) cell (le_split (Z.to_nat ptr_size) a) = Some m /\
    mem_le cell (cell + ptr_size) (as_mem s) m /\
    forall i h, let s' := mk_astate (mk_dstate i m) h in load_ptr cell s' = Ok a s'.
Proof.
  intros Hm Ha.
  assert (0 < ptr_size /\ 8 * ptr_size = size_bits) as [Hp Hbits].
  { unfold ptr_size. destruct size_bits_cases as [-> | ->]; by vm_compute. }
  set (l := le_split (Z.to_nat ptr_size) a).
  assert (Z.of_nat (length l) = ptr_size) as Hl by (unfold l; rewrite le_split_length; lia).
  destruct (mem_store_mapped (as_mem s) cell l) as [m Hst]; [by rewrite Hl|].
  exists m. split; [|split; [exact Hst|split]].
  - unfold store_ptr, store_le, store_bytes. cbn. fold l. by rewrite Hst.
  - rewrite <- Hl. by eapply mem_store_le.
  - intros i h s'. unfold load_ptr, load_le, load_bytes, bind. cbn.
    apply mem_load_store in Hst. replace (length l) with (Z.to_nat ptr_size) in Hst by lia.
    rewrite Hst. unfold ret, l. rewrite le_combine_split, Z2Nat.id, Hbits by lia.
    by rewrite uwrap_small.
Qed.

(** C6: [allocate_field] multiplies without wrap-around: it fails exactly when a
    factor is zero, the product does not fit [size_t], or the allocator refuses,
    and then nothing but the error message has changed; otherwise the pointer
    cell holds a block of exactly [data_size * n] bytes that starts with what
    fits of the old block.  The block may have grown in place or have moved: what was
    in the old block only is gone, the heap is well-formed, and no other byte of the
    memory has changed. *)
Theorem allocate_field_exact s cell data_size n p old :
  heap_wf s ->
  load_ptr cell s = Ok p s -> block_size s p = Some old ->
  cell + ptr_size <= p \/ p + old <= cell ->
  0 <= data_size < 2 ^ size_bits -> 0 <= n < 2 ^ size_bits ->
  let refused := data_size = 0 \/ n = 0 \/ 2 ^ size_bits <= data_size * n \/
                 heap_place (as_mem s) (as_heap s) p (data_size * n) = None in
  wp (allocate_field cell data_size n)
    (fun _ s' => ~ refused /\ exists a m1,
       heap_place (as_mem s) (as_heap s) p (data_size * n) = Some a /\
       moved (as_mem s) m1 p old a (data_size * n) /\
       as_heap s' = <[a := data_size * n]> (delete p (as_heap s)) /\
       load_ptr cell s' = Ok a s' /\
       agree_off cell (cell + ptr_size) m1 (as_mem s') /\
       ds_in (as_ds s') = ds_in (as_ds s) /\ heap_wf s')
    (fun s' => refused /\ as_heap s' = as_heap s /\ as_mem s' = as_mem s /\ heap_wf s')
    s.
Proof.
  intros Hwf Hp Hold Hcell Hd Hn refused.
  unfold allocate_field. apply wp_bind. unfold wp at 1. rewrite Hp.
  destruct ((data_size =? 0) || (n =? 0)) eqn:Ez.
  { apply orb_true_iff in Ez. rewrite !Z.eqb_eq in Ez.
    unfold wp. cbn. split; [unfold refused; tauto|]. done. }
  apply orb_false_iff in Ez as [Ed En]. apply Z.eqb_neq in Ed, En.
  rewrite size_check_exact by lia.
  destruct (Z.leb_spec (2 ^ size_bits) (data_size * n)) as [Hov|Hfit].
  { unfold wp. cbn. split; [unfold refused; tauto|]. done. }
  rewrite (Z.mul_comm n), usize_small by nia. apply wp_bind.
  pose proof (pb_realloc_spec s p old (data_size * n) Hwf Hold ltac:(nia)) as Hr.
  destruct (heap_place _ _ p (data_size * n)) as [a|] eqn:Hplace.
  2:{ unfold wp at 1. rewrite Hr. cbn. split; [|done]. unfold refused. by do 3 right. }
  destruct Hr as (m1 & Hr & Hmv). unfold wp at 1. rewrite Hr.
  destruct (heap_place_fresh _ _ _ _ _ _ Hold Hplace) as (Ha0 & Ha1 & Hfresh).
  destruct (Z.eqb_spec a 0); [lia|].
  pose proof (load_ptr_mapped _ _ _ Hp) as Hcm.
  assert (Hcell' : forall x, cell <= x < cell + ptr_size -> m1 !! x = as_mem s !! x).
  { intros x Hx. apply Hmv; [lia|]. intros Hxa. destruct (Hcm x Hx) as [b Hb].
    destruct (Hfresh x Hxa) as [Hnone|]; [congruence|lia]. }
  set (s1 := mk_astate _ _).
  destruct (store_ptr_spec cell a s1) as (m2 & Hst & _ & Hle & Hld).
  { intros x Hx. cbn. rewrite Hcell' by done. by apply Hcm. }
  { nia. }
  unfold wp. rewrite Hst. split.
  { unfold refused. intros [?|[?|[?|?]]]; [done|done|lia|done]. }
  exists a, m1. do 4 (split; [done|]). split; [by apply Hle|]. split; [done|].
  eapply (heap_wf_le s1); [|done|by apply Hle]. eapply moved_wf; try done. nia.
Qed.

End malloc_theorems.

(** ** Releasing a pointer field *)

Section release.
Context {PL : Platform} {UR : UserRead} {DS : Descriptors} {AL : Allocator}.

(** Freeing a block. *)
Lemma pb_free_spec s p n :
  heap_wf s -> as_heap s !! p = Some n ->
  exists s', pb_free p s = Ok tt s' /\ ds_in (as_ds s') = ds_in (as_ds s) /\
    as_heap s' = delete p (as_heap s) /\
    as_mem s' = mem_free (as_mem s) p (Z.to_nat n) /\ heap_wf s'.
Proof.
  intros [Hb Hd] Hp. destruct (Hb _ _ Hp) as (Hp0 & Hn0 & _).
  unfold pb_free. destruct (Z.eqb_spec p 0); [lia|]. rewrite Hp.
  eexists. do 4 (split; [done|]). split; cbn.
  - intros a k. rewrite lookup_delete. case_decide; [done|]. intros Ha.
    destruct (Hb _ _ Ha) as (? & ? & Hm). split; [done|]. split; [done|]. intros x Hx.
    rewrite mem_free_lookup, decide_False; [by apply Hm|].
    destruct (Hd _ _ _ _ Ha Hp); [done|lia..].
  - intros a k b l. rewrite !lookup_delete. repeat case_decide; try done. apply Hd.
Qed.

(** C7: Releasing a required or optional pointer field that is not a message
    frees its block, makes every byte of it inaccessible, clears the pointer and
    changes nothing else; releasing it again does nothing, so a block is never
    freed twice. *)
Theorem release_pointer_field_frees fuel it f s p n :
  heap_wf s ->
  it_start it !! it_pos it = Some f ->
  PB_ATYPE (pf_type f) = PB_ATYPE_POINTER ->
  PB_HTYPE (pf_type f) = PB_HTYPE_REQUIRED \/ PB_HTYPE (pf_type f) = PB_HTYPE_OPTIONAL ->
  PB_LTYPE (pf_type f) <> PB_LTYPE_SUBMESSAGE -> PB_LTYPE (pf_type f) <> PB_LTYPE_EXTENSION ->
  load_ptr (it_pData it) s = Ok p s -> as_heap s !! p = Some n ->
  it_pData it + ptr_size <= p \/ p + n <= it_pData it ->
  exists s', pb_release_single_field (S fuel) it s = Ok tt s' /\
    as_heap s' = delete p (as_heap s) /\ heap_wf s' /\
    load_ptr (it_pData it) s' = Ok 0 s' /\
    (forall x, p <= x < p + n -> as_mem s' !! x = None) /\
    (forall x, ~ (p <= x < p + n) -> ~ (it_pData it <= x < it_pData it + ptr_size) ->
       as_mem s' !! x = as_mem s !! x) /\
    pb_release_single_field (S fuel) it s' = Ok tt s'.
Proof.
  intros Hwf Hf Ha Hh Hl1 Hl2 Hp Hn Hcell.
  assert (Hrun : forall t, pb_release_single_field (S fuel) it t =
    (let! p := load_ptr (it_pData it) in pb_free p ;;; store_ptr (it_pData it) 0) t).
  { intros t. cbn [pb_release_single_field].
    rewrite (bind_ok _ _ t f t) by (unfold iter_field; by rewrite Hf).
    apply Z.eqb_neq in Hl1, Hl2. unfold release_pointer. rewrite Hl1, Hl2, Ha.
    by destruct Hh as [-> | ->]. }
  assert (mapped (as_mem s) (it_pData it) (it_pData it + ptr_size)) as Hm
    by by eapply load_ptr_mapped.
  destruct (pb_free_spec _ _ _ Hwf Hn) as (s1 & Hs1 & _ & Hheap & Hmem & Hwf1).
  assert (Hm1 : forall x, it_pData it <= x < it_pData it + ptr_size -> as_mem s1 !! x = as_mem s !! x).
  { intros x Hx. rewrite Hmem, mem_free_lookup, decide_False by lia. done. }
  destruct (store_ptr_spec (it_pData it) 0 s1) as (m & Hst & Hmst & Hle & Hld).
  { intros x Hx. rewrite Hm1 by done. by apply Hm. }
  { pose proof size_bits_bound. lia. }
  set (s2 := mk_astate (mk_dstate (ds_in (as_ds s1)) m) (as_heap s1)) in *.
  assert (Hs2 : load_ptr (it_pData it) s2 = Ok 0 s2) by apply Hld.
  destruct (proj1 Hwf _ _ Hn) as (Hp0 & Hn0 & _).
  exists s2. split; [|split; [|split; [|split; [|split; [|split]]]]].
  - rewrite Hrun, (bind_ok _ _ _ _ _ Hp), (bind_ok _ _ _ _ _ Hs1). exact Hst.
  - by rewrite <- Hheap.
  - eapply (heap_wf_le s1); [done|done|apply Hle].
  - done.
  - intros x Hx. cbn. rewrite (proj1 Hle) by lia.
    rewrite Hmem, mem_free_lookup, decide_True by lia. done.
  - intros x H1 H2. cbn. rewrite (proj1 Hle) by lia.
    rewrite Hmem, mem_free_lookup, decide_False by lia. done.
  - rewrite Hrun, (bind_ok _ _ _ _ _ Hs2). rewrite (bind_ok _ _ _ tt s2) by done.
    unfold store_ptr, store_le, store_bytes. cbn.
    by rewrite (mem_store_idem _ _ _ _ Hmst).
Qed.

End release.

(** ** Examples

    [struct Outer { pb_size_t items_count; Item *items; }] with
    [struct Item { char *name; }], on a 64-bit device. *)

#[local] Instance malloc_platform : Platform :=
  {| size_bits := 64; size_bits_cases := or_intror eq_refl |}.
#[local] Instance malloc_user_read : UserRead := fun _ _ _ => fail.
#[local] Instance malloc_user_decode : UserDecode :=
  {| user_decode := fun _ _ _ => fail; user_ext_decode := fun _ _ _ _ => fail |}.

Definition Item_address : Z := 500.
Definition m_name := mk_member 0 8 1 0.
Definition Item_fields : list pb_field_t :=
  [ PB_FIELD 1 STRING OPTIONAL POINTER FIRST m_name m_name 0; PB_LAST_FIELD ].
Definition m_items := mk_member 8 8 8 0.
Definition Outer_fields : list pb_field_t :=
  [ PB_FIELD 1 MESSAGE REPEATED POINTER FIRST m_items m_items Item_address; PB_LAST_FIELD ].

#[local] Instance malloc_descriptors : Descriptors := fun a =>
  if a =? Item_address then Some Item_fields else None.

(** An allocator that serves requests of at most [limit] bytes: at the same address if
    there is room behind the old block, and otherwise 16 bytes above everything that
    is mapped. *)
Definition limited_allocator (limit : Z) : Allocator := {|
  heap_place m h p n :=
    let a := mem_fresh m + 16 in
    let old := default 0 (old_size h p) in
    if negb (n <=? limit) then None
    else if (0 <? p) && (p + n <=? 2 ^ 64) &&
            forallb (fun x => (x <? p + old) || negb (bool_decide (is_Some (m !! x)))) (seqZ p n) then Some p
    else if a + n <=? 2 ^ 64 then Some a else None;
  heap_garbage _ _ := 0xAA
|}.

Lemma limited_allocator_laws limit : @AllocatorLaws malloc_platform (limited_allocator limit).
Proof.
  split; [|intros; unfold is_byte; cbn; lia].
  intros m h p old n a Hold. unfold heap_place, limited_allocator. rewrite Hold. cbn [default].
  destruct (negb _); [done|]. destruct (_ && _) eqn:E.
  - intros [= <-]. rewrite !andb_true_iff in E. destruct E as [[E0 E1] E2]. zbool.
    split; [lia|]. split; [exact E1|]. intros x Hx. rewrite forallb_forall in E2.
    specialize (E2 x). rewrite orb_true_iff, negb_true_iff, bool_decide_eq_false in E2.
    destruct E2 as [E2|E2]; [by apply list_elem_of_In, elem_of_seqZ|apply Z.ltb_lt in E2; right; unfold id in E2; lia|left].
    by apply eq_None_not_Some.
  - destruct (Z.leb_spec (mem_fresh m + 16 + n) (2 ^ 64)); [|done]. intros [= <-].
    pose proof (mem_fresh_pos m). split; [lia|]. split; [done|].
    intros x Hx. left. apply eq_None_not_Some. intros Hs%mem_fresh_spec. lia.
Qed.

(** A message of 16 bytes at 1000, the input at 2000. *)
Definition outer_at : Z := 1000.
Definition outer_input (l : list Z) : astate :=
  mk_astate (mk_dstate (pb_istream_from_buffer 2000 (Z.of_nat (length l)))
               (mem_alloc (mem_alloc ∅ outer_at (replicate 16 0xEE)) 2000 l)) ∅.

(** Two items, named "a" and "b". *)
Definition two_items : list Z := [0x0A; 3; 0x0A; 1; 97; 0x0A; 3; 0x0A; 1; 98].

Definition decode_outer (limit : Z) : res astate unit :=
  @alloc_decode _ _ _ _ (limited_allocator limit) 20 Outer_fields outer_at (outer_input two_items).

(** With memory to spare, both items are decoded: three blocks of 2, 2 and 16
    bytes hold the names and the array. *)
Lemma two_items_decoded :
  match decode_outer 100 with
  | Ok _ s => (map_to_list (as_heap s)).*2 ≡ₚ [2; 2; 16] /\
              load_size outer_at s = Ok 2 s
  | _ => False
  end.
Proof. vm_compute. split; [|reflexivity]. apply (Permutation_middle [2; 2] []). Qed.

(** The count of an array is increased before its storage is: when the
    allocator refuses to grow the array, the release of the unfinished message
    visits an item the block does not have, and reads past its end. *)
Theorem refused_growth_overreads : decode_outer 8 = Ub.
Proof. vm_compute. reflexivity. Qed.

(** ** Instances *)

(** A pointer at 1000 to a block of 8 bytes at 3000. *)
Definition one_block : astate :=
  mk_astate (mk_dstate (pb_istream_from_buffer 2000 0)
               (mem_alloc (mem_alloc ∅ outer_at (le_split 8 3000)) 3000 (seqZ 1 8)))
            {[ 3000 := 8 ]}.

Lemma one_block_wf : heap_wf one_block.
Proof.
  split; cbn.
  - intros a n [<- <-]%lookup_singleton_Some. split; [lia|]. split; [lia|].
    intros x Hx. rewrite mem_alloc_lookup. change (length (seqZ 1 8)) with 8%nat.
    rewrite decide_True by lia. apply lookup_lt_is_Some. change (length (seqZ 1 8)) with 8%nat. lia.
  - intros a n b k [<- <-]%lookup_singleton_Some [<- <-]%lookup_singleton_Some. done.
Qed.

(** The same with another block right behind it. *)
Definition two_blocks : astate :=
  mk_astate (mk_dstate (ds_in (as_ds one_block)) (mem_alloc (as_mem one_block) 3008 [9; 9]))
            {[ 3000 := 8; 3008 := 2 ]}.

Lemma two_blocks_wf : heap_wf two_blocks.
Proof.
  split; cbn [as_heap two_blocks].
  - intros a n [[<- <-]|[_ [<- <-]%lookup_singleton_Some]]%lookup_insert_Some.
    all: split; [lia|]; split; [lia|]; intros x Hx.
    all: change (as_mem two_blocks) with (mem_alloc (mem_alloc (mem_alloc ∅ outer_at (le_split 8 3000)) 3000 (seqZ 1 8)) 3008 [9; 9]).
    all: rewrite !mem_alloc_lookup; change (length (seqZ 1 8)) with 8%nat; cbn [length].
    + rewrite decide_False by lia. rewrite decide_True by lia. apply lookup_lt_is_Some. change (length (seqZ 1 8)) with 8%nat. lia.
    + rewrite decide_True by lia. apply lookup_lt_is_Some. cbn [length]. lia.
  - intros a n b k [[<- <-]|[? [<- <-]%lookup_singleton_Some]]%lookup_insert_Some
      [[<- <-]|[? [<- <-]%lookup_singleton_Some]]%lookup_insert_Some; lia.
Qed.

(** The block is grown to three items of 8 bytes, in its place, and where there is no
    room somewhere else. *)
Lemma allocate_field_exact_witness :
  (exists s', allocate_field (AL := limited_allocator 100) outer_at 8 3 one_block = Ok tt s' /\
    as_heap s' = <[3000 := 24]> (delete 3000 (as_heap one_block)) /\
    load_ptr outer_at s' = Ok 3000 s' /\ heap_wf s') /\
  (exists s' a, a <> 3000 /\ allocate_field (AL := limited_allocator 100) outer_at 8 3 two_blocks = Ok tt s' /\
    as_heap s' = <[a := 24]> (delete 3000 (as_heap two_blocks)) /\
    load_ptr outer_at s' = Ok a s' /\ heap_wf s').
Proof.
  assert (forall s, heap_wf s -> load_ptr outer_at s = Ok 3000 s -> block_size s 3000 = Some 8 ->
    forall a, heap_place (Allocator := limited_allocator 100) (as_mem s) (as_heap s) 3000 24 = Some a ->
    exists s', allocate_field (AL := limited_allocator 100) outer_at 8 3 s = Ok tt s' /\
      as_heap s' = <[a := 24]> (delete 3000 (as_heap s)) /\ load_ptr outer_at s' = Ok a s' /\ heap_wf s') as Hgrow.
  { intros s Hwf Hp Hold a0 Ha0.
    pose proof (@allocate_field_exact _ (limited_allocator 100) (limited_allocator_laws 100)
      s outer_at 8 3 3000 8 Hwf Hp Hold ltac:(left; vm_compute; congruence)
      ltac:(vm_compute; split; congruence) ltac:(vm_compute; split; congruence)) as H.
    change (8 * 3) with 24 in H.
    apply wp_inv in H as [([] & s' & E & _ & a & m1 & Ha & _ & Hh & Hc & _ & _ & Hw)|(s' & _ & H & _)].
    - rewrite Ha0 in Ha. injection Ha as <-. by exists s'.
    - exfalso. destruct H as [H|[H|[H|H]]]; [done|done|by vm_compute in H; destruct H|congruence]. }
  split.
  - apply Hgrow; [exact one_block_wf|done|done|]. by vm_compute.
  - destruct (heap_place (Allocator := limited_allocator 100) (as_mem two_blocks) (as_heap two_blocks) 3000 24) as [a|] eqn:E; [|by vm_compute in E].
    destruct (Hgrow two_blocks two_blocks_wf eq_refl eq_refl a E) as (s' & H). exists s', a. split; [|exact H].
    intros ->. by vm_compute in E.
Defined.

Definition name_iter : pb_field_iter_t :=
  {| it_start := Item_fields; it_pos := 0; it_required_field_index := 0;
     it_dest_struct := outer_at; it_pData := outer_at; it_pSize := outer_at |}.

Lemma release_pointer_field_frees_witness :
  exists s', pb_release_single_field 1 name_iter one_block = Ok tt s' /\
    as_heap s' = delete 3000 (as_heap one_block) /\
    pb_release_single_field 1 name_iter s' = Ok tt s'.
Proof.
  destruct (release_pointer_field_frees 0 name_iter (default PB_LAST_FIELD (Item_fields !! 0%nat))
    one_block 3000 8 one_block_wf) as (s' & H1 & H2 & _ & _ & _ & _ & H3);
    try reflexivity; try discriminate.
  - right. reflexivity.
  - left. vm_compute. congruence.
  - exists s'. split; [exact H1|]. split; [exact H2|exact H3].
Defined.
