(* ===== verification/Slice.v ===== *)
(** * Byte strings and their order (slice.h, comparator.cc)

    A [Slice] refers to a range of bytes, a [std::string] owns one; both are the
    list of the bytes.  The operations a key ordering provides are the interface
    [Comparator]; its contract is [ComparatorLaws]. *)

From Stdlib Require Import ZArith Lia.
From stdpp Require Import base option list strings gmap.
From S2P Require Import Prelude Memory.

Abbreviation Slice := (list Z).

(** [REQUIRES: n < size()]; [None] is the failed assertion. *)
Definition slice_at (s : Slice) (n : nat) : option Z := s !! n.

Definition remove_prefix (s : Slice) (n : nat) : option Slice :=
  if (n <=? length s)%nat then Some (drop n s) else None.

(** The sign of the first difference among [n] bytes, as [memcmp] reports it. *)
Fixpoint memcmp (n : nat) (a b : Slice) : Z :=
  match n, a, b with
  | S n, x :: a, y :: b => if x <? y then -1 else if y <? x then 1 else memcmp n a b
  | _, _, _ => 0
  end.

Definition compare (a b : Slice) : Z :=
  let min_len := if (length a <? length b)%nat then length a else length b in
  let r := memcmp min_len a b in
  if r =? 0 then
    if (length a <? length b)%nat then -1
    else if (length b <? length a)%nat then 1 else r
  else r.

Definition starts_with (s x : Slice) : bool :=
  (length x <=? length s)%nat && (memcmp (length x) s x =? 0).

Definition slice_eqb (x y : Slice) : bool :=
  (length x =? length y)%nat && (memcmp (length x) x y =? 0).

(** ** Key orderings *)

(** [None] is a failed assertion. *)
Class Comparator := {
  Name : string;
  Compare : Slice -> Slice -> option Z;
  FindShortestSeparator : Slice -> Slice -> option Slice;
  FindShortSuccessor : Slice -> option Slice
}.

(** The contract: on the keys that are [valid], a total order up to the
    equivalence of keys that compare equal, and separators and successors that
    lie where they have to. *)
Class ComparatorLaws (C : Comparator) := {
  valid : Slice -> Prop;
  compare_total a b : valid a -> valid b -> exists r, Compare a b = Some r;
  compare_refl a : valid a -> Compare a a = Some 0;
  compare_antisym a b r r' :
    valid a -> valid b -> Compare a b = Some r -> Compare b a = Some r' -> Z.sgn r' = - Z.sgn r;
  compare_trans a b c r1 r2 :
    valid a -> valid b -> valid c ->
    Compare a b = Some r1 -> Compare b c = Some r2 -> r1 <= 0 -> r2 <= 0 ->
    exists r, Compare a c = Some r /\ r <= 0 /\ (r1 < 0 \/ r2 < 0 -> r < 0);
  separator_between start limit :
    valid start -> valid limit ->
    exists s, FindShortestSeparator start limit = Some s /\ valid s /\
      (s = start \/ (exists r1 r2, Compare start s = Some r1 /\ r1 <= 0 /\
                                   Compare s limit = Some r2 /\ r2 < 0));
  successor_after key :
    valid key ->
    exists s r, FindShortSuccessor key = Some s /\ valid s /\
                Compare key s = Some r /\ r <= 0
}.

(** What "short" means: separators and successors are not longer than the keys they
    are made from. *)
Class ShortKeys (C : Comparator) `{!ComparatorLaws C} := {
  valid_bytes k : valid k -> Forall is_byte k;
  separator_short start limit s :
    valid start -> valid limit -> FindShortestSeparator start limit = Some s -> (length s <= length start)%nat;
  successor_short key s : valid key -> FindShortSuccessor key = Some s -> (length s <= length key)%nat
}.

(** ** Bytewise order *)

(** [while (diff_index < min_length && start[diff_index] == limit[diff_index])] *)
Fixpoint common_prefix (a b : Slice) : nat :=
  match a, b with
  | x :: a, y :: b => if x =? y then S (common_prefix a b) else 0
  | _, _ => 0
  end.

Definition BytewiseFindShortestSeparator (start limit : Slice) : option Slice :=
  let min_length := Nat.min (length start) (length limit) in
  let diff_index := common_prefix start limit in
  if (min_length <=? diff_index)%nat then Some start
  else
    diff_byte ← start !! diff_index;
    limit_byte ← limit !! diff_index;
    if (diff_byte <? 0xff) && (diff_byte + 1 <? limit_byte) then
      let s := take (S diff_index) (<[diff_index := diff_byte + 1]> start) in
      if compare s limit <? 0 then Some s else None
    else Some start.

(** [for (i = 0; i < n; i++)]: increment the first byte that can be, and drop
    what follows it. *)
Fixpoint short_successor (n i : nat) (key : Slice) : option Slice :=
  match n with
  | O => Some key
  | S n =>
      byte ← key !! i;
      if negb (byte =? 0xff) then Some (take (S i) (<[i := byte + 1]> key))
      else short_successor n (S i) key
  end.

Definition BytewiseFindShortSuccessor (key : Slice) : option Slice :=
  short_successor (length key) 0 key.

Definition BytewiseComparator : Comparator := {|
  Name := "leveldb.BytewiseComparator";
  Compare := fun a b => Some (compare a b);
  FindShortestSeparator := BytewiseFindShortestSeparator;
  FindShortSuccessor := BytewiseFindShortSuccessor
|}.

(** ** The bytewise order is lexicographic *)

Lemma compare_nil_nil : compare [] [] = 0.
Proof. done. Qed.

Lemma compare_nil_cons y b : compare [] (y :: b) = -1.
Proof. done. Qed.

Lemma compare_cons_nil x a : compare (x :: a) [] = 1.
Proof. done. Qed.

Lemma compare_cons x a y b :
  compare (x :: a) (y :: b) = if x <? y then -1 else if y <? x then 1 else compare a b.
Proof.
  unfold compare. cbn [length]. destruct (Nat.ltb_spec (S (length a)) (S (length b))),
    (Nat.ltb_spec (length a) (length b)); try lia; cbn [memcmp].
  - by destruct (x <? y), (y <? x).
  - destruct (Nat.ltb_spec (S (length b)) (S (length a))),
      (Nat.ltb_spec (length b) (length a)); try lia; by destruct (x <? y), (y <? x).
Qed.

Create Rewrite HintDb slices.
#[export] Hint Rewrite compare_nil_nil compare_nil_cons compare_cons_nil compare_cons : slices.

(** Case analysis on a comparison of non-empty strings. *)
Ltac compare_cases :=
  autorewrite with slices in *;
  repeat match goal with
  | H : context [?x <? ?y] |- _ => destruct (Z.ltb_spec x y)
  | |- context [?x <? ?y] => destruct (Z.ltb_spec x y)
  end; try lia.

Lemma compare_self a : compare a a = 0.
Proof. induction a as [|x a IH]; [done|]. by compare_cases. Qed.

Lemma compare_flip a b : compare b a = - compare a b.
Proof.
  revert b. induction a as [|x a IH]; intros [|y b]; try done. specialize (IH b). compare_cases.
Qed.

Lemma compare_range a b : compare a b = -1 \/ compare a b = 0 \/ compare a b = 1.
Proof.
  revert b. induction a as [|x a IH]; intros [|y b]; auto. specialize (IH b). compare_cases.
Qed.

(** Only equal strings compare equal. *)
Lemma compare_eq a b : compare a b = 0 <-> a = b.
Proof.
  split; [|intros ->; apply compare_self].
  revert b. induction a as [|x a IH]; intros [|y b]; try done. intros H.
  compare_cases. f_equal; [lia|by apply IH].
Qed.

Lemma compare_le_trans a b c : compare a b <= 0 -> compare b c <= 0 -> compare a c <= 0.
Proof.
  revert b c. induction a as [|x a IH]; intros [|y b] [|z c]; try (autorewrite with slices; lia).
  specialize (IH b c). compare_cases.
Qed.

Lemma compare_lt_le_trans a b c : compare a b < 0 -> compare b c <= 0 -> compare a c < 0.
Proof.
  intros H1 H2. pose proof (compare_le_trans a b c ltac:(lia) H2).
  destruct (Z.eqb_spec (compare a c) 0) as [E|]; [|lia]. apply compare_eq in E as ->.
  rewrite compare_flip in H1. lia.
Qed.

Lemma compare_le_lt_trans a b c : compare a b <= 0 -> compare b c < 0 -> compare a c < 0.
Proof.
  intros H1 H2. pose proof (compare_le_trans a b c H1 ltac:(lia)).
  destruct (Z.eqb_spec (compare a c) 0) as [E|]; [|lia]. apply compare_eq in E as ->.
  rewrite compare_flip in H2. lia.
Qed.

Lemma compare_prefix p a b : compare (p ++ a) (p ++ b) = compare a b.
Proof. induction p as [|x p IH]; [done|]. cbn [app]. by compare_cases. Qed.

Lemma slice_eqb_eq x y : slice_eqb x y = true <-> x = y.
Proof.
  unfold slice_eqb. split.
  - intros [Hl%Nat.eqb_eq Hm%Z.eqb_eq]%andb_prop. apply compare_eq. unfold compare.
    rewrite Hl, Nat.ltb_irrefl, <- Hl, Hm. done.
  - intros ->. rewrite Nat.eqb_refl. cbn [andb]. apply Z.eqb_eq.
    pose proof (compare_self y) as H. unfold compare in H. rewrite Nat.ltb_irrefl in H.
    by destruct (Z.eqb_spec (memcmp (length y) y y) 0).
Qed.

Lemma starts_with_prefix s x : starts_with s x = true <-> exists t, s = x ++ t.
Proof.
  revert s. unfold starts_with. induction x as [|b x IH]; intros s.
  - split; [by exists s|done].
  - destruct s as [|c s]; [split; [done|by intros [t ?]]|]. cbn [length memcmp].
    change (S (length x) <=? S (length s))%nat with (length x <=? length s)%nat.
    destruct (Z.ltb_spec c b); [|destruct (Z.ltb_spec b c)].
    + rewrite andb_false_r. split; [done|]. intros [t [= -> ->]]. lia.
    + rewrite andb_false_r. split; [done|]. intros [t [= -> ->]]. lia.
    + replace c with b by lia. rewrite IH. split; intros [t Ht]; exists t; [by rewrite Ht|cbn in Ht; congruence].
Qed.

(** ** Separators and successors *)

(** Two strings, neither a prefix of the other, differ behind their common prefix. *)
Lemma common_prefix_split a b :
  (common_prefix a b < Nat.min (length a) (length b))%nat ->
  exists p x y a' b', a = p ++ x :: a' /\ b = p ++ y :: b' /\ x <> y /\ length p = common_prefix a b.
Proof.
  revert b. induction a as [|x a IH]; intros [|y b]; cbn [common_prefix length]; try (cbn; lia).
  destruct (Z.eqb_spec x y) as [->|Hne]; intros H.
  - destruct (IH b) as (p & x' & y' & a' & b' & -> & -> & Hn & Hp); [lia|].
    exists (y :: p), x', y', a', b'. cbn. by rewrite Hp.
  - by exists [], x, y, a, b.
Qed.

Lemma take_insert_split p x z (a : Slice) :
  take (S (length p)) (<[length p := z]> (p ++ x :: a)) = p ++ [z].
Proof.
  rewrite insert_app_r_alt, Nat.sub_diag by lia. cbn.
  rewrite take_app_ge by lia. by replace (S (length p) - length p)%nat with 1%nat by lia.
Qed.

Lemma short_successor_eq n p key :
  length key = n ->
  short_successor n (length p) (p ++ key) =
  Some (p ++ match list_find (fun b => b <> 0xff) key with
             | Some (i, b) => replicate i 0xff ++ [b + 1]
             | None => key
             end).
Proof.
  revert p key. induction n as [|n IH]; intros p key Hn; cbn [short_successor].
  - destruct key; [cbn; by rewrite !app_nil_r|done].
  - destruct key as [|b key]; [done|]. injection Hn as Hn.
    rewrite list_lookup_middle by done. cbn [mbind option_bind list_find].
    destruct (Z.eqb_spec b 0xff) as [->|Hb]; cbn [negb].
    + rewrite decide_False by (intros H; by apply H).
      specialize (IH (p ++ [0xff]) key Hn). rewrite length_app in IH. cbn [length] in IH.
      rewrite Nat.add_1_r, <- !app_assoc in IH. cbn [app] in IH. rewrite IH. f_equal. f_equal.
      by destruct (list_find _ key) as [[i c]|].
    + rewrite decide_True by done. by rewrite take_insert_split.
Qed.

(** What the separator is: the limit is reached only behind the common prefix. *)
Lemma bytewise_separator start limit :
  Forall is_byte start -> Forall is_byte limit ->
  exists s, BytewiseFindShortestSeparator start limit = Some s /\ Forall is_byte s /\
    (length s <= length start)%nat /\
    (s = start \/ (compare start s < 0 /\ compare s limit < 0)).
Proof.
  intros Hs Hl. unfold BytewiseFindShortestSeparator. cbv zeta.
  destruct (Nat.leb_spec (Nat.min (length start) (length limit)) (common_prefix start limit))
    as [|Hlt]; [by exists start; auto|].
  destruct (common_prefix_split _ _ Hlt) as (p & x & y & a & b & -> & -> & Hne & <-).
  rewrite !list_lookup_middle by done. cbn [mbind option_bind].
  destruct ((x <? 255) && (x + 1 <? y)) eqn:E; [|by eexists; auto].
  apply andb_prop in E as [E1%Z.ltb_lt E2%Z.ltb_lt]. rewrite take_insert_split.
  assert (compare (p ++ [x + 1]) (p ++ y :: b) < 0) as Hc by (rewrite compare_prefix; compare_cases).
  destruct (Z.ltb_spec (compare (p ++ [x + 1]) (p ++ y :: b)) 0); [|lia].
  exists (p ++ [x + 1]). split; [done|].
  apply Forall_app in Hs as [Hp Hx]. apply Forall_cons in Hx as [Hx _].
  split; [apply Forall_app; split; [done|]; repeat constructor; unfold is_byte in *; lia|].
  split; [rewrite !length_app; cbn; lia|]. right. split; [|done].
  rewrite compare_prefix. compare_cases.
Qed.

Lemma bytewise_successor key :
  Forall is_byte key ->
  exists s, BytewiseFindShortSuccessor key = Some s /\ Forall is_byte s /\
            (length s <= length key)%nat /\ (s = key \/ compare key s < 0).
Proof.
  intros Hk. unfold BytewiseFindShortSuccessor.
  pose proof (short_successor_eq (length key) [] key eq_refl) as H. cbn [length app] in H.
  rewrite H. destruct (list_find _ key) as [[i b]|] eqn:E; [|by exists key; auto].
  eexists. split; [done|]. apply list_find_Some in E as (Hi & Hb & Hbefore).
  assert (take i key = replicate i 255) as Ht.
  { apply list_eq. intros j. destruct (decide (j < i)%nat) as [Hj|].
    - rewrite lookup_take_lt, lookup_replicate_2 by done.
      destruct (key !! j) as [c|] eqn:Ec.
      + destruct (decide (c = 255)) as [->|Hc]; [done|]. exfalso. by eapply Hbefore.
      + apply lookup_ge_None in Ec. apply lookup_lt_Some in Hi. lia.
    - rewrite lookup_take_ge by lia. symmetry. apply lookup_ge_None. rewrite length_replicate. lia. }
  rewrite <- (take_drop_middle key i b Hi), Ht in Hk |- *.
  apply Forall_app in Hk as [Hr Hx]. apply Forall_cons in Hx as [Hx _].
  split; [apply Forall_app; split; [done|]; repeat constructor; unfold is_byte in *; lia|].
  split; [rewrite !length_app; cbn; lia|]. right. rewrite compare_prefix. compare_cases.
Qed.

#[export] Program Instance BytewiseComparator_laws : ComparatorLaws BytewiseComparator := {|
  valid := Forall is_byte
|}.
Next Obligation. intros a b _ _. by eexists. Qed.
Next Obligation. intros a _. cbn. by rewrite compare_self. Qed.
Next Obligation.
  intros a b r r' _ _ [= <-] [= <-]. rewrite (compare_flip a b). apply Z.sgn_opp.
Qed.
Next Obligation.
  intros a b c r1 r2 _ _ _ [= <-] [= <-] H1 H2. eexists. split; [done|].
  split; [by eapply compare_le_trans|].
  intros [H|H]; [by eapply compare_lt_le_trans|by eapply compare_le_lt_trans].
Qed.
Next Obligation.
  intros start limit Hs Hl. destruct (bytewise_separator start limit Hs Hl) as (s & E & Hb & _ & H).
  exists s. split; [done|]. split; [done|]. destruct H as [->|[H1 H2]]; [by left|right].
  do 2 eexists. split; [done|]. split; [lia|]. by split.
Qed.
Next Obligation.
  intros key Hk. destruct (bytewise_successor key Hk) as (s & E & Hb & _ & H).
  exists s. eexists. split; [done|]. split; [done|]. split; [done|].
  destruct H as [->|H]; [by rewrite compare_self|lia].
Qed.

#[export] Program Instance BytewiseComparator_short : ShortKeys BytewiseComparator.
Next Obligation. done. Qed.
Next Obligation.
  intros start limit s Hs Hl E. destruct (bytewise_separator start limit Hs Hl) as (s' & E' & _ & H & _).
  cbn in E. rewrite E' in E. by injection E as <-.
Qed.
Next Obligation.
  intros key s Hk E. destruct (bytewise_successor key Hk) as (s' & E' & _ & H & _).
  cbn in E. rewrite E' in E. by injection E as <-.
Qed.
