(* ===== verification/Coding.v ===== *)
(** * Integers and strings in files (coding.h, coding.cc)

    Fixed-width and variable-length integers and length-prefixed strings.  A
    routine that appends to a string returns the longer string; one that writes at
    a pointer returns the bytes written; one that reads between two pointers takes
    the bytes there and returns the value with the bytes behind it. *)

From Stdlib Require Import ZArith Lia.
From stdpp Require Import base option list strings gmap.
From S2P Require Import Prelude Memory Wire Slice.

(** Both branches of [port::kLittleEndian] write these bytes. *)
Definition EncodeFixed32 (value : Z) : Slice :=
  [u8 (Z.land value 0xff); u8 (Z.land (Z.shiftr value 8) 0xff);
   u8 (Z.land (Z.shiftr value 16) 0xff); u8 (Z.land (Z.shiftr value 24) 0xff)].

Definition EncodeFixed64 (value : Z) : Slice :=
  [u8 (Z.land value 0xff); u8 (Z.land (Z.shiftr value 8) 0xff);
   u8 (Z.land (Z.shiftr value 16) 0xff); u8 (Z.land (Z.shiftr value 24) 0xff);
   u8 (Z.land (Z.shiftr value 32) 0xff); u8 (Z.land (Z.shiftr value 40) 0xff);
   u8 (Z.land (Z.shiftr value 48) 0xff); u8 (Z.land (Z.shiftr value 56) 0xff)].

Definition PutFixed32 (dst : Slice) (value : Z) : Slice := dst ++ EncodeFixed32 value.
Definition PutFixed64 (dst : Slice) (value : Z) : Slice := dst ++ EncodeFixed64 value.

Definition B : Z := 128.

Definition EncodeVarint32 (v : Z) : Slice :=
  if v <? 2 ^ 7 then [u8 v]
  else if v <? 2 ^ 14 then [u8 (Z.lor v B); u8 (Z.shiftr v 7)]
  else if v <? 2 ^ 21 then
    [u8 (Z.lor v B); u8 (Z.lor (Z.shiftr v 7) B); u8 (Z.shiftr v 14)]
  else if v <? 2 ^ 28 then
    [u8 (Z.lor v B); u8 (Z.lor (Z.shiftr v 7) B); u8 (Z.lor (Z.shiftr v 14) B);
     u8 (Z.shiftr v 21)]
  else
    [u8 (Z.lor v B); u8 (Z.lor (Z.shiftr v 7) B); u8 (Z.lor (Z.shiftr v 14) B);
     u8 (Z.lor (Z.shiftr v 21) B); u8 (Z.shiftr v 28)].

Definition PutVarint32 (dst : Slice) (v : Z) : Slice := dst ++ EncodeVarint32 v.

(** [while (v >= B)]: every round drops 7 bits. *)
Fixpoint encode_varint64 (fuel : nat) (v : Z) : option Slice :=
  match fuel with
  | O => None
  | S fuel =>
      if B <=? v then
        cons (u8 (Z.lor (Z.land v (B - 1)) B)) <$> encode_varint64 fuel (Z.shiftr v 7)
      else Some [u8 v]
  end.

(** The buffer of the callers has 10 bytes, which bounds the rounds; [None] is
    writing past its end. *)
Definition EncodeVarint64 (v : Z) : option Slice := encode_varint64 10 v.

Definition PutVarint64 (dst : Slice) (v : Z) : option Slice :=
  l ← EncodeVarint64 v; Some (dst ++ l).

Definition PutLengthPrefixedSlice (dst value : Slice) : Slice :=
  PutVarint32 dst (u32 (Z.of_nat (length value))) ++ value.

Fixpoint varint_length (fuel : nat) (v len : Z) : option Z :=
  match fuel with
  | O => None
  | S fuel => if 128 <=? v then varint_length fuel (Z.shiftr v 7) (len + 1) else Some len
  end.

Definition VarintLength (v : Z) : option Z := varint_length 10 v 1.

(** [None] when the pointer does not point to enough bytes. *)
Definition DecodeFixed32 (p : Slice) : option Z :=
  match p with
  | b0 :: b1 :: b2 :: b3 :: _ =>
      Some (Z.lor (Z.lor (Z.lor b0 (u32 (Z.shiftl b1 8))) (u32 (Z.shiftl b2 16)))
              (u32 (Z.shiftl b3 24)))
  | _ => None
  end.

Definition DecodeFixed64 (p : Slice) : option Z :=
  lo ← DecodeFixed32 p;
  hi ← DecodeFixed32 (drop 4 p);
  Some (Z.lor (u64 (Z.shiftl hi 32)) lo).

(** [for (shift = 0; shift <= max_shift && p < limit; shift += 7)] for a result
    of [w] bits. *)
Fixpoint get_varint (w max_shift shift result : Z) (p : Slice) : option (Z * Slice) :=
  match p with
  | [] => None
  | byte :: p =>
      if shift <=? max_shift then
        if negb (Z.land byte 128 =? 0)
        then get_varint w max_shift (shift + 7)
               (Z.lor result (uwrap w (Z.shiftl (Z.land byte 127) shift))) p
        else Some (Z.lor result (uwrap w (Z.shiftl byte shift)), p)
      else None
  end.

Definition GetVarint32PtrFallback (p : Slice) : option (Z * Slice) := get_varint 32 28 0 0 p.

Definition GetVarint32Ptr (p : Slice) : option (Z * Slice) :=
  match p with
  | result :: rest =>
      if Z.land result 128 =? 0 then Some (result, rest) else GetVarint32PtrFallback p
  | [] => GetVarint32PtrFallback p
  end.

Definition GetVarint32 (input : Slice) : option (Z * Slice) := GetVarint32Ptr input.

Definition GetVarint64Ptr (p : Slice) : option (Z * Slice) := get_varint 64 63 0 0 p.

Definition GetVarint64 (input : Slice) : option (Z * Slice) := GetVarint64Ptr input.

(** The overload on pointers: the string and what is behind it. *)
Definition GetLengthPrefixedSlicePtr (p : Slice) : option (Slice * Slice) :=
  r ← GetVarint32Ptr p;
  let '(len, p) := r in
  if Z.of_nat (length p) <? len then None
  else Some (take (Z.to_nat len) p, drop (Z.to_nat len) p).

(** The overload on slices. *)
Definition GetLengthPrefixedSlice (input : Slice) : option (Slice * Slice) :=
  r ← GetVarint32 input;
  let '(len, input) := r in
  if len <=? Z.of_nat (length input) then
    rest ← remove_prefix input (Z.to_nat len);
    Some (take (Z.to_nat len) input, rest)
  else None.

(** ** Fixed-width integers *)

Lemma land_255 x : Z.land x 255 = x mod 256.
Proof. change 255 with (Z.ones 8). by rewrite Z.land_ones by lia. Qed.

Lemma EncodeFixed32_split v : EncodeFixed32 v = le_split 4 v.
Proof.
  unfold EncodeFixed32. cbn [le_split]. rewrite !Z.shiftr_shiftr by lia. cbn [Z.add Pos.add Pos.succ].
  rewrite !land_255. repeat f_equal; apply uwrap_uwrap; lia.
Qed.

Lemma EncodeFixed64_split v : EncodeFixed64 v = le_split 8 v.
Proof.
  unfold EncodeFixed64. cbn [le_split]. rewrite !Z.shiftr_shiftr by lia. cbn [Z.add Pos.add Pos.succ].
  rewrite !land_255. repeat f_equal; apply uwrap_uwrap; lia.
Qed.

Lemma DecodeFixed32_combine l rest :
  Forall is_byte l -> length l = 4%nat -> DecodeFixed32 (l ++ rest) = Some (le_combine l).
Proof.
  intros Hb Hl. destruct l as [|b0 [|b1 [|b2 [|b3 [|]]]]]; try discriminate Hl.
  rewrite !Forall_cons in Hb. destruct Hb as (H0 & H1 & H2 & H3 & _). unfold is_byte in *.
  cbn [app DecodeFixed32]. rewrite !uwrap_small by (rewrite Z.shiftl_mul_pow2 by lia; lia).
  rewrite (lor_shiftl_add b0), (lor_shiftl_add (b0 + _)), lor_shiftl_add by lia.
  cbn [le_combine]. f_equal. lia.
Qed.

Lemma DecodeFixed32_short p : (length p < 4)%nat -> DecodeFixed32 p = None.
Proof. destruct p as [|? [|? [|? [|]]]]; cbn; done || lia. Qed.

Lemma DecodeFixed32_EncodeFixed32 v rest :
  0 <= v < 2 ^ 32 -> DecodeFixed32 (EncodeFixed32 v ++ rest) = Some v.
Proof.
  intros Hv. rewrite EncodeFixed32_split, DecodeFixed32_combine by
    (apply le_split_bytes || apply le_split_length).
  rewrite le_combine_split. f_equal. by apply uwrap_small.
Qed.

Lemma DecodeFixed64_combine l rest :
  Forall is_byte l -> length l = 8%nat -> DecodeFixed64 (l ++ rest) = Some (le_combine l).
Proof.
  intros Hb Hl. rewrite <- (take_drop 4 l) in Hb |- *.
  assert (length (take 4 l) = 4%nat /\ length (drop 4 l) = 4%nat) as [H1 H2]
    by (rewrite length_take, length_drop; lia).
  generalize dependent (take 4 l). generalize dependent (drop 4 l). intros hi H2 lo Hb H1.
  apply Forall_app in Hb as [Hlo Hhi]. unfold DecodeFixed64.
  rewrite <- app_assoc, DecodeFixed32_combine by done. cbn [mbind option_bind].
  rewrite drop_app_length' by done. rewrite DecodeFixed32_combine by done.
  cbn [mbind option_bind]. f_equal.
  pose proof (le_combine_range lo Hlo) as Rlo. pose proof (le_combine_range hi Hhi) as Rhi.
  rewrite H1 in Rlo. rewrite H2 in Rhi. change (2 ^ (8 * Z.of_nat 4)) with (2 ^ 32) in *.
  rewrite uwrap_small by (rewrite Z.shiftl_mul_pow2 by lia; lia).
  rewrite Z.lor_comm, lor_shiftl_add by lia.
  destruct lo as [|b0 [|b1 [|b2 [|b3 [|]]]]]; try discriminate H1. cbn [le_combine app]. lia.
Qed.

Lemma DecodeFixed64_EncodeFixed64 v rest :
  0 <= v < 2 ^ 64 -> DecodeFixed64 (EncodeFixed64 v ++ rest) = Some v.
Proof.
  intros Hv. rewrite EncodeFixed64_split, DecodeFixed64_combine by
    (apply le_split_bytes || apply le_split_length).
  rewrite le_combine_split. f_equal. by apply uwrap_small.
Qed.

Lemma EncodeFixed32_length v : length (EncodeFixed32 v) = 4%nat.
Proof. done. Qed.

Lemma EncodeFixed32_bytes v : Forall is_byte (EncodeFixed32 v).
Proof. rewrite EncodeFixed32_split. apply le_split_bytes. Qed.

Lemma EncodeFixed64_length v : length (EncodeFixed64 v) = 8%nat.
Proof. done. Qed.

Lemma EncodeFixed64_bytes v : Forall is_byte (EncodeFixed64 v).
Proof. rewrite EncodeFixed64_split. apply le_split_bytes. Qed.

(** ** Writing varints *)

Lemma lor_B x : 0 <= x -> u8 (Z.lor x B) = x mod 128 + 128.
Proof.
  intros Hx. unfold B. change 128 with (Z.shiftl 1 7) at 1.
  rewrite (Z.div_mod x 128) at 1 by lia.
  assert (128 * (x / 128) + x mod 128 = Z.lor (x mod 128) (Z.shiftl (x / 128) 7)) as ->.
  { rewrite lor_shiftl_add by (lia || apply Z.mod_pos_bound; lia). lia. }
  rewrite <- Z.lor_assoc, <- Z.shiftl_lor.
  rewrite lor_shiftl_add by (lia || apply Z.mod_pos_bound; lia).
  pose proof (Z.mod_pos_bound x 128 ltac:(lia)).
  assert (Z.lor (x / 128) 1 mod 2 = 1) as Hodd.
  { assert (Z.odd (Z.lor (x / 128) 1) = true) as Ho
      by (rewrite <- Z.bit0_odd, Z.lor_spec; apply orb_true_r).
    rewrite Zmod_odd, Ho. done. }
  unfold uwrap. set (q := Z.lor (x / 128) 1) in *.
  symmetry. apply Z.mod_unique with (q / 2); [lia|]. pose proof (Z.div_mod q 2 ltac:(lia)). lia.
Qed.

Lemma land_lor_B x : 0 <= x -> u8 (Z.lor (Z.land x (B - 1)) B) = x mod 128 + 128.
Proof.
  intros Hx. change (B - 1) with 127. rewrite land_7F, lor_B by (apply Z.mod_pos_bound; lia).
  by rewrite Z.mod_mod.
Qed.

Lemma varint_bytes_n_S n v :
  varint_bytes_n (S n) v = if v <? 128 then [v] else (v mod 128 + 128) :: varint_bytes_n n (v / 128).
Proof. done. Qed.

Lemma encode_varint64_eq fuel v :
  0 <= v < 2 ^ (7 * Z.of_nat (S fuel)) ->
  encode_varint64 (S fuel) v = Some (varint_bytes_n fuel v).
Proof.
  revert v. induction fuel as [|fuel IH]; intros v Hv.
  - cbn in Hv |- *. destruct (Z.leb_spec B v), (Z.ltb_spec v 128); unfold B in *; try lia.
    by rewrite uwrap_small by lia.
  - cbn [encode_varint64 varint_bytes_n] in *. 
    destruct (Z.leb_spec B v), (Z.ltb_spec v 128); unfold B in *; try lia.
    + rewrite Z.shiftr_div_pow2 by lia. change (2 ^ 7) with 128.
      rewrite land_lor_B by lia. rewrite IH; [done|].
      split; [apply Z.div_pos; lia|]. apply Z.div_lt_upper_bound; [lia|].
      replace (7 * Z.of_nat (S (S fuel))) with (7 + 7 * Z.of_nat (S fuel)) in Hv by lia.
      rewrite Z.pow_add_r in Hv by lia. lia.
    + by rewrite uwrap_small by lia.
Qed.

Lemma EncodeVarint64_eq v : 0 <= v < 2 ^ 64 -> EncodeVarint64 v = Some (varint_bytes v).
Proof. intros Hv. apply (encode_varint64_eq 9). lia. Qed.

(** The unrolled routine and the loop write the same bytes. *)
Lemma EncodeVarint32_eq v : 0 <= v < 2 ^ 32 -> EncodeVarint32 v = varint_bytes v.
Proof.
  intros Hv. unfold EncodeVarint32, varint_bytes. rewrite !Z.shiftr_div_pow2 by lia.
  pose proof (Z.div_pos v 128 ltac:(lia) ltac:(lia)) as P1.
  assert (v / 2 ^ 14 = v / 128 / 128) as -> by (rewrite Z.div_div by lia; done).
  assert (v / 2 ^ 21 = v / 128 / 128 / 128) as -> by (rewrite !Z.div_div by lia; done).
  assert (v / 2 ^ 28 = v / 128 / 128 / 128 / 128) as -> by (rewrite !Z.div_div by lia; done).
  change (2 ^ 7) with 128. change (2 ^ 14) with (128 * 128). change (2 ^ 21) with (128 * 128 * 128).
  change (2 ^ 28) with (128 * 128 * 128 * 128).
  assert (2 ^ 32 <= 128 * 128 * 128 * 128 * 16) by done.
  pose proof (Z.div_pos (v / 128) 128 P1 ltac:(lia)) as P2.
  pose proof (Z.div_pos (v / 128 / 128) 128 P2 ltac:(lia)) as P3.
  rewrite (varint_bytes_n_S 8), (varint_bytes_n_S 7), (varint_bytes_n_S 6), (varint_bytes_n_S 5),
    (varint_bytes_n_S 4).
  rewrite !lor_B by lia.
  pose proof (Z.div_mod v 128 ltac:(lia)). pose proof (Z.mod_pos_bound v 128 ltac:(lia)).
  pose proof (Z.div_mod (v / 128) 128 ltac:(lia)). pose proof (Z.mod_pos_bound (v / 128) 128 ltac:(lia)).
  pose proof (Z.div_mod (v / 128 / 128) 128 ltac:(lia)).
  pose proof (Z.mod_pos_bound (v / 128 / 128) 128 ltac:(lia)).
  pose proof (Z.div_mod (v / 128 / 128 / 128) 128 ltac:(lia)).
  pose proof (Z.mod_pos_bound (v / 128 / 128 / 128) 128 ltac:(lia)).
  generalize dependent (v / 128 / 128 / 128 / 128). intros q4.
  generalize dependent (v / 128 / 128 / 128). intros q3. generalize dependent (v / 128 / 128). intros q2.
  generalize dependent (v / 128). intros q1. intros.
  destruct (Z.ltb_spec v 128); [by rewrite uwrap_small by lia|].
  destruct (Z.ltb_spec v (128 * 128)), (Z.ltb_spec q1 128); try lia; [by rewrite uwrap_small by lia|].
  destruct (Z.ltb_spec v (128 * 128 * 128)), (Z.ltb_spec q2 128); try lia; [by rewrite uwrap_small by lia|].
  destruct (Z.ltb_spec v (128 * 128 * 128 * 128)), (Z.ltb_spec q3 128); try lia; [by rewrite uwrap_small by lia|].
  destruct (Z.ltb_spec q4 128); [|lia]. by rewrite uwrap_small by lia.
Qed.

Lemma varint_length_eq fuel v len :
  0 <= v < 2 ^ (7 * Z.of_nat (S fuel)) ->
  varint_length (S fuel) v len = Some (len - 1 + Z.of_nat (length (varint_bytes_n fuel v))).
Proof.
  revert v len. induction fuel as [|fuel IH]; intros v len Hv.
  - cbn in Hv |- *. destruct (Z.leb_spec 128 v), (Z.ltb_spec v 128); try lia. cbn. f_equal. lia.
  - cbn [varint_length varint_bytes_n] in *.
    destruct (Z.leb_spec 128 v), (Z.ltb_spec v 128); try lia; [|cbn; f_equal; lia].
    rewrite Z.shiftr_div_pow2 by lia. change (2 ^ 7) with 128. rewrite IH; [cbn [length]; f_equal; lia|].
    split; [apply Z.div_pos; lia|]. apply Z.div_lt_upper_bound; [lia|].
    replace (7 * Z.of_nat (S (S fuel))) with (7 + 7 * Z.of_nat (S fuel)) in Hv by lia.
    rewrite Z.pow_add_r in Hv by lia. lia.
Qed.

Lemma VarintLength_eq v :
  0 <= v < 2 ^ 64 -> VarintLength v = Some (Z.of_nat (length (varint_bytes v))).
Proof. intros Hv. unfold VarintLength. rewrite varint_length_eq by lia. done. Qed.

(** ** Reading varints *)

(** From the [i]-th byte on, with the value [r] of the bytes before it: the value
    and what is left of the input, if the varint ends within [k] bytes. *)
Lemma get_varint_eq w k i r p :
  7 * (k - 1) < w -> 0 <= i -> 0 <= r < 2 ^ (7 * i) -> Forall is_byte p ->
  get_varint w (7 * (k - 1)) (7 * i) r p =
  match parse_varint p with
  | Some (v, n) => if i + Z.of_nat n <=? k then Some (uwrap w (r + v * 2 ^ (7 * i)), drop n p)
                   else None
  | None => None
  end.
Proof.
  intros Hw Hi Hr Hb. revert i r Hi Hr. induction Hb as [|b p Hb Hp IH]; intros i r Hi Hr; [done|].
  cbn [get_varint parse_varint]. unfold is_byte in Hb. rewrite land_80 by lia.
  destruct (Z.leb_spec (7 * i) (7 * (k - 1))).
  2:{ destruct (Z.ltb_spec b 128).
      - destruct (Z.leb_spec (i + Z.of_nat 1) k); [lia|done].
      - destruct (parse_varint p) as [[v n]|]; [|done].
        destruct (Z.leb_spec (i + Z.of_nat (S n)) k); [lia|done]. }
  destruct (Z.ltb_spec b 128); cbn [Z.eqb negb].
  - destruct (Z.leb_spec (i + Z.of_nat 1) k); [|lia]. cbn [drop].
    pose proof (varint_accumulate w (7 * i) r b ltac:(lia) Hr) as E.
    rewrite land_7F, Z.mod_small in E by lia. by rewrite E.
  - rewrite varint_accumulate by lia. replace (7 * i + 7) with (7 * (i + 1)) by lia.
    assert (2 ^ (7 * (i + 1)) = 2 ^ (7 * i) * 128) as E2
      by (replace (7 * (i + 1)) with (7 * i + 7) by lia; by rewrite Z.pow_add_r by lia).
    pose proof (Z.mod_pos_bound b 128 ltac:(lia)).
    assert (0 < 2 ^ (7 * i)) by (apply Z.pow_pos_nonneg; lia).
    assert (0 <= r + b mod 128 * 2 ^ (7 * i) < 2 ^ (7 * (i + 1))) as Hr2 by nia.
    destruct (Z.ltb_spec (7 * i + 7) w) as [Hlt|Hge].
    + rewrite (uwrap_small w).
      2:{ assert (2 ^ (7 * (i + 1)) <= 2 ^ w) by (apply Z.pow_le_mono_r; lia). lia. }
      rewrite IH by lia. destruct (parse_varint p) as [[v n]|]; [|done].
      rewrite E2. replace (i + 1 + Z.of_nat n) with (i + Z.of_nat (S n)) by lia.
      destruct (_ <=? k); [|done]. cbn [drop]. do 3 f_equal. lia.
    + assert (i = k - 1) as -> by lia. 
      pose proof (uwrap_range w (r + b mod 128 * 2 ^ (7 * (k - 1))) ltac:(lia)).
      assert (2 ^ w <= 2 ^ (7 * (k - 1 + 1))) by (apply Z.pow_le_mono_r; lia).
      rewrite IH by lia. destruct (parse_varint p) as [[v n]|] eqn:E; [|done].
      apply parse_varint_pos in E as [_ ?]; [|done].
      destruct (Z.leb_spec (k - 1 + 1 + Z.of_nat n) k), (Z.leb_spec (k - 1 + Z.of_nat (S n)) k); lia || done.
Qed.

(** At most [k] bytes of a varint of [w] bits. *)
Definition read_varint (w k : Z) (p : Slice) : option (Z * Slice) :=
  match parse_varint p with
  | Some (v, n) => if Z.of_nat n <=? k then Some (uwrap w v, drop n p) else None
  | None => None
  end.

Lemma GetVarint64_eq p : Forall is_byte p -> GetVarint64 p = read_varint 64 10 p.
Proof.
  intros Hp. unfold GetVarint64, GetVarint64Ptr, read_varint.
  rewrite (get_varint_eq 64 10 0 0) by (done || lia).
  destruct (parse_varint p) as [[v n]|]; [|done]. rewrite Z.add_0_l.
  by rewrite Z.add_0_l, Z.mul_1_r.
Qed.

(** The first byte is looked at twice, but not decoded twice. *)
Lemma GetVarint32_eq p : Forall is_byte p -> GetVarint32 p = read_varint 32 5 p.
Proof.
  intros Hp. unfold GetVarint32, GetVarint32Ptr, GetVarint32PtrFallback, read_varint.
  assert (get_varint 32 28 0 0 p = match parse_varint p with
    | Some (v, n) => if Z.of_nat n <=? 5 then Some (uwrap 32 v, drop n p) else None
    | None => None end) as E.
  { rewrite (get_varint_eq 32 5 0 0) by (done || lia).
    destruct (parse_varint p) as [[v n]|]; [|done]. rewrite Z.add_0_l.
    by rewrite Z.add_0_l, Z.mul_1_r. }
  destruct p as [|b p]; [done|]. rewrite E. cbn [parse_varint]. 
  apply Forall_cons in Hp as [Hb _]. unfold is_byte in Hb. rewrite land_80 by lia.
  destruct (Z.ltb_spec b 128); [|done]. cbn. by rewrite uwrap_small by lia.
Qed.

(** ** Round trips *)

Lemma read_varint_bytes w k v rest :
  0 <= v < 2 ^ 64 -> v < 2 ^ w -> Z.of_nat (length (varint_bytes v)) <= k ->
  read_varint w k (varint_bytes v ++ rest) = Some (v, rest).
Proof.
  intros Hv Hw Hk. unfold read_varint. rewrite parse_varint_bytes by done.
  destruct (Z.leb_spec (Z.of_nat (length (varint_bytes v))) k); [|lia].
  by rewrite uwrap_small, drop_app_length by lia.
Qed.

Lemma GetVarint64_bytes v rest :
  0 <= v < 2 ^ 64 -> Forall is_byte rest -> GetVarint64 (varint_bytes v ++ rest) = Some (v, rest).
Proof.
  intros Hv Hr. rewrite GetVarint64_eq.
  - pose proof (varint_bytes_length v). apply read_varint_bytes; lia.
  - apply Forall_app. split; [apply varint_bytes_bytes; lia|done].
Qed.

Lemma GetVarint32_bytes v rest :
  0 <= v < 2 ^ 32 -> Forall is_byte rest -> GetVarint32 (varint_bytes v ++ rest) = Some (v, rest).
Proof.
  intros Hv Hr. rewrite GetVarint32_eq.
  - pose proof (varint_bytes_length_32 v Hv). apply read_varint_bytes; lia.
  - apply Forall_app. split; [apply varint_bytes_bytes; lia|done].
Qed.

(** The two overloads agree. *)
Lemma GetLengthPrefixedSlice_eq p : GetLengthPrefixedSlice p = GetLengthPrefixedSlicePtr p.
Proof.
  unfold GetLengthPrefixedSlice, GetLengthPrefixedSlicePtr, GetVarint32.
  destruct (GetVarint32Ptr p) as [[len l]|]; [|done]. cbn [mbind option_bind].
  destruct (Z.leb_spec len (Z.of_nat (length l))), (Z.ltb_spec (Z.of_nat (length l)) len);
    try lia; [|done].
  unfold remove_prefix. destruct (Nat.leb_spec (Z.to_nat len) (length l)); [done|lia].
Qed.

Lemma GetLengthPrefixedSlice_bytes value rest :
  Z.of_nat (length value) < 2 ^ 32 -> Forall is_byte value -> Forall is_byte rest ->
  GetLengthPrefixedSlice (PutLengthPrefixedSlice [] value ++ rest) = Some (value, rest).
Proof.
  intros Hl Hv Hr. unfold GetLengthPrefixedSlice, PutLengthPrefixedSlice, PutVarint32.
  cbn [app]. rewrite uwrap_small, EncodeVarint32_eq, <- app_assoc by lia.
  rewrite GetVarint32_bytes by (lia || by apply Forall_app). cbn [mbind option_bind].
  rewrite length_app, Nat2Z.id. destruct (Z.leb_spec (Z.of_nat (length value))
    (Z.of_nat (length value + length rest))); [|lia].
  unfold remove_prefix. rewrite length_app.
  destruct (Nat.leb_spec (length value) (length value + length rest)); [|lia].
  cbn. by rewrite take_app_length, drop_app_length.
Qed.
