(* ===== verification/DbFormat.v ===== *)
(** * Internal keys (dbformat.h, dbformat.cc)

    A user key with the sequence number and the type of its entry, and the order
    of internal keys, built on any order of user keys. *)

From Stdlib Require Import ZArith Lia.
From stdpp Require Import base option list strings gmap.
From S2P Require Import Prelude Memory Wire Slice Coding.

Definition kTypeDeletion : Z := 0x0.
Definition kTypeValue : Z := 0x1.
Definition kValueTypeForSeek : Z := kTypeValue.
Definition kMaxSequenceNumber : Z := 2 ^ 56 - 1.

(** The type is kept as the number read: parsing stores it before it is tested. *)
Record ParsedInternalKey := mk_parsed {
  user_key : Slice;
  sequence : Z;
  type : Z
}.

Definition InternalKeyEncodingLength (key : ParsedInternalKey) : nat :=
  (length (user_key key) + 8)%nat.

(** [None] is a failed assertion. *)
Definition PackSequenceAndType (seq t : Z) : option Z :=
  if (seq <=? kMaxSequenceNumber) && (t <=? kValueTypeForSeek)
  then Some (Z.lor (u64 (Z.shiftl seq 8)) t) else None.

Definition AppendInternalKey (result : Slice) (key : ParsedInternalKey) : option Slice :=
  packed ← PackSequenceAndType (sequence key) (type key);
  Some (PutFixed64 (result ++ user_key key) packed).

Definition ExtractUserKey (internal_key : Slice) : option Slice :=
  if (8 <=? length internal_key)%nat
  then Some (take (length internal_key - 8) internal_key) else None.

Definition ExtractValueType (internal_key : Slice) : option Z :=
  if (8 <=? length internal_key)%nat then
    num ← DecodeFixed64 (drop (length internal_key - 8) internal_key);
    Some (Z.land num 0xff)
  else None.

(** The value returned, with what has been stored in [*result]. *)
Definition ParseInternalKey (internal_key : Slice) : option (bool * option ParsedInternalKey) :=
  let n := length internal_key in
  if (n <? 8)%nat then Some (false, None)
  else
    num ← DecodeFixed64 (drop (n - 8) internal_key);
    let c := Z.land num 0xff in
    Some (c <=? kTypeValue, Some (mk_parsed (take (n - 8) internal_key) (Z.shiftr num 8) c)).

(** [class InternalKey]: the constructors and [SetFrom]; [DecodeFrom] and
    [Encode] copy the bytes. *)
Definition InternalKey (user_key : Slice) (s t : Z) : option Slice :=
  AppendInternalKey [] (mk_parsed user_key s t).

(** [LookupKey]: the bytes from [start_] to [end_], and where [kstart_] is. *)
Record LookupKey := mk_lookup { lookup_bytes : Slice; lookup_kstart : nat }.

Definition make_LookupKey (user_key : Slice) (s : Z) : option LookupKey :=
  let usize := length user_key in
  let header := EncodeVarint32 (u32 (Z.of_nat usize + 8)) in
  packed ← PackSequenceAndType s kValueTypeForSeek;
  Some (mk_lookup (header ++ user_key ++ EncodeFixed64 packed) (length header)).

(** The space allocated for it. *)
Definition lookup_needed (user_key : Slice) : nat := (length user_key + 13)%nat.

Definition lookup_memtable_key (k : LookupKey) : Slice := lookup_bytes k.
Definition lookup_internal_key (k : LookupKey) : Slice := drop (lookup_kstart k) (lookup_bytes k).
Definition lookup_user_key (k : LookupKey) : Slice :=
  take (length (lookup_bytes k) - lookup_kstart k - 8) (drop (lookup_kstart k) (lookup_bytes k)).

(** ** The order of internal keys *)

Section comparator.
Context (user_comparator : Comparator).

Definition InternalCompare (akey bkey : Slice) : option Z :=
  ua ← ExtractUserKey akey;
  ub ← ExtractUserKey bkey;
  r ← @Compare user_comparator ua ub;
  if r =? 0 then
    anum ← DecodeFixed64 (drop (length akey - 8) akey);
    bnum ← DecodeFixed64 (drop (length bkey - 8) bkey);
    Some (if bnum <? anum then -1 else if anum <? bnum then 1 else r)
  else Some r.

(** [assert(Compare(a, b) < 0)] *)
Definition assert_less (a b : Slice) : option unit :=
  r ← InternalCompare a b; if r <? 0 then Some tt else None.

(** [tmp.size() < user.size() && Compare(user, tmp) < 0] *)
Definition shorter_and_larger (user tmp : Slice) : option bool :=
  if (length tmp <? length user)%nat then
    r ← @Compare user_comparator user tmp; Some (r <? 0)
  else Some false.

Definition InternalFindShortestSeparator (start limit : Slice) : option Slice :=
  user_start ← ExtractUserKey start;
  user_limit ← ExtractUserKey limit;
  tmp ← @FindShortestSeparator user_comparator user_start user_limit;
  b ← shorter_and_larger user_start tmp;
  if b : bool then
    packed ← PackSequenceAndType kMaxSequenceNumber kValueTypeForSeek;
    let tmp := PutFixed64 tmp packed in
    _ ← assert_less start tmp;
    _ ← assert_less tmp limit;
    Some tmp
  else Some start.

Definition InternalFindShortSuccessor (key : Slice) : option Slice :=
  user_key ← ExtractUserKey key;
  tmp ← @FindShortSuccessor user_comparator user_key;
  b ← shorter_and_larger user_key tmp;
  if b : bool then
    packed ← PackSequenceAndType kMaxSequenceNumber kValueTypeForSeek;
    let tmp := PutFixed64 tmp packed in
    _ ← assert_less key tmp;
    Some tmp
  else Some key.

Definition InternalKeyComparator : Comparator := {|
  Name := "leveldb.InternalKeyComparator";
  Compare := InternalCompare;
  FindShortestSeparator := InternalFindShortestSeparator;
  FindShortSuccessor := InternalFindShortSuccessor
|}.

End comparator.

(** ** Parsing *)

(** An internal key is a user key and eight bytes. *)
Definition internal (u : Slice) (n : Z) : Slice := u ++ EncodeFixed64 n.

Lemma internal_length u n : length (internal u n) = (length u + 8)%nat.
Proof. unfold internal. by rewrite length_app, EncodeFixed64_length. Qed.

Lemma ExtractUserKey_internal u n : ExtractUserKey (internal u n) = Some u.
Proof.
  unfold ExtractUserKey. rewrite internal_length. destruct (Nat.leb_spec 8 (length u + 8)); [|lia].
  f_equal. unfold internal. rewrite take_app_length'; [done|lia].
Qed.

Lemma internal_number u n :
  0 <= n < 2 ^ 64 ->
  DecodeFixed64 (drop (length (internal u n) - 8) (internal u n)) = Some n.
Proof.
  intros Hn. rewrite internal_length. unfold internal. rewrite drop_app_length' by lia.
  pose proof (DecodeFixed64_EncodeFixed64 n [] Hn) as H. by rewrite app_nil_r in H.
Qed.

Lemma PackSequenceAndType_eq seq t :
  0 <= seq <= kMaxSequenceNumber -> 0 <= t <= kTypeValue ->
  PackSequenceAndType seq t = Some (256 * seq + t) /\ 0 <= 256 * seq + t < 2 ^ 64.
Proof.
  unfold kMaxSequenceNumber, kTypeValue. intros Hs Ht. unfold PackSequenceAndType.
  destruct (Z.leb_spec seq kMaxSequenceNumber); [|unfold kMaxSequenceNumber in *; lia].
  destruct (Z.leb_spec t kValueTypeForSeek); [|unfold kValueTypeForSeek, kTypeValue in *; lia].
  cbn [andb]. split; [|lia]. f_equal.
  rewrite uwrap_small by (rewrite Z.shiftl_mul_pow2 by lia; lia).
  rewrite Z.lor_comm, lor_shiftl_add by lia. lia.
Qed.

Lemma unpack seq t :
  0 <= t < 256 -> Z.land (256 * seq + t) 0xff = t /\ Z.shiftr (256 * seq + t) 8 = seq.
Proof.
  intros Ht. rewrite land_255, Z.shiftr_div_pow2 by lia. change (2 ^ 8) with 256. split.
  - symmetry. apply Z.mod_unique with seq; lia.
  - symmetry. apply Z.div_unique with t; lia.
Qed.

Lemma AppendInternalKey_eq result u s t :
  0 <= s <= kMaxSequenceNumber -> 0 <= t <= kTypeValue ->
  AppendInternalKey result (mk_parsed u s t) = Some (result ++ internal u (256 * s + t)).
Proof.
  intros Hs Ht. unfold AppendInternalKey. cbn [sequence type user_key].
  destruct (PackSequenceAndType_eq s t Hs Ht) as [-> _]. cbn [mbind option_bind].
  unfold PutFixed64, internal. by rewrite app_assoc.
Qed.

Lemma ParseInternalKey_eq u s t :
  0 <= 256 * s + t < 2 ^ 64 -> 0 <= t < 256 ->
  ParseInternalKey (internal u (256 * s + t)) = Some (t <=? kTypeValue, Some (mk_parsed u s t)).
Proof.
  intros Hn Ht. unfold ParseInternalKey. rewrite internal_number by done.
  rewrite internal_length. destruct (Nat.ltb_spec (length u + 8) 8); [lia|].
  cbn [mbind option_bind]. destruct (unpack s t Ht) as [-> ->]. do 4 f_equal.
  unfold internal. rewrite take_app_length'; [done|lia].
Qed.

(** The bytes of a lookup key, and that they fit in the space allocated. *)
Lemma make_LookupKey_eq u s :
  0 <= s <= kMaxSequenceNumber -> Z.of_nat (length u) + 8 < 2 ^ 32 ->
  exists k, make_LookupKey u s = Some k /\
    lookup_memtable_key k = PutLengthPrefixedSlice [] (internal u (256 * s + 1)) /\
    lookup_internal_key k = internal u (256 * s + 1) /\ lookup_user_key k = u /\
    (length (lookup_bytes k) <= lookup_needed u)%nat.
Proof.
  intros Hs Hl. unfold make_LookupKey. change kValueTypeForSeek with 1.
  destruct (PackSequenceAndType_eq s 1 Hs ltac:(done)) as [-> _]. cbn [mbind option_bind].
  eexists. split; [done|]. cbn [lookup_bytes lookup_kstart].
  unfold lookup_memtable_key, lookup_internal_key, lookup_user_key, PutLengthPrefixedSlice, PutVarint32.
  cbn [lookup_bytes lookup_kstart app]. fold (internal u (256 * s + 1)).
  rewrite internal_length, uwrap_small, EncodeVarint32_eq by lia.
  rewrite uwrap_small, EncodeVarint32_eq by lia.
  replace (Z.of_nat (length u + 8)) with (Z.of_nat (length u) + 8) by lia.
  rewrite drop_app_length, length_app, internal_length.
  split; [done|]. split; [done|]. split.
  - unfold internal. rewrite take_app_length'; [done|lia].
  - unfold lookup_needed. pose proof (varint_bytes_length_32 (Z.of_nat (length u) + 8)). lia.
Qed.

(** ** The order *)

Section laws.
Context (C : Comparator) {L : ComparatorLaws C}.

Abbreviation icompare := (InternalCompare C).

(** Larger numbers come first. *)
Definition compare_number (a b : Z) : Z := if b <? a then -1 else if a <? b then 1 else 0.

Lemma InternalCompare_eq u a v b :
  0 <= a < 2 ^ 64 -> 0 <= b < 2 ^ 64 ->
  icompare (internal u a) (internal v b) =
  r ← @Compare C u v; Some (if r =? 0 then compare_number a b else r).
Proof.
  intros Ha Hb. unfold InternalCompare. rewrite !ExtractUserKey_internal. cbn [mbind option_bind].
  destruct (@Compare C u v) as [r|]; [|done]. cbn [mbind option_bind].
  destruct (Z.eqb_spec r 0) as [->|]; [|done]. by rewrite !internal_number.
Qed.

Definition internal_valid (k : Slice) : Prop :=
  exists u n, k = internal u n /\ valid u /\ 0 <= n < 2 ^ 64.

Lemma max_packed :
  PackSequenceAndType kMaxSequenceNumber kValueTypeForSeek = Some (2 ^ 64 - 255).
Proof. done. Qed.

Lemma shorter_and_larger_ok u v :
  valid u -> valid v -> exists b, shorter_and_larger C u v = Some b /\
  (b = true -> exists r, @Compare C u v = Some r /\ r < 0).
Proof.
  intros Hu Hv. unfold shorter_and_larger. destruct (_ <? _)%nat; [|by exists false].
  destruct (compare_total u v Hu Hv) as [r Hr]. rewrite Hr. cbn [mbind option_bind].
  eexists. split; [done|]. intros Hlt%Z.ltb_lt. by exists r.
Qed.

Lemma assert_less_ok u a v b r :
  0 <= a < 2 ^ 64 -> 0 <= b < 2 ^ 64 -> @Compare C u v = Some r -> r < 0 ->
  icompare (internal u a) (internal v b) = Some r /\
  assert_less C (internal u a) (internal v b) = Some tt.
Proof.
  intros Ha Hb Hr Hlt. unfold assert_less. rewrite InternalCompare_eq, Hr by done.
  cbn [mbind option_bind]. destruct (Z.eqb_spec r 0); [lia|].
  split; [done|]. destruct (Z.ltb_spec r 0); [done|lia].
Qed.

(** The assertions of the two functions hold, and the results lie where the
    contract says. *)
Lemma internal_separator start limit :
  internal_valid start -> internal_valid limit ->
  exists s, InternalFindShortestSeparator C start limit = Some s /\ internal_valid s /\
    (s = start \/ (exists r1 r2, icompare start s = Some r1 /\ r1 < 0 /\
                                icompare s limit = Some r2 /\ r2 < 0)).
Proof.
  intros (u & a & -> & Hu & Ha) (v & b & -> & Hv & Hb). unfold InternalFindShortestSeparator.
  rewrite !ExtractUserKey_internal. cbn [mbind option_bind].
  destruct (separator_between u v Hu Hv) as (t & -> & Ht & Hsep). cbn [mbind option_bind].
  destruct (shorter_and_larger_ok u t Hu Ht) as (l & -> & Hl). cbn [mbind option_bind].
  assert (internal_valid (internal u a)) by (by exists u, a).
  destruct l; [|by eexists; auto]. destruct (Hl eq_refl) as (r & Hr & Hlt).
  rewrite max_packed. cbn [mbind option_bind]. unfold PutFixed64. fold (internal t (2 ^ 64 - 255)).
  destruct Hsep as [->|(r1 & r2 & _ & _ & H2 & Hlt2)].
  { rewrite compare_refl in Hr by done. injection Hr as <-. lia. }
  destruct (assert_less_ok u a t (2 ^ 64 - 255) r ltac:(lia) ltac:(lia) Hr Hlt) as [E1 ->].
  destruct (assert_less_ok t (2 ^ 64 - 255) v b r2 ltac:(lia) ltac:(lia) H2 Hlt2) as [E2 ->].
  cbn [mbind option_bind]. eexists. split; [done|]. split; [by exists t, (2 ^ 64 - 255)|].
  right. by exists r, r2.
Qed.

Lemma internal_successor key :
  internal_valid key ->
  exists s, InternalFindShortSuccessor C key = Some s /\ internal_valid s /\
    (s = key \/ exists r, icompare key s = Some r /\ r < 0).
Proof.
  intros (u & a & -> & Hu & Ha). unfold InternalFindShortSuccessor.
  rewrite ExtractUserKey_internal. cbn [mbind option_bind].
  destruct (successor_after u Hu) as (t & r1 & -> & Ht & _ & _). cbn [mbind option_bind].
  destruct (shorter_and_larger_ok u t Hu Ht) as (l & -> & Hl). cbn [mbind option_bind].
  assert (internal_valid (internal u a)) by (by exists u, a).
  destruct l; [|by eexists; auto]. destruct (Hl eq_refl) as (r & Hr & Hlt).
  rewrite max_packed. cbn [mbind option_bind]. unfold PutFixed64. fold (internal t (2 ^ 64 - 255)).
  destruct (assert_less_ok u a t (2 ^ 64 - 255) r ltac:(lia) ltac:(lia) Hr Hlt) as [E1 ->].
  cbn [mbind option_bind]. eexists. split; [done|]. split; [by exists t, (2 ^ 64 - 255)|].
  right. by exists r.
Qed.

Lemma compare_number_flip a b : Z.sgn (compare_number b a) = - Z.sgn (compare_number a b).
Proof. unfold compare_number. destruct (Z.ltb_spec a b), (Z.ltb_spec b a); done || lia. Qed.

#[export] Program Instance InternalKeyComparator_laws : ComparatorLaws (InternalKeyComparator C) := {|
  valid := internal_valid
|}.
Next Obligation.
  intros a b (u & m & -> & Hu & Hm) (v & n & -> & Hv & Hn). cbn.
  rewrite InternalCompare_eq by done. destruct (compare_total u v Hu Hv) as [r ->]. by eexists.
Qed.
Next Obligation.
  intros a (u & m & -> & Hu & Hm). cbn. rewrite InternalCompare_eq, compare_refl by done.
  cbn. unfold compare_number. by rewrite Z.ltb_irrefl.
Qed.
Next Obligation.
  intros a b r r' (u & m & -> & Hu & Hm) (v & n & -> & Hv & Hn). cbn.
  rewrite !InternalCompare_eq by done.
  destruct (compare_total u v Hu Hv) as [x Hx], (compare_total v u Hv Hu) as [y Hy].
  rewrite Hx, Hy. cbn [mbind option_bind]. intros [= <-] [= <-].
  pose proof (compare_antisym u v x y Hu Hv Hx Hy).
  destruct (Z.eqb_spec x 0) as [->|], (Z.eqb_spec y 0) as [->|]; try (cbn in *; lia).
  apply compare_number_flip.
Qed.
Next Obligation.
  intros a b c r1 r2 (u & m & -> & Hu & Hm) (v & n & -> & Hv & Hn) (w & k & -> & Hw & Hk). cbn.
  rewrite !InternalCompare_eq by done.
  destruct (compare_total u v Hu Hv) as [x Hx], (compare_total v w Hv Hw) as [y Hy].
  rewrite Hx, Hy. cbn [mbind option_bind]. intros [= <-] [= <-] H1 H2.
  assert (x <= 0 /\ y <= 0) as [Hx0 Hy0].
  { destruct (Z.eqb_spec x 0), (Z.eqb_spec y 0); lia. }
  destruct (compare_trans u v w x y Hu Hv Hw Hx Hy Hx0 Hy0) as (z & -> & Hz & Hlt).
  cbn [mbind option_bind]. eexists. split; [done|].
  assert (z = 0 -> x = 0 /\ y = 0) as Hz0 by lia.
  destruct (Z.eqb_spec z 0) as [->|]; [|split; [lia|intros; lia]].
  destruct (Hz0 eq_refl) as [-> ->]. cbn [Z.eqb] in *. unfold compare_number in *.
  repeat match goal with
  | H : context [?p <? ?q] |- _ => destruct (Z.ltb_spec p q)
  | |- context [?p <? ?q] => destruct (Z.ltb_spec p q)
  end; lia.
Qed.
Next Obligation.
  intros start limit Hs Hl. destruct (internal_separator start limit Hs Hl) as (s & E & Hv & H).
  exists s. split; [done|]. split; [done|]. destruct H as [->|(r1 & r2 & E1 & ? & E2 & ?)]; [by left|].
  right. exists r1, r2. repeat split; done || lia.
Qed.
Next Obligation.
  intros key Hk. destruct (internal_successor key Hk) as (s & E & Hv & H).
  destruct H as [->|(r & Hr & Hlt)].
  - destruct Hk as (u & n & -> & Hu & Hn). exists (internal u n), 0. split; [done|].
    split; [done|]. split; [|done]. cbn. rewrite InternalCompare_eq, compare_refl by done.
    cbn. unfold compare_number. by rewrite Z.ltb_irrefl.
  - exists s, r. repeat split; done || lia.
Qed.

Lemma shorter_length u t b : shorter_and_larger C u t = Some b -> b = true -> (length t < length u)%nat.
Proof. unfold shorter_and_larger. destruct (Nat.ltb_spec (length t) (length u)); [done|by intros [= <-]]. Qed.

#[export] Program Instance InternalKeyComparator_short `{!ShortKeys C} : ShortKeys (InternalKeyComparator C).
Next Obligation.
  intros Hsk k (u & n & -> & Hu & _). apply Forall_app.
  split; [by apply valid_bytes|apply EncodeFixed64_bytes].
Qed.
Next Obligation.
  intros _ start limit s (u & a & -> & Hu & Ha) (v & b & -> & Hv & Hb). cbn.
  unfold InternalFindShortestSeparator. rewrite !ExtractUserKey_internal. cbn [mbind option_bind].
  destruct (separator_between u v Hu Hv) as (t & -> & Ht & _). cbn [mbind option_bind].
  destruct (shorter_and_larger C u t) as [l|] eqn:El; [|done]. cbn [mbind option_bind].
  destruct l; [|by intros [= <-]]. pose proof (shorter_length _ _ _ El eq_refl).
  rewrite max_packed. cbn [mbind option_bind]. destruct (assert_less C (internal u a) _); [|by cbn].
  cbn [mbind option_bind]. destruct (assert_less C _ _); [|by cbn]. intros [= <-]. unfold PutFixed64.
  rewrite internal_length, length_app, EncodeFixed64_length. lia.
Qed.
Next Obligation.
  intros _ key s (u & a & -> & Hu & Ha). cbn. unfold InternalFindShortSuccessor.
  rewrite ExtractUserKey_internal. cbn [mbind option_bind].
  destruct (FindShortSuccessor u) as [t|] eqn:E; [|done]. cbn [mbind option_bind].
  destruct (shorter_and_larger C u t) as [l|] eqn:El; [|done]. cbn [mbind option_bind].
  destruct l; [|by intros [= <-]]. pose proof (shorter_length _ _ _ El eq_refl).
  rewrite max_packed. cbn [mbind option_bind]. destruct (assert_less C _ _); [|by cbn]. cbn [mbind option_bind].
  intros [= <-]. unfold PutFixed64. rewrite internal_length, length_app, EncodeFixed64_length. lia.
Qed.

End laws.
