(* ===== verification/SkipList.v ===== *)
(** * Random numbers and the skip list (random.h, skiplist.h)

    The generator of Park and Miller, with the division by [2^31 - 1] replaced by
    shifts: a call takes the seed and returns its result with the next seed.  The
    skip list of the memtable, which draws the heights of its nodes from it. *)

From Stdlib Require Import ZArith Lia.
From stdpp Require Import base option list strings gmap.
From S2P Require Import Prelude.

(** [2^31 - 1] *)
Definition M31 : Z := 2147483647.
Definition A16807 : Z := 16807.

(** The constructor. *)
Definition Random (s : Z) : Z :=
  let seed := Z.land s 0x7fffffff in
  if (seed =? 0) || (seed =? 2147483647) then 1 else seed.

Definition Random_Next (seed : Z) : Z :=
  let product := u64 (seed * A16807) in
  let seed := u32 (Z.shiftr product 31 + Z.land product M31) in
  if M31 <? seed then u32 (seed - M31) else seed.

(** [n] is converted to [uint32_t]; [None] is the division by zero. *)
Definition Uniform (n seed : Z) : option (Z * Z) :=
  let r := Random_Next seed in
  if u32 n =? 0 then None else Some (r mod u32 n, r).

Definition OneIn (n seed : Z) : option (bool * Z) :=
  r ← Uniform n seed; Some (fst r =? 0, snd r).

(** [1 << i] on [int]. *)
Definition shift_one (i : Z) : option Z := if i <? 31 then Some (Z.shiftl 1 i) else None.

Definition Skewed (max_log seed : Z) : option (Z * Z) :=
  r ← Uniform (max_log + 1) seed;
  n ← shift_one (fst r);
  Uniform n (snd r).

(** The seeds the generator goes through. *)
Definition good_seed (seed : Z) : Prop := 1 <= seed < M31.

Lemma land_M31 x : Z.land x M31 = x mod 2 ^ 31.
Proof. change M31 with (Z.ones 31). by rewrite Z.land_ones by lia. Qed.

Lemma Random_good s : 0 <= s < 2 ^ 32 -> good_seed (Random s).
Proof.
  intros Hs. unfold good_seed, Random. cbv zeta. fold M31. change 0x7fffffff with M31.
  rewrite land_M31. pose proof (Z.mod_pos_bound s (2 ^ 31) ltac:(lia)).
  destruct (Z.eqb_spec (s mod 2 ^ 31) 0), (Z.eqb_spec (s mod 2 ^ 31) M31); unfold M31 in *; cbn [orb]; lia.
Qed.

(** Multiplication by [16807] loses no seed: it is prime to the modulus. *)
Lemma product_not_multiple seed : good_seed seed -> (seed * A16807) mod M31 <> 0.
Proof.
  intros Hs Hz. apply Z.mod_divide in Hz; [|done]. rewrite Z.mul_comm in Hz.
  apply Z.gauss in Hz; [|reflexivity].
  apply Z.divide_pos_le in Hz; unfold good_seed in *; lia.
Qed.

Lemma Next_mod seed : good_seed seed -> Random_Next seed = (seed * A16807) mod M31.
Proof.
  intros Hs. pose proof (product_not_multiple seed Hs) as Hnz. unfold good_seed in Hs.
  unfold Random_Next. cbv zeta.
  assert (0 <= seed * A16807 < M31 * A16807) as Hp by (unfold A16807; lia).
  rewrite (uwrap_small 64) by (unfold M31, A16807 in *; lia).
  rewrite land_M31, Z.shiftr_div_pow2 by lia.
  generalize dependent (seed * A16807). intros p Hnz Hp.
  pose proof (Z.div_mod p (2 ^ 31) ltac:(lia)) as Hdm.
  pose proof (Z.mod_pos_bound p (2 ^ 31) ltac:(lia)) as Hm.
  assert (0 <= p / 2 ^ 31 <= A16807) as Hd.
  { split; [apply Z.div_pos; lia|]. apply Z.div_le_upper_bound; unfold M31, A16807 in *; lia. }
  set (hi := p / 2 ^ 31) in *. set (lo := p mod 2 ^ 31) in *.
  rewrite (uwrap_small 32 (hi + lo)) by (unfold A16807 in *; lia).
  assert (hi + lo <> M31) as Hne.
  { intros E. apply Hnz. symmetry. apply Z.mod_unique with (hi + 1); unfold M31 in *; lia. }
  destruct (Z.ltb_spec M31 (hi + lo)).
  - rewrite uwrap_small by (unfold M31, A16807 in *; lia).
    apply Z.mod_unique with (hi + 1); unfold M31, A16807 in *; lia.
  - apply Z.mod_unique with hi; unfold M31 in *; lia.
Qed.

Lemma Next_good seed : good_seed seed -> good_seed (Random_Next seed).
Proof.
  intros Hs. pose proof (product_not_multiple seed Hs). rewrite Next_mod by done.
  pose proof (Z.mod_pos_bound (seed * A16807) M31 ltac:(done)). unfold good_seed. lia.
Qed.

(** * The skip list of the memtable (skiplist.h)

    Nodes live in a heap of their own and are named by the order of their
    allocation.  Insertion is composed of the single stores to shared memory that
    other threads can see, in the order of the code. *)

(** A key and a link per level: [None] is a link that has not been initialized,
    [Some None] the null pointer. *)
Record Node (Key : Type) := mk_node {
  node_key : Key;
  node_next : list (option (option nat))
}.
Arguments mk_node {Key} _ _.
Arguments node_key {Key} _.
Arguments node_next {Key} _.

(** The class members; [sl_allocated] counts the nodes taken from the arena. *)
Record SkipList (Key : Type) := mk_skiplist {
  sl_nodes : gmap nat (Node Key);
  sl_allocated : nat;
  sl_head : nat;
  sl_max_height : nat;
  sl_rnd : Z
}.
Arguments mk_skiplist {Key} _ _ _ _ _.
Arguments sl_nodes {Key} _.
Arguments sl_allocated {Key} _.
Arguments sl_head {Key} _.
Arguments sl_max_height {Key} _.
Arguments sl_rnd {Key} _.

Definition kMaxHeight : nat := 12.
Definition kBranching : Z := 4.

Section skiplist.
Context {Key : Type} (compare_ : Key -> Key -> Z) (any_key : Key).

Abbreviation SL := (SkipList Key).

(** [assert] *)
Definition assertion (b : bool) : M SL unit := if b then ret tt else ub.

Definition node_at (x : nat) : M SL (Node Key) :=
  let! n := gets (fun s => sl_nodes s !! x) in or_ub n.

(** Dereferencing a pointer. *)
Definition deref (p : option nat) : M SL nat := or_ub p.

(** ** Nodes *)

(** [Next] and [NoBarrier_Next]. *)
Definition Node_Next (x n : nat) : M SL (option nat) :=
  let! nd := node_at x in or_ub (mjoin (node_next nd !! n)).

(** [SetNext] and [NoBarrier_SetNext]. *)
Definition SetNext (x n : nat) (y : option nat) : M SL unit :=
  let! nd := node_at x in
  if (n <? length (node_next nd))%nat then
    modify (fun s =>
      mk_skiplist
        (<[x := mk_node (node_key nd) (<[n := Some y]> (node_next nd))]> (sl_nodes s))
        (sl_allocated s) (sl_head s) (sl_max_height s) (sl_rnd s))
  else ub.

Definition NewNode (key : Key) (height : nat) : M SL nat :=
  let! x := gets sl_allocated in
  modify (fun s =>
    mk_skiplist (<[x := mk_node key (replicate height None)]> (sl_nodes s))
      (S (sl_allocated s)) (sl_head s) (sl_max_height s) (sl_rnd s)) ;;;
  ret x.

(** [while (height < kMaxHeight && (rnd_.Next() % kBranching) == 0) height++;] *)
Definition RandomHeight : M SL nat :=
  let! height := loop kMaxHeight (fun height =>
    if (height <? kMaxHeight)%nat then
      let! r := gets (fun s => Random_Next (sl_rnd s)) in
      modify (fun s => mk_skiplist (sl_nodes s) (sl_allocated s) (sl_head s) (sl_max_height s) r) ;;;
      if r mod kBranching =? 0 then ret (inl (S height)) else ret (inr height)
    else ret (inr height)) 1%nat in
  assertion (0 <? height)%nat ;;;
  assertion (height <=? kMaxHeight)%nat ;;;
  ret height.

Definition Equal (a b : Key) : bool := compare_ a b =? 0.

Definition KeyIsAfterNode (key : Key) (n : option nat) : M SL bool :=
  match n with
  | None => ret false
  | Some n => let! nd := node_at n in ret (compare_ (node_key nd) key <? 0)
  end.

(** ** Searching *)

(** The loops end: a round moves on in a list or goes down a level. *)
Definition search_fuel (s : SL) : nat := S (sl_max_height s + sl_allocated s).

(** A round of [FindGreaterOrEqual]: node, level and the array [prev]. *)
Definition find_round (key : Key) : nat * nat * option (list (option nat)) ->
    M SL (nat * nat * option (list (option nat)) + option nat * option (list (option nat))) :=
  fun '(x, level, prev) =>
    let! next := Node_Next x level in
    let! after := KeyIsAfterNode key next in
    if after : bool then let! next := deref next in ret (inl (next, level, prev))
    else
      let prev := (fun p => <[level := Some x]> p) <$> prev in
      match level with
      | O => ret (inr (next, prev))
      | S level => ret (inl (x, level, prev))
      end.

Definition FindGreaterOrEqual (key : Key) (prev : option (list (option nat)))
    : M SL (option nat * option (list (option nat))) :=
  let! x := gets sl_head in
  let! height := gets sl_max_height in
  let! fuel := gets search_fuel in
  loop fuel (find_round key) (x, height - 1, prev)%nat.

Definition FindLessThan (key : Key) : M SL nat :=
  let! head := gets sl_head in
  let! height := gets sl_max_height in
  let! fuel := gets search_fuel in
  loop fuel (fun '(x, level) =>
    let! nd := node_at x in
    assertion ((x =? head)%nat || (compare_ (node_key nd) key <? 0)) ;;;
    let! next := Node_Next x level in
    let! stop := match next with
                 | None => ret true
                 | Some n => let! nd := node_at n in ret (0 <=? compare_ (node_key nd) key)
                 end in
    if stop : bool then
      match level with O => ret (inr x) | S level => ret (inl (x, level)) end
    else let! next := deref next in ret (inl (next, level))) (head, height - 1)%nat.

Definition FindLast : M SL nat :=
  let! head := gets sl_head in
  let! height := gets sl_max_height in
  let! fuel := gets search_fuel in
  loop fuel (fun '(x, level) =>
    let! next := Node_Next x level in
    match next with
    | None => match level with O => ret (inr x) | S level => ret (inl (x, level)) end
    | Some next => ret (inl (next, level))
    end) (head, height - 1)%nat.

Definition Contains (key : Key) : M SL bool :=
  let! r := FindGreaterOrEqual key None in
  match fst r with
  | Some x => let! nd := node_at x in ret (Equal key (node_key nd))
  | None => ret false
  end.

(** ** Insertion *)

(** [for (i = GetMaxHeight(); i < height; i++) prev[i] = head_;] *)
Definition raise_prev (from height head : nat) (prev : list (option nat)) : list (option nat) :=
  foldl (fun p i => <[i := Some head]> p) prev (seq from (height - from)).

(** Up to the new node, which no other node refers to: the one store that can be
    seen is that of the height. *)
Definition prepare (key : Key) : M SL (nat * nat * list (option nat)) :=
  let! r := FindGreaterOrEqual key (Some (replicate kMaxHeight None)) in
  let! prev := or_ub (snd r) in
  match fst r with
  | Some x => let! nd := node_at x in assertion (negb (Equal key (node_key nd)))
  | None => ret tt
  end ;;;
  let! height := RandomHeight in
  let! max_height := gets sl_max_height in
  let! head := gets sl_head in
  let! prev :=
    if (max_height <? height)%nat then
      modify (fun s =>
        mk_skiplist (sl_nodes s) (sl_allocated s) (sl_head s) height (sl_rnd s)) ;;;
      ret (raise_prev max_height height head prev)
    else ret prev in
  let! x := NewNode key height in
  ret (x, height, prev).

(** [x->NoBarrier_SetNext(i, prev[i]->NoBarrier_Next(i))] *)
Definition link_node (x i : nat) (prev : list (option nat)) : M SL unit :=
  let! p := or_ub (mjoin (prev !! i)) in
  let! next := Node_Next p i in
  SetNext x i next.

(** [prev[i]->SetNext(i, x)] *)
Definition publish (x i : nat) (prev : list (option nat)) : M SL unit :=
  let! p := or_ub (mjoin (prev !! i)) in
  SetNext p i (Some x).

Definition Insert (key : Key) : M SL unit :=
  let! r := prepare key in
  let '(x, height, prev) := r in
  loop (S height) (fun i =>
    if (i <? height)%nat then
      link_node x i prev ;;; publish x i prev ;;; ret (inl (S i))
    else ret (inr tt)) 0%nat.

(** The constructor: a head of full height with null links. *)
Definition SkipList_new : SL :=
  mk_skiplist {[ 0%nat := mk_node any_key (replicate kMaxHeight (Some None)) ]}
    1 0 1 (Random 0xdeadbeef).

(** ** Iterators *)

(** [node_]; the list is the state. *)
Definition Iterator_new : option nat := None.
Definition Iterator_Valid (node : option nat) : bool := bool_decide (is_Some node).

Definition Iterator_key (node : option nat) : M SL Key :=
  let! x := deref node in let! nd := node_at x in ret (node_key nd).

Definition Iterator_Next (node : option nat) : M SL (option nat) :=
  let! x := deref node in Node_Next x 0.

(** [if (node_ == list_->head_) node_ = NULL;] *)
Definition not_head (x : nat) : M SL (option nat) :=
  let! head := gets sl_head in ret (if (x =? head)%nat then None else Some x).

Definition Iterator_Prev (node : option nat) : M SL (option nat) :=
  let! x := deref node in
  let! nd := node_at x in
  let! p := FindLessThan (node_key nd) in
  not_head p.

Definition Iterator_Seek (target : Key) : M SL (option nat) :=
  let! r := FindGreaterOrEqual target None in ret (fst r).

Definition Iterator_SeekToFirst : M SL (option nat) :=
  let! head := gets sl_head in Node_Next head 0.

Definition Iterator_SeekToLast : M SL (option nat) :=
  let! x := FindLast in not_head x.

End skiplist.
