(* ===== verification/SkipSearch.v ===== *)
(** * Searching a skip list

    What a skip list is: the lists of its levels, each a sublist of the one below,
    the lowest one sorted.  On every state that is one the searches end, load no
    uninitialized link, and return what they return on the lowest list. *)

From Stdlib Require Import ZArith Lia Sorted.
From stdpp Require Import base option list sorting strings gmap.
From S2P Require Import Prelude SkipList.

(** ** Lists *)

Lemma sublist_Forall {A} (P : A -> Prop) l1 l2 : sublist l1 l2 -> Forall P l2 -> Forall P l1.
Proof. rewrite !Forall_forall. intros Hs H x Hx. eapply H, elem_of_sublist; done. Qed.

Lemma sublist_StronglySorted {A} (R : A -> A -> Prop) l1 l2 :
  sublist l1 l2 -> StronglySorted R l2 -> StronglySorted R l1.
Proof.
  induction 1 as [|x l1 l2 Hs IH|x l1 l2 Hs IH]; [done| |]; intros [H1 H2]%StronglySorted_inv.
  - constructor; [by apply IH|]. by eapply sublist_Forall.
  - by apply IH.
Qed.

Lemma elem_mid {A} (x : A) p t : x ∈ p ++ x :: t.
Proof. apply elem_of_app. right. apply list_elem_of_here. Qed.

Lemma elem_left {A} (x : A) p t : x ∈ p -> x ∈ p ++ t.
Proof. intros H. apply elem_of_app. by left. Qed.

Lemma elem_right {A} (x y : A) p t : x ∈ t -> x ∈ p ++ y :: t.
Proof. intros H. apply elem_of_app. right. by apply list_elem_of_further. Qed.

#[local] Hint Resolve elem_mid elem_left elem_right list_elem_of_here list_elem_of_further : core.

Lemma filter_length_le {A} (f g : A -> bool) l :
  (forall x, x ∈ l -> g x = true -> f x = true) ->
  (length (List.filter g l) <= length (List.filter f l))%nat.
Proof.
  induction l as [|x l IH]; intros H; [done|]. cbn.
  assert (length (List.filter g l) <= length (List.filter f l))%nat by (apply IH; auto).
  destruct (g x) eqn:E; [rewrite H by auto; cbn; lia|]. destruct (f x); cbn; lia.
Qed.

Lemma filter_length_lt {A} (f g : A -> bool) l z :
  (forall x, x ∈ l -> g x = true -> f x = true) -> z ∈ l -> f z = true -> g z = false ->
  (length (List.filter g l) < length (List.filter f l))%nat.
Proof.
  intros H Hz Hf Hg. apply list_elem_of_split in Hz as (p & t & ->).
  rewrite !List.filter_app, !length_app. cbn. rewrite Hf, Hg. cbn.
  assert (length (List.filter g p) <= length (List.filter f p))%nat
    by (apply filter_length_le; auto).
  assert (length (List.filter g t) <= length (List.filter f t))%nat
    by (apply filter_length_le; auto). lia.
Qed.

(** ** Orders *)

(** A strict weak order on the keys that are [good]. *)
Class KeyOrder {Key} (compare_ : Key -> Key -> Z) (good : Key -> Prop) := {
  key_flip a b : good a -> good b -> compare_ a b < 0 <-> 0 < compare_ b a;
  key_trans a b c : good a -> good b -> good c ->
    compare_ a b <= 0 -> compare_ b c <= 0 -> compare_ a c <= 0
}.

Section search.
Context {Key : Type} (compare_ : Key -> Key -> Z) (good : Key -> Prop).
Context {KO : KeyOrder compare_ good}.

Abbreviation SL := (SkipList Key).

Lemma key_lt_le_trans a b c : good a -> good b -> good c ->
  compare_ a b < 0 -> compare_ b c <= 0 -> compare_ a c < 0.
Proof.
  intros Ha Hb Hc H1 H2.
  assert (compare_ a c <= 0) by (apply (key_trans a b c); done || lia).
  destruct (Z.eqb_spec (compare_ a c) 0) as [E|]; [|lia].
  pose proof (key_flip a c Ha Hc). pose proof (key_flip a b Ha Hb).
  assert (compare_ b a <= 0) by (apply (key_trans b c a); done || lia). lia.
Qed.

Lemma key_le_lt_trans a b c : good a -> good b -> good c ->
  compare_ a b <= 0 -> compare_ b c < 0 -> compare_ a c < 0.
Proof.
  intros Ha Hb Hc H1 H2.
  assert (compare_ a c <= 0) by (apply (key_trans a b c); done || lia).
  destruct (Z.eqb_spec (compare_ a c) 0) as [E|]; [|lia].
  pose proof (key_flip a c Ha Hc). pose proof (key_flip b c Hb Hc).
  assert (compare_ c b <= 0) by (apply (key_trans c a b); done || lia). lia.
Qed.

Lemma key_lt_trans a b c : good a -> good b -> good c ->
  compare_ a b < 0 -> compare_ b c < 0 -> compare_ a c < 0.
Proof. intros Ha Hb Hc H1 H2. apply (key_lt_le_trans a b c); done || lia. Qed.

(** ** Links and lists *)

Definition key_of (s : SL) (x : nat) : option Key := node_key <$> sl_nodes s !! x.

Definition link (s : SL) (l x : nat) : option (option nat) :=
  nd ← sl_nodes s !! x; mjoin (node_next nd !! l).

(** From [x], the links of level [l] lead through [ids] to the end. *)
Fixpoint chain (s : SL) (l x : nat) (ids : list nat) : Prop :=
  match ids with
  | [] => link s l x = Some None
  | y :: ids => link s l x = Some (Some y) /\ chain s l y ids
  end.

Definition node_lt (s : SL) (x y : nat) : Prop :=
  exists a b, key_of s x = Some a /\ key_of s y = Some b /\ compare_ a b < 0.

(** The key of the node comes before [k]. *)
Definition before (s : SL) (k : Key) (x : nat) : bool :=
  match key_of s x with Some a => compare_ a k <? 0 | None => false end.

(** [L l] is the list of level [l]. *)
Record sk_inv (s : SL) (L : nat -> list nat) : Prop := mk_sk_inv {
  inv_chain l : (l < kMaxHeight)%nat -> chain s l (sl_head s) (L l);
  inv_sub l : sublist (L (S l)) (L l);
  inv_top l : (sl_max_height s <= l)%nat -> L l = [];
  inv_height : (1 <= sl_max_height s <= kMaxHeight)%nat;
  inv_keys : Forall (fun x => exists k, key_of s x = Some k /\ good k) (L 0%nat);
  inv_sorted : StronglySorted (node_lt s) (L 0%nat);
  inv_head : sl_head s ∉ L 0%nat;
  inv_alloc x : is_Some (sl_nodes s !! x) <-> (x < sl_allocated s)%nat;
  inv_rnd : good_seed (sl_rnd s)
}.

(** The specification of the searches on the lowest list. *)
Definition first_at_least (s : SL) (L : nat -> list nat) (k : Key) : option nat :=
  hd_error (List.filter (fun x => negb (before s k x)) (L 0%nat)).

(** The last node of level [l] before [k], or the head. *)
Definition predecessor (s : SL) (L : nat -> list nat) (k : Key) (l : nat) : nat :=
  List.last (List.filter (before s k) (L l)) (sl_head s).

Lemma Node_Next_eq x l n (s : SL) : link s l x = Some n -> Node_Next x l s = Ok n s.
Proof.
  unfold link, Node_Next, node_at. intros H. rewrite bind_assoc, bind_gets.
  destruct (sl_nodes s !! x) as [nd|]; [|done]. cbn in H. cbn [or_ub]. rewrite bind_ret.
  by rewrite H.
Qed.

Lemma node_at_eq x k (s : SL) :
  key_of s x = Some k -> exists nd, node_at x s = Ok nd s /\ node_key nd = k.
Proof.
  unfold key_of, node_at. intros H. rewrite bind_gets.
  destruct (sl_nodes s !! x) as [nd|]; [|done]. injection H as <-. by exists nd.
Qed.

Lemma chain_app s l x p y t : chain s l x (p ++ y :: t) -> chain s l y t.
Proof.
  revert x. induction p as [|z p IH]; intros x; cbn [app chain].
  - by intros [_ H].
  - intros [_ H]. by eapply IH.
Qed.

Context (s : SL) (L : nat -> list nat) (I : sk_inv s L).

Lemma level_sub l : sublist (L l) (L 0%nat).
Proof.
  induction l as [|l IH]; [done|]. etrans; [apply (inv_sub _ _ I)|done].
Qed.

Lemma level_sorted l : StronglySorted (node_lt s) (L l).
Proof. eapply sublist_StronglySorted; [apply level_sub|apply I]. Qed.

Lemma level_keys l : Forall (fun x => exists k, key_of s x = Some k /\ good k) (L l).
Proof. eapply sublist_Forall; [apply level_sub|apply I]. Qed.

Lemma level_key l x : x ∈ L l -> exists k, key_of s x = Some k /\ good k.
Proof. pose proof (level_keys l) as H. rewrite Forall_forall in H. apply H. Qed.

Lemma before_trans k x y :
  good k -> x ∈ L 0%nat -> y ∈ L 0%nat -> node_lt s x y -> before s k y = true -> before s k x = true.
Proof.
  intros Hk Hx Hy (a & b & Ha & Hb & Hlt). unfold before. rewrite Ha, Hb. rewrite !Z.ltb_lt.
  destruct (level_key 0 x Hx) as (a' & Ha' & Ga). destruct (level_key 0 y Hy) as (b' & Hb' & Gb).
  rewrite Ha in Ha'. injection Ha' as <-. rewrite Hb in Hb'. injection Hb' as <-.
  by apply key_lt_trans.
Qed.

(** The list of a level, cut behind one of its nodes or the head. *)
Lemma level_cut l x :
  (l < kMaxHeight)%nat -> x ∈ sl_head s :: L l ->
  exists p t, L l = p ++ t /\ List.last p (sl_head s) = x /\ chain s l x t.
Proof.
  intros Hl Hx. pose proof (inv_chain _ _ I l Hl) as Hc.
  apply elem_of_cons in Hx as [->|Hx]; [by exists [], (L l)|].
  apply list_elem_of_split in Hx as (p & t & E). exists (p ++ [x]), t.
  rewrite E, <- app_assoc. split; [done|]. split; [apply last_last|].
  rewrite E in Hc. by eapply chain_app.
Qed.

Lemma level_below l x : x ∈ L l -> x ∈ L 0%nat.
Proof. intros Hx. eapply elem_of_sublist; [exact Hx|apply level_sub]. Qed.

(** Seen from a node that a search for [k] has reached, what is in front of it is
    before [k]. *)
Lemma level_split k l x :
  good k -> (l < kMaxHeight)%nat -> x ∈ sl_head s :: L l -> x = sl_head s \/ before s k x = true ->
  exists p t, L l = p ++ t /\ List.last p (sl_head s) = x /\ chain s l x t /\
              Forall (fun y => before s k y = true) p.
Proof.
  intros Hk Hl Hx Hb. destruct (level_cut l x Hl Hx) as (p & t & E & Hlast & Hc).
  exists p, t. do 3 (split; [done|]).
  destruct p as [|z p] using rev_ind; [constructor|clear IHp]. rewrite last_last in Hlast. subst z.
  assert (x ∈ L l) as Hxl by (rewrite E; auto).
  assert (before s k x = true) as Hbx.
  { destruct Hb as [->|]; [|done]. exfalso. by apply (inv_head _ _ I), (level_below l). }
  pose proof (level_sorted l) as Hs. rewrite E in Hs. apply StronglySorted_app_1_l in Hs.
  apply Forall_app. split; [|by repeat constructor]. apply Forall_forall. intros y Hy.
  apply (before_trans k y x); try done; try (apply (level_below l); rewrite E; auto).
  eapply StronglySorted_app_1_elem_of; [exact Hs|done|auto].
Qed.

(** Where a search leaves a level. *)
Lemma level_stop k l x n :
  good k -> (l < kMaxHeight)%nat -> x ∈ sl_head s :: L l -> x = sl_head s \/ before s k x = true ->
  link s l x = Some n -> match n with Some y => before s k y = false | None => True end ->
  x = predecessor s L k l /\
  n = hd_error (List.filter (fun x => negb (before s k x)) (L l)).
Proof.
  intros Hk Hl Hx Hb Hn Hstop.
  destruct (level_split k l x Hk Hl Hx Hb) as (p & t & E & Hlast & Hc & Hp).
  unfold predecessor. rewrite E, !List.filter_app.
  rewrite (filter_all _ p) by done.
  rewrite (filter_none (fun x => negb (before s k x)) p)
    by (eapply Forall_impl; [exact Hp|]; cbn; by intros y ->).
  destruct t as [|y t]; cbn [chain] in Hc.
  - rewrite Hc in Hn. injection Hn as <-. cbn. by rewrite app_nil_r.
  - destruct Hc as [Hy _]. rewrite Hy in Hn. injection Hn as <-.
    pose proof (level_sorted l) as Hs. rewrite E in Hs. apply StronglySorted_app_1_r in Hs.
    apply StronglySorted_inv in Hs as [_ Hs].
    assert (Forall (fun z => before s k z = false) t) as Ht.
    { apply Forall_forall. intros z Hz. apply not_true_is_false. intros Hbz.
      rewrite Forall_forall in Hs. specialize (Hs z Hz).
      rewrite (before_trans k y z) in Hstop; try done; apply (level_below l); rewrite E; auto. }
    cbn [List.filter]. rewrite Hstop. cbn [negb hd_error]. rewrite (filter_none _ t Ht).
    by rewrite app_nil_r.
Qed.

(** The next node is one of the level. *)
Lemma level_next l x :
  (l < kMaxHeight)%nat -> x ∈ sl_head s :: L l ->
  exists n, link s l x = Some n /\
  match n with Some y => y ∈ L l /\ (x = sl_head s \/ node_lt s x y) | None => True end.
Proof.
  intros Hl Hx. destruct (level_cut l x Hl Hx) as (p & t & E & Hlast & Hc).
  destruct t as [|y t]; cbn [chain] in Hc; [by exists None|]. destruct Hc as [Hy _].
  exists (Some y). split; [done|]. split; [rewrite E; auto|].
  destruct p as [|z p] using rev_ind; [by left|]. rewrite last_last in Hlast. subst z. right.
  pose proof (level_sorted l) as Hs. rewrite E in Hs.
  eapply StronglySorted_app_1_elem_of; [exact Hs|auto|auto].
Qed.

(** How many nodes are behind [x]. *)
Definition behind (x y : nat) : bool :=
  (x =? sl_head s)%nat ||
  match key_of s x, key_of s y with Some a, Some b => compare_ a b <? 0 | _, _ => false end.

Definition rank (x : nat) : nat := length (List.filter (behind x) (L 0%nat)).

Lemma rank_le x : (rank x <= length (L 0%nat))%nat.
Proof. apply List.filter_length_le. Qed.

Lemma rank_next l x y :
  (x ∈ sl_head s :: L l) -> y ∈ L l -> (x = sl_head s \/ node_lt s x y) -> (rank y < rank x)%nat.
Proof.
  intros Hx Hy Hxy.
  assert (y ∈ L 0%nat) as Hy0 by (eapply elem_of_sublist; [exact Hy|apply level_sub]).
  assert ((y =? sl_head s)%nat = false) as Hyh.
  { apply Nat.eqb_neq. intros ->. by apply (inv_head _ _ I). }
  destruct (level_key 0 y Hy0) as (b & Hb & Gb).
  apply (filter_length_lt _ _ _ y); [|done| |].
  - intros z Hz. unfold behind. rewrite Hyh. cbn [orb]. destruct Hxy as [->|(a & b' & Ha & Hb' & Hlt)].
    { by rewrite Nat.eqb_refl. }
    rewrite Hb in Hb'. injection Hb' as <-. rewrite Ha, Hb.
    destruct (level_key 0 z Hz) as (c & Hc & Gc). rewrite Hc. rewrite Z.ltb_lt. intros Hbc.
    destruct (Nat.eqb_spec x (sl_head s)) as [|Hne]; [done|]. apply Z.ltb_lt.
    apply elem_of_cons in Hx as [|Hx]; [done|]. destruct (level_key l x Hx) as (a' & Ha' & Ga).
    rewrite Ha in Ha'. injection Ha' as <-. by apply (key_lt_trans a b c).
  - unfold behind. destruct Hxy as [->|(a & b' & Ha & Hb' & Hlt)]; [by rewrite Nat.eqb_refl|].
    rewrite Ha, Hb'. apply orb_true_intro. right. by apply Z.ltb_lt.
  - unfold behind. rewrite Hyh, Hb. cbn [orb]. pose proof (key_flip b b Gb Gb).
    destruct (Z.ltb_spec (compare_ b b) 0); [lia|done].
Qed.

(** ** The searches *)

Lemma KeyIsAfterNode_eq k n :
  match n with Some y => is_Some (key_of s y) | None => True end ->
  KeyIsAfterNode compare_ k n s =
  Ok (match n with Some y => before s k y | None => false end) s.
Proof.
  destruct n as [y|]; [|done]. intros [a Ha]. unfold KeyIsAfterNode.
  destruct (node_at_eq y a s Ha) as (nd & E & Hk). rewrite (bind_ok _ _ _ _ _ E).
  unfold before. by rewrite Ha, Hk.
Qed.

Lemma height_level l : (l < sl_max_height s)%nat -> (l < kMaxHeight)%nat.
Proof. pose proof (inv_height _ _ I). lia. Qed.

Lemma sublist_NoDup {A} (l1 l2 : list A) : sublist l1 l2 -> NoDup l2 -> NoDup l1.
Proof.
  induction 1 as [|x l1 l2 Hs IH|x l1 l2 Hs IH]; [done| |]; intros [Hx Hn]%NoDup_cons.
  - constructor; [|by apply IH]. intros Hin. apply Hx. by eapply elem_of_sublist.
  - by apply IH.
Qed.

Lemma level_nodup l : NoDup (sl_head s :: L l).
Proof.
  constructor; [intros Hin; by apply (inv_head _ _ I), (level_below l)|].
  eapply sublist_NoDup; [apply level_sub|].
  pose proof (inv_sorted _ _ I) as Hs. pose proof (inv_keys _ _ I) as Hk.
  induction (L 0%nat) as [|x t IH]; [constructor|]. apply StronglySorted_inv in Hs as [Hs Hx].
  apply Forall_cons in Hk as [_ Hk].
  constructor; [|by apply IH]. intros Hin. rewrite Forall_forall in Hx.
  destruct (Hx x Hin) as (a & b & Ha & Hb & Hlt). rewrite Ha in Hb. injection Hb as <-.
  rewrite Forall_forall in Hk. destruct (Hk x Hin) as (c & Hc & Gc). rewrite Ha in Hc.
  injection Hc as <-. pose proof (key_flip a a Gc Gc). lia.
Qed.

(** The nodes of the lists are among the allocated ones. *)
Lemma level_length : (length (L 0%nat) <= sl_allocated s)%nat.
Proof.
  pose proof (level_nodup 0) as Hn. apply NoDup_cons in Hn as [_ Hn].
  assert (L 0%nat ⊆+ seq 0 (sl_allocated s)) as Hsub.
  2:{ apply submseteq_length in Hsub. by rewrite length_seq in Hsub. }
  apply NoDup_submseteq; [done|]. intros x Hx. apply elem_of_seq. destruct (level_key 0 x Hx) as (a & Ha & _).
  unfold key_of in Ha. apply fmap_Some in Ha as (nd & Hnd & _).
  assert (is_Some (sl_nodes s !! x)) as Hx' by eauto. apply (inv_alloc _ _ I) in Hx'. lia.
Qed.

(** Where a search stands. *)
Definition at_level (k : Key) (x level : nat) : Prop :=
  (level < sl_max_height s)%nat /\ x ∈ sl_head s :: L level /\
  (x = sl_head s \/ before s k x = true).

Lemma at_level_start k : at_level k (sl_head s) (sl_max_height s - 1).
Proof. pose proof (inv_height _ _ I). split; [lia|]. auto. Qed.

Lemma at_level_next k x level y :
  at_level k x level -> y ∈ L level -> before s k y = true -> at_level k y level.
Proof. intros (Hl & Hx & Hb) Hy Hby. split; [done|]. auto. Qed.

Lemma at_level_down k x level : at_level k x (S level) -> at_level k x level.
Proof.
  intros (Hl & Hx & Hb). split; [lia|]. split; [|done].
  apply elem_of_cons in Hx as [->|Hx]; [auto|]. apply list_elem_of_further.
  eapply elem_of_sublist; [exact Hx|apply (inv_sub _ _ I)].
Qed.

(** The link a search follows, and what it leads to. *)
Lemma level_link x level :
  (level < sl_max_height s)%nat -> x ∈ sl_head s :: L level ->
  exists n, Node_Next x level s = Ok n s /\ link s level x = Some n /\
    match n with
    | Some y => is_Some (key_of s y) /\ y ∈ L level /\ (rank y < rank x)%nat
    | None => True
    end.
Proof.
  intros Hl Hx.
  destruct (level_next level x (height_level _ Hl) Hx) as (n & Hn & Hy).
  exists n. split; [by apply Node_Next_eq|]. split; [done|]. destruct n as [y|]; [|done].
  destruct Hy as [Hy Hlt]. destruct (level_key level y Hy) as (a & Ha & _).
  split; [by exists a|]. split; [done|]. by eapply rank_next.
Qed.

(** The part of the array [prev] that a search has filled. *)
Definition prev_filled (k : Key) (level : nat) (prev0 prev : option (list (option nat))) : Prop :=
  match prev0, prev with
  | None, None => True
  | Some _, Some p =>
      length p = kMaxHeight /\
      forall l, (level <= l < sl_max_height s)%nat -> p !! l = Some (Some (predecessor s L k l))
  | _, _ => False
  end.

Lemma prev_filled_insert k level prev0 prev :
  (level < kMaxHeight)%nat -> prev_filled k (S level) prev0 prev ->
  prev_filled k level prev0 ((fun p => <[level := Some (predecessor s L k level)]> p) <$> prev).
Proof.
  intros Hl. unfold prev_filled. destruct prev0, prev as [p|]; cbn; try done. intros [Hp H].
  split; [by rewrite length_insert|]. intros j Hj. destruct (decide (j = level)) as [->|].
  - apply list_lookup_insert_eq. lia.
  - rewrite list_lookup_insert_ne by done. apply H. lia.
Qed.

(** One round: it moves on in the list, goes down a level, or ends with the
    answer. *)
Lemma find_round_eq k x level prev :
  good k -> at_level k x level ->
  let filled := (fun p => <[level := Some (predecessor s L k level)]> p) <$> prev in
  exists r, find_round compare_ k (x, level, prev) s = Ok r s /\
  match r with
  | inl (x', level', prev') =>
      at_level k x' level' /\ (rank x' + level' < rank x + level)%nat /\
      (level' = level /\ prev' = prev \/ level = S level' /\ prev' = filled)
  | inr (n, prev') => level = 0%nat /\ n = first_at_least s L k /\ prev' = filled
  end.
Proof.
  intros Hk Hat. cbv zeta. pose proof Hat as (Hl & Hx & Hb). unfold find_round.
  destruct (level_link x level Hl Hx) as (n & En & Hn & Hy).
  rewrite (bind_ok _ _ _ _ _ En).
  rewrite (bind_ok _ _ _ _ _ (KeyIsAfterNode_eq k n ltac:(by destruct n; [destruct Hy|]))).
  apply height_level in Hl.
  assert (forall n, link s level x = Some n ->
    match n with Some y => before s k y = false | None => True end ->
    exists r,
      (match level with
       | O => ret (inr (n, (fun p => <[level := Some x]> p) <$> prev))
       | S level' => ret (inl (x, level', (fun p => <[level := Some x]> p) <$> prev))
       end) s = Ok r s /\
      match r with
      | inl (x', level', prev') =>
          at_level k x' level' /\ (rank x' + level' < rank x + level)%nat /\
          (level' = level /\ prev' = prev \/ level = S level' /\
           prev' = (fun p => <[level := Some (predecessor s L k level)]> p) <$> prev)
      | inr (n, prev') => level = 0%nat /\ n = first_at_least s L k /\
          prev' = (fun p => <[level := Some (predecessor s L k level)]> p) <$> prev
      end) as Hdown.
  { intros n' Hn' Hstop. destruct (level_stop k level x n' Hk Hl Hx Hb Hn' Hstop) as [E Hfirst].
    rewrite <- E. destruct level as [|level]; eexists; split; try reflexivity; [done|].
    split; [by apply at_level_down|]. split; [lia|]. by right. }
  destruct n as [y|]; [destruct (before s k y) eqn:Hby|]; [|by apply Hdown..].
  destruct Hy as (_ & Hy & Hr). cbn [deref or_ub]. rewrite bind_ret. eexists. split; [reflexivity|].
  split; [by eapply at_level_next|]. split; [lia|]. by left.
Qed.

(** [FindGreaterOrEqual] returns the first node whose key is not before [k], and
    fills [prev] with the last node before [k] of every level in use. *)
Lemma FindGreaterOrEqual_eq k prev0 :
  good k -> match prev0 with Some p => length p = kMaxHeight | None => True end ->
  exists prev, FindGreaterOrEqual compare_ k prev0 s = Ok (first_at_least s L k, prev) s /\
               prev_filled k 0 prev0 prev.
Proof.
  intros Hk Hp0. unfold FindGreaterOrEqual. rewrite !bind_gets.
  assert (wp (loop (search_fuel s) (find_round compare_ k)
      (sl_head s, (sl_max_height s - 1)%nat, prev0))
    (fun r s' => s' = s /\ fst r = first_at_least s L k /\ prev_filled k 0 prev0 (snd r))
    (fun _ => False) s) as H.
  { apply (wp_loop (fun a s' => s' = s /\ let '(x, level, prev) := a in
        at_level k x level /\ prev_filled k (S level) prev0 prev)
      (fun a _ => let '(x, level, _) := a in rank x + level)%nat).
    2:{ split; [done|]. split; [apply at_level_start|]. destruct prev0 as [p|]; [|done].
        split; [done|]. intros l Hl. pose proof (inv_height _ _ I). lia. }
    2:{ pose proof (rank_le (sl_head s)). pose proof level_length. unfold search_fuel.
        pose proof (inv_height _ _ I). lia. }
    intros [[x level] prev] s' (-> & Hat & Hprev).
    destruct (find_round_eq k x level prev Hk Hat) as (r & E & Hr). eapply wp_ok; [exact E|].
    apply prev_filled_insert in Hprev as Hfilled; [|apply height_level, Hat].
    destruct r as [[[x' level'] prev']|[n prev']].
    - destruct Hr as (Hat' & Hlt & [[-> ->]|[-> ->]]); (split; [by split; [|split]|lia]).
    - destruct Hr as (-> & -> & ->). by split. }
  destruct (wp_inv _ _ _ _ H) as [([n prev] & s' & E & -> & Hn & Hp)|(s' & _ & [])].
  cbn in Hn, Hp. subst n. by exists prev.
Qed.

(** The loop of [FindLessThan] and [FindLast]: it moves on while [go] holds, and
    ends on the last node of the lowest list for which it does. *)
Lemma descend (body : nat * nat -> M SL (nat * nat + nat)) (go : nat -> bool) (at_ : nat -> nat -> Prop)
    (result : nat) :
  at_ (sl_head s) (sl_max_height s - 1)%nat ->
  (forall x level, at_ x level -> (level < sl_max_height s)%nat /\ x ∈ sl_head s :: L level) ->
  (forall x level, at_ x (S level) -> at_ x level) ->
  (forall x level y, at_ x level -> y ∈ L level -> go y = true -> at_ y level) ->
  (forall x level n, at_ x level -> link s level x = Some n ->
     match n with Some y => is_Some (key_of s y) | None => True end ->
     let go_on := match n with Some y => go y | None => false end in
     (go_on = false -> level = 0%nat -> x = result) /\
     body (x, level) s =
     match n with
     | Some y => if go y then Ok (inl (y, level)) s else
                 match level with O => Ok (inr x) s | S level => Ok (inl (x, level)) s end
     | None => match level with O => Ok (inr x) s | S level => Ok (inl (x, level)) s end
     end) ->
  loop (search_fuel s) body (sl_head s, (sl_max_height s - 1)%nat) s = Ok result s.
Proof.
  intros Hstart Hin Hdown Hnext Hbody.
  assert (wp (loop (search_fuel s) body (sl_head s, (sl_max_height s - 1)%nat))
    (fun r s' => s' = s /\ r = result) (fun _ => False) s) as H.
  { apply (wp_loop (fun a s' => s' = s /\ at_ (fst a) (snd a)) (fun a _ => rank (fst a) + snd a)%nat).
    2:{ by split. }
    2:{ cbn. pose proof (rank_le (sl_head s)). pose proof level_length. unfold search_fuel.
        pose proof (inv_height _ _ I). lia. }
    intros [x level] s' (-> & Hat). cbn [fst snd] in *. destruct (Hin _ _ Hat) as [Hl Hx].
    destruct (level_link x level Hl Hx) as (n & _ & Hn & Hy).
    destruct (Hbody x level n Hat Hn) as [Hres E]; [by destruct n; [destruct Hy|]|].
    unfold wp. rewrite E. destruct n as [y|]; [destruct (go y) eqn:Hgo|].
    - destruct Hy as (_ & Hy & Hr). cbn. split; [|lia]. split; [done|]. by eapply Hnext.
    - destruct level as [|level]; [by split; [|apply Hres]|]. cbn. split; [|lia]. auto.
    - destruct level as [|level]; [by split; [|apply Hres]|]. cbn. split; [|lia]. auto. }
  by destruct (wp_inv _ _ _ _ H) as [(r & s' & E & -> & ->)|(s' & _ & [])].
Qed.

(** [FindLessThan] returns the last node before [k], or the head; its assertion
    holds. *)
Lemma FindLessThan_eq k :
  good k -> is_Some (sl_nodes s !! sl_head s) ->
  FindLessThan compare_ k s = Ok (predecessor s L k 0) s.
Proof.
  intros Hk [hd Hhd]. unfold FindLessThan. rewrite !bind_gets.
  apply (descend _ (before s k) (at_level k)).
  - apply at_level_start.
  - by intros x level (? & ? & ?).
  - apply at_level_down.
  - intros x level y Hat Hy Hgo. by eapply at_level_next.
  - intros x level n Hat Hn Hkey. pose proof Hat as (Hl & Hx & Hb). apply height_level in Hl. cbv zeta.
    split.
    + intros Hstop ->. assert (match n with Some y => before s k y = false | None => True end) as Hs
        by by destruct n.
      by destruct (level_stop k 0 x n Hk Hl Hx Hb Hn Hs) as [-> _].
    + assert (exists nd, node_at x s = Ok nd s /\
        ((x =? sl_head s)%nat || (compare_ (node_key nd) k <? 0)) = true) as (nd & E & Ha).
      { destruct Hb as [->|Hb].
        - exists hd. unfold node_at. by rewrite bind_gets, Hhd, Nat.eqb_refl.
        - unfold before in Hb. destruct (key_of s x) as [a|] eqn:Ha; [|done].
          destruct (node_at_eq x a s Ha) as (nd & E & <-). exists nd. split; [done|].
          by rewrite Hb, orb_true_r. }
      rewrite (bind_ok _ _ _ _ _ E), Ha. cbn [assertion]. rewrite bind_ret.
      rewrite (bind_ok _ _ _ _ _ (Node_Next_eq _ _ _ _ Hn)).
      destruct n as [y|]; [|rewrite bind_ret; by destruct level].
      destruct Hkey as [b Hb']. destruct (node_at_eq y b s Hb') as (ny & Ey & Hny).
      rewrite bind_assoc, (bind_ok _ _ _ _ _ Ey), bind_ret.
      unfold before. rewrite Hb', Hny.
      destruct (Z.leb_spec 0 (compare_ b k)), (Z.ltb_spec (compare_ b k) 0); try lia.
      * by destruct level.
      * cbn [deref or_ub]. by rewrite bind_ret.
Qed.

(** [FindLast] returns the last node, or the head. *)
Lemma FindLast_eq : FindLast s = Ok (List.last (L 0%nat) (sl_head s)) s.
Proof.
  unfold FindLast. rewrite !bind_gets.
  apply (descend _ (fun _ => true) (fun x level => (level < sl_max_height s)%nat /\ x ∈ sl_head s :: L level)).
  - pose proof (inv_height _ _ I). split; [lia|auto].
  - done.
  - intros x level [Hl Hx]. split; [lia|]. apply elem_of_cons in Hx as [->|Hx]; [auto|].
    apply list_elem_of_further. eapply elem_of_sublist; [exact Hx|apply (inv_sub _ _ I)].
  - intros x level y [Hl _] Hy _. auto.
  - intros x level n [Hl Hx] Hn _. cbv zeta. split.
    + intros Hstop ->. destruct n as [y|]; [done|].
      destruct (level_cut 0 x (height_level _ Hl) Hx) as (p & t & E & Hlast & Hc).
      destruct t as [|y t]; [by rewrite E, app_nil_r|]. destruct Hc as [Hc _].
      rewrite Hc in Hn. done.
    + rewrite (bind_ok _ _ _ _ _ (Node_Next_eq _ _ _ _ Hn)). destruct n; [done|by destruct level].
Qed.

End search.
