(* ===== verification/SkipInsert.v ===== *)
(** * Insertion into a skip list

    Every single store of [Insert] turns a skip list into a skip list: a node is
    linked from the lowest level up, and only into lists that it is missing
    from. *)

From Stdlib Require Import ZArith Lia Sorted.
From stdpp Require Import base option list sorting strings gmap.
From S2P Require Import Prelude SkipList SkipSearch.

Section insert.
Context {Key : Type} (compare_ : Key -> Key -> Z) (good : Key -> Prop).
Context {KO : KeyOrder compare_ good}.

Abbreviation SL := (SkipList Key).
Abbreviation sk_inv := (sk_inv compare_ good).
Abbreviation before := (before compare_).
Abbreviation predecessor := (predecessor compare_).
Abbreviation node_lt := (node_lt compare_).

(** ** Lists *)

(** The list with [x] at the place of the key [k]. *)
Definition insert_at (s : SL) (k : Key) (x : nat) (l : list nat) : list nat :=
  List.filter (before s k) l ++ x :: List.filter (fun y => negb (before s k y)) l.

(** The lists when [x] has been linked into the levels below [i]. *)
Definition linked (s : SL) (k : Key) (x i : nat) (L : nat -> list nat) (l : nat) : list nat :=
  if (l <? i)%nat then insert_at s k x (L l) else L l.

Lemma sublist_filter {A} (f : A -> bool) l1 l2 :
  sublist l1 l2 -> sublist (List.filter f l1) (List.filter f l2).
Proof.
  induction 1 as [|x l1 l2 _ IH|x l1 l2 _ IH]; cbn; [constructor| |].
  - destruct (f x); [by constructor|done].
  - destruct (f x); [by constructor|done].
Qed.

Lemma elem_of_filter_bool {A} (f : A -> bool) x l : x ∈ List.filter f l <-> x ∈ l /\ f x = true.
Proof. rewrite !list_elem_of_In. apply filter_In. Qed.

(** ** What stores change *)

Lemma chain_ext (s s' : SL) l a ids :
  (forall y, y ∈ a :: ids -> link s' l y = link s l y) -> chain s l a ids -> chain s' l a ids.
Proof.
  revert a. induction ids as [|y ids IH]; intros a H; cbn [chain].
  - by rewrite H by left.
  - intros [H1 H2]. rewrite H by left. split; [done|]. apply IH; [|done].
    intros z Hz. apply H. by right.
Qed.

(** A new node behind the last node of [p]. *)
Lemma chain_insert (s s' : SL) l a p t x :
  NoDup (a :: p ++ t) -> x ∉ a :: p ++ t ->
  (forall y, y <> List.last p a -> link s' l y = link s l y) ->
  link s' l (List.last p a) = Some (Some x) -> link s l x = Some (hd_error t) ->
  chain s l a (p ++ t) -> chain s' l a (p ++ x :: t).
Proof.
  revert a. induction p as [|z p IH]; intros a Hn Hx Hother Hlast Hlink.
  - cbn [app List.last] in *. intros Hc. cbn [chain]. split; [done|].
    assert (x <> a) as Hxa by (intros ->; apply Hx; by left).
    destruct t as [|y t]; cbn [chain hd_error] in *; [by rewrite Hother|].
    destruct Hc as [_ Hc]. rewrite Hother by done. split; [done|].
    eapply chain_ext; [|exact Hc]. intros w Hw. apply Hother. intros ->.
    by apply NoDup_cons in Hn as [Hn _].
  - cbn [app chain]. intros [Ha Hc].
    assert (List.last (z :: p) a = List.last p z) as El.
    { clear. destruct p as [|w p] using rev_ind; [done|]. by rewrite app_comm_cons, !last_last. }
    rewrite El in *. apply NoDup_cons in Hn as [Hna Hn]. split.
    + rewrite Hother; [done|]. intros ->. apply Hna.
      destruct p as [|w p] using rev_ind; [by left|]. rewrite last_last. right. apply elem_left, elem_mid.
    + apply IH; try done. intros Hin. apply Hx. by right.
Qed.

(** What a store to a link leaves: everything but that link. *)
Record relinked (x n : nat) (v : option nat) (s s' : SL) : Prop := mk_relinked {
  rl_key y : key_of s' y = key_of s y;
  rl_link : link s' n x = Some v;
  rl_other l y : (l, y) <> (n, x) -> link s' l y = link s l y;
  rl_dom y : is_Some (sl_nodes s' !! y) <-> is_Some (sl_nodes s !! y);
  rl_length y : (fun nd => length (node_next nd)) <$> sl_nodes s' !! y =
                (fun nd => length (node_next nd)) <$> sl_nodes s !! y;
  rl_head : sl_head s' = sl_head s;
  rl_height : sl_max_height s' = sl_max_height s;
  rl_allocated : sl_allocated s' = sl_allocated s;
  rl_rnd : sl_rnd s' = sl_rnd s
}.

Lemma SetNext_ok x n v (s : SL) nd :
  sl_nodes s !! x = Some nd -> (n < length (node_next nd))%nat ->
  exists s', SetNext x n v s = Ok tt s' /\ relinked x n v s s'.
Proof.
  intros Hx Hn. unfold SetNext, node_at. rewrite bind_assoc, bind_gets, Hx.
  cbn [or_ub]. rewrite bind_ret. destruct (Nat.ltb_spec n (length (node_next nd))); [|lia].
  eexists. split; [reflexivity|]. split; cbn; try done.
  - intros y. unfold key_of. cbn. rewrite lookup_insert. case_decide as E; [|done].
    subst. by rewrite Hx.
  - unfold link. cbn. rewrite lookup_insert, decide_True by done. cbn.
    by rewrite list_lookup_insert_eq.
  - intros l y Hne. unfold link. cbn. rewrite lookup_insert. case_decide as E; [|done].
    subst. rewrite Hx. cbn. by rewrite list_lookup_insert_ne by congruence.
  - intros y. rewrite lookup_insert. case_decide as E; [|done]. subst. rewrite Hx. split; by eexists.
  - intros y. rewrite lookup_insert. case_decide as E; [|done]. subst. rewrite Hx. cbn.
    by rewrite length_insert.
Qed.

Lemma key_of_before (s s' : SL) k y :
  key_of s' y = key_of s y -> before s' k y = before s k y.
Proof. unfold before. by intros ->. Qed.

Lemma filter_ext_before (s s' : SL) k l :
  (forall y, y ∈ l -> key_of s' y = key_of s y) ->
  List.filter (before s' k) l = List.filter (before s k) l /\
  List.filter (fun y => negb (before s' k y)) l = List.filter (fun y => negb (before s k y)) l.
Proof.
  intros H. split; apply List.filter_ext_in; intros y Hy%list_elem_of_In;
    by rewrite (key_of_before s s' k y (H y Hy)).
Qed.

(** A change that keeps keys, and the links along the lists, keeps a skip list. *)
Lemma sk_inv_ext (s s' : SL) L L' :
  sk_inv s L ->
  (forall y, y ∈ L 0%nat -> key_of s' y = key_of s y) ->
  sl_head s' = sl_head s -> (sl_max_height s <= sl_max_height s' <= kMaxHeight)%nat ->
  (forall l, (l < kMaxHeight)%nat -> chain s' l (sl_head s) (L l)) ->
  (forall y, is_Some (sl_nodes s' !! y) <-> (y < sl_allocated s')%nat) ->
  good_seed (sl_rnd s') -> (forall l, L' l = L l) -> sk_inv s' L'.
Proof.
  intros I Hk Hh Hmax Hc Ha Hr HL. pose proof (inv_height _ _ _ _ I) as Hih.
  split; intros; rewrite ?HL, ?Hh; auto.
  - apply (inv_sub _ _ _ _ I).
  - apply (inv_top _ _ _ _ I). lia.
  - lia.
  - pose proof (inv_keys _ _ _ _ I) as Hg. rewrite Forall_forall in Hg |- *.
    intros y Hy. rewrite Hk by done. by apply Hg.
  - pose proof (inv_sorted _ _ _ _ I) as Hs. revert Hs. clear -Hk.
    induction (L 0%nat) as [|y l IH]; intros Hs; [constructor|].
    apply StronglySorted_inv in Hs as [Hs Hy]. constructor; [apply IH; auto; intros; apply Hk; by right|].
    apply Forall_forall. intros z Hz. rewrite Forall_forall in Hy.
    destruct (Hy z Hz) as (a & b & Ea & Eb & Hlt). exists a, b.
    rewrite !Hk; [done|by right|by left].
  - apply (inv_head _ _ _ _ I).
Qed.

(** ** Sorted lists, cut at a key *)

Lemma filter_split {A} (f : A -> bool) l :
  StronglySorted (fun x y => f y = true -> f x = true) l ->
  l = List.filter f l ++ List.filter (fun y => negb (f y)) l.
Proof.
  induction l as [|x l IH]; intros Hs; [done|]. apply StronglySorted_inv in Hs as [Hs Hx].
  cbn. destruct (f x) eqn:E; cbn [negb]; [cbn [app]; f_equal; by apply IH|].
  assert (Forall (fun y => f y = false) l) as Hf.
  { eapply Forall_impl; [exact Hx|]. cbn. intros y Hy. apply not_true_is_false. intros Hfy.
    apply Hy in Hfy. congruence. }
  rewrite (filter_none f l Hf), (filter_all _ l); [done|].
  eapply Forall_impl; [exact Hf|]. cbn. by intros y ->.
Qed.

Lemma StronglySorted_impl_in {A} (R R' : A -> A -> Prop) l :
  (forall x y, x ∈ l -> y ∈ l -> R x y -> R' x y) -> StronglySorted R l -> StronglySorted R' l.
Proof.
  intros H Hs. induction Hs as [|x l Hs IH Hx]; [constructor|]. constructor.
  - apply IH. intros y z Hy Hz. apply H; by right.
  - rewrite Forall_forall in Hx |- *. intros y Hy. apply H; [by left|by right|by apply Hx].
Qed.

Lemma before_split (s : SL) L k l :
  sk_inv s L -> good k ->
  L l = List.filter (before s k) (L l) ++ List.filter (fun y => negb (before s k y)) (L l).
Proof.
  intros I Hk. apply filter_split. eapply StronglySorted_impl_in; [|by eapply level_sorted].
  intros x y Hx Hy Hlt. eapply (before_trans _ _ s L I); try done; by eapply level_below.
Qed.

(** No node of the list has a key that compares equal. *)
Definition fresh_key (s : SL) (L : nat -> list nat) (k : Key) : Prop :=
  forall y a, y ∈ L 0%nat -> key_of s y = Some a -> compare_ a k <> 0.

Lemma insert_at_elem s k x l y : y ∈ insert_at s k x l <-> y = x \/ y ∈ l.
Proof.
  unfold insert_at. rewrite elem_of_app, elem_of_cons, !elem_of_filter_bool.
  destruct (before s k y); cbn; intuition discriminate.
Qed.

Lemma insert_at_sorted (s : SL) L k x :
  sk_inv s L -> good k -> key_of s x = Some k -> fresh_key s L k ->
  StronglySorted (node_lt s) (insert_at s k x (L 0%nat)).
Proof.
  intros I Hk Hx Hf. unfold insert_at.
  pose proof (inv_sorted _ _ _ _ I) as Hs. rewrite (before_split s L k 0 I Hk) in Hs.
  assert (forall y, y ∈ L 0%nat -> exists a, key_of s y = Some a /\ good a) as Hkey.
  { intros y. by apply (level_key _ _ s L I 0). }
  apply StronglySorted_app_2.
  - intros y z Hy Hz. apply elem_of_filter_bool in Hy as [Hy Hby].
    apply elem_of_cons in Hz as [->|Hz].
    + destruct (Hkey y Hy) as (a & Ha & _). exists a, k. split; [done|]. split; [done|].
      unfold before in Hby. rewrite Ha in Hby. lia.
    + eapply StronglySorted_app_1_elem_of; [exact Hs| |exact Hz]. by apply elem_of_filter_bool.
  - by apply StronglySorted_app_1_l in Hs.
  - apply StronglySorted_cons. split; [|by apply StronglySorted_app_1_r in Hs].
    apply Forall_forall. intros z Hz. apply elem_of_filter_bool in Hz as [Hz Hbz].
    destruct (Hkey z Hz) as (b & Hb & Gb). exists k, b. split; [done|]. split; [done|].
    unfold before in Hbz. rewrite Hb in Hbz. pose proof (Hf z b Hz Hb).
    pose proof (key_flip k b Hk Gb). destruct (Z.ltb_spec (compare_ b k) 0); [done|]. lia.
Qed.

(** ** Between the stores of an insertion *)

(** The node [x] with key [k] is linked into the levels below [i] of the skip
    list [L]. *)
Record linking (k : Key) (x height : nat) (prev : list (option nat)) (L : nat -> list nat)
    (i : nat) (s : SL) : Prop := mk_linking {
  lk_inv : sk_inv s (linked s k x i L);
  lk_sub l : sublist (L (S l)) (L l);
  lk_top l : (sl_max_height s <= l)%nat -> L l = [];
  lk_key : key_of s x = Some k;
  lk_good : good k;
  lk_new : x ∉ sl_head s :: L 0%nat;
  lk_len : (fun nd => length (node_next nd)) <$> sl_nodes s !! x = Some height;
  lk_prev j : (j < height)%nat -> prev !! j = Some (Some (predecessor s L k j));
  lk_fresh : fresh_key s L k;
  lk_height : (height <= sl_max_height s)%nat
}.

Lemma linked_at s k x i L : linked s k x i L i = L i.
Proof. unfold linked. by rewrite Nat.ltb_irrefl. Qed.

Lemma linked_below s k x i L l : (l < i)%nat -> linked s k x i L l = insert_at s k x (L l).
Proof. unfold linked. intros H. by destruct (Nat.ltb_spec l i); [|lia]. Qed.

Lemma linked_above s k x i L l : (i <= l)%nat -> linked s k x i L l = L l.
Proof. unfold linked. intros H. by destruct (Nat.ltb_spec l i); [lia|]. Qed.

(** Keys stay, so do the lists defined from them. *)
Lemma linked_ext (s s' : SL) k x i L l :
  (forall y, key_of s' y = key_of s y) -> linked s' k x i L l = linked s k x i L l.
Proof.
  intros H. unfold linked, insert_at. destruct (l <? i)%nat; [|done].
  by destruct (filter_ext_before s s' k (L l) ltac:(done)) as [-> ->].
Qed.

Lemma predecessor_ext (s s' : SL) L k j :
  (forall y, key_of s' y = key_of s y) -> sl_head s' = sl_head s ->
  predecessor s' L k j = predecessor s L k j.
Proof.
  intros H Hh. unfold SkipSearch.predecessor.
  destruct (filter_ext_before s s' k (L j) ltac:(done)) as [-> _]. by rewrite Hh.
Qed.

(** A store to a link leaves the rest of the invariant. *)
Lemma linking_relinked k x height prev L i z n v s s' i' :
  linking k x height prev L i s -> relinked z n v s s' ->
  sk_inv s' (linked s' k x i' L) -> linking k x height prev L i' s'.
Proof.
  intros H R I'. destruct H, R. split; try done.
  - intros l Hl. apply lk_top0. congruence.
  - by rewrite rl_key0.
  - by rewrite rl_head0.
  - by rewrite rl_length0.
  - intros j Hj. rewrite lk_prev0 by done. do 2 f_equal. symmetry. by apply predecessor_ext.
  - intros y a Hy. rewrite rl_key0. by apply lk_fresh0.
  - by rewrite rl_height0.
Qed.

Section step.
Context (k : Key) (x height : nat) (prev : list (option nat)) (L : nat -> list nat) (i : nat) (s : SL).
Context (H : linking k x height prev L i s) (Hi : (i < height)%nat).

Abbreviation Li := (linked s k x i L).

Lemma level_in_range : (i < sl_max_height s)%nat /\ (i < kMaxHeight)%nat.
Proof.
  pose proof (lk_height _ _ _ _ _ _ _ H). pose proof (inv_height _ _ _ _ (lk_inv _ _ _ _ _ _ _ H)). lia.
Qed.

(** The list of level [i], cut at the new key. *)
Lemma level_i_split :
  L i = List.filter (before s k) (L i) ++ List.filter (fun y => negb (before s k y)) (L i).
Proof.
  pose proof (before_split s Li k i (lk_inv _ _ _ _ _ _ _ H) (lk_good _ _ _ _ _ _ _ H)) as E.
  by rewrite linked_at in E.
Qed.

Lemma prev_i : prev !! i = Some (Some (predecessor s L k i)).
Proof. by apply (lk_prev _ _ _ _ _ _ _ H). Qed.

Lemma chain_i : chain s i (sl_head s) (L i).
Proof.
  pose proof (inv_chain _ _ _ _ (lk_inv _ _ _ _ _ _ _ H) i (proj2 level_in_range)) as Hc.
  by rewrite linked_at in Hc.
Qed.

(** The link behind the predecessor. *)
Lemma link_prev :
  link s i (predecessor s L k i) =
  Some (hd_error (List.filter (fun y => negb (before s k y)) (L i))).
Proof.
  pose proof chain_i as Hc. rewrite level_i_split in Hc. unfold SkipSearch.predecessor.
  generalize dependent (List.filter (fun y => negb (before s k y)) (L i)). intros t.
  induction (List.filter (before s k) (L i)) as [|y p _] using rev_ind; intros Hc.
  - cbn [app List.last] in *. destruct t as [|z t]; [exact Hc|]. by destruct Hc.
  - rewrite <- app_assoc in Hc. apply chain_app in Hc. rewrite last_last.
    destruct t as [|z t]; [exact Hc|]. by destruct Hc.
Qed.

Lemma link_length z n : link s i z = Some n ->
  exists nd, sl_nodes s !! z = Some nd /\ (i < length (node_next nd))%nat.
Proof.
  unfold link. intros E. destruct (sl_nodes s !! z) as [nd|]; [|done]. exists nd. split; [done|].
  cbn in E. apply lookup_lt_is_Some. destruct (node_next nd !! i); [by eexists|done].
Qed.

(** A list of the state does not contain the new node from level [i] on. *)
Lemma new_not_at l : (i <= l)%nat -> x ∉ sl_head s :: Li l.
Proof.
  intros Hl. rewrite linked_above by done. pose proof (lk_new _ _ _ _ _ _ _ H) as Hn.
  intros Hin. apply Hn. apply elem_of_cons in Hin as [->|Hin]; [by left|]. right.
  clear -Hin H. induction l as [|l IH]; [done|]. apply IH.
  eapply elem_of_sublist; [exact Hin|apply (lk_sub _ _ _ _ _ _ _ H)].
Qed.

(** The first store: the link of the new node, which no search follows yet. *)
Lemma link_node_step :
  exists s', link_node x i prev s = Ok tt s' /\ linking k x height prev L i s' /\
    relinked x i (hd_error (List.filter (fun y => negb (before s k y)) (L i))) s s'.
Proof.
  unfold link_node. rewrite prev_i. cbn [mjoin option_join or_ub]. rewrite bind_ret.
  rewrite (bind_ok _ _ _ _ _ (Node_Next_eq _ _ _ _ link_prev)).
  pose proof (lk_len _ _ _ _ _ _ _ H) as Hlen. apply fmap_Some in Hlen as (nd & Hnd & Hlen).
  destruct (SetNext_ok x i (hd_error (List.filter (fun y => negb (before s k y)) (L i))) s nd Hnd)
    as (s' & E & R); [lia|].
  exists s'. split; [done|]. split; [|done]. eapply linking_relinked; [exact H|exact R|].
  pose proof (lk_inv _ _ _ _ _ _ _ H) as I. pose proof (inv_height _ _ _ _ I).
  apply (sk_inv_ext s s' Li); auto.
  - intros y _. apply (rl_key _ _ _ _ _ R).
  - apply (rl_head _ _ _ _ _ R).
  - rewrite (rl_height _ _ _ _ _ R). lia.
  - intros l Hl. eapply chain_ext; [|by apply (inv_chain _ _ _ _ I)].
    intros y Hy. apply (rl_other _ _ _ _ _ R). intros [= -> ->]. by apply (new_not_at i) in Hy.
  - intros y. rewrite (rl_dom _ _ _ _ _ R), (rl_allocated _ _ _ _ _ R). apply (inv_alloc _ _ _ _ I).
  - rewrite (rl_rnd _ _ _ _ _ R). apply (inv_rnd _ _ _ _ I).
  - intros l. apply linked_ext. apply (rl_key _ _ _ _ _ R).
Qed.

(** The lists with the node one level higher. *)
Lemma linked_S l : l <> i -> linked s k x (S i) L l = Li l.
Proof.
  intros Hl. destruct (decide (l < i)%nat).
  - by rewrite !linked_below by lia.
  - by rewrite !linked_above by lia.
Qed.

Lemma linked_S_sub l : sublist (linked s k x (S i) L (S l)) (linked s k x (S i) L l).
Proof.
  pose proof (lk_sub _ _ _ _ _ _ _ H l) as Hs. destruct (decide (S l < S i)%nat).
  - rewrite !linked_below by lia. apply sublist_app; [by apply sublist_filter|].
    apply sublist_skip. by apply sublist_filter.
  - rewrite (linked_above _ _ _ _ _ (S l)) by lia. destruct (decide (l = i)) as [->|].
    + rewrite linked_below by lia. etrans; [exact Hs|]. rewrite level_i_split at 1.
      apply sublist_app; [done|]. by apply sublist_cons.
    + by rewrite linked_above by lia.
Qed.

(** On the lowest list either the node is new, or nothing changes. *)
Lemma linked_S_elem y : y ∈ linked s k x (S i) L 0%nat -> y = x \/ y ∈ Li 0%nat.
Proof.
  destruct (decide (i = 0%nat)) as [E|].
  - rewrite linked_below by lia. intros Hy. apply insert_at_elem in Hy as [->|Hy]; [by left|].
    right. by rewrite linked_above by lia.
  - rewrite linked_S by done. by right.
Qed.

Lemma linked_S_sorted : StronglySorted (node_lt s) (linked s k x (S i) L 0%nat).
Proof.
  pose proof (lk_inv _ _ _ _ _ _ _ H) as I. destruct (decide (i = 0%nat)) as [E|].
  - rewrite linked_below by lia. assert (L 0%nat = Li 0%nat) as -> by (by rewrite linked_above by lia).
    apply insert_at_sorted; [done|apply H..|]. intros y a Hy. apply (lk_fresh _ _ _ _ _ _ _ H).
    by rewrite linked_above in Hy by lia.
  - rewrite linked_S by done. apply I.
Qed.

Lemma publish_chains s' :
  relinked (predecessor s L k i) i (Some x) s s' ->
  link s i x = Some (hd_error (List.filter (fun y => negb (before s k y)) (L i))) ->
  forall l, (l < kMaxHeight)%nat -> chain s' l (sl_head s) (linked s k x (S i) L l).
Proof.
  intros R Hlink l Hl. pose proof (lk_inv _ _ _ _ _ _ _ H) as I.
  destruct (decide (l = i)) as [->|Hne].
  - rewrite linked_below by lia. apply (chain_insert s s').
    + rewrite <- level_i_split. pose proof (level_nodup _ _ s Li I i) as Hn. by rewrite linked_at in Hn.
    + rewrite <- level_i_split. pose proof (new_not_at i ltac:(done)) as Hn. by rewrite linked_at in Hn.
    + intros y Hy. apply (rl_other _ _ _ _ _ R). by intros [= ->].
    + apply (rl_link _ _ _ _ _ R).
    + exact Hlink.
    + rewrite <- level_i_split. apply chain_i.
  - rewrite linked_S by done. eapply chain_ext; [|by apply (inv_chain _ _ _ _ I)].
    intros y _. apply (rl_other _ _ _ _ _ R). by intros [= -> _].
Qed.

(** The second store publishes the node at level [i]. *)
Lemma publish_step :
  link s i x = Some (hd_error (List.filter (fun y => negb (before s k y)) (L i))) ->
  exists s', publish x i prev s = Ok tt s' /\ linking k x height prev L (S i) s' /\
             relinked (predecessor s L k i) i (Some x) s s'.
Proof.
  intros Hlink. unfold publish. rewrite prev_i. cbn [mjoin option_join or_ub]. rewrite bind_ret.
  destruct (link_length _ _ link_prev) as (nd & Hnd & Hlen).
  destruct (SetNext_ok (predecessor s L k i) i (Some x) s nd Hnd Hlen) as (s' & E & R).
  exists s'. split; [done|]. split; [|done]. eapply linking_relinked; [exact H|exact R|].
  pose proof (lk_inv _ _ _ _ _ _ _ H) as I. pose proof R as R'. destruct R'.
  assert (forall l, linked s' k x (S i) L l = linked s k x (S i) L l) as HL
    by (intros l; by apply linked_ext).
  split; intros; rewrite ?HL, ?rl_head0, ?rl_height0, ?rl_allocated0, ?rl_rnd0 in *.
  - by apply publish_chains.
  - apply linked_S_sub.
  - pose proof (lk_height _ _ _ _ _ _ _ H). rewrite linked_above by lia.
    by apply (lk_top _ _ _ _ _ _ _ H).
  - apply I.
  - apply Forall_forall. intros y Hy. rewrite rl_key0. apply linked_S_elem in Hy as [->|Hy].
    + exists k. split; apply H.
    + pose proof (inv_keys _ _ _ _ I) as Hk. rewrite Forall_forall in Hk. by apply Hk.
  - eapply StronglySorted_impl_in; [|apply linked_S_sorted]. intros y z _ _.
    unfold SkipSearch.node_lt. by rewrite !rl_key0.
  - intros Hin. apply linked_S_elem in Hin as [Hin|Hin]; [|by apply (inv_head _ _ _ _ I)].
    apply (lk_new _ _ _ _ _ _ _ H). rewrite Hin. by left.
  - rewrite rl_dom0. apply (inv_alloc _ _ _ _ I).
  - apply (inv_rnd _ _ _ _ I).
Qed.

End step.

(** ** The whole insertion *)

Definition with_rnd (r : Z) (s : SL) : SL :=
  mk_skiplist (sl_nodes s) (sl_allocated s) (sl_head s) (sl_max_height s) r.

(** The loop ends after at most 12 rounds, with a height that the head has. *)
Lemma RandomHeight_eq (s : SL) :
  good_seed (sl_rnd s) ->
  exists height r, RandomHeight s = Ok height (with_rnd r s) /\ good_seed r /\
                   (1 <= height <= kMaxHeight)%nat.
Proof.
  intros Hr.
  assert (wp RandomHeight (fun h s' => (1 <= h <= kMaxHeight)%nat /\
    exists r, s' = with_rnd r s /\ good_seed r) (fun _ => False) s) as H.
  { unfold RandomHeight. apply wp_bind.
    eapply wp_mono with (Q := fun h s' => (1 <= h <= kMaxHeight)%nat /\
      exists r, s' = with_rnd r s /\ good_seed r) (E := fun _ => False); [| |done].
    - apply (wp_loop (fun h s' => (1 <= h <= kMaxHeight)%nat /\
        exists r, s' = with_rnd r s /\ good_seed r) (fun h _ => kMaxHeight - h)%nat).
      + intros h s' (Hh & r & -> & Hg). destruct (Nat.ltb_spec h kMaxHeight) as [Hlt|].
        2:{ apply wp_ret. split; [done|]. by exists r. }
        apply wp_bind, wp_gets, wp_bind, wp_modify. cbn [sl_rnd with_rnd].
        apply Next_good in Hg. destruct (_ =? 0); apply wp_ret.
        * split; [|lia]. split; [lia|]. by eexists.
        * split; [lia|]. by eexists.
      + split; [unfold kMaxHeight; lia|]. exists (sl_rnd s). by destruct s.
      + unfold kMaxHeight. lia.
    - intros h s' (Hh & Hs). unfold assertion.
      destruct (Nat.ltb_spec 0 h); [|lia]. destruct (Nat.leb_spec h kMaxHeight); [|lia].
      apply wp_bind, wp_ret, wp_bind, wp_ret, wp_ret. done. }
  destruct (wp_inv _ _ _ _ H) as [(h & s' & E & Hh & r & -> & Hg)|(s' & _ & [])].
  exists h, r. split; [exact E|]. split; [exact Hg|exact Hh].
Qed.

Lemma raise_prev_lookup from n (head : nat) (prev : list (option nat)) j :
  (j < length prev)%nat ->
  foldl (fun p i => <[i := Some head]> p) prev (seq from n) !! j =
  if (from <=? j)%nat && (j <? from + n)%nat then Some (Some head) else prev !! j.
Proof.
  revert from prev. induction n as [|n IH]; intros from prev Hj; cbn [seq foldl].
  - destruct (Nat.leb_spec from j), (Nat.ltb_spec j (from + 0)); lia || done.
  - rewrite IH by (by rewrite length_insert). destruct (decide (j = from)) as [->|Hne].
    + rewrite list_lookup_insert_eq by done.
      destruct (Nat.leb_spec (S from) from), (Nat.leb_spec from from),
        (Nat.ltb_spec from (from + S n)); lia || done.
    + rewrite list_lookup_insert_ne by done.
      destruct (Nat.leb_spec (S from) j), (Nat.leb_spec from j), (Nat.ltb_spec j (S from + n)),
        (Nat.ltb_spec j (from + S n)); lia || done.
Qed.

(** The node and height that [prepare] leaves. *)
Definition with_node (k : Key) (height : nat) (r : Z) (s : SL) : SL :=
  mk_skiplist (<[sl_allocated s := mk_node k (replicate height None)]> (sl_nodes s))
    (S (sl_allocated s)) (sl_head s) (Nat.max (sl_max_height s) height) r.

Lemma head_allocated (s : SL) L : sk_inv s L -> is_Some (sl_nodes s !! sl_head s).
Proof.
  intros I. pose proof (inv_chain _ _ _ _ I 0 ltac:(unfold kMaxHeight; lia)) as Hc.
  destruct (L 0%nat); cbn [chain] in Hc; [|destruct Hc as [Hc _]];
    unfold link in Hc; destruct (sl_nodes s !! sl_head s); by eauto.
Qed.

Lemma level_allocated (s : SL) L l y : sk_inv s L -> y ∈ sl_head s :: L l -> (y < sl_allocated s)%nat.
Proof.
  intros I Hy. apply (inv_alloc _ _ _ _ I).
  apply elem_of_cons in Hy as [->|Hy]; [by eapply head_allocated|].
  destruct (level_key _ _ s L I l y Hy) as (a & Ha & _). unfold key_of in Ha.
  apply fmap_Some in Ha as (nd & Hnd & _). by eexists.
Qed.

Section prepare.
Context (s : SL) (L : nat -> list nat) (I : sk_inv s L) (k : Key) (Hk : good k).
Context (Hf : fresh_key s L k).

Lemma with_node_lookup height r y :
  (y < sl_allocated s)%nat -> sl_nodes (with_node k height r s) !! y = sl_nodes s !! y.
Proof. intros Hy. cbn. apply lookup_insert_ne. lia. Qed.

Lemma with_node_key height r l y :
  y ∈ sl_head s :: L l -> key_of (with_node k height r s) y = key_of s y.
Proof.
  intros Hy. unfold key_of. rewrite with_node_lookup; [done|by eapply level_allocated].
Qed.

Lemma with_node_inv height r :
  good_seed r -> (1 <= height <= kMaxHeight)%nat ->
  sk_inv (with_node k height r s) (linked (with_node k height r s) k (sl_allocated s) 0 L).
Proof.
  intros Hr Hh. pose proof (inv_height _ _ _ _ I). apply (sk_inv_ext s _ L); auto.
  - intros y Hy. eapply (with_node_key _ _ 0). by right.
  - cbn. lia.
  - intros l Hl. eapply chain_ext; [|by apply (inv_chain _ _ _ _ I)]. intros y Hy.
    unfold link. rewrite with_node_lookup; [done|by eapply level_allocated].
  - intros y. cbn. rewrite lookup_insert. pose proof (inv_alloc _ _ _ _ I y) as Ha.
    case_decide as E; [subst; split; [lia|by eexists]|]. rewrite Ha. lia.
Qed.

(** The assertion of [Insert]: the first node at or behind the key differs from it. *)
Lemma first_differs :
  match first_at_least compare_ s L k with
  | Some y => exists nd, node_at y s = Ok nd s /\ Equal compare_ k (node_key nd) = false
  | None => True
  end.
Proof.
  unfold first_at_least. destruct (List.filter _ (L 0%nat)) as [|y t] eqn:E; [done|]. cbn.
  assert (y ∈ L 0%nat) as Hy.
  { apply (elem_of_filter_bool (fun x => negb (before s k x))). rewrite E. by left. }
  destruct (level_key _ _ s L I 0 y Hy) as (a & Ha & Ga).
  destruct (node_at_eq y a s Ha) as (nd & En & <-). exists nd. split; [done|].
  unfold Equal. apply Z.eqb_neq. intros Hz. apply (Hf y _ Hy Ha).
  pose proof (key_flip k (node_key nd) Hk Ga). pose proof (key_flip (node_key nd) k Ga Hk). lia.
Qed.

Lemma prepared_prev height r p j :
  prev_filled compare_ s L k 0 (Some (replicate kMaxHeight None)) (Some p) ->
  (1 <= height <= kMaxHeight)%nat -> (j < height)%nat ->
  (if (sl_max_height s <? height)%nat then raise_prev (sl_max_height s) height (sl_head s) p else p)
    !! j = Some (Some (predecessor (with_node k height r s) L k j)).
Proof.
  intros [Hlen Hp] Hh Hj.
  assert (predecessor (with_node k height r s) L k j = predecessor s L k j) as ->.
  { unfold SkipSearch.predecessor.
    destruct (filter_ext_before s (with_node k height r s) k (L j)) as [-> _]; [|done].
    intros y Hy. eapply (with_node_key _ _ j). by right. }
  assert ((sl_max_height s <= j)%nat -> predecessor s L k j = sl_head s) as Htop.
  { intros Hm. unfold SkipSearch.predecessor. by rewrite (inv_top _ _ _ _ I). }
  destruct (Nat.ltb_spec (sl_max_height s) height).
  - unfold raise_prev. rewrite raise_prev_lookup by lia.
    destruct (Nat.leb_spec (sl_max_height s) j); cbn [andb].
    + destruct (Nat.ltb_spec j (sl_max_height s + (height - sl_max_height s))); [|lia].
      by rewrite Htop.
    + apply Hp. lia.
  - apply Hp. lia.
Qed.

(** [prepare] allocates the node and finds its place on every level. *)
Lemma prepare_ok :
  exists height prev r, (1 <= height <= kMaxHeight)%nat /\
    prepare compare_ k s = Ok (sl_allocated s, height, prev) (with_node k height r s) /\
    linking k (sl_allocated s) height prev L 0 (with_node k height r s).
Proof.
  destruct (FindGreaterOrEqual_eq _ _ s L I k (Some (replicate kMaxHeight None)) Hk)
    as (prev & E & Hprev); [apply length_replicate|].
  destruct prev as [p|]; [|done].
  destruct (RandomHeight_eq s (inv_rnd _ _ _ _ I)) as (height & r & Eh & Hr & Hh).
  pose proof (inv_height _ _ _ _ I) as Hih.
  exists height, (if (sl_max_height s <? height)%nat
    then raise_prev (sl_max_height s) height (sl_head s) p else p), r.
  split; [done|]. split.
  - unfold prepare. rewrite (bind_ok _ _ _ _ _ E). cbn [fst snd or_ub]. rewrite bind_ret.
    rewrite (bind_ok _ _ _ tt s).
    2:{ pose proof first_differs as Hd. destruct (first_at_least compare_ s L k) as [y|]; [|done].
        destruct Hd as (nd & En & Hne). by rewrite (bind_ok _ _ _ _ _ En), Hne. }
    rewrite (bind_ok _ _ _ _ _ Eh). rewrite !bind_gets. cbn [sl_max_height with_rnd sl_head].
    unfold with_node. destruct (Nat.ltb_spec (sl_max_height s) height).
    + rewrite bind_assoc, bind_modify, bind_ret. unfold NewNode. rewrite bind_assoc, bind_gets.
      rewrite bind_assoc, bind_modify, bind_ret. cbn. by rewrite Nat.max_r by lia.
    + rewrite bind_ret. unfold NewNode. rewrite bind_assoc, bind_gets.
      rewrite bind_assoc, bind_modify, bind_ret. cbn. by rewrite Nat.max_l by lia.
  - split; try done.
    + by apply with_node_inv.
    + apply (inv_sub _ _ _ _ I).
    + intros l Hl. cbn in Hl. apply (inv_top _ _ _ _ I). lia.
    + unfold key_of. cbn. by rewrite lookup_insert_eq.
    + intros Hin. apply (level_allocated s L 0) in Hin; [lia|done].
    + cbn. rewrite lookup_insert_eq. cbn. by rewrite length_replicate.
    + intros j Hj. by apply prepared_prev.
    + intros y a Hy. rewrite (with_node_key _ _ 0) by (by right). by apply Hf.
    + cbn. lia.
Qed.

End prepare.

(** The loop over the levels. *)
Lemma link_levels k x height prev L n i s :
  (i + n = height)%nat -> linking k x height prev L i s ->
  exists s', loop (S n) (fun i =>
      if (i <? height)%nat then
        link_node x i prev ;;; publish x i prev ;;; ret (inl (S i))
      else ret (inr tt)) i s = Ok tt s' /\
    linking k x height prev L height s' /\ (forall y, key_of s' y = key_of s y).
Proof.
  revert i s. induction n as [|n IH]; intros i s Hn H.
  - replace i with height in * by lia. exists s. rewrite loop_S, Nat.ltb_irrefl. by split.
  - destruct (link_node_step k x height prev L i s H ltac:(lia)) as (s1 & E1 & H1 & R1).
    destruct (publish_step k x height prev L i s1 H1 ltac:(lia)) as (s2 & E2 & H2 & R2).
    { rewrite (rl_link _ _ _ _ _ R1). do 2 f_equal.
      destruct (filter_ext_before s s1 k (L i)) as [_ E]; [|by rewrite E].
      intros y _. apply (rl_key _ _ _ _ _ R1). }
    destruct (IH (S i) s2 ltac:(lia) H2) as (s' & E & H' & Hkey).
    exists s'. split; [|split; [done|]].
    + rewrite loop_S, (bind_ok _ _ _ (inl (S i)) s2); [exact E|].
      destruct (Nat.ltb_spec i height); [|lia].
      by rewrite (bind_ok _ _ _ _ _ E1), (bind_ok _ _ _ _ _ E2).
    + intros y. rewrite Hkey, (rl_key _ _ _ _ _ R2). apply (rl_key _ _ _ _ _ R1).
Qed.

(** Insertion succeeds and links one new node, at the place of its key. *)
Lemma Insert_ok s L k :
  sk_inv s L -> good k -> fresh_key s L k ->
  exists s' L', Insert compare_ k s = Ok tt s' /\ sk_inv s' L' /\
    L' 0%nat = insert_at s k (sl_allocated s) (L 0%nat) /\ key_of s' (sl_allocated s) = Some k /\
    (forall y, y ∈ L 0%nat -> key_of s' y = key_of s y).
Proof.
  intros I Hk Hf. destruct (prepare_ok s L I k Hk Hf) as (height & prev & r & Hh & E & H).
  destruct (link_levels k (sl_allocated s) height prev L height 0 _ ltac:(lia) H)
    as (s' & El & H' & Hkey).
  assert (forall y, y ∈ L 0%nat -> key_of s' y = key_of s y) as Hold.
  { intros y Hy. rewrite Hkey. eapply (with_node_key s L I k _ _ 0). by right. }
  exists s', (linked s' k (sl_allocated s) height L). split.
  { unfold Insert. by rewrite (bind_ok _ _ _ _ _ E). }
  split; [apply H'|]. split; [|split; [apply H'|done]].
  rewrite linked_below by lia. unfold insert_at.
  by destruct (filter_ext_before s s' k (L 0%nat) Hold) as [-> ->].
Qed.

End insert.
