(* ===== verification/SkipContents.v ===== *)
(** * A skip list under concurrency, and the keys it stands for

    The writer inserts, one store to shared memory at a time; a reader searches,
    one load at a time, without a lock.  The steps are interleaved in any order;
    an acquire load sees what was stored before (the code's release stores and
    acquire loads exclude anything weaker).  Then the list of keys, and what the
    iterator does in terms of it. *)

From Stdlib Require Import ZArith Lia Sorted.
From stdpp Require Import base option list relations sorting strings gmap.
From S2P Require Import Prelude SkipList SkipSearch SkipInsert.

Section concurrent.
Context {Key : Type} (compare_ : Key -> Key -> Z) (good : Key -> Prop).
Context {KO : KeyOrder compare_ good}.

Abbreviation SL := (SkipList Key).
Abbreviation sk_inv := (sk_inv compare_ good).
Abbreviation linking := (linking compare_ good).

(** ** The steps *)

(** Where the writer is in [Insert]: before it, before the store to the new node
    at level [i], before the store to its predecessor. *)
Inductive writer :=
  | Idle
  | Linking (x height : nat) (prev : list (option nat)) (i : nat)
  | Publishing (x height : nat) (prev : list (option nat)) (i : nat).

(** The caller does not insert a key twice. *)
Inductive writer_step : SL * writer -> SL * writer -> Prop :=
  | step_prepare s k L x height prev s' :
      good k -> sk_inv s L -> fresh_key compare_ s L k ->
      prepare compare_ k s = Ok (x, height, prev) s' ->
      writer_step (s, Idle) (s', Linking x height prev 0)
  | step_link s x height prev i s' :
      (i < height)%nat -> link_node x i prev s = Ok tt s' ->
      writer_step (s, Linking x height prev i) (s', Publishing x height prev i)
  | step_publish s x height prev i s' :
      publish x i prev s = Ok tt s' ->
      writer_step (s, Publishing x height prev i) (s', Linking x height prev (S i))
  | step_done s x height prev :
      writer_step (s, Linking x height prev height) (s, Idle).

(** Where a reader is in [FindGreaterOrEqual(key, NULL)]. *)
Inductive reader :=
  | Starting
  | Searching (x level : nat)
  | Found (n : option nat).

Inductive reader_step (k : Key) (s : SL) : reader -> reader -> Prop :=
  | step_start : reader_step k s Starting (Searching (sl_head s) (sl_max_height s - 1))
  | step_move x level x' level' prev' s' :
      find_round compare_ k (x, level, None) s = Ok (inl (x', level', prev')) s' ->
      reader_step k s (Searching x level) (Searching x' level')
  | step_return x level n prev' s' :
      find_round compare_ k (x, level, None) s = Ok (inr (n, prev')) s' ->
      reader_step k s (Searching x level) (Found n).

Inductive step (k : Key) : SL * writer * reader -> SL * writer * reader -> Prop :=
  | step_writer s w r s' w' :
      writer_step (s, w) (s', w') -> step k (s, w, r) (s', w', r)
  | step_reader s w r r' : reader_step k s r r' -> step k (s, w, r) (s, w, r').

(** ** What holds at every step *)

(** The lists of the state while the writer is at [w]. *)
Inductive writer_inv (s : SL) (L : nat -> list nat) : writer -> Prop :=
  | inv_idle : sk_inv s L -> writer_inv s L Idle
  | inv_linking k x height prev L0 i :
      linking k x height prev L0 i s -> (i <= height)%nat ->
      (forall l, L l = linked compare_ s k x i L0 l) ->
      writer_inv s L (Linking x height prev i)
  | inv_publishing k x height prev L0 i :
      linking k x height prev L0 i s -> (i < height)%nat ->
      link s i x = Some (hd_error (List.filter (fun y => negb (before compare_ s k y)) (L0 i))) ->
      (forall l, L l = linked compare_ s k x i L0 l) ->
      writer_inv s L (Publishing x height prev i).

Lemma sk_inv_lists (s : SL) L L' : sk_inv s L -> (forall l, L' l = L l) -> sk_inv s L'.
Proof.
  intros I HL. pose proof (inv_height _ _ _ _ I). apply (sk_inv_ext compare_ good s s L); try done.
  - lia.
  - apply (inv_chain _ _ _ _ I).
  - apply (inv_alloc _ _ _ _ I).
  - apply (inv_rnd _ _ _ _ I).
Qed.

Lemma chain_unique (s : SL) l a p q : chain s l a p -> chain s l a q -> p = q.
Proof.
  revert a q. induction p as [|x p IH]; intros a [|y q]; cbn [chain]; try done.
  - intros H [H' _]. congruence.
  - intros [H _] H'. congruence.
  - intros [H Hp] [H' Hq]. assert (x = y) as -> by congruence. f_equal. by eapply IH.
Qed.

(** The state determines its lists. *)
Lemma sk_inv_unique s L L' : sk_inv s L -> sk_inv s L' -> forall l, L l = L' l.
Proof.
  intros I I' l. destruct (decide (l < kMaxHeight)%nat).
  - eapply chain_unique; [by apply (inv_chain _ _ _ _ I)|by apply (inv_chain _ _ _ _ I')].
  - pose proof (inv_height _ _ _ _ I). rewrite (inv_top _ _ _ _ I), (inv_top _ _ _ _ I') by lia. done.
Qed.

Lemma writer_inv_lists s L w : writer_inv s L w -> sk_inv s L.
Proof.
  destruct 1 as [I|k x height prev L0 i H Hi HL|k x height prev L0 i H Hi _ HL]; [done|..];
    (eapply sk_inv_lists; [apply H|done]).
Qed.

(** What a writer's step does to the lists: nodes stay, keys stay. *)
Record grows (s : SL) (L : nat -> list nat) (s' : SL) (L' : nat -> list nat) : Prop := mk_grows {
  gr_elem l y : y ∈ L l -> y ∈ L' l;
  gr_key l y : y ∈ sl_head s :: L l -> key_of s' y = key_of s y;
  gr_head : sl_head s' = sl_head s;
  gr_height : (sl_max_height s <= sl_max_height s')%nat
}.

Lemma grows_refl s L : grows s L s L.
Proof. by split. Qed.

Lemma grows_trans s1 L1 s2 L2 s3 L3 : grows s1 L1 s2 L2 -> grows s2 L2 s3 L3 -> grows s1 L1 s3 L3.
Proof.
  intros [E1 K1 H1 M1] [E2 K2 H2 M2]. split; [by auto| |congruence|lia].
  intros l y Hy. rewrite (K2 l), (K1 l); try done.
  rewrite H1. apply elem_of_cons in Hy as [->|Hy]; [by left|right; auto].
Qed.

Lemma grows_relinked s s' L L' x n v :
  relinked x n v s s' -> (forall l y, y ∈ L l -> y ∈ L' l) -> grows s L s' L'.
Proof. intros [] H. split; auto. by rewrite rl_height. Qed.

Lemma linked_grows s k x i L l y :
  y ∈ linked compare_ s k x i L l -> y ∈ linked compare_ s k x (S i) L l.
Proof.
  unfold linked. destruct (Nat.ltb_spec l i), (Nat.ltb_spec l (S i)); try lia; try done.
  intros Hy. apply insert_at_elem. by right.
Qed.

(** A step of the writer keeps the invariant, and the lists only grow. *)
Lemma writer_step_inv s w L s' w' :
  writer_inv s L w -> writer_step (s, w) (s', w') ->
  exists L', writer_inv s' L' w' /\ grows s L s' L'.
Proof.
  intros HI Hs. inversion Hs as [s1 k L1 x height prev s2 Hk I1 Hf E|s1 x height prev i s2 Hi E|
      s1 x height prev i s2 E|s1 x height prev]; subst; clear Hs.
  - inversion HI; subst. rename H into I. 
    destruct (prepare_ok compare_ good s L1 I1 k Hk Hf) as (h & p & r & Hh & E' & Hl).
    rewrite E in E'. injection E' as -> -> -> ->.
    pose proof (sk_inv_unique s L L1 I I1) as HL.
    exists L. split.
    + econstructor; [exact Hl|lia|]. intros l. by rewrite HL, linked_above by lia.
    + split; auto.
      * intros l y Hy. rewrite HL in Hy. by eapply (with_node_key compare_ good s L1 I1 k _ _ l).
      * cbn. lia.
  - inversion HI as [|k x' h' p' L0 j Hl Hj HL|]; subst.
    destruct (link_node_step compare_ good k x height prev L0 i s Hl Hi) as (s2 & E2 & H2 & R).
    rewrite E in E2. injection E2 as ->.
    assert (forall l, L l = linked compare_ s2 k x i L0 l) as HL2.
    { intros l. rewrite HL. symmetry. apply linked_ext. apply (rl_key _ _ _ _ _ R). }
    exists L. split; [|by eapply grows_relinked].
    econstructor; [exact H2|done| |done]. rewrite (rl_link _ _ _ _ _ R). do 2 f_equal.
    destruct (filter_ext_before compare_ s s2 k (L0 i)) as [_ Ef]; [|by rewrite Ef].
    intros y _. apply (rl_key _ _ _ _ _ R).
  - inversion HI as [| |k x' h' p' L0 j Hl Hj Hlink HL]; subst.
    destruct (publish_step compare_ good k x height prev L0 i s Hl Hj Hlink) as (s2 & E2 & H2 & R).
    rewrite E in E2. injection E2 as ->.
    exists (linked compare_ s2 k x (S i) L0). split; [by econstructor; [exact H2|lia|]|].
    eapply grows_relinked; [exact R|]. intros l y Hy. rewrite HL in Hy.
    rewrite (linked_ext compare_ s s2) by apply (rl_key _ _ _ _ _ R). by apply linked_grows.
  - exists L. split; [|apply grows_refl]. constructor. by eapply writer_inv_lists.
Qed.

(** Where a reader may be. *)
Definition reader_inv (k : Key) (s : SL) (L : nat -> list nat) (r : reader) : Prop :=
  match r with
  | Searching x level => at_level compare_ s L k x level
  | _ => True
  end.

Lemma reader_inv_grows k s L s' L' r :
  grows s L s' L' -> reader_inv k s L r -> reader_inv k s' L' r.
Proof.
  intros [HE HK HH HM]. destruct r as [|x level|n]; try done. intros (Hl & Hx & Hb).
  split; [lia|]. split.
  - rewrite HH. apply elem_of_cons in Hx as [->|Hx]; [by left|right; auto].
  - destruct Hb as [->|Hb]; [by left|]. right. unfold before. by rewrite (HK level).
Qed.

Lemma reader_step_inv k s L r r' :
  sk_inv s L -> good k -> reader_inv k s L r -> reader_step k s r r' ->
  reader_inv k s L r' /\ match r' with Found n => n = first_at_least compare_ s L k | _ => True end.
Proof.
  intros I Hk Hr Hs. inversion Hs as [|x level x' level' prev' s' E|x level n prev' s' E]; subst.
  - split; [|done]. apply (at_level_start compare_ good s L I).
  - destruct (find_round_eq compare_ good s L I k x level None Hk Hr) as (o & E' & Ho).
    rewrite E in E'. injection E' as <- <-. by destruct Ho as (Ho & _).
  - destruct (find_round_eq compare_ good s L I k x level None Hk Hr) as (o & E' & Ho).
    rewrite E in E'. injection E' as <- <-. by destruct Ho as (_ & -> & _).
Qed.

(** What holds of every state that can be reached. *)
Definition step_inv (k : Key) (s0 : SL) (L0 : nat -> list nat) (c : SL * writer * reader) : Prop :=
  exists L, writer_inv (fst (fst c)) L (snd (fst c)) /\ grows s0 L0 (fst (fst c)) L /\
            reader_inv k (fst (fst c)) L (snd c).

Lemma steps_inv k s0 L0 c :
  sk_inv s0 L0 -> good k -> rtc (step k) (s0, Idle, Starting) c -> step_inv k s0 L0 c.
Proof.
  intros I Hk Hr. revert c Hr. apply (rtc_ind_r (step_inv k s0 L0)).
  - exists L0. split; [by constructor|]. split; [apply grows_refl|done].
  - intros c1 c2 _ Hs (L & HW & HG & HR). destruct Hs as [s w r s' w' Hs|s w r r' Hs]; cbn in *.
    + destruct (writer_step_inv s w L s' w' HW Hs) as (L' & HW' & HG').
      exists L'. split; [done|]. split; [by eapply grows_trans|by eapply reader_inv_grows].
    + exists L. split; [done|]. split; [done|].
      eapply reader_step_inv; [by eapply writer_inv_lists|done..].
Qed.

(** ** Every step is progress *)

(** Steps in which the writer finishes its insertion but begins no other. *)
Definition finishing (k : Key) (c c' : SL * writer * reader) : Prop :=
  step k c c' /\ (c.1.2 = Idle -> c'.1.2 = Idle).

Definition steps_left (w : writer) : nat :=
  match w with
  | Idle => 0
  | Linking _ height _ i => 2 * (height - i) + 1
  | Publishing _ height _ i => 2 * (height - i)
  end.

(** The nodes ahead of a reader and the levels below it. *)
Definition rounds_left (s : SL) (L : nat -> list nat) (r : reader) : nat :=
  match r with
  | Starting => S (S (rank compare_ s L (sl_head s) + (sl_max_height s - 1)))
  | Searching x level => S (rank compare_ s L x + level)
  | Found _ => 0
  end.

Lemma writer_step_left s w L s' w' : writer_inv s L w -> writer_step (s, w) (s', w') -> w <> Idle ->
  (steps_left w' < steps_left w)%nat.
Proof.
  intros HI Hs Hw. inversion Hs; subst; [done|..]; inversion HI; subst; cbn [steps_left]; lia.
Qed.

Lemma reader_step_left k s L r r' : sk_inv s L -> good k -> reader_inv k s L r -> reader_step k s r r' ->
  (rounds_left s L r' < rounds_left s L r)%nat.
Proof.
  intros I Hk Hr Hs. inversion Hs as [|x level x' level' prev' s' E|x level n prev' s' E]; subst; cbn [rounds_left]; [lia| |lia].
  destruct (find_round_eq compare_ good s L I k x level None Hk Hr) as (o & E' & Ho).
  rewrite E in E'. injection E' as <- <-. destruct Ho as (_ & Hlt & _). lia.
Qed.

(** No schedule of finishing steps goes on for ever. *)
Lemma finishing_sn k c L : good k -> writer_inv c.1.1 L c.1.2 -> reader_inv k c.1.1 L c.2 -> sn (finishing k) c.
Proof.
  intros Hk. remember (steps_left c.1.2) as n eqn:En. revert c L En.
  induction n as [n IHn] using (well_founded_induction lt_wf). intros c L En.
  remember (rounds_left c.1.1 L c.2) as m eqn:Em. revert c L En Em.
  induction m as [m IHm] using (well_founded_induction lt_wf). intros c L En Em HW HR.
  constructor. intros c' [Hs Hidle]. destruct Hs as [s w r s' w' Hs|s w r r' Hs]; cbn in *.
  - destruct (writer_step_inv s w L s' w' HW Hs) as (L' & HW' & HG).
    assert (w <> Idle) as Hw by (intros ->; specialize (Hidle eq_refl); subst; inversion Hs).
    eapply (IHn (steps_left w')); [subst; by eapply writer_step_left|done|done|].
    cbn. by eapply reader_inv_grows.
  - pose proof (writer_inv_lists s L w HW) as I.
    eapply (IHm (rounds_left s L r')); [subst; by eapply reader_step_left|done|done|done|].
    cbn. by apply (reader_step_inv k s L r r').
Qed.

(** Both are never blocked: the writer until its insertion is done, the reader
    until it has its answer. *)
Lemma writer_moves s w L : writer_inv s L w -> w <> Idle -> exists s' w', writer_step (s, w) (s', w').
Proof.
  intros HI Hw. destruct HI as [|k x height prev L0 i Hl Hi HL|k x height prev L0 i Hl Hi Hlink HL]; [done|..].
  - destruct (decide (i = height)) as [->|]; [eexists _, _; apply step_done|].
    destruct (link_node_step compare_ good k x height prev L0 i s Hl) as (s2 & E2 & _); [lia|].
    eexists _, _. apply step_link; [lia|exact E2].
  - destruct (publish_step compare_ good k x height prev L0 i s Hl Hi Hlink) as (s2 & E2 & _).
    eexists _, _. apply step_publish. exact E2.
Qed.

Lemma reader_moves k s L r : sk_inv s L -> good k -> reader_inv k s L r ->
  (exists n, r = Found n) \/ exists r', reader_step k s r r'.
Proof.
  intros I Hk Hr. destruct r as [|x level|n]; [right; eexists; constructor| |left; by exists n].
  right. destruct (find_round_eq compare_ good s L I k x level None Hk Hr) as ([[[x' level'] prev']|[n prev']] & E & _).
  - eexists. by eapply step_move.
  - eexists. by eapply step_return.
Qed.

End concurrent.

(** * The keys of a skip list

    A skip list implements a sorted list of keys: what its operations do to the
    nodes, in terms of the keys. *)

Section contents.
Context {Key : Type} (compare_ : Key -> Key -> Z) (good : Key -> Prop).
Context {KO : KeyOrder compare_ good}.

Abbreviation SL := (SkipList Key).
Abbreviation sk_inv := (sk_inv compare_ good).

(** The nodes [ids] hold the [keys]. *)
Definition holds_keys (s : SL) (ids : list nat) (keys : list Key) : Prop :=
  Forall2 (fun x a => key_of s x = Some a) ids keys.

(** The abstract value of a skip list. *)
Definition represents (s : SL) (keys : list Key) : Prop :=
  exists L, sk_inv s L /\ holds_keys s (L 0%nat) keys.

(** Insertion into a sorted list. *)
Definition insert_key (k : Key) (keys : list Key) : list Key :=
  List.filter (fun a => compare_ a k <? 0) keys ++
  k :: List.filter (fun a => negb (compare_ a k <? 0)) keys.

Lemma Forall2_filter {A B} (R : A -> B -> Prop) f g l k :
  (forall x y, R x y -> f x = g y) -> Forall2 R l k ->
  Forall2 R (List.filter f l) (List.filter g k).
Proof.
  intros H. induction 1 as [|x y l k Hxy _ IH]; [constructor|]. cbn. rewrite (H x y Hxy).
  destruct (g y); [by constructor|done].
Qed.

Lemma Forall_impl_in_elem {A} (P Q : A -> Prop) l :
  (forall x, x ∈ l -> P x -> Q x) -> Forall P l -> Forall Q l.
Proof. rewrite !Forall_forall. auto. Qed.

Lemma before_key s k x a : key_of s x = Some a -> before compare_ s k x = (compare_ a k <? 0).
Proof. unfold before. by intros ->. Qed.

Lemma holds_insert s s' ids keys k x :
  holds_keys s ids keys -> (forall y, y ∈ ids -> key_of s' y = key_of s y) -> key_of s' x = Some k ->
  holds_keys s' (insert_at compare_ s k x ids) (insert_key k keys).
Proof.
  intros H Hold Hx. unfold holds_keys, insert_at, insert_key.
  assert (Forall2 (fun y a => key_of s y = Some a /\ key_of s' y = Some a) ids keys) as H2.
  { revert Hold. induction H as [|y a ids keys Hy _ IH]; intros Hold; constructor.
    - by rewrite Hold by left.
    - apply IH. intros z Hz. apply Hold. by right. }
  apply Forall2_app; [|constructor; [done|]]; (eapply Forall2_impl; [eapply Forall2_filter; [|exact H2]|]);
    try (by intros y a []); intros y a [Hy _]; by rewrite (before_key s k y a Hy).
Qed.

Lemma represents_insert s keys k :
  represents s keys -> good k -> Forall (fun a => compare_ a k <> 0) keys ->
  exists s', Insert compare_ k s = Ok tt s' /\ represents s' (insert_key k keys).
Proof.
  intros (L & I & H) Hk Hf.
  destruct (Insert_ok compare_ good s L k I Hk) as (s' & L' & E & I' & HL & Hx & Hold).
  { intros y a Hy Ha. apply list_elem_of_lookup in Hy as [i Hi].
    eapply Forall2_lookup_l in H as (b & Hb & Hkey); [|exact Hi]. rewrite Ha in Hkey.
    injection Hkey as <-. by eapply Forall_lookup_1 in Hf. }
  exists s'. split; [done|]. exists L'. split; [done|]. rewrite HL. by apply (holds_insert s).
Qed.

(** The list that the constructor leaves. *)
Lemma represents_new any_key : represents (SkipList_new any_key) [].
Proof.
  exists (fun _ => []). split; [|constructor]. split; try done.
  - intros l Hl. unfold chain, link, SkipList_new. cbn [sl_nodes sl_head].
    rewrite lookup_singleton_eq. cbn [mbind option_bind node_next]. by rewrite lookup_replicate_2.
  - unfold SkipList_new, kMaxHeight. cbn. lia.
  - constructor.
  - cbn. intros H. by apply elem_of_nil in H.
  - intros x. cbn. rewrite lookup_singleton. case_decide; [subst; split; [lia|by eexists]|].
    split; [by intros []|lia].
Qed.

Context (s : SL) (L : nat -> list nat) (I : sk_inv s L) (keys : list Key).
Context (H : holds_keys s (L 0%nat) keys).

Lemma key_at j x : L 0%nat !! j = Some x ->
  exists a, keys !! j = Some a /\ key_of s x = Some a /\ good a.
Proof.
  intros Hx. pose proof H as H2. unfold holds_keys in H2. eapply Forall2_lookup_l in H2 as (a & Ha & Hkey); [|exact Hx].
  exists a. split; [done|]. split; [done|].
  destruct (level_key compare_ good s L I 0 x) as (b & Hb & Gb); [by eapply list_elem_of_lookup_2|].
  rewrite Hkey in Hb. by injection Hb as <-.
Qed.

Lemma node_of j a : keys !! j = Some a -> exists x, L 0%nat !! j = Some x /\ key_of s x = Some a /\ good a.
Proof.
  intros Ha. pose proof H as H2. unfold holds_keys in H2.
  eapply Forall2_lookup_r in H2 as (x & Hx & Hkey); [|exact Ha].
  exists x. split; [done|]. split; [done|]. destruct (key_at j x Hx) as (b & _ & Hb & Gb).
  rewrite Hkey in Hb. by injection Hb as <-.
Qed.

Lemma Contains_eq k :
  good k -> Contains compare_ k s = Ok (existsb (fun a => Equal compare_ k a) keys) s.
Proof.
  intros Hk. unfold Contains.
  destruct (FindGreaterOrEqual_eq compare_ good s L I k None Hk) as (prev & E & _); [done|].
  rewrite (bind_ok _ _ _ _ _ E). cbn [fst]. clear E prev. unfold first_at_least.
  assert (Forall2 (fun x a => key_of s x = Some a)
    (List.filter (fun x => negb (before compare_ s k x)) (L 0%nat))
    (List.filter (fun a => negb (compare_ a k <? 0)) keys)) as Hf.
  { eapply Forall2_filter; [|exact H]. intros y a Hy. by rewrite (before_key s k y a Hy). }
  assert (existsb (fun a => Equal compare_ k a) keys =
          existsb (fun a => Equal compare_ k a) (List.filter (fun a => negb (compare_ a k <? 0)) keys)) as ->.
  { assert (Forall good keys) as Hg.
    { apply Forall_lookup_2. intros j a Ha. by destruct (node_of j a Ha) as (? & _ & _ & ?). }
    clear -Hg Hk KO. induction Hg as [|a keys Ha _ IH]; [done|]. cbn. rewrite IH. unfold Equal.
    pose proof (key_flip a k Ha Hk). destruct (Z.ltb_spec (compare_ a k) 0); cbn [negb existsb]; [|done].
    destruct (Z.eqb_spec (compare_ k a) 0); [lia|done]. }
  pose proof (inv_sorted _ _ _ _ I) as Hs.
  rewrite (before_split compare_ good s L k 0 I Hk) in Hs. apply StronglySorted_app_1_r in Hs.
  assert (forall x, x ∈ List.filter (fun x => negb (before compare_ s k x)) (L 0%nat) ->
            before compare_ s k x = false /\ exists a, key_of s x = Some a /\ good a) as Hb.
  { intros x [Hx Hbx]%elem_of_filter_bool. split; [by apply negb_true_iff|].
    by apply (level_key compare_ good s L I 0). }
  destruct Hf as [|x a ids ks Hx Hf]; [done|]. cbn [hd_error].
  destruct (node_at_eq x a s Hx) as (nd & En & <-). rewrite (bind_ok _ _ _ _ _ En).
  destruct (Hb x ltac:(by left)) as (Hbx & a & Ha & Ga). rewrite Hx in Ha. injection Ha as <-.
  rewrite (before_key s k x _ Hx) in Hbx. apply StronglySorted_inv in Hs as [_ Hs].
  unfold ret. f_equal. cbn [existsb]. symmetry.
  assert (existsb (fun a => Equal compare_ k a) ks = false) as ->; [|by rewrite orb_false_r].
  apply not_true_is_false. intros (b & Hbk & Heq)%existsb_exists.
  apply list_elem_of_In, list_elem_of_lookup in Hbk as [j Hj].
  eapply Forall2_lookup_r in Hf as (y & Hy & Hky); [|exact Hj].
  rewrite Forall_forall in Hs. apply list_elem_of_lookup_2 in Hy.
  destruct (Hs y Hy) as (a & b' & Ha & Hb' & Hlt).
  destruct (Hb y ltac:(by right)) as (_ & b2 & Hb2 & Gb).
  rewrite Hx in Ha. injection Ha as <-. rewrite Hky in Hb', Hb2. injection Hb' as <-.
  injection Hb2 as <-. unfold Equal in Heq. apply Z.eqb_eq in Heq. apply Z.ltb_ge in Hbx.
  pose proof (key_flip (node_key nd) k Ga Hk). pose proof (key_flip k (node_key nd) Hk Ga).
  pose proof (key_le_lt_trans compare_ good k (node_key nd) b Hk Ga Gb ltac:(lia) Hlt). lia.
Qed.

(** ** Iterators *)

(** The node of index [j], cut out of the lowest list. *)
Lemma ids_split j x :
  L 0%nat !! j = Some x -> L 0%nat = take j (L 0%nat) ++ x :: drop (S j) (L 0%nat).
Proof. intros Hx. symmetry. by apply take_drop_middle. Qed.

Lemma link_first : link s 0 (sl_head s) = Some (L 0%nat !! 0%nat).
Proof.
  pose proof (inv_chain _ _ _ _ I 0 ltac:(unfold kMaxHeight; lia)) as Hc.
  destruct (L 0%nat) as [|y t]; [done|by destruct Hc].
Qed.

Lemma link_after j x : L 0%nat !! j = Some x -> link s 0 x = Some (L 0%nat !! S j).
Proof.
  intros Hx. pose proof (inv_chain _ _ _ _ I 0 ltac:(unfold kMaxHeight; lia)) as Hc.
  rewrite (ids_split j x Hx) in Hc. apply chain_app in Hc.
  assert (L 0%nat !! S j = drop (S j) (L 0%nat) !! 0%nat) as -> by (by rewrite lookup_drop, Nat.add_0_r).
  destruct (drop (S j) (L 0%nat)) as [|y t]; [done|by destruct Hc].
Qed.

(** What is before the key of a node. *)
Lemma filter_before_node j x a :
  L 0%nat !! j = Some x -> key_of s x = Some a -> good a ->
  List.filter (before compare_ s a) (L 0%nat) = take j (L 0%nat).
Proof.
  intros Hx Ha Ga. pose proof (inv_sorted _ _ _ _ I) as Hs.
  rewrite (ids_split j x Hx) in Hs. rewrite (ids_split j x Hx) at 1.
  rewrite List.filter_app, filter_all, filter_none; [by rewrite app_nil_r| |].
  - apply StronglySorted_app_1_r, StronglySorted_inv in Hs as [_ Hs].
    apply Forall_cons. split.
    + rewrite (before_key s a x a Ha). pose proof (key_flip a a Ga Ga). apply Z.ltb_ge. lia.
    + eapply Forall_impl_in_elem; [|exact Hs]. intros y Hy (a' & b & Ha' & Hb & Hlt).
      rewrite Ha in Ha'. injection Ha' as <-. rewrite (before_key s a y b Hb). apply Z.ltb_ge.
      destruct (level_key compare_ good s L I 0 y) as (b' & Hb' & Gb).
      { rewrite (ids_split j x Hx). apply elem_right. done. }
      rewrite Hb in Hb'. injection Hb' as <-. pose proof (key_flip a b Ga Gb). lia.
  - apply Forall_forall. intros y Hy.
    destruct (StronglySorted_app_1_elem_of _ _ _ y x Hs Hy ltac:(by left)) as (b & a' & Hb & Ha' & Hlt).
    rewrite Ha in Ha'. injection Ha' as <-. rewrite (before_key s a y b Hb). by apply Z.ltb_lt.
Qed.

Lemma not_head_eq x : x ∈ L 0%nat -> not_head x s = Ok (Some x) s.
Proof.
  intros Hx. unfold not_head. rewrite bind_gets. destruct (Nat.eqb_spec x (sl_head s)) as [->|]; [|done].
  by apply (inv_head _ _ _ _ I) in Hx.
Qed.

Lemma not_head_head : not_head (sl_head s) s = Ok None s.
Proof. unfold not_head. by rewrite bind_gets, Nat.eqb_refl. Qed.

Lemma Iterator_Prev_eq j x a :
  L 0%nat !! j = Some x -> key_of s x = Some a -> good a ->
  Iterator_Prev compare_ (Some x) s =
  Ok (match j with O => None | S i => L 0%nat !! i end) s.
Proof.
  intros Hx Ha Ga. unfold Iterator_Prev. cbn [deref or_ub]. rewrite bind_ret.
  destruct (node_at_eq x a s Ha) as (nd & En & Hnd). rewrite (bind_ok _ _ _ _ _ En), Hnd.
  rewrite (bind_ok _ _ _ _ _ (FindLessThan_eq compare_ good s L I a Ga (head_allocated compare_ good s L I))).
  unfold predecessor. rewrite (filter_before_node j x a Hx Ha Ga).
  destruct j as [|i]; [apply not_head_head|].
  destruct (L 0%nat !! i) as [y|] eqn:Hy.
  - rewrite (take_S_r _ _ _ Hy), last_last. apply not_head_eq. by eapply list_elem_of_lookup_2.
  - apply lookup_ge_None in Hy. apply lookup_lt_Some in Hx. lia.
Qed.

Lemma Iterator_SeekToLast_eq : Iterator_SeekToLast s = Ok (last (L 0%nat)) s.
Proof.
  unfold Iterator_SeekToLast. rewrite (bind_ok _ _ _ _ _ (FindLast_eq compare_ good s L I)).
  destruct (L 0%nat) as [|y t] eqn:E using rev_ind; [apply not_head_head|].
  rewrite last_last, last_snoc. apply not_head_eq. rewrite E. apply elem_mid.
Qed.

Lemma Iterator_Seek_eq k :
  good k ->
  Iterator_Seek compare_ k s =
  Ok (L 0%nat !! length (List.filter (fun a => compare_ a k <? 0) keys)) s.
Proof.
  intros Hk. unfold Iterator_Seek.
  destruct (FindGreaterOrEqual_eq compare_ good s L I k None Hk) as (prev & E & _); [done|].
  rewrite (bind_ok _ _ _ _ _ E). unfold ret, first_at_least. cbn [fst]. f_equal.
  assert (length (List.filter (fun a => compare_ a k <? 0) keys) =
          length (List.filter (before compare_ s k) (L 0%nat))) as ->.
  { symmetry. eapply Forall2_length, Forall2_filter; [|exact H].
    intros y a Hy. by rewrite (before_key s k y a Hy). }
  rewrite (before_split compare_ good s L k 0 I Hk) at 3.
  rewrite lookup_app_r, Nat.sub_diag by done. by destruct (List.filter _ _).
Qed.

End contents.

(** ** What a seek finds, in terms of the keys *)

Section seek.
Context {Key : Type} (compare_ : Key -> Key -> Z) (good : Key -> Prop).
Context {KO : KeyOrder compare_ good}.

Abbreviation key_lt := (fun a b => compare_ a b < 0).

Lemma represents_good s keys : represents compare_ good s keys -> Forall good keys.
Proof.
  intros (L & I & H). apply Forall_lookup_2. intros j a Ha.
  by destruct (node_of compare_ good s L I keys H j a Ha) as (? & _ & _ & ?).
Qed.

Lemma represents_sorted s keys : represents compare_ good s keys -> StronglySorted key_lt keys.
Proof.
  intros (L & I & H). pose proof (inv_sorted _ _ _ _ I) as Hs. clear I.
  induction H as [|x a ids keys Hx H IH]; [constructor|].
  apply StronglySorted_inv in Hs as [Hs Hlt]. constructor; [by apply IH|]. clear -Hx H Hlt.
  induction H as [|y b ids keys Hy H IH]; [constructor|].
  apply Forall_cons in Hlt as [(a' & b' & Ha & Hb & Hc) Hlt]. constructor; [|by apply IH].
  rewrite Hx in Ha. rewrite Hy in Hb. injection Ha as <-. by injection Hb as <-.
Qed.

(** The keys before a key are those at the front. *)
Lemma keys_split s keys k :
  represents compare_ good s keys -> good k ->
  keys = List.filter (fun a => compare_ a k <? 0) keys ++
         List.filter (fun a => negb (compare_ a k <? 0)) keys.
Proof.
  intros H Hk. apply filter_split. eapply StronglySorted_impl_in; [|by eapply represents_sorted].
  pose proof (represents_good s keys H) as Hg. rewrite Forall_forall in Hg.
  intros a b Ha Hb Hlt Hbk%Z.ltb_lt. apply Z.ltb_lt.
  apply (key_lt_trans compare_ good a b k); auto.
Qed.

(** A seek finds nothing when all keys are before the target; else it finds a key
    that is not, and that all other such keys are behind. *)
Lemma Iterator_Seek_key s keys k :
  represents compare_ good s keys -> good k ->
  exists n, Iterator_Seek compare_ k s = Ok n s /\
    match n with
    | None => Forall (fun a => compare_ a k < 0) keys
    | Some _ => exists a, Iterator_key n s = Ok a s /\ a ∈ keys /\ 0 <= compare_ a k /\
        Forall (fun b => compare_ b k < 0 \/ b = a \/ compare_ a b < 0) keys
    end.
Proof.
  intros HR Hk. pose proof (keys_split s keys k HR Hk) as Hsplit.
  pose proof (represents_sorted s keys HR) as Hs. destruct HR as (L & I & H).
  eexists. split; [by apply (Iterator_Seek_eq compare_ good s L I keys H)|].
  set (front := List.filter (fun a => compare_ a k <? 0) keys) in *.
  assert (forall b, b ∈ front -> compare_ b k < 0) as Hfront.
  { intros b [_ Hb%Z.ltb_lt]%elem_of_filter_bool. done. }
  destruct (List.filter (fun a => negb (compare_ a k <? 0)) keys) as [|a back] eqn:Hback.
  - rewrite app_nil_r in Hsplit. rewrite lookup_ge_None_2.
    + rewrite Hsplit, Forall_forall. apply Hfront.
    + apply Forall2_length in H. rewrite H, <- Hsplit. done.
  - assert (a ∈ a :: back) as Ha by left. rewrite <- Hback in Ha.
    apply elem_of_filter_bool in Ha as [Ha Hak%negb_true_iff%Z.ltb_ge].
    destruct (node_of compare_ good s L I keys H (length front) a) as (x & Hx & Hkey & _).
    { by rewrite Hsplit, list_lookup_middle. }
    rewrite Hx. exists a. split; [|split; [done|split; [done|]]].
    + unfold Iterator_key. cbn [deref or_ub]. rewrite bind_ret.
      destruct (node_at_eq x a s Hkey) as (nd & E & <-). by rewrite (bind_ok _ _ _ _ _ E).
    + rewrite Hsplit in Hs |- *. apply StronglySorted_app_1_r, StronglySorted_inv in Hs as [_ Hs].
      apply Forall_app. split; [apply Forall_forall; auto|].
      apply Forall_cons. split; [auto|]. eapply Forall_impl; [exact Hs|]. cbn. auto.
Qed.

(** An iterator walks over the keys in order, in both directions. *)
Lemma represents_walk s keys :
  represents compare_ good s keys ->
  exists ids : list nat, length ids = length keys /\
    Iterator_SeekToFirst s = Ok (ids !! 0%nat) s /\
    Iterator_SeekToLast s = Ok (last ids) s /\
    (forall j k, keys !! j = Some k ->
       Iterator_key (ids !! j) s = Ok k s /\
       Iterator_Next (ids !! j) s = Ok (ids !! S j) s /\
       Iterator_Prev compare_ (ids !! j) s =
         Ok (match j with O => None | S i => ids !! i end) s) /\
    (forall k, good k ->
       Iterator_Seek compare_ k s =
         Ok (ids !! length (List.filter (fun a => compare_ a k <? 0) keys)) s).
Proof.
  intros (L & I & H). exists (L 0%nat). split; [by eapply Forall2_length|].
  split; [|split; [by eapply Iterator_SeekToLast_eq|split]].
  - unfold Iterator_SeekToFirst. rewrite bind_gets.
    apply Node_Next_eq. by eapply (link_first compare_ good s L I keys).
  - intros j k Hj. destruct (node_of compare_ good s L I keys H j k Hj) as (x & Hx & Hk & Gk).
    rewrite Hx. split; [|split].
    + unfold Iterator_key. cbn [deref or_ub]. rewrite bind_ret.
      destruct (node_at_eq x k s Hk) as (nd & E & <-). by rewrite (bind_ok _ _ _ _ _ E).
    + unfold Iterator_Next. cbn [deref or_ub]. rewrite bind_ret.
      apply Node_Next_eq. by apply (link_after compare_ good s L I).
    + by apply (Iterator_Prev_eq compare_ good s L I j x k).
  - intros k Hk. by apply (Iterator_Seek_eq compare_ good s L I keys H).
Qed.

End seek.
