(* ===== verification/Status.v ===== *)
(** * The result of an operation (status.h, status.cc)

    A status is the null pointer for success, or an array: four bytes of message
    length, the code, the message. *)

From Stdlib Require Import ZArith Lia Ascii String.
From stdpp Require Import base option list strings pretty gmap.
From S2P Require Import Prelude Memory Slice.

(** The bytes of a string literal. *)
Definition c_string (s : string) : Slice :=
  (fun a => Z.of_N (N_of_ascii a)) <$> list_ascii_of_string s.

Definition kOk : Z := 0.
Definition kNotFound : Z := 1.
Definition kCorruption : Z := 2.
Definition kNotSupported : Z := 3.
Definition kInvalidArgument : Z := 4.
Definition kIOError : Z := 5.

Record Status := { state_ : option Slice }.

Definition Status_OK : Status := {| state_ := None |}.

(** [None] is the failed assertion [code != kOk]. *)
Definition make_Status (code : Z) (msg msg2 : Slice) : option Status :=
  if code =? kOk then None
  else
    let len1 := u32 (Z.of_nat (length msg)) in
    let len2 := u32 (Z.of_nat (length msg2)) in
    let size := u32 (len1 + (if negb (len2 =? 0) then u32 (2 + len2) else 0)) in
    Some {| state_ := Some (le_split 4 size ++ [code] ++ take (Z.to_nat len1) msg ++
              (if negb (len2 =? 0) then [58; 32] ++ take (Z.to_nat len2) msg2 else [])) |}.

Definition Status_NotFound (msg msg2 : Slice) : option Status := make_Status kNotFound msg msg2.
Definition Status_Corruption (msg msg2 : Slice) : option Status := make_Status kCorruption msg msg2.
Definition Status_NotSupported (msg msg2 : Slice) : option Status := make_Status kNotSupported msg msg2.
Definition Status_InvalidArgument (msg msg2 : Slice) : option Status :=
  make_Status kInvalidArgument msg msg2.
Definition Status_IOError (msg msg2 : Slice) : option Status := make_Status kIOError msg msg2.

Definition ok (s : Status) : bool :=
  match state_ s with None => true | Some _ => false end.

(** [None] is a read past the end of the array. *)
Definition code (s : Status) : option Z :=
  match state_ s with None => Some kOk | Some state => state !! 4%nat end.

Definition IsNotFound (s : Status) : option bool := c ← code s; Some (c =? kNotFound).
Definition IsCorruption (s : Status) : option bool := c ← code s; Some (c =? kCorruption).
Definition IsIOError (s : Status) : option bool := c ← code s; Some (c =? kIOError).

(** The message in the array: [size] bytes from the fifth on. *)
Definition state_message (state : Slice) : option Slice :=
  let size := le_combine (take 4 state) in
  if (4 <=? length state)%nat && (size + 5 <=? Z.of_nat (length state))
  then Some (take (Z.to_nat size) (drop 5 state)) else None.

(** The copy made by the copy constructor and the assignment. *)
Definition CopyState (state : Slice) : option Slice :=
  msg ← state_message state; c ← state !! 4%nat; Some (take 4 state ++ [c] ++ msg).

Definition Status_copy (s : Status) : option Status :=
  match state_ s with
  | None => Some s
  | Some state => c ← CopyState state; Some {| state_ := Some c |}
  end.

(** The decimal digits of a one-byte code that has no name. *)
Definition unknown_code (c : Z) : Slice := c_string "Unknown code(" ++ c_string (pretty c) ++ c_string "): ".

Definition ToString (s : Status) : option Slice :=
  match state_ s with
  | None => Some (c_string "OK")
  | Some state =>
      c ← code s;
      msg ← state_message state;
      Some ((if c =? kOk then c_string "OK"
             else if c =? kNotFound then c_string "NotFound: "
             else if c =? kCorruption then c_string "Corruption: "
             else if c =? kNotSupported then c_string "Not implemented: "
             else if c =? kInvalidArgument then c_string "Invalid argument: "
             else if c =? kIOError then c_string "IO error: "
             else unknown_code c) ++ msg)
  end.

(** ** What a status carries *)

Definition joined (msg msg2 : Slice) : Slice :=
  match msg2 with [] => msg | _ => msg ++ c_string ": " ++ msg2 end.

Lemma make_Status_eq c msg msg2 :
  c <> kOk -> Z.of_nat (length msg) + Z.of_nat (length msg2) + 2 < 2 ^ 32 ->
  make_Status c msg msg2 =
  Some {| state_ := Some (le_split 4 (Z.of_nat (length (joined msg msg2))) ++ [c] ++ joined msg msg2) |}.
Proof.
  intros Hc Hl. unfold make_Status. destruct (Z.eqb_spec c kOk); [done|].
  rewrite !(uwrap_small 32 (Z.of_nat _)) by lia. rewrite !Nat2Z.id, !firstn_all.
  destruct msg2 as [|b msg2].
  - cbn [length Z.of_nat Z.eqb negb joined]. rewrite Z.add_0_r, uwrap_small by lia.
    by rewrite app_nil_r.
  - cbn [joined]. destruct (Z.eqb_spec (Z.of_nat (length (b :: msg2))) 0) as [E|_]; [cbn in E; lia|].
    cbn [negb]. rewrite !uwrap_small by (rewrite ?uwrap_small; lia).
    do 4 f_equal. f_equal. change (c_string ": ") with [58; 32].
    rewrite length_app. cbn [length app]. lia.
Qed.

(** The code and the message of a status are those it was made with, and a copy
    is the same status. *)
Lemma status_carries c msg msg2 s :
  make_Status c msg msg2 = Some s ->
  Z.of_nat (length msg) + Z.of_nat (length msg2) + 2 < 2 ^ 32 ->
  code s = Some c /\ ok s = false /\ Status_copy s = Some s /\
  (state_ s ≫= state_message) = Some (joined msg msg2).
Proof.
  intros Hs Hl. assert (c <> kOk) as Hc by (intros ->; done).
  rewrite make_Status_eq in Hs by done. injection Hs as <-.
  set (m := joined msg msg2).
  assert (Z.of_nat (length m) < 2 ^ 32) as Hm.
  { unfold m, joined. destruct msg2; [cbn in Hl; lia|].
    rewrite !length_app. change (length (c_string ": ")) with 2%nat. lia. }
  set (state := le_split 4 (Z.of_nat (length m)) ++ [c] ++ m).
  assert (take 4 state = le_split 4 (Z.of_nat (length m))) as Ht by done.
  assert (state_message state = Some m) as Hmsg.
  { unfold state_message. rewrite Ht, le_combine_split.
    rewrite uwrap_small by (change (8 * Z.of_nat 4) with 32; lia).
    unfold state. rewrite !length_app, le_split_length. cbn [length].
    destruct (Nat.leb_spec 4 (4 + (1 + length m))); [|lia].
    destruct (Z.leb_spec (Z.of_nat (length m) + 5) (Z.of_nat (4 + (1 + length m)))); [|lia].
    cbn [andb]. rewrite Nat2Z.id. f_equal.
    change (drop 5 _) with m. apply firstn_all. }
  split; [done|]. split; [done|]. split; [|exact Hmsg].
  change (Status_copy {| state_ := Some state |} = Some {| state_ := Some state |}).
  unfold Status_copy, CopyState. cbn [state_]. by rewrite Hmsg.
Qed.
