(* ===== verification/Iterator.v ===== *)
(** * Iterators (iterator.h, iterator.cc)

    The interface [leveldb::Iterator] and what an implementation of it promises: it
    is a cursor over a list of entries that is sorted by key.  Then the iterator
    over an index and the blocks it points to. *)

From Stdlib Require Import ZArith Lia.
From stdpp Require Import base option list strings gmap.
From S2P Require Import Prelude Memory Slice Status.

(** The virtual functions, on the state [S] of an implementation. *)
Class Iterator (S : Type) := {
  it_Valid : S -> bool;
  it_SeekToFirst : M S unit;
  it_SeekToLast : M S unit;
  it_Seek : Slice -> M S unit;
  it_Next : M S unit;
  it_Prev : M S unit;
  it_key : M S Slice;
  it_value : M S Slice;
  it_status : S -> option Status
}.

(** The cleanup functions that run when an iterator is destroyed: the first one is
    stored in the iterator, the others in a list behind it, the latest in front. *)
Definition RegisterCleanup {A} (c : A) (cleanup : list A) : list A :=
  match cleanup with
  | [] => [c]
  | first :: next => first :: c :: next
  end.

(** The empty iterator, with the status it was made with. *)
Definition EmptyIterator : Iterator Status := {|
  it_Valid _ := false;
  it_SeekToFirst := ret tt;
  it_SeekToLast := ret tt;
  it_Seek _ := ret tt;
  it_Next := ub;
  it_Prev := ub;
  it_key := ub;
  it_value := ub;
  it_status := Some
|}.

(** How many keys come before the target. *)
Definition keys_before (C : Comparator) (target : Slice) (kvs : list (Slice * Slice)) : nat :=
  length (List.filter (fun kv => match @Compare C kv.1 target with
                                 | Some r => r <? 0 | None => false end) kvs).

(** [pos i s]: in the state [s] the cursor is at entry [i]; behind the last entry
    it is not valid.  Every operation leads from such a state to another. *)
Record cursor_over {S} (I : Iterator S) (C : Comparator) (target_ok : Slice -> Prop)
    (kvs : list (Slice * Slice)) (pos : nat -> S -> Prop) : Prop := mk_cursor_over {
  cursor_entry i s k v : pos i s -> kvs !! i = Some (k, v) ->
    it_Valid s = true /\ it_key s = Ok k s /\ it_value s = Ok v s;
  cursor_end i s : pos i s -> (length kvs <= i)%nat -> it_Valid s = false;
  cursor_status i s : pos i s -> it_status s = Some Status_OK;
  cursor_first i s : pos i s -> exists s', it_SeekToFirst s = Ok tt s' /\ pos 0%nat s';
  cursor_last i s : pos i s ->
    exists s', it_SeekToLast s = Ok tt s' /\ pos (pred (length kvs)) s';
  cursor_seek i s target : pos i s -> target_ok target ->
    exists s', it_Seek target s = Ok tt s' /\ pos (keys_before C target kvs) s';
  cursor_next i s : pos i s -> (i < length kvs)%nat ->
    exists s', it_Next s = Ok tt s' /\ pos (Datatypes.S i) s';
  cursor_prev i s : pos i s -> (i < length kvs)%nat ->
    exists s', it_Prev s = Ok tt s' /\
      pos (match i with O => length kvs | Datatypes.S j => j end) s'
}.

(** The empty iterator is a cursor over nothing. *)
Lemma empty_cursor C target_ok : cursor_over EmptyIterator C target_ok [] (fun i s => i = 0%nat /\ s = Status_OK).
Proof.
  split; cbn [it_Valid it_key it_value it_status it_SeekToFirst it_SeekToLast it_Seek it_Next it_Prev EmptyIterator].
  - done.
  - done.
  - by intros i s [_ ->].
  - intros i s [_ ->]. by eexists.
  - intros i s [_ ->]. by eexists.
  - intros i s target [_ ->] _. by eexists.
  - cbn. lia.
  - cbn. lia.
Qed.

Section cursor.
Context {S} {I : Iterator S} {C : Comparator} {target_ok : Slice -> Prop}
        {kvs : list (Slice * Slice)} {pos : nat -> S -> Prop} (H : cursor_over I C target_ok kvs pos).

Lemma cursor_valid i s : pos i s -> it_Valid s = (i <? length kvs)%nat.
Proof.
  intros Hp. destruct (Nat.ltb_spec i (length kvs)) as [Hlt|Hge].
  - destruct (lookup_lt_is_Some_2 _ _ Hlt) as [[k v] E]. by destruct (cursor_entry _ _ _ _ _ H i s k v Hp E).
  - by apply (cursor_end _ _ _ _ _ H i).
Qed.

Lemma cursor_fewer_targets (target_ok' : Slice -> Prop) :
  (forall t, target_ok' t -> target_ok t) -> cursor_over I C target_ok' kvs pos.
Proof. intros Ht. destruct H. split; eauto. Qed.

End cursor.

(** * Two-level iterators (iterator_wrapper.h, two_level_iterator.h, two_level_iterator.cc)

    An iterator over the entries of the blocks that the values of an index
    iterator stand for.  The function that opens a block, its argument and what
    happens when a block iterator is destroyed are parameters. *)

(** ** IteratorWrapper *)

(** The iterator, if there is one, with what [Valid] and [key] last returned. *)
Record IteratorWrapper (S : Type) := mk_wrapper {
  iter_ : option S;
  valid_ : bool;
  wrapped_key_ : Slice
}.
Arguments mk_wrapper {S}. Arguments iter_ {S}. Arguments valid_ {S}. Arguments wrapped_key_ {S}.

Section wrapper.
Context {S : Type} {I : Iterator S}.

Abbreviation WM := (M (IteratorWrapper S)).

Definition new_IteratorWrapper : IteratorWrapper S := mk_wrapper None false [].

(** [assert(iter_); iter_->m()] *)
Definition on_iter {A} (m : M S A) : WM A := fun w =>
  match iter_ w with
  | Some s => zoom (fun _ => s) (fun s w => mk_wrapper (Some s) (valid_ w) (wrapped_key_ w)) m w
  | None => Ub
  end.

Definition Update : WM unit :=
  let! s := gets iter_ in
  let! s := or_ub s in
  if it_Valid s then
    let! k := on_iter it_key in modify (fun w => mk_wrapper (iter_ w) true k)
  else modify (fun w => mk_wrapper (iter_ w) false (wrapped_key_ w)).

(** The old iterator has been deleted. *)
Definition wrapper_Set (iter : option S) : WM unit :=
  modify (fun w => mk_wrapper iter (valid_ w) (wrapped_key_ w)) ;;;
  match iter with
  | None => modify (fun w => mk_wrapper None false (wrapped_key_ w))
  | Some _ => Update
  end.

Definition wrapper_key : WM Slice :=
  let! w := gets id in assert_ (valid_ w) ;;; ret (wrapped_key_ w).
Definition wrapper_value : WM Slice :=
  let! w := gets id in assert_ (valid_ w) ;;; on_iter it_value.
Definition wrapper_status (w : IteratorWrapper S) : option Status := s ← iter_ w; it_status s.
Definition wrapper_Next : WM unit := on_iter it_Next ;;; Update.
Definition wrapper_Prev : WM unit := on_iter it_Prev ;;; Update.
Definition wrapper_Seek (k : Slice) : WM unit := on_iter (it_Seek k) ;;; Update.
Definition wrapper_SeekToFirst : WM unit := on_iter it_SeekToFirst ;;; Update.
Definition wrapper_SeekToLast : WM unit := on_iter it_SeekToLast ;;; Update.

Definition has_iter (w : IteratorWrapper S) : bool := match iter_ w with Some _ => true | None => false end.

End wrapper.

(** ** TwoLevelIterator *)

(** [arg_] is what it points to, with what has changed there. *)
Record TwoLevelIterator (SI SD A : Type) := mk_two_level {
  arg_ : A;
  tstatus_ : Status;
  index_iter_ : IteratorWrapper SI;
  data_iter_ : IteratorWrapper SD;
  data_block_handle_ : Slice
}.
Arguments mk_two_level {SI SD A}. Arguments arg_ {SI SD A}. Arguments tstatus_ {SI SD A}.
Arguments index_iter_ {SI SD A}. Arguments data_iter_ {SI SD A}. Arguments data_block_handle_ {SI SD A}.

Section two_level.
Context {SI SD A : Type} {II : Iterator SI} {DI : Iterator SD}.
(** [block_function_] with its options, and the destructor of what it returns. *)
Context (block_function_ : Slice -> M A SD) (delete : SD -> M A unit).
(** As many blocks as can be skipped in a row. *)
Context (fuel : nat).

Abbreviation T := (TwoLevelIterator SI SD A).

Definition on_arg {B} : M A B -> M T B :=
  zoom arg_ (fun a t => mk_two_level a (tstatus_ t) (index_iter_ t) (data_iter_ t) (data_block_handle_ t)).
Definition on_index_iter {B} : M (IteratorWrapper SI) B -> M T B :=
  zoom index_iter_ (fun w t => mk_two_level (arg_ t) (tstatus_ t) w (data_iter_ t) (data_block_handle_ t)).
Definition on_data_iter {B} : M (IteratorWrapper SD) B -> M T B :=
  zoom data_iter_ (fun w t => mk_two_level (arg_ t) (tstatus_ t) (index_iter_ t) w (data_block_handle_ t)).

Definition NewTwoLevelIterator (index_iter : SI) (arg : A) : option T :=
  match wrapper_Set (Some index_iter) new_IteratorWrapper with
  | Ok _ w => Some (mk_two_level arg Status_OK w new_IteratorWrapper [])
  | _ => None
  end.

Definition two_level_Valid (t : T) : bool := valid_ (data_iter_ t).
Definition two_level_key : M T Slice :=
  let! t := gets id in assert_ (two_level_Valid t) ;;; on_data_iter wrapper_key.
Definition two_level_value : M T Slice :=
  let! t := gets id in assert_ (two_level_Valid t) ;;; on_data_iter wrapper_value.
Definition two_level_status (t : T) : option Status :=
  s ← wrapper_status (index_iter_ t);
  if negb (ok s) then Some s
  else if has_iter (data_iter_ t) then
    d ← wrapper_status (data_iter_ t);
    Some (if negb (ok d) then d else tstatus_ t)
  else Some (tstatus_ t).

Definition SaveError (s : Status) : M T unit :=
  modify (fun t => if ok (tstatus_ t) && negb (ok s)
                   then mk_two_level (arg_ t) s (index_iter_ t) (data_iter_ t) (data_block_handle_ t) else t).

Definition SetDataIterator (data_iter : option SD) : M T unit :=
  let! t := gets id in
  match iter_ (data_iter_ t) with
  | Some d =>
      let! s := or_ub (wrapper_status (data_iter_ t)) in
      SaveError s ;;; on_arg (delete d)
  | None => ret tt
  end ;;;
  on_data_iter (wrapper_Set data_iter).

Definition InitDataBlock : M T unit :=
  let! t := gets id in
  if negb (valid_ (index_iter_ t)) then SetDataIterator None
  else
    let! handle := on_index_iter wrapper_value in
    if has_iter (data_iter_ t) && (compare handle (data_block_handle_ t) =? 0) then ret tt
    else
      let! iter := on_arg (block_function_ handle) in
      modify (fun t => mk_two_level (arg_ t) (tstatus_ t) (index_iter_ t) (data_iter_ t) handle) ;;;
      SetDataIterator (Some iter).

(** [if (data_iter_.iter() != NULL) data_iter_.m()] *)
Definition if_data (m : M (IteratorWrapper SD) unit) : M T unit :=
  let! t := gets id in if has_iter (data_iter_ t) then on_data_iter m else ret tt.

Definition data_exhausted (t : T) : bool := negb (has_iter (data_iter_ t)) || negb (valid_ (data_iter_ t)).

Definition SkipEmptyDataBlocksForward : M T unit :=
  loop fuel (fun _ =>
    let! t := gets id in
    if data_exhausted t then
      if negb (valid_ (index_iter_ t)) then SetDataIterator None ;;; ret (inr tt)
      else
        on_index_iter wrapper_Next ;;; InitDataBlock ;;; if_data wrapper_SeekToFirst ;;; ret (inl tt)
    else ret (inr tt)) tt.

Definition SkipEmptyDataBlocksBackward : M T unit :=
  loop fuel (fun _ =>
    let! t := gets id in
    if data_exhausted t then
      if negb (valid_ (index_iter_ t)) then SetDataIterator None ;;; ret (inr tt)
      else
        on_index_iter wrapper_Prev ;;; InitDataBlock ;;; if_data wrapper_SeekToLast ;;; ret (inl tt)
    else ret (inr tt)) tt.

Definition two_level_Seek (target : Slice) : M T unit :=
  on_index_iter (wrapper_Seek target) ;;; InitDataBlock ;;; if_data (wrapper_Seek target) ;;;
  SkipEmptyDataBlocksForward.
Definition two_level_SeekToFirst : M T unit :=
  on_index_iter wrapper_SeekToFirst ;;; InitDataBlock ;;; if_data wrapper_SeekToFirst ;;;
  SkipEmptyDataBlocksForward.
Definition two_level_SeekToLast : M T unit :=
  on_index_iter wrapper_SeekToLast ;;; InitDataBlock ;;; if_data wrapper_SeekToLast ;;;
  SkipEmptyDataBlocksBackward.
Definition two_level_Next : M T unit :=
  let! t := gets id in
  assert_ (two_level_Valid t) ;;; on_data_iter wrapper_Next ;;; SkipEmptyDataBlocksForward.
Definition two_level_Prev : M T unit :=
  let! t := gets id in
  assert_ (two_level_Valid t) ;;; on_data_iter wrapper_Prev ;;; SkipEmptyDataBlocksBackward.

Definition TwoLevel_Iterator : Iterator T := {|
  it_Valid := two_level_Valid;
  it_SeekToFirst := two_level_SeekToFirst;
  it_SeekToLast := two_level_SeekToLast;
  it_Seek := two_level_Seek;
  it_Next := two_level_Next;
  it_Prev := two_level_Prev;
  it_key := two_level_key;
  it_value := two_level_value;
  it_status := two_level_status
|}.

(** The destructor: the data iterator is destroyed before the index iterator. *)
Definition two_level_delete (delete_index : SI -> M A unit) : M T unit :=
  let! t := gets id in
  match iter_ (data_iter_ t) with Some d => on_arg (delete d) | None => ret tt end ;;;
  match iter_ (index_iter_ t) with Some i => on_arg (delete_index i) | None => ret tt end.

End two_level.
