(* ===== verification/TwoLevelProof.v ===== *)
(** * A two-level iterator is a cursor

    If the index iterator is a cursor over separators and handles, and the block
    function opens cursors over blocks that the separators separate, the two-level
    iterator is a cursor over the entries of all blocks. *)

From Stdlib Require Import ZArith Lia.
From stdpp Require Import base option list strings sorting gmap.
From S2P Require Import Prelude Memory Slice Status Iterator.

(** ** Wrapped cursors *)

Section wrapped.
Context {S : Type} {I : Iterator S} {C : Comparator} {target_ok : Slice -> Prop}
        {kvs : list (Slice * Slice)} {pos : nat -> S -> Prop} (H : cursor_over I C target_ok kvs pos).

(** The wrapper of a cursor at entry [i] has cached what the cursor says. *)
Definition wrapped (i : nat) (w : IteratorWrapper S) : Prop :=
  exists s, iter_ w = Some s /\ pos i s /\ valid_ w = (i <? length kvs)%nat /\
            (forall k v, kvs !! i = Some (k, v) -> wrapped_key_ w = k).

Lemma on_iter_ok {A} (m : M S A) w s a s' :
  iter_ w = Some s -> m s = Ok a s' -> on_iter m w = Ok a (mk_wrapper (Some s') (valid_ w) (wrapped_key_ w)).
Proof. intros Hs Hm. unfold on_iter. rewrite Hs. unfold zoom. by rewrite Hm. Qed.

Lemma Update_ok i s w : iter_ w = Some s -> pos i s -> exists w', Update w = Ok tt w' /\ wrapped i w'.
Proof.
  intros Hs Hp. unfold Update. rewrite bind_gets, (bind_or_ub _ s) by done.
  pose proof (cursor_valid H i s Hp) as Hv. rewrite Hv. destruct (Nat.ltb_spec i (length kvs)) as [Hlt|Hge].
  - destruct (lookup_lt_is_Some_2 _ _ Hlt) as [[k v] E].
    destruct (cursor_entry _ _ _ _ _ H i s k v Hp E) as (_ & Hk & _).
    rewrite (bind_ok _ _ _ _ _ (on_iter_ok _ _ _ _ _ Hs Hk)). eexists. split; [done|].
    exists s. cbn [iter_ valid_ wrapped_key_]. rewrite E.
    split; [done|]. split; [done|]. split; [symmetry; by apply Nat.ltb_lt|by intros ? ? [= <- <-]].
  - eexists. split; [done|]. exists s. cbn [iter_ valid_ wrapped_key_]. rewrite Hs.
    split; [done|]. split; [done|]. split; [symmetry; by apply Nat.ltb_ge|].
    intros k v E. apply lookup_lt_Some in E. lia.
Qed.

(** A move of the cursor is a move of the wrapper. *)
Lemma wrapper_move (m : M S unit) w i' s s' :
  iter_ w = Some s -> m s = Ok tt s' -> pos i' s' ->
  exists w', (on_iter m ;;; Update) w = Ok tt w' /\ wrapped i' w'.
Proof.
  intros Hs Hm Hp. rewrite (bind_ok _ _ _ _ _ (on_iter_ok _ _ _ _ _ Hs Hm)). by eapply Update_ok.
Qed.

Lemma wrapper_Set_ok i s w : pos i s -> exists w', wrapper_Set (Some s) w = Ok tt w' /\ wrapped i w'.
Proof. intros Hp. unfold wrapper_Set. rewrite bind_modify. by eapply Update_ok. Qed.

Lemma wrapper_value_ok i w k v : wrapped i w -> kvs !! i = Some (k, v) -> wrapper_value w = Ok v w.
Proof.
  intros (s & Hs & Hp & Hv & Hk) E. pose proof (lookup_lt_Some _ _ _ E) as Hlt.
  unfold wrapper_value. rewrite bind_gets. unfold id.
  rewrite bind_assert by (rewrite Hv; by apply Nat.ltb_lt).
  destruct (cursor_entry _ _ _ _ _ H i s k v Hp E) as (_ & _ & Hval).
  rewrite (on_iter_ok _ _ _ _ _ Hs Hval). f_equal. destruct w. cbn in *. by subst.
Qed.

Lemma wrapper_key_ok i w k v : wrapped i w -> kvs !! i = Some (k, v) -> wrapper_key w = Ok k w.
Proof.
  intros (s & Hs & Hp & Hv & Hk) E. pose proof (lookup_lt_Some _ _ _ E) as Hlt.
  unfold wrapper_key. rewrite bind_gets. unfold id.
  rewrite bind_assert by (rewrite Hv; by apply Nat.ltb_lt). by rewrite (Hk k v E).
Qed.

Lemma wrapper_status_ok i w : wrapped i w -> wrapper_status w = Some Status_OK.
Proof.
  intros (s & Hs & Hp & _). unfold wrapper_status. rewrite Hs. cbn.
  by rewrite (cursor_status _ _ _ _ _ H i s Hp).
Qed.

Lemma wrapper_valid i w : wrapped i w -> valid_ w = (i <? length kvs)%nat.
Proof. by intros (s & _ & _ & Hv & _). Qed.

Lemma wrapper_has i w : wrapped i w -> has_iter w = true.
Proof. intros (s & Hs & _). unfold has_iter. by rewrite Hs. Qed.

Lemma wrapper_SeekToFirst_ok i w : wrapped i w -> exists w', wrapper_SeekToFirst w = Ok tt w' /\ wrapped 0 w'.
Proof.
  intros (s & Hs & Hp & _). destruct (cursor_first _ _ _ _ _ H i s Hp) as (s' & E & Hp').
  by apply (wrapper_move _ w 0%nat s s').
Qed.

Lemma wrapper_SeekToLast_ok i w :
  wrapped i w -> exists w', wrapper_SeekToLast w = Ok tt w' /\ wrapped (pred (length kvs)) w'.
Proof.
  intros (s & Hs & Hp & _). destruct (cursor_last _ _ _ _ _ H i s Hp) as (s' & E & Hp').
  by apply (wrapper_move _ w (pred (length kvs)) s s').
Qed.

Lemma wrapper_Seek_ok i w target : wrapped i w -> target_ok target ->
  exists w', wrapper_Seek target w = Ok tt w' /\ wrapped (keys_before C target kvs) w'.
Proof.
  intros (s & Hs & Hp & _) Ht. destruct (cursor_seek _ _ _ _ _ H i s target Hp Ht) as (s' & E & Hp').
  by apply (wrapper_move _ w (keys_before C target kvs) s s').
Qed.

Lemma wrapper_Next_ok i w : wrapped i w -> (i < length kvs)%nat ->
  exists w', wrapper_Next w = Ok tt w' /\ wrapped (Datatypes.S i) w'.
Proof.
  intros (s & Hs & Hp & _) Hi. destruct (cursor_next _ _ _ _ _ H i s Hp Hi) as (s' & E & Hp').
  by apply (wrapper_move _ w (Datatypes.S i) s s').
Qed.

Lemma wrapper_Prev_ok i w : wrapped i w -> (i < length kvs)%nat ->
  exists w', wrapper_Prev w = Ok tt w' /\
             wrapped (match i with O => length kvs | Datatypes.S j => j end) w'.
Proof.
  intros (s & Hs & Hp & _) Hi. destruct (cursor_prev _ _ _ _ _ H i s Hp Hi) as (s' & E & Hp').
  by apply (wrapper_move _ w _ s s').
Qed.

End wrapped.
Arguments wrapped {S} kvs pos i w.

(** ** Counting the keys before a target *)

Definition before (C : Comparator) (a target : Slice) : bool :=
  match @Compare C a target with Some r => r <? 0 | None => false end.

Lemma keys_before_filter C target kvs :
  keys_before C target kvs = length (List.filter (fun kv => before C kv.1 target) kvs).
Proof. done. Qed.

Lemma keys_before_app C target l l' :
  keys_before C target (l ++ l') = (keys_before C target l + keys_before C target l')%nat.
Proof. by rewrite !keys_before_filter, List.filter_app, length_app. Qed.

Lemma keys_before_all C target l :
  (forall k v, (k, v) ∈ l -> before C k target = true) -> keys_before C target l = length l.
Proof.
  intros H. rewrite keys_before_filter, filter_all; [done|]. apply Forall_forall. intros [k v] Hin. by apply (H k v).
Qed.

Lemma keys_before_none C target l :
  (forall k v, (k, v) ∈ l -> before C k target = false) -> keys_before C target l = 0%nat.
Proof.
  intros H. rewrite keys_before_filter, filter_none; [done|]. apply Forall_forall. intros [k v] Hin. by apply (H k v).
Qed.

Lemma keys_before_le C target l : (keys_before C target l <= length l)%nat.
Proof. rewrite keys_before_filter. apply List.filter_length_le. Qed.

Lemma keys_before_full C target l : (length l <= keys_before C target l)%nat ->
  forall k v, (k, v) ∈ l -> before C k target = true.
Proof.
  rewrite keys_before_filter. induction l as [|kv l IH]; intros Hl k v Hin; [by apply not_elem_of_nil in Hin|].
  pose proof (List.filter_length_le (fun kv => before C kv.1 target) l) as Hle. cbn [List.filter length] in Hl.
  destruct (before C kv.1 target) eqn:E; [|cbn in Hl; lia]. destruct kv as [k0 v0].
  apply elem_of_cons in Hin as [[= -> ->]|Hin]; [done|]. apply (IH ltac:(cbn in Hl; lia) k v Hin).
Qed.

(** A property of a prefix of a list holds of as many elements as it selects. *)
Lemma filter_length_prefix {A} (f : A -> bool) l :
  (forall i j x y, l !! i = Some x -> l !! j = Some y -> (i < j)%nat -> f y = true -> f x = true) ->
  forall i x, l !! i = Some x -> f x = (i <? length (List.filter f l))%nat.
Proof.
  induction l as [|a l IH]; intros Hmono i x Hi; [done|]. cbn [List.filter].
  destruct (f a) eqn:Ea.
  - destruct i as [|i]; [injection Hi as <-; by rewrite Ea|].
    rewrite (IH (fun i j x y Hi Hj Hij => Hmono (S i) (S j) x y Hi Hj ltac:(lia)) i x Hi). done.
  - assert (forall j y, l !! j = Some y -> f y = false) as Hnone.
    { intros j y Hj. destruct (f y) eqn:Ey; [|done]. rewrite <- Ea. symmetry.
      by apply (Hmono 0%nat (S j) a y eq_refl Hj ltac:(lia)). }
    rewrite filter_none by (apply Forall_lookup; intros; by eapply Hnone).
    destruct i as [|i]; [injection Hi as <-; by rewrite Ea|]. by rewrite (Hnone i x Hi).
Qed.

(** ** Separated blocks *)

Section blocks.
Context (C : Comparator) {L : ComparatorLaws C}.
(** The entries of the index, a separator and a handle each, and the blocks. *)
Context (index : list (Slice * Slice)) (content : Slice -> list (Slice * Slice)).

Record separated : Prop := mk_separated {
  sep_valid i sep h : index !! i = Some (sep, h) -> valid sep;
  sep_keys i sep h k v : index !! i = Some (sep, h) -> (k, v) ∈ content h -> valid k;
  sep_sorted i j a b : index !! i = Some a -> index !! j = Some b -> (i < j)%nat -> before C a.1 b.1 = true;
  sep_above i sep h k v : index !! i = Some (sep, h) -> (k, v) ∈ content h ->
    exists r, @Compare C k sep = Some r /\ r <= 0;
  sep_below i j a b k v : index !! i = Some a -> index !! j = Some b -> (i < j)%nat ->
    (k, v) ∈ content b.2 -> before C a.1 k = true
}.

(** All entries, and how many there are before block [i]. *)
Definition all_entries : list (Slice * Slice) := concat (content <$> index.*2).
Definition base (i : nat) : nat := length (concat (content <$> take i (index.*2))).

Lemma base_0 : base 0 = 0%nat.
Proof. done. Qed.

Lemma base_S i sep h : index !! i = Some (sep, h) -> base (S i) = (base i + length (content h))%nat.
Proof.
  intros Hi. unfold base. rewrite (take_S_r _ _ h) by (by rewrite list_lookup_fmap, Hi).
  rewrite fmap_app, concat_app, length_app. cbn. by rewrite app_nil_r.
Qed.

Lemma base_end i : (length index <= i)%nat -> base i = length all_entries.
Proof. intros Hi. unfold base, all_entries. by rewrite take_ge by (by rewrite length_fmap). Qed.

Lemma entries_split i sep h : index !! i = Some (sep, h) ->
  all_entries = concat (content <$> take i (index.*2)) ++ content h ++
                concat (content <$> drop (S i) (index.*2)).
Proof.
  intros Hi. unfold all_entries. rewrite <- (take_drop_middle (index.*2) i h) at 1
    by (by rewrite list_lookup_fmap, Hi).
  by rewrite fmap_app, concat_app, fmap_cons.
Qed.

Lemma entries_lookup i j sep h : index !! i = Some (sep, h) -> (j < length (content h))%nat ->
  all_entries !! (base i + j)%nat = content h !! j.
Proof.
  intros Hi Hj. rewrite (entries_split i sep h Hi). unfold base.
  rewrite lookup_app_r by lia. rewrite lookup_app_l by lia. f_equal. lia.
Qed.

Lemma base_le i j sep h : index !! i = Some (sep, h) -> (j <= length (content h))%nat ->
  (base i + j <= length all_entries)%nat.
Proof.
  intros Hi Hj. rewrite (entries_split i sep h Hi), !length_app. unfold base. lia.
Qed.

Lemma elem_of_blocks k v hs : (k, v) ∈ concat (content <$> hs) -> exists j h, hs !! j = Some h /\ (k, v) ∈ content h.
Proof.
  induction hs as [|h hs IH]; cbn; [by intros ?%elem_of_nil|]. intros [Hin|Hin]%elem_of_app.
  - by exists 0%nat, h.
  - destruct (IH Hin) as (j & h' & ? & ?). by exists (S j), h'.
Qed.

Context (Hsep : separated).

Lemma key_before_trans a b c : valid a -> valid b -> valid c ->
  before C a b = true -> before C b c = true -> before C a c = true.
Proof.
  unfold before. intros Ha Hb Hc.
  destruct (Compare a b) as [r1|] eqn:E1; [|done]. destruct (Compare b c) as [r2|] eqn:E2; [|done].
  intros H1%Z.ltb_lt H2%Z.ltb_lt.
  destruct (compare_trans a b c r1 r2 Ha Hb Hc E1 E2 ltac:(lia) ltac:(lia)) as (r & -> & _ & Hr).
  apply Z.ltb_lt, Hr. by left.
Qed.

Lemma before_le_trans a b c r : valid a -> valid b -> valid c ->
  @Compare C a b = Some r -> r <= 0 -> before C b c = true -> before C a c = true.
Proof.
  unfold before. intros Ha Hb Hc E1 H1. destruct (Compare b c) as [r2|] eqn:E2; [|done].
  intros H2%Z.ltb_lt.
  destruct (compare_trans a b c r r2 Ha Hb Hc E1 E2 H1 ltac:(lia)) as (r' & -> & _ & Hr).
  apply Z.ltb_lt, Hr. by right.
Qed.

Lemma separators_before target j a : valid target -> index !! j = Some a ->
  before C a.1 target = (j <? keys_before C target index)%nat.
Proof.
  intros Ht. apply (filter_length_prefix (fun a => before C a.1 target)).
  intros i j' [a1 h] [b h'] Hj Hj' Hlt Hb.
  apply (key_before_trans a1 b target); try done; [by eapply sep_valid|by eapply sep_valid|].
  by apply (sep_sorted Hsep i j' (a1, h) (b, h')).
Qed.

(** A key is looked for in the first block whose separator is not before it. *)
Lemma seek_position target : valid target ->
  let i := keys_before C target index in
  keys_before C target all_entries =
    (base i + match index !! i with Some (_, h) => keys_before C target (content h) | None => 0 end)%nat.
Proof.
  intros Ht i.
  assert (forall j a, index !! j = Some a -> before C a.1 target = (j <? i)%nat) as Hi
    by (intros j a; by apply separators_before).
  assert (keys_before C target (concat (content <$> take i (index.*2))) = base i) as Hfront.
  { apply keys_before_all. intros k v (j & h & Hj & Hin)%elem_of_blocks.
    apply lookup_take_Some in Hj as [Hj Hlt].
    apply list_lookup_fmap_Some in Hj as ([sep h'] & -> & Hj). cbn [snd] in *.
    destruct (sep_above Hsep j sep h' k v Hj Hin) as (r & Er & Hr).
    apply (before_le_trans k sep target r); try done; [by eapply sep_keys|by eapply sep_valid|].
    change sep with (sep, h').1. rewrite (Hi j _ Hj). by apply Nat.ltb_lt. }
  destruct (index !! i) as [[sep h]|] eqn:E.
  - rewrite (entries_split i sep h E), !keys_before_app, Hfront. f_equal.
    assert (keys_before C target (concat (content <$> drop (S i) (index.*2))) = 0%nat) as ->; [|lia].
    apply keys_before_none. intros k v (j & h' & Hj & Hin)%elem_of_blocks. rewrite lookup_drop in Hj.
    apply list_lookup_fmap_Some in Hj as ([sep' h''] & -> & Hj). cbn [snd] in *.
    destruct (before C k target) eqn:Ek; [|done]. exfalso.
    pose proof (sep_below Hsep i (S i + j) _ _ k v E Hj ltac:(lia) Hin) as Hb. cbn [fst] in Hb.
    pose proof (Hi i _ E) as Hni. cbn [fst] in Hni. rewrite Nat.ltb_irrefl in Hni.
    rewrite (key_before_trans sep k target) in Hni; try done; [by eapply sep_valid|by eapply sep_keys].
  - unfold all_entries. rewrite <- (take_ge (index.*2) i) at 1
      by (rewrite length_fmap; by apply lookup_ge_None_1).
    rewrite Hfront. lia.
Qed.

End blocks.

(** ** The iterator *)

Section two_level.
Context {SI SD A P : Type} {II : Iterator SI} {DI : Iterator SD} (C : Comparator) {L : ComparatorLaws C}.
Context (block_function : Slice -> M A SD) (delete : SD -> M A unit).
Context (target_ok : Slice -> Prop) (target_valid : forall t, target_ok t -> valid t).
Context (index : list (Slice * Slice)) (content : Slice -> list (Slice * Slice)).
Context (ipos : nat -> SI -> Prop) (dpos : Slice -> P -> nat -> SD -> Prop) (arg_inv : list P -> A -> Prop)
  (max_held : nat).

(** What opening and destroying block iterators does: [arg_inv l a] says that the
    iterators that hold [l] have not been destroyed; there can be [max_held] of them. *)
Record block_source : Prop := mk_block_source {
  bs_cursor h p : h ∈ index.*2 -> cursor_over DI C target_ok (content h) (dpos h p);
  bs_open l a h : arg_inv l a -> (length l < max_held)%nat -> h ∈ index.*2 ->
    exists d p a', block_function h a = Ok d a' /\ arg_inv (p :: l) a' /\ dpos h p (length (content h)) d;
  bs_delete h p i d l a : h ∈ index.*2 -> dpos h p i d -> arg_inv (p :: l) a ->
    exists a', delete d a = Ok tt a' /\ arg_inv l a';
  bs_perm l l' a : l ≡ₚ l' -> arg_inv l a -> arg_inv l' a
}.

Context (HI : cursor_over II C target_ok index ipos) (HB : block_source).
Context (Hsep : separated C index content).

Abbreviation T := (TwoLevelIterator SI SD A).
Abbreviation kvs := (all_entries index content).

Section held.
(** What other iterators hold. *)
Context (l : list P) (Hmax : (S (length l) < max_held)%nat).

(** A data iterator at entry [j] of the block with the handle [h]. *)
Definition data_at (h : Slice) (j : nat) (t : T) : Prop :=
  exists p, arg_inv (p :: l) (arg_ t) /\ wrapped (content h) (dpos h p) j (data_iter_ t) /\
            data_block_handle_ t = h /\ (j <= length (content h))%nat.

Definition no_data (t : T) : Prop :=
  arg_inv l (arg_ t) /\ iter_ (data_iter_ t) = None /\ valid_ (data_iter_ t) = false.

Definition index_at (i : nat) (t : T) : Prop :=
  tstatus_ t = Status_OK /\ wrapped index ipos i (index_iter_ t) /\ (i <= length index)%nat.

(** The index iterator has moved; the data iterator may not have followed. *)
Definition loose (i : nat) (t : T) : Prop :=
  index_at i t /\ (no_data t \/ exists h j, h ∈ index.*2 /\ data_at h j t).

Definition at_block (i j : nat) (t : T) : Prop :=
  index_at i t /\ match index !! i with Some (_, h) => data_at h j t | None => no_data t /\ j = 0%nat end.

(** At entry [n] of all. *)
Definition two_level_pos (n : nat) (t : T) : Prop :=
  exists i j, at_block i j t /\ n = (base index content i + j)%nat /\
    forall sep h, index !! i = Some (sep, h) -> (j < length (content h))%nat.

Lemma index_handle i sep h : index !! i = Some (sep, h) -> h ∈ index.*2.
Proof. intros Hi. apply list_elem_of_lookup. exists i. by rewrite list_lookup_fmap, Hi. Qed.

Lemma at_block_loose i j t : at_block i j t -> loose i t.
Proof.
  intros [Hi H]. split; [done|]. destruct (index !! i) as [[sep h]|] eqn:E; [|left; apply H].
  right. exists h, j. split; [by eapply index_handle|done].
Qed.

(** The old data iterator is destroyed, a new one put in its place. *)
Lemma SetDataIterator_none i t :
  loose i t -> exists t', SetDataIterator delete None t = Ok tt t' /\ index_at i t' /\ no_data t'.
Proof.
  intros [(Hs & Hw & Hle) Hd]. unfold SetDataIterator. rewrite bind_gets. unfold id.
  destruct Hd as [(Ha & Hn & Hv)|(h & j & Hh & p & Ha & Hwd & Hdh & Hj)].
  - rewrite Hn, bind_ret. eexists. split; [done|]. split; [done|]. done.
  - destruct Hwd as (d & Hd & Hp & Hwd). rewrite Hd, bind_assoc.
    rewrite (bind_or_ub _ Status_OK)
      by (eapply (wrapper_status_ok (bs_cursor HB h p Hh)); by exists d).
    rewrite bind_assoc. unfold SaveError. rewrite bind_modify. cbn [ok state_ Status_OK negb].
    rewrite andb_false_r. destruct (bs_delete HB h p j d l _ Hh Hp Ha) as (a' & E & Ha').
    unfold on_arg. rewrite (bind_ok _ _ _ _ _ (zoom_ok arg_ _ _ _ _ _ E)).
    eexists. split; [done|]. by split.
Qed.

Lemma SetDataIterator_new d p h i t :
  index_at i t -> h ∈ index.*2 -> data_block_handle_ t = h -> dpos h p (length (content h)) d ->
  (arg_inv (p :: l) (arg_ t) /\ iter_ (data_iter_ t) = None \/
   exists h0 p0 j, h0 ∈ index.*2 /\ arg_inv (p :: p0 :: l) (arg_ t) /\
                   wrapped (content h0) (dpos h0 p0) j (data_iter_ t)) ->
  exists t', SetDataIterator delete (Some d) t = Ok tt t' /\ index_at i t' /\ data_at h (length (content h)) t'.
Proof.
  intros (Hs & Hw & Hle) Hh Hdh Hp Hd. unfold SetDataIterator. rewrite bind_gets. unfold id.
  destruct Hd as [(Ha & Hn)|(h0 & p0 & j & Hh0 & Ha & d0 & Hd0 & Hp0 & Hwd)].
  - rewrite Hn, bind_ret.
    destruct (wrapper_Set_ok (bs_cursor HB h p Hh) _ d (data_iter_ t) Hp) as (w' & E & Hw').
    eexists. split; [eapply zoom_ok; exact E|].
    split; [done|]. by exists p.
  - rewrite Hd0, bind_assoc.
    rewrite (bind_or_ub _ Status_OK) by (eapply (wrapper_status_ok (bs_cursor HB h0 p0 Hh0)); by exists d0).
    rewrite bind_assoc. unfold SaveError. rewrite bind_modify. cbn [ok state_ Status_OK negb].
    rewrite andb_false_r.
    destruct (bs_delete HB h0 p0 j d0 (p :: l) (arg_ t) Hh0 Hp0) as (a' & E & Ha').
    { by apply (bs_perm HB (p :: p0 :: l)); [constructor|]. }
    unfold on_arg. rewrite (bind_ok _ _ _ _ _ (zoom_ok arg_ _ _ _ _ _ E)).
    destruct (wrapper_Set_ok (bs_cursor HB h p Hh) _ d (data_iter_ t) Hp) as (w' & E' & Hw').
    eexists. split; [eapply zoom_ok; exact E'|].
    split; [done|]. by exists p.
Qed.

Lemma InitDataBlock_ok i t :
  loose i t -> exists t' j, InitDataBlock block_function delete t = Ok tt t' /\ at_block i j t'.
Proof.
  intros [Hi Hd]. pose proof Hi as (Hs & Hw & Hle). unfold InitDataBlock. rewrite bind_gets. unfold id.
  rewrite (wrapper_valid _ _ Hw). unfold at_block.
  destruct (Nat.ltb_spec i (length index)) as [Hlt|Hge]; cbn [negb].
  2:{ destruct (SetDataIterator_none i t (conj Hi Hd)) as (t' & E & Hi' & Hn').
      exists t', 0%nat. split; [done|]. split; [done|]. by rewrite lookup_ge_None_2. }
  destruct (lookup_lt_is_Some_2 _ _ Hlt) as [[sep h] E]. rewrite E.
  pose proof (index_handle _ _ _ E) as Hh.
  pose proof (wrapper_value_ok HI i (index_iter_ t) sep h Hw E) as Ev.
  unfold on_index_iter. rewrite (bind_ok _ _ _ _ _ (zoom_ok index_iter_ _ _ _ _ _ Ev)).
  match goal with |- context [mk_two_level ?a ?b ?c ?d ?e] =>
    assert (mk_two_level a b c d e = t) as -> by (by destruct t) end.
  destruct (has_iter (data_iter_ t) && (compare h (data_block_handle_ t) =? 0)) eqn:Esame.
  - apply andb_prop in Esame as [Hhas Heq%Z.eqb_eq%compare_eq].
    destruct Hd as [(_ & Hn & _)|(h0 & j & Hh0 & Hd)]; [unfold has_iter in Hhas; by rewrite Hn in Hhas|].
    exists t, j. split; [done|]. split; [done|].
    assert (h0 = h) as -> by (destruct Hd as (? & _ & _ & <- & _); done). done.
  - assert (exists pins, arg_inv pins (arg_ t) /\
      (pins = l /\ iter_ (data_iter_ t) = None \/
       exists h0 p0 j, h0 ∈ index.*2 /\ pins = p0 :: l /\ wrapped (content h0) (dpos h0 p0) j (data_iter_ t)))
      as (pins & Ha & Hpins).
    { destruct Hd as [(Ha & Hn & _)|(h0 & j & Hh0 & p0 & Ha & Hwd & _)]; [by exists l; auto|].
      exists (p0 :: l). split; [done|]. right. by exists h0, p0, j. }
    assert (length pins < max_held)%nat as Hpl by (destruct Hpins as [[-> _]|(? & ? & ? & _ & -> & _)]; cbn [length]; lia).
    destruct (bs_open HB _ _ h Ha Hpl Hh) as (d & p & a' & Eo & Ha' & Hp).
    unfold on_arg. rewrite (bind_ok _ _ _ _ _ (zoom_ok arg_ _ _ _ _ _ Eo)), bind_modify.
    match goal with |- context [SetDataIterator _ _ ?t1] =>
      destruct (SetDataIterator_new d p h i t1) as (t' & E' & Hi' & Hd') end; try done.
    + destruct Hpins as [[-> Hn]|(h0 & p0 & j & Hh0 & -> & Hwd)]; [by left|]. right. by exists h0, p0, j.
    + by exists t', (length (content h)).
Qed.

(** A move of the data iterator, if there is one. *)
Lemma if_data_ok (m : M (IteratorWrapper SD) unit) (next : Slice -> nat) i j t :
  at_block i j t ->
  (forall h p w, h ∈ index.*2 -> wrapped (content h) (dpos h p) j w -> (j <= length (content h))%nat ->
     exists w', m w = Ok tt w' /\ wrapped (content h) (dpos h p) (next h) w' /\ (next h <= length (content h))%nat) ->
  exists t', if_data m t = Ok tt t' /\
    at_block i (match index !! i with Some (_, h) => next h | None => 0%nat end) t'.
Proof.
  intros [Hi Hd] Hm. unfold if_data, at_block. rewrite bind_gets. unfold id.
  destruct (index !! i) as [[sep h]|] eqn:E.
  - destruct Hd as (p & Ha & Hw & Hdh & Hj). pose proof (index_handle _ _ _ E) as Hh.
    rewrite (wrapper_has _ _ Hw). destruct (Hm h p _ Hh Hw Hj) as (w' & Em & Hw' & Hj').
    eexists. split; [eapply zoom_ok; exact Em|].
    split; [done|]. by exists p.
  - destruct Hd as [(Ha & Hn & Hv) _]. unfold has_iter. rewrite Hn. by exists t.
Qed.

Lemma at_block_exhausted i j t : at_block i j t ->
  data_exhausted t =
  match index !! i with Some (_, h) => negb (j <? length (content h))%nat | None => true end.
Proof.
  intros [_ Hd]. unfold data_exhausted. destruct (index !! i) as [[sep h]|] eqn:E.
  - destruct Hd as (p & _ & Hw & _). by rewrite (wrapper_has _ _ Hw), (wrapper_valid _ _ Hw).
  - destruct Hd as [(_ & Hn & _) _]. unfold has_iter. by rewrite Hn.
Qed.

Lemma at_block_pos i j t :
  at_block i j t -> (forall sep h, index !! i = Some (sep, h) -> (j < length (content h))%nat) ->
  two_level_pos (base index content i + j) t.
Proof. intros H Hj. by exists i, j. Qed.

(** The index moves to a block, which is opened and entered. *)
Lemma enter_block (move : M (IteratorWrapper SI) unit) (m : M (IteratorWrapper SD) unit) next i i' t :
  loose i t -> (i' <= length index)%nat ->
  (forall w, wrapped index ipos i w -> exists w', move w = Ok tt w' /\ wrapped index ipos i' w') ->
  (forall h p j w, h ∈ index.*2 -> wrapped (content h) (dpos h p) j w -> (j <= length (content h))%nat ->
     exists w', m w = Ok tt w' /\ wrapped (content h) (dpos h p) (next h) w' /\ (next h <= length (content h))%nat) ->
  exists t', (forall B (k : M T B), (on_index_iter move ;;; InitDataBlock block_function delete ;;; if_data m ;;; k) t = k t') /\
    at_block i' (match index !! i' with Some (_, h) => next h | None => 0%nat end) t'.
Proof.
  intros [(Hs & Hw & Hle) Hd] Hi' Hmove Hm. destruct (Hmove _ Hw) as (w' & Ew & Hw').
  match goal with |- context [on_index_iter move] =>
    pose proof (zoom_ok index_iter_
      (fun w t => mk_two_level (arg_ t) (tstatus_ t) w (data_iter_ t) (data_block_handle_ t)) _ t _ _ Ew) as E1
  end. cbn beta in E1.
  match type of E1 with _ = Ok _ ?t1 =>
    destruct (InitDataBlock_ok i' t1) as (t2 & j & E2 & H2); [by split|] end.
  destruct (if_data_ok m next i' j t2 H2) as (t3 & E3 & H3); [intros; by eapply Hm|].
  exists t3. split; [|done]. intros B k.
  by rewrite (bind_ok _ _ _ _ _ E1), (bind_ok _ _ _ _ _ E2), (bind_ok _ _ _ _ _ E3).
Qed.

Lemma skip_forward_ok fuel i j t :
  (length index - i < fuel)%nat -> at_block i j t ->
  exists t', SkipEmptyDataBlocksForward block_function delete fuel t = Ok tt t' /\
             two_level_pos (base index content i + j) t'.
Proof.
  revert i j t. induction fuel as [|fuel IH]; intros i j t Hf H; [lia|].
  unfold SkipEmptyDataBlocksForward. rewrite loop_S, bind_assoc, bind_gets. unfold id.
  rewrite (at_block_exhausted i j t H). pose proof H as [(Hs & Hw & Hle) Hd].
  destruct (index !! i) as [[sep h]|] eqn:E.
  - destruct Hd as (p & Ha & Hwd & Hdh & Hj). destruct (Nat.ltb_spec j (length (content h))) as [Hlt|Hge]; cbn [negb].
    + rewrite bind_ret. exists t. split; [done|]. apply at_block_pos; [done|]. intros ? ?. by rewrite E; intros [= <- <-].
    + pose proof (lookup_lt_Some _ _ _ E) as Hi. rewrite (wrapper_valid _ _ Hw).
      destruct (Nat.ltb_spec i (length index)); [|lia]. cbn [negb].
      destruct (enter_block wrapper_Next wrapper_SeekToFirst (fun _ => 0%nat) i (S i) t) as (t' & Hrun & Ht').
      * by eapply at_block_loose.
      * lia.
      * intros w Hw'. by apply (wrapper_Next_ok HI).
      * intros h' p' j' w Hh' Hw' _. destruct (wrapper_SeekToFirst_ok (bs_cursor HB h' p' Hh') j' w Hw') as (w' & ? & ?).
        exists w'. repeat split; try done. lia.
      * rewrite (bind_ok _ _ _ _ _ (Hrun _ (ret (inl tt)))).
        destruct (IH (S i) _ t' ltac:(lia) Ht') as (t2 & E2 & H2). exists t2. split; [done|].
        replace (base index content i + j)%nat with (base index content (S i)) by (rewrite (base_S _ _ _ _ _ E); lia).
        by destruct (index !! S i) as [[? ?]|]; rewrite Nat.add_0_r in H2.
  - apply lookup_ge_None_1 in E as Hge. rewrite (wrapper_valid _ _ Hw).
    destruct (Nat.ltb_spec i (length index)); [lia|]. cbn [negb].
    destruct (SetDataIterator_none i t (at_block_loose i j t H)) as (t' & Es & Hi' & Hn').
    rewrite (bind_assoc _ _ _ _), (bind_ok _ _ _ _ _ Es), bind_ret. exists t'. split; [done|].
    destruct Hd as [_ ->]. apply at_block_pos; [split; [done|by rewrite E]|]. intros ? ?. by rewrite E.
Qed.

(** Where a step to the left of position [n] leads, and where the search to the left
    stops that starts at entry [j] of block [i]. *)
Definition left_of (n : nat) : nat := match n with O => length kvs | S m => m end.
Definition back_pos (i j : nat) : nat :=
  match index !! i with
  | Some (_, h) => if (j <? length (content h))%nat then (base index content i + j)%nat
                   else left_of (base index content i)
  | None => length kvs
  end.

Lemma back_pos_prev i sep h : index !! i = Some (sep, h) ->
  back_pos i (pred (length (content h))) = left_of (base index content (S i)).
Proof.
  intros E. unfold back_pos. rewrite E, (base_S _ _ _ _ _ E).
  destruct (length (content h)) as [|n]; cbn [pred].
  - by rewrite Nat.ltb_irrefl, Nat.add_0_r.
  - destruct (Nat.ltb_spec n (S n)); [|lia]. by rewrite Nat.add_succ_r.
Qed.

Lemma skip_backward_ok fuel i j t :
  ((i < length index)%nat -> (i + 1 < fuel)%nat) -> (0 < fuel)%nat -> at_block i j t ->
  exists t', SkipEmptyDataBlocksBackward block_function delete fuel t = Ok tt t' /\
             two_level_pos (back_pos i j) t'.
Proof.
  revert i j t. induction fuel as [|fuel IH]; intros i j t Hf Hf0 H; [lia|].
  unfold SkipEmptyDataBlocksBackward. rewrite loop_S, bind_assoc, bind_gets. unfold id.
  rewrite (at_block_exhausted i j t H). pose proof H as [(Hs & Hw & Hle) Hd].
  unfold back_pos. destruct (index !! i) as [[sep h]|] eqn:E.
  - destruct Hd as (p & Ha & Hwd & Hdh & Hj). destruct (Nat.ltb_spec j (length (content h))) as [Hlt|Hge]; cbn [negb].
    + rewrite bind_ret. exists t. split; [done|]. apply at_block_pos; [done|]. intros ? ?. by rewrite E; intros [= <- <-].
    + pose proof (lookup_lt_Some _ _ _ E) as Hi. rewrite (wrapper_valid _ _ Hw).
      destruct (Nat.ltb_spec i (length index)); [|lia]. cbn [negb].
      destruct (enter_block wrapper_Prev wrapper_SeekToLast (fun h => pred (length (content h))) i
        (match i with O => length index | S k => k end) t) as (t' & Hrun & Ht').
      * by eapply at_block_loose.
      * destruct i; lia.
      * intros w Hw'. by apply (wrapper_Prev_ok HI).
      * intros h' p' j' w Hh' Hw' _. destruct (wrapper_SeekToLast_ok (bs_cursor HB h' p' Hh') j' w Hw') as (w' & ? & ?).
        exists w'. repeat split; try done. lia.
      * rewrite (bind_ok _ _ _ _ _ (Hrun _ (ret (inl tt)))).
        pose proof (Hf Hi) as Hfi.
        apply (IH _ _ t') in Ht' as (t2 & E2 & H2); [|destruct i; intros; lia|lia]. exists t2. split; [done|].
        destruct i as [|k].
        -- unfold back_pos in H2. by rewrite lookup_ge_None_2 in H2 by done.
        -- destruct (lookup_lt_is_Some_2 index k ltac:(lia)) as [[sep' h'] E']. rewrite E' in H2.
           by rewrite (back_pos_prev _ _ _ E') in H2.
  - apply lookup_ge_None_1 in E as Hge. rewrite (wrapper_valid _ _ Hw).
    destruct (Nat.ltb_spec i (length index)); [lia|]. cbn [negb].
    destruct (SetDataIterator_none i t (at_block_loose i j t H)) as (t' & Es & Hi' & Hn').
    rewrite (bind_assoc _ _ _ _), (bind_ok _ _ _ _ _ Es), bind_ret. exists t'. split; [done|].
    rewrite <- (base_end index content i Hge), <- (Nat.add_0_r (base index content i)).
    apply at_block_pos; [split; [done|by rewrite E]|]. intros ? ?. by rewrite E.
Qed.



Lemma pos_lt n t : two_level_pos n t -> (n < length kvs)%nat ->
  exists i j sep h, at_block i j t /\ index !! i = Some (sep, h) /\ (j < length (content h))%nat /\
    n = (base index content i + j)%nat /\ kvs !! n = content h !! j.
Proof.
  intros (i & j & H & -> & Hj) Hn. pose proof H as [_ Hd]. destruct (index !! i) as [[sep h]|] eqn:E.
  - pose proof (Hj sep h eq_refl) as Hlt. exists i, j, sep, h. split; [done|]. split; [done|]. split; [done|].
    split; [done|]. by apply (entries_lookup _ _ _ _ sep).
  - destruct Hd as [_ ->]. rewrite (base_end index content) in Hn by (by apply lookup_ge_None_1). lia.
Qed.

Lemma pos_ge n t : two_level_pos n t -> (length kvs <= n)%nat ->
  exists i, at_block i 0 t /\ index !! i = None /\ n = length kvs.
Proof.
  intros (i & j & H & -> & Hj) Hn. destruct (index !! i) as [[sep h]|] eqn:E.
  - pose proof (Hj sep h eq_refl) as Hlt. pose proof (base_le index content i (S j) sep h E Hlt). lia.
  - pose proof H as [_ Hd]. rewrite E in Hd. destruct Hd as [_ ->]. exists i. split; [done|]. split; [done|].
    rewrite (base_end index content) by (by apply lookup_ge_None_1). lia.
Qed.

Lemma pos_loose n t : two_level_pos n t -> exists i, loose i t.
Proof. intros (i & j & H & _). exists i. by eapply at_block_loose. Qed.

Context (fuel : nat) (Hfuel : (length index < fuel)%nat).

Lemma two_level_cursor :
  cursor_over (TwoLevel_Iterator block_function delete fuel) C target_ok kvs two_level_pos.
Proof.
  split; cbn [it_Valid it_key it_value it_status it_SeekToFirst it_SeekToLast it_Seek it_Next it_Prev TwoLevel_Iterator].
  - intros n t k v Hpos Hkv. destruct (pos_lt n t Hpos) as (i & j & sep & h & [_ Hd] & E & Hj & _ & Hl);
      [by eapply lookup_lt_Some|]. rewrite E in Hd. destruct Hd as (p & _ & Hw & _). rewrite Hkv in Hl.
    pose proof (bs_cursor HB h p (index_handle _ _ _ E)) as HC.
    assert (two_level_Valid t = true) as Hv
      by (unfold two_level_Valid; rewrite (wrapper_valid _ _ Hw); by apply Nat.ltb_lt).
    split; [done|]. unfold two_level_key, two_level_value. rewrite !bind_gets. unfold id.
    rewrite !bind_assert by done. unfold on_data_iter.
    rewrite (zoom_ok data_iter_ _ _ _ _ _ (wrapper_key_ok j _ k v Hw (eq_sym Hl))).
    rewrite (zoom_ok data_iter_ _ _ _ _ _ (wrapper_value_ok HC j _ k v Hw (eq_sym Hl))). by destruct t.
  - intros n t Hpos Hn. destruct (pos_ge n t Hpos Hn) as (i & [_ Hd] & E & _). rewrite E in Hd.
    apply Hd.
  - intros n t (i & j & [(Hs & Hw & _) Hd] & _). unfold two_level_status.
    rewrite (wrapper_status_ok HI i _ Hw). cbn [mbind option_bind ok state_ Status_OK negb].
    destruct (index !! i) as [[sep h]|] eqn:E.
    + destruct Hd as (p & _ & Hwd & _). rewrite (wrapper_has _ _ Hwd).
      rewrite (wrapper_status_ok (bs_cursor HB h p (index_handle _ _ _ E)) j _ Hwd). cbn. by rewrite Hs.
    + destruct Hd as [(_ & Hn & _) _]. unfold has_iter. rewrite Hn. by rewrite Hs.
  - intros n t Hpos. destruct (pos_loose n t Hpos) as [i Hl]. unfold two_level_SeekToFirst.
    destruct (enter_block wrapper_SeekToFirst wrapper_SeekToFirst (fun _ => 0%nat) i 0 t Hl) as (t' & Hrun & Ht').
    + lia.
    + intros w. apply (wrapper_SeekToFirst_ok HI).
    + intros h p j w Hh Hw _. destruct (wrapper_SeekToFirst_ok (bs_cursor HB h p Hh) j w Hw) as (w' & ? & ?).
      exists w'. repeat split; try done. lia.
    + rewrite Hrun. apply (skip_forward_ok fuel) in Ht' as (t2 & E2 & H2); [|lia].
      exists t2. split; [done|]. by destruct (index !! 0%nat) as [[? ?]|].
  - intros n t Hpos. destruct (pos_loose n t Hpos) as [i Hl]. unfold two_level_SeekToLast.
    destruct (enter_block wrapper_SeekToLast wrapper_SeekToLast (fun h => pred (length (content h))) i
      (pred (length index)) t Hl) as (t' & Hrun & Ht').
    + lia.
    + intros w. apply (wrapper_SeekToLast_ok HI).
    + intros h p j w Hh Hw _. destruct (wrapper_SeekToLast_ok (bs_cursor HB h p Hh) j w Hw) as (w' & ? & ?).
      exists w'. repeat split; try done. lia.
    + rewrite Hrun. apply (skip_backward_ok fuel) in Ht' as (t2 & E2 & H2); [|intros; lia|lia].
      exists t2. split; [exact E2|]. destruct (index !! pred (length index)) as [[sep h]|] eqn:E.
      * rewrite (back_pos_prev _ _ _ E) in H2. pose proof (lookup_lt_Some _ _ _ E).
        rewrite (base_end index content) in H2 by lia. unfold left_of in H2. by destruct (length kvs).
      * apply lookup_ge_None_1 in E. unfold back_pos in H2. rewrite lookup_ge_None_2 in H2 by done.
        rewrite <- (base_end index content 0 ltac:(lia)) in H2 |- *. done.
  - intros n t target Hpos Ht. destruct (pos_loose n t Hpos) as [i Hl]. unfold two_level_Seek.
    destruct (enter_block (wrapper_Seek target) (wrapper_Seek target) (fun h => keys_before C target (content h)) i
      (keys_before C target index) t Hl) as (t' & Hrun & Ht').
    + apply keys_before_le.
    + intros w Hw. by apply (wrapper_Seek_ok HI i).
    + intros h p j w Hh Hw _. destruct (wrapper_Seek_ok (bs_cursor HB h p Hh) j w target Hw Ht) as (w' & ? & ?).
      exists w'. repeat split; try done. apply keys_before_le.
    + rewrite Hrun. apply (skip_forward_ok fuel) in Ht' as (t2 & E2 & H2); [|lia].
      exists t2. split; [done|].
      rewrite (seek_position C index content Hsep target (target_valid _ Ht)). exact H2.
  - intros n t Hpos Hn. destruct (pos_lt n t Hpos Hn) as (i & j & sep & h & H & E & Hj & -> & _).
    pose proof H as [Hi Hd]. rewrite E in Hd. destruct Hd as (p & Ha & Hw & Hdh & Hle).
    pose proof (bs_cursor HB h p (index_handle _ _ _ E)) as HC.
    unfold two_level_Next. rewrite bind_gets. unfold id. rewrite bind_assert
      by (unfold two_level_Valid; rewrite (wrapper_valid _ _ Hw); by apply Nat.ltb_lt).
    destruct (wrapper_Next_ok HC j _ Hw Hj) as (w' & En & Hw').
    unfold on_data_iter. rewrite (bind_ok _ _ _ _ _ (zoom_ok data_iter_ _ _ _ _ _ En)).
    match goal with |- context [SkipEmptyDataBlocksForward _ _ _ ?t1] =>
      destruct (skip_forward_ok fuel i (S j) t1 ltac:(lia)) as (t2 & E2 & H2) end.
    { split; [done|]. rewrite E. by exists p. }
    exists t2. split; [done|]. by rewrite <- Nat.add_succ_r.
  - intros n t Hpos Hn. destruct (pos_lt n t Hpos Hn) as (i & j & sep & h & H & E & Hj & -> & _).
    pose proof H as [Hi Hd]. rewrite E in Hd. destruct Hd as (p & Ha & Hw & Hdh & Hle).
    pose proof (bs_cursor HB h p (index_handle _ _ _ E)) as HC. pose proof (lookup_lt_Some _ _ _ E) as Hil.
    unfold two_level_Prev. rewrite bind_gets. unfold id. rewrite bind_assert
      by (unfold two_level_Valid; rewrite (wrapper_valid _ _ Hw); by apply Nat.ltb_lt).
    destruct (wrapper_Prev_ok HC j _ Hw Hj) as (w' & En & Hw').
    unfold on_data_iter. rewrite (bind_ok _ _ _ _ _ (zoom_ok data_iter_ _ _ _ _ _ En)).
    match goal with |- context [SkipEmptyDataBlocksBackward _ _ _ ?t1] =>
      destruct (skip_backward_ok fuel i (match j with O => length (content h) | S k => k end) t1
        ltac:(lia) ltac:(lia)) as (t2 & E2 & H2) end.
    { split; [done|]. rewrite E. exists p. repeat split; try done. destruct j; lia. }
    exists t2. split; [done|]. unfold back_pos in H2. rewrite E in H2. destruct j as [|j].
    + rewrite Nat.ltb_irrefl in H2. rewrite Nat.add_0_r. by destruct (base index content i).
    + destruct (Nat.ltb_spec j (length (content h))); [|lia]. by rewrite Nat.add_succ_r.
Qed.

(** A new iterator is not valid. *)
Lemma NewTwoLevelIterator_ok it a :
  ipos (length index) it -> arg_inv l a ->
  exists t, NewTwoLevelIterator it a = Some t /\ two_level_pos (length kvs) t.
Proof.
  intros Hp Ha. unfold NewTwoLevelIterator.
  destruct (wrapper_Set_ok HI _ it new_IteratorWrapper Hp) as (w & E & Hw). rewrite E.
  eexists. split; [done|]. exists (length index), 0%nat.
  assert (index !! length index = None) as Hnone by (by apply lookup_ge_None_2).
  split; [|split; [by rewrite (base_end index content) by done|intros ? ?; by rewrite Hnone]].
  split; [by repeat split|]. by rewrite Hnone.
Qed.

(** The destructor gives back what the data iterator holds. *)
Lemma two_level_delete_ok n t :
  two_level_pos n t ->
  exists t', two_level_delete delete (fun _ => ret tt) t = Ok tt t' /\ arg_inv l (arg_ t').
Proof.
  intros (i & j & [(_ & (si & Hsi & _) & _) Hd] & _). unfold two_level_delete. rewrite bind_gets. unfold id.
  rewrite Hsi. destruct (index !! i) as [[sep h]|] eqn:E.
  - destruct Hd as (p & Ha & (d & Hds & Hp & _) & _). rewrite Hds.
    destruct (bs_delete HB h p j d l _ (index_handle _ _ _ E) Hp Ha) as (a' & Ed & Ha').
    unfold on_arg. rewrite (bind_ok _ _ _ _ _ (zoom_ok arg_ _ _ _ _ _ Ed)). by eexists.
  - destruct Hd as [(Ha & Hn & _) _]. rewrite Hn, bind_ret. by eexists.
Qed.

End held.
End two_level.

(** C21: A two-level iterator is a cursor over the entries of all blocks, in order,
    provided that its index is a cursor over separators and handles, that the
    block function opens cursors, and that each separator is between the keys of
    its block and those of the next; blocks may be empty.  Destroying it gives
    back whatever its open block holds. *)
Theorem two_level_is_cursor {SI SD A P : Type} {II : Iterator SI} {DI : Iterator SD}
    (C : Comparator) {L : ComparatorLaws C} (block_function : Slice -> M A SD) (delete : SD -> M A unit)
    target_ok index content ipos (dpos : Slice -> P -> nat -> SD -> Prop) arg_inv max_held l fuel it a :
  (forall t, target_ok t -> valid t) ->
  cursor_over II C target_ok index ipos -> separated C index content ->
  block_source C block_function delete target_ok index content dpos arg_inv max_held -> (S (length l) < max_held)%nat ->
  ipos (length index) it -> arg_inv l a -> (length index < fuel)%nat ->
  exists t pos, NewTwoLevelIterator it a = Some t /\ pos (length (all_entries index content)) t /\
    cursor_over (TwoLevel_Iterator block_function delete fuel) C target_ok (all_entries index content) pos /\
    forall n t, pos n t ->
      exists t', two_level_delete delete (fun _ => ret tt) t = Ok tt t' /\ arg_inv l (arg_ t').
Proof.
  intros Ht HI Hsep HB Hm Hp Ha Hf.
  destruct (NewTwoLevelIterator_ok C target_ok index content ipos dpos arg_inv HI l it a Hp Ha) as (t & E & Hpos).
  exists t, (two_level_pos index content ipos dpos arg_inv l). split; [done|]. split; [done|].
  split; [by apply (two_level_cursor C) with (max_held := max_held)|]. intros n t'. by eapply (two_level_delete_ok C).
Qed.

(** ** An instance *)

(** The iterator of a list in memory: its state is the position. *)
Definition sorted_iterator (C : Comparator) (kvs : list (Slice * Slice)) : Iterator nat := {|
  it_Valid i := (i <? length kvs)%nat;
  it_SeekToFirst := modify (fun _ => 0%nat);
  it_SeekToLast := modify (fun _ => pred (length kvs));
  it_Seek t := modify (fun _ => keys_before C t kvs);
  it_Next := modify S;
  it_Prev := modify (fun i => match i with O => length kvs | S j => j end);
  it_key := let! i := gets id in let! kv := or_ub (kvs !! i) in ret kv.1;
  it_value := let! i := gets id in let! kv := or_ub (kvs !! i) in ret kv.2;
  it_status _ := Some Status_OK
|}.

Lemma sorted_iterator_cursor C kvs target_ok :
  cursor_over (sorted_iterator C kvs) C target_ok kvs (fun i s => i = s).
Proof.
  split; cbn [it_Valid it_key it_value it_status it_SeekToFirst it_SeekToLast it_Seek it_Next it_Prev sorted_iterator].
  - intros i s k v <- E. split; [by apply Nat.ltb_lt; eapply lookup_lt_Some|].
    rewrite !bind_gets. unfold id. by rewrite E.
  - intros i s <- Hi. by apply Nat.ltb_ge.
  - done.
  - intros i s <-. by eexists.
  - intros i s <-. by eexists.
  - intros i s t <- _. by eexists.
  - intros i s <- _. by eexists.
  - intros i s <- _. by eexists.
Qed.

Definition list_iterator : list (Slice * Slice) -> Iterator nat := sorted_iterator BytewiseComparator.

Lemma list_iterator_cursor kvs target_ok :
  cursor_over (list_iterator kvs) BytewiseComparator target_ok kvs (fun i s => i = s).
Proof. apply sorted_iterator_cursor. Qed.

(** Two blocks and an empty one between them. *)
Definition sample_index : list (Slice * Slice) := [([98], [0]); ([99], [1]); ([120], [2])].
Definition sample_content (h : Slice) : list (Slice * Slice) :=
  match h with
  | [0] => [([97], [1]); ([98], [2])]
  | [2] => [([100], [3])]
  | _ => []
  end.

(** A block iterator has the handle of its block; the argument counts those that
    are open. *)
Definition sample_data : Iterator (Slice * nat) := 
  let on {B} (m : list (Slice * Slice) -> M nat B) : M (Slice * nat) B :=
    fun s => zoom snd (fun i s => (s.1, i)) (m (sample_content s.1)) s in {|
  it_Valid s := (s.2 <? length (sample_content s.1))%nat;
  it_SeekToFirst := on (fun l => @it_SeekToFirst _ (list_iterator l));
  it_SeekToLast := on (fun l => @it_SeekToLast _ (list_iterator l));
  it_Seek t := on (fun l => @it_Seek _ (list_iterator l) t);
  it_Next := on (fun l => @it_Next _ (list_iterator l));
  it_Prev := on (fun l => @it_Prev _ (list_iterator l));
  it_key := on (fun l => @it_key _ (list_iterator l));
  it_value := on (fun l => @it_value _ (list_iterator l));
  it_status _ := Some Status_OK
|}.

Lemma sample_data_cursor h target_ok :
  cursor_over sample_data BytewiseComparator target_ok (sample_content h) (fun i s => s = (h, i)).
Proof.
  split; cbn [it_Valid it_key it_value it_status it_SeekToFirst it_SeekToLast it_Seek it_Next it_Prev sample_data].
  - intros i s k v -> E. cbn [fst snd]. split; [by apply Nat.ltb_lt; eapply lookup_lt_Some|].
    unfold zoom. cbn [it_key it_value list_iterator sorted_iterator fst snd]. rewrite !bind_gets. unfold id. by rewrite E.
  - intros i s -> Hi. by apply Nat.ltb_ge.
  - done.
  - intros i s ->. by eexists.
  - intros i s ->. by eexists.
  - intros i s t -> _. by eexists.
  - intros i s -> _. by eexists.
  - intros i s -> _. by eexists.
Qed.

Lemma sample_separated : separated BytewiseComparator sample_index sample_content.
Proof.
  split.
  - intros [|[|[|i]]] sep h E; try discriminate E; injection E as <- <-; by repeat constructor.
  - intros [|[|[|i]]] sep h k v E Hin; try discriminate E; injection E as <- <-; cbn in Hin;
      repeat (apply elem_of_cons in Hin as [[= -> ->]|Hin]; [by repeat constructor|]); by apply elem_of_nil in Hin.
  - intros [|[|[|i]]] [|[|[|j]]] a b Ei Ej Hij; try lia; try discriminate Ei; try discriminate Ej;
      injection Ei as <-; injection Ej as <-; done.
  - intros [|[|[|i]]] sep h k v E Hin; try discriminate E; injection E as <- <-; cbn in Hin;
      repeat (apply elem_of_cons in Hin as [[= -> ->]|Hin]; [by eexists|]); by apply elem_of_nil in Hin.
  - intros [|[|[|i]]] [|[|[|j]]] a b k v Ei Ej Hij Hin; try lia; try discriminate Ei; try discriminate Ej;
      injection Ei as <-; injection Ej as <-; cbn in Hin;
      repeat (apply elem_of_cons in Hin as [[= -> ->]|Hin]; [done|]); by apply elem_of_nil in Hin.
Qed.

Lemma two_level_is_cursor_witness :
  let block_function (h : Slice) : M nat (Slice * nat) :=
    fun open => Ok (h, length (sample_content h)) (S open) in
  let delete (_ : Slice * nat) : M nat unit := modify pred in
  exists t pos, @NewTwoLevelIterator _ (Slice * nat) _ (list_iterator sample_index) 3%nat 0%nat = Some t /\ pos 3%nat t /\
    cursor_over (@TwoLevel_Iterator _ _ _ (list_iterator sample_index) sample_data block_function delete 4)
      BytewiseComparator (Forall is_byte)
      [([97], [1]); ([98], [2]); ([100], [3])] pos /\
    forall n t, pos n t ->
      exists t', two_level_delete delete (fun _ => ret tt) t = Ok tt t' /\ 0%nat = arg_ t'.
Proof.
  intros block_function delete.
  apply (@two_level_is_cursor nat (Slice * nat) nat unit (list_iterator sample_index) sample_data
    BytewiseComparator _ block_function delete (Forall is_byte) sample_index sample_content
    (fun i s => i = s) (fun h _ i s => s = (h, i)) (fun l open => length l = open) 2 [] 4 3%nat 0%nat).
  - done.
  - apply list_iterator_cursor.
  - apply sample_separated.
  - split.
    + intros h _ _. apply sample_data_cursor.
    + intros l a h <- _ _. by exists (h, length (sample_content h)), tt, (S (length l)).
    + intros h p i d l a _ _ <-. by eexists.
    + intros l l' a Hp <-. symmetry. by apply Permutation_length.
  - cbn. lia.
  - done.
  - done.
  - cbn. lia.
Defined.
