(* ===== verification/MergeLists.v ===== *)
(** * Merging sorted lists

    The entries of several sorted lists, no key in two of them, in the order of the
    keys: how many of the first entries come from each of the lists. *)

From Stdlib Require Import ZArith Lia.
From stdpp Require Import base option list strings sorting gmap.
From S2P Require Import Prelude Memory Slice Status Iterator TwoLevelProof.

(** Two numbers with the same smaller positions are equal. *)
Lemma position_unique (x y n : nat) :
  (x <= n)%nat -> (y <= n)%nat -> (forall i, (i < n)%nat -> (i < x)%nat <-> (i < y)%nat) -> x = y.
Proof.
  intros Hx Hy H. destruct (Nat.lt_trichotomy x y) as [Hlt|[|Hlt]]; [|done|].
  - pose proof (H x ltac:(lia)). lia.
  - pose proof (H y ltac:(lia)). lia.
Qed.

(** Two of the lists in a concatenation, in front of the rest. *)
Lemma concat_two {A} (ls : list (list A)) i j l l' :
  ls !! i = Some l -> ls !! j = Some l' -> i <> j -> exists rest, concat ls ≡ₚ l ++ l' ++ rest.
Proof.
  intros Hi Hj Hne. assert (exists ks, ls ≡ₚ l :: l' :: ks) as [ks E].
  { assert (exists j', delete i ls !! j' = Some l') as [j' Hj'].
    { destruct (decide (j < i)%nat).
      - exists j. by rewrite list_lookup_delete_lt.
      - exists (pred j). rewrite list_lookup_delete_ge by lia. by replace (S (pred j)) with j by lia. }
    exists (delete j' (delete i ls)). etransitivity; [by apply (delete_Permutation ls i l)|].
    by apply perm_skip, delete_Permutation. }
  exists (concat ks). transitivity (concat (l :: l' :: ks)); [|done]. clear -E.
  induction E as [|x a b _ IH|x y a|a b c _ IH1 _ IH2]; cbn [concat]; [done|by rewrite IH| |by etransitivity].
  by rewrite !app_assoc, (Permutation_app_comm y x).
Qed.

Section merge.
Context (C : Comparator) {L : ComparatorLaws C}.

(** Strictly increasing keys. *)
Record sorted_entries (l : list (Slice * Slice)) : Prop := mk_sorted_entries {
  entries_valid e : e ∈ l -> valid e.1;
  entries_sorted i j a b : l !! i = Some a -> l !! j = Some b -> (i < j)%nat -> before C a.1 b.1 = true
}.

Lemma before_asym a b : valid a -> valid b -> before C a b = true -> before C b a = false.
Proof.
  unfold before. intros Ha Hb. destruct (Compare a b) as [r|] eqn:E1; [|done]. intros Hr%Z.ltb_lt.
  destruct (Compare b a) as [r'|] eqn:E2; [|done]. pose proof (compare_antisym a b r r' Ha Hb E1 E2).
  apply Z.ltb_ge. lia.
Qed.

Lemma before_irrefl a : valid a -> before C a a = false.
Proof. intros Ha. unfold before. by rewrite (compare_refl a Ha). Qed.

(** In a sorted list the keys are ordered as the positions are. *)
Lemma sorted_positions l i j a b :
  sorted_entries l -> l !! i = Some a -> l !! j = Some b -> before C a.1 b.1 = (i <? j)%nat.
Proof.
  intros [Hv Hs] Hi Hj. pose proof (Hv a (list_elem_of_lookup_2 _ _ _ Hi)) as Ha.
  pose proof (Hv b (list_elem_of_lookup_2 _ _ _ Hj)) as Hb.
  destruct (Nat.ltb_spec i j) as [Hlt|Hge]; [by apply (Hs i j)|].
  destruct (decide (i = j)) as [->|Hne].
  - assert (a = b) as -> by congruence. by apply before_irrefl.
  - apply before_asym; [done..|]. apply (Hs j i); [done..|lia].
Qed.

(** Where a target belongs. *)
Lemma sorted_target l i e t :
  sorted_entries l -> valid t -> l !! i = Some e -> before C e.1 t = (i <? keys_before C t l)%nat.
Proof.
  intros [Hv Hs] Ht Hi. rewrite keys_before_filter.
  apply (filter_length_prefix (fun kv => before C kv.1 t)); [|done].
  intros i' j x y Hx Hy Hij Hb. eapply (key_before_trans C x.1 y.1 t); [| |done|by apply (Hs i' j)|done].
  - by apply Hv, (list_elem_of_lookup_2 _ i').
  - by apply Hv, (list_elem_of_lookup_2 _ j).
Qed.

(** There is one way to sort entries. *)
Lemma merge_one l l' : sorted_entries l -> sorted_entries l' -> l ≡ₚ l' -> l = l'.
Proof.
  intros Hl Hl' HP.
  assert (forall k, sorted_entries k -> StronglySorted (fun a b => valid a.1 /\ valid b.1 /\ before C a.1 b.1 = true) k)
    as Hss.
  { intros k Hk. assert (forall x, x ∈ k -> valid x.1) as Hv by apply Hk. revert Hv Hk.
    induction k as [|a k IH]; intros Hv Hk; [constructor|]. constructor.
    - apply IH; [intros x Hx; apply Hv; by right|]. split; [intros e He; apply Hv; by right|].
      intros i j x y Hi Hj Hij. by apply (entries_sorted _ Hk (S i) (S j)); [..|lia].
    - apply Forall_lookup. intros i x Hi. split; [apply Hv; by left|].
      split; [apply Hv; right; by eapply list_elem_of_lookup_2|]. by apply (entries_sorted _ Hk 0 (S i)); [..|lia]. }
  apply (StronglySorted_unique_strong (fun a b => valid a.1 /\ valid b.1 /\ before C a.1 b.1 = true)).
  - intros x1 x2 _ _ (H1 & H2 & Hb) (_ & _ & Hb'). rewrite (before_asym x1.1 x2.1) in Hb'; done.
  - by apply Hss.
  - by apply Hss.
  - done.
Qed.

(** A new key has a place. *)
Lemma sorted_insert l e :
  sorted_entries l -> valid e.1 -> (forall x, x ∈ l -> before C x.1 e.1 = true \/ before C e.1 x.1 = true) ->
  sorted_entries (take (keys_before C e.1 l) l ++ e :: drop (keys_before C e.1 l) l).
Proof.
  intros Hl He Hapart. set (p := keys_before C e.1 l). pose proof (keys_before_le C e.1 l) as Hp. fold p in Hp.
  assert (forall i x, l !! i = Some x -> before C x.1 e.1 = (i <? p)%nat) as Hbelow by (intros; by apply sorted_target).
  assert (forall i x, l !! i = Some x -> (p <= i)%nat -> before C e.1 x.1 = true) as Habove.
  { intros i x Hx Hi. destruct (Hapart x (list_elem_of_lookup_2 _ _ _ Hx)) as [Hb|]; [|done].
    rewrite (Hbelow i x Hx) in Hb. apply Nat.ltb_lt in Hb. lia. }
  assert (forall i x, (take p l ++ e :: drop p l) !! i = Some x ->
    ((i < p)%nat /\ l !! i = Some x) \/ (i = p /\ x = e) \/ ((p < i)%nat /\ l !! pred i = Some x)) as Hat.
  { intros i x Hx. assert (length (take p l) = p) as Hlen by (rewrite length_take; lia).
    destruct (Nat.lt_trichotomy i p) as [Hi|[->|Hi]].
    - rewrite lookup_app_l, lookup_take_lt in Hx by lia. by left.
    - rewrite lookup_app_r, Hlen, Nat.sub_diag in Hx by lia. right. left. by injection Hx.
    - rewrite lookup_app_r, Hlen in Hx by lia. right. right. split; [done|].
      replace (i - p)%nat with (S (i - S p)) in Hx by lia. change (drop p l !! (i - S p)%nat = Some x) in Hx. rewrite lookup_drop in Hx.
      by replace (pred i) with (p + (i - S p))%nat by lia. }
  split.
  - intros x [i Hx]%list_elem_of_lookup.
    destruct (Hat i x Hx) as [[_ Hy]|[[_ ->]|[_ Hy]]]; [|done|];
      apply (entries_valid _ Hl); by eapply list_elem_of_lookup_2.
  - intros i j a b Hi Hj Hij. pose proof (entries_sorted _ Hl) as Hs.
    destruct (Hat i a Hi) as [[Hi' Ha]|[[-> ->]|[Hi' Ha]]], (Hat j b Hj) as [[Hj' Hb]|[[-> ->]|[Hj' Hb]]]; try lia.
    + by apply (Hs i j).
    + rewrite (Hbelow i a Ha). by apply Nat.ltb_lt.
    + apply (Hs i (pred j)); [done..|lia].
    + apply (Habove (pred j)); [done|lia].
    + apply (Hs (pred i) (pred j)); [done..|lia].
Qed.

(** Entries with different keys can be sorted. *)
Lemma sorted_exists l :
  (forall x, x ∈ l -> valid x.1) ->
  (forall i j x y, l !! i = Some x -> l !! j = Some y -> i <> j -> before C x.1 y.1 = true \/ before C y.1 x.1 = true) ->
  exists l', l' ≡ₚ l /\ sorted_entries l'.
Proof.
  induction l as [|e l IH]; intros Hv Hd.
  - exists []. split; [done|]. split; [by intros x Hx%elem_of_nil|done].
  - destruct IH as (l' & HP & Hl').
    + intros x Hx. apply Hv. by right.
    + intros i j x y Hx Hy Hij. apply (Hd (S i) (S j)); [done..|lia].
    + eexists. split; [|apply (sorted_insert l' e Hl')].
      * rewrite <- Permutation_middle, take_drop. by rewrite HP.
      * apply Hv. by left.
      * intros x Hx. rewrite HP in Hx. apply list_elem_of_lookup in Hx as [j Hx]. apply (Hd (S j) 0%nat); [done..|lia].
Qed.

(** [kvs] is the sorted union of the [contents]. *)
Context (contents : list (list (Slice * Slice))) (kvs : list (Slice * Slice)).

Record merges : Prop := mk_merges {
  merge_sorted : sorted_entries kvs;
  merge_parts j l : contents !! j = Some l -> sorted_entries l;
  merge_all : kvs ≡ₚ concat contents
}.

(** How many of the first [n] entries come from [l]. *)
Definition upto (n : nat) (l : list (Slice * Slice)) : nat :=
  match kvs !! n with Some e => keys_before C e.1 l | None => length l end.

Context (H : merges).

Lemma upto_le n l : (upto n l <= length l)%nat.
Proof. unfold upto. destruct (kvs !! n); [apply keys_before_le|done]. Qed.

Lemma part_entry j l i e : contents !! j = Some l -> l !! i = Some e -> exists m, kvs !! m = Some e.
Proof.
  intros Hj Hi. apply list_elem_of_lookup. rewrite (merge_all H).
  apply elem_of_concat. exists j, l. split; [done|by eapply list_elem_of_lookup_2].
Qed.

(** No key is in two of the lists. *)
Lemma parts_apart j j' l l' x y :
  contents !! j = Some l -> contents !! j' = Some l' -> j <> j' -> x ∈ l -> y ∈ l' ->
  before C x.1 y.1 = true \/ before C y.1 x.1 = true.
Proof.
  intros Hj Hj' Hne [i Hx]%list_elem_of_lookup [i' Hy]%list_elem_of_lookup.
  destruct (concat_two _ _ _ _ _ Hj Hj' Hne) as [rest E]. rewrite <- (merge_all H) in E.
  symmetry in E. apply Permutation_inj in E as (_ & f & Hf & E).
  assert (kvs !! f i = Some x) as Ex by (by rewrite <- E, lookup_app_l by (by eapply lookup_lt_Some)).
  assert (kvs !! f (length l + i')%nat = Some y) as Ey.
  { rewrite <- E, lookup_app_r by lia. replace (length l + i' - length l)%nat with i' by lia.
    by rewrite lookup_app_l by (by eapply lookup_lt_Some). }
  assert (f i <> f (length l + i')%nat) as Hfi by (intros Hc%Hf; apply lookup_lt_Some in Hx; lia).
  pose proof (merge_sorted H) as Hs.
  rewrite (sorted_positions _ _ _ _ _ Hs Ex Ey), (sorted_positions _ _ _ _ _ Hs Ey Ex), !Nat.ltb_lt. lia.
Qed.

(** An entry of [l] is among the first [upto n l] ones if and only if it is among
    the first [n] of all. *)
Lemma upto_spec n j l i m e :
  contents !! j = Some l -> l !! i = Some e -> kvs !! m = Some e -> (i < upto n l)%nat <-> (m < n)%nat.
Proof.
  intros Hj Hi Hm. unfold upto. destruct (kvs !! n) as [en|] eqn:En.
  - rewrite <- !Nat.ltb_lt, <- (sorted_positions _ _ _ _ _ (merge_sorted H) Hm En).
    rewrite <- (sorted_target l i e en.1); [done|by eapply merge_parts| |done].
    apply (entries_valid _ (merge_sorted H)). by eapply list_elem_of_lookup_2.
  - apply lookup_lt_Some in Hi. apply lookup_lt_Some in Hm. apply lookup_ge_None in En. lia.
Qed.

(** A way to know [upto n l]. *)
Lemma upto_unique n j l x :
  contents !! j = Some l -> (x <= length l)%nat ->
  (forall i m e, l !! i = Some e -> kvs !! m = Some e -> (i < x)%nat <-> (m < n)%nat) -> upto n l = x.
Proof.
  intros Hj Hx Hspec. apply (position_unique _ _ (length l)); [apply upto_le|done|].
  intros i Hi. destruct (lookup_lt_is_Some_2 _ _ Hi) as [e He]. destruct (part_entry _ _ _ _ Hj He) as [m Hm].
  rewrite (upto_spec n j l i m e), (Hspec i m e) by done. done.
Qed.

Lemma upto_0 j l : contents !! j = Some l -> upto 0 l = 0%nat.
Proof. intros Hj. apply (upto_unique 0 j); [done|lia|]. intros. lia. Qed.

Lemma upto_end n l : (length kvs <= n)%nat -> upto n l = length l.
Proof. intros Hn. unfold upto. by rewrite lookup_ge_None_2. Qed.

Lemma upto_target t j l :
  valid t -> contents !! j = Some l -> upto (keys_before C t kvs) l = keys_before C t l.
Proof.
  intros Ht Hj. apply (upto_unique _ j); [done|apply keys_before_le|]. intros i m e Hi Hm.
  rewrite <- !Nat.ltb_lt, <- (sorted_target l i e t), <- (sorted_target kvs m e t); try done.
  - apply H.
  - by eapply merge_parts.
Qed.

(** Every entry has an owner; one more entry is one more for the owner only. *)
Lemma entry_owner n e :
  kvs !! n = Some e -> exists j l, contents !! j = Some l /\ l !! upto n l = Some e /\
                                   upto (S n) l = S (upto n l).
Proof.
  intros Hn. assert (e ∈ concat contents) as Hin by (rewrite <- (merge_all H); by eapply list_elem_of_lookup_2).
  apply elem_of_concat in Hin as (j & l & Hj & [i Hi]%list_elem_of_lookup).
  pose proof (merge_sorted H) as Hs. pose proof (merge_parts H _ _ Hj) as Hp.
  pose proof (lookup_lt_Some _ _ _ Hi) as Hlt.
  assert (upto n l = i) as Hu.
  { apply (upto_unique _ j); [done|lia|]. intros i' m' e' Hi' Hm'. rewrite <- !Nat.ltb_lt.
    by rewrite <- (sorted_positions _ _ _ _ _ Hs Hm' Hn), <- (sorted_positions _ _ _ _ _ Hp Hi' Hi). }
  exists j, l. split; [done|]. rewrite Hu. split; [done|].
  apply (upto_unique _ j); [done|lia|]. intros i' m' e' Hi' Hm'.
  pose proof (sorted_positions _ _ _ _ _ Hs Hn Hm') as E1. pose proof (sorted_positions _ _ _ _ _ Hp Hi Hi') as E2.
  rewrite E2 in E1. destruct (Nat.ltb_spec i i'), (Nat.ltb_spec n m'); try discriminate E1; lia.
Qed.

Lemma upto_other n e c lc j l :
  kvs !! n = Some e -> contents !! c = Some lc -> e ∈ lc -> contents !! j = Some l -> j <> c ->
  upto (S n) l = upto n l.
Proof.
  intros Hn Hc He Hj Hne. apply (upto_unique _ j); [done|apply upto_le|]. intros i m e' Hi Hm.
  rewrite (upto_spec n j l i m e') by done. destruct (decide (m = n)) as [->|]; [|lia].
  assert (e' = e) as -> by congruence.
  pose proof (entries_valid _ (merge_sorted H) e (list_elem_of_lookup_2 _ _ _ Hn)) as Hv.
  destruct (parts_apart j c l lc e e Hj Hc Hne ltac:(by eapply list_elem_of_lookup_2) He) as [Hb|Hb];
    by rewrite before_irrefl in Hb.
Qed.

(** What the other lists have behind entry [n], and what they have before it. *)
Lemma upto_next n e c lc j l e' :
  kvs !! n = Some e -> contents !! c = Some lc -> e ∈ lc -> contents !! j = Some l -> j <> c ->
  l !! upto n l = Some e' -> before C e.1 e'.1 = true.
Proof.
  intros Hn Hc He Hj Hne He'. destruct (part_entry _ _ _ _ Hj He') as [m Hm].
  pose proof (upto_spec n j l _ m e' Hj He' Hm) as Hs. pose proof (upto_spec (S n) j l _ m e' Hj He' Hm) as Hs'.
  rewrite (upto_other n e c lc j l) in Hs' by done.
  rewrite (sorted_positions _ _ _ _ _ (merge_sorted H) Hn Hm). apply Nat.ltb_lt. lia.
Qed.

Lemma upto_prev n e c lc j l i e' :
  kvs !! n = Some e -> contents !! c = Some lc -> e ∈ lc -> contents !! j = Some l -> j <> c ->
  upto (S n) l = S i -> l !! i = Some e' -> before C e'.1 e.1 = true.
Proof.
  intros Hn Hc He Hj Hne Hu He'. destruct (part_entry _ _ _ _ Hj He') as [m Hm].
  rewrite (upto_other n e c lc j l) in Hu by done.
  rewrite (sorted_positions _ _ _ _ _ (merge_sorted H) Hm Hn). apply Nat.ltb_lt.
  rewrite <- (upto_spec n j l i m e') by done. lia.
Qed.

End merge.
Arguments upto C kvs n l : clear implicits.
