(* ===== verification/Env.v ===== *)
(** * The environment (env.h, env.cc)

    The interfaces of files, which the operating system implements, and where byte
    strings are in memory; files by their names, reading and writing them whole. *)

From Stdlib Require Import ZArith Lia.
From stdpp Require Import base option list strings gmap.
From S2P Require Import Prelude Memory Slice Crc32c Status.

(** Where a byte string is stored: anywhere in the address space that has room
    for it and three bytes more. *)
Class Placement `{!Platform} := {
  placed : Slice -> Z;
  placed_fits s : Z.of_nat (length s) < 2 ^ 31 -> addressable (placed s) s
}.

Lemma Extend_placed `{!Platform} `{!Placement} c d :
  0 <= c < 2 ^ 32 -> Forall is_byte d -> Z.of_nat (length d) < 2 ^ 31 ->
  Extend (placed d) c d = Some (crc32c c d).
Proof. intros Hc Hd Hl. apply Extend_eq; [by apply placed_fits|done|done]. Qed.

(** ** Files *)

Class WritableFile (F : Type) := {
  Append : Slice -> F -> Status * F;
  Flush : F -> Status * F
}.

(** [Read(n, &result, scratch)] and [Skip(n)]. *)
Class SequentialFile (F : Type) := {
  Read : Z -> F -> Status * Slice * F;
  Skip : Z -> F -> Status * F
}.

(** [Read(offset, n, &result, scratch)], which may or may not put the bytes into
    [scratch]: the flag tells. *)
Class RandomAccessFile (F : Type) := {
  ReadAt : Z -> Z -> F -> Status * Slice * bool
}.

(** ** Files that work *)

Class ReliableFile (F : Type) `{!WritableFile F} := {
  contents : F -> Slice;
  append_ok d f : exists f', Append d f = (Status_OK, f') /\ contents f' = contents f ++ d;
  flush_ok f : exists f', Flush f = (Status_OK, f') /\ contents f' = contents f
}.

Class StoredFile (F : Type) `{!SequentialFile F} := {
  remaining : F -> Slice;
  read_ok n f : 0 <= n -> exists f',
    Read n f = (Status_OK, take (Z.to_nat n) (remaining f), f') /\
    remaining f' = drop (Z.to_nat n) (remaining f)
}.

(** Reading at a position of a file that does not change. *)
Class StoredRandom (F : Type) `{!RandomAccessFile F} := {
  stored : F -> Slice;
  read_at_ok o n f : 0 <= o -> 0 <= n -> exists b,
    ReadAt o n f = (Status_OK, take (Z.to_nat n) (drop (Z.to_nat o) (stored f)), b)
}.

(** * Files by name (env.h, env.cc)

    What the database asks of [Env]: to open, rename and delete files.  The operating
    system implements it; the contract is [FileSystemLaws], and an implementation in
    memory is at the end.  The functions of env.cc that write and read a whole file
    are on top of it. *)

(** [W], [G] and [R] are the files that can be written, read in sequence and read at
    any position; what the file system holds is [E]. *)
Class FileSystem (E W G R : Type) := {
  NewWritableFile : Slice -> E -> Status * option W * E;
  NewSequentialFile : Slice -> E -> Status * option G;
  NewRandomAccessFile : Slice -> E -> Status * option R;
  DeleteFile : Slice -> E -> Status * E;
  RenameFile : Slice -> Slice -> E -> Status * E;
  file_Append : Slice -> W -> E -> Status * E;
  file_Flush : W -> E -> Status * E;
  file_Sync : W -> E -> Status * E;
  file_Close : W -> E -> Status * E;
  file_delete : W -> E -> E
}.

Section whole_files.
Context {E W G R : Type} {FS : FileSystem E W G R}.

(** A file that can be written is the handle with what the file system holds. *)
#[export] Instance handle_writable : WritableFile (W * E) := {|
  Append d f := let '(s, e) := file_Append d f.1 f.2 in (s, (f.1, e));
  Flush f := let '(s, e) := file_Flush f.1 f.2 in (s, (f.1, e))
|}.

Definition DoWriteStringToFile (data fname : Slice) (should_sync : bool) (env : E) : option (Status * E) :=
  let '(s, file, env) := NewWritableFile fname env in
  if negb (ok s) then Some (s, env)
  else
    file ← file;
    let '(s, env) := file_Append data file env in
    let '(s, env) := if ok s && should_sync then file_Sync file env else (s, env) in
    let '(s, env) := if ok s then file_Close file env else (s, env) in
    let env := file_delete file env in
    Some (s, if negb (ok s) then (DeleteFile fname env).2 else env).

Definition WriteStringToFile (data fname : Slice) (env : E) : option (Status * E) :=
  DoWriteStringToFile data fname false env.
Definition WriteStringToFileSync (data fname : Slice) (env : E) : option (Status * E) :=
  DoWriteStringToFile data fname true env.

Context {SF : SequentialFile G}.

Definition kBufferSize : Z := 8192.

(** One round of the loop of [ReadFileToString], on [data]; the file is the state. *)
Definition read_piece (data : Slice) : M G (Slice + Status * Slice) := fun file =>
  let '(s, fragment, file) := Read kBufferSize file in
  if negb (ok s) then Ok (inr (s, data)) file
  else
    let data := data ++ fragment in
    Ok (if (length fragment =? 0)%nat then inr (s, data) else inl data) file.

(** The status and the contents; [fuel] is at least two more than the pieces of the file. *)
Definition ReadFileToString (fuel : nat) (fname : Slice) (env : E) : option (Status * Slice) :=
  let '(s, file) := NewSequentialFile fname env in
  if negb (ok s) then Some (s, [])
  else
    file ← file;
    match loop fuel read_piece [] file with Ok r _ => Some r | _ => None end.

End whole_files.

(** What is left of a file when the machine stops: a sync that reports success has
    brought all of it there, and no sync changes what the file holds. *)
Class SyncedFile (E W G R : Type) `{FS : FileSystem E W G R, RF : !ReliableFile (W * E)} := {
  durable : W * E -> Slice;
  durable_prefix f : durable f `prefix_of` contents f;
  sync_contents w e : contents (w, (file_Sync w e).2) = contents (w, e);
  sync_durable w e : ok (file_Sync w e).1 = true -> durable (w, (file_Sync w e).2) = contents (w, e)
}.

(** ** A file system that works *)

(** [open_on w name e]: the handle writes the file of that name. *)
Class FileSystemLaws (E W G R : Type) `{FS : FileSystem E W G R, SF : !SequentialFile G, TF : !StoredFile G,
    RA : !RandomAccessFile R, SR : !StoredRandom R} := {
  fs_reliable :: ReliableFile (W * E);
  fs_contents : E -> gmap Slice Slice;
  open_on : W -> Slice -> E -> Prop;
  open_contents w name e : open_on w name e -> fs_contents e !! name = Some (contents (w, e));
  new_writable_ok name e : exists w e', NewWritableFile name e = (Status_OK, Some w, e') /\
    open_on w name e' /\ fs_contents e' = <[name := []]> (fs_contents e);
  append_frame d w name e : open_on w name e -> exists e', file_Append d w e = (Status_OK, e') /\
    open_on w name e' /\ fs_contents e' = <[name := contents (w, e) ++ d]> (fs_contents e);
  flush_frame w name e : open_on w name e -> exists e', file_Flush w e = (Status_OK, e') /\
    open_on w name e' /\ fs_contents e' = fs_contents e;
  sync_ok w name e : open_on w name e -> exists e', file_Sync w e = (Status_OK, e') /\
    open_on w name e' /\ fs_contents e' = fs_contents e;
  close_ok w name e : open_on w name e -> exists e', file_Close w e = (Status_OK, e') /\ fs_contents e' = fs_contents e;
  delete_handle w e : fs_contents (file_delete w e) = fs_contents e;
  rename_ok src dst c e : fs_contents e !! src = Some c -> src <> dst -> exists e', RenameFile src dst e = (Status_OK, e') /\
    fs_contents e' = <[dst := c]> (delete src (fs_contents e));
  delete_ok name c e : fs_contents e !! name = Some c -> exists e', DeleteFile name e = (Status_OK, e') /\
    fs_contents e' = delete name (fs_contents e);
  sequential_ok name c e : fs_contents e !! name = Some c ->
    exists g, NewSequentialFile name e = (Status_OK, Some g) /\ remaining g = c;
  random_ok name c e : fs_contents e !! name = Some c ->
    exists r, NewRandomAccessFile name e = (Status_OK, Some r) /\ stored r = c
}.

Section working.
Context {E W G R : Type} `{FL : FileSystemLaws E W G R}.

Lemma WriteStringToFile_ok data fname sync (env : E) :
  exists env', DoWriteStringToFile data fname sync env = Some (Status_OK, env') /\
    fs_contents env' = <[fname := data]> (fs_contents env).
Proof.
  unfold DoWriteStringToFile. destruct (new_writable_ok fname env) as (w & e1 & -> & Ho1 & E1).
  change (negb (ok Status_OK)) with false. cbn [mbind option_bind].
  destruct (append_frame data w fname e1 Ho1) as (e2 & -> & Ho2 & E2). change (ok Status_OK) with true. cbn [andb].
  pose proof (open_contents w fname e1 Ho1) as Hc. rewrite E1, lookup_insert in Hc.
  rewrite decide_True in Hc by done. injection Hc as Hc. rewrite E1, <- Hc, insert_insert, decide_True in E2 by done. cbn [app] in E2.
  destruct sync.
  - destruct (sync_ok w fname e2 Ho2) as (e3 & -> & Ho3 & E3). change (ok Status_OK) with true.
    destruct (close_ok w fname e3 Ho3) as (e4 & -> & E4). exists (file_delete w e4). split; [done|]. by rewrite delete_handle, E4, E3, E2.
  - destruct (close_ok w fname e2 Ho2) as (e4 & -> & E4). exists (file_delete w e4). split; [done|]. by rewrite delete_handle, E4, E2.
Qed.

Lemma pieces_left size n fuel : (size <> 0 -> n <> 0 -> n + size <= size * S fuel -> (n - size) + size <= size * fuel)%nat.
Proof. intros Hs Hn H. destruct fuel; nia. Qed.

Lemma read_pieces_ok fuel data (file : G) :
  (length (remaining file) + Z.to_nat kBufferSize <= Z.to_nat kBufferSize * fuel)%nat ->
  exists file', loop fuel read_piece data file = Ok (Status_OK, data ++ remaining file) file'.
Proof.
  assert (Z.to_nat kBufferSize <> 0)%nat as Hs by (vm_compute; lia).
  revert data file. induction fuel as [|fuel IH]; intros data file Hf; [lia|]. rewrite loop_S.
  destruct (read_ok kBufferSize file) as (file1 & E1 & Hr1); [done|]. unfold bind, read_piece at 1. rewrite E1.
  change (negb (ok Status_OK)) with false. cbv beta iota zeta. destruct (Nat.eqb_spec (length (take (Z.to_nat kBufferSize) (remaining file))) 0) as [H0|H0]; rewrite length_take in H0.
  - exists file1. assert (length (remaining file) = 0%nat) as Hz by lia. apply nil_length_inv in Hz. by rewrite Hz, take_nil.
  - destruct (IH (data ++ take (Z.to_nat kBufferSize) (remaining file)) file1) as (file2 & E2).
    { rewrite Hr1, length_drop. apply pieces_left; lia. }
    exists file2. by rewrite E2, Hr1, <- app_assoc, take_drop.
Qed.

Lemma ReadFileToString_ok fuel fname c (env : E) : fs_contents env !! fname = Some c ->
  (length c + Z.to_nat kBufferSize <= Z.to_nat kBufferSize * fuel)%nat ->
  ReadFileToString fuel fname env = Some (Status_OK, c).
Proof.
  intros Hc Hf. unfold ReadFileToString. destruct (sequential_ok fname c env Hc) as (g & -> & Hr).
  change (negb (ok Status_OK)) with false. cbn [mbind option_bind].
  destruct (read_pieces_ok fuel [] g) as (g' & ->); [by rewrite Hr|]. by rewrite Hr.
Qed.

End working.

(** ** Files in memory *)

Abbreviation MemoryFiles := (gmap Slice Slice).

(** Reading takes the front of what is left. *)
#[export] Instance memory_sequential : SequentialFile Slice := {|
  Read n f := (Status_OK, take (Z.to_nat n) f, drop (Z.to_nat n) f);
  Skip n f := (Status_OK, drop (Z.to_nat n) f)
|}.
#[export] Program Instance memory_stored : StoredFile Slice := {| remaining f := f |}.
Next Obligation. intros n f Hn. by eexists. Qed.
#[export] Instance memory_random : RandomAccessFile Slice := {|
  ReadAt o n f := (Status_OK, take (Z.to_nat n) (drop (Z.to_nat o) f), true)
|}.
#[export] Program Instance memory_stored_random : StoredRandom Slice := {| stored f := f |}.
Next Obligation. intros o n f Ho Hn. by eexists. Qed.

(** What is returned for a file that is not there. *)
Definition not_there : Status := default Status_OK (Status_IOError (c_string "no such file") []).

Definition append_to (d name : Slice) (e : MemoryFiles) : MemoryFiles := <[name := default [] (e !! name) ++ d]> e.

(** A handle is the name of the file. *)
#[export] Instance memory_files : FileSystem MemoryFiles Slice Slice Slice := {|
  NewWritableFile name e := (Status_OK, Some name, <[name := []]> e);
  NewSequentialFile name e := match e !! name with Some c => (Status_OK, Some c) | None => (not_there, None) end;
  NewRandomAccessFile name e := match e !! name with Some c => (Status_OK, Some c) | None => (not_there, None) end;
  DeleteFile name e := match e !! name with Some _ => (Status_OK, delete name e) | None => (not_there, e) end;
  RenameFile src dst e := match e !! src with Some c => (Status_OK, <[dst := c]> (delete src e)) | None => (not_there, e) end;
  file_Append d w e := (Status_OK, append_to d w e);
  file_Flush w e := (Status_OK, e);
  file_Sync w e := (Status_OK, e);
  file_Close w e := (Status_OK, e);
  file_delete w e := e
|}.

#[export] Program Instance memory_reliable : ReliableFile (Slice * MemoryFiles) := {|
  contents f := default [] (f.2 !! f.1)
|}.
Next Obligation.
  intros d [w e]. exists (w, append_to d w e). split; [done|]. cbn [fst snd]. unfold append_to.
  by rewrite lookup_insert, decide_True.
Qed.
Next Obligation. intros [w e]. by eexists. Qed.

#[export] Program Instance memory_files_laws : FileSystemLaws MemoryFiles Slice Slice Slice := {|
  fs_reliable := memory_reliable;
  fs_contents e := e;
  open_on w name e := w = name /\ is_Some (e !! name)
|}.
Next Obligation. intros w name e [-> [c Hc]]. cbn. by rewrite Hc. Qed.
Next Obligation.
  intros name e. exists name, (<[name := []]> e). split; [done|]. split; [|done]. split; [done|].
  rewrite lookup_insert, decide_True by done. by eexists.
Qed.
Next Obligation.
  intros d w name e [-> Hn]. eexists. split; [done|]. split; [|done]. split; [done|].
  unfold append_to. rewrite lookup_insert, decide_True by done. by eexists.
Qed.
Next Obligation. intros w name e H. by eexists. Qed.
Next Obligation. intros w name e H. by eexists. Qed.
Next Obligation. intros w name e H. by eexists. Qed.
Next Obligation. done. Qed.
Next Obligation. intros src dst c e Hc Hne. eexists. cbn. by rewrite Hc. Qed.
Next Obligation. intros name c e Hc. eexists. cbn. by rewrite Hc. Qed.
Next Obligation. intros name c e Hc. eexists. cbn. by rewrite Hc. Qed.
Next Obligation. intros name c e Hc. eexists. cbn. by rewrite Hc. Qed.
