(* ===== verification/Log.v ===== *)
(** * The log (log_format.h, log_writer.cc, log_reader.cc)

    Records are cut into fragments that do not cross the boundaries of 32 KB
    blocks; a fragment has a header with a checksum, its length and its type.
    The writer appends to a file, the reader goes through one; files are the
    interface of env.h, implemented by the operating system. *)

From Stdlib Require Import ZArith Lia String.
From stdpp Require Import base option list strings pretty gmap.
From S2P Require Import Prelude Memory Slice Coding Crc32c Status Env.

Definition kZeroType : Z := 0.
Definition kFullType : Z := 1.
Definition kFirstType : Z := 2.
Definition kMiddleType : Z := 3.
Definition kLastType : Z := 4.
Definition kMaxRecordType : Z := kLastType.
Definition kBlockSize : Z := 32768.
Definition kHeaderSize : Z := 4 + 2 + 1.

(** ** The writer *)
Section writer.
Context {PL : Platform} {PM : Placement} {F : Type} {WF : WritableFile F}.

Record Writer := mk_writer { w_dest : F; w_block_offset : Z }.

Definition new_Writer (dest : F) : Writer := mk_writer dest 0.

Definition on_dest (op : F -> Status * F) : M Writer Status := fun w =>
  let '(s, f) := op (w_dest w) in Ok s (mk_writer f (w_block_offset w)).

Definition set_block_offset (o : Z) : M Writer unit :=
  modify (fun w => mk_writer (w_dest w) o).

(** The entry of [type_crc_], which the constructor fills. *)
Definition type_crc (t : Z) : option Z := Value (placed [t]) [t].

Definition EmitPhysicalRecord (t : Z) (data : Slice) : M Writer Status :=
  let n := Z.of_nat (length data) in
  let! block_offset := gets w_block_offset in
  assert_ (n <=? 0xffff) ;;;
  assert_ (block_offset + kHeaderSize + n <=? kBlockSize) ;;;
  let! tcrc := or_ub (type_crc t) in
  let! crc := or_ub (Extend (placed data) tcrc data) in
  let crc := Mask crc in
  let buf := EncodeFixed32 crc ++ [Z.land n 0xff; u8 (Z.shiftr n 8); u8 t] in
  let! s := on_dest (Append buf) in
  let! s :=
    if ok s then
      let! s := on_dest (Append data) in
      if ok s then on_dest Flush else ret s
    else ret s in
  set_block_offset (block_offset + kHeaderSize + n) ;;;
  ret s.

Definition record_type (begin end_ : bool) : Z :=
  if begin && end_ then kFullType
  else if begin then kFirstType
  else if end_ then kLastType else kMiddleType.

(** One round of the loop of [AddRecord]: what is left of the record and whether
    this is its first fragment.  The status of the trailer is not looked at. *)
Definition add_fragment (data_left : Slice) (begin : bool) : M Writer (Slice * Status) :=
  let! block_offset := gets w_block_offset in
  let leftover := kBlockSize - block_offset in
  assert_ (0 <=? leftover) ;;;
  (if leftover <? kHeaderSize then
     (if 0 <? leftover
      then on_dest (Append (replicate (Z.to_nat leftover) 0)) ;;; ret tt else ret tt) ;;;
     set_block_offset 0
   else ret tt) ;;;
  let! block_offset := gets w_block_offset in
  assert_ (0 <=? kBlockSize - block_offset - kHeaderSize) ;;;
  let avail := kBlockSize - block_offset - kHeaderSize in
  let size := Z.of_nat (length data_left) in
  let fragment_length := if size <? avail then size else avail in
  let end_ := size =? fragment_length in
  let! s := EmitPhysicalRecord (record_type begin end_) (take (Z.to_nat fragment_length) data_left) in
  ret (drop (Z.to_nat fragment_length) data_left, s).

(** Only the first fragment of a record can be empty while something is left. *)
Definition AddRecord (slice : Slice) : M Writer Status :=
  loop (S (S (length slice))) (fun '(data_left, begin) =>
    let! r := add_fragment data_left begin in
    let '(data_left, s) := r in
    if ok s && (0 <? length data_left)%nat then ret (inl (data_left, false))
    else ret (inr s)) (slice, true).

End writer.

(** ** The reader *)
Section reader.
Context {PL : Platform} {PM : Placement} {F : Type} {SF : SequentialFile F}.

(** The arguments of the constructor; [reporter_ != NULL]. *)
Context (has_reporter checksum : bool) (initial_offset : Z).

(** [r_drops]: the calls of [reporter_->Corruption], oldest first. *)
Record Reader := mk_reader {
  r_file : F;
  r_buffer : Slice;
  r_eof : bool;
  r_last_record_offset : Z;
  r_end_of_buffer_offset : Z;
  r_drops : list (Z * Status)
}.

Definition new_Reader (file : F) : Reader := mk_reader file [] false 0 0 [].

Definition set_r_file (f : F) (r : Reader) : Reader :=
  mk_reader f (r_buffer r) (r_eof r) (r_last_record_offset r) (r_end_of_buffer_offset r) (r_drops r).
Definition set_r_buffer (b : Slice) (r : Reader) : Reader :=
  mk_reader (r_file r) b (r_eof r) (r_last_record_offset r) (r_end_of_buffer_offset r) (r_drops r).
Definition set_r_eof (e : bool) (r : Reader) : Reader :=
  mk_reader (r_file r) (r_buffer r) e (r_last_record_offset r) (r_end_of_buffer_offset r) (r_drops r).
Definition set_r_last (o : Z) (r : Reader) : Reader :=
  mk_reader (r_file r) (r_buffer r) (r_eof r) o (r_end_of_buffer_offset r) (r_drops r).
Definition set_r_end (o : Z) (r : Reader) : Reader :=
  mk_reader (r_file r) (r_buffer r) (r_eof r) (r_last_record_offset r) o (r_drops r).
Definition add_drop (d : Z * Status) (r : Reader) : Reader :=
  mk_reader (r_file r) (r_buffer r) (r_eof r) (r_last_record_offset r)
    (r_end_of_buffer_offset r) (r_drops r ++ [d]).

Definition buffer_size (r : Reader) : Z := Z.of_nat (length (r_buffer r)).

Definition ReportDrop (bytes : Z) (reason : Status) : M Reader unit :=
  let! r := gets id in
  if has_reporter && (initial_offset <=? u64 (r_end_of_buffer_offset r - buffer_size r - bytes))
  then modify (add_drop (usize bytes, reason)) else ret tt.

Definition ReportCorruption (bytes : Z) (reason : Slice) : M Reader unit :=
  let! s := or_ub (Status_Corruption reason []) in ReportDrop bytes s.

Definition SkipToInitialBlock : M Reader bool :=
  let offset_in_block := initial_offset mod kBlockSize in
  let block_start_location := initial_offset - offset_in_block in
  let block_start_location :=
    if kBlockSize - 6 <? offset_in_block then u64 (block_start_location + kBlockSize)
    else block_start_location in
  modify (set_r_end block_start_location) ;;;
  if 0 <? block_start_location then
    let! r := gets id in
    let '(s, f) := Skip block_start_location (r_file r) in
    modify (set_r_file f) ;;;
    if ok s then ret true
    else ReportDrop block_start_location s ;;; ret false
  else ret true.

(** [kEof] and [kBadRecord] extend the record types. *)
Definition kEof : Z := kMaxRecordType + 1.
Definition kBadRecord : Z := kMaxRecordType + 2.

(** [buffer_] has no whole header: the next block is read.  The result is the
    type to return, if any. *)
Definition refill : M Reader (option Z) :=
  let! r := gets id in
  if negb (r_eof r) then
    let '(status, data, f) := Read kBlockSize (r_file r) in
    modify (set_r_file f) ;;;
    modify (set_r_buffer data) ;;;
    modify (set_r_end (u64 (r_end_of_buffer_offset r + Z.of_nat (length data)))) ;;;
    if negb (ok status) then
      modify (set_r_buffer []) ;;;
      ReportDrop kBlockSize status ;;;
      modify (set_r_eof true) ;;;
      ret (Some kEof)
    else if Z.of_nat (length data) <? kBlockSize then
      modify (set_r_eof true) ;;; ret None
    else ret None
  else modify (set_r_buffer []) ;;; ret (Some kEof).

(** [buffer_] starts with a header: the type and the fragment. *)
Definition parse_physical : M Reader (Z * Slice) :=
  let! r := gets id in
  let header := r_buffer r in
  let! h4 := or_ub (header !! 4%nat) in
  let! h5 := or_ub (header !! 5%nat) in
  let! h6 := or_ub (header !! 6%nat) in
  let a := Z.land h4 0xff in
  let b := Z.land h5 0xff in
  let type := u32 (s8 h6) in
  let length_ := Z.lor a (Z.shiftl b 8) in
  if buffer_size r <? kHeaderSize + length_ then
    let drop_size := buffer_size r in
    modify (set_r_buffer []) ;;;
    if negb (r_eof r) then
      ReportCorruption drop_size (c_string "bad record length") ;;; ret (kBadRecord, [])
    else ret (kEof, [])
  else if (type =? kZeroType) && (length_ =? 0) then
    modify (set_r_buffer []) ;;; ret (kBadRecord, [])
  else
    let! good :=
      if checksum then
        let! stored := or_ub (DecodeFixed32 header) in
        let data := take (Z.to_nat (1 + length_)) (drop 6 header) in
        let! actual_crc := or_ub (Value (placed data) data) in
        ret (actual_crc =? Unmask stored)
      else ret true in
    if negb good then
      let drop_size := buffer_size r in
      modify (set_r_buffer []) ;;;
      ReportCorruption drop_size (c_string "checksum mismatch") ;;;
      ret (kBadRecord, [])
    else
      let! rest := or_ub (remove_prefix header (Z.to_nat (kHeaderSize + length_))) in
      modify (set_r_buffer rest) ;;;
      if u64 (r_end_of_buffer_offset r - Z.of_nat (length rest) - kHeaderSize - length_)
           <? initial_offset
      then ret (kBadRecord, [])
      else ret (type, take (Z.to_nat length_) (drop (Z.to_nat kHeaderSize) header)).

(** One round of the loop of [ReadPhysicalRecord]. *)
Definition physical_round (_ : unit) : M Reader (unit + Z * Slice) :=
  let! r := gets id in
  if buffer_size r <? kHeaderSize then
    let! e := refill in
    match e with Some t => ret (inr (t, [])) | None => ret (inl tt) end
  else let! p := parse_physical in ret (inr p).

(** A full block has a header, so the loop goes round at most twice. *)
Definition ReadPhysicalRecord : M Reader (Z * Slice) := loop 3 physical_round tt.

(** The local variables of [ReadRecord]. *)
Record read_vars := mk_read_vars {
  rv_in_fragmented_record : bool;
  rv_prospective_record_offset : Z;
  rv_scratch : Slice
}.

(** A record that starts where the previous one has no end. *)
Definition report_unfinished (v : read_vars) (reason : string) : M Reader unit :=
  if rv_in_fragmented_record v then
    if bool_decide (rv_scratch v = []) then ret tt
    else ReportCorruption (Z.of_nat (length (rv_scratch v))) (c_string reason)
  else ret tt.

(** One round of the loop of [ReadRecord]; the result is the record, or that
    there is none. *)
Definition read_fragment (v : read_vars) : M Reader (read_vars + option Slice) :=
  let! r := gets id in
  let physical_record_offset := u64 (r_end_of_buffer_offset r - buffer_size r) in
  let! p := ReadPhysicalRecord in
  let '(record_type, fragment) := p in
  let in_fragmented_record := rv_in_fragmented_record v in
  let scratch := rv_scratch v in
  if record_type =? kFullType then
    report_unfinished v "partial record without end(1)" ;;;
    modify (set_r_last physical_record_offset) ;;;
    ret (inr (Some fragment))
  else if record_type =? kFirstType then
    report_unfinished v "partial record without end(2)" ;;;
    ret (inl (mk_read_vars true physical_record_offset fragment))
  else if record_type =? kMiddleType then
    if negb in_fragmented_record then
      ReportCorruption (Z.of_nat (length fragment))
        (c_string "missing start of fragmented record(1)") ;;;
      ret (inl v)
    else
      ret (inl (mk_read_vars true (rv_prospective_record_offset v) (scratch ++ fragment)))
  else if record_type =? kLastType then
    if negb in_fragmented_record then
      ReportCorruption (Z.of_nat (length fragment))
        (c_string "missing start of fragmented record(2)") ;;;
      ret (inl v)
    else
      modify (set_r_last (rv_prospective_record_offset v)) ;;;
      ret (inr (Some (scratch ++ fragment)))
  else if record_type =? kEof then ret (inr None)
  else if record_type =? kBadRecord then
    if in_fragmented_record then
      ReportCorruption (Z.of_nat (length scratch)) (c_string "error in middle of record") ;;;
      ret (inl (mk_read_vars false (rv_prospective_record_offset v) []))
    else ret (inl v)
  else
    ReportCorruption
      (Z.of_nat (length fragment) + (if in_fragmented_record then Z.of_nat (length scratch) else 0))
      (c_string "unknown record type " ++ c_string (pretty record_type)) ;;;
    ret (inl (mk_read_vars false (rv_prospective_record_offset v) [])).

Definition ReadRecord (fuel : nat) : M Reader (option Slice) :=
  let! r := gets id in
  let! ready :=
    if r_last_record_offset r <? initial_offset then SkipToInitialBlock else ret true in
  if negb ready then ret None
  else loop fuel read_fragment (mk_read_vars false 0 []).

Definition LastRecordOffset : M Reader Z := gets r_last_record_offset.

End reader.
Arguments Writer : clear implicits.
Arguments Reader : clear implicits.
