(* ===== verification/LogTheorems.v ===== *)
(** * The log: what is written can be read

    The layout of a log as a relation between records and bytes, the writer
    refines it, and the reader inverts it on any prefix. *)

From Stdlib Require Import ZArith Lia String.
From stdpp Require Import base option list strings pretty gmap.
From S2P Require Import Prelude Memory Slice Coding Crc32c Status Log Env.

(** ** The layout *)

(** A fragment with its header. *)
Definition header (t : Z) (d : Slice) : Slice :=
  EncodeFixed32 (Mask (crc32c 0 (t :: d))) ++
  [Z.land (Z.of_nat (length d)) 0xff; u8 (Z.shiftr (Z.of_nat (length d)) 8); t].
Definition physical (t : Z) (d : Slice) : Slice := header t d ++ d.

(** A header does not start in the last six bytes of a block. *)
Definition in_trailer (off : Z) : bool := kBlockSize - off <? kHeaderSize.
Definition start (off : Z) : Z := if in_trailer off then 0 else off.
Definition trailer (off : Z) : Slice :=
  if in_trailer off then replicate (Z.to_nat (kBlockSize - off)) 0 else [].
Definition available (off : Z) : Z := kBlockSize - start off - kHeaderSize.

(** [emitted off begin d bs off']: at offset [off] of a block, the rest [d] of a
    record is stored as [bs], and the next record comes at [off']. *)
Inductive emitted : Z -> bool -> Slice -> Slice -> Z -> Prop :=
  | emitted_last off begin d :
      Z.of_nat (length d) <= available off ->
      emitted off begin d (trailer off ++ physical (record_type begin true) d)
        (start off + kHeaderSize + Z.of_nat (length d))
  | emitted_more off begin d bs off' :
      available off < Z.of_nat (length d) ->
      emitted kBlockSize false (drop (Z.to_nat (available off)) d) bs off' ->
      emitted off begin d
        (trailer off ++
         physical (record_type begin false) (take (Z.to_nat (available off)) d) ++ bs) off'.

(** The records of a log, each with the bytes it is stored in. *)
Inductive log_layout : Z -> list Slice -> list Slice -> Prop :=
  | log_nil off : log_layout off [] []
  | log_cons off d bs off' ds bss :
      emitted off true d bs off' -> log_layout off' ds bss ->
      log_layout off (d :: ds) (bs :: bss).

(** An offset in a block, the end included. *)
Definition in_block (off : Z) : Prop := 0 <= off <= kBlockSize.

Lemma available_bound off : in_block off -> 0 <= available off <= kBlockSize - kHeaderSize.
Proof.
  unfold in_block, available, start, in_trailer, kBlockSize, kHeaderSize. intros H.
  destruct (Z.ltb_spec (32768 - off) (4 + 2 + 1)); lia.
Qed.

Lemma start_bound off : in_block off -> 0 <= start off /\ start off + kHeaderSize <= kBlockSize.
Proof.
  unfold in_block, start, in_trailer, kBlockSize, kHeaderSize. intros H.
  destruct (Z.ltb_spec (32768 - off) (4 + 2 + 1)); lia.
Qed.

Lemma header_length t d : length (header t d) = 7%nat.
Proof. unfold header. rewrite length_app, EncodeFixed32_split, le_split_length. done. Qed.

Lemma physical_length t d : length (physical t d) = (7 + length d)%nat.
Proof. unfold physical. by rewrite length_app, header_length. Qed.

Definition good_type (t : Z) : Prop := 1 <= t <= 4.

Lemma record_type_good b e : good_type (record_type b e).
Proof. by destruct b, e; unfold good_type; cbn. Qed.

(** ** The writer *)
Section writer.
Context {PL : Platform} {PM : Placement} {F : Type} {WF : WritableFile F} {RF : ReliableFile F}.

Lemma on_dest_eq {A} op f0 o s f (k : Status -> M (Writer F) A) :
  op f0 = (s, f) -> bind (on_dest op) k (mk_writer f0 o) = k s (mk_writer f o).
Proof. intros H. unfold bind, on_dest. cbn [w_dest w_block_offset]. by rewrite H. Qed.

Lemma emit_physical t d w :
  good_type t -> Forall is_byte d ->
  w_block_offset w + kHeaderSize + Z.of_nat (length d) <= kBlockSize -> 0 <= w_block_offset w ->
  exists w', EmitPhysicalRecord t d w = Ok Status_OK w' /\
    contents (w_dest w') = contents (w_dest w) ++ physical t d /\
    w_block_offset w' = w_block_offset w + kHeaderSize + Z.of_nat (length d).
Proof.
  unfold good_type, kHeaderSize, kBlockSize. intros Ht Hd Hfit H0.
  assert (is_byte t) as Htb by (unfold is_byte; lia).
  unfold EmitPhysicalRecord, type_crc, Value, kHeaderSize, kBlockSize.
  rewrite bind_gets, !bind_assert by (apply Z.leb_le; lia).
  rewrite (bind_or_ub _ (crc32c 0 [t])).
  2:{ apply Extend_placed; [lia|by constructor|cbn; lia]. }
  rewrite (bind_or_ub _ (crc32c 0 (t :: d))).
  2:{ rewrite Extend_placed; [by rewrite crc32c_app| |done|lia].
      apply crc32c_range; [lia|by constructor]. }
  cbv zeta. rewrite (uwrap_small 8 t) by lia.
  fold (header t d).
  destruct w as [f0 o]. cbn [w_dest w_block_offset] in *.
  destruct (append_ok (header t d) f0) as (f1 & E1 & C1).
  destruct (append_ok d f1) as (f2 & E2 & C2). destruct (flush_ok f2) as (f3 & E3 & C3).
  rewrite (on_dest_eq _ _ _ _ _ _ E1). change (ok Status_OK) with true. cbv iota.
  rewrite bind_assoc, (on_dest_eq _ _ _ _ _ _ E2). change (ok Status_OK) with true. cbv iota.
  unfold bind at 1. unfold on_dest at 1. cbn [w_dest w_block_offset]. rewrite E3.
  eexists. split; [done|]. cbn [w_dest w_block_offset]. split; [|done].
  unfold physical. by rewrite C3, C2, C1, <- app_assoc.
Qed.

Lemma add_fragment_emits d b w :
  in_block (w_block_offset w) -> Forall is_byte d ->
  let n := Z.min (available (w_block_offset w)) (Z.of_nat (length d)) in
  exists w', add_fragment d b w = Ok (drop (Z.to_nat n) d, Status_OK) w' /\
    contents (w_dest w') = contents (w_dest w) ++ trailer (w_block_offset w) ++
      physical (record_type b (Z.of_nat (length d) =? n)) (take (Z.to_nat n) d) /\
    w_block_offset w' = start (w_block_offset w) + kHeaderSize + n.
Proof.
  intros Hw Hd n. pose proof (available_bound _ Hw) as Ha. pose proof (start_bound _ Hw) as [Hs0 Hs1].
  unfold add_fragment. rewrite bind_gets.
  rewrite bind_assert by (apply Z.leb_le; unfold in_block in Hw; lia).
  assert (exists w1, (if kBlockSize - w_block_offset w <? kHeaderSize
     then (if 0 <? kBlockSize - w_block_offset w
           then on_dest (Append (replicate (Z.to_nat (kBlockSize - w_block_offset w)) 0)) ;;; ret tt
           else ret tt) ;;; set_block_offset 0
     else ret tt) w = Ok tt w1 /\ w_block_offset w1 = start (w_block_offset w) /\
     contents (w_dest w1) = contents (w_dest w) ++ trailer (w_block_offset w)) as (w1 & Ew1 & Ho & Hc).
  { unfold start, trailer, in_trailer.
    destruct (Z.ltb_spec (kBlockSize - w_block_offset w) kHeaderSize).
    2:{ exists w. rewrite app_nil_r. done. }
    destruct (Z.ltb_spec 0 (kBlockSize - w_block_offset w)).
    - destruct (append_ok (replicate (Z.to_nat (kBlockSize - w_block_offset w)) 0) (w_dest w))
        as (f1 & E1 & C1).
      unfold on_dest, bind. rewrite E1. eexists. done.
    - replace (kBlockSize - w_block_offset w) with 0 by (unfold in_block in Hw; lia).
      eexists. split; [done|]. by rewrite app_nil_r. }
  rewrite (bind_ok _ _ _ _ _ Ew1), bind_gets, Ho.
  rewrite bind_assert by (apply Z.leb_le; lia). cbv zeta.
  fold (available (w_block_offset w)).
  assert ((if Z.of_nat (length d) <? available (w_block_offset w)
           then Z.of_nat (length d) else available (w_block_offset w)) = n) as ->.
  { unfold n. destruct (Z.ltb_spec (Z.of_nat (length d)) (available (w_block_offset w))); lia. }
  destruct (emit_physical (record_type b (Z.of_nat (length d) =? n)) (take (Z.to_nat n) d) w1)
    as (w2 & Ew2 & Hc2 & Ho2).
  - apply record_type_good.
  - by apply Forall_take.
  - rewrite Ho, length_take. unfold available in *. lia.
  - rewrite Ho. lia.
  - rewrite (bind_ok _ _ _ _ _ Ew2). exists w2. split; [done|].
    rewrite Hc2, Hc, <- app_assoc. split; [done|]. rewrite Ho2, Ho, length_take. lia.
Qed.

Lemma add_fragments_emit fuel d b w :
  in_block (w_block_offset w) -> Forall is_byte d ->
  (length d + (if decide (w_block_offset w = kBlockSize) then 0 else 1) < fuel)%nat ->
  exists w' bs, loop fuel (fun '(data_left, begin) =>
      let! r := add_fragment data_left begin in
      let '(data_left, s) := r in
      if ok s && (0 <? length data_left)%nat then ret (inl (data_left, false))
      else ret (inr s)) (d, b) w = Ok Status_OK w' /\
    emitted (w_block_offset w) b d bs (w_block_offset w') /\
    contents (w_dest w') = contents (w_dest w) ++ bs /\ in_block (w_block_offset w').
Proof.
  revert d b w. induction fuel as [|fuel IH]; intros d b w Hw Hd Hf; [lia|].
  destruct (add_fragment_emits d b w Hw Hd) as (w1 & E1 & Hc & Ho).
  pose proof (available_bound _ Hw) as Ha. pose proof (start_bound _ Hw) as Hs.
  set (n := Z.min _ _) in *. rewrite loop_S, bind_assoc, (bind_ok _ _ _ _ _ E1).
  change (ok Status_OK) with true. cbn [andb]. rewrite length_drop.
  destruct (Z.leb_spec (Z.of_nat (length d)) (available (w_block_offset w))) as [Hle|Hgt].
  - assert (n = Z.of_nat (length d)) as En by lia. rewrite En, Nat2Z.id in *.
    rewrite Nat.sub_diag. cbn [Nat.ltb Nat.leb]. rewrite bind_ret.
    rewrite Z.eqb_refl, firstn_all in Hc.
    exists w1, (trailer (w_block_offset w) ++ physical (record_type b true) d).
    split; [done|]. rewrite Ho. split; [by constructor|]. split; [done|].
    unfold in_block, available, kBlockSize, kHeaderSize in *. lia.
  - assert (n = available (w_block_offset w)) as En by lia. rewrite En in *.
    destruct (Nat.ltb_spec 0 (length d - Z.to_nat (available (w_block_offset w)))); [|lia].
    rewrite bind_ret.
    assert (w_block_offset w1 = kBlockSize) as Ho1 by (rewrite Ho; unfold available; lia).
    destruct (IH (drop (Z.to_nat (available (w_block_offset w))) d) false w1)
      as (w2 & bs & E2 & Hem & Hc2 & Hin).
    + rewrite Ho1. unfold in_block, kBlockSize. lia.
    + by apply Forall_drop.
    + rewrite Ho1, decide_True, length_drop by done.
      destruct (decide (w_block_offset w = kBlockSize)) as [E|]; [|lia].
      assert (0 < available (w_block_offset w)); [|lia].
        by rewrite E.
    + exists w2, (trailer (w_block_offset w) ++
        physical (record_type b false) (take (Z.to_nat (available (w_block_offset w))) d) ++ bs).
      split; [exact E2|]. rewrite Ho1 in Hem. split; [by constructor|].
      split; [|done]. rewrite Hc2, Hc.
      destruct (Z.eqb_spec (Z.of_nat (length d)) (available (w_block_offset w))); [lia|].
      by rewrite <- !app_assoc.
Qed.

(** [AddRecord] stores the record after what is there. *)
Lemma AddRecord_emits d w :
  in_block (w_block_offset w) -> Forall is_byte d ->
  exists w' bs, AddRecord d w = Ok Status_OK w' /\
    emitted (w_block_offset w) true d bs (w_block_offset w') /\
    contents (w_dest w') = contents (w_dest w) ++ bs /\ in_block (w_block_offset w').
Proof.
  intros Hw Hd. apply add_fragments_emit; [done|done|]. case_decide; lia.
Qed.


End writer.

(** ** The reader *)
Section reader.
Context {PL : Platform} {PM : Placement} {F : Type} {SF : SequentialFile F} {TF : StoredFile F}.
Context (hr ck : bool).

(** [at_ off t r]: the reader is at offset [off] of a block and [t] is the rest of
    the file: [buffer_] has the rest of the block, or less at the end of the
    file. *)
Record at_ (off : Z) (t : Slice) (r : Reader F) : Prop := {
  at_block : in_block off;
  at_buffer : r_buffer r = take (Z.to_nat (kBlockSize - off)) t;
  at_file : remaining (r_file r) = drop (Z.to_nat (kBlockSize - off)) t;
  at_eof : r_eof r = (Z.of_nat (length t) <? kBlockSize - off);
  at_last : 0 <= r_last_record_offset r
}.

(** What reading does not change. *)
Definition same (r r' : Reader F) : Prop :=
  r_drops r' = r_drops r /\ r_last_record_offset r' = r_last_record_offset r.

#[local] Instance same_preorder : PreOrder same.
Proof.
  split; [by split|]. intros a b c [H1 H2] [H3 H4]. split; congruence.
Qed.

Lemma at_buffer_size off t r :
  at_ off t r -> buffer_size r = Z.min (kBlockSize - off) (Z.of_nat (length t)).
Proof.
  intros [[? ?] Hb _ _ _]. unfold buffer_size. rewrite Hb, length_take. lia.
Qed.

(** A block with a trailer, or without a header, is done with. *)
Lemma refill_block off t r :
  at_ off t r -> in_trailer off = true -> kBlockSize - off <= Z.of_nat (length t) ->
  exists r', refill hr 0 r = Ok None r' /\ same r r' /\
    at_ 0 (drop (Z.to_nat (kBlockSize - off)) t) r'.
Proof.
  intros [[Ho1 Ho2] Hb Hf He Hl] Ht Hlen. unfold refill. rewrite bind_gets. unfold id.
  rewrite He. destruct (Z.ltb_spec (Z.of_nat (length t)) (kBlockSize - off)); [lia|]. cbn [negb].
  destruct (read_ok kBlockSize (r_file r) ltac:(done)) as (f' & Er & Hr). rewrite Er, Hf in *.
  rewrite !bind_modify. change (ok Status_OK) with true. cbn [negb]. cbv iota.
  set (t' := drop (Z.to_nat (kBlockSize - off)) t) in *.
  assert (Z.of_nat (length (take (Z.to_nat kBlockSize) t')) =
          Z.min kBlockSize (Z.of_nat (length t'))) as El.
  { rewrite length_take. unfold kBlockSize. lia. }
  rewrite El.
  assert (in_block 0) as Hin by (unfold in_block, kBlockSize; lia).
  destruct (Z.ltb_spec (Z.min kBlockSize (Z.of_nat (length t'))) kBlockSize).
  - rewrite bind_modify. eexists. split; [done|]. split; [done|]. split; try done.
    symmetry. apply Z.ltb_lt. cbn. lia.
  - eexists. split; [done|]. split; [done|]. split; try done.
    cbn [r_eof set_r_end set_r_buffer set_r_file]. rewrite He.
    destruct (Z.ltb_spec (Z.of_nat (length t)) (kBlockSize - off)); [lia|].
    symmetry. apply Z.ltb_ge. lia.
Qed.

Lemma refill_end off t r :
  at_ off t r -> Z.of_nat (length t) < kBlockSize - off ->
  exists r', refill hr 0 r = Ok (Some kEof) r' /\ same r r'.
Proof.
  intros [[Ho1 Ho2] Hb Hf He Hl] Hlen. unfold refill. rewrite bind_gets. unfold id.
  rewrite He. destruct (Z.ltb_spec (Z.of_nat (length t)) (kBlockSize - off)); [|lia].
  cbn [negb]. rewrite bind_modify. by eexists.
Qed.

(** The fields of a header. *)
Lemma header_fields t d rest :
  good_type t -> Forall is_byte d -> Z.of_nat (length d) < 65536 ->
  let h := header t d ++ rest in
  h !! 4%nat = Some (Z.of_nat (length d) mod 256) /\
  h !! 5%nat = Some (Z.of_nat (length d) / 256) /\ h !! 6%nat = Some t /\
  DecodeFixed32 h = Some (Mask (crc32c 0 (t :: d))) /\ drop 6 h = t :: rest.
Proof.
  intros Ht Hd Hl h. unfold good_type in Ht.
  assert (h = EncodeFixed32 (Mask (crc32c 0 (t :: d))) ++
    [Z.of_nat (length d) mod 256; Z.of_nat (length d) / 256; t] ++ rest) as ->.
  { unfold h, header. rewrite <- app_assoc. f_equal. change 0xff with 255. rewrite land_255.
    rewrite Z.shiftr_div_pow2 by lia. change (2 ^ 8) with 256. rewrite uwrap_small; [done|].
    split; [apply Z.div_pos; lia|]. apply Z.div_lt_upper_bound; lia. }
  rewrite DecodeFixed32_EncodeFixed32 by apply Mask_range.
  done.
Qed.


Lemma length_bytes n : 0 <= n < 65536 ->
  Z.lor (Z.land (n mod 256) 0xff) (Z.shiftl (Z.land (n / 256) 0xff) 8) = n.
Proof.
  intros Hn. change 0xff with 255. rewrite !land_255, Z.mod_mod by lia.
  pose proof (Z.mod_pos_bound n 256 ltac:(lia)). pose proof (Z.div_mod n 256 ltac:(lia)).
  rewrite (Z.mod_small (n / 256)).
  2:{ split; [apply Z.div_pos; lia|]. apply Z.div_lt_upper_bound; lia. }
  rewrite lor_shiftl_add by lia. change (2 ^ 8) with 256. lia.
Qed.

Lemma type_byte t : good_type t -> u32 (s8 t) = t.
Proof. unfold good_type. intros Ht. rewrite swrap_small, uwrap_small; lia. Qed.

(** A whole fragment. *)
Lemma parse_whole off ty d t r :
  at_ off (physical ty d ++ t) r -> good_type ty -> Forall is_byte d ->
  off + kHeaderSize + Z.of_nat (length d) <= kBlockSize ->
  exists r', parse_physical hr ck 0 r = Ok (ty, d) r' /\ same r r' /\
    at_ (off + kHeaderSize + Z.of_nat (length d)) t r'.
Proof.
  intros Hat Hty Hd Hfit. destruct Hat as [[Ho1 Ho2] Hb Hf He Hl].
  set (rest := take (Z.to_nat (kBlockSize - off) - length (physical ty d)) t).
  assert (r_buffer r = header ty d ++ d ++ rest) as Hbuf.
  { rewrite Hb, take_app, app_assoc. fold (physical ty d). f_equal. apply take_ge.
    rewrite physical_length. unfold kHeaderSize, kBlockSize in *. lia. }
  destruct (header_fields ty d (d ++ rest) Hty Hd) as (H4 & H5 & H6 & Hcrc & Hdrop).
  { unfold kHeaderSize, kBlockSize in *. lia. }
  unfold parse_physical. rewrite bind_gets. unfold id, buffer_size. rewrite Hbuf.
  rewrite (bind_or_ub _ _ _ _ H4), (bind_or_ub _ _ _ _ H5), (bind_or_ub _ _ _ _ H6). cbv zeta.
  rewrite length_bytes by (unfold kHeaderSize, kBlockSize in *; lia).
  rewrite type_byte by done.
  rewrite !length_app, header_length.
  destruct (Z.ltb_spec (Z.of_nat (7 + (length d + length rest))) (kHeaderSize + Z.of_nat (length d)));
    [unfold kHeaderSize in *; lia|].
  assert ((ty =? kZeroType) = false) as -> by (unfold good_type, kZeroType in *; lia). cbn [andb].
  rewrite (bind_ok _ _ _ true r).
  2:{ destruct ck; [|done]. rewrite (bind_or_ub _ _ _ _ Hcrc), Hdrop.
      replace (Z.to_nat (1 + Z.of_nat (length d))) with (S (length d)) by lia.
      cbn [take]. rewrite take_app_length. unfold Value.
      rewrite (bind_or_ub _ (crc32c 0 (ty :: d))).
      - rewrite Unmask_Mask; [by rewrite Z.eqb_refl|].
        apply crc32c_range; [lia|]. constructor; [|done]. unfold good_type in Hty. unfold is_byte. lia.
      - apply Extend_placed; [lia| |cbn [length]; unfold kHeaderSize, kBlockSize in *; lia].
        constructor; [|done]. unfold good_type in Hty. unfold is_byte. lia. }
  cbn [negb]. cbv iota.
  replace (Z.to_nat (kHeaderSize + Z.of_nat (length d))) with (length (physical ty d))
    by (rewrite physical_length; unfold kHeaderSize; lia).
  rewrite app_assoc. fold (physical ty d).
  rewrite (bind_or_ub _ rest).
  2:{ unfold remove_prefix. rewrite length_app. destruct (Nat.leb_spec (length (physical ty d))
        (length (physical ty d) + length rest)); [|lia]. by rewrite drop_app_length. }
  rewrite bind_modify.
  destruct (Z.ltb_spec (u64 (r_end_of_buffer_offset r - Z.of_nat (length rest) - kHeaderSize -
    Z.of_nat (length d))) 0) as [Hneg|_].
  { pose proof (uwrap_range 64 (r_end_of_buffer_offset r - Z.of_nat (length rest) - kHeaderSize -
      Z.of_nat (length d)) ltac:(lia)). lia. }
  eexists. split.
  { unfold physical. rewrite <- app_assoc. change (Z.to_nat kHeaderSize) with 7%nat.
    rewrite (drop_app_length' (header ty d)) by by rewrite header_length.
    rewrite Nat2Z.id, take_app_length. done. }
  split; [done|]. split; try done; unfold kHeaderSize, kBlockSize in *.
  - unfold in_block, kBlockSize. lia.
  - cbn [r_buffer set_r_buffer]. unfold rest. f_equal. rewrite physical_length. lia.
  - cbn [r_file set_r_buffer]. rewrite Hf, drop_app. rewrite (drop_ge (physical ty d)).
    + cbn [app]. f_equal. rewrite physical_length. lia.
    + rewrite physical_length. lia.
  - cbn [r_eof set_r_buffer]. rewrite He, length_app, physical_length.
    apply eq_bool_prop_intro. rewrite !Is_true_true, !Z.ltb_lt. lia.
Qed.

(** The beginning of a fragment that has its header: the end of the file. *)
Lemma parse_cut off ty d t t' r :
  at_ off t r -> physical ty d = t ++ t' -> t' <> [] -> (7 <= length t)%nat ->
  good_type ty -> Forall is_byte d -> off + kHeaderSize + Z.of_nat (length d) <= kBlockSize ->
  exists r', parse_physical hr ck 0 r = Ok (kEof, []) r' /\ same r r'.
Proof.
  intros Hat Ht Ht' H7 Hty Hd Hfit. pose proof (at_buffer_size _ _ _ Hat) as Hbs.
  destruct Hat as [[Ho1 Ho2] Hb Hf He Hl].
  assert (0 < length t')%nat by (destruct t'; [done|cbn; lia]).
  assert (7 + length d = length t + length t')%nat as Hlen.
  { by rewrite <- physical_length with (t := ty), Ht, length_app. }
  unfold kHeaderSize, kBlockSize in *.
  assert (t = header ty d ++ drop 7 t) as Et.
  { rewrite <- (take_drop 7 t) at 1. f_equal. unfold physical in Ht.
    transitivity (take 7 (t ++ t')); [by rewrite take_app_le|].
    rewrite <- Ht. apply take_app_length'. by rewrite header_length. }
  assert (r_buffer r = t) as Hbuf by (rewrite Hb; apply take_ge; lia).
  destruct (header_fields ty d (drop 7 t) Hty Hd ltac:(lia)) as (H4 & H5 & H6 & _).
  unfold parse_physical. rewrite bind_gets. unfold id. rewrite Hbuf, Et.
  rewrite (bind_or_ub _ _ _ _ H4), (bind_or_ub _ _ _ _ H5), (bind_or_ub _ _ _ _ H6). cbv zeta.
  rewrite length_bytes by lia. unfold kHeaderSize. rewrite Hbs.
  destruct (Z.ltb_spec (Z.min (32768 - off) (Z.of_nat (length t))) (4 + 2 + 1 + Z.of_nat (length d)));
    [|lia].
  rewrite bind_modify. cbn [r_eof set_r_buffer]. rewrite He.
  destruct (Z.ltb_spec (Z.of_nat (length t)) (32768 - off)); [|lia].
  by eexists.
Qed.

Lemma in_trailer_spec off :
  if in_trailer off then kBlockSize - off < kHeaderSize else kHeaderSize <= kBlockSize - off.
Proof. unfold in_trailer. by destruct (Z.ltb_spec (kBlockSize - off) kHeaderSize). Qed.

(** The state in which a header is parsed: the trailer is behind. *)
Lemma skip_trailer off t r k :
  at_ off t r -> (length (trailer off) <= length t)%nat ->
  exists r', loop (2 + k) (physical_round hr ck 0) tt r =
    loop (if in_trailer off then 1 + k else 2 + k)%nat (physical_round hr ck 0) tt r' /\
    same r r' /\ at_ (start off) (drop (length (trailer off)) t) r'.
Proof.
  intros Hat Hlen. pose proof (in_trailer_spec off) as Htr. pose proof (at_block _ _ _ Hat) as [? ?].
  unfold trailer, start in *. destruct (in_trailer off) eqn:Etr; [|by exists r].
  rewrite length_replicate in *.
  destruct (refill_block _ _ _ Hat Etr ltac:(lia)) as (r1 & E1 & Hs & Hat1).
  exists r1. split; [|done].
  change (2 + k)%nat with (S (1 + k)). rewrite loop_S. unfold physical_round at 1. rewrite bind_assoc, bind_gets. unfold id at 1.
  rewrite (at_buffer_size _ _ _ Hat).
  destruct (Z.ltb_spec (Z.min (kBlockSize - off) (Z.of_nat (length t))) kHeaderSize); [|lia].
  by rewrite bind_assoc, (bind_ok _ _ _ _ _ E1).
Qed.

(** The end of the file, where a header should be. *)
Lemma loop_end off t r k :
  at_ off t r -> Z.of_nat (length t) < kHeaderSize -> Z.of_nat (length t) < kBlockSize - off ->
  exists r', loop (S k) (physical_round hr ck 0) tt r = Ok (kEof, []) r' /\ same r r'.
Proof.
  intros Hat Hlen Hlen'. destruct (refill_end _ _ _ Hat Hlen') as (r1 & E1 & Hs).
  exists r1. split; [|done]. rewrite loop_S. unfold physical_round at 1. rewrite bind_assoc, bind_gets. unfold id at 1.
  rewrite (at_buffer_size _ _ _ Hat).
  destruct (Z.ltb_spec (Z.min (kBlockSize - off) (Z.of_nat (length t))) kHeaderSize); [|lia].
  by rewrite bind_assoc, (bind_ok _ _ _ _ _ E1).
Qed.

(** A round that finds a header. *)
Lemma round_parse off t r k res r' :
  at_ off t r -> kHeaderSize <= Z.of_nat (length t) -> off + kHeaderSize <= kBlockSize ->
  parse_physical hr ck 0 r = Ok res r' -> loop (S k) (physical_round hr ck 0) tt r = Ok res r'.
Proof.
  intros Hat Hlen Hoff E. rewrite loop_S. unfold physical_round at 1.
  rewrite bind_assoc, bind_gets. unfold id at 1. rewrite (at_buffer_size _ _ _ Hat).
  destruct (Z.ltb_spec (Z.min (kBlockSize - off) (Z.of_nat (length t))) kHeaderSize); [lia|].
  by rewrite bind_assoc, (bind_ok _ _ _ _ _ E).
Qed.

Lemma read_whole off ty d t r :
  at_ off (trailer off ++ physical ty d ++ t) r -> good_type ty -> Forall is_byte d ->
  Z.of_nat (length d) <= available off ->
  exists r', ReadPhysicalRecord hr ck 0 r = Ok (ty, d) r' /\ same r r' /\
    at_ (start off + kHeaderSize + Z.of_nat (length d)) t r'.
Proof.
  intros Hat Hty Hd Hfit.
  destruct (skip_trailer _ _ _ 1 Hat) as (r1 & E1 & Hs1 & Hat1); [rewrite length_app; lia|].
  rewrite drop_app_length in Hat1.
  destruct (parse_whole _ _ _ _ _ Hat1 Hty Hd) as (r2 & E2 & Hs2 & Hat2).
  { unfold available in Hfit. lia. }
  exists r2. split; [|split; [by etrans|done]].
  unfold ReadPhysicalRecord. change 3%nat with (2 + 1)%nat. rewrite E1.
  pose proof (start_bound off (at_block _ _ _ Hat)) as [_ Hst].
  destruct (in_trailer off); apply (round_parse _ _ _ _ _ _ Hat1); try done;
    rewrite length_app, physical_length; unfold kHeaderSize; lia.
Qed.

Lemma read_cut off ty d t t' r :
  at_ off t r -> trailer off ++ physical ty d = t ++ t' -> t' <> [] ->
  good_type ty -> Forall is_byte d -> Z.of_nat (length d) <= available off ->
  exists r', ReadPhysicalRecord hr ck 0 r = Ok (kEof, []) r' /\ same r r'.
Proof.
  intros Hat Ht Ht' Hty Hd Hfit. unfold ReadPhysicalRecord.
  pose proof (at_block _ _ _ Hat) as [? ?].
  destruct (decide (length (trailer off) <= length t)%nat) as [Hle|Hgt].
  2:{ pose proof (in_trailer_spec off) as Htr. unfold trailer in Hgt.
      destruct (in_trailer off); [|cbn in Hgt; lia]. rewrite length_replicate in Hgt.
      apply (loop_end off t); [done|lia..]. }
  destruct (skip_trailer _ _ _ 1 Hat Hle) as (r1 & E1 & Hs1 & Hat1).
  change 3%nat with (2 + 1)%nat. rewrite E1.
  assert (physical ty d = drop (length (trailer off)) t ++ t') as Ht1.
  { transitivity (drop (length (trailer off)) (t ++ t')); [by rewrite <- Ht, drop_app_length|].
    by rewrite drop_app_le. }
  set (t1 := drop (length (trailer off)) t) in *.
  pose proof (start_bound off (at_block _ _ _ Hat)) as [Hst1 Hst2].
  destruct (decide (7 <= length t1)%nat) as [H7|H7].
  - destruct (parse_cut _ _ _ _ _ _ Hat1 Ht1 Ht' H7 Hty Hd) as (r2 & E2 & Hs2).
    { unfold available in Hfit. lia. }
    exists r2. split; [|by etrans].
    destruct (in_trailer off); apply (round_parse _ _ _ _ _ _ Hat1); try done;
      unfold kHeaderSize; lia.
  - assert (exists r2, loop (if in_trailer off then 1 + 1 else 2 + 1)%nat
      (physical_round hr ck 0) tt r1 = Ok (kEof, []) r2 /\ same r1 r2) as (r2 & E2 & Hs2).
    { unfold kHeaderSize in *.
      destruct (in_trailer off); apply (loop_end _ _ _ _ Hat1); unfold kHeaderSize; lia. }
    exists r2. split; [done|by etrans].
Qed.

(** The local variables when the fragments before are [s]; [b]: there are none. *)
Definition vars_at (b : bool) (s : Slice) (v : read_vars) : Prop :=
  rv_in_fragmented_record v = negb b /\ 0 <= rv_prospective_record_offset v /\
  (if b then s = [] else rv_scratch v = s).

Lemma at_set_last off t r o : at_ off t r -> 0 <= o -> at_ off t (set_r_last o r).
Proof. intros [] ?. by split. Qed.

(** The step of the reader on a fragment. *)
Lemma read_fragment_whole off b e d s v t r :
  at_ off (trailer off ++ physical (record_type b e) d ++ t) r -> vars_at b s v ->
  Forall is_byte d -> Z.of_nat (length d) <= available off ->
  exists r', r_drops r' = r_drops r /\ at_ (start off + kHeaderSize + Z.of_nat (length d)) t r' /\
    if e then read_fragment hr ck 0 v r = Ok (inr (Some (s ++ d))) r'
    else exists v', read_fragment hr ck 0 v r = Ok (inl v') r' /\ vars_at false (s ++ d) v'.
Proof.
  intros Hat (Hv1 & Hv2 & Hv3) Hd Hfit.
  destruct (read_whole _ _ _ _ _ Hat (record_type_good b e) Hd Hfit) as (r1 & E1 & [Hs1 Hs2] & Hat1).
  unfold read_fragment. rewrite bind_gets. unfold id. cbv zeta.
  rewrite (bind_ok _ _ _ _ _ E1). set (o := u64 _).
  assert (0 <= o) by (apply uwrap_range; lia).
  unfold report_unfinished. rewrite Hv1.
  destruct b, e; cbn [negb record_type andb] in *; rewrite <- Hs1; try (rewrite Hv3; cbn [app]).
  - exists (set_r_last o r1). split; [done|]. split; [by apply at_set_last|]. done.
  - exists r1. split; [done|]. split; [done|]. by eexists.
  - exists (set_r_last (rv_prospective_record_offset v) r1). split; [done|].
    split; [by apply at_set_last|]. cbn. by rewrite ?Hv3.
  - exists r1. split; [done|]. split; [done|].
    eexists. split; [reflexivity|]. split; [done|]. split; [done|]. cbn. by rewrite ?Hv3.
Qed.

Lemma read_fragment_cut off ty d v t t' r :
  at_ off t r -> trailer off ++ physical ty d = t ++ t' -> t' <> [] ->
  good_type ty -> Forall is_byte d -> Z.of_nat (length d) <= available off ->
  exists r', read_fragment hr ck 0 v r = Ok (inr None) r' /\ r_drops r' = r_drops r.
Proof.
  intros Hat Ht Ht' Hty Hd Hfit.
  destruct (read_cut _ _ _ _ _ _ Hat Ht Ht' Hty Hd Hfit) as (r1 & E1 & Hs1 & _).
  exists r1. split; [|done]. unfold read_fragment. rewrite bind_gets. cbv zeta.
  by rewrite (bind_ok _ _ _ _ _ E1).
Qed.

(** A whole record. *)
Lemma read_emitted off b d bs off' :
  emitted off b d bs off' -> forall fuel s v t r,
  at_ off (bs ++ t) r -> vars_at b s v -> Forall is_byte d -> (length bs < fuel)%nat ->
  exists r', loop fuel (read_fragment hr ck 0) v r = Ok (Some (s ++ d)) r' /\
    r_drops r' = r_drops r /\ at_ off' t r'.
Proof.
  induction 1 as [off b d Hfit|off b d bs off' Hmore Hem IH]; intros fuel s v t r Hat Hv Hd Hf;
    (destruct fuel as [|fuel]; [lia|]).
  - rewrite <- app_assoc in Hat.
    destruct (read_fragment_whole _ _ true _ _ _ _ _ Hat Hv Hd Hfit) as (r1 & Hdr & Hat1 & E1).
    exists r1. split; [|done]. by rewrite loop_S, (bind_ok _ _ _ _ _ E1).
  - rewrite <- !app_assoc in Hat. pose proof (available_bound off (at_block _ _ _ Hat)).
    assert (length (take (Z.to_nat (available off)) d) = Z.to_nat (available off)) as Hlen.
    { rewrite length_take. lia. }
    destruct (read_fragment_whole _ _ false _ _ _ _ _ Hat Hv) as (r1 & Hdr & Hat1 & v1 & E1 & Hv1).
    { by apply Forall_take. }
    { lia. }
    assert (start off + kHeaderSize + Z.of_nat (length (take (Z.to_nat (available off)) d)) =
            kBlockSize) as Eo.
    { rewrite Hlen. unfold available in *. lia. }
    rewrite Eo in Hat1.
    destruct (IH fuel _ _ _ _ Hat1 Hv1) as (r2 & E2 & Hdr2 & Hat2).
    { by apply Forall_drop. }
    { rewrite !length_app, physical_length in Hf. lia. }
    exists r2. split; [|by rewrite Hdr2, Hdr].
    rewrite (loop_cont _ _ _ _ _ _ E1), E2. by rewrite <- app_assoc, take_drop.
Qed.

(** The beginning of a record, where the file ends. *)
Lemma read_emitted_cut off b d bs off' :
  emitted off b d bs off' -> forall fuel s v t t' r,
  at_ off t r -> bs = t ++ t' -> t' <> [] -> vars_at b s v -> Forall is_byte d ->
  (length t < fuel)%nat ->
  exists r', loop fuel (read_fragment hr ck 0) v r = Ok None r' /\ r_drops r' = r_drops r.
Proof.
  induction 1 as [off b d Hfit|off b d bs off' Hmore Hem IH];
    intros fuel s v t t' r Hat Ht Ht' Hv Hd Hf; (destruct fuel as [|fuel]; [lia|]).
  - destruct (read_fragment_cut _ _ _ v _ _ _ Hat Ht Ht' (record_type_good _ _) Hd Hfit)
      as (r1 & E1 & Hdr). exists r1. split; [|done]. by rewrite loop_S, (bind_ok _ _ _ _ _ E1).
  - pose proof (available_bound off (at_block _ _ _ Hat)).
    set (d1 := take (Z.to_nat (available off)) d) in *.
    assert (length d1 = Z.to_nat (available off)) as Hlen by (unfold d1; rewrite length_take; lia).
    assert (Forall is_byte d1) as Hd1 by by apply Forall_take.
    rewrite app_assoc in Ht. set (p1 := trailer off ++ physical (record_type b false) d1) in *.
    destruct (decide (length p1 <= length t)%nat) as [Hle|Hgt].
    + assert (t = p1 ++ drop (length p1) t) as Et.
      { rewrite <- (take_drop (length p1) t) at 1. f_equal.
        transitivity (take (length p1) (t ++ t')); [by rewrite take_app_le|].
        by rewrite <- Ht, take_app_length. }
      rewrite Et in Hat. unfold p1 in Hat. rewrite <- app_assoc in Hat.
      destruct (read_fragment_whole _ _ false _ _ _ _ _ Hat Hv Hd1 ltac:(lia))
        as (r1 & Hdr & Hat1 & v1 & E1 & Hv1). fold p1 in Hat1.
      assert (start off + kHeaderSize + Z.of_nat (length d1) = kBlockSize) as Eo.
      { rewrite Hlen. unfold available in *. lia. }
      rewrite Eo in Hat1.
      destruct (IH fuel (s ++ d1) v1 _ t' _ Hat1) as (r2 & E2 & Hdr2); try done.
      * rewrite Et, <- app_assoc in Ht. by apply app_inv_head in Ht.
      * by apply Forall_drop.
      * rewrite length_drop. unfold p1 in *. rewrite length_app, physical_length in *. lia.
      * exists r2. split; [|by rewrite Hdr2, Hdr]. by rewrite (loop_cont _ _ _ _ _ _ E1).
    + destruct (read_fragment_cut off (record_type b false) d1 v t (drop (length t) p1) r)
        as (r1 & E1 & Hdr); try done.
      * fold p1. rewrite <- (take_drop (length t) p1) at 1. f_equal.
        transitivity (take (length t) (p1 ++ bs)); [rewrite take_app_le; [done|lia]|].
        by rewrite Ht, take_app_length.
      * intros E%(f_equal length). rewrite length_drop in E. cbn in E. lia.
      * apply record_type_good.
      * lia.
      * exists r1. split; [|done]. by rewrite loop_S, (bind_ok _ _ _ _ _ E1).
Qed.

(** ** The records of a log *)

Lemma ReadRecord_eq fuel r off t :
  at_ off t r -> ReadRecord hr ck 0 fuel r = loop fuel (read_fragment hr ck 0) (mk_read_vars false 0 []) r.
Proof.
  intros Hat. unfold ReadRecord. rewrite bind_gets. unfold id.
  destruct (Z.ltb_spec (r_last_record_offset r) 0) as [Hlt|_]; [|done].
  pose proof (at_last _ _ _ Hat). lia.
Qed.

Lemma vars_init : vars_at true [] (mk_read_vars false 0 []).
Proof. done. Qed.

(** Reading until there is no record, at most [n] times. *)
Fixpoint read_all (n fuel : nat) : M (Reader F) (list Slice) :=
  match n with
  | O => ret []
  | S n =>
      let! d := ReadRecord hr ck 0 fuel in
      match d with
      | None => ret []
      | Some d => let! ds := read_all n fuel in ret (d :: ds)
      end
  end.

(** On a file that ends with whole records or in the middle of one. *)
Lemma read_layout off ds bss :
  log_layout off ds bss -> forall k m n fuel r,
  at_ off (take k (concat bss)) r -> Forall (Forall is_byte) ds ->
  (m <= length ds)%nat -> (length (concat (take m bss)) <= k)%nat ->
  ((m < length ds)%nat -> (k < length (concat (take (S m) bss)))%nat) ->
  (length ds < n)%nat -> (k < fuel)%nat -> (length (concat bss) < fuel)%nat ->
  exists r', read_all n fuel r = Ok (take m ds) r' /\ r_drops r' = r_drops r.
Proof.
  induction 1 as [off|off d bs off' ds bss Hem Hl IH];
    intros k m n fuel r Hat Hds Hm Hk Hk' Hn Hf Hf'; (destruct n as [|n]; [lia|]).
  - assert (m = 0)%nat as -> by (cbn in Hm; lia). cbn [read_all concat] in *. rewrite take_nil in Hat.
    assert (exists r', read_fragment hr ck 0 (mk_read_vars false 0 []) r = Ok (inr None) r' /\
              r_drops r' = r_drops r) as (r1 & E1 & Hdr).
    { apply (read_fragment_cut off kFullType [] _ [] (trailer off ++ physical kFullType []));
        [done|done| |done|constructor|apply (available_bound off (at_block _ _ _ Hat))].
      intros E%(f_equal length). rewrite length_app, physical_length in E. cbn [length] in E. lia. }
    exists r1. split; [|done].
    rewrite (bind_ok _ _ _ None r1); [done|]. rewrite (ReadRecord_eq _ _ _ _ Hat).
    destruct fuel as [|fuel]; [cbn in Hf'; lia|]. by rewrite loop_S, (bind_ok _ _ _ _ _ E1).
  - inversion Hds as [|? ? Hd Hds']; subst. cbn [concat] in Hat. cbn [concat] in Hf'.
    rewrite length_app in Hf'. cbn [read_all].
    destruct m as [|m].
    + specialize (Hk' ltac:(cbn; lia)). cbn [take concat] in Hk'. rewrite app_nil_r in Hk'.
      rewrite take_app_le in Hat by lia.
      destruct (read_emitted_cut _ _ _ _ _ Hem fuel [] (mk_read_vars false 0 []) _ (drop k bs) _ Hat) as (r1 & E1 & Hdr); try done.
      * by rewrite take_drop.
      * intros E%(f_equal length). rewrite length_drop in E. cbn in E. lia.
      * rewrite length_take. lia.
      * exists r1. split; [|done]. rewrite (bind_ok _ _ _ None r1); [done|].
        by rewrite (ReadRecord_eq _ _ _ _ Hat).
    + cbn [take concat] in Hk. rewrite length_app in Hk.
      rewrite take_app_ge in Hat by lia.
      destruct (read_emitted _ _ _ _ _ Hem fuel [] (mk_read_vars false 0 []) _ _ Hat)
        as (r1 & E1 & Hdr & Hat1); try done; [lia|]. cbn [app] in E1.
      rewrite (bind_ok _ _ _ (Some d) r1).
      2:{ by rewrite (ReadRecord_eq _ _ _ _ Hat). }
      destruct (IH (k - length bs)%nat m n fuel r1 Hat1 Hds') as (r2 & E2 & Hdr2).
      * cbn in Hm. lia.
      * lia.
      * intros Hlt. specialize (Hk' ltac:(cbn; lia)). cbn [take concat] in Hk'.
        rewrite length_app in Hk'. cbn [take]. lia.
      * cbn in Hn. lia.
      * lia.
      * lia.
      * exists r2. split; [|by rewrite Hdr2]. by rewrite (bind_ok _ _ _ _ _ E2).
Qed.

Lemma new_Reader_at f : at_ kBlockSize (remaining f) (new_Reader f).
Proof.
  split; try done.
  cbn [r_eof new_Reader]. rewrite Z.sub_diag. symmetry. apply Z.ltb_ge. lia.
Qed.

End reader.

(** Writing the records one after the other; false if a write failed. *)
Fixpoint write_all {PL : Platform} {PM : Placement} {F} {WF : WritableFile F} (ds : list Slice)
    : M (Writer F) bool :=
  match ds with
  | [] => ret true
  | d :: ds => let! s := AddRecord d in if ok s then write_all ds else ret false
  end.

Lemma write_all_layout {PL : Platform} {PM : Placement} {F} {WF : WritableFile F}
    {RF : ReliableFile F} ds (w : Writer F) :
  in_block (w_block_offset w) -> Forall (Forall is_byte) ds ->
  exists bss, length bss = length ds /\ log_layout (w_block_offset w) ds bss /\
    forall i, exists w', write_all (take i ds) w = Ok true w' /\
      contents (w_dest w') = contents (w_dest w) ++ concat (take i bss).
Proof.
  intros Hw Hds. revert w Hw. induction Hds as [|d ds Hd Hds IH]; intros w Hw.
  - exists []. split; [done|]. split; [constructor|]. intros i. exists w.
    rewrite !take_nil. cbn. by rewrite app_nil_r.
  - destruct (AddRecord_emits d w Hw Hd) as (w1 & bs & E1 & Hem & Hc & Hw1).
    destruct (IH w1 Hw1) as (bss & Hlen & Hl & Hi).
    exists (bs :: bss). split; [cbn; lia|]. split; [by econstructor|].
    intros [|i]; [exists w; cbn; by rewrite app_nil_r|].
    destruct (Hi i) as (w2 & E2 & Hc2). exists w2. cbn [take write_all concat].
    rewrite (bind_ok _ _ _ _ _ E1). change (ok Status_OK) with true. cbv iota.
    split; [done|]. by rewrite Hc2, Hc, <- app_assoc.
Qed.

(** The end of a block is the beginning of the next. *)
Lemma emitted_start b d bs off' : emitted 0 b d bs off' -> emitted kBlockSize b d bs off'.
Proof.
  inversion 1 as [? ? ? Hfit|? ? ? ? ? Hmore Hem]; subst.
  - exact (emitted_last kBlockSize b d Hfit).
  - exact (emitted_more kBlockSize b d _ off' Hmore Hem).
Qed.

Lemma layout_start ds bss : log_layout 0 ds bss -> log_layout kBlockSize ds bss.
Proof.
  intros Hl. inversion Hl; subst; [constructor|].
  econstructor; [by apply emitted_start|done].
Qed.

(** * Theorems about checksums and the log *)

(** ** Files of the examples: the list of their bytes *)

#[export] Instance list_writable : WritableFile Slice := {|
  Append d f := (Status_OK, f ++ d);
  Flush f := (Status_OK, f)
|}.
#[export] Program Instance list_reliable : ReliableFile Slice := {| contents f := f |}.
Next Obligation. intros d f. by eexists. Qed.
Next Obligation. intros f. by eexists. Qed.

#[export] Instance list_sequential : SequentialFile Slice := {|
  Read n f := (Status_OK, take (Z.to_nat n) f, drop (Z.to_nat n) f);
  Skip n f := (Status_OK, drop (Z.to_nat n) f)
|}.
#[export] Program Instance list_stored : StoredFile Slice := {| remaining f := f |}.
Next Obligation. intros n f _. by eexists. Qed.

#[export] Instance log_platform : Platform :=
  {| size_bits := 64; size_bits_cases := or_intror eq_refl |}.

(** Every string is stored at an odd address. *)
#[export] Program Instance log_placement : Placement := {| placed _ := 4097 |}.
Next Obligation. intros s Hs. unfold addressable. cbn. lia. Qed.

Section theorems.
Context {PL : Platform} {PM : Placement}.

(** C36: The checksum of a string in two parts is the checksum of the whole; it
    is the remainder of the bit-by-bit division by the CRC-32C polynomial,
    wherever in memory the parts are stored, so the table-driven code reads its
    tables and its input within their bounds.  It masks and unmasks without
    loss, and a change of at most four consecutive bytes always changes it. *)
Theorem crc32c_correct pa pb a b :
  addressable pa a -> addressable pb b -> Forall is_byte a -> Forall is_byte b ->
  exists c, Value pa a = Some c /\ Extend pb c b = Some (crc32c 0 (a ++ b)) /\
    Unmask (Mask c) = c /\ 0 <= Mask c < 2 ^ 32 /\
    forall a', Forall is_byte a' -> burst a a' -> addressable pa a' ->
      exists c', Value pa a' = Some c' /\ Mask c' <> Mask c.
Proof.
  intros Hpa Hpb Ha Hb. exists (crc32c 0 a).
  pose proof (crc32c_range 0 a ltac:(lia) Ha) as Hr.
  split; [by apply Extend_eq; [|lia|]|]. split; [|split; [|split]].
  - rewrite Extend_eq by done. by rewrite crc32c_app.
  - by apply Unmask_Mask.
  - apply Mask_range.
  - intros a' Ha' Hbu Hpa'. exists (crc32c 0 a'). split; [by apply Extend_eq; [|lia|]|].
    intros H%(f_equal Unmask). pose proof (crc32c_range 0 a' ltac:(lia) Ha').
    rewrite !Unmask_Mask in H by done. symmetry in H. revert H. by apply crc32c_burst.
Qed.

(** C8: A log survives a crash: records are written one after the other, and
    whatever prefix of the file is left, the reader returns exactly the records
    that are in it as a whole, in order, then the end of the log, and reports
    nothing lost; with the whole file it returns all the records.  It does so
    with and without checksums, and terminates within the stated fuel. *)
Theorem log_survives_truncation {F G} `{ReliableFile F} `{StoredFile G} ds (f : F) :
  Forall (Forall is_byte) ds -> contents f = [] ->
  exists bss, length bss = length ds /\
    (forall i, exists w, write_all (take i ds) (new_Writer f) = Ok true w /\
       contents (w_dest w) = concat (take i bss)) /\
    forall has_reporter checksum k m (g : G) n fuel,
      remaining g = take k (concat bss) ->
      (m <= length ds)%nat -> (length (concat (take m bss)) <= k)%nat ->
      ((m < length ds)%nat -> (k < length (concat (take (S m) bss)))%nat) ->
      (length ds < n)%nat -> (k < fuel)%nat -> (length (concat bss) < fuel)%nat ->
      exists r, read_all has_reporter checksum n fuel (new_Reader g) = Ok (take m ds) r /\
        r_drops r = [].
Proof.
  intros Hds Hf.
  destruct (write_all_layout ds (new_Writer f)) as (bss & Hlen & Hl & Hw); [done|done|].
  exists bss. split; [done|]. split.
  - intros i. destruct (Hw i) as (w & Ew & Hc). exists w. split; [done|].
    rewrite Hc. cbn [new_Writer w_dest]. by rewrite Hf.
  - intros hr ck k m g n fuel Hg Hm Hk Hk' Hn Hfu Hfu'.
    pose proof (new_Reader_at g) as Hat. rewrite Hg in Hat.
    destruct (read_layout hr ck _ _ _ (layout_start _ _ Hl) k m n fuel _ Hat Hds Hm Hk Hk' Hn Hfu Hfu')
      as (r & E & Hdr). exists r. by rewrite Hdr.
Qed.


End theorems.

(** ** Instances *)

Lemma crc32c_correct_witness :
  exists c, Value 4097 (c_string "1234") = Some c /\
    Extend 7 c (c_string "56789") = Some 0xe3069283 /\ Unmask (Mask c) = c.
Proof.
  destruct (crc32c_correct 4097 7 (c_string "1234") (c_string "56789")) as (c & H1 & H2 & H3 & _).
  - unfold addressable. vm_compute. by split.
  - unfold addressable. vm_compute. by split.
  - by apply all_bytes_Forall.
  - by apply all_bytes_Forall.
  - exists c. split; [exact H1|]. split; [|exact H3].
    rewrite H2. vm_compute. reflexivity.
Defined.

(** Three records, the second of them empty; the file is cut in the third. *)
Definition three_records : list Slice := [[1; 2; 3]; []; [255; 0]].
Definition cut_log : Slice :=
  match write_all three_records (new_Writer ([] : Slice)) with
  | Ok _ w => take 24 (w_dest w)
  | _ => []
  end.

Lemma cut_log_length : length cut_log = 24%nat.
Proof. vm_compute. reflexivity. Qed.

Lemma log_survives_truncation_witness :
  exists r, read_all true true 4 100 (new_Reader cut_log) = Ok [[1; 2; 3]; []] r /\ r_drops r = [].
Proof.
  destruct (log_survives_truncation (G := Slice) three_records ([] : Slice))
    as (bss & Hlen & Hw & Hr).
  - repeat constructor; unfold is_byte; lia.
  - reflexivity.
  - pose proof (Hw 2%nat) as (w2 & E2 & C2). pose proof (Hw 3%nat) as (w3 & E3 & C3).
    vm_compute in E2, E3. injection E2 as <-. injection E3 as <-.
    assert (concat bss = concat (take 3 bss)) as Eb by (rewrite take_ge; [reflexivity|rewrite Hlen; cbn; lia]).
    apply (Hr true true 24%nat 2%nat cut_log 4%nat 100%nat).
    + rewrite Eb, <- C3. vm_compute. reflexivity.
    + cbn. lia.
    + rewrite <- C2. vm_compute. lia.
    + intros _. rewrite <- C3. vm_compute. lia.
    + cbn. lia.
    + lia.
    + rewrite Eb, <- C3. vm_compute. lia.
Defined.


