(* ===== verification/Bloom.v ===== *)
(** * Filters (hash.cc, filter_policy.h, bloom.cc)

    The hash of byte strings, the interface of filter policies with the promise
    that a filter matches every key it was made from, and the Bloom filter. *)

From Stdlib Require Import ZArith Lia String.

From Stdlib.Floats Require Import SpecFloat.
From stdpp Require Import base option list strings gmap.
From S2P Require Import Prelude Memory Slice Coding Crc32c Status DbFormat.

(** ** The hash *)

Definition hash_m : Z := 0xc6a4a793.
Definition hash_r : Z := 24.

(** [while (data + 4 <= limit)]: the hash and the bytes that remain. *)
Fixpoint hash_words (h : Z) (data : Slice) : option (Z * Slice) :=
  match data with
  | _ :: _ :: _ :: _ :: rest =>
      w ← DecodeFixed32 data;
      let h := u32 (h + w) in
      let h := u32 (h * hash_m) in
      hash_words (Z.lxor h (Z.shiftr h 16)) rest
  | _ => Some (h, data)
  end.

(** The last case of the switch. *)
Definition hash_last (h d0 : Z) : Z :=
  let h := u32 (h + d0) in
  let h := u32 (h * hash_m) in
  Z.lxor h (Z.shiftr h hash_r).

Definition hash_tail (h : Z) (data : Slice) : Z :=
  match data with
  | [d0; d1; d2] => hash_last (u32 (u32 (h + Z.shiftl d2 16) + Z.shiftl d1 8)) d0
  | [d0; d1] => hash_last (u32 (h + Z.shiftl d1 8)) d0
  | [d0] => hash_last h d0
  | _ => h
  end.

Definition Hash `{!Platform} (data : Slice) (seed : Z) : option Z :=
  let h := u32 (Z.lxor seed (usize (Z.of_nat (length data) * hash_m))) in
  r ← hash_words h data;
  Some (hash_tail (fst r) (snd r)).

(** ** Filter policies *)

(** [CreateFilter keys dst] is [dst] afterwards; [None] is undefined behaviour. *)
Class FilterPolicy := {
  filter_name : string;
  CreateFilter : list Slice -> Slice -> option Slice;
  KeyMayMatch : Slice -> Slice -> option bool
}.

(** The promise, for the lists of keys that are [filterable]. *)
Class FilterLaws (P : FilterPolicy) := {
  filterable : list Slice -> Prop;
  filter_matches keys dst : filterable keys ->
    exists f, CreateFilter keys dst = Some (dst ++ f) /\ Forall is_byte f /\
      forall key, key ∈ keys -> KeyMayMatch key f = Some true
}.

(** What a table asks of the policy in its options: the policy keeps the promise for
    up to 2^24 keys, a filter has at most 32 bytes for a key, any filter can be
    asked, and keys that the comparator takes for equal are the same to it (the
    comment in filter_policy.h asks for that). *)
Class TableFilter (P : FilterPolicy) (C : Comparator) `{!ComparatorLaws C} := {
  tf_laws :: FilterLaws P;
  tf_name : Z.of_nat (String.length (@filter_name P)) < 2 ^ 16;
  tf_filterable keys : Forall valid keys -> Z.of_nat (length keys) < 2 ^ 24 -> filterable keys;
  tf_size keys dst f : Z.of_nat (length keys) < 2 ^ 24 -> keys <> [] -> CreateFilter keys dst = Some (dst ++ f) ->
    Z.of_nat (length f) <= 32 * Z.of_nat (length keys);
  tf_total key f : valid key -> Forall is_byte f -> Z.of_nat (length f) < 2 ^ 29 -> is_Some (KeyMayMatch key f);
  tf_same k k' f : valid k -> valid k' -> @Compare C k k' = Some 0 -> Forall is_byte f ->
    KeyMayMatch k f = Some true -> KeyMayMatch k' f = Some true
}.

(** ** The Bloom filter *)
Section bloom.
Context {PL : Platform}.

Definition BloomHash (key : Slice) : option Z := Hash key 0xbc9f1d34.

(** The double nearest to 0.69, and the conversion of a double to [size_t], which
    rounds towards zero. *)
Definition double_069 : spec_float := S754_finite false 6214967485771284 (-53).
Definition double_of_int (n : Z) : spec_float := binary_normalize 53 1024 n 0 false.
Definition size_of_double (x : spec_float) : option Z :=
  match x with
  | S754_zero _ => Some 0
  | S754_finite false m e =>
      let v := if 0 <=? e then Z.shiftl (Zpos m) e else Z.shiftr (Zpos m) (- e) in
      if v <? 2 ^ size_bits then Some v else None
  | _ => None
  end.

(** The constructor: [bits_per_key_] and [k_]. *)
Record BloomFilterPolicy := { bits_per_key_ : Z; k_ : Z }.

Definition make_BloomFilterPolicy (bits_per_key : Z) : option BloomFilterPolicy :=
  k ← size_of_double (SFmul 53 1024 (double_of_int bits_per_key) double_069);
  let k := if k <? 1 then 1 else k in
  let k := if 30 <? k then 30 else k in
  Some {| bits_per_key_ := usize bits_per_key; k_ := k |}.

(** [array[bitpos/8] |= (1 << (bitpos % 8))]; [None] when out of bounds. *)
Definition set_bit (array : Slice) (bitpos : Z) : option Slice :=
  b ← array !! Z.to_nat (bitpos / 8);
  Some (<[Z.to_nat (bitpos / 8) := u8 (Z.lor b (Z.shiftl 1 (bitpos mod 8)))]> array).

Definition get_bit (array : Slice) (bitpos : Z) : option bool :=
  b ← array !! Z.to_nat (bitpos / 8);
  Some (negb (Z.land b (Z.shiftl 1 (bitpos mod 8)) =? 0)).

(** Rotate right 17 bits. *)
Definition bloom_delta (h : Z) : Z := Z.lor (Z.shiftr h 17) (u32 (Z.shiftl h 15)).

Fixpoint set_probes (k : nat) (h delta bits : Z) (array : Slice) : option Slice :=
  match k with
  | O => Some array
  | S k => array ← set_bit array (u32 (h mod bits)); set_probes k (u32 (h + delta)) delta bits array
  end.

Fixpoint check_probes (k : nat) (h delta bits : Z) (array : Slice) : option bool :=
  match k with
  | O => Some true
  | S k =>
      b ← get_bit array (u32 (h mod bits));
      if b : bool then check_probes k (u32 (h + delta)) delta bits array else Some false
  end.

Fixpoint add_keys (k : nat) (bits : Z) (keys : list Slice) (array : Slice) : option Slice :=
  match keys with
  | [] => Some array
  | key :: keys =>
      h ← BloomHash key;
      array ← set_probes k h (bloom_delta h) bits array;
      add_keys k bits keys array
  end.

Definition BloomCreateFilter (p : BloomFilterPolicy) (keys : list Slice) (dst : Slice)
    : option Slice :=
  let bits := usize (usize (Z.of_nat (length keys)) * bits_per_key_ p) in
  let bits := if bits <? 64 then 64 else bits in
  let bytes := usize (bits + 7) / 8 in
  let bits := usize (bytes * 8) in
  array ← add_keys (Z.to_nat (k_ p)) bits keys (replicate (Z.to_nat bytes) 0 ++ [u8 (k_ p)]);
  Some (dst ++ array).

Definition BloomKeyMayMatch (key bloom_filter : Slice) : option bool :=
  let len := Z.of_nat (length bloom_filter) in
  if len <? 2 then Some false
  else
    let bits := usize ((len - 1) * 8) in
    last ← bloom_filter !! Z.to_nat (len - 1);
    let k := usize (s8 last) in
    if 30 <? k then Some true
    else
      h ← BloomHash key;
      check_probes (Z.to_nat k) h (bloom_delta h) bits bloom_filter.

Definition BloomPolicy (p : BloomFilterPolicy) : FilterPolicy := {|
  filter_name := "leveldb.BuiltinBloomFilter2"%string;
  CreateFilter := BloomCreateFilter p;
  KeyMayMatch := BloomKeyMayMatch
|}.

Definition NewBloomFilterPolicy (bits_per_key : Z) : option FilterPolicy :=
  p ← make_BloomFilterPolicy bits_per_key; Some (BloomPolicy p).

End bloom.

(** ** The policy of tables: the filter sees user keys (dbformat.cc) *)

Definition InternalFilterPolicy (user_policy : FilterPolicy) : FilterPolicy := {|
  filter_name := @filter_name user_policy;
  CreateFilter keys dst :=
    keys ← mapM ExtractUserKey keys; @CreateFilter user_policy keys dst;
  KeyMayMatch key f :=
    key ← ExtractUserKey key; @KeyMayMatch user_policy key f
|}.

(** ** A Bloom filter matches its keys *)

Lemma hash_words_total h data : is_Some (hash_words h data).
Proof.
  remember (length data) as n eqn:En. revert h data En.
  induction (lt_wf n) as [n _ IH]. intros h data ->.
  destruct data as [|d0 [|d1 [|d2 [|d3 rest]]]]; try by eexists.
  cbn [hash_words DecodeFixed32 mbind option_bind].
  apply (IH (length rest)); [cbn; lia|done].
Qed.

Section bloom_laws.
Context {PL : Platform}.

Lemma BloomHash_total key : exists h, BloomHash key = Some h.
Proof.
  unfold BloomHash, Hash.
  destruct (hash_words_total (u32 (Z.lxor 0xbc9f1d34 (usize (Z.of_nat (length key) * hash_m)))) key)
    as [r ->]. by eexists.
Qed.

(** The bit at a position, for an array of bytes. *)
Definition bit_on (array : Slice) (pos : Z) : Prop :=
  exists b, array !! Z.to_nat (pos / 8) = Some b /\ is_byte b /\ Z.testbit b (pos mod 8) = true.

Lemma get_bit_on array pos : 0 <= pos -> bit_on array pos -> get_bit array pos = Some true.
Proof.
  intros Hp (b & Hb & _ & Ht). unfold get_bit. rewrite Hb. cbn. f_equal.
  apply negb_true_iff, Z.eqb_neq. intros E.
  pose proof (Z.mod_pos_bound pos 8 ltac:(lia)).
  apply (f_equal (fun z => Z.testbit z (pos mod 8))) in E.
  rewrite Z.land_spec, Ht, Z.bits_0, Z.shiftl_spec, Z.sub_diag in E by lia. done.
Qed.

Lemma set_bit_spec array pos :
  0 <= pos -> pos / 8 < Z.of_nat (length array) -> Forall is_byte array ->
  exists array', set_bit array pos = Some array' /\ length array' = length array /\
    Forall is_byte array' /\ bit_on array' pos /\
    (forall i, i <> Z.to_nat (pos / 8) -> array' !! i = array !! i) /\
    (forall q, bit_on array q -> bit_on array' q).
Proof.
  intros Hp Hlt Hb. pose proof (Z.div_pos pos 8 Hp ltac:(lia)).
  destruct (lookup_lt_is_Some_2 array (Z.to_nat (pos / 8))) as [b Hl]; [lia|].
  unfold set_bit. rewrite Hl. cbn [mbind option_bind].
  pose proof (Forall_lookup_1 _ _ _ _ Hb Hl) as Hbb. cbn in Hbb.
  pose proof (Z.mod_pos_bound pos 8 ltac:(lia)) as Hm.
  set (v := Z.lor b (Z.shiftl 1 (pos mod 8))).
  assert (is_byte v) as Hv.
  { unfold v, is_byte in *. split; [apply Z.lor_nonneg; split; [lia|]; apply Z.shiftl_nonneg; lia|].
    change 256 with (2 ^ 8). apply Z.log2_lt_cancel. change (Z.log2 (2 ^ 8)) with 8.
    rewrite Z.shiftl_1_l, Z.log2_lor by lia. apply Z.max_lub_lt; [|rewrite Z.log2_pow2; lia].
    destruct (decide (b = 0)) as [->|]; [cbn; lia|]. apply Z.log2_lt_pow2; lia. }
  rewrite (uwrap_small 8 v) by exact Hv.
  eexists. split; [reflexivity|]. split; [by rewrite length_insert|].
  split; [by apply Forall_insert|].
  assert ((<[Z.to_nat (pos / 8):=v]> array) !! Z.to_nat (pos / 8) = Some v) as Hnew.
  { apply list_lookup_insert_eq. lia. }
  split; [|split].
  - exists v. split; [done|]. split; [done|]. unfold v.
    rewrite Z.lor_spec, Z.shiftl_spec, Z.sub_diag by lia. by rewrite orb_true_r.
  - intros i Hi. by apply list_lookup_insert_ne.
  - intros q (c & Hc & Hcb & Hct). destruct (decide (Z.to_nat (q / 8) = Z.to_nat (pos / 8))) as [E|Hne].
    + rewrite E in Hc. rewrite Hl in Hc. injection Hc as <-. exists v. rewrite E.
      split; [done|]. split; [done|]. unfold v. by rewrite Z.lor_spec, Hct.
    + exists c. split; [|done]. by rewrite list_lookup_insert_ne.
Qed.

(** An array of [bytes] bytes of bits and one more byte. *)
Definition bit_array (bytes : nat) (last : Z) (array : Slice) : Prop :=
  length array = S bytes /\ Forall is_byte array /\ array !! bytes = Some last.

Definition more_bits (a a' : Slice) : Prop := forall q, bit_on a q -> bit_on a' q.

#[local] Instance more_bits_preorder : PreOrder more_bits.
Proof. split; [by intros a q|]. intros a b c H1 H2 q Hq. by apply H2, H1. Qed.

Lemma set_probes_spec k h delta bytes last array :
  (0 < bytes)%nat -> Z.of_nat bytes * 8 <= 2 ^ 32 -> bit_array bytes last array ->
  exists array', set_probes k h delta (Z.of_nat bytes * 8) array = Some array' /\
    bit_array bytes last array' /\ more_bits array array' /\
    forall final, more_bits array' final -> check_probes k h delta (Z.of_nat bytes * 8) final = Some true.
Proof.
  intros H0 Hb. revert h array. induction k as [|k IH]; intros h array Ha.
  { exists array. split; [done|]. split; [done|]. split; [reflexivity|]. done. }
  set (bits := Z.of_nat bytes * 8) in *. cbn [set_probes].
  pose proof (Z.mod_pos_bound h bits ltac:(lia)) as Hm.
  rewrite (uwrap_small 32 (h mod bits)) by lia.
  assert (0 <= h mod bits / 8 < Z.of_nat bytes) as Hd.
  { split; [apply Z.div_pos; lia|]. apply Z.div_lt_upper_bound; lia. }
  destruct Ha as (Hl & Hby & Hlast).
  destruct (set_bit_spec array (h mod bits)) as (a1 & -> & Hl1 & Hb1 & Hon & Hother & Hmore);
    [lia|lia|done|]. cbn [mbind option_bind].
  destruct (IH (u32 (h + delta)) a1) as (a2 & E2 & Ha2 & Hmore2 & Hcheck).
  { split; [lia|]. split; [done|]. rewrite Hother by lia. done. }
  exists a2. split; [done|]. split; [done|]. split; [by etrans|].
  intros final Hfin. cbn [check_probes]. rewrite (uwrap_small 32 (h mod bits)) by lia.
  rewrite get_bit_on by (lia || by apply Hfin, Hmore2). cbn [mbind option_bind]. by apply Hcheck.
Qed.

Lemma add_keys_spec k bytes last keys array :
  (0 < bytes)%nat -> Z.of_nat bytes * 8 <= 2 ^ 32 -> bit_array bytes last array ->
  exists array', add_keys k (Z.of_nat bytes * 8) keys array = Some array' /\
    bit_array bytes last array' /\ more_bits array array' /\
    forall key h, key ∈ keys -> BloomHash key = Some h ->
      check_probes k h (bloom_delta h) (Z.of_nat bytes * 8) array' = Some true.
Proof.
  intros H0 Hb. revert array. induction keys as [|key keys IH]; intros array Ha.
  { exists array. split; [done|]. split; [done|]. split; [reflexivity|].
    intros key h Hin. by apply elem_of_nil in Hin. }
  cbn [add_keys]. destruct (BloomHash_total key) as [h Hh]. rewrite Hh. cbn [mbind option_bind].
  destruct (set_probes_spec k h (bloom_delta h) _ _ _ H0 Hb Ha) as (a1 & -> & Ha1 & Hm1 & Hc1).
  cbn [mbind option_bind]. destruct (IH _ Ha1) as (a2 & -> & Ha2 & Hm2 & Hc2).
  exists a2. split; [done|]. split; [done|]. split; [by etrans|].
  intros key' h' [->|Hin]%elem_of_cons Hh'; [|by eapply Hc2].
  rewrite Hh in Hh'. injection Hh' as <-. by apply Hc1.
Qed.

(** The size of the filter, in bytes, does not overflow. *)
Definition bloom_fits (p : BloomFilterPolicy) (keys : list Slice) : Prop :=
  0 <= bits_per_key_ p /\ 1 <= k_ p <= 30 /\ Z.of_nat (length keys) * bits_per_key_ p + 64 < 2 ^ 32
  /\ Z.of_nat (length keys) < 2 ^ 31.

Lemma bloom_matches p keys dst :
  bloom_fits p keys ->
  exists f, BloomCreateFilter p keys dst = Some (dst ++ f) /\ Forall is_byte f /\
    forall key, key ∈ keys -> BloomKeyMayMatch key f = Some true.
Proof.
  intros (Hk0 & Hk & Hfit & Hn). pose proof size_bits_bound as Hsb.
  unfold BloomCreateFilter. rewrite (usize_small (Z.of_nat _)) by lia.
  set (raw := Z.of_nat (length keys) * bits_per_key_ p) in *.
  assert (0 <= raw) by (unfold raw; lia). rewrite (usize_small raw) by lia. cbv zeta.
  set (bits0 := if raw <? 64 then 64 else raw).
  assert (64 <= bits0 < 2 ^ 32 - 64 \/ bits0 = 64) as Hb0.
  { unfold bits0. destruct (Z.ltb_spec raw 64); lia. }
  rewrite (usize_small (bits0 + 7)) by lia.
  pose proof (Z.div_mod (bits0 + 7) 8 ltac:(lia)). pose proof (Z.mod_pos_bound (bits0 + 7) 8 ltac:(lia)).
  set (bytes := (bits0 + 7) / 8) in *. rewrite (usize_small (bytes * 8)) by lia.
  set (nb := Z.to_nat bytes). assert (bytes = Z.of_nat nb) as Ebytes by lia.
  rewrite Ebytes, (uwrap_small 8 (k_ p)) by lia.
  destruct (add_keys_spec (Z.to_nat (k_ p)) nb (k_ p) keys (replicate nb 0 ++ [k_ p]))
    as (f & -> & (Hlf & Hbf & Hlast) & _ & Hcheck); [lia|lia| |].
  { split; [rewrite length_app, length_replicate; cbn; lia|]. split.
    - apply Forall_app. split; [by apply Forall_replicate|]. constructor; [|done].
      unfold is_byte. lia.
    - rewrite lookup_app_r by (rewrite length_replicate; lia). rewrite length_replicate.
      by rewrite Nat.sub_diag. }
  cbn [mbind option_bind]. exists f. split; [done|]. split; [done|].
  intros key Hin. unfold BloomKeyMayMatch. rewrite Hlf.
  destruct (Z.ltb_spec (Z.of_nat (S nb)) 2); [lia|].
  replace (Z.of_nat (S nb) - 1) with (Z.of_nat nb) by lia.
  rewrite Nat2Z.id, Hlast, (usize_small (Z.of_nat nb * 8)) by lia. cbn [mbind option_bind].
  rewrite swrap_small by lia. rewrite usize_small by lia.
  destruct (Z.ltb_spec 30 (k_ p)); [lia|].
  destruct (BloomHash_total key) as [h Hh]. rewrite Hh. cbn [mbind option_bind]. by apply (Hcheck key).
Qed.

#[export] Program Instance BloomLaws (p : BloomFilterPolicy) : FilterLaws (BloomPolicy p) := {|
  filterable := bloom_fits p
|}.
Next Obligation. intros p keys dst H. by apply bloom_matches. Qed.

(** Any bytes can be asked as a filter. *)
Lemma check_probes_total k h delta bytes f :
  (0 < bytes <= length f)%nat -> is_Some (check_probes k h delta (Z.of_nat bytes * 8) f).
Proof.
  intros Hb. revert h. induction k as [|k IH]; intros h; [by eexists|]. cbn [check_probes]. unfold get_bit.
  pose proof (Z.mod_pos_bound h (Z.of_nat bytes * 8) ltac:(lia)). pose proof (uwrap_range 32 (h mod (Z.of_nat bytes * 8)) ltac:(lia)).
  assert (u32 (h mod (Z.of_nat bytes * 8)) <= h mod (Z.of_nat bytes * 8)) by (unfold uwrap; apply Z.mod_le; lia).
  assert (0 <= u32 (h mod (Z.of_nat bytes * 8)) / 8 < Z.of_nat bytes) by (split; [apply Z.div_pos; lia|apply Z.div_lt_upper_bound; lia]).
  destruct (lookup_lt_is_Some_2 f (Z.to_nat (u32 (h mod (Z.of_nat bytes * 8)) / 8))) as [b ->]; [lia|]. cbn [mbind option_bind].
  destruct (negb _); [apply IH|by eexists].
Qed.

Lemma BloomKeyMayMatch_total key f : Z.of_nat (length f) < 2 ^ 29 -> is_Some (BloomKeyMayMatch key f).
Proof.
  intros Hf. pose proof size_bits_bound. unfold BloomKeyMayMatch. destruct (Z.ltb_spec (Z.of_nat (length f)) 2); [by eexists|].
  destruct (lookup_lt_is_Some_2 f (Z.to_nat (Z.of_nat (length f) - 1))) as [b ->]; [lia|]. cbn [mbind option_bind].
  destruct (30 <? _); [by eexists|]. destruct (BloomHash_total key) as [h ->]. cbn [mbind option_bind].
  rewrite (usize_small ((Z.of_nat (length f) - 1) * 8)) by lia.
  replace ((Z.of_nat (length f) - 1) * 8) with (Z.of_nat (pred (length f)) * 8) by lia.
  apply check_probes_total. lia.
Qed.

Lemma add_keys_length k bits keys array array' :
  add_keys k bits keys array = Some array' -> length array' = length array.
Proof.
  revert array. induction keys as [|key keys IH]; intros array; cbn [add_keys]; [by intros [= ->]|].
  destruct (BloomHash key) as [h|]; [|done]. cbn [mbind option_bind].
  assert (forall k h d a a', set_probes k h d bits a = Some a' -> length a' = length a) as Hp.
  { clear. induction k as [|k IH]; intros h d a a'; cbn [set_probes]; [by intros [= ->]|].
    unfold set_bit. destruct (a !! _) as [b|]; [|done]. cbn [mbind option_bind]. intros ->%IH. by rewrite length_insert. }
  destruct (set_probes _ _ _ _ array) as [a1|] eqn:E; [|done]. cbn [mbind option_bind]. intros ->%IH. by apply Hp in E.
Qed.

(** A Bloom filter for tables: up to 200 bits for a key. *)
Program Definition BloomTableFilter (p : BloomFilterPolicy) (Hbits : 0 <= bits_per_key_ p <= 200) (Hk : 1 <= k_ p <= 30) :
    TableFilter (BloomPolicy p) BytewiseComparator := {| tf_laws := BloomLaws p |}.
Next Obligation. done. Qed.
Next Obligation.
  intros p Hbits Hk keys _ Hn. change (bloom_fits p keys). unfold bloom_fits.
  assert (Z.of_nat (length keys) * bits_per_key_ p <= 200 * Z.of_nat (length keys)) by nia. lia.
Qed.
Next Obligation.
  intros p Hbits Hk keys dst f Hn Hne. cbn [CreateFilter BloomPolicy]. unfold BloomCreateFilter.
  pose proof size_bits_bound. assert (1 <= Z.of_nat (length keys)) by (destruct keys; [done|cbn [length]; lia]).
  assert (0 <= Z.of_nat (length keys) * bits_per_key_ p <= 200 * Z.of_nat (length keys)) by nia.
  rewrite (usize_small (Z.of_nat (length keys))), (usize_small (_ * bits_per_key_ p)) by lia.
  set (bits := if _ <? 64 then 64 else _). assert (64 <= bits <= Z.max 64 (200 * Z.of_nat (length keys))) as Hb.
  { unfold bits. destruct (Z.ltb_spec (Z.of_nat (length keys) * bits_per_key_ p) 64); lia. }
  rewrite (usize_small (bits + 7)) by lia. pose proof (Z.div_mod (bits + 7) 8 ltac:(lia)). pose proof (Z.mod_pos_bound (bits + 7) 8 ltac:(lia)).
  destruct (add_keys _ _ _ _) as [a|] eqn:Ea; [|done]. cbn [mbind option_bind]. intros [= <-%app_inv_head].
  apply add_keys_length in Ea. rewrite Ea, length_app, length_replicate. cbn [length]. lia.
Qed.
Next Obligation. intros p Hbits Hk key f _ _ Hf. by apply BloomKeyMayMatch_total. Qed.
Next Obligation.
  intros p Hbits Hk k k' f _ _ E _. cbn in E. injection E as ->%compare_eq. done.
Qed.

(** The constructor keeps the number of probes between 1 and 30. *)
Lemma make_BloomFilterPolicy_probes bits p :
  make_BloomFilterPolicy bits = Some p -> 1 <= k_ p <= 30 /\ bits_per_key_ p = usize bits.
Proof.
  unfold make_BloomFilterPolicy. destruct (size_of_double _) as [k|]; [|done].
  cbn [mbind option_bind]. intros [= <-]. cbn.
  destruct (Z.ltb_spec k 1); [cbn; lia|]. destruct (Z.ltb_spec 30 k); lia.
Qed.

End bloom_laws.

(** A policy for user keys makes one for internal keys. *)
#[export] Program Instance InternalFilterLaws P (L : FilterLaws P) :
    FilterLaws (InternalFilterPolicy P) := {|
  filterable keys := exists user_keys, mapM ExtractUserKey keys = Some user_keys /\ filterable user_keys
|}.
Next Obligation.
  intros P L keys dst (uks & Huks & Hf). cbn [CreateFilter InternalFilterPolicy].
  rewrite Huks. cbn [mbind option_bind].
  destruct (filter_matches uks dst Hf) as (f & E & Hby & Hm). exists f. split; [done|]. split; [done|].
  intros key Hin. cbn [KeyMayMatch InternalFilterPolicy].
  apply mapM_Some_1 in Huks. apply list_elem_of_lookup in Hin as [i Hi].
  destruct (Forall2_lookup_l _ _ _ _ _ Huks Hi) as (uk & Hu & Euk). rewrite Euk.
  cbn [mbind option_bind]. apply Hm. by eapply list_elem_of_lookup_2.
Qed.

(** A policy for user keys makes one for the tables of the database. *)
Lemma user_keys_of C `{!ComparatorLaws C} keys : Forall (internal_valid C) keys ->
  exists user_keys, mapM ExtractUserKey keys = Some user_keys /\ Forall valid user_keys /\ length user_keys = length keys.
Proof.
  induction 1 as [|k keys (u & n & -> & Hu & Hn) _ (uks & E & Hv & Hl)]; [by exists []|].
  exists (u :: uks). cbn [mapM]. rewrite ExtractUserKey_internal. cbn [mbind option_bind]. rewrite E.
  split; [done|]. split; [by constructor|]. cbn [length]. by rewrite Hl.
Qed.

#[export] Program Instance InternalTableFilter P C `{!ComparatorLaws C} (T : TableFilter P C) :
    TableFilter (InternalFilterPolicy P) (InternalKeyComparator C) := {|
  tf_laws := InternalFilterLaws P tf_laws
|}.
Next Obligation. intros P C L T. exact (tf_name (TableFilter := T)). Qed.
Next Obligation.
  intros P C L T keys (uks & E & Hv & Hl)%user_keys_of Hn. exists uks. split; [done|]. apply tf_filterable; [done|lia].
Qed.
Next Obligation.
  intros P C L T keys dst f Hn Hne. cbn [CreateFilter InternalFilterPolicy].
  destruct (mapM ExtractUserKey keys) as [uks|] eqn:E; [|done]. cbn [mbind option_bind]. intros Hf.
  apply mapM_Some_1, Forall2_length in E. rewrite E in *. apply (tf_size uks dst f); [lia| |done]. intros ->. by destruct keys.
Qed.
Next Obligation.
  intros P C L T key f (u & n & -> & Hu & Hn) Hf Hl. cbn [KeyMayMatch InternalFilterPolicy].
  rewrite ExtractUserKey_internal. by apply tf_total.
Qed.
Next Obligation.
  intros P C L T k k' f (u & n & -> & Hu & Hn) (u' & n' & -> & Hu' & Hn') E Hf. cbn [KeyMayMatch InternalFilterPolicy].
  rewrite !ExtractUserKey_internal. cbn [mbind option_bind]. apply tf_same; [done|done| |done].
  cbn in E. rewrite InternalCompare_eq in E by done. destruct (Compare u u') as [r|]; [|done]. cbn [mbind option_bind] in E.
  destruct (Z.eqb_spec r 0) as [Hr|]; [by rewrite Hr|congruence].
Qed.
