(* ===== verification/FilterBlock.v ===== *)
(** * Filter blocks (filter_block.h, filter_block.cc)

    One filter for the keys of each 2 KB of a table's data.  The builder is
    proved against the interface of filter policies: what it writes matches every
    key that was added.  Then the theorems about Bloom filters and filter blocks. *)

From Stdlib Require Import ZArith Lia.
From stdpp Require Import base option list strings gmap.
From S2P Require Import Prelude Memory Slice Coding DbFormat Status Bloom.

Definition kFilterBaseLg : Z := 11.
Definition kFilterBase : Z := Z.shiftl 1 kFilterBaseLg.

(** ** The builder *)
Section builder.
Context {P : FilterPolicy}.

(** [start_] holds the positions in [keys_] of the keys of the next filter,
    [filter_offsets_] where the filters start in [result_]. *)
Record FilterBlockBuilder := mk_fbb {
  keys_ : Slice;
  start_ : list Z;
  result_ : Slice;
  filter_offsets_ : list Z
}.

Definition new_FilterBlockBuilder : FilterBlockBuilder := mk_fbb [] [] [] [].

(** The keys between the positions. *)
Fixpoint split_keys (keys : Slice) (starts : list Z) : list Slice :=
  match starts with
  | s0 :: ((s1 :: _) as starts') =>
      take (Z.to_nat (s1 - s0)) (drop (Z.to_nat s0) keys) :: split_keys keys starts'
  | _ => []
  end.

Definition GenerateFilter : M FilterBlockBuilder unit :=
  let! b := gets id in
  if (length (start_ b) =? 0)%nat then
    modify (fun b => mk_fbb (keys_ b) (start_ b) (result_ b)
                       (filter_offsets_ b ++ [u32 (Z.of_nat (length (result_ b)))]))
  else
    let tmp_keys := split_keys (keys_ b) (start_ b ++ [Z.of_nat (length (keys_ b))]) in
    let offsets := filter_offsets_ b ++ [u32 (Z.of_nat (length (result_ b)))] in
    let! result := or_ub (CreateFilter tmp_keys (result_ b)) in
    modify (fun _ => mk_fbb [] [] result offsets).

Definition StartBlock (block_offset : Z) : M FilterBlockBuilder unit :=
  let filter_index := block_offset / kFilterBase in
  let! b := gets id in
  assert_ (Z.of_nat (length (filter_offsets_ b)) <=? filter_index) ;;;
  loop (S (Z.to_nat filter_index)) (fun _ =>
    let! b := gets id in
    if Z.of_nat (length (filter_offsets_ b)) <? filter_index
    then GenerateFilter ;;; ret (inl tt) else ret (inr tt)) tt.

Definition AddKey (key : Slice) : M FilterBlockBuilder unit :=
  modify (fun b => mk_fbb (keys_ b ++ key) (start_ b ++ [Z.of_nat (length (keys_ b))])
                     (result_ b) (filter_offsets_ b)).

Definition append_result (s : Slice) : M FilterBlockBuilder unit :=
  modify (fun b => mk_fbb (keys_ b) (start_ b) (result_ b ++ s) (filter_offsets_ b)).

Definition Finish : M FilterBlockBuilder Slice :=
  let! b := gets id in
  (if negb (length (start_ b) =? 0)%nat then GenerateFilter else ret tt) ;;;
  let! b := gets id in
  let array_offset := u32 (Z.of_nat (length (result_ b))) in
  append_result (concat (EncodeFixed32 <$> filter_offsets_ b)) ;;;
  append_result (EncodeFixed32 array_offset) ;;;
  append_result [kFilterBaseLg] ;;;
  gets result_.

(** A table's sequence of calls: each block with its offset and keys. *)
Fixpoint add_all (keys : list Slice) : M FilterBlockBuilder unit :=
  match keys with
  | [] => ret tt
  | key :: keys => AddKey key ;;; add_all keys
  end.

Fixpoint build_blocks (blocks : list (Z * list Slice)) : M FilterBlockBuilder unit :=
  match blocks with
  | [] => ret tt
  | (off, keys) :: blocks => StartBlock off ;;; add_all keys ;;; build_blocks blocks
  end.

(** ** The reader *)

(** [data_] is the contents; [offset_] is a position in it; a reader of contents
    that make no sense has no filters. *)
Record FilterBlockReader := mk_fbr {
  data_ : Slice;
  offset_ : Z;
  num_ : Z;
  base_lg_ : Z
}.

(** [contents[n-1]] is a [char]. *)
Definition new_FilterBlockReader `{!Platform} (contents : Slice) : option FilterBlockReader :=
  let n := Z.of_nat (length contents) in
  if n <? 5 then Some (mk_fbr [] 0 0 0)
  else
    base_lg ← contents !! Z.to_nat (n - 1);
    last_word ← DecodeFixed32 (drop (Z.to_nat (n - 5)) contents);
    if n - 5 <? last_word then Some (mk_fbr [] 0 0 (usize (s8 base_lg)))
    else Some (mk_fbr contents last_word ((n - 5 - last_word) / 4) (usize (s8 base_lg))).

(** [block_offset >> base_lg_] on [uint64_t]; [None] is a shift by the width. *)
Definition block_index (base_lg block_offset : Z) : option Z :=
  if base_lg <? 64 then Some (Z.shiftr block_offset base_lg) else None.

Definition BlockKeyMayMatch (r : FilterBlockReader) (block_offset : Z) (key : Slice)
    : option bool :=
  index ← block_index (base_lg_ r) block_offset;
  if index <? num_ r then
    start ← DecodeFixed32 (drop (Z.to_nat (offset_ r + index * 4)) (data_ r));
    limit ← DecodeFixed32 (drop (Z.to_nat (offset_ r + index * 4 + 4)) (data_ r));
    if (start <=? limit) && (limit <=? offset_ r) then
      KeyMayMatch key (take (Z.to_nat (limit - start)) (drop (Z.to_nat start) (data_ r)))
    else if start =? limit then Some false
    else Some true
  else Some true.

End builder.

(** ** What the builder has *)

(** The position of each string in the concatenation, from [n] on. *)
Fixpoint positions_of (n : Z) (l : list Slice) : list Z :=
  match l with
  | [] => []
  | x :: l => n :: positions_of (n + Z.of_nat (length x)) l
  end.

Lemma positions_of_length n l : length (positions_of n l) = length l.
Proof. revert n. induction l as [|x l IH]; intros n; cbn; [done|]. by rewrite IH. Qed.

Lemma positions_of_app n l l' :
  positions_of n (l ++ l') = positions_of n l ++ positions_of (n + Z.of_nat (length (concat l))) l'.
Proof.
  revert n. induction l as [|x l IH]; intros n; cbn [app positions_of concat length].
  - by rewrite Z.add_0_r.
  - rewrite IH, length_app. cbn. do 3 f_equal. lia.
Qed.

Lemma positions_of_lookup n l i :
  (i < length l)%nat ->
  positions_of n l !! i = Some (n + Z.of_nat (length (concat (take i l)))).
Proof.
  revert n i. induction l as [|x l IH]; intros n [|i] Hi; cbn in Hi; try lia; cbn.
  - f_equal. lia.
  - rewrite IH by lia. f_equal. rewrite length_app. lia.
Qed.

(** The keys are found again between their positions. *)
Lemma split_keys_concat pre l :
  split_keys (pre ++ concat l)
    (positions_of (Z.of_nat (length pre)) l ++ [Z.of_nat (length (pre ++ concat l))]) = l.
Proof.
  revert pre. induction l as [|x l IH]; intros pre; [done|].
  cbn [positions_of concat app].
  assert (exists s1 rest, positions_of (Z.of_nat (length pre) + Z.of_nat (length x)) l ++
            [Z.of_nat (length (pre ++ x ++ concat l))] = s1 :: rest /\
            s1 = Z.of_nat (length pre) + Z.of_nat (length x)) as (s1 & rest & E & Es1).
  { destruct l as [|y l]; cbn; eexists _, _; (split; [reflexivity|]); [|done].
    rewrite !length_app. cbn. lia. }
  rewrite E. set (whole := pre ++ x ++ concat l) in *.
  transitivity (take (Z.to_nat (s1 - Z.of_nat (length pre))) (drop (Z.to_nat (Z.of_nat (length pre))) whole)
    :: split_keys whole (s1 :: rest)); [done|].
  rewrite <- E, Es1. unfold whole. f_equal.
  - replace (Z.to_nat _) with (length x) at 1 by lia. rewrite Nat2Z.id, drop_app_length.
    by rewrite take_app_length.
  - specialize (IH (pre ++ x)). rewrite length_app, Nat2Z.inj_add, <- app_assoc in IH. exact IH.
Qed.

Section builder_spec.
Context {P : FilterPolicy} {L : FilterLaws P}.

(** A filter is empty without keys, and otherwise what the policy makes. *)
Definition made_filter (kf : list Slice * Slice) : Prop :=
  (kf.1 = [] /\ kf.2 = []) \/ (kf.1 <> [] /\ exists dst, CreateFilter kf.1 dst = Some (dst ++ kf.2)).

(** [fin]: the finished filters with the keys they are for; [pending]: the keys
    of the next one. *)
Record built (b : FilterBlockBuilder) (fin : list (list Slice * Slice)) (pending : list Slice)
    : Prop := {
  built_result : result_ b = concat (fin.*2);
  built_offsets : filter_offsets_ b = u32 <$> positions_of 0 (fin.*2);
  built_keys : keys_ b = concat pending;
  built_start : start_ b = positions_of 0 pending;
  built_good : Forall (fun '(keys, f) => Forall is_byte f /\
                 forall key, key ∈ keys -> KeyMayMatch key f = Some true) fin;
  built_made : Forall made_filter fin
}.

(** The key is one of those of the [i]th filter. *)
Definition has_key (fin : list (list Slice * Slice)) (pending : list Slice) (i : nat) (key : Slice)
    : Prop :=
  (exists keys f, fin !! i = Some (keys, f) /\ key ∈ keys) \/ (i = length fin /\ key ∈ pending).

Definition all_keys (fin : list (list Slice * Slice)) (pending : list Slice) : list Slice :=
  concat (fin.*1) ++ pending.

Lemma built_new : built new_FilterBlockBuilder [] [].
Proof. by split. Qed.

Lemma built_size b fin pending : built b fin pending -> length (filter_offsets_ b) = length fin.
Proof. intros H. rewrite (built_offsets _ _ _ H). by rewrite length_fmap, positions_of_length, length_fmap. Qed.

Lemma GenerateFilter_spec b fin pending :
  built b fin pending -> (pending <> [] -> filterable pending) ->
  exists b' f, GenerateFilter b = Ok tt b' /\ built b' (fin ++ [(pending, f)]) [].
Proof.
  intros Hb Hf. unfold GenerateFilter. rewrite bind_gets. unfold id.
  rewrite (built_start _ _ _ Hb), positions_of_length.
  destruct pending as [|k pending]; cbn [length Nat.eqb].
  - eexists _, []. split; [reflexivity|]. destruct Hb as [Hr Ho Hk Hs Hg Hmade].
    split; cbn [result_ filter_offsets_ keys_ start_].
    + rewrite Hr, fmap_app, concat_app. cbn. by rewrite !app_nil_r.
    + rewrite Ho, Hr, fmap_app, positions_of_app, fmap_app. done.
    + done.
    + done.
    + apply Forall_app. split; [done|]. constructor; [|done]. split; [constructor|].
      intros key Hin. by apply elem_of_nil in Hin.
    + apply Forall_app. split; [done|]. constructor; [by left|done].
  - destruct (filter_matches (k :: pending) (result_ b) (Hf ltac:(done))) as (f & E & Hby & Hm).
    rewrite (built_keys _ _ _ Hb).
    change (positions_of 0 (k :: pending)) with (positions_of (Z.of_nat (length ([] : Slice))) (k :: pending)).
    change (concat (k :: pending)) with ([] ++ concat (k :: pending)).
    rewrite split_keys_concat, (bind_or_ub _ _ _ _ E).
    eexists _, f. split; [reflexivity|]. destruct Hb as [Hr Ho Hk Hs Hg Hmade].
    split; cbn [result_ filter_offsets_ keys_ start_].
    + rewrite Hr, fmap_app, concat_app. cbn. by rewrite app_nil_r.
    + rewrite Ho, Hr, fmap_app, positions_of_app, fmap_app. done.
    + done.
    + done.
    + apply Forall_app. split; [done|]. by constructor.
    + apply Forall_app. split; [done|]. constructor; [|done]. right. split; [done|]. by eexists.
Qed.

(** A finished filter keeps the keys at their index. *)
Lemma has_key_finish fin pending f i key :
  has_key fin pending i key -> has_key (fin ++ [(pending, f)]) [] i key.
Proof.
  intros [(keys & g & Hi & Hin)|[-> Hin]]; left.
  - exists keys, g. split; [|done]. rewrite lookup_app_l; [done|]. by eapply lookup_lt_Some.
  - exists pending, f. split; [|done]. by rewrite lookup_app_r, Nat.sub_diag by lia.
Qed.

Lemma all_keys_finish fin pending f : all_keys (fin ++ [(pending, f)]) [] = all_keys fin pending.
Proof. unfold all_keys. rewrite fmap_app, concat_app. cbn. by rewrite !app_nil_r. Qed.

Lemma StartBlock_spec off b fin pending :
  built b fin pending -> (pending <> [] -> filterable pending) ->
  Z.of_nat (length fin) <= off / kFilterBase ->
  exists b' fin' pending', StartBlock off b = Ok tt b' /\ built b' fin' pending' /\
    Z.of_nat (length fin') = off / kFilterBase /\ all_keys fin' pending' = all_keys fin pending /\
    (forall i key, has_key fin pending i key -> has_key fin' pending' i key).
Proof.
  intros Hb Hf Hle. unfold StartBlock. rewrite bind_gets. unfold id. rewrite bind_assert.
  2:{ rewrite (built_size _ _ _ Hb). by apply Z.leb_le. }
  set (idx := off / kFilterBase) in *.
  assert (Z.to_nat idx - length fin < S (Z.to_nat idx))%nat as Hfuel by lia.
  revert Hfuel. generalize (S (Z.to_nat idx)). intros n Hfuel.
  revert b fin pending Hb Hf Hle Hfuel.
  induction n as [|n IH]; intros b fin pending Hb Hf Hle Hfuel; [lia|].
  rewrite loop_S, bind_assoc, bind_gets. unfold id. rewrite (built_size _ _ _ Hb).
  destruct (Z.ltb_spec (Z.of_nat (length fin)) idx) as [Hlt|Hge].
  - destruct (GenerateFilter_spec _ _ _ Hb Hf) as (b1 & f & E1 & Hb1).
    rewrite bind_assoc, (bind_ok _ _ _ _ _ E1), bind_ret.
    destruct (IH _ _ _ Hb1) as (b2 & fin2 & p2 & E2 & Hb2 & Hl2 & Ha2 & Hh2); [done| | |].
    + rewrite length_app. cbn. lia.
    + rewrite length_app. cbn. lia.
    + exists b2, fin2, p2. split; [done|]. split; [done|]. split; [done|].
      split; [by rewrite Ha2, all_keys_finish|].
      intros i key Hk. by apply Hh2, has_key_finish.
  - exists b, fin, pending. rewrite bind_ret. split; [done|]. split; [done|]. split; [lia|]. done.
Qed.

Lemma add_all_spec keys b fin pending :
  built b fin pending ->
  exists b', add_all keys b = Ok tt b' /\ built b' fin (pending ++ keys).
Proof.
  revert b pending. induction keys as [|key keys IH]; intros b pending Hb; cbn [add_all].
  - exists b. by rewrite app_nil_r.
  - unfold AddKey. rewrite bind_modify.
    edestruct (IH (mk_fbb (keys_ b ++ key) (start_ b ++ [Z.of_nat (length (keys_ b))])
                     (result_ b) (filter_offsets_ b)) (pending ++ [key])) as (b' & E & Hb').
    + destruct Hb as [Hr Ho Hk Hs Hg Hmade]. split; try done; cbn.
      * rewrite Hk, concat_app. cbn. by rewrite app_nil_r.
      * rewrite Hs, Hk, positions_of_app. done.
    + exists b'. split; [done|]. by rewrite <- app_assoc in Hb'.
Qed.

Lemma has_key_more fin pending keys i key :
  has_key fin pending i key -> has_key fin (pending ++ keys) i key.
Proof.
  intros [H|[H Hin]]; [by left|]. right. split; [done|]. apply elem_of_app. by left.
Qed.

(** The blocks come in the order of their offsets, those of 2 KB at least. *)
Fixpoint ordered (n : Z) (blocks : list (Z * list Slice)) : Prop :=
  match blocks with
  | [] => True
  | (off, _) :: blocks => n <= off / kFilterBase /\ ordered (off / kFilterBase) blocks
  end.

Lemma build_blocks_spec (all : list Slice) blocks b fin pending :
  (forall l, l `sublist_of` all -> l <> [] -> filterable l) ->
  built b fin pending -> ordered (Z.of_nat (length fin)) blocks ->
  all_keys fin pending ++ concat (blocks.*2) = all ->
  exists b' fin' pending', build_blocks blocks b = Ok tt b' /\ built b' fin' pending' /\
    all_keys fin' pending' = all /\
    (forall i key, has_key fin pending i key -> has_key fin' pending' i key) /\
    (forall off keys key, (off, keys) ∈ blocks -> key ∈ keys -> 0 <= off ->
       has_key fin' pending' (Z.to_nat (off / kFilterBase)) key).
Proof.
  intros Hfa. revert b fin pending.
  induction blocks as [|[off keys] blocks IH]; intros b fin pending Hb Hord Hall; cbn [build_blocks].
  - exists b, fin, pending. cbn in Hall. rewrite app_nil_r in Hall.
    split; [done|]. split; [done|]. split; [done|]. split; [done|].
    intros off keys key Hin. by apply elem_of_nil in Hin.
  - destruct Hord as [Hle Hord].
    destruct (StartBlock_spec off b fin pending Hb) as (b1 & fin1 & p1 & E1 & Hb1 & Hl1 & Ha1 & Hh1).
    { intros Hne. apply Hfa; [|done]. rewrite <- Hall. unfold all_keys.
      rewrite <- app_assoc. apply sublist_inserts_l, sublist_inserts_r. done. }
    { done. }
    destruct (add_all_spec keys _ _ _ Hb1) as (b2 & E2 & Hb2).
    destruct (IH b2 fin1 (p1 ++ keys) Hb2) as (b3 & fin3 & p3 & E3 & Hb3 & Ha3 & Hh3 & Hk3).
    { by rewrite Hl1. }
    { rewrite <- Hall, <- Ha1. unfold all_keys. cbn [fmap list_fmap concat snd].
      by rewrite <- !app_assoc. }
    exists b3, fin3, p3. rewrite (bind_ok _ _ _ _ _ E1), (bind_ok _ _ _ _ _ E2).
    split; [done|]. split; [done|]. split; [done|]. split.
    + intros i key Hi. by apply Hh3, has_key_more, Hh1.
    + intros off' keys' key [[= -> ->]|Hin]%elem_of_cons Hkey H0; [|by eapply Hk3].
      apply Hh3. right. split; [lia|]. apply elem_of_app. by right.
Qed.

End builder_spec.

(** * Theorems about filters *)

Lemma concat_encoded_length l : length (concat (EncodeFixed32 <$> l)) = (4 * length l)%nat.
Proof.
  induction l as [|x l IH]; [done|]. rewrite fmap_cons. cbn [concat length].
  rewrite length_app, IH, EncodeFixed32_split, le_split_length. lia.
Qed.

(** An entry of an array of 32-bit integers. *)
Lemma encoded_lookup pre l post i v :
  l !! i = Some v -> 0 <= v < 2 ^ 32 ->
  DecodeFixed32 (drop (length pre + 4 * i) (pre ++ concat (EncodeFixed32 <$> l) ++ post)) = Some v.
Proof.
  intros Hi Hv. rewrite <- (take_drop_middle _ _ _ Hi) at 1.
  rewrite fmap_app, concat_app, fmap_cons. cbn [concat].
  rewrite <- !app_assoc, app_assoc.
  rewrite drop_app_length'.
  - by apply DecodeFixed32_EncodeFixed32.
  - pose proof (lookup_lt_Some _ _ _ Hi). rewrite length_app, concat_encoded_length, length_take. lia.
Qed.

Section theorems.
Context {PL : Platform} {P : FilterPolicy} {L : FilterLaws P}.

(** The contents of a finished block. *)
Definition block_contents (filters : list Slice) : Slice :=
  let data := concat filters in
  data ++ concat (EncodeFixed32 <$> (u32 <$> positions_of 0 filters)) ++
  EncodeFixed32 (u32 (Z.of_nat (length data))) ++ [kFilterBaseLg].

Lemma Finish_spec b fin pending :
  built b fin pending -> (pending <> [] -> filterable pending) ->
  exists b' (fin' : list (list Slice * Slice)), Finish b = Ok (block_contents (fin'.*2)) b' /\
    (Forall made_filter fin' /\ concat (fin'.*1) = all_keys fin pending /\ (length fin' <= S (length fin))%nat) /\
    Forall (fun '(keys, f) => Forall is_byte f /\
      forall key, key ∈ keys -> KeyMayMatch key f = Some true) fin' /\
    (forall i key, has_key fin pending i key -> exists keys f, fin' !! i = Some (keys, f) /\ key ∈ keys).
Proof.
  intros Hb Hf. unfold Finish. rewrite bind_gets. unfold id.
  assert (exists b1 fin1, (if negb (length (start_ b) =? 0)%nat then GenerateFilter else ret tt) b =
            Ok tt b1 /\ built b1 fin1 [] /\ (all_keys fin1 [] = all_keys fin pending /\ (length fin1 <= S (length fin))%nat) /\
            (forall i key, has_key fin pending i key -> has_key fin1 [] i key))
    as (b1 & fin1 & E1 & Hb1 & [Ha1 Hl1] & Hk1).
  { rewrite (built_start _ _ _ Hb), positions_of_length. destruct pending as [|k pending].
    - exists b, fin. split; [done|]. split; [done|]. split; [|done]. split; [done|lia].
    - destruct (GenerateFilter_spec _ _ _ Hb Hf) as (b1 & f & E1 & Hb1).
      exists b1, (fin ++ [(k :: pending, f)]). split; [done|]. split; [done|].
      split; [split; [apply all_keys_finish|rewrite length_app; cbn; lia]|]. intros i key. apply has_key_finish. }
  rewrite (bind_ok _ _ _ _ _ E1), bind_gets. unfold id, append_result.
  rewrite !bind_modify. cbn [filter_offsets_ result_].
  eexists _, fin1. split; [|split; [|split]].
  - unfold gets. cbn [result_]. f_equal. unfold block_contents.
    by rewrite (built_result _ _ _ Hb1), (built_offsets _ _ _ Hb1), <- !app_assoc.
  - split; [apply (built_made _ _ _ Hb1)|]. split; [|done]. rewrite <- Ha1. unfold all_keys. by rewrite app_nil_r.
  - apply (built_good _ _ _ Hb1).
  - intros i key Hi. destruct (Hk1 _ _ Hi) as [H|[_ Hin]]; [done|]. by apply elem_of_nil in Hin.
Qed.

Lemma block_contents_length filters :
  length (block_contents filters) = (length (concat filters) + 4 * length filters + 5)%nat.
Proof.
  unfold block_contents. rewrite !length_app, concat_encoded_length, length_fmap, positions_of_length.
  rewrite EncodeFixed32_split, le_split_length. cbn [length]. lia.
Qed.

Lemma new_reader_eq filters :
  Z.of_nat (length (block_contents filters)) < 2 ^ 32 ->
  new_FilterBlockReader (block_contents filters) =
  Some (mk_fbr (block_contents filters) (Z.of_nat (length (concat filters)))
          (Z.of_nat (length filters)) 11).
Proof.
  intros Hlen. rewrite block_contents_length in Hlen.
  set (data := concat filters) in *. set (offs := u32 <$> positions_of 0 filters).
  assert (length (data ++ concat (EncodeFixed32 <$> offs)) = length data + 4 * length filters)%nat as Hl.
  { rewrite length_app, concat_encoded_length. unfold offs. by rewrite length_fmap, positions_of_length. }
  assert (block_contents filters = (data ++ concat (EncodeFixed32 <$> offs)) ++
    EncodeFixed32 (Z.of_nat (length data)) ++ [kFilterBaseLg]) as Ec.
  { unfold block_contents. fold data offs. rewrite uwrap_small by lia. by rewrite <- app_assoc. }
  unfold new_FilterBlockReader. rewrite block_contents_length. fold data.
  destruct (Z.ltb_spec (Z.of_nat (length data + 4 * length filters + 5)) 5); [lia|].
  rewrite Ec.
  replace (Z.to_nat (Z.of_nat (length data + 4 * length filters + 5) - 5))
    with (length (data ++ concat (EncodeFixed32 <$> offs))) by lia.
  rewrite drop_app_length, DecodeFixed32_EncodeFixed32 by lia.
  replace (Z.to_nat (Z.of_nat (length data + 4 * length filters + 5) - 1))
    with (length ((data ++ concat (EncodeFixed32 <$> offs)) ++ EncodeFixed32 (Z.of_nat (length data))))%nat.
  2:{ rewrite length_app, Hl, EncodeFixed32_split, le_split_length. lia. }
  rewrite app_assoc, list_lookup_middle by done. cbn [mbind option_bind].
  destruct (Z.ltb_spec (Z.of_nat (length data + 4 * length filters + 5) - 5) (Z.of_nat (length data))); [lia|].
  rewrite usize_small_32 by (vm_compute; split; congruence). do 2 f_equal.
  replace (_ - 5 - _) with (Z.of_nat (length filters) * 4) by lia. apply Z.div_mul. lia.
Qed.

(** The reader finds each filter. *)
Lemma reader_finds filters off f key r :
  Z.of_nat (length (block_contents filters)) < 2 ^ 32 ->
  new_FilterBlockReader (block_contents filters) = Some r ->
  filters !! Z.to_nat (off / kFilterBase) = Some f -> 0 <= off ->
  BlockKeyMayMatch r off key = KeyMayMatch key f.
Proof.
  intros Hlen Hr Hf Hoff. rewrite new_reader_eq in Hr by done. injection Hr as <-.
  rewrite block_contents_length in Hlen.
  pose proof (lookup_lt_Some _ _ _ Hf) as Hi.
  assert (0 <= off / kFilterBase) as Hidx by (apply Z.div_pos; done).
  unfold BlockKeyMayMatch. cbn [base_lg_ num_ offset_ data_].
  change (block_index 11 off) with (Some (Z.shiftr off 11)). cbn [mbind option_bind].
  rewrite Z.shiftr_div_pow2 by lia. change (2 ^ 11) with kFilterBase.
  destruct (Z.ltb_spec (off / kFilterBase) (Z.of_nat (length filters))); [|lia].
  set (i := Z.to_nat (off / kFilterBase)) in *.
  set (data := concat filters) in *.
  assert (forall j, (j <= length filters)%nat ->
    DecodeFixed32 (drop (length data + 4 * j) (block_contents filters)) =
    Some (Z.of_nat (length (concat (take j filters))))) as Hread.
  { intros j Hj.
    assert (length (concat (take j filters)) <= length data)%nat as Hjl.
    { unfold data. rewrite <- (take_drop j filters) at 2. rewrite concat_app, length_app. lia. }
    assert (block_contents filters = data ++ concat (EncodeFixed32 <$>
      (u32 <$> positions_of 0 filters) ++ [u32 (Z.of_nat (length data))]) ++ [kFilterBaseLg]) as ->.
    { unfold block_contents. fold data. rewrite fmap_app, concat_app. cbn [fmap list_fmap concat].
      by rewrite app_nil_r, <- !app_assoc. }
    apply encoded_lookup; [|lia].
    destruct (decide (j = length filters)) as [->|Hne].
    - rewrite lookup_app_r by (by rewrite length_fmap, positions_of_length).
      rewrite length_fmap, positions_of_length, Nat.sub_diag, firstn_all. cbn.
      by rewrite uwrap_small by lia.
    - rewrite lookup_app_l by (rewrite length_fmap, positions_of_length; lia).
      rewrite list_lookup_fmap, positions_of_lookup by lia. cbn [fmap option_fmap option_map].
      rewrite Z.add_0_l, uwrap_small by lia. done. }
  replace (Z.to_nat (Z.of_nat (length data) + off / kFilterBase * 4)) with (length data + 4 * i)%nat by lia.
  replace (Z.to_nat (Z.of_nat (length data) + off / kFilterBase * 4 + 4))
    with (length data + 4 * (S i))%nat by lia.
  rewrite !Hread by lia. cbn [mbind option_bind].
  assert (data = concat (take i filters) ++ f ++ concat (drop (S i) filters)) as Hdata.
  { unfold data. rewrite <- (take_drop_middle _ _ _ Hf) at 1. by rewrite concat_app. }
  rewrite (take_S_r _ _ _ Hf), concat_app. cbn [concat]. rewrite app_nil_r, length_app.
  assert (length data = length (concat (take i filters)) + (length f + length (concat (drop (S i) filters))))%nat
    as Hdl by (rewrite Hdata at 1; by rewrite !length_app).
  destruct (Z.leb_spec (Z.of_nat (length (concat (take i filters))))
    (Z.of_nat (length (concat (take i filters)) + length f))); [|lia].
  destruct (Z.leb_spec (Z.of_nat (length (concat (take i filters)) + length f)) (Z.of_nat (length data)));
    [|lia].
  cbn [andb]. f_equal. rewrite Nat2Z.id.
  replace (Z.to_nat _) with (length f) by lia.
  unfold block_contents. fold data. rewrite Hdata, <- !app_assoc, drop_app_length.
  by rewrite take_app_length.
Qed.

(** C37: A filter block has no false negatives: the builder, called with the
    blocks of a table in the order of their offsets, makes contents from which
    the reader answers for every key of every block that it may be there.  The
    policy is any that keeps its own promise, and the filters are those of the
    2 KB ranges the blocks start in. *)
Theorem filter_block_matches blocks :
  ordered 0 blocks ->
  (forall l, l `sublist_of` concat (blocks.*2) -> l <> [] -> filterable l) ->
  exists (contents : Slice) (b' : FilterBlockBuilder),
    bind (build_blocks blocks) (fun _ => Finish) new_FilterBlockBuilder = Ok contents b' /\
    (Z.of_nat (length contents) < 2 ^ 32 -> exists r,
       new_FilterBlockReader contents = Some r /\
       forall off keys key, (off, keys) ∈ blocks -> key ∈ keys -> 0 <= off ->
         BlockKeyMayMatch r off key = Some true).
Proof.
  intros Hord Hfa.
  destruct (build_blocks_spec _ _ _ [] [] Hfa built_new Hord eq_refl)
    as (b1 & fin & p & E1 & Hb1 & Hall & _ & Hk).
  destruct (Finish_spec b1 fin p Hb1) as (b2 & fin2 & E2 & _ & Hg & Hk2).
  { intros Hne. apply Hfa; [|done]. rewrite <- Hall. unfold all_keys. by apply sublist_inserts_l. }
  exists (block_contents (fin2.*2)), b2. split; [by rewrite (bind_ok _ _ _ _ _ E1)|].
  intros Hlen. eexists. split; [by apply new_reader_eq|].
  intros off keys key Hin Hkey Hoff.
  destruct (Hk2 _ _ (Hk _ _ _ Hin Hkey Hoff)) as (ks & f & Hi & Hks).
  pose proof (Forall_lookup_1 _ _ _ _ Hg Hi) as [_ Hm].
  rewrite (reader_finds (fin2.*2) off f key); [by apply Hm|done|by apply new_reader_eq| |done].
  by rewrite list_lookup_fmap, Hi.
Qed.

End theorems.

(** ** The filters of a table *)

Section tables.
Context {PL : Platform} {P : FilterPolicy} {C : Comparator} `{!ComparatorLaws C} {T : TableFilter P C}.

Lemma filters_size fin : Forall made_filter fin -> Z.of_nat (length (concat (fin.*1))) < 2 ^ 24 ->
  Z.of_nat (length (concat (fin.*2))) <= 32 * Z.of_nat (length (concat (fin.*1))).
Proof.
  induction 1 as [|[keys f] fin Hm _ IH]; cbn [fmap list_fmap concat fst snd]; [done|]. rewrite !length_app. intros Hn.
  assert (Z.of_nat (length f) <= 32 * Z.of_nat (length keys)); [|lia].
  unfold made_filter in Hm. cbn [fst snd] in Hm.
  destruct Hm as [[-> ->]|(Hne & dst & E)]; [done|]. apply (tf_size keys dst f); [lia|done|exact E].
Qed.

Lemma block_contents_bytes filters : Forall (Forall is_byte) filters -> Forall is_byte (block_contents filters).
Proof.
  intros H. unfold block_contents. apply Forall_app. split; [by apply Forall_concat|]. apply Forall_app. split.
  - apply Forall_concat, Forall_fmap, Forall_true. intros x. apply EncodeFixed32_bytes.
  - apply Forall_app. split; [apply EncodeFixed32_bytes|by repeat constructor].
Qed.

Lemma one_filter_size (fin : list (list Slice * Slice)) i keys f : fin !! i = Some (keys, f) -> (length f <= length (concat (fin.*2)))%nat.
Proof.
  intros Hi. rewrite <- (take_drop_middle _ _ _ Hi), fmap_app, concat_app. cbn. rewrite !length_app. lia.
Qed.

(** The block that is finished answers with the filter of the block a key is in. *)
Lemma filter_finished b fin pending : built b fin pending ->
  Forall valid (all_keys fin pending) -> 19 * Z.of_nat (length (all_keys fin pending)) < 2 ^ 28 -> Z.of_nat (length fin) < 2 ^ 20 ->
  exists b' contents r, Finish b = Ok contents b' /\ Forall is_byte contents /\ Z.of_nat (length contents) < 2 ^ 29 /\
    new_FilterBlockReader contents = Some r /\
    forall off key, 0 <= off -> has_key fin pending (Z.to_nat (off / kFilterBase)) key ->
      exists f, Forall is_byte f /\ Z.of_nat (length f) < 2 ^ 29 /\ (forall k, BlockKeyMayMatch r off k = KeyMayMatch k f) /\
        KeyMayMatch key f = Some true.
Proof.
  intros Hb Hv Hn Hf.
  destruct (Finish_spec b fin pending Hb) as (b' & fin' & E & (Hmade & Hall & Hl) & Hg & Hkeys).
  { intros _. unfold all_keys in Hv, Hn. apply Forall_app in Hv as [_ Hv]. rewrite length_app in Hn. apply tf_filterable; [done|lia]. }
  rewrite <- Hall in Hv, Hn. pose proof (filters_size fin' Hmade ltac:(lia)) as Hs.
  assert (Z.of_nat (length (block_contents (fin'.*2))) < 2 ^ 29) as Hlen by (rewrite block_contents_length, length_fmap; lia).
  exists b', (block_contents (fin'.*2)). eexists. split; [done|]. split.
  { apply block_contents_bytes, Forall_fmap. eapply Forall_impl; [exact Hg|]. by intros [keys f] [H _]. }
  split; [done|]. split; [by apply new_reader_eq; lia|].
  intros off key Hoff (keys & f & Hi & Hin)%Hkeys. pose proof (Forall_lookup_1 _ _ _ _ Hg Hi) as [Hby Hm].
  exists f. split; [done|]. split; [pose proof (one_filter_size _ _ _ _ Hi); lia|]. split; [|by apply Hm].
  intros k. apply (reader_finds (fin'.*2)); [lia|by apply new_reader_eq; lia|by rewrite list_lookup_fmap, Hi|done].
Qed.

End tables.

(** ** Instances *)

#[local] Instance filter_platform : Platform :=
  {| size_bits := 64; size_bits_cases := or_intror eq_refl |}.

(** The documented choice of 10 bits for a key. *)
Definition ten_bits : BloomFilterPolicy := {| bits_per_key_ := 10; k_ := 6 |}.

Lemma ten_bits_made : make_BloomFilterPolicy 10 = Some ten_bits.
Proof. vm_compute. reflexivity. Qed.

(** Two blocks, two filters apart. *)
Definition example_blocks : list (Z * list Slice) :=
  [(0, [c_string "a"; c_string "shark"]); (5000, [c_string "tooth"])].

Lemma filter_block_matches_witness :
  exists contents b' r,
    bind (build_blocks (P := BloomPolicy ten_bits) example_blocks)
      (fun _ => Finish (P := BloomPolicy ten_bits)) new_FilterBlockBuilder = Ok contents b' /\
    new_FilterBlockReader contents = Some r /\
    BlockKeyMayMatch (P := BloomPolicy ten_bits) r 5000 (c_string "tooth") = Some true.
Proof.
  destruct (filter_block_matches (P := BloomPolicy ten_bits) (L := BloomLaws ten_bits) example_blocks)
    as (contents & b' & E & Hr).
  - cbn. split; [vm_compute; congruence|]. split; [vm_compute; congruence|done].
  - intros l Hl%sublist_length _. change (length l <= 3)%nat in Hl.
    change (bloom_fits ten_bits l). unfold bloom_fits, ten_bits. cbn [bits_per_key_ k_]. lia.
  - pose proof E as E'. vm_compute in E'. injection E' as Ec _.
    destruct Hr as (r & Er & Hk); [rewrite <- Ec; vm_compute; reflexivity|].
    exists contents, b', r. split; [exact E|]. split; [exact Er|].
    apply (Hk 5000 [c_string "tooth"]).
    + apply elem_of_cons. right. apply elem_of_cons. by left.
    + apply elem_of_cons. by left.
    + lia.
Defined.

(** The shift by the last byte of the contents is not checked: a corrupted block
    makes it undefined. *)
Lemma corrupted_base_undefined :
  exists r, new_FilterBlockReader [0; 0; 0; 0; 64] = Some r /\
    BlockKeyMayMatch (P := BloomPolicy ten_bits) r 0 [] = None.
Proof.
  exists (mk_fbr [0; 0; 0; 0; 64] 0 0 64). split; [vm_compute; reflexivity|].
  unfold BlockKeyMayMatch, block_index. reflexivity.
Qed.
