(* ===== verification/WriteBatch.v ===== *)
(** * Write batches (write_batch.h, write_batch_internal.h, write_batch.cc)

    A batch is a byte string: a sequence number, a count, and a record per update.
    [Iterate] parses it and calls a handler, the interface [Handler], for every
    record.  What a batch promises is that iterating over it repeats the updates
    it was built from. *)

From Stdlib Require Import ZArith Lia.
From stdpp Require Import base option list strings gmap.
From S2P Require Import Prelude Memory Wire Slice Coding DbFormat Status.

Definition kHeader : nat := 12.

Record WriteBatch := mk_batch { rep_ : Slice }.

Definition Clear : WriteBatch := mk_batch (replicate kHeader 0).

(** The constructor. *)
Definition new_WriteBatch : WriteBatch := Clear.

(** Writing the bytes [l] over the string from index [i] on; [None] when the
    string is too short. *)
Definition overwrite (i : nat) (l s : Slice) : option Slice :=
  if (i + length l <=? length s)%nat then Some (take i s ++ l ++ drop (i + length l) s) else None.

(** ** WriteBatchInternal *)

(** The unsigned number read is converted to [int]. *)
Definition Count (b : WriteBatch) : option Z :=
  n ← DecodeFixed32 (drop 8 (rep_ b)); Some (s32 n).

Definition SetCount (b : WriteBatch) (n : Z) : option WriteBatch :=
  r ← overwrite 8 (EncodeFixed32 (u32 n)) (rep_ b); Some (mk_batch r).

Definition Sequence (b : WriteBatch) : option Z := DecodeFixed64 (rep_ b).

Definition SetSequence (b : WriteBatch) (seq : Z) : option WriteBatch :=
  r ← overwrite 0 (EncodeFixed64 seq) (rep_ b); Some (mk_batch r).

Definition Contents (b : WriteBatch) : Slice := rep_ b.

Definition ByteSize (b : WriteBatch) : nat := length (rep_ b).

Definition SetContents (contents : Slice) : option WriteBatch :=
  if (kHeader <=? length contents)%nat then Some (mk_batch contents) else None.

(** The sum of two [int]s; [None] when it overflows. *)
Definition int_add (a b : Z) : option Z :=
  if (- 2 ^ 31 <=? a + b) && (a + b <? 2 ^ 31) then Some (a + b) else None.

Definition Append (dst src : WriteBatch) : option WriteBatch :=
  n ← Count dst;
  m ← Count src;
  total ← int_add n m;
  dst ← SetCount dst total;
  if (kHeader <=? length (rep_ src))%nat
  then Some (mk_batch (rep_ dst ++ drop kHeader (rep_ src))) else None.

(** ** WriteBatch *)

Definition Put (b : WriteBatch) (key value : Slice) : option WriteBatch :=
  n ← Count b;
  n ← int_add n 1;
  b ← SetCount b n;
  let r := rep_ b ++ [kTypeValue] in
  let r := PutLengthPrefixedSlice r key in
  Some (mk_batch (PutLengthPrefixedSlice r value)).

Definition Delete (b : WriteBatch) (key : Slice) : option WriteBatch :=
  n ← Count b;
  n ← int_add n 1;
  b ← SetCount b n;
  let r := rep_ b ++ [kTypeDeletion] in
  Some (mk_batch (PutLengthPrefixedSlice r key)).

(** The handler of the updates, on a state of its own. *)
Class Handler (S : Type) := {
  Handler_Put : Slice -> Slice -> M S unit;
  Handler_Delete : Slice -> M S unit
}.

Section iterate.
Context {S : Type} {H : Handler S}.

Definition corruption (msg : string) : M S Status := or_ub (Status_Corruption (c_string msg) []).

(** A round of the loop: the rest of the input and the records found. *)
Definition iterate_round (header_count : Z) : Slice * Z -> M S (Slice * Z + Status) :=
  fun '(input, found) =>
    match input with
    | [] =>
        let! s := if negb (found =? header_count)
                  then corruption "WriteBatch has wrong count" else ret Status_OK in
        ret (inr s)
    | tag :: input =>
        let! found := or_ub (int_add found 1) in
        if s8 tag =? kTypeValue then
          match GetLengthPrefixedSlice input with
          | Some (key, input) =>
              match GetLengthPrefixedSlice input with
              | Some (value, input) => Handler_Put key value ;;; ret (inl (input, found))
              | None => let! s := corruption "bad WriteBatch Put" in ret (inr s)
              end
          | None => let! s := corruption "bad WriteBatch Put" in ret (inr s)
          end
        else if s8 tag =? kTypeDeletion then
          match GetLengthPrefixedSlice input with
          | Some (key, input) => Handler_Delete key ;;; ret (inl (input, found))
          | None => let! s := corruption "bad WriteBatch Delete" in ret (inr s)
          end
        else let! s := corruption "unknown WriteBatch tag" in ret (inr s)
    end.

(** Every round takes at least the tag. *)
Definition Iterate (b : WriteBatch) : M S Status :=
  if (length (rep_ b) <? kHeader)%nat then corruption "malformed WriteBatch (too small)"
  else
    let! header_count := or_ub (Count b) in
    let input := drop kHeader (rep_ b) in
    loop (Datatypes.S (length input)) (iterate_round header_count) (input, 0).

End iterate.

(** ** The updates of a batch *)

Inductive Update :=
  | UPut (key value : Slice)
  | UDelete (key : Slice).

Definition put_update (b : WriteBatch) (u : Update) : option WriteBatch :=
  match u with UPut k v => Put b k v | UDelete k => Delete b k end.

(** The calls of a user, one after the other. *)
Fixpoint put_updates (b : WriteBatch) (us : list Update) : option WriteBatch :=
  match us with [] => Some b | u :: us => b ← put_update b u; put_updates b us end.

(** The calls of the handler that repeat the updates. *)
Definition replay {S} `{H : !Handler S} (u : Update) : M S unit :=
  match u with UPut k v => Handler_Put k v | UDelete k => Handler_Delete k end.

Fixpoint replay_all {S} `{H : !Handler S} (us : list Update) : M S unit :=
  match us with [] => ret tt | u :: us => replay u ;;; replay_all us end.

(** The strings a record can hold. *)
Definition short_string (s : Slice) : Prop := Forall is_byte s /\ Z.of_nat (length s) < 2 ^ 32.

Definition update_ok (u : Update) : Prop :=
  match u with UPut k v => short_string k /\ short_string v | UDelete k => short_string k end.

Definition update_record (u : Update) : Slice :=
  match u with
  | UPut k v => kTypeValue :: PutLengthPrefixedSlice [] k ++ PutLengthPrefixedSlice [] v
  | UDelete k => kTypeDeletion :: PutLengthPrefixedSlice [] k
  end.

Definition records (us : list Update) : Slice := concat (update_record <$> us).

(** The batch [b] stands for the updates [us], the first of which has number [seq]. *)
Definition holds_updates (b : WriteBatch) (seq : Z) (us : list Update) : Prop :=
  rep_ b = EncodeFixed64 seq ++ EncodeFixed32 (Z.of_nat (length us)) ++ records us /\
  0 <= seq < 2 ^ 64 /\ Z.of_nat (length us) < 2 ^ 31 /\ Forall update_ok us.

Lemma PutLengthPrefixedSlice_app dst v :
  PutLengthPrefixedSlice dst v = dst ++ PutLengthPrefixedSlice [] v.
Proof. unfold PutLengthPrefixedSlice, PutVarint32. by rewrite <- app_assoc. Qed.

Lemma PutLengthPrefixedSlice_eq v :
  Z.of_nat (length v) < 2 ^ 32 ->
  PutLengthPrefixedSlice [] v = varint_bytes (Z.of_nat (length v)) ++ v.
Proof.
  intros Hv. unfold PutLengthPrefixedSlice, PutVarint32. cbn [app].
  by rewrite uwrap_small, EncodeVarint32_eq by lia.
Qed.

Lemma PutLengthPrefixedSlice_bytes v : short_string v -> Forall is_byte (PutLengthPrefixedSlice [] v).
Proof.
  intros [Hb Hl]. rewrite PutLengthPrefixedSlice_eq by done. apply Forall_app.
  split; [apply varint_bytes_bytes; lia|done].
Qed.

#[export] Hint Resolve PutLengthPrefixedSlice_bytes : core.

Lemma update_record_bytes u : update_ok u -> Forall is_byte (update_record u).
Proof.
  destruct u as [k v|k]; cbn [update_ok update_record].
  - intros [Hk Hv]. constructor; [done|]. apply Forall_app. auto.
  - intros Hk. constructor; [done|]. auto.
Qed.

Lemma records_bytes us : Forall update_ok us -> Forall is_byte (records us).
Proof.
  induction 1 as [|u us Hu _ IH]; [constructor|]. unfold records. cbn.
  apply Forall_app. split; [by apply update_record_bytes|done].
Qed.

Lemma records_app us vs : records (us ++ vs) = records us ++ records vs.
Proof. unfold records. by rewrite fmap_app, concat_app. Qed.

Lemma records_one u : records [u] = update_record u.
Proof. apply app_nil_r. Qed.

(** ** Building *)

Lemma holds_new : holds_updates new_WriteBatch 0 [].
Proof. repeat split; done || constructor. Qed.

Lemma int_add_small a b : 0 <= a -> 0 <= b -> a + b < 2 ^ 31 -> int_add a b = Some (a + b).
Proof.
  intros. unfold int_add. destruct (Z.leb_spec (- 2 ^ 31) (a + b)), (Z.ltb_spec (a + b) (2 ^ 31)); done || lia.
Qed.

Lemma overwrite_mid (p l q m : Slice) :
  length m = length l -> overwrite (length p) l (p ++ m ++ q) = Some (p ++ l ++ q).
Proof.
  intros Hm. unfold overwrite. rewrite !length_app.
  destruct (Nat.leb_spec (length p + length l) (length p + (length m + length q))); [|lia].
  rewrite take_app_length. do 2 f_equal. f_equal.
  rewrite drop_app_add', drop_app_length'; done || lia.
Qed.

Section held.
Context (b : WriteBatch) (seq : Z) (us : list Update) (H : holds_updates b seq us).

Lemma held_count : Count b = Some (Z.of_nat (length us)).
Proof.
  destruct H as (Hr & _ & Hn & _). unfold Count. rewrite Hr, drop_app_length' by done.
  rewrite DecodeFixed32_EncodeFixed32 by lia. cbn. by rewrite swrap_small by lia.
Qed.

Lemma held_sequence : Sequence b = Some seq.
Proof.
  destruct H as (Hr & Hs & _). unfold Sequence. by rewrite Hr, DecodeFixed64_EncodeFixed64.
Qed.

Lemma held_set_count n :
  0 <= n < 2 ^ 31 ->
  SetCount b n = Some (mk_batch (EncodeFixed64 seq ++ EncodeFixed32 n ++ records us)).
Proof.
  intros Hn. destruct H as (Hr & _). unfold SetCount. rewrite Hr, uwrap_small by lia.
  change 8%nat with (length (EncodeFixed64 seq)). by rewrite overwrite_mid.
Qed.

Lemma held_set_sequence n :
  0 <= n < 2 ^ 64 -> exists b', SetSequence b n = Some b' /\ holds_updates b' n us.
Proof.
  intros Hn. destruct H as (Hr & _ & Hc & Ho). unfold SetSequence. rewrite Hr.
  pose proof (overwrite_mid [] (EncodeFixed64 n) (EncodeFixed32 (Z.of_nat (length us)) ++ records us)
    (EncodeFixed64 seq) eq_refl) as E. cbn [app length] in E. rewrite E.
  by eexists.
Qed.

Lemma held_put u :
  update_ok u -> Z.of_nat (length us) + 1 < 2 ^ 31 ->
  exists b', put_update b u = Some b' /\ holds_updates b' seq (us ++ [u]).
Proof.
  intros Hu Hn. pose proof H as (_ & Hs & _ & Ho).
  assert (forall r, r = update_record u ->
    holds_updates (mk_batch (EncodeFixed64 seq ++ EncodeFixed32 (Z.of_nat (length us) + 1) ++ records us ++ r))
      seq (us ++ [u])) as Hb.
  { intros r ->. unfold holds_updates. rewrite records_app, length_app. cbn [length rep_].
    rewrite records_one, Nat2Z.inj_add.
    split; [done|]. split; [done|]. split; [lia|]. by apply Forall_app; auto. }
  destruct u as [k v|k]; cbn [put_update]; [unfold Put|unfold Delete]; rewrite held_count;
    cbn [mbind option_bind]; rewrite int_add_small by lia; cbn [mbind option_bind];
    rewrite held_set_count by lia; cbn [mbind option_bind rep_]; eexists; split; try done.
  - rewrite PutLengthPrefixedSlice_app, (PutLengthPrefixedSlice_app (_ ++ [_])), <- !app_assoc.
    by apply Hb.
  - rewrite PutLengthPrefixedSlice_app, <- !app_assoc. by apply Hb.
Qed.

Lemma held_append b2 seq2 vs :
  holds_updates b2 seq2 vs -> Z.of_nat (length us) + Z.of_nat (length vs) < 2 ^ 31 ->
  exists b', Append b b2 = Some b' /\ holds_updates b' seq (us ++ vs).
Proof.
  intros H2 Hn. unfold Append. rewrite held_count. cbn [mbind option_bind].
  assert (Count b2 = Some (Z.of_nat (length vs))) as ->.
  { destruct H2 as (Hr & _ & Hn2 & _). unfold Count. rewrite Hr, drop_app_length' by done.
    rewrite DecodeFixed32_EncodeFixed32 by lia. cbn. by rewrite swrap_small by lia. }
  cbn [mbind option_bind]. rewrite int_add_small by lia. cbn [mbind option_bind].
  rewrite held_set_count by lia. cbn [mbind option_bind rep_].
  destruct H as (_ & Hs & _ & Ho), H2 as (Hr & _ & _ & Ho2). rewrite Hr, !length_app.
  rewrite EncodeFixed64_length, EncodeFixed32_length.
  change (kHeader <=? 8 + (4 + length (records vs)))%nat with true. cbn [negb].
  assert (drop kHeader (EncodeFixed64 seq2 ++ EncodeFixed32 (Z.of_nat (length vs)) ++ records vs) = records vs)
    as -> by done.
  eexists. split; [done|]. unfold holds_updates. rewrite records_app, length_app, Nat2Z.inj_add.
  cbn [rep_]. rewrite <- !app_assoc. split; [done|]. split; [done|]. split; [lia|]. by apply Forall_app.
Qed.

End held.

Lemma put_updates_holds b seq us vs :
  holds_updates b seq us -> Forall update_ok vs ->
  Z.of_nat (length us) + Z.of_nat (length vs) < 2 ^ 31 ->
  exists b', put_updates b vs = Some b' /\ holds_updates b' seq (us ++ vs).
Proof.
  intros H Hv. revert b us H. induction Hv as [|v vs Hv _ IH]; intros b us H Hn; cbn [put_updates].
  - exists b. by rewrite app_nil_r.
  - cbn [length] in Hn. destruct (held_put b seq us H v Hv ltac:(lia)) as (b1 & -> & H1).
    cbn [mbind option_bind]. destruct (IH b1 (us ++ [v]) H1) as (b2 & E & H2);
      [rewrite length_app; cbn [length]; lia|].
    exists b2. split; [done|]. by rewrite <- app_assoc in H2.
Qed.

(** ** Iterating *)

Section replaying.
Context {S : Type} {H : Handler S}.

Lemma GetLengthPrefixedSlice_record v rest :
  short_string v -> Forall is_byte rest ->
  GetLengthPrefixedSlice (PutLengthPrefixedSlice [] v ++ rest) = Some (v, rest).
Proof. intros [Hb Hl] Hr. by apply GetLengthPrefixedSlice_bytes. Qed.

(** A round at a record calls the handler. *)
Lemma iterate_round_record count u rest found (s : S) :
  update_ok u -> Forall is_byte rest -> 0 <= found -> found + 1 < 2 ^ 31 ->
  iterate_round count (update_record u ++ rest, found) s =
  (replay u ;;; ret (inl (rest, found + 1))) s.
Proof.
  intros Hu Hr Hf Hn.
  destruct u as [k v|k]; cbn [update_record app iterate_round update_ok] in *;
    rewrite int_add_small by lia; cbn [or_ub]; rewrite bind_ret; cbn [replay].
  - destruct Hu as [Hk Hv]. change (s8 kTypeValue =? kTypeValue) with true. cbn [app].
    rewrite <- app_assoc, GetLengthPrefixedSlice_record by (done || apply Forall_app; auto).
    by rewrite GetLengthPrefixedSlice_record.
  - change (s8 kTypeDeletion =? kTypeValue) with false.
    change (s8 kTypeDeletion =? kTypeDeletion) with true. cbv iota.
    by rewrite GetLengthPrefixedSlice_record.
Qed.

Lemma iterate_loop count us found fuel (s : S) :
  Forall update_ok us -> 0 <= found -> found + Z.of_nat (length us) = count -> count < 2 ^ 31 ->
  (length us < fuel)%nat ->
  loop fuel (iterate_round count) (records us, found) s =
  (replay_all us ;;; ret Status_OK) s.
Proof.
  intros Ho. revert found fuel s. induction Ho as [|u us Hu Ho IH]; intros found fuel s Hf Hc Hb Hfuel;
    (destruct fuel as [|fuel]; [lia|]).
  - cbn [length] in Hc. replace count with found by lia.
    rewrite loop_S. cbn [records fmap list_fmap concat iterate_round replay_all].
    rewrite Z.eqb_refl. done.
  - rewrite loop_S. cbn [length] in *.
    change (records (u :: us)) with (update_record u ++ records us).
    unfold bind at 1. rewrite iterate_round_record by (lia || done || by apply records_bytes).
    cbn [replay_all]. unfold bind. destruct (replay u s) as [[] s'|s'| |]; try done. cbn [ret].
    fold (bind (replay_all us) (fun _ => ret Status_OK) s').
    unfold bind in IH. by rewrite IH by lia.
Qed.

Lemma records_length us : (length us <= length (records us))%nat.
Proof.
  induction us as [|u us IH]; [done|]. change (records (u :: us)) with (update_record u ++ records us).
  rewrite length_app. cbn [length]. destruct u; cbn [update_record length]; lia.
Qed.

(** Iterating over a batch repeats its updates in order. *)
Lemma held_iterate b seq us (s : S) :
  holds_updates b seq us -> Iterate b s = (replay_all us ;;; ret Status_OK) s.
Proof.
  intros Hb. pose proof (held_count b seq us Hb) as Hc. destruct Hb as (Hr & _ & Hn & Ho).
  assert ((length (rep_ b) <? kHeader)%nat = false) as Hl by (by rewrite Hr).
  unfold Iterate. rewrite Hl, (bind_or_ub _ _ _ _ Hc).
  assert (drop kHeader (rep_ b) = records us) as -> by (by rewrite Hr).
  apply iterate_loop; try done; try lia. pose proof (records_length us). lia.
Qed.

End replaying.
