(* ===== verification/MemTable.v ===== *)
(** * The memtable (memtable.h, memtable.cc)

    A skip list of entries: an internal key and a value, both with their length
    before them.  The list holds pointers to the entries, which are not changed
    once they are in it; the model holds the bytes that are found from there.  The
    memory itself is taken from the arena of Arena.v. *)

From Stdlib Require Import ZArith Lia Sorted.
From stdpp Require Import base option list strings sorting gmap.
From S2P Require Import Prelude Memory Wire Slice Coding DbFormat SkipList SkipSearch SkipInsert SkipContents Status WriteBatch.

(** [GetVarint32Ptr(p, p + 5, &len)]: the number and the bytes behind it; [None]
    when there is none, which the callers do not expect. *)
Definition varint_at (p : Slice) : option (Z * Slice) :=
  r ← GetVarint32Ptr (take 5 p);
  let '(len, rest) := r in Some (len, drop (length (take 5 p) - length rest) p).

(** The static function on a pointer: the slice, and the bytes behind it. *)
Definition prefixed_at (data : Slice) : option (Slice * Slice) :=
  r ← varint_at data;
  let '(len, p) := r in
  if len <=? Z.of_nat (length p) then Some (take (Z.to_nat len) p, drop (Z.to_nat len) p) else None.

Definition EncodeKey (target : Slice) : Slice :=
  PutVarint32 [] (u32 (Z.of_nat (length target))) ++ target.

Record MemTable := mk_memtable {
  refs_ : Z;
  table_ : SkipList Slice
}.

(** [++refs_] *)
Definition Ref : M MemTable unit := modify (fun m => mk_memtable (refs_ m + 1) (table_ m)).

(** The result tells whether the table has been deleted. *)
Definition Unref : M MemTable bool :=
  modify (fun m => mk_memtable (refs_ m - 1) (table_ m)) ;;;
  let! refs := gets refs_ in
  assert_ (0 <=? refs) ;;;
  if refs <=? 0 then assert_ (refs =? 0) ;;; ret true else ret false.

Definition on_table {A} (m : M (SkipList Slice) A) : M MemTable A := fun t =>
  match m (table_ t) with
  | Ok a s => Ok a (mk_memtable (refs_ t) s)
  | Err s => Err (mk_memtable (refs_ t) s)
  | Ub => Ub
  | OutOfFuel => OutOfFuel
  end.

Section memtable.
Context (user_comparator : Comparator).

(** [KeyComparator::operator()] *)
Definition KeyComparator (aptr bptr : Slice) : option Z :=
  a ← prefixed_at aptr;
  b ← prefixed_at bptr;
  InternalCompare user_comparator (fst a) (fst b).

(** The order of the list.  It is only ever asked for entries, for which it is
    defined: [entry_compare_eq]. *)
Definition entry_compare (aptr bptr : Slice) : Z := default 0 (KeyComparator aptr bptr).

Definition new_MemTable : MemTable := mk_memtable 0 (SkipList_new []).

(** The buffer that is filled, and the test of its length. *)
Definition entry_bytes (s type : Z) (key value : Slice) : option Slice :=
  let internal_key_size := Z.of_nat (length key) + 8 in
  let val_size := Z.of_nat (length value) in
  l1 ← VarintLength internal_key_size;
  l2 ← VarintLength val_size;
  let encoded_len := l1 + internal_key_size + l2 + val_size in
  let buf := EncodeVarint32 (u32 internal_key_size) ++ key ++
             EncodeFixed64 (Z.lor (u64 (Z.shiftl s 8)) type) ++
             EncodeVarint32 (u32 val_size) ++ value in
  if Z.of_nat (length buf) =? encoded_len then Some buf else None.

Definition Add (s type : Z) (key value : Slice) : M MemTable unit :=
  let! buf := or_ub (entry_bytes s type key value) in
  on_table (Insert entry_compare buf).

(** What [Get] does at the entry it has found: [*value] and [*s] are passed in
    and returned. *)
Definition get_at (entry : Slice) (user_key value : Slice) (s : Status)
    : option (bool * Slice * Status) :=
  r ← varint_at entry;
  let '(key_length, key_ptr) := r in
  let n := Z.to_nat (u32 (key_length - 8)) in
  if (n <=? length key_ptr)%nat then
    c ← @Compare user_comparator (take n key_ptr) user_key;
    if c =? 0 then
      tag ← DecodeFixed64 (drop (Z.to_nat (key_length - 8)) key_ptr);
      let type := Z.land tag 0xff in
      if type =? kTypeValue then
        v ← prefixed_at (drop (Z.to_nat key_length) key_ptr);
        Some (true, fst v, s)
      else if type =? kTypeDeletion then
        s ← Status_NotFound [] [];
        Some (true, value, s)
      else Some (false, value, s)
    else Some (false, value, s)
  else None.

Definition Get (key : LookupKey) (value : Slice) (s : Status) : M MemTable (bool * Slice * Status) :=
  let memkey := lookup_memtable_key key in
  let! iter := on_table (Iterator_Seek entry_compare memkey) in
  if Iterator_Valid iter then
    let! entry := on_table (Iterator_key iter) in
    or_ub (get_at entry (lookup_user_key key) value s)
  else ret (false, value, s).

(** ** MemTableIterator: the state is the node of the iterator of the list *)

Definition MemTableIterator_Valid (iter : option nat) : bool := Iterator_Valid iter.
Definition MemTableIterator_Seek (k : Slice) : M MemTable (option nat) :=
  on_table (Iterator_Seek entry_compare (EncodeKey k)).
Definition MemTableIterator_SeekToFirst : M MemTable (option nat) := on_table Iterator_SeekToFirst.
Definition MemTableIterator_SeekToLast : M MemTable (option nat) := on_table Iterator_SeekToLast.
Definition MemTableIterator_Next (iter : option nat) : M MemTable (option nat) :=
  on_table (Iterator_Next iter).
Definition MemTableIterator_Prev (iter : option nat) : M MemTable (option nat) :=
  on_table (Iterator_Prev entry_compare iter).

Definition MemTableIterator_key (iter : option nat) : M MemTable Slice :=
  let! entry := on_table (Iterator_key iter) in
  let! k := or_ub (prefixed_at entry) in ret (fst k).

Definition MemTableIterator_value (iter : option nat) : M MemTable Slice :=
  let! entry := on_table (Iterator_key iter) in
  let! k := or_ub (prefixed_at entry) in
  let! v := or_ub (prefixed_at (snd k)) in ret (fst v).

(** ** MemTableInserter *)

Record MemTableInserter := mk_inserter { sequence_ : Z; mem_ : MemTable }.

Definition on_mem {A} (m : M MemTable A) : M MemTableInserter A := fun i =>
  match m (mem_ i) with
  | Ok a t => Ok a (mk_inserter (sequence_ i) t)
  | Err t => Err (mk_inserter (sequence_ i) t)
  | Ub => Ub
  | OutOfFuel => OutOfFuel
  end.

Definition inserter_Put (type : Z) (key value : Slice) : M MemTableInserter unit :=
  let! seq := gets sequence_ in
  on_mem (Add seq type key value) ;;;
  modify (fun i => mk_inserter (u64 (sequence_ i + 1)) (mem_ i)).

#[export] Instance MemTableInserter_handler : Handler MemTableInserter := {|
  Handler_Put := inserter_Put kTypeValue;
  Handler_Delete := fun key => inserter_Put kTypeDeletion key []
|}.

(** [WriteBatchInternal::InsertInto] *)
Definition InsertInto (b : WriteBatch) : M MemTable Status := fun m =>
  match Sequence b with
  | None => Ub
  | Some seq =>
      match Iterate b (mk_inserter seq m) with
      | Ok s i => Ok s (mem_ i)
      | Err i => Err (mem_ i)
      | Ub => Ub
      | OutOfFuel => OutOfFuel
      end
  end.

End memtable.
