(* ===== verification/MemTheorems.v ===== *)
(** * What a memtable holds

    The abstract value of a memtable is the list of the updates added to it, each
    with its sequence number; reading it at a number looks for the newest update
    of the key that is not newer than the number.  Then the properties of write
    batches and memtables. *)

From Stdlib Require Import ZArith Lia Sorted.
From stdpp Require Import base option list strings sorting gmap.
From S2P Require Import Prelude Memory Wire Slice Coding DbFormat SkipList SkipSearch SkipInsert SkipContents Status WriteBatch.
From S2P Require Import MemTable.

Record Entry := mk_entry {
  e_seq : Z;
  e_type : Z;
  e_key : Slice;
  e_value : Slice
}.

Definition e_number (e : Entry) : Z := 256 * e_seq e + e_type e.

Definition encode_entry (e : Entry) : Slice :=
  PutLengthPrefixedSlice [] (internal (e_key e) (e_number e)) ++ PutLengthPrefixedSlice [] (e_value e).

(** ** Reading an entry back *)

Lemma varint_at_bytes v rest :
  0 <= v < 2 ^ 32 -> Forall is_byte rest -> varint_at (varint_bytes v ++ rest) = Some (v, rest).
Proof.
  intros Hv Hr. pose proof (varint_bytes_length_32 v Hv). unfold varint_at.
  assert (take 5 (varint_bytes v ++ rest) =
          varint_bytes v ++ take (5 - length (varint_bytes v)) rest) as Ht
    by (by rewrite take_app, take_ge by lia).
  pose proof (GetVarint32_bytes v (take (5 - length (varint_bytes v)) rest) Hv
    ltac:(by apply Forall_take)) as E.
  unfold GetVarint32 in E. rewrite Ht, E. cbn [mbind option_bind]. do 2 f_equal.
  rewrite length_app. rewrite drop_app_length'; [done|lia].
Qed.

Lemma prefixed_at_bytes v rest :
  short_string v -> Forall is_byte rest ->
  prefixed_at (PutLengthPrefixedSlice [] v ++ rest) = Some (v, rest).
Proof.
  intros [Hb Hl] Hr. unfold prefixed_at. rewrite PutLengthPrefixedSlice_eq, <- app_assoc by done.
  rewrite varint_at_bytes by (lia || by apply Forall_app). cbn [mbind option_bind].
  rewrite Nat2Z.id, take_app_length, drop_app_length, length_app.
  destruct (Z.leb_spec (Z.of_nat (length v)) (Z.of_nat (length v + length rest))); [done|lia].
Qed.

Lemma prefixed_at_bytes_end v :
  short_string v -> prefixed_at (PutLengthPrefixedSlice [] v) = Some (v, []).
Proof.
  intros Hv. pose proof (prefixed_at_bytes v [] Hv ltac:(constructor)) as E. by rewrite app_nil_r in E.
Qed.

Section contents.
Context (C : Comparator) {L : ComparatorLaws C}.

Abbreviation ecompare := (entry_compare C).

(** The user keys of a memtable: those the order is defined on, of a length for
    which the length of the internal key fits in 32 bits. *)
Definition key_ok (u : Slice) : Prop :=
  valid u /\ Forall is_byte u /\ Z.of_nat (length u) + 8 < 2 ^ 32.

Definition entry_ok (e : Entry) : Prop :=
  key_ok (e_key e) /\ 0 <= e_seq e <= kMaxSequenceNumber /\
  (e_type e = kTypeDeletion \/ e_type e = kTypeValue) /\ short_string (e_value e).

(** A pointer to an entry, or to a key that is looked up. *)
Definition good_entry (p : Slice) : Prop :=
  exists u n rest, p = PutLengthPrefixedSlice [] (internal u n) ++ rest /\
    key_ok u /\ 0 <= n < 2 ^ 64 /\ Forall is_byte rest.

Lemma internal_short u n : key_ok u -> short_string (internal u n).
Proof.
  intros (_ & Hb & Hl). split; [|rewrite internal_length; lia].
  apply Forall_app. split; [done|apply EncodeFixed64_bytes].
Qed.

#[local] Hint Resolve internal_short : core.

(** On those the order is defined, and it is the order of internal keys. *)
Lemma entry_compare_eq u n rest v m rest' :
  key_ok u -> key_ok v -> 0 <= n < 2 ^ 64 -> 0 <= m < 2 ^ 64 -> Forall is_byte rest -> Forall is_byte rest' ->
  exists r, Compare u v = Some r /\
    let c := if r =? 0 then compare_number n m else r in
    KeyComparator C (PutLengthPrefixedSlice [] (internal u n) ++ rest)
                    (PutLengthPrefixedSlice [] (internal v m) ++ rest') = Some c /\
    ecompare (PutLengthPrefixedSlice [] (internal u n) ++ rest)
             (PutLengthPrefixedSlice [] (internal v m) ++ rest') = c.
Proof.
  intros Hu Hv Hn Hm Hr Hr'. destruct (compare_total u v (proj1 Hu) (proj1 Hv)) as [r Hc].
  exists r. split; [done|]. unfold entry_compare, KeyComparator.
  rewrite !prefixed_at_bytes by auto. cbn [mbind option_bind fst].
  rewrite InternalCompare_eq, Hc by done. done.
Qed.

Lemma entry_compare_internal u n rest v m rest' :
  key_ok u -> key_ok v -> 0 <= n < 2 ^ 64 -> 0 <= m < 2 ^ 64 -> Forall is_byte rest -> Forall is_byte rest' ->
  @Compare (InternalKeyComparator C) (internal u n) (internal v m) =
  Some (ecompare (PutLengthPrefixedSlice [] (internal u n) ++ rest)
                 (PutLengthPrefixedSlice [] (internal v m) ++ rest')).
Proof.
  intros Hu Hv Hn Hm Hr Hr'. change (@Compare (InternalKeyComparator C)) with (InternalCompare C).
  destruct (entry_compare_eq u n rest v m rest' Hu Hv Hn Hm Hr Hr') as (r & Hc & _ & E).
  by rewrite InternalCompare_eq, Hc, E by done.
Qed.

#[export] Program Instance entry_order : KeyOrder ecompare good_entry.
Next Obligation.
  intros a b (u & n & r & -> & Hu & Hn & Hr) (v & m & r' & -> & Hv & Hm & Hr').
  pose proof (entry_compare_internal u n r v m r' Hu Hv Hn Hm Hr Hr') as E1.
  pose proof (entry_compare_internal v m r' u n r Hv Hu Hm Hn Hr' Hr) as E2.
  assert (internal_valid C (internal u n)) as V1 by (exists u, n; split; [done|]; split; [apply Hu|done]).
  assert (internal_valid C (internal v m)) as V2 by (exists v, m; split; [done|]; split; [apply Hv|done]).
  pose proof (@compare_antisym _ (InternalKeyComparator_laws C) _ _ _ _ V1 V2 E1 E2). lia.
Qed.
Next Obligation.
  intros a b c (u & n & r & -> & Hu & Hn & Hr) (v & m & r' & -> & Hv & Hm & Hr')
    (w & k & r'' & -> & Hw & Hk & Hr'') H1 H2.
  pose proof (entry_compare_internal u n r v m r' Hu Hv Hn Hm Hr Hr') as E1.
  pose proof (entry_compare_internal v m r' w k r'' Hv Hw Hm Hk Hr' Hr'') as E2.
  pose proof (entry_compare_internal u n r w k r'' Hu Hw Hn Hk Hr Hr'') as E3.
  assert (internal_valid C (internal u n)) as V1 by (exists u, n; split; [done|]; split; [apply Hu|done]).
  assert (internal_valid C (internal v m)) as V2 by (exists v, m; split; [done|]; split; [apply Hv|done]).
  assert (internal_valid C (internal w k)) as V3 by (exists w, k; split; [done|]; split; [apply Hw|done]).
  destruct (@compare_trans _ (InternalKeyComparator_laws C) _ _ _ _ _ V1 V2 V3 E1 E2 H1 H2) as (x & E & Hx & _).
  rewrite E3 in E. by injection E as ->.
Qed.

Lemma e_number_range e : entry_ok e -> 0 <= e_number e < 2 ^ 64.
Proof.
  intros (_ & Hs & Ht & _). unfold e_number, kMaxSequenceNumber, kTypeDeletion, kTypeValue in *. lia.
Qed.

Lemma encode_entry_good e : entry_ok e -> good_entry (encode_entry e).
Proof.
  intros He. exists (e_key e), (e_number e), (PutLengthPrefixedSlice [] (e_value e)).
  split; [done|]. split; [apply He|]. split; [by apply e_number_range|].
  apply PutLengthPrefixedSlice_bytes. apply He.
Qed.

(** The buffer that [Add] fills. *)
Lemma entry_bytes_eq e :
  entry_ok e -> entry_bytes (e_seq e) (e_type e) (e_key e) (e_value e) = Some (encode_entry e).
Proof.
  intros ((_ & _ & Hl) & Hs & Ht & Hb & Hv). unfold entry_bytes.
  rewrite !VarintLength_eq by lia. cbn [mbind option_bind].
  assert (Z.lor (u64 (Z.shiftl (e_seq e) 8)) (e_type e) = e_number e) as ->.
  { unfold kMaxSequenceNumber, kTypeDeletion, kTypeValue in *. unfold e_number.
    rewrite uwrap_small by (rewrite Z.shiftl_mul_pow2 by lia; lia).
    rewrite Z.lor_comm, lor_shiftl_add by lia. lia. }
  rewrite !uwrap_small, !EncodeVarint32_eq by lia.
  unfold encode_entry. rewrite !PutLengthPrefixedSlice_eq, internal_length by (rewrite ?internal_length; lia).
  replace (Z.of_nat (length (e_key e) + 8)) with (Z.of_nat (length (e_key e)) + 8) by lia.
  unfold internal. rewrite <- !app_assoc, !length_app, EncodeFixed64_length.
  match goal with |- (if ?a =? ?b then _ else _) = _ => destruct (Z.eqb_spec a b); [done|lia] end.
Qed.

(** ** The abstract value *)

(** The table [m] holds the entries [es], in any order. *)
Definition mem_holds (m : MemTable) (es : list Entry) : Prop :=
  exists ks, represents ecompare good_entry (table_ m) (encode_entry <$> ks) /\ ks ≡ₚ es /\
    Forall entry_ok es /\ NoDup (e_seq <$> es).

Lemma mem_holds_new : mem_holds new_MemTable [].
Proof.
  exists []. split; [apply represents_new|]. split; [done|]. split; constructor.
Qed.

Lemma filter_fmap_ks (f : Slice -> bool) ks :
  List.filter f (encode_entry <$> ks) = encode_entry <$> List.filter (fun e => f (encode_entry e)) ks.
Proof.
  induction ks as [|e ks IH]; [done|]. rewrite fmap_cons. cbn [List.filter].
  destruct (f (encode_entry e)); [rewrite fmap_cons; f_equal|]; apply IH.
Qed.

Lemma filter_perm {A} (f : A -> bool) l : List.filter f l ++ List.filter (fun x => negb (f x)) l ≡ₚ l.
Proof.
  induction l as [|x l IH]; [done|]. cbn. destruct (f x); cbn [negb app]; [by f_equiv|].
  rewrite <- Permutation_middle. by f_equiv.
Qed.

(** Entries with different numbers do not compare equal. *)
Lemma entries_differ e e' :
  entry_ok e -> entry_ok e' -> e_seq e <> e_seq e' -> ecompare (encode_entry e) (encode_entry e') <> 0.
Proof.
  intros He He' Hs. pose proof (e_number_range e He). pose proof (e_number_range e' He').
  destruct (entry_compare_eq (e_key e) (e_number e) (PutLengthPrefixedSlice [] (e_value e))
    (e_key e') (e_number e') (PutLengthPrefixedSlice [] (e_value e'))) as (r & _ & _ & E);
    try done; try apply He; try apply He'; try (apply PutLengthPrefixedSlice_bytes; apply He || apply He').
  unfold encode_entry. rewrite E. destruct (Z.eqb_spec r 0); [|done].
  assert (e_number e <> e_number e').
  { destruct He as (_ & _ & Ht & _), He' as (_ & _ & Ht' & _).
    unfold e_number, kTypeDeletion, kTypeValue in *. lia. }
  unfold compare_number. destruct (Z.ltb_spec (e_number e') (e_number e)),
    (Z.ltb_spec (e_number e) (e_number e')); lia.
Qed.

Lemma on_table_ok {A} (f : M (SkipList Slice) A) (m : MemTable) a s' :
  f (table_ m) = Ok a s' -> on_table f m = Ok a (mk_memtable (refs_ m) s').
Proof. intros E. unfold on_table. by rewrite E. Qed.

(** An entry is added, if its sequence number is new. *)
Lemma Add_holds m es e :
  mem_holds m es -> entry_ok e -> Forall (fun e' => e_seq e' <> e_seq e) es ->
  exists m', Add C (e_seq e) (e_type e) (e_key e) (e_value e) m = Ok tt m' /\
    mem_holds m' (es ++ [e]) /\ refs_ m' = refs_ m.
Proof.
  intros (ks & HR & HP & Ho & Hd) He Hf. unfold Add. rewrite (bind_or_ub _ _ _ _ (entry_bytes_eq e He)).
  destruct (represents_insert ecompare good_entry (table_ m) (encode_entry <$> ks) (encode_entry e) HR)
    as (s' & E & HR'); [by apply encode_entry_good| |].
  { apply Forall_fmap. rewrite <- HP in Ho, Hf. rewrite Forall_forall in Ho, Hf.
    apply Forall_forall. intros e' Hin. cbn. apply entries_differ; auto. }
  eexists. split; [by apply on_table_ok|]. split; [|done].
  unfold insert_key in HR'. rewrite !filter_fmap_ks in HR'.
  change (encode_entry e :: ?l) with ([encode_entry e] ++ l) in HR'.
  exists (List.filter (fun a => ecompare (encode_entry a) (encode_entry e) <? 0) ks ++
          e :: List.filter (fun a => negb (ecompare (encode_entry a) (encode_entry e) <? 0)) ks).
  split; [by rewrite fmap_app|]. split; [|split].
  - rewrite <- Permutation_middle, filter_perm, HP, Permutation_app_comm. done.
  - by apply Forall_app; auto.
  - rewrite fmap_app. apply NoDup_app. split; [done|]. split; [|apply NoDup_singleton].
    intros x (e' & -> & Hin)%list_elem_of_fmap Hx. apply list_elem_of_singleton in Hx.
    rewrite Forall_forall in Hf. by apply (Hf e').
Qed.

End contents.

(** * Properties of write batches and memtables

    A batch repeats the updates it was built from; inserted into a memtable, it
    gives each update the next sequence number; and a lookup at a number finds the
    newest update of its key up to that number. *)

(** ** The specification of a lookup *)

Section newest.
Context (C : Comparator).

(** An update of the key [u] whose number is at most [s]. *)
Definition visible (u : Slice) (s : Z) (e : Entry) : bool :=
  match @Compare C (e_key e) u with
  | Some r => (r =? 0) && (e_seq e <=? s)
  | None => false
  end.

Fixpoint newest (u : Slice) (s : Z) (es : list Entry) : option Entry :=
  match es with
  | [] => None
  | e :: es =>
      let r := newest u s es in
      if visible u s e then
        match r with
        | Some e' => if e_seq e' <? e_seq e then Some e else r
        | None => Some e
        end
      else r
  end.

Lemma newest_spec u s es :
  match newest u s es with
  | Some e => e ∈ es /\ visible u s e = true /\
              forall e', e' ∈ es -> visible u s e' = true -> e_seq e' <= e_seq e
  | None => forall e', e' ∈ es -> visible u s e' = false
  end.
Proof.
  induction es as [|e es IH]; cbn [newest]; [by intros e' He%elem_of_nil|].
  destruct (visible u s e) eqn:V.
  - destruct (newest u s es) as [e1|].
    + destruct IH as (Hin & V1 & Hmax). destruct (Z.ltb_spec (e_seq e1) (e_seq e)).
      * split; [by left|]. split; [done|]. intros e' [->|He]%elem_of_cons V'; [lia|].
        pose proof (Hmax e' He V'). lia.
      * split; [by right|]. split; [done|]. intros e' [->|He]%elem_of_cons V'; [lia|auto].
    + split; [by left|]. split; [done|]. intros e' [->|He]%elem_of_cons V'; [lia|].
      by rewrite IH in V'.
  - destruct (newest u s es) as [e1|].
    + destruct IH as (Hin & V1 & Hmax). split; [by right|]. split; [done|].
      intros e' [->|He]%elem_of_cons V'; [congruence|auto].
    + intros e' [->|He]%elem_of_cons; auto.
Qed.

Lemma NoDup_fmap_inj {A B} (f : A -> B) l x y :
  NoDup (f <$> l) -> x ∈ l -> y ∈ l -> f x = f y -> x = y.
Proof.
  induction l as [|z l IH]; intros Hd Hx Hy E; [by apply elem_of_nil in Hx|].
  rewrite fmap_cons in Hd. apply NoDup_cons in Hd as [Hz Hd].
  apply elem_of_cons in Hx. apply elem_of_cons in Hy.
  destruct Hx as [->|Hx], Hy as [->|Hy]; try done.
  - exfalso. apply Hz. rewrite E. by apply list_elem_of_fmap_2.
  - exfalso. apply Hz. rewrite <- E. by apply list_elem_of_fmap_2.
  - by apply IH.
Qed.

(** The newest entry is the only one of its kind. *)
Lemma newest_unique u s es e :
  NoDup (e_seq <$> es) -> e ∈ es -> visible u s e = true ->
  (forall e', e' ∈ es -> visible u s e' = true -> e_seq e' <= e_seq e) ->
  newest u s es = Some e.
Proof.
  intros Hd He V Hmax. pose proof (newest_spec u s es) as H.
  destruct (newest u s es) as [e1|]; [|by rewrite H in V].
  destruct H as (H1 & V1 & Hm1). f_equal.
  apply (NoDup_fmap_inj e_seq es); try done.
  pose proof (Hmax e1 H1 V1). pose proof (Hm1 e He V). lia.
Qed.

Lemma newest_none u s es : (forall e', e' ∈ es -> visible u s e' = false) -> newest u s es = None.
Proof.
  intros H. pose proof (newest_spec u s es) as N. destruct (newest u s es) as [e|]; [|done].
  destruct N as (He & V & _). by rewrite H in V.
Qed.

(** What [Status::NotFound(Slice())] makes. *)
Definition not_found_status : Status := {| state_ := Some [0; 0; 0; 0; kNotFound] |}.

(** The answer when [*value] and [*s] hold [value] and [st]. *)
Definition get_result (r : option Entry) (value : Slice) (st : Status) : bool * Slice * Status :=
  match r with
  | Some e => if e_type e =? kTypeValue then (true, e_value e, st) else (true, value, not_found_status)
  | None => (false, value, st)
  end.

End newest.

Section lookups.
Context (C : Comparator) {L : ComparatorLaws C}.

Abbreviation ecompare := (entry_compare C).

Lemma get_at_entry e u value st r :
  entry_ok C e -> Compare (e_key e) u = Some r ->
  get_at C (encode_entry e) u value st =
  Some (get_result (if r =? 0 then Some e else None) value st).
Proof.
  intros He Hr. pose proof He as ((_ & Hb & Hl) & _ & Ht & Hv).
  pose proof (e_number_range C e He) as Hn. unfold get_at, encode_entry.
  rewrite (PutLengthPrefixedSlice_eq (internal _ _)), <- app_assoc by (rewrite internal_length; lia).
  rewrite varint_at_bytes.
  2:{ rewrite internal_length. lia. }
  2:{ apply Forall_app. split; [|by apply PutLengthPrefixedSlice_bytes].
      apply Forall_app. split; [done|apply EncodeFixed64_bytes]. }
  cbn [mbind option_bind]. rewrite internal_length, uwrap_small by lia.
  replace (Z.to_nat (Z.of_nat (length (e_key e) + 8) - 8)) with (length (e_key e)) by lia.
  unfold internal. rewrite <- app_assoc, !length_app, take_app_length, drop_app_length.
  destruct (Nat.leb_spec (length (e_key e)) (length (e_key e) + (length (EncodeFixed64 (e_number e)) +
    length (PutLengthPrefixedSlice [] (e_value e))))); [|lia].
  rewrite Hr. cbn [mbind option_bind]. destruct (r =? 0); [|done].
  rewrite DecodeFixed64_EncodeFixed64 by done. cbn [mbind option_bind].
  assert (Z.land (e_number e) 255 = e_type e) as ->.
  { apply unpack. unfold kTypeDeletion, kTypeValue in Ht. lia. }
  cbn [get_result]. destruct Ht as [Ht|Ht]; rewrite Ht; [reflexivity|].
  change (kTypeValue =? kTypeValue) with true. cbv iota.
  rewrite app_assoc, drop_app_length' by (rewrite length_app, EncodeFixed64_length; lia).
  by rewrite prefixed_at_bytes_end.
Qed.

Definition target (u : Slice) (s : Z) : Slice := PutLengthPrefixedSlice [] (internal u (256 * s + 1)).

Context (u : Slice) (s : Z) (Hu : key_ok C u) (Hs : 0 <= s <= kMaxSequenceNumber).

Lemma target_number : 0 <= 256 * s + 1 < 2 ^ 64.
Proof. unfold kMaxSequenceNumber in Hs. lia. Qed.

Lemma target_good : good_entry C (target u s).
Proof.
  exists u, (256 * s + 1), []. rewrite app_nil_r. split; [done|]. split; [exact Hu|].
  split; [exact target_number|constructor].
Qed.

(** Where an entry is, compared to what is looked up. *)
Lemma target_compare e :
  entry_ok C e ->
  exists r, Compare (e_key e) u = Some r /\
    (ecompare (encode_entry e) (target u s) < 0 <-> r < 0 \/ (r = 0 /\ s < e_seq e)).
Proof.
  intros He. unfold target. rewrite <- (app_nil_r (PutLengthPrefixedSlice [] (internal u _))).
  destruct (entry_compare_eq C (e_key e) (e_number e) (PutLengthPrefixedSlice [] (e_value e))
    u (256 * s + 1) []) as (r & Hr & _ & E); try done; try apply He.
  - by apply (e_number_range C).
  - apply target_number.
  - apply PutLengthPrefixedSlice_bytes, He.
  - exists r. split; [done|]. unfold encode_entry. rewrite E. destruct (Z.eqb_spec r 0) as [->|]; [|lia].
    destruct He as (_ & _ & Ht & _). unfold compare_number, e_number, kTypeDeletion, kTypeValue in *.
    destruct (Z.ltb_spec (256 * s + 1) (256 * e_seq e + e_type e)),
      (Z.ltb_spec (256 * e_seq e + e_type e) (256 * s + 1)); lia.
Qed.

Lemma visible_compare e r : Compare (e_key e) u = Some r -> visible C u s e = (r =? 0) && (e_seq e <=? s).
Proof. unfold visible. by intros ->. Qed.

Lemma before_invisible e :
  entry_ok C e -> ecompare (encode_entry e) (target u s) < 0 -> visible C u s e = false.
Proof.
  intros He H. destruct (target_compare e He) as (r & Hr & Hiff). rewrite (visible_compare e r Hr).
  apply Hiff in H. destruct (Z.eqb_spec r 0), (Z.leb_spec (e_seq e) s); done || lia.
Qed.

(** Among entries of the same key the newer one comes first. *)
Lemma entry_before e e' :
  entry_ok C e -> entry_ok C e' -> ecompare (encode_entry e) (encode_entry e') < 0 ->
  exists r, Compare (e_key e) (e_key e') = Some r /\ (r < 0 \/ (r = 0 /\ e_seq e' <= e_seq e)).
Proof.
  intros He He' H. pose proof (e_number_range C e He). pose proof (e_number_range C e' He').
  destruct (entry_compare_eq C (e_key e) (e_number e) (PutLengthPrefixedSlice [] (e_value e))
    (e_key e') (e_number e') (PutLengthPrefixedSlice [] (e_value e'))) as (r & Hr & _ & E);
    try done; try apply He; try apply He'; try (apply PutLengthPrefixedSlice_bytes; apply He || apply He').
  exists r. split; [done|]. unfold encode_entry in H. rewrite E in H.
  revert H. destruct (Z.eqb_spec r 0) as [Hz|]; intros H; [|lia]. right. split; [done|].
  destruct He as (_ & _ & Ht & _), He' as (_ & _ & Ht' & _).
  unfold compare_number, e_number, kTypeDeletion, kTypeValue in *.
  revert H. destruct (Z.ltb_spec (256 * e_seq e' + e_type e') (256 * e_seq e + e_type e)),
    (Z.ltb_spec (256 * e_seq e + e_type e) (256 * e_seq e' + e_type e')); lia.
Qed.

(** The entry that a seek stops at decides the lookup. *)
Lemma seek_decides es e r :
  NoDup (e_seq <$> es) -> Forall (entry_ok C) es -> e ∈ es ->
  0 <= ecompare (encode_entry e) (target u s) -> Compare (e_key e) u = Some r ->
  (forall e', e' ∈ es -> ecompare (encode_entry e') (target u s) < 0 \/ e' = e \/
                         ecompare (encode_entry e) (encode_entry e') < 0) ->
  newest C u s es = if r =? 0 then Some e else None.
Proof.
  intros Hd Ho He Hge Hr Hall. rewrite Forall_forall in Ho.
  destruct (target_compare e (Ho e He)) as (r' & Hr' & Hiff). assert (r' = r) as -> by congruence.
  assert (forall e' r2, e' ∈ es -> ecompare (encode_entry e) (encode_entry e') < 0 ->
            Compare (e_key e') u = Some 0 -> Compare (e_key e) (e_key e') = Some r2 -> r2 <= 0 -> r <= 0)
    as Htrans.
  { intros e' r2 He' Hlt H0 H2 Hle.
    destruct (compare_trans (e_key e) (e_key e') u r2 0) as (r3 & E & ? & _); try done;
      try apply Ho; try done; try apply Hu. rewrite Hr in E. by injection E as ->. }
  destruct (Z.eqb_spec r 0) as [->|Hne].
  - apply newest_unique; try done.
    + rewrite (visible_compare e 0 Hr). cbn. apply Z.leb_le. lia.
    + intros e' He' V. destruct (Hall e' He') as [Hb|[->|Hlt]]; [|done|].
      * by rewrite (before_invisible e' (Ho e' He') Hb) in V.
      * destruct (entry_before e e' (Ho e He) (Ho e' He') Hlt) as (r2 & H2 & [Hlt2|[_ ?]]); [|done].
        destruct (target_compare e' (Ho e' He')) as (r3 & H3 & _). rewrite (visible_compare e' r3 H3) in V.
        apply andb_prop in V as [->%Z.eqb_eq _].
        destruct (compare_trans (e_key e) (e_key e') u r2 0) as (r4 & E & _ & Hl); try done;
          try apply Ho; try done; try apply Hu; [lia|]. rewrite Hr in E. injection E as <-. lia.
  - apply newest_none. intros e' He'. apply not_true_is_false. intros V.
    destruct (target_compare e' (Ho e' He')) as (r3 & H3 & _). pose proof V as V3.
    rewrite (visible_compare e' r3 H3) in V3. apply andb_prop in V3 as [->%Z.eqb_eq _].
    destruct (Hall e' He') as [Hb|[->|Hlt]].
    + by rewrite (before_invisible e' (Ho e' He') Hb) in V.
    + congruence.
    + destruct (entry_before e e' (Ho e He) (Ho e' He') Hlt) as (r2 & H2 & Hle).
      assert (r <= 0) by (eapply Htrans; [done|done|done|done|lia]). lia.
Qed.

Lemma Get_newest m es k value st :
  mem_holds C m es -> make_LookupKey u s = Some k ->
  Get C k value st m = Ok (get_result (newest C u s es) value st) m.
Proof.
  intros (ks & HR & HP & Ho & Hd) Hk.
  destruct (make_LookupKey_eq u s Hs) as (k' & E & Hmem & _ & Huser & _); [apply Hu|].
  assert (k' = k) as -> by congruence. clear E.
  unfold Get. rewrite Hmem, Huser. fold (target u s).
  destruct (Iterator_Seek_key ecompare (good_entry C) (table_ m) _ _ HR target_good) as (n & E & Hn).
  rewrite (bind_ok _ _ _ _ _ (on_table_ok _ _ _ _ E)).
  replace {| refs_ := refs_ m; table_ := table_ m |} with m by (by destruct m).
  assert (Forall (entry_ok C) ks) as Hks by (by rewrite HP). rewrite Forall_forall in Hks.
  destruct n as [x|].
  - change (Iterator_Valid (Some x)) with true. cbv iota.
    destruct Hn as (a & Ea & Ha & Hge & Hall). apply list_elem_of_fmap in Ha as (e & -> & He).
    rewrite (bind_ok _ _ _ _ _ (on_table_ok _ _ _ _ Ea)).
    replace {| refs_ := refs_ m; table_ := table_ m |} with m by (by destruct m).
    destruct (target_compare e (Hks e He)) as (r & Hr & _).
    rewrite (get_at_entry e u value st r (Hks e He) Hr). cbn [or_ub]. unfold ret.
    rewrite (seek_decides es e r); try done; [by rewrite <- HP|].
    intros e' He'. rewrite <- HP in He'. apply Forall_fmap in Hall. rewrite Forall_forall in Hall.
    destruct (Hall e' He') as [?|[Heq|?]]; [by left| |by right; right]. right. left.
    destruct (decide (e_seq e' = e_seq e)) as [Hseq|Hseq].
    + apply (NoDup_fmap_inj e_seq es); try done; by rewrite <- HP.
    + exfalso. apply (entries_differ C e' e (Hks e' He') (Hks e He) Hseq). rewrite Heq.
      pose proof (key_flip (encode_entry e) (encode_entry e) (encode_entry_good C e (Hks e He))
        (encode_entry_good C e (Hks e He))). lia.
  - change (Iterator_Valid None) with false. cbv iota. unfold ret. rewrite newest_none; [done|].
    intros e He. rewrite <- HP in He. apply Forall_fmap in Hn. rewrite Forall_forall in Hn.
    apply before_invisible; [auto|by apply Hn].
Qed.

(** C9: A lookup with a sequence number returns the value of the newest update of
    the key that is not newer than the number; it reports that the key is not found
    when that update is a deletion, and that it knows nothing when there is none. *)
Theorem memtable_get m es k value st :
  mem_holds C m es -> make_LookupKey u s = Some k ->
  Get C k value st m = Ok (get_result (newest C u s es) value st) m.
Proof. apply Get_newest. Qed.

End lookups.

(** ** Batches *)

(** A batch that is filled by Put and Delete, given a sequence number, and
    extended by another batch has the number, the count of both, and makes any
    handler repeat exactly the updates of both in their order, with status OK. *)
Theorem batch_replays {S} {H : Handler S} us vs seq (st : S) :
  Forall update_ok us -> Forall update_ok vs ->
  Z.of_nat (length us) + Z.of_nat (length vs) < 2 ^ 31 -> 0 <= seq < 2 ^ 64 ->
  exists b1 b2 b3 b,
    put_updates new_WriteBatch us = Some b1 /\ put_updates new_WriteBatch vs = Some b2 /\
    SetSequence b1 seq = Some b3 /\ Append b3 b2 = Some b /\
    Sequence b = Some seq /\ Count b = Some (Z.of_nat (length us + length vs)) /\
    Iterate b st = (replay_all (us ++ vs) ;;; ret Status_OK) st.
Proof.
  intros Hu Hv Hn Hs.
  destruct (put_updates_holds _ _ _ us holds_new Hu ltac:(cbn; lia)) as (b1 & E1 & H1).
  destruct (put_updates_holds _ _ _ vs holds_new Hv ltac:(cbn; lia)) as (b2 & E2 & H2).
  destruct (held_set_sequence b1 _ _ H1 seq Hs) as (b3 & E3 & H3).
  destruct (held_append b3 _ _ H3 b2 _ _ H2 ltac:(cbn; lia)) as (b & E & Hb).
  exists b1, b2, b3, b. split; [done|]. split; [done|]. split; [done|]. split; [done|].
  split; [by eapply held_sequence|]. split; [|by eapply held_iterate].
  rewrite (held_count b _ _ Hb). by rewrite length_app.
Qed.

Section insertion.
Context (C : Comparator) {L : ComparatorLaws C}.

#[local] Existing Instance MemTableInserter_handler.

(** The entries of a batch: each update has the next number. *)
Definition update_entry (seq : Z) (u : Update) : Entry :=
  match u with
  | UPut k v => mk_entry seq kTypeValue k v
  | UDelete k => mk_entry seq kTypeDeletion k []
  end.

Fixpoint numbered (seq : Z) (us : list Update) : list Entry :=
  match us with [] => [] | u :: us => update_entry seq u :: numbered (seq + 1) us end.

Definition update_key (u : Update) : Slice := match u with UPut k _ => k | UDelete k => k end.

Lemma update_entry_ok seq u :
  update_ok u -> key_ok C (update_key u) -> 0 <= seq <= kMaxSequenceNumber ->
  entry_ok C (update_entry seq u).
Proof.
  intros Hu Hk Hs. destruct u as [k v|k]; (split; [done|]; split; [done|]).
  - split; [by right|]. apply Hu.
  - split; [by left|]. by repeat constructor.
Qed.

Lemma replay_adds seq u m es :
  update_ok u -> key_ok C (update_key u) -> 0 <= seq <= kMaxSequenceNumber ->
  mem_holds C m es -> Forall (fun e => e_seq e < seq) es ->
  exists m', @replay _ (MemTableInserter_handler C) u (mk_inserter seq m) = Ok tt (mk_inserter (seq + 1) m') /\
    mem_holds C m' (es ++ [update_entry seq u]).
Proof.
  intros Hu Hk Hs Hm Hlt.
  destruct (Add_holds C m es (update_entry seq u) Hm (update_entry_ok seq u Hu Hk Hs)) as (m' & E & Hm' & _).
  { eapply Forall_impl; [exact Hlt|]. cbn. intros e He. destruct u; cbn [update_entry e_seq]; lia. }
  exists m'. split; [|done].
  assert (forall t k v, Add C seq t k v m = Ok tt m' ->
    inserter_Put C t k v (mk_inserter seq m) = Ok tt (mk_inserter (seq + 1) m')) as Hput.
  { intros t k v Ht. unfold inserter_Put. rewrite bind_gets. cbn [sequence_].
    assert (on_mem (Add C seq t k v) (mk_inserter seq m) = Ok tt (mk_inserter seq m')) as Eo
      by (unfold on_mem; cbn [mem_]; by rewrite Ht).
    rewrite (bind_ok _ _ _ _ _ Eo). unfold modify. cbn [sequence_ mem_].
    unfold kMaxSequenceNumber in Hs. by rewrite uwrap_small by lia. }
  by destruct u; apply Hput.
Qed.

Lemma replay_all_adds seq us m es :
  Forall update_ok us -> Forall (fun u => key_ok C (update_key u)) us ->
  0 <= seq -> seq + Z.of_nat (length us) <= kMaxSequenceNumber + 1 ->
  mem_holds C m es -> Forall (fun e => e_seq e < seq) es ->
  exists m', @replay_all _ (MemTableInserter_handler C) us (mk_inserter seq m) =
               Ok tt (mk_inserter (seq + Z.of_nat (length us)) m') /\
    mem_holds C m' (es ++ numbered seq us).
Proof.
  intros Hu. revert seq m es. induction Hu as [|u us Hu _ IH]; intros seq m es Hk Hs Hn Hm Hlt.
  - exists m. cbn. by rewrite Z.add_0_r, app_nil_r.
  - apply Forall_cons in Hk as [Hk1 Hk]. cbn [length] in *.
    destruct (replay_adds seq u m es Hu Hk1 ltac:(lia) Hm Hlt) as (m1 & E1 & H1).
    destruct (IH (seq + 1) m1 (es ++ [update_entry seq u]) Hk ltac:(lia) ltac:(lia) H1) as (m2 & E2 & H2).
    { apply Forall_app. split; [eapply Forall_impl; [exact Hlt|]; cbn; lia|].
      apply Forall_singleton. destruct u; cbn [update_entry e_seq]; lia. }
    exists m2. cbn [replay_all numbered]. rewrite (bind_ok _ _ _ _ _ E1), E2.
    split; [do 2 f_equal; lia|]. by rewrite <- app_assoc in H2.
Qed.

Lemma InsertInto_adds b seq us m es :
  holds_updates b seq us -> Forall (fun u => key_ok C (update_key u)) us ->
  seq + Z.of_nat (length us) <= kMaxSequenceNumber + 1 ->
  mem_holds C m es -> Forall (fun e => e_seq e < seq) es ->
  exists m', InsertInto C b m = Ok Status_OK m' /\ mem_holds C m' (es ++ numbered seq us).
Proof.
  intros Hb Hk Hn Hm Hlt. pose proof Hb as (_ & Hs & _ & Hu).
  destruct (replay_all_adds seq us m es Hu Hk ltac:(lia) Hn Hm Hlt) as (m' & E & Hm').
  exists m'. split; [|done]. unfold InsertInto. rewrite (held_sequence b seq us Hb).
  rewrite (held_iterate b seq us _ Hb), (bind_ok _ _ _ _ _ E). done.
Qed.

(** C10: Inserting a batch into a memtable adds an entry for each of its updates, in
    order, numbered from the sequence number of the batch on. *)
Theorem insert_batch_adds b seq us m es :
  holds_updates b seq us -> Forall (fun u => key_ok C (update_key u)) us ->
  seq + Z.of_nat (length us) <= kMaxSequenceNumber + 1 ->
  mem_holds C m es -> Forall (fun e => e_seq e < seq) es ->
  exists m', InsertInto C b m = Ok Status_OK m' /\ mem_holds C m' (es ++ numbered seq us).
Proof. apply InsertInto_adds. Qed.

End insertion.

(** ** Instances *)

(** A handler that writes down its calls. *)
#[export] Instance recorder : Handler (list Update) := {|
  Handler_Put := fun k v => modify (fun l => l ++ [UPut k v]);
  Handler_Delete := fun k => modify (fun l => l ++ [UDelete k])
|}.

Ltac small_string := split; [repeat constructor; done|done].

Lemma batch_replays_witness :
  exists b1 b2 b3 b,
    put_updates new_WriteBatch [UPut [97] [1; 2]; UDelete [98]] = Some b1 /\
    put_updates new_WriteBatch [UPut [98] []] = Some b2 /\
    SetSequence b1 100 = Some b3 /\ Append b3 b2 = Some b /\
    Sequence b = Some 100 /\ Count b = Some 3 /\
    Iterate b [] = (replay_all ([UPut [97] [1; 2]; UDelete [98]] ++ [UPut [98] []]) ;;; ret Status_OK) [].
Proof.
  apply (batch_replays [UPut [97] [1; 2]; UDelete [98]] [UPut [98] []] 100);
    [repeat constructor; done|repeat constructor; done|done|done].
Defined.

(** The batch of the next theorems: put [a], put [b], delete [a], from 7 on. *)
Definition sample_batch : WriteBatch :=
  default new_WriteBatch (b ← put_updates new_WriteBatch [UPut [97] [1]; UPut [98] [2]; UDelete [97]];
                          SetSequence b 7).

Lemma sample_batch_holds :
  holds_updates sample_batch 7 [UPut [97] [1]; UPut [98] [2]; UDelete [97]].
Proof. repeat split; try done; repeat constructor; done. Qed.

Lemma insert_batch_adds_witness :
  exists m', InsertInto BytewiseComparator sample_batch new_MemTable = Ok Status_OK m' /\
    mem_holds BytewiseComparator m'
      ([] ++ numbered 7 [UPut [97] [1]; UPut [98] [2]; UDelete [97]]).
Proof.
  apply (insert_batch_adds BytewiseComparator sample_batch 7 _ new_MemTable []).
  - apply sample_batch_holds.
  - repeat constructor; done.
  - done.
  - apply mem_holds_new.
  - constructor.
Defined.

(** The memtable of that batch, and lookups of [a] in it. *)
Definition sample_memtable : MemTable :=
  match InsertInto BytewiseComparator sample_batch new_MemTable with Ok _ m => m | _ => new_MemTable end.

Definition sample_entries : list Entry := numbered 7 [UPut [97] [1]; UPut [98] [2]; UDelete [97]].

Lemma sample_memtable_holds : mem_holds BytewiseComparator sample_memtable sample_entries.
Proof.
  destruct (replay_all_adds BytewiseComparator 7 [UPut [97] [1]; UPut [98] [2]; UDelete [97]]
    new_MemTable []) as (m & E & H).
  - repeat constructor; done.
  - repeat constructor; done.
  - done.
  - done.
  - apply mem_holds_new.
  - constructor.
  - unfold sample_memtable, InsertInto. rewrite (held_sequence _ _ _ sample_batch_holds).
    rewrite (held_iterate _ _ _ _ sample_batch_holds), (bind_ok _ _ _ _ _ E). done.
Qed.

Lemma memtable_get_witness :
  Get BytewiseComparator (mk_lookup [9; 97; 1; 8; 0; 0; 0; 0; 0; 0] 1) [] Status_OK sample_memtable =
    Ok (true, [1], Status_OK) sample_memtable /\
  Get BytewiseComparator (mk_lookup [9; 97; 1; 9; 0; 0; 0; 0; 0; 0] 1) [] Status_OK sample_memtable =
    Ok (true, [], not_found_status) sample_memtable /\
  Get BytewiseComparator (mk_lookup [9; 97; 1; 6; 0; 0; 0; 0; 0; 0] 1) [] Status_OK sample_memtable =
    Ok (false, [], Status_OK) sample_memtable.
Proof.
  assert (key_ok BytewiseComparator [97]) as Hk by (repeat constructor; done).
  split; [|split].
  - apply (memtable_get BytewiseComparator [97] 8 Hk ltac:(done) sample_memtable sample_entries
      (mk_lookup [9; 97; 1; 8; 0; 0; 0; 0; 0; 0] 1) [] Status_OK sample_memtable_holds). reflexivity.
  - apply (memtable_get BytewiseComparator [97] 9 Hk ltac:(done) sample_memtable sample_entries
      (mk_lookup [9; 97; 1; 9; 0; 0; 0; 0; 0; 0] 1) [] Status_OK sample_memtable_holds). reflexivity.
  - apply (memtable_get BytewiseComparator [97] 6 Hk ltac:(done) sample_memtable sample_entries
      (mk_lookup [9; 97; 1; 6; 0; 0; 0; 0; 0; 0] 1) [] Status_OK sample_memtable_holds). reflexivity.
Defined.
