(* ===== verification/MemIterator.v ===== *)
(** * The iterator of a memtable (memtable.cc)

    [MemTableIterator] is an implementation of the interface of iterators: a cursor
    over the entries of the table in the order of their internal keys. *)

From Stdlib Require Import ZArith Lia Sorted.
From stdpp Require Import base option list strings sorting gmap.
From S2P Require Import Prelude Memory Wire Slice Coding DbFormat SkipList SkipSearch SkipInsert SkipContents Status Iterator.
From S2P Require Import TwoLevelProof MergeLists WriteBatch MemTable MemTheorems.

(** The table and the node of the iterator. *)
Record MemTableIterator := mk_mem_iter { mi_table : MemTable; mi_node : option nat }.

(** A call that moves the iterator, and one that does not. *)
Definition mi_move (m : M MemTable (option nat)) : M MemTableIterator unit := fun s =>
  match m (mi_table s) with
  | Ok n t => Ok tt (mk_mem_iter t n)
  | Err t => Err (mk_mem_iter t (mi_node s))
  | Ub => Ub
  | OutOfFuel => OutOfFuel
  end.

Definition mi_read {A} (m : option nat -> M MemTable A) : M MemTableIterator A := fun s =>
  match m (mi_node s) (mi_table s) with
  | Ok a t => Ok a (mk_mem_iter t (mi_node s))
  | Err t => Err (mk_mem_iter t (mi_node s))
  | Ub => Ub
  | OutOfFuel => OutOfFuel
  end.

Section iterator.
Context (C : Comparator) {L : ComparatorLaws C}.

Definition MemTable_Iterator : Iterator MemTableIterator := {|
  it_Valid s := MemTableIterator_Valid (mi_node s);
  it_SeekToFirst := mi_move MemTableIterator_SeekToFirst;
  it_SeekToLast := mi_move MemTableIterator_SeekToLast;
  it_Seek k := mi_move (MemTableIterator_Seek C k);
  it_Next := fun s => mi_move (MemTableIterator_Next (mi_node s)) s;
  it_Prev := fun s => mi_move (MemTableIterator_Prev C (mi_node s)) s;
  it_key := mi_read MemTableIterator_key;
  it_value := mi_read MemTableIterator_value;
  it_status _ := Some Status_OK
|}.

(** [MemTable::NewIterator] *)
Definition MemTable_NewIterator (m : MemTable) : MemTableIterator := mk_mem_iter m Iterator_new.

(** What the iterator shows of an entry. *)
Definition entry_pair (e : Entry) : Slice * Slice := (internal (e_key e) (e_number e), e_value e).

Definition internal_target (t : Slice) : Prop :=
  exists u n, t = internal u n /\ key_ok C u /\ 0 <= n < 2 ^ 64.

Lemma mi_move_ok (f : M (SkipList Slice) (option nat)) m node n :
  f (table_ m) = Ok n (table_ m) -> mi_move (on_table f) (mk_mem_iter m node) = Ok tt (mk_mem_iter m n).
Proof.
  intros E. unfold mi_move. cbn [mi_table]. rewrite (on_table_ok _ _ _ _ E). by destruct m.
Qed.

Lemma entry_read e m node :
  entry_ok C e -> Iterator_key node (table_ m) = Ok (encode_entry e) (table_ m) ->
  mi_read MemTableIterator_key (mk_mem_iter m node) = Ok (entry_pair e).1 (mk_mem_iter m node) /\
  mi_read MemTableIterator_value (mk_mem_iter m node) = Ok (entry_pair e).2 (mk_mem_iter m node).
Proof.
  intros He E. unfold mi_read. cbn [mi_table mi_node]. unfold MemTableIterator_key, MemTableIterator_value.
  rewrite !(bind_ok _ _ _ _ _ (on_table_ok _ _ _ _ E)).
  assert (prefixed_at (encode_entry e) = Some ((entry_pair e).1, PutLengthPrefixedSlice [] (e_value e))) as ->.
  { unfold encode_entry. apply prefixed_at_bytes; [apply (internal_short C), He|].
    apply PutLengthPrefixedSlice_bytes, He. }
  cbn [or_ub]. rewrite !bind_ret. cbn [snd fst]. rewrite prefixed_at_bytes_end by apply He.
  by destruct m.
Qed.

(** The keys before a target, counted in the list and in the table. *)
Lemma keys_before_entries ks u n :
  Forall (entry_ok C) ks -> key_ok C u -> 0 <= n < 2 ^ 64 ->
  keys_before (InternalKeyComparator C) (internal u n) (entry_pair <$> ks) =
  length (List.filter (fun a => entry_compare C a (EncodeKey (internal u n)) <? 0) (encode_entry <$> ks)).
Proof.
  intros Hks Hu Hn. unfold keys_before. rewrite filter_fmap_ks, length_fmap.
  induction Hks as [|e ks He _ IH]; [done|]. rewrite fmap_cons. cbn [List.filter].
  assert (@Compare (InternalKeyComparator C) (entry_pair e).1 (internal u n) =
          Some (entry_compare C (encode_entry e) (EncodeKey (internal u n)))) as ->.
  { unfold entry_pair, encode_entry. cbn [fst].
    change (EncodeKey (internal u n)) with (PutLengthPrefixedSlice [] (internal u n)).
    replace (PutLengthPrefixedSlice [] (internal u n)) with (PutLengthPrefixedSlice [] (internal u n) ++ [])
      by apply app_nil_r.
    apply (entry_compare_internal C); try done; try apply He; [by apply (e_number_range C)|].
    apply PutLengthPrefixedSlice_bytes, He. }
  destruct (_ <? 0); [cbn [length]; by rewrite IH|done].
Qed.

(** Entries in the order of their internal keys. *)
Record internal_sorted (ks : list Entry) : Prop := mk_internal_sorted {
  sorted_ok : Forall (entry_ok C) ks;
  sorted_internal : @sorted_entries (InternalKeyComparator C) (InternalKeyComparator_laws C) (entry_pair <$> ks)
}.

Lemma StronglySorted_at {A} (R : A -> A -> Prop) l i j a b :
  StronglySorted R l -> l !! i = Some a -> l !! j = Some b -> (i < j)%nat -> R a b.
Proof.
  intros Hl. revert i j. induction Hl as [|x l _ IH Hx]; intros i j Hi Hj Hij; [done|].
  destruct i as [|i], j as [|j]; [lia| |lia|by apply (IH i j); [..|lia]].
  injection Hi as <-. exact (Forall_lookup_1 _ _ _ _ Hx Hj).
Qed.

Lemma represents_internal_sorted t ks :
  represents (entry_compare C) (good_entry C) t (encode_entry <$> ks) -> Forall (entry_ok C) ks -> internal_sorted ks.
Proof.
  intros HR Ho. apply represents_sorted in HR. split; [done|]. split.
  - intros e (e' & -> & He)%list_elem_of_fmap. rewrite Forall_forall in Ho. pose proof (Ho e' He) as Hok.
    exists (e_key e'), (e_number e'). split; [done|]. split; [apply Hok|by apply (e_number_range C)].
  - intros i j a b Hi Hj Hij. apply list_lookup_fmap_Some in Hi as (x & -> & Hx).
    apply list_lookup_fmap_Some in Hj as (y & -> & Hy).
    pose proof (StronglySorted_at _ _ i j (encode_entry x) (encode_entry y) HR
      ltac:(by rewrite list_lookup_fmap, Hx) ltac:(by rewrite list_lookup_fmap, Hy) Hij) as Hlt.
    pose proof (Forall_lookup_1 _ _ _ _ Ho Hx) as Hxo. pose proof (Forall_lookup_1 _ _ _ _ Ho Hy) as Hyo.
    unfold TwoLevelProof.before, entry_pair. cbn [fst]. rewrite (entry_compare_internal C _ _ (PutLengthPrefixedSlice [] (e_value x))
      _ _ (PutLengthPrefixedSlice [] (e_value y))); try (apply PutLengthPrefixedSlice_bytes); try apply Hxo; try apply Hyo;
      try (by apply (e_number_range C)). by apply Z.ltb_lt.
Qed.

Lemma memtable_cursor m es :
  mem_holds C m es ->
  exists ks pos, ks ≡ₚ es /\ internal_sorted ks /\
    cursor_over MemTable_Iterator (InternalKeyComparator C) internal_target (entry_pair <$> ks) pos /\
    pos (length ks) (MemTable_NewIterator m).
Proof.
  intros (ks & HR & HP & Ho & _). assert (Forall (entry_ok C) ks) as Hks by (by rewrite HP).
  destruct (represents_walk (entry_compare C) (good_entry C) (table_ m) _ HR) as
    (ids & Hlen & Hfirst & Hlast & Hwalk & Hseek). rewrite length_fmap in Hlen.
  exists ks, (fun i s => mi_table s = m /\ mi_node s = ids !! i). split; [done|].
  split; [by eapply represents_internal_sorted|].
  split; [|split; [done|]; cbn [mi_node MemTable_NewIterator]; by rewrite lookup_ge_None_2 by lia].
  assert (forall i k v, (entry_pair <$> ks) !! i = Some (k, v) ->
    exists e, ks !! i = Some e /\ (k, v) = entry_pair e /\ (encode_entry <$> ks) !! i = Some (encode_entry e))
    as Hentry.
  { intros i k v Hi. apply list_lookup_fmap_Some in Hi as (e & Hx & He). exists e. split; [done|].
    split; [done|]. by rewrite list_lookup_fmap, He. }
  assert (forall i, (i < length (entry_pair <$> ks))%nat -> exists k v, (entry_pair <$> ks) !! i = Some (k, v))
    as Htotal.
  { intros i Hi. destruct (lookup_lt_is_Some_2 _ _ Hi) as [[k v] E]. by exists k, v. }
  split; cbn [it_Valid it_key it_value it_status it_SeekToFirst it_SeekToLast it_Seek it_Next it_Prev MemTable_Iterator].
  - intros i [t node] k v [Ht Hn] Hi. cbn [mi_table mi_node] in *. subst t node.
    destruct (Hentry i k v Hi) as (e & He & Hkv & Henc). destruct (Hwalk i _ Henc) as (Ek & _).
    destruct (entry_read e m (ids !! i)) as [Hk Hv]; [by eapply Forall_lookup_1|done|].
    injection Hkv as -> ->. split; [|by split].
    unfold MemTableIterator_Valid, Iterator_Valid. apply bool_decide_eq_true_2, lookup_lt_is_Some.
    apply lookup_lt_Some in He. lia.
  - intros i s [_ ->] Hi. rewrite length_fmap in Hi. by rewrite lookup_ge_None_2 by lia.
  - done.
  - intros i [t node] [Ht _]. cbn [mi_table] in Ht. subst t.
    eexists. split; [by apply mi_move_ok|]. by split.
  - intros i [t node] [Ht _]. cbn [mi_table] in Ht. subst t.
    eexists. split; [by apply mi_move_ok|]. split; [done|]. cbn [mi_node].
    by rewrite last_lookup, length_fmap, Hlen.
  - intros i [t node] target [Ht _] (u & n & -> & Hu & Hn). cbn [mi_table] in Ht. subst t.
    eexists. split; [apply mi_move_ok, Hseek|].
    { exists u, n, []. rewrite app_nil_r. by repeat split; try apply Hu; try apply Hn. }
    split; [done|]. cbn [mi_node]. by rewrite keys_before_entries.
  - intros i [t node] [Ht Hn] Hi. cbn [mi_table mi_node] in *. subst t node.
    destruct (Htotal i Hi) as (k & v & Hkv). destruct (Hentry i k v Hkv) as (e & _ & _ & Henc).
    destruct (Hwalk i _ Henc) as (_ & En & _). eexists. split; [by apply mi_move_ok|]. by split.
  - intros i [t node] [Ht Hn] Hi. cbn [mi_table mi_node] in *. subst t node.
    destruct (Htotal i Hi) as (k & v & Hkv). destruct (Hentry i k v Hkv) as (e & _ & _ & Henc).
    destruct (Hwalk i _ Henc) as (_ & _ & Ep). eexists. split; [apply mi_move_ok, Ep|].
    split; [done|]. cbn [mi_node]. destruct i as [|j]; [|done].
    by rewrite lookup_ge_None_2 by (rewrite length_fmap; lia).
Qed.

(** C33: The iterator of a memtable is a cursor over the entries that have been
    added, in the order of their internal keys. *)
Theorem memtable_iterator_is_cursor m es :
  mem_holds C m es ->
  exists ks pos, ks ≡ₚ es /\ internal_sorted ks /\
    cursor_over MemTable_Iterator (InternalKeyComparator C) internal_target (entry_pair <$> ks) pos /\
    pos (length ks) (MemTable_NewIterator m).
Proof. apply memtable_cursor. Qed.

End iterator.

(** Two moves of the iterator of the sample memtable: to the first entry, the
    deletion of [a], and on to its older value. *)
Lemma memtable_iterator_is_cursor_witness :
  exists ks pos, ks ≡ₚ sample_entries /\ internal_sorted BytewiseComparator ks /\
    cursor_over (MemTable_Iterator BytewiseComparator) (InternalKeyComparator BytewiseComparator)
      (internal_target BytewiseComparator) (entry_pair <$> ks) pos /\
    pos (length ks) (MemTable_NewIterator sample_memtable).
Proof.
  exact (memtable_iterator_is_cursor BytewiseComparator sample_memtable sample_entries sample_memtable_holds).
Defined.
