(* ===== verification/Arena.v ===== *)
(** * The arena (arena.h, arena.cc)

    Memory is handed out from the front of a block; a request that does not fit
    gets a new block, or a block of its own when it is large.  [new char[n]] is the
    class [NewArray], its laws are [NewArrayLaws]. *)

From Stdlib Require Import ZArith Lia.
From stdpp Require Import base option list strings gmap.
From S2P Require Import Prelude Memory.

Definition kBlockSize : Z := 4096.

(** An address range: where it starts and how long it is. *)
Abbreviation range := (Z * Z)%type.

(** Where [new char[n]] puts an array, given all arrays that are in use; [None]
    when it throws. *)
Class NewArray := { new_array : list range -> Z -> option Z }.

Definition apart (r s : range) : Prop := r.1 + r.2 <= s.1 \/ s.1 + s.2 <= r.1.

Definition inside (r s : range) : Prop := s.1 <= r.1 /\ r.1 + r.2 <= s.1 + s.2.

(** An array does not overlap those in use, it lies in the address space, not at
    null, and it is aligned for every type. *)
Class NewArrayLaws `{!Platform} `{!NewArray} := {
  new_array_apart used n p : 0 <= n -> new_array used n = Some p -> Forall (apart (p, n)) used;
  new_array_range used n p : 0 <= n -> new_array used n = Some p -> 0 < p /\ p + n <= 2 ^ size_bits;
  new_array_aligned used n p : new_array used n = Some p -> p mod 8 = 0
}.

(** The members, and the arrays in use by this arena and others ([used]), which
    the allocator knows. *)
Record Arena := mk_arena {
  alloc_ptr_ : Z;
  alloc_bytes_remaining_ : Z;
  blocks_ : list Z;
  blocks_memory_ : Z;
  used : list range
}.

Section arena.
Context {PL : Platform} {NA : NewArray}.

Definition new_Arena (others : list range) : Arena := mk_arena 0 0 [] 0 others.

(** The estimate depends on the [capacity] the vector of blocks has. *)
Definition MemoryUsage (capacity : list Z -> Z) (a : Arena) : Z :=
  usize (blocks_memory_ a + usize (capacity (blocks_ a) * ptr_size)).

(** Nothing is changed when [new] throws. *)
Definition AllocateNewBlock (block_bytes : Z) : M Arena Z :=
  let! array := gets (fun a => new_array (used a) block_bytes) in
  let! result := match array with Some p => ret p | None => fail end in
  modify (fun a => mk_arena (alloc_ptr_ a) (alloc_bytes_remaining_ a) (blocks_ a ++ [result])
                     (usize (blocks_memory_ a + block_bytes)) ((result, block_bytes) :: used a)) ;;;
  ret result.

Definition set_alloc (ptr remaining : Z) : M Arena unit :=
  modify (fun a => mk_arena ptr remaining (blocks_ a) (blocks_memory_ a) (used a)).

Definition AllocateFallback (bytes : Z) : M Arena Z :=
  if kBlockSize / 4 <? bytes then AllocateNewBlock bytes
  else
    let! block := AllocateNewBlock kBlockSize in
    set_alloc block kBlockSize ;;;
    let! result := gets alloc_ptr_ in
    let! remaining := gets alloc_bytes_remaining_ in
    set_alloc (result + bytes) (remaining - bytes) ;;;
    ret result.

Definition Allocate (bytes : Z) : M Arena Z :=
  assert_ (0 <? bytes) ;;;
  let! remaining := gets alloc_bytes_remaining_ in
  if bytes <=? remaining then
    let! result := gets alloc_ptr_ in
    set_alloc (result + bytes) (remaining - bytes) ;;;
    ret result
  else AllocateFallback bytes.

Definition align : Z := if 8 <? ptr_size then ptr_size else 8.

Definition AllocateAligned (bytes : Z) : M Arena Z :=
  assert_ (Z.land align (align - 1) =? 0) ;;;
  let! ptr := gets alloc_ptr_ in
  let current_mod := Z.land ptr (align - 1) in
  let slop := if current_mod =? 0 then 0 else align - current_mod in
  let needed := usize (bytes + slop) in
  let! remaining := gets alloc_bytes_remaining_ in
  let! result :=
    if needed <=? remaining then
      set_alloc (ptr + needed) (remaining - needed) ;;;
      ret (ptr + slop)
    else AllocateFallback bytes in
  assert_ (Z.land result (align - 1) =? 0) ;;;
  ret result.

(** A user's requests: whether the memory is to be aligned, and its size. *)
Definition allocate (request : bool * Z) : M Arena Z :=
  if request.1 then AllocateAligned request.2 else Allocate request.2.

Fixpoint allocate_all (requests : list (bool * Z)) : M Arena (list Z) :=
  match requests with
  | [] => ret []
  | r :: requests =>
      let! p := allocate r in
      let! ps := allocate_all requests in
      ret (p :: ps)
  end.

(** ** What an arena hands out *)

Lemma align_eq : align = 8.
Proof. unfold align. destruct ptr_size_cases as [->| ->]; done. Qed.

Lemma land_7 x : Z.land x (8 - 1) = x mod 8.
Proof. change (8 - 1) with (Z.ones 3). by rewrite Z.land_ones by lia. Qed.

Context {NL : NewArrayLaws}.

(** The rest of the current block. *)
Definition rest (a : Arena) : range := (alloc_ptr_ a, alloc_bytes_remaining_ a).

(** [given] are the ranges that have been handed out: they, the rest of the current
    block and the arrays of [others] do not overlap, and all lie in arrays that are
    in use. *)
Record arena_inv (a : Arena) (others given : list range) : Prop := mk_arena_inv {
  inv_rest_range : 0 <= (rest a).1 /\ 0 <= (rest a).2 /\ (rest a).1 + (rest a).2 <= 2 ^ size_bits;
  inv_rest_used : (rest a).2 = 0 \/ exists b, b ∈ used a /\ inside (rest a) b;
  inv_rest_apart : (rest a).2 = 0 \/ Forall (apart (rest a)) (given ++ others);
  inv_given : Forall (fun r => exists b, b ∈ used a /\ inside r b) (given ++ others);
  inv_given_apart : ForallOrdPairs apart given;
  inv_given_others : Forall (fun r => Forall (apart r) others) given
}.

Lemma arena_inv_new others : arena_inv (new_Arena others) others [].
Proof.
  pose proof size_bits_bound. split; cbn; try (by left); try constructor; try lia.
  apply Forall_forall. intros r Hr. exists r. split; [done|]. split; lia.
Qed.

Lemma apart_inside r s t : apart r s -> inside t s -> apart r t.
Proof. unfold apart, inside. lia. Qed.

Lemma apart_flip r s : apart r s -> apart s r.
Proof. unfold apart. lia. Qed.

Lemma apart_all_inside r t l : Forall (apart r) l -> inside t r -> Forall (apart t) l.
Proof.
  intros H Hi. eapply Forall_impl; [exact H|]. intros s Hs.
  apply apart_flip, (apart_inside s r t); [by apply apart_flip|done].
Qed.

(** [n] bytes from the front of the rest, behind [slop] bytes that are left out. *)
Lemma take_front a others given slop n :
  arena_inv a others given -> 0 <= slop -> 0 < n -> slop + n <= (rest a).2 ->
  arena_inv (mk_arena ((rest a).1 + (slop + n)) ((rest a).2 - (slop + n)) (blocks_ a) (blocks_memory_ a) (used a))
    others (((rest a).1 + slop, n) :: given).
Proof.
  intros [Hr [Hz|(b & Hb & Hin)] Ha Hg Hd Ho] Hs Hn Hle; [lia|].
  destruct Ha as [Hz|Ha]; [lia|].
  assert (inside ((rest a).1 + slop, n) (rest a)) as I1 by (unfold inside; cbn [fst snd]; lia).
  assert (inside ((rest a).1 + (slop + n), (rest a).2 - (slop + n)) (rest a)) as I2
    by (unfold inside; cbn [fst snd]; lia).
  unfold rest in *. cbn [fst snd alloc_ptr_ alloc_bytes_remaining_ used] in *.
  pose proof (apart_all_inside _ _ _ Ha I1) as A1. pose proof (apart_all_inside _ _ _ Ha I2) as A2.
  apply Forall_app in A1 as [A1 A1o]. split; cbn [used app].
  - cbn. lia.
  - right. exists b. split; [done|]. unfold inside in *. cbn [fst snd] in *. cbn. lia.
  - right. constructor; [|done]. unfold apart. cbn. lia.
  - constructor; [|done]. exists b. split; [done|]. unfold inside in *. cbn [fst snd] in *. lia.
  - by constructor.
  - by constructor.
Qed.

(** What a request takes from the current block, the bytes for the alignment included,
    and the array that is asked of [new] when they are not there. *)
Definition needs (a : Arena) (request : bool * Z) : Z :=
  request.2 + (if request.1 then (if alloc_ptr_ a mod 8 =? 0 then 0 else 8 - alloc_ptr_ a mod 8) else 0).

Definition array_size (n : Z) : Z := if 1024 <? n then n else kBlockSize.

(** [new] has thrown: it had no array for a request that did not fit. *)
Definition refused (requests : list (bool * Z)) (a : Arena) : Prop :=
  exists r, r ∈ requests /\ (rest a).2 < needs a r /\ new_array (used a) (array_size r.2) = None.

Lemma refused_in rs rs' a : rs ⊆ rs' -> refused rs a -> refused rs' a.
Proof. intros Hs (r & Hr & H). exists r. split; [by apply Hs|done]. Qed.

(** A new array overlaps nothing. *)
Lemma new_block_inv a others given n :
  arena_inv a others given -> 0 <= n ->
  wp (AllocateNewBlock n) (fun p a' =>
    rest a' = rest a /\ used a' = (p, n) :: used a /\ arena_inv a' others given /\
    Forall (apart (p, n)) (given ++ others) /\ ((rest a).2 = 0 \/ apart (rest a) (p, n)) /\
    0 < p /\ p + n <= 2 ^ size_bits /\ p mod 8 = 0) (fun a' => a' = a /\ new_array (used a) n = None) a.
Proof.
  intros [Hr Hu Ha Hg Hd Ho] Hn. unfold AllocateNewBlock, wp. rewrite bind_gets.
  destruct (new_array (used a) n) as [p|] eqn:E; [|done].
  rewrite bind_ret, bind_modify. unfold ret.
  pose proof (new_array_apart _ _ _ Hn E) as Hb. rewrite Forall_forall in Hb.
  split; [done|]. split; [done|]. split; [|split; [|split]].
  - split; try done.
    + destruct Hu as [?|(c & Hc & ?)]; [by left|right]. exists c. split; [by right|done].
    + eapply Forall_impl; [exact Hg|]. cbn. intros r (c & Hc & ?). exists c. split; [by right|done].
  - eapply Forall_impl; [exact Hg|]. cbn. intros r (c & Hc & Hi). by apply (apart_inside (p, n) c); [apply Hb|].
  - destruct Hu as [?|(c & Hc & Hi)]; [by left|right].
    apply apart_flip, (apart_inside (p, n) c); [by apply Hb|done].
  - destruct (new_array_range _ _ _ Hn E). pose proof (new_array_aligned _ _ _ E). done.
Qed.

(** A block of its own. *)
Lemma own_block a a' others given p n :
  arena_inv a' others given -> rest a' = rest a -> used a' = (p, n) :: used a ->
  Forall (apart (p, n)) (given ++ others) -> (rest a).2 = 0 \/ apart (rest a) (p, n) ->
  arena_inv a' others ((p, n) :: given).
Proof.
  intros [Hr Hu Ha Hg Hd Ho] Hrest Hused [Hb1 Hb2]%Forall_app Hapart.
  split; rewrite ?Hrest in *; try done; cbn [app].
  - destruct Ha as [?|Ha]; [by left|]. destruct Hapart as [?|Hapart]; [by left|]. right. by constructor.
  - constructor; [|done]. rewrite Hused. eexists. split; [by left|]. unfold inside. cbn. lia.
  - by constructor.
  - by constructor.
Qed.

(** What an allocation of [n] bytes promises. *)
Definition allocated (others given : list range) (n p : Z) (a : Arena) : Prop :=
  arena_inv a others ((p, n) :: given).

Lemma AllocateFallback_ok a others given n :
  arena_inv a others given -> 0 < n ->
  wp (AllocateFallback n) (fun p a' => allocated others given n p a' /\ p mod 8 = 0)
    (fun a' => a' = a /\ new_array (used a) (array_size n) = None) a.
Proof.
  intros Hi Hn. unfold AllocateFallback, array_size. change (kBlockSize / 4) with 1024.
  destruct (Z.ltb_spec 1024 n) as [Hl|Hl].
  - eapply wp_mono; [apply (new_block_inv a others given n Hi ltac:(lia))| |done].
    cbn. intros p a' (Hrest & Hused & Hi' & Hb & Hr & _ & _ & Hal). split; [|done]. by apply (own_block a).
  - apply wp_bind. eapply wp_mono; [apply (new_block_inv a others given kBlockSize Hi ltac:(done))| |done].
    cbn beta. intros b a' (Hrest & Hused & Hi' & Hb & Hr & Hp & He & Hal).
    unfold wp, set_alloc. rewrite bind_modify, !bind_gets, bind_modify.
    cbn [alloc_ptr_ alloc_bytes_remaining_].
    change kBlockSize with 4096 in *.
    assert (arena_inv (mk_arena b 4096 (blocks_ a') (blocks_memory_ a') (used a')) others given) as Hi2.
    { destruct Hi' as [Hr' Hu' Ha' Hg' Hd' Ho']. split; unfold rest;
        cbn [alloc_ptr_ alloc_bytes_remaining_ used fst snd]; try done; [lia| |by right].
      right. rewrite Hused. eexists. split; [by left|]. unfold inside. cbn. lia. }
    pose proof (take_front _ others given 0 n Hi2 ltac:(lia) Hn) as Ht. unfold rest in Ht.
    cbn [alloc_ptr_ alloc_bytes_remaining_ blocks_ blocks_memory_ used fst snd] in Ht.
    rewrite Z.add_0_r in Ht. change (0 + n) with n in Ht. unfold ret. split; [apply Ht; lia|done].
Qed.

(** The round up to the next multiple of eight. *)
Lemma slop_aligns p :
  let slop := if p mod 8 =? 0 then 0 else 8 - p mod 8 in 0 <= slop < 8 /\ (p + slop) mod 8 = 0.
Proof.
  pose proof (Z.mod_pos_bound p 8 ltac:(lia)).
  destruct (Z.eqb_spec (p mod 8) 0) as [E|E]; cbv zeta; [rewrite Z.add_0_r; lia|].
  split; [lia|]. symmetry. apply Z.mod_unique with (p / 8 + 1); [lia|].
  pose proof (Z.div_mod p 8 ltac:(lia)). lia.
Qed.

(** Both requests return memory that is apart from all that was handed out. *)
Lemma allocate_ok a others given r :
  arena_inv a others given -> 0 < r.2 -> r.2 + 8 <= 2 ^ size_bits ->
  wp (allocate r) (fun p a' => allocated others given r.2 p a' /\ (r.1 = true -> p mod 8 = 0)) (refused [r]) a.
Proof.
  intros Hi Hn Hmax. destruct r as [aligned n]. cbn [fst snd] in *. unfold allocate. cbn [fst snd].
  destruct (inv_rest_range _ _ _ Hi) as (Hp & Hr & He). unfold rest in Hp, Hr, He. cbn [fst snd] in *.
  pose proof (fun slop H => take_front a others given slop n Hi H Hn) as Ht. unfold rest in Ht. cbn [fst snd] in Ht.
  pose proof (AllocateFallback_ok a others given n Hi Hn) as Hf. destruct aligned.
  - unfold AllocateAligned, wp. rewrite align_eq, bind_assert by done. rewrite !bind_gets, land_7.
    destruct (slop_aligns (alloc_ptr_ a)) as [Hslop Hal]. cbv zeta.
    set (slop := if alloc_ptr_ a mod 8 =? 0 then 0 else 8 - alloc_ptr_ a mod 8) in *.
    rewrite usize_small by lia. destruct (Z.leb_spec (n + slop) (alloc_bytes_remaining_ a)).
    + unfold set_alloc. rewrite bind_assoc, bind_modify, bind_ret, land_7, bind_assert by (by rewrite Hal).
      unfold ret. split; [|done]. rewrite (Z.add_comm n). apply Ht; lia.
    + unfold wp in Hf. unfold bind at 1. destruct (AllocateFallback n a) as [q a'|a'| |]; try done.
      * destruct Hf as [Ha Hq]. rewrite land_7, bind_assert by (by rewrite Hq). done.
      * destruct Hf as [-> Hnone]. exists (true, n). split; [by left|]. unfold needs. cbn [fst snd rest]. split; [lia|done].
  - unfold Allocate, wp. rewrite bind_assert by (by apply Z.ltb_lt). rewrite bind_gets.
    destruct (Z.leb_spec n (alloc_bytes_remaining_ a)).
    + rewrite bind_gets. unfold set_alloc. rewrite bind_modify. unfold ret. split; [|done].
      specialize (Ht 0 ltac:(lia)). rewrite Z.add_0_r in Ht. apply Ht. lia.
    + eapply wp_mono; [exact Hf| |].
      * cbn. by intros q a' [? _].
      * cbn beta. intros a' [-> Hnone]. exists (false, n). split; [by left|]. unfold needs. cbn [fst snd rest]. split; [lia|done].
Qed.

Lemma apart_snoc l x :
  ForallOrdPairs apart l -> Forall (apart x) l -> ForallOrdPairs apart (l ++ [x]).
Proof.
  induction 1 as [|y l Hy _ IH]; intros Hx; cbn [app]; [by repeat constructor|].
  apply Forall_cons in Hx as [Hxy Hx]. constructor; [|by apply IH].
  apply Forall_app. split; [done|]. apply Forall_singleton. by apply apart_flip.
Qed.

Lemma apart_reverse l : ForallOrdPairs apart l -> ForallOrdPairs apart (reverse l).
Proof.
  induction 1 as [|x l Hx _ IH]; [constructor|]. rewrite reverse_cons.
  apply apart_snoc; [done|by apply Forall_reverse].
Qed.

(** C34: Every request to an arena is served, unless [new] throws: the arena fails only
    when a request does not fit into what is left of its block, and [new] has no array
    of the size that is then asked for, a block, or what is requested if that is more
    than a quarter of a block.  The memory handed out never overlaps memory handed out
    before, nor arrays that others use, it lies in arrays the arena has allocated, and
    it is aligned when that was asked for. *)
Theorem arena_hands_out others requests :
  Forall (fun r => 0 < r.2 /\ r.2 + 8 <= 2 ^ size_bits) requests ->
  wp (allocate_all requests) (fun ps a =>
    let given := zip ps (snd <$> requests) in
    length ps = length requests /\ ForallOrdPairs apart given /\
    Forall (fun r => Forall (apart r) others) given /\
    Forall (fun r => exists b, b ∈ used a /\ inside r b) given /\
    Forall2 (fun r p => r.1 = true -> p mod 8 = 0) requests ps) (refused requests) (new_Arena others).
Proof.
  intros Hreq.
  assert (forall a given, arena_inv a others given ->
    wp (allocate_all requests) (fun ps a' =>
      length ps = length requests /\
      arena_inv a' others (reverse (zip ps (snd <$> requests)) ++ given) /\
      Forall2 (fun r p => r.1 = true -> p mod 8 = 0) requests ps) (refused requests) a) as Hgen.
  { induction Hreq as [|r requests [Hn Hmax] _ IH]; intros a given Hi; cbn [allocate_all]; [done|].
    apply wp_bind. eapply wp_mono; [by apply (allocate_ok a others given)| |].
    2: { intros a'. apply refused_in. intros x Hx%list_elem_of_singleton. rewrite Hx. by left. }
    cbn beta. intros p a1 [H1 Hal].
    apply wp_bind. eapply wp_mono; [apply (IH a1 ((p, r.2) :: given) H1)| |].
    2: { intros a'. apply refused_in. intros x Hx. by right. }
    cbn beta. intros ps a2 (Hl & H2 & Hals). apply wp_ret.
    split; [cbn; by rewrite Hl|]. split; [|by constructor].
    rewrite fmap_cons. cbn [zip zip_with]. by rewrite reverse_cons, <- app_assoc. }
  eapply wp_mono; [apply (Hgen _ _ (arena_inv_new others))| |done].
  cbn zeta. intros ps a (Hl & Hi & Hal). rewrite app_nil_r in Hi.
  destruct Hi as [_ _ _ Hg Hd Ho]. set (given := zip ps (snd <$> requests)) in *.
  apply Forall_app in Hg as [Hg _]. apply Forall_reverse in Hg, Ho. rewrite reverse_involutive in Hg, Ho.
  split; [done|]. split; [|done]. rewrite <- (reverse_involutive given). by apply apart_reverse.
Qed.

End arena.

(** ** An instance: an allocator that never reuses memory *)

Section bump.
Context {PL : Platform}.

Definition top (used : list range) : Z := foldr (fun r m => Z.max (r.1 + r.2) m) 1 used.

Definition bump_new (used : list range) (n : Z) : option Z :=
  let p := (top used + 7) / 8 * 8 in if p + n <=? 2 ^ size_bits then Some p else None.

#[local] Instance bump : NewArray := {| new_array := bump_new |}.

Lemma top_above used r : r ∈ used -> r.1 + r.2 <= top used.
Proof.
  induction used as [|s used IH]; [by intros ?%elem_of_nil|].
  change (top (s :: used)) with (Z.max (s.1 + s.2) (top used)).
  intros [->|H]%elem_of_cons; [lia|]. specialize (IH H). lia.
Qed.

Lemma top_pos used : 1 <= top used.
Proof.
  induction used as [|r used IH]; [done|].
  change (top (r :: used)) with (Z.max (r.1 + r.2) (top used)). lia.
Qed.

Lemma bump_new_eq used n p :
  bump_new used n = Some p -> top used <= p /\ 0 < p /\ p mod 8 = 0 /\ p + n <= 2 ^ size_bits.
Proof.
  unfold bump_new. pose proof (top_pos used).
  pose proof (Z.div_mod (top used + 7) 8 ltac:(lia)). pose proof (Z.mod_pos_bound (top used + 7) 8 ltac:(lia)).
  match goal with |- context [?x <=? ?y] => destruct (Z.leb_spec x y); [|done] end.
  intros [= <-]. rewrite Z.mod_mul by lia. lia.
Qed.

#[local] Program Instance bump_laws : NewArrayLaws.
Next Obligation.
  intros used n p Hn (Ht & _)%bump_new_eq. apply Forall_forall. intros r Hr.
  pose proof (top_above used r Hr). right. cbn. lia.
Qed.
Next Obligation. intros used n p _ (_ & ? & _ & ?)%bump_new_eq. done. Qed.
Next Obligation. by intros used n p (_ & _ & ? & _)%bump_new_eq. Qed.

End bump.

Definition ios64 : Platform := {| size_bits := 64; size_bits_cases := or_intror eq_refl |}.

Definition sample_requests : list (bool * Z) := [(false, 5); (true, 16); (false, 5000)].

(** The requests are served: this allocator has what is asked of it. *)
Lemma arena_hands_out_witness :
  exists ps a, @allocate_all ios64 (@bump ios64) sample_requests (new_Arena [(100, 50)]) = Ok ps a /\
    let given := zip ps [5; 16; 5000] in
    length ps = 3%nat /\ ForallOrdPairs apart given /\
    Forall (fun r => Forall (apart r) [(100, 50)]) given /\
    Forall (fun r => exists b, b ∈ used a /\ inside r b) given /\
    Forall2 (fun r p => r.1 = true -> p mod 8 = 0) sample_requests ps.
Proof.
  pose proof (@arena_hands_out ios64 (@bump ios64) (@bump_laws ios64) [(100, 50)] sample_requests
    ltac:(repeat constructor; done)) as H.
  assert (exists ps a, @allocate_all ios64 (@bump ios64) sample_requests (new_Arena [(100, 50)]) = Ok ps a) as (ps & a & E)
    by (eexists _, _; vm_compute; reflexivity).
  unfold wp in H. rewrite E in H. by exists ps, a.
Defined.

(** With an allocator that has one array only, the second request fails. *)
#[local] Instance one_block_new : NewArray := {| new_array used n := match used with [] => Some 4096 | _ => None end |}.

Example one_block_fails :
  match @allocate_all ios64 one_block_new [(false, 4000); (false, 90); (true, 50)] (new_Arena []) with
  | Err a => used a = [(4096, 4000)]
  | _ => False
  end.
Proof. by vm_compute. Qed.

Example bump_serves :
  match @allocate_all ios64 (@bump ios64) sample_requests (new_Arena [(100, 50)]) with
  | Ok ps a => ps = [152; 160; 4248] /\ alloc_bytes_remaining_ a = 4072
  | _ => False
  end.
Proof. by vm_compute. Qed.
