(* ===== verification/Block.v ===== *)
(** * Blocks of a table (block_builder.h, block_builder.cc, block.h, block.cc)

    A block stores entries in the order of their keys; every entry leaves out the
    bytes its key shares with the key before it, except at the restart points,
    whose offsets follow the entries.  The reader's iterator finds its way with
    these offsets. *)

From Stdlib Require Import ZArith Lia.
From stdpp Require Import base option list strings gmap.
From S2P Require Import Prelude Memory Wire Slice Coding Status Iterator.

(** ** The builder *)

Record BlockBuilder := mk_block_builder {
  buffer_ : Slice;
  restarts_ : list Z;
  counter_ : Z;
  finished_ : bool;
  last_key_ : Slice
}.

(** The first restart point is at offset 0. *)
Definition BlockBuilder_Reset : BlockBuilder := mk_block_builder [] [0] 0 false [].

Section builder.
Context (C : Comparator) (block_restart_interval : Z).

(** The constructor; [None] is the failed assertion. *)
Definition new_BlockBuilder : option BlockBuilder :=
  if 1 <=? block_restart_interval then Some BlockBuilder_Reset else None.

Definition CurrentSizeEstimate (b : BlockBuilder) : Z :=
  Z.of_nat (length (buffer_ b)) + Z.of_nat (length (restarts_ b)) * 4 + 4.

Definition BlockBuilder_empty (b : BlockBuilder) : bool := (length (buffer_ b) =? 0)%nat.

Definition BlockBuilder_Finish : M BlockBuilder Slice :=
  modify (fun b =>
    let buffer := foldl PutFixed32 (buffer_ b) (restarts_ b) in
    mk_block_builder (PutFixed32 buffer (u32 (Z.of_nat (length (restarts_ b)))))
      (restarts_ b) (counter_ b) true (last_key_ b)) ;;;
  gets buffer_.

(** An entry: what is shared with the key before, what is not, and the value. *)
Definition put_entry (dst : Slice) (shared : nat) (key value : Slice) : Slice :=
  let non_shared := (length key - shared)%nat in
  let dst := PutVarint32 dst (u32 (Z.of_nat shared)) in
  let dst := PutVarint32 dst (u32 (Z.of_nat non_shared)) in
  let dst := PutVarint32 dst (u32 (Z.of_nat (length value))) in
  (dst ++ drop shared key) ++ value.

Definition BlockBuilder_Add (key value : Slice) : M BlockBuilder unit :=
  let! b := gets id in
  let last_key_piece := last_key_ b in
  assert_ (negb (finished_ b)) ;;;
  assert_ (counter_ b <=? block_restart_interval) ;;;
  (if BlockBuilder_empty b then ret tt
   else let! c := or_ub (Compare key last_key_piece) in assert_ (0 <? c)) ;;;
  let '(shared, restarts, counter) :=
    if counter_ b <? block_restart_interval
    then (common_prefix last_key_piece key, restarts_ b, counter_ b)
    else (0%nat, restarts_ b ++ [u32 (Z.of_nat (length (buffer_ b)))], 0) in
  let last_key := take shared last_key_piece ++ drop shared key in
  assert_ (slice_eqb last_key key) ;;;
  modify (fun b => mk_block_builder (put_entry (buffer_ b) shared key value) restarts (counter + 1)
                     (finished_ b) last_key).

End builder.

(** ** Block *)

(** [size_] is 0 to mark an error; the offset is then not initialized. *)
Record Block := mk_block {
  data_ : Slice;
  size_ : nat;
  restart_offset_ : option Z
}.

Definition NumRestarts (data : Slice) (size : nat) : option Z :=
  if (4 <=? size)%nat then DecodeFixed32 (drop (size - 4) data) else None.

Definition new_Block (contents : Slice) : option Block :=
  let size := length contents in
  if (size <? 4)%nat then Some (mk_block contents 0 None)
  else
    let max_restarts_allowed := (Z.of_nat size - 4) / 4 in
    n ← NumRestarts contents size;
    if max_restarts_allowed <? n then Some (mk_block contents 0 None)
    else Some (mk_block contents size (Some (u32 (Z.of_nat size - u32 (1 + n) * 4)))).

(** [None] is the null pointer; else the three numbers and what is behind them, up
    to the limit. *)
Definition DecodeEntry (p : Slice) : option (Z * Z * Z * Slice) :=
  match p with
  | shared :: non_shared :: value_length :: q =>
      r ← (if Z.lor (Z.lor shared non_shared) value_length <? 128
           then Some (shared, non_shared, value_length, q)
           else
             s ← GetVarint32Ptr p;
             n ← GetVarint32Ptr s.2;
             v ← GetVarint32Ptr n.2;
             Some (s.1, n.1, v.1, v.2));
      let '(_, non_shared, value_length, rest) := r in
      if u32 (Z.of_nat (length rest)) <? u32 (non_shared + value_length) then None else Some r
  | _ => None
  end.

(** ** Block::Iter *)

(** [value_] is an offset in the data and a length, unless it has been cleared. *)
Record BlockIter := mk_block_iter {
  current_ : Z;
  restart_index_ : Z;
  key_ : Slice;
  value_ : option (Z * Z);
  status_ : Status
}.

(** What [NewIterator] makes; an iterator has its offset and number of restarts. *)
Inductive NewBlockIterator :=
  | ErrorIterator (s : Status)
  | NoEntries
  | BlockIterator (restarts num_restarts : Z) (it : BlockIter).

Definition new_Iter (restarts num_restarts : Z) : option BlockIter :=
  if 0 <? num_restarts then Some (mk_block_iter restarts num_restarts [] None Status_OK) else None.

Definition NewIterator (b : Block) : option NewBlockIterator :=
  if (size_ b <? 4)%nat then
    s ← Status_Corruption (c_string "bad block contents") []; Some (ErrorIterator s)
  else
    num_restarts ← NumRestarts (data_ b) (size_ b);
    if num_restarts =? 0 then Some NoEntries
    else
      restarts ← restart_offset_ b;
      it ← new_Iter restarts num_restarts;
      Some (BlockIterator restarts num_restarts it).

Section iter.
Context (C : Comparator) (data : Slice) (restarts num_restarts : Z).

Abbreviation IM := (M BlockIter).

Definition Iter_Valid (it : BlockIter) : bool := current_ it <? restarts.

Definition Iter_key : IM Slice :=
  let! it := gets id in assert_ (Iter_Valid it) ;;; ret (key_ it).

(** The bytes from [offset] on; [None] when there are fewer than [n]. *)
Definition bytes_at (offset n : Z) : option Slice :=
  let rest := drop (Z.to_nat offset) data in
  if n <=? Z.of_nat (length rest) then Some (take (Z.to_nat n) rest) else None.

Definition Iter_value : IM Slice :=
  let! it := gets id in
  assert_ (Iter_Valid it) ;;;
  let! v := or_ub (value_ it) in
  or_ub (bytes_at v.1 v.2).

Definition set_current (c : Z) : IM unit :=
  modify (fun it => mk_block_iter c (restart_index_ it) (key_ it) (value_ it) (status_ it)).
Definition set_restart_index (i : Z) : IM unit :=
  modify (fun it => mk_block_iter (current_ it) i (key_ it) (value_ it) (status_ it)).
Definition set_entry (key : Slice) (value : option (Z * Z)) : IM unit :=
  modify (fun it => mk_block_iter (current_ it) (restart_index_ it) key value (status_ it)).

Definition NextEntryOffset : IM Z :=
  let! v := gets value_ in let! v := or_ub v in ret (u32 (v.1 + v.2)).

Definition GetRestartPoint (index : Z) : IM Z :=
  assert_ (index <? num_restarts) ;;;
  or_ub (DecodeFixed32 (drop (Z.to_nat (restarts + index * 4)) data)).

Definition SeekToRestartPoint (index : Z) : IM unit :=
  set_restart_index index ;;;
  let! offset := GetRestartPoint index in
  set_entry [] (Some (offset, 0)).

(** Marks the iterator as invalid. *)
Definition invalidate : IM unit :=
  set_current restarts ;;; set_restart_index num_restarts.

Definition CorruptionError : IM unit :=
  invalidate ;;;
  let! s := or_ub (Status_Corruption (c_string "bad entry in block") []) in
  modify (fun it => mk_block_iter (current_ it) (restart_index_ it) [] None s).

(** The bytes from an offset to the limit, [data_ + restarts_]. *)
Definition up_to_limit (offset : Z) : Slice :=
  take (Z.to_nat (restarts - offset)) (drop (Z.to_nat offset) data).

(** Where [DecodeEntry] has stopped. *)
Definition entry_pointer (rest : Slice) : Z := restarts - Z.of_nat (length rest).

(** A round of the loop that keeps the index of the restart point up to date. *)
Definition follow_restarts (current : Z) (_ : unit) : IM (unit + unit) :=
  let! index := gets restart_index_ in
  if index + 1 <? num_restarts then
    let! point := GetRestartPoint (index + 1) in
    if point <? current then set_restart_index (index + 1) ;;; ret (inl tt)
    else ret (inr tt)
  else ret (inr tt).

Definition ParseNextKey : IM bool :=
  let! current := NextEntryOffset in
  set_current current ;;;
  if restarts <=? current then invalidate ;;; ret false
  else
    let! key := gets key_ in
    match DecodeEntry (up_to_limit current) with
    | Some (shared, non_shared, value_length, rest) =>
        if Z.of_nat (length key) <? shared then CorruptionError ;;; ret false
        else
          let p := entry_pointer rest in
          let! delta := or_ub (bytes_at p non_shared) in
          set_entry (take (Z.to_nat shared) key ++ delta) (Some (p + non_shared, value_length)) ;;;
          let! index := gets restart_index_ in
          loop (S (Z.to_nat (num_restarts - index))) (follow_restarts current) tt ;;;
          ret true
    | None => CorruptionError ;;; ret false
    end.

Definition Iter_Next : IM unit :=
  let! it := gets id in assert_ (Iter_Valid it) ;;; ParseNextKey ;;; ret tt.

(** [while (ParseNextKey() && again)]; the loop ends, for every entry takes at least
    three bytes. *)
Definition parse_while (again : IM bool) : IM unit :=
  loop (S (length data)) (fun _ =>
    let! more := ParseNextKey in
    if more : bool then
      let! b := again in ret (if b : bool then inl tt else inr tt)
    else ret (inr tt)) tt.

(** A round of the scan for a restart point before the entry at [original]; the
    result tells whether there is one. *)
Definition scan_back (original : Z) (_ : unit) : IM (unit + bool) :=
  let! index := gets restart_index_ in
  let! point := GetRestartPoint index in
  if original <=? point then
    if index =? 0 then invalidate ;;; ret (inr false)
    else set_restart_index (index - 1) ;;; ret (inl tt)
  else ret (inr true).

Definition Iter_Prev : IM unit :=
  let! it := gets id in
  assert_ (Iter_Valid it) ;;;
  let original := current_ it in
  let! found := loop (S (Z.to_nat (restart_index_ it))) (scan_back original) tt in
  if found : bool then
    let! index := gets restart_index_ in
    SeekToRestartPoint index ;;;
    parse_while (let! next := NextEntryOffset in ret (next <? original))
  else ret tt.

(** A round of the binary search; [None] when the block is found to be corrupt. *)
Definition search_round (target : Slice) : Z * Z -> IM (Z * Z + option Z) :=
  fun '(left_, right_) =>
    if left_ <? right_ then
      let mid := u32 (left_ + right_ + 1) / 2 in
      let! region_offset := GetRestartPoint mid in
      match DecodeEntry (up_to_limit region_offset) with
      | Some (shared, non_shared, _, rest) =>
          if negb (shared =? 0) then CorruptionError ;;; ret (inr None)
          else
            let! mid_key := or_ub (bytes_at (entry_pointer rest) non_shared) in
            let! c := or_ub (Compare mid_key target) in
            if c <? 0 then ret (inl (mid, right_)) else ret (inl (left_, mid - 1))
      | None => CorruptionError ;;; ret (inr None)
      end
    else ret (inr (Some left_)).

Definition Iter_Seek (target : Slice) : IM unit :=
  let! r := loop (S (Z.to_nat num_restarts)) (search_round target) (0, num_restarts - 1) in
  match r with
  | None => ret tt
  | Some left_ =>
      SeekToRestartPoint left_ ;;;
      parse_while (let! key := gets key_ in
                   let! c := or_ub (Compare key target) in ret (c <? 0))
  end.

Definition Iter_SeekToFirst : IM unit := SeekToRestartPoint 0 ;;; ParseNextKey ;;; ret tt.

Definition Iter_SeekToLast : IM unit :=
  SeekToRestartPoint (num_restarts - 1) ;;;
  parse_while (let! next := NextEntryOffset in ret (next <? restarts)).

Definition Block_Iter : Iterator BlockIter := {|
  it_Valid := Iter_Valid;
  it_SeekToFirst := Iter_SeekToFirst;
  it_SeekToLast := Iter_SeekToLast;
  it_Seek := Iter_Seek;
  it_Next := Iter_Next;
  it_Prev := Iter_Prev;
  it_key := Iter_key;
  it_value := Iter_value;
  it_status it := Some (status_ it)
|}.

End iter.
