(* ===== verification/BlockTheorems.v ===== *)
(** * Blocks are read back

    What the builder leaves in its buffer for a list of entries (where each entry
    starts, and which entries are restart points); that the iterator is a cursor
    over these entries; and the properties of both. *)

From Stdlib Require Import ZArith Lia Sorted.
From stdpp Require Import base option list strings sorting gmap.
From S2P Require Import Prelude Memory Wire Slice Coding Status Iterator WriteBatch Block.

(** The bytes of an entry that shares [shared] bytes with the key before it. *)
Definition entry_record (shared : nat) (k v : Slice) : Slice :=
  varint_bytes (Z.of_nat shared) ++ varint_bytes (Z.of_nat (length k - shared)) ++
  varint_bytes (Z.of_nat (length v)) ++ drop shared k ++ v.

(** The key before entry [i]. *)
Definition prev_key (kvs : list (Slice * Slice)) (i : nat) : Slice :=
  match i with O => [] | S j => match kvs !! j with Some kv => kv.1 | None => [] end end.

(** Entry [i], [(k, v)], is at [o] in [buf] and ends at [o']. *)
Definition entry_at (buf : Slice) (prev k v : Slice) (restart : Prop) (o o' : nat) : Prop :=
  exists shared post, drop o buf = entry_record shared k v ++ post /\
    o' = (o + length (entry_record shared k v))%nat /\ (o' <= length buf)%nat /\
    (shared <= length prev)%nat /\ (shared <= length k)%nat /\ take shared prev = take shared k /\
    (restart -> shared = 0%nat).

(** [offs] are the offsets of the entries and of the end, [rs] the indices of the
    entries that are restart points. *)
Record entries_laid (buf : Slice) (kvs : list (Slice * Slice)) (offs rs : list nat) : Prop := mk_entries_laid {
  el_length : length offs = S (length kvs);
  el_first : offs !! 0%nat = Some 0%nat;
  el_last : offs !! length kvs = Some (length buf);
  el_entry i k v : kvs !! i = Some (k, v) ->
    exists o o', offs !! i = Some o /\ offs !! S i = Some o' /\
                 entry_at buf (prev_key kvs i) k v (i ∈ rs) o o';
  el_restart : rs !! 0%nat = Some 0%nat;
  el_sorted : StronglySorted lt rs;
  el_bound : Forall (fun r => (r < length kvs)%nat \/ r = 0%nat) rs;
  el_bytes : Forall is_byte buf
}.

Lemma StronglySorted_lookup {A} (R : A -> A -> Prop) l i j x y :
  StronglySorted R l -> l !! i = Some x -> l !! j = Some y -> (i < j)%nat -> R x y.
Proof.
  intros Hs. revert i j. induction Hs as [|z l _ IH Hz]; intros i j Hi Hj Hij; [done|].
  destruct j as [|j]; [lia|]. destruct i as [|i].
  - injection Hi as ->. rewrite Forall_forall in Hz. apply Hz. by eapply list_elem_of_lookup_2.
  - apply (IH i j Hi Hj). lia.
Qed.

Lemma StronglySorted_by_index {A} (R : A -> A -> Prop) l :
  (forall i j x y, l !! i = Some x -> l !! j = Some y -> (i < j)%nat -> R x y) -> StronglySorted R l.
Proof.
  induction l as [|x l IH]; intros H; constructor.
  - apply IH. intros i j y z Hi Hj Hij. apply (H (S i) (S j)); [done|done|lia].
  - apply Forall_forall. intros y (j & Hj)%list_elem_of_lookup. apply (H 0%nat (S j)); [done|done|lia].
Qed.

(** The restart points as they are stored. *)
Definition restart_offsets (offs rs : list nat) (ws : list Z) : Prop :=
  Forall2 (fun r w => exists o, offs !! r = Some o /\ w = Z.of_nat o) rs ws.

Definition entry_size (kv : Slice * Slice) : Z := Z.of_nat (length kv.1) + Z.of_nat (length kv.2) + 19.

(** Room for the entries, at most four bytes of restart offset for each. *)
Definition entries_size (kvs : list (Slice * Slice)) : Z := foldr (fun kv n => entry_size kv + n) 0 kvs.

Lemma entries_size_cons kv kvs : entries_size (kv :: kvs) = entry_size kv + entries_size kvs.
Proof. done. Qed.

Lemma entry_size_pos kv : 19 <= entry_size kv.
Proof. unfold entry_size. lia. Qed.

Lemma entries_size_nonneg kvs : 0 <= entries_size kvs.
Proof.
  induction kvs as [|kv kvs IH]; [done|]. rewrite entries_size_cons. pose proof (entry_size_pos kv). lia.
Qed.

Lemma entries_size_app kvs kvs' : entries_size (kvs ++ kvs') = entries_size kvs + entries_size kvs'.
Proof.
  induction kvs as [|kv kvs IH]; [done|]. cbn [app]. rewrite !entries_size_cons, IH. lia.
Qed.

Lemma entries_size_snoc kvs k v :
  entries_size (kvs ++ [(k, v)]) = entries_size kvs + Z.of_nat (length k) + Z.of_nat (length v) + 19.
Proof.
  rewrite entries_size_app, entries_size_cons. unfold entry_size. cbn [fst snd entries_size foldr]. lia.
Qed.

Lemma prev_key_snoc kvs kv i : (i <= length kvs)%nat -> prev_key (kvs ++ [kv]) i = prev_key kvs i.
Proof.
  intros Hi. destruct i as [|j]; [done|]. cbn [prev_key]. by rewrite lookup_app_l by lia.
Qed.

Lemma entry_at_app buf x prev k v P Q o o' :
  entry_at buf prev k v P o o' -> (Q -> P) -> entry_at (buf ++ x) prev k v Q o o'.
Proof.
  intros (shared & post & Hd & -> & Hl & H1 & H2 & H3 & H4) HQ. exists shared, (post ++ x).
  rewrite drop_app_le by lia. rewrite Hd, <- app_assoc. rewrite length_app. repeat split; auto. lia.
Qed.

Lemma entry_record_bytes shared k v :
  Forall is_byte k -> Forall is_byte v -> Forall is_byte (entry_record shared k v).
Proof.
  intros Hk Hv. unfold entry_record. rewrite !Forall_app.
  repeat split; try (apply varint_bytes_bytes; lia); [by apply Forall_drop|done].
Qed.

Lemma entry_record_length shared k v :
  Z.of_nat (length k) < 2 ^ 32 -> Z.of_nat (length v) < 2 ^ 32 -> (shared <= length k)%nat ->
  (3 <= length (entry_record shared k v) <= 15 + length k + length v)%nat.
Proof.
  intros Hk Hv Hs. unfold entry_record. rewrite !length_app, length_drop.
  pose proof (varint_bytes_length (Z.of_nat shared)).
  pose proof (varint_bytes_length (Z.of_nat (length k - shared))).
  pose proof (varint_bytes_length (Z.of_nat (length v))).
  pose proof (varint_bytes_length_32 (Z.of_nat shared) ltac:(lia)).
  pose proof (varint_bytes_length_32 (Z.of_nat (length k - shared)) ltac:(lia)).
  pose proof (varint_bytes_length_32 (Z.of_nat (length v)) ltac:(lia)). lia.
Qed.

Lemma put_entry_eq dst shared k v :
  Z.of_nat (length k) < 2 ^ 32 -> Z.of_nat (length v) < 2 ^ 32 -> (shared <= length k)%nat ->
  put_entry dst shared k v = dst ++ entry_record shared k v.
Proof.
  intros Hk Hv Hs. unfold put_entry, entry_record, PutVarint32.
  rewrite !uwrap_small, !EncodeVarint32_eq by lia. by rewrite <- !app_assoc.
Qed.

(** What is shared is the same in both keys. *)
Lemma common_prefix_take a b :
  (common_prefix a b <= length a)%nat /\ (common_prefix a b <= length b)%nat /\
  take (common_prefix a b) a = take (common_prefix a b) b.
Proof.
  revert b. induction a as [|x a IH]; intros [|y b]; cbn [common_prefix length]; try (by repeat split; lia).
  destruct (Z.eqb_spec x y) as [->|]; [|by repeat split; lia].
  destruct (IH b) as (H1 & H2 & H3). repeat split; try lia. cbn [take]. by rewrite H3.
Qed.

(** ** The builder *)

Section builder.
Context (C : Comparator) (interval : Z) (Hinterval : 1 <= interval).

Record building (b : BlockBuilder) (kvs : list (Slice * Slice)) (offs rs : list nat) : Prop := mk_building {
  bu_laid : entries_laid (buffer_ b) kvs offs rs;
  bu_restarts : restart_offsets offs rs (restarts_ b);
  bu_last : last_key_ b = prev_key kvs (length kvs);
  bu_open : finished_ b = false;
  bu_counter : 0 <= counter_ b <= interval;
  bu_first : kvs = [] -> counter_ b = 0;
  bu_size : Z.of_nat (length (buffer_ b)) + 4 * Z.of_nat (length rs) <= entries_size kvs + 4
}.

Lemma building_reset : building BlockBuilder_Reset [] [0%nat] [0%nat].
Proof.
  split; try done; try (cbn; lia).
  - split; try done; try constructor; try constructor; try constructor; by right.
  - constructor; [|constructor]. by exists 0%nat.
Qed.

Lemma restart_offsets_app offs rs ws x :
  restart_offsets offs rs ws -> restart_offsets (offs ++ x) rs ws.
Proof.
  intros H. eapply Forall2_impl; [exact H|]. intros r w (o & Ho & ->). exists o.
  by rewrite lookup_app_l_Some with (x := o).
Qed.

(** One more entry, at a restart point or not. *)
Lemma laid_snoc buf kvs offs rs k v shared rs' :
  entries_laid buf kvs offs rs -> Forall is_byte k -> Forall is_byte v ->
  (shared <= length (prev_key kvs (length kvs)))%nat -> (shared <= length k)%nat ->
  take shared (prev_key kvs (length kvs)) = take shared k ->
  (rs' = rs \/ (rs' = rs ++ [length kvs] /\ shared = 0%nat /\ kvs <> [])) ->
  let buf' := buf ++ entry_record shared k v in
  entries_laid buf' (kvs ++ [(k, v)]) (offs ++ [length buf']) rs'.
Proof.
  intros [Hl Hf Hlast He Hr Hs Hb Hby] Hk Hv Hsp Hsk Ht Hrs buf'.
  assert (forall r, r ∈ rs' -> r ∈ rs \/ (r = length kvs /\ shared = 0%nat)) as Hin.
  { intros r Hin. destruct Hrs as [->|(-> & -> & _)]; [by left|].
    apply elem_of_app in Hin as [?| ->%list_elem_of_singleton]; [by left|by right]. }
  assert (Forall (fun r => (r < length kvs)%nat \/ r = 0%nat) rs) as Hb2 by done.
  rewrite Forall_forall in Hb2.
  split.
  - rewrite !length_app, Hl. cbn. lia.
  - by apply lookup_app_l_Some.
  - rewrite length_app. cbn [length]. rewrite lookup_app_r by lia. rewrite Hl.
    by replace (length kvs + 1 - S (length kvs))%nat with 0%nat by lia.
  - intros i k' v' Hi. destruct (decide (i < length kvs)%nat) as [Hlt|Hge].
    + rewrite lookup_app_l in Hi by done. destruct (He i k' v' Hi) as (o & o' & Ho & Ho' & Hent).
      exists o, o'. split; [by apply lookup_app_l_Some|]. split; [by apply lookup_app_l_Some|].
      rewrite prev_key_snoc by lia. eapply entry_at_app; [done|].
      intros H. destruct (Hin i H) as [?|[? _]]; [done|lia].
    + pose proof Hi as Hlen. apply lookup_lt_Some in Hlen. rewrite length_app in Hlen. cbn in Hlen.
      assert (i = length kvs) as -> by lia. rewrite list_lookup_middle in Hi by done. injection Hi as <- <-.
      exists (length buf), (length buf'). split; [by apply lookup_app_l_Some|]. split.
      { rewrite lookup_app_r by lia. rewrite Hl. by replace (S (length kvs) - S (length kvs))%nat with 0%nat by lia. }
      rewrite prev_key_snoc by lia. exists shared, []. unfold buf'.
      rewrite drop_app_length, app_nil_r, length_app. repeat split; try done.
      intros H. destruct (Hin _ H) as [Hold|[_ ?]]; [|done].
      destruct (Hb2 _ Hold) as [?|E]; [lia|]. rewrite E in Hsp. cbn in Hsp. lia.
  - destruct Hrs as [->|(-> & _ & _)]; [done|by apply lookup_app_l_Some].
  - destruct Hrs as [->|(-> & _ & Hne)]; [done|]. apply StronglySorted_app_2; [|done|by repeat constructor].
    intros r r' Hr' ->%list_elem_of_singleton. destruct (Hb2 r Hr') as [?| ->]; [done|].
    destruct kvs; [done|cbn; lia].
  - rewrite length_app. cbn [length]. destruct Hrs as [->|(-> & _ & _)].
    + eapply Forall_impl; [exact Hb|]. cbn. lia.
    + apply Forall_app. split; [eapply Forall_impl; [exact Hb|]; cbn; lia|]. apply Forall_singleton. lia.
  - apply Forall_app. split; [done|by apply entry_record_bytes].
Qed.

(** An entry can be added: its key is behind the last one, and its parts are short. *)
Definition addable (kvs : list (Slice * Slice)) (k v : Slice) : Prop :=
  Forall is_byte k /\ Forall is_byte v /\ entries_size (kvs ++ [(k, v)]) + 8 < 2 ^ 32 /\
  (kvs <> [] -> exists c, Compare k (prev_key kvs (length kvs)) = Some c /\ 0 < c).

Lemma BlockBuilder_Add_ok b kvs offs rs k v :
  building b kvs offs rs -> addable kvs k v ->
  exists b' offs' rs', BlockBuilder_Add C interval k v b = Ok tt b' /\ building b' (kvs ++ [(k, v)]) offs' rs'.
Proof.
  intros [Hlaid Hres Hlast Hopen Hcount Hfirst Hsize] (Hk & Hv & Hroom & Hcmp).
  rewrite entries_size_snoc in Hroom. pose proof (entries_size_nonneg kvs) as Hnn.
  assert (Z.of_nat (length k) < 2 ^ 32 /\ Z.of_nat (length v) < 2 ^ 32) as [Hk32 Hv32] by lia.
  unfold BlockBuilder_Add. rewrite bind_gets. unfold id. rewrite bind_assert by (by rewrite Hopen).
  rewrite bind_assert by (apply Z.leb_le; lia).
  assert (forall K : unit -> M BlockBuilder unit,
    bind (if BlockBuilder_empty b then ret tt
          else let! c := or_ub (Compare k (last_key_ b)) in assert_ (0 <? c)) K b = K tt b) as Hassert.
  { intros K. unfold BlockBuilder_empty. destruct (Nat.eqb_spec (length (buffer_ b)) 0) as [E|E]; [done|].
    destruct Hcmp as (c & Hc & Hpos).
    - intros ->. pose proof (el_first _ _ _ _ Hlaid) as H0. pose proof (el_last _ _ _ _ Hlaid) as H1.
      cbn in H0, H1. rewrite H0 in H1. injection H1 as H1. done.
    - rewrite Hlast, Hc. unfold or_ub. rewrite bind_assoc, bind_ret.
      by rewrite bind_assert by (by apply Z.ltb_lt). }
  rewrite Hassert. clear Hassert.
  assert (exists shared rs' ws' c',
    (if counter_ b <? interval then (common_prefix (last_key_ b) k, restarts_ b, counter_ b)
     else (0%nat, restarts_ b ++ [u32 (Z.of_nat (length (buffer_ b)))], 0)) = (shared, ws', c') /\
    (shared <= length (last_key_ b))%nat /\ (shared <= length k)%nat /\
    take shared (last_key_ b) = take shared k /\
    (rs' = rs \/ (rs' = rs ++ [length kvs] /\ shared = 0%nat /\ kvs <> [])) /\
    (length rs' <= S (length rs))%nat /\ 0 <= c' < interval /\
    forall x, restart_offsets (offs ++ [x]) rs' ws') as (shared & rs' & ws' & c' & -> & Hs1 & Hs2 & Hs3 & Hrs & Hrl & Hc & Hws).
  { destruct (Z.ltb_spec (counter_ b) interval).
    - destruct (common_prefix_take (last_key_ b) k) as (H1 & H2 & H3).
      eexists _, rs, _, _. split; [done|]. repeat (split; [done || lia|]). split; [by left|].
      split; [lia|]. split; [lia|]. intros x. by apply restart_offsets_app.
    - eexists _, (rs ++ [length kvs]), _, _. split; [done|]. repeat (split; [done || lia|]). split.
      { right. split; [done|]. split; [done|]. intros ->. pose proof (Hfirst eq_refl). lia. }
      split; [rewrite length_app; cbn; lia|]. split; [lia|]. intros x.
      apply Forall2_app; [by apply restart_offsets_app|]. constructor; [|constructor].
      exists (length (buffer_ b)). rewrite uwrap_small by lia. split; [|done].
      apply lookup_app_l_Some. apply (el_last _ _ _ _ Hlaid). }
  rewrite Hs3, take_drop. rewrite bind_assert by (by apply slice_eqb_eq).
  unfold modify. rewrite put_entry_eq by done.
  pose proof (entry_record_length shared k v Hk32 Hv32 Hs2) as Hrec.
  eexists _, (offs ++ [length (buffer_ b ++ entry_record shared k v)]), rs'. split; [done|].
  split; cbn [buffer_ restarts_ last_key_ finished_ counter_].
  - rewrite Hlast in *. by apply (laid_snoc _ _ _ rs).
  - apply Hws.
  - rewrite length_app. cbn [length]. rewrite Nat.add_1_r. cbn [prev_key].
    by rewrite list_lookup_middle.
  - done.
  - lia.
  - intros E. by destruct kvs.
  - rewrite entries_size_snoc, length_app. lia.
Qed.

(** The entries added one after the other. *)
Fixpoint add_entries (kvs : list (Slice * Slice)) : M BlockBuilder unit :=
  match kvs with
  | [] => ret tt
  | kv :: kvs => BlockBuilder_Add C interval kv.1 kv.2 ;;; add_entries kvs
  end.

(** Every key is behind the one before it. *)
Definition ascending (kvs : list (Slice * Slice)) : Prop :=
  forall i k v k' v', kvs !! i = Some (k, v) -> kvs !! S i = Some (k', v') ->
    exists c, Compare k' k = Some c /\ 0 < c.

Definition entries_ok (kvs : list (Slice * Slice)) : Prop :=
  ascending kvs /\ entries_size kvs + 8 < 2 ^ 32 /\
  Forall (fun kv => Forall is_byte kv.1 /\ Forall is_byte kv.2) kvs.

Lemma add_entries_ok kvs : entries_ok kvs ->
  exists b offs rs, add_entries kvs BlockBuilder_Reset = Ok tt b /\ building b kvs offs rs.
Proof.
  intros (Hasc & Hsize & Hbytes).
  assert (forall todo have b offs rs, kvs = have ++ todo -> building b have offs rs ->
    exists b' offs' rs', add_entries todo b = Ok tt b' /\ building b' kvs offs' rs') as Hgen.
  { induction todo as [|[k v] todo IH]; intros have b offs rs E H.
    - rewrite app_nil_r in E. subst have. by exists b, offs, rs.
    - destruct (BlockBuilder_Add_ok b have offs rs k v H) as (b1 & offs1 & rs1 & E1 & H1).
      { rewrite E, Forall_app, Forall_cons in Hbytes. destruct Hbytes as (_ & [? ?] & _).
        split; [done|]. split; [done|]. split.
        { change ((k, v) :: todo) with ([(k, v)] ++ todo) in E. rewrite app_assoc in E. rewrite E in Hsize.
          rewrite entries_size_app in Hsize. pose proof (entries_size_nonneg todo). lia. }
        intros Hne. destruct have as [|kv0 have0 _] using rev_ind; [done|]. destruct kv0 as [k0 v0].
        rewrite length_app. cbn [length]. rewrite Nat.add_1_r. cbn [prev_key].
        rewrite list_lookup_middle by done. cbn [fst].
        apply (Hasc (length have0) k0 v0 k v); rewrite E, <- app_assoc; cbn [app].
        - by rewrite list_lookup_middle.
        - by rewrite lookup_app_r, Nat.sub_succ_l, Nat.sub_diag by lia. }
      destruct (IH (have ++ [(k, v)]) b1 offs1 rs1) as (b2 & offs2 & rs2 & E2 & H2);
        [by rewrite <- app_assoc|done|].
      exists b2, offs2, rs2. split; [|done]. cbn [add_entries fst snd]. by rewrite (bind_ok _ _ _ _ _ E1). }
  by apply (Hgen kvs [] _ [0%nat] [0%nat]); [|apply building_reset].
Qed.

End builder.

(** * Reading a block

    The iterator of a block is a cursor over the entries of the block. *)

(** ** One entry *)

Lemma varint_one v l x q : 0 <= v -> varint_bytes v ++ l = x :: q -> x < 128 -> x = v /\ q = l.
Proof.
  intros Hv E Hx. unfold varint_bytes in E. rewrite varint_bytes_n_S in E.
  destruct (Z.ltb_spec v 128).
  - by injection E as -> ->.
  - cbn [app] in E. injection E as E _. pose proof (Z.mod_pos_bound v 128 ltac:(lia)). lia.
Qed.

Lemma lor_ge x y : 0 <= x -> 0 <= y -> x <= Z.lor x y.
Proof.
  intros Hx Hy. assert (Z.lor x y = x + Z.ldiff y x) as ->.
  { rewrite Z.add_nocarry_lxor; apply Z.bits_inj'; intros n _.
    - rewrite Z.lor_spec, Z.lxor_spec, Z.ldiff_spec. by destruct (Z.testbit x n), (Z.testbit y n).
    - rewrite Z.land_spec, Z.ldiff_spec, Z.bits_0. by destruct (Z.testbit x n), (Z.testbit y n). }
  assert (0 <= Z.ldiff y x); [|lia]. rewrite Z.ldiff_nonneg. lia.
Qed.

(** Both paths read the three numbers. *)
Lemma DecodeEntry_ok a b c t :
  0 <= a < 2 ^ 32 -> 0 <= b < 2 ^ 32 -> 0 <= c < 2 ^ 32 -> Forall is_byte t ->
  b + c <= Z.of_nat (length t) -> Z.of_nat (length t) < 2 ^ 32 ->
  DecodeEntry (varint_bytes a ++ varint_bytes b ++ varint_bytes c ++ t) = Some (a, b, c, t).
Proof.
  intros Ha Hb Hc Ht Hl Ht32.
  pose proof (varint_bytes_length a). pose proof (varint_bytes_length b). pose proof (varint_bytes_length c).
  pose proof (varint_bytes_bytes a ltac:(lia)) as Ba. pose proof (varint_bytes_bytes b ltac:(lia)) as Bb.
  pose proof (varint_bytes_bytes c ltac:(lia)) as Bc.
  destruct (varint_bytes a ++ varint_bytes b ++ varint_bytes c ++ t) as [|x [|y [|z q]]] eqn:E;
    try (apply (f_equal length) in E; rewrite !length_app in E; cbn [length] in E; lia).
  assert (Forall is_byte (x :: y :: z :: q)) as Hall by (rewrite <- E, !Forall_app; done).
  apply Forall_cons in Hall as [Hx Hall]. apply Forall_cons in Hall as [Hy Hall].
  apply Forall_cons in Hall as [Hz _]. unfold is_byte in Hx, Hy, Hz.
  unfold DecodeEntry. assert ((u32 (Z.of_nat (length t)) <? u32 (b + c)) = false) as Hfit.
  { rewrite !uwrap_small by lia. apply Z.ltb_ge. lia. }
  destruct (Z.ltb_spec (Z.lor (Z.lor x y) z) 128) as [Hlor|_].
  - pose proof (lor_ge x y ltac:(lia) ltac:(lia)). pose proof (lor_ge y x ltac:(lia) ltac:(lia)).
    rewrite (Z.lor_comm y x) in *. pose proof (lor_ge (Z.lor x y) z ltac:(lia) ltac:(lia)).
    pose proof (lor_ge z (Z.lor x y) ltac:(lia) ltac:(lia)). rewrite (Z.lor_comm z) in *.
    destruct (varint_one a _ x (y :: z :: q) ltac:(lia) E) as [-> E2]; [lia|]. symmetry in E2.
    destruct (varint_one b _ y (z :: q) ltac:(lia) E2) as [-> E3]; [lia|]. symmetry in E3.
    destruct (varint_one c _ z q ltac:(lia) E3) as [-> ->]; [lia|].
    cbn [mbind option_bind]. by rewrite Hfit.
  - rewrite <- E. change GetVarint32Ptr with GetVarint32.
    rewrite GetVarint32_bytes by (done || by rewrite !Forall_app). cbn [mbind option_bind fst snd].
    rewrite GetVarint32_bytes by (done || by rewrite !Forall_app). cbn [mbind option_bind fst snd].
    rewrite GetVarint32_bytes by (done || by rewrite !Forall_app). cbn [mbind option_bind fst snd].
    by rewrite Hfit.
Qed.

Lemma entry_record_length_ge shared k v : (3 <= length (entry_record shared k v))%nat.
Proof.
  unfold entry_record. rewrite !length_app. pose proof (varint_bytes_length (Z.of_nat shared)).
  pose proof (varint_bytes_length (Z.of_nat (length k - shared))).
  pose proof (varint_bytes_length (Z.of_nat (length v))). lia.
Qed.

Section reader.
Context (C : Comparator) (buf tail_ : Slice).
Context (kvs : list (Slice * Slice)) (offs rs : list nat) (HL : entries_laid buf kvs offs rs).

Let data := buf ++ tail_.
Let restarts := Z.of_nat (length buf).
Let num := Z.of_nat (length rs).
Let n := length kvs.

Context (Hpoints : forall j r o, rs !! j = Some r -> offs !! r = Some o ->
  DecodeFixed32 (drop (length buf + j * 4) data) = Some (Z.of_nat o)).
Context (Hsize : Z.of_nat (length data) < 2 ^ 32).
Context (Hkeys : Forall (fun kv => Z.of_nat (length kv.1) < 2 ^ 32) kvs).

(** ** Offsets *)

Lemma offset_total i : (i <= n)%nat -> exists o, offs !! i = Some o.
Proof.
  intros Hi. destruct (offs !! i) as [o|] eqn:E; [by exists o|].
  apply lookup_ge_None in E. rewrite (el_length _ _ _ _ HL) in E. unfold n in Hi. lia.
Qed.

Lemma offset_step i o o' :
  offs !! i = Some o -> offs !! S i = Some o' -> (o + 3 <= o' <= length buf)%nat.
Proof.
  intros Ho Ho'. pose proof Ho' as Hi. apply lookup_lt_Some in Hi. rewrite (el_length _ _ _ _ HL) in Hi.
  destruct (kvs !! i) as [[k v]|] eqn:E; [|apply lookup_ge_None in E; lia].
  destruct (el_entry _ _ _ _ HL i k v E) as (p & p' & Hp & Hp' & shared & post & _ & Hlen & Hle & _).
  rewrite Ho in Hp. rewrite Ho' in Hp'. injection Hp as <-. injection Hp' as <-.
  pose proof (entry_record_length_ge shared k v). lia.
Qed.

Lemma offset_add d i o o' : offs !! i = Some o -> offs !! (i + d)%nat = Some o' -> (o + d <= o')%nat.
Proof.
  revert o'. induction d as [|d IH]; intros o' Ho Ho'.
  - rewrite Nat.add_0_r in Ho'. rewrite Ho in Ho'. injection Ho' as <-. lia.
  - replace (i + S d)%nat with (S (i + d)) in Ho' by lia.
    assert (i + d <= n)%nat as Hd.
    { apply lookup_lt_Some in Ho'. rewrite (el_length _ _ _ _ HL) in Ho'. unfold n. lia. }
    destruct (offset_total _ Hd) as [p Hp]. pose proof (IH p Ho Hp).
    pose proof (offset_step _ _ _ Hp Ho'). lia.
Qed.

Lemma offset_lt i j o o' : offs !! i = Some o -> offs !! j = Some o' -> (i < j)%nat -> (o < o')%nat.
Proof.
  intros Ho Ho' Hij. replace j with (i + (j - i))%nat in Ho' by lia.
  pose proof (offset_add (j - i) i o o' Ho Ho'). lia.
Qed.

Lemma offset_le i j o o' : offs !! i = Some o -> offs !! j = Some o' -> (i <= j <-> o <= o')%nat.
Proof.
  intros Ho Ho'. destruct (Nat.lt_trichotomy i j) as [H|[<-|H]].
  - pose proof (offset_lt i j o o' Ho Ho' H). lia.
  - rewrite Ho in Ho'. injection Ho' as <-. lia.
  - pose proof (offset_lt j i o' o Ho' Ho H). lia.
Qed.

Lemma offset_bound i o : offs !! i = Some o -> (o <= length buf)%nat.
Proof.
  intros Ho. apply (offset_le i (length kvs) o (length buf) Ho (el_last _ _ _ _ HL)).
  apply lookup_lt_Some in Ho. rewrite (el_length _ _ _ _ HL) in Ho. lia.
Qed.

Lemma data_bound o : (o <= length buf)%nat -> Z.of_nat o < 2 ^ 32.
Proof. unfold data in Hsize. rewrite length_app in Hsize. lia. Qed.

Lemma restart_bound j r : rs !! j = Some r -> (r <= n)%nat /\ ((0 < j)%nat -> (0 < r < n)%nat).
Proof.
  intros Hj. pose proof (el_bound _ _ _ _ HL) as Hb. rewrite Forall_forall in Hb.
  pose proof (Hb r ltac:(by eapply list_elem_of_lookup_2)) as Hr. split; [unfold n; lia|].
  intros Hpos. pose proof (el_sorted _ _ _ _ HL) as Hs.
  assert (0 < r)%nat; [|unfold n; lia].
  apply (StronglySorted_lookup lt rs 0%nat j 0%nat r Hs); [apply (el_restart _ _ _ _ HL)|done|lia].
Qed.

Lemma GetRestartPoint_eq j r o it :
  rs !! j = Some r -> offs !! r = Some o ->
  GetRestartPoint data restarts num (Z.of_nat j) it = Ok (Z.of_nat o) it.
Proof.
  intros Hj Ho. unfold GetRestartPoint, num, restarts.
  rewrite bind_assert by (apply Z.ltb_lt; apply lookup_lt_Some in Hj; lia).
  replace (Z.to_nat (Z.of_nat (length buf) + Z.of_nat j * 4)) with (length buf + j * 4)%nat by lia.
  by rewrite (Hpoints j r o Hj Ho).
Qed.

(** ** The states of the iterator *)

(** The index of the restart point is that of the entry, or of the last one before
    it. *)
Definition restart_ok (ri i : nat) : Prop :=
  exists r, rs !! ri = Some r /\ (r <= i)%nat /\ forall r', rs !! S ri = Some r' -> (i <= r')%nat.

(** At entry [i]; or invalid. *)
Definition at_entry (i : nat) (it : BlockIter) : Prop :=
  exists k v o o' vo ri, kvs !! i = Some (k, v) /\ offs !! i = Some o /\ offs !! S i = Some o' /\
    it = mk_block_iter (Z.of_nat o) (Z.of_nat ri) k (Some (Z.of_nat vo, Z.of_nat (length v))) Status_OK /\
    (vo + length v)%nat = o' /\ take (length v) (drop vo data) = v /\ restart_ok ri i.

Definition at_end (it : BlockIter) : Prop := current_ it = restarts /\ status_ it = Status_OK.

(** About to parse entry [i]. *)
Definition ready (i : nat) (it : BlockIter) : Prop :=
  exists o vo vl ri r, offs !! i = Some o /\ value_ it = Some (vo, vl) /\ vo + vl = Z.of_nat o /\
    restart_index_ it = Z.of_nat ri /\ rs !! ri = Some r /\ (r <= i)%nat /\
    (key_ it = prev_key kvs i \/ i ∈ rs) /\ status_ it = Status_OK.

Lemma ready_next_offset i it o :
  ready i it -> offs !! i = Some o -> NextEntryOffset it = Ok (Z.of_nat o) it.
Proof.
  intros (o1 & vo & vl & ri & r & Ho & Hv & Hs & _) Ho2. rewrite Ho in Ho2. injection Ho2 as ->.
  unfold NextEntryOffset. rewrite bind_gets, Hv. cbn [or_ub]. rewrite bind_ret. cbn [fst snd]. rewrite Hs.
  pose proof (data_bound o (offset_bound i o Ho)). by rewrite uwrap_small by lia.
Qed.

Lemma at_entry_ready i it : at_entry i it -> ready (S i) it.
Proof.
  intros (k & v & o & o' & vo & ri & Hk & Ho & Ho' & -> & Hvo & _ & r & Hr & Hle & _).
  exists o', (Z.of_nat vo), (Z.of_nat (length v)), ri, r. cbn [value_ restart_index_ key_ status_].
  split; [done|]. split; [done|]. split; [lia|]. split; [done|]. split; [done|]. split; [lia|].
  split; [|done]. left. cbn [prev_key]. by rewrite Hk.
Qed.

Lemma SeekToRestartPoint_ok j r it :
  rs !! j = Some r -> status_ it = Status_OK ->
  exists it', SeekToRestartPoint data restarts num (Z.of_nat j) it = Ok tt it' /\ ready r it'.
Proof.
  intros Hj Hst. destruct (offset_total r (proj1 (restart_bound j r Hj))) as [o Ho].
  unfold SeekToRestartPoint, set_restart_index, set_entry. rewrite bind_modify.
  rewrite (bind_ok _ _ _ _ _ (GetRestartPoint_eq j r o _ Hj Ho)). unfold modify.
  eexists. split; [done|]. exists o, (Z.of_nat o), 0, j, r. cbn [value_ restart_index_ key_ status_].
  repeat split; try done; [lia|]. right. by eapply list_elem_of_lookup_2.
Qed.

(** ** Parsing *)

Lemma up_to_limit_eq o : (o <= length buf)%nat -> up_to_limit data restarts (Z.of_nat o) = drop o buf.
Proof.
  intros Ho. unfold up_to_limit, restarts, data.
  replace (Z.to_nat (Z.of_nat (length buf) - Z.of_nat o)) with (length buf - o)%nat by lia.
  rewrite Nat2Z.id, drop_app_le by done. rewrite take_app_le by (rewrite length_drop; lia).
  by rewrite take_ge by (rewrite length_drop; lia).
Qed.

(** [l] is found at [p]. *)
Lemma bytes_at_eq p l post :
  drop p buf = l ++ post -> (p <= length buf)%nat -> bytes_at data (Z.of_nat p) (Z.of_nat (length l)) = Some l.
Proof.
  intros E Hp. unfold bytes_at, data. rewrite Nat2Z.id, drop_app_le by done. rewrite E, <- app_assoc.
  rewrite length_app. destruct (Z.leb_spec (Z.of_nat (length l)) (Z.of_nat (length l + length (post ++ tail_)))); [|lia].
  by rewrite Nat2Z.id, take_app_length.
Qed.

Lemma follow_ok fuel i o ri r it :
  restart_index_ it = Z.of_nat ri -> rs !! ri = Some r -> (r <= i)%nat -> (i < n)%nat -> offs !! i = Some o ->
  (length rs - ri < fuel)%nat ->
  exists ri', loop fuel (follow_restarts data restarts num (Z.of_nat o)) tt it =
    Ok tt (mk_block_iter (current_ it) (Z.of_nat ri') (key_ it) (value_ it) (status_ it)) /\ restart_ok ri' i.
Proof.
  revert ri r it. induction fuel as [|fuel IH]; intros ri r it Hri Hr Hle Hi Ho Hfuel; [lia|].
  assert (mk_block_iter (current_ it) (Z.of_nat ri) (key_ it) (value_ it) (status_ it) = it) as Hsame
    by (destruct it; cbn in *; by subst).
  assert (restart_index_ it + 1 = Z.of_nat (S ri)) as Hsucc by lia.
  rewrite loop_S. unfold follow_restarts at 1. rewrite bind_assoc, bind_gets. rewrite Hsucc. unfold num at 1.
  destruct (Z.ltb_spec (Z.of_nat (S ri)) (Z.of_nat (length rs))) as [Hlt|Hge].
  - destruct (lookup_lt_is_Some_2 rs (S ri) ltac:(lia)) as [r' Hr'].
    destruct (offset_total r' (proj1 (restart_bound _ _ Hr'))) as [p Hp].
    rewrite bind_assoc, (bind_ok _ _ _ _ _ (GetRestartPoint_eq (S ri) r' p it Hr' Hp)).
    pose proof (offset_le i r' o p Ho Hp) as Hiff.
    destruct (Z.ltb_spec (Z.of_nat p) (Z.of_nat o)).
    + unfold set_restart_index. rewrite bind_assoc, bind_modify, bind_ret.
      destruct (IH (S ri) r' (mk_block_iter (current_ it) (Z.of_nat (S ri)) (key_ it) (value_ it) (status_ it)))
        as (ri' & E & Hok); try done; [lia|lia|]. exists ri'. split; [exact E|done].
    + rewrite bind_ret. exists ri. split; [by rewrite Hsame|]. exists r. split; [done|]. split; [done|].
      intros r2 Hr2. rewrite Hr' in Hr2. injection Hr2 as <-. lia.
  - rewrite bind_ret. exists ri. split; [by rewrite Hsame|]. exists r. split; [done|]. split; [done|].
    intros r2 Hr2%lookup_lt_Some. lia.
Qed.

(** What is found at the offset of an entry. *)
Lemma entry_decoded i k v o o' :
  kvs !! i = Some (k, v) -> offs !! i = Some o -> offs !! S i = Some o' ->
  exists shared rest p, let non_shared := Z.of_nat (length k - shared) in
    DecodeEntry (up_to_limit data restarts (Z.of_nat o)) =
      Some (Z.of_nat shared, non_shared, Z.of_nat (length v), rest) /\
    entry_pointer restarts rest = Z.of_nat p /\
    bytes_at data (Z.of_nat p) non_shared = Some (drop shared k) /\
    (p + (length k - shared) + length v = o')%nat /\
    take (length v) (drop (p + (length k - shared)) data) = v /\
    (shared <= length (prev_key kvs i))%nat /\ take shared (prev_key kvs i) = take shared k /\
    (i ∈ rs -> shared = 0%nat).
Proof.
  intros Hkv Ho Ho'.
  destruct (el_entry _ _ _ _ HL i k v Hkv) as (o1 & o2 & Ho1 & Ho2 & shared & post & Hd & Hlen & Hle & Hsp & Hsk & Htake & Hrestart).
  rewrite Ho in Ho1. rewrite Ho' in Ho2. injection Ho1 as <-. injection Ho2 as <-.
  pose proof (offset_step i o o' Ho Ho') as [Hstep _]. pose proof (data_bound (length buf) ltac:(lia)) as Hbuf.
  assert (Z.of_nat (length k) < 2 ^ 32) as Hk32 by (by eapply (Forall_lookup_1 _ kvs i (k, v)) in Hkeys).
  rewrite up_to_limit_eq by lia.
  set (head := varint_bytes (Z.of_nat shared) ++ varint_bytes (Z.of_nat (length k - shared)) ++
               varint_bytes (Z.of_nat (length v))).
  assert (drop o buf = head ++ drop shared k ++ v ++ post) as Hd2
    by (rewrite Hd; unfold entry_record, head; by rewrite <- !app_assoc).
  assert (Forall is_byte (drop shared k ++ v ++ post)) as Hbytes.
  { assert (Forall is_byte (drop o buf)) as Hb by (apply Forall_drop, (el_bytes _ _ _ _ HL)).
    rewrite Hd2 in Hb. by apply Forall_app in Hb as [_ Hb]. }
  assert (length buf - o = length head + (length k - shared) + length v + length post)%nat as Hsum.
  { apply (f_equal length) in Hd2. rewrite length_drop, !length_app, length_drop in Hd2. lia. }
  assert (o' = o + length head + (length k - shared) + length v)%nat as Hend.
  { rewrite Hlen. unfold entry_record, head. rewrite !length_app, length_drop. lia. }
  assert (drop (o + length head) buf = drop shared k ++ v ++ post) as Hd3
    by (rewrite <- drop_drop, Hd2, drop_app_length; done).
  assert (drop (o + length head + (length k - shared)) buf = v ++ post) as Hd4.
  { rewrite <- drop_drop, Hd3. apply drop_app_length'. rewrite length_drop. lia. }
  exists shared, (drop shared k ++ v ++ post), (o + length head)%nat. cbv zeta.
  split; [|split; [|split; [|split; [lia|split; [|done]]]]].
  - rewrite Hd2. unfold head. rewrite <- !app_assoc.
    apply DecodeEntry_ok; try done; rewrite ?length_app, ?length_drop; lia.
  - unfold entry_pointer, restarts. rewrite !length_app, length_drop. lia.
  - rewrite <- length_drop. apply (bytes_at_eq _ _ (v ++ post)); [done|lia].
  - unfold data. rewrite drop_app_le, Hd4, <- app_assoc by lia. apply take_app_length.
Qed.

Lemma ParseNextKey_entry i it :
  ready i it -> (i < n)%nat ->
  exists it', ParseNextKey data restarts num it = Ok true it' /\ at_entry i it'.
Proof.
  intros Hready Hi. destruct (lookup_lt_is_Some_2 kvs i Hi) as [[k v] Hkv].
  destruct (offset_total i ltac:(unfold n in *; lia)) as [o Ho].
  destruct (offset_total (S i) Hi) as [o' Ho'].
  destruct (entry_decoded i k v o o' Hkv Ho Ho') as
    (shared & rest & p & Hdec & Hp & Hdelta & Hend & Hval & Hsp & Htake & Hrestart).
  unfold ParseNextKey, set_current. rewrite (bind_ok _ _ _ _ _ (ready_next_offset i it o Hready Ho)).
  rewrite bind_modify. pose proof (offset_step i o o' Ho Ho') as [Hstep Hbound].
  unfold restarts at 1. destruct (Z.leb_spec (Z.of_nat (length buf)) (Z.of_nat o)); [lia|].
  rewrite bind_gets. cbn [key_]. rewrite Hdec, Hp.
  destruct Hready as (o1 & vo & vl & ri & r & Ho1 & _ & _ & Hri & Hr & Hrle & Hkey & Hst).
  assert (shared <= length (key_ it) /\ take shared (key_ it) = take shared k)%nat as [Hsk2 Htake2].
  { destruct Hkey as [->|Hin]; [done|]. rewrite (Hrestart Hin). split; [lia|done]. }
  destruct (Z.ltb_spec (Z.of_nat (length (key_ it))) (Z.of_nat shared)); [lia|].
  rewrite (bind_or_ub _ _ _ _ Hdelta).
  unfold set_entry. rewrite bind_modify, bind_gets. cbn [restart_index_ current_ status_].
  rewrite Nat2Z.id, Htake2, take_drop, Hri.
  destruct (follow_ok (S (Z.to_nat (num - Z.of_nat ri))) i o ri r
    (mk_block_iter (Z.of_nat o) (Z.of_nat ri) k
      (Some (Z.of_nat p + Z.of_nat (length k - shared), Z.of_nat (length v))) (status_ it)))
    as (ri' & E & Hok); try done; [unfold num; lia|].
  rewrite (bind_ok _ _ _ _ _ E). eexists. split; [done|].
  exists k, v, o, o', (p + (length k - shared))%nat, ri'.
  cbn [current_ key_ value_ status_]. rewrite Hst.
  split; [done|]. split; [done|]. split; [done|]. split; [do 3 f_equal; lia|]. by split; [lia|].
Qed.

Lemma ParseNextKey_end it :
  ready n it -> exists it', ParseNextKey data restarts num it = Ok false it' /\ at_end it'.
Proof.
  intros Hready. pose proof (el_last _ _ _ _ HL) as Ho. fold n in Ho.
  unfold ParseNextKey, set_current. rewrite (bind_ok _ _ _ _ _ (ready_next_offset n it _ Hready Ho)).
  rewrite bind_modify. unfold restarts at 1. rewrite Z.leb_refl. unfold invalidate, set_current, set_restart_index.
  rewrite bind_assoc, !bind_modify. eexists. split; [done|]. split; [done|]. cbn [status_].
  by destruct Hready as (? & ? & ? & ? & ? & _ & _ & _ & _ & _ & _ & _ & ?).
Qed.

(** ** The cursor *)

Definition cursor_pos (i : nat) (it : BlockIter) : Prop :=
  if (i <? n)%nat then at_entry i it else at_end it.

Lemma cursor_pos_lt i it : (i < n)%nat -> cursor_pos i it <-> at_entry i it.
Proof. intros Hi. unfold cursor_pos. by destruct (Nat.ltb_spec i n); [|lia]. Qed.

Lemma cursor_pos_ge i it : (n <= i)%nat -> cursor_pos i it <-> at_end it.
Proof. intros Hi. unfold cursor_pos. by destruct (Nat.ltb_spec i n); [lia|]. Qed.

Lemma ParseNextKey_pos i it :
  ready i it -> (i <= n)%nat ->
  exists it', ParseNextKey data restarts num it = Ok (i <? n)%nat it' /\ cursor_pos i it'.
Proof.
  intros Hready Hi. unfold cursor_pos. destruct (Nat.ltb_spec i n).
  - by apply ParseNextKey_entry.
  - assert (i = n) as -> by lia. by apply ParseNextKey_end.
Qed.

Lemma cursor_status_ok i it : cursor_pos i it -> status_ it = Status_OK.
Proof.
  unfold cursor_pos. destruct (i <? n)%nat; [|by intros []].
  by intros (k & v & o & o' & vo & ri & _ & _ & _ & -> & _).
Qed.

(** The loop stops at the first entry that is not to be passed. *)
Lemma parse_while_ok (again : M BlockIter bool) (go : nat -> bool) i it :
  (forall j it, (j < n)%nat -> at_entry j it -> again it = Ok (go j) it) -> ready i it -> (i <= n)%nat ->
  exists j it', parse_while data restarts num again it = Ok tt it' /\ cursor_pos j it' /\
    (i <= j <= n)%nat /\ (forall m, (i <= m < j)%nat -> go m = true) /\ ((j < n)%nat -> go j = false).
Proof.
  intros Hagain Hready Hi. unfold parse_while.
  assert (n <= length data)%nat as Hn.
  { pose proof (offset_add n 0 0 (length buf) (el_first _ _ _ _ HL) (el_last _ _ _ _ HL)).
    unfold data. rewrite length_app. lia. }
  assert (n - i < S (length data))%nat as Hfuel by lia.
  revert i it Hready Hi Hfuel. generalize (S (length data)) as fuel.
  induction fuel as [|fuel IH]; intros i it Hready Hi Hfuel; [lia|].
  destruct (ParseNextKey_pos i it Hready Hi) as (it1 & E1 & H1). rewrite loop_S.
  rewrite bind_assoc, (bind_ok _ _ _ _ _ E1). destruct (Nat.ltb_spec i n) as [Hlt|Hge].
  - pose proof (proj1 (cursor_pos_lt i it1 Hlt) H1) as Hat.
    rewrite bind_assoc, (bind_ok _ _ _ _ _ (Hagain i it1 Hlt Hat)), bind_ret. destruct (go i) eqn:Hgo.
    + destruct (IH (S i) it1 (at_entry_ready i it1 Hat) Hlt ltac:(lia)) as (j & it2 & E2 & H2 & Hj & Hm & Hs).
      exists j, it2. split; [done|]. split; [done|]. split; [lia|]. split; [|done].
      intros m Hm2. destruct (decide (m = i)) as [->|]; [done|]. apply Hm. lia.
    + exists i, it1. split; [done|]. split; [done|]. split; [lia|]. split; [lia|done].
  - rewrite bind_ret. exists i, it1. split; [done|]. split; [done|]. split; [lia|]. split; lia.
Qed.

Lemma at_entry_next_offset i it o' :
  at_entry i it -> offs !! S i = Some o' -> NextEntryOffset it = Ok (Z.of_nat o') it.
Proof. intros H. apply ready_next_offset. by apply at_entry_ready. Qed.

(** Going on while the next entry starts before entry [e]. *)
Lemma scan_to e oe i it :
  offs !! e = Some oe -> (i < e <= n)%nat -> ready i it ->
  exists it', parse_while data restarts num
      (let! next := NextEntryOffset in ret (next <? Z.of_nat oe)) it = Ok tt it' /\ cursor_pos (pred e) it'.
Proof.
  intros He Hi Hready.
  destruct (parse_while_ok (let! next := NextEntryOffset in ret (next <? Z.of_nat oe))
    (fun j => (S j <? e)%nat) i it) as (j & it' & E & Hpos & Hj & Hm & Hs); try done; [|lia|].
  - intros j it1 Hlt Hat. destruct (offset_total (S j) Hlt) as [o Ho].
    rewrite (bind_ok _ _ _ _ _ (at_entry_next_offset j it1 o Hat Ho)). unfold ret. f_equal.
    pose proof (offset_le e (S j) oe o He Ho). destruct (Z.ltb_spec (Z.of_nat o) (Z.of_nat oe)),
      (Nat.ltb_spec (S j) e); done || lia.
  - exists it'. split; [done|]. replace (pred e) with j; [done|].
    destruct (decide (j < e)%nat) as [Hlt|Hge].
    + pose proof (Hs ltac:(lia)) as Hstop. cbn beta in Hstop. apply Nat.ltb_ge in Hstop. lia.
    + pose proof (Hm (pred e) ltac:(lia)) as Hgo. cbn beta in Hgo. apply Nat.ltb_lt in Hgo. lia.
Qed.

Lemma Iter_SeekToFirst_ok i it :
  cursor_pos i it -> exists it', Iter_SeekToFirst data restarts num it = Ok tt it' /\ cursor_pos 0 it'.
Proof.
  intros Hpos. unfold Iter_SeekToFirst.
  destruct (SeekToRestartPoint_ok 0 0 it (el_restart _ _ _ _ HL) (cursor_status_ok i it Hpos)) as (it1 & E1 & H1).
  change (Z.of_nat 0) with 0 in E1. rewrite (bind_ok _ _ _ _ _ E1).
  destruct (ParseNextKey_pos 0 it1 H1 ltac:(lia)) as (it2 & E2 & H2).
  rewrite (bind_ok _ _ _ _ _ E2). by exists it2.
Qed.

Lemma Iter_Next_ok i it :
  cursor_pos i it -> (i < n)%nat ->
  exists it', Iter_Next data restarts num it = Ok tt it' /\ cursor_pos (S i) it'.
Proof.
  intros Hpos Hi. apply cursor_pos_lt in Hpos; [|done]. unfold Iter_Next. rewrite bind_gets. unfold id.
  destruct (ParseNextKey_pos (S i) it (at_entry_ready i it Hpos) Hi) as (it2 & E2 & H2).
  rewrite bind_assert; [rewrite (bind_ok _ _ _ _ _ E2); by exists it2|].
  destruct Hpos as (k & v & o & o' & vo & ri & _ & Ho & Ho' & -> & _).
  apply Z.ltb_lt. cbn [current_]. unfold restarts. pose proof (offset_step i o o' Ho Ho'). lia.
Qed.

Lemma Iter_SeekToLast_ok i it :
  cursor_pos i it -> exists it', Iter_SeekToLast data restarts num it = Ok tt it' /\ cursor_pos (pred n) it'.
Proof.
  intros Hpos. unfold Iter_SeekToLast. pose proof (el_restart _ _ _ _ HL) as H0. apply lookup_lt_Some in H0.
  destruct (lookup_lt_is_Some_2 rs (pred (length rs)) ltac:(lia)) as [r Hr].
  destruct (SeekToRestartPoint_ok _ r it Hr (cursor_status_ok i it Hpos)) as (it1 & E1 & H1).
  replace (num - 1) with (Z.of_nat (pred (length rs))) by (unfold num; lia).
  rewrite (bind_ok _ _ _ _ _ E1). unfold restarts.
  destruct (restart_bound _ _ Hr) as [Hrn Hrlt]. destruct (decide (r < n)%nat) as [Hlt|Hge].
  - by apply (scan_to n _ r it1 (el_last _ _ _ _ HL)).
  - assert (n = 0 /\ r = 0)%nat as [Hn ->].
    { pose proof (el_bound _ _ _ _ HL) as Hb. rewrite Forall_forall in Hb.
      destruct (Hb r ltac:(by eapply list_elem_of_lookup_2)); unfold n in *; lia. }
    rewrite Hn. destruct (parse_while_ok (let! next := NextEntryOffset in ret (next <? Z.of_nat (length buf)))
      (fun _ => false) 0 it1) as (j & it' & E & Hp & Hj & _); try done; try (intros; lia).
    exists it'. split; [done|]. replace (pred 0) with j by (cbn; lia). done.
Qed.

Lemma scan_back_ok fuel i o ri r it :
  offs !! i = Some o -> restart_index_ it = Z.of_nat ri -> rs !! ri = Some r -> (ri < fuel)%nat ->
  status_ it = Status_OK ->
  exists b it', loop fuel (scan_back data restarts num (Z.of_nat o)) tt it = Ok b it' /\
    if b : bool then exists rj r', restart_index_ it' = Z.of_nat rj /\ rs !! rj = Some r' /\ (r' < i)%nat /\
                                   status_ it' = Status_OK
    else i = 0%nat /\ at_end it'.
Proof.
  intros Ho. revert ri r it. induction fuel as [|fuel IH]; intros ri r it Hri Hr Hfuel Hst; [lia|].
  rewrite loop_S. unfold scan_back at 1. rewrite bind_assoc, bind_gets, Hri.
  destruct (offset_total r (proj1 (restart_bound _ _ Hr))) as [p Hp].
  rewrite bind_assoc, (bind_ok _ _ _ _ _ (GetRestartPoint_eq ri r p it Hr Hp)).
  pose proof (offset_le i r o p Ho Hp) as Hiff. destruct (Z.leb_spec (Z.of_nat o) (Z.of_nat p)).
  - destruct (Z.eqb_spec (Z.of_nat ri) 0) as [Hz|Hz].
    + assert (ri = 0%nat) as -> by lia. rewrite (el_restart _ _ _ _ HL) in Hr. injection Hr as <-.
      unfold invalidate, set_current, set_restart_index. rewrite !bind_assoc, !bind_modify, bind_ret.
      eexists false, _. split; [done|]. split; [lia|]. by split.
    + unfold set_restart_index. rewrite bind_assoc, bind_modify, bind_ret.
      destruct (lookup_lt_is_Some_2 rs (pred ri)) as [r' Hr']; [apply lookup_lt_Some in Hr; lia|].
      apply (IH (pred ri) r'); cbn [restart_index_ status_]; try done; lia.
  - rewrite bind_ret. exists true, it. split; [done|]. exists ri, r. repeat split; done || lia.
Qed.

Lemma Iter_Prev_ok i it :
  cursor_pos i it -> (i < n)%nat ->
  exists it', Iter_Prev data restarts num it = Ok tt it' /\
    cursor_pos (match i with O => n | S j => j end) it'.
Proof.
  intros Hpos Hi. apply cursor_pos_lt in Hpos; [|done].
  destruct Hpos as (k & v & o & o' & vo & ri & Hk & Ho & Ho' & -> & _ & _ & r & Hr & _).
  unfold Iter_Prev. rewrite bind_gets. unfold id. rewrite bind_assert.
  2:{ apply Z.ltb_lt. cbn [current_]. unfold restarts. pose proof (offset_step i o o' Ho Ho'). lia. }
  cbn [current_ restart_index_].
  set (it := mk_block_iter (Z.of_nat o) (Z.of_nat ri) k (Some (Z.of_nat vo, Z.of_nat (length v))) Status_OK).
  destruct (scan_back_ok (S (Z.to_nat (Z.of_nat ri))) i o ri r it Ho) as (b & it1 & E1 & H1); try done; [lia|].
  rewrite (bind_ok _ _ _ _ _ E1). destruct b.
  - destruct H1 as (rj & r' & Hrj & Hr' & Hlt & Hst). rewrite bind_gets, Hrj.
    destruct (SeekToRestartPoint_ok rj r' it1 Hr' Hst) as (it2 & E2 & H2).
    rewrite (bind_ok _ _ _ _ _ E2).
    destruct (scan_to i o r' it2 Ho ltac:(lia) H2) as (it3 & E3 & H3).
    exists it3. split; [done|]. destruct i; [lia|done].
  - destruct H1 as [-> Hend]. exists it1. split; [done|]. by apply cursor_pos_ge.
Qed.

(** ** Seeking *)

Context {L : ComparatorLaws C} (Hvalid : Forall (fun kv => valid kv.1) kvs) (Hasc : ascending C kvs).
Context (Hnum : 4 * Z.of_nat (length rs) <= Z.of_nat (length data)).

Lemma key_valid i k v : kvs !! i = Some (k, v) -> valid k.
Proof. intros H. by eapply (Forall_lookup_1 _ kvs i (k, v)) in Hvalid. Qed.

(** Keys are in order. *)
Lemma ascending_lt d i k v k' v' :
  kvs !! i = Some (k, v) -> kvs !! (i + S d)%nat = Some (k', v') ->
  exists c, Compare k k' = Some c /\ c < 0.
Proof.
  revert k' v'. induction d as [|d IH]; intros k' v' Hi Hj.
  - rewrite Nat.add_1_r in Hj. destruct (Hasc i k v k' v' Hi Hj) as (c & Hc & Hpos).
    pose proof (key_valid _ _ _ Hi) as Vk. pose proof (key_valid _ _ _ Hj) as Vk'.
    destruct (compare_total k k' Vk Vk') as [c' Hc']. exists c'. split; [done|].
    pose proof (compare_antisym k' k c c' Vk' Vk Hc Hc'). lia.
  - destruct (kvs !! (i + S d)%nat) as [[k1 v1]|] eqn:E.
    2:{ apply lookup_ge_None in E. apply lookup_lt_Some in Hj. lia. }
    destruct (IH k1 v1 Hi eq_refl) as (c1 & Hc1 & Hlt1). replace (i + S (S d))%nat with (S (i + S d)) in Hj by lia.
    destruct (Hasc _ k1 v1 k' v' E Hj) as (c2 & Hc2 & Hpos2).
    pose proof (key_valid _ _ _ Hi) as Vk. pose proof (key_valid _ _ _ Hj) as Vk'.
    pose proof (key_valid _ _ _ E) as V1.
    destruct (compare_total k1 k' V1 Vk') as [c3 Hc3].
    pose proof (compare_antisym k' k1 c2 c3 Vk' V1 Hc2 Hc3).
    destruct (compare_trans k k1 k' c1 c3 Vk V1 Vk' Hc1 Hc3) as (c & Hc & _ & Hlt); [lia|lia|].
    exists c. split; [done|]. apply Hlt. by left.
Qed.

Context (target : Slice) (Htarget : valid target).

(** Entry [i] comes before the target. *)
Definition key_before (i : nat) : bool :=
  match kvs !! i with
  | Some (k, _) => match Compare k target with Some c => c <? 0 | None => false end
  | None => false
  end.

Lemma key_before_down i j : (i < j)%nat -> key_before j = true -> key_before i = true.
Proof.
  unfold key_before. intros Hij Hj. destruct (kvs !! j) as [[k' v']|] eqn:Ej; [|done].
  destruct (kvs !! i) as [[k v]|] eqn:Ei; [|apply lookup_ge_None in Ei; apply lookup_lt_Some in Ej; lia].
  replace j with (i + S (j - i - 1))%nat in Ej by lia.
  destruct (ascending_lt _ i k v k' v' Ei Ej) as (c & Hc & Hlt).
  pose proof (key_valid _ _ _ Ei) as Vk. pose proof (key_valid _ _ _ Ej) as Vk'.
  destruct (Compare k' target) as [c'|] eqn:Hc'; [|done]. apply Z.ltb_lt in Hj.
  destruct (compare_trans k k' target c c' Vk Vk' Htarget Hc Hc') as (c2 & -> & _ & Hlt2); [lia|lia|].
  apply Z.ltb_lt, Hlt2. by left.
Qed.

(** The number of keys before the target is where they end. *)
Lemma keys_before_eq j :
  (j <= n)%nat -> (forall m, (m < j)%nat -> key_before m = true) -> ((j < n)%nat -> key_before j = false) ->
  keys_before C target kvs = j.
Proof.
  intros Hj Hlt Hge. unfold keys_before. rewrite <- (take_drop j kvs).
  rewrite List.filter_app, filter_all, filter_none, app_nil_r.
  - rewrite length_take. unfold n in Hj. lia.
  - apply Forall_lookup_2. intros m [k v] Hm. rewrite lookup_drop in Hm. cbn [fst].
    apply not_true_is_false. intros Hb. assert (key_before (j + m) = true) as Hb2
      by (unfold key_before; by rewrite Hm).
    assert (j < n)%nat as Hjn by (apply lookup_lt_Some in Hm; unfold n; lia).
    specialize (Hge Hjn). destruct m as [|m]; [rewrite Nat.add_0_r, Hge in Hb2; done|].
    apply (key_before_down j) in Hb2; [congruence|lia].
  - apply Forall_lookup_2. intros m [k v] Hm. cbn [fst].
    apply lookup_take_Some in Hm as [Hm Hmj]. specialize (Hlt m Hmj). unfold key_before in Hlt. by rewrite Hm in Hlt.
Qed.

(** The restart point is the first, or its key is before the target. *)
Definition left_ok (l : nat) : Prop :=
  (l < length rs)%nat /\ (l = 0%nat \/ exists r, rs !! l = Some r /\ key_before r = true).

Lemma search_round_ok l h it :
  left_ok l -> (l < h < length rs)%nat ->
  exists l' h', search_round C data restarts num target (Z.of_nat l, Z.of_nat h) it =
    Ok (inl (Z.of_nat l', Z.of_nat h')) it /\ left_ok l' /\ (l' <= h' < length rs)%nat /\ (h' - l' < h - l)%nat.
Proof.
  intros Hl Hh. unfold search_round. destruct (Z.ltb_spec (Z.of_nat l) (Z.of_nat h)); [|lia].
  rewrite uwrap_small by (unfold data in *; lia).
  set (mid := ((l + h + 1) / 2)%nat).
  assert ((Z.of_nat l + Z.of_nat h + 1) / 2 = Z.of_nat mid) as ->
    by (unfold mid; rewrite Nat2Z.inj_div; f_equal; lia).
  assert (l < mid <= h)%nat as Hmid.
  { unfold mid. pose proof (Nat.div_mod (l + h + 1) 2 ltac:(lia)).
    pose proof (Nat.mod_upper_bound (l + h + 1) 2 ltac:(lia)). lia. }
  destruct (lookup_lt_is_Some_2 rs mid ltac:(lia)) as [r Hr].
  destruct (restart_bound _ _ Hr) as [_ Hrn]. specialize (Hrn ltac:(lia)).
  destruct (lookup_lt_is_Some_2 kvs r ltac:(unfold n in Hrn; lia)) as [[k v] Hkv].
  destruct (offset_total r ltac:(lia)) as [o Ho]. destruct (offset_total (S r) ltac:(lia)) as [o' Ho'].
  rewrite (bind_ok _ _ _ _ _ (GetRestartPoint_eq mid r o it Hr Ho)).
  destruct (entry_decoded r k v o o' Hkv Ho Ho') as
    (shared & rest & p & Hdec & Hp & Hdelta & _ & _ & _ & _ & Hshared).
  rewrite Hdec, Hp. rewrite (Hshared ltac:(by eapply list_elem_of_lookup_2)) in *.
  change (Z.of_nat 0) with 0. change (0 =? 0) with true. cbn [negb].
  rewrite (bind_or_ub _ _ _ _ Hdelta), drop_0.
  destruct (compare_total k target (key_valid _ _ _ Hkv) Htarget) as [c Hc].
  rewrite (bind_or_ub _ _ _ _ Hc). destruct (Z.ltb_spec c 0).
  - exists mid, h. split; [done|]. split; [|lia]. split; [lia|]. right. exists r. split; [done|].
    unfold key_before. rewrite Hkv, Hc. by apply Z.ltb_lt.
  - exists l, (mid - 1)%nat. split; [unfold ret; do 4 f_equal; lia|]. split; [done|]. lia.
Qed.

Lemma search_ok fuel l h it :
  left_ok l -> (l <= h < length rs)%nat -> (h - l < fuel)%nat ->
  exists l', loop fuel (search_round C data restarts num target) (Z.of_nat l, Z.of_nat h) it =
    Ok (Some (Z.of_nat l')) it /\ left_ok l'.
Proof.
  revert l h. induction fuel as [|fuel IH]; intros l h Hl Hh Hfuel; [lia|]. rewrite loop_S.
  destruct (decide (l < h)%nat) as [Hlt|Hge].
  - destruct (search_round_ok l h it Hl ltac:(lia)) as (l' & h' & E & Hl' & Hh' & Hdec).
    rewrite (bind_ok _ _ _ _ _ E). apply IH; done || lia.
  - unfold search_round at 1. destruct (Z.ltb_spec (Z.of_nat l) (Z.of_nat h)); [lia|].
    rewrite bind_ret. by exists l.
Qed.

Lemma Iter_Seek_ok i it :
  cursor_pos i it ->
  exists it', Iter_Seek C data restarts num target it = Ok tt it' /\ cursor_pos (keys_before C target kvs) it'.
Proof.
  intros Hpos. unfold Iter_Seek. pose proof (el_restart _ _ _ _ HL) as H0.
  pose proof (lookup_lt_Some _ _ _ H0) as Hlen.
  destruct (search_ok (S (Z.to_nat num)) 0 (length rs - 1) it) as (l & E & Hl1 & Hl2);
    [by split; [|left]|lia|unfold num; lia|].
  replace (num - 1) with (Z.of_nat (length rs - 1)) by (unfold num; lia).
  change 0 with (Z.of_nat 0). rewrite (bind_ok _ _ _ _ _ E).
  destruct (lookup_lt_is_Some_2 rs l Hl1) as [r Hr].
  destruct (SeekToRestartPoint_ok l r it Hr (cursor_status_ok i it Hpos)) as (it1 & E1 & H1).
  rewrite (bind_ok _ _ _ _ _ E1).
  destruct (parse_while_ok (let! key := gets key_ in
    let! c := or_ub (Compare key target) in ret (c <? 0)) key_before r it1) as
    (j & it2 & E2 & H2 & Hj & Hgo & Hstop); try done.
  - intros j it2 Hlt (k & v & o & o' & vo & ri & Hk & _ & _ & -> & _). rewrite bind_gets. cbn [key_].
    destruct (compare_total k target (key_valid _ _ _ Hk) Htarget) as [c Hc].
    rewrite (bind_or_ub _ _ _ _ Hc). unfold key_before. by rewrite Hk, Hc.
  - apply (restart_bound _ _ Hr).
  - exists it2. split; [exact E2|]. rewrite (keys_before_eq j); [done|lia| |done].
    intros m Hm. destruct (decide (r <= m)%nat) as [Hle|Hgt]; [apply Hgo; lia|].
    destruct Hl2 as [->|(r' & Hr' & Hb)].
    + rewrite H0 in Hr. injection Hr as <-. lia.
    + rewrite Hr in Hr'. injection Hr' as <-. apply (key_before_down m r); [lia|done].
Qed.

End reader.

(** * Properties of blocks

    What is built from a sorted list of entries is read back as that list, by a
    cursor that can be moved in both directions and to any key.  A block that was
    not built this way can make the reader leave its memory. *)

(** ** The restart array *)

Definition words (ws : list Z) : Slice := concat (EncodeFixed32 <$> ws).

Lemma foldl_PutFixed32 buf ws : foldl PutFixed32 buf ws = buf ++ words ws.
Proof.
  revert buf. induction ws as [|w ws IH]; intros buf; cbn [foldl]; [by rewrite app_nil_r|].
  rewrite IH. unfold PutFixed32, words. cbn [fmap list_fmap concat]. by rewrite <- app_assoc.
Qed.

Lemma words_length ws : length (words ws) = (4 * length ws)%nat.
Proof.
  induction ws as [|w ws IH]; [done|]. change (words (w :: ws)) with (EncodeFixed32 w ++ words ws).
  rewrite length_app, IH. cbn [length]. rewrite EncodeFixed32_length. lia.
Qed.

Lemma words_lookup ws j w post :
  ws !! j = Some w -> 0 <= w < 2 ^ 32 -> DecodeFixed32 (drop (j * 4) (words ws ++ post)) = Some w.
Proof.
  revert j. induction ws as [|x ws IH]; intros j Hj Hw; [done|].
  change (words (x :: ws)) with (EncodeFixed32 x ++ words ws). destruct j as [|j].
  - injection Hj as ->. cbn [Nat.mul]. rewrite drop_0, <- app_assoc. by apply DecodeFixed32_EncodeFixed32.
  - replace (S j * 4)%nat with (4 + j * 4)%nat by lia.
    rewrite <- drop_drop, <- app_assoc. change (drop 4 (EncodeFixed32 x ++ words ws ++ post)) with (words ws ++ post).
    by apply IH.
Qed.

Lemma words_bytes ws : Forall is_byte (words ws).
Proof.
  induction ws as [|w ws IH]; [constructor|]. change (words (w :: ws)) with (EncodeFixed32 w ++ words ws).
  apply Forall_app. split; [apply EncodeFixed32_bytes|done].
Qed.

Section block.
Context (C : Comparator) {L : ComparatorLaws C} (interval : Z).

(** What [Finish] leaves, and what the reader makes of it. *)
Section finished.
Context (b : BlockBuilder) (kvs : list (Slice * Slice)) (offs rs : list nat).
Context (HB : building interval b kvs offs rs) (Hroom : entries_size kvs + 8 < 2 ^ 32).

Let buf := buffer_ b.
Let tail_ := words (restarts_ b) ++ EncodeFixed32 (Z.of_nat (length rs)).
Let contents := buf ++ tail_.

Lemma restarts_length : length (restarts_ b) = length rs.
Proof. symmetry. eapply Forall2_length, (bu_restarts _ _ _ _ _ HB). Qed.

Lemma contents_length : length contents = (length buf + 4 * length rs + 4)%nat.
Proof.
  unfold contents, tail_. rewrite !length_app, words_length, EncodeFixed32_length, restarts_length. lia.
Qed.

Lemma contents_small : Z.of_nat (length contents) < 2 ^ 32.
Proof. rewrite contents_length. pose proof (bu_size _ _ _ _ _ HB). unfold buf. lia. Qed.

Lemma Finish_eq : exists b', BlockBuilder_Finish b = Ok contents b'.
Proof.
  unfold BlockBuilder_Finish. rewrite bind_modify. unfold gets. cbn [buffer_]. eexists.
  rewrite foldl_PutFixed32, restarts_length. pose proof contents_small. rewrite contents_length in *.
  rewrite uwrap_small by lia. unfold PutFixed32, contents, tail_, buf. by rewrite <- app_assoc.
Qed.

Lemma CurrentSizeEstimate_eq : CurrentSizeEstimate b = Z.of_nat (length contents).
Proof. unfold CurrentSizeEstimate. rewrite restarts_length, contents_length. unfold buf. lia. Qed.

Lemma restart_points j r o : rs !! j = Some r -> offs !! r = Some o ->
  DecodeFixed32 (drop (length buf + j * 4) contents) = Some (Z.of_nat o).
Proof.
  intros Hj Ho. unfold contents. rewrite drop_app_add. unfold tail_.
  pose proof (bu_restarts _ _ _ _ _ HB) as HR. unfold restart_offsets in HR.
  eapply Forall2_lookup_l in HR as (w & Hw & o2 & Ho2 & ->); [|exact Hj].
  rewrite Ho in Ho2. injection Ho2 as <-. apply (words_lookup _ _ _ _ Hw).
  pose proof (offset_bound _ tail_ _ _ _ (bu_laid _ _ _ _ _ HB) r o Ho).
  pose proof contents_small. rewrite contents_length in *. unfold buf in *. lia.
Qed.

Lemma reader_made :
  exists blk it, new_Block contents = Some blk /\
    NewIterator blk = Some (BlockIterator (Z.of_nat (length buf)) (Z.of_nat (length rs)) it) /\
    at_end buf it.
Proof.
  pose proof contents_small as Hs. pose proof contents_length as Hl.
  pose proof (lookup_lt_Some _ _ _ (el_restart _ _ _ _ (bu_laid _ _ _ _ _ HB))) as Hr.
  assert (NumRestarts contents (length contents) = Some (Z.of_nat (length rs))) as Hnum.
  { unfold NumRestarts. destruct (Nat.leb_spec 4 (length contents)); [|lia].
    unfold contents, tail_. rewrite app_assoc. rewrite drop_app_length'.
    - pose proof (DecodeFixed32_EncodeFixed32 (Z.of_nat (length rs)) [] ltac:(lia)) as E.
      by rewrite app_nil_r in E.
    - rewrite !length_app, words_length, EncodeFixed32_length. lia. }
  unfold new_Block. destruct (Nat.ltb_spec (length contents) 4); [lia|]. rewrite Hnum. cbn [mbind option_bind].
  destruct (Z.ltb_spec ((Z.of_nat (length contents) - 4) / 4) (Z.of_nat (length rs))) as [Hlt|_].
  { exfalso. apply Z.div_lt_upper_bound in Hlt || idtac.
    assert (Z.of_nat (length rs) <= (Z.of_nat (length contents) - 4) / 4) by (apply Z.div_le_lower_bound; lia). lia. }
  assert (u32 (Z.of_nat (length contents) - u32 (1 + Z.of_nat (length rs)) * 4) = Z.of_nat (length buf)) as ->.
  { rewrite (uwrap_small 32 (1 + _)) by lia. rewrite uwrap_small by lia. lia. }
  eexists _, _. split; [done|]. unfold NewIterator. cbn [size_ data_ restart_offset_].
  destruct (Nat.ltb_spec (length contents) 4); [lia|]. rewrite Hnum. cbn [mbind option_bind].
  destruct (Z.eqb_spec (Z.of_nat (length rs)) 0); [lia|]. unfold new_Iter.
  destruct (Z.ltb_spec 0 (Z.of_nat (length rs))); [|lia]. cbn [mbind option_bind]. split; done.
Qed.

Context (Hasc : ascending C kvs) (Hvalid : Forall (fun kv => valid kv.1) kvs).

Let restarts := Z.of_nat (length buf).
Let num := Z.of_nat (length rs).

Lemma keys_short : Forall (fun kv : Slice * Slice => Z.of_nat (length kv.1) < 2 ^ 32) kvs.
Proof.
  clear HB Hasc Hvalid. induction kvs as [|kv l IH]; [constructor|]. rewrite entries_size_cons in Hroom.
  pose proof (entries_size_nonneg l). pose proof (entry_size_pos kv).
  constructor; [unfold entry_size in *; lia|]. apply IH. lia.
Qed.

Lemma block_cursor :
  cursor_over (Block_Iter C contents restarts num) C valid kvs (cursor_pos buf tail_ kvs offs rs).
Proof.
  pose proof (bu_laid _ _ _ _ _ HB) as HL. pose proof restart_points as Hp.
  pose proof contents_small as Hs. pose proof keys_short as Hk.
  assert (4 * Z.of_nat (length rs) <= Z.of_nat (length contents)) as Hn by (rewrite contents_length; lia).
  split; cbn [it_Valid it_key it_value it_status it_SeekToFirst it_SeekToLast it_Seek it_Next it_Prev Block_Iter].
  - intros i it k v Hpos Hkv. apply cursor_pos_lt in Hpos; [|by eapply lookup_lt_Some].
    destruct Hpos as (k' & v' & o & o' & vo & ri & Hkv' & Ho & Ho' & -> & Hend & Hval & _).
    assert (k' = k /\ v' = v) as [-> ->] by (split; congruence).
    pose proof (offset_step _ tail_ _ _ _ HL i o o' Ho Ho') as Hstep.
    assert (Iter_Valid restarts (mk_block_iter (Z.of_nat o) (Z.of_nat ri) k
      (Some (Z.of_nat vo, Z.of_nat (length v))) Status_OK) = true) as Hv
      by (apply Z.ltb_lt; cbn [current_]; unfold restarts, buf; lia).
    split; [done|]. split.
    + unfold Iter_key. rewrite bind_gets. unfold id. by rewrite bind_assert.
    + unfold Iter_value. rewrite bind_gets. unfold id. rewrite bind_assert by done. cbn [value_ or_ub].
      rewrite bind_ret. cbn [fst snd]. unfold bytes_at. rewrite !Nat2Z.id.
      fold contents in Hval. rewrite Hval.
      destruct (Z.leb_spec (Z.of_nat (length v)) (Z.of_nat (length (drop vo contents)))); [done|].
      rewrite length_drop, contents_length in *. unfold buf in *. lia.
  - intros i it Hpos Hi. apply cursor_pos_ge in Hpos; [|done]. destruct Hpos as [Hc _].
    unfold Iter_Valid. rewrite Hc. apply Z.ltb_irrefl.
  - intros i it Hpos. f_equal. by eapply cursor_status_ok.
  - intros i it. by apply (Iter_SeekToFirst_ok buf tail_ kvs offs rs HL Hp Hs Hk).
  - intros i it. by apply (Iter_SeekToLast_ok buf tail_ kvs offs rs HL Hp Hs Hk).
  - intros i it target Hpos Ht. by apply (Iter_Seek_ok C buf tail_ kvs offs rs HL Hp Hs Hk Hvalid Hasc Hn target Ht i).
  - intros i it. by apply (Iter_Next_ok buf tail_ kvs offs rs HL Hp Hs Hk).
  - intros i it. by apply (Iter_Prev_ok buf tail_ kvs offs rs HL Hp Hs Hk).
Qed.

End finished.

(** C32: A block built from entries in the order of their keys has the estimated
    size, and its iterator is a cursor over exactly these entries: first, last,
    next and previous entry, and the first entry not before any key. *)
Theorem block_is_cursor kvs :
  1 <= interval -> entries_ok C kvs -> Forall (fun kv => valid kv.1) kvs ->
  exists b contents b' blk restarts num it pos,
    add_entries C interval kvs BlockBuilder_Reset = Ok tt b /\
    BlockBuilder_Finish b = Ok contents b' /\ CurrentSizeEstimate b = Z.of_nat (length contents) /\
    new_Block contents = Some blk /\ NewIterator blk = Some (BlockIterator restarts num it) /\
    cursor_over (Block_Iter C contents restarts num) C valid kvs pos /\ pos (length kvs) it.
Proof.
  intros Hi Hok Hv. destruct (add_entries_ok C interval Hi kvs Hok) as (b & offs & rs & E & HB).
  destruct Hok as (Hasc & Hroom & _).
  destruct (Finish_eq b kvs offs rs HB Hroom) as [b' Ef].
  destruct (reader_made b kvs offs rs HB Hroom) as (blk & it & Eb & Ei & Hend).
  eexists b, _, b', blk, _, _, it, _. split; [done|]. split; [exact Ef|].
  split; [by apply (CurrentSizeEstimate_eq b kvs offs rs HB)|]. split; [done|]. split; [done|].
  split; [by apply (block_cursor b kvs offs rs HB Hroom)|]. by apply cursor_pos_ge.
Qed.

End block.

(** ** Instances *)

Definition sample_entries_block : list (Slice * Slice) :=
  [([97; 98], [1]); ([97; 98; 99], []); ([98], [2; 3])].

Lemma sample_entries_ok : entries_ok BytewiseComparator sample_entries_block.
Proof.
  split; [|split].
  - intros i k v k' v' Hi Hj. destruct i as [|[|[|i]]]; try discriminate Hj;
      injection Hi as <- <-; injection Hj as <- <-; exists 1; done.
  - done.
  - repeat constructor; done.
Qed.

Lemma block_is_cursor_witness :
  exists b contents b' blk restarts num it pos,
    add_entries BytewiseComparator 2 sample_entries_block BlockBuilder_Reset = Ok tt b /\
    BlockBuilder_Finish b = Ok contents b' /\ CurrentSizeEstimate b = Z.of_nat (length contents) /\
    new_Block contents = Some blk /\ NewIterator blk = Some (BlockIterator restarts num it) /\
    cursor_over (Block_Iter BytewiseComparator contents restarts num) BytewiseComparator (@valid _ BytewiseComparator_laws)
      sample_entries_block pos /\ pos (length sample_entries_block) it.
Proof.
  apply (block_is_cursor BytewiseComparator 2 sample_entries_block).
  - done.
  - apply sample_entries_ok.
  - repeat constructor; done.
Defined.

(** The block of these entries: the second shares two bytes with the first, the
    third is a restart point. *)
Example sample_block_bytes :
  match add_entries BytewiseComparator 2 sample_entries_block BlockBuilder_Reset with
  | Ok _ b => match BlockBuilder_Finish b with Ok c _ => c | _ => [] end
  | _ => []
  end = [0; 2; 1; 97; 98; 1;  2; 1; 0; 99;  0; 1; 2; 98; 2; 3;
         0; 0; 0; 0;  10; 0; 0; 0;  2; 0; 0; 0].
Proof. by vm_compute. Qed.

(** ** A corrupt block *)

(** An entry whose two lengths add up to 2^32. *)
Definition wrapping_block : Slice :=
  [0; 129; 128; 128; 128; 8; 255; 255; 255; 255; 7; 0; 0; 0; 0; 1; 0; 0; 0].

(** The reader accepts an entry whose key length and value length add up to
    2^32, because their sum is computed with 32 bits; stepping onto it reads a key
    of two gigabytes from a block of nineteen bytes. *)
Theorem wrapping_lengths_undefined :
  exists blk restarts num it,
    new_Block wrapping_block = Some blk /\ NewIterator blk = Some (BlockIterator restarts num it) /\
    DecodeEntry (up_to_limit wrapping_block restarts 0) = Some (0, 2 ^ 31 + 1, 2 ^ 31 - 1, []) /\
    Iter_SeekToFirst wrapping_block restarts num it = Ub.
Proof. do 4 eexists. by repeat split; vm_compute. Qed.
