(* ===== verification/Format.v ===== *)
(** * The format of a table file (format.h, format.cc)

    A table refers to its blocks by handles; the footer at its end has the handles
    of the two blocks from which all others are found.  Every block is followed by
    its type and a checksum. *)

From Stdlib Require Import ZArith Lia.
From stdpp Require Import base option list strings gmap.
From S2P Require Import Prelude Memory Wire Slice Coding Crc32c Status Env.

Record BlockHandle := mk_handle { offset_ : Z; size_ : Z }.

Definition kMaxEncodedLength : nat := (10 + 10)%nat.
Definition kEncodedLength : nat := (2 * kMaxEncodedLength + 8)%nat.
Definition kTableMagicNumber : Z := 0xdb4775248b80fb57.
Definition kBlockTrailerSize : Z := 5.

(** [~0]: the handle has not been set. *)
Definition unset : Z := 2 ^ 64 - 1.
Definition new_BlockHandle : BlockHandle := mk_handle unset unset.

(** [None] is a failed assertion. *)
Definition BlockHandle_EncodeTo (h : BlockHandle) (dst : Slice) : option Slice :=
  if negb (offset_ h =? unset) && negb (size_ h =? unset) then
    dst ← PutVarint64 dst (offset_ h); PutVarint64 dst (size_ h)
  else None.

(** The status, with the handle and the input as they are left. *)
Definition BlockHandle_DecodeFrom (h : BlockHandle) (input : Slice)
    : option (Status * BlockHandle * Slice) :=
  match GetVarint64 input with
  | Some (offset, input) =>
      match GetVarint64 input with
      | Some (size, input) => Some (Status_OK, mk_handle offset size, input)
      | None => s ← Status_Corruption (c_string "bad block handle") [];
                Some (s, mk_handle offset (size_ h), input)
      end
  | None => s ← Status_Corruption (c_string "bad block handle") []; Some (s, h, input)
  end.

Record Footer := mk_footer { metaindex_handle_ : BlockHandle; index_handle_ : BlockHandle }.

Definition new_Footer : Footer := mk_footer new_BlockHandle new_BlockHandle.

(** [dst->resize(n)]: cut off, or filled up with zeros. *)
Definition resize_to (n : nat) (dst : Slice) : Slice := take n dst ++ replicate (n - length dst) 0.

Definition Footer_EncodeTo (f : Footer) (dst : Slice) : option Slice :=
  let original_size := length dst in
  dst ← BlockHandle_EncodeTo (metaindex_handle_ f) dst;
  dst ← BlockHandle_EncodeTo (index_handle_ f) dst;
  let dst := resize_to (2 * kMaxEncodedLength) dst in
  let dst := PutFixed32 dst (u32 (Z.land kTableMagicNumber 0xffffffff)) in
  let dst := PutFixed32 dst (u32 (Z.shiftr kTableMagicNumber 32)) in
  if (length dst =? original_size + kEncodedLength)%nat then Some dst else None.

(** [None] is a read past the end of the input. *)
Definition Footer_DecodeFrom (f : Footer) (input : Slice) : option (Status * Footer * Slice) :=
  let magic_ptr := drop (kEncodedLength - 8) input in
  magic_lo ← DecodeFixed32 magic_ptr;
  magic_hi ← DecodeFixed32 (drop 4 magic_ptr);
  let magic := Z.lor (u64 (Z.shiftl magic_hi 32)) magic_lo in
  if negb (magic =? kTableMagicNumber) then
    s ← Status_Corruption (c_string "not an sstable (bad magic number)") []; Some (s, f, input)
  else
    r ← BlockHandle_DecodeFrom (metaindex_handle_ f) input;
    let '(s, metaindex, rest) := r in
    if ok s then
      r ← BlockHandle_DecodeFrom (index_handle_ f) rest;
      let '(s, index, rest) := r in
      Some (s, mk_footer metaindex index, if ok s then drop kEncodedLength input else rest)
    else Some (s, mk_footer metaindex (index_handle_ f), rest).

(** ** Blocks in a file *)

Inductive CompressionType := kNoCompression | kSnappyCompression.

Definition compression_byte (t : CompressionType) : Z :=
  match t with kNoCompression => 0x0 | kSnappyCompression => 0x1 end.

(** The functions of port.h; [None] for a result of false. *)
Class Snappy := {
  Snappy_Compress : Slice -> option Slice;
  Snappy_GetUncompressedLength : Slice -> option Z;
  Snappy_Uncompress : Slice -> option Slice
}.

Record BlockContents := mk_contents { data : Slice; cachable : bool; heap_allocated : bool }.

Definition no_contents : BlockContents := mk_contents [] false false.

Section read_block.
Context {PL : Platform} {PM : Placement} {SN : Snappy} {F : Type} {RA : RandomAccessFile F}.

Definition corrupt (msg : string) : option (Status * BlockContents) :=
  s ← Status_Corruption (c_string msg) []; Some (s, no_contents).

(** The block when it has passed the checksum; [in_buffer] tells whether the bytes
    are in the buffer that was allocated for them. *)
Definition block_contents (n : nat) (contents : Slice) (in_buffer : bool)
    : option (Status * BlockContents) :=
  type ← contents !! n;
  let bytes := take n contents in
  if type =? compression_byte kNoCompression then
    Some (Status_OK, mk_contents bytes in_buffer in_buffer)
  else if type =? compression_byte kSnappyCompression then
    match Snappy_GetUncompressedLength bytes with
    | None => corrupt "corrupted compressed block contents"
    | Some ulength =>
        match Snappy_Uncompress bytes with
        | None => corrupt "corrupted compressed block contents"
        | Some ubuf =>
            if Z.of_nat (length ubuf) =? ulength
            then Some (Status_OK, mk_contents ubuf true true) else None
        end
    end
  else corrupt "bad block type".

(** [None] is a read outside of the bytes that the file has returned. *)
Definition ReadBlock (file : F) (verify_checksums : bool) (handle : BlockHandle)
    : option (Status * BlockContents) :=
  let n := usize (size_ handle) in
  let '(s, contents, in_buffer) := ReadAt (offset_ handle) (usize (n + kBlockTrailerSize)) file in
  if negb (ok s) then Some (s, no_contents)
  else if negb (Z.of_nat (length contents) =? usize (n + kBlockTrailerSize)) then
    corrupt "truncated block read"
  else
    match (if verify_checksums then
             stored ← DecodeFixed32 (drop (Z.to_nat (n + 1)) contents);
             actual ← (if n + 1 <=? Z.of_nat (length contents)
                       then Value (placed contents) (take (Z.to_nat (n + 1)) contents) else None);
             Some (actual =? Unmask stored)
           else Some true) with
    | None => None
    | Some false => corrupt "block checksum mismatch"
    | Some true => block_contents (Z.to_nat n) contents in_buffer
    end.

End read_block.

(** ** Handles and footers survive *)

Lemma PutVarint64_eq dst v : 0 <= v < 2 ^ 64 -> PutVarint64 dst v = Some (dst ++ varint_bytes v).
Proof. intros Hv. unfold PutVarint64. by rewrite EncodeVarint64_eq. Qed.

Definition handle_ok (h : BlockHandle) : Prop := 0 <= offset_ h < unset /\ 0 <= size_ h < unset.

Definition handle_bytes (h : BlockHandle) : Slice := varint_bytes (offset_ h) ++ varint_bytes (size_ h).

Lemma BlockHandle_EncodeTo_eq h dst :
  handle_ok h -> BlockHandle_EncodeTo h dst = Some (dst ++ handle_bytes h).
Proof.
  unfold handle_ok, unset. intros [Ho Hs]. unfold BlockHandle_EncodeTo, unset.
  destruct (Z.eqb_spec (offset_ h) (2 ^ 64 - 1)); [lia|]. destruct (Z.eqb_spec (size_ h) (2 ^ 64 - 1)); [lia|].
  cbn [negb andb]. rewrite PutVarint64_eq by lia. cbn [mbind option_bind].
  rewrite PutVarint64_eq by lia. unfold handle_bytes. by rewrite app_assoc.
Qed.

Lemma handle_bytes_length h : (2 <= length (handle_bytes h) <= kMaxEncodedLength)%nat.
Proof.
  unfold handle_bytes, kMaxEncodedLength. rewrite length_app.
  pose proof (varint_bytes_length (offset_ h)). pose proof (varint_bytes_length (size_ h)). lia.
Qed.

Lemma handle_bytes_bytes h : handle_ok h -> Forall is_byte (handle_bytes h).
Proof.
  intros [? ?]. apply Forall_app. split; apply varint_bytes_bytes; lia.
Qed.

Lemma BlockHandle_DecodeFrom_eq h h0 rest :
  handle_ok h -> Forall is_byte rest ->
  BlockHandle_DecodeFrom h0 (handle_bytes h ++ rest) = Some (Status_OK, h, rest).
Proof.
  unfold handle_ok, unset. intros [Ho Hs] Hr. unfold BlockHandle_DecodeFrom, handle_bytes.
  rewrite <- app_assoc, GetVarint64_bytes.
  - rewrite GetVarint64_bytes by (lia || done). by destruct h.
  - lia.
  - apply Forall_app. split; [apply varint_bytes_bytes; lia|done].
Qed.

Definition footer_ok (f : Footer) : Prop := handle_ok (metaindex_handle_ f) /\ handle_ok (index_handle_ f).

Definition footer_body (f : Footer) : Slice :=
  handle_bytes (metaindex_handle_ f) ++ handle_bytes (index_handle_ f).

Definition footer_bytes (f : Footer) : Slice :=
  footer_body f ++ replicate (2 * kMaxEncodedLength - length (footer_body f)) 0 ++
  EncodeFixed32 0x8b80fb57 ++ EncodeFixed32 0xdb477524.

Lemma footer_body_length f : (length (footer_body f) <= 2 * kMaxEncodedLength)%nat.
Proof.
  unfold footer_body. rewrite length_app. pose proof (handle_bytes_length (metaindex_handle_ f)).
  pose proof (handle_bytes_length (index_handle_ f)). lia.
Qed.

Lemma footer_bytes_length f : length (footer_bytes f) = kEncodedLength.
Proof.
  pose proof (footer_body_length f). unfold footer_bytes. rewrite !length_app, length_replicate.
  change (length (EncodeFixed32 0x8b80fb57)) with 4%nat. change (length (EncodeFixed32 0xdb477524)) with 4%nat.
  unfold kEncodedLength in *. lia.
Qed.

Lemma Footer_EncodeTo_eq f : footer_ok f -> Footer_EncodeTo f [] = Some (footer_bytes f).
Proof.
  intros [Hm Hi]. pose proof (footer_body_length f) as Hl. unfold Footer_EncodeTo.
  rewrite BlockHandle_EncodeTo_eq by done. cbn [mbind option_bind app].
  rewrite BlockHandle_EncodeTo_eq by done. cbn [mbind option_bind]. fold (footer_body f).
  unfold resize_to. rewrite take_ge by done. unfold PutFixed32.
  change (u32 (Z.land kTableMagicNumber 0xffffffff)) with 0x8b80fb57.
  change (u32 (Z.shiftr kTableMagicNumber 32)) with 0xdb477524. rewrite <- !app_assoc.
  fold (footer_bytes f). rewrite footer_bytes_length. cbn [length Nat.add]. by rewrite Nat.eqb_refl.
Qed.

(** The footer is read back from the end of a file, with what is behind it. *)
Lemma Footer_DecodeFrom_eq f f0 rest :
  footer_ok f -> Forall is_byte rest ->
  Footer_DecodeFrom f0 (footer_bytes f ++ rest) = Some (Status_OK, f, rest).
Proof.
  intros [Hm Hi] Hr. pose proof (footer_body_length f) as Hl. unfold Footer_DecodeFrom.
  set (pad := replicate (2 * kMaxEncodedLength - length (footer_body f)) 0).
  set (magic := EncodeFixed32 0x8b80fb57 ++ EncodeFixed32 0xdb477524).
  assert (footer_bytes f ++ rest = (footer_body f ++ pad) ++ magic ++ rest) as Hsplit
    by (unfold footer_bytes, magic, pad; by rewrite <- !app_assoc).
  assert (length (footer_body f ++ pad) = kEncodedLength - 8)%nat as Hpad
    by (unfold pad; rewrite length_app, length_replicate; unfold kEncodedLength; lia).
  assert (drop (kEncodedLength - 8) (footer_bytes f ++ rest) = magic ++ rest) as ->
    by (rewrite Hsplit; by apply drop_app_length').
  unfold magic. rewrite <- app_assoc, DecodeFixed32_EncodeFixed32 by done. cbn [mbind option_bind].
  change (drop 4 (EncodeFixed32 0x8b80fb57 ++ EncodeFixed32 0xdb477524 ++ rest))
    with (EncodeFixed32 0xdb477524 ++ rest).
  rewrite DecodeFixed32_EncodeFixed32 by done. cbn [mbind option_bind].
  change (Z.lor (u64 (Z.shiftl 0xdb477524 32)) 0x8b80fb57) with kTableMagicNumber.
  rewrite Z.eqb_refl. cbn [negb].
  assert (Forall is_byte (pad ++ magic ++ rest)) as Hb.
  { apply Forall_app. split; [apply Forall_replicate; unfold is_byte; lia|]. apply Forall_app.
    split; [apply Forall_app; split; apply EncodeFixed32_bytes|done]. }
  rewrite Hsplit. unfold footer_body. rewrite <- !app_assoc.
  rewrite BlockHandle_DecodeFrom_eq by (done || (apply Forall_app; split; [by apply handle_bytes_bytes|done])).
  cbn [mbind option_bind ok state_ Status_OK]. rewrite BlockHandle_DecodeFrom_eq by done.
  cbn [mbind option_bind ok state_ Status_OK]. do 3 f_equal; [by destruct f|].
  assert (handle_bytes (metaindex_handle_ f) ++ handle_bytes (index_handle_ f) ++ pad ++ magic ++ rest =
          (footer_body f ++ pad ++ magic) ++ rest) as -> by (unfold footer_body; by rewrite <- !app_assoc).
  rewrite drop_app_length'; [done|]. rewrite app_assoc, length_app, Hpad. done.
Qed.
