(* ===== verification/TableBuilder.v ===== *)
(** * Building tables (table_builder.h, table_builder.cc)

    Entries go to data blocks, which are written when they are large enough; the
    index block gets an entry for every data block, with a key that separates it
    from the next one; filters, their handle, the index and the footer follow at
    the end. *)

From Stdlib Require Import ZArith Lia String.
From stdpp Require Import base option list strings gmap.
From S2P Require Import Prelude Memory Wire Slice Coding Crc32c Status Iterator Bloom FilterBlock Block Format.
From S2P Require Import Env.

(** The options that tables use; a comparator is known by its address. *)
Record Options := mk_options {
  comparator_address : Z;
  comparator : Comparator;
  paranoid_checks : bool;
  block_size : Z;
  block_restart_interval : Z;
  compression : CompressionType;
  filter_policy : option FilterPolicy
}.

(** The options of the index block. *)
Definition index_options (o : Options) : Options :=
  mk_options (comparator_address o) (comparator o) (paranoid_checks o) (block_size o) 1 (compression o) (filter_policy o).

(** The builder of filters keeps the policy it was made with. *)
Record Rep (F : Type) := mk_rep {
  options : Options;
  index_block_options : Options;
  file : F;
  offset : Z;
  status : Status;
  data_block : BlockBuilder;
  index_block : BlockBuilder;
  last_key : Slice;
  num_entries : Z;
  closed : bool;
  filter_block : option (FilterPolicy * FilterBlockBuilder);
  pending_index_entry : bool;
  pending_handle : BlockHandle
}.
Arguments mk_rep {F}. Arguments options {F}. Arguments index_block_options {F}. Arguments file {F}.
Arguments offset {F}. Arguments status {F}. Arguments data_block {F}. Arguments index_block {F}.
Arguments last_key {F}. Arguments num_entries {F}. Arguments closed {F}. Arguments filter_block {F}.
Arguments pending_index_entry {F}. Arguments pending_handle {F}.

Section table_builder.
Context {PL : Platform} {PM : Placement} {SN : Snappy} {F : Type} {WF : WritableFile F}.

Abbreviation R := (Rep F).

Definition set_options (o io : Options) (r : R) : R :=
  mk_rep o io (file r) (offset r) (status r) (data_block r) (index_block r) (last_key r)
    (num_entries r) (closed r) (filter_block r) (pending_index_entry r) (pending_handle r).
Definition set_file (f : F) (s : Status) (r : R) : R :=
  mk_rep (options r) (index_block_options r) f (offset r) s (data_block r) (index_block r) (last_key r)
    (num_entries r) (closed r) (filter_block r) (pending_index_entry r) (pending_handle r).
Definition set_offset (o : Z) (r : R) : R :=
  mk_rep (options r) (index_block_options r) (file r) o (status r) (data_block r) (index_block r) (last_key r)
    (num_entries r) (closed r) (filter_block r) (pending_index_entry r) (pending_handle r).
Definition set_data_block (b : BlockBuilder) (r : R) : R :=
  mk_rep (options r) (index_block_options r) (file r) (offset r) (status r) b (index_block r) (last_key r)
    (num_entries r) (closed r) (filter_block r) (pending_index_entry r) (pending_handle r).
Definition set_index_block (b : BlockBuilder) (r : R) : R :=
  mk_rep (options r) (index_block_options r) (file r) (offset r) (status r) (data_block r) b (last_key r)
    (num_entries r) (closed r) (filter_block r) (pending_index_entry r) (pending_handle r).
Definition set_last_key (k : Slice) (r : R) : R :=
  mk_rep (options r) (index_block_options r) (file r) (offset r) (status r) (data_block r) (index_block r) k
    (num_entries r) (closed r) (filter_block r) (pending_index_entry r) (pending_handle r).
Definition set_num_entries (n : Z) (r : R) : R :=
  mk_rep (options r) (index_block_options r) (file r) (offset r) (status r) (data_block r) (index_block r)
    (last_key r) n (closed r) (filter_block r) (pending_index_entry r) (pending_handle r).
Definition set_closed (r : R) : R :=
  mk_rep (options r) (index_block_options r) (file r) (offset r) (status r) (data_block r) (index_block r)
    (last_key r) (num_entries r) true (filter_block r) (pending_index_entry r) (pending_handle r).
Definition set_filter_block (b : option (FilterPolicy * FilterBlockBuilder)) (r : R) : R :=
  mk_rep (options r) (index_block_options r) (file r) (offset r) (status r) (data_block r) (index_block r)
    (last_key r) (num_entries r) (closed r) b (pending_index_entry r) (pending_handle r).
Definition set_pending (p : bool) (h : BlockHandle) (r : R) : R :=
  mk_rep (options r) (index_block_options r) (file r) (offset r) (status r) (data_block r) (index_block r)
    (last_key r) (num_entries r) (closed r) (filter_block r) p h.

(** ** Operations of the parts *)

Definition on_data {A} : M BlockBuilder A -> M R A := zoom data_block set_data_block.
Definition on_index {A} : M BlockBuilder A -> M R A := zoom index_block set_index_block.

(** A call on the filter block, if there is one. *)
Definition on_filter {A} (m : FilterPolicy -> M FilterBlockBuilder A) : M R (option A) := fun r =>
  match filter_block r with
  | Some (p, b) =>
      match m p b with
      | Ok a b' => Ok (Some a) (set_filter_block (Some (p, b')) r)
      | Err b' => Err (set_filter_block (Some (p, b')) r)
      | Ub => Ub
      | OutOfFuel => OutOfFuel
      end
  | None => Ok None r
  end.

(** A call on the file; its status becomes that of the builder. *)
Definition on_file (op : F -> Status * F) : M R unit := fun r =>
  let '(s, f) := op (file r) in Ok tt (set_file f s r).

Definition builder_ok : M R bool := gets (fun r => ok (status r)).

(** ** TableBuilder *)

Definition new_TableBuilder (o : Options) (f : F) : option R :=
  data ← new_BlockBuilder (block_restart_interval o);
  index ← new_BlockBuilder (block_restart_interval (index_options o));
  let filter := (fun p => (p, new_FilterBlockBuilder)) <$> filter_policy o in
  let r := mk_rep o (index_options o) f 0 Status_OK data index [] 0 false filter false new_BlockHandle in
  match on_filter (fun p => @StartBlock p 0) r with Ok _ r => Some r | _ => None end.

Definition ChangeOptions (o : Options) : M R Status :=
  let! r := gets id in
  if negb (comparator_address o =? comparator_address (options r)) then
    or_ub (Status_InvalidArgument (c_string "changing comparator while building table") [])
  else modify (set_options o (index_options o)) ;;; ret Status_OK.

(** The handle that is filled in. *)
Definition WriteRawBlock (block_contents : Slice) (type : CompressionType) : M R BlockHandle :=
  let! off := gets offset in
  let handle := mk_handle off (Z.of_nat (length block_contents)) in
  on_file (Append block_contents) ;;;
  let! good := builder_ok in
  (if good : bool then
     let trailer0 := [compression_byte type] in
     let! crc := or_ub (Value (placed block_contents) block_contents) in
     let! crc := or_ub (Extend (placed trailer0) crc trailer0) in
     let trailer := trailer0 ++ EncodeFixed32 (Mask crc) in
     on_file (Append trailer) ;;;
     let! good := builder_ok in
     if good : bool
     then modify (fun r => set_offset (u64 (offset r + (Z.of_nat (length block_contents) + kBlockTrailerSize))) r)
     else ret tt
   else ret tt) ;;;
  ret handle.

(** [compressed->size() < raw.size() - (raw.size() / 8u)] *)
Definition compress (type : CompressionType) (raw : Slice) : Slice * CompressionType :=
  match type with
  | kNoCompression => (raw, kNoCompression)
  | kSnappyCompression =>
      match Snappy_Compress raw with
      | Some compressed =>
          if Z.of_nat (length compressed) <? Z.of_nat (length raw) - Z.of_nat (length raw) / 8
          then (compressed, kSnappyCompression) else (raw, kNoCompression)
      | None => (raw, kNoCompression)
      end
  end.

(** The block is given and, after it has been reset, returned. *)
Definition WriteBlock (block : BlockBuilder) : M R (BlockHandle * BlockBuilder) :=
  let! good := builder_ok in
  assert_ good ;;;
  let! raw := match BlockBuilder_Finish block with Ok raw _ => ret raw | _ => ub end in
  let! o := gets options in
  let '(block_contents, type) := compress (compression o) raw in
  let! handle := WriteRawBlock block_contents type in
  ret (handle, BlockBuilder_Reset).

Definition TableBuilder_Flush : M R unit :=
  let! r := gets id in
  assert_ (negb (closed r)) ;;;
  if negb (ok (status r)) then ret tt
  else if BlockBuilder_empty (data_block r) then ret tt
  else
    assert_ (negb (pending_index_entry r)) ;;;
    let! w := WriteBlock (data_block r) in
    modify (set_data_block (snd w)) ;;;
    modify (fun r => set_pending (pending_index_entry r) (fst w) r) ;;;
    let! good := builder_ok in
    (if good : bool then
       modify (fun r => set_pending true (pending_handle r) r) ;;;
       on_file Flush
     else ret tt) ;;;
    let! off := gets offset in
    on_filter (fun p => @StartBlock p off) ;;;
    ret tt.

(** The entry of the index block for the last data block. *)
Definition add_index_entry (find : Options -> Slice -> option Slice) : M R unit :=
  let! r := gets id in
  let! k := or_ub (find (options r) (last_key r)) in
  modify (set_last_key k) ;;;
  let! handle_encoding := or_ub (BlockHandle_EncodeTo (pending_handle r) []) in
  on_index (BlockBuilder_Add (comparator (index_block_options r))
              (block_restart_interval (index_block_options r)) k handle_encoding) ;;;
  modify (fun r => set_pending false (pending_handle r) r).

Definition TableBuilder_Add (key value : Slice) : M R unit :=
  let! r := gets id in
  assert_ (negb (closed r)) ;;;
  if negb (ok (status r)) then ret tt
  else
    (if 0 <? num_entries r then
       let! c := or_ub (@Compare (comparator (options r)) key (last_key r)) in assert_ (0 <? c)
     else ret tt) ;;;
    (if pending_index_entry r then
       assert_ (BlockBuilder_empty (data_block r)) ;;;
       add_index_entry (fun o last => @FindShortestSeparator (comparator o) last key)
     else ret tt) ;;;
    on_filter (fun _ => AddKey key) ;;;
    modify (set_last_key key) ;;;
    modify (fun r => set_num_entries (num_entries r + 1) r) ;;;
    let! o := gets options in
    on_data (BlockBuilder_Add (comparator o) (block_restart_interval o) key value) ;;;
    let! estimated_block_size := gets (fun r => CurrentSizeEstimate (data_block r)) in
    if block_size o <=? estimated_block_size then TableBuilder_Flush else ret tt.

(** The name of the filter policy in the metaindex. *)
Definition filter_key (p : FilterPolicy) : Slice := c_string "filter." ++ c_string (@filter_name p).

(** The four parts of [Finish] that are guarded by [ok()]. *)
Definition finish_filter : M R BlockHandle :=
  let! r := gets id in
  if ok (status r) then
    let! f := on_filter (fun p => @Finish p) in
    match f with
    | Some contents => WriteRawBlock contents kNoCompression
    | None => ret new_BlockHandle
    end
  else ret new_BlockHandle.

Definition finish_metaindex (filter_block_handle : BlockHandle) : M R BlockHandle :=
  let! r := gets id in
  if ok (status r) then
    let o := options r in
    let! block := or_ub (new_BlockBuilder (block_restart_interval o)) in
    let! block :=
      match filter_block r with
      | Some _ =>
          let! p := or_ub (filter_policy o) in
          let! handle_encoding := or_ub (BlockHandle_EncodeTo filter_block_handle []) in
          match BlockBuilder_Add (comparator o) (block_restart_interval o) (filter_key p) handle_encoding block with
          | Ok _ b => ret b
          | _ => ub
          end
      | None => ret block
      end in
    let! w := WriteBlock block in ret (fst w)
  else ret new_BlockHandle.

Definition finish_index : M R BlockHandle :=
  let! r := gets id in
  if ok (status r) then
    (if pending_index_entry r then add_index_entry (fun o last => @FindShortSuccessor (comparator o) last)
     else ret tt) ;;;
    let! block := gets index_block in
    let! w := WriteBlock block in
    modify (set_index_block (snd w)) ;;;
    ret (fst w)
  else ret new_BlockHandle.

Definition finish_footer (metaindex index : BlockHandle) : M R unit :=
  let! r := gets id in
  if ok (status r) then
    let! footer_encoding := or_ub (Footer_EncodeTo (mk_footer metaindex index) []) in
    on_file (Append footer_encoding) ;;;
    let! good := builder_ok in
    if good : bool
    then modify (fun r => set_offset (u64 (offset r + Z.of_nat (length footer_encoding))) r) else ret tt
  else ret tt.

Definition TableBuilder_Finish : M R Status :=
  TableBuilder_Flush ;;;
  let! is_closed := gets closed in
  assert_ (negb is_closed) ;;;
  modify set_closed ;;;
  let! filter_handle := finish_filter in
  let! metaindex_handle := finish_metaindex filter_handle in
  let! index_handle := finish_index in
  finish_footer metaindex_handle index_handle ;;;
  gets status.

Definition TableBuilder_Abandon : M R unit :=
  let! is_closed := gets closed in
  assert_ (negb is_closed) ;;;
  modify set_closed.

Definition TableBuilder_status : M R Status := gets status.
Definition NumEntries : M R Z := gets (fun r => u64 (num_entries r)).
Definition FileSize : M R Z := gets offset.

End table_builder.
