(* ===== verification/TableTheorems.v ===== *)
(** * Properties of the format of tables

    Footers survive, and a block that the table builder writes is read back with
    its checksum tested, compressed or not.  A handle from a corrupt file can make
    the reader leave its buffer. *)

From Stdlib Require Import ZArith Lia String.
From stdpp Require Import base option list strings gmap.
From S2P Require Import Prelude Memory Wire Slice Coding Crc32c Status Iterator Bloom FilterBlock Block BlockTheorems.
From S2P Require Import Format TableBuilder Env.

(** A footer has 48 bytes; what is written for two handles that are set is read
    back, wherever the footer is at the end of what is read. *)
Theorem footer_roundtrip f f0 rest :
  footer_ok f -> Forall is_byte rest ->
  exists bytes, Footer_EncodeTo f [] = Some bytes /\ length bytes = 48%nat /\
    Footer_DecodeFrom f0 (bytes ++ rest) = Some (Status_OK, f, rest).
Proof.
  intros Hf Hr. exists (footer_bytes f). split; [by apply Footer_EncodeTo_eq|].
  split; [by rewrite footer_bytes_length|by apply Footer_DecodeFrom_eq].
Qed.

(** What the compressor promises, when it compresses. *)
Class SnappyLaws `{!Snappy} := {
  snappy_inverse raw c : Snappy_Compress raw = Some c ->
    Snappy_GetUncompressedLength c = Some (Z.of_nat (length raw)) /\ Snappy_Uncompress c = Some raw /\
    Forall is_byte c
}.

Section written.
Context {PL : Platform} {PM : Placement} {SN : Snappy} {SL : SnappyLaws}.
Context {F : Type} {WF : WritableFile F} {RF : ReliableFile F}.
Context {G : Type} {RA : RandomAccessFile G} {SR : StoredRandom G}.

(** The bytes of a block in a file. *)
Definition trailer (type : CompressionType) (block : Slice) : Slice :=
  compression_byte type :: EncodeFixed32 (Mask (crc32c 0 (block ++ [compression_byte type]))).

Definition stored_block (type : CompressionType) (block : Slice) : Slice := block ++ trailer type block.

Lemma stored_block_length type block : length (stored_block type block) = (length block + 5)%nat.
Proof. unfold stored_block. by rewrite length_app. Qed.

(** The builder's offset is the length of its file. *)
Definition at_file_end (r : Rep F) : Prop :=
  ok (status r) = true /\ offset r = Z.of_nat (length (contents (file r))).

Lemma on_file_append d (r : Rep F) :
  exists f, on_file (Append d) r = Ok tt (set_file f Status_OK r) /\ contents f = contents (file r) ++ d.
Proof.
  destruct (append_ok d (file r)) as (f & E & Hc). exists f. unfold on_file. by rewrite E.
Qed.

Lemma WriteRawBlock_ok block type (r : Rep F) :
  at_file_end r -> Forall is_byte block -> Z.of_nat (length block) < 2 ^ 31 ->
  offset r + Z.of_nat (length block) + 5 < 2 ^ 64 ->
  exists f, WriteRawBlock block type r = Ok (mk_handle (offset r) (Z.of_nat (length block)))
      (set_offset (offset r + Z.of_nat (length block) + 5) (set_file f Status_OK r)) /\
    contents f = contents (file r) ++ stored_block type block.
Proof.
  intros [Hok Hoff] Hb Hl Hmax. unfold WriteRawBlock. rewrite bind_gets.
  destruct (on_file_append block r) as (f1 & E1 & C1). rewrite (bind_ok _ _ _ _ _ E1).
  unfold builder_ok. rewrite bind_gets. cbn [status set_file ok state_ Status_OK]. rewrite !bind_assoc.
  unfold Value. rewrite Extend_placed by (done || lia). cbn [or_ub]. rewrite bind_ret, bind_assoc.
  rewrite Extend_placed; [|by apply crc32c_range|by destruct type; repeat constructor|done].
  cbn [or_ub]. rewrite bind_ret, crc32c_app, bind_assoc. fold (trailer type block).
  destruct (on_file_append (trailer type block) (set_file f1 Status_OK r)) as (f2 & E2 & C2).
  change ([compression_byte type] ++ EncodeFixed32 (Mask (crc32c 0 (block ++ [compression_byte type]))))
    with (trailer type block). rewrite (bind_ok _ _ _ _ _ E2).
  rewrite bind_assoc, bind_gets. cbn [status set_file ok state_ Status_OK]. rewrite bind_modify.
  exists f2. split.
  - unfold ret, set_offset, set_file, kBlockTrailerSize. cbn [offset file status options index_block_options data_block
      index_block last_key num_entries closed filter_block pending_index_entry pending_handle].
    rewrite uwrap_small by lia. by rewrite Z.add_assoc.
  - rewrite C2. cbn [file set_file]. rewrite C1. unfold stored_block. by rewrite app_assoc.
Qed.

Lemma compression_byte_ok type : is_byte (compression_byte type).
Proof. destruct type; unfold is_byte; cbn; lia. Qed.

(** A stored block passes the tests of the reader. *)
Lemma ReadBlock_stored (g : G) verify o type block pre post :
  stored g = pre ++ stored_block type block ++ post -> o = Z.of_nat (length pre) ->
  Forall is_byte block -> Z.of_nat (length block) + 5 < 2 ^ 31 ->
  exists b, ReadBlock g verify (mk_handle o (Z.of_nat (length block))) =
    block_contents (length block) (stored_block type block) b.
Proof.
  intros Hg Ho Hb Hl. unfold ReadBlock, kBlockTrailerSize. cbn [size_ offset_].
  pose proof size_bits_bound. rewrite !usize_small by (rewrite ?usize_small; lia).
  destruct (read_at_ok o (Z.of_nat (length block) + 5) g ltac:(lia) ltac:(lia)) as [b E].
  exists b. rewrite E, Ho, Nat2Z.id, Hg, drop_app_length.
  assert (take (Z.to_nat (Z.of_nat (length block) + 5)) (stored_block type block ++ post) =
          stored_block type block) as ->.
  { rewrite take_app_length'; [done|]. rewrite stored_block_length. lia. }
  cbn [ok state_ Status_OK negb]. rewrite stored_block_length.
  replace (Z.of_nat (length block + 5)) with (Z.of_nat (length block) + 5) by lia.
  rewrite Z.eqb_refl. cbn [negb].
  replace (Z.to_nat (Z.of_nat (length block) + 1)) with (length block + 1)%nat by lia.
  rewrite Nat2Z.id. destruct verify; [|done].
  assert (drop (length block + 1) (stored_block type block) =
          EncodeFixed32 (Mask (crc32c 0 (block ++ [compression_byte type])))) as ->.
  { unfold stored_block, trailer. by rewrite <- drop_drop, drop_app_length. }
  assert (take (length block + 1) (stored_block type block) = block ++ [compression_byte type]) as ->.
  { unfold stored_block, trailer. rewrite take_app_add. done. }
  pose proof (Mask_range (crc32c 0 (block ++ [compression_byte type]))) as Hm.
  pose proof (DecodeFixed32_EncodeFixed32 _ [] Hm) as Ed. rewrite app_nil_r in Ed. rewrite Ed.
  cbn [mbind option_bind]. destruct (Z.leb_spec (Z.of_nat (length block) + 1) (Z.of_nat (length block) + 5)); [|lia].
  assert (Forall is_byte (block ++ [compression_byte type])) as Hbt
    by (apply Forall_app; split; [done|apply Forall_singleton, compression_byte_ok]).
  assert (Value (placed (stored_block type block)) (block ++ [compression_byte type]) =
          Some (crc32c 0 (block ++ [compression_byte type]))) as ->.
  { apply Extend_eq; [|lia|done]. pose proof (placed_fits (stored_block type block)) as Hp.
    rewrite stored_block_length in Hp. destruct (Hp ltac:(lia)) as [Hp0 Hp1].
    rewrite stored_block_length in Hp1. split; [done|]. rewrite length_app. cbn [length]. lia. }
  cbn [mbind option_bind]. rewrite Unmask_Mask by (by apply crc32c_range). by rewrite Z.eqb_refl.
Qed.

Lemma compress_cases t raw bytes type :
  compress t raw = (bytes, type) -> Forall is_byte raw ->
  Forall is_byte bytes /\ (length bytes <= length raw)%nat /\
  (type = kNoCompression /\ bytes = raw \/ type = kSnappyCompression /\ Snappy_Compress raw = Some bytes).
Proof.
  unfold compress. intros H Hraw. destruct t; [injection H as <- <-; by auto|].
  destruct (Snappy_Compress raw) as [c|] eqn:E; [|injection H as <- <-; by auto].
  destruct (Z.ltb_spec (Z.of_nat (length c)) (Z.of_nat (length raw) - Z.of_nat (length raw) / 8));
    injection H as <- <-; [|by auto].
  destruct (snappy_inverse raw c E) as (_ & _ & Hc).
  pose proof (Z.div_pos (Z.of_nat (length raw)) 8 ltac:(lia) ltac:(lia)).
  split; [done|]. split; [lia|]. by right.
Qed.

(** A block written, and how it is read back. *)
Lemma WriteBlock_ok block raw block' (r : Rep F) :
  at_file_end r -> BlockBuilder_Finish block = Ok raw block' -> Forall is_byte raw ->
  Z.of_nat (length raw) + 5 < 2 ^ 31 -> offset r + Z.of_nat (length raw) + 5 < 2 ^ 64 - 1 ->
  exists handle bytes f, WriteBlock block r = Ok (handle, BlockBuilder_Reset)
      (set_offset (offset r + Z.of_nat (length bytes)) (set_file f Status_OK r)) /\
    contents f = contents (file r) ++ bytes /\ (5 <= length bytes <= length raw + 5)%nat /\
    offset_ handle = offset r /\ handle_ok handle /\
    forall (g : G) rest verify, stored g = contents f ++ rest ->
      exists c, ReadBlock g verify handle = Some (Status_OK, c) /\ data c = raw.
Proof.
  intros Hend Hfin Hraw Hl Hmax. unfold WriteBlock, builder_ok. rewrite bind_gets.
  rewrite bind_assert by apply Hend. rewrite Hfin, bind_ret, bind_gets.
  destruct (compress (compression (options r)) raw) as [bytes type] eqn:Ec.
  destruct (compress_cases _ _ _ _ Ec Hraw) as (Hb & Hbl & Hcase).
  destruct (WriteRawBlock_ok bytes type r Hend Hb ltac:(lia) ltac:(lia)) as (f & Ew & Hc').
  rewrite (bind_ok _ _ _ _ _ Ew). eexists _, (stored_block type bytes), f.
  rewrite stored_block_length. split.
  { unfold ret. replace (Z.of_nat (length bytes + 5)) with (Z.of_nat (length bytes) + 5) by lia. by rewrite Z.add_assoc. }
  split; [done|]. split; [lia|].
  split; [done|]. split; [pose proof (proj2 Hend); unfold handle_ok, unset; cbn [offset_ size_]; lia|].
  intros g rest verify Hg. rewrite Hc', <- app_assoc in Hg.
  destruct (ReadBlock_stored g verify (offset r) type bytes _ _ Hg (proj2 Hend) Hb ltac:(lia)) as [b E].
  rewrite E. unfold block_contents.
  assert (stored_block type bytes !! length bytes = Some (compression_byte type)) as ->.
  { unfold stored_block, trailer. by apply list_lookup_middle. }
  assert (take (length bytes) (stored_block type bytes) = bytes) as -> by apply take_app_length.
  cbn [mbind option_bind]. destruct Hcase as [[-> ->]|[-> Hs]].
  - eexists. split; [reflexivity|done].
  - destruct (snappy_inverse raw bytes Hs) as (Hlen & Hun & _).
    change (compression_byte kSnappyCompression =? compression_byte kNoCompression) with false.
    change (compression_byte kSnappyCompression =? compression_byte kSnappyCompression) with true.
    cbv iota. rewrite Hlen, Hun, Z.eqb_refl. by eexists.
Qed.

Lemma written_at_end bytes f (r : Rep F) :
  at_file_end r -> contents f = contents (file r) ++ bytes ->
  at_file_end (set_offset (offset r + Z.of_nat (length bytes)) (set_file f Status_OK r)).
Proof.
  intros [_ Ho] Hf. split; [done|]. cbn [offset file set_offset set_file]. rewrite Hf, length_app. lia.
Qed.

(** A block that the table builder writes to a file that works gets a handle
    with which the same bytes are read back from the file, whatever follows them,
    with or without a test of the checksum, and whether or not it was worth
    compressing. *)
Theorem written_block_read block raw block' (r : Rep F) :
  at_file_end r -> BlockBuilder_Finish block = Ok raw block' -> Forall is_byte raw ->
  Z.of_nat (length raw) + 5 < 2 ^ 31 -> offset r + Z.of_nat (length raw) + 5 < 2 ^ 64 - 1 ->
  exists handle r', WriteBlock block r = Ok (handle, BlockBuilder_Reset) r' /\ at_file_end r' /\
    exists bytes, contents (file r') = contents (file r) ++ bytes /\
    forall (g : G) rest verify, stored g = contents (file r') ++ rest ->
      exists c, ReadBlock g verify handle = Some (Status_OK, c) /\ data c = raw.
Proof.
  intros Hend Hfin Hraw Hl Hmax.
  destruct (WriteBlock_ok block raw block' r Hend Hfin Hraw Hl Hmax) as (h & bytes & f & E & Hc & _ & _ & _ & Hread).
  eexists h, _. split; [done|]. split; [by apply written_at_end|]. by exists bytes.
Qed.

End written.

(** ** Entries, from the builder to a cursor *)

Section stored_entries.
Context {PL : Platform} {PM : Placement} {SN : Snappy} {SL : SnappyLaws}.
Context {F : Type} {WF : WritableFile F} {RF : ReliableFile F}.
Context {G : Type} {RA : RandomAccessFile G} {SR : StoredRandom G}.
Context (C : Comparator) {L : ComparatorLaws C} (interval : Z).

(** Entries added in order to a block builder, written to a table file and read
    back through their handle are what the iterator of the block is a cursor
    over. *)
Theorem stored_block_is_cursor kvs (r : Rep F) :
  1 <= interval -> entries_ok C kvs -> Forall (fun kv => valid kv.1) kvs ->
  at_file_end r -> entries_size kvs + 13 < 2 ^ 31 -> offset r < 2 ^ 63 ->
  exists b handle r', add_entries C interval kvs BlockBuilder_Reset = Ok tt b /\
    WriteBlock b r = Ok (handle, BlockBuilder_Reset) r' /\ at_file_end r' /\
    forall (g : G) rest verify, stored g = contents (file r') ++ rest ->
      exists c blk restarts num it pos, ReadBlock g verify handle = Some (Status_OK, c) /\
        new_Block (data c) = Some blk /\ NewIterator blk = Some (BlockIterator restarts num it) /\
        cursor_over (Block_Iter C (data c) restarts num) C valid kvs pos /\ pos (length kvs) it.
Proof.
  intros Hi Hok Hv Hend Hsize Hoff.
  destruct (add_entries_ok C interval Hi kvs Hok) as (b & offs & rs & E & HB).
  destruct Hok as (Hasc & Hroom & _). destruct (Finish_eq interval b kvs offs rs HB Hroom) as [b' Ef].
  destruct (reader_made interval b kvs offs rs HB Hroom) as (blk & it & Eb & Ei & Hat).
  pose proof (contents_length interval b kvs offs rs HB) as Hlen.
  pose proof (bu_size _ _ _ _ _ HB) as Hbs.
  set (raw := buffer_ b ++ words (restarts_ b) ++ EncodeFixed32 (Z.of_nat (length rs))) in *.
  destruct (WriteBlock_ok (G := G) b raw b' r Hend Ef) as (handle & bytes & f & Ew & Hc & _ & _ & _ & Hread).
  - unfold raw. apply Forall_app. split; [apply (el_bytes _ _ _ _ (bu_laid _ _ _ _ _ HB))|].
    apply Forall_app. split; [apply words_bytes|apply EncodeFixed32_bytes].
  - lia.
  - lia.
  - eexists b, handle, _. split; [done|]. split; [done|]. split; [by apply written_at_end|].
    intros g rest verify Hg. destruct (Hread g rest verify Hg) as (c & Ec & Hdata).
    eexists c, blk, _, _, it, _. rewrite Hdata. split; [done|]. split; [done|]. split; [exact Ei|].
    split; [by apply (block_cursor C interval b kvs offs rs HB Hroom)|]. by apply cursor_pos_ge.
Qed.

End stored_entries.

(** ** Instances *)

(** Files as byte strings, on a 64-bit device. *)
#[local] Instance table_platform : Platform := {| size_bits := 64; size_bits_cases := or_intror eq_refl |}.
#[local] Program Instance table_placement : Placement := {| placed _ := 4096 |}.
Next Obligation. intros s Hs. unfold addressable. cbn. lia. Qed.

#[local] Instance string_file : WritableFile Slice := {|
  Append d f := (Status_OK, f ++ d); Flush f := (Status_OK, f)
|}.
#[local] Program Instance string_reliable : ReliableFile Slice := {| contents f := f |}.
Next Obligation. intros d f. by eexists. Qed.
Next Obligation. intros f. by eexists. Qed.

#[local] Instance string_random : RandomAccessFile Slice := {|
  ReadAt o n f := (Status_OK, take (Z.to_nat n) (drop (Z.to_nat o) f), true)
|}.
#[local] Program Instance string_stored : StoredRandom Slice := {| stored f := f |}.
Next Obligation. intros o n f _ _. by eexists. Qed.

(** A compressor for runs of one byte. *)
Definition is_run (b : Z) (s : Slice) : bool := forallb (Z.eqb b) s.

#[local] Instance run_snappy : Snappy := {|
  Snappy_Compress s :=
    match s with
    | b :: _ => if is_run b s && (0 <=? b) && (b <? 256) && (length s <? 256)%nat
                then Some [b; Z.of_nat (length s)] else None
    | [] => None
    end;
  Snappy_GetUncompressedLength c := match c with [_; n] => Some n | _ => None end;
  Snappy_Uncompress c := match c with [b; n] => Some (replicate (Z.to_nat n) b) | _ => None end
|}.

Lemma is_run_replicate b s : is_run b s = true -> s = replicate (length s) b.
Proof.
  induction s as [|x s IH]; [done|]. cbn. intros [E%Z.eqb_eq H]%andb_prop. by rewrite <- E, <- IH.
Qed.

#[local] Program Instance run_snappy_laws : SnappyLaws.
Next Obligation.
  intros raw c. cbn [Snappy_Compress Snappy_GetUncompressedLength Snappy_Uncompress run_snappy].
  destruct raw as [|b s]; [done|].
  destruct (is_run b (b :: s)) eqn:E1; [|done]. destruct (Z.leb_spec 0 b); [|done].
  destruct (Z.ltb_spec b 256); [|done]. destruct (Nat.ltb_spec (length (b :: s)) 256); [|done].
  cbn [andb]. intros [= <-]. split; [done|]. split.
  - rewrite Nat2Z.id. f_equal. symmetry. by apply is_run_replicate.
  - repeat constructor; unfold is_byte; cbn [length] in *; lia.
Qed.

Definition table_options : Options :=
  mk_options 0 BytewiseComparator true 4096 2 kSnappyCompression None.

Definition sample_builder : Rep Slice :=
  mk_rep table_options (index_options table_options) [7; 7; 7] 3 Status_OK BlockBuilder_Reset
    BlockBuilder_Reset [] 0 false None false new_BlockHandle.

Lemma footer_roundtrip_witness :
  exists bytes, Footer_EncodeTo (mk_footer (mk_handle 1000 20) (mk_handle 1025 300)) [] = Some bytes /\
    length bytes = 48%nat /\
    Footer_DecodeFrom new_Footer (bytes ++ [1; 2]) =
      Some (Status_OK, mk_footer (mk_handle 1000 20) (mk_handle 1025 300), [1; 2]).
Proof.
  apply (footer_roundtrip (mk_footer (mk_handle 1000 20) (mk_handle 1025 300)) new_Footer [1; 2]).
  - by repeat split.
  - by repeat constructor.
Defined.

(** A block of nothing but zeros, which is compressed. *)
Definition zero_block : BlockBuilder := mk_block_builder (replicate 40 0) [] 0 false [].

Lemma written_block_read_witness :
  exists handle r', WriteBlock zero_block sample_builder = Ok (handle, BlockBuilder_Reset) r' /\
    at_file_end r' /\
    exists bytes, contents (file r') = contents (file sample_builder) ++ bytes /\
    forall (g : Slice) rest verify, stored g = contents (file r') ++ rest ->
      exists c, ReadBlock g verify handle = Some (Status_OK, c) /\ data c = replicate 44 0.
Proof.
  apply (written_block_read (G := Slice) zero_block (replicate 44 0)
    (mk_block_builder (replicate 44 0) [] 0 true []) sample_builder).
  - by repeat split.
  - reflexivity.
  - apply Forall_replicate. by repeat split.
  - done.
  - done.
Defined.

(** It takes seven bytes in the file. *)
Example zero_block_stored :
  match WriteBlock zero_block sample_builder with
  | Ok (h, _) r => h = mk_handle 3 2 /\ length (file r) = 10%nat
  | _ => False
  end.
Proof. by vm_compute. Qed.

Lemma stored_block_is_cursor_witness :
  exists b handle r',
    add_entries BytewiseComparator 2 sample_entries_block BlockBuilder_Reset = Ok tt b /\
    WriteBlock b sample_builder = Ok (handle, BlockBuilder_Reset) r' /\ at_file_end r' /\
    forall (g : Slice) rest verify, stored g = contents (file r') ++ rest ->
      exists c blk restarts num it pos, ReadBlock g verify handle = Some (Status_OK, c) /\
        new_Block (data c) = Some blk /\ NewIterator blk = Some (BlockIterator restarts num it) /\
        cursor_over (Block_Iter BytewiseComparator (data c) restarts num) BytewiseComparator
          (@valid _ BytewiseComparator_laws) sample_entries_block pos /\
        pos (length sample_entries_block) it.
Proof.
  apply (stored_block_is_cursor (G := Slice) BytewiseComparator 2 sample_entries_block sample_builder).
  - done.
  - apply sample_entries_ok.
  - repeat constructor; done.
  - by repeat split.
  - done.
  - done.
Defined.

(** ** A corrupt handle *)

(** The size in a block handle is not tested before five bytes are added to it:
    with a handle of 2^64 - 5 bytes, which a footer can hold, the sum wraps to zero
    on a 64-bit device, the read of zero bytes counts as complete, and the reader
    goes on to look for the type of the block far behind its buffer of zero
    bytes. *)
Theorem huge_handle_undefined :
  let h := mk_handle 0 (2 ^ 64 - 5) in
  Footer_DecodeFrom new_Footer (footer_bytes (mk_footer h h)) = Some (Status_OK, mk_footer h h, []) /\
  forall (f : Slice), ReadBlock f false h = None /\ ReadBlock f true h = None.
Proof.
  intros h. split.
  - pose proof (Footer_DecodeFrom_eq (mk_footer h h) new_Footer []) as E. rewrite app_nil_r in E.
    apply E; [by repeat split|constructor].
  - intros f. unfold ReadBlock. cbn [size_ offset_ h].
    change (usize (usize (2 ^ 64 - 5) + kBlockTrailerSize)) with 0.
    change (ReadAt 0 0 f) with (Status_OK, take (Z.to_nat 0) (drop (Z.to_nat 0) f), true).
    change (Z.to_nat 0) with 0%nat. rewrite take_0. cbn [ok state_ Status_OK negb length Z.of_nat Z.eqb].
    split; [unfold block_contents; by rewrite lookup_nil|by rewrite drop_nil].
Qed.
