(* ===== verification/TableBuild.v ===== *)
(** * What the table builder has written

    An invariant of the builder: every block that is in the file is read back as
    the entries it was made from, and the index block has, for every block but the
    last, its handle with a key that separates it from the next one. *)

From Stdlib Require Import ZArith Lia Sorted Ascii String.
From stdpp Require Import base option list strings sorting gmap.
From S2P Require Import Prelude Memory Wire Slice Coding Crc32c Status Iterator TwoLevelProof Bloom FilterBlock Block.
From S2P Require Import BlockTheorems Format TableBuilder TableTheorems Env.

Lemma literal_bytes x : Forall is_byte (c_string x).
Proof.
  apply Forall_fmap, Forall_true. intros a. unfold compose, is_byte. pose proof (N_ascii_bounded a). lia.
Qed.

Lemma literal_length x : length (c_string x) = String.length x.
Proof. unfold c_string. rewrite length_fmap. induction x as [|a x IH]; cbn; [done|by rewrite IH]. Qed.

(** ** Blocks *)

(** The contents of a block that was built from entries. *)
Definition built_from (raw : Slice) (kvs : list (Slice * Slice)) : Prop :=
  exists interval b offs rs b', building interval b kvs offs rs /\ entries_size kvs + 8 < 2 ^ 32 /\
    BlockBuilder_Finish b = Ok raw b'.

Lemma built_bytes raw kvs : built_from raw kvs ->
  Forall is_byte raw /\ Z.of_nat (length raw) <= entries_size kvs + 8.
Proof.
  intros (interval & b & offs & rs & b' & HB & Hroom & E).
  destruct (Finish_eq interval b kvs offs rs HB Hroom) as [b2 E2]. rewrite E2 in E. injection E as <- <-.
  split.
  - apply Forall_app. split; [apply (el_bytes _ _ _ _ (bu_laid _ _ _ _ _ HB))|].
    apply Forall_app. split; [apply words_bytes|apply EncodeFixed32_bytes].
  - rewrite (contents_length interval b kvs offs rs HB). pose proof (bu_size _ _ _ _ _ HB). lia.
Qed.

Lemma built_block raw kvs : built_from raw kvs -> exists blk, new_Block raw = Some blk.
Proof.
  intros (interval & b & offs & rs & b' & HB & Hroom & E).
  destruct (Finish_eq interval b kvs offs rs HB Hroom) as [b2 E2]. rewrite E2 in E. injection E as <- <-.
  destruct (reader_made interval b kvs offs rs HB Hroom) as (blk & it & Eb & _). by exists blk.
Qed.

Lemma built_block_size raw kvs blk : built_from raw kvs -> new_Block raw = Some blk ->
  1 <= Z.of_nat (Block.size_ blk) <= entries_size kvs + 8.
Proof.
  intros Hb E. pose proof (built_bytes raw kvs Hb) as [_ Hlen].
  destruct Hb as (interval & b & offs & rs & b' & HB & Hroom & Ef).
  destruct (Finish_eq interval b kvs offs rs HB Hroom) as [b2 E2]. rewrite E2 in Ef. injection Ef as <- <-.
  destruct (reader_made interval b kvs offs rs HB Hroom) as (blk' & it & Eb & Ei & _). rewrite E in Eb. injection Eb as <-.
  assert (4 <= Block.size_ blk)%nat.
  { revert Ei. unfold NewIterator. destruct (Nat.ltb_spec (Block.size_ blk) 4); [|done].
    by destruct (Status_Corruption _ _). }
  split; [lia|]. etrans; [|exact Hlen]. revert E. unfold new_Block.
  destruct (_ <? 4)%nat; [intros [= <-]; cbn; lia|]. destruct (NumRestarts _ _); [|done].
  cbn [mbind option_bind]. destruct (_ <? _); intros [= <-]; cbn [Block.size_]; lia.
Qed.

(** Such a block is read as a cursor over the entries. *)
Lemma built_cursor (C : Comparator) {L : ComparatorLaws C} raw kvs :
  built_from raw kvs -> ascending C kvs -> Forall (fun kv => valid kv.1) kvs ->
  exists blk restarts num it pos, new_Block raw = Some blk /\ data_ blk = raw /\
    NewIterator blk = Some (BlockIterator restarts num it) /\
    cursor_over (Block_Iter C raw restarts num) C valid kvs pos /\ pos (length kvs) it.
Proof.
  intros (interval & b & offs & rs & b' & HB & Hroom & E) Hasc Hv.
  destruct (Finish_eq interval b kvs offs rs HB Hroom) as [b2 E2]. rewrite E2 in E. injection E as <- <-.
  destruct (reader_made interval b kvs offs rs HB Hroom) as (blk & it & Eb & Ei & Hend).
  eexists blk, _, _, it, _. split; [done|]. split.
  - revert Eb. unfold new_Block. destruct (_ <? 4)%nat; [by intros [= <-]|].
    destruct (NumRestarts _ _); [|done]. cbn [mbind option_bind]. destruct (_ <? _); by intros [= <-].
  - split; [exact Ei|]. split; [by apply (block_cursor C interval b kvs offs rs HB Hroom)|]. by apply cursor_pos_ge.
Qed.

(** A block in the file, with the entries it was made from. *)
Record DataBlock := mk_data_block {
  db_handle : BlockHandle;
  db_raw : Slice;
  db_entries : list (Slice * Slice)
}.

(** Room for the blocks and for the index. *)
Definition blocks_cost (dbs : list DataBlock) : Z :=
  foldr (fun db n => entries_size (db_entries db) + 20 + n) 0 dbs.

Lemma blocks_cost_app l l' : blocks_cost (l ++ l') = blocks_cost l + blocks_cost l'.
Proof. induction l as [|db l IH]; [done|]. cbn [app blocks_cost foldr]. fold (blocks_cost (l ++ l')). rewrite IH.
  fold (blocks_cost l). lia. Qed.

Definition all_of (dbs : list DataBlock) : list (Slice * Slice) := concat (db_entries <$> dbs).

Lemma all_of_app l l' : all_of (l ++ l') = all_of l ++ all_of l'.
Proof. unfold all_of. by rewrite fmap_app, concat_app. Qed.

Lemma all_of_one db : all_of [db] = db_entries db.
Proof. unfold all_of. cbn. by rewrite app_nil_r. Qed.

(** An entry counts for 19 bytes at least. *)
Lemma blocks_cost_bound dbs :
  Forall (fun db => db_entries db <> []) dbs -> blocks_cost dbs <= 3 * entries_size (all_of dbs).
Proof.
  induction 1 as [|db dbs Hne _ IH]; [done|]. cbn [blocks_cost foldr]. fold (blocks_cost dbs).
  change (all_of (db :: dbs)) with (db_entries db ++ all_of dbs). rewrite entries_size_app.
  destruct (db_entries db) as [|kv l]; [done|]. rewrite entries_size_cons.
  pose proof (entry_size_pos kv). pose proof (entries_size_nonneg l). lia.
Qed.

Section stored.
Context {PL : Platform} {PM : Placement} {SN : Snappy} {SL : SnappyLaws}.
Context {F : Type} {WF : WritableFile F} {RF : ReliableFile F}.
Context {G : Type} {RA : RandomAccessFile G} {SR : StoredRandom G}.

(** What the handle stands for, once the file begins with [pre]. *)
Definition stored_as (pre : Slice) (h : BlockHandle) (raw : Slice) : Prop :=
  handle_ok h /\ offset_ h < Z.of_nat (length pre) /\
  forall (g : G) rest verify, stored g = pre ++ rest ->
    exists c, ReadBlock g verify h = Some (Status_OK, c) /\ data c = raw.

Lemma stored_as_app pre x h raw : stored_as pre h raw -> stored_as (pre ++ x) h raw.
Proof.
  intros (Hh & Ho & H). split; [done|]. split; [rewrite length_app; lia|].
  intros g rest verify Hg. apply (H g (x ++ rest)). by rewrite Hg, <- app_assoc.
Qed.

Definition block_stored (pre : Slice) (db : DataBlock) : Prop :=
  stored_as pre (db_handle db) (db_raw db) /\ built_from (db_raw db) (db_entries db) /\ db_entries db <> [].

Lemma block_stored_app pre x db : block_stored pre db -> block_stored (pre ++ x) db.
Proof. intros (H & ? & ?). split; [by apply stored_as_app|done]. Qed.

(** [WriteBlock], for any block that was built. *)
Lemma WriteBlock_stored interval b kvs offs rs (r : Rep F) :
  at_file_end r -> building interval b kvs offs rs -> entries_size kvs + 13 < 2 ^ 31 -> offset r < 2 ^ 62 ->
  exists handle raw bytes f, WriteBlock b r = Ok (handle, BlockBuilder_Reset)
      (set_offset (offset r + Z.of_nat (length bytes)) (set_file f Status_OK r)) /\
    contents f = contents (file r) ++ bytes /\ 5 <= Z.of_nat (length bytes) <= entries_size kvs + 13 /\
    offset_ handle = offset r /\ stored_as (contents f) handle raw /\ built_from raw kvs.
Proof.
  intros Hend HB Hsize Hoff. pose proof (Finish_eq interval b kvs offs rs HB ltac:(lia)) as [b' Ef].
  match type of Ef with _ = Ok ?raw _ =>
    assert (built_from raw kvs) as Hb by (exists interval, b, offs, rs, b'; split; [done|split; [lia|done]]);
    destruct (built_bytes raw kvs Hb) as [Hbytes Hlen];
    destruct (WriteBlock_ok (G := G) b raw b' r Hend Ef Hbytes ltac:(lia) ltac:(lia))
      as (handle & bytes & f & Ew & Hc & Hl & Ho & Hh & Hread);
    exists handle, raw, bytes, f end.
  split; [done|]. split; [done|]. split; [lia|]. split; [done|]. split; [|done].
  split; [done|]. split; [|done]. rewrite Hc, length_app, Ho, (proj2 Hend). lia.
Qed.

(** A block that is stored as it is. *)
Lemma WriteRawBlock_stored raw (r : Rep F) :
  at_file_end r -> Forall is_byte raw -> Z.of_nat (length raw) + 5 < 2 ^ 31 -> offset r < 2 ^ 62 ->
  exists handle bytes f, WriteRawBlock raw kNoCompression r = Ok handle
      (set_offset (offset r + Z.of_nat (length bytes)) (set_file f Status_OK r)) /\
    contents f = contents (file r) ++ bytes /\ Z.of_nat (length bytes) = Z.of_nat (length raw) + 5 /\
    stored_as (contents f) handle raw.
Proof.
  intros Hend Hb Hl Hoff. destruct (WriteRawBlock_ok raw kNoCompression r Hend Hb ltac:(lia) ltac:(lia)) as (f & Ew & Hc).
  exists (mk_handle (offset r) (Z.of_nat (length raw))), (stored_block kNoCompression raw), f.
  rewrite stored_block_length. split.
  { rewrite Ew. do 2 f_equal. lia. }
  split; [done|]. split; [lia|]. pose proof (proj2 Hend). split.
  { unfold handle_ok, unset. cbn [offset_ size_]. lia. }
  split. { cbn [offset_]. rewrite Hc, length_app, stored_block_length. lia. }
  intros g rest verify Hg. rewrite Hc, <- app_assoc in Hg.
  destruct (ReadBlock_stored g verify (offset r) kNoCompression raw _ _ Hg (proj2 Hend) Hb ltac:(lia)) as [b E].
  rewrite E. unfold Format.block_contents.
  assert (stored_block kNoCompression raw !! length raw = Some (compression_byte kNoCompression)) as ->
    by (unfold stored_block, trailer; by apply list_lookup_middle).
  assert (take (length raw) (stored_block kNoCompression raw) = raw) as -> by apply take_app_length.
  cbn [mbind option_bind]. eexists. split; [reflexivity|done].
Qed.

(** ** The invariant *)

(** The policy of the options, if there is one, keeps what tables ask of it. *)
Class OptionFilter (o : Options) `{!ComparatorLaws (comparator o)} :=
  option_filter p : filter_policy o = Some p -> TableFilter p (comparator o).

Section invariant.
Context (o : Options) {L : ComparatorLaws (comparator o)} {SK : ShortKeys (comparator o)} {OF : OptionFilter o}.
Context (Hinterval : 1 <= block_restart_interval o).
(** How much there is in the file besides the blocks. *)
Context (slack : Z) (Hslack : 0 <= slack < 2 ^ 30).

Abbreviation C := (comparator o).

Definition at_most (a b : Slice) : Prop := exists c, @Compare C a b = Some c /\ c <= 0.

(** The index: separators with the blocks before them. *)
Definition index_entries (done : list (Slice * DataBlock)) : list (Slice * Slice) :=
  (fun sd => (sd.1, handle_bytes (db_handle sd.2))) <$> done.

(** A separator is made from the last key of its block and the first of the entries
    behind it. *)
Definition made_between (a : Slice * DataBlock) (next : list (Slice * Slice)) : Prop :=
  forall kv, head next = Some kv ->
    @FindShortestSeparator C (prev_key (db_entries a.2) (length (db_entries a.2))) kv.1 = Some a.1.

(** Every separator is not before the keys of its block, and before those of the
    next one. *)
Record separators (done : list (Slice * DataBlock)) (next : list (Slice * Slice)) : Prop := mk_separators {
  se_valid : Forall (fun sd => @valid C L sd.1 /\ entry_size (sd.1, handle_bytes (db_handle sd.2)) <=
                                             entries_size (db_entries sd.2) + 20) done;
  se_above : Forall (fun sd => Forall (fun kv => at_most kv.1 sd.1) (db_entries sd.2)) done;
  se_below i a b : done !! i = Some a -> done !! S i = Some b ->
    Forall (fun kv => before C a.1 kv.1 = true) (db_entries b.2) /\ made_between a (db_entries b.2);
  se_last a : last done = Some a -> Forall (fun kv => before C a.1 kv.1 = true) next /\ made_between a next
}.

Definition blocks_of (done : list (Slice * DataBlock)) (pending : option DataBlock) : list DataBlock :=
  done.*2 ++ option_list pending.

(** The filter block has the keys of every block under the block's offset, and those
    of the block to come under the offset it will have. *)
Definition filter_inv (fb : option (FilterPolicy * FilterBlockBuilder)) (off : Z) (dbs : list DataBlock)
    (cur : list (Slice * Slice)) : Prop :=
  match filter_policy o with
  | None => fb = None
  | Some p => exists b fin pend, fb = Some (p, b) /\ @built p b fin pend /\ Z.of_nat (length fin) = off / kFilterBase /\
      all_keys fin pend = (all_of dbs ++ cur).*1 /\
      (forall db kv, db ∈ dbs -> kv ∈ db_entries db ->
         has_key fin pend (Z.to_nat (offset_ (db_handle db) / kFilterBase)) kv.1) /\
      (forall kv, kv ∈ cur -> kv.1 ∈ pend)
  end.

Record builder_inv (r : Rep F) (done : list (Slice * DataBlock)) (pending : option DataBlock)
    (cur : list (Slice * Slice)) : Prop := mk_builder_inv {
  bi_options : options r = o /\ index_block_options r = index_options o;
  bi_file : at_file_end r;
  bi_filter : closed r = false -> filter_inv (filter_block r) (offset r) (blocks_of done pending) cur;
  bi_blocks : Forall (block_stored (contents (file r))) (blocks_of done pending);
  bi_handles : StronglySorted Z.lt ((fun db => offset_ (db_handle db)) <$> blocks_of done pending);
  bi_offset : offset r <= blocks_cost (blocks_of done pending) + slack;
  bi_index : exists offs rs, building 1 (index_block r) (index_entries done) offs rs;
  bi_pending : match pending with
               | Some db => pending_index_entry r = true /\ pending_handle r = db_handle db /\ cur = []
               | None => pending_index_entry r = false
               end;
  bi_data : exists offs rs, building (block_restart_interval o) (data_block r) cur offs rs;
  bi_separators : separators done (all_of (option_list pending) ++ cur)
}.

(** All entries that have been added. *)
Definition added (done : list (Slice * DataBlock)) (pending : option DataBlock) (cur : list (Slice * Slice)) :=
  all_of (blocks_of done pending) ++ cur.

Definition counts (r : Rep F) (kvs : list (Slice * Slice)) : Prop :=
  last_key r = prev_key kvs (length kvs) /\ num_entries r = Z.of_nat (length kvs) /\ closed r = false.

Lemma blocks_nonempty pre dbs :
  Forall (block_stored pre) dbs -> Forall (fun db => db_entries db <> []) dbs.
Proof. intros H. eapply Forall_impl; [exact H|]. by intros db (_ & _ & ?). Qed.

(** Room for everything. *)
Lemma inv_room r done pending cur :
  builder_inv r done pending cur ->
  entries_size (added done pending cur) < 2 ^ 28 ->
  offset r < 2 ^ 31 /\ entries_size cur < 2 ^ 28 /\ entries_size (index_entries done) < 2 ^ 30.
Proof.
  intros H Hs. unfold added in Hs. rewrite entries_size_app in Hs.
  pose proof (entries_size_nonneg cur). pose proof (entries_size_nonneg (all_of (blocks_of done pending))).
  pose proof (blocks_cost_bound _ (blocks_nonempty _ _ (bi_blocks _ _ _ _ H))).
  pose proof (bi_offset _ _ _ _ H). split; [lia|]. split; [lia|].
  enough (entries_size (index_entries done) <= blocks_cost (blocks_of done pending)) by lia.
  unfold blocks_of. rewrite blocks_cost_app.
  assert (0 <= blocks_cost (option_list pending)).
  { destruct pending as [db|]; [|done]. cbn. pose proof (entries_size_nonneg (db_entries db)). lia. }
  enough (entries_size (index_entries done) <= blocks_cost (done.*2)) by lia.
  pose proof (se_valid _ _ (bi_separators _ _ _ _ H)) as Hv. clear -Hv.
  induction Hv as [|[sep db] done [_ Hsd] _ IH]; [done|]. cbn [fst snd] in *.
  unfold index_entries in *. rewrite !fmap_cons, entries_size_cons. cbn [snd blocks_cost foldr].
  fold (blocks_cost (done.*2)). cbn [fst]. lia.
Qed.

Definition good_keys (kvs : list (Slice * Slice)) : Prop := Forall (fun kv => @valid C L kv.1) kvs.

Lemma entries_count kvs : 19 * Z.of_nat (length kvs) <= entries_size kvs.
Proof.
  induction kvs as [|kv kvs IH]; [done|]. rewrite entries_size_cons. pose proof (entry_size_pos kv). cbn [length]. lia.
Qed.

Lemma set_filter_same (r : Rep F) : set_filter_block (filter_block r) r = r.
Proof. by destruct r. Qed.

(** An entry that is added goes to the keys of the next filter. *)
Lemma filter_added (r : Rep F) off dbs cur k v : filter_inv (filter_block r) off dbs cur ->
  exists a fb, on_filter (fun _ => AddKey k) r = Ok a (set_filter_block fb r) /\ filter_inv fb off dbs (cur ++ [(k, v)]).
Proof.
  unfold filter_inv, on_filter. destruct (filter_policy o) as [p|].
  - intros (b & fin & pend & Eb & Hb & Hl & Ha & Hk & Hc). rewrite Eb.
    destruct (add_all_spec (P := p) [k] b fin pend Hb) as (b' & E & Hb'). cbn [add_all] in E.
    unfold AddKey in E |- *. rewrite bind_modify in E. injection E as <-.
    eexists _, (Some (p, _)). split; [done|]. eexists _, fin, (pend ++ [k]). split; [done|]. split; [exact Hb'|]. split; [done|].
    split.
    { unfold all_keys in Ha |- *. rewrite app_assoc, Ha, app_assoc, (fmap_app _ _ [(k, v)]). done. }
    split; [by intros; apply has_key_more, Hk|]. intros kv [Hin| ->%list_elem_of_singleton]%elem_of_app; apply elem_of_app; [left; by apply Hc|].
    right. by left.
  - intros Hn. rewrite Hn. exists None, None. split; [|done]. by rewrite <- Hn, set_filter_same.
Qed.

(** A new block begins: the keys are those of the block that has been written. *)
Lemma filter_started fb off off' dbs cur db : filter_inv fb off dbs cur -> good_keys (all_of dbs ++ cur) ->
  entries_size (all_of dbs ++ cur) < 2 ^ 28 -> 0 <= off <= off' -> offset_ (db_handle db) = off -> db_entries db = cur ->
  exists fb', filter_inv fb' off' (dbs ++ [db]) [] /\
    forall r : Rep F, filter_block r = fb -> exists a, on_filter (fun p => @StartBlock p off') r = Ok a (set_filter_block fb' r).
Proof.
  unfold filter_inv. destruct (filter_policy o) as [p|] eqn:Ep.
  - intros (b & fin & pend & -> & Hb & Hl & Ha & Hk & Hc) Hg Hs Hoff Hdb <-.
    pose proof (option_filter p Ep) as T.
    assert (pend <> [] -> filterable pend) as Hf.
    { intros _. pose proof (entries_count (all_of dbs ++ db_entries db)) as Hn.
      assert (length (all_keys fin pend) = length (all_of dbs ++ db_entries db)) as Hlen by (rewrite Ha; apply length_fmap).
      assert (Forall (@valid C L) (all_keys fin pend)) as Hv by (rewrite Ha; by apply Forall_fmap).
      unfold all_keys in Hv, Hlen. apply Forall_app in Hv as [_ Hv]. rewrite length_app in Hlen. apply tf_filterable; [done|lia]. }
    destruct (StartBlock_spec (P := p) off' b fin pend Hb Hf) as (b' & fin' & pend' & E & Hb' & Hl' & Ha' & Hk').
    { rewrite Hl. apply Z.div_le_mono; [done|lia]. }
    exists (Some (p, b')). split.
    + exists b', fin', pend'. split; [done|]. split; [done|]. split; [done|]. split.
      { by rewrite Ha', Ha, all_of_app, all_of_one, app_nil_r. }
      split; [|by intros kv ?%elem_of_nil]. intros db' kv [Hin| ->%list_elem_of_singleton]%elem_of_app Hkv; apply Hk'.
      * by apply Hk.
      * right. split; [rewrite Hdb, <- Hl; lia|by apply Hc].
    + intros r Hr. unfold on_filter. rewrite Hr, E. by eexists.
  - intros -> _ _ _ _ _. exists None. split; [done|]. intros r Hr. unfold on_filter. rewrite Hr. exists None.
    by rewrite <- Hr, set_filter_same.
Qed.

(** A flush writes the entries of the data block, if there are any. *)
Lemma Flush_empty r done pending :
  builder_inv r done pending [] -> closed r = false -> TableBuilder_Flush r = Ok tt r.
Proof.
  intros H Hopen. unfold TableBuilder_Flush. rewrite bind_gets. unfold id.
  rewrite bind_assert by (by rewrite Hopen).
  rewrite (proj1 (bi_file _ _ _ _ H)). cbn [negb].
  destruct (bi_data _ _ _ _ H) as (offs & rs & HB). unfold BlockBuilder_empty.
  pose proof (el_last _ _ _ _ (bu_laid _ _ _ _ _ HB)) as Hl. cbn [length] in Hl.
  rewrite (el_first _ _ _ _ (bu_laid _ _ _ _ _ HB)) in Hl. injection Hl as <-. done.
Qed.

Lemma building_nonempty interval b kvs offs rs :
  building interval b kvs offs rs -> kvs <> [] -> BlockBuilder_empty b = false.
Proof.
  intros HB Hne. destruct kvs as [|[k v] kvs]; [done|].
  destruct (el_entry _ _ _ _ (bu_laid _ _ _ _ _ HB) 0%nat k v eq_refl) as (o0 & o1 & _ & _ & s & post & Hd & -> & Hl & _).
  unfold BlockBuilder_empty. apply Nat.eqb_neq. pose proof (entry_record_length_ge s k v). lia.
Qed.

Lemma Flush_ok r done cur :
  builder_inv r done None cur -> closed r = false -> cur <> [] -> entries_size (added done None cur) < 2 ^ 28 ->
  good_keys (added done None cur) ->
  exists r' db, TableBuilder_Flush r = Ok tt r' /\ builder_inv r' done (Some db) [] /\ db_entries db = cur /\
    last_key r' = last_key r /\ num_entries r' = num_entries r /\ closed r' = closed r.
Proof.
  intros H Hopen Hne Hs Hgood. destruct (inv_room r done None cur H Hs) as (Hoff & Hcur & _).
  destruct (bi_data _ _ _ _ H) as (offs & rs & HB). pose proof (bi_options _ _ _ _ H) as [Ho Hio].
  pose proof (bi_pending _ _ _ _ H) as Hp. cbn in Hp.
  unfold TableBuilder_Flush. rewrite bind_gets. unfold id.
  rewrite bind_assert by (by rewrite Hopen).
  rewrite (proj1 (bi_file _ _ _ _ H)). cbn [negb]. rewrite (building_nonempty _ _ _ _ _ HB Hne).
  rewrite bind_assert by (by rewrite Hp).
  destruct (WriteBlock_stored _ _ _ _ _ r (bi_file _ _ _ _ H) HB ltac:(lia) ltac:(lia))
    as (handle & raw & bytes & f & Ew & Hc & Hlen & Hho & Hst & Hbf).
  rewrite (bind_ok _ _ _ _ _ Ew), !bind_modify. unfold builder_ok. rewrite bind_gets.
  cbn [status set_pending set_data_block set_offset set_file ok state_ Status_OK].
  rewrite bind_assoc, bind_modify.
  match goal with |- context [bind (on_file Flush) _ ?r1] =>
    assert (exists f2, on_file Flush r1 = Ok tt (set_file f2 Status_OK r1) /\ contents f2 = contents f)
      as (f2 & Ef & Hc2) end.
  { destruct (flush_ok f) as (f2 & E & Hf2). exists f2. split; [|done]. unfold on_file.
    cbn [file set_pending set_data_block set_offset set_file]. by rewrite E. }
  rewrite (bind_ok _ _ _ _ _ Ef), bind_gets.
  destruct (filter_started (filter_block r) (offset r) (offset r + Z.of_nat (length bytes)) (blocks_of done None) cur
    (mk_data_block handle raw cur)) as (fb & Hfb & Hstart); [by apply (bi_filter _ _ _ _ H)|done|done| |done|done|].
  { pose proof (proj2 (bi_file _ _ _ _ H)). lia. }
  match goal with |- context [bind (on_filter _) _ ?r1] => destruct (Hstart r1 eq_refl) as (a & Ea) end.
  rewrite (bind_ok _ _ _ _ _ Ea).
  eexists _, (mk_data_block handle raw cur). split; [done|]. split; [|by repeat split].
  split; cbn [options index_block_options file offset status data_block index_block last_key num_entries closed
    filter_block pending_index_entry pending_handle set_pending set_data_block set_offset set_file set_filter_block db_handle
    db_raw db_entries snd fst].
  - done.
  - split; [done|]. cbn [offset file set_pending set_data_block set_offset set_file set_filter_block]. rewrite Hc2, Hc, length_app. pose proof (proj2 (bi_file _ _ _ _ H)). lia.
  - intros _. unfold blocks_of in *. cbn [option_list] in *. by rewrite app_nil_r in Hfb.
  - unfold blocks_of. cbn [option_list]. apply Forall_app. rewrite Hc2. split.
    + rewrite Hc. pose proof (bi_blocks _ _ _ _ H) as Hbl. unfold blocks_of in Hbl. cbn [option_list] in Hbl.
      rewrite app_nil_r in Hbl. eapply Forall_impl; [exact Hbl|]. intros db. apply block_stored_app.
    + constructor; [|constructor]. by repeat split; try apply Hst.
  - pose proof (bi_handles _ _ _ _ H) as Hh. unfold blocks_of in *. cbn [option_list] in *.
    rewrite app_nil_r in Hh. rewrite fmap_app. apply StronglySorted_app_2.
    2: exact Hh. 2: by repeat constructor. intros x1 x2 Hx1 Hx2.
    apply list_elem_of_fmap in Hx1 as (db & -> & Hdb). cbn in Hx2. apply list_elem_of_singleton in Hx2 as ->.
    cbn [db_handle fmap list_fmap]. rewrite Hho.
    pose proof (bi_blocks _ _ _ _ H) as Hb. unfold blocks_of in Hb. cbn [option_list] in Hb.
    rewrite app_nil_r, Forall_forall in Hb. destruct (Hb db Hdb) as ((_ & Hlt & _) & _).
    by rewrite (proj2 (bi_file _ _ _ _ H)).
  - pose proof (bi_offset _ _ _ _ H) as Hb. unfold blocks_of in *. cbn [option_list] in *.
    rewrite app_nil_r in Hb. rewrite blocks_cost_app.
    change (blocks_cost (option_list (Some (mk_data_block handle raw cur)))) with (entries_size cur + 20 + 0). lia.
  - apply (bi_index _ _ _ _ H).
  - done.
  - exists [0%nat], [0%nat]. apply building_reset. done.
  - match goal with |- separators done ?l =>
      replace l with cur by (unfold all_of; cbn; by rewrite !app_nil_r) end.
    exact (bi_separators _ _ _ _ H).
Qed.

(** ** The index *)

Lemma before_gt a b : @valid C L a -> @valid C L b -> before C a b = true -> exists c, @Compare C b a = Some c /\ 0 < c.
Proof.
  unfold before. intros Ha Hb. destruct (Compare a b) as [x|] eqn:E; [|done]. intros Hx%Z.ltb_lt.
  destruct (compare_total b a Hb Ha) as [y Ey]. exists y. split; [done|].
  pose proof (compare_antisym a b x y Ha Hb E Ey). lia.
Qed.

Lemma gt_before a b c : @valid C L a -> @valid C L b -> @Compare C b a = Some c -> 0 < c -> before C a b = true.
Proof.
  intros Ha Hb E Hc. unfold before. destruct (compare_total a b Ha Hb) as [x Ex]. rewrite Ex.
  apply Z.ltb_lt. pose proof (compare_antisym a b x c Ha Hb Ex E). lia.
Qed.

Lemma before_at_most a b c : @valid C L a -> @valid C L b -> @valid C L c ->
  before C a b = true -> at_most b c -> before C a c = true.
Proof.
  intros Ha Hb Hc. unfold before at 1. destruct (Compare a b) as [x|] eqn:E; [|done]. intros Hx%Z.ltb_lt (y & Ey & Hy).
  destruct (compare_trans a b c x y Ha Hb Hc E Ey ltac:(lia) Hy) as (z & Ez & _ & Hz).
  unfold before. rewrite Ez. apply Z.ltb_lt, Hz. by left.
Qed.

Lemma at_most_trans a b c : @valid C L a -> @valid C L b -> @valid C L c ->
  at_most a b -> at_most b c -> at_most a c.
Proof.
  intros Ha Hb Hc (x & Ex & Hx) (y & Ey & Hy).
  destruct (compare_trans a b c x y Ha Hb Hc Ex Ey Hx Hy) as (z & Ez & Hz & _). by exists z.
Qed.

Lemma index_entries_snoc done sd :
  index_entries (done ++ [sd]) = index_entries done ++ [(sd.1, handle_bytes (db_handle sd.2))].
Proof. unfold index_entries. by rewrite fmap_app. Qed.

Lemma prev_key_last kvs kv : prev_key (kvs ++ [kv]) (length (kvs ++ [kv])) = kv.1.
Proof. rewrite length_app. cbn [length]. rewrite Nat.add_1_r. cbn [prev_key]. by rewrite list_lookup_middle. Qed.

Lemma separators_snoc done db sep :
  separators done (db_entries db) -> @valid C L sep ->
  entry_size (sep, handle_bytes (db_handle db)) <= entries_size (db_entries db) + 20 ->
  Forall (fun kv => at_most kv.1 sep) (db_entries db) ->
  separators (done ++ [(sep, db)]) [].
Proof.
  intros [Hv Ha Hb Hl] Hs Hsize Hm. split.
  - apply Forall_app. split; [done|]. by repeat constructor.
  - apply Forall_app. split; [done|]. by repeat constructor.
  - intros i a b Hi Hj. destruct (decide (S i < length done)%nat) as [Hlt|Hge].
    + rewrite lookup_app_l in Hi, Hj by lia. by eapply Hb.
    + apply lookup_lt_Some in Hj as Hjl. rewrite length_app in Hjl. cbn in Hjl.
      assert (S i = length done) as Hi1 by lia. rewrite Hi1, list_lookup_middle in Hj by done. injection Hj as <-.
      rewrite lookup_app_l in Hi by lia. apply (Hl a). rewrite last_lookup. by replace (pred (length done)) with i by lia.
  - intros a _. split; [constructor|done].
Qed.

Lemma add_index_entry_ok find r done db sep :
  builder_inv r done (Some db) [] -> good_keys (db_entries db) ->
  entries_size (added done (Some db) []) < 2 ^ 28 ->
  find o (last_key r) = Some sep -> @valid C L sep ->
  entry_size (sep, handle_bytes (db_handle db)) <= entries_size (db_entries db) + 20 ->
  Forall (fun kv => at_most kv.1 sep) (db_entries db) ->
  exists r', add_index_entry find r = Ok tt r' /\ builder_inv r' (done ++ [(sep, db)]) None [] /\
    num_entries r' = num_entries r /\ closed r' = closed r /\ file r' = file r.
Proof.
  intros H Hkeys Hsize Hf Hs Hes Hm. destruct (inv_room _ _ _ _ H Hsize) as (_ & _ & Hroom).
  destruct (bi_pending _ _ _ _ H) as (Hp & Hph & _). destruct (bi_options _ _ _ _ H) as [Ho Hio].
  destruct (bi_index _ _ _ _ H) as (offs & rs & HB).
  pose proof (bi_blocks _ _ _ _ H) as Hbl. apply Forall_app in Hbl as [Hbl1 Hbl2].
  apply (Forall_inv (P := block_stored _)) in Hbl2. destruct Hbl2 as ((Hh & _ & _) & _ & Hne).
  assert (entries_size (db_entries db) < 2 ^ 28) as Hdb.
  { unfold added, blocks_of in Hsize. rewrite app_nil_r, all_of_app, entries_size_app in Hsize.
    change (all_of (option_list (Some db))) with (db_entries db ++ []) in Hsize. rewrite app_nil_r in Hsize.
    pose proof (entries_size_nonneg (all_of (done.*2))). lia. }
  pose proof (bi_separators _ _ _ _ H) as Hsep.
  replace (all_of (option_list (Some db)) ++ []) with (db_entries db) in Hsep
    by (unfold all_of; cbn; by rewrite !app_nil_r).
  unfold add_index_entry. rewrite bind_gets. unfold id. rewrite Ho, (bind_or_ub _ sep) by done.
  rewrite bind_modify, Hph, (bind_or_ub _ (handle_bytes (db_handle db))) by (by apply BlockHandle_EncodeTo_eq).
  destruct (BlockBuilder_Add_ok C 1 ltac:(lia) (index_block r) (index_entries done) offs rs sep
    (handle_bytes (db_handle db)) HB) as (b' & offs' & rs' & Eb & HB').
  { split; [by apply (valid_bytes (C := C))|]. split; [by apply handle_bytes_bytes|]. split.
    - rewrite entries_size_app, entries_size_cons. change (entries_size []) with 0. lia.
    - intros Hidx. destruct done as [|sd done _] using rev_ind; [done|].
      rewrite index_entries_snoc, prev_key_last. cbn [fst].
      pose proof (se_valid _ _ Hsep) as Hv. apply Forall_app in Hv as [_ Hv%Forall_inv].
      destruct (db_entries db) as [|[k v] l]; [done|].
      pose proof (proj1 (se_last _ _ Hsep sd ltac:(by rewrite last_snoc))) as Hlast%Forall_inv.
      apply Forall_inv in Hm. apply Forall_inv in Hkeys. cbn [fst] in *.
      apply before_gt; [apply Hv|done|]. by apply (before_at_most _ k); [apply Hv|..]. }
  rewrite Hio. cbn [comparator block_restart_interval index_options].
  erewrite bind_ok by (eapply zoom_ok; exact Eb). unfold modify.
  eexists. split; [done|]. split; [|done].
  assert (blocks_of (done ++ [(sep, db)]) None = blocks_of done (Some db)) as Eblocks.
  { unfold blocks_of. rewrite fmap_app. cbn. by rewrite app_nil_r. }
  split; rewrite ?Eblocks;
    cbn [options index_block_options file offset status data_block index_block last_key num_entries closed
      filter_block pending_index_entry pending_handle set_pending set_index_block set_last_key].
  - done.
  - apply (bi_file _ _ _ _ H).
  - apply (bi_filter _ _ _ _ H).
  - apply (bi_blocks _ _ _ _ H).
  - apply (bi_handles _ _ _ _ H).
  - apply (bi_offset _ _ _ _ H).
  - exists offs', rs'. by rewrite index_entries_snoc.
  - done.
  - apply (bi_data _ _ _ _ H).
  - by apply separators_snoc.
Qed.

(** ** Adding an entry *)

Definition sorted_keys (kvs : list (Slice * Slice)) : Prop :=
  StronglySorted (fun a b => before C a.1 b.1 = true) kvs.

(** Between two calls, a builder without a pending entry that has index entries
    has data, too. *)
Definition steady (done : list (Slice * DataBlock)) (pending : option DataBlock) (cur : list (Slice * Slice)) : Prop :=
  pending = None -> cur = [] -> done = [].

Lemma added_none done cur : added done None cur = all_of (done.*2) ++ cur.
Proof. unfold added, blocks_of. cbn. by rewrite app_nil_r. Qed.

Lemma added_some done db : added done (Some db) [] = all_of (done.*2) ++ db_entries db.
Proof. unfold added, blocks_of. rewrite all_of_app. change (option_list (Some db)) with [db]. by rewrite all_of_one, app_nil_r. Qed.

Lemma added_flushed done db : added done (Some db) [] = added done None (db_entries db).
Proof. by rewrite added_some, added_none. Qed.

Lemma added_indexed done sep db cur : added (done ++ [(sep, db)]) None cur = added done (Some db) [] ++ cur.
Proof.
  rewrite added_none, added_some, fmap_app, all_of_app. cbn [fmap list_fmap snd]. by rewrite all_of_one.
Qed.

Lemma separators_next done cur k v :
  separators done cur -> (forall a, last done = Some a -> before C a.1 k = true /\ (cur = [] -> made_between a [(k, [])])) ->
  separators done (cur ++ [(k, v)]).
Proof.
  intros [Hv Ha Hb Hl] Hk. split; try done. intros a Hla. destruct (Hl a Hla) as [Hbelow Hmade], (Hk a Hla) as [Hka Hkm].
  split; [apply Forall_app; by split; [|repeat constructor]|].
  destruct cur as [|kv cur]; [|exact Hmade]. intros kv [= <-]. by apply (Hkm eq_refl (k, [])).
Qed.

Lemma sorted_last kvs kv : sorted_keys (kvs ++ [kv]) -> Forall (fun kv' => before C kv'.1 kv.1 = true) kvs.
Proof.
  intros Hs. apply Forall_forall. intros kv' Hin. unfold sorted_keys in Hs. rewrite StronglySorted_app in Hs.
  destruct Hs as (Hs & _). apply (Hs kv' kv); [done|by left].
Qed.

(** The last key is not before any other. *)
Lemma sorted_at_most kvs : sorted_keys kvs -> good_keys kvs ->
  Forall (fun kv => at_most kv.1 (prev_key kvs (length kvs))) kvs.
Proof.
  intros Hs Hg. destruct kvs as [|kv kvs _] using rev_ind; [done|]. rewrite prev_key_last.
  apply Forall_app in Hg as [Hg Hkv%Forall_inv]. apply Forall_app. split.
  - eapply Forall_impl; [exact (sorted_last _ _ Hs)|]. cbn. intros kv'. unfold before, at_most.
    destruct (Compare kv'.1 kv.1) as [c|]; [|done]. intros Hc%Z.ltb_lt. exists c. split; [done|lia].
  - repeat constructor. exists 0. split; [by apply compare_refl|done].
Qed.

Lemma prev_key_app kvs kvs' : kvs' <> [] ->
  prev_key (kvs ++ kvs') (length (kvs ++ kvs')) = prev_key kvs' (length kvs').
Proof.
  intros Hne. destruct kvs' as [|kv kvs' _] using rev_ind; [done|]. by rewrite app_assoc, !prev_key_last.
Qed.

(** The bound on the entry of the index for a block. *)
Lemma index_entry_size sep h db key v :
  handle_ok h -> (key, v) ∈ db_entries db -> (length sep <= length key)%nat ->
  entry_size (sep, handle_bytes h) <= entries_size (db_entries db) + 20.
Proof.
  intros Hh Hin Hl. apply list_elem_of_split in Hin as (l1 & l2 & ->).
  rewrite entries_size_app, entries_size_cons. pose proof (entries_size_nonneg l1). pose proof (entries_size_nonneg l2).
  pose proof (handle_bytes_length h) as Hhl. unfold kMaxEncodedLength in Hhl.
  unfold entry_size. cbn [fst snd]. lia.
Qed.

Lemma prev_key_elem kvs : kvs <> [] -> exists v, (prev_key kvs (length kvs), v) ∈ kvs.
Proof.
  intros Hne. destruct kvs as [|[k v] kvs _] using rev_ind; [done|]. exists v. rewrite prev_key_last.
  apply elem_of_app. right. by left.
Qed.

(** The index entry that is pending is added, with a key below the one to come. *)
Lemma pending_indexed r done db key :
  builder_inv r done (Some db) [] -> counts r (added done (Some db) []) ->
  sorted_keys (added done (Some db) []) -> good_keys (added done (Some db) []) ->
  entries_size (added done (Some db) []) < 2 ^ 28 -> @valid C L key ->
  before C (last_key r) key = true ->
  exists r' sep, add_index_entry (fun o last => @FindShortestSeparator (comparator o) last key) r = Ok tt r' /\
    builder_inv r' (done ++ [(sep, db)]) None [] /\ (num_entries r' = num_entries r /\ closed r' = closed r) /\
    before C sep key = true /\ made_between (sep, db) [(key, [])].
Proof.
  intros H [Hlast _] Hs Hg Hsize Hk Hlt. rewrite added_some in *.
  pose proof (bi_blocks _ _ _ _ H) as Hbl. apply Forall_app in Hbl as [_ Hbl].
  apply (Forall_inv (P := block_stored _)) in Hbl. destruct Hbl as ((Hh & _ & _) & _ & Hne).
  rewrite prev_key_app in Hlast by done.
  apply Forall_app in Hg as [_ Hg]. unfold sorted_keys in Hs. rewrite StronglySorted_app in Hs.
  destruct Hs as (_ & _ & Hs). pose proof (sorted_at_most _ Hs Hg) as Hm. rewrite <- Hlast in Hm.
  destruct (prev_key_elem _ Hne) as [v Hin]. rewrite <- Hlast in Hin.
  assert (@valid C L (last_key r)) as Hvl
    by (unfold good_keys in Hg; rewrite Forall_forall in Hg; apply (Hg _ Hin)).
  destruct (separator_between (last_key r) key Hvl Hk) as (sep & Ef & Hvs & Hsep).
  assert (at_most (last_key r) sep /\ before C sep key = true) as [Hle Hb].
  { destruct Hsep as [->|(r1 & r2 & E1 & H1 & E2 & H2)].
    - split; [|done]. exists 0. split; [by apply compare_refl|done].
    - split; [by exists r1|]. unfold before. rewrite E2. by apply Z.ltb_lt. }
  destruct (add_index_entry_ok (fun o last => @FindShortestSeparator (comparator o) last key) r done db sep)
    as (r' & E & H' & Hn & Ho & _); try done.
  - by rewrite added_some.
  - eapply index_entry_size; [done|exact Hin|]. by apply (separator_short (C := C) _ key).
  - unfold good_keys in Hg. rewrite Forall_forall in Hg, Hm |- *. intros kv Hkv.
    by apply (at_most_trans _ (last_key r)); [apply Hg| | |apply Hm|].
  - exists r', sep. split; [done|]. split; [done|]. split; [done|]. split; [done|].
    intros kv [= <-]. cbn [fst snd]. by rewrite <- Hlast.
Qed.

(** The entry goes to the data block. *)
Lemma data_added r done cur k v :
  builder_inv r done None cur -> entries_size (added done None cur ++ [(k, v)]) < 2 ^ 28 ->
  Forall is_byte k -> Forall is_byte v ->
  (cur <> [] -> exists c, @Compare C k (prev_key cur (length cur)) = Some c /\ 0 < c) ->
  (forall a, last done = Some a -> before C a.1 k = true /\ (cur = [] -> made_between a [(k, [])])) ->
  closed r = false ->
  exists b a fb, on_filter (fun _ => AddKey k) r = Ok a (set_filter_block fb r) /\
    BlockBuilder_Add (comparator o) (block_restart_interval o) k v (data_block r) = Ok tt b /\
    builder_inv (set_data_block b (set_num_entries (num_entries r + 1) (set_last_key k (set_filter_block fb r)))) done None (cur ++ [(k, v)]).
Proof.
  intros H Hsize Hk Hv Hc Ha Hopen. destruct (bi_data _ _ _ _ H) as (offs & rs & HB).
  assert (entries_size (cur ++ [(k, v)]) < 2 ^ 28) as Hroom.
  { rewrite added_none, <- app_assoc, entries_size_app in Hsize.
    pose proof (entries_size_nonneg (all_of (done.*2))). lia. }
  destruct (BlockBuilder_Add_ok C (block_restart_interval o) Hinterval _ cur offs rs k v HB)
    as (b & offs' & rs' & E & HB').
  { split; [done|]. split; [done|]. split; [lia|done]. }
  destruct (filter_added r (offset r) (blocks_of done None) cur k v (bi_filter _ _ _ _ H Hopen)) as (a & fb & Ef & Hfb).
  exists b, a, fb. split; [done|]. split; [done|].
  split; cbn [options index_block_options file offset status data_block index_block last_key num_entries closed
      filter_block pending_index_entry pending_handle set_data_block set_num_entries set_last_key set_filter_block].
  - apply (bi_options _ _ _ _ H).
  - apply (bi_file _ _ _ _ H).
  - by intros _.
  - apply (bi_blocks _ _ _ _ H).
  - apply (bi_handles _ _ _ _ H).
  - apply (bi_offset _ _ _ _ H).
  - apply (bi_index _ _ _ _ H).
  - apply (bi_pending _ _ _ _ H).
  - by exists offs', rs'.
  - apply separators_next; [apply (bi_separators _ _ _ _ H)|done].
Qed.

(** What comes before the entry: the index entry that is pending, if there is one. *)
Lemma before_entry r done pending cur key :
  builder_inv r done pending cur -> counts r (added done pending cur) -> steady done pending cur ->
  sorted_keys (added done pending cur) -> good_keys (added done pending cur) ->
  entries_size (added done pending cur) < 2 ^ 28 -> @valid C L key ->
  (added done pending cur <> [] -> before C (last_key r) key = true) ->
  exists r' done' cur', (if pending_index_entry r then
       assert_ (BlockBuilder_empty (data_block r)) ;;;
       add_index_entry (fun o last => @FindShortestSeparator (comparator o) last key)
     else ret tt) r = Ok tt r' /\
    builder_inv r' done' None cur' /\ added done' None cur' = added done pending cur /\
    (num_entries r' = num_entries r /\ closed r' = closed r) /\
    (forall a, last done' = Some a -> before C a.1 key = true /\ (cur' = [] -> made_between a [(key, [])])) /\
    (cur' <> [] -> exists c, @Compare C key (prev_key cur' (length cur')) = Some c /\ 0 < c).
Proof.
  intros H Hcount Hst Hs Hg Hsize Hk Hlt. pose proof (bi_pending _ _ _ _ H) as Hp.
  destruct pending as [db|].
  - destruct Hp as (-> & _ & ->). rewrite bind_assert.
    2:{ destruct (bi_data _ _ _ _ H) as (offs & rs & HB). unfold BlockBuilder_empty.
        pose proof (el_last _ _ _ _ (bu_laid _ _ _ _ _ HB)) as Hl. cbn [length] in Hl.
        rewrite (el_first _ _ _ _ (bu_laid _ _ _ _ _ HB)) in Hl. by injection Hl as <-. }
    assert (added done (Some db) [] <> []) as Hne.
    { rewrite added_some. pose proof (bi_blocks _ _ _ _ H) as Hbl. apply Forall_app in Hbl as [_ Hbl].
      apply (Forall_inv (P := block_stored _)) in Hbl. destruct Hbl as (_ & _ & Hne).
      intros Happ%app_nil. by destruct Happ as [_ ?]. }
    destruct (pending_indexed r done db key H Hcount Hs Hg Hsize Hk (Hlt Hne)) as (r' & sep & E & H' & [Hn Ho] & Hb & Hmade).
    exists r', (done ++ [(sep, db)]), []. split; [done|]. split; [done|].
    split; [by rewrite added_indexed, app_nil_r|]. split; [done|].
    split; [|done]. intros a. rewrite last_snoc. by intros [= <-].
  - rewrite Hp. exists r, done, cur. split; [done|]. split; [done|]. split; [done|]. split; [done|].
    rewrite added_none in *. split.
    + intros a Ha. destruct cur as [|kv cur].
      { rewrite (Hst eq_refl eq_refl) in Ha. done. }
      pose proof (bi_separators _ _ _ _ H) as Hsep. change (all_of (option_list None) ++ kv :: cur) with (kv :: cur) in Hsep.
      pose proof (proj1 (se_last _ _ Hsep a Ha)) as Hkv%Forall_inv.
      pose proof (se_valid _ _ Hsep) as Hva. rewrite Forall_forall in Hva.
      destruct (Hva a) as [Hva1 _]; [by apply last_Some_elem_of|].
      unfold good_keys in Hg. rewrite Forall_forall in Hg.
      unfold sorted_keys in Hs. rewrite StronglySorted_app in Hs. destruct Hs as (_ & _ & Hs).
      assert (good_keys (kv :: cur)) as Hgc
        by (apply Forall_forall; intros x Hx; apply Hg, elem_of_app; by right).
      pose proof (sorted_at_most _ Hs Hgc) as Hm%Forall_inv.
      destruct Hcount as [Hlast _]. rewrite prev_key_app in Hlast by done. rewrite <- Hlast in Hm.
      destruct (prev_key_elem (kv :: cur)) as [v Hin]; [done|]. rewrite <- Hlast in Hin.
      split; [|done]. apply (key_before_trans C _ kv.1); [done|apply Hg, elem_of_app; right; by left|done|done|].
      assert (@valid C L (last_key r)) as Hvl by (apply (Hg (last_key r, v)), elem_of_app; by right).
      destruct Hm as (c & Ec & Hc). eapply (before_le_trans C _ (last_key r)); [|done|done|exact Ec|done|].
      * apply Hg, elem_of_app. right. by left.
      * apply Hlt. by intros Happ%app_nil; destruct Happ.
    + intros Hne. destruct Hcount as [Hlast _]. rewrite prev_key_app in Hlast by done.
      rewrite <- Hlast. destruct (prev_key_elem cur Hne) as [v Hin]. rewrite <- Hlast in Hin.
      unfold good_keys in Hg. rewrite Forall_forall in Hg.
      apply before_gt; [apply (Hg (last_key r, v)), elem_of_app; by right|done|].
      apply Hlt. by intros Happ%app_nil; destruct Happ.
Qed.

Lemma TableBuilder_Add_ok r done pending cur k v :
  builder_inv r done pending cur -> counts r (added done pending cur) -> steady done pending cur ->
  sorted_keys (added done pending cur ++ [(k, v)]) -> good_keys (added done pending cur ++ [(k, v)]) ->
  entries_size (added done pending cur ++ [(k, v)]) < 2 ^ 28 -> Forall is_byte v ->
  exists r' done' pending' cur', TableBuilder_Add k v r = Ok tt r' /\ builder_inv r' done' pending' cur' /\
    added done' pending' cur' = added done pending cur ++ [(k, v)] /\
    counts r' (added done pending cur ++ [(k, v)]) /\ steady done' pending' cur'.
Proof.
  intros H Hcount Hst Hs Hg Hsize Hv.
  pose proof (sorted_last _ _ Hs) as Hbefore. apply Forall_app in Hg as [Hg Hk%Forall_inv]. cbn [fst] in *.
  unfold sorted_keys in Hs. rewrite StronglySorted_app in Hs. destruct Hs as (_ & Hs & _).
  assert (added done pending cur <> [] -> before C (last_key r) k = true) as Hlt.
  { intros Hne. destruct (prev_key_elem _ Hne) as [w Hin]. rewrite <- (proj1 Hcount) in Hin.
    rewrite Forall_forall in Hbefore. apply (Hbefore _ Hin). }
  assert (entries_size (added done pending cur) < 2 ^ 28) as Hsize0.
  { rewrite entries_size_app in Hsize. pose proof (entries_size_nonneg [(k, v)]). lia. }
  unfold TableBuilder_Add. rewrite bind_gets. unfold id. rewrite bind_assert by (by rewrite (proj2 (proj2 Hcount))).
  rewrite (proj1 (bi_file _ _ _ _ H)). cbn [negb].
  assert ((if 0 <? num_entries r then
     let! c := or_ub (@Compare (comparator (options r)) k (last_key r)) in assert_ (0 <? c) else ret tt) r = Ok tt r) as E1.
  { destruct (Z.ltb_spec 0 (num_entries r)) as [Hn|]; [|done]. rewrite (proj1 (proj2 Hcount)) in Hn.
    assert (added done pending cur <> []) as Hne by (intros E; rewrite E in Hn; done).
    destruct (prev_key_elem _ Hne) as [w Hin]. rewrite <- (proj1 Hcount) in Hin.
    unfold good_keys in Hg. rewrite Forall_forall in Hg.
    destruct (before_gt (last_key r) k (Hg _ Hin) Hk (Hlt Hne)) as (c & Ec & Hc).
    rewrite (proj1 (bi_options _ _ _ _ H)), Ec. cbn [or_ub]. rewrite bind_ret.
    destruct (Z.ltb_spec 0 c); [done|lia]. }
  rewrite (bind_ok _ _ _ _ _ E1).
  destruct (before_entry r done pending cur k H Hcount Hst Hs Hg Hsize0 Hk Hlt)
    as (r1 & done1 & cur1 & E2 & H1 & Ha1 & [Hn1 Ho1] & Hsep1 & Hc1).
  rewrite (bind_ok _ _ _ _ _ E2).
  rewrite <- Ha1 in Hsize.
  destruct (data_added r1 done1 cur1 k v H1 Hsize ltac:(by apply (valid_bytes (C := C))) Hv Hc1 Hsep1) as (b & a & fb & Ea & Eb & H2).
  { rewrite Ho1. apply Hcount. }
  rewrite (bind_ok _ _ _ _ _ Ea), !bind_modify, bind_gets.
  cbn [options set_num_entries set_last_key set_filter_block]. rewrite (proj1 (bi_options _ _ _ _ H1)).
  erewrite bind_ok by (eapply zoom_ok; exact Eb). rewrite bind_gets.
  assert (added done1 None (cur1 ++ [(k, v)]) = added done pending cur ++ [(k, v)]) as Ha2
    by (rewrite <- Ha1, !added_none; by rewrite app_assoc).
  set (r2 := set_data_block b _) in *.
  assert (counts r2 (added done pending cur ++ [(k, v)])) as Hcount2.
  { split; [by rewrite prev_key_last|]. unfold r2. cbn [num_entries set_data_block set_num_entries set_last_key set_filter_block].
    destruct Hcount as (_ & Hn & Ho). rewrite Hn1, Hn, length_app. cbn [length]. split; [lia|].
    by rewrite <- Ho. }
  match goal with |- context [if ?c then _ else _] => destruct c end.
  - destruct (Flush_ok r2 done1 (cur1 ++ [(k, v)]) H2) as (r3 & db & E3 & H3 & Hdb & Hl3 & Hn3 & Ho3).
    + apply Hcount2.
    + by intros Happ%app_nil; destruct Happ.
    + by rewrite Ha2, <- Ha1.
    + rewrite Ha2. apply Forall_app. by split; [|repeat constructor].
    + exists r3, done1, (Some db), []. split; [done|]. split; [done|].
      split; [by rewrite added_flushed, Hdb|]. split; [|done]. destruct Hcount2 as (? & ? & ?). repeat split; congruence.
  - exists r2, done1, None, (cur1 ++ [(k, v)]). split; [done|]. split; [done|]. split; [done|].
    split; [done|]. intros _ Happ%app_nil. by destruct Happ.
Qed.

End invariant.

(** ** The end of the table *)

Section finish.
Context (o : Options) {L : ComparatorLaws (comparator o)} {SK : ShortKeys (comparator o)} {OF : OptionFilter o}.
Context (Hinterval : 1 <= block_restart_interval o).

Abbreviation C := (comparator o).

(** The last step of a builder: no entry is pending any more, and the filter block
    is not asked for anything. *)
Lemma closed_inv slack r done pending cur :
  builder_inv o slack r done pending cur -> builder_inv o slack (set_closed r) done pending cur.
Proof. intros []. by split. Qed.

Lemma filter_set_inv slack fb r done pending cur : closed r = true ->
  builder_inv o slack r done pending cur -> builder_inv o slack (set_filter_block fb r) done pending cur.
Proof. intros Hc []. split; try done. intros Hopen. cbn [closed set_filter_block] in Hopen. congruence. Qed.

(** A reader of the filter block has, for each key of a block, a filter that matches it. *)
Definition filter_reads (p : FilterPolicy) (fr : FilterBlockReader) (dbs : list DataBlock) : Prop :=
  forall db kv, db ∈ dbs -> kv ∈ db_entries db ->
    exists f, Forall is_byte f /\ Z.of_nat (length f) < 2 ^ 29 /\
      (forall k, @BlockKeyMayMatch p fr (offset_ (db_handle db)) k = @KeyMayMatch p k f) /\ @KeyMayMatch p kv.1 f = Some true.

Definition filter_at (pre : Slice) (h : BlockHandle) (dbs : list DataBlock) : Prop :=
  match filter_policy o with
  | None => True
  | Some p => exists bytes fr, stored_as pre h bytes /\ new_FilterBlockReader bytes = Some fr /\ filter_reads p fr dbs
  end.

(** The metaindex leads to the filters. *)
Definition filter_stored (pre : Slice) (metaindex : BlockHandle) (dbs : list DataBlock) : Prop :=
  match filter_policy o with
  | None => True
  | Some p => exists h raw, stored_as pre metaindex raw /\ built_from raw [(filter_key p, handle_bytes h)] /\ handle_ok h /\
      filter_at pre h dbs
  end.

Lemma filter_at_app pre x h dbs : filter_at pre h dbs -> filter_at (pre ++ x) h dbs.
Proof.
  unfold filter_at. destruct (filter_policy o); [|done]. intros (bytes & fr & H & ?). exists bytes, fr. split; [by apply stored_as_app|done].
Qed.

Lemma filter_stored_app pre x h dbs : filter_stored pre h dbs -> filter_stored (pre ++ x) h dbs.
Proof.
  unfold filter_stored. destruct (filter_policy o); [|done]. intros (h' & raw & H & ? & ? & Ha). exists h', raw.
  split; [by apply stored_as_app|]. split; [done|]. split; [done|]. by apply filter_at_app.
Qed.

Lemma finish_filter_ok r done pending :
  builder_inv o 0 r done pending [] -> filter_inv o (filter_block r) (offset r) (blocks_of done pending) [] ->
  good_keys o (added done pending []) -> entries_size (added done pending []) < 2 ^ 28 ->
  exists handle fb bytes f, finish_filter r = Ok handle
      (set_offset (offset r + Z.of_nat (length bytes)) (set_file f Status_OK (set_filter_block fb r))) /\
    contents f = contents (file r) ++ bytes /\ Z.of_nat (length bytes) < 2 ^ 29 + 5 /\
    match filter_policy o with None => fb = None | Some p => exists b, fb = Some (p, b) end /\
    filter_at (contents f) handle (blocks_of done pending).
Proof.
  intros H Hfilter Hg Hsize. unfold finish_filter. rewrite bind_gets. unfold id.
  destruct (bi_file _ _ _ _ _ _ H) as [Hok Hend]. rewrite Hok. unfold filter_at, filter_inv in *. destruct (filter_policy o) as [p|] eqn:Ep.
  - destruct Hfilter as (b & fin & pend & Eb & Hb & Hl & Ha & Hk & _). pose proof (option_filter p Ep) as T.
    destruct (inv_room o 0 ltac:(done) _ _ _ _ H Hsize) as (Hoff & _).
    destruct (filter_finished (P := p) (C := C) (T := T) b fin pend Hb) as (b' & bytes & fr & E & Hby & Hlen & Er & Hread).
    { rewrite Ha. apply Forall_fmap. exact Hg. }
    { rewrite Ha, length_fmap. pose proof (entries_count (added done pending [])). unfold added in *. lia. }
    { rewrite Hl. assert (offset r / kFilterBase <= 2 ^ 31 / kFilterBase) by (apply Z.div_le_mono; [done|lia]).
      change (2 ^ 31 / kFilterBase) with (2 ^ 20) in *. enough (offset r / kFilterBase < 2 ^ 20) by lia.
      apply Z.div_lt_upper_bound; [done|]. change (kFilterBase * 2 ^ 20) with (2 ^ 31). lia. }
    assert (on_filter (fun p => @Finish p) r = Ok (Some bytes) (set_filter_block (Some (p, b')) r)) as Ef
      by (unfold on_filter; by rewrite Eb, E).
    rewrite (bind_ok _ _ _ _ _ Ef).
    destruct (WriteRawBlock_stored bytes (set_filter_block (Some (p, b')) r)) as (h & out & f & Ew & Hc & Hol & Hst);
      [done|done|lia|cbn [offset set_filter_block]; lia|].
    exists h, (Some (p, b')), out, f. split; [exact Ew|]. split; [exact Hc|]. split; [lia|]. split; [by exists b'|].
    exists bytes, fr. split; [done|]. split; [done|]. intros db kv Hdb Hkv. apply Hread; [|by apply Hk].
    pose proof (bi_blocks _ _ _ _ _ _ H) as Hbl. rewrite Forall_forall in Hbl. destruct (Hbl db Hdb) as ((Hh & _) & _). apply Hh.
  - exists new_BlockHandle, None, [], (file r). split; [|by rewrite app_nil_r].
    erewrite bind_ok by (unfold on_filter; by rewrite Hfilter). unfold ret. f_equal. cbn [length]. rewrite Z.add_0_r.
    destruct r as [? ? ? ? st ? ? ? ? ? fb ? ?]. cbn in *. subst fb. destruct st as [[st|]]; [done|]. done.
Qed.

(** More is written behind the blocks. *)
Lemma written_inv slack f bytes r done pending cur :
  builder_inv o slack r done pending cur -> closed r = true -> contents f = contents (file r) ++ bytes ->
  builder_inv o (slack + Z.of_nat (length bytes))
    (set_offset (offset r + Z.of_nat (length bytes)) (set_file f Status_OK r)) done pending cur.
Proof.
  intros H Hclosed Hf. pose proof (bi_offset _ _ _ _ _ _ H) as Hoff.
  split; cbn [options index_block_options file offset status data_block index_block last_key num_entries closed
      filter_block pending_index_entry pending_handle set_offset set_file].
  - apply (bi_options _ _ _ _ _ _ H).
  - by apply (written_at_end bytes f), Hf; apply (bi_file _ _ _ _ _ _ H).
  - intros Hopen. congruence.
  - rewrite Hf. eapply Forall_impl; [exact (bi_blocks _ _ _ _ _ _ H)|]. intros db. apply block_stored_app.
  - apply (bi_handles _ _ _ _ _ _ H).
  - lia.
  - apply (bi_index _ _ _ _ _ _ H).
  - apply (bi_pending _ _ _ _ _ _ H).
  - apply (bi_data _ _ _ _ _ _ H).
  - apply (bi_separators _ _ _ _ _ _ H).
Qed.

Lemma filter_key_ok p (T : TableFilter p C) : Forall is_byte (filter_key p) /\ Z.of_nat (length (filter_key p)) < 2 ^ 16 + 8.
Proof.
  pose proof (tf_name (TableFilter := T)) as Hn. unfold filter_key. split; [apply Forall_app; split; apply literal_bytes|].
  rewrite length_app, !literal_length. change (String.length "filter.") with 7%nat. lia.
Qed.

Lemma finish_metaindex_ok slack r done pending cur h :
  0 <= slack < 2 ^ 30 -> builder_inv o slack r done pending cur -> entries_size (added done pending cur) < 2 ^ 28 ->
  match filter_policy o with None => filter_block r = None | Some p => exists b, filter_block r = Some (p, b) end ->
  filter_at (contents (file r)) h (blocks_of done pending) ->
  exists handle bytes f, finish_metaindex h r = Ok handle
      (set_offset (offset r + Z.of_nat (length bytes)) (set_file f Status_OK r)) /\
    contents f = contents (file r) ++ bytes /\ Z.of_nat (length bytes) < 2 ^ 17 /\ handle_ok handle /\
    filter_stored (contents f) handle (blocks_of done pending).
Proof.
  intros Hslack H Hsize Hfb Hat. destruct (inv_room o slack ltac:(lia) _ _ _ _ H Hsize) as (Hoff & _).
  unfold finish_metaindex. rewrite bind_gets. unfold id. rewrite (proj1 (bi_file _ _ _ _ _ _ H)).
  rewrite (proj1 (bi_options _ _ _ _ _ _ H)).
  assert (new_BlockBuilder (block_restart_interval o) = Some BlockBuilder_Reset) as ->
    by (unfold new_BlockBuilder; destruct (Z.leb_spec 1 (block_restart_interval o)); [done|lia]).
  cbn [or_ub]. rewrite bind_ret. unfold filter_stored. unfold filter_at in Hat |- *. destruct (filter_policy o) as [p|] eqn:Ep.
  - destruct Hfb as [fb Efb]. rewrite Efb. cbn [or_ub]. rewrite !bind_assoc, bind_ret.
    destruct Hat as (bytes & fr & Hst & Hr & Hreads). pose proof (proj1 Hst) as Hh.
    destruct (filter_key_ok p (option_filter p Ep)) as [Hkb Hkl].
    pose proof (handle_bytes_length h) as Hhl. unfold kMaxEncodedLength in Hhl.
    destruct (BlockBuilder_Add_ok C (block_restart_interval o) Hinterval BlockBuilder_Reset [] _ _ (filter_key p)
      (handle_bytes h) (building_reset _ Hinterval)) as (b & offs & rs & Eb & HB).
    { split; [done|]. split; [by apply handle_bytes_bytes|]. split; [|done].
      unfold entries_size, entry_size. cbn [app foldr fst snd]. lia. }
    rewrite !bind_assoc, (bind_or_ub _ (handle_bytes h)) by (by apply BlockHandle_EncodeTo_eq). rewrite Eb, bind_ret.
    assert (entries_size ([] ++ [(filter_key p, handle_bytes h)]) < 2 ^ 16 + 60) as Hes
      by (unfold entries_size, entry_size; cbn [app foldr fst snd]; lia).
    destruct (WriteBlock_stored (block_restart_interval o) b _ _ _ r (bi_file _ _ _ _ _ _ H) HB ltac:(lia) ltac:(lia))
      as (handle & raw & out & f & E & Hf & Hl & _ & Hsth & Hbf).
    rewrite (bind_ok _ _ _ _ _ E). exists handle, out, f. split; [done|]. split; [done|]. split; [lia|]. split; [apply Hsth|].
    exists h, raw. split; [done|]. split; [done|]. split; [done|]. exists bytes, fr. split; [|done]. rewrite Hf. by apply stored_as_app.
  - rewrite Hfb, bind_ret.
    destruct (WriteBlock_stored (block_restart_interval o) _ [] _ _ r (bi_file _ _ _ _ _ _ H)
      (building_reset _ Hinterval) ltac:(done) ltac:(lia))
      as (handle & raw & bytes & f & E & Hf & Hl & _ & (Hh & _) & _).
    rewrite (bind_ok _ _ _ _ _ E). exists handle, bytes, f. split; [done|]. split; [done|].
    change (entries_size []) with 0 in Hl. split; [lia|done].
Qed.

(** The last index entry. *)
Lemma last_indexed slack r done db :
  0 <= slack < 2 ^ 30 -> builder_inv o slack r done (Some db) [] ->
  last_key r = prev_key (added done (Some db) []) (length (added done (Some db) [])) ->
  sorted_keys o (added done (Some db) []) -> good_keys o (added done (Some db) []) ->
  entries_size (added done (Some db) []) < 2 ^ 28 ->
  exists r' sep, add_index_entry (fun o last => @FindShortSuccessor (comparator o) last) r = Ok tt r' /\
    builder_inv o slack r' (done ++ [(sep, db)]) None [] /\ closed r' = closed r /\ file r' = file r.
Proof.
  intros Hslack H Hlast Hs Hg Hsize. rewrite added_some in *.
  pose proof (bi_blocks _ _ _ _ _ _ H) as Hbl. apply Forall_app in Hbl as [_ Hbl].
  apply (Forall_inv (P := block_stored _)) in Hbl. destruct Hbl as ((Hh & _ & _) & _ & Hne).
  rewrite prev_key_app in Hlast by done.
  apply Forall_app in Hg as [_ Hg]. unfold sorted_keys in Hs. rewrite StronglySorted_app in Hs.
  destruct Hs as (_ & _ & Hs). pose proof (sorted_at_most o _ Hs Hg) as Hm. rewrite <- Hlast in Hm.
  destruct (prev_key_elem _ Hne) as [v Hin]. rewrite <- Hlast in Hin.
  assert (@valid C L (last_key r)) as Hvl
    by (unfold good_keys in Hg; rewrite Forall_forall in Hg; apply (Hg _ Hin)).
  destruct (successor_after (last_key r) Hvl) as (sep & c & Ef & Hvs & Ec & Hc).
  destruct (add_index_entry_ok o slack Hslack (fun o last => @FindShortSuccessor (comparator o) last) r done db sep)
    as (r' & E & H' & _ & Ho & Hf); try done.
  - by rewrite added_some.
  - eapply index_entry_size; [done|exact Hin|]. by apply (successor_short (C := C)).
  - unfold good_keys in Hg. rewrite Forall_forall in Hg, Hm |- *. intros kv Hkv.
    apply (at_most_trans o _ (last_key r)); [by apply Hg|done|done|by apply Hm|by exists c].
  - by exists r', sep.
Qed.

(** What [Finish] leaves in the file. *)
Record finished (r : Rep F) (kvs : list (Slice * Slice)) (done : list (Slice * DataBlock)) : Prop := mk_finished {
  fi_end : at_file_end r;
  fi_size : offset r < 2 ^ 63;
  fi_entries : all_of (done.*2) = kvs;
  fi_blocks : Forall (block_stored (contents (file r))) (done.*2);
  fi_handles : StronglySorted Z.lt ((fun db => offset_ (db_handle db)) <$> done.*2);
  fi_separators : separators o done [];
  fi_footer : exists pre metaindex index raw, contents (file r) = pre ++ footer_bytes (mk_footer metaindex index) /\
    footer_ok (mk_footer metaindex index) /\ stored_as pre index raw /\ built_from raw (index_entries done) /\
    filter_stored pre metaindex (done.*2)
}.

Lemma finish_index_ok slack r done pending :
  0 <= slack < 2 ^ 30 - 2 ^ 18 -> builder_inv o slack r done pending [] -> closed r = true ->
  (pending = None -> done = []) ->
  last_key r = prev_key (added done pending []) (length (added done pending [])) ->
  sorted_keys o (added done pending []) -> good_keys o (added done pending []) ->
  entries_size (added done pending []) < 2 ^ 28 ->
  exists handle r' done' raw, finish_index r = Ok handle r' /\ at_file_end r' /\ offset r' < 2 ^ 62 /\
    all_of (done'.*2) = added done pending [] /\ done'.*2 = blocks_of done pending /\
    (exists more, contents (file r') = contents (file r) ++ more) /\
    Forall (block_stored (contents (file r'))) (done'.*2) /\
    StronglySorted Z.lt ((fun db => offset_ (db_handle db)) <$> done'.*2) /\ separators o done' [] /\
    stored_as (contents (file r')) handle raw /\ built_from raw (index_entries done').
Proof.
  intros Hslack H Hclosed Hst Hlast Hs Hg Hsize.
  unfold finish_index. rewrite bind_gets. unfold id. rewrite (proj1 (bi_file _ _ _ _ _ _ H)).
  assert (exists r1 done1, (if pending_index_entry r then add_index_entry
      (fun o last => @FindShortSuccessor (comparator o) last) else ret tt) r = Ok tt r1 /\
    builder_inv o slack r1 done1 None [] /\ added done1 None [] = added done pending [] /\ closed r1 = true /\ file r1 = file r /\
    blocks_of done1 None = blocks_of done pending) as (r1 & done1 & E1 & H1 & Ha1 & Hc1 & Hf1 & Hbl1).
  { pose proof (bi_pending _ _ _ _ _ _ H) as Hp. destruct pending as [db|].
    - destruct Hp as (-> & _ & _).
      destruct (last_indexed slack r done db ltac:(lia) H Hlast Hs Hg Hsize) as (r' & sep & E & H' & Hc' & Hf').
      exists r', (done ++ [(sep, db)]). split; [done|]. split; [done|]. rewrite added_indexed, app_nil_r.
      split; [done|]. split; [congruence|]. split; [done|]. unfold blocks_of. rewrite fmap_app. cbn. by rewrite app_nil_r.
    - rewrite Hp. by exists r, done. }
  rewrite (bind_ok _ _ _ _ _ E1), bind_gets.
  destruct (inv_room o slack ltac:(lia) _ _ _ _ H1 ltac:(by rewrite Ha1)) as (Hoff & _ & Hidx).
  destruct (bi_index _ _ _ _ _ _ H1) as (offs & rs & HB).
  destruct (WriteBlock_stored 1 _ _ _ _ r1 (bi_file _ _ _ _ _ _ H1) HB ltac:(lia) ltac:(lia))
    as (handle & raw & bytes & f & E & Hf & Hl & _ & Hst' & Hbf).
  rewrite (bind_ok _ _ _ _ _ E), bind_modify. cbn [fst snd].
  pose proof (written_inv slack f bytes r1 done1 None [] H1 Hc1 Hf) as H2.
  exists handle. eexists. exists done1, raw. split; [done|].
  rewrite added_none, app_nil_r in Ha1.
  assert (blocks_of done1 None = done1.*2) as Eb by apply app_nil_r.
  split; [exact (bi_file _ _ _ _ _ _ H2)|]. split; [cbn; lia|]. split; [done|].
  split; [congruence|]. split; [exists bytes; cbn [file set_offset set_file set_index_block]; by rewrite Hf, Hf1|].
  split; [rewrite <- Eb; exact (bi_blocks _ _ _ _ _ _ H2)|].
  split; [rewrite <- Eb; exact (bi_handles _ _ _ _ _ _ H2)|].
  split; [exact (bi_separators _ _ _ _ _ _ H2)|]. by split.
Qed.

Lemma finish_footer_ok metaindex index r :
  at_file_end r -> offset r < 2 ^ 62 -> footer_ok (mk_footer metaindex index) ->
  exists f, finish_footer metaindex index r =
      Ok tt (set_offset (offset r + 48) (set_file f Status_OK r)) /\
    contents f = contents (file r) ++ footer_bytes (mk_footer metaindex index).
Proof.
  intros Hend Hoff Hok. unfold finish_footer. rewrite bind_gets. unfold id. rewrite (proj1 Hend).
  rewrite (bind_or_ub _ (footer_bytes (mk_footer metaindex index))) by (by apply Footer_EncodeTo_eq).
  destruct (on_file_append (footer_bytes (mk_footer metaindex index)) r) as (f & E & Hf).
  rewrite (bind_ok _ _ _ _ _ E). unfold builder_ok. rewrite bind_gets.
  cbn [status set_file ok state_ Status_OK]. rewrite footer_bytes_length. exists f. split; [|done].
  unfold modify, set_offset, set_file. cbn [offset]. pose proof (proj2 Hend).
  change (Z.of_nat kEncodedLength) with 48. by rewrite uwrap_small by lia.
Qed.

Lemma TableBuilder_Finish_ok r done pending cur :
  builder_inv o 0 r done pending cur -> counts r (added done pending cur) -> steady done pending cur ->
  sorted_keys o (added done pending cur) -> good_keys o (added done pending cur) ->
  entries_size (added done pending cur) < 2 ^ 28 ->
  exists r' done', TableBuilder_Finish r = Ok Status_OK r' /\ finished r' (added done pending cur) done'.
Proof.
  intros H Hcount Hst Hs Hg Hsize. unfold TableBuilder_Finish.
  assert (exists r1 pending1, TableBuilder_Flush r = Ok tt r1 /\ builder_inv o 0 r1 done pending1 [] /\
    (pending1 = None -> done = []) /\ added done pending1 [] = added done pending cur /\
    counts r1 (added done pending cur)) as (r1 & p1 & E1 & H1 & Hst1 & Ha1 & Hc1).
  { pose proof (bi_pending _ _ _ _ _ _ H) as Hp. destruct pending as [db|].
    - destruct Hp as (_ & _ & ->). exists r, (Some db). split; [|done].
      apply (Flush_empty o 0 r done (Some db) H), Hcount.
    - destruct (decide (cur = [])) as [->|Hne].
      + exists r, None. split; [|by auto]. apply (Flush_empty o 0 r done None H), Hcount.
      + destruct (Flush_ok o Hinterval 0 ltac:(done) r done cur H (proj2 (proj2 Hcount)) Hne Hsize Hg)
          as (r1 & db & E & H1 & Hdb & Hl & Hn & Hc).
        exists r1, (Some db). split; [done|]. split; [done|]. split; [done|].
        split; [by rewrite added_flushed, Hdb|]. destruct Hcount as (? & ? & ?). repeat split; congruence. }
  rewrite (bind_ok _ _ _ _ _ E1), bind_gets, bind_assert by (by rewrite (proj2 (proj2 Hc1))).
  rewrite bind_modify. pose proof (bi_filter _ _ _ _ _ _ H1 (proj2 (proj2 Hc1))) as Hfilter.
  apply closed_inv in H1. destruct Hc1 as (Hlast & _ & _). rewrite <- Ha1 in *.
  destruct (finish_filter_ok (set_closed r1) done p1 H1 Hfilter Hg Hsize) as (fh & fb & fbytes & ff & E0 & Hff & Hfl & Hfb & Hat).
  rewrite (bind_ok _ _ _ _ _ E0).
  pose proof (written_inv 0 ff fbytes (set_filter_block fb (set_closed r1)) _ _ _ (filter_set_inv 0 fb (set_closed r1) _ _ _ eq_refl H1) eq_refl Hff) as H2.
  destruct (finish_metaindex_ok (0 + Z.of_nat (length fbytes)) _ _ _ _ fh ltac:(lia) H2 Hsize Hfb Hat)
    as (mh & mbytes & mf & E2 & Hmf & Hml & Hmh & Hms).
  rewrite (bind_ok _ _ _ _ _ E2). pose proof (written_inv _ mf mbytes _ _ _ _ H2 eq_refl Hmf) as H3.
  destruct (finish_index_ok (0 + Z.of_nat (length fbytes) + Z.of_nat (length mbytes)) _ _ _ ltac:(lia) H3 eq_refl Hst1 Hlast Hs Hg Hsize)
    as (ih & r3 & done3 & raw & E3 & Hend3 & Hoff3 & Ha3 & Hd3 & (more & Hmore) & Hb3 & Hh3 & Hsep3 & Hst3 & Hbf3).
  rewrite (bind_ok _ _ _ _ _ E3).
  assert (footer_ok (mk_footer mh ih)) as Hfo by (split; [done|apply Hst3]).
  destruct (finish_footer_ok mh ih r3 Hend3 Hoff3 Hfo) as (f4 & E4 & Hf4).
  rewrite (bind_ok _ _ _ _ _ E4). eexists _, done3. split; [done|].
  pose proof (written_at_end _ f4 r3 Hend3 Hf4) as Hend4. rewrite footer_bytes_length in Hend4.
  split; cbn [file set_offset set_file].
  - exact Hend4.
  - cbn. lia.
  - done.
  - rewrite Hf4. eapply Forall_impl; [exact Hb3|]. intros db. apply block_stored_app.
  - done.
  - done.
  - exists (contents (file r3)), mh, ih, raw. split; [done|]. split; [done|]. split; [done|]. split; [done|].
    rewrite Hmore, Hd3. by apply filter_stored_app.
Qed.

End finish.
End stored.
