(* ===== verification/LRU.v ===== *)
(** * Caches (cache.h, cache.cc)

    A cache maps keys to values; what it returns is a handle, which has to be
    released.  The interface is a class; the sharded LRU cache implements it over a
    heap of entries.  The deleter of a value, which frees its memory, is left out. *)

From Stdlib Require Import ZArith Lia.
From stdpp Require Import base option list strings gmap.
From S2P Require Import Prelude Memory Slice Bloom.

(** The virtual functions, on the state [X] of a cache, for values of type [V]. *)
Class Cache (X H V : Type) := {
  cache_Insert : Slice -> V -> Z -> M X H;
  cache_Lookup : Slice -> M X (option H);
  cache_Release : H -> M X unit;
  cache_Value : H -> M X V;
  cache_Erase : Slice -> M X unit;
  cache_NewId : M X Z
}.

(** [cache_inv x live held]: the handles [live], with their values, have not been
    released, and all that is in the cache was inserted as [held] says.  There are
    bounds for the number of handles and for the charges. *)
Class CacheLaws (X H V : Type) `{!Cache X H V} := {
  cache_max_live : Z;
  cache_max_charge : Z;
  cache_inv : X -> list (H * V) -> (Slice -> V -> Prop) -> Prop;
  cache_inv_perm x live live' held : live ≡ₚ live' -> cache_inv x live held -> cache_inv x live' held;
  cache_inv_mono x live (held held' : Slice -> V -> Prop) :
    (forall k v, held k v -> held' k v) -> cache_inv x live held -> cache_inv x live held';
  cache_insert_ok k v charge x live held :
    cache_inv x live held -> held k v -> 1 <= charge <= cache_max_charge ->
    Z.of_nat (length live) < cache_max_live ->
    exists h x', cache_Insert k v charge x = Ok h x' /\ cache_inv x' ((h, v) :: live) held;
  cache_lookup_ok k x live held :
    cache_inv x live held -> Z.of_nat (length live) < cache_max_live ->
    exists r x', cache_Lookup k x = Ok r x' /\
      match r with
      | None => cache_inv x' live held
      | Some h => exists v, held k v /\ cache_inv x' ((h, v) :: live) held
      end;
  cache_value_ok h v x live held :
    cache_inv x live held -> (h, v) ∈ live -> cache_Value h x = Ok v x;
  cache_release_ok h v x live held :
    cache_inv x ((h, v) :: live) held ->
    exists x', cache_Release h x = Ok tt x' /\ cache_inv x' live held;
  cache_erase_ok k x live held :
    cache_inv x live held -> exists x', cache_Erase k x = Ok tt x' /\ cache_inv x' live held;
  cache_new_id_ok x live held :
    cache_inv x live held -> exists id x', cache_NewId x = Ok id x' /\ cache_inv x' live held
}.

(** * The cache of blocks (cache.cc)

    Sixteen shards, each a hash table and a list in the order of the last use,
    over one heap of entries.  Reading a field that was not set since [malloc] is
    undefined; [malloc] is taken to succeed.  A mutex makes each operation on a
    shard one step. *)

(** A pointer in the list: the dummy head [lru_] of the shard, or an entry. *)
Inductive Link := Lru | Entry (e : nat).

#[export] Instance Link_eq_dec : EqDecision Link.
Proof. solve_decision. Defined.

(** [None]: not set. *)
Record LRUHandle (V : Type) := mk_handle {
  value : V;
  next_hash : option (option nat);
  next : option Link;
  prev : option Link;
  charge : Z;
  key_data : Slice;
  refs : Z;
  hash : Z
}.
Arguments mk_handle {V}. Arguments value {V}. Arguments next_hash {V}. Arguments next {V}. Arguments prev {V}.
Arguments charge {V}. Arguments key_data {V}. Arguments refs {V}. Arguments hash {V}.

Record HandleTable := mk_handle_table {
  length_ : Z;
  elems_ : Z;
  list_ : list (option nat)
}.

Record LRUCache := mk_lru {
  capacity_ : Z;
  usage_ : Z;
  lru_next : Link;
  lru_prev : Link;
  table_ : HandleTable
}.

(** A shard with the heap, and the calls of deleters so far. *)
Record Shard_ (V : Type) := mk_shard {
  sh_heap : gmap nat (LRUHandle V);
  sh_deleted : list (Slice * V);
  sh_lru : LRUCache
}.
Arguments mk_shard {V}. Arguments sh_heap {V}. Arguments sh_deleted {V}. Arguments sh_lru {V}.

Section cache.
Context {PL : Platform} {V : Type}.

Abbreviation CM := (M (Shard_ V)).

(** ** Memory *)

Definition set_next_hash (p : option nat) (h : LRUHandle V) : LRUHandle V :=
  mk_handle (value h) (Some p) (next h) (prev h) (charge h) (key_data h) (refs h) (hash h).
Definition set_next (p : Link) (h : LRUHandle V) : LRUHandle V :=
  mk_handle (value h) (next_hash h) (Some p) (prev h) (charge h) (key_data h) (refs h) (hash h).
Definition set_prev (p : Link) (h : LRUHandle V) : LRUHandle V :=
  mk_handle (value h) (next_hash h) (next h) (Some p) (charge h) (key_data h) (refs h) (hash h).
Definition set_refs (n : Z) (h : LRUHandle V) : LRUHandle V :=
  mk_handle (value h) (next_hash h) (next h) (prev h) (charge h) (key_data h) n (hash h).

Definition set_heap (f : gmap nat (LRUHandle V) -> gmap nat (LRUHandle V)) (s : Shard_ V) : Shard_ V :=
  mk_shard (f (sh_heap s)) (sh_deleted s) (sh_lru s).
Definition set_lru (f : LRUCache -> LRUCache) (s : Shard_ V) : Shard_ V :=
  mk_shard (sh_heap s) (sh_deleted s) (f (sh_lru s)).
Definition set_table (f : HandleTable -> HandleTable) (s : Shard_ V) : Shard_ V :=
  set_lru (fun l => mk_lru (capacity_ l) (usage_ l) (lru_next l) (lru_prev l) (f (table_ l))) s.
Definition set_usage (u : Z) : Shard_ V -> Shard_ V :=
  set_lru (fun l => mk_lru (capacity_ l) u (lru_next l) (lru_prev l) (table_ l)).

(** [*e] *)
Definition load (e : nat) : CM (LRUHandle V) := let! h := gets (fun s => sh_heap s !! e) in or_ub h.

(** Changing a field of [*e]. *)
Definition store (e : nat) (f : LRUHandle V -> LRUHandle V) : CM unit :=
  let! h := load e in modify (set_heap (insert e (f h))).

(** [key()]: in an entry whose [next] is the entry itself, [value] is taken for
    the address of a slice. *)
Definition key (e : nat) : CM Slice :=
  let! h := load e in
  let! next := or_ub (next h) in
  if decide (next = Entry e) then ub else ret (key_data h).

(** [p->next], [p->prev] and assignments to them. *)
Definition get_next (p : Link) : CM Link :=
  match p with
  | Lru => gets (fun s => lru_next (sh_lru s))
  | Entry e => let! h := load e in or_ub (next h)
  end.

Definition get_prev (p : Link) : CM Link :=
  match p with
  | Lru => gets (fun s => lru_prev (sh_lru s))
  | Entry e => let! h := load e in or_ub (prev h)
  end.

Definition assign_next (p q : Link) : CM unit :=
  match p with
  | Lru => modify (set_lru (fun l => mk_lru (capacity_ l) (usage_ l) q (lru_prev l) (table_ l)))
  | Entry e => store e (set_next q)
  end.

Definition assign_prev (p q : Link) : CM unit :=
  match p with
  | Lru => modify (set_lru (fun l => mk_lru (capacity_ l) (usage_ l) (lru_next l) q (table_ l)))
  | Entry e => store e (set_prev q)
  end.

(** ** HandleTable *)

(** What an [LRUHandle**] points to. *)
Inductive Slot := Bucket (i : Z) | NextHash (e : nat).

Definition slot_get (ptr : Slot) : CM (option nat) :=
  match ptr with
  | Bucket i => let! l := gets (fun s => list_ (table_ (sh_lru s))) in or_ub (l !! Z.to_nat i)
  | NextHash e => let! h := load e in or_ub (next_hash h)
  end.

Definition slot_set (ptr : Slot) (p : option nat) : CM unit :=
  match ptr with
  | Bucket i =>
      let! l := gets (fun s => list_ (table_ (sh_lru s))) in
      if (Z.to_nat i <? length l)%nat then
        modify (set_table (fun t => mk_handle_table (length_ t) (elems_ t) (<[Z.to_nat i := p]> l)))
      else ub
  | NextHash e => store e (set_next_hash p)
  end.

(** A chain has no more entries than the heap. *)
Definition chain_fuel (s : Shard_ V) : nat := S (size (sh_heap s)).

Definition find_pointer_round (k : Slice) (hash' : Z) (ptr : Slot) : CM (Slot + Slot) :=
  let! p := slot_get ptr in
  match p with
  | None => ret (inr ptr)
  | Some e =>
      let! h := load e in
      if negb (hash h =? hash') then ret (inl (NextHash e))
      else
        let! ek := key e in
        if negb (slice_eqb k ek) then ret (inl (NextHash e)) else ret (inr ptr)
  end.

Definition FindPointer (k : Slice) (hash : Z) : CM Slot :=
  let! length := gets (fun s => length_ (table_ (sh_lru s))) in
  let! fuel := gets chain_fuel in
  loop fuel (find_pointer_round k hash) (Bucket (Z.land hash (u32 (length - 1)))).

(** One entry of a bucket goes to the new table; the loop's variables are the
    entry, the new table and the count. *)
Definition rehash_round (new_length : Z) : option nat * list (option nat) * Z ->
    CM (option nat * list (option nat) * Z + list (option nat) * Z) :=
  fun '(h, new_list, count) =>
    match h with
    | None => ret (inr (new_list, count))
    | Some e =>
        let! he := load e in
        let! next := or_ub (next_hash he) in
        let i := Z.to_nat (Z.land (hash he) (u32 (new_length - 1))) in
        let! first := or_ub (new_list !! i) in
        store e (set_next_hash first) ;;;
        ret (inl (next, <[i := Some e]> new_list, u32 (count + 1)))
    end.

(** The outer loop, over the old buckets. *)
Definition rehash_bucket (new_length : Z) : list (option nat) * list (option nat) * Z ->
    CM (list (option nat) * list (option nat) * Z + list (option nat) * Z) :=
  fun '(old, new_list, count) =>
    match old with
    | [] => ret (inr (new_list, count))
    | h :: old =>
        let! fuel := gets chain_fuel in
        let! r := loop fuel (rehash_round new_length) (h, new_list, count) in
        ret (inl (old, fst r, snd r))
    end.

(** The length doubles at most 30 times before it wraps around. *)
Definition grow_fuel : nat := 32.

Definition Resize : CM unit :=
  let! t := gets (fun s => table_ (sh_lru s)) in
  let! new_length := loop grow_fuel (fun new_length =>
    if new_length <? elems_ t then ret (inl (u32 (new_length * 2))) else ret (inr new_length)) 4 in
  let new_list := replicate (Z.to_nat new_length) None in
  let! r := loop (S (length (list_ t))) (rehash_bucket new_length) (list_ t, new_list, 0) in
  assert_ (elems_ t =? snd r) ;;;
  modify (set_table (fun t => mk_handle_table new_length (elems_ t) (fst r))).

Definition table_Lookup (k : Slice) (hash : Z) : CM (option nat) :=
  let! ptr := FindPointer k hash in slot_get ptr.

Definition set_elems (n : Z) : CM unit :=
  modify (set_table (fun t => mk_handle_table (length_ t) n (list_ t))).

Definition table_Insert (h : nat) : CM (option nat) :=
  let! k := key h in
  let! hh := load h in
  let! ptr := FindPointer k (hash hh) in
  let! old := slot_get ptr in
  let! rest := match old with None => ret None | Some o => let! ho := load o in or_ub (next_hash ho) end in
  store h (set_next_hash rest) ;;;
  slot_set ptr (Some h) ;;;
  match old with
  | None =>
      let! t := gets (fun s => table_ (sh_lru s)) in
      let elems := u32 (elems_ t + 1) in
      set_elems elems ;;;
      if length_ t <? elems then Resize else ret tt
  | Some _ => ret tt
  end ;;;
  ret old.

Definition table_Remove (k : Slice) (hash : Z) : CM (option nat) :=
  let! ptr := FindPointer k hash in
  let! result := slot_get ptr in
  match result with
  | None => ret tt
  | Some e =>
      let! he := load e in
      let! next := or_ub (next_hash he) in
      slot_set ptr next ;;;
      let! t := gets (fun s => table_ (sh_lru s)) in
      set_elems (u32 (elems_ t - 1))
  end ;;;
  ret result.

(** ** LRUCache *)

(** [assert] is not taken out: with a count of zero the call is undefined. *)
Definition Unref (e : nat) : CM unit :=
  let! h := load e in
  assert_ (0 <? refs h) ;;;
  store e (set_refs (u32 (refs h - 1))) ;;;
  let! h := load e in
  if refs h <=? 0 then
    let! u := gets (fun s => usage_ (sh_lru s)) in
    modify (set_usage (usize (u - charge h))) ;;;
    let! k := key e in
    modify (fun s => mk_shard (sh_heap s) (sh_deleted s ++ [(k, value h)]) (sh_lru s)) ;;;
    modify (set_heap (delete e))
  else ret tt.

Definition LRU_Remove (e : nat) : CM unit :=
  let! n := get_next (Entry e) in
  let! p := get_prev (Entry e) in
  assign_prev n p ;;;
  let! p := get_prev (Entry e) in
  let! n := get_next (Entry e) in
  assign_next p n.

Definition LRU_Append (e : nat) : CM unit :=
  assign_next (Entry e) Lru ;;;
  let! newest := get_prev Lru in
  assign_prev (Entry e) newest ;;;
  let! p := get_prev (Entry e) in
  assign_next p (Entry e) ;;;
  let! n := get_next (Entry e) in
  assign_prev n (Entry e).

Definition Lookup (k : Slice) (hash : Z) : CM (option nat) :=
  let! e := table_Lookup k hash in
  match e with
  | None => ret tt
  | Some e =>
      let! h := load e in
      store e (set_refs (u32 (refs h + 1))) ;;;
      LRU_Remove e ;;;
      LRU_Append e
  end ;;;
  ret e.

Definition Release (handle : nat) : CM unit := Unref handle.

(** [malloc], and the fields that are set. *)
Definition new_handle (k : Slice) (hash : Z) (v : V) (charge : Z) : CM nat :=
  let! e := gets (fun s => fresh (dom (sh_heap s))) in
  modify (set_heap (insert e (mk_handle v None None None charge k 2 hash))) ;;;
  ret e.

Definition evict_round (_ : unit) : CM (unit + unit) :=
  let! l := gets sh_lru in
  if capacity_ l <? usage_ l then
    match lru_next l with
    | Lru => ret (inr tt)
    | Entry old =>
        LRU_Remove old ;;;
        let! k := key old in
        let! h := load old in
        table_Remove k (hash h) ;;;
        Unref old ;;;
        ret (inl tt)
    end
  else ret (inr tt).

Definition Insert (k : Slice) (hash : Z) (v : V) (charge : Z) : CM nat :=
  let! e := new_handle k hash v charge in
  LRU_Append e ;;;
  let! u := gets (fun s => usage_ (sh_lru s)) in
  modify (set_usage (usize (u + charge))) ;;;
  let! old := table_Insert e in
  match old with
  | None => ret tt
  | Some old => LRU_Remove old ;;; Unref old
  end ;;;
  let! fuel := gets chain_fuel in
  loop fuel evict_round tt ;;;
  ret e.

Definition Erase (k : Slice) (hash : Z) : CM unit :=
  let! e := table_Remove k hash in
  match e with
  | None => ret tt
  | Some e => LRU_Remove e ;;; Unref e
  end.

(** [LRUCache()], with the table's first [Resize]. *)
Definition new_LRUCache : option LRUCache :=
  match Resize (mk_shard ∅ [] (mk_lru 0 0 Lru Lru (mk_handle_table 0 0 []))) with
  | Ok _ s => Some (sh_lru s)
  | _ => None
  end.

Definition delete_round (e : Link) : CM (Link + unit) :=
  match e with
  | Lru => ret (inr tt)
  | Entry i =>
      let! next := get_next e in
      let! h := load i in
      assert_ (refs h =? 1) ;;;
      Unref i ;;;
      ret (inl next)
  end.

(** [~LRUCache] *)
Definition delete_LRUCache : CM unit :=
  let! e := get_next Lru in
  let! fuel := gets chain_fuel in
  loop fuel delete_round e.

Definition SetCapacity (c : Z) (l : LRUCache) : LRUCache :=
  mk_lru c (usage_ l) (lru_next l) (lru_prev l) (table_ l).

End cache.

(** ** ShardedLRUCache *)

Definition kNumShardBits : Z := 4.
Definition kNumShards : nat := Z.to_nat (Z.shiftl 1 kNumShardBits).

Record ShardedLRUCache (V : Type) := mk_sharded {
  sc_heap : gmap nat (LRUHandle V);
  sc_deleted : list (Slice * V);
  shard_ : list LRUCache;
  last_id_ : Z
}.
Arguments mk_sharded {V}. Arguments sc_heap {V}. Arguments sc_deleted {V}. Arguments shard_ {V}. Arguments last_id_ {V}.

Section sharded.
Context {PL : Platform} {V : Type}.

Abbreviation HM := (M (ShardedLRUCache V)).

Definition HashSlice (s : Slice) : option Z := Hash s 0.

Definition Shard (hash : Z) : Z := Z.shiftr hash (32 - kNumShardBits).

(** A call on a shard. *)
Definition on_shard {A} (i : Z) (m : M (Shard_ V) A) : HM A :=
  let! l := gets (fun c => shard_ c !! Z.to_nat i) in
  let! l := or_ub l in
  zoom (fun c => mk_shard (sc_heap c) (sc_deleted c) l)
    (fun s c => mk_sharded (sh_heap s) (sh_deleted s) (<[Z.to_nat i := sh_lru s]> (shard_ c)) (last_id_ c)) m.

Definition sharded_Insert (k : Slice) (v : V) (charge : Z) : HM nat :=
  let! hash := or_ub (HashSlice k) in on_shard (Shard hash) (Insert k hash v charge).

Definition sharded_Lookup (k : Slice) : HM (option nat) :=
  let! hash := or_ub (HashSlice k) in on_shard (Shard hash) (Lookup k hash).

Definition load_handle (e : nat) : HM (LRUHandle V) := let! h := gets (fun c => sc_heap c !! e) in or_ub h.

Definition sharded_Release (e : nat) : HM unit :=
  let! h := load_handle e in on_shard (Shard (hash h)) (Release e).

Definition sharded_Erase (k : Slice) : HM unit :=
  let! hash := or_ub (HashSlice k) in on_shard (Shard hash) (Erase k hash).

Definition sharded_Value (e : nat) : HM V := let! h := load_handle e in ret (value h).

Definition sharded_NewId : HM Z :=
  let! id := gets last_id_ in
  modify (fun c => mk_sharded (sc_heap c) (sc_deleted c) (shard_ c) (u64 (id + 1))) ;;;
  ret (u64 (id + 1)).

Definition NewLRUCache (capacity : Z) : option (ShardedLRUCache V) :=
  l ← new_LRUCache (V := V);
  let per_shard := usize (capacity + (Z.of_nat kNumShards - 1)) / Z.of_nat kNumShards in
  Some (mk_sharded ∅ [] (replicate kNumShards (SetCapacity per_shard l)) 0).

#[export] Instance Sharded_Cache : Cache (ShardedLRUCache V) nat V := {|
  cache_Insert := sharded_Insert;
  cache_Lookup := sharded_Lookup;
  cache_Release := sharded_Release;
  cache_Value := sharded_Value;
  cache_Erase := sharded_Erase;
  cache_NewId := sharded_NewId
|}.

End sharded.
