(* ===== verification/LRUList.v ===== *)
(** * The list and the hash table of a cache shard

    The circular list through [next] and [prev], as a list of entries in the order
    of their last use, and what removing and appending do to it.  The chains of the
    hash table through [next_hash], and searching them. *)

From Stdlib Require Import ZArith Lia.
From stdpp Require Import base option list strings gmap.
From S2P Require Import Prelude Memory Slice Bloom LRU.

Lemma filter_keep {A} (P : A -> Prop) {D : forall x, Decision (P x)} (l : list A) :
  (forall x, x ∈ l -> P x) -> filter P l = l.
Proof.
  induction l as [|x l IH]; intros H; [done|]. rewrite filter_cons_True by (apply H; by left).
  f_equal. apply IH. intros y Hy. apply H. by right.
Qed.

Lemma filter_drop {A} (P : A -> Prop) {D : forall x, Decision (P x)} (l : list A) :
  (forall x, x ∈ l -> ~ P x) -> filter P l = [].
Proof.
  induction l as [|x l IH]; intros H; [done|]. rewrite filter_cons_False by (apply H; by left).
  apply IH. intros y Hy. apply H. by right.
Qed.

Section lists.
Context {PL : Platform} {V : Type}.
Implicit Types (s : Shard_ V) (l : list nat) (e : nat).

(** ** Loads and stores *)

Lemma load_ok s e h : sh_heap s !! e = Some h -> load e s = Ok h s.
Proof. intros E. unfold load. rewrite bind_gets, E. done. Qed.

Lemma store_ok s e f h : sh_heap s !! e = Some h -> store e f s = Ok tt (set_heap (insert e (f h)) s).
Proof. intros E. unfold store. by rewrite (bind_ok _ _ _ _ _ (load_ok s e h E)). Qed.

(** An entry without its links, and without its place in the hash table. *)
Definition unlinked (h : LRUHandle V) : LRUHandle V :=
  mk_handle (value h) (next_hash h) None None (charge h) (key_data h) (refs h) (hash h).

(** Nothing but links in the list has changed, and these only in entries of [l]. *)
Record relinked (l : list nat) (s s' : Shard_ V) : Prop := mk_relinked {
  rl_body e : unlinked <$> sh_heap s' !! e = unlinked <$> sh_heap s !! e;
  rl_frame e : e ∉ l -> sh_heap s' !! e = sh_heap s !! e;
  rl_deleted : sh_deleted s' = sh_deleted s;
  rl_capacity : capacity_ (sh_lru s') = capacity_ (sh_lru s);
  rl_usage : usage_ (sh_lru s') = usage_ (sh_lru s);
  rl_table : table_ (sh_lru s') = table_ (sh_lru s)
}.

Lemma relinked_refl l s : relinked l s s.
Proof. by split. Qed.

Lemma relinked_trans l l' s s' s'' : relinked l s s' -> relinked l' s' s'' -> relinked (l ++ l') s s''.
Proof.
  intros [B F D Ca U T] [B' F' D' Ca' U' T']. split; try congruence.
  intros e He. rewrite elem_of_app in He. rewrite F', F; [done|tauto..].
Qed.

Lemma relinked_mono l l' s s' : l ⊆ l' -> relinked l s s' -> relinked l' s s'.
Proof. intros Hl [B F D Ca U T]. split; try done. intros e He. apply F. by intros ?%Hl. Qed.

Lemma relinked_store e f s h l :
  sh_heap s !! e = Some h -> unlinked (f h) = unlinked h -> e ∈ l -> relinked l s (set_heap (insert e (f h)) s).
Proof.
  intros E Hf Hl. split; try done; cbn [sh_heap set_heap].
  - intros e'. destruct (decide (e = e')) as [<-|]; [|by rewrite lookup_insert_ne].
    by rewrite lookup_insert_eq, E; cbn; rewrite Hf.
  - intros e' He'. apply lookup_insert_ne. by intros <-.
Qed.

(** ** Segments *)

(** The pointers to and from both ends of a segment. *)
Definition first (l : list nat) (n : Link) : Link := match l with [] => n | e :: _ => Entry e end.

Fixpoint final (b : Link) (l : list nat) : Link := match l with [] => b | e :: l => final (Entry e) l end.

Fixpoint dseg (m : gmap nat (LRUHandle V)) (b : Link) (l : list nat) (n : Link) : Prop :=
  match l with
  | [] => True
  | e :: l =>
      (exists h, m !! e = Some h /\ next h = Some (first l n) /\ prev h = Some b) /\ dseg m (Entry e) l n
  end.

Lemma first_app l1 l2 n : first (l1 ++ l2) n = first l1 (first l2 n).
Proof. by destruct l1. Qed.

Lemma final_app b l1 l2 : final b (l1 ++ l2) = final (final b l1) l2.
Proof. revert b. induction l1 as [|e l1 IH]; intros b; [done|]. apply IH. Qed.

Lemma dseg_app m b l1 l2 n : dseg m b (l1 ++ l2) n <-> dseg m b l1 (first l2 n) /\ dseg m (final b l1) l2 n.
Proof.
  revert b. induction l1 as [|e l1 IH]; intros b; cbn; [tauto|]. rewrite IH, first_app. tauto.
Qed.

Lemma dseg_ext m m' b l n : (forall e, e ∈ l -> m' !! e = m !! e) -> dseg m b l n -> dseg m' b l n.
Proof.
  revert b. induction l as [|e l IH]; intros b He; cbn; [done|]. intros [H1 H2].
  rewrite He by (by left). split; [done|]. apply IH; [|done]. intros e' He'. apply He. by right.
Qed.

Lemma dseg_lookup m b l n e : dseg m b l n -> e ∈ l -> is_Some (m !! e).
Proof.
  revert b. induction l as [|e' l IH]; intros b; cbn; [intros _ []%not_elem_of_nil|].
  intros [(h & E & _) H] [->|He]%elem_of_cons; [by rewrite E|by eapply IH].
Qed.

(** No entry is its own successor. *)
Lemma dseg_next m b l e : NoDup l -> dseg m b l Lru -> e ∈ l ->
  exists h n, m !! e = Some h /\ next h = Some n /\ n <> Entry e.
Proof.
  intros Hnd. revert b. induction Hnd as [|e' l Hn Hnd IH]; intros b; cbn; [intros _ []%not_elem_of_nil|].
  intros [(h & E & En & _) H] [->|He]%elem_of_cons; [|by eapply IH].
  exists h, (first l Lru). split; [done|]. split; [done|]. destruct l as [|a l]; [done|].
  cbn. intros [= ->]. apply Hn. by left.
Qed.

(** ** The list in two parts *)

(** From the dummy head forward to [n], and from [b] on to the dummy head. *)
Definition forward s l (n : Link) : Prop := dseg (sh_heap s) Lru l n /\ lru_next (sh_lru s) = first l n.
Definition backward s (b : Link) l : Prop := dseg (sh_heap s) b l Lru /\ lru_prev (sh_lru s) = final b l.

Definition lru_list s l : Prop := NoDup l /\ forward s l Lru /\ backward s Lru l.

Lemma lru_list_app s l1 l2 :
  lru_list s (l1 ++ l2) <-> NoDup (l1 ++ l2) /\ forward s l1 (first l2 Lru) /\ backward s (final Lru l1) l2.
Proof. unfold lru_list, forward, backward. rewrite !dseg_app, first_app, final_app. tauto. Qed.

Lemma forward_ext s s' l n :
  (forall e, e ∈ l -> sh_heap s' !! e = sh_heap s !! e) -> lru_next (sh_lru s') = lru_next (sh_lru s) ->
  forward s l n -> forward s' l n.
Proof. intros He Hn [Hd H]. split; [by eapply dseg_ext|congruence]. Qed.

Lemma backward_ext s s' b l :
  (forall e, e ∈ l -> sh_heap s' !! e = sh_heap s !! e) -> lru_prev (sh_lru s') = lru_prev (sh_lru s) ->
  backward s b l -> backward s' b l.
Proof. intros He Hn [Hd H]. split; [by eapply dseg_ext|congruence]. Qed.

Lemma lru_list_ext s s' l :
  (forall e, e ∈ l -> sh_heap s' !! e = sh_heap s !! e) -> lru_next (sh_lru s') = lru_next (sh_lru s) ->
  lru_prev (sh_lru s') = lru_prev (sh_lru s) -> lru_list s l -> lru_list s' l.
Proof.
  intros He Hn Hp (Hnd & Hf & Hb). split; [done|]. split; [by eapply forward_ext|by eapply backward_ext].
Qed.

(** The last link of the first part is set. *)
Lemma assign_next_forward s l n n' : forward s l n -> NoDup l ->
  exists s', assign_next (final Lru l) n' s = Ok tt s' /\ forward s' l n' /\ relinked l s s' /\
    lru_prev (sh_lru s') = lru_prev (sh_lru s).
Proof.
  intros [Hd Hn] Hnd. destruct l as [|e l _] using rev_ind.
  - eexists. split; [reflexivity|]. split; [done|]. by split; [split|].
  - rewrite final_app. cbn [final]. apply dseg_app in Hd as [Hd [(h & E & En & Ep) _]].
    cbn [assign_next]. rewrite (store_ok _ _ _ _ E). eexists. split; [reflexivity|].
    split; [|split; [apply relinked_store; [done..|]; apply elem_of_app; right; by left|done]].
    apply NoDup_app in Hnd as (_ & Hne & _). split; cbn [sh_heap set_heap sh_lru].
    + apply dseg_app. split.
      * eapply dseg_ext; [|exact Hd]. intros e' He'. apply lookup_insert_ne. intros <-.
        apply (Hne e He'). by left.
      * cbn [dseg first]. split; [|done]. exists (set_next n' h). split; [apply lookup_insert_eq|done].
    + rewrite Hn, !first_app. by destruct l.
Qed.

(** The first link of the second part is set. *)
Lemma assign_prev_backward s b l b' : backward s b l -> NoDup l ->
  exists s', assign_prev (first l Lru) b' s = Ok tt s' /\ backward s' b' l /\ relinked l s s' /\
    lru_next (sh_lru s') = lru_next (sh_lru s).
Proof.
  intros [Hd Hp] Hnd. destruct l as [|e l].
  - eexists. split; [reflexivity|]. split; [done|]. by split; [split|].
  - cbn [first assign_prev]. destruct Hd as [(h & E & En & Ep) Hd]. rewrite (store_ok _ _ _ _ E).
    eexists. split; [reflexivity|]. split; [|split; [apply relinked_store; [done..|]; by left|done]].
    apply NoDup_cons in Hnd as [Hne _]. split; cbn [sh_heap set_heap sh_lru]; [|done]. split.
    + exists (set_prev b' h). split; [apply lookup_insert_eq|done].
    + eapply dseg_ext; [|exact Hd]. intros e' He'. apply lookup_insert_ne. by intros <-.
Qed.

(** ** Removing and appending *)

Lemma LRU_Remove_ok s l1 e l2 : lru_list s (l1 ++ e :: l2) ->
  exists s', LRU_Remove e s = Ok tt s' /\ lru_list s' (l1 ++ l2) /\ relinked (l1 ++ l2) s s'.
Proof.
  intros (Hnd & Hf & Hb)%lru_list_app. destruct Hb as [[(h & E & En & Ep) Hd] Hp]. cbn [first] in *.
  apply NoDup_app in Hnd as (H1 & H12 & [He H2]%NoDup_cons).
  unfold LRU_Remove. cbn [get_next get_prev].
  rewrite bind_assoc, (bind_ok _ _ _ _ _ (load_ok s e h E)), (bind_or_ub _ _ _ _ En).
  rewrite bind_assoc, (bind_ok _ _ _ _ _ (load_ok s e h E)), (bind_or_ub _ _ _ _ Ep).
  destruct (assign_prev_backward s (Entry e) l2 (final Lru l1)) as (s1 & E1 & Hb1 & Hr1 & Hn1); [by split|done|].
  rewrite (bind_ok _ _ _ _ _ E1).
  assert (sh_heap s1 !! e = Some h) as Eh1 by (by rewrite (rl_frame _ _ _ Hr1)).
  rewrite bind_assoc, (bind_ok _ _ _ _ _ (load_ok s1 e h Eh1)), (bind_or_ub _ _ _ _ Ep).
  rewrite bind_assoc, (bind_ok _ _ _ _ _ (load_ok s1 e h Eh1)), (bind_or_ub _ _ _ _ En).
  destruct (assign_next_forward s1 l1 (Entry e) (first l2 Lru)) as (s2 & E2 & Hf2 & Hr2 & Hp2); [|done|].
  { eapply forward_ext; [|done|exact Hf]. intros e' He'. apply (rl_frame _ _ _ Hr1).
    intros Hin. apply (H12 e' He'). by right. }
  exists s2. split; [done|]. split.
  - apply lru_list_app. split; [|split; [done|]].
    + apply NoDup_app. split; [done|]. split; [|done]. intros x Hx Hx2. apply (H12 x Hx). by right.
    + eapply backward_ext; [|done|exact Hb1]. intros e' He'. apply (rl_frame _ _ _ Hr2).
      intros Hin. apply (H12 e' Hin). by right.
  - eapply relinked_mono; [|by eapply relinked_trans]. intros x. rewrite !elem_of_app. tauto.
Qed.

Lemma LRU_Append_ok s l e h : lru_list s l -> e ∉ l -> sh_heap s !! e = Some h ->
  exists s', LRU_Append e s = Ok tt s' /\ lru_list s' (l ++ [e]) /\ relinked (l ++ [e]) s s'.
Proof.
  intros (Hnd & Hf & Hb) He E. unfold LRU_Append. cbn [assign_next assign_prev get_next get_prev].
  rewrite (bind_ok _ _ _ _ _ (store_ok s e (set_next Lru) h E)), bind_gets. cbn [sh_lru set_heap].
  assert (sh_heap (set_heap (insert e (set_next Lru h)) s) !! e = Some (set_next Lru h)) as E1
    by apply lookup_insert_eq.
  rewrite (bind_ok _ _ _ _ _ (store_ok _ e (set_prev (lru_prev (sh_lru s))) _ E1)).
  set (s1 := set_heap _ (set_heap _ s)).
  set (h1 := set_prev (lru_prev (sh_lru s)) (set_next Lru h)) in *.
  assert (sh_heap s1 !! e = Some h1) as Eh1 by apply lookup_insert_eq.
  assert (relinked [e] s s1) as Hr1.
  { apply (relinked_mono ([e] ++ [e])); [intros x; rewrite elem_of_app; tauto|].
    eapply relinked_trans; apply (relinked_store e); try done; by left. }
  rewrite bind_assoc, (bind_ok _ _ _ _ _ (load_ok s1 e h1 Eh1)). cbn [prev h1 set_prev]. rewrite bind_or_ub with (a := lru_prev (sh_lru s)) by done.
  destruct Hb as [Hd Hp]. rewrite Hp.
  assert (forall e', e' ∈ l -> sh_heap s1 !! e' = sh_heap s !! e') as Hfr.
  { intros e' He'. apply (rl_frame _ _ _ Hr1). intros ->%list_elem_of_singleton. done. }
  destruct (assign_next_forward s1 l Lru (Entry e)) as (s2 & E2 & Hf2 & Hr2 & Hp2); [by eapply forward_ext|done|].
  rewrite (bind_ok _ _ _ _ _ E2).
  assert (sh_heap s2 !! e = Some h1) as Eh2 by (by rewrite (rl_frame _ _ _ Hr2)).
  rewrite bind_assoc, (bind_ok _ _ _ _ _ (load_ok s2 e h1 Eh2)). cbn [next h1 set_prev set_next].
  rewrite bind_or_ub with (a := Lru) by done. eexists. split; [reflexivity|]. split.
  - apply lru_list_app. split; [|split].
    + apply NoDup_app. split; [done|]. split; [|apply NoDup_singleton]. by intros x Hx ->%list_elem_of_singleton.
    + done.
    + split; [|done]. cbn. split; [|done]. exists h1. split; [done|]. split; [done|]. cbn. by rewrite Hp.
  - destruct (relinked_trans _ _ _ _ _ Hr1 Hr2) as [B F D Ca U T]. split; try done.
    intros x. rewrite elem_of_app. intros Hx. apply F. rewrite elem_of_app. tauto.
Qed.

End lists.

(** * The hash table of a cache shard

    Buckets are chains through [next_hash].  Searching stops at the slot of the
    key, insertion and removal change one chain, and growing moves every entry to
    its new bucket. *)

Lemma size_at_least {A} (m : gmap nat A) (l : list nat) :
  NoDup l -> (forall e, e ∈ l -> is_Some (m !! e)) -> (length l <= size m)%nat.
Proof.
  intros Hnd Hin. rewrite <- (size_list_to_set (C := gset nat) l Hnd), <- size_dom. apply subseteq_size.
  intros e He%elem_of_list_to_set. by apply elem_of_dom, Hin.
Qed.

Lemma concat_delete {A} (B : list (list A)) i c : B !! i = Some c -> concat B ≡ₚ c ++ concat (delete i B).
Proof.
  revert i. induction B as [|b B IH]; intros [|i]; cbn; try done; [by intros [= ->]|].
  intros E. rewrite (IH i E). apply Permutation_app_swap_app.
Qed.

Lemma concat_insert {A} (B : list (list A)) i c c' :
  B !! i = Some c -> concat (<[i := c']> B) ≡ₚ c' ++ concat (delete i B).
Proof.
  revert i. induction B as [|b B IH]; intros [|i]; cbn; try done.
  intros E. rewrite (IH i E). apply Permutation_app_swap_app.
Qed.

Section tables.
Context {PL : Platform} {V : Type}.
Implicit Types (s : Shard_ V) (e : nat) (c : list nat) (B : list (list nat)).

Definition unchained (h : LRUHandle V) : LRUHandle V :=
  mk_handle (value h) None (next h) (prev h) (charge h) (key_data h) (refs h) (hash h).

(** Nothing but the table and the links in its chains has changed, these only in
    entries of [l]. *)
Record rechained (l : list nat) (s s' : Shard_ V) : Prop := mk_rechained {
  rc_body e : unchained <$> sh_heap s' !! e = unchained <$> sh_heap s !! e;
  rc_frame e : e ∉ l -> sh_heap s' !! e = sh_heap s !! e;
  rc_deleted : sh_deleted s' = sh_deleted s;
  rc_capacity : capacity_ (sh_lru s') = capacity_ (sh_lru s);
  rc_usage : usage_ (sh_lru s') = usage_ (sh_lru s);
  rc_next : lru_next (sh_lru s') = lru_next (sh_lru s);
  rc_prev : lru_prev (sh_lru s') = lru_prev (sh_lru s)
}.

Lemma rechained_refl l s : rechained l s s.
Proof. by split. Qed.

Lemma rechained_trans l s s' s'' : rechained l s s' -> rechained l s' s'' -> rechained l s s''.
Proof.
  intros [B F D Ca U N P] [B' F' D' Ca' U' N' P']. split; try congruence.
  intros e He. by rewrite F', F.
Qed.

Lemma rechained_mono l l' s s' : l ⊆ l' -> rechained l s s' -> rechained l' s s'.
Proof. intros Hl [B F D Ca U N P]. split; try done. intros e He. apply F. by intros ?%Hl. Qed.

Lemma rechained_store e h p s l : sh_heap s !! e = Some h -> e ∈ l ->
  rechained l s (set_heap (insert e (set_next_hash p h)) s).
Proof.
  intros E Hl. split; try done; cbn [sh_heap set_heap].
  - intros e'. destruct (decide (e = e')) as [<-|]; [|by rewrite lookup_insert_ne].
    by rewrite lookup_insert_eq, E.
  - intros e' He'. apply lookup_insert_ne. by intros <-.
Qed.

Lemma rechained_table l f s : rechained l s (set_table f s).
Proof. by split. Qed.

(** Every field but [next_hash] is as it was. *)
Lemma rechained_lookup l s s' e h : rechained l s s' -> sh_heap s !! e = Some h ->
  exists h', sh_heap s' !! e = Some h' /\ unchained h' = unchained h.
Proof.
  intros Hr E. pose proof (rc_body _ _ _ Hr e) as Hb. rewrite E in Hb. cbn in Hb.
  apply fmap_Some_1 in Hb as (h' & E' & Hh). by exists h'.
Qed.

(** ** Chains *)

Fixpoint hseg (m : gmap nat (LRUHandle V)) (p : option nat) c (q : option nat) : Prop :=
  match c with
  | [] => p = q
  | e :: c => p = Some e /\ exists h n, m !! e = Some h /\ next_hash h = Some n /\ hseg m n c q
  end.

Lemma hseg_app m p c1 c2 q : hseg m p (c1 ++ c2) q <-> exists r, hseg m p c1 r /\ hseg m r c2 q.
Proof.
  revert p. induction c1 as [|e c1 IH]; intros p; cbn.
  - split; [intros H; by exists p|by intros (r & -> & H)].
  - split.
    + intros (Hp & h & n & E & En & (r & H1 & H2)%IH). exists r. split; [|done]. split; [done|]. by exists h, n.
    + intros (r & (Hp & h & n & E & En & H1) & H2). split; [done|]. exists h, n. split; [done|]. split; [done|].
      apply IH. by exists r.
Qed.

Lemma hseg_ext m m' p c q : (forall e, e ∈ c -> m' !! e = m !! e) -> hseg m p c q -> hseg m' p c q.
Proof.
  revert p. induction c as [|e c IH]; intros p He; [done|]. intros (Hp & h & n & E & En & H). split; [done|].
  exists h, n. rewrite He by (by left). split; [done|]. split; [done|]. apply IH; [|done]. intros e' He'. apply He. by right.
Qed.

Lemma hseg_lookup m p c q e : hseg m p c q -> e ∈ c -> is_Some (m !! e).
Proof.
  revert p. induction c as [|e' c IH]; intros p; [by intros _ ?%not_elem_of_nil|].
  intros (Hp & h & n & E & En & H) [->|He]%elem_of_cons; [by eexists|by eapply IH].
Qed.

Definition chained (m : gmap nat (LRUHandle V)) (ps : list (option nat)) B : Prop :=
  Forall2 (fun p c => hseg m p c None) ps B.

(** A chain is where the hash of its entries says, in a table of [n] buckets. *)
Definition placed_in (m : gmap nat (LRUHandle V)) (n : Z) B : Prop :=
  forall i c e, B !! i = Some c -> e ∈ c -> exists h, m !! e = Some h /\ Z.to_nat (Z.land (hash h) (n - 1)) = i.

(** The slot behind a part of a chain. *)
Definition slot_after (i : Z) c : Slot := match last c with None => Bucket i | Some e => NextHash e end.

Lemma slot_after_snoc i c e : slot_after i (c ++ [e]) = NextHash e.
Proof. unfold slot_after. by rewrite last_snoc. Qed.

Lemma slot_get_ok s i p c q :
  list_ (table_ (sh_lru s)) !! Z.to_nat i = Some p -> hseg (sh_heap s) p c q ->
  slot_get (slot_after i c) s = Ok q s.
Proof.
  intros Hp Hc. destruct c as [|e c _] using rev_ind.
  - unfold slot_after. cbn [last slot_get]. by rewrite bind_gets, Hp, Hc.
  - rewrite slot_after_snoc. apply hseg_app in Hc as (r & _ & _ & h & n & E & En & Hq). cbn in Hq. subst n.
    cbn [slot_get]. rewrite (bind_ok _ _ _ _ _ (load_ok s e h E)). by rewrite En.
Qed.

(** Making the slot point elsewhere. *)
Lemma slot_set_ok s i p c q q' :
  list_ (table_ (sh_lru s)) !! Z.to_nat i = Some p -> hseg (sh_heap s) p c q -> NoDup c ->
  exists s' p', slot_set (slot_after i c) q' s = Ok tt s' /\ hseg (sh_heap s') p' c q' /\ rechained c s s' /\
    table_ (sh_lru s') = mk_handle_table (length_ (table_ (sh_lru s))) (elems_ (table_ (sh_lru s)))
      (<[Z.to_nat i := p']> (list_ (table_ (sh_lru s)))).
Proof.
  intros Hp Hc Hnd. destruct c as [|e c _] using rev_ind.
  - unfold slot_after. cbn [last slot_set]. rewrite bind_gets. apply lookup_lt_Some in Hp as Hlt. rewrite (proj2 (Nat.ltb_lt _ _) Hlt).
    eexists _, q'. split; [reflexivity|]. split; [done|]. split; [apply rechained_table|done].
  - rewrite slot_after_snoc. apply hseg_app in Hc as (r & Hc & -> & h & n & E & En & _).
    cbn [slot_set]. rewrite (store_ok s e _ h E). eexists _, p. split; [reflexivity|].
    apply NoDup_app in Hnd as (_ & Hne & _).
    split; [|split; [apply rechained_store; [done|]; apply elem_of_app; right; by left|]].
    + apply hseg_app. exists (Some e). split.
      * eapply hseg_ext; [|exact Hc]. intros e' He'. apply lookup_insert_ne. intros <-. apply (Hne e He'). by left.
      * split; [done|]. exists (set_next_hash q' h), q'. split; [apply lookup_insert_eq|done].
    + cbn. rewrite list_insert_id by done. by destruct (table_ (sh_lru s)).
Qed.

(** The end of one chain is replaced. *)
Lemma splice s B i c1 c2 c2' q :
  chained (sh_heap s) (list_ (table_ (sh_lru s))) B -> NoDup (concat B) ->
  B !! Z.to_nat i = Some (c1 ++ c2) -> hseg (sh_heap s) q c2' None -> (forall e, e ∈ c2' -> e ∉ c1) ->
  exists s' ps, slot_set (slot_after i c1) q s = Ok tt s' /\ rechained c1 s s' /\
    chained (sh_heap s') ps (<[Z.to_nat i := c1 ++ c2']> B) /\ length ps = length (list_ (table_ (sh_lru s))) /\
    table_ (sh_lru s') = mk_handle_table (length_ (table_ (sh_lru s))) (elems_ (table_ (sh_lru s))) ps.
Proof.
  intros Hch Hnd Hi Hq Hdis. destruct (Forall2_lookup_r _ _ _ _ _ Hch Hi) as (p & Hp & Hc).
  apply hseg_app in Hc as (r & Hc & _).
  pose proof (concat_delete B _ _ Hi) as Hperm. rewrite Hperm in Hnd.
  assert (NoDup c1) as Hnd1 by (by do 2 apply NoDup_app in Hnd as (Hnd & _)).
  destruct (slot_set_ok s i p c1 r q Hp Hc Hnd1) as (s' & p' & E & Hc' & Hr & Ht).
  exists s', (<[Z.to_nat i := p']> (list_ (table_ (sh_lru s)))).
  split; [done|]. split; [done|]. split; [|by rewrite length_insert].
  assert (forall j c, j <> Z.to_nat i -> B !! j = Some c -> forall e, e ∈ c -> sh_heap s' !! e = sh_heap s !! e) as Hfr.
  { intros j c Hj Hc2 e He. apply (rc_frame _ _ _ Hr). intros He1.
    apply NoDup_app in Hnd as (_ & Hne & _). apply (Hne e); [by apply elem_of_app; left|].
    apply elem_of_concat. apply lookup_lt_Some in Hi as Hlt.
    destruct (Nat.lt_ge_cases j (Z.to_nat i)) as [Hji|Hji].
    - exists j, c. by rewrite list_lookup_delete_lt.
    - exists (pred j), c. rewrite list_lookup_delete_ge by lia. by replace (S (pred j)) with j by lia. }
  apply Forall2_same_length_lookup_2; [by rewrite !length_insert, (Forall2_length _ _ _ Hch)|].
  intros j p2 c. rewrite !list_lookup_insert_Some. intros [(<- & <- & _)|[Hj Hp2]] [(Ej & <- & _)|[Hj' Hc2]]; try done.
  - apply hseg_app. exists q. split; [done|]. eapply hseg_ext; [|exact Hq]. intros e He. apply (rc_frame _ _ _ Hr). by apply Hdis.
  - eapply hseg_ext; [apply (Hfr j c); [done|exact Hc2]|]. by apply (Forall2_lookup_lr _ _ _ _ _ _ Hch Hp2 Hc2).
Qed.

(** ** Searching *)

Section searching.
Context (hf : Slice -> Z).

Definition key_of s e : option Slice := key_data <$> sh_heap s !! e.

(** [key()] works, and the hash is that of the key. *)
Definition table_member s e : Prop :=
  exists h n, sh_heap s !! e = Some h /\ next h = Some n /\ n <> Entry e /\ hash h = hf (key_data h).

Lemma table_member_ext s s' e : table_member s e -> unchained <$> sh_heap s' !! e = unchained <$> sh_heap s !! e -> table_member s' e.
Proof.
  intros (h & n & E & En & Hn & Hh) Hb. rewrite E in Hb. apply fmap_Some_1 in Hb as (h' & E' & Hu).
  unfold unchained in Hu. injection Hu as ?? _ ?? _ ?. exists h', n. split; [done|]. split; [congruence|]. split; congruence.
Qed.

Lemma key_of_ext s s' e : unchained <$> sh_heap s' !! e = unchained <$> sh_heap s !! e -> key_of s' e = key_of s e.
Proof.
  unfold key_of. intros Hb. destruct (sh_heap s' !! e), (sh_heap s !! e); try done.
  cbn in *. unfold unchained in Hb. congruence.
Qed.

Lemma key_ok s e h : sh_heap s !! e = Some h -> table_member s e -> key e s = Ok (key_data h) s.
Proof.
  intros E (h' & n & E' & En & Hn & _). rewrite E in E'. injection E' as <-.
  unfold key. rewrite (bind_ok _ _ _ _ _ (load_ok s e h E)), (bind_or_ub _ _ _ _ En). by rewrite decide_False.
Qed.

Record table_ok s B : Prop := mk_table_ok {
  to_pow : exists k, 2 <= k <= 31 /\ length_ (table_ (sh_lru s)) = 2 ^ k;
  to_len : Z.of_nat (length (list_ (table_ (sh_lru s)))) = length_ (table_ (sh_lru s));
  to_chains : chained (sh_heap s) (list_ (table_ (sh_lru s))) B;
  to_nodup : NoDup (concat B);
  to_placed : placed_in (sh_heap s) (length_ (table_ (sh_lru s))) B;
  to_elems : elems_ (table_ (sh_lru s)) = Z.of_nat (length (concat B))
}.

(** A mask selects one of the buckets. *)
Lemma bucket_range h k : 0 <= k -> 0 <= Z.land h (2 ^ k - 1) < 2 ^ k.
Proof.
  intros Hk. replace (2 ^ k - 1) with (Z.ones k) by (rewrite Z.ones_equiv; lia).
  rewrite Z.land_ones by done. apply Z.mod_pos_bound. lia.
Qed.

Lemma mask_small k : 2 <= k <= 31 -> u32 (2 ^ k - 1) = 2 ^ k - 1.
Proof.
  intros Hk. apply uwrap_small.
  pose proof (Z.pow_pos_nonneg 2 k). pose proof (Z.pow_lt_mono_r 2 k 32). lia.
Qed.

Lemma find_loop_ok s k i p fuel c1 c2 q :
  list_ (table_ (sh_lru s)) !! Z.to_nat i = Some p -> hseg (sh_heap s) p c1 q -> hseg (sh_heap s) q c2 None ->
  Forall (table_member s) c2 -> (length c2 < fuel)%nat ->
  exists c3 c4, loop fuel (find_pointer_round k (hf k)) (slot_after i c1) s = Ok (slot_after i (c1 ++ c3)) s /\
    c2 = c3 ++ c4 /\ (forall e, e ∈ c3 -> key_of s e <> Some k) /\ (forall e, head c4 = Some e -> key_of s e = Some k).
Proof.
  intros Hp. revert c1 q fuel. induction c2 as [|e c2 IH]; intros c1 q [|fuel] H1 H2 Hm Hf; cbn [length] in Hf; try lia.
  - exists [], []. rewrite app_nil_r. split; [|split; [done|split; [by intros e ?%not_elem_of_nil|done]]].
    rewrite loop_S. unfold find_pointer_round. rewrite bind_assoc, (bind_ok _ _ _ _ _ (slot_get_ok s i p c1 q Hp H1)).
    cbn in H2. by subst q.
  - apply Forall_cons in Hm as [He Hm]. destruct H2 as (-> & h & n & E & En & H2).
    pose proof He as (h' & _ & E' & _ & _ & Hh). rewrite E in E'. injection E' as <-.
    assert (hseg (sh_heap s) p (c1 ++ [e]) n) as H1'.
    { apply hseg_app. exists (Some e). split; [done|]. split; [done|]. by exists h, n. }
    assert (find_pointer_round k (hf k) (slot_after i c1) s =
            Ok (if slice_eqb k (key_data h) then inr (slot_after i c1) else inl (NextHash e)) s) as Er.
    { unfold find_pointer_round. rewrite (bind_ok _ _ _ _ _ (slot_get_ok s i p c1 _ Hp H1)).
      rewrite (bind_ok _ _ _ _ _ (load_ok s e h E)), Hh.
      destruct (slice_eqb k (key_data h)) eqn:Ek.
      - apply slice_eqb_eq in Ek as Ek'. rewrite <- Ek', Z.eqb_refl. cbn [negb].
        rewrite (bind_ok _ _ _ _ _ (key_ok s e h E He)). cbv beta. by rewrite Ek.
      - destruct (Z.eqb_spec (hf (key_data h)) (hf k)); cbn [negb]; [|done].
        rewrite (bind_ok _ _ _ _ _ (key_ok s e h E He)). cbv beta. by rewrite Ek. }
    rewrite loop_S, (bind_ok _ _ _ _ _ Er). destruct (slice_eqb k (key_data h)) eqn:Ek.
    + apply slice_eqb_eq in Ek. exists [], (e :: c2). rewrite app_nil_r. split; [done|]. split; [done|].
      split; [by intros x ?%not_elem_of_nil|]. intros x [= <-]. unfold key_of. by rewrite E, Ek.
    + rewrite <- (slot_after_snoc i c1 e). destruct (IH (c1 ++ [e]) n fuel H1' H2 Hm ltac:(lia)) as (c3 & c4 & El & -> & Hn & Hh4).
      exists (e :: c3), c4. rewrite <- app_assoc in El. split; [done|]. split; [done|]. split; [|done].
      intros x [->|Hx]%elem_of_cons; [|by apply Hn]. unfold key_of. rewrite E. cbn. intros [= Hk].
      rewrite Hk in Ek. by rewrite (proj2 (slice_eqb_eq k k)) in Ek.
Qed.

Lemma FindPointer_ok s B k : table_ok s B -> Forall (table_member s) (concat B) ->
  exists i c1 c2, FindPointer k (hf k) s = Ok (slot_after i c1) s /\ B !! Z.to_nat i = Some (c1 ++ c2) /\
    slot_get (slot_after i c1) s = Ok (head c2) s /\ hseg (sh_heap s) (head c2) c2 None /\
    i = Z.land (hf k) (length_ (table_ (sh_lru s)) - 1) /\
    match c2 with
    | o :: _ => key_of s o = Some k
    | [] => forall x, x ∈ concat B -> key_of s x <> Some k
    end.
Proof.
  intros [(n & Hn & Hpow) Hlen Hch Hnd Hpl _] Hm. set (i := Z.land (hf k) (2 ^ n - 1)).
  pose proof (bucket_range (hf k) n ltac:(lia)) as Hi. fold i in Hi.
  destruct (lookup_lt_is_Some_2 (list_ (table_ (sh_lru s))) (Z.to_nat i)) as [p Hp]; [lia|].
  destruct (Forall2_lookup_l _ _ _ _ _ Hch Hp) as (c & Hc & Hseg).
  assert (forall e, e ∈ c -> e ∈ concat B) as Hsub by (intros e He; apply elem_of_concat; by exists (Z.to_nat i), c).
  assert (Forall (table_member s) c) as Hmc by (apply Forall_forall; intros e He; rewrite Forall_forall in Hm; by apply Hm, Hsub).
  assert (length c < chain_fuel s)%nat as Hfuel.
  { unfold chain_fuel. pose proof (concat_delete B _ _ Hc) as Hperm. rewrite Hperm in Hnd. apply NoDup_app in Hnd as (Hndc & _).
    pose proof (size_at_least (sh_heap s) c Hndc). assert (length c <= size (sh_heap s))%nat; [|lia].
    apply H. intros e He. by eapply hseg_lookup. }
  destruct (find_loop_ok s k i p _ [] c p Hp eq_refl Hseg Hmc Hfuel) as (c3 & c4 & El & -> & Hno & Hhead).
  exists i, c3, c4. rewrite Hpow. split; [|split; [done|]].
  - unfold FindPointer. rewrite bind_gets, Hpow, bind_gets, mask_small by done. done.
  - apply hseg_app in Hseg as (q & H3 & H4). assert (q = head c4) as ->.
    { destruct c4 as [|e c4]; [done|]. by destruct H4 as (-> & _). }
    split; [by apply (slot_get_ok s i p)|]. split; [done|]. split; [done|].
    destruct c4 as [|o c4]; [|by apply Hhead].
    intros x Hx Hk. rewrite app_nil_r in *. apply elem_of_concat in Hx as (j & cj & Hj & Hx).
    destruct (Hpl j cj x Hj Hx) as (h & E & Hb). rewrite Hpow in Hb.
    assert (x ∈ concat B) as Hin by (apply elem_of_concat; by exists j, cj).
    rewrite Forall_forall in Hm. destruct (Hm x Hin) as (h' & n' & E' & _ & _ & Hh). rewrite E in E'. injection E' as <-.
    unfold key_of in Hk. rewrite E in Hk. injection Hk as Hk. rewrite Hh, Hk in Hb. fold i in Hb. subst j.
    rewrite Hc in Hj. injection Hj as <-. apply (Hno x Hx). unfold key_of. by rewrite E, <- Hk.
Qed.

End searching.
End tables.
