(* ===== verification/LRUProof.v ===== *)
(** * The invariant of a cache shard

    Growing the hash table, insertion into it and removal from it; then what ties
    the table, the list and the counts of references together. *)

From Stdlib Require Import ZArith Lia.
From stdpp Require Import base option list strings gmap.
From S2P Require Import Prelude Memory Slice Bloom LRU LRUList.

Section growing.
Context {PL : Platform} {V : Type}.
Implicit Types (s : Shard_ V) (e : nat) (c : list nat) (B : list (list nat)).

Lemma chained_ext (m m' : gmap nat (LRUHandle V)) ps B :
  (forall e, e ∈ concat B -> m' !! e = m !! e) -> chained m ps B -> chained m' ps B.
Proof.
  intros He H. apply Forall2_same_length_lookup_2; [by apply Forall2_length in H|].
  intros i p c Hp Hc. eapply hseg_ext; [|by apply (Forall2_lookup_lr _ _ _ _ _ _ H Hp Hc)].
  intros e Hin. apply He, elem_of_concat. by exists i, c.
Qed.

Lemma unchained_hash (h h' : LRUHandle V) : unchained h' = unchained h -> hash h' = hash h.
Proof. unfold unchained. congruence. Qed.

Lemma placed_in_ext (m m' : gmap nat (LRUHandle V)) n B :
  (forall e, unchained <$> m' !! e = unchained <$> m !! e) -> placed_in m n B -> placed_in m' n B.
Proof.
  intros Hb H i c e Hi He. destruct (H i c e Hi He) as (h & E & Hh). specialize (Hb e). rewrite E in Hb.
  apply fmap_Some_1 in Hb as (h' & E' & Hu%eq_sym%unchained_hash). exists h'. by rewrite Hu.
Qed.

Lemma length_concat_perm B c : concat B ≡ₚ c -> length (concat B) = length c.
Proof. apply Permutation_length. Qed.

(** One more entry at the front of a chain. *)
Lemma push_chain s k e h i ps N c :
  0 <= k -> sh_heap s !! e = Some h -> i = Z.to_nat (Z.land (hash h) (2 ^ k - 1)) ->
  chained (sh_heap s) ps N -> placed_in (sh_heap s) (2 ^ k) N -> e ∉ concat N -> N !! i = Some c ->
  forall p, ps !! i = Some p ->
  let s' := set_heap (insert e (set_next_hash p h)) s in
  chained (sh_heap s') (<[i := Some e]> ps) (<[i := e :: c]> N) /\
  placed_in (sh_heap s') (2 ^ k) (<[i := e :: c]> N).
Proof.
  intros Hk E Hi Hch Hpl He Hc p Hp s'.
  assert (forall e', e' ∈ concat N -> sh_heap s' !! e' = sh_heap s !! e') as Hfr.
  { intros e' He'. apply lookup_insert_ne. by intros <-. }
  split.
  - apply Forall2_insert; [by eapply chained_ext|]. split; [done|].
    exists (set_next_hash p h), p. split; [apply lookup_insert_eq|]. split; [done|].
    eapply hseg_ext; [|by apply (Forall2_lookup_lr _ _ _ _ _ _ Hch Hp Hc)].
    intros e' He'. apply Hfr, elem_of_concat. by exists i, c.
  - intros j cj x Hj Hx. rewrite list_lookup_insert_Some in Hj. destruct Hj as [(<- & <- & _)|[_ Hj]].
    + apply elem_of_cons in Hx as [->|Hx].
      * exists (set_next_hash p h). split; [apply lookup_insert_eq|done].
      * rewrite Hfr by (apply elem_of_concat; by exists i, c). by apply (Hpl i c).
    + rewrite Hfr by (apply elem_of_concat; by exists j, cj). by apply (Hpl j cj).
Qed.

Lemma rehash_chain_ok k c : 2 <= k <= 31 -> forall s p ps N fuel,
  hseg (sh_heap s) p c None -> chained (sh_heap s) ps N -> placed_in (sh_heap s) (2 ^ k) N ->
  NoDup (c ++ concat N) -> Z.of_nat (length ps) = 2 ^ k -> Z.of_nat (length (c ++ concat N)) < 2 ^ 32 ->
  (length c < fuel)%nat ->
  exists s' ps' N', loop fuel (rehash_round (2 ^ k)) (p, ps, Z.of_nat (length (concat N))) s =
      Ok (ps', Z.of_nat (length (concat N'))) s' /\
    rechained c s s' /\ sh_lru s' = sh_lru s /\ chained (sh_heap s') ps' N' /\ placed_in (sh_heap s') (2 ^ k) N' /\
    concat N' ≡ₚ c ++ concat N /\ Z.of_nat (length ps') = 2 ^ k.
Proof.
  intros Hk. induction c as [|e c IH]; intros s p ps N [|fuel] Hseg Hch Hpl Hnd Hlen Hroom Hf; cbn [length] in Hf; try lia.
  - cbn in Hseg. subst p. exists s, ps, N. split; [done|]. split; [apply rechained_refl|]. done.
  - destruct Hseg as (-> & h & q & E & Eq & Hseg). cbn [app] in Hnd, Hroom.
    apply NoDup_cons in Hnd as [He Hnd]. rewrite elem_of_app in He.
    pose proof (bucket_range (hash h) k ltac:(lia)) as Hi. set (i := Z.to_nat (Z.land (hash h) (2 ^ k - 1))) in *.
    destruct (lookup_lt_is_Some_2 ps i) as [r Hr]; [lia|].
    destruct (Forall2_lookup_l _ _ _ _ _ Hch Hr) as (ci & Hc & _).
    destruct (push_chain s k e h i ps N ci ltac:(lia) E eq_refl Hch Hpl ltac:(tauto) Hc r Hr) as [Hch1 Hpl1].
    set (s1 := set_heap _ s) in *. pose proof (concat_insert N i ci (e :: ci) Hc) as Hperm.
    rewrite <- app_comm_cons, <- (concat_delete N i ci Hc) in Hperm.
    destruct (IH s1 q (<[i := Some e]> ps) (<[i := e :: ci]> N) fuel) as (s' & ps' & N' & El & Hre & Hl & Hch' & Hpl' & Hp' & Hlen').
    + eapply hseg_ext; [|exact Hseg]. intros e' He'. apply lookup_insert_ne. intros <-. tauto.
    + done.
    + done.
    + rewrite Hperm, <- Permutation_middle. apply NoDup_cons. by rewrite elem_of_app.
    + by rewrite length_insert.
    + rewrite Hperm, <- Permutation_middle. done.
    + lia.
    + exists s', ps', N'. split; [|split; [|split; [done|split; [done|split; [done|split; [|done]]]]]].
      * assert (rehash_round (2 ^ k) (Some e, ps, Z.of_nat (length (concat N))) s =
          Ok (inl (q, <[i := Some e]> ps, u32 (Z.of_nat (length (concat N)) + 1))) s1) as Er.
        { unfold rehash_round. rewrite (bind_ok _ _ _ _ _ (load_ok s e h E)), (bind_or_ub _ _ _ _ Eq), mask_small by done.
          fold i. by rewrite (bind_or_ub _ _ _ _ Hr), (bind_ok _ _ _ _ _ (store_ok s e _ h E)). }
        rewrite (loop_cont _ _ _ _ _ _ Er).
        replace (u32 (Z.of_nat (length (concat N)) + 1)) with (Z.of_nat (length (concat (<[i := e :: ci]> N)))); [done|].
        rewrite (length_concat_perm _ _ Hperm). cbn [length] in *. rewrite length_app in Hroom. rewrite uwrap_small by lia. lia.
      * eapply rechained_trans; [apply (rechained_store e h r); [done|by left]|].
        eapply rechained_mono; [|exact Hre]. intros x Hx. by right.
      * rewrite Hp', Hperm. symmetry. apply Permutation_middle.
Qed.

Lemma rehash_all_ok k B : 2 <= k <= 31 -> forall s old ps N,
  chained (sh_heap s) old B -> chained (sh_heap s) ps N -> placed_in (sh_heap s) (2 ^ k) N ->
  NoDup (concat B ++ concat N) -> Z.of_nat (length ps) = 2 ^ k ->
  Z.of_nat (length (concat B ++ concat N)) < 2 ^ 32 ->
  exists s' ps' N', loop (S (length old)) (rehash_bucket (2 ^ k)) (old, ps, Z.of_nat (length (concat N))) s =
      Ok (ps', Z.of_nat (length (concat N'))) s' /\
    rechained (concat B) s s' /\ sh_lru s' = sh_lru s /\ chained (sh_heap s') ps' N' /\
    placed_in (sh_heap s') (2 ^ k) N' /\ concat N' ≡ₚ concat B ++ concat N /\ Z.of_nat (length ps') = 2 ^ k.
Proof.
  intros Hk. induction B as [|c B IH]; intros s old ps N Hold Hch Hpl Hnd Hlen Hroom.
  - apply Forall2_nil_inv_r in Hold as ->. exists s, ps, N. split; [done|]. split; [apply rechained_refl|]. done.
  - apply Forall2_cons_inv_r in Hold as (p & old' & Hseg & Hold & ->). cbn [concat length] in *.
    rewrite <- app_assoc in Hnd, Hroom.
    assert (NoDup (c ++ concat N)) as Hnd1.
    { rewrite Permutation_app_swap_app in Hnd. by apply NoDup_app in Hnd as (_ & _ & Hnd). }
    destruct (rehash_chain_ok k c Hk s p ps N (chain_fuel s) Hseg Hch Hpl Hnd1 Hlen)
      as (s1 & ps1 & N1 & E1 & Hr1 & Hl1 & Hch1 & Hpl1 & Hp1 & Hlen1).
    { rewrite !length_app in *. lia. }
    { unfold chain_fuel. apply NoDup_app in Hnd1 as (Hndc & _). apply Nat.lt_succ_r, size_at_least; [done|].
      intros e He. by eapply hseg_lookup. }
    apply NoDup_app in Hnd as (Hndc & Hdis & Hnd).
    destruct (IH s1 old' ps1 N1) as (s' & ps' & N' & E' & Hr' & Hl' & Hch' & Hpl' & Hp' & Hlen').
    + eapply chained_ext; [|exact Hold]. intros e He. apply (rc_frame _ _ _ Hr1). intros Hin.
      apply (Hdis e Hin). apply elem_of_app. by left.
    + done.
    + done.
    + rewrite Hp1, Permutation_app_swap_app. apply NoDup_app. split; [done|]. by split.
    + done.
    + rewrite Hp1. rewrite !length_app in *. lia.
    + exists s', ps', N'. split; [|split; [|split; [congruence|split; [done|split; [done|split; [|done]]]]]].
      * rewrite loop_S. cbn [rehash_bucket]. by rewrite bind_assoc, bind_gets, bind_assoc, (bind_ok _ _ _ _ _ E1), bind_ret.
      * eapply rechained_trans; (eapply rechained_mono; [|eassumption]); intros x; rewrite elem_of_app; tauto.
      * rewrite Hp', Hp1, Permutation_app_swap_app. by rewrite app_assoc.
Qed.

(** The new length is the first power of two from 4 on that suffices. *)
Lemma grow_ok n s : n <= 2 ^ 31 ->
  exists k, 2 <= k <= 31 /\ n <= 2 ^ k /\
    loop grow_fuel (fun new_length => if new_length <? n then ret (inl (u32 (new_length * 2))) else ret (inr new_length)) 4 s =
    Ok (2 ^ k) s.
Proof.
  intros Hn.
  assert (forall fuel k, 2 <= k <= 31 -> (Z.to_nat (31 - k) < fuel)%nat ->
    exists k', 2 <= k' <= 31 /\ n <= 2 ^ k' /\
    loop fuel (fun new_length => if new_length <? n then ret (inl (u32 (new_length * 2))) else ret (inr new_length)) (2 ^ k) s =
    Ok (2 ^ k') s) as H.
  { induction fuel as [|fuel IH]; intros k Hk Hf; [lia|]. rewrite loop_S.
    destruct (Z.ltb_spec (2 ^ k) n) as [Hlt|Hge].
    - assert (k < 31) by (destruct (Z.eq_dec k 31) as [->|]; lia).
      rewrite bind_ret. replace (u32 (2 ^ k * 2)) with (2 ^ (k + 1)); [apply IH; lia|].
      rewrite Z.pow_add_r by lia. symmetry. apply uwrap_small.
      pose proof (Z.pow_pos_nonneg 2 k). pose proof (Z.pow_lt_mono_r 2 k 31). lia.
    - exists k. by rewrite bind_ret. }
  apply (H grow_fuel 2); [lia|]. unfold grow_fuel. lia.
Qed.

Lemma chained_empty (m : gmap nat (LRUHandle V)) n : chained m (replicate n None) (replicate n []).
Proof. apply Forall2_replicate. done. Qed.

Lemma concat_replicate_nil n : concat (replicate n ([] : list nat)) = [].
Proof. induction n as [|n IH]; [done|exact IH]. Qed.

(** Growing keeps what is in the table. *)
Lemma Resize_ok s B :
  chained (sh_heap s) (list_ (table_ (sh_lru s))) B -> NoDup (concat B) ->
  elems_ (table_ (sh_lru s)) = Z.of_nat (length (concat B)) -> Z.of_nat (length (concat B)) <= 2 ^ 31 ->
  exists s' B', Resize s = Ok tt s' /\ table_ok s' B' /\ rechained (concat B) s s' /\ concat B' ≡ₚ concat B /\
    elems_ (table_ (sh_lru s')) <= length_ (table_ (sh_lru s')).
Proof.
  intros Hch Hnd Hel Hroom. unfold Resize. rewrite bind_gets.
  destruct (grow_ok (elems_ (table_ (sh_lru s))) s ltac:(lia)) as (k & Hk & Hge & Eg). rewrite (bind_ok _ _ _ _ _ Eg).
  pose proof (concat_replicate_nil (Z.to_nat (2 ^ k))) as Hnil.
  destruct (rehash_all_ok k B Hk s _ (replicate (Z.to_nat (2 ^ k)) None) (replicate (Z.to_nat (2 ^ k)) []) Hch)
    as (s1 & ps & N & E1 & Hr & Hl & Hch1 & Hpl & Hp & Hlen).
  - apply chained_empty.
  - intros i c e [-> _]%lookup_replicate_1 []%not_elem_of_nil.
  - by rewrite Hnil, app_nil_r.
  - rewrite length_replicate. lia.
  - rewrite Hnil, app_nil_r. lia.
  - rewrite Hnil, app_nil_r in Hp. rewrite Hnil in E1. cbn [length Z.of_nat] in E1. rewrite (bind_ok _ _ _ _ _ E1).
    cbn [fst snd]. rewrite bind_assert by (apply Z.eqb_eq; by rewrite (length_concat_perm _ _ Hp)).
    eexists _, N. split; [reflexivity|]. split; [|split; [|split; [done|]]].
    + split; cbn [sh_lru sh_heap set_table set_lru table_ length_ elems_ list_].
      * by exists k.
      * done.
      * done.
      * by rewrite Hp.
      * done.
      * rewrite Hl, Hel. by rewrite (length_concat_perm _ _ Hp).
    + eapply rechained_trans; [exact Hr|]. apply rechained_table.
    + cbn. by rewrite Hl.
Qed.

End growing.

(** ** Insertion and removal *)

Section operations.
Context {PL : Platform} {V : Type} (hf : Slice -> Z).
Implicit Types (s : Shard_ V) (e : nat) (c : list nat) (B : list (list nat)).

Abbreviation table_member := (table_member hf).

(** Changes to the chain of a bucket. *)
Lemma table_ok_splice s s' B i c1 c2 c2' ps n :
  table_ok s B -> B !! i = Some (c1 ++ c2) -> rechained (concat B ++ c2') s s' ->
  chained (sh_heap s') ps (<[i := c1 ++ c2']> B) -> length ps = length (list_ (table_ (sh_lru s))) ->
  table_ (sh_lru s') = mk_handle_table (length_ (table_ (sh_lru s))) n ps ->
  NoDup (c2' ++ c1 ++ concat (delete i B)) ->
  (forall e, e ∈ c2' -> exists h, sh_heap s !! e = Some h /\
     Z.to_nat (Z.land (hash h) (length_ (table_ (sh_lru s)) - 1)) = i) ->
  n = Z.of_nat (length (c2' ++ c1 ++ concat (delete i B))) ->
  table_ok s' (<[i := c1 ++ c2']> B) /\ concat (<[i := c1 ++ c2']> B) ≡ₚ c2' ++ c1 ++ concat (delete i B).
Proof.
  intros [Hpow Hlen Hch Hnd Hpl Hel] Hi Hr Hch' Hps Ht Hnd' Hnew Hn.
  assert (concat (<[i := c1 ++ c2']> B) ≡ₚ c2' ++ c1 ++ concat (delete i B)) as Hperm.
  { rewrite (concat_insert B i _ _ Hi). rewrite <- app_assoc. apply Permutation_app_swap_app. }
  split; [|done]. split; rewrite ?Ht; cbn [length_ list_ elems_].
  - done.
  - by rewrite Hps.
  - done.
  - by rewrite Hperm.
  - assert (placed_in (sh_heap s) (length_ (table_ (sh_lru s))) (<[i := c1 ++ c2']> B)) as Hpl2.
    { intros j cj x Hj Hx. rewrite list_lookup_insert_Some in Hj. destruct Hj as [(<- & <- & _)|[_ Hj]]; [|by apply (Hpl j cj)].
      apply elem_of_app in Hx as [Hx|Hx]; [|by apply Hnew]. apply (Hpl i _ x Hi). apply elem_of_app. by left. }
    eapply placed_in_ext; [|exact Hpl2]. apply (rc_body _ _ _ Hr).
  - by rewrite (length_concat_perm _ _ Hperm).
Qed.

Lemma member_lookup s e h : table_member s e -> sh_heap s !! e = Some h -> hash h = hf (key_data h).
Proof. intros (h' & n & E & _ & _ & Hh) E'. rewrite E in E'. by injection E' as <-. Qed.

Lemma table_ok_frame l s s' B :
  table_ok s B -> rechained l s s' -> table_ (sh_lru s') = table_ (sh_lru s) -> (forall e, e ∈ concat B -> e ∉ l) ->
  table_ok s' B.
Proof.
  intros [Hpow Hlen Hch Hnd Hpl Hel] Hr Ht Hl. split; rewrite ?Ht; try done.
  - eapply chained_ext; [|exact Hch]. intros e He. by apply (rc_frame _ _ _ Hr), Hl.
  - eapply placed_in_ext; [|exact Hpl]. apply (rc_body _ _ _ Hr).
Qed.

(** Where an entry was found, it is the only one with its key. *)
Lemma only_key s B i c1 o c2 k x :
  NoDup (key_of s <$> concat B) -> B !! i = Some (c1 ++ o :: c2) -> key_of s o = Some k ->
  x ∈ c1 ++ c2 ++ concat (delete i B) -> key_of s x <> Some k.
Proof.
  intros Hnd Hi Ho Hx Hk. rewrite (concat_delete B i _ Hi), <- app_assoc in Hnd. cbn [app] in Hnd.
  rewrite <- Permutation_middle, fmap_cons, Ho, <- Hk in Hnd. apply NoDup_cons in Hnd as [Hno _].
  by apply Hno, list_elem_of_fmap_2.
Qed.

Lemma table_Insert_ok s B e h :
  table_ok s B -> Forall (table_member s) (concat B) -> table_member s e -> sh_heap s !! e = Some h -> e ∉ concat B ->
  NoDup (key_of s <$> concat B) -> Z.of_nat (length (concat B)) < 2 ^ 31 ->
  exists s' old B' rest, table_Insert e s = Ok old s' /\ table_ok s' B' /\ rechained (e :: concat B) s s' /\
    concat B ≡ₚ option_list old ++ rest /\ concat B' ≡ₚ e :: rest /\
    (forall o, old = Some o -> key_of s o = Some (key_data h)) /\
    (forall x, x ∈ rest -> key_of s x <> Some (key_data h)).
Proof.
  intros HT Hm He E Hne Hkeys Hroom.
  destruct (FindPointer_ok hf s B (key_data h) HT Hm) as (i & c1 & c2 & Ef & Hi & Eg & Hseg & Hidx & Hfound).
  unfold table_Insert, set_elems. rewrite (bind_ok _ _ _ _ _ (key_ok hf s e h E He)), (bind_ok _ _ _ _ _ (load_ok s e h E)).
  rewrite (member_lookup s e h He E), (bind_ok _ _ _ _ _ Ef), (bind_ok _ _ _ _ _ Eg).
  set (m := (let! rest := _ in _) s).
  assert (m = bind (store e (set_next_hash (head (tail c2))))
    (fun _ => slot_set (slot_after i c1) (Some e) ;;;
      match head c2 with
      | None =>
          let! t := gets (fun s => table_ (sh_lru s)) in
          modify (set_table (fun t0 => mk_handle_table (length_ t0) (u32 (elems_ t + 1)) (list_ t0))) ;;;
          if length_ t <? u32 (elems_ t + 1) then Resize else ret tt
      | Some _ => ret tt
      end ;;; ret (head c2)) s) as ->.
  { unfold m. destruct c2 as [|o c2]; cbn [head tail]; [by rewrite bind_ret|].
    destruct Hseg as (_ & ho & n & Eo & En & Hseg). rewrite bind_assoc, (bind_ok _ _ _ _ _ (load_ok s o ho Eo)).
    rewrite (bind_or_ub _ _ _ _ En). destruct c2 as [|x c2]; [by cbn in Hseg; subst n|]. by destruct Hseg as (-> & _). }
  rewrite (bind_ok _ _ _ _ _ (store_ok s e _ h E)).
  set (s1 := set_heap _ s).
  assert (rechained [e] s s1) as Hr1 by (apply rechained_store; [done|by left]).
  assert (table_ok s1 B) as HT1.
  { eapply table_ok_frame; [exact HT|exact Hr1|done|]. by intros x Hx ->%list_elem_of_singleton. }
  pose proof (to_nodup _ _ HT) as Hnd. rewrite (concat_delete B _ _ Hi), <- app_assoc in Hnd.
  rewrite (concat_delete B _ _ Hi), <- app_assoc, !elem_of_app in Hne.
  assert (hseg (sh_heap s1) (Some e) (e :: tail c2) None) as Hseg1.
  { split; [done|]. exists (set_next_hash (head (tail c2)) h), (head (tail c2)). split; [apply lookup_insert_eq|]. split; [done|].
    apply (hseg_ext (sh_heap s)).
    - intros x Hx. apply lookup_insert_ne. intros <-. apply Hne. right. left. destruct c2; [done|by right].
    - destruct c2 as [|o c2]; [done|]. destruct Hseg as (_ & ho & n & _ & _ & Hseg).
      destruct c2 as [|x c2]; [done|]. by destruct Hseg as (-> & Hx). }
  destruct (splice s1 B i c1 c2 (e :: tail c2) (Some e) (to_chains _ _ HT1) (to_nodup _ _ HT1) Hi Hseg1)
    as (s2 & ps & E2 & Hr2 & Hch2 & Hps & Ht2).
  { intros x [->|Hx]%elem_of_cons Hx1; [tauto|]. apply NoDup_app in Hnd as (_ & Hdis & _).
    apply (Hdis x Hx1), elem_of_app. left. destruct c2; [done|by right]. }
  rewrite (bind_ok _ _ _ _ _ E2).
  assert (Hin : forall x, x ∈ c1 -> x ∈ e :: concat B).
  { intros x Hx. right. rewrite (concat_delete B _ _ Hi), !elem_of_app. tauto. }
  assert (rechained (e :: concat B) s s2) as Hr.
  { eapply rechained_trans; (eapply rechained_mono; [|eassumption]); [by intros x ->%list_elem_of_singleton; left|exact Hin]. }
  assert (Hbucket : exists h', sh_heap s1 !! e = Some h' /\ Z.to_nat (Z.land (hash h') (length_ (table_ (sh_lru s1)) - 1)) = Z.to_nat i).
  { exists (set_next_hash (head (tail c2)) h). split; [apply lookup_insert_eq|]. cbn [hash set_next_hash].
    rewrite (member_lookup s e h He E). by rewrite Hidx. }
  assert (Hplaced : forall x, x ∈ e :: tail c2 -> exists h', sh_heap s1 !! x = Some h' /\
    Z.to_nat (Z.land (hash h') (length_ (table_ (sh_lru s1)) - 1)) = Z.to_nat i).
  { intros x [->|Hx]%elem_of_cons; [done|]. apply (to_placed _ _ HT1 _ _ x Hi). apply elem_of_app. right.
    destruct c2; [done|by right]. }
  assert (Hr12 : rechained (concat B ++ e :: tail c2) s1 s2).
  { eapply rechained_mono; [|exact Hr2]. intros x Hx. apply elem_of_app. left.
    rewrite (concat_delete B _ _ Hi), !elem_of_app. tauto. }
  assert (Hnd2 : NoDup ((e :: tail c2) ++ c1 ++ concat (delete (Z.to_nat i) B))).
  { cbn [app]. apply NoDup_cons. split.
    - rewrite !elem_of_app. intros [Hx|Hx]; [|tauto]. apply Hne. right. left. destruct c2; [done|by right].
    - rewrite Permutation_app_swap_app in Hnd. destruct c2 as [|o c2]; [done|].
      cbn [tail app] in *. by apply NoDup_cons in Hnd as [_ Hnd]. }
  pose proof (concat_delete B _ _ Hi) as HB. rewrite <- app_assoc in HB.
  destruct c2 as [|o c2]; cbn [head tail] in *.
  - pose proof (to_elems _ _ HT) as Hel.
    assert (elems_ (table_ (sh_lru s1)) = elems_ (table_ (sh_lru s))) as Hel1 by done.
    rewrite bind_assoc, bind_gets, Ht2. cbn [elems_ length_]. rewrite Hel1, Hel, uwrap_small by lia.
    set (n := Z.of_nat (length (concat B)) + 1). rewrite bind_assoc, bind_modify. set (s3 := set_table _ s2).
    destruct (table_ok_splice s1 s3 B (Z.to_nat i) c1 [] [e] ps n HT1 Hi) as [HT3 Hp3]; try done.
    { eapply rechained_trans; [exact Hr12|]. apply rechained_table. }
    { unfold s3, set_table. cbn [table_ sh_lru set_lru]. by rewrite Ht2. }
    { unfold n. rewrite (length_concat_perm _ _ HB). cbn [app length]. rewrite !length_app. cbn [length]. lia. }
    cbn [app] in Hp3. rewrite <- HB in Hp3.
    assert (rechained (e :: concat B) s s3) as Hr3 by (eapply rechained_trans; [exact Hr|apply rechained_table]).
    destruct (Z.ltb_spec (length_ (table_ (sh_lru s1))) n) as [Hlt|Hge].
    + destruct (Resize_ok s3 _ (to_chains _ _ HT3) (to_nodup _ _ HT3) (to_elems _ _ HT3)) as (s4 & B4 & E4 & HT4 & Hr4 & Hp4 & _).
      { rewrite (length_concat_perm _ _ Hp3). cbn [length]. lia. }
      rewrite (bind_ok _ _ _ _ _ E4). exists s4, None, B4, (concat B). split; [done|]. split; [done|].
      split; [|split; [done|split; [by rewrite Hp4, Hp3|split; [done|done]]]].
      eapply rechained_trans; [exact Hr3|]. eapply rechained_mono; [|exact Hr4]. intros x. by rewrite Hp3.
    + rewrite bind_ret. by exists s3, None, (<[Z.to_nat i := c1 ++ [e]]> B), (concat B).
  - rewrite bind_ret.
    destruct (table_ok_splice s1 s2 B (Z.to_nat i) c1 (o :: c2) (e :: c2) ps (elems_ (table_ (sh_lru s1))) HT1 Hi) as [HT2 Hp2]; try done.
    { rewrite (to_elems _ _ HT1), (length_concat_perm _ _ HB). cbn [app length]. rewrite !length_app. cbn [length]. rewrite length_app. lia. }
    exists s2, (Some o), (<[Z.to_nat i := c1 ++ e :: c2]> B), (c1 ++ c2 ++ concat (delete (Z.to_nat i) B)).
    split; [done|]. split; [done|]. split; [done|]. split; [|split; [|split; [by intros ? [= <-]|]]].
    + rewrite HB. cbn [option_list app]. by rewrite <- Permutation_middle.
    + rewrite Hp2. cbn [app]. by rewrite Permutation_app_swap_app.
    + intros x Hx. by apply (only_key s B (Z.to_nat i) c1 o c2).
Qed.

Lemma table_Remove_ok s B k :
  table_ok s B -> Forall (table_member s) (concat B) -> NoDup (key_of s <$> concat B) -> Z.of_nat (length (concat B)) < 2 ^ 32 ->
  exists s' r B', table_Remove k (hf k) s = Ok r s' /\ table_ok s' B' /\ rechained (concat B) s s' /\
    concat B ≡ₚ option_list r ++ concat B' /\
    (forall o, r = Some o -> key_of s o = Some k) /\ (forall x, x ∈ concat B' -> key_of s x <> Some k).
Proof.
  intros HT Hm Hkeys Hroom.
  destruct (FindPointer_ok hf s B k HT Hm) as (i & c1 & c2 & Ef & Hi & Eg & Hseg & Hidx & Hfound).
  unfold table_Remove, set_elems. rewrite (bind_ok _ _ _ _ _ Ef), (bind_ok _ _ _ _ _ Eg).
  destruct c2 as [|o c2]; cbn [head] in *.
  - rewrite bind_ret. exists s, None, B. split; [done|]. split; [done|]. split; [apply rechained_refl|]. done.
  - destruct Hseg as (_ & ho & n & Eo & En & Hseg).
    rewrite bind_assoc, (bind_ok _ _ _ _ _ (load_ok s o ho Eo)), bind_assoc, (bind_or_ub _ _ _ _ En).
    pose proof (concat_delete B _ _ Hi) as HB. rewrite <- app_assoc in HB.
    pose proof (to_nodup _ _ HT) as Hnd. rewrite HB in Hnd. cbn [app] in Hnd.
    destruct (splice s B i c1 (o :: c2) c2 n (to_chains _ _ HT) (to_nodup _ _ HT) Hi Hseg) as (s2 & ps & E2 & Hr2 & Hch2 & Hps & Ht2).
    { intros x Hx Hx1. apply NoDup_app in Hnd as (_ & Hdis & _). apply (Hdis x Hx1). right. apply elem_of_app. by left. }
    rewrite bind_assoc, (bind_ok _ _ _ _ _ E2), bind_assoc, bind_gets, Ht2. cbn [elems_]. rewrite bind_modify.
    pose proof (to_elems _ _ HT) as Hel. pose proof (length_concat_perm _ _ HB) as Hlen.
    rewrite length_app in Hlen. cbn [app length] in Hlen. rewrite length_app in Hlen.
    rewrite uwrap_small by lia. set (s3 := set_table _ s2).
    destruct (table_ok_splice s s3 B (Z.to_nat i) c1 (o :: c2) c2 ps (elems_ (table_ (sh_lru s)) - 1) HT Hi) as [HT3 Hp3]; try done.
    { eapply rechained_trans; [|apply rechained_table]. eapply rechained_mono; [|exact Hr2].
      intros x Hx. apply elem_of_app. left. rewrite HB, elem_of_app. by left. }
    { unfold s3, set_table. cbn [table_ sh_lru set_lru]. by rewrite Ht2. }
    { rewrite <- Permutation_middle in Hnd. apply NoDup_cons in Hnd as [_ Hnd]. by rewrite Permutation_app_swap_app. }
    { intros x Hx. apply (to_placed _ _ HT _ _ x Hi). apply elem_of_app. right. by right. }
    { rewrite !length_app. lia. }
    exists s3, (Some o), (<[Z.to_nat i := c1 ++ c2]> B). split; [done|]. split; [done|]. split; [|split; [|split; [by intros ? [= <-]|]]].
    + eapply rechained_trans; [|apply rechained_table]. eapply rechained_mono; [|exact Hr2].
      intros x Hx. rewrite HB, elem_of_app. by left.
    + rewrite HB, Hp3. cbn [option_list app]. by rewrite <- Permutation_middle, (Permutation_app_swap_app c2).
    + intros x Hx. rewrite Hp3 in Hx. apply (only_key s B (Z.to_nat i) c1 o c2); try done.
      by rewrite Permutation_app_swap_app.
Qed.

End operations.

(** * The operations of a cache shard

    A shard is in order when the list, the table and the counts of references
    agree: on the entries in the order of their last use, on those that only
    handles keep alive, and on the handles. *)

Section shard.
Context {PL : Platform} {V : Type} (hf : Slice -> Z).
Implicit Types (s : Shard_ V) (e : nat) (l pinned live : list nat).

(** ** What stays when links change *)

Definition cell s e : option (Slice * V * Z * Z) :=
  (fun h => (key_data h, value h, charge h, hash h)) <$> sh_heap s !! e.
Definition refs_of s e : option Z := refs <$> sh_heap s !! e.
Definition charge_of s e : Z := match cell s e with Some (_, _, c, _) => c | None => 0 end.

(** [next] is set, and not to the entry itself. *)
Definition linked s e : Prop := exists h n, sh_heap s !! e = Some h /\ next h = Some n /\ n <> Entry e.

Lemma fmap_of {A B} (f : LRUHandle V -> A) (g : LRUHandle V -> B) (m m' : gmap nat (LRUHandle V)) e :
  (forall h h', f h' = f h -> g h' = g h) -> f <$> m' !! e = f <$> m !! e -> g <$> m' !! e = g <$> m !! e.
Proof.
  intros Hfg. destruct (m' !! e) as [h'|], (m !! e) as [h|]; try done.
  cbn. intros [= E]. f_equal. by apply Hfg.
Qed.

Lemma relinked_same s s' r e : relinked r s s' -> cell s' e = cell s e /\ refs_of s' e = refs_of s e.
Proof.
  intros [Hb _ _ _ _ _]. split; (eapply fmap_of; [|apply Hb]); unfold unlinked; cbn; intros; congruence.
Qed.

Lemma rechained_same s s' r e : rechained r s s' -> cell s' e = cell s e /\ refs_of s' e = refs_of s e.
Proof.
  intros [Hb _ _ _ _ _ _]. split; (eapply fmap_of; [|apply Hb]); unfold unchained; cbn; intros; congruence.
Qed.

Lemma key_of_cell s e : key_of s e = (fun c => c.1.1.1) <$> cell s e.
Proof. unfold key_of, cell. by destruct (sh_heap s !! e). Qed.

Lemma linked_rechained s s' r e : rechained r s s' -> linked s e -> linked s' e.
Proof.
  intros Hr (h & n & E & En & Hn). destruct (rechained_lookup _ _ _ _ _ Hr E) as (h' & E' & Hu).
  unfold unchained in Hu. exists h', n. split; [done|]. split; [|done]. congruence.
Qed.

Lemma linked_relinked s s' r e : relinked r s s' -> e ∉ r -> linked s e -> linked s' e.
Proof. intros Hr He (h & n & E & En & Hn). exists h, n. by rewrite (rl_frame _ _ _ Hr). Qed.

Lemma linked_list s l e : lru_list s l -> e ∈ l -> linked s e.
Proof. intros (Hnd & _ & [Hd _]) He. by destruct (dseg_next _ _ _ e Hnd Hd He) as (h & n & ? & ? & ?); exists h, n. Qed.

Lemma linked_member s e k v c : linked s e -> cell s e = Some (k, v, c, hf k) -> table_member hf s e.
Proof.
  intros (h & n & E & En & Hn) Hc. unfold cell in Hc. rewrite E in Hc. injection Hc as <- _ _ Hh. by exists h, n.
Qed.

Lemma dseg_links (m m' : gmap nat (LRUHandle V)) b l n :
  (forall e, (fun h => (next h, prev h)) <$> m' !! e = (fun h => (next h, prev h)) <$> m !! e) ->
  dseg m b l n -> dseg m' b l n.
Proof.
  intros He. revert b. induction l as [|e l IH]; intros b; cbn; [done|]. intros [(h & E & En & Ep) H]. split; [|by apply IH].
  specialize (He e). rewrite E in He. apply fmap_Some_1 in He as (h' & E' & Hh). injection Hh as Hn Hp.
  exists h'. split; [done|]. split; congruence.
Qed.

Lemma lru_list_rechained s s' r l : rechained r s s' -> lru_list s l -> lru_list s' l.
Proof.
  intros Hr (Hnd & [Hf Hn] & [_ Hp]). pose proof (rc_next _ _ _ Hr). pose proof (rc_prev _ _ _ Hr).
  assert (dseg (sh_heap s') Lru l Lru) as Hd.
  { eapply dseg_links; [|exact Hf]. intros e. eapply fmap_of; [|apply (rc_body _ _ _ Hr)].
    unfold unchained. intros; congruence. }
  split; [done|]. split; split; try done; congruence.
Qed.

Definition in_table s l : Prop := exists B, table_ok s B /\ concat B ≡ₚ l.

Lemma in_table_perm s l l' : l ≡ₚ l' -> in_table s l -> in_table s l'.
Proof. intros Hp (B & HT & HB). exists B. by rewrite HB. Qed.

#[export] Instance in_table_Proper s : Proper ((≡ₚ) ==> iff) (in_table s).
Proof. intros l l' Hp. split; apply in_table_perm; [done|by symmetry]. Qed.

Lemma hseg_links (m m' : gmap nat (LRUHandle V)) p c q :
  (forall e, e ∈ c -> next_hash <$> m' !! e = next_hash <$> m !! e) -> hseg m p c q -> hseg m' p c q.
Proof.
  revert p. induction c as [|e c IH]; intros p He; [done|]. intros (-> & h & n & E & En & H). split; [done|].
  pose proof (He e ltac:(by left)) as He0. rewrite E in He0. apply fmap_Some_1 in He0 as (h' & E' & Hh).
  exists h', n. split; [done|]. split; [congruence|]. apply IH; [|done]. intros e' He'. apply He. by right.
Qed.

(** The table is as it was if [next_hash] and [hash] are. *)
Lemma in_table_same s s' l :
  (forall e, e ∈ l ->
    (fun h => (next_hash h, hash h)) <$> sh_heap s' !! e = (fun h => (next_hash h, hash h)) <$> sh_heap s !! e) ->
  table_ (sh_lru s') = table_ (sh_lru s) -> in_table s l -> in_table s' l.
Proof.
  intros Hb Ht (B & [Hpow Hlen Hch Hnd Hpl Hel] & HB). exists B. split; [|done].
  assert (forall i c e, B !! i = Some c -> e ∈ c -> e ∈ l) as Hin.
  { intros i c e Hi He. rewrite <- HB. apply elem_of_concat. by exists i, c. }
  split; rewrite ?Ht; try done.
  - apply Forall2_same_length_lookup_2; [by apply Forall2_length in Hch|]. intros i p c Hp Hc.
    eapply hseg_links; [|by apply (Forall2_lookup_lr _ _ _ _ _ _ Hch Hp Hc)].
    intros e He. eapply fmap_of; [|apply Hb]; [cbn; congruence|by eapply Hin].
  - intros i c e Hi He. destruct (Hpl i c e Hi He) as (h & E & Hh).
    specialize (Hb e (Hin i c e Hi He)). rewrite E in Hb. apply fmap_Some_1 in Hb as (h' & E' & Hh'). injection Hh' as _ Hh'.
    exists h'. by rewrite <- Hh'.
Qed.

Lemma in_table_relinked s s' r l : relinked r s s' -> in_table s l -> in_table s' l.
Proof.
  intros Hr. apply in_table_same; [|apply (rl_table _ _ _ Hr)].
  intros e _. eapply fmap_of; [|apply (rl_body _ _ _ Hr)]. unfold unlinked. intros; congruence.
Qed.

(** ** Counting *)

Definition total s l : Z := foldr (fun e n => charge_of s e + n) 0 l.

Lemma total_perm s l l' : l ≡ₚ l' -> total s l = total s l'.
Proof. induction 1; unfold total in *; cbn [foldr]; lia. Qed.

Lemma total_same s s' l : (forall e, e ∈ l -> cell s' e = cell s e) -> total s' l = total s l.
Proof.
  induction l as [|e l IH]; intros H; [done|].
  assert (total s' l = total s l) as E by (apply IH; intros e' He'; apply H; by right).
  assert (charge_of s' e = charge_of s e) as Ec by (unfold charge_of; by rewrite H by (by left)).
  unfold total in *. cbn [foldr]. by rewrite E, Ec.
Qed.

Definition counted l live e : Z := (if decide (e ∈ l) then 1 else 0) + Z.of_nat (count_occ Nat.eq_dec live e).

Record held_refs s l pinned live : Prop := mk_held_refs {
  hr_nodup : NoDup (l ++ pinned);
  hr_cell e : e ∈ l ++ pinned -> exists k v c, cell s e = Some (k, v, c, hf k) /\ 1 <= c;
  hr_refs e : e ∈ l ++ pinned -> refs_of s e = Some (counted l live e);
  hr_live e : e ∈ live -> e ∈ l ++ pinned;
  hr_pinned e : e ∈ pinned -> e ∈ live;
  hr_keys : NoDup (key_of s <$> l);
  hr_usage : usage_ (sh_lru s) = total s (l ++ pinned);
  hr_room : total s (l ++ pinned) < 2 ^ size_bits
}.

Lemma total_nonneg s l : (forall e, e ∈ l -> 0 <= charge_of s e) -> 0 <= total s l.
Proof.
  induction l as [|e l IH]; intros H; [done|]. pose proof (H e ltac:(by left)).
  assert (0 <= total s l) by (apply IH; intros e' He'; apply H; by right). unfold total in *. cbn [foldr]. lia.
Qed.

Lemma hr_charge s l pinned live e : held_refs s l pinned live -> e ∈ l ++ pinned -> 1 <= charge_of s e.
Proof. intros H He. unfold charge_of. by destruct (hr_cell _ _ _ _ H e He) as (k & v & c & -> & Hc). Qed.

Lemma hr_total s l pinned live : held_refs s l pinned live -> 0 <= total s (l ++ pinned).
Proof. intros H. apply total_nonneg. intros e He. pose proof (hr_charge _ _ _ _ e H He). lia. Qed.

Lemma key_of_same s s' l : (forall e, e ∈ l -> cell s' e = cell s e) -> key_of s' <$> l = key_of s <$> l.
Proof.
  intros H. apply list_fmap_ext. intros i e Hi. rewrite !key_of_cell, H; [done|]. by eapply list_elem_of_lookup_2.
Qed.

Lemma held_refs_same s s' l pinned live :
  (forall e, e ∈ l ++ pinned -> cell s' e = cell s e /\ refs_of s' e = refs_of s e) ->
  usage_ (sh_lru s') = usage_ (sh_lru s) -> held_refs s l pinned live -> held_refs s' l pinned live.
Proof.
  intros He Hu [Hnd Hc Hr Hl Hp Hk Husage Hroom].
  assert (forall e, e ∈ l ++ pinned -> cell s' e = cell s e) as He1 by (intros e Hin; by apply He).
  split; try done.
  - intros e Hin. rewrite He1 by done. by apply Hc.
  - intros e Hin. destruct (He e Hin) as [_ ->]. by apply Hr.
  - rewrite (key_of_same s s'); [done|]. intros e Hin. apply He1, elem_of_app. by left.
  - by rewrite Hu, (total_same s s' _ He1).
  - by rewrite (total_same s s' _ He1).
Qed.

Lemma held_refs_relinked s s' r l pinned live : relinked r s s' -> held_refs s l pinned live -> held_refs s' l pinned live.
Proof.
  intros Hr. apply held_refs_same; [|apply (rl_usage _ _ _ Hr)]. intros e _. by eapply relinked_same.
Qed.

Lemma held_refs_rechained s s' r l pinned live : rechained r s s' -> held_refs s l pinned live -> held_refs s' l pinned live.
Proof.
  intros Hr. apply held_refs_same; [|apply (rc_usage _ _ _ Hr)]. intros e _. by eapply rechained_same.
Qed.

Lemma counted_perm l l' live live' e : l ≡ₚ l' -> live ≡ₚ live' -> counted l live e = counted l' live' e.
Proof.
  intros Hl Hv. unfold counted. rewrite (Permutation_count_occ Nat.eq_dec live live') in Hv. rewrite Hv.
  destruct (decide (e ∈ l)) as [H1|H1], (decide (e ∈ l')) as [H2|H2]; try done; by rewrite Hl in H1.
Qed.

Lemma held_refs_perm s l l' pinned pinned' live live' :
  l ≡ₚ l' -> pinned ≡ₚ pinned' -> live ≡ₚ live' -> held_refs s l pinned live -> held_refs s l' pinned' live'.
Proof.
  intros Hl Hp Hv [Hnd Hc Hr Hli Hpi Hk Husage Hroom].
  assert (l ++ pinned ≡ₚ l' ++ pinned') as Ho by (by rewrite Hl, Hp).
  split.
  - by rewrite <- Ho.
  - intros e. rewrite <- Ho. apply Hc.
  - intros e. rewrite <- Ho, <- (counted_perm l l' live live' e Hl Hv). apply Hr.
  - intros e. rewrite <- Hv, <- Ho. apply Hli.
  - intros e. rewrite <- Hv, <- Hp. apply Hpi.
  - by rewrite <- Hl.
  - rewrite Husage. by apply total_perm.
  - by rewrite <- (total_perm s _ _ Ho).
Qed.

(** An entry that leaves the cache: its reference counts as a handle until
    [Unref]. *)
Lemma held_refs_leave s l e pinned live :
  held_refs s (e :: l) pinned live -> held_refs s l (e :: pinned) (e :: live).
Proof.
  intros [Hnd Hc Hr Hli Hpi Hk Husage Hroom].
  assert ((e :: l) ++ pinned ≡ₚ l ++ e :: pinned) as Ho by (cbn; apply Permutation_middle).
  pose proof Hnd as Hnd'. cbn [app] in Hnd'. apply NoDup_cons in Hnd' as [He _]. rewrite elem_of_app in He. split.
  - by rewrite <- Ho.
  - intros x. rewrite <- Ho. apply Hc.
  - intros x Hx. rewrite <- Ho in Hx. rewrite (Hr x Hx). f_equal. unfold counted.
    cbn [count_occ]. destruct (Nat.eq_dec e x) as [<-|Hne].
    + rewrite decide_True by (by left). rewrite decide_False by tauto. lia.
    + destruct (decide (x ∈ e :: l)) as [H1|H1], (decide (x ∈ l)) as [H2|H2]; try done.
      * apply elem_of_cons in H1 as [->|H1]; done.
      * exfalso. apply H1. by right.
  - intros x [->|Hx]%elem_of_cons; [apply elem_of_app; right; by left|]. rewrite <- Ho. by apply Hli.
  - intros x [->|Hx]%elem_of_cons; [by left|]. right. by apply Hpi.
  - rewrite fmap_cons in Hk. by apply NoDup_cons in Hk as [_ Hk].
  - by rewrite Husage, (total_perm s _ _ Ho).
  - by rewrite <- (total_perm s _ _ Ho).
Qed.

(** ** The invariant *)

Record lru_inv s l pinned live : Prop := mk_lru_inv {
  li_list : lru_list s l;
  li_table : in_table s l;
  li_refs : held_refs s l pinned live;
  li_linked e : e ∈ pinned -> linked s e
}.

Lemma li_all_linked s l pinned live e : lru_inv s l pinned live -> e ∈ l ++ pinned -> linked s e.
Proof.
  intros H [He|He]%elem_of_app; [by eapply linked_list; [apply (li_list _ _ _ _ H)|]|by apply (li_linked _ _ _ _ H)].
Qed.

Lemma lru_inv_live s l pinned live live' : live ≡ₚ live' -> lru_inv s l pinned live -> lru_inv s l pinned live'.
Proof. intros Hp [A B C D]. split; try done. by eapply held_refs_perm. Qed.

End shard.

(** * What the operations of a cache shard do *)

Section operations.
Context {PL : Platform} {V : Type} (hf : Slice -> Z).
Implicit Types (s : Shard_ V) (e : nat) (l pinned live freed own : list nat).

Abbreviation lru_inv := (lru_inv hf).
Abbreviation held_refs := (held_refs hf).

(** What a deleter is called with. *)
Definition kv_of s e : option (Slice * V) := (fun c => (c.1.1.1, c.1.1.2)) <$> cell s e.

(** The entries that are there before and after keep what they hold; memory that is
    given up is free, and the deleter was called once for each such entry. *)
Record keeps own own' freed s s' : Prop := mk_keeps {
  kp_cell e : e ∈ own -> e ∈ own' -> cell s' e = cell s e;
  kp_frame e : e ∉ own' -> sh_heap s' !! e = if decide (e ∈ own) then None else sh_heap s !! e;
  kp_freed e : e ∈ freed <-> e ∈ own /\ e ∉ own';
  kp_once : NoDup freed;
  kp_deleted : sh_deleted s' = sh_deleted s ++ omap (kv_of s) freed;
  kp_capacity : capacity_ (sh_lru s') = capacity_ (sh_lru s)
}.

Lemma keeps_refl own s : (forall e, e ∈ own -> is_Some (sh_heap s !! e)) -> keeps own own [] s s.
Proof.
  intros Hs. split; try done.
  - intros e He. by rewrite decide_False.
  - intros e. rewrite elem_of_nil. tauto.
  - constructor.
  - cbn. by rewrite app_nil_r.
Qed.

Lemma keeps_trans own own1 own2 f1 f2 s s1 s2 :
  keeps own own1 f1 s s1 -> keeps own1 own2 f2 s1 s2 ->
  (forall e, e ∈ own -> e ∈ own2 -> e ∈ own1) -> (forall e, e ∈ own1 -> e ∉ own -> e ∈ own2) ->
  keeps own own2 (f1 ++ f2) s s2.
Proof.
  intros [C1 F1 R1 N1 D1 P1] [C2 F2 R2 N2 D2 P2] HA HC. split.
  - intros e He He2. rewrite C2, C1 by auto. done.
  - intros e He. rewrite F2 by done. destruct (decide (e ∈ own1)) as [Hi|Hi].
    + rewrite decide_True; [done|]. destruct (decide (e ∈ own)); [done|]. by destruct He; apply HC.
    + by apply F1.
  - intros e. rewrite elem_of_app, R1, R2. split.
    + intros [[? ?]|[? ?]]; [split; [done|]|].
      * intros He2. auto.
      * split; [|done]. destruct (decide (e ∈ own)); [done|]. exfalso. auto.
    + intros [? ?]. destruct (decide (e ∈ own1)); [by right|by left].
  - apply NoDup_app. split; [done|]. split; [|done]. intros e [_ He]%R1 [He' _]%R2. done.
  - rewrite D2, D1, <- app_assoc, omap_app. do 2 f_equal.
    assert (forall e, e ∈ f2 -> kv_of s1 e = kv_of s e) as Hkv.
    { intros e [He He']%R2. unfold kv_of. rewrite C1; [done| |done]. destruct (decide (e ∈ own)); [done|]. exfalso. auto. }
    clear -Hkv. induction f2 as [|e f2 IH]; [done|]. cbn. rewrite Hkv by (by left). rewrite IH; [done|].
    intros x Hx. apply Hkv. by right.
  - by rewrite P2.
Qed.

Lemma keeps_relinked r own s s' : relinked r s s' -> r ⊆ own -> keeps own own [] s s'.
Proof.
  intros Hr Hsub. split.
  - intros e _ _. by apply (relinked_same _ _ _ _ Hr).
  - intros e He. rewrite decide_False by done. apply (rl_frame _ _ _ Hr). by intros ?%Hsub.
  - intros e. rewrite elem_of_nil. tauto.
  - constructor.
  - cbn. rewrite app_nil_r. apply (rl_deleted _ _ _ Hr).
  - apply (rl_capacity _ _ _ Hr).
Qed.

Lemma keeps_rechained r own s s' : rechained r s s' -> r ⊆ own -> keeps own own [] s s'.
Proof.
  intros Hr Hsub. split.
  - intros e _ _. by apply (rechained_same _ _ _ _ Hr).
  - intros e He. rewrite decide_False by done. apply (rc_frame _ _ _ Hr). by intros ?%Hsub.
  - intros e. rewrite elem_of_nil. tauto.
  - constructor.
  - cbn. rewrite app_nil_r. apply (rc_deleted _ _ _ Hr).
  - apply (rc_capacity _ _ _ Hr).
Qed.

Lemma keeps_perm own1 own1' own2 own2' f s s' :
  own1 ≡ₚ own2 -> own1' ≡ₚ own2' -> keeps own1 own1' f s s' -> keeps own2 own2' f s s'.
Proof.
  intros H1 H2 [C F R N D P]. split; try done.
  - intros e. rewrite <- H1, <- H2. apply C.
  - intros e. rewrite <- H2. intros He. rewrite F by done.
    destruct (decide (e ∈ own1)) as [Hi|Hi], (decide (e ∈ own2)) as [Hj|Hj]; try done; by rewrite H1 in Hi.
  - intros e. rewrite R. by rewrite H1, H2.
Qed.

(** ** Giving up a reference *)

Lemma counted_range l live e : 0 <= counted l live e <= 1 + Z.of_nat (length live).
Proof.
  unfold counted. pose proof (count_occ_bound Nat.eq_dec e live). destruct (decide (e ∈ l)); lia.
Qed.

Lemma counted_zero l live e : counted l live e = 0 <-> e ∉ l ++ live.
Proof.
  unfold counted. rewrite elem_of_app. pose proof (count_occ_In Nat.eq_dec live e) as Hc. rewrite <- list_elem_of_In in Hc.
  destruct (decide (e ∈ l)); [split; [lia|tauto]|].
  destruct (decide (e ∈ live)) as [Hi|Hi]; [|split; [tauto|]].
  - apply Hc in Hi as Hg. split; [lia|tauto].
  - intros _. assert (~ (count_occ Nat.eq_dec live e > 0)%nat) by (by intros ?%Hc). lia.
Qed.

Lemma counted_cons l live e x : counted l (e :: live) x = counted l live x + (if decide (e = x) then 1 else 0).
Proof.
  unfold counted. cbn [count_occ]. destruct (Nat.eq_dec e x) as [->|Hne].
  - rewrite (decide_True _ _ (eq_refl x)). lia.
  - rewrite (decide_False _ _ Hne). lia.
Qed.

Lemma lookup_own s l pinned live e :
  held_refs s l pinned live -> e ∈ l ++ pinned ->
  exists h, sh_heap s !! e = Some h /\ refs h = counted l live e /\ hash h = hf (key_data h) /\ charge h = charge_of s e.
Proof.
  intros H He. destruct (hr_cell _ _ _ _ _ H e He) as (k & v & c & Ec & _).
  pose proof (hr_refs _ _ _ _ _ H e He) as Er. unfold cell in Ec. unfold refs_of in Er. unfold charge_of, cell.
  destruct (sh_heap s !! e) as [h|]; [|done]. cbn in *. injection Ec as <- _ <- Eh. injection Er as Er. by exists h.
Qed.

Lemma own_in_heap s l pinned live : held_refs s l pinned live -> forall e, e ∈ l ++ pinned -> is_Some (sh_heap s !! e).
Proof. intros H e He. destruct (lookup_own s l pinned live e H He) as (h & -> & _). by eexists. Qed.

(** Counting a reference more or less. *)
Lemma set_refs_ok s l pinned live live' e h n :
  lru_inv s l pinned live -> e ∈ l ++ pinned -> sh_heap s !! e = Some h -> n = counted l live' e ->
  (forall x, x <> e -> counted l live' x = counted l live x) ->
  (forall x, x ∈ live' -> x ∈ l ++ pinned) -> (forall x, x ∈ pinned -> x ∈ live') ->
  let s' := set_heap (insert e (set_refs n h)) s in
  lru_inv s' l pinned live' /\ keeps (l ++ pinned) (l ++ pinned) [] s s'.
Proof.
  intros [Hlist Htab Hrefs Hlink] Hown E -> Hcount Hsub Hpin. set (h' := set_refs _ h).
  assert (forall A (f : LRUHandle V -> A), f h' = f h -> forall x, f <$> insert e h' (sh_heap s) !! x = f <$> sh_heap s !! x) as Hsame.
  { intros A f Hf x. destruct (decide (e = x)) as [<-|]; [|by rewrite lookup_insert_ne].
    rewrite lookup_insert_eq, E. cbn. by rewrite Hf. }
  split; [split|].
  - destruct Hlist as (Hnd & [Hd Hn] & [_ Hp]). assert (dseg (insert e h' (sh_heap s)) Lru l Lru) as Hd'.
    { eapply dseg_links; [|exact Hd]. by apply Hsame. }
    by split; [done|split].
  - apply (in_table_same s); [|done|exact Htab]. intros x _. by apply Hsame.
  - destruct Hrefs as [Hnd Hc Hr Hli Hpi Hk Husage Hrm].
    assert (forall x, cell (set_heap (insert e h') s) x = cell s x) as Hcell by (by apply Hsame).
    split; try done.
    + intros x Hx. rewrite Hcell. by apply Hc.
    + intros x Hx. unfold refs_of. cbn [sh_heap set_heap]. destruct (decide (e = x)) as [<-|Hne].
      * by rewrite lookup_insert_eq.
      * rewrite lookup_insert_ne, Hcount by done. by apply Hr.
    + by rewrite (key_of_same s).
    + rewrite (total_same s); [done|]. by intros.
    + rewrite (total_same s); [done|]. by intros.
  - intros x Hx. destruct (Hlink x Hx) as (hx & n & Ex & En & Hn). destruct (decide (e = x)) as [<-|Hne].
    + rewrite E in Ex. injection Ex as <-. exists h', n. by split; [apply lookup_insert_eq|].
    + exists hx, n. cbn. by rewrite lookup_insert_ne.
  - split; try done.
    + intros x _ _. by apply Hsame.
    + intros x Hx. rewrite decide_False by done. apply lookup_insert_ne. by intros <-.
    + intros x. rewrite elem_of_nil. tauto.
    + constructor.
    + cbn. by rewrite app_nil_r.
Qed.

(** There is another reference. *)
Lemma Unref_shared s l pinned e live :
  lru_inv s l pinned (e :: live) -> e ∈ l ++ live -> Z.of_nat (length live) + 2 < 2 ^ 32 ->
  exists s', Unref e s = Ok tt s' /\ lru_inv s' l pinned live /\ keeps (l ++ pinned) (l ++ pinned) [] s s' /\
    usage_ (sh_lru s') = usage_ (sh_lru s).
Proof.
  intros HI He Hroom. pose proof (li_refs _ _ _ _ _ HI) as Hrefs.
  assert (e ∈ l ++ pinned) as Hown by (apply (hr_live _ _ _ _ _ Hrefs); by left).
  destruct (lookup_own s l pinned _ e Hrefs Hown) as (h & E & Er & Hh & _).
  rewrite counted_cons, decide_True in Er by done.
  pose proof (counted_range l live e). assert (counted l live e <> 0) as Hnz by (rewrite counted_zero; tauto).
  unfold Unref. rewrite (bind_ok _ _ _ _ _ (load_ok s e h E)), bind_assert by (apply Z.ltb_lt; lia).
  rewrite (bind_ok _ _ _ _ _ (store_ok s e _ h E)), Er, uwrap_small by lia.
  replace (counted l live e + 1 - 1) with (counted l live e) by lia. set (h' := set_refs _ h).
  assert (sh_heap (set_heap (insert e h') s) !! e = Some h') as E' by apply lookup_insert_eq.
  rewrite (bind_ok _ _ _ _ _ (load_ok _ e h' E')). unfold h' at 1. cbn [refs set_refs].
  rewrite (proj2 (Z.leb_gt _ _)) by lia. eexists. split; [reflexivity|].
  destruct (set_refs_ok s l pinned (e :: live) live e h _ HI Hown E eq_refl) as [HI' Hk].
  - intros x Hx. rewrite counted_cons, decide_False by done. lia.
  - intros x Hx. apply (hr_live _ _ _ _ _ Hrefs). by right.
  - intros x Hx. apply (hr_pinned _ _ _ _ _ Hrefs) in Hx as Hx'. apply elem_of_cons in Hx' as [->|?]; [|done].
    apply elem_of_app in He as [He|He]; [|done]. pose proof (hr_nodup _ _ _ _ _ Hrefs) as Hnd.
    apply NoDup_app in Hnd as (_ & Hdis & _). by destruct (Hdis e He).
  - done.
Qed.

(** It was the last reference: the deleter is called and the memory is free. *)
Lemma Unref_last s l pinned e live :
  lru_inv s l (e :: pinned) (e :: live) -> e ∉ live ->
  exists s', Unref e s = Ok tt s' /\ lru_inv s' l pinned live /\ keeps (l ++ e :: pinned) (l ++ pinned) [e] s s' /\
    usage_ (sh_lru s') = usage_ (sh_lru s) - charge_of s e.
Proof.
  intros [Hlist Htab Hrefs Hlink] Hno.
  assert (e ∈ l ++ e :: pinned) as Hown by (apply elem_of_app; right; by left).
  destruct (lookup_own s l _ _ e Hrefs Hown) as (h & E & Er & Hh & Hch).
  pose proof (hr_nodup _ _ _ _ _ Hrefs) as Hnd. rewrite <- Permutation_middle in Hnd. apply NoDup_cons in Hnd as [He Hnd].
  rewrite elem_of_app in He.
  rewrite counted_cons, decide_True, (proj2 (counted_zero l live e)) in Er by (rewrite ?elem_of_app; tauto).
  destruct (Hlink e ltac:(by left)) as (h2 & n & E2 & En & Hn). rewrite E in E2. injection E2 as <-.
  unfold Unref. rewrite (bind_ok _ _ _ _ _ (load_ok s e h E)), bind_assert by (apply Z.ltb_lt; lia).
  rewrite (bind_ok _ _ _ _ _ (store_ok s e _ h E)), Er. change (u32 (0 + 1 - 1)) with 0. set (h' := set_refs 0 h).
  assert (sh_heap (set_heap (insert e h') s) !! e = Some h') as E' by apply lookup_insert_eq.
  rewrite (bind_ok _ _ _ _ _ (load_ok _ e h' E')). unfold h' at 1. cbn [refs set_refs Z.leb Z.compare].
  rewrite bind_gets, bind_modify.
  change (charge h') with (charge h). change (value h') with (value h). set (s1 := set_usage _ _).
  assert (key e s1 = Ok (key_data h) s1) as Ek.
  { unfold key. rewrite (bind_ok _ _ _ _ _ (load_ok s1 e h' E')), (bind_or_ub _ n) by done. by rewrite decide_False. }
  rewrite (bind_ok _ _ _ _ _ Ek), bind_modify. eexists. split; [reflexivity|].
  assert (forall x, x <> e -> delete e (insert e h' (sh_heap s)) !! x = sh_heap s !! x) as Hfr.
  { intros x Hx. rewrite lookup_delete_ne, lookup_insert_ne by done. done. }
  assert (forall x, x ∈ l ++ pinned -> delete e (insert e h' (sh_heap s)) !! x = sh_heap s !! x) as Hfr2.
  { intros x Hx. apply Hfr. intros ->. rewrite elem_of_app in Hx. tauto. }
  pose proof (hr_total _ _ _ _ _ Hrefs) as Htot.
  assert (total s (l ++ e :: pinned) = charge_of s e + total s (l ++ pinned)) as Hsum.
  { rewrite (total_perm s _ (e :: l ++ pinned)); [done|]. by rewrite <- Permutation_middle. }
  assert (0 <= total s (l ++ pinned)) as Htot2.
  { apply total_nonneg. intros x Hx. enough (1 <= charge_of s x) by lia. eapply hr_charge; [exact Hrefs|].
    rewrite elem_of_app in Hx |- *. destruct Hx; [by left|right; by right]. }
  pose proof (hr_charge _ _ _ _ _ e Hrefs Hown) as Hpos.
  assert (usage_ (sh_lru s1) = usage_ (sh_lru s) - charge_of s e) as Hu.
  { unfold s1. cbn [usage_ sh_lru set_usage set_lru set_heap]. rewrite Hch, (hr_usage _ _ _ _ _ Hrefs).
    pose proof (hr_room _ _ _ _ _ Hrefs). rewrite usize_small; [done|lia]. }
  split; [split|split].
  - apply (lru_list_ext s); [|done|done|exact Hlist]. intros x Hx. apply Hfr2, elem_of_app. by left.
  - apply (in_table_same s); [|done|exact Htab]. intros x Hx. cbn [sh_heap set_heap].
    rewrite <- (Hfr2 x) by (apply elem_of_app; by left). done.
  - destruct Hrefs as [_ Hc Hr Hli Hpi Hk Husage Hrm].
    assert (forall x, x ∈ l ++ pinned -> x ∈ l ++ e :: pinned) as Hsub.
    { intros x. rewrite !elem_of_app, elem_of_cons. tauto. }
    match goal with |- LRUProof.held_refs _ ?s' _ _ _ =>
      assert (forall x, x ∈ l ++ pinned -> cell s' x = cell s x) as Hcell
        by (intros x Hx; unfold cell; cbn [sh_heap set_heap]; by rewrite <- (Hfr2 x Hx)) end.
    split.
    + done.
    + intros x Hx. rewrite Hcell by done. by apply Hc, Hsub.
    + intros x Hx. unfold refs_of. cbn [sh_heap set_heap]. specialize (Hr x (Hsub x Hx)).
      rewrite counted_cons, decide_False, Z.add_0_r in Hr; [|intros <-; rewrite elem_of_app in Hx; tauto].
      rewrite <- Hr. unfold refs_of. by rewrite <- (Hfr2 x Hx).
    + intros x Hx. specialize (Hli x ltac:(by right)). rewrite elem_of_app, elem_of_cons in Hli. rewrite elem_of_app.
      destruct Hli as [?|[->|?]]; [by left|done|by right].
    + intros x Hx. specialize (Hpi x ltac:(by right)). apply elem_of_cons in Hpi as [->|?]; [tauto|done].
    + rewrite (key_of_same s); [done|]. intros x Hx. apply Hcell, elem_of_app. by left.
    + change (usage_ (sh_lru s1) = total (mk_shard (delete e (insert e h' (sh_heap s))) (sh_deleted s1 ++ [(key_data h, value h)]) (sh_lru s1)) (l ++ pinned)).
      rewrite (total_same s) by done. lia.
    + rewrite (total_same s) by done. lia.
  - intros x Hx. destruct (Hlink x ltac:(by right)) as (hx & nx & Ex & Enx & Hnx). exists hx, nx. cbn [sh_heap set_heap].
    split; [|done]. rewrite <- Ex. apply Hfr2, elem_of_app. by right.
  - split; try done.
    + intros x _ Hx. unfold cell. cbn [sh_heap set_heap]. by rewrite <- (Hfr2 x Hx).
    + intros x Hx. cbn [sh_heap set_heap]. destruct (decide (e = x)) as [<-|Hne].
      * rewrite decide_True by done. apply lookup_delete_eq.
      * rewrite decide_False; [by apply Hfr|]. rewrite elem_of_app, elem_of_cons in *. intros [?|[?|?]]; auto.
    + intros x. rewrite list_elem_of_singleton, !elem_of_app, elem_of_cons. split; [by intros ->; tauto|].
      intros [[?|[?|?]] ?]; tauto.
    + apply NoDup_singleton.
    + cbn [omap list_omap]. unfold kv_of, cell. by rewrite E.
  - exact Hu.
Qed.

(** Both cases. *)
Lemma Unref_ok s l pinned e live :
  lru_inv s l pinned (e :: live) -> Z.of_nat (length live) + 2 < 2 ^ 32 ->
  exists s' pinned' freed, Unref e s = Ok tt s' /\ lru_inv s' l pinned' live /\
    keeps (l ++ pinned) (l ++ pinned') freed s s' /\ usage_ (sh_lru s') = usage_ (sh_lru s) - total s freed /\
    freed = (if decide (e ∈ l ++ live) then [] else [e]).
Proof.
  intros HI Hroom. destruct (decide (e ∈ l ++ live)) as [He|He].
  - destruct (Unref_shared s l pinned e live HI He Hroom) as (s' & E & H & Hk & Hu).
    exists s', pinned, []. cbn. by rewrite Hu, Z.sub_0_r.
  - assert (e ∈ pinned) as Hp.
    { pose proof (hr_live _ _ _ _ _ (li_refs _ _ _ _ _ HI) e ltac:(by left)) as H. rewrite elem_of_app in *. tauto. }
    apply list_elem_of_split in Hp as (p1 & p2 & ->). rewrite elem_of_app in He.
    assert (p1 ++ e :: p2 ≡ₚ e :: p1 ++ p2) as Hperm by (by rewrite <- Permutation_middle).
    assert (lru_inv s l (e :: p1 ++ p2) (e :: live)) as HI'.
    { destruct HI as [A B C D]. split; [done|done|by eapply held_refs_perm|]. intros x. rewrite <- Hperm. apply D. }
    destruct (Unref_last s l (p1 ++ p2) e live HI') as (s' & E & H & Hk & Hu); [tauto|].
    exists s', (p1 ++ p2), [e]. split; [done|]. split; [done|]. split.
    + eapply keeps_perm; [| |exact Hk]; [by rewrite Hperm|done].
    + split; [|done]. rewrite Hu. cbn. lia.
Qed.

End operations.
