(* ===== verification/LRUShard.v ===== *)
(** * Lookup, insertion, eviction and removal in a cache shard

    Each operation is described by what it does to the list of entries in the
    order of their last use and to the list of handles. *)

From Stdlib Require Import ZArith Lia.
From stdpp Require Import base option list strings gmap.
From S2P Require Import Prelude Memory Slice Bloom LRU LRUList LRUProof.

Section shard.
Context {PL : Platform} {V : Type} (hf : Slice -> Z).
Implicit Types (s : Shard_ V) (e : nat) (l pinned live freed own : list nat).

Abbreviation lru_inv := (lru_inv hf).
Abbreviation held_refs := (held_refs hf).

(** ** The table *)

Lemma members s l pinned live : lru_inv s l pinned live -> forall x, x ∈ l ++ pinned -> table_member hf s x.
Proof.
  intros H x Hx. destruct (hr_cell _ _ _ _ _ (li_refs _ _ _ _ _ H) x Hx) as (k & v & c & Ec & _).
  eapply linked_member; [|exact Ec]. by eapply li_all_linked.
Qed.

Lemma length_table s l B : concat B ≡ₚ l -> length (concat B) = length l.
Proof. apply Permutation_length. Qed.

Lemma table_Lookup_ok s l k : in_table s l -> (forall x, x ∈ l -> table_member hf s x) ->
  exists r, table_Lookup k (hf k) s = Ok r s /\
    match r with
    | Some e => e ∈ l /\ key_of s e = Some k
    | None => forall x, x ∈ l -> key_of s x <> Some k
    end.
Proof.
  intros (B & HT & HB) Hm.
  assert (Forall (table_member hf s) (concat B)) as Hm' by (apply Forall_forall; intros x; rewrite HB; apply Hm).
  destruct (FindPointer_ok hf s B k HT Hm') as (i & c1 & c2 & Ef & Hi & Eg & _ & _ & Hfound).
  exists (head c2). split; [unfold table_Lookup; by rewrite (bind_ok _ _ _ _ _ Ef)|].
  destruct c2 as [|o c2]; cbn [head].
  - intros x. rewrite <- HB. apply Hfound.
  - split; [|done]. rewrite <- HB. apply elem_of_concat. exists (Z.to_nat i), (c1 ++ o :: c2). split; [done|].
    apply elem_of_app. right. by left.
Qed.

Lemma remove_ok s l k :
  in_table s l -> (forall x, x ∈ l -> table_member hf s x) -> NoDup (key_of s <$> l) -> Z.of_nat (length l) < 2 ^ 32 ->
  exists s' r l', table_Remove k (hf k) s = Ok r s' /\ in_table s' l' /\ rechained l s s' /\
    l ≡ₚ option_list r ++ l' /\ (forall o, r = Some o -> key_of s o = Some k) /\
    (forall x, x ∈ l' -> key_of s x <> Some k).
Proof.
  intros (B & HT & HB) Hm Hk Hroom.
  destruct (table_Remove_ok hf s B k HT) as (s' & r & B' & E & HT' & Hr & Hp & Ho & Hno).
  - apply Forall_forall. intros x. rewrite HB. apply Hm.
  - by rewrite HB.
  - by rewrite (length_table s l B HB).
  - exists s', r, (concat B'). split; [done|]. split; [by exists B'|]. split.
    + eapply rechained_mono; [|exact Hr]. intros x. by rewrite HB.
    + by rewrite <- HB.
Qed.

(** The entry of a key that is there. *)
Lemma remove_found s e l k :
  in_table s (e :: l) -> (forall x, x ∈ e :: l -> table_member hf s x) -> NoDup (key_of s <$> e :: l) ->
  Z.of_nat (length (e :: l)) < 2 ^ 32 -> key_of s e = Some k ->
  exists s', table_Remove k (hf k) s = Ok (Some e) s' /\ in_table s' l /\ rechained (e :: l) s s'.
Proof.
  intros Ht Hm Hk Hroom Hke. destruct (remove_ok s _ k Ht Hm Hk Hroom) as (s' & r & l' & E & Ht' & Hr & Hp & Ho & Hno).
  assert (e ∈ option_list r ++ l') as He by (rewrite <- Hp; by left).
  apply elem_of_app in He as [He|He]; [|by destruct (Hno e He)].
  destruct r as [o|]; [|by apply not_elem_of_nil in He]. apply list_elem_of_singleton in He as <-.
  exists s'. split; [done|]. split; [|done]. eapply in_table_perm; [|exact Ht']. by apply Permutation_cons_inv in Hp.
Qed.

(** ** Entries that leave the cache *)

(** The list and the table have been told. *)
Lemma detached s s' l e pinned live r1 r2 s1 :
  held_refs s (e :: l) pinned live -> (forall x, x ∈ pinned -> linked s x) ->
  (relinked r1 s s1 /\ rechained r2 s1 s' \/ rechained r2 s s1 /\ relinked r1 s1 s') ->
  r1 ⊆ l -> r2 ⊆ e :: l -> lru_list s' l -> in_table s' l -> linked s e ->
  lru_inv s' l (e :: pinned) (e :: live) /\ keeps ((e :: l) ++ pinned) (l ++ e :: pinned) [] s s'.
Proof.
  intros Hh Hl Hs H1 H2 Hlist Htab He.
  pose proof (hr_nodup _ _ _ _ _ Hh) as Hnd. apply NoDup_app in Hnd as (Hnd & Hdis & _).
  apply NoDup_cons in Hnd as [Hne _].
  assert (forall x, x ∈ e :: pinned -> x ∉ r1) as Hr1.
  { intros x [->|Hx]%elem_of_cons Hin%H1; [done|]. apply (Hdis x); [by right|done]. }
  assert (forall x, x ∈ e :: pinned -> linked s x) as Hl'.
  { intros x [->|Hx]%elem_of_cons; [done|by apply Hl]. }
  assert (held_refs s' (e :: l) pinned live) as Hh'.
  { destruct Hs as [[Ha Hb]|[Ha Hb]].
    - eapply held_refs_rechained; [exact Hb|]. by eapply held_refs_relinked.
    - eapply held_refs_relinked; [exact Hb|]. by eapply held_refs_rechained. }
  split; [split; [done|done|by apply held_refs_leave|]|].
  - intros x Hx. destruct Hs as [[Ha Hb]|[Ha Hb]].
    + eapply linked_rechained; [exact Hb|]. eapply linked_relinked; [exact Ha|by apply Hr1|by apply Hl'].
    + eapply linked_relinked; [exact Hb|by apply Hr1|]. eapply linked_rechained; [exact Ha|by apply Hl'].
  - apply (keeps_perm ((e :: l) ++ pinned) ((e :: l) ++ pinned)); [done|cbn; apply Permutation_middle|].
    change [] with ([] ++ [] : list nat).
    assert (r1 ⊆ (e :: l) ++ pinned) by (intros x Hx%H1; apply elem_of_app; left; by right).
    assert (r2 ⊆ (e :: l) ++ pinned) by (intros x Hx%H2; apply elem_of_app; by left).
    destruct Hs as [[Ha Hb]|[Ha Hb]].
    + eapply keeps_trans; [by eapply keeps_relinked|by eapply keeps_rechained|auto|auto].
    + eapply keeps_trans; [by eapply keeps_rechained|by eapply keeps_relinked|auto|auto].
Qed.

(** ** Lookup *)

Lemma rotate_keeps s l1 e l2 pinned live s1 s2 :
  lru_inv s (l1 ++ e :: l2) pinned live -> relinked (l1 ++ l2) s s1 -> relinked ((l1 ++ l2) ++ [e]) s1 s2 ->
  lru_list s2 ((l1 ++ l2) ++ [e]) -> lru_inv s2 ((l1 ++ l2) ++ [e]) pinned live.
Proof.
  intros [_ Htab Hh Hl] H1 H2 Hlist.
  assert (l1 ++ e :: l2 ≡ₚ (l1 ++ l2) ++ [e]) as Hp by (rewrite <- app_assoc; f_equiv; apply Permutation_cons_append).
  pose proof (hr_nodup _ _ _ _ _ Hh) as Hnd. rewrite Hp in Hnd. apply NoDup_app in Hnd as (_ & Hdis & _).
  split; [done| | |].
  - eapply in_table_perm; [exact Hp|]. eapply in_table_relinked; [exact H2|]. by eapply in_table_relinked.
  - eapply held_refs_perm; [exact Hp|done|done|]. eapply held_refs_relinked; [exact H2|]. by eapply held_refs_relinked.
  - intros x Hx. assert (x ∉ (l1 ++ l2) ++ [e]) as Hx' by (intros Hin; by apply (Hdis x)).
    eapply linked_relinked; [exact H2|done|]. eapply linked_relinked; [exact H1| |by apply Hl].
    intros Hin. apply Hx', elem_of_app. by left.
Qed.

Lemma Lookup_ok s l pinned live k :
  lru_inv s l pinned live -> Z.of_nat (length live) + 2 < 2 ^ 32 ->
  exists r s', Lookup k (hf k) s = Ok r s' /\
    match r with
    | None => s' = s /\ forall x, x ∈ l -> key_of s x <> Some k
    | Some e => key_of s e = Some k /\ exists l1 l2, l = l1 ++ e :: l2 /\
        lru_inv s' ((l1 ++ l2) ++ [e]) pinned (e :: live) /\
        keeps (l ++ pinned) (((l1 ++ l2) ++ [e]) ++ pinned) [] s s' /\
        usage_ (sh_lru s') = usage_ (sh_lru s)
    end.
Proof.
  intros HI Hroom.
  destruct (table_Lookup_ok s l k (li_table _ _ _ _ _ HI)) as (r & El & Hr).
  { intros x Hx. eapply members; [exact HI|]. apply elem_of_app. by left. }
  unfold Lookup. rewrite (bind_ok _ _ _ _ _ El). destruct r as [e|].
  2:{ rewrite bind_ret. by exists None, s. }
  destruct Hr as [He Hk]. apply list_elem_of_split in He as (l1 & l2 & ->).
  assert (e ∈ (l1 ++ e :: l2) ++ pinned) as Hown by (rewrite !elem_of_app, elem_of_cons; tauto).
  pose proof (li_refs _ _ _ _ _ HI) as Hh. destruct (lookup_own hf s _ _ _ e Hh Hown) as (h & E & Er & _).
  pose proof (counted_range (l1 ++ e :: l2) live e).
  rewrite bind_assoc, (bind_ok _ _ _ _ _ (load_ok s e h E)), Er, uwrap_small by lia.
  rewrite bind_assoc, (bind_ok _ _ _ _ _ (store_ok s e _ h E)).
  destruct (set_refs_ok hf s _ pinned live (e :: live) e h (counted (l1 ++ e :: l2) live e + 1) HI Hown E) as [HI1 Hk1].
  { rewrite counted_cons, decide_True by done. lia. }
  { intros x Hx. rewrite counted_cons, decide_False by done. lia. }
  { intros x [->|Hx]%elem_of_cons; [done|by apply (hr_live _ _ _ _ _ Hh)]. }
  { intros x Hx. right. by apply (hr_pinned _ _ _ _ _ Hh). }
  set (s1 := set_heap _ s) in *. destruct (LRU_Remove_ok s1 l1 e l2 (li_list _ _ _ _ _ HI1)) as (s2 & E2 & Hl2 & Hr2).
  rewrite bind_assoc, (bind_ok _ _ _ _ _ E2).
  assert (e ∉ l1 ++ l2) as Hne.
  { pose proof (hr_nodup _ _ _ _ _ Hh) as Hnd. apply NoDup_app in Hnd as (Hnd & _).
    rewrite <- Permutation_middle in Hnd. by apply NoDup_cons in Hnd as [? _]. }
  assert (is_Some (sh_heap s2 !! e)) as [h2 Eh2] by (rewrite (rl_frame _ _ _ Hr2) by done; cbn; by rewrite lookup_insert_eq).
  destruct (LRU_Append_ok s2 _ e h2 Hl2 Hne Eh2) as (s3 & E3 & Hl3 & Hr3).
  rewrite (bind_ok _ _ _ _ _ E3). exists (Some e), s3. split; [done|]. split; [done|].
  exists l1, l2. split; [done|]. split; [by eapply rotate_keeps|].
  assert (l1 ++ e :: l2 ≡ₚ (l1 ++ l2) ++ [e]) as Hp by (rewrite <- app_assoc; f_equiv; apply Permutation_cons_append).
  split.
  - apply (keeps_perm ((l1 ++ e :: l2) ++ pinned) ((l1 ++ e :: l2) ++ pinned)); [done|by rewrite Hp|].
    change [] with ([] ++ ([] ++ []) : list nat).
    eapply keeps_trans; [exact Hk1| |auto|auto].
    apply (keeps_trans _ ((l1 ++ e :: l2) ++ pinned) _ _ _ _ s2); [| |auto|auto].
    + eapply keeps_relinked; [exact Hr2|]. intros x. rewrite !elem_of_app, elem_of_cons. tauto.
    + eapply keeps_relinked; [exact Hr3|]. intros x. rewrite !elem_of_app, list_elem_of_singleton, elem_of_cons. tauto.
  - by rewrite (rl_usage _ _ _ Hr3), (rl_usage _ _ _ Hr2).
Qed.

(** ** Erase *)

Lemma Erase_ok s l pinned live k :
  lru_inv s l pinned live -> Z.of_nat (length live) + 2 < 2 ^ 32 -> Z.of_nat (length l) < 2 ^ 32 ->
  exists s' l' pinned' freed, Erase k (hf k) s = Ok tt s' /\ lru_inv s' l' pinned' live /\
    keeps (l ++ pinned) (l' ++ pinned') freed s s' /\ usage_ (sh_lru s') = usage_ (sh_lru s) - total s freed /\
    ((forall x, x ∈ l -> key_of s x <> Some k) /\ l' = l \/
     exists e l1 l2, l = l1 ++ e :: l2 /\ l' = l1 ++ l2 /\ key_of s e = Some k).
Proof.
  intros HI Hroom Hlen. pose proof (li_refs _ _ _ _ _ HI) as Hh.
  destruct (remove_ok s l k (li_table _ _ _ _ _ HI)) as (s1 & r & l' & E1 & Ht1 & Hr1 & Hp & Ho & Hno).
  { intros x Hx. eapply members; [exact HI|]. apply elem_of_app. by left. }
  { apply (hr_keys _ _ _ _ _ Hh). }
  { done. }
  unfold Erase. rewrite (bind_ok _ _ _ _ _ E1).
  pose proof (lru_list_rechained _ _ _ _ Hr1 (li_list _ _ _ _ _ HI)) as Hl1.
  destruct r as [e|]; cbn [option_list app] in Hp.
  - assert (e ∈ l) as He by (rewrite Hp; by left). apply list_elem_of_split in He as (l1 & l2 & ->).
    rewrite <- Permutation_middle in Hp. apply Permutation_cons_inv in Hp.
    destruct (LRU_Remove_ok s1 l1 e l2 Hl1) as (s2 & E2 & Hl2 & Hr2). rewrite (bind_ok _ _ _ _ _ E2).
    assert (l1 ++ e :: l2 ≡ₚ e :: l1 ++ l2) as Hp2 by (by rewrite <- Permutation_middle).
    destruct (detached s s2 (l1 ++ l2) e pinned live (l1 ++ l2) (l1 ++ e :: l2) s1) as [HI2 Hk2].
    + by eapply held_refs_perm.
    + apply (li_linked _ _ _ _ _ HI).
    + by right.
    + done.
    + intros x. by rewrite Hp2.
    + done.
    + eapply in_table_relinked; [exact Hr2|]. by eapply in_table_perm.
    + eapply linked_list; [apply (li_list _ _ _ _ _ HI)|]. apply elem_of_app. right. by left.
    + destruct (Unref_ok hf s2 (l1 ++ l2) (e :: pinned) e live HI2 Hroom) as (s3 & pn & freed & E3 & HI3 & Hk3 & Hu & Hf).
      exists s3, (l1 ++ l2), pn, freed. split; [done|]. split; [done|]. split; [|split; [|right; by exists e, l1, l2; auto]].
      * change freed with ([] ++ freed). eapply keeps_trans; [|exact Hk3| |].
        -- eapply keeps_perm; [| |exact Hk2]; [by rewrite Hp2|done].
        -- intros x Hx _. rewrite Hp2 in Hx. by rewrite <- Permutation_middle.
        -- intros x Hx Hx'. rewrite Hp2 in Hx'. by rewrite <- Permutation_middle in Hx.
      * rewrite Hu, (rl_usage _ _ _ Hr2), (rc_usage _ _ _ Hr1). f_equal. apply total_same.
        intros x _. destruct (relinked_same _ _ _ x Hr2) as [-> _]. by apply (rechained_same _ _ _ x Hr1).
  - cbn [option_list app] in Hp. rewrite <- Hp in Ht1. exists s1, l, pinned, []. split; [done|]. split; [split|].
    + done.
    + done.
    + by eapply held_refs_rechained.
    + intros x Hx. eapply linked_rechained; [exact Hr1|]. by apply (li_linked _ _ _ _ _ HI).
    + split; [|split].
      * eapply keeps_rechained; [exact Hr1|]. intros x Hx. apply elem_of_app. by left.
      * cbn. by rewrite (rc_usage _ _ _ Hr1), Z.sub_0_r.
      * left. split; [|done]. intros x. rewrite Hp. apply Hno.
Qed.

End shard.

(** * Insertion into a cache shard, with eviction *)

Section shard.
Context {PL : Platform} {V : Type} (hf : Slice -> Z).
Implicit Types (s : Shard_ V) (e : nat) (l pinned live freed own : list nat).

Abbreviation lru_inv := (lru_inv hf).
Abbreviation held_refs := (held_refs hf).

(** The entries with other keys. *)
Definition without s (k : Slice) l : list nat := filter (fun x => key_of s x <> Some k) l.

Lemma without_none s k l : (forall x, x ∈ l -> key_of s x <> Some k) -> without s k l = l.
Proof. apply filter_keep. Qed.

Lemma without_found s k l1 o l2 :
  NoDup (key_of s <$> l1 ++ o :: l2) -> key_of s o = Some k -> without s k (l1 ++ o :: l2) = l1 ++ l2.
Proof.
  intros Hnd Ho. unfold without. rewrite filter_app, filter_cons_False by (rewrite Ho; auto).
  rewrite <- filter_app. apply without_none. intros x Hx Hk.
  rewrite <- Permutation_middle, fmap_cons, Ho, <- Hk in Hnd. apply NoDup_cons in Hnd as [Hno _].
  by apply Hno, list_elem_of_fmap_2.
Qed.

(** What is left when the oldest entries have gone, until the charges of those that
    are in memory are within the capacity. *)
Fixpoint evict (ch : nat -> Z) (capacity usage : Z) live l : list nat :=
  match l with
  | [] => []
  | e :: l' =>
      if capacity <? usage then evict ch capacity (usage - if decide (e ∈ live) then 0 else ch e) live l'
      else l
  end.

Lemma evict_ext ch ch' cap u live l : (forall e, e ∈ l -> ch e = ch' e) -> evict ch cap u live l = evict ch' cap u live l.
Proof.
  revert u. induction l as [|e l IH]; intros u H; [done|]. cbn. rewrite (H e) by (by left).
  destruct (cap <? u); [|done]. apply IH. intros x Hx. apply H. by right.
Qed.

Lemma evict_sublist ch cap u live l : exists gone, l = gone ++ evict ch cap u live l.
Proof.
  revert u. induction l as [|e l IH]; intros u; [by exists []|]. cbn. destruct (cap <? u); [|by exists []].
  destruct (IH (u - if decide (e ∈ live) then 0 else ch e)) as (gone & E). exists (e :: gone). by rewrite E at 1.
Qed.

(** ** Eviction *)

Lemma evict_one s e l pinned live :
  lru_inv s (e :: l) pinned live -> Z.of_nat (length live) + 2 < 2 ^ 32 -> Z.of_nat (length (e :: l)) < 2 ^ 32 ->
  capacity_ (sh_lru s) < usage_ (sh_lru s) ->
  exists s' pinned' freed, evict_round tt s = Ok (inl tt) s' /\ lru_inv s' l pinned' live /\
    keeps ((e :: l) ++ pinned) (l ++ pinned') freed s s' /\
    usage_ (sh_lru s') = usage_ (sh_lru s) - (if decide (e ∈ live) then 0 else charge_of s e).
Proof.
  intros HI Hroom Hlen Hfull. pose proof (li_refs _ _ _ _ _ HI) as Hh. pose proof (li_list _ _ _ _ _ HI) as Hlist.
  pose proof (hr_nodup _ _ _ _ _ Hh) as Hnd. cbn [app] in Hnd. apply NoDup_cons in Hnd as [Hne _]. rewrite elem_of_app in Hne.
  unfold evict_round. rewrite bind_gets, (proj2 (Z.ltb_lt _ _) Hfull).
  pose proof Hlist as (Hndl & [Hd ->] & _). cbn [first].
  destruct (LRU_Remove_ok s [] e l) as (s1 & E1 & Hl1 & Hr1); [done|]. cbn [app] in Hl1, Hr1.
  rewrite (bind_ok _ _ _ _ _ E1).
  assert (e ∈ (e :: l) ++ pinned) as Hown by (by left).
  destruct (lookup_own hf s _ _ _ e Hh Hown) as (h & E & _ & Hhash & _).
  assert (linked s e) as Hle by (by eapply li_all_linked).
  assert (linked s1 e) as Hle1 by (eapply linked_relinked; [exact Hr1|tauto|done]).
  assert (forall x, x ∈ e :: l -> table_member hf s1 x) as Hm.
  { intros x Hx. destruct (hr_cell _ _ _ _ _ Hh x) as (k & v & c & Ec & _); [rewrite elem_of_app; by left|].
    apply (linked_member hf s1 x k v c); [|by rewrite (proj1 (relinked_same _ _ _ x Hr1))].
    apply elem_of_cons in Hx as [->|Hx]; [done|by eapply linked_list]. }
  assert (sh_heap s1 !! e = Some h) as E' by (by rewrite (rl_frame _ _ _ Hr1) by tauto).
  rewrite (bind_ok _ _ _ _ _ (key_ok hf s1 e h E' (Hm e ltac:(by left)))), (bind_ok _ _ _ _ _ (load_ok s1 e h E')), Hhash.
  assert (forall x, cell s1 x = cell s x) as Hcell1 by (intros x; by apply (relinked_same _ _ _ x Hr1)).
  destruct (remove_found hf s1 e l (key_data h)) as (s2 & E2 & Ht2 & Hr2).
  - eapply in_table_relinked; [exact Hr1|apply (li_table _ _ _ _ _ HI)].
  - done.
  - rewrite (key_of_same s) by done. apply (hr_keys _ _ _ _ _ Hh).
  - done.
  - unfold key_of. by rewrite E'.
  - rewrite (bind_ok _ _ _ _ _ E2).
    destruct (detached hf s s2 l e pinned live l (e :: l) s1) as [HI2 Hk2]; try done.
    + apply (li_linked _ _ _ _ _ HI).
    + by left.
    + by eapply lru_list_rechained.
    + destruct (Unref_ok hf s2 l (e :: pinned) e live HI2 Hroom) as (s3 & pn & freed & E3 & HI3 & Hk3 & Hu & Hf).
      rewrite (bind_ok _ _ _ _ _ E3). exists s3, pn, freed. split; [done|]. split; [done|]. split.
      * change freed with ([] ++ freed). eapply keeps_trans; [exact Hk2|exact Hk3| |].
        -- intros x Hx _. cbn [app] in Hx. by rewrite <- Permutation_middle.
        -- intros x Hx Hx'. cbn [app] in Hx'. by rewrite <- Permutation_middle in Hx.
      * rewrite Hu, (rc_usage _ _ _ Hr2), (rl_usage _ _ _ Hr1), Hf. f_equal.
        assert (charge_of s2 e = charge_of s e) as Hc.
        { unfold charge_of. by rewrite (proj1 (rechained_same _ _ _ e Hr2)), Hcell1. }
        destruct (decide (e ∈ l ++ live)) as [Hi|Hi]; rewrite elem_of_app in Hi.
        -- rewrite decide_True by tauto. done.
        -- rewrite decide_False by tauto. cbn. lia.
Qed.

Lemma evict_ok l : forall s pinned live fuel,
  lru_inv s l pinned live -> Z.of_nat (length live) + 2 < 2 ^ 32 -> Z.of_nat (length l) < 2 ^ 32 ->
  (length l < fuel)%nat ->
  exists s' pinned' freed, loop fuel evict_round tt s = Ok tt s' /\
    let l' := evict (charge_of s) (capacity_ (sh_lru s)) (usage_ (sh_lru s)) live l in
    lru_inv s' l' pinned' live /\ keeps (l ++ pinned) (l' ++ pinned') freed s s' /\
    (usage_ (sh_lru s') <= capacity_ (sh_lru s) \/ l' = []).
Proof.
  induction l as [|e l IH]; intros s pinned live [|fuel] HI Hroom Hlen Hf; cbn [length] in Hf; try lia.
  - exists s, pinned, []. split; [|split; [done|split; [|by right]]].
    + rewrite loop_S. unfold evict_round. rewrite bind_assoc, bind_gets.
      destruct (li_list _ _ _ _ _ HI) as (_ & [_ ->] & _). cbn [first].
      by destruct (capacity_ (sh_lru s) <? usage_ (sh_lru s)).
    + apply keeps_refl. eapply own_in_heap, li_refs, HI.
  - cbn [evict]. destruct (Z.ltb_spec (capacity_ (sh_lru s)) (usage_ (sh_lru s))) as [Hfull|Hok].
    + destruct (evict_one s e l pinned live HI Hroom Hlen Hfull) as (s1 & p1 & f1 & E1 & HI1 & Hk1 & Hu1).
      destruct (IH s1 p1 live fuel HI1 Hroom ltac:(cbn [length] in Hlen; lia) ltac:(lia)) as (s2 & p2 & f2 & E2 & HI2 & Hk2 & Hu2).
      rewrite (kp_capacity _ _ _ _ _ Hk1), Hu1 in HI2, Hk2, Hu2.
      assert (forall cap u, evict (charge_of s1) cap u live l = evict (charge_of s) cap u live l) as Eev.
      { intros cap u. apply evict_ext. intros x Hx. unfold charge_of.
        rewrite (kp_cell _ _ _ _ _ Hk1 x); [done|rewrite elem_of_app; left; by right|rewrite elem_of_app; by left]. }
      rewrite Eev in HI2, Hk2, Hu2.
      exists s2, p2, (f1 ++ f2). split; [|split; [done|split; [|done]]].
      * by rewrite (loop_cont _ _ _ _ _ _ E1).
      * eapply keeps_trans; [exact Hk1|exact Hk2| |].
        -- intros x Hx Hx2. pose proof (li_refs _ _ _ _ _ HI) as Hh. rewrite elem_of_app in Hx2 |- *.
           destruct Hx2 as [Hx2|Hx2].
           ++ left. destruct (evict_sublist (charge_of s) (capacity_ (sh_lru s))
                (usage_ (sh_lru s) - (if decide (e ∈ live) then 0 else charge_of s e)) live l) as (gone & ->).
              apply elem_of_app. by right.
           ++ apply (hr_pinned _ _ _ _ _ (li_refs _ _ _ _ _ HI2)) in Hx2.
              apply (hr_live _ _ _ _ _ (li_refs _ _ _ _ _ HI1)) in Hx2. by apply elem_of_app.
        -- intros x Hx Hx'. exfalso. apply Hx'. rewrite elem_of_app in Hx |- *. destruct Hx as [Hx|Hx]; [left; by right|].
           apply (hr_pinned _ _ _ _ _ (li_refs _ _ _ _ _ HI1)) in Hx.
           apply (hr_live _ _ _ _ _ (li_refs _ _ _ _ _ HI)) in Hx. by apply elem_of_app.
    + exists s, pinned, []. split; [|split; [done|split; [|by left]]].
      * rewrite loop_S. unfold evict_round. rewrite bind_assoc, bind_gets. by rewrite (proj2 (Z.ltb_ge _ _) Hok).
      * apply keeps_refl. eapply own_in_heap, li_refs, HI.
Qed.

(** ** Insertion *)

(** A new entry, whose key is not in the cache. *)
Lemma held_refs_new s s' l pinned live e k v c :
  held_refs s l pinned live -> e ∉ l ++ pinned -> 1 <= c -> total s (l ++ pinned) + c < 2 ^ size_bits ->
  (forall x, x ∈ l ++ pinned -> cell s' x = cell s x /\ refs_of s' x = refs_of s x) ->
  cell s' e = Some (k, v, c, hf k) -> refs_of s' e = Some 2 -> usage_ (sh_lru s') = usage_ (sh_lru s) + c ->
  (forall x, x ∈ l -> key_of s x <> Some k) -> held_refs s' (l ++ [e]) pinned (e :: live).
Proof.
  intros Hh He Hc Hroom Hsame Hce Hre Hu Hk.
  assert (forall x, x ∈ l ++ pinned -> cell s' x = cell s x) as Hcell by (intros x Hx; by apply Hsame).
  assert (e ∉ live) as Hlive by (intros Hin; by apply (hr_live _ _ _ _ _ Hh) in Hin).
  assert ((l ++ [e]) ++ pinned ≡ₚ e :: l ++ pinned) as Hp.
  { rewrite <- app_assoc. cbn [app]. by rewrite <- Permutation_middle. }
  assert (total s' (e :: l ++ pinned) = c + total s (l ++ pinned)) as Ht.
  { cbn [total foldr]. fold (total s' (l ++ pinned)). rewrite (total_same s s') by done.
    unfold charge_of at 1. by rewrite Hce. }
  destruct Hh as [Hnd Hcl Hr Hli Hpi Hkeys Husage Hrm]. split.
  - rewrite Hp. by apply NoDup_cons.
  - intros x. rewrite Hp. intros [->|Hx]%elem_of_cons; [by exists k, v, c|]. rewrite Hcell by done. by apply Hcl.
  - intros x. rewrite Hp. intros [->|Hx]%elem_of_cons.
    + rewrite Hre. f_equal. rewrite counted_cons, decide_True by done. unfold counted.
      rewrite decide_True by (apply elem_of_app; right; by left).
      rewrite (proj1 (count_occ_not_In Nat.eq_dec live e)) by (by rewrite <- list_elem_of_In). done.
    + rewrite (proj2 (Hsame x Hx)), (Hr x Hx). f_equal. rewrite counted_cons, decide_False by (intros ->; done).
      rewrite Z.add_0_r. unfold counted. f_equal.
      destruct (decide (x ∈ l)) as [H1|H1], (decide (x ∈ l ++ [e])) as [H2|H2]; try done.
      * exfalso. apply H2, elem_of_app. by left.
      * apply elem_of_app in H2 as [?|H2%list_elem_of_singleton]; [done|]. by subst x.
  - intros x. rewrite Hp. intros [->|Hx]%elem_of_cons; [by left|right; by apply Hli].
  - intros x Hx. right. by apply Hpi.
  - rewrite fmap_app. apply NoDup_app. cbn [fmap list_fmap].
    rewrite (key_of_same s s') by (intros x Hx; apply Hcell, elem_of_app; by left).
    split; [done|]. split; [|apply NoDup_singleton].
    intros q (x & -> & Hx)%list_elem_of_fmap Hq%list_elem_of_singleton. apply (Hk x Hx). rewrite Hq, key_of_cell, Hce. done.
  - rewrite Hu, (total_perm _ _ _ Hp), Ht, Husage. lia.
  - rewrite (total_perm _ _ _ Hp), Ht. lia.
Qed.

(** A new entry is at the end of the list, but not in the table. *)
Record appended s s' l pinned e k v c : Prop := mk_appended {
  ap_new : e ∉ l ++ pinned;
  ap_free : sh_heap s !! e = None;
  ap_list : lru_list s' (l ++ [e]);
  ap_table : in_table s' l;
  ap_linked x : x ∈ pinned -> linked s' x;
  ap_same x : x <> e -> cell s' x = cell s x /\ refs_of s' x = refs_of s x;
  ap_frame x : x ∉ l ++ [e] -> sh_heap s' !! x = sh_heap s !! x;
  ap_cell : cell s' e = Some (k, v, c, hf k);
  ap_refs : refs_of s' e = Some 2;
  ap_usage : usage_ (sh_lru s') = usage_ (sh_lru s) + c;
  ap_capacity : capacity_ (sh_lru s') = capacity_ (sh_lru s);
  ap_deleted : sh_deleted s' = sh_deleted s
}.

Lemma append_new s l pinned live k v c :
  lru_inv s l pinned live -> 1 <= c -> total s (l ++ pinned) + c < 2 ^ size_bits ->
  exists e s', appended s s' l pinned e k v c /\
    bind (new_handle k (hf k) v c) (fun e => LRU_Append e ;;;
      (let! u := gets (fun s => usage_ (sh_lru s)) in modify (set_usage (usize (u + c)))) ;;; ret e) s = Ok e s'.
Proof.
  intros [Hlist Htab Hh Hlink] Hc Hroom. set (e := fresh (dom (sh_heap s))).
  assert (sh_heap s !! e = None) as Hnone by (apply not_elem_of_dom, is_fresh).
  assert (e ∉ l ++ pinned) as He.
  { intros Hin. destruct (own_in_heap hf s l pinned live Hh e Hin) as [h E]. congruence. }
  set (h0 := mk_handle v None None None c k 2 (hf k)). set (s1 := set_heap (insert e h0) s).
  assert (sh_heap s1 !! e = Some h0) as E0 by apply lookup_insert_eq.
  assert (forall x, x <> e -> sh_heap s1 !! x = sh_heap s !! x) as Hfr by (intros x Hx; by apply lookup_insert_ne).
  assert (forall x, x ∈ l ++ pinned -> x <> e) as Hne by (by intros x Hx ->).
  destruct (LRU_Append_ok s1 l e h0) as (s2 & E2 & Hl2 & Hr2).
  { apply (lru_list_ext s); [|done|done|exact Hlist]. intros x Hx. apply Hfr, Hne, elem_of_app. by left. }
  { intros Hin. apply He, elem_of_app. by left. }
  { done. }
  pose proof (hr_total _ _ _ _ _ Hh). pose proof (hr_usage _ _ _ _ _ Hh) as Hu.
  exists e, (set_usage (usize (usage_ (sh_lru s2) + c)) s2). split.
  2:{ unfold new_handle. rewrite bind_assoc, bind_gets, bind_assoc, bind_modify. fold e. fold h0. fold s1. rewrite bind_ret.
      by rewrite (bind_ok _ _ _ _ _ E2), bind_assoc, bind_gets, bind_modify. }
  assert (forall x, sh_heap (set_usage (usize (usage_ (sh_lru s2) + c)) s2) !! x = sh_heap s2 !! x) as Hs2 by done.
  assert (forall x, x ∈ pinned -> x ∉ l ++ [e]) as Hdis.
  { intros x Hx Hx'. pose proof (hr_nodup _ _ _ _ _ Hh) as Hnd. apply NoDup_app in Hnd as (_ & Hd & _).
    apply elem_of_app in Hx' as [Hx'|Hx'%list_elem_of_singleton]; [by apply (Hd x)|]. subst x. apply He, elem_of_app. by right. }
  split.
  - done.
  - done.
  - by eapply lru_list_ext.
  - apply (in_table_same s2); [done|done|]. eapply in_table_relinked; [exact Hr2|].
    apply (in_table_same s); [|done|exact Htab]. intros x Hx. by rewrite Hfr by (apply Hne, elem_of_app; by left).
  - intros x Hx. destruct (Hlink x Hx) as (h & n & E & En & Hn). exists h, n. rewrite Hs2.
    rewrite (rl_frame _ _ _ Hr2) by (by apply Hdis). rewrite Hfr; [done|]. apply Hne, elem_of_app. by right.
  - intros x Hx. unfold cell, refs_of. rewrite !Hs2. fold (cell s2 x) (refs_of s2 x).
    destruct (relinked_same _ _ _ x Hr2) as [-> ->]. unfold cell, refs_of. by rewrite Hfr.
  - intros x Hx. rewrite Hs2, (rl_frame _ _ _ Hr2) by done. apply Hfr. intros ->. apply Hx, elem_of_app. right. by left.
  - unfold cell. rewrite Hs2. fold (cell s2 e). rewrite (proj1 (relinked_same _ _ _ e Hr2)). unfold cell. by rewrite E0.
  - unfold refs_of. rewrite Hs2. fold (refs_of s2 e). rewrite (proj2 (relinked_same _ _ _ e Hr2)). unfold refs_of. by rewrite E0.
  - cbn. rewrite (rl_usage _ _ _ Hr2). change (sh_lru s1) with (sh_lru s). rewrite usize_small by lia. done.
  - apply (rl_capacity _ _ _ Hr2).
  - apply (rl_deleted _ _ _ Hr2).
Qed.

(** Putting it into the table, with the entry that it replaces. *)
Definition insert_table e : M (Shard_ V) unit :=
  let! old := table_Insert e in
  match old with
  | None => ret tt
  | Some old => LRU_Remove old ;;; Unref old
  end.

Definition replaced s k live l : list nat := filter (fun x => key_of s x = Some k /\ x ∉ live) l.

Lemma replaced_none s k live l : (forall x, x ∈ l -> key_of s x <> Some k) -> replaced s k live l = [].
Proof. intros H. apply filter_drop. intros x Hx [Hk _]. by apply (H x). Qed.

Lemma replaced_found s k live l1 o l2 :
  NoDup (key_of s <$> l1 ++ o :: l2) -> key_of s o = Some k ->
  replaced s k live (l1 ++ o :: l2) = if decide (o ∈ live) then [] else [o].
Proof.
  intros Hnd Ho.
  assert (forall x, x ∈ l1 ++ l2 -> key_of s x <> Some k) as Hno.
  { intros x Hx Hk. rewrite <- Permutation_middle, fmap_cons, Ho, <- Hk in Hnd. apply NoDup_cons in Hnd as [Hno _].
    by apply Hno, list_elem_of_fmap_2. }
  assert (forall l, (forall x, x ∈ l -> x ∈ l1 ++ l2) -> replaced s k live l = []) as Hnil.
  { intros l Hl. apply replaced_none. intros x Hx. by apply Hno, Hl. }
  unfold replaced. rewrite filter_app, filter_cons. fold (replaced s k live l1) (replaced s k live l2).
  rewrite (Hnil l1), (Hnil l2); [|intros x Hx; apply elem_of_app; by right|intros x Hx; apply elem_of_app; by left].
  destruct (decide (o ∈ live)), (decide (key_of s o = Some k /\ o ∉ live)); try done; tauto.
Qed.

(** The memory of the new entry was free. *)
Lemma keeps_new s s' own e :
  sh_heap s !! e = None -> (forall x, x ∈ own -> cell s' x = cell s x) ->
  (forall x, x ∉ e :: own -> sh_heap s' !! x = sh_heap s !! x) ->
  sh_deleted s' = sh_deleted s -> capacity_ (sh_lru s') = capacity_ (sh_lru s) -> keeps own (e :: own) [] s s'.
Proof.
  intros He Hc Hf Hd Hcap. split.
  - intros x Hx _. by apply Hc.
  - intros x Hx. rewrite decide_False by (intros Hin; apply Hx; by right). by apply Hf.
  - intros x. rewrite elem_of_nil, elem_of_cons. tauto.
  - constructor.
  - cbn. by rewrite app_nil_r.
  - done.
Qed.

Section inserted.
Context (s s2 : Shard_ V) (l pinned live : list nat) (e : nat) (k : Slice) (v : V) (c : Z).
Context (HI : lru_inv s l pinned live) (HA : appended s s2 l pinned e k v c).
Context (Hc : 1 <= c) (Hroom : total s (l ++ pinned) + c < 2 ^ size_bits) (Hlen : Z.of_nat (length l) < 2 ^ 31).
Context (Hlive : Z.of_nat (length live) + 3 < 2 ^ 32).

Lemma new_member : table_member hf s2 e.
Proof.
  apply (linked_member hf s2 e k v c); [|apply (ap_cell _ _ _ _ _ _ _ _ HA)].
  eapply linked_list; [apply (ap_list _ _ _ _ _ _ _ _ HA)|]. apply elem_of_app. right. by left.
Qed.

Lemma old_not_new x : x ∈ l ++ pinned -> x <> e.
Proof. intros Hx ->. by apply (ap_new _ _ _ _ _ _ _ _ HA). Qed.

Lemma old_cell x : x ∈ l ++ pinned -> cell s2 x = cell s x /\ refs_of s2 x = refs_of s x.
Proof. intros Hx. by apply (ap_same _ _ _ _ _ _ _ _ HA), old_not_new. Qed.

(** The table's insertion, in terms of the state before the call. *)
Lemma new_in_table : exists s4 old rest, table_Insert e s2 = Ok old s4 /\ in_table s4 (e :: rest) /\
  rechained (e :: l) s2 s4 /\ l ≡ₚ option_list old ++ rest /\ (forall o, old = Some o -> key_of s o = Some k) /\
  (forall x, x ∈ rest -> key_of s x <> Some k).
Proof.
  destruct (ap_table _ _ _ _ _ _ _ _ HA) as (B & HT & HB).
  assert (forall x, x ∈ l -> x ∈ l ++ pinned) as Hsub by (intros x Hx; apply elem_of_app; by left).
  assert (forall x, x ∈ l -> key_of s2 x = key_of s x) as Hkey.
  { intros x Hx. rewrite !key_of_cell. by rewrite (proj1 (old_cell x (Hsub x Hx))). }
  assert (forall x, x ∈ l -> table_member hf s2 x) as Hm.
  { intros x Hx. destruct (hr_cell _ _ _ _ _ (li_refs _ _ _ _ _ HI) x (Hsub x Hx)) as (k' & v' & c' & Ec & _).
    apply (linked_member hf s2 x k' v' c'); [|by rewrite (proj1 (old_cell x (Hsub x Hx)))].
    eapply linked_list; [apply (ap_list _ _ _ _ _ _ _ _ HA)|]. apply elem_of_app. by left. }
  pose proof (ap_cell _ _ _ _ _ _ _ _ HA) as Hce. unfold cell in Hce.
  destruct (sh_heap s2 !! e) as [h|] eqn:E; [|done]. cbn in Hce. injection Hce as Hk _ _ _.
  destruct (table_Insert_ok hf s2 B e h HT) as (s4 & old & B' & rest & E4 & HT4 & Hr4 & Hp & HB' & Ho & Hno).
  - apply Forall_forall. intros x. rewrite HB. apply Hm.
  - apply new_member.
  - done.
  - rewrite HB. intros He. by apply (old_not_new e (Hsub e He)).
  - rewrite HB, (list_fmap_ext (key_of s2) (key_of s) l); [|intros i x Hx; apply Hkey; by eapply list_elem_of_lookup_2].
    apply (hr_keys _ _ _ _ _ (li_refs _ _ _ _ _ HI)).
  - by rewrite (length_table s2 l B HB).
  - assert (l ≡ₚ option_list old ++ rest) as Hp' by (by rewrite <- HB).
    exists s4, old, rest. split; [done|]. split; [by exists B'|]. split; [|split; [done|]].
    { eapply rechained_mono; [|exact Hr4]. intros x. by rewrite HB. }
    rewrite Hk in Ho, Hno. split.
    + intros o Eo. rewrite <- Hkey; [by apply Ho|]. rewrite Hp', Eo. by left.
    + intros x Hx. rewrite <- Hkey; [by apply Hno|]. rewrite Hp', elem_of_app. by right.
Qed.

(** No entry had the key. *)
Lemma insert_fresh s4 : table_Insert e s2 = Ok None s4 -> in_table s4 (e :: l) -> rechained (e :: l) s2 s4 ->
  (forall x, x ∈ l -> key_of s x <> Some k) ->
  insert_table e s2 = Ok tt s4 /\ lru_inv s4 (l ++ [e]) pinned (e :: live) /\
  keeps (l ++ pinned) ((l ++ [e]) ++ pinned) [] s s4 /\ usage_ (sh_lru s4) = usage_ (sh_lru s) + c /\
  cell s4 e = Some (k, v, c, hf k).
Proof.
  intros E4 Ht4 Hr4 Hno. assert (forall x, cell s4 x = cell s2 x /\ refs_of s4 x = refs_of s2 x) as Hs4.
  { intros x. by apply (rechained_same _ _ _ x Hr4). }
  destruct HA as [Hnew Hfree Hlist Htab Hlink Hsame Hframe Hcell Hrefs Husage Hcap Hdel].
  assert (usage_ (sh_lru s4) = usage_ (sh_lru s) + c) as Hu by (by rewrite (rc_usage _ _ _ Hr4)).
  split; [unfold insert_table; by rewrite (bind_ok _ _ _ _ _ E4)|]. split; [split|split; [|split; [done|]]].
  - by eapply lru_list_rechained.
  - by rewrite <- Permutation_cons_append.
  - apply (held_refs_new s s4 l pinned live e k v c); try done; [apply (li_refs _ _ _ _ _ HI)| | |].
    + intros x Hx. destruct (Hs4 x) as [-> ->]. by apply old_cell.
    + by rewrite (proj1 (Hs4 e)).
    + by rewrite (proj2 (Hs4 e)).
  - intros x Hx. eapply linked_rechained; [exact Hr4|by apply Hlink].
  - apply (keeps_perm (l ++ pinned) (e :: l ++ pinned)); [done|rewrite <- app_assoc; cbn; apply Permutation_middle|].
    apply keeps_new; [done| | | |].
    + intros x Hx. rewrite (proj1 (Hs4 x)). by apply old_cell.
    + intros x Hx. rewrite elem_of_cons, elem_of_app in Hx.
      rewrite (rc_frame _ _ _ Hr4) by (rewrite elem_of_cons; tauto). apply Hframe.
      rewrite elem_of_app, list_elem_of_singleton. tauto.
    + by rewrite (rc_deleted _ _ _ Hr4).
    + by rewrite (rc_capacity _ _ _ Hr4).
  - by rewrite (proj1 (Hs4 e)).
Qed.

(** An entry had the key: it leaves. *)
Lemma insert_replaces s4 l1 o l2 : l = l1 ++ o :: l2 -> key_of s o = Some k ->
  table_Insert e s2 = Ok (Some o) s4 -> in_table s4 (e :: l1 ++ l2) -> rechained (e :: l) s2 s4 ->
  (forall x, x ∈ l1 ++ l2 -> key_of s x <> Some k) ->
  exists s6 pinned' freed, insert_table e s2 = Ok tt s6 /\ lru_inv s6 ((l1 ++ l2) ++ [e]) pinned' (e :: live) /\
    keeps (l ++ pinned) (((l1 ++ l2) ++ [e]) ++ pinned') freed s s6 /\
    usage_ (sh_lru s6) = usage_ (sh_lru s) + c - total s freed /\ cell s6 e = Some (k, v, c, hf k) /\
    freed = if decide (o ∈ live) then [] else [o].
Proof.
  intros El Ho E4 Ht4 Hr4 Hno. pose proof old_not_new as Hnn. pose proof old_cell as Hoc. subst l.
  assert (forall x, cell s4 x = cell s2 x /\ refs_of s4 x = refs_of s2 x) as Hs4.
  { intros x. by apply (rechained_same _ _ _ x Hr4). }
  destruct HA as [Hnew Hfree Hlist Htab Hlink Hsame Hframe Hcell Hrefs Husage Hcap Hdel].
  assert (l1 ++ o :: l2 ≡ₚ o :: l1 ++ l2) as Hperm by (by rewrite <- Permutation_middle).
  pose proof (lru_list_rechained _ _ _ _ Hr4 Hlist) as Hl4. rewrite <- app_assoc in Hl4. cbn [app] in Hl4.
  destruct (LRU_Remove_ok s4 l1 o (l2 ++ [e]) Hl4) as (s5 & E5 & Hl5 & Hr5). rewrite app_assoc in Hl5, Hr5.
  assert (forall x, cell s5 x = cell s2 x /\ refs_of s5 x = refs_of s2 x) as Hs5.
  { intros x. destruct (relinked_same _ _ _ x Hr5) as [-> ->]. apply Hs4. }
  pose proof (li_refs _ _ _ _ _ HI) as Hh. pose proof (hr_nodup _ _ _ _ _ Hh) as Hnd.
  rewrite Hperm in Hnd. cbn [app] in Hnd. apply NoDup_cons in Hnd as [Hone Hnd].
  assert ((l1 ++ l2) ++ o :: pinned ≡ₚ (l1 ++ o :: l2) ++ pinned) as Hown by (by rewrite Hperm, <- Permutation_middle).
  assert (o ∈ (l1 ++ o :: l2) ++ pinned) as Hoin by (rewrite !elem_of_app, elem_of_cons; tauto).
  assert (forall x, x ∈ o :: pinned -> x ∉ (l1 ++ l2) ++ [e]) as Hdis.
  { intros x Hx Hx'. apply elem_of_app in Hx' as [Hx'|Hx'%list_elem_of_singleton].
    - apply elem_of_cons in Hx as [->|Hx]; [apply Hone, elem_of_app; by left|].
      apply NoDup_app in Hnd as (_ & Hd & _). by apply (Hd x).
    - subst x. apply Hnew. rewrite <- Hown. apply elem_of_app. by right. }
  assert (usage_ (sh_lru s5) = usage_ (sh_lru s) + c) as Hu5 by (by rewrite (rl_usage _ _ _ Hr5), (rc_usage _ _ _ Hr4)).
  assert (lru_inv s5 ((l1 ++ l2) ++ [e]) (o :: pinned) (o :: e :: live)) as HI5.
  { apply (lru_inv_live hf _ _ _ (e :: o :: live)); [apply perm_swap|]. split.
    - done.
    - eapply in_table_relinked; [exact Hr5|]. by rewrite <- Permutation_cons_append.
    - apply (held_refs_new s s5 (l1 ++ l2) (o :: pinned) (o :: live) e k v c); try done.
      + apply held_refs_leave. by eapply held_refs_perm.
      + by rewrite Hown.
      + by rewrite (total_perm s _ _ Hown).
      + intros x Hx. rewrite Hown in Hx. destruct (Hs5 x) as [-> ->]. by apply Hoc.
      + by rewrite (proj1 (Hs5 e)).
      + by rewrite (proj2 (Hs5 e)).
    - intros x Hx. eapply linked_relinked; [exact Hr5|by apply Hdis|]. eapply linked_rechained; [exact Hr4|].
      apply elem_of_cons in Hx as [->|Hx]; [|by apply Hlink]. eapply linked_list; [exact Hlist|].
      rewrite !elem_of_app, elem_of_cons. tauto. }
  destruct (Unref_ok hf s5 _ (o :: pinned) o (e :: live) HI5) as (s6 & pn & freed & E6 & HI6 & Hk6 & Hu6 & Hf6).
  { cbn [length]. lia. }
  exists s6, pn, freed. split.
  { unfold insert_table. by rewrite (bind_ok _ _ _ _ _ E4), (bind_ok _ _ _ _ _ E5). }
  assert (keeps ((l1 ++ o :: l2) ++ pinned) (((l1 ++ l2) ++ [e]) ++ o :: pinned) [] s s5) as Hk5.
  { apply (keeps_perm ((l1 ++ o :: l2) ++ pinned) (e :: (l1 ++ o :: l2) ++ pinned)); [done| |].
    - rewrite <- Hown, <- (app_assoc (l1 ++ l2) [e]). apply Permutation_middle.
    - apply keeps_new; [done| | | |].
      + intros x Hx. rewrite (proj1 (Hs5 x)). by apply Hoc.
      + intros x Hx. rewrite elem_of_cons, elem_of_app, Hperm, elem_of_cons in Hx.
        rewrite (rl_frame _ _ _ Hr5) by (rewrite elem_of_app, list_elem_of_singleton; tauto).
        rewrite (rc_frame _ _ _ Hr4) by (rewrite Hperm, !elem_of_cons; tauto). apply Hframe.
        rewrite Hperm, elem_of_app, elem_of_cons, list_elem_of_singleton. tauto.
      + by rewrite (rl_deleted _ _ _ Hr5), (rc_deleted _ _ _ Hr4).
      + by rewrite (rl_capacity _ _ _ Hr5), (rc_capacity _ _ _ Hr4). }
  assert (e ∈ ((l1 ++ l2) ++ [e]) ++ pn) as Hein by (rewrite !elem_of_app, list_elem_of_singleton; tauto).
  split; [done|]. split; [|split; [|split]].
  - change freed with ([] ++ freed). eapply keeps_trans; [exact Hk5|exact Hk6| |].
    + intros x Hx _. rewrite <- Hown in Hx. rewrite !elem_of_app in *. tauto.
    + intros x Hx Hx'. rewrite <- Hown in Hx'. rewrite !elem_of_app, list_elem_of_singleton in *.
      destruct Hx as [[?|?]|?]; [tauto|subst x; tauto|tauto].
  - rewrite Hu6, Hu5. f_equal. apply total_same. intros x Hx. rewrite (proj1 (Hs5 x)). apply Hoc.
    rewrite Hf6 in Hx. destruct (decide _); [by apply not_elem_of_nil in Hx|]. by apply list_elem_of_singleton in Hx as ->.
  - rewrite (kp_cell _ _ _ _ _ Hk6 e); [by rewrite (proj1 (Hs5 e))|rewrite !elem_of_app, list_elem_of_singleton; tauto|done].
  - rewrite Hf6. pose proof (Hdis o ltac:(by left)) as Hol.
    destruct (decide (o ∈ ((l1 ++ l2) ++ [e]) ++ e :: live)) as [Hin|Hin], (decide (o ∈ live)) as [Hv|Hv]; try done.
    + exfalso. rewrite elem_of_app, elem_of_cons in Hin. destruct Hin as [?|[?|?]]; [done| |done].
      by apply (Hnn o).
    + exfalso. apply Hin. rewrite elem_of_app, elem_of_cons. tauto.
Qed.

End inserted.
(** ** The operations at rest *)

(** The charges are within the capacity, if anything is in the cache. *)
Definition settled s l : Prop := usage_ (sh_lru s) <= capacity_ (sh_lru s) \/ l = [].

Lemma total_length s l pinned live : held_refs s l pinned live -> Z.of_nat (length l) <= total s (l ++ pinned).
Proof.
  intros Hh.
  assert (forall r, (forall x, x ∈ r -> 1 <= charge_of s x) -> Z.of_nat (length r) <= total s r) as H.
  { induction r as [|x r IH]; intros Hr; [done|]. pose proof (Hr x ltac:(by left)).
    assert (Z.of_nat (length r) <= total s r) by (apply IH; intros y Hy; apply Hr; by right).
    unfold total in *. cbn [foldr length]. lia. }
  assert (Z.of_nat (length (l ++ pinned)) <= total s (l ++ pinned)); [|rewrite length_app in *; lia].
  apply H. intros x Hx. by eapply hr_charge.
Qed.

Lemma settled_length s l pinned live : held_refs s l pinned live -> settled s l -> 0 <= capacity_ (sh_lru s) ->
  Z.of_nat (length l) <= capacity_ (sh_lru s).
Proof.
  intros Hh [Hs| ->] Hc; [|done]. pose proof (total_length s l pinned live Hh). rewrite <- (hr_usage _ _ _ _ _ Hh) in H. lia.
Qed.

Lemma insert_entry_ok s l pinned live k v c :
  lru_inv s l pinned live -> settled s l -> 1 <= c -> total s (l ++ pinned) + c < 2 ^ size_bits ->
  0 <= capacity_ (sh_lru s) < 2 ^ 31 -> Z.of_nat (length live) + 3 < 2 ^ 32 ->
  exists e s' l' pinned' freed, Insert k (hf k) v c s = Ok e s' /\ sh_heap s !! e = None /\
    l' = evict (fun x => if decide (x = e) then c else charge_of s x) (capacity_ (sh_lru s))
           (usage_ (sh_lru s) + c - total s (replaced s k live l)) (e :: live) (without s k l ++ [e]) /\
    lru_inv s' l' pinned' (e :: live) /\ settled s' l' /\
    keeps (l ++ pinned) (l' ++ pinned') freed s s' /\ cell s' e = Some (k, v, c, hf k).
Proof.
  intros HI Hset Hc Hroom Hcap Hlive. pose proof (li_refs _ _ _ _ _ HI) as Hh.
  pose proof (settled_length s l pinned live Hh Hset ltac:(lia)) as Hlen.
  destruct (append_new s l pinned live k v c HI Hc Hroom) as (e & s2 & HA & E2).
  destruct (new_in_table s s2 l pinned live e k v c HI HA ltac:(lia)) as (s4 & old & rest & E4 & Ht4 & Hr4 & Hp & Ho & Hno).
  assert (exists s6 pinned' freed, insert_table e s2 = Ok tt s6 /\ lru_inv s6 (without s k l ++ [e]) pinned' (e :: live) /\
    keeps (l ++ pinned) ((without s k l ++ [e]) ++ pinned') freed s s6 /\
    usage_ (sh_lru s6) = usage_ (sh_lru s) + c - total s (replaced s k live l) /\ cell s6 e = Some (k, v, c, hf k))
    as (s6 & p6 & f6 & E6 & HI6 & Hk6 & Hu6 & Hc6).
  { destruct old as [o|]; cbn [option_list app] in Hp.
    - specialize (Ho o eq_refl). assert (o ∈ l) as Hol by (rewrite Hp; by left).
      apply list_elem_of_split in Hol as (l1 & l2 & El). rewrite El, <- Permutation_middle in Hp.
      apply Permutation_cons_inv in Hp. pose proof (hr_keys _ _ _ _ _ Hh) as Hkeys. rewrite El in Hkeys.
      destruct (insert_replaces s s2 l pinned live e k v c HI HA Hc Hroom ltac:(lia) Hlive s4 l1 o l2 El Ho E4)
        as (s6 & p6 & f6 & E6 & HI6 & Hk6 & Hu6 & Hc6 & ->); [by rewrite Hp|done|intros x; rewrite Hp; apply Hno|].
      exists s6, p6, (if decide (o ∈ live) then [] else [o]).
      rewrite El, (without_found s k l1 o l2 Hkeys Ho), (replaced_found s k live l1 o l2 Hkeys Ho), <- El. done.
    - assert (forall x, x ∈ l -> key_of s x <> Some k) as Hno' by (intros x; rewrite Hp; apply Hno).
      rewrite (without_none s k l Hno'), (replaced_none s k live l Hno').
      destruct (insert_fresh s s2 l pinned live e k v c HI HA Hc Hroom s4 E4) as (E6 & HI6 & Hk6 & Hu6 & Hc6);
        [by rewrite Hp|done|done|].
      exists s4, pinned, []. cbn [total foldr]. by rewrite Z.sub_0_r. }
  assert (Z.of_nat (length (without s k l ++ [e])) < 2 ^ 32) as Hlen6.
  { rewrite length_app. cbn [length]. assert (length (without s k l) <= length l)%nat by apply length_filter. lia. }
  destruct (evict_ok (without s k l ++ [e]) s6 p6 (e :: live) (chain_fuel s6) HI6) as (s7 & p7 & f7 & E7 & HI7 & Hk7 & Hset7).
  { cbn [length]. lia. }
  { done. }
  { unfold chain_fuel. apply Nat.lt_succ_r, size_at_least.
    - pose proof (hr_nodup _ _ _ _ _ (li_refs _ _ _ _ _ HI6)) as Hnd. by apply NoDup_app in Hnd as (? & _).
    - intros x Hx. eapply own_in_heap; [apply (li_refs _ _ _ _ _ HI6)|]. apply elem_of_app. by left. }
  rewrite (kp_capacity _ _ _ _ _ Hk6), Hu6 in HI7, Hk7, Hset7.
  set (ch := fun x => if decide (x = e) then c else charge_of s x).
  pose proof (old_not_new s s2 l pinned e k v c HA) as Hnn.
  assert (forall x, x ∈ without s k l ++ [e] -> charge_of s6 x = ch x) as Hch.
  { intros x Hx. unfold ch. destruct (decide (x = e)) as [->|Hne]; [unfold charge_of; by rewrite Hc6|].
    apply elem_of_app in Hx as [Hx|Hx%list_elem_of_singleton]; [|done].
    unfold charge_of. rewrite (kp_cell _ _ _ _ _ Hk6 x); [done| |].
    - apply elem_of_app. left. by apply list_elem_of_filter in Hx as [_ Hx].
    - rewrite !elem_of_app. tauto. }
  rewrite (evict_ext _ ch _ _ _ _ Hch) in HI7, Hk7, Hset7. set (l' := evict ch _ _ _ _) in *.
  exists e, s7, l', p7, (f6 ++ f7). split; [|split; [apply (ap_free _ _ _ _ _ _ _ _ HA)|split; [done|split; [done|split; [|split]]]]].
  - unfold Insert. unfold insert_table in E6.
    assert (forall A (m : nat -> M (Shard_ V) A), bind (new_handle k (hf k) v c) (fun e => LRU_Append e ;;;
      let! u := gets (fun s => usage_ (sh_lru s)) in modify (set_usage (usize (u + c))) ;;; m e) s = m e s2) as Hm.
    { intros A m. revert E2. unfold bind, gets, modify, ret. destruct (new_handle k (hf k) v c s) as [e1 s1'| | |]; try done.
      destruct (LRU_Append e1 s1') as [[] s1''| | |]; try done. by intros [= <- <-]. }
    rewrite Hm.
    revert E6. unfold bind. destruct (table_Insert e s2) as [r sx| | |]; try done. intros ->.
    unfold gets. by rewrite E7.
  - unfold settled. rewrite (kp_capacity _ _ _ _ _ Hk7), (kp_capacity _ _ _ _ _ Hk6). done.
  - assert (e ∈ l' ++ p7) as He7 by (apply (hr_live _ _ _ _ _ (li_refs _ _ _ _ _ HI7)); by left).
    eapply keeps_trans; [exact Hk6|exact Hk7| |].
    + intros x Hx Hx7. destruct (decide (x ∈ (without s k l ++ [e]) ++ p6)) as [|Hno6]; [done|exfalso].
      pose proof (kp_frame _ _ _ _ _ Hk6 x Hno6) as Hx6. rewrite decide_True in Hx6 by done.
      destruct (own_in_heap hf s7 _ _ _ (li_refs _ _ _ _ _ HI7) x Hx7) as [h Eh].
      apply elem_of_app in Hx7 as [Hx7|Hx7].
      * destruct (evict_sublist ch (capacity_ (sh_lru s)) (usage_ (sh_lru s) + c - total s (replaced s k live l)) (e :: live) (without s k l ++ [e])) as (gone & Eg).
        apply Hno6, elem_of_app. left. rewrite Eg. apply elem_of_app. by right.
      * apply (hr_pinned _ _ _ _ _ (li_refs _ _ _ _ _ HI7)) in Hx7.
        by apply (hr_live _ _ _ _ _ (li_refs _ _ _ _ _ HI6)) in Hx7.
    + intros x Hx6 Hx. destruct (decide (x = e)) as [->|Hne]; [done|exfalso].
      rewrite !elem_of_app, list_elem_of_singleton in Hx6. destruct Hx6 as [[Hx6|Hx6]|Hx6]; [|done|].
      * apply Hx, elem_of_app. left. by apply list_elem_of_filter in Hx6 as [_ ?].
      * apply (hr_pinned _ _ _ _ _ (li_refs _ _ _ _ _ HI6)) in Hx6. apply elem_of_cons in Hx6 as [?|Hx6]; [done|].
        by apply Hx, (hr_live _ _ _ _ _ Hh).
  - rewrite (kp_cell _ _ _ _ _ Hk7 e); [done| |].
    + apply (hr_live _ _ _ _ _ (li_refs _ _ _ _ _ HI6)). by left.
    + apply (hr_live _ _ _ _ _ (li_refs _ _ _ _ _ HI7)). by left.
Qed.

End shard.
