(* ===== verification/LRUTheorems.v ===== *)
(** * The sharded cache, and the properties of the cache

    Every entry belongs to the shard that its hash selects; an operation changes
    one shard and leaves the others alone.  A shard refines a list of entries, and
    the whole implements the interface. *)

From Stdlib Require Import ZArith Lia.
From stdpp Require Import base option list strings gmap.
From S2P Require Import Prelude Memory Slice Coding Bloom LRU LRUList LRUProof LRUShard.

(** ** The hash of keys *)

Lemma hash_words_range data : forall h, 0 <= h < 2 ^ 32 -> exists h' rest, hash_words h data = Some (h', rest) /\ 0 <= h' < 2 ^ 32.
Proof.
  assert (forall n data, (length data <= n)%nat -> forall h, 0 <= h < 2 ^ 32 ->
    exists h' rest, hash_words h data = Some (h', rest) /\ 0 <= h' < 2 ^ 32) as H; [|by apply (H (length data))].
  induction n as [|n IH]; intros d Hl h Hh.
  - destruct d; [by exists h, []|cbn [length] in Hl; lia].
  - destruct d as [|a [|b [|c [|d rest]]]]; try (by eexists h, _).
    cbn [hash_words]. destruct (DecodeFixed32 (a :: b :: c :: d :: rest)) as [w|] eqn:E; [|done]. cbn [mbind option_bind].
    apply IH; [cbn [length] in *; lia|].
    pose proof (uwrap_range 32 (u32 (h + w) * hash_m) ltac:(lia)) as Hr. set (x := u32 (u32 (h + w) * hash_m)) in *.
    assert (Z.lxor x (Z.shiftr x 16) = u32 (Z.lxor x (Z.shiftr x 16))) as ->; [|apply uwrap_range; lia].
    apply Z.bits_inj'. intros i Hi. unfold uwrap. destruct (Z.lt_ge_cases i 32).
    + by rewrite Z.mod_pow2_bits_low by lia.
    + rewrite Z.mod_pow2_bits_high by lia. rewrite Z.lxor_spec, Z.shiftr_spec by lia.
      rewrite <- (Z.mod_small x (2 ^ 32)) by lia. by rewrite !Z.mod_pow2_bits_high by lia.
Qed.

Lemma hash_last_range h d : 0 <= hash_last h d < 2 ^ 32.
Proof.
  unfold hash_last. set (x := u32 (u32 (h + d) * hash_m)).
  pose proof (uwrap_range 32 (u32 (h + d) * hash_m) ltac:(lia)) as Hr. fold x in Hr.
  assert (Z.lxor x (Z.shiftr x hash_r) = u32 (Z.lxor x (Z.shiftr x hash_r))) as ->; [|apply uwrap_range; lia].
  apply Z.bits_inj'. intros i Hi. unfold uwrap, hash_r. destruct (Z.lt_ge_cases i 32).
  - by rewrite Z.mod_pow2_bits_low by lia.
  - rewrite Z.mod_pow2_bits_high by lia. rewrite Z.lxor_spec, Z.shiftr_spec by lia.
    rewrite <- (Z.mod_small x (2 ^ 32)) by lia. by rewrite !Z.mod_pow2_bits_high by lia.
Qed.

Lemma hash_tail_range h data : 0 <= h < 2 ^ 32 -> 0 <= hash_tail h data < 2 ^ 32.
Proof.
  intros Hh. unfold hash_tail. destruct data as [|a [|b [|c [|d l]]]]; try done; apply hash_last_range.
Qed.

Lemma Hash_total `{!Platform} data seed : 0 <= seed < 2 ^ 32 -> exists h, Hash data seed = Some h /\ 0 <= h < 2 ^ 32.
Proof.
  intros Hs. unfold Hash. cbv zeta.
  destruct (hash_words_range data (u32 (Z.lxor seed (usize (Z.of_nat (length data) * hash_m))))) as (h & rest & -> & Hh).
  { apply uwrap_range. lia. }
  cbn [mbind option_bind fst snd]. eexists. split; [done|]. by apply hash_tail_range.
Qed.

Section sharded.
Context {PL : Platform} {V : Type} (max_live max_charge : Z).
Implicit Types (x : ShardedLRUCache V) (s : Shard_ V) (e : nat) (l pinned live freed own : list nat).

Definition key_hash (k : Slice) : Z := default 0 (HashSlice k).

Lemma HashSlice_eq k : HashSlice k = Some (key_hash k).
Proof. unfold key_hash, HashSlice. by destruct (Hash_total k 0 ltac:(lia)) as (h & -> & _). Qed.

Lemma key_hash_range k : 0 <= key_hash k < 2 ^ 32.
Proof. unfold key_hash, HashSlice. by destruct (Hash_total k 0 ltac:(lia)) as (h & -> & Hh). Qed.

Abbreviation hf := key_hash.

Lemma Shard_range h : 0 <= h < 2 ^ 32 -> (Z.to_nat (Shard h) < kNumShards)%nat.
Proof.
  intros Hh. unfold Shard, kNumShardBits. change kNumShards with 16%nat. rewrite Z.shiftr_div_pow2 by lia.
  change (2 ^ (32 - 4)) with 268435456. assert (h / 268435456 < 16) by (apply Z.div_lt_upper_bound; lia).
  assert (0 <= h / 268435456) by (apply Z.div_pos; lia). lia.
Qed.

(** The shard that an entry belongs to. *)
Definition shard_index (m : gmap nat (LRUHandle V)) e : option nat := (fun h => Z.to_nat (Shard (hash h))) <$> m !! e.

Definition handles_of m (i : nat) live : list nat := filter (fun e => shard_index m e = Some i) live.

Definition shard_state x (lru : LRUCache) : Shard_ V := mk_shard (sc_heap x) (sc_deleted x) lru.

(** The charges that all handles can keep in memory fit into [size_t]. *)
Definition bounds_ok (cap : Z) : Prop :=
  0 <= cap < 2 ^ 31 /\ 0 <= max_live < 2 ^ 31 /\ 0 <= max_charge /\ cap + (max_live + 1) * max_charge < 2 ^ size_bits.

Record shard_ok x (i : nat) (lru : LRUCache) l pinned lv : Prop := mk_shard_ok {
  so_inv : lru_inv hf (shard_state x lru) l pinned lv;
  so_settled : settled (shard_state x lru) l;
  so_bounds : bounds_ok (capacity_ lru);
  so_own e : e ∈ l ++ pinned <-> shard_index (sc_heap x) e = Some i
}.

Record cache_state x live : Prop := mk_cache_state {
  cs_length : length (shard_ x) = kNumShards;
  cs_shards i lru : shard_ x !! i = Some lru -> exists l pinned, shard_ok x i lru l pinned (handles_of (sc_heap x) i live);
  cs_live e : e ∈ live -> is_Some (sc_heap x !! e);
  cs_charge e h : sc_heap x !! e = Some h -> charge h <= max_charge;
  cs_hash e h : sc_heap x !! e = Some h -> hash h = hf (key_data h)
}.

(** ** A shard among the others *)

Lemma lru_inv_frame s s' l pinned lv : (forall e, e ∈ l ++ pinned -> sh_heap s' !! e = sh_heap s !! e) ->
  sh_lru s' = sh_lru s -> lru_inv hf s l pinned lv -> lru_inv hf s' l pinned lv.
Proof.
  intros He Hl [Hlist Htab Hh Hlink].
  assert (forall e, e ∈ l -> sh_heap s' !! e = sh_heap s !! e) as He1 by (intros e Hin; apply He, elem_of_app; by left).
  split.
  - apply (lru_list_ext s); [done|by rewrite Hl|by rewrite Hl|done].
  - apply (in_table_same s); [|by rewrite Hl|done]. intros e Hin. by rewrite He1.
  - apply (held_refs_same hf s); [|by rewrite Hl|done]. intros e Hin. unfold cell, refs_of. by rewrite He.
  - intros e Hin. destruct (Hlink e Hin) as (h & n & E & En & Hn). exists h, n. rewrite He; [done|].
    apply elem_of_app. by right.
Qed.

Lemma total_bound s l pinned live m : held_refs hf s l pinned live -> 0 <= m ->
  (forall e, e ∈ pinned -> charge_of s e <= m) -> total s pinned <= Z.of_nat (length live) * m.
Proof.
  intros Hh Hm Hc.
  assert (length pinned <= length live)%nat as Hlen.
  { apply submseteq_length, NoDup_submseteq.
    - pose proof (hr_nodup _ _ _ _ _ Hh) as Hnd. by apply NoDup_app in Hnd as (_ & _ & ?).
    - apply (hr_pinned _ _ _ _ _ Hh). }
  assert (forall r, (forall e, e ∈ r -> charge_of s e <= m) -> total s r <= Z.of_nat (length r) * m) as H.
  { induction r as [|e r IH]; intros Hr; [done|]. pose proof (Hr e ltac:(by left)).
    assert (total s r <= Z.of_nat (length r) * m) by (apply IH; intros y Hy; apply Hr; by right).
    unfold total in *. cbn [foldr length]. lia. }
  specialize (H pinned Hc). nia.
Qed.

Lemma charge_of_heap s e h : sh_heap s !! e = Some h -> charge_of s e = charge h.
Proof. intros E. unfold charge_of, cell. by rewrite E. Qed.

Lemma handles_length m i live : (length (handles_of m i live) <= length live)%nat.
Proof. apply length_filter. Qed.

(** There is room for one more entry. *)
Lemma shard_room x live i lru l pinned c : cache_state x live -> Z.of_nat (length live) < max_live ->
  shard_ok x i lru l pinned (handles_of (sc_heap x) i live) -> c <= max_charge ->
  total (shard_state x lru) (l ++ pinned) + c < 2 ^ size_bits.
Proof.
  intros Hcs Hlive [Hinv Hset Hb _] Hc. pose proof (li_refs _ _ _ _ _ Hinv) as Hh.
  destruct Hb as (Hcap & Hml & Hmc & Hroom). destruct Hset as [Hu| ->].
  - rewrite <- (hr_usage _ _ _ _ _ Hh). unfold shard_state in *. cbn [sh_lru] in *. nia.
  - cbn [app]. assert (total (shard_state x lru) pinned <= Z.of_nat (length (handles_of (sc_heap x) i live)) * max_charge) as Ht.
    { eapply total_bound; [exact Hh|done|]. intros e He.
      destruct (own_in_heap _ _ _ _ _ Hh e) as [h E]; [apply elem_of_app; by right|].
      rewrite (charge_of_heap _ _ _ E). by apply (cs_charge _ _ Hcs e). }
    pose proof (handles_length (sc_heap x) i live). nia.
Qed.

(** The handles [kept] are held before and after an operation on shard [i]; [ex] are
    given up and [ex'] are new. *)
Lemma shard_step x live kept ex ex' i lru l pinned s' l' pinned' freed :
  cache_state x live -> shard_ x !! i = Some lru -> shard_ok x i lru l pinned (handles_of (sc_heap x) i live) ->
  live ≡ₚ ex ++ kept -> lru_inv hf s' l' pinned' (ex' ++ handles_of (sc_heap x) i kept) ->
  keeps (l ++ pinned) (l' ++ pinned') freed (shard_state x lru) s' -> settled s' l' ->
  (forall e, e ∈ ex -> shard_index (sc_heap x) e = Some i) ->
  (forall e, e ∈ l' ++ pinned' -> e ∉ l ++ pinned -> sc_heap x !! e = None) ->
  (forall e, e ∈ l' ++ pinned' -> shard_index (sh_heap s') e = Some i /\ charge_of s' e <= max_charge) ->
  cache_state (mk_sharded (sh_heap s') (sh_deleted s') (<[i := sh_lru s']> (shard_ x)) (last_id_ x)) (ex' ++ kept).
Proof.
  intros Hcs Hi [Hinv Hset Hb Hown] Hlive Hinv' Hk Hset' Hex Hnew Hidx.
  (* what an entry outside the new shard is *)
  assert (forall e, e ∉ l' ++ pinned' -> sh_heap s' !! e = if decide (e ∈ l ++ pinned) then None else sc_heap x !! e) as Hout.
  { intros e He. by rewrite (kp_frame _ _ _ _ _ Hk). }
  assert (forall e, e ∈ l' ++ pinned' <-> shard_index (sh_heap s') e = Some i) as Hown'.
  { intros e. split; [by intros He; apply Hidx|]. intros He. destruct (decide (e ∈ l' ++ pinned')) as [|Hno]; [done|].
    unfold shard_index in He. rewrite (Hout e Hno) in He. destruct (decide (e ∈ l ++ pinned)) as [|Hno2]; [done|].
    by destruct Hno2; apply Hown. }
  assert (forall e j, j <> i -> shard_index (sc_heap x) e = Some j -> sh_heap s' !! e = sc_heap x !! e) as Hother.
  { intros e j Hj He. rewrite Hout.
    - rewrite decide_False; [done|]. rewrite Hown, He. congruence.
    - intros Hin. destruct (decide (e ∈ l ++ pinned)) as [Ho|Ho]; [apply Hown in Ho; congruence|].
      unfold shard_index in He. by rewrite (Hnew e Hin Ho) in He. }
  assert (forall e j, shard_index (sh_heap s') e = Some j -> j <> i -> shard_index (sc_heap x) e = Some j) as Hback.
  { intros e j He Hj. unfold shard_index in *. rewrite Hout in He; [by destruct (decide (e ∈ l ++ pinned))|].
    intros Hin%Hown'. unfold shard_index in Hin. congruence. }
  assert (forall e, e ∈ kept -> shard_index (sh_heap s') e = shard_index (sc_heap x) e) as Hkept.
  { intros e He. destruct (shard_index (sc_heap x) e) as [j|] eqn:Ej.
    - destruct (decide (j = i)) as [->|Hj].
      + apply Hown', (hr_live _ _ _ _ _ (li_refs _ _ _ _ _ Hinv')), elem_of_app. right.
        by apply list_elem_of_filter.
      + unfold shard_index in *. by rewrite (Hother e j Hj Ej).
    - exfalso. destruct (cs_live _ _ Hcs e) as [h E]; [rewrite Hlive; apply elem_of_app; by right|].
      unfold shard_index in Ej. by rewrite E in Ej. }
  assert (forall j, handles_of (sh_heap s') j kept = handles_of (sc_heap x) j kept) as Hhand.
  { intros j. unfold handles_of. clear -Hkept. induction kept as [|e r IH]; [done|].
    rewrite !filter_cons, (Hkept e) by (by left). rewrite IH; [done|]. intros y Hy. apply Hkept. by right. }
  assert (forall e, e ∈ ex' -> shard_index (sh_heap s') e = Some i) as Hex'.
  { intros e He. apply Hown', (hr_live _ _ _ _ _ (li_refs _ _ _ _ _ Hinv')), elem_of_app. by left. }
  split; cbn [sc_heap sc_deleted shard_].
  - by rewrite length_insert, (cs_length _ _ Hcs).
  - intros j lruj Hj. apply list_lookup_insert_Some in Hj as [(<- & <- & _)|[Hji Hj]].
    + exists l', pinned'. unfold shard_state. cbn [sc_heap sc_deleted]. split.
      * apply (lru_inv_live _ _ _ _ (ex' ++ handles_of (sc_heap x) i kept)); [|by destruct s'].
        unfold handles_of at 2. rewrite filter_app. fold (handles_of (sh_heap s') i ex') (handles_of (sh_heap s') i kept).
        rewrite Hhand. f_equiv. symmetry. unfold handles_of. by rewrite filter_keep.
      * by destruct s'.
      * pose proof (kp_capacity _ _ _ _ _ Hk) as Hcap. by rewrite Hcap.
      * exact Hown'.
    + destruct (cs_shards _ _ Hcs j lruj Hj) as (lj & pj & [Hinvj Hsetj Hbj Hownj]). exists lj, pj. split.
      * apply (lru_inv_live _ _ _ _ (handles_of (sc_heap x) j live)).
        -- unfold handles_of at 2. rewrite filter_app. fold (handles_of (sh_heap s') j ex') (handles_of (sh_heap s') j kept).
           rewrite Hhand. unfold handles_of at 1. rewrite Hlive, filter_app.
           fold (handles_of (sc_heap x) j ex) (handles_of (sc_heap x) j kept). f_equiv.
           unfold handles_of. rewrite !filter_drop; [done|..]; intros e He E.
           ++ rewrite (Hex' e He) in E. congruence.
           ++ rewrite (Hex e He) in E. congruence.
        -- eapply lru_inv_frame; [| |exact Hinvj]; [|done]. intros e He%Hownj. by apply (Hother e j).
      * done.
      * done.
      * intros e. rewrite Hownj. split; intros He.
        -- unfold shard_index in *. cbn [sc_heap]. by rewrite (Hother e j).
        -- by apply Hback.
  - intros e [He|He]%elem_of_app.
    + specialize (Hex' e He). unfold shard_index in Hex'. destruct (sh_heap s' !! e); [by eexists|done].
    + specialize (Hkept e He). destruct (cs_live _ _ Hcs e) as [h E]; [rewrite Hlive; apply elem_of_app; by right|].
      unfold shard_index in Hkept. rewrite E in Hkept. destruct (sh_heap s' !! e); [by eexists|done].
  - intros e h E. destruct (decide (e ∈ l' ++ pinned')) as [Hin|Hno].
    + destruct (Hidx e Hin) as [_ Hc]. by rewrite (charge_of_heap _ _ _ E) in Hc.
    + rewrite (Hout e Hno) in E. destruct (decide (e ∈ l ++ pinned)); [done|]. by apply (cs_charge _ _ Hcs e).
  - intros e h E. destruct (decide (e ∈ l' ++ pinned')) as [Hin|Hno].
    + destruct (lookup_own _ _ _ _ _ e (li_refs _ _ _ _ _ Hinv') Hin) as (h' & E' & _ & Hh & _). congruence.
    + rewrite (Hout e Hno) in E. destruct (decide (e ∈ l ++ pinned)); [done|]. by apply (cs_hash _ _ Hcs e).
Qed.

(** ** Operations *)

Definition kv x e : option (Slice * V) := (fun h => (key_data h, value h)) <$> sc_heap x !! e.

Lemma on_shard_ok {A} x i lru (m : M (Shard_ V) A) a s' :
  shard_ x !! Z.to_nat i = Some lru -> m (shard_state x lru) = Ok a s' ->
  on_shard i m x = Ok a (mk_sharded (sh_heap s') (sh_deleted s') (<[Z.to_nat i := sh_lru s']> (shard_ x)) (last_id_ x)).
Proof.
  intros Hi E. unfold on_shard. rewrite bind_gets, (bind_or_ub _ _ _ _ Hi). unfold zoom.
  change (mk_shard (sc_heap x) (sc_deleted x) lru) with (shard_state x lru). by rewrite E.
Qed.

Lemma shard_of_hash x live h : cache_state x live -> 0 <= h < 2 ^ 32 ->
  exists lru l pinned, shard_ x !! Z.to_nat (Shard h) = Some lru /\
    shard_ok x (Z.to_nat (Shard h)) lru l pinned (handles_of (sc_heap x) (Z.to_nat (Shard h)) live).
Proof.
  intros Hcs Hh. destruct (lookup_lt_is_Some_2 (shard_ x) (Z.to_nat (Shard h))) as [lru Hi].
  { rewrite (cs_length _ _ Hcs). by apply Shard_range. }
  destruct (cs_shards _ _ Hcs _ lru Hi) as (l & pinned & Hok). by exists lru, l, pinned.
Qed.

(** What is in memory after a step was there before, or is the new entry. *)
Lemma kv_keeps x lru own own' freed s' y :
  keeps own own' freed (shard_state x lru) s' -> sc_heap y = sh_heap s' ->
  forall e, (e ∈ own \/ e ∉ own') ->
    (e ∈ own -> e ∈ own' -> kv y e = kv x e) /\ forall p, kv y e = Some p -> kv x e = Some p.
Proof.
  intros Hk Hy e He.
  assert (forall s : Shard_ V, (fun c => (c.1.1.1, c.1.1.2)) <$> cell s e = (fun h => (key_data h, value h)) <$> sh_heap s !! e) as Hkv.
  { intros s. unfold cell. by destruct (sh_heap s !! e). }
  assert (e ∈ own -> e ∈ own' -> kv y e = kv x e) as H1.
  { intros H1 H2. unfold kv. rewrite Hy, <- Hkv, (kp_cell _ _ _ _ _ Hk e H1 H2), Hkv. done. }
  split; [done|]. intros p Hp. destruct (decide (e ∈ own')) as [H2|H2].
  - destruct He as [He|He]; [|done]. by rewrite <- H1.
  - unfold kv in *. rewrite Hy, (kp_frame _ _ _ _ _ Hk e H2) in Hp. by destruct (decide (e ∈ own)).
Qed.

(** The part that an operation on the shard does not own. *)
Lemma cell_index s e k v c h i : cell s e = Some (k, v, c, h) -> Z.to_nat (Shard h) = i -> shard_index (sh_heap s) e = Some i.
Proof.
  unfold cell, shard_index. destruct (sh_heap s !! e) as [hd|]; [|done]. cbn. by intros [= _ _ _ ->] <-.
Qed.

(** Entries that stay are where they were, with their charge. *)
Lemma kept_index x live i lru l pinned own' freed s' e :
  cache_state x live -> shard_ok x i lru l pinned (handles_of (sc_heap x) i live) ->
  keeps (l ++ pinned) own' freed (shard_state x lru) s' -> e ∈ l ++ pinned -> e ∈ own' ->
  shard_index (sh_heap s') e = Some i /\ charge_of s' e <= max_charge.
Proof.
  intros Hcs Hok Hk He He'. pose proof (kp_cell _ _ _ _ _ Hk e He He') as Hc.
  destruct (own_in_heap _ _ _ _ _ (li_refs _ _ _ _ _ (so_inv _ _ _ _ _ _ Hok)) e He) as [h E].
  pose proof (proj1 (so_own _ _ _ _ _ _ Hok e) He) as Hi. unfold shard_index in Hi.
  cbn [sh_heap shard_state] in E. rewrite E in Hi. injection Hi as Hi.
  unfold charge_of. rewrite Hc. unfold cell. cbn [sh_heap shard_state]. rewrite E. cbn. split.
  - eapply cell_index; [|exact Hi]. rewrite Hc. unfold cell. cbn [sh_heap shard_state]. by rewrite E.
  - by apply (cs_charge _ _ Hcs e).
Qed.

End sharded.

(** * Properties of the cache

    The sharded cache keeps the promises of the interface, and a shard refines a
    list of entries in the order of their last use. *)

Section laws.
Context {PL : Platform} {V : Type} (max_live max_charge : Z).
Implicit Types (x : ShardedLRUCache V) (s : Shard_ V) (e : nat) (l pinned live : list nat).

Abbreviation hf := key_hash.
Abbreviation cache_state := (cache_state max_live max_charge).
Abbreviation shard_ok := (shard_ok max_live max_charge).

(** What a client may rely on: nothing changes for the handles that are held, and
    no value comes from nowhere. *)
Record grows x x' (held : list nat) (new : option (nat * Slice * V)) : Prop := mk_grows {
  gr_held e : e ∈ held -> kv x' e = kv x e;
  gr_from e p : kv x' e = Some p -> kv x e = Some p \/ exists k v, new = Some (e, k, v) /\ p = (k, v)
}.

Lemma handles_cons x i e live : shard_index (sc_heap x) e = Some i ->
  handles_of (sc_heap x) i (e :: live) = e :: handles_of (sc_heap x) i live.
Proof. intros E. unfold handles_of. by rewrite filter_cons_True. Qed.

Lemma own_shard x i lru l pinned lv e :
  shard_ok x i lru l pinned lv -> e ∈ l ++ pinned -> shard_index (sc_heap x) e = Some i.
Proof. intros H. apply (so_own _ _ _ _ _ _ _ _ H). Qed.

(** What becomes of the entries when a shard changes. *)
Lemma grows_keeps x i lru l pinned live own' freed s' y new :
  cache_state x live -> shard_ok x i lru l pinned (handles_of (sc_heap x) i live) ->
  keeps (l ++ pinned) own' freed (shard_state x lru) s' -> sc_heap y = sh_heap s' ->
  (forall e, e ∈ own' -> e ∉ l ++ pinned -> sc_heap x !! e = None /\
    exists k v, new = Some (e, k, v) /\ kv y e = Some (k, v)) ->
  forall held, (forall e, e ∈ held -> e ∈ live /\ (e ∈ l ++ pinned -> e ∈ own')) -> grows x y held new.
Proof.
  intros Hcs Hok Hk Hy Hnew held Hheld. split.
  - intros e He. destruct (Hheld e He) as [Hlive Hin]. destruct (decide (e ∈ l ++ pinned)) as [Ho|Ho].
    + apply (proj1 (kv_keeps _ _ _ _ _ _ _ Hk Hy e ltac:(by left))); [done|by apply Hin].
    + assert (e ∉ own') as Ho'.
      { intros Hc. destruct (Hnew e Hc Ho) as [Hn _]. destruct (cs_live _ _ _ _ Hcs e Hlive). congruence. }
      unfold kv. rewrite Hy, (kp_frame _ _ _ _ _ Hk e Ho'). by rewrite decide_False.
  - intros e p Hp. destruct (decide (e ∈ l ++ pinned)) as [Ho|Ho].
    + left. by apply (proj2 (kv_keeps _ _ _ _ _ _ _ Hk Hy e ltac:(by left))).
    + destruct (decide (e ∈ own')) as [Ho'|Ho'].
      * destruct (Hnew e Ho' Ho) as (_ & k & v & -> & E). right. exists k, v. rewrite E in Hp. by injection Hp as <-.
      * left. by apply (proj2 (kv_keeps _ _ _ _ _ _ _ Hk Hy e ltac:(by right))).
Qed.

Lemma sharded_Lookup_ok x live k :
  cache_state x live -> Z.of_nat (length live) < max_live ->
  exists r x', sharded_Lookup k x = Ok r x' /\
    match r with
    | None => x' = x
    | Some e => cache_state x' (e :: live) /\ grows x x' live None /\ exists v, kv x' e = Some (k, v)
    end.
Proof.
  intros Hcs Hlive. pose proof (key_hash_range k) as Hr.
  destruct (shard_of_hash _ _ x live (hf k) Hcs Hr) as (lru & l & pinned & Hi & Hok).
  set (i := Z.to_nat (Shard (hf k))) in *. pose proof (handles_length (sc_heap x) i live) as Hlen.
  destruct (so_bounds _ _ _ _ _ _ _ _ Hok) as (_ & Hml & _).
  destruct (Lookup_ok hf (shard_state x lru) l pinned _ k (so_inv _ _ _ _ _ _ _ _ Hok)) as (r & s' & E & Hres); [lia|].
  pose proof (on_shard_ok x (Shard (hf k)) lru (Lookup k (hf k)) r s' Hi E) as Es. fold i in Es.
  exists r. eexists. split; [unfold sharded_Lookup; by rewrite (bind_or_ub _ _ _ _ (HashSlice_eq k))|].
  destruct r as [e|].
  2:{ destruct Hres as [-> _]. unfold shard_state. cbn. rewrite list_insert_id by done. by destruct x. }
  destruct Hres as (Hke & l1 & l2 & -> & HI & Hk & Hu).
  assert (forall y, y ∈ (l1 ++ e :: l2) ++ pinned <-> y ∈ ((l1 ++ l2) ++ [e]) ++ pinned) as Hown.
  { intros y. rewrite !elem_of_app, elem_of_cons, list_elem_of_singleton. tauto. }
  assert (e ∈ (l1 ++ e :: l2) ++ pinned) as He by (rewrite !elem_of_app, elem_of_cons; tauto).
  split; [|split].
  - change (e :: live) with ([e] ++ live).
    eapply (shard_step max_live max_charge x live live [] [e] i lru (l1 ++ e :: l2) pinned s'); try done.
    + destruct (so_settled _ _ _ _ _ _ _ _ Hok) as [Hs|Hs]; [|by destruct l1]. left.
      rewrite Hu, (kp_capacity _ _ _ _ _ Hk). done.
    + by intros y ?%not_elem_of_nil.
    + intros y Hy Hy'. by rewrite Hown in Hy'.
    + intros y Hy. eapply kept_index; [done|exact Hok|exact Hk|by apply Hown|done].
  - eapply (grows_keeps x i lru); [done|exact Hok|exact Hk|done| |].
    + intros y Hy Hy'. by rewrite Hown in Hy'.
    + intros y Hy. split; [done|]. by rewrite Hown.
  - pose proof (kp_cell _ _ _ _ _ Hk e He ltac:(by apply Hown)) as Hc.
    unfold key_of, cell in *. unfold kv. cbn [sc_heap]. cbn [sh_heap shard_state] in *.
    destruct (sc_heap x !! e) as [h|]; [|done]. cbn in Hke. injection Hke as <-.
    destruct (sh_heap s' !! e) as [h'|]; [|done]. cbn in Hc. injection Hc as Hk1 Hv1 _ _. exists (value h). cbn. by rewrite Hk1, Hv1.
Qed.

Lemma sharded_Release_ok x live e :
  cache_state x (e :: live) -> Z.of_nat (length live) < max_live ->
  exists x', sharded_Release e x = Ok tt x' /\ cache_state x' live /\ grows x x' live None.
Proof.
  intros Hcs Hlive. destruct (cs_live _ _ _ _ Hcs e ltac:(by left)) as [h Eh].
  assert (exists i lru, shard_index (sc_heap x) e = Some i /\ i = Z.to_nat (Shard (hash h)) /\ shard_ x !! i = Some lru)
    as (i & lru & Hidx & -> & Hi).
  { exists (Z.to_nat (Shard (hash h))). unfold shard_index. rewrite Eh. cbn.
    destruct (lookup_lt_is_Some_2 (shard_ x) (Z.to_nat (Shard (hash h)))) as [lru Hi]; [|by exists lru].
    rewrite (cs_length _ _ _ _ Hcs).
    destruct (decide (Z.to_nat (Shard (hash h)) < kNumShards)%nat) as [|Hno]; [done|exfalso].
    (* the hash of an entry is that of its key *)
    pose proof (cs_hash _ _ _ _ Hcs e h Eh) as Hh. apply Hno. rewrite Hh. apply Shard_range, key_hash_range. }
  set (i := Z.to_nat (Shard (hash h))) in *.
  destruct (cs_shards _ _ _ _ Hcs i lru Hi) as (l & pinned & Hok).
  rewrite (handles_cons x i e live Hidx) in Hok. pose proof (handles_length (sc_heap x) i live) as Hlen.
  destruct (so_bounds _ _ _ _ _ _ _ _ Hok) as (_ & Hml & _).
  destruct (Unref_ok hf (shard_state x lru) l pinned e _ (so_inv _ _ _ _ _ _ _ _ Hok)) as (s' & pn & freed & E & HI & Hk & Hu & Hf); [lia|].
  pose proof (on_shard_ok x (Shard (hash h)) lru (Release e) tt s' Hi E) as Es. fold i in Es.
  eexists. split; [unfold sharded_Release, load_handle; rewrite bind_assoc, bind_gets; by rewrite (bind_or_ub _ _ _ _ Eh)|].
  assert (forall y, y ∈ l ++ pn -> y ∈ l ++ pinned) as Hsub.
  { intros y Hy. destruct (decide (y ∈ l ++ pinned)) as [|Hno]; [done|exfalso].
    apply elem_of_app in Hy as [Hy|Hy]; [apply Hno, elem_of_app; by left|].
    apply (hr_pinned _ _ _ _ _ (li_refs _ _ _ _ _ HI)) in Hy.
    apply Hno, (hr_live _ _ _ _ _ (li_refs _ _ _ _ _ (so_inv _ _ _ _ _ _ _ _ Hok))). by right. }
  split.
  - change live with ([] ++ live).
    eapply (shard_step max_live max_charge x (e :: live) live [e] [] i lru l pinned s'); try done.
    + by rewrite (handles_cons x i e live Hidx).
    + destruct (so_settled _ _ _ _ _ _ _ _ Hok) as [Hs|Hs]; [|by right]. left.
      rewrite Hu, (kp_capacity _ _ _ _ _ Hk).
      assert (0 <= total (shard_state x lru) freed); [|lia].
      apply total_nonneg. intros y Hy. enough (1 <= charge_of (shard_state x lru) y) by lia.
      eapply hr_charge; [apply (li_refs _ _ _ _ _ (so_inv _ _ _ _ _ _ _ _ Hok))|].
      by apply (kp_freed _ _ _ _ _ Hk) in Hy as [? _].
    + by intros y ->%list_elem_of_singleton.
    + intros y Hy Hno. by destruct Hno; apply Hsub.
    + intros y Hy. eapply kept_index; [exact Hcs| |exact Hk|by apply Hsub|done].
      by rewrite (handles_cons x i e live Hidx).
  - eapply (grows_keeps x i lru l pinned (e :: live)); [done| |exact Hk|done| |].
    + by rewrite (handles_cons x i e live Hidx).
    + intros y Hy Hno. by destruct Hno; apply Hsub.
    + intros y Hy. split; [by right|]. intros Hin. apply (hr_live _ _ _ _ _ (li_refs _ _ _ _ _ HI)).
      apply list_elem_of_filter. split; [|done]. by eapply own_shard.
Qed.

Lemma sharded_Insert_ok x live k v c :
  cache_state x live -> Z.of_nat (length live) < max_live -> 1 <= c <= max_charge ->
  exists e x', sharded_Insert k v c x = Ok e x' /\ cache_state x' (e :: live) /\
    grows x x' live (Some (e, k, v)) /\ kv x' e = Some (k, v) /\ sc_heap x !! e = None.
Proof.
  intros Hcs Hlive Hc. pose proof (key_hash_range k) as Hr.
  destruct (shard_of_hash _ _ x live (hf k) Hcs Hr) as (lru & l & pinned & Hi & Hok).
  set (i := Z.to_nat (Shard (hf k))) in *. pose proof (handles_length (sc_heap x) i live) as Hlen.
  destruct (so_bounds _ _ _ _ _ _ _ _ Hok) as (Hcap & Hml & _).
  destruct (insert_entry_ok hf (shard_state x lru) l pinned _ k v c (so_inv _ _ _ _ _ _ _ _ Hok) (so_settled _ _ _ _ _ _ _ _ Hok))
    as (e & s' & l' & pn & freed & E & Hfree & El & HI & Hset & Hk & Hce);
    [lia|by eapply (shard_room max_live max_charge); [done|done|exact Hok|lia]|done|lia|].
  pose proof (on_shard_ok x (Shard (hf k)) lru (Insert k (hf k) v c) e s' Hi E) as Es. fold i in Es.
  exists e. eexists. split; [unfold sharded_Insert; by rewrite (bind_or_ub _ _ _ _ (HashSlice_eq k))|].
  assert (forall y, y ∈ l' ++ pn -> y ∈ l ++ pinned \/ y = e) as Hsub.
  { intros y [Hy|Hy]%elem_of_app.
    - destruct (evict_sublist (fun y => if decide (y = e) then c else charge_of (shard_state x lru) y)
        (capacity_ (sh_lru (shard_state x lru)))
        (usage_ (sh_lru (shard_state x lru)) + c - total (shard_state x lru) (replaced (shard_state x lru) k (handles_of (sc_heap x) i live) l))
        (e :: handles_of (sc_heap x) i live) (without (shard_state x lru) k l ++ [e])) as (gone & Eg).
      assert (y ∈ without (shard_state x lru) k l ++ [e]) as Hin by (rewrite Eg, <- El; apply elem_of_app; by right).
      apply elem_of_app in Hin as [Hin|Hin%list_elem_of_singleton]; [|by right].
      left. apply elem_of_app. left. by apply list_elem_of_filter in Hin as [_ ?].
    - apply (hr_pinned _ _ _ _ _ (li_refs _ _ _ _ _ HI)) in Hy. apply elem_of_cons in Hy as [->|Hy]; [by right|left].
      by apply (hr_live _ _ _ _ _ (li_refs _ _ _ _ _ (so_inv _ _ _ _ _ _ _ _ Hok))). }
  assert (kv (mk_sharded (sh_heap s') (sh_deleted s') (<[i:=sh_lru s']> (shard_ x)) (last_id_ x)) e = Some (k, v)) as Hkv.
  { unfold kv. cbn [sc_heap]. unfold cell in Hce. destruct (sh_heap s' !! e) as [h|]; [|done]. cbn in *. congruence. }
  split; [|split; [|done]].
  - change (e :: live) with ([e] ++ live).
    eapply (shard_step max_live max_charge x live live [] [e] i lru l pinned s'); try done.
    + by intros y ?%not_elem_of_nil.
    + intros y Hy Hno. by destruct (Hsub y Hy) as [?| ->].
    + intros y Hy. destruct (decide (y = e)) as [->|Hne].
      * split; [by eapply cell_index|]. unfold charge_of. rewrite Hce. lia.
      * destruct (Hsub y Hy) as [Ho|?]; [|done]. by eapply kept_index.
  - eapply (grows_keeps x i lru); [done|exact Hok|exact Hk|done| |].
    + intros y Hy Hno. destruct (Hsub y Hy) as [?| ->]; [done|]. split; [done|]. by exists k, v.
    + intros y Hy. split; [done|]. intros Ho. apply (hr_live _ _ _ _ _ (li_refs _ _ _ _ _ HI)). right.
      apply list_elem_of_filter. split; [|done]. by eapply own_shard.
Qed.

Lemma sharded_Erase_ok x live k :
  cache_state x live -> Z.of_nat (length live) <= max_live ->
  exists x', sharded_Erase k x = Ok tt x' /\ cache_state x' live /\ grows x x' live None.
Proof.
  intros Hcs Hlive. pose proof (key_hash_range k) as Hr.
  destruct (shard_of_hash _ _ x live (hf k) Hcs Hr) as (lru & l & pinned & Hi & Hok).
  set (i := Z.to_nat (Shard (hf k))) in *. pose proof (handles_length (sc_heap x) i live) as Hlen.
  destruct (so_bounds _ _ _ _ _ _ _ _ Hok) as (Hcap & Hml & _).
  pose proof (li_refs _ _ _ _ _ (so_inv _ _ _ _ _ _ _ _ Hok)) as Hh.
  pose proof (settled_length hf (shard_state x lru) l pinned _ Hh (so_settled _ _ _ _ _ _ _ _ Hok) ltac:(cbn; lia)) as Hl.
  cbn [sh_lru shard_state] in Hl.
  destruct (Erase_ok hf (shard_state x lru) l pinned _ k (so_inv _ _ _ _ _ _ _ _ Hok))
    as (s' & l' & pn & freed & E & HI & Hk & Hu & Hcase); [lia|lia|].
  pose proof (on_shard_ok x (Shard (hf k)) lru (Erase k (hf k)) tt s' Hi E) as Es. fold i in Es.
  eexists. split; [unfold sharded_Erase; by rewrite (bind_or_ub _ _ _ _ (HashSlice_eq k))|].
  assert (l' ⊆ l) as Hll.
  { destruct Hcase as [[_ ->]|(e & l1 & l2 & -> & -> & _)]; [done|]. intros y. rewrite !elem_of_app, elem_of_cons. tauto. }
  assert (forall y, y ∈ l' ++ pn -> y ∈ l ++ pinned) as Hsub.
  { intros y [Hy|Hy]%elem_of_app; [apply elem_of_app; left; by apply Hll|].
    apply (hr_pinned _ _ _ _ _ (li_refs _ _ _ _ _ HI)) in Hy. by apply (hr_live _ _ _ _ _ Hh). }
  split.
  - change live with ([] ++ live).
    eapply (shard_step max_live max_charge x live live [] [] i lru l pinned s'); try done.
    + destruct (so_settled _ _ _ _ _ _ _ _ Hok) as [Hs|Hs].
      * left. rewrite Hu, (kp_capacity _ _ _ _ _ Hk).
        assert (0 <= total (shard_state x lru) freed); [|lia].
        apply total_nonneg. intros y Hy. enough (1 <= charge_of (shard_state x lru) y) by lia.
        eapply hr_charge; [exact Hh|]. by apply (kp_freed _ _ _ _ _ Hk) in Hy as [? _].
      * right. subst l. destruct l' as [|y l']; [done|]. by destruct (not_elem_of_nil y); apply Hll; left.
    + by intros y ?%not_elem_of_nil.
    + intros y Hy Hno. by destruct Hno; apply Hsub.
    + intros y Hy. eapply kept_index; [exact Hcs|exact Hok|exact Hk|by apply Hsub|done].
  - eapply (grows_keeps x i lru); [done|exact Hok|exact Hk|done| |].
    + intros y Hy Hno. by destruct Hno; apply Hsub.
    + intros y Hy. split; [done|]. intros Ho. apply (hr_live _ _ _ _ _ (li_refs _ _ _ _ _ HI)).
      apply list_elem_of_filter. split; [|done]. by eapply own_shard.
Qed.

(** ** The interface *)

Definition sharded_inv x (live : list (nat * V)) (held : Slice -> V -> Prop) : Prop :=
  cache_state x live.*1 /\ Z.of_nat (length live) <= max_live /\ (forall e v, (e, v) ∈ live -> exists k, kv x e = Some (k, v)) /\
  forall e k v, kv x e = Some (k, v) -> held k v.

Lemma cache_state_perm x live live' : live ≡ₚ live' -> cache_state x live -> cache_state x live'.
Proof.
  intros Hp [Hl Hs Hli Hc Hh]. split; try done.
  - intros i lru Hi. destruct (Hs i lru Hi) as (l & pinned & [Hinv Hset Hb Hown]). exists l, pinned. split; try done.
    eapply lru_inv_live; [|exact Hinv]. unfold handles_of. by rewrite Hp.
  - intros e. rewrite <- Hp. apply Hli.
Qed.

(** What [grows] keeps of the client's view. *)
Lemma sharded_inv_grows x x' (live live' : list (nat * V)) new (held : Slice -> V -> Prop) :
  sharded_inv x live held -> grows x x' live'.*1 new -> (forall p, p ∈ live' -> p ∈ live) ->
  (forall e k v, new = Some (e, k, v) -> held k v) ->
  (forall e v, (e, v) ∈ live' -> exists k, kv x' e = Some (k, v)) /\ forall e k v, kv x' e = Some (k, v) -> held k v.
Proof.
  intros (_ & _ & Hv & Hheld) [Hg1 Hg2] Hsub Hnew. split.
  - intros e v He. destruct (Hv e v (Hsub _ He)) as (k & Hk). exists k. rewrite Hg1; [done|].
    apply list_elem_of_fmap. by exists (e, v).
  - intros e k v [Hk|(k' & v' & -> & [= -> ->])]%Hg2; [by eapply Hheld|by eapply Hnew].
Qed.

End laws.

Program Definition Sharded_laws {PL : Platform} {V : Type} (max_live max_charge : Z) :
    CacheLaws (ShardedLRUCache V) nat V := {|
  cache_max_live := max_live;
  cache_max_charge := max_charge;
  cache_inv := sharded_inv max_live max_charge
|}.
Next Obligation.
  intros PL V ml mc x live live' held Hp (Hcs & Hl & Hv & Hheld). split; [|split; [by rewrite <- Hp|split; [|done]]].
  - eapply cache_state_perm; [|exact Hcs]. by rewrite Hp.
  - intros e v. rewrite <- Hp. apply Hv.
Qed.
Next Obligation.
  intros PL V ml mc x live held held' Hi (Hcs & Hl & Hv & Hheld). split; [done|]. split; [done|]. split; [done|].
  intros e k v Hk. by eapply Hi, Hheld.
Qed.
Next Obligation.
  intros PL V ml mc k v c x live held HI Hkv Hc Hl. pose proof HI as (Hcs & _ & Hv & Hheld).
  destruct (sharded_Insert_ok ml mc x live.*1 k v c Hcs) as (e & x' & E & Hcs' & Hg & Hke & Hfree); [by rewrite length_fmap|done|].
  exists e, x'. split; [done|].
  destruct (sharded_inv_grows ml mc x x' live live _ held HI Hg) as [Hv' Hheld']; [done|by intros e0 k0 v0 [= _ -> ->]|].
  split; [done|]. split; [cbn [length]; lia|]. split; [|done].
  intros e' v' [[= -> ->]|He]%elem_of_cons; [by exists k|by apply Hv'].
Qed.
Next Obligation.
  intros PL V ml mc k x live held HI Hl. pose proof HI as (Hcs & Hl' & Hv & Hheld).
  destruct (sharded_Lookup_ok ml mc x live.*1 k Hcs) as (r & x' & E & Hr); [by rewrite length_fmap|].
  exists r, x'. split; [done|]. destruct r as [e|]; [|by subst x'].
  destruct Hr as (Hcs' & Hg & v & Hke). destruct (sharded_inv_grows ml mc x x' live live _ held HI Hg) as [Hv' Hheld']; [done|done|].
  exists v. split; [by eapply Hheld'|]. split; [done|]. split; [cbn [length]; lia|]. split; [|done].
  intros e' v' [[= -> ->]|He]%elem_of_cons; [by exists k|by apply Hv'].
Qed.
Next Obligation.
  intros PL V ml mc e v x live held (Hcs & _ & Hv & _) He. destruct (Hv e v He) as (k & Hk).
  cbn [cache_Value Sharded_Cache]. unfold sharded_Value, load_handle. rewrite bind_assoc, bind_gets.
  unfold kv in Hk. destruct (sc_heap x !! e) as [h|]; [|done]. cbn in Hk. injection Hk as _ <-. done.
Qed.
Next Obligation.
  intros PL V ml mc e v x live held HI. pose proof HI as (Hcs & Hl & Hv & Hheld). cbn [length] in Hl.
  destruct (sharded_Release_ok ml mc x live.*1 e Hcs) as (x' & E & Hcs' & Hg); [rewrite length_fmap; lia|].
  exists x'. split; [done|].
  destruct (sharded_inv_grows ml mc x x' ((e, v) :: live) live _ held HI Hg) as [Hv' Hheld']; [intros p Hp; by right|done|].
  split; [done|]. split; [lia|done].
Qed.
Next Obligation.
  intros PL V ml mc k x live held HI. pose proof HI as (Hcs & Hl & Hv & Hheld).
  destruct (sharded_Erase_ok ml mc x live.*1 k Hcs) as (x' & E & Hcs' & Hg); [by rewrite length_fmap|].
  exists x'. split; [done|].
  destruct (sharded_inv_grows ml mc x x' live live _ held HI Hg) as [Hv' Hheld']; [done|done|].
  split; [done|]. by split.
Qed.
Next Obligation.
  intros PL V ml mc x live held (Hcs & Hl & Hv & Hheld). eexists _, _. split; [reflexivity|].
  split; [|by split]. destruct Hcs as [H1 H2 H3 H4 H5]. split; try done.
  intros i lru Hi. destruct (H2 i lru Hi) as (l & pinned & [Hinv Hset Hb Hown]). by exists l, pinned.
Qed.

(** ** A new cache *)

Lemma new_LRUCache_eq {PL : Platform} {V : Type} :
  new_LRUCache (V := V) = Some (mk_lru 0 0 Lru Lru (mk_handle_table 4 0 [None; None; None; None])).
Proof. reflexivity. Qed.

Lemma new_shard_ok {PL : Platform} {V : Type} (c : Z) (d : list (Slice * V)) : 0 <= c ->
  let s := mk_shard ∅ d (mk_lru c 0 Lru Lru (mk_handle_table 4 0 [None; None; None; None])) in
  lru_inv key_hash s [] [] [] /\ settled s [].
Proof.
  intros Hc s. split; [|by right]. split.
  - split; [constructor|]. by split; split.
  - exists [[]; []; []; []]. split; [|done]. split; try done.
    + by exists 2.
    + by repeat constructor.
    + constructor.
    + intros [|[|[|[|i]]]] c0 e E Hin; try discriminate E; injection E as <-; by apply not_elem_of_nil in Hin.
  - split; try done; try (by intros e ?%not_elem_of_nil).
    + constructor.
    + constructor.
    + pose proof size_bits_bound. cbn. lia.
  - by intros e ?%not_elem_of_nil.
Qed.

Definition shard_capacity {PL : Platform} (capacity : Z) : Z := usize (capacity + (Z.of_nat kNumShards - 1)) / Z.of_nat kNumShards.

Lemma NewLRUCache_ok {PL : Platform} {V : Type} (ml mc capacity : Z) : bounds_ok ml mc (shard_capacity capacity) ->
  exists x, NewLRUCache (V := V) capacity = Some x /\ cache_state ml mc x [] /\ (forall e, sc_heap x !! e = None) /\
    sc_deleted x = [].
Proof.
  intros Hb. eexists. split; [reflexivity|]. split; [|done]. split; cbn [sc_heap shard_].
  - by rewrite length_replicate.
  - intros i lru [-> _]%lookup_replicate_1. exists [], [].
    destruct (new_shard_ok (V := V) (shard_capacity capacity) [] (proj1 (proj1 Hb))) as [HI Hset].
    split; [exact HI|exact Hset|exact Hb|]. intros e. unfold shard_index. cbn [sc_heap]. rewrite lookup_empty. cbn.
    split; [by intros ?%not_elem_of_nil|done].
  - by intros e ?%not_elem_of_nil.
  - by intros e h E.
  - by intros e h E.
Qed.

(** ** A shard as a list in the order of the last use *)

Section refinement.
Context {PL : Platform} {V : Type}.
Implicit Types (s : Shard_ V) (l pinned live : list nat).

Inductive ShardOp := OpInsert (k : Slice) (v : V) (c : Z) | OpLookup (k : Slice) | OpRelease (e : nat) | OpErase (k : Slice).

(** The methods, as [ShardedLRUCache] calls them. *)
Definition run_op (op : ShardOp) : M (Shard_ V) (option nat) :=
  match op with
  | OpInsert k v c => let! e := Insert k (key_hash k) v c in ret (Some e)
  | OpLookup k => Lookup k (key_hash k)
  | OpRelease e => Release e ;;; ret None
  | OpErase k => Erase k (key_hash k) ;;; ret None
  end.

Fixpoint drop_one (e : nat) live : list nat :=
  match live with [] => [] | x :: live => if decide (x = e) then live else x :: drop_one e live end.

Lemma drop_one_perm e live : e ∈ live -> live ≡ₚ e :: drop_one e live.
Proof.
  induction live as [|x live IH]; cbn; [by intros ?%not_elem_of_nil|]. intros [->|He]%elem_of_cons.
  - by rewrite decide_True.
  - destruct (decide (x = e)) as [->|Hne]; [done|]. rewrite (IH He) at 1. apply perm_swap.
Qed.

(** What an operation with the result [r] makes of the entries [l], oldest first. *)
Definition spec_order s l live (op : ShardOp) (r : option nat) : list nat :=
  match op, r with
  | OpInsert k v c, Some e =>
      evict (fun y => if decide (y = e) then c else charge_of s y) (capacity_ (sh_lru s))
        (usage_ (sh_lru s) + c - total s (replaced s k live l)) (e :: live) (without s k l ++ [e])
  | OpLookup k, Some e => without s k l ++ [e]
  | OpErase k, _ => without s k l
  | _, _ => l
  end.

(** The handles that callers hold. *)
Definition spec_live live (op : ShardOp) (r : option nat) : list nat :=
  match op, r with
  | OpRelease e, _ => drop_one e live
  | _, Some e => e :: live
  | _, None => live
  end.

(** Lookups find the entry of the key; insertion returns a new entry. *)
Definition spec_result s s' l (op : ShardOp) (r : option nat) : Prop :=
  match op with
  | OpInsert k v c => exists e, r = Some e /\ sh_heap s !! e = None /\ kv_of s' e = Some (k, v)
  | OpLookup k => r = head (filter (fun y => key_of s y = Some k) l)
  | _ => r = None
  end.

Definition op_ok s l pinned live (op : ShardOp) : Prop :=
  match op with
  | OpInsert k v c => 1 <= c /\ total s (l ++ pinned) + c < 2 ^ size_bits
  | OpRelease e => e ∈ live
  | _ => True
  end.

(** C20: A shard of the cache is a list of entries in the order of their last use.
    Lookup moves the entry of the key to the end and insertion puts a new one there,
    in place of one with the same key; then the oldest entries go until what is in
    memory fits the capacity, or none is left.  Entries with handles stay in memory
    until they are released; the deleter is called once for every entry that goes,
    and its memory is free.  The hash table, the links and the counts of references
    agree before and after. *)
Theorem shard_refines s l pinned live op :
  lru_inv key_hash s l pinned live -> settled s l -> 0 <= capacity_ (sh_lru s) < 2 ^ 31 ->
  Z.of_nat (length live) + 3 < 2 ^ 32 -> op_ok s l pinned live op ->
  exists r s' pinned' freed, run_op op s = Ok r s' /\ spec_result s s' l op r /\
    lru_inv key_hash s' (spec_order s l live op r) pinned' (spec_live live op r) /\
    settled s' (spec_order s l live op r) /\
    keeps (l ++ pinned) (spec_order s l live op r ++ pinned') freed s s'.
Proof.
  intros HI Hset Hcap Hlive Hop. pose proof (li_refs _ _ _ _ _ HI) as Hh. pose proof (hr_keys _ _ _ _ _ Hh) as Hkeys.
  destruct op as [k v c|k|e|k].
  - destruct Hop as [Hc Hroom].
    destruct (insert_entry_ok key_hash s l pinned live k v c HI Hset Hc Hroom Hcap Hlive)
      as (e & s' & l' & pn & freed & E & Hfree & -> & HI' & Hset' & Hk & Hce).
    exists (Some e), s', pn, freed. split; [cbn [run_op]; by rewrite (bind_ok _ _ _ _ _ E)|].
    split; [exists e; unfold kv_of; by rewrite Hce|done].
  - destruct (Lookup_ok key_hash s l pinned live k HI) as (r & s' & E & Hr); [lia|].
    exists r, s', pinned, []. split; [done|]. destruct r as [e|].
    + destruct Hr as (Hke & l1 & l2 & -> & HI' & Hk & Hu). cbn [spec_result spec_order spec_live].
      rewrite (without_found s k l1 e l2 Hkeys Hke). split; [|split; [done|split; [|done]]].
      * rewrite filter_app, filter_cons_True by done. rewrite (filter_drop _ l1); [done|].
        intros y Hy Hky. rewrite <- Permutation_middle, fmap_cons, Hke, <- Hky in Hkeys.
        apply NoDup_cons in Hkeys as [Hno _]. apply Hno, list_elem_of_fmap_2, elem_of_app. by left.
      * left. rewrite Hu, (kp_capacity _ _ _ _ _ Hk). destruct Hset as [?|Hnil]; [done|by destruct l1].
    + destruct Hr as [-> Hno]. cbn [spec_result spec_order spec_live]. split; [by rewrite filter_drop|].
      split; [done|]. split; [done|]. apply keeps_refl. by eapply own_in_heap.
  - cbn [op_ok] in Hop. pose proof (drop_one_perm e live Hop) as Hp.
    destruct (Unref_ok key_hash s l pinned e (drop_one e live)) as (s' & pn & freed & E & HI' & Hk & Hu & _).
    { by eapply lru_inv_live. }
    { apply Permutation_length in Hp. cbn [length] in Hp. lia. }
    exists None, s', pn, freed. split; [cbn [run_op]; unfold Release; by rewrite (bind_ok _ _ _ _ _ E)|].
    split; [done|]. split; [done|]. split; [|done]. destruct Hset as [Hs|Hs]; [left|by right].
    rewrite Hu, (kp_capacity _ _ _ _ _ Hk). assert (0 <= total s freed); [|lia].
    apply total_nonneg. intros y Hy. enough (1 <= charge_of s y) by lia.
    eapply hr_charge; [exact Hh|]. by apply (kp_freed _ _ _ _ _ Hk) in Hy as [? _].
  - pose proof (settled_length key_hash s l pinned live Hh Hset ltac:(lia)) as Hl.
    destruct (Erase_ok key_hash s l pinned live k HI) as (s' & l' & pn & freed & E & HI' & Hk & Hu & Hcase); [lia|lia|].
    assert (l' = without s k l) as ->.
    { destruct Hcase as [[Hno ->]|(e & l1 & l2 & -> & -> & Hke)]; [by rewrite without_none|by rewrite without_found]. }
    exists None, s', pn, freed. split; [cbn [run_op]; by rewrite (bind_ok _ _ _ _ _ E)|].
    split; [done|]. split; [done|]. split; [|done]. cbn [spec_order]. destruct Hset as [Hs| ->]; [left|by right].
    rewrite Hu, (kp_capacity _ _ _ _ _ Hk). assert (0 <= total s freed); [|lia].
    apply total_nonneg. intros y Hy. enough (1 <= charge_of s y) by lia.
    eapply hr_charge; [exact Hh|]. by apply (kp_freed _ _ _ _ _ Hk) in Hy as [? _].
Qed.

End refinement.

(** ** Destroying a shard *)

Section destroying.
Context {PL : Platform} {V : Type}.
Implicit Types (s : Shard_ V) (l : list nat).

Lemma Unref_free s e h : sh_heap s !! e = Some h -> refs h = 1 -> linked s e ->
  exists s', Unref e s = Ok tt s' /\ sh_heap s' = delete e (sh_heap s) /\
    sh_deleted s' = sh_deleted s ++ [(key_data h, value h)].
Proof.
  intros E Hr (h2 & n & E2 & En & Hn). rewrite E in E2. injection E2 as <-.
  unfold Unref. rewrite (bind_ok _ _ _ _ _ (load_ok s e h E)), bind_assert by (by rewrite Hr).
  rewrite (bind_ok _ _ _ _ _ (store_ok s e _ h E)), Hr. change (u32 (1 - 1)) with 0. set (h' := set_refs 0 h).
  assert (sh_heap (set_heap (insert e h') s) !! e = Some h') as E' by apply lookup_insert_eq.
  rewrite (bind_ok _ _ _ _ _ (load_ok _ e h' E')). unfold h' at 1. cbn [refs set_refs Z.leb Z.compare].
  rewrite bind_gets, bind_modify. set (s1 := set_usage _ _).
  assert (key e s1 = Ok (key_data h) s1) as Ek.
  { unfold key. rewrite (bind_ok _ _ _ _ _ (load_ok s1 e h' E')), (bind_or_ub _ n) by done. by rewrite decide_False. }
  rewrite (bind_ok _ _ _ _ _ Ek), bind_modify. eexists. split; [reflexivity|].
  split; [apply delete_insert_eq|done].
Qed.

Lemma delete_loop_ok l : forall b s fuel, NoDup l -> dseg (sh_heap s) b l Lru ->
  (forall e, e ∈ l -> refs_of s e = Some 1) -> (length l < fuel)%nat ->
  exists s', loop fuel delete_round (first l Lru) s = Ok tt s' /\
    (forall e, sh_heap s' !! e = if decide (e ∈ l) then None else sh_heap s !! e) /\
    sh_deleted s' = sh_deleted s ++ omap (kv_of s) l.
Proof.
  induction l as [|e l IH]; intros b s [|fuel] Hnd Hd Hr Hf; cbn [length] in Hf; try lia.
  - exists s. split; [done|]. split; [done|]. cbn. by rewrite app_nil_r.
  - pose proof (dseg_next _ b (e :: l) e Hnd Hd ltac:(by left)) as Hlink. apply NoDup_cons in Hnd as [Hne Hnd].
    destruct Hd as [(h & E & En & _) Hd]. pose proof (Hr e ltac:(by left)) as Hre. unfold refs_of in Hre. rewrite E in Hre.
    injection Hre as Hre. destruct (Unref_free s e h E Hre Hlink) as (s1 & E1 & Hh1 & Hd1).
    assert (forall y, y ∈ l -> sh_heap s1 !! y = sh_heap s !! y) as Hfr.
    { intros y Hy. rewrite Hh1. apply lookup_delete_ne. by intros <-. }
    destruct (IH (Entry e) s1 fuel Hnd) as (s2 & E2 & Hh2 & Hd2).
    + eapply dseg_ext; [exact Hfr|exact Hd].
    + intros y Hy. unfold refs_of. rewrite Hfr by done. apply Hr. by right.
    + lia.
    + exists s2. split.
      * cbn [first].
        assert (delete_round (Entry e) s = Ok (inl (first l Lru)) s1) as Er.
        { cbn [delete_round get_next]. rewrite bind_assoc, (bind_ok _ _ _ _ _ (load_ok s e h E)), (bind_or_ub _ _ _ _ En).
          rewrite (bind_ok _ _ _ _ _ (load_ok s e h E)), bind_assert by (apply Z.eqb_eq; done).
          by rewrite (bind_ok _ _ _ _ _ E1). }
        by rewrite (loop_cont _ _ _ _ _ _ Er).
      * split.
        -- intros y. rewrite Hh2. destruct (decide (y ∈ l)) as [Hy|Hy].
           ++ rewrite decide_True; [done|by right].
           ++ rewrite Hh1. destruct (decide (y = e)) as [->|Hye].
              ** rewrite decide_True by (by left). apply lookup_delete_eq.
              ** rewrite decide_False by (rewrite elem_of_cons; tauto). by apply lookup_delete_ne.
        -- rewrite Hd2, Hd1, <- app_assoc. f_equal. cbn [omap list_omap].
           unfold kv_of at 2, cell at 1. rewrite E. cbn. f_equal.
           assert (forall y, y ∈ l -> kv_of s1 y = kv_of s y) as Hkv by (intros y Hy; unfold kv_of, cell; by rewrite Hfr).
           clear -Hkv. induction l as [|y l IHl]; [done|]. cbn. rewrite (Hkv y) by (by left).
           destruct (kv_of s y); [f_equal|]; apply IHl; intros z Hz; apply Hkv; by right.
Qed.

(** Destroying a shard for which no handle is held calls the deleter once for
    every entry, oldest first, and gives back all its memory. *)
Theorem delete_shard s l :
  lru_inv key_hash s l [] [] ->
  exists s', delete_LRUCache s = Ok tt s' /\
    (forall e, sh_heap s' !! e = if decide (e ∈ l) then None else sh_heap s !! e) /\
    sh_deleted s' = sh_deleted s ++ omap (kv_of s) l.
Proof.
  intros [Hlist _ Hh _]. pose proof Hlist as (Hnd & [Hd Hn] & _).
  destruct (delete_loop_ok l Lru s (chain_fuel s) Hnd Hd) as (s' & E & H).
  - intros e He. rewrite (hr_refs _ _ _ _ _ Hh) by (apply elem_of_app; by left). unfold counted.
    by rewrite decide_True.
  - unfold chain_fuel. apply Nat.lt_succ_r, size_at_least; [done|].
    intros e He. eapply own_in_heap; [exact Hh|]. apply elem_of_app. by left.
  - exists s'. split; [|done]. unfold delete_LRUCache. cbn [get_next]. by rewrite bind_gets, Hn, bind_gets.
Qed.

End destroying.

(** ** A client *)

Section client.
Context {X H V : Type} {CA : Cache X H V}.

Inductive Command := CInsert (k : Slice) (v : V) (c : Z) | CLookup (k : Slice) | CRelease (n : nat) | CErase (k : Slice) | CNewId.

(** A client does commands one after the other; it keeps its handles, and the values
    that lookups have found. *)
Definition run_command (cmd : Command) (st : list H * list (Slice * V)) : M X (list H * list (Slice * V)) :=
  let '(held, hits) := st in
  match cmd with
  | CInsert k v c => let! h := cache_Insert k v c in ret (h :: held, hits)
  | CLookup k =>
      let! r := cache_Lookup k in
      match r with
      | Some h => let! v := cache_Value h in ret (h :: held, hits ++ [(k, v)])
      | None => ret (held, hits)
      end
  | CRelease n =>
      match held !! n with
      | Some h => cache_Release h ;;; ret (delete n held, hits)
      | None => ret (held, hits)
      end
  | CErase k => cache_Erase k ;;; ret (held, hits)
  | CNewId => let! _ := cache_NewId in ret (held, hits)
  end.

Fixpoint run_client (cmds : list Command) (st : list H * list (Slice * V)) : M X (list H * list (Slice * V)) :=
  match cmds with
  | [] => ret st
  | cmd :: cmds => let! st := run_command cmd st in run_client cmds st
  end.

Definition inserted (cmds : list Command) : list (Slice * V) :=
  omap (fun cmd => match cmd with CInsert k v _ => Some (k, v) | _ => None end) cmds.

Context {CL : CacheLaws X H V}.

Lemma run_client_ok all cmds : forall x live hits,
  cache_inv x live (fun k v => (k, v) ∈ inserted all) -> cmds ⊆ all ->
  Forall (fun cmd => match cmd with CInsert _ _ c => 1 <= c <= cache_max_charge | _ => True end) cmds ->
  Z.of_nat (length live + length cmds) <= cache_max_live -> Forall (fun p => p ∈ inserted all) hits ->
  exists live' hits' x', run_client cmds (live.*1, hits) x = Ok (live'.*1, hits') x' /\
    cache_inv x' live' (fun k v => (k, v) ∈ inserted all) /\ Forall (fun p => p ∈ inserted all) hits'.
Proof.
  induction cmds as [|cmd cmds IH]; intros x live hits HI Hsub Hc Hl Hhits; [by exists live, hits, x|].
  apply Forall_cons in Hc as [Hc Hcs]. cbn [length] in Hl.
  assert (cmds ⊆ all) as Hsub' by (intros y Hy; apply Hsub; by right).
  cbn [run_client]. destruct cmd as [k v c|k|n|k|]; cbn [run_command].
  - destruct (cache_insert_ok k v c x live _ HI) as (h & x1 & E & HI1); [|done|lia|].
    { apply list_elem_of_omap. exists (CInsert k v c). split; [|done]. apply Hsub. by left. }
    destruct (IH x1 ((h, v) :: live) hits HI1 Hsub' Hcs) as (live' & hits' & x2 & E2 & H2); [cbn [length]; lia|done|].
    exists live', hits', x2. split; [|done]. by rewrite bind_assoc, (bind_ok _ _ _ _ _ E), bind_ret.
  - destruct (cache_lookup_ok k x live _ HI) as (r & x1 & E & Hr); [lia|].
    rewrite bind_assoc, (bind_ok _ _ _ _ _ E). destruct r as [h|].
    + destruct Hr as (v & Hkv & HI1). rewrite bind_assoc.
      rewrite (bind_ok _ _ _ _ _ (cache_value_ok h v x1 _ _ HI1 ltac:(by left))), bind_ret.
      apply (IH x1 ((h, v) :: live) (hits ++ [(k, v)]) HI1 Hsub' Hcs); [cbn [length]; lia|].
      apply Forall_app. by split; [|constructor].
    + rewrite bind_ret. apply (IH x1 live hits); try done. lia.
  - rewrite list_lookup_fmap. destruct (live !! n) as [[h v]|] eqn:En; cbn [fmap option_fmap option_map fst].
    + assert (live ≡ₚ (h, v) :: delete n live) as Hp by (by apply delete_Permutation).
      destruct (cache_release_ok h v x (delete n live) _ (cache_inv_perm _ _ _ _ Hp HI)) as (x1 & E & HI1).
      rewrite bind_assoc, (bind_ok _ _ _ _ _ E), bind_ret.
      assert (delete n live.*1 = (delete n live).*1) as -> by (by rewrite list_fmap_delete).
      apply (IH x1 (delete n live) hits); try done. apply Permutation_length in Hp. cbn [length] in Hp. lia.
    + rewrite bind_ret. apply (IH x live hits); try done. lia.
  - destruct (cache_erase_ok k x live _ HI) as (x1 & E & HI1). rewrite bind_assoc, (bind_ok _ _ _ _ _ E), bind_ret.
    apply (IH x1 live hits); try done. lia.
  - destruct (cache_new_id_ok x live _ HI) as (id & x1 & E & HI1). rewrite bind_assoc, (bind_ok _ _ _ _ _ E), bind_ret.
    apply (IH x1 live hits); try done. lia.
Qed.

End client.
Arguments Command : clear implicits.

(** C22: A client that uses a new LRU cache, inserting, looking up, erasing, asking for
    ids and releasing the handles it holds in any order, never runs into undefined
    behaviour, as long as it does not do more than [max_live] things and charges and
    capacity stay within bounds; and what lookups find is what was inserted for the
    key.  At the end the shards are in order again. *)
Theorem cache_client {PL : Platform} {V : Type} (max_live max_charge capacity : Z) (cmds : list (Command V)) :
  bounds_ok max_live max_charge (shard_capacity capacity) -> Z.of_nat (length cmds) <= max_live ->
  Forall (fun cmd => match cmd with CInsert _ _ c => 1 <= c <= max_charge | _ => True end) cmds ->
  exists x held hits x', NewLRUCache (V := V) capacity = Some x /\ run_client cmds ([], []) x = Ok (held, hits) x' /\
    Forall (fun p => p ∈ inserted cmds) hits /\ cache_state max_live max_charge x' held.
Proof.
  intros Hb Hl Hc. destruct (NewLRUCache_ok (V := V) max_live max_charge capacity Hb) as (x & E & Hcs & Hnone & _).
  destruct (@run_client_ok _ _ _ Sharded_Cache (Sharded_laws max_live max_charge) cmds cmds x [] []) as (live & hits & x' & E' & HI & Hh);
    try done.
  - split; [done|]. split; [cbn [length]; pose proof (proj1 (proj1 (proj2 Hb))); lia|]. split; [by intros e v ?%not_elem_of_nil|].
    intros e k v. unfold kv. by rewrite Hnone.
  - exists x, live.*1, hits, x'. split; [done|]. split; [done|]. split; [done|]. apply HI.
Qed.

(** ** Instances *)

#[local] Instance cache_platform : Platform := {| size_bits := 64; size_bits_cases := or_intror eq_refl |}.

(** One entry, which only the cache refers to. *)
Definition sample_entry : LRUHandle Z := mk_handle 7 (Some None) (Some Lru) (Some Lru) 10 [1] 1 1286456752.

Definition sample_shard : Shard_ Z :=
  mk_shard {[0%nat := sample_entry]} [] (mk_lru 100 10 (Entry 0) (Entry 0) (mk_handle_table 4 1 [Some 0%nat; None; None; None])).

Lemma sample_shard_ok : lru_inv key_hash sample_shard [0%nat] [] [] /\ settled sample_shard [0%nat].
Proof.
  assert (forall e, e ∈ [0%nat] -> e = 0%nat) as H0 by (by intros e ->%list_elem_of_singleton).
  split; [|by left]. split.
  - split; [apply NoDup_singleton|]. split; split; try done; (split; [by exists sample_entry|done]).
  - exists [[0%nat]; []; []; []]. split; [|done]. split; try done.
    + by exists 2.
    + constructor; [|by repeat constructor]. split; [done|]. by exists sample_entry, None.
    + apply NoDup_singleton.
    + intros [|[|[|[|i]]]] c0 e E Hin; try discriminate E; injection E as <-; [|by apply not_elem_of_nil in Hin..].
      apply H0 in Hin as ->. by exists sample_entry.
  - split; try done.
    + apply NoDup_singleton.
    + intros e ->%H0. exists [1], 7, 10. split; [by vm_compute|done].
    + by intros e ->%H0.
    + by intros e ?%not_elem_of_nil.
    + apply NoDup_singleton.
  - by intros e ?%not_elem_of_nil.
Qed.

Lemma shard_refines_witness :
  exists r s' pinned' freed, run_op (OpInsert [2] 8 95) sample_shard = Ok r s' /\
    spec_result sample_shard s' [0%nat] (OpInsert [2] 8 95) r /\
    lru_inv key_hash s' (spec_order sample_shard [0%nat] [] (OpInsert [2] 8 95) r) pinned' (spec_live [] (OpInsert [2] 8 95) r) /\
    settled s' (spec_order sample_shard [0%nat] [] (OpInsert [2] 8 95) r) /\
    keeps [0%nat] (spec_order sample_shard [0%nat] [] (OpInsert [2] 8 95) r ++ pinned') freed sample_shard s'.
Proof.
  apply (shard_refines sample_shard [0%nat] [] [] (OpInsert [2] 8 95)).
  - apply sample_shard_ok.
  - apply sample_shard_ok.
  - done.
  - done.
  - split; [done|by vm_compute].
Defined.

(** The new entry takes the place of the old one, whose deleter is called. *)
Example insert_evicts :
  match run_op (OpInsert [2] 8 95) sample_shard with
  | Ok r s => r = Some 1%nat /\ sh_deleted s = [([1], 7)] /\ usage_ (sh_lru s) = 95
  | _ => False
  end.
Proof. by vm_compute. Qed.

Lemma delete_shard_witness :
  exists s', delete_LRUCache sample_shard = Ok tt s' /\
    (forall e, sh_heap s' !! e = if decide (e ∈ [0%nat]) then None else sh_heap sample_shard !! e) /\
    sh_deleted s' = [([1], 7)].
Proof. apply (delete_shard sample_shard [0%nat]). apply sample_shard_ok. Defined.

Definition sample_commands : list (Command Z) :=
  [CInsert [1] 7 10; CLookup [1]; CRelease 0; CNewId; CErase [1]; CLookup [1]; CRelease 0].

Lemma cache_client_witness :
  exists x held hits x', NewLRUCache 8388608 = Some x /\ run_client sample_commands ([], []) x = Ok (held, hits) x' /\
    Forall (fun p => p ∈ [([1], 7)]) hits /\ cache_state 1000 4194304 x' held.
Proof.
  apply (cache_client 1000 4194304 8388608 sample_commands).
  - by vm_compute.
  - done.
  - by repeat constructor.
Defined.

Example sample_commands_run :
  match NewLRUCache 8388608 with
  | Some x => match run_client sample_commands ([], []) x with
              | Ok (held, hits) x' => held = [] /\ hits = [([1], 7)] /\ sc_deleted x' = [([1], 7)] /\ sc_heap x' = ∅
              | _ => False
              end
  | None => False
  end.
Proof. by vm_compute. Qed.
