(* ===== verification/Table.v ===== *)
(** * Reading tables (table.h, table.cc)

    A table is opened by reading its footer, its index and, if there is a filter
    policy, its filters; an iterator over it opens the blocks that it comes to,
    through the cache if there is one. *)

From Stdlib Require Import ZArith Lia String.
From stdpp Require Import base option list strings gmap.
From S2P Require Import Prelude Memory Slice Coding Crc32c Status Iterator Bloom FilterBlock Block Format TableBuilder.
From S2P Require Import LRU Env.

Record ReadOptions := mk_read_options { verify_checksums : bool; fill_cache : bool }.

Definition new_ReadOptions : ReadOptions := mk_read_options false true.

(** ** Iterators over one block *)

(** What a block iterator does when it is destroyed. *)
Inductive Cleanup (H : Type) :=
  | DeleteBlock
  | ReleaseBlock (h : H).
Arguments DeleteBlock {H}. Arguments ReleaseBlock {H} h.

(** An iterator that [Block::NewIterator] has made, or one for an error. *)
Record TableIter (H : Type) := mk_table_iter {
  ti_data : Slice;
  ti_iter : NewBlockIterator;
  ti_cleanup : list (Cleanup H)
}.
Arguments mk_table_iter {H}. Arguments ti_data {H}. Arguments ti_iter {H}. Arguments ti_cleanup {H}.

Section table_iter.
Context (C : Comparator) {H : Type}.

Definition set_iter (i : NewBlockIterator) (t : TableIter H) : TableIter H :=
  mk_table_iter (ti_data t) i (ti_cleanup t).

(** A virtual function, which [f] selects. *)
Definition dispatch {A} (f : forall S, Iterator S -> M S A) : M (TableIter H) A := fun t =>
  match ti_iter t with
  | BlockIterator r n it =>
      zoom (fun _ => it) (fun it => set_iter (BlockIterator r n it)) (f _ (Block_Iter C (ti_data t) r n)) t
  | ErrorIterator s => zoom (fun _ => s) (fun s => set_iter (ErrorIterator s)) (f _ EmptyIterator) t
  | NoEntries => zoom (fun _ => Status_OK) (fun _ t => t) (f _ EmptyIterator) t
  end.

Definition Table_Iter : Iterator (TableIter H) := {|
  it_Valid t :=
    match ti_iter t with
    | BlockIterator r n it => @it_Valid _ (Block_Iter C (ti_data t) r n) it
    | _ => false
    end;
  it_SeekToFirst := dispatch (fun _ I => it_SeekToFirst);
  it_SeekToLast := dispatch (fun _ I => it_SeekToLast);
  it_Seek k := dispatch (fun _ I => it_Seek k);
  it_Next := dispatch (fun _ I => it_Next);
  it_Prev := dispatch (fun _ I => it_Prev);
  it_key := dispatch (fun _ I => it_key);
  it_value := dispatch (fun _ I => it_value);
  it_status t :=
    match ti_iter t with
    | BlockIterator r n it => @it_status _ (Block_Iter C (ti_data t) r n) it
    | ErrorIterator s => Some s
    | NoEntries => Some Status_OK
    end
|}.

End table_iter.

(** ** Table *)

Record Table (F : Type) := mk_table {
  t_options : Options;
  t_file : F;
  cache_id : Z;
  t_filter : option (FilterPolicy * FilterBlockReader);
  filter_data : option Slice;
  metaindex_handle : BlockHandle;
  t_index_block : Block
}.
Arguments mk_table {F}. Arguments t_options {F}. Arguments t_file {F}. Arguments cache_id {F}.
Arguments t_filter {F}. Arguments filter_data {F}. Arguments metaindex_handle {F}. Arguments t_index_block {F}.

Section table.
Context {PL : Platform} {PM : Placement} {SN : Snappy} {F : Type} {RA : RandomAccessFile F}.
Context {X H : Type} {CA : Cache X H Block}.

(** The block cache, if there is one. *)
Abbreviation TM := (M (option X)).

Definition on_cache {A} (m : M X A) : TM A := fun c =>
  match c with
  | Some x => zoom (fun _ => x) (fun x _ => Some x) m c
  | None => Ub
  end.

Definition paranoid_options (o : Options) : ReadOptions :=
  if paranoid_checks o then mk_read_options true (fill_cache new_ReadOptions) else new_ReadOptions.

(** The rest of the table, with its filter. *)
Definition set_filter (t : Table F) (f : option (FilterPolicy * FilterBlockReader)) (d : option Slice) : Table F :=
  mk_table (t_options t) (t_file t) (cache_id t) f d (metaindex_handle t) (t_index_block t).

Definition ReadFilter (policy : FilterPolicy) (filter_handle_value : Slice) (t : Table F) : option (Table F) :=
  d ← BlockHandle_DecodeFrom new_BlockHandle filter_handle_value;
  let '(s, filter_handle, _) := d in
  if negb (ok s) then Some t
  else
    r ← ReadBlock (t_file t) (verify_checksums (paranoid_options (t_options t))) filter_handle;
    let '(s, block) := r in
    if negb (ok s) then Some t
    else
      let filter_data := if heap_allocated block then Some (data block) else filter_data t in
      reader ← new_FilterBlockReader (data block);
      Some (set_filter t (Some (policy, reader)) filter_data).

(** The value of an iterator that is at the given key. *)
Definition value_at (key : Slice) : M (TableIter H) (option Slice) :=
  @it_Seek _ (Table_Iter BytewiseComparator) key ;;;
  let! iter := gets id in
  if @it_Valid _ (Table_Iter BytewiseComparator) iter then
    let! k := @it_key _ (Table_Iter BytewiseComparator) in
    if slice_eqb k key then let! v := @it_value _ (Table_Iter BytewiseComparator) in ret (Some v)
    else ret None
  else ret None.

Definition ReadMeta (footer : Footer) (t : Table F) : option (Table F) :=
  match filter_policy (t_options t) with
  | None => Some t
  | Some policy =>
      r ← ReadBlock (t_file t) (verify_checksums (paranoid_options (t_options t))) (metaindex_handle_ footer);
      let '(s, contents) := r in
      if negb (ok s) then Some t
      else
        meta ← new_Block (data contents);
        iter ← NewIterator meta;
        match value_at (filter_key policy) (mk_table_iter (data_ meta) iter []) with
        | Ok (Some v) _ => ReadFilter policy v t
        | Ok None _ => Some t
        | _ => None
        end
  end.

(** The status, and the table if it is OK. *)
Definition Open (o : Options) (file : F) (size : Z) : TM (Status * option (Table F)) :=
  if size <? Z.of_nat kEncodedLength then
    let! s := or_ub (Status_Corruption (c_string "file is too short to be an sstable") []) in ret (s, None)
  else
    let '(s, footer_input, _) :=
      ReadAt (u64 (size - Z.of_nat kEncodedLength)) (Z.of_nat kEncodedLength) file in
    if negb (ok s) then ret (s, None)
    else
      let! d := or_ub (Footer_DecodeFrom new_Footer footer_input) in
      let '(s, footer, _) := d in
      if negb (ok s) then ret (s, None)
      else
        let! r := or_ub (ReadBlock file (verify_checksums (paranoid_options o)) (index_handle_ footer)) in
        let '(s, contents) := r in
        if negb (ok s) then ret (s, None)
        else
          let! index_block := or_ub (new_Block (data contents)) in
          let! block_cache := gets id in
          let! id := match block_cache with Some _ => on_cache cache_NewId | None => ret 0 end in
          let rep := mk_table o file id None None (metaindex_handle_ footer) index_block in
          let! t := or_ub (ReadMeta footer rep) in
          ret (s, Some t).

(** What happens when a block iterator is destroyed, in the order of registration. *)
Definition run_cleanup (c : Cleanup H) : TM unit :=
  match c with
  | DeleteBlock => ret tt
  | ReleaseBlock h => on_cache (cache_Release h)
  end.

Fixpoint run_cleanups (l : list (Cleanup H)) : TM unit :=
  match l with
  | [] => ret tt
  | c :: l => run_cleanup c ;;; run_cleanups l
  end.

Definition delete_iter (i : TableIter H) : TM unit := run_cleanups (ti_cleanup i).

Section opened.
Context (t : Table F).

Definition cache_key (handle : BlockHandle) : Slice :=
  EncodeFixed64 (cache_id t) ++ EncodeFixed64 (offset_ handle).

(** The block of a handle from the file; none if it cannot be read. *)
Definition read_block (o : ReadOptions) (handle : BlockHandle) : TM (Status * option (Block * bool)) :=
  let! r := or_ub (ReadBlock (t_file t) (verify_checksums o) handle) in
  let '(s, contents) := r in
  if ok s then let! b := or_ub (new_Block (data contents)) in ret (s, Some (b, cachable contents))
  else ret (s, None).

(** The block, with the handle of the cache that keeps it. *)
Definition find_block (o : ReadOptions) (handle : BlockHandle) : TM (Status * option (Block * option H)) :=
  let! block_cache := gets id in
  match block_cache with
  | Some _ =>
      let! cache_handle := on_cache (cache_Lookup (cache_key handle)) in
      match cache_handle with
      | Some h => let! b := on_cache (cache_Value h) in ret (Status_OK, Some (b, Some h))
      | None =>
          let! r := read_block o handle in
          let '(s, b) := r in
          match b with
          | Some (b, cachable) =>
              if cachable && fill_cache o then
                let! h := on_cache (cache_Insert (cache_key handle) b (Z.of_nat (Block.size_ b))) in
                ret (s, Some (b, Some h))
              else ret (s, Some (b, None))
          | None => ret (s, None)
          end
      end
  | None =>
      let! r := read_block o handle in
      let '(s, b) := r in
      ret (s, (fun b => (fst b, None)) <$> b)
  end.

Definition BlockReader (o : ReadOptions) (index_value : Slice) : TM (TableIter H) :=
  let! d := or_ub (BlockHandle_DecodeFrom new_BlockHandle index_value) in
  let '(s, handle, _) := d in
  let! r := if ok s then find_block o handle else ret (s, None) in
  let '(s, block) := r in
  match block with
  | Some (b, cache_handle) =>
      let! iter := or_ub (NewIterator b) in
      let cleanup := match cache_handle with None => DeleteBlock | Some h => ReleaseBlock h end in
      ret (mk_table_iter (data_ b) iter (RegisterCleanup cleanup []))
  | None => ret (mk_table_iter [] (ErrorIterator s) [])
  end.

Definition index_iterator : option (TableIter H) :=
  iter ← NewIterator (t_index_block t); Some (mk_table_iter (data_ (t_index_block t)) iter []).

(** [Table::NewIterator]: the cache is in the state of the iterator. *)
Definition Table_NewIterator (block_cache : option X)
    : option (TwoLevelIterator (TableIter H) (TableIter H) (option X)) :=
  index ← index_iterator;
  @NewTwoLevelIterator _ _ _ (Table_Iter (comparator (t_options t))) index block_cache.

Abbreviation C := (comparator (t_options t)).

(** A move or a question to an iterator that the caller owns. *)
Definition ask {A} (m : M (TableIter H) A) (i : TableIter H) : TM (A * TableIter H) :=
  match m i with Ok a i => ret (a, i) | _ => ub end.

(** [filter != NULL && handle.DecodeFrom(..).ok() && !filter->KeyMayMatch(..)] *)
Definition filtered_out (handle_value k : Slice) : TM bool :=
  match t_filter t with
  | None => ret false
  | Some (policy, reader) =>
      let! d := or_ub (BlockHandle_DecodeFrom new_BlockHandle handle_value) in
      let '(s, handle, _) := d in
      if ok s then let! b := or_ub (@BlockKeyMayMatch policy reader (offset_ handle) k) in ret (negb b)
      else ret false
  end.

(** The status, and what the callback is called with. *)
Definition InternalGet (o : ReadOptions) (k : Slice) : TM (Status * option (Slice * Slice)) :=
  let! iiter := or_ub index_iterator in
  let! r := ask (@it_Seek _ (Table_Iter C) k) iiter in
  let '(_, iiter) := r in
  let! r :=
    if @it_Valid _ (Table_Iter C) iiter then
      let! r := ask (@it_value _ (Table_Iter C)) iiter in
      let '(handle_value, _) := r in
      let! out := filtered_out handle_value k in
      if out : bool then ret (Status_OK, None)
      else
        let! block_iter := BlockReader o handle_value in
        let! r := ask (@it_Seek _ (Table_Iter C) k) block_iter in
        let '(_, block_iter) := r in
        let! saved :=
          if @it_Valid _ (Table_Iter C) block_iter then
            let! key := ask (@it_key _ (Table_Iter C)) block_iter in
            let! value := ask (@it_value _ (Table_Iter C)) block_iter in
            ret (Some (fst key, fst value))
          else ret None in
        let! s := or_ub (@it_status _ (Table_Iter C) block_iter) in
        delete_iter block_iter ;;;
        ret (s, saved)
    else ret (Status_OK, None) in
  let '(s, saved) := r in
  let! s := if ok s then or_ub (@it_status _ (Table_Iter C) iiter) else ret s in
  delete_iter iiter ;;;
  ret (s, saved).

Definition ApproximateOffsetOf (key : Slice) : TM Z :=
  let! index_iter := or_ub index_iterator in
  let! r := ask (@it_Seek _ (Table_Iter C) key) index_iter in
  let '(_, index_iter) := r in
  let! result :=
    if @it_Valid _ (Table_Iter C) index_iter then
      let! r := ask (@it_value _ (Table_Iter C)) index_iter in
      let! d := or_ub (BlockHandle_DecodeFrom new_BlockHandle (fst r)) in
      let '(s, handle, _) := d in
      ret (if ok s then offset_ handle else offset_ (metaindex_handle t))
    else ret (offset_ (metaindex_handle t)) in
  delete_iter index_iter ;;;
  ret result.

End opened.
End table.
