(* ===== verification/TableFile.v ===== *)
(** * Reading what the table builder has written

    A table that is opened from a finished file has, for every block, its handle
    in the index; the iterator over it and [InternalGet] see the entries that were
    added. *)

From Stdlib Require Import ZArith Lia Sorted String.
From stdpp Require Import base option list strings sorting gmap.
From S2P Require Import Prelude Memory Wire Slice Coding Crc32c Status Iterator TwoLevelProof Bloom FilterBlock Block.
From S2P Require Import BlockTheorems Format TableBuilder TableTheorems TableBuild LRU LRUTheorems Table Env.

(** ** Cursors whose position relation is not known *)

Definition at_cursor {S} (I : Iterator S) (C : Comparator) (target_ok : Slice -> Prop)
    (kvs : list (Slice * Slice)) (keep : S -> Prop) (i : nat) (s : S) : Prop :=
  exists pos, cursor_over I C target_ok kvs pos /\ pos i s /\ forall j s', pos j s' -> keep s'.

Lemma at_cursor_over {S} (I : Iterator S) C target_ok kvs keep :
  cursor_over I C target_ok kvs (at_cursor I C target_ok kvs keep).
Proof.
  split.
  - intros i s k v (pos & H & Hp & _). by apply (cursor_entry _ _ _ _ _ H i).
  - intros i s (pos & H & Hp & _). by apply (cursor_end _ _ _ _ _ H i).
  - intros i s (pos & H & Hp & _). by apply (cursor_status _ _ _ _ _ H i).
  - intros i s (pos & H & Hp & Hk). destruct (cursor_first _ _ _ _ _ H i s Hp) as (s' & E & Hp').
    exists s'. split; [done|]. by exists pos.
  - intros i s (pos & H & Hp & Hk). destruct (cursor_last _ _ _ _ _ H i s Hp) as (s' & E & Hp').
    exists s'. split; [done|]. by exists pos.
  - intros i s t (pos & H & Hp & Hk) Ht. destruct (cursor_seek _ _ _ _ _ H i s t Hp Ht) as (s' & E & Hp').
    exists s'. split; [done|]. by exists pos.
  - intros i s (pos & H & Hp & Hk) Hi. destruct (cursor_next _ _ _ _ _ H i s Hp Hi) as (s' & E & Hp').
    exists s'. split; [done|]. by exists pos.
  - intros i s (pos & H & Hp & Hk) Hi. destruct (cursor_prev _ _ _ _ _ H i s Hp Hi) as (s' & E & Hp').
    exists s'. split; [done|]. by exists pos.
Qed.

(** The iterator of a table over one block is a cursor where the block's own is. *)
Lemma table_iter_cursor {H} C raw r n kvs pos target_ok (cl : list (Cleanup H)) :
  cursor_over (Block_Iter C raw r n) C target_ok kvs pos ->
  cursor_over (Table_Iter C) C target_ok kvs
    (fun i t => exists it, t = mk_table_iter raw (BlockIterator r n it) cl /\ pos i it).
Proof.
  intros HC.
  assert (forall A (f : forall S, Iterator S -> M S A) it a it',
    f _ (Block_Iter C raw r n) it = Ok a it' ->
    dispatch C f (mk_table_iter raw (BlockIterator r n it) cl) =
      Ok a (mk_table_iter raw (BlockIterator r n it') cl)) as Hd.
  { intros A f it a it' E. unfold dispatch. cbn [ti_iter ti_data]. unfold zoom. by rewrite E. }
  split; cbn [it_Valid it_key it_value it_status it_SeekToFirst it_SeekToLast it_Seek it_Next it_Prev Table_Iter].
  - intros i s k v (it & -> & Hp) E. destruct (cursor_entry _ _ _ _ _ HC i it k v Hp E) as (Hv & Hk & Hval).
    split; [done|]. split; by apply Hd.
  - intros i s (it & -> & Hp) Hi. by apply (cursor_end _ _ _ _ _ HC i it Hp).
  - intros i s (it & -> & Hp). by apply (cursor_status _ _ _ _ _ HC i it Hp).
  - intros i s (it & -> & Hp). destruct (cursor_first _ _ _ _ _ HC i it Hp) as (it' & E & Hp').
    eexists. split; [by apply Hd|by exists it'].
  - intros i s (it & -> & Hp). destruct (cursor_last _ _ _ _ _ HC i it Hp) as (it' & E & Hp').
    eexists. split; [by apply Hd|by exists it'].
  - intros i s t (it & -> & Hp) Ht. destruct (cursor_seek _ _ _ _ _ HC i it t Hp Ht) as (it' & E & Hp').
    eexists. split; [by apply Hd|by exists it'].
  - intros i s (it & -> & Hp) Hi. destruct (cursor_next _ _ _ _ _ HC i it Hp Hi) as (it' & E & Hp').
    eexists. split; [by apply Hd|by exists it'].
  - intros i s (it & -> & Hp) Hi. destruct (cursor_prev _ _ _ _ _ HC i it Hp Hi) as (it' & E & Hp').
    eexists. split; [by apply Hd|by exists it'].
Qed.

(** ** The blocks of a table *)

Section contents.
Context (o : Options) {L : ComparatorLaws (comparator o)} {SK : ShortKeys (comparator o)}.

Abbreviation C := (comparator o).

(** The entries that a value of the index stands for. *)
Definition content_of (done : list (Slice * DataBlock)) (h : Slice) : list (Slice * Slice) :=
  all_of (List.filter (fun db => slice_eqb (handle_bytes (db_handle db)) h) (done.*2)).

Lemma handle_bytes_inj h h' : handle_ok h -> handle_ok h' -> handle_bytes h = handle_bytes h' -> h = h'.
Proof.
  intros Hh Hh' E. pose proof (BlockHandle_DecodeFrom_eq h h [] Hh ltac:(constructor)) as E1.
  pose proof (BlockHandle_DecodeFrom_eq h' h [] Hh' ltac:(constructor)) as E2. rewrite E in E1. congruence.
Qed.

Lemma all_of_filter_none dbs h :
  (forall db, db ∈ dbs -> handle_bytes (db_handle db) <> h) ->
  List.filter (fun db => slice_eqb (handle_bytes (db_handle db)) h) dbs = [].
Proof.
  intros Hne. apply filter_none, Forall_forall. intros db Hdb. apply not_true_is_false.
  intros E%slice_eqb_eq. by apply (Hne db).
Qed.

Section done.
Context (done : list (Slice * DataBlock)).
Context (Hok : Forall (fun db => handle_ok (db_handle db)) (done.*2)).
Context (Hsorted : StronglySorted Z.lt ((fun db => offset_ (db_handle db)) <$> done.*2)).

(** Blocks at the same offset are the same. *)
Lemma offset_once i j db db' :
  (done.*2) !! i = Some db -> (done.*2) !! j = Some db' -> offset_ (db_handle db) = offset_ (db_handle db') -> i = j.
Proof.
  intros Hi Hj E.
  assert (forall i db, (done.*2) !! i = Some db ->
    ((fun db => offset_ (db_handle db)) <$> done.*2) !! i = Some (offset_ (db_handle db))) as Hoff
    by (intros k d Hk; by rewrite list_lookup_fmap, Hk).
  destruct (Nat.lt_trichotomy i j) as [Hlt|[->|Hlt]]; [|done|].
  - pose proof (StronglySorted_lookup _ _ i j _ _ Hsorted (Hoff _ _ Hi) (Hoff _ _ Hj) Hlt). lia.
  - pose proof (StronglySorted_lookup _ _ j i _ _ Hsorted (Hoff _ _ Hj) (Hoff _ _ Hi) Hlt). lia.
Qed.

Lemma handle_once i j db db' :
  (done.*2) !! i = Some db -> (done.*2) !! j = Some db' -> handle_bytes (db_handle db) = handle_bytes (db_handle db') -> i = j.
Proof.
  intros Hi Hj E. rewrite Forall_forall in Hok.
  apply handle_bytes_inj in E; [|apply Hok; by eapply list_elem_of_lookup_2..].
  apply (offset_once i j db db'); congruence.
Qed.

Lemma content_of_block i db : (done.*2) !! i = Some db -> content_of done (handle_bytes (db_handle db)) = db_entries db.
Proof.
  intros Hi. unfold content_of. rewrite <- (take_drop_middle _ _ _ Hi). rewrite List.filter_app. cbn [List.filter].
  assert (slice_eqb (handle_bytes (db_handle db)) (handle_bytes (db_handle db)) = true) as -> by (by apply slice_eqb_eq).
  rewrite (all_of_filter_none (take i (done.*2))), (all_of_filter_none (drop (S i) (done.*2))).
  - apply all_of_one.
  - intros db' Hdb' E. apply list_elem_of_lookup in Hdb' as (j & Hj). rewrite lookup_drop in Hj.
    pose proof (handle_once _ _ _ _ Hj Hi E). lia.
  - intros db' Hdb' E. apply list_elem_of_lookup in Hdb' as (j & Hj). apply lookup_take_Some in Hj as [Hj Hlt].
    pose proof (handle_once _ _ _ _ Hj Hi E). lia.
Qed.

Lemma index_lookup i sep h : index_entries done !! i = Some (sep, h) ->
  exists db, done !! i = Some (sep, db) /\ h = handle_bytes (db_handle db) /\ (done.*2) !! i = Some db /\
    content_of done h = db_entries db.
Proof.
  unfold index_entries. intros ([s db] & [= -> ->] & Hi)%list_lookup_fmap_Some. cbn [fst snd].
  assert ((done.*2) !! i = Some db) as Hdb by (by rewrite list_lookup_fmap, Hi).
  exists db. split; [done|]. split; [done|]. split; [done|]. by eapply content_of_block.
Qed.

Lemma all_entries_done : all_entries (index_entries done) (content_of done) = all_of (done.*2).
Proof.
  unfold all_entries, all_of. f_equal. unfold index_entries at 1. rewrite <- !list_fmap_compose.
  apply list_fmap_ext. intros i [sep db] Hi. cbn. apply (content_of_block i). by rewrite list_lookup_fmap, Hi.
Qed.

Lemma separators_separated :
  separators o done [] -> good_keys o (all_of (done.*2)) ->
  Forall (fun db => db_entries db <> []) (done.*2) ->
  separated C (index_entries done) (content_of done).
Proof.
  intros [Hv Ha Hb _] Hg Hne. rewrite Forall_forall in Hv, Ha. rewrite Forall_forall in Hne.
  unfold good_keys in Hg. rewrite Forall_forall in Hg.
  assert (forall i sep db, done !! i = Some (sep, db) -> (sep, db) ∈ done) as Hin
    by (intros; by eapply list_elem_of_lookup_2).
  assert (forall i sep db kv, done !! i = Some (sep, db) -> kv ∈ db_entries db -> @valid C L kv.1) as Hkey.
  { intros i sep db kv Hi Hkv. apply Hg. unfold all_of. apply list_elem_of_In, in_concat.
    exists (db_entries db). split; [|by apply list_elem_of_In].
    apply list_elem_of_In, list_elem_of_fmap. exists db. split; [done|].
    apply list_elem_of_fmap. exists (sep, db). split; [done|by eapply Hin]. }
  assert (forall i j a b, done !! i = Some a -> done !! j = Some b -> (i < j)%nat ->
    forall kv, kv ∈ db_entries b.2 -> before C a.1 kv.1 = true) as Hbelow.
  { intros i j a b Hi Hj Hlt. revert b Hj. induction Hlt as [|j Hlt IH]; intros b Hj kv Hkv.
    - pose proof (proj1 (Hb i a b Hi Hj)) as Hall. rewrite Forall_forall in Hall. by apply Hall.
    - destruct (lookup_lt_is_Some_2 done j) as [[sep db] E]; [apply lookup_lt_Some in Hj; lia|].
      destruct (db_entries db) as [|kv' l] eqn:Edb.
      { exfalso. apply (Hne db); [|done]. apply list_elem_of_fmap. exists (sep, db). split; [done|by eapply Hin]. }
      assert (kv' ∈ db_entries db) as Hkv' by (rewrite Edb; by left).
      pose proof (IH (sep, db) E kv' Hkv') as H1.
      pose proof (Ha _ (Hin _ _ _ E)) as Hall. cbn [fst snd] in Hall. rewrite Forall_forall in Hall.
      pose proof (proj1 (Hb j (sep, db) b E Hj)) as Hall2. rewrite Forall_forall in Hall2. destruct a as [sa da], b as [sb dbb].
      apply (key_before_trans C _ sep).
      + apply (Hv _ (Hin _ _ _ Hi)).
      + apply (Hv _ (Hin _ _ _ E)).
      + apply (Hkey _ _ _ kv Hj Hkv).
      + apply (before_at_most o _ kv'.1); [apply (Hv _ (Hin _ _ _ Hi))|apply (Hkey _ _ _ kv' E Hkv')|apply (Hv _ (Hin _ _ _ E))|done|by apply Hall].
      + by apply (Hall2 kv). }
  split.
  - intros i sep h (db & Hi & _)%index_lookup. apply (Hv _ (Hin _ _ _ Hi)).
  - intros i sep h k v (db & Hi & _ & _ & ->)%index_lookup Hkv. by apply (Hkey i sep db (k, v)).
  - intros i j [sa ha] [sb hb] (da & Hi & _)%index_lookup (db & Hj & _)%index_lookup Hlt. cbn [fst].
    destruct (db_entries db) as [|kv l] eqn:Edb.
    { exfalso. apply (Hne db); [|done]. apply list_elem_of_fmap. exists (sb, db). split; [done|by eapply Hin]. }
    assert (kv ∈ db_entries db) as Hkv by (rewrite Edb; by left).
    pose proof (Ha _ (Hin _ _ _ Hj)) as Hall. cbn [fst snd] in Hall. rewrite Forall_forall in Hall.
    apply (before_at_most o _ kv.1); [apply (Hv _ (Hin _ _ _ Hi))|apply (Hkey _ _ _ kv Hj Hkv)|apply (Hv _ (Hin _ _ _ Hj))| |by apply Hall].
    by apply (Hbelow i j _ (sb, db) Hi Hj Hlt).
  - intros i sep h k v (db & Hi & _ & _ & ->)%index_lookup Hkv.
    pose proof (Ha _ (Hin _ _ _ Hi)) as Hall. cbn [fst snd] in Hall. rewrite Forall_forall in Hall. by apply (Hall (k, v)).
  - intros i j [sa ha] [sb hb] k v (da & Hi & _)%index_lookup (db & Hj & _ & _ & Hc)%index_lookup Hlt. cbn [fst snd].
    rewrite Hc. intros Hkv. by apply (Hbelow i j _ (sb, db) Hi Hj Hlt (k, v)).
Qed.

End done.
End contents.

(** ** An opened table *)

Section opened.
Context {PL : Platform} {PM : Placement} {SN : Snappy} {SL : SnappyLaws}.
Context {G : Type} {RA : RandomAccessFile G} {SR : StoredRandom G}.
Context {X H : Type} {CA : Cache X H Block} {CL : CacheLaws X H Block}.
Context (o : Options) {L : ComparatorLaws (comparator o)} {SK : ShortKeys (comparator o)} {OF : OptionFilter o}.
Context (t : Table G) (done : list (Slice * DataBlock)).

Abbreviation C := (comparator o).

(** The handle and the file lead to the contents of the block. *)
Definition readable (h : BlockHandle) (raw : Slice) : Prop :=
  handle_ok h /\ forall verify, exists c, ReadBlock (t_file t) verify h = Some (Status_OK, c) /\ data c = raw.

Record serves : Prop := mk_serves {
  sv_options : t_options t = o;
  sv_filter : match filter_policy o with
              | None => t_filter t = None
              | Some p => exists fr, t_filter t = Some (p, fr) /\ filter_reads p fr (done.*2)
              end;
  sv_index : exists raw, new_Block raw = Some (t_index_block t) /\ built_from raw (index_entries done);
  sv_blocks : Forall (fun db => readable (db_handle db) (db_raw db) /\ built_from (db_raw db) (db_entries db) /\
                                db_entries db <> []) (done.*2);
  sv_handles : StronglySorted Z.lt ((fun db => offset_ (db_handle db)) <$> done.*2);
  sv_separators : separators o done [];
  sv_sorted : sorted_keys o (all_of (done.*2));
  sv_good : good_keys o (all_of (done.*2));
  sv_size : entries_size (all_of (done.*2)) < 2 ^ 28
}.

Context (HS : serves).

(** What the cache may hold under the keys of the table. *)
Definition consistent (held : Slice -> Block -> Prop) : Prop :=
  forall k v db, held k v -> db ∈ done.*2 -> k = cache_key t (db_handle db) -> new_Block (db_raw db) = Some v.

Definition table_held (held : Slice -> Block -> Prop) (k : Slice) (v : Block) : Prop :=
  held k v \/ exists db, db ∈ done.*2 /\ k = cache_key t (db_handle db) /\ new_Block (db_raw db) = Some v.

(** What an iterator over a block has in the cache. *)
Definition cleanup_of (p : option (H * Block)) : list (Cleanup H) :=
  [match p with Some (h, _) => ReleaseBlock h | None => DeleteBlock end].

(** The state of the cache when iterators hold [l] of it, and others [live]. *)
Definition cache_at (held : Slice -> Block -> Prop) (live : list (H * Block)) (l : list (option (H * Block)))
    (c : option X) : Prop :=
  match c with
  | Some x => cache_inv x (omap id l ++ live) (table_held held)
  | None => Forall (fun p => p = None) l
  end.

Definition data_pos (h : Slice) (p : option (H * Block)) : nat -> TableIter H -> Prop :=
  at_cursor (Table_Iter C) C (@valid C L) (content_of done h) (fun d => ti_cleanup d = cleanup_of p).

Definition index_pos : nat -> TableIter H -> Prop :=
  at_cursor (Table_Iter C) C (@valid C L) (index_entries done) (fun d => ti_cleanup d = []).

Lemma blocks_ok : Forall (fun db => handle_ok (db_handle db)) (done.*2).
Proof. eapply Forall_impl; [exact (sv_blocks HS)|]. by intros db ((Hh & _) & _). Qed.

Lemma serves_separated : separated C (index_entries done) (content_of done).
Proof.
  apply (separators_separated o done blocks_ok (sv_handles HS) (sv_separators HS) (sv_good HS)).
  eapply Forall_impl; [exact (sv_blocks HS)|]. by intros db (_ & _ & ?).
Qed.

Lemma sorted_ascending kvs : good_keys o kvs -> sorted_keys o kvs -> ascending C kvs.
Proof.
  intros Hg Hs i k v k' v' Hi Hj. pose proof (StronglySorted_lookup _ _ i (S i) _ _ Hs Hi Hj ltac:(lia)) as Hb.
  cbn [fst] in Hb. unfold good_keys in Hg. rewrite Forall_forall in Hg.
  apply (before_gt o); [by apply (Hg (k, v)); eapply list_elem_of_lookup_2| |done].
  apply (Hg (k', v')). by eapply list_elem_of_lookup_2.
Qed.

(** A block that was built, seen through the iterator of the table. *)
Lemma built_at_cursor raw kvs cl : built_from raw kvs -> good_keys o kvs -> sorted_keys o kvs ->
  exists blk it, new_Block raw = Some blk /\ NewIterator blk = Some it /\
    at_cursor (Table_Iter C) C (@valid C L) kvs (fun d => ti_cleanup d = cl) (length kvs)
      (mk_table_iter (H := H) (data_ blk) it cl).
Proof.
  intros Hb Hg Hs.
  destruct (built_cursor C raw kvs Hb (sorted_ascending kvs Hg Hs) Hg) as (blk & r & n & it & pos & E1 & E2 & E3 & HC & Hp).
  exists blk, (BlockIterator r n it). split; [done|]. split; [done|]. eexists.
  split; [apply (table_iter_cursor C raw r n kvs pos _ cl HC)|]. rewrite E2. split; [by exists it|].
  by intros j s' (it' & -> & _).
Qed.

Lemma block_keys db : db ∈ done.*2 -> good_keys o (db_entries db) /\ sorted_keys o (db_entries db).
Proof.
  intros (i & Hi)%list_elem_of_lookup.
  pose proof (sv_good HS) as Hg. pose proof (sv_sorted HS) as Hs. unfold good_keys, sorted_keys in *.
  rewrite <- (take_drop_middle _ _ _ Hi) in Hg, Hs. rewrite all_of_app in Hg, Hs.
  change (all_of (db :: drop (S i) (done.*2))) with (db_entries db ++ all_of (drop (S i) (done.*2))) in Hg, Hs.
  apply Forall_app in Hg as [_ [Hg _]%Forall_app].
  rewrite !StronglySorted_app in Hs. by destruct Hs as (_ & _ & _ & Hs & _).
Qed.

(** The index has fewer entries than the table, and is sorted by its separators. *)
Lemma index_sorted : good_keys o (index_entries done) /\ sorted_keys o (index_entries done).
Proof.
  pose proof serves_separated as Hsep. split.
  - apply Forall_forall. intros [sep h] (i & Hi)%list_elem_of_lookup. by apply (sep_valid _ _ _ Hsep i sep h).
  - apply StronglySorted_by_index. intros i j a b Hi Hj Hlt. by apply (sep_sorted _ _ _ Hsep i j).
Qed.

Lemma index_length : (length (index_entries done) <= length (all_of (done.*2)))%nat.
Proof.
  unfold index_entries. rewrite length_fmap, <- (length_fmap snd).
  pose proof (sv_blocks HS) as Hb. induction Hb as [|db dbs (_ & _ & Hne) _ IH]; [done|].
  change (all_of (db :: dbs)) with (db_entries db ++ all_of dbs). rewrite length_app. cbn [length].
  destruct (db_entries db); [done|]. cbn [length]. lia.
Qed.

Lemma index_iterator_ok : exists it, index_iterator t = Some it /\ index_pos (length (index_entries done)) it.
Proof.
  destruct (sv_index HS) as (raw & E & Hb). destruct index_sorted as [Hg Hs].
  destruct (built_at_cursor raw _ [] Hb Hg Hs) as (blk & it & E1 & E2 & Hc).
  rewrite E in E1. injection E1 as <-. unfold index_iterator. rewrite E2. by eexists.
Qed.

Lemma cache_key_inj h h' : handle_ok h -> handle_ok h' -> cache_key t h = cache_key t h' -> offset_ h = offset_ h'.
Proof.
  unfold cache_key, handle_ok, unset. intros [Ho _] [Ho' _] E.
  apply app_inj_1 in E as [_ E]; [|done].
  pose proof (DecodeFixed64_EncodeFixed64 (offset_ h) [] ltac:(lia)) as E1.
  pose proof (DecodeFixed64_EncodeFixed64 (offset_ h') [] ltac:(lia)) as E2.
  rewrite app_nil_r in *. rewrite E in E1. congruence.
Qed.

Lemma consistent_table_held held : consistent held -> consistent (table_held held).
Proof.
  intros Hc k v db [Hh|(db' & Hin' & -> & E)] Hin Hk; [by eapply Hc|].
  pose proof blocks_ok as Hok. rewrite Forall_forall in Hok.
  apply cache_key_inj in Hk; [|by apply Hok..].
  apply list_elem_of_lookup in Hin as (i & Hi). apply list_elem_of_lookup in Hin' as (j & Hj).
  assert (i = j) as ->; [|congruence]. by apply (offset_once done (sv_handles HS) i j db db').
Qed.

(** ** Opening a block *)

Section block_reader.
Context (held : Slice -> Block -> Prop) (Hheld : consistent held) (live : list (H * Block)) (ro : ReadOptions).
Context (Hroom : Z.of_nat (length live) + 2 <= cache_max_live) (Hcharge : 2 ^ 28 + 8 <= cache_max_charge).

Abbreviation cache_ok := (cache_at held live).

Lemma read_block_ok db (c : option X) : db ∈ done.*2 ->
  exists blk cachable, read_block t ro (db_handle db) c = Ok (Status_OK, Some (blk, cachable)) c /\
    new_Block (db_raw db) = Some blk.
Proof.
  intros Hin. pose proof (sv_blocks HS) as Hb. rewrite Forall_forall in Hb.
  destruct (Hb db Hin) as ((_ & Hread) & Hbf & _). destruct (Hread (verify_checksums ro)) as (cs & E & Hd).
  destruct (block_keys db Hin) as [Hg Hs].
  destruct (built_at_cursor _ _ [] Hbf Hg Hs) as (blk & _ & E1 & _).
  exists blk, (cachable cs). split; [|done]. unfold read_block. rewrite (bind_or_ub _ _ _ _ E).
  cbn [ok state_ Status_OK]. by rewrite Hd, (bind_or_ub _ _ _ _ E1).
Qed.

(** A block is not empty, and not larger than the table. *)
Lemma block_charge db blk : db ∈ done.*2 -> new_Block (db_raw db) = Some blk ->
  1 <= Z.of_nat (Block.size_ blk) <= cache_max_charge.
Proof.
  intros Hin E. pose proof (sv_blocks HS) as Hb. rewrite Forall_forall in Hb. destruct (Hb db Hin) as (_ & Hbf & _).
  pose proof (built_block_size _ _ _ Hbf E) as Hs. pose proof (sv_size HS) as Hall.
  apply list_elem_of_lookup in Hin as (i & Hi). rewrite <- (take_drop_middle _ _ _ Hi), all_of_app, entries_size_app in Hall.
  change (all_of (db :: drop (S i) (done.*2))) with (db_entries db ++ all_of (drop (S i) (done.*2))) in Hall.
  rewrite entries_size_app in Hall. pose proof (entries_size_nonneg (all_of (take i (done.*2)))).
  pose proof (entries_size_nonneg (all_of (drop (S i) (done.*2)))). lia.
Qed.

Lemma handles_held (l : list (option (H * Block))) : (length (omap id l ++ live) <= length l + length live)%nat.
Proof.
  rewrite length_app. enough (length (omap id l) <= length l)%nat by lia.
  induction l as [|[p|] l IH]; cbn; [done|lia|lia].
Qed.

Lemma find_block_ok db l (c : option X) : db ∈ done.*2 -> cache_ok l c -> (length l < 2)%nat ->
  exists blk p c', find_block t ro (db_handle db) c = Ok (Status_OK, Some (blk, fst <$> p)) c' /\
    new_Block (db_raw db) = Some blk /\ cache_ok (p :: l) c'.
Proof.
  intros Hin Hc Hl. pose proof (handles_held l) as Hlen.
  unfold find_block. rewrite bind_gets. unfold id. destruct c as [x|].
  - destruct (cache_lookup_ok (cache_key t (db_handle db)) x _ _ Hc ltac:(lia)) as (r & x' & El & Hr).
    assert (on_cache (cache_Lookup (cache_key t (db_handle db))) (Some x) = Ok r (Some x')) as E1
      by (unfold on_cache, zoom; by rewrite El).
    rewrite (bind_ok _ _ _ _ _ E1). destruct r as [h|].
    + destruct Hr as (v & Hv & Hinv).
      pose proof (cache_value_ok h v x' _ _ Hinv ltac:(by left)) as Ev.
      assert (on_cache (cache_Value h) (Some x') = Ok v (Some x')) as E2 by (unfold on_cache, zoom; by rewrite Ev).
      rewrite (bind_ok _ _ _ _ _ E2). exists v, (Some (h, v)), (Some x'). split; [done|].
      split; [|done]. by apply (consistent_table_held held Hheld (cache_key t (db_handle db)) v db).
    + destruct (read_block_ok db (Some x') Hin) as (blk & cb & Er & Eb). rewrite (bind_ok _ _ _ _ _ Er).
      destruct (cb && fill_cache ro).
      * destruct (cache_insert_ok (cache_key t (db_handle db)) blk (Z.of_nat (Block.size_ blk)) x' _ _ Hr)
          as (h & x2 & Ei & Hinv); [right; by exists db|by apply (block_charge db)|lia|].
        assert (on_cache (cache_Insert (cache_key t (db_handle db)) blk (Z.of_nat (Block.size_ blk))) (Some x') =
                Ok h (Some x2)) as E2 by (unfold on_cache, zoom; by rewrite Ei).
        rewrite (bind_ok _ _ _ _ _ E2). by exists blk, (Some (h, blk)), (Some x2).
      * by exists blk, None, (Some x').
  - destruct (read_block_ok db None Hin) as (blk & cb & Er & Eb). rewrite (bind_ok _ _ _ _ _ Er).
    exists blk, None, None. split; [done|]. split; [done|]. by constructor.
Qed.

Lemma BlockReader_ok db l (c : option X) : db ∈ done.*2 -> cache_ok l c -> (length l < 2)%nat ->
  exists d p c', BlockReader t ro (handle_bytes (db_handle db)) c = Ok d c' /\ cache_ok (p :: l) c' /\
    data_pos (handle_bytes (db_handle db)) p (length (content_of done (handle_bytes (db_handle db)))) d.
Proof.
  intros Hin Hc Hl. pose proof blocks_ok as Hok. unfold BlockReader.
  assert (handle_ok (db_handle db)) as Hh by (rewrite Forall_forall in Hok; by apply Hok).
  pose proof (BlockHandle_DecodeFrom_eq (db_handle db) new_BlockHandle [] Hh ltac:(constructor)) as Ed.
  rewrite app_nil_r in Ed. rewrite (bind_or_ub _ _ _ _ Ed). cbn [ok state_ Status_OK].
  destruct (find_block_ok db l c Hin Hc Hl) as (blk & p & c' & Ef & Eb & Hc'). rewrite (bind_ok _ _ _ _ _ Ef).
  pose proof (sv_blocks HS) as Hb. rewrite Forall_forall in Hb. destruct (Hb db Hin) as (_ & Hbf & _).
  destruct (block_keys db Hin) as [Hg Hs].
  destruct (built_at_cursor _ _ (cleanup_of p) Hbf Hg Hs) as (blk' & it & E1 & E2 & Hcur).
  rewrite Eb in E1. injection E1 as <-. rewrite (bind_or_ub _ _ _ _ E2).
  eexists _, p, c'. split; [reflexivity|]. split; [done|].
  apply list_elem_of_lookup in Hin as (i & Hi). unfold data_pos.
  rewrite (content_of_block done Hok (sv_handles HS) i db Hi). by destruct p as [[h v]|].
Qed.

Lemma delete_iter_ok h p i d l (c : option X) : data_pos h p i d -> cache_ok (p :: l) c ->
  exists c', delete_iter d c = Ok tt c' /\ cache_ok l c'.
Proof.
  intros (pos & _ & Hp & Hkeep) Hc. unfold delete_iter. rewrite (Hkeep i d Hp). unfold cleanup_of.
  destruct p as [[h' v]|]; cbn [run_cleanups run_cleanup].
  - destruct c as [x|].
    + destruct (cache_release_ok h' v x _ _ Hc) as (x' & E & Hx').
      assert (on_cache (cache_Release h') (Some x) = Ok tt (Some x')) as E1 by (unfold on_cache, zoom; by rewrite E).
      rewrite (bind_ok _ _ _ _ _ E1). by exists (Some x').
    + apply Forall_inv in Hc. done.
  - rewrite bind_ret. exists c. split; [done|]. destruct c as [x|]; [done|]. by apply Forall_inv_tail in Hc.
Qed.

Lemma table_block_source :
  @block_source _ _ _ (Table_Iter C) C (BlockReader t ro) delete_iter (@valid C L)
    (index_entries done) (content_of done) data_pos cache_ok 2.
Proof.
  assert (forall h, h ∈ (index_entries done).*2 -> exists db, db ∈ done.*2 /\ h = handle_bytes (db_handle db)) as Hdb.
  { intros h ([sep h'] & -> & Hin)%list_elem_of_fmap. unfold index_entries in Hin.
    apply list_elem_of_fmap in Hin as ([s db] & [= -> ->] & Hin). exists db. split; [|done].
    apply list_elem_of_fmap. by exists (s, db). }
  split.
  - intros h p _. apply at_cursor_over.
  - intros l c h Hc Hl (db & Hin & ->)%Hdb. by apply BlockReader_ok.
  - intros h p i d l c _. apply delete_iter_ok.
  - intros l l' [x|] Hp; cbn.
    + apply cache_inv_perm. by rewrite Hp.
    + by rewrite Hp.
Qed.

(** ** The iterator over the table *)

Lemma table_iterator fuel (c : option X) :
  cache_ok [] c -> (length (index_entries done) < fuel)%nat ->
  exists it pos, Table_NewIterator t c = Some it /\ pos (length (all_of (done.*2))) it /\
    cursor_over (@TwoLevel_Iterator _ _ _ (Table_Iter C) (Table_Iter C) (BlockReader t ro) delete_iter fuel)
      C (@valid C L) (all_of (done.*2)) pos /\
    forall n it, pos n it ->
      exists it', two_level_delete delete_iter (fun _ => ret tt) it = Ok tt it' /\ cache_ok [] (arg_ it').
Proof.
  intros Hc Hf. destruct index_iterator_ok as (ii & Ei & Hii). unfold Table_NewIterator. rewrite Ei, (sv_options HS).
  cbn [mbind option_bind]. pose proof table_block_source as HB. pose proof serves_separated as Hsep.
  pose proof (at_cursor_over (Table_Iter C) C (@valid C L) (index_entries done)
    (fun d : TableIter H => ti_cleanup d = [])) as HI.
  pose proof (all_entries_done done blocks_ok (sv_handles HS)) as Hall.
  destruct (@NewTwoLevelIterator_ok _ _ _ _ (Table_Iter C) C (@valid C L) (index_entries done) (content_of done)
    index_pos data_pos cache_ok HI [] ii c Hii Hc) as (it & E & Hpos).
  exists it, (two_level_pos (index_entries done) (content_of done) index_pos data_pos cache_ok []).
  rewrite <- Hall. split; [done|]. split; [done|]. split.
  - by apply (@two_level_cursor _ _ _ _ (Table_Iter C) (Table_Iter C) C L (BlockReader t ro) delete_iter
      (@valid C L) (fun _ H => H) (index_entries done) (content_of done) index_pos data_pos cache_ok 2 HI HB Hsep [] ltac:(cbn; lia) fuel).
  - intros n it'. by eapply (two_level_delete_ok C).
Qed.

(** ** A lookup *)

(** Where a seek in sorted entries finds a key. *)
Lemma keys_before_found kvs m k k' v :
  sorted_keys o kvs -> good_keys o kvs -> @valid C L k -> kvs !! m = Some (k', v) -> @Compare C k' k = Some 0 ->
  keys_before C k kvs = m.
Proof.
  intros Hs Hg Hk Hm E. unfold good_keys in Hg. rewrite Forall_forall in Hg.
  assert (forall i kv, kvs !! i = Some kv -> @valid C L kv.1) as Hv
    by (intros i kv Hi; apply Hg; by eapply list_elem_of_lookup_2).
  assert (forall i kv, kvs !! i = Some kv -> before C kv.1 k = (i <? keys_before C k kvs)%nat) as Hf.
  { apply (filter_length_prefix (fun kv => before C kv.1 k)). intros i j a b Hi Hj Hlt Hb.
    apply (key_before_trans C _ b.1); [by eapply Hv|by eapply Hv|done| |done].
    by apply (StronglySorted_lookup _ _ i j a b Hs Hi Hj). }
  pose proof (Hf m _ Hm) as H1. unfold before in H1. cbn [fst] in H1. rewrite E in H1. cbn in H1.
  symmetry in H1. apply Nat.ltb_ge in H1.
  destruct (Nat.lt_trichotomy (keys_before C k kvs) m) as [Hlt|[->|Hlt]]; [|done|lia].
  destruct (lookup_lt_is_Some_2 kvs (keys_before C k kvs)) as [a Ha]; [apply lookup_lt_Some in Hm; lia|].
  pose proof (StronglySorted_lookup _ _ _ m a _ Hs Ha Hm Hlt) as Hb.
  assert (before C a.1 k = true) as Hbk.
  { apply (before_at_most o _ k'); [by eapply Hv|by apply (Hv _ _ Hm)|done|done|by exists 0]. }
  rewrite (Hf _ _ Ha), Nat.ltb_irrefl in Hbk. done.
Qed.

(** The block that a seek in the index leads to has the key, if there is one that
    has it. *)
Lemma seek_block k k' v :
  @valid C L k -> (k', v) ∈ all_of (done.*2) -> @Compare C k' k = Some 0 ->
  exists sep h, index_entries done !! keys_before C k (index_entries done) = Some (sep, h) /\
    (k', v) ∈ content_of done h.
Proof.
  intros Hk Hin E. pose proof serves_separated as Hsep.
  rewrite <- (all_entries_done done blocks_ok (sv_handles HS)) in Hin.
  apply elem_of_blocks in Hin as (i0 & h0 & Hi0 & Hin0).
  apply list_lookup_fmap_Some in Hi0 as ([sep0 h'] & -> & Hi0). cbn [snd] in *.
  pose proof (sep_keys _ _ _ Hsep i0 sep0 h' k' v Hi0 Hin0) as Hk'.
  set (i := keys_before C k (index_entries done)).
  assert (before C k' k = false) as Hnb by (unfold before; by rewrite E).
  destruct (Nat.lt_trichotomy i0 i) as [Hlt|[Heq|Hlt]].
  - pose proof (separators_before C _ _ Hsep k i0 _ Hk Hi0) as Hb. fold i in Hb. cbn [fst] in Hb.
    rewrite (proj2 (Nat.ltb_lt _ _) Hlt) in Hb.
    destruct (sep_above _ _ _ Hsep i0 sep0 h' k' v Hi0 Hin0) as (r & Er & Hr).
    rewrite (before_le_trans C k' sep0 k r) in Hnb; try done. by eapply sep_valid.
  - rewrite <- Heq. by exists sep0, h'.
  - destruct (lookup_lt_is_Some_2 (index_entries done) i) as [[sep h] Hi]; [apply lookup_lt_Some in Hi0; lia|].
    pose proof (sep_below _ _ _ Hsep i i0 _ _ k' v Hi Hi0 Hlt Hin0) as Hb. cbn [fst] in Hb.
    pose proof (separators_before C _ _ Hsep k i _ Hk Hi) as Hb2. fold i in Hb2. cbn [fst] in Hb2.
    rewrite Nat.ltb_irrefl in Hb2.
    rewrite (before_at_most o sep k' k) in Hb2; try done; [by eapply sep_valid|by exists 0].
Qed.

(** The block is missed only if all of it is before the key, and its separator is not. *)
Lemma seek_missed k kv sep h :
  @valid C L k -> index_entries done !! keys_before C k (index_entries done) = Some (sep, h) ->
  (length (content_of done h) <= keys_before C k (content_of done h))%nat ->
  all_of (done.*2) !! keys_before C k (all_of (done.*2)) = Some kv ->
  exists start, @valid C L start /\ @FindShortestSeparator C start kv.1 = Some sep /\
    before C start k = true /\ before C sep k = false.
Proof.
  intros Hk Hi Hfull Hkv. pose proof serves_separated as Hsep. pose proof (seek_position C _ _ Hsep k Hk) as Hpos.
  cbv zeta in Hpos. set (i := keys_before C k (index_entries done)) in *. rewrite Hi in Hpos.
  pose proof (separators_before C _ _ Hsep k i _ Hk Hi) as Hnb. fold i in Hnb. rewrite Nat.ltb_irrefl in Hnb.
  pose proof (keys_before_le C k (content_of done h)) as Hle.
  rewrite (all_entries_done done blocks_ok (sv_handles HS)) in Hpos. rewrite Hpos in Hkv.
  replace (base _ _ i + _)%nat with (base (index_entries done) (content_of done) (S i) + 0)%nat in Hkv
    by (rewrite (base_S _ _ i sep h Hi); lia).
  rewrite <- (all_entries_done done blocks_ok (sv_handles HS)) in Hkv.
  destruct (index_lookup done blocks_ok (sv_handles HS) i sep h Hi) as (db & Hdone & -> & Hdb & Hcont).
  destruct (index_entries done !! S i) as [[sep' h']|] eqn:Hi'.
  2:{ rewrite (base_end _ (content_of done) (S i)) in Hkv by (by apply lookup_ge_None_1). apply lookup_lt_Some in Hkv. lia. }
  destruct (index_lookup done blocks_ok (sv_handles HS) (S i) sep' h' Hi') as (db' & Hdone' & -> & Hdb' & Hcont').
  pose proof (sv_blocks HS) as Hblocks. rewrite Forall_forall in Hblocks.
  destruct (Hblocks db) as (_ & _ & Hne); [by eapply list_elem_of_lookup_2|].
  destruct (Hblocks db') as (_ & _ & Hne'); [by eapply list_elem_of_lookup_2|].
  rewrite (entries_lookup _ _ (S i) 0 sep' _ Hi') in Hkv by (rewrite Hcont'; destruct (db_entries db'); [done|cbn; lia]).
  rewrite Hcont' in Hkv. rewrite Hcont in Hfull.
  destruct (se_below _ _ _ (sv_separators HS) i _ _ Hdone Hdone') as [_ Hmade]. cbn [snd] in Hmade.
  destruct (prev_key_elem (db_entries db) Hne) as [v Hin].
  exists (prev_key (db_entries db) (length (db_entries db))).
  split; [|split; [apply Hmade; by destruct (db_entries db')|split; [|done]]].
  - destruct (block_keys db) as [Hg _]; [by eapply list_elem_of_lookup_2|].
    unfold good_keys in Hg. rewrite Forall_forall in Hg. apply (Hg _ Hin).
  - by apply (keys_before_full C k (db_entries db) Hfull _ v).
Qed.

Lemma ask_ok {A} (m : M (TableIter H) A) i a i' (c : option X) : m i = Ok a i' -> ask m i c = Ok (a, i') c.
Proof. intros E. unfold ask. by rewrite E. Qed.

(** Nothing in the block can be what is looked for. *)
Definition ruled_out (k : Slice) (kvs : list (Slice * Slice)) : Prop :=
  exists p, filter_policy o = Some p /\ forall kv, kv ∈ kvs ->
    exists f, Forall is_byte f /\ @KeyMayMatch p kv.1 f = Some true /\ @KeyMayMatch p k f = Some false.

Lemma filtered_out_ok k db (c : option X) : @valid C L k -> db ∈ done.*2 ->
  exists out, filtered_out t (handle_bytes (db_handle db)) k c = Ok out c /\ (out = true -> ruled_out k (db_entries db)).
Proof.
  intros Hk Hdb. unfold filtered_out, ruled_out. pose proof (sv_filter HS) as Hf. destruct (filter_policy o) as [p|] eqn:Ep.
  2:{ rewrite Hf. by exists false. }
  destruct Hf as (fr & -> & Hreads). pose proof blocks_ok as Hok. rewrite Forall_forall in Hok.
  pose proof (BlockHandle_DecodeFrom_eq (db_handle db) new_BlockHandle [] (Hok db Hdb) ltac:(constructor)) as E.
  rewrite app_nil_r in E. rewrite (bind_or_ub _ _ _ _ E). cbn [ok state_ Status_OK].
  pose proof (sv_blocks HS) as Hb. rewrite Forall_forall in Hb. destruct (Hb db Hdb) as (_ & _ & Hne).
  destruct (db_entries db) as [|kv l] eqn:Ee; [done|].
  destruct (Hreads db kv Hdb) as (f & Hby & Hl & Hask & _); [rewrite Ee; by left|].
  destruct (tf_total (TableFilter := option_filter p Ep) k f Hk Hby Hl) as [b Eb].
  rewrite (bind_or_ub _ b) by (by rewrite Hask). exists (negb b). split; [done|]. intros Hout. destruct b; [done|].
  exists p. split; [done|]. intros kv' Hkv'. destruct (Hreads db kv' Hdb) as (f' & Hby' & Hl' & Hask' & Hm); [by rewrite Ee|].
  exists f'. split; [done|]. split; [done|]. rewrite <- Hask', Hask. done.
Qed.

Lemma ruled_out_not k kvs k' v : @valid C L k -> @valid C L k' -> ruled_out k kvs -> (k', v) ∈ kvs -> @Compare C k' k <> Some 0.
Proof.
  intros Hk Hk' (p & Ep & H') Hin E. destruct (H' _ Hin) as (f & Hby & H1 & H2).
  pose proof (tf_same (TableFilter := option_filter p Ep) k' k f Hk' Hk E Hby H1). congruence.
Qed.

(** The part of a lookup that is about the block: it gives the entry at which a seek
    in the block stops. *)
Lemma block_get_ok k db (c : option X) : @valid C L k -> db ∈ done.*2 -> cache_ok [] c ->
  exists c', (let! block_iter := BlockReader t ro (handle_bytes (db_handle db)) in
    let! r := ask (@it_Seek _ (Table_Iter C) k) block_iter in
    let '(_, block_iter) := r in
    let! saved :=
      if @it_Valid _ (Table_Iter C) block_iter then
        let! key := ask (@it_key _ (Table_Iter C)) block_iter in
        let! value := ask (@it_value _ (Table_Iter C)) block_iter in
        ret (Some (fst key, fst value))
      else ret None in
    let! s := or_ub (@it_status _ (Table_Iter C) block_iter) in
    delete_iter block_iter ;;;
    ret (s, saved)) c = Ok (Status_OK, db_entries db !! keys_before C k (db_entries db)) c' /\ cache_ok [] c'.
Proof.
  intros Hk Hin Hc. destruct (BlockReader_ok db [] c Hin Hc ltac:(cbn; lia)) as (d & p & c1 & Eb & Hc1 & Hd).
  pose proof (at_cursor_over (Table_Iter C) C (@valid C L) (content_of done (handle_bytes (db_handle db)))
    (fun d : TableIter H => ti_cleanup d = cleanup_of p)) as HD.
  destruct (cursor_seek _ _ _ _ _ HD _ d k Hd Hk) as (d' & Esd & Hd').
  destruct (delete_iter_ok _ _ _ _ [] c1 Hd' Hc1) as (c2 & Edel & Hc2).
  pose proof Hin as (i & Hi)%list_elem_of_lookup. rewrite (content_of_block done blocks_ok (sv_handles HS) i db Hi) in *.
  set (j := keys_before C k (db_entries db)) in *. pose proof (cursor_valid HD j d' Hd') as Hvd.
  pose proof (cursor_status _ _ _ _ _ HD j d' Hd') as Hst'. exists c2. split; [|done].
  rewrite (bind_ok _ _ _ _ _ Eb), (bind_ok _ _ _ _ _ (ask_ok _ _ _ _ c1 Esd)), Hvd.
  destruct (Nat.ltb_spec j (length (db_entries db))) as [Hlt|Hge].
  - destruct (lookup_lt_is_Some_2 _ _ Hlt) as [[k' v] Ej]. rewrite Ej.
    destruct (cursor_entry _ _ _ _ _ HD j d' k' v Hd' Ej) as (_ & Hkey & Hvalue).
    rewrite !bind_assoc, (bind_ok _ _ _ _ _ (ask_ok _ _ _ _ c1 Hkey)).
    rewrite !bind_assoc, (bind_ok _ _ _ _ _ (ask_ok _ _ _ _ c1 Hvalue)), bind_ret.
    by rewrite (bind_or_ub _ _ _ _ Hst'), (bind_ok _ _ _ _ _ Edel).
  - rewrite (lookup_ge_None_2 _ _ Hge), bind_ret.
    by rewrite (bind_or_ub _ _ _ _ Hst'), (bind_ok _ _ _ _ _ Edel).
Qed.

(** The callback gets the first entry that is not before the key, unless that entry
    is in a later block than the one the index leads to, or the filter tells it
    apart; an entry with the key itself is never missed. *)
Lemma InternalGet_ok k (c : option X) :
  @valid C L k -> cache_ok [] c ->
  exists saved c', InternalGet t ro k c = Ok (Status_OK, saved) c' /\ cache_ok [] c' /\
    (forall kv, saved = Some kv -> all_of (done.*2) !! keys_before C k (all_of (done.*2)) = Some kv) /\
    (forall k' v, (k', v) ∈ all_of (done.*2) -> @Compare C k' k = Some 0 -> saved = Some (k', v)) /\
    (forall kv, saved = None -> all_of (done.*2) !! keys_before C k (all_of (done.*2)) = Some kv ->
       (exists start sep, @valid C L start /\ @FindShortestSeparator C start kv.1 = Some sep /\
         before C start k = true /\ before C sep k = false) \/ ruled_out k [kv]).
Proof.
  intros Hk Hc. destruct index_iterator_ok as (ii & Ei & Hii).
  pose proof (at_cursor_over (Table_Iter C) C (@valid C L) (index_entries done)
    (fun d : TableIter H => ti_cleanup d = [])) as HI.
  destruct (cursor_seek _ _ _ _ _ HI _ ii k Hii Hk) as (ii' & Es & Hii').
  pose proof (seek_position C (index_entries done) (content_of done) serves_separated k Hk) as Hseek.
  cbv zeta in Hseek. set (i := keys_before C k (index_entries done)) in *.
  rewrite (all_entries_done done blocks_ok (sv_handles HS)) in Hseek.
  assert (ti_cleanup ii' = []) as Hcl by (destruct Hii' as (pos & _ & Hp & Hkeep); by apply (Hkeep i)).
  unfold InternalGet. rewrite (sv_options HS), (bind_or_ub _ _ _ _ Ei), (bind_ok _ _ _ _ _ (ask_ok _ _ _ _ c Es)).
  pose proof (cursor_status _ _ _ _ _ HI i ii' Hii') as Hst.
  assert (delete_iter ii' = ret tt) as Hdel by (unfold delete_iter; by rewrite Hcl).
  destruct (index_entries done !! i) as [[sep h]|] eqn:E.
  - destruct (cursor_entry _ _ _ _ _ HI i ii' sep h Hii' E) as (Hv & _ & Hval). rewrite Hv.
    destruct (index_lookup done blocks_ok (sv_handles HS) i sep h E) as (db & Hi & -> & Hdb & Hcont).
    assert (db ∈ done.*2) as Hin by (by eapply list_elem_of_lookup_2).
    destruct (filtered_out_ok k db c Hk Hin) as (out & Eout & Hout).
    rewrite Hcont in *. set (j := keys_before C k (db_entries db)) in *. destruct (block_keys db Hin) as [Hg Hs].
    assert (forall kv, db_entries db !! j = Some kv -> all_of (done.*2) !! keys_before C k (all_of (done.*2)) = Some kv) as Hhere.
    { intros kv Hkv. rewrite Hseek, <- (all_entries_done done blocks_ok (sv_handles HS)).
      rewrite (entries_lookup _ _ _ _ _ _ E); rewrite Hcont; [done|by eapply lookup_lt_Some]. }
    assert (forall kv, all_of (done.*2) !! keys_before C k (all_of (done.*2)) = Some kv ->
      db_entries db !! j = None -> exists start sep, @valid C L start /\
        @FindShortestSeparator C start kv.1 = Some sep /\ before C start k = true /\ before C sep k = false) as Hlater.
    { intros kv Hkv Hge%lookup_ge_None_1. unfold j in Hge. rewrite <- Hcont in Hge.
      destruct (seek_missed k kv sep (handle_bytes (db_handle db)) Hk E Hge Hkv) as (start & Hstart). by exists start, sep. }
    assert (forall k' v, (k', v) ∈ all_of (done.*2) -> @Compare C k' k = Some 0 -> (k', v) ∈ db_entries db) as Hblock.
    { intros k' v Hin' Ek. destruct (seek_block k k' v Hk Hin' Ek) as (sep' & h & E' & Hinh).
      fold i in E'. rewrite E in E'. injection E' as <- <-. by rewrite Hcont in Hinh. }
    rewrite !bind_assoc, (bind_ok _ _ _ _ _ (ask_ok _ _ _ _ c Hval)), bind_assoc, (bind_ok _ _ _ _ _ Eout). destruct out.
    + exists None, c. split; [|split; [done|split; [done|split]]].
      * rewrite bind_ret. cbn [ok state_ Status_OK]. by rewrite (bind_or_ub _ _ _ _ Hst), Hdel, bind_ret.
      * intros k' v Hin' Ek. exfalso. apply (Hblock k' v) in Hin'; [|done]. unfold good_keys in Hg. rewrite Forall_forall in Hg.
        by apply (ruled_out_not k _ k' v Hk (Hg _ Hin') (Hout eq_refl) Hin').
      * intros kv _ Hkv. destruct (db_entries db !! j) as [kv'|] eqn:Ej; [right|by left; apply Hlater].
        destruct (Hout eq_refl) as (p & Ep & Hall). exists p. split; [done|]. intros x ->%list_elem_of_singleton.
        apply Hall. rewrite (Hhere kv' eq_refl) in Hkv. injection Hkv as <-. by eapply list_elem_of_lookup_2.
    + destruct (block_get_ok k db c Hk Hin Hc) as (c2 & Eg & Hc2).
      exists (db_entries db !! j), c2. split; [|split; [done|split; [done|split]]].
      * rewrite (bind_ok _ _ _ _ _ Eg). cbn [ok state_ Status_OK]. by rewrite (bind_or_ub _ _ _ _ Hst), Hdel, bind_ret.
      * intros k' v Hin' Ek. pose proof (Hblock k' v Hin' Ek) as (m & Hm)%list_elem_of_lookup.
        unfold j. by rewrite (keys_before_found _ m k k' v Hs Hg Hk Hm Ek).
      * intros kv Hnone Hkv. left. by apply Hlater.
  - pose proof (cursor_end _ _ _ _ _ HI i ii' Hii' ltac:(by apply lookup_ge_None_1)) as Hv. rewrite Hv.
    exists None, c. split; [|split; [done|split; [done|split]]].
    + rewrite bind_ret. cbn [ok state_ Status_OK]. by rewrite (bind_or_ub _ _ _ _ Hst), Hdel, bind_ret.
    + intros k' v Hin' Ek. destruct (seek_block k k' v Hk Hin' Ek) as (sep' & h' & E' & _).
      fold i in E'. by rewrite E in E'.
    + intros kv _ Hkv. apply lookup_lt_Some in Hkv. rewrite Hseek in Hkv.
      rewrite (base_end _ (content_of done) i) in Hkv by (by apply lookup_ge_None_1).
      rewrite (all_entries_done done blocks_ok (sv_handles HS)) in Hkv. lia.
Qed.

End block_reader.

End opened.

(** * Tables, from the builder to the reader *)

(** The calls of a client: entries are added one after the other. *)
Fixpoint add_all_entries {PL : Platform} {PM : Placement} {SN : Snappy} {F : Type} {WF : WritableFile F}
    (kvs : list (Slice * Slice)) : M (Rep F) unit :=
  match kvs with
  | [] => ret tt
  | kv :: kvs => TableBuilder_Add kv.1 kv.2 ;;; add_all_entries kvs
  end.

Section file.
Context {PL : Platform} {PM : Placement} {SN : Snappy} {SL : SnappyLaws}.
Context {F : Type} {WF : WritableFile F} {RF : ReliableFile F}.
Context {G : Type} {RA : RandomAccessFile G} {SR : StoredRandom G}.
Context {X H : Type} {CA : Cache X H Block} {CL : CacheLaws X H Block}.
Context (o : Options) {L : ComparatorLaws (comparator o)} {SK : ShortKeys (comparator o)} {OF : OptionFilter o}.

Abbreviation C := (comparator o).

(** Entries for a table: in the order of their keys, and not too many. *)
Definition table_entries (kvs : list (Slice * Slice)) : Prop :=
  sorted_keys o kvs /\ good_keys o kvs /\ Forall (fun kv => Forall is_byte kv.2) kvs /\ entries_size kvs < 2 ^ 28.

Context (Hinterval : 1 <= block_restart_interval o).

Lemma new_builder_inv (f : F) : contents f = [] ->
  exists r, new_TableBuilder o f = Some r /\ builder_inv (G := G) o 0 r [] None [] /\ counts r [].
Proof.
  intros Hf. unfold new_TableBuilder, new_BlockBuilder.
  cbn [block_restart_interval index_options]. destruct (Z.leb_spec 1 (block_restart_interval o)); [|lia].
  change (1 <=? 1) with true. cbn [mbind option_bind].
  match goal with |- context [on_filter _ ?r0] => set (r := r0) end.
  assert (exists a fb, on_filter (fun p => @StartBlock p 0) r = Ok a (set_filter_block fb r) /\ filter_inv o fb 0 [] []) as (a & fb & E & Hfb).
  { unfold on_filter, filter_inv, r. cbn [filter_block]. destruct (filter_policy o) as [p|] eqn:Ep; cbn [fmap option_fmap option_map].
    - pose proof (option_filter p Ep) as T. destruct (StartBlock_spec (P := p) 0 _ [] [] built_new) as (b & fin & pend & Eb & Hb & Hl & Ha & _); [done|done|].
      rewrite Eb. exists (Some tt), (Some (p, b)). split; [done|]. exists b, fin, pend. split; [done|]. split; [done|]. split; [done|].
      split; [by rewrite Ha|]. split; [by intros ? ? ?%elem_of_nil|by intros ? ?%elem_of_nil].
    - by exists None, None. }
  rewrite E. eexists. split; [done|]. split; [|done].
  split.
  - done.
  - split; [done|]. cbn. by rewrite Hf.
  - intros _. exact Hfb.
  - constructor.
  - constructor.
  - done.
  - exists [0%nat], [0%nat]. by apply building_reset.
  - done.
  - exists [0%nat], [0%nat]. by apply building_reset.
  - split; try constructor; done.
Qed.

Lemma add_all_ok kvs todo r done pending cur :
  table_entries kvs -> builder_inv (G := G) o 0 r done pending cur -> counts r (added done pending cur) ->
  steady done pending cur -> kvs = added done pending cur ++ todo ->
  exists r' done' pending' cur', add_all_entries todo r = Ok tt r' /\
    builder_inv (G := G) o 0 r' done' pending' cur' /\ added done' pending' cur' = kvs /\ counts r' kvs /\
    steady done' pending' cur'.
Proof.
  intros (Hs & Hg & Hb & Hsize). revert r done pending cur.
  induction todo as [|[k v] todo IH]; intros r done pending cur HI Hc Hst E.
  - rewrite app_nil_r in E. subst kvs. by exists r, done, pending, cur.
  - assert (kvs = (added done pending cur ++ [(k, v)]) ++ todo) as E' by (by rewrite <- app_assoc).
    destruct (TableBuilder_Add_ok o Hinterval 0 ltac:(done) r done pending cur k v HI Hc Hst)
      as (r1 & done1 & p1 & cur1 & E1 & H1 & Ha1 & Hc1 & Hst1).
    + unfold sorted_keys in *. rewrite E', StronglySorted_app in Hs. apply Hs.
    + unfold good_keys in *. rewrite E', Forall_app in Hg. apply Hg.
    + rewrite E', entries_size_app in Hsize. pose proof (entries_size_nonneg todo). lia.
    + rewrite E, Forall_app, Forall_cons in Hb. apply Hb.
    + destruct (IH r1 done1 p1 cur1 H1) as (r2 & done2 & p2 & cur2 & E2 & H2).
      * by rewrite Ha1.
      * done.
      * by rewrite Ha1.
      * exists r2, done2, p2, cur2. split; [|done]. cbn [add_all_entries fst snd].
        by rewrite (bind_ok _ _ _ _ _ E1).
Qed.

Lemma table_built kvs (f : F) : table_entries kvs -> contents f = [] ->
  exists r r' done, new_TableBuilder o f = Some r /\
    bind (add_all_entries kvs) (fun _ => TableBuilder_Finish) r = Ok Status_OK r' /\
    finished (G := G) o r' kvs done.
Proof.
  intros Hk Hf. destruct (new_builder_inv f Hf) as (r & Er & HI & Hc).
  destruct (add_all_ok kvs kvs r [] None [] Hk HI Hc) as (r1 & ds & p & cur & E1 & H1 & Ha & Hc1 & Hst); [done|done|].
  destruct Hk as (Hs & Hg & _ & Hsize). rewrite <- Ha in Hc1, Hs, Hg, Hsize.
  destruct (TableBuilder_Finish_ok o Hinterval r1 ds p cur H1 Hc1 Hst Hs Hg Hsize) as (r2 & done2 & E2 & H2).
  exists r, r2, done2. split; [done|]. rewrite Ha in H2. split; [|done]. by rewrite (bind_ok _ _ _ _ _ E1).
Qed.

(** ** Opening the file *)

(** A cache that does not hold anything under the next id, with room for blocks and
    for two handles. *)
Definition cache_usable (c : option X) (live : list (H * Block)) (held : Slice -> Block -> Prop) : Prop :=
  Z.of_nat (length live) + 2 <= cache_max_live /\ 2 ^ 28 + 8 <= cache_max_charge /\
  match c with
  | Some x => cache_inv x live held /\
              forall id x', cache_NewId x = Ok id x' -> forall k v, held k v -> take 8 k <> EncodeFixed64 id
  | None => forall k v, ~ held k v
  end.

Lemma footer_read (g : G) pre footer :
  stored g = pre ++ footer_bytes footer -> Z.of_nat (length pre) < 2 ^ 64 ->
  exists b, ReadAt (u64 (Z.of_nat (length (stored g)) - Z.of_nat kEncodedLength)) (Z.of_nat kEncodedLength) g =
    (Status_OK, footer_bytes footer, b).
Proof.
  intros Hg Hl. rewrite Hg, length_app, footer_bytes_length.
  replace (Z.of_nat (length pre + kEncodedLength) - Z.of_nat kEncodedLength) with (Z.of_nat (length pre)) by lia.
  rewrite uwrap_small by lia.
  destruct (read_at_ok (Z.of_nat (length pre)) (Z.of_nat kEncodedLength) g) as [b E]; [lia|lia|].
  exists b. rewrite E, Hg, !Nat2Z.id, drop_app_length. f_equal. f_equal.
  apply take_ge. by rewrite footer_bytes_length.
Qed.

(** The block of the metaindex, which has one entry, is asked for its key. *)
Lemma value_at_found raw k v : built_from raw [(k, v)] -> Forall is_byte k ->
  exists blk it d, new_Block raw = Some blk /\ NewIterator blk = Some it /\
    value_at (H := H) k (mk_table_iter (data_ blk) it []) = Ok (Some v) d.
Proof.
  intros Hb Hk. pose proof (compare_refl (C := BytewiseComparator) k Hk) as Hself.
  destruct (built_cursor BytewiseComparator raw [(k, v)] Hb) as (blk & r & n & it & pos & E1 & E2 & E3 & HC & Hp).
  { intros [|i] ? ? ? ? _ Hi; by apply lookup_lt_Some in Hi; cbn in Hi; lia. }
  { by repeat constructor. }
  apply (table_iter_cursor (H := H) BytewiseComparator raw r n _ _ _ []) in HC.
  destruct (cursor_seek _ _ _ _ _ HC 1%nat (mk_table_iter raw (BlockIterator r n it) []) k) as (d & Es & Hd); [by exists it|done|].
  assert (keys_before BytewiseComparator k [(k, v)] = 0%nat) as Hz
    by (unfold keys_before, before; cbn [List.filter fst]; by rewrite Hself).
  rewrite Hz in Hd. destruct (cursor_entry _ _ _ _ _ HC 0%nat d k v Hd eq_refl) as (Hv & Ekey & Ev).
  exists blk, (BlockIterator r n it), d. split; [done|]. split; [done|]. rewrite E2. unfold value_at.
  rewrite (bind_ok _ _ _ _ _ Es), bind_gets. unfold id. rewrite Hv, (bind_ok _ _ _ _ _ Ekey).
  assert (slice_eqb k k = true) as -> by (by apply slice_eqb_eq). by rewrite (bind_ok _ _ _ _ _ Ev).
Qed.

(** The filters are found again, if there is a filter policy. *)
Lemma ReadMeta_ok (g : G) pre rest mh ih dbs i blk :
  stored g = pre ++ rest -> filter_stored (G := G) o pre mh dbs ->
  exists tf fd, ReadMeta (H := H) (mk_footer mh ih) (mk_table o g i None None mh blk) = Some (mk_table o g i tf fd mh blk) /\
    match filter_policy o with
    | None => tf = None
    | Some p => exists fr, tf = Some (p, fr) /\ filter_reads p fr dbs
    end.
Proof.
  intros Hg Hms. unfold ReadMeta, filter_stored, filter_at in *. cbn [t_options t_file metaindex_handle_].
  destruct (filter_policy o) as [p|] eqn:Ep; [|by exists None, None].
  destruct Hms as (h & raw & (_ & _ & Hm) & Hbf & Hh & bytes & fr & (_ & _ & Hf) & Er & Hreads).
  destruct (Hm g rest (verify_checksums (paranoid_options o)) Hg) as (c1 & E1 & Hd1). rewrite E1. cbn [mbind option_bind ok state_ Status_OK negb].
  destruct (value_at_found raw _ _ Hbf (proj1 (filter_key_ok o p (option_filter p Ep)))) as (mb & it & d & Em & Ei & Ev).
  rewrite Hd1, Em. cbn [mbind option_bind]. rewrite Ei. cbn [mbind option_bind]. rewrite Ev. unfold ReadFilter.
  pose proof (BlockHandle_DecodeFrom_eq h new_BlockHandle [] Hh ltac:(constructor)) as Eh. rewrite app_nil_r in Eh.
  rewrite Eh. cbn [mbind option_bind ok state_ Status_OK negb t_options t_file].
  destruct (Hf g rest (verify_checksums (paranoid_options o)) Hg) as (c2 & E2 & Hd2). rewrite E2.
  cbn [mbind option_bind ok state_ Status_OK negb]. rewrite Hd2, Er. cbn [mbind option_bind]. eexists _, _.
  split; [reflexivity|]. by exists fr.
Qed.

Lemma Open_ok (g : G) (r : Rep F) kvs done c live held :
  table_entries kvs -> finished (G := G) o r kvs done -> stored g = contents (file r) ->
  offset r < 2 ^ 64 -> cache_usable c live held ->
  exists t c', Open o g (offset r) c = Ok (Status_OK, Some t) c' /\ serves o t done /\
    consistent t done held /\ cache_at t done held live [] c' /\
    match c with Some x => exists x', cache_NewId x = Ok (cache_id t) x' /\ c' = Some x' | None => c' = None end.
Proof.
  intros (Hs & Hg & _ & Hkvs) [Hend _ Hall Hblocks Hhandles Hsep (pre & mh & ih & raw & Hc & Hfo & Hst & Hbf & Hms)] Hstored Hoff (_ & _ & Hcache).
  pose proof (proj2 Hend) as Hsize. rewrite Hc in Hstored.
  assert (offset r = Z.of_nat (length (stored g))) as Hlen by (by rewrite Hsize, Hc, Hstored).
  unfold Open. rewrite Hlen. destruct (footer_read g pre _ Hstored) as [b Ef].
  { rewrite Hlen, Hstored, length_app in Hoff. lia. }
  destruct (Z.ltb_spec (Z.of_nat (length (stored g))) (Z.of_nat kEncodedLength)) as [Hlt|_].
  { rewrite Hstored, length_app, footer_bytes_length in Hlt. lia. }
  rewrite Ef. cbn [ok state_ Status_OK negb].
  pose proof (Footer_DecodeFrom_eq (mk_footer mh ih) new_Footer [] Hfo ltac:(constructor)) as Ed.
  rewrite app_nil_r in Ed. rewrite (bind_or_ub _ _ _ _ Ed). cbn [ok state_ Status_OK negb index_handle_].
  destruct Hst as (_ & _ & Hread). destruct (Hread g _ (verify_checksums (paranoid_options o)) Hstored) as (cs & Er & Hd).
  rewrite (bind_or_ub _ _ _ _ Er). cbn [ok state_ Status_OK negb]. rewrite Hd.
  destruct (built_block _ _ Hbf) as [blk Eblk]. rewrite (bind_or_ub _ _ _ _ Eblk), bind_gets. unfold id.
  assert (forall i, exists tf fd, ReadMeta (H := H) (mk_footer mh ih) (mk_table o g i None None mh blk) =
      Some (mk_table o g i tf fd mh blk) /\ serves o (mk_table o g i tf fd mh blk) done) as Hmeta.
  { intros i. destruct (ReadMeta_ok g pre _ mh ih (done.*2) i blk Hstored Hms) as (tf & fd & Em & Htf).
    exists tf, fd. split; [done|]. split; cbn [t_options t_filter t_index_block].
    - done.
    - done.
    - by exists raw.
    - rewrite Hc in Hblocks. eapply Forall_impl; [exact Hblocks|]. intros db ((Hh & _ & Hrd) & Hb & Hne).
      split; [|done]. split; [done|]. intros verify. apply (Hrd g []). by rewrite app_nil_r.
    - done.
    - done.
    - by rewrite Hall.
    - by rewrite Hall.
    - by rewrite Hall. }
  destruct c as [x|].
  - destruct Hcache as [Hinv Hnew]. destruct (cache_new_id_ok x live held Hinv) as (i & x' & En & Hx').
    assert (on_cache cache_NewId (Some x) = Ok i (Some x')) as E1 by (unfold on_cache, zoom; by rewrite En).
    destruct (Hmeta i) as (tf & fd & Em & Hserves).
    rewrite (bind_ok _ _ _ _ _ E1). cbn [metaindex_handle_]. rewrite (bind_or_ub _ _ _ _ Em).
    eexists _, (Some x'). split; [done|]. split; [done|]. split.
    + intros k v db Hk _ ->. exfalso. apply (Hnew i x' En _ v Hk). unfold cache_key. cbn [cache_id].
      apply take_app_length'. by rewrite EncodeFixed64_length.
    + cbn [cache_at omap list_omap app]. split; [eapply cache_inv_mono; [|exact Hx']; intros k v Hk; by left|by exists x'].
  - destruct (Hmeta 0) as (tf & fd & Em & Hserves). rewrite bind_ret. cbn [metaindex_handle_]. rewrite (bind_or_ub _ _ _ _ Em). cbn in Hcache.
    eexists _, None. split; [done|]. split; [done|]. split.
    + intros k v db Hk. by apply Hcache in Hk.
    + by split; [constructor|].
Qed.

(** C11: What goes into a table comes out of it.  Entries that are added in the
    order of their keys (keys the comparator admits, less than 2^28 bytes in all)
    and closed with [Finish] make a file from which [Open] gets a table; its
    iterators are cursors over exactly these entries, through a block cache or
    without one, and give back what they hold of the cache when they are
    destroyed.  The options have a restart interval of at least one, any block
    size, and no filter policy or one that keeps its laws. *)
Theorem table_roundtrip kvs (f : F) :
  table_entries kvs -> contents f = [] ->
  exists r r' size, new_TableBuilder o f = Some r /\
    bind (add_all_entries kvs) (fun _ => TableBuilder_Finish) r = Ok Status_OK r' /\ FileSize r' = Ok size r' /\
    forall (g : G) (c : option X) live held, stored g = contents (file r') -> cache_usable c live held ->
      exists t c' (inv : option X -> Prop), Open o g size c = Ok (Status_OK, Some t) c' /\ inv c' /\
        forall ro fuel c, inv c -> (length kvs < fuel)%nat ->
          exists it pos, Table_NewIterator t c = Some it /\ pos (length kvs) it /\
            cursor_over (@TwoLevel_Iterator _ _ _ (Table_Iter C) (Table_Iter C) (BlockReader t ro) delete_iter fuel)
              C (@valid C L) kvs pos /\
            forall n it, pos n it ->
              exists it', two_level_delete delete_iter (fun _ => ret tt) it = Ok tt it' /\ inv (arg_ it').
Proof.
  intros Hk Hf. destruct (table_built kvs f Hk Hf) as (r & r' & ds & E1 & E2 & Hfin).
  exists r, r', (offset r'). split; [done|]. split; [done|]. split; [done|]. intros g c live held Hg Hc.
  destruct (Open_ok g r' kvs ds c live held Hk Hfin Hg ltac:(pose proof (fi_size _ _ _ _ Hfin); lia) Hc)
    as (t & c' & E3 & HS & Hcons & Hc' & _).
  exists t, c', (cache_at t ds held live []). split; [done|]. split; [done|]. intros ro fuel c2 Hc2 Hfuel.
  rewrite <- (fi_entries _ _ _ _ Hfin) in Hfuel |- *.
  apply (table_iterator o t ds HS held Hcons live ro (proj1 Hc) (proj1 (proj2 Hc)) fuel c2 Hc2).
  by eapply Nat.le_lt_trans; [apply (index_length o t ds HS)|].
Qed.

(** C12: A lookup in such a table finds every entry, with or without a filter
    policy: with the key of an entry the callback gets that entry, so the filter
    never hides it, and with any other key it gets nothing, or the first entry
    behind the key.  The status is OK, and lookups can be repeated.  The options
    have a restart interval of at least one, the entries are in the order of their
    keys and have less than 2^28 bytes, and a filter policy keeps its laws, as the
    Bloom filters of the program do. *)
Theorem table_get kvs (f : F) :
  table_entries kvs -> contents f = [] ->
  exists r r' size, new_TableBuilder o f = Some r /\
    bind (add_all_entries kvs) (fun _ => TableBuilder_Finish) r = Ok Status_OK r' /\ FileSize r' = Ok size r' /\
    forall (g : G) (c : option X) live held, stored g = contents (file r') -> cache_usable c live held ->
      exists t c' (inv : option X -> Prop), Open o g size c = Ok (Status_OK, Some t) c' /\ inv c' /\
        forall ro k c, inv c -> @valid C L k ->
          exists saved c', InternalGet t ro k c = Ok (Status_OK, saved) c' /\ inv c' /\
            (forall kv, saved = Some kv -> kvs !! keys_before C k kvs = Some kv) /\
            (forall k' v, (k', v) ∈ kvs -> @Compare C k' k = Some 0 -> saved = Some (k', v)).
Proof.
  intros Hk Hf. destruct (table_built kvs f Hk Hf) as (r & r' & ds & E1 & E2 & Hfin).
  exists r, r', (offset r'). split; [done|]. split; [done|]. split; [done|]. intros g c live held Hg Hc.
  destruct (Open_ok g r' kvs ds c live held Hk Hfin Hg ltac:(pose proof (fi_size _ _ _ _ Hfin); lia) Hc)
    as (t & c' & E3 & HS & Hcons & Hc' & _).
  exists t, c', (cache_at t ds held live []). split; [done|]. split; [done|]. intros ro k c2 Hc2 Hkv.
  rewrite <- (fi_entries _ _ _ _ Hfin).
  destruct (InternalGet_ok o t ds HS held Hcons live ro (proj1 Hc) (proj1 (proj2 Hc)) k c2) as (saved & c3 & Hget); [done|done|].
  exists saved, c3. split; [apply Hget|]. by split_and!; apply Hget.
Qed.

End file.

(** ** Instances *)

#[local] Instance file_platform : Platform := {| size_bits := 64; size_bits_cases := or_intror eq_refl |}.
#[local] Program Instance file_placement : Placement := {| placed _ := 4096 |}.
Next Obligation. intros s Hs. unfold addressable. cbn. lia. Qed.

#[local] Instance memory_file : WritableFile Slice := {|
  Append d f := (Status_OK, f ++ d); Env.Flush f := (Status_OK, f)
|}.
#[local] Program Instance memory_reliable : ReliableFile Slice := {| contents f := f |}.
Next Obligation. intros d f. by eexists. Qed.
Next Obligation. intros f. by eexists. Qed.
#[local] Instance memory_random : RandomAccessFile Slice := {|
  ReadAt o n f := (Status_OK, take (Z.to_nat n) (drop (Z.to_nat o) f), true)
|}.
#[local] Program Instance memory_stored : StoredRandom Slice := {| stored f := f |}.
Next Obligation. intros o n f _ _. by eexists. Qed.

(** A compressor that never compresses. *)
#[local] Instance no_snappy : Snappy := {|
  Snappy_Compress _ := None; Snappy_GetUncompressedLength _ := None; Snappy_Uncompress _ := None
|}.
#[local] Program Instance no_snappy_laws : SnappyLaws.
Next Obligation. done. Qed.

(** A cache for at most a thousand handles and blocks of at most 2^28 + 8 bytes. *)
#[local] Instance block_cache_laws : CacheLaws (ShardedLRUCache Block) nat Block := Sharded_laws 1000 (2 ^ 28 + 8).

Lemma new_cache_usable : exists x, NewLRUCache 8388608 = Some x /\ cache_usable (Some x) [] (fun _ _ => False).
Proof.
  destruct (NewLRUCache_ok (V := Block) 1000 (2 ^ 28 + 8) 8388608) as (x & E & Hcs & Hnone & _); [by vm_compute|].
  exists x. split; [done|]. split; [done|]. split; [done|]. split; [|by intros]. split; [done|]. split; [done|].
  split; [by intros e v ?%not_elem_of_nil|]. intros e k v. unfold kv. by rewrite Hnone.
Qed.

Definition file_options : Options :=
  mk_options 0 BytewiseComparator true 16 2 kNoCompression None.

#[local] Instance file_options_filter : OptionFilter file_options.
Proof. by intros p. Qed.

(** The same with a Bloom filter of ten bits for a key. *)
Definition filtered_options : Options :=
  mk_options 0 BytewiseComparator true 16 2 kNoCompression (Some (BloomPolicy ten_bits)).

#[local] Instance filtered_options_filter : OptionFilter filtered_options.
Proof.
  intros p E. assert (p = BloomPolicy ten_bits) as -> by (cbn [filter_policy filtered_options] in E; congruence).
  by apply BloomTableFilter.
Qed.

Definition file_entries : list (Slice * Slice) :=
  [([97; 98], [1]); ([97; 98; 99], [4; 5; 6; 7; 8; 9]); ([98], [2; 3])].

Lemma file_entries_ok : table_entries file_options file_entries /\ table_entries filtered_options file_entries.
Proof.
  assert (table_entries file_options file_entries) as H; [|by split]. split; [|split; [|split; [|done]]].
  - repeat constructor.
  - repeat constructor; done.
  - repeat constructor; done.
Qed.

Lemma table_roundtrip_witness :
  exists r r' size x t c' (inv : option (ShardedLRUCache Block) -> Prop), new_TableBuilder file_options ([] : Slice) = Some r /\
    bind (add_all_entries file_entries) (fun _ => TableBuilder_Finish) r = Ok Status_OK r' /\ FileSize r' = Ok size r' /\
    NewLRUCache 8388608 = Some x /\ Open file_options (contents (file r')) size (Some x) = Ok (Status_OK, Some t) c' /\ inv c' /\
    exists it pos, Table_NewIterator t c' = Some it /\ pos 3%nat it /\
      cursor_over (@TwoLevel_Iterator _ _ _ (Table_Iter BytewiseComparator) (Table_Iter BytewiseComparator)
        (BlockReader t new_ReadOptions) delete_iter 4) BytewiseComparator (@valid _ BytewiseComparator_laws) file_entries pos.
Proof.
  destruct new_cache_usable as (x & Ex & Hx).
  destruct (table_roundtrip (G := Slice) (H := nat) file_options ltac:(done) file_entries [])
    as (r & r' & size & E1 & E2 & E3 & Hall); [apply file_entries_ok|done|].
  destruct (Hall (contents (file r')) (Some x) [] (fun _ _ => False) ltac:(reflexivity) Hx) as (t & c' & inv & E4 & Hc' & Hit).
  exists r, r', size, x, t, c', inv. repeat (split; [done|]).
  destruct (Hit new_ReadOptions 4%nat c' Hc' ltac:(cbn; lia)) as (it & pos & E5 & Hp & Hcur & _).
  by exists it, pos.
Defined.

Lemma table_get_witness :
  exists r r' size x t c' (inv : option (ShardedLRUCache Block) -> Prop), new_TableBuilder filtered_options ([] : Slice) = Some r /\
    bind (add_all_entries file_entries) (fun _ => TableBuilder_Finish) r = Ok Status_OK r' /\ FileSize r' = Ok size r' /\
    NewLRUCache 8388608 = Some x /\ Open filtered_options (contents (file r')) size (Some x) = Ok (Status_OK, Some t) c' /\ inv c' /\
    exists c2, InternalGet t new_ReadOptions [98] c' = Ok (Status_OK, Some ([98], [2; 3])) c2 /\ inv c2.
Proof.
  destruct new_cache_usable as (x & Ex & Hx).
  destruct (table_get (G := Slice) (H := nat) filtered_options ltac:(done) file_entries [])
    as (r & r' & size & E1 & E2 & E3 & Hall); [apply file_entries_ok|done|].
  destruct (Hall (contents (file r')) (Some x) [] (fun _ _ => False) ltac:(reflexivity) Hx) as (t & c' & inv & E4 & Hc' & Hget).
  exists r, r', size, x, t, c', inv. repeat (split; [done|]).
  destruct (Hget new_ReadOptions [98] c' Hc') as (saved & c2 & E5 & Hc2 & _ & Hfound); [by repeat constructor|].
  exists c2. rewrite (Hfound [98] [2; 3]) in E5; [done| |done]. apply list_elem_of_lookup. by exists 2%nat.
Defined.

(** The same lookup, computed: the builder writes, the reader finds. *)
Example file_get :
  match new_TableBuilder file_options ([] : Slice) with
  | Some r =>
      match bind (add_all_entries file_entries) (fun _ => TableBuilder_Finish) r, NewLRUCache 8388608 with
      | Ok _ r', Some x =>
          match Open file_options (file r') (offset r') (Some x) with
          | Ok (_, Some t) c =>
              match InternalGet t new_ReadOptions [98] c with
              | Ok (_, saved) (Some x) => saved = Some ([98], [2; 3]) /\ size (sc_heap x) = 1%nat
              | _ => False
              end
          | _ => False
          end
      | _, _ => False
      end
  | None => False
  end.
Proof. by vm_compute. Qed.

(** A key that the table does not have: the filter answers, and no block is read. *)
Example filtered_miss :
  match new_TableBuilder filtered_options ([] : Slice) with
  | Some r =>
      match bind (add_all_entries file_entries) (fun _ => TableBuilder_Finish) r, NewLRUCache 8388608 with
      | Ok _ r', Some x =>
          match Open filtered_options (file r') (offset r') (Some x) with
          | Ok (_, Some t) c =>
              match InternalGet t new_ReadOptions [97; 97] c, InternalGet t new_ReadOptions [98] c with
              | Ok (_, missed) (Some x), Ok (_, saved) (Some x') =>
                  missed = None /\ size (sc_heap x) = 0%nat /\ saved = Some ([98], [2; 3]) /\ size (sc_heap x') = 1%nat
              | _, _ => False
              end
          | _ => False
          end
      | _, _ => False
      end
  | None => False
  end.
Proof. by vm_compute. Qed.
