(* ===== verification/Merger.v ===== *)
(** * Merging iterators (merger.h, merger.cc)

    An iterator over the union of what several iterators show, in the order of the
    keys.  The children are states of one type; [Either_Iterator] makes one of
    iterators of two kinds. *)

From Stdlib Require Import ZArith Lia.
From stdpp Require Import base option list strings gmap.
From S2P Require Import Prelude Memory Slice Status Iterator.

(** ** Iterators of two kinds *)

Section either.
Context {S1 S2 : Type} {I1 : Iterator S1} {I2 : Iterator S2}.

Definition on_left {A} (m : M S1 A) (s : S1) : res (S1 + S2) A :=
  zoom (fun _ => s) (fun s _ => inl s) m (inl s).
Definition on_right {A} (m : M S2 A) (s : S2) : res (S1 + S2) A :=
  zoom (fun _ => s) (fun s _ => inr s) m (inr s).

(** The virtual functions dispatch on what the iterator is. *)
Definition dispatch {A} (m1 : M S1 A) (m2 : M S2 A) : M (S1 + S2) A := fun s =>
  match s with inl s => on_left m1 s | inr s => on_right m2 s end.

Definition Either_Iterator : Iterator (S1 + S2) := {|
  it_Valid s := match s with inl s => it_Valid s | inr s => it_Valid s end;
  it_SeekToFirst := dispatch it_SeekToFirst it_SeekToFirst;
  it_SeekToLast := dispatch it_SeekToLast it_SeekToLast;
  it_Seek k := dispatch (it_Seek k) (it_Seek k);
  it_Next := dispatch it_Next it_Next;
  it_Prev := dispatch it_Prev it_Prev;
  it_key := dispatch it_key it_key;
  it_value := dispatch it_value it_value;
  it_status s := match s with inl s => it_status s | inr s => it_status s end
|}.

Definition either_pos (pos1 : nat -> S1 -> Prop) (pos2 : nat -> S2 -> Prop) (i : nat) (s : S1 + S2) : Prop :=
  match s with inl s => pos1 i s | inr s => pos2 i s end.

End either.
Arguments Either_Iterator {S1 S2} I1 I2.

(** ** MergingIterator *)

Inductive Direction := kForward | kReverse.

(** [current_] points to one of the children. *)
Record MergingIterator (S : Type) := mk_merging {
  children_ : list (IteratorWrapper S);
  current_ : option nat;
  direction_ : Direction
}.
Arguments mk_merging {S}. Arguments children_ {S}. Arguments current_ {S}. Arguments direction_ {S}.

(** The loops over the children. *)
Fixpoint for_each {S} (js : list nat) (body : nat -> M S unit) : M S unit :=
  match js with
  | [] => ret tt
  | i :: js => body i ;;; for_each js body
  end.

Fixpoint for_fold {S A} (js : list nat) (body : A -> nat -> M S A) (a : A) : M S A :=
  match js with
  | [] => ret a
  | i :: js => let! a := body a i in for_fold js body a
  end.

Section merging.
Context {S : Type} {I : Iterator S} (comparator_ : Comparator).

Abbreviation MI := (MergingIterator S).

Definition set_children (ws : list (IteratorWrapper S)) (s : MI) : MI := mk_merging ws (current_ s) (direction_ s).
Definition set_current (c : option nat) : M MI unit := modify (fun s => mk_merging (children_ s) c (direction_ s)).
Definition set_direction (d : Direction) : M MI unit := modify (fun s => mk_merging (children_ s) (current_ s) d).

(** [children_[i].m()] *)
Definition on_child {A} (i : nat) (m : M (IteratorWrapper S) A) : M MI A := fun s =>
  match children_ s !! i with
  | Some w => zoom (fun _ => w) (fun w s => set_children (<[i := w]> (children_ s)) s) m s
  | None => Ub
  end.

Definition child_Valid (i : nat) : M MI bool := on_child i (gets valid_).

Definition all_children (s : MI) : list nat := seq 0 (length (children_ s)).

(** The child whose key is better than the keys of the children before it. *)
Definition find_child (better : Z -> bool) (js : list nat) : M MI (option nat) :=
  for_fold js (fun found i =>
    let! v := child_Valid i in
    if v : bool then
      match found with
      | None => ret (Some i)
      | Some j =>
          let! ki := on_child i wrapper_key in
          let! kj := on_child j wrapper_key in
          let! r := or_ub (@Compare comparator_ ki kj) in
          ret (if better r then Some i else Some j)
      end
    else ret found) None.

Definition FindSmallest : M MI unit :=
  let! s := gets id in
  let! smallest := find_child (fun r => r <? 0) (all_children s) in set_current smallest.

Definition FindLargest : M MI unit :=
  let! s := gets id in
  let! largest := find_child (fun r => 0 <? r) (rev (all_children s)) in set_current largest.

Definition new_MergingIterator (children : list S) : option MI :=
  ws ← mapM (fun c => match wrapper_Set (Some c) new_IteratorWrapper with Ok _ w => Some w | _ => None end) children;
  Some (mk_merging ws None kForward).

Definition merging_Valid (s : MI) : bool := match current_ s with Some _ => true | None => false end.

(** [assert(Valid()); current_->m()] *)
Definition on_current {A} (m : M (IteratorWrapper S) A) : M MI A :=
  let! s := gets id in
  let! c := or_ub (current_ s) in on_child c m.

Definition merging_key : M MI Slice := on_current wrapper_key.
Definition merging_value : M MI Slice := on_current wrapper_value.

Definition merging_SeekToFirst : M MI unit :=
  let! s := gets id in
  for_each (all_children s) (fun i => on_child i wrapper_SeekToFirst) ;;;
  FindSmallest ;;; set_direction kForward.

Definition merging_SeekToLast : M MI unit :=
  let! s := gets id in
  for_each (all_children s) (fun i => on_child i wrapper_SeekToLast) ;;;
  FindLargest ;;; set_direction kReverse.

Definition merging_Seek (target : Slice) : M MI unit :=
  let! s := gets id in
  for_each (all_children s) (fun i => on_child i (wrapper_Seek target)) ;;;
  FindSmallest ;;; set_direction kForward.

(** The loop bodies that take the other children to the side of [key()] they have
    to be on when the direction changes. *)
Definition to_forward (i : nat) : M MI unit :=
  let! s := gets id in
  if bool_decide (current_ s = Some i) then ret tt
  else
    let! k := merging_key in
    on_child i (wrapper_Seek k) ;;;
    let! v := child_Valid i in
    if v : bool then
      let! k := merging_key in
      let! ck := on_child i wrapper_key in
      let! r := or_ub (@Compare comparator_ k ck) in
      if r =? 0 then on_child i wrapper_Next else ret tt
    else ret tt.

Definition to_reverse (i : nat) : M MI unit :=
  let! s := gets id in
  if bool_decide (current_ s = Some i) then ret tt
  else
    let! k := merging_key in
    on_child i (wrapper_Seek k) ;;;
    let! v := child_Valid i in
    if v : bool then on_child i wrapper_Prev else on_child i wrapper_SeekToLast.

Definition merging_Next : M MI unit :=
  let! s := gets id in
  assert_ (merging_Valid s) ;;;
  match direction_ s with
  | kForward => ret tt
  | kReverse => for_each (all_children s) to_forward ;;; set_direction kForward
  end ;;;
  on_current wrapper_Next ;;; FindSmallest.

Definition merging_Prev : M MI unit :=
  let! s := gets id in
  assert_ (merging_Valid s) ;;;
  match direction_ s with
  | kReverse => ret tt
  | kForward => for_each (all_children s) to_reverse ;;; set_direction kReverse
  end ;;;
  on_current wrapper_Prev ;;; FindLargest.

(** The first status that is not OK, or the last one. *)
Fixpoint first_error (status : Status) (ws : list (IteratorWrapper S)) : option Status :=
  match ws with
  | [] => Some status
  | w :: ws => status ← wrapper_status w; if negb (ok status) then Some status else first_error status ws
  end.

Definition merging_status (s : MI) : option Status := first_error Status_OK (children_ s).

Definition Merging_Iterator : Iterator MI := {|
  it_Valid := merging_Valid;
  it_SeekToFirst := merging_SeekToFirst;
  it_SeekToLast := merging_SeekToLast;
  it_Seek := merging_Seek;
  it_Next := merging_Next;
  it_Prev := merging_Prev;
  it_key := merging_key;
  it_value := merging_value;
  it_status := merging_status
|}.

(** No child, one child, or several: the iterator made is of another class. *)
Abbreviation Merged := (Status + (S + MI))%type.

Definition NewMergingIterator (list : list S) : option Merged :=
  match list with
  | [] => Some (inl Status_OK)
  | [c] => Some (inr (inl c))
  | _ => s ← new_MergingIterator list; Some (inr (inr s))
  end.

Definition Merged_Iterator : Iterator Merged :=
  Either_Iterator EmptyIterator (Either_Iterator I Merging_Iterator).

End merging.
Arguments Merged_Iterator {S} I comparator_.
