(* ===== verification/MergerProof.v ===== *)
(** * A merging iterator is a cursor

    If the children are cursors over sorted lists that have no key in common, the
    merging iterator is a cursor over the sorted union. *)

From Stdlib Require Import ZArith Lia.
From stdpp Require Import base option list strings sorting gmap.
From S2P Require Import Prelude Memory Slice Status Iterator TwoLevelProof MergeLists Merger.

(** ** Two kinds of cursors *)

Section either.
Context {S1 S2 : Type} {I1 : Iterator S1} {I2 : Iterator S2} (C : Comparator) (target_ok : Slice -> Prop)
        (kvs : list (Slice * Slice)).

Lemma either_left (pos : nat -> S1 -> Prop) :
  cursor_over I1 C target_ok kvs pos ->
  cursor_over (Either_Iterator I1 I2) C target_ok kvs (either_pos pos (fun _ _ => False)).
Proof.
  intros H.
  split; cbn [it_Valid it_key it_value it_status it_SeekToFirst it_SeekToLast it_Seek it_Next it_Prev Either_Iterator].
  - intros i [s|s] k v Hp E; [|done]. destruct (cursor_entry _ _ _ _ _ H i s k v Hp E) as (Hv & Ek & Ev).
    split; [done|]. cbn [dispatch]. unfold on_left, zoom. by rewrite Ek, Ev.
  - intros i [s|s] Hp Hi; [|done]. by eapply cursor_end.
  - intros i [s|s] Hp; [|done]. by eapply cursor_status.
  - intros i [s|s] Hp; [|done]. destruct (cursor_first _ _ _ _ _ H i s Hp) as (s' & E & Hp').
    exists (inl s'). cbn [dispatch]. unfold on_left, zoom. by rewrite E.
  - intros i [s|s] Hp; [|done]. destruct (cursor_last _ _ _ _ _ H i s Hp) as (s' & E & Hp').
    exists (inl s'). cbn [dispatch]. unfold on_left, zoom. by rewrite E.
  - intros i [s|s] t Hp Ht; [|done]. destruct (cursor_seek _ _ _ _ _ H i s t Hp Ht) as (s' & E & Hp').
    exists (inl s'). cbn [dispatch]. unfold on_left, zoom. by rewrite E.
  - intros i [s|s] Hp Hi; [|done]. destruct (cursor_next _ _ _ _ _ H i s Hp Hi) as (s' & E & Hp').
    exists (inl s'). cbn [dispatch]. unfold on_left, zoom. by rewrite E.
  - intros i [s|s] Hp Hi; [|done]. destruct (cursor_prev _ _ _ _ _ H i s Hp Hi) as (s' & E & Hp').
    exists (inl s'). cbn [dispatch]. unfold on_left, zoom. by rewrite E.
Qed.

Lemma either_right (pos : nat -> S2 -> Prop) :
  cursor_over I2 C target_ok kvs pos ->
  cursor_over (Either_Iterator I1 I2) C target_ok kvs (either_pos (fun _ _ => False) pos).
Proof.
  intros H.
  split; cbn [it_Valid it_key it_value it_status it_SeekToFirst it_SeekToLast it_Seek it_Next it_Prev Either_Iterator].
  - intros i [s|s] k v Hp E; [done|]. destruct (cursor_entry _ _ _ _ _ H i s k v Hp E) as (Hv & Ek & Ev).
    split; [done|]. cbn [dispatch]. unfold on_right, zoom. by rewrite Ek, Ev.
  - intros i [s|s] Hp Hi; [done|]. by eapply cursor_end.
  - intros i [s|s] Hp; [done|]. by eapply cursor_status.
  - intros i [s|s] Hp; [done|]. destruct (cursor_first _ _ _ _ _ H i s Hp) as (s' & E & Hp').
    exists (inr s'). cbn [dispatch]. unfold on_right, zoom. by rewrite E.
  - intros i [s|s] Hp; [done|]. destruct (cursor_last _ _ _ _ _ H i s Hp) as (s' & E & Hp').
    exists (inr s'). cbn [dispatch]. unfold on_right, zoom. by rewrite E.
  - intros i [s|s] t Hp Ht; [done|]. destruct (cursor_seek _ _ _ _ _ H i s t Hp Ht) as (s' & E & Hp').
    exists (inr s'). cbn [dispatch]. unfold on_right, zoom. by rewrite E.
  - intros i [s|s] Hp Hi; [done|]. destruct (cursor_next _ _ _ _ _ H i s Hp Hi) as (s' & E & Hp').
    exists (inr s'). cbn [dispatch]. unfold on_right, zoom. by rewrite E.
  - intros i [s|s] Hp Hi; [done|]. destruct (cursor_prev _ _ _ _ _ H i s Hp Hi) as (s' & E & Hp').
    exists (inr s'). cbn [dispatch]. unfold on_right, zoom. by rewrite E.
Qed.

End either.

(** ** The children *)

Lemma finite_choice (Q : nat -> nat -> Prop) n :
  (forall j, (j < n)%nat -> exists i, Q j i) -> exists h, forall j, (j < n)%nat -> Q j (h j).
Proof.
  induction n as [|n IH]; intros HQ; [exists (fun _ => 0%nat); lia|].
  destruct IH as [h Hh]; [intros j Hj; apply HQ; lia|]. destruct (HQ n ltac:(lia)) as [i Hi].
  exists (fun j => if decide (j = n) then i else h j). intros j Hj. case_decide; [by subst|apply Hh; lia].
Qed.

Section merging.
Context {S : Type} {I : Iterator S} (C : Comparator) {L : ComparatorLaws C} (target_ok : Slice -> Prop).
Context (contents : list (list (Slice * Slice))) (pos : nat -> nat -> S -> Prop) (kvs : list (Slice * Slice)).
Context (Hcur : forall j l, contents !! j = Some l -> cursor_over I C target_ok l (pos j)).
Context (Hm : merges C contents kvs).
Context (Hkeys : forall e, e ∈ kvs -> target_ok e.1) (Htargets : forall t, target_ok t -> valid t).

Abbreviation MI := (MergingIterator S).
Implicit Types (s : MI) (w : IteratorWrapper S) (f g : nat -> list (Slice * Slice) -> nat).

(** Child [j] is where [f] says. *)
Definition children_at f s : Prop :=
  length (children_ s) = length contents /\
  forall j l, contents !! j = Some l -> exists w, children_ s !! j = Some w /\ wrapped l (pos j) (f j l) w.

(** The last of the first [x] entries of [l]. *)
Definition back (x : nat) (l : list (Slice * Slice)) : nat :=
  match x with O => length l | Datatypes.S i => i end.

(** The children in front of entry [n] and behind it. *)
Definition ahead (n : nat) (_ : nat) (l : list (Slice * Slice)) : nat := upto C kvs n l.
Definition behind (n : nat) (_ : nat) (l : list (Slice * Slice)) : nat := back (upto C kvs n l) l.

Definition at_entry (d : Direction) (n : nat) : nat -> list (Slice * Slice) -> nat :=
  match d with kForward => ahead n | kReverse => behind (Datatypes.S n) end.

(** [c] points to the child that entry [n] comes from. *)
Definition owner (n : nat) (c : option nat) : Prop :=
  match kvs !! n with
  | Some e => exists j l, c = Some j /\ contents !! j = Some l /\ l !! upto C kvs n l = Some e /\
                          upto C kvs (Datatypes.S n) l = Datatypes.S (upto C kvs n l)
  | None => c = None
  end.

(** The merging iterator is at entry [n]; when it is not valid, the children may be
    anywhere. *)
Definition merging_pos (n : nat) s : Prop :=
  owner n (current_ s) /\
  exists f, children_at f s /\ ((n < length kvs)%nat -> f = at_entry (direction_ s) n).

Lemma child_at f s j l : children_at f s -> contents !! j = Some l ->
  exists w, children_ s !! j = Some w /\ wrapped l (pos j) (f j l) w.
Proof. intros [_ Hc]. apply Hc. Qed.

Lemma children_at_ext f g s : (forall j l, contents !! j = Some l -> f j l = g j l) ->
  children_at f s -> children_at g s.
Proof.
  intros E [Hlen Hc]. split; [done|]. intros j l Hj. rewrite <- E by done. by apply Hc.
Qed.

Lemma children_at_current f s c d : children_at f s -> children_at f (mk_merging (children_ s) c d).
Proof. done. Qed.

Lemma set_children_id s j w : children_ s !! j = Some w -> set_children (<[j := w]> (children_ s)) s = s.
Proof. intros E. destruct s. unfold set_children. cbn in *. by rewrite list_insert_id. Qed.

Lemma on_child_ok {A} (m : M (IteratorWrapper S) A) s j w a w' :
  children_ s !! j = Some w -> m w = Ok a w' ->
  on_child j m s = Ok a (set_children (<[j := w']> (children_ s)) s).
Proof. intros Hw E. unfold on_child. rewrite Hw. unfold zoom. by rewrite E. Qed.

Lemma on_child_read {A} (m : M (IteratorWrapper S) A) s j w a :
  children_ s !! j = Some w -> m w = Ok a w -> on_child j m s = Ok a s.
Proof. intros Hw E. rewrite (on_child_ok m s j w a w) by done. by rewrite set_children_id. Qed.

Lemma child_Valid_ok f s j l :
  children_at f s -> contents !! j = Some l -> child_Valid j s = Ok (f j l <? length l)%nat s.
Proof.
  intros Hc Hj. destruct (child_at _ _ _ _ Hc Hj) as (w & Hw & Hp).
  apply (on_child_read _ _ _ w); [done|]. by rewrite <- (wrapper_valid _ _ Hp).
Qed.

Lemma child_key_ok f s j l e :
  children_at f s -> contents !! j = Some l -> l !! f j l = Some e -> on_child j wrapper_key s = Ok e.1 s.
Proof.
  intros Hc Hj He. destruct (child_at _ _ _ _ Hc Hj) as (w & Hw & Hp). destruct e as [k v].
  apply (on_child_read _ _ _ w); [done|]. by apply (wrapper_key_ok (pos := pos j) (kvs := l) (f j l) w k v).
Qed.

Lemma children_at_insert f s j l w i :
  children_at f s -> contents !! j = Some l -> wrapped l (pos j) i w ->
  children_at (fun j' l' => if decide (j' = j) then i else f j' l') (set_children (<[j := w]> (children_ s)) s).
Proof.
  intros [Hlen Hc] Hj Hw. split; cbn [set_children children_]; [by rewrite length_insert|].
  intros j' l' Hj'. case_decide as E.
  - subst j'. replace l' with l by congruence. exists w. split; [|done]. apply list_lookup_insert_eq.
    rewrite Hlen. by eapply lookup_lt_Some.
  - rewrite list_lookup_insert_ne by done. by apply Hc.
Qed.

(** ** Loops over the children *)

(** Every child that the loop visits is moved from where [f] says to where [g] says;
    the invariant [P] of the loop does not depend on where they are. *)
Lemma for_each_ok (P : MI -> Prop) (body : nat -> M MI unit) f g s :
  (forall j l s h, contents !! j = Some l -> P s -> children_at h s -> h j l = f j l ->
     exists s', body j s = Ok tt s' /\ P s' /\
                children_at (fun j' l' => if decide (j' = j) then g j l else h j' l') s') ->
  P s -> children_at f s ->
  exists s', for_each (all_children s) body s = Ok tt s' /\ P s' /\ children_at g s'.
Proof.
  intros Hbody HP Hc. unfold all_children.
  assert (forall n i s h, P s -> children_at h s -> (i + n)%nat = length contents ->
    (forall j l, contents !! j = Some l -> h j l = if decide (j < i)%nat then g j l else f j l) ->
    exists s', for_each (seq i n) body s = Ok tt s' /\ P s' /\ children_at g s') as Hloop.
  { clear s HP Hc. induction n as [|n IH]; intros i s h HP Hc Hn Hh; cbn [seq for_each].
    - exists s. split; [done|]. split; [done|]. eapply children_at_ext; [|done]. intros j l Hj.
      rewrite (Hh j l Hj), decide_True; [done|]. apply lookup_lt_Some in Hj. lia.
    - destruct (lookup_lt_is_Some_2 contents i ltac:(lia)) as [l Hi].
      destruct (Hbody i l s h Hi HP Hc) as (s1 & E1 & HP1 & Hc1); [by rewrite (Hh i l Hi), decide_False by lia|].
      rewrite (bind_ok _ _ _ _ _ E1).
      eapply (IH (Datatypes.S i)); [done|exact Hc1|lia|]. intros j l' Hj. cbv beta.
      destruct (decide (j = i)) as [->|Hne]; [replace l' with l by congruence; by rewrite decide_True by lia|].
      rewrite (Hh j l' Hj). destruct (decide (j < i)%nat); [by rewrite decide_True by lia|by rewrite decide_False by lia]. }
  destruct (Hloop (length (children_ s)) 0%nat s f HP Hc) as (s' & E & HP' & Hc').
  - destruct Hc as [-> _]. done.
  - intros j l _. done.
  - by exists s'.
Qed.

(** Moving every child by one operation of its own. *)
Lemma move_all f s (m : M (IteratorWrapper S) unit) g :
  children_at f s ->
  (forall j l i w, contents !! j = Some l -> wrapped l (pos j) i w ->
     exists w', m w = Ok tt w' /\ wrapped l (pos j) (g j l) w') ->
  exists s', for_each (all_children s) (fun i => on_child i m) s = Ok tt s' /\ children_at g s'.
Proof.
  intros Hc Hmove.
  destruct (for_each_ok (fun _ => True) (fun i => on_child i m) f g s) as (s' & E & _ & Hc'); [|done..|by exists s'].
  intros j l s1 h Hj _ Hh _. destruct (child_at _ _ _ _ Hh Hj) as (w & Hw & Hp).
  destruct (Hmove j l _ w Hj Hp) as (w' & Ew & Hp'). eexists. split; [by apply (on_child_ok _ _ _ w)|].
  split; [done|]. by apply (children_at_insert h s1 j l).
Qed.

(** ** The child that is found *)

Section find.
Context (better : Z -> bool) f s (Hc : children_at f s).

(** The key of child [j], if it is valid. *)
Definition head (j : nat) (e : Slice * Slice) : Prop := exists l, contents !! j = Some l /\ l !! f j l = Some e.

Lemma head_valid j e : head j e -> valid e.1.
Proof.
  intros (l & Hj & He). apply (entries_valid C _ (merge_parts _ _ _ Hm _ _ Hj)). by eapply list_elem_of_lookup_2.
Qed.

Lemma head_key j e : head j e -> on_child j wrapper_key s = Ok e.1 s.
Proof. intros (l & Hj & He). by apply (child_key_ok f s j l). Qed.

Lemma head_cases j l : contents !! j = Some l ->
  (child_Valid j s = Ok false s /\ forall e, ~ head j e) \/ (child_Valid j s = Ok true s /\ exists e, head j e).
Proof.
  intros Hj. rewrite (child_Valid_ok f s j l) by done. destruct (Nat.ltb_spec (f j l) (length l)) as [Hlt|Hge].
  - right. split; [done|]. destruct (lookup_lt_is_Some_2 _ _ Hlt) as [e He]. by exists e, l.
  - left. split; [done|]. intros e (l' & Hj' & He). assert (l' = l) as -> by congruence.
    apply lookup_lt_Some in He. lia.
Qed.

(** A child that is better than all others is found. *)
Lemma find_child_some (js : list nat) c e :
  (forall j, j ∈ js -> (j < length contents)%nat) -> c ∈ js -> head c e ->
  (forall j ej r r', head j ej -> j <> c ->
     @Compare C e.1 ej.1 = Some r -> @Compare C ej.1 e.1 = Some r' -> better r = true /\ better r' = false) ->
  find_child C better js s = Ok (Some c) s.
Proof.
  intros Hlen Hin Hhead Hbest. unfold find_child.
  set (body := fun (found : option nat) (i : nat) => _).
  assert (forall found, (forall j, found = Some j -> exists ej, head j ej) -> (found = Some c \/ c ∈ js) ->
            for_fold js body found s = Ok (Some c) s) as Hloop; [|apply Hloop; [done|by right]].
  clear Hin. induction js as [|i js IH]; intros found Hf Hin; cbn [for_fold].
  { destruct Hin as [->|Hin]; [done|by apply elem_of_nil in Hin]. }
  assert (forall j, j ∈ js -> (j < length contents)%nat) as Hlen' by (intros j Hj; apply Hlen; by right).
  destruct (lookup_lt_is_Some_2 contents i (Hlen i ltac:(left))) as [l Hi].
  assert (exists found', body found i s = Ok found' s /\ (forall j, found' = Some j -> exists ej, head j ej) /\
                         (found' = Some c \/ c ∈ js)) as (found' & E & Hf' & Hin').
  { unfold body. destruct (head_cases i l Hi) as [[Ev Hno]|[Ev [ei Hei]]]; rewrite (bind_ok _ _ _ _ _ Ev).
    - exists found. split; [done|]. split; [done|]. destruct Hin as [|Hin]; [by left|right].
      apply elem_of_cons in Hin as [->|Hin]; [|done]. by destruct (Hno e).
    - destruct found as [j|].
      2: { exists (Some i). split; [done|]. split; [intros ? [= <-]; by exists ei|].
           destruct Hin as [|Hin]; [done|]. apply elem_of_cons in Hin as [->|]; [by left|by right]. }
      destruct (Hf j eq_refl) as [ej Hej]. rewrite (bind_ok _ _ _ _ _ (head_key i ei Hei)).
      rewrite (bind_ok _ _ _ _ _ (head_key j ej Hej)).
      destruct (compare_total ei.1 ej.1) as [r Er]; [by eapply head_valid..|].
      rewrite Er. cbn [or_ub]. rewrite bind_ret.
      exists (if better r then Some i else Some j). split; [by destruct (better r)|].
      split; [intros j' Hj'; destruct (better r); injection Hj' as <-; eauto|].
      assert (forall x, head c x -> x = e) as Huniq.
      { intros x (l1 & H1 & H2). destruct Hhead as (l2 & H3 & H4). congruence. }
      destruct (decide (i = c)) as [->|Hic], (decide (j = c)) as [->|Hjc].
      + left. by destruct (better r).
      + left. rewrite (Huniq ei) in Er by done. destruct (compare_total ej.1 e.1) as [r' Er']; [by eapply head_valid..|].
        destruct (Hbest j ej r r' Hej Hjc Er Er') as [-> _]. done.
      + left. rewrite (Huniq ej) in Er by done. destruct (compare_total e.1 ei.1) as [r' Er']; [by eapply head_valid..|].
        destruct (Hbest i ei r' r Hei Hic Er' Er) as [_ ->]. done.
      + right. destruct Hin as [|Hin]; [congruence|]. by apply elem_of_cons in Hin as [|]. }
  rewrite (bind_ok _ _ _ _ _ E). by apply IH.
Qed.

(** No child is found when none is valid. *)
Lemma find_child_none (js : list nat) :
  (forall j, j ∈ js -> (j < length contents)%nat) -> (forall j e, ~ head j e) -> find_child C better js s = Ok None s.
Proof.
  intros Hlen Hno. unfold find_child. set (body := fun (found : option nat) (i : nat) => _).
  induction js as [|i js IH]; [done|]. cbn [for_fold].
  destruct (lookup_lt_is_Some_2 contents i (Hlen i ltac:(left))) as [l Hi].
  assert (body None i s = Ok None s) as E.
  { unfold body. destruct (head_cases i l Hi) as [[Ev _]|[_ [e He]]]; [|by destruct (Hno i e)].
    by rewrite (bind_ok _ _ _ _ _ Ev). }
  rewrite (bind_ok _ _ _ _ _ E). apply IH. intros j Hj. apply Hlen. by right.
Qed.

End find.

(** ** FindSmallest and FindLargest *)

Lemma before_compare a b r r' :
  valid a -> valid b -> before C a b = true ->
  @Compare C a b = Some r -> @Compare C b a = Some r' -> r < 0 /\ 0 < r'.
Proof.
  unfold before. intros Ha Hb Hlt E E'. rewrite E in Hlt. apply Z.ltb_lt in Hlt.
  pose proof (compare_antisym a b r r' Ha Hb E E'). lia.
Qed.

Lemma kvs_valid n e : kvs !! n = Some e -> valid e.1.
Proof. intros Hn. apply Htargets, Hkeys. by eapply list_elem_of_lookup_2. Qed.

Lemma head_of_kvs f j e : head f j e -> exists m, kvs !! m = Some e.
Proof. intros (l & Hj & He). by eapply part_entry. Qed.

Lemma FindSmallest_ok n s :
  children_at (ahead n) s ->
  exists c, FindSmallest C s = Ok tt (mk_merging (children_ s) c (direction_ s)) /\ owner n c.
Proof.
  intros Hc. unfold FindSmallest. rewrite bind_gets. unfold id, all_children, owner.
  assert (forall j, j ∈ seq 0 (length (children_ s)) -> (j < length contents)%nat) as Hlen.
  { intros j Hj%elem_of_seq. destruct Hc as [E _]. lia. }
  set (js := seq 0 (length (children_ s))) in *. destruct (kvs !! n) as [e|] eqn:En.
  - destruct (entry_owner C contents kvs Hm n e En) as (c & l & Hl & He & Hs).
    exists (Some c). split; [|by exists c, l].
    assert (find_child C (fun r => r <? 0) js s = Ok (Some c) s) as Ef; [|by rewrite (bind_ok _ _ _ _ _ Ef)].
    apply (find_child_some _ (ahead n) s Hc js c e Hlen); [|by exists l|].
    { apply elem_of_seq. destruct Hc as [E _]. apply lookup_lt_Some in Hl. lia. }
    intros j ej r r' Hej Hne Er Er'. pose proof (head_valid _ _ _ Hej) as Hv. destruct Hej as (lj & Hj & Hej).
    assert (before C e.1 ej.1 = true) as Hb
      by (apply (upto_next C contents kvs Hm n e c l j lj); try done; by eapply list_elem_of_lookup_2).
    destruct (before_compare e.1 ej.1 r r') as [H1 H2]; [by eapply kvs_valid|done..|].
    split; [by apply Z.ltb_lt|apply Z.ltb_ge; lia].
  - exists None. split; [|done].
    assert (find_child C (fun r => r <? 0) js s = Ok None s) as Ef; [|by rewrite (bind_ok _ _ _ _ _ Ef)].
    apply (find_child_none _ (ahead n) s Hc js Hlen). intros j e (l & Hj & He). unfold ahead in He.
    rewrite (upto_end C) in He by (by apply lookup_ge_None). apply lookup_lt_Some in He. lia.
Qed.

Lemma FindLargest_ok n s :
  (n <= length kvs)%nat -> children_at (behind n) s ->
  exists c, FindLargest C s = Ok tt (mk_merging (children_ s) c (direction_ s)) /\ owner (back n kvs) c.
Proof.
  intros Hn Hc. unfold FindLargest. rewrite bind_gets. unfold id, all_children, owner.
  assert (forall j, j ∈ rev (seq 0 (length (children_ s))) <-> (j < length contents)%nat) as Hlen.
  { intros j. rewrite list_elem_of_In, <- in_rev, <- list_elem_of_In, elem_of_seq. destruct Hc as [-> _]. lia. }
  set (js := rev (seq 0 (length (children_ s)))) in *. destruct n as [|n]; cbn [back].
  - rewrite lookup_ge_None_2 by done. exists None. split; [|done].
    assert (find_child C (fun r => 0 <? r) js s = Ok None s) as Ef; [|by rewrite (bind_ok _ _ _ _ _ Ef)].
    apply (find_child_none _ (behind 0) s Hc js); [intros j Hj; by apply Hlen|]. intros j e (l & Hj & He). unfold behind in He.
    rewrite (upto_0 C contents kvs Hm j) in He by done. apply lookup_lt_Some in He. cbn in He. lia.
  - destruct (lookup_lt_is_Some_2 kvs n ltac:(lia)) as [e En]. rewrite En.
    destruct (entry_owner C contents kvs Hm n e En) as (c & l & Hl & He & Hs).
    exists (Some c). split; [|by exists c, l].
    assert (find_child C (fun r => 0 <? r) js s = Ok (Some c) s) as Ef; [|by rewrite (bind_ok _ _ _ _ _ Ef)].
    apply (find_child_some _ (behind (Datatypes.S n)) s Hc js c e); [intros j Hj; by apply Hlen| | |].
    { by apply Hlen; eapply lookup_lt_Some. }
    { exists l. split; [done|]. unfold behind. by rewrite Hs. }
    intros j ej r r' Hej Hne Er Er'. pose proof (head_valid _ _ _ Hej) as Hv. destruct Hej as (lj & Hj & Hej).
    unfold behind in Hej.
    destruct (upto C kvs (Datatypes.S n) lj) as [|i] eqn:Eu; [apply lookup_lt_Some in Hej; cbn in Hej; lia|].
    assert (before C ej.1 e.1 = true) as Hb
      by (apply (upto_prev C contents kvs Hm n e c l j lj i); try done; by eapply list_elem_of_lookup_2).
    destruct (before_compare ej.1 e.1 r' r) as [H1 H2]; [done|by eapply kvs_valid|done..|].
    split; [by apply Z.ltb_lt|apply Z.ltb_ge; lia].
Qed.

(** ** The current child *)

Section current.
Context (n : nat) (e : Slice * Slice) (c : nat) (lc : list (Slice * Slice)).
Context (En : kvs !! n = Some e) (Hl : contents !! c = Some lc) (He : lc !! upto C kvs n lc = Some e)
        (Hs : upto C kvs (Datatypes.S n) lc = Datatypes.S (upto C kvs n lc)).

Lemma current_index d : at_entry d n c lc = upto C kvs n lc.
Proof. destruct d; [done|]. cbn [at_entry]. unfold behind. by rewrite Hs. Qed.

Lemma other_upto j l : contents !! j = Some l -> j <> c -> upto C kvs (Datatypes.S n) l = upto C kvs n l.
Proof. intros Hj Hne. apply (upto_other C contents kvs Hm n e c lc j l); try done. by eapply list_elem_of_lookup_2. Qed.

Lemma other_at_entry d j l : contents !! j = Some l -> j <> c ->
  at_entry d n j l = match d with kForward => upto C kvs n l | kReverse => back (upto C kvs n l) l end.
Proof. intros Hj Hne. destruct d; [done|]. cbn [at_entry]. unfold behind. by rewrite (other_upto j). Qed.

(** The child is current, at the entry, in [wc]. *)
Definition current_in (wc : IteratorWrapper S) s : Prop :=
  current_ s = Some c /\ children_ s !! c = Some wc /\ wrapped lc (pos c) (upto C kvs n lc) wc.

Lemma on_current_eq {A} (m : M (IteratorWrapper S) A) s : current_ s = Some c -> on_current m s = on_child c m s.
Proof. intros E. unfold on_current. rewrite bind_gets. unfold id. by rewrite E. Qed.

Lemma current_key wc s : current_in wc s -> merging_key s = Ok e.1 s.
Proof.
  intros (Ec & Ew & Hw). unfold merging_key. rewrite on_current_eq by done.
  apply (on_child_read _ _ _ wc); [done|]. destruct e as [k v].
  by apply (wrapper_key_ok (pos := pos c) (kvs := lc) (upto C kvs n lc) wc k v).
Qed.

Lemma current_insert wc s j w : current_in wc s -> j <> c -> current_in wc (set_children (<[j := w]> (children_ s)) s).
Proof.
  intros (Ec & Ew & Hw) Hne. split; [done|]. split; [|done]. cbn [set_children children_].
  by rewrite list_lookup_insert_ne.
Qed.

(** Another child is sent to the current key. *)
Lemma seek_current wc s h j l :
  current_in wc s -> children_at h s -> contents !! j = Some l -> j <> c ->
  exists s', on_child j (wrapper_Seek e.1) s = Ok tt s' /\ current_in wc s' /\
    children_at (fun j' l' => if decide (j' = j) then upto C kvs n l else h j' l') s'.
Proof.
  intros Hin Hh Hj Hne. destruct (child_at _ _ _ _ Hh Hj) as (w & Hw & Hp).
  destruct (wrapper_Seek_ok (Hcur j l Hj) _ w e.1 Hp) as (w' & Ew & Hp').
  { apply Hkeys. by eapply list_elem_of_lookup_2. }
  eexists. split; [by apply (on_child_ok _ _ _ w)|]. split; [by apply current_insert|].
  apply (children_at_insert h s j l); [done..|]. unfold upto. by rewrite En.
Qed.

(** What the bodies of the loops of [Next] and [Prev] do. *)
Lemma to_forward_ok wc s h j l :
  contents !! j = Some l -> current_in wc s -> children_at h s -> h j l = at_entry kReverse n j l ->
  exists s', to_forward C j s = Ok tt s' /\ current_in wc s' /\
             children_at (fun j' l' => if decide (j' = j) then ahead n j l else h j' l') s'.
Proof.
  intros Hj Hin Hh Ehj. unfold to_forward. rewrite bind_gets. unfold id. rewrite (proj1 Hin).
  destruct (decide (j = c)) as [->|Hne].
  - rewrite bool_decide_true by done. exists s. split; [done|]. split; [done|].
    eapply children_at_ext; [|exact Hh]. intros j' l' Hj'. case_decide as E; [|done]. subst j'.
    replace l' with l by congruence. rewrite Ehj. assert (l = lc) as -> by congruence. by rewrite current_index.
  - rewrite bool_decide_false by congruence. rewrite (bind_ok _ _ _ _ _ (current_key wc s Hin)).
    destruct (seek_current wc s h j l) as (s1 & E1 & Hin1 & Hh1); [done..|].
    rewrite (bind_ok _ _ _ _ _ E1). exists s1. split; [|by split].
    rewrite (bind_ok _ _ _ _ _ (child_Valid_ok _ _ _ _ Hh1 Hj)). rewrite decide_True by done.
    destruct (Nat.ltb_spec (upto C kvs n l) (length l)) as [Hlt|]; [|done].
    destruct (lookup_lt_is_Some_2 _ _ Hlt) as [e' He'].
    rewrite (bind_ok _ _ _ _ _ (current_key wc s1 Hin1)).
    assert (on_child j wrapper_key s1 = Ok e'.1 s1) as Ek
      by (apply (child_key_ok _ s1 j l e' Hh1 Hj); by rewrite decide_True).
    rewrite (bind_ok _ _ _ _ _ Ek).
    pose proof (upto_next C contents kvs Hm n e c lc j l e' En Hl ltac:(by eapply list_elem_of_lookup_2) Hj Hne He') as Hb.
    unfold before in Hb. destruct (Compare e.1 e'.1) as [r|]; [|done]. apply Z.ltb_lt in Hb.
    cbn [or_ub]. rewrite bind_ret. by destruct (Z.eqb_spec r 0); [lia|].
Qed.

Lemma to_reverse_ok wc s h j l :
  contents !! j = Some l -> current_in wc s -> children_at h s -> h j l = at_entry kForward n j l ->
  exists s', to_reverse j s = Ok tt s' /\ current_in wc s' /\
             children_at (fun j' l' => if decide (j' = j) then behind (Datatypes.S n) j l else h j' l') s'.
Proof.
  intros Hj Hin Hh Ehj. unfold to_reverse. rewrite bind_gets. unfold id. rewrite (proj1 Hin).
  destruct (decide (j = c)) as [->|Hne].
  - rewrite bool_decide_true by done. exists s. split; [done|]. split; [done|].
    eapply children_at_ext; [|exact Hh]. intros j' l' Hj'. case_decide as E; [|done]. subst j'.
    replace l' with l by congruence. rewrite Ehj. assert (l = lc) as -> by congruence.
    rewrite current_index. symmetry. apply (current_index kReverse).
  - rewrite bool_decide_false by congruence. rewrite (bind_ok _ _ _ _ _ (current_key wc s Hin)).
    destruct (seek_current wc s h j l) as (s1 & E1 & Hin1 & Hh1); [done..|].
    rewrite (bind_ok _ _ _ _ _ E1). rewrite (bind_ok _ _ _ _ _ (child_Valid_ok _ _ _ _ Hh1 Hj)).
    rewrite decide_True by done. destruct (child_at _ _ _ _ Hh1 Hj) as (w & Hw & Hp).
    rewrite decide_True in Hp by done. pose proof (upto_le C kvs n l) as Hle.
    assert (exists w', (if (upto C kvs n l <? length l)%nat then wrapper_Prev w else wrapper_SeekToLast w) = Ok tt w' /\
                       wrapped l (pos j) (behind (Datatypes.S n) j l) w') as (w' & Ew & Hp').
    { unfold behind. rewrite (other_upto j) by done. destruct (Nat.ltb_spec (upto C kvs n l) (length l)) as [Hlt|Hge].
      - destruct (wrapper_Prev_ok (Hcur j l Hj) _ w Hp Hlt) as (w' & Ew & Hp'). exists w'. split; [done|].
        by destruct (upto C kvs n l).
      - destruct (wrapper_SeekToLast_ok (Hcur j l Hj) _ w Hp) as (w' & Ew & Hp'). exists w'. split; [done|].
        replace (upto C kvs n l) with (length l) by lia. by destruct (length l) eqn:E; unfold back; rewrite ?E. }
    exists (set_children (<[j := w']> (children_ s1)) s1). split; [|split; [by apply current_insert|]].
    + destruct (_ <? _)%nat; by apply (on_child_ok _ _ _ w).
    + eapply children_at_ext; [|by apply (children_at_insert _ s1 j l w' _ Hh1 Hj Hp')].
      intros j' l' _. cbv beta. by repeat case_decide.
Qed.

End current.

(** ** The operations *)

Lemma merging_pos_lt n s : merging_pos n s -> (n < length kvs)%nat ->
  exists e c l, kvs !! n = Some e /\ current_ s = Some c /\ contents !! c = Some l /\ l !! upto C kvs n l = Some e /\
    upto C kvs (Datatypes.S n) l = Datatypes.S (upto C kvs n l) /\ children_at (at_entry (direction_ s) n) s.
Proof.
  intros [Ho (f & Hc & Hf)] Hn. destruct (lookup_lt_is_Some_2 _ _ Hn) as [e En]. unfold owner in Ho.
  rewrite En in Ho. destruct Ho as (c & l & Ec & Hl & He & Hs). rewrite <- (Hf Hn). by exists e, c, l.
Qed.

Lemma current_in_ok n e c l s :
  current_ s = Some c -> contents !! c = Some l -> upto C kvs (Datatypes.S n) l = Datatypes.S (upto C kvs n l) ->
  children_at (at_entry (direction_ s) n) s -> l !! upto C kvs n l = Some e ->
  exists wc, current_in n c l wc s.
Proof.
  intros Ec Hl Hs Hc He. destruct (child_at _ _ _ _ Hc Hl) as (wc & Hw & Hp).
  rewrite (current_index n c l Hs) in Hp. by exists wc.
Qed.

(** Behind the loops: the children are on one side of the entry. *)
Lemma turn_ok n s d :
  merging_pos n s -> (n < length kvs)%nat ->
  exists s', (match direction_ s with
              | kForward => match d with kForward => ret tt
                            | kReverse => for_each (all_children s) to_reverse ;;; set_direction kReverse end
              | kReverse => match d with kReverse => ret tt
                            | kForward => for_each (all_children s) (to_forward C) ;;; set_direction kForward end
              end) s = Ok tt s' /\ direction_ s' = d /\ current_ s' = current_ s /\ children_at (at_entry d n) s'.
Proof.
  intros Hp Hn. destruct (merging_pos_lt n s Hp Hn) as (e & c & l & En & Ec & Hl & He & Hs & Hc).
  destruct (current_in_ok n e c l s Ec Hl Hs Hc He) as (wc & Hin).
  destruct (direction_ s) eqn:Ed, d; [by exists s| | |by exists s].
  - destruct (for_each_ok (current_in n c l wc) to_reverse (at_entry kForward n) (at_entry kReverse n) s)
      as (s1 & E1 & (Ec1 & _) & Hc1); [|done..|].
    { intros j l' s1 h Hj Hin1 Hh Ehj. by apply (to_reverse_ok n e c l En Hl He Hs wc s1 h). }
    rewrite (bind_ok _ _ _ _ _ E1). eexists. split; [done|]. by rewrite Ec.
  - destruct (for_each_ok (current_in n c l wc) (to_forward C) (at_entry kReverse n) (at_entry kForward n) s)
      as (s1 & E1 & (Ec1 & _) & Hc1); [|done..|].
    { intros j l' s1 h Hj Hin1 Hh Ehj. by apply (to_forward_ok n e c l En Hl He Hs wc s1 h). }
    rewrite (bind_ok _ _ _ _ _ E1). eexists. split; [done|]. by rewrite Ec.
Qed.

Lemma merging_Next_ok n s :
  merging_pos n s -> (n < length kvs)%nat -> exists s', merging_Next C s = Ok tt s' /\ merging_pos (Datatypes.S n) s'.
Proof.
  intros Hp Hn. destruct (merging_pos_lt n s Hp Hn) as (e & c & l & En & Ec & Hl & He & Hs & _).
  destruct (turn_ok n s kForward Hp Hn) as (s1 & E1 & Ed1 & Ec1 & Hc1). rewrite Ec in Ec1.
  unfold merging_Next. rewrite bind_gets. unfold id, merging_Valid. rewrite Ec, bind_assert by done.
  assert ((match direction_ s with kForward => ret tt
           | kReverse => for_each (all_children s) (to_forward C) ;;; set_direction kForward end) s = Ok tt s1) as E1'
    by (by destruct (direction_ s)).
  rewrite (bind_ok _ _ _ _ _ E1'). destruct (child_at _ _ _ _ Hc1 Hl) as (wc & Hw & Hwp). cbn [at_entry] in Hwp.
  destruct (wrapper_Next_ok (Hcur c l Hl) _ wc Hwp) as (w' & Ew & Hp'); [by eapply lookup_lt_Some|].
  assert (on_current wrapper_Next s1 = Ok tt (set_children (<[c := w']> (children_ s1)) s1)) as E2
    by (rewrite (on_current_eq c) by done; by apply (on_child_ok _ _ _ wc)).
  rewrite (bind_ok _ _ _ _ _ E2). set (s2 := set_children _ s1) in *.
  assert (children_at (ahead (Datatypes.S n)) s2) as Hc2.
  { eapply children_at_ext; [|by apply (children_at_insert _ s1 c l w' _ Hc1 Hl Hp')].
    intros j l' Hj. cbv beta. unfold ahead. case_decide as E; [subst j; by replace l' with l by congruence|].
    symmetry. by apply (other_upto n e c l En Hl He j). }
  destruct (FindSmallest_ok (Datatypes.S n) s2 Hc2) as (c' & -> & Ho). eexists. split; [done|].
  split; [done|]. exists (ahead (Datatypes.S n)). split; [done|]. intros _. cbn [direction_]. change (direction_ s2) with (direction_ s1). by rewrite Ed1.
Qed.

Lemma merging_Prev_ok n s :
  merging_pos n s -> (n < length kvs)%nat -> exists s', merging_Prev C s = Ok tt s' /\ merging_pos (back n kvs) s'.
Proof.
  intros Hp Hn. destruct (merging_pos_lt n s Hp Hn) as (e & c & l & En & Ec & Hl & He & Hs & _).
  destruct (turn_ok n s kReverse Hp Hn) as (s1 & E1 & Ed1 & Ec1 & Hc1). rewrite Ec in Ec1.
  unfold merging_Prev. rewrite bind_gets. unfold id, merging_Valid. rewrite Ec, bind_assert by done.
  assert ((match direction_ s with kReverse => ret tt
           | kForward => for_each (all_children s) to_reverse ;;; set_direction kReverse end) s = Ok tt s1) as E1'
    by (by destruct (direction_ s)).
  rewrite (bind_ok _ _ _ _ _ E1'). destruct (child_at _ _ _ _ Hc1 Hl) as (wc & Hw & Hwp).
  rewrite (current_index n c l Hs) in Hwp.
  destruct (wrapper_Prev_ok (Hcur c l Hl) _ wc Hwp) as (w' & Ew & Hp'); [by eapply lookup_lt_Some|].
  assert (on_current wrapper_Prev s1 = Ok tt (set_children (<[c := w']> (children_ s1)) s1)) as E2
    by (rewrite (on_current_eq c) by done; by apply (on_child_ok _ _ _ wc)).
  rewrite (bind_ok _ _ _ _ _ E2). set (s2 := set_children _ s1) in *.
  assert (children_at (behind n) s2) as Hc2.
  { eapply children_at_ext; [|by apply (children_at_insert _ s1 c l w' _ Hc1 Hl Hp')].
    intros j l' Hj. cbv beta. case_decide as E; [subst j; replace l' with l by congruence; unfold behind|].
    - by destruct (upto C kvs n l).
    - rewrite (other_at_entry n e c l En Hl He kReverse j l' Hj E). done. }
  destruct (FindLargest_ok n s2 ltac:(lia) Hc2) as (c' & -> & Ho). eexists. split; [done|].
  split; [done|]. exists (behind n). split; [done|]. intros Hlt. cbn [direction_]. change (direction_ s2) with (direction_ s1). rewrite Ed1. cbn [at_entry].
  destruct n as [|n]; cbn [back] in *; [lia|done].
Qed.

Lemma merging_children n s : merging_pos n s -> exists f, children_at f s.
Proof. intros [_ (f & Hc & _)]. by exists f. Qed.

Lemma merging_SeekToFirst_ok n s : merging_pos n s -> exists s', merging_SeekToFirst C s = Ok tt s' /\ merging_pos 0 s'.
Proof.
  intros [f Hc]%merging_children. unfold merging_SeekToFirst. rewrite bind_gets. unfold id.
  destruct (move_all f s wrapper_SeekToFirst (ahead 0) Hc) as (s1 & E1 & Hc1).
  { intros j l i w Hj Hw. destruct (wrapper_SeekToFirst_ok (Hcur j l Hj) i w Hw) as (w' & Ew & Hw').
    exists w'. split; [done|]. unfold ahead. by rewrite (upto_0 C contents kvs Hm j). }
  rewrite (bind_ok _ _ _ _ _ E1). destruct (FindSmallest_ok 0 s1 Hc1) as (c & E2 & Ho).
  rewrite (bind_ok _ _ _ _ _ E2). eexists. split; [done|]. split; [done|]. by exists (ahead 0).
Qed.

Lemma merging_SeekToLast_ok n s :
  merging_pos n s -> exists s', merging_SeekToLast C s = Ok tt s' /\ merging_pos (pred (length kvs)) s'.
Proof.
  intros [f Hc]%merging_children. unfold merging_SeekToLast. rewrite bind_gets. unfold id.
  destruct (move_all f s wrapper_SeekToLast (behind (length kvs)) Hc) as (s1 & E1 & Hc1).
  { intros j l i w Hj Hw. destruct (wrapper_SeekToLast_ok (Hcur j l Hj) i w Hw) as (w' & Ew & Hw').
    exists w'. split; [done|]. unfold behind. rewrite (upto_end C) by done.
    by destruct (length l) eqn:E; unfold back; rewrite ?E. }
  rewrite (bind_ok _ _ _ _ _ E1). destruct (FindLargest_ok (length kvs) s1 ltac:(done) Hc1) as (c & E2 & Ho).
  rewrite (bind_ok _ _ _ _ _ E2). eexists. split; [done|].
  split; [by destruct (length kvs) eqn:E; unfold back in Ho; rewrite ?E in Ho|]. exists (behind (length kvs)).
  split; [done|]. intros Hlt. cbn [direction_ at_entry]. by destruct (length kvs); [lia|].
Qed.

Lemma merging_Seek_ok n s t :
  merging_pos n s -> target_ok t -> exists s', merging_Seek C t s = Ok tt s' /\ merging_pos (keys_before C t kvs) s'.
Proof.
  intros [f Hc]%merging_children Ht. unfold merging_Seek. rewrite bind_gets. unfold id.
  destruct (move_all f s (wrapper_Seek t) (ahead (keys_before C t kvs)) Hc) as (s1 & E1 & Hc1).
  { intros j l i w Hj Hw. destruct (wrapper_Seek_ok (Hcur j l Hj) i w t Hw Ht) as (w' & Ew & Hw').
    exists w'. split; [done|]. unfold ahead. rewrite (upto_target C contents kvs Hm t j) by auto. done. }
  rewrite (bind_ok _ _ _ _ _ E1). destruct (FindSmallest_ok _ s1 Hc1) as (c & E2 & Ho).
  rewrite (bind_ok _ _ _ _ _ E2). eexists. split; [done|]. split; [done|]. by eexists.
Qed.

Lemma merging_status_ok f s : children_at f s -> merging_status s = Some Status_OK.
Proof.
  intros [Hlen Hc]. unfold merging_status.
  assert (forall ws, (forall w, w ∈ ws -> wrapper_status w = Some Status_OK) -> first_error Status_OK ws = Some Status_OK)
    as Hloop.
  { induction ws as [|w ws IH]; intros Hws; [done|]. cbn [first_error].
    rewrite (Hws w) by left. cbn. apply IH. intros w' Hw'. apply Hws. by right. }
  apply Hloop. intros w [j Hj]%list_elem_of_lookup.
  destruct (lookup_lt_is_Some_2 contents j) as [l Hl]; [rewrite <- Hlen; by eapply lookup_lt_Some|].
  destruct (Hc j l Hl) as (w' & Hw' & Hp). replace w with w' by congruence.
  by apply (wrapper_status_ok (Hcur j l Hl) _ w' Hp).
Qed.

Lemma merging_cursor : cursor_over (Merging_Iterator C) C target_ok kvs merging_pos.
Proof.
  split; cbn [it_Valid it_key it_value it_status it_SeekToFirst it_SeekToLast it_Seek it_Next it_Prev Merging_Iterator].
  - intros n s k v Hp En0. destruct (merging_pos_lt n s Hp) as (e & c & l & En & Ec & Hl & He & Hs & Hc).
    { by eapply lookup_lt_Some. }
    assert (e = (k, v)) as -> by congruence. unfold merging_Valid. rewrite Ec. split; [done|].
    destruct (current_in_ok n _ c l s Ec Hl Hs Hc He) as (wc & Hin).
    split; [by eapply (current_key n (k, v) c l)|]. destruct Hin as (_ & Hw & Hwp).
    unfold merging_value. rewrite (on_current_eq c) by done. apply (on_child_read _ _ _ wc); [done|].
    by apply (wrapper_value_ok (Hcur c l Hl) _ wc k v Hwp).
  - intros n s [Ho _] Hn. unfold owner in Ho. rewrite lookup_ge_None_2 in Ho by done. unfold merging_Valid.
    by rewrite Ho.
  - intros n s [f Hc]%merging_children. by apply (merging_status_ok f).
  - apply merging_SeekToFirst_ok.
  - apply merging_SeekToLast_ok.
  - apply merging_Seek_ok.
  - apply merging_Next_ok.
  - intros n s Hp Hn. destruct (merging_Prev_ok n s Hp Hn) as (s' & E & Hp'). exists s'. split; [done|].
    by destruct n.
Qed.

(** ** Construction *)

Lemma new_MergingIterator_ok (list : list S) :
  Forall2 (fun '(j, l) c => exists i, pos j i c) (imap pair contents) list ->
  exists s, new_MergingIterator list = Some s /\ merging_pos (length kvs) s.
Proof.
  intros Hch. unfold new_MergingIterator.
  assert (exists ws, mapM (fun c => match wrapper_Set (Some c) new_IteratorWrapper with
                                    | Ok _ w => Some w | _ => None end) list = Some ws /\
            Forall2 (fun '(j, l) w => exists i, wrapped l (pos j) i w) (imap pair contents) ws) as (ws & E & Hws).
  { assert (Forall (fun '(j, l) => contents !! j = Some l) (imap pair contents)) as Hall.
    { apply Forall_lookup. intros j [j' l] Hj. apply list_lookup_imap_Some in Hj as (x & Hx & [= -> ->]). done. }
    induction Hch as [|[j l] c jls list [i Hp] _ IH]; [by exists []|].
    apply Forall_cons in Hall as [Hj Hall]. destruct (IH Hall) as (ws & E & Hws).
    destruct (wrapper_Set_ok (Hcur j l Hj) i c new_IteratorWrapper Hp) as (w & Ew & Hw).
    exists (w :: ws). cbn [mapM]. rewrite Ew. cbn. change (mapM _ list) with (mapM (fun c =>
      match wrapper_Set (Some c) new_IteratorWrapper with Ok _ w => Some w | _ => None end) list).
    rewrite E. split; [done|]. constructor; [by exists i|done]. }
  rewrite E. cbn [mbind option_bind]. eexists. split; [done|]. split.
  - unfold owner. by rewrite lookup_ge_None_2.
  - pose proof (Forall2_length _ _ _ Hws) as Hlen. rewrite length_imap in Hlen.
    assert (forall j l, contents !! j = Some l -> exists w i, ws !! j = Some w /\ wrapped l (pos j) i w) as Hat.
    { intros j l Hj. destruct (Forall2_lookup_l _ _ _ j (j, l) Hws) as (w & Hw & i & Hp).
      - by rewrite list_lookup_imap, Hj.
      - by exists w, i. }
    destruct (finite_choice (fun j i => forall l, contents !! j = Some l -> exists w, ws !! j = Some w /\ wrapped l (pos j) i w)
      (length contents)) as [h Hh].
    { intros j Hj. destruct (lookup_lt_is_Some_2 _ _ Hj) as [l Hl]. destruct (Hat j l Hl) as (w & i & Hw & Hp).
      exists i. intros l' Hl'. replace l' with l by congruence. by exists w. }
    exists (fun j _ => h j). split; [|lia]. split; [by symmetry|]. intros j l Hj. cbn [children_].
    apply Hh; [by eapply lookup_lt_Some|done].
Qed.

End merging.

Lemma merged_cursor {S : Type} {I : Iterator S} (C : Comparator) {L : ComparatorLaws C}
    (target_ok : Slice -> Prop) (contents : list (list (Slice * Slice))) (pos : nat -> nat -> S -> Prop)
    (kvs : list (Slice * Slice)) (iterators : list S) :
  (forall j l, contents !! j = Some l -> cursor_over I C target_ok l (pos j)) ->
  merges C contents kvs ->
  (forall e, e ∈ kvs -> target_ok e.1) -> (forall t, target_ok t -> valid t) ->
  Forall2 (fun '(j, l) c => exists i, pos j i c) (imap pair contents) iterators ->
  exists s pos', NewMergingIterator iterators = Some s /\
    cursor_over (Merged_Iterator I C) C target_ok kvs pos' /\ exists n, pos' n s.
Proof.
  intros Hcur Hm Hkeys Ht Hit. pose proof (Forall2_length _ _ _ Hit) as Hlen. rewrite length_imap in Hlen.
  destruct iterators as [|c [|c' iterators]].
  - destruct contents; [|done]. pose proof (merge_all _ _ _ Hm) as E. apply Permutation_nil_r in E as ->.
    eexists (inl Status_OK), _. split; [done|]. split; [apply either_left, empty_cursor|]. by exists 0%nat.
  - destruct contents as [|l [|]]; [done| |done]. apply Forall2_cons in Hit as [[i Hi] _].
    assert (kvs = l) as ->.
    { apply (merge_one C); [apply Hm|by apply (merge_parts _ _ _ Hm 0)|].
      rewrite (merge_all _ _ _ Hm). cbn. by rewrite app_nil_r. }
    eexists (inr (inl c)), _. split; [done|].
    split; [apply either_right, either_left, (Hcur 0%nat l eq_refl)|]. by exists i.
  - destruct (new_MergingIterator_ok C target_ok contents pos kvs Hcur (c :: c' :: iterators) Hit) as (s & E & Hp).
    unfold NewMergingIterator. rewrite E. cbn [mbind option_bind]. eexists (inr (inr s)), _. split; [done|].
    split; [by apply either_right, either_right, (merging_cursor C target_ok contents pos kvs)|]. by eexists.
Qed.

(** C29: The iterator over several iterators is a cursor over the sorted union of what
    they show: if each of them is a cursor over a sorted list and no key is in two of
    the lists, all operations of the merging iterator - also in turn, when the
    direction changes - lead to where they lead in the union. *)
Theorem merging_is_cursor {S : Type} {I : Iterator S} (C : Comparator) {L : ComparatorLaws C}
    (target_ok : Slice -> Prop) (contents : list (list (Slice * Slice))) (pos : nat -> nat -> S -> Prop)
    (kvs : list (Slice * Slice)) (iterators : list S) :
  (forall j l, contents !! j = Some l -> cursor_over I C target_ok l (pos j)) ->
  merges C contents kvs ->
  (forall e, e ∈ kvs -> target_ok e.1) -> (forall t, target_ok t -> valid t) ->
  Forall2 (fun '(j, l) c => exists i, pos j i c) (imap pair contents) iterators ->
  exists s pos', NewMergingIterator iterators = Some s /\
    cursor_over (Merged_Iterator I C) C target_ok kvs pos' /\ exists n, pos' n s.
Proof. apply (merged_cursor C). Qed.

(** Two lists whose keys alternate. *)
Definition sample_left : list (Slice * Slice) := [([97], [1]); ([99], [3])].
Definition sample_right : list (Slice * Slice) := [([98], [2])].

Lemma sample_merges :
  merges BytewiseComparator [sample_left; sample_right] [([97], [1]); ([98], [2]); ([99], [3])].
Proof.
  assert (forall l, forallb (fun e : Slice * Slice => all_bytes e.1) l = true ->
    forallb (fun i => forallb (fun j => match l !! i, l !! j with
                                        | Some a, Some b => negb (i <? j)%nat || before BytewiseComparator a.1 b.1
                                        | _, _ => true end) (seq 0 (length l))) (seq 0 (length l)) = true ->
    sorted_entries BytewiseComparator l) as Hcheck.
  { intros l Hv Hs. split.
    - intros e He%list_elem_of_In. apply all_bytes_Forall. by apply (proj1 (forallb_forall _ _) Hv e).
    - intros i j a b Hi Hj Hij. rewrite forallb_forall in Hs.
      assert (forall k x, l !! k = Some x -> In k (seq 0 (length l))) as Hin.
      { intros k x Hk%lookup_lt_Some. apply in_seq. lia. }
      specialize (Hs i (Hin i a Hi)). rewrite forallb_forall in Hs. specialize (Hs j (Hin j b Hj)).
      rewrite Hi, Hj in Hs. by rewrite (proj2 (Nat.ltb_lt i j) Hij) in Hs. }
  split.
  - by apply Hcheck.
  - intros [|[|j]] l E; try discriminate E; injection E as <-; by apply Hcheck.
  - apply perm_skip, perm_swap.
Qed.

Lemma merging_is_cursor_witness :
  exists s pos', NewMergingIterator (I := Either_Iterator (list_iterator sample_left) (list_iterator sample_right))
                   [inl 2%nat; inr 1%nat] = Some s /\
    cursor_over (Merged_Iterator (Either_Iterator (list_iterator sample_left) (list_iterator sample_right))
                   BytewiseComparator)
      BytewiseComparator (Forall is_byte) [([97], [1]); ([98], [2]); ([99], [3])] pos' /\ exists n, pos' n s.
Proof.
  apply (merging_is_cursor BytewiseComparator (Forall is_byte) [sample_left; sample_right]
    (fun j => match j with O => either_pos (fun i s => i = s) (fun _ _ => False)
                         | _ => either_pos (fun _ _ => False) (fun i s => i = s) end)).
  - intros [|[|j]] l E; try discriminate E; injection E as <-.
    + apply either_left, list_iterator_cursor.
    + apply either_right, list_iterator_cursor.
  - apply sample_merges.
  - intros e He. apply (entries_valid _ _ (merge_sorted _ _ _ sample_merges) e He).
  - done.
  - constructor; [by exists 2%nat|]. constructor; [by exists 1%nat|constructor].
Defined.

(** Forward, back, and forward again. *)
Definition sample_run : option (list Slice) :=
  let J := Merged_Iterator (Either_Iterator (list_iterator sample_left) (list_iterator sample_right)) BytewiseComparator in
  s ← NewMergingIterator (I := Either_Iterator (list_iterator sample_left) (list_iterator sample_right))
        [inl 2%nat; inr 1%nat];
  match (@it_SeekToFirst _ J ;;; @it_Next _ J ;;; let! a := @it_key _ J in
         @it_Prev _ J ;;; let! b := @it_key _ J in
         @it_Next _ J ;;; @it_Next _ J ;;; let! c := @it_key _ J in ret [a; b; c]) s with
  | Ok r _ => Some r
  | _ => None
  end.

Example merge_turns : sample_run = Some [[98]; [97]; [99]].
Proof. vm_compute. reflexivity. Qed.
