(* ===== verification/UserView.v ===== *)
(** * What the user sees of internal entries

    At a sequence number, a user key has the value of the newest entry for it that
    is not newer than the number, unless that entry is a deletion. *)

From Stdlib Require Import ZArith Lia.
From stdpp Require Import base option list strings sorting gmap.
From S2P Require Import Prelude Memory Slice Coding DbFormat Iterator TwoLevelProof MergeLists MemTheorems MemIterator.

Lemma filter_middle {A} (f : A -> bool) l i x : l !! i = Some x -> f x = true ->
  List.filter f l = List.filter f (take i l) ++ x :: List.filter f (drop (S i) l).
Proof.
  intros Hi Hx. rewrite <- (take_drop_middle l i x Hi) at 1. rewrite List.filter_app. cbn [List.filter]. by rewrite Hx.
Qed.

Section view.
Context (C : Comparator) {L : ComparatorLaws C}.

(** The entry is the newest of its key at number [s], and it is a value. *)
Definition shown (s : Z) (es : list Entry) (e : Entry) : bool :=
  (e_type e =? kTypeValue) &&
  match newest C (e_key e) s es with Some e' => e_seq e' =? e_seq e | None => false end.

Definition user_pair (e : Entry) : Slice * Slice := (e_key e, e_value e).

(** The keys and values that are there at number [s]. *)
Definition user_view (s : Z) (ks : list Entry) : list (Slice * Slice) :=
  user_pair <$> List.filter (shown s ks) ks.

(** ** Entries in the order of their internal keys *)

Context (s : Z) (ks : list Entry) (H : internal_sorted C ks).

Lemma entry_at i e : ks !! i = Some e -> entry_ok C e.
Proof. intros Hi. pose proof (sorted_ok _ _ H) as Ho. by eapply Forall_lookup_1 in Ho. Qed.

Lemma entry_key_valid i e : ks !! i = Some e -> valid (e_key e).
Proof. intros Hi%entry_at. apply Hi. Qed.

Lemma entry_types i e : ks !! i = Some e -> e_type e = kTypeDeletion \/ e_type e = kTypeValue.
Proof. intros Hi%entry_at. apply Hi. Qed.

(** An earlier entry is for a smaller key, or newer. *)
Lemma entries_order i j a b : ks !! i = Some a -> ks !! j = Some b -> (i < j)%nat ->
  exists r, @Compare C (e_key a) (e_key b) = Some r /\ r <= 0 /\ (r = 0 -> e_number b < e_number a).
Proof.
  intros Hi Hj Hij. pose proof (sorted_internal _ _ H) as Hs.
  assert (before (InternalKeyComparator C) (entry_pair a).1 (entry_pair b).1 = true) as Hb.
  { apply (entries_sorted _ _ Hs i j); [by rewrite list_lookup_fmap, Hi|by rewrite list_lookup_fmap, Hj|done]. }
  unfold before, entry_pair in Hb. cbn [fst] in Hb.
  change (@Compare (InternalKeyComparator C)) with (InternalCompare C) in Hb.
  rewrite InternalCompare_eq in Hb by (eapply e_number_range, entry_at; done).
  destruct (compare_total (e_key a) (e_key b)) as [r Hr]; [by eapply entry_key_valid..|].
  rewrite Hr in Hb. cbn [mbind option_bind] in Hb. exists r. split; [done|].
  apply Z.ltb_lt in Hb. destruct (Z.eqb_spec r 0) as [Hz|Hne]; [|split; lia].
  split; [lia|]. intros _. unfold compare_number in Hb.
  destruct (Z.ltb_spec (e_number b) (e_number a)); [done|]. by destruct (e_number a <? e_number b).
Qed.

(** Keys that are equal for the order. *)
Definition same_key (a b : Entry) : Prop := @Compare C (e_key a) (e_key b) = Some 0.

Lemma same_key_sym i j a b : ks !! i = Some a -> ks !! j = Some b -> same_key a b -> same_key b a.
Proof.
  unfold same_key. intros Hi Hj E.
  destruct (compare_total (e_key b) (e_key a)) as [r Hr]; [by eapply entry_key_valid..|].
  pose proof (compare_antisym (e_key a) (e_key b) 0 r ltac:(by eapply entry_key_valid)
    ltac:(by eapply entry_key_valid) E Hr). rewrite Hr. f_equal. lia.
Qed.

Lemma same_key_trans i j k a b c :
  ks !! i = Some a -> ks !! j = Some b -> ks !! k = Some c -> same_key a b -> same_key b c -> same_key a c.
Proof.
  intros Hi Hj Hk Hab Hbc. pose proof (entry_key_valid i a Hi) as Va. pose proof (entry_key_valid j b Hj) as Vb.
  pose proof (entry_key_valid k c Hk) as Vc.
  pose proof (same_key_sym i j a b Hi Hj Hab) as Hba. pose proof (same_key_sym j k b c Hj Hk Hbc) as Hcb.
  destruct (compare_trans (e_key a) (e_key b) (e_key c) 0 0 Va Vb Vc Hab Hbc) as (r & Hr & Hr0 & _); [done..|].
  destruct (compare_trans (e_key c) (e_key b) (e_key a) 0 0 Vc Vb Va Hcb Hba) as (r' & Hr' & Hr0' & _); [done..|].
  pose proof (compare_antisym _ _ r r' Va Vc Hr Hr'). unfold same_key. rewrite Hr. f_equal. lia.
Qed.

(** Between two entries of a key there are only entries of the key. *)
Lemma same_key_between i j k a b c :
  ks !! i = Some a -> ks !! j = Some b -> ks !! k = Some c -> (i <= j <= k)%nat -> same_key a c -> same_key a b.
Proof.
  intros Hi Hj Hk Hij Hac. destruct (decide (j = k)) as [->|]; [by replace b with c by congruence|].
  destruct (decide (i = j)) as [->|].
  { replace b with a by congruence. apply compare_refl. by eapply entry_key_valid. }
  destruct (entries_order i j a b) as (r & Hr & Hle & _); [done|done|lia|].
  destruct (entries_order j k b c) as (r2 & Hr2 & Hle2 & _); [done|done|lia|].
  destruct (Z.eqb_spec r 0) as [->|]; [done|].
  destruct (compare_trans (e_key a) (e_key b) (e_key c) r r2) as (r3 & Hr3 & _ & Hlt);
    [by eapply entry_key_valid..|done|done|done|done|].
  unfold same_key in Hac. assert (r3 = 0) by congruence. pose proof (Hlt ltac:(lia)). lia.
Qed.

Lemma same_key_between_right i j k a b c :
  ks !! i = Some a -> ks !! j = Some b -> ks !! k = Some c -> (i <= j <= k)%nat -> same_key a c -> same_key b c.
Proof.
  intros Hi Hj Hk Hij Hac. pose proof (same_key_between i j k a b c Hi Hj Hk Hij Hac) as Hab.
  apply (same_key_trans j i k b a c Hj Hi Hk); [|done]. by apply (same_key_sym i j a b Hi Hj).
Qed.

(** No earlier entry for the key is visible at [s]. *)
Definition first_visible (i : nat) : Prop :=
  forall j a b, (j < i)%nat -> ks !! j = Some a -> ks !! i = Some b -> e_seq a <= s -> ~ same_key a b.

Lemma e_seq_number a b : e_type a = kTypeDeletion \/ e_type a = kTypeValue -> e_type b = kTypeValue ->
  e_number b < e_number a -> e_seq b < e_seq a.
Proof. unfold e_number, kTypeDeletion, kTypeValue. lia. Qed.

Lemma shown_spec i e : ks !! i = Some e ->
  shown s ks e = true <-> (e_type e = kTypeValue /\ e_seq e <= s /\ first_visible i).
Proof.
  intros Hi. unfold shown. rewrite andb_true_iff, Z.eqb_eq.
  pose proof (newest_spec C (e_key e) s ks) as Hn.
  assert (forall x, visible C (e_key e) s x = true <-> same_key x e /\ e_seq x <= s) as Hvis.
  { intros x. unfold visible, same_key. destruct (Compare (e_key x) (e_key e)) as [r|]; [|split; [done|by intros [? _]]].
    rewrite andb_true_iff, Z.eqb_eq, Z.leb_le. split; [by intros [-> ?]|by intros [[= ->] ?]]. }
  assert (same_key e e) as Hself by (apply compare_refl; by eapply entry_key_valid).
  assert (e ∈ ks) as He by (by eapply list_elem_of_lookup_2).
  destruct (newest C (e_key e) s ks) as [m|].
  - destruct Hn as (Hm & Vm & Hmax). apply Hvis in Vm as [Hsame Hms]. rewrite Z.eqb_eq.
    apply list_elem_of_lookup in Hm as [im Him]. split.
    + intros [Ht Hseq]. split; [done|]. split; [lia|]. intros j a b Hj Ha Hb Has Hab.
      assert (b = e) as -> by congruence.
      pose proof (Hmax a ltac:(by eapply list_elem_of_lookup_2) ltac:(by apply Hvis)) as Hle.
      destruct (entries_order j i a e Ha Hi Hj) as (r & Hr & _ & Hnum).
      unfold same_key in Hab. assert (r = 0) as -> by congruence.
      pose proof (e_seq_number a e (entry_types j a Ha) Ht (Hnum eq_refl)). lia.
    + intros (Ht & Hs & Hfirst). split; [done|].
      pose proof (Hmax e He ltac:(by apply Hvis)) as Hle.
      destruct (Nat.lt_trichotomy im i) as [Hlt|[->|Hgt]].
      * by destruct (Hfirst im m e Hlt Him Hi Hms).
      * congruence.
      * destruct (entries_order i im e m Hi Him Hgt) as (r & Hr & _ & Hnum).
        pose proof (same_key_sym im i m e Him Hi Hsame) as Hes. unfold same_key in Hes.
        assert (r = 0) as -> by congruence. specialize (Hnum eq_refl).
        destruct (entry_types im m Him), (entry_types i e Hi); unfold e_number, kTypeDeletion, kTypeValue in *; lia.
  - split; [by intros [_ ?]|]. intros (_ & Hs & _). specialize (Hn e He).
    by rewrite (proj2 (Hvis e)) in Hn.
Qed.

(** ** Counting what is shown *)

(** How many of the first [i] entries are shown. *)
Definition shown_upto (i : nat) : nat := length (List.filter (shown s ks) (take i ks)).

Lemma shown_upto_0 : shown_upto 0 = 0%nat.
Proof. done. Qed.

Lemma shown_upto_S i e : ks !! i = Some e ->
  shown_upto (S i) = (shown_upto i + if shown s ks e then 1 else 0)%nat.
Proof.
  intros Hi. unfold shown_upto. rewrite (take_S_r _ _ _ Hi), List.filter_app, length_app. cbn [List.filter].
  by destruct (shown s ks e).
Qed.

Lemma shown_upto_all i : (length ks <= i)%nat -> shown_upto i = length (user_view s ks).
Proof. intros Hi. unfold shown_upto, user_view. by rewrite length_fmap, take_ge. Qed.

Lemma shown_upto_le i : (shown_upto i <= length (user_view s ks))%nat.
Proof.
  unfold shown_upto, user_view. rewrite length_fmap. pose proof (List.filter_app (shown s ks) (take i ks) (drop i ks)) as E.
  rewrite take_drop in E. rewrite E, length_app. lia.
Qed.

Lemma shown_upto_mono i j : (i <= j)%nat -> (shown_upto i <= shown_upto j)%nat.
Proof.
  intros Hij. unfold shown_upto. replace (take j ks) with (take i ks ++ take (j - i) (drop i ks)).
  - rewrite List.filter_app, length_app. lia.
  - rewrite take_take_drop. by replace (i + (j - i))%nat with j by lia.
Qed.

(** What is shown of the entries between. *)
Lemma shown_upto_hidden i j :
  (i <= j)%nat -> (forall k e, (i <= k < j)%nat -> ks !! k = Some e -> shown s ks e = false) -> shown_upto j = shown_upto i.
Proof.
  intros Hij Hno. induction j as [|j IH]; [by assert (i = 0%nat) as -> by lia|].
  destruct (decide (i = S j)) as [->|]; [done|].
  rewrite <- IH; [|lia|intros k e Hk; apply Hno; lia].
  destruct (ks !! j) as [e|] eqn:E.
  - rewrite (shown_upto_S j e E), (Hno j e ltac:(lia) E). lia.
  - apply lookup_ge_None in E. by rewrite !shown_upto_all by lia.
Qed.

(** Every entry that is shown is in the view at its place. *)
Lemma view_lookup i e : ks !! i = Some e -> shown s ks e = true ->
  user_view s ks !! shown_upto i = Some (user_pair e).
Proof.
  intros Hi He. unfold user_view, shown_upto. rewrite list_lookup_fmap, (filter_middle _ ks i e Hi He).
  by rewrite list_lookup_middle.
Qed.

End view.
