(* ===== verification/DbIter.v ===== *)
(** * Iterators of the database (db_iter.h, db_iter.cc)

    [DBIter] turns an iterator over internal keys into one over the user keys and
    values that are there at a sequence number. *)

From Stdlib Require Import ZArith Lia String.
From stdpp Require Import base option list strings gmap.
From S2P Require Import Prelude Memory Slice Coding DbFormat SkipList Status Iterator Merger.

Definition kReadBytesPeriod : Z := 1048576.

(** Which way it is moving: the constants are the same as those of a merging
    iterator.  The capacity of [saved_value_] is not kept. *)
Record DBIter (S D : Type) := mk_dbiter {
  di_db : D;
  di_iter : S;
  di_status : Status;
  di_saved_key : Slice;
  di_saved_value : Slice;
  di_direction : Direction;
  di_valid : bool;
  di_rnd : Z;
  di_bytes_counter : Z
}.
Arguments mk_dbiter {S D}. Arguments di_db {S D}. Arguments di_iter {S D}. Arguments di_status {S D}.
Arguments di_saved_key {S D}. Arguments di_saved_value {S D}. Arguments di_direction {S D}.
Arguments di_valid {S D}. Arguments di_rnd {S D}. Arguments di_bytes_counter {S D}.

Section dbiter.
Context {S D : Type} {I : Iterator S}.
(** The database takes a sample of the keys that are read. *)
Context (RecordReadSample : Slice -> D -> D).
Context (user_comparator_ : Comparator) (sequence_ : Z).
(** As many entries as the loops can pass. *)
Context (fuel : nat).

Abbreviation DI := (DBIter S D).

Definition set_iter (x : S) (s : DI) : DI :=
  mk_dbiter (di_db s) x (di_status s) (di_saved_key s) (di_saved_value s) (di_direction s) (di_valid s) (di_rnd s)
    (di_bytes_counter s).
Definition set_saved (k v : Slice) (s : DI) : DI :=
  mk_dbiter (di_db s) (di_iter s) (di_status s) k v (di_direction s) (di_valid s) (di_rnd s) (di_bytes_counter s).
Definition set_di_direction (d : Direction) (s : DI) : DI :=
  mk_dbiter (di_db s) (di_iter s) (di_status s) (di_saved_key s) (di_saved_value s) d (di_valid s) (di_rnd s)
    (di_bytes_counter s).
Definition set_di_valid (b : bool) (s : DI) : DI :=
  mk_dbiter (di_db s) (di_iter s) (di_status s) (di_saved_key s) (di_saved_value s) (di_direction s) b (di_rnd s)
    (di_bytes_counter s).
Definition set_di_status (x : Status) (s : DI) : DI :=
  mk_dbiter (di_db s) (di_iter s) x (di_saved_key s) (di_saved_value s) (di_direction s) (di_valid s) (di_rnd s)
    (di_bytes_counter s).
Definition set_sampling (d : D) (rnd counter : Z) (s : DI) : DI :=
  mk_dbiter d (di_iter s) (di_status s) (di_saved_key s) (di_saved_value s) (di_direction s) (di_valid s) rnd counter.

Definition on_internal {A} : M S A -> M DI A := zoom di_iter set_iter.

Definition SaveKey (k : Slice) : M DI unit := modify (fun s => set_saved k (di_saved_value s) s).
Definition ClearSavedKey : M DI unit := SaveKey [].
Definition ClearSavedValue : M DI unit := modify (fun s => set_saved (di_saved_key s) [] s).

(** What it returns, with the next seed. *)
Definition RandomPeriod (rnd : Z) : option (Z * Z) := Uniform (2 * kReadBytesPeriod) rnd.

(** No two periods in a row are zero, so that the counter is not below zero after
    twice as many rounds as it was below zero. *)
Definition sample_rounds (n : Z) : nat := (2 + 2 * Z.to_nat n)%nat.

Definition sample_round (k : Slice) (_ : unit) : M DI (unit + unit) :=
  let! s := gets id in
  if di_bytes_counter s <? 0 then
    let! p := or_ub (RandomPeriod (di_rnd s)) in
    modify (fun s => set_sampling (RecordReadSample k (di_db s)) p.2 (di_bytes_counter s + p.1) s) ;;;
    ret (inl tt)
  else ret (inr tt).

(** [None] is the result [false]. *)
Definition ParseKey : M DI (option ParsedInternalKey) :=
  let! k := on_internal it_key in
  let! v := on_internal it_value in
  let n := Z.of_nat (length k) + Z.of_nat (length v) in
  modify (fun s => set_sampling (di_db s) (di_rnd s) (di_bytes_counter s - n) s) ;;;
  loop (sample_rounds n) (sample_round k) tt ;;;
  let! r := or_ub (ParseInternalKey k) in
  match r with
  | (true, Some ikey) => ret (Some ikey)
  | _ =>
      let! c := or_ub (Status_Corruption (c_string "corrupted internal key in DBIter") []) in
      modify (set_di_status c) ;;; ret None
  end.

(** One round of the loop of [FindNextUserEntry]: an entry, and what the loop does
    behind it.  [skip] points to [saved_key_] in every call. *)
Definition take_entry (skipping : bool) (ikey : ParsedInternalKey) : M DI (bool + unit) :=
  if sequence ikey <=? sequence_ then
    if type ikey =? kTypeDeletion then SaveKey (user_key ikey) ;;; ret (inl true)
    else if type ikey =? kTypeValue then
      let! s := gets id in
      let! hidden :=
        if skipping : bool then
          let! r := or_ub (@Compare user_comparator_ (user_key ikey) (di_saved_key s)) in ret (r <=? 0)
        else ret false in
      if hidden : bool then ret (inl skipping)
      else modify (set_di_valid true) ;;; ClearSavedKey ;;; ret (inr tt)
    else ret (inl skipping)
  else ret (inl skipping).

Definition next_round (skipping : bool) : M DI (bool + unit) :=
  let! ikey := ParseKey in
  let! next := match ikey with Some ikey => take_entry skipping ikey | None => ret (inl skipping) end in
  match next with
  | inr _ => ret (inr tt)
  | inl skipping =>
      on_internal it_Next ;;;
      let! s := gets id in
      if it_Valid (di_iter s) then ret (inl skipping)
      else ClearSavedKey ;;; modify (set_di_valid false) ;;; ret (inr tt)
  end.

Definition FindNextUserEntry (skipping : bool) : M DI unit :=
  let! s := gets id in
  assert_ (it_Valid (di_iter s)) ;;;
  assert_ (match di_direction s with kForward => true | kReverse => false end) ;;;
  loop fuel next_round skipping.

(** One round of the loop of [FindPrevUserEntry], on [value_type]. *)
Definition take_entry_back (value_type : Z) (ikey : ParsedInternalKey) : M DI (Z + Z) :=
  if sequence ikey <=? sequence_ then
    let! s := gets id in
    let! previous :=
      if negb (value_type =? kTypeDeletion) then
        let! r := or_ub (@Compare user_comparator_ (user_key ikey) (di_saved_key s)) in ret (r <? 0)
      else ret false in
    if previous : bool then ret (inr value_type)
    else
      let value_type := type ikey in
      if value_type =? kTypeDeletion then ClearSavedKey ;;; ClearSavedValue ;;; ret (inl value_type)
      else
        let! raw_value := on_internal it_value in
        let! k := on_internal it_key in
        let! u := or_ub (ExtractUserKey k) in
        SaveKey u ;;; modify (fun s => set_saved (di_saved_key s) raw_value s) ;;;
        ret (inl value_type)
  else ret (inl value_type).

Definition prev_round (value_type : Z) : M DI (Z + Z) :=
  let! ikey := ParseKey in
  let! next := match ikey with Some ikey => take_entry_back value_type ikey | None => ret (inl value_type) end in
  match next with
  | inr value_type => ret (inr value_type)
  | inl value_type =>
      on_internal it_Prev ;;;
      let! s := gets id in
      if it_Valid (di_iter s) then ret (inl value_type) else ret (inr value_type)
  end.

Definition FindPrevUserEntry : M DI unit :=
  let! s := gets id in
  assert_ (match di_direction s with kReverse => true | kForward => false end) ;;;
  let! value_type := if it_Valid (di_iter s) then loop fuel prev_round kTypeDeletion else ret kTypeDeletion in
  if value_type =? kTypeDeletion then
    modify (set_di_valid false) ;;; ClearSavedKey ;;; ClearSavedValue ;;; modify (set_di_direction kForward)
  else modify (set_di_valid true).

Definition db_key : M DI Slice :=
  let! s := gets id in
  assert_ (di_valid s) ;;;
  match di_direction s with
  | kForward => let! k := on_internal it_key in or_ub (ExtractUserKey k)
  | kReverse => ret (di_saved_key s)
  end.

Definition db_value : M DI Slice :=
  let! s := gets id in
  assert_ (di_valid s) ;;;
  match di_direction s with kForward => on_internal it_value | kReverse => ret (di_saved_value s) end.

Definition db_status (s : DI) : option Status :=
  if ok (di_status s) then it_status (di_iter s) else Some (di_status s).

Definition db_Next : M DI unit :=
  let! s := gets id in
  assert_ (di_valid s) ;;;
  match di_direction s with
  | kReverse =>
      modify (set_di_direction kForward) ;;;
      (if negb (it_Valid (di_iter s)) then on_internal it_SeekToFirst else on_internal it_Next) ;;;
      let! s := gets id in
      if negb (it_Valid (di_iter s)) then modify (set_di_valid false) ;;; ClearSavedKey
      else FindNextUserEntry true
  | kForward =>
      let! k := on_internal it_key in
      let! u := or_ub (ExtractUserKey k) in
      SaveKey u ;;; FindNextUserEntry true
  end.

(** The loop of [Prev]: [true] if it leaves the function. *)
Definition leave_round (_ : unit) : M DI (unit + bool) :=
  on_internal it_Prev ;;;
  let! s := gets id in
  if negb (it_Valid (di_iter s)) then
    modify (set_di_valid false) ;;; ClearSavedKey ;;; ClearSavedValue ;;; ret (inr true)
  else
    let! k := on_internal it_key in
    let! u := or_ub (ExtractUserKey k) in
    let! r := or_ub (@Compare user_comparator_ u (di_saved_key s)) in
    ret (if r <? 0 then inr false else inl tt).

Definition leave_key : M DI bool := loop fuel leave_round tt.

Definition db_Prev : M DI unit :=
  let! s := gets id in
  assert_ (di_valid s) ;;;
  match di_direction s with
  | kForward =>
      assert_ (it_Valid (di_iter s)) ;;;
      let! k := on_internal it_key in
      let! u := or_ub (ExtractUserKey k) in
      SaveKey u ;;;
      let! gone := leave_key in
      if gone : bool then ret tt else modify (set_di_direction kReverse) ;;; FindPrevUserEntry
  | kReverse => FindPrevUserEntry
  end.

Definition db_Seek (target : Slice) : M DI unit :=
  modify (set_di_direction kForward) ;;; ClearSavedValue ;;; ClearSavedKey ;;;
  let! s := gets id in
  let! k := or_ub (AppendInternalKey (di_saved_key s) (mk_parsed target sequence_ kValueTypeForSeek)) in
  SaveKey k ;;;
  on_internal (it_Seek k) ;;;
  let! s := gets id in
  if it_Valid (di_iter s) then FindNextUserEntry false else modify (set_di_valid false).

Definition db_SeekToFirst : M DI unit :=
  modify (set_di_direction kForward) ;;; ClearSavedValue ;;;
  on_internal it_SeekToFirst ;;;
  let! s := gets id in
  if it_Valid (di_iter s) then FindNextUserEntry false else modify (set_di_valid false).

Definition db_SeekToLast : M DI unit :=
  modify (set_di_direction kReverse) ;;; ClearSavedValue ;;;
  on_internal it_SeekToLast ;;; FindPrevUserEntry.

Definition DB_Iterator : Iterator DI := {|
  it_Valid := di_valid;
  it_SeekToFirst := db_SeekToFirst;
  it_SeekToLast := db_SeekToLast;
  it_Seek := db_Seek;
  it_Next := db_Next;
  it_Prev := db_Prev;
  it_key := db_key;
  it_value := db_value;
  it_status := db_status
|}.

Definition NewDBIterator (db : D) (internal_iter : S) (seed : Z) : option DI :=
  p ← RandomPeriod (Random seed);
  Some (mk_dbiter db internal_iter Status_OK [] [] kForward false p.2 p.1).

End dbiter.
