(* ===== verification/DbIterProof.v ===== *)
(** * An iterator of the database is a cursor over what the user sees *)

From Stdlib Require Import ZArith Lia String.
From stdpp Require Import base option list strings sorting gmap.
From S2P Require Import Prelude Memory Slice Coding DbFormat SkipList Status Iterator TwoLevelProof MergeLists MemTheorems MemIterator.
From S2P Require Import Merger UserView DbIter.

(** ** Sampling *)

(** No two periods in a row are zero. *)
Lemma RandomPeriod_ok rnd : good_seed rnd ->
  exists p rnd', RandomPeriod rnd = Some (p, rnd') /\ 0 <= p /\ good_seed rnd' /\
    (p = 0 -> forall q rnd'', RandomPeriod rnd' = Some (q, rnd'') -> 0 < q).
Proof.
  intros Hs. unfold RandomPeriod, Uniform. change (u32 (2 * kReadBytesPeriod)) with 2097152.
  change (2097152 =? 0) with false. cbv iota. pose proof (Next_good rnd Hs) as Hn.
  set (r := Random_Next rnd) in *. exists (r mod 2097152), r. split; [done|].
  split; [by apply Z.mod_pos_bound|]. split; [done|]. intros Hz q rnd'' [= <- _].
  apply Z.mod_divide in Hz as [k Hk]; [|done]. rewrite Hk. unfold good_seed, M31 in Hn.
  assert (forallb (fun k => 0 <? Random_Next (Z.of_nat k * 2097152) mod 2097152) (seq 1 1023) = true) as Hall
    by (vm_compute; reflexivity).
  rewrite forallb_forall in Hall. specialize (Hall (Z.to_nat k)).
  rewrite in_seq, Z2Nat.id in Hall by lia. apply Z.ltb_lt, Hall. lia.
Qed.

Section dbiter.
Context {S D : Type} {I : Iterator S} (C : Comparator) {L : ComparatorLaws C}.
Context (RecordReadSample : Slice -> D -> D) (s : Z) (fuel : nat) (target_ok : Slice -> Prop).
Context (ks : list Entry) (pos : nat -> S -> Prop).
Context (Hcur : cursor_over I (InternalKeyComparator C) target_ok (entry_pair <$> ks) pos).
Context (Hks : internal_sorted C ks) (Hs : 0 <= s <= kMaxSequenceNumber) (Hfuel : (length ks <= fuel)%nat).

Abbreviation DI := (DBIter S D).
Implicit Types (st : DI).

(** The internal iterator is at entry [i], and nothing is wrong. *)
Definition at_index (i : nat) st : Prop :=
  pos i (di_iter st) /\ good_seed (di_rnd st) /\ 0 <= di_bytes_counter st /\ di_status st = Status_OK.

(** What sampling and moving the internal iterator do not change. *)
Definition shell st : Slice * Slice * Direction * bool :=
  (di_saved_key st, di_saved_value st, di_direction st, di_valid st).

Definition parsed (e : Entry) : ParsedInternalKey := mk_parsed (e_key e) (e_seq e) (e_type e).

Lemma set_iter_id st : set_iter (di_iter st) st = st.
Proof. by destruct st. Qed.

Lemma entry_cursor i e : ks !! i = Some e -> (entry_pair <$> ks) !! i = Some (internal (e_key e) (e_number e), e_value e).
Proof. intros Hi. by rewrite list_lookup_fmap, Hi. Qed.

Lemma internal_key_ok i e st : at_index i st -> ks !! i = Some e ->
  on_internal it_key st = Ok (internal (e_key e) (e_number e)) st.
Proof.
  intros [Hp _] Hi. destruct (cursor_entry _ _ _ _ _ Hcur i _ _ _ Hp (entry_cursor i e Hi)) as (_ & Ek & _).
  unfold on_internal, zoom. by rewrite Ek, set_iter_id.
Qed.

Lemma internal_value_ok i e st : at_index i st -> ks !! i = Some e -> on_internal it_value st = Ok (e_value e) st.
Proof.
  intros [Hp _] Hi. destruct (cursor_entry _ _ _ _ _ Hcur i _ _ _ Hp (entry_cursor i e Hi)) as (_ & _ & Ev).
  unfold on_internal, zoom. by rewrite Ev, set_iter_id.
Qed.

Lemma internal_valid_eq i st : at_index i st -> it_Valid (di_iter st) = (i <? length ks)%nat.
Proof. intros [Hp _]. rewrite (cursor_valid Hcur i _ Hp). by rewrite length_fmap. Qed.

Lemma at_index_iter i st x : at_index i st -> forall j, pos j x -> at_index j (set_iter x st).
Proof. intros (_ & H) j Hj. by split. Qed.

Lemma internal_next i st : at_index i st -> (i < length ks)%nat ->
  exists st', on_internal it_Next st = Ok tt st' /\ at_index (Datatypes.S i) st' /\ shell st' = shell st.
Proof.
  intros Ha Hi. destruct (cursor_next _ _ _ _ _ Hcur i _ (proj1 Ha)) as (x & E & Hx); [by rewrite length_fmap|].
  exists (set_iter x st). unfold on_internal, zoom. rewrite E. split; [done|].
  split; [by eapply at_index_iter|done].
Qed.

(** The entry before index [j]; there is none before the first. *)
Definition before_index (j : nat) : nat := match j with O => length ks | Datatypes.S i => i end.

Lemma internal_prev i st : at_index i st -> (i < length ks)%nat ->
  exists st', on_internal it_Prev st = Ok tt st' /\ at_index (before_index i) st' /\ shell st' = shell st.
Proof.
  intros Ha Hi. destruct (cursor_prev _ _ _ _ _ Hcur i _ (proj1 Ha)) as (x & E & Hx); [by rewrite length_fmap|].
  exists (set_iter x st). unfold on_internal, zoom. rewrite E. split; [done|].
  split; [|done]. apply (at_index_iter i st x Ha). rewrite length_fmap in Hx. by destruct i.
Qed.

(** The counter is brought back above zero. *)
Lemma sample_loop k n st :
  good_seed (di_rnd st) ->
  (forall q r', RandomPeriod (di_rnd st) = Some (q, r') ->
     (2 * Z.to_nat (- di_bytes_counter st) + (if (q =? 0)%Z then 2 else 1) <= n)%nat) ->
  exists d rnd c,
    loop n (sample_round RecordReadSample k) tt st = Ok tt (set_sampling d rnd c st) /\ good_seed rnd /\ 0 <= c.
Proof.
  revert st. induction n as [|n IH]; intros st Hg Hn;
    destruct (RandomPeriod_ok (di_rnd st) Hg) as (p & rnd' & E & Hp & Hg' & Hnz); specialize (Hn p rnd' E).
  { destruct (p =? 0); lia. }
  destruct (Z.ltb_spec (di_bytes_counter st) 0) as [Hneg|Hpos].
  - set (st1 := set_sampling (RecordReadSample k (di_db st)) rnd' (di_bytes_counter st + p) st).
    assert (sample_round RecordReadSample k tt st = Ok (inl tt) st1) as E1.
    { unfold sample_round. rewrite bind_gets. unfold id. by rewrite (proj2 (Z.ltb_lt _ _) Hneg), E. }
    rewrite (loop_cont _ _ _ _ _ _ E1). destruct (IH st1) as (d & rnd & c & El & Hr & Hc); [done| |].
    + intros q r' Eq. cbn [st1 set_sampling di_bytes_counter di_rnd] in *.
      destruct (Z.eqb_spec p 0) as [Hp0|Hne]; [|destruct (q =? 0)%Z; lia].
      pose proof (Hnz Hp0 q r' Eq). destruct (Z.eqb_spec q 0); lia.
    + by exists d, rnd, c.
  - exists (di_db st), (di_rnd st), (di_bytes_counter st). split; [|done].
    rewrite loop_S. unfold sample_round. rewrite bind_assoc, bind_gets. unfold id.
    rewrite (proj2 (Z.ltb_ge _ _) Hpos). by destruct st.
Qed.

Lemma ParseKey_ok i e st : at_index i st -> ks !! i = Some e ->
  exists st', ParseKey RecordReadSample st = Ok (Some (parsed e)) st' /\ at_index i st' /\ shell st' = shell st.
Proof.
  intros Ha Hi. unfold ParseKey. rewrite (bind_ok _ _ _ _ _ (internal_key_ok i e st Ha Hi)).
  rewrite (bind_ok _ _ _ _ _ (internal_value_ok i e st Ha Hi)). cbv zeta.
  set (n := Z.of_nat _ + Z.of_nat _). rewrite bind_modify. destruct Ha as (Hp & Hg & Hc & Hst).
  destruct (sample_loop (internal (e_key e) (e_number e)) (sample_rounds n)
    (set_sampling (di_db st) (di_rnd st) (di_bytes_counter st - n) st)) as (d & rnd & c & El & Hr & Hc').
  - done.
  - intros q r' _. cbn [set_sampling di_bytes_counter]. unfold sample_rounds, n. destruct (q =? 0); lia.
  - rewrite (bind_ok _ _ _ _ _ El).
    pose proof (entry_at C ks Hks i e Hi) as He. pose proof (e_number_range C e He) as Hn.
    unfold e_number in Hn |- *. rewrite ParseInternalKey_eq.
    + cbn [or_ub]. rewrite bind_ret. destruct He as (_ & _ & Ht & _).
      assert ((e_type e <=? kTypeValue) = true) as -> by (destruct Ht as [->| ->]; done).
      eexists. split; [done|]. split; [|done]. by split.
    + done.
    + destruct He as (_ & _ & Ht & _). unfold kTypeDeletion, kTypeValue in Ht. lia.
Qed.

(** ** Forward *)

(** The scan is at entry [j]; the keys up to the saved one are skipped if [sk].
    What is skipped is what comes after a visible entry of the same key, one of the
    first [m] entries. *)
Record hides (j m : nat) (sk : bool) (saved : Slice) : Prop := mk_hides {
  hides_le : (j <= m <= length ks)%nat;
  hides_values k e : (j <= k < m)%nat -> ks !! k = Some e -> e_seq e <= s -> e_type e = kTypeValue;
  hides_saved : sk = true -> valid saved;
  hides_iff k e : (j <= k)%nat -> ks !! k = Some e -> e_seq e <= s ->
    (sk = true /\ exists r, @Compare C (e_key e) saved = Some r /\ r <= 0) <->
    (exists k' e', (k' < m)%nat /\ ks !! k' = Some e' /\ e_seq e' <= s /\ same_key C e' e)
}.

(** What a round does with the entry. *)
Definition outcome (sk : bool) (saved : Slice) (e : Entry) : option (bool * Slice) :=
  if e_seq e <=? s then
    if e_type e =? kTypeDeletion then Some (true, e_key e)
    else if sk && (match @Compare C (e_key e) saved with Some r => r <=? 0 | None => false end) then Some (sk, saved)
    else None
  else Some (sk, saved).

Lemma take_entry_ok sk e i st : ks !! i = Some e -> (sk = true -> valid (di_saved_key st)) ->
  take_entry C s sk (parsed e) st =
  match outcome sk (di_saved_key st) e with
  | Some (sk', saved) => Ok (inl sk') (set_saved saved (di_saved_value st) st)
  | None => Ok (inr tt) (set_saved [] (di_saved_value st) (set_di_valid true st))
  end.
Proof.
  intros Hi Hv. unfold take_entry, outcome, parsed. cbn [sequence type user_key].
  assert (set_saved (di_saved_key st) (di_saved_value st) st = st) as Hid by (by destruct st).
  destruct (e_seq e <=? s); [|by rewrite Hid].
  destruct (Z.eqb_spec (e_type e) kTypeDeletion) as [Ht|Ht]; [done|].
  assert ((e_type e =? kTypeValue) = true) as -> by (destruct (entry_types C ks Hks i e Hi) as [E|E]; [done|by rewrite E]).
  rewrite bind_gets. unfold id. destruct sk; cbn [andb].
  - destruct (compare_total (e_key e) (di_saved_key st)) as [r Hr]; [by eapply entry_key_valid|by apply Hv|].
    rewrite Hr. cbn [or_ub]. rewrite bind_assoc, bind_ret, bind_ret. destruct (r <=? 0); [by rewrite Hid|done].
  - by rewrite bind_ret.
Qed.

Lemma hides_iff_next j m sk saved e :
  hides j m sk saved -> ks !! j = Some e -> s < e_seq e -> hides (Datatypes.S j) (Nat.max m (Datatypes.S j)) sk saved.
Proof.
  intros [Hle Hval Hsv Hiff] Hj Hinv. pose proof (lookup_lt_Some _ _ _ Hj) as Hlt. split; [lia| |done|].
  - intros k e' Hk. apply Hval. lia.
  - intros k e' Hk Hk' Hv. rewrite (Hiff k e') by (done || lia).
    split; intros (k' & x & H1 & H2 & H3 & H4); exists k', x; (split; [|done]); [lia|].
    destruct (decide (k' = j)) as [->|]; [|lia]. assert (x = e) as -> by congruence. lia.
Qed.

Lemma hides_deletion j m sk saved e :
  hides j m sk saved -> ks !! j = Some e -> e_seq e <= s -> e_type e = kTypeDeletion ->
  hides (Datatypes.S j) (Datatypes.S j) true (e_key e) /\ j = m.
Proof.
  intros [Hle Hval Hsv Hiff] Hj Hv Ht. pose proof (lookup_lt_Some _ _ _ Hj) as Hlt.
  assert (j = m) as Hjm. { destruct (decide (j = m)); [done|]. by rewrite (Hval j e ltac:(lia) Hj Hv) in Ht. }
  split; [|done]. split; [lia|lia|intros _; by eapply entry_key_valid|].
  intros k e' Hk Hk' Hv'. destruct (entries_order C ks Hks j k e e' Hj Hk' ltac:(lia)) as (r & Hr & Hle' & _). split.
  - intros [_ (r' & Hr' & Hle2)]. exists j, e. split; [lia|]. split; [done|]. split; [done|].
    pose proof (compare_antisym (e_key e) (e_key e') r r' ltac:(by eapply entry_key_valid)
      ltac:(by eapply entry_key_valid) Hr Hr'). unfold same_key. rewrite Hr. f_equal. lia.
  - intros (k' & x & Hk1 & Hx & _ & Hsame). split; [done|]. exists 0. split; [|done].
    apply (same_key_sym C ks Hks j k e e' Hj Hk').
    by apply (same_key_between_right C ks Hks k' j k x e e'); [..|lia|].
Qed.

Lemma hides_value j m sk saved e :
  hides j m sk saved -> ks !! j = Some e -> e_seq e <= s ->
  (exists k' e', (k' < m)%nat /\ ks !! k' = Some e' /\ e_seq e' <= s /\ same_key C e' e) ->
  hides (Datatypes.S j) (Nat.max m (Datatypes.S j)) sk saved.
Proof.
  intros [Hle Hval Hsv Hiff] Hj Hv Hex. pose proof (lookup_lt_Some _ _ _ Hj) as Hlt. split; [lia| |done|].
  - intros k e' Hk. apply Hval. lia.
  - intros k e' Hk Hk' Hv'. rewrite (Hiff k e') by (done || lia). split.
    + intros (k' & x & H1 & Hx). exists k', x. split; [lia|done].
    + intros (k' & x & H1 & H2 & H3 & H4). destruct (decide (k' < m)%nat) as [|Hge]; [by exists k', x|].
      assert (k' = j) as -> by lia. assert (x = e) as -> by congruence.
      destruct Hex as (k1 & x1 & H5 & H6 & H7 & H8). exists k1, x1. split; [done|]. split; [done|]. split; [done|].
      by apply (same_key_trans C ks Hks k1 j k x1 e e').
Qed.

(** The entry is passed, or it is the next one that is shown. *)
Lemma outcome_ok j m sk saved e : hides j m sk saved -> ks !! j = Some e ->
  match outcome sk saved e with
  | Some (sk', saved') => exists m', hides (Datatypes.S j) m' sk' saved' /\ shown_upto C s ks m' = shown_upto C s ks m
  | None => j = m /\ shown C s ks e = true
  end.
Proof.
  intros Hh Hj. pose proof Hh as [Hle Hval Hsv Hiff]. unfold outcome.
  assert (shown C s ks e = false -> shown_upto C s ks (Nat.max m (Datatypes.S j)) = shown_upto C s ks m) as Hcount.
  { intros Hno. destruct (decide (j = m)) as [<-|]; [|by replace (Nat.max m (Datatypes.S j)) with m by lia].
    replace (Nat.max j (Datatypes.S j)) with (Datatypes.S j) by lia. rewrite (shown_upto_S C s ks j e Hj), Hno. lia. }
  pose proof (shown_spec C s ks Hks j e Hj) as Hshown.
  destruct (Z.leb_spec (e_seq e) s) as [Hv|Hinv].
  2: { exists (Nat.max m (Datatypes.S j)). split; [by eapply hides_iff_next|]. apply Hcount.
       destruct (shown C s ks e); [|done]. destruct (proj1 Hshown eq_refl) as (_ & ? & _). lia. }
  destruct (Z.eqb_spec (e_type e) kTypeDeletion) as [Ht|Ht].
  { destruct (hides_deletion j m sk saved e Hh Hj Hv Ht) as [Hh' <-]. exists (Datatypes.S j). split; [done|].
    rewrite (shown_upto_S C s ks j e Hj). destruct (shown C s ks e); [|lia].
    destruct (proj1 Hshown eq_refl) as (Ht' & _). by rewrite Ht in Ht'. }
  assert (e_type e = kTypeValue) as Ht' by (destruct (entry_types C ks Hks j e Hj); done).
  specialize (Hiff j e ltac:(done) Hj Hv).
  destruct (sk && match Compare (e_key e) saved with Some r => r <=? 0 | None => false end) eqn:Ehid.
  - apply andb_prop in Ehid as [Hsk Hc]. destruct (Compare (e_key e) saved) as [r|] eqn:Er; [|done].
    apply Z.leb_le in Hc. destruct (proj1 Hiff) as (k' & e' & Hk' & He' & Hv' & Hsame); [by split; [|exists r]|].
    exists (Nat.max m (Datatypes.S j)). split; [eapply hides_value; [done..|by exists k', e']|].
    destruct (decide (j = m)) as [Hjm|]; [|by replace (Nat.max m (Datatypes.S j)) with m by lia].
    apply Hcount. destruct (shown C s ks e); [|done].
    destruct (proj1 Hshown eq_refl) as (_ & _ & Hf). destruct (Hf k' e' e); [lia|done..].
  - assert (~ exists k' e', (k' < m)%nat /\ ks !! k' = Some e' /\ e_seq e' <= s /\ same_key C e' e) as Hno.
    { intros [-> (r & Hr & Hr0)]%Hiff. rewrite Hr in Ehid. cbn [andb] in Ehid. apply Z.leb_gt in Ehid. lia. }
    assert (j = m) as <-.
    { destruct (decide (j = m)); [done|]. destruct Hno. exists j, e. split; [lia|]. split; [done|]. split; [done|].
      apply compare_refl. by eapply entry_key_valid. }
    split; [done|]. apply Hshown. split; [done|]. split; [done|]. intros k a b Hk Ha Hb Hav Hsame.
    assert (b = e) as -> by congruence. destruct Hno. by exists k, a.
Qed.

(** The result: at the next entry that is shown, or at the end. *)
Definition found (n : nat) (d : Direction) st : Prop :=
  exists i, at_index i st /\ shown_upto C s ks i = n /\ di_direction st = d /\
    ((di_valid st = true /\ exists e, ks !! i = Some e /\ shown C s ks e = true) \/
     (di_valid st = false /\ i = length ks)).

Lemma at_index_shell i st k v b : at_index i st -> at_index i (set_saved k v (set_di_valid b st)).
Proof. done. Qed.

Lemma next_loop n j m sk st :
  (length ks - j <= n)%nat -> (j < length ks)%nat -> at_index j st -> hides j m sk (di_saved_key st) ->
  exists st', loop n (next_round RecordReadSample C s) sk st = Ok tt st' /\
              found (shown_upto C s ks m) (di_direction st) st'.
Proof.
  revert j m sk st. induction n as [|n IH]; intros j m sk st Hn Hj Ha Hh; [lia|].
  destruct (lookup_lt_is_Some_2 _ _ Hj) as [e He].
  destruct (ParseKey_ok j e st Ha He) as (s1 & E1 & Ha1 & [= Hk1 Hv1 Hd1 Hb1]).
  pose proof (take_entry_ok sk e j s1 He ltac:(intros Hsk; rewrite Hk1; by apply (hides_saved _ _ _ _ Hh))) as E2.
  pose proof (outcome_ok j m sk (di_saved_key st) e Hh He) as Hout. rewrite <- Hk1 in Hout.
  rewrite loop_S. unfold next_round at 1. rewrite bind_assoc, (bind_ok _ _ _ _ _ E1).
  destruct (outcome sk (di_saved_key s1) e) as [[sk' saved']|]; rewrite bind_assoc, (bind_ok _ _ _ _ _ E2).
  - destruct Hout as (m' & Hh' & Hcount). set (s2 := set_saved saved' (di_saved_value s1) s1).
    destruct (internal_next j s2) as (s3 & E3 & Ha3 & [= Hk3 Hv3 Hd3 Hb3]); [done..|].
    assert (di_direction s3 = di_direction st) as Hdir by (rewrite Hd3; exact Hd1).
    rewrite bind_assoc, (bind_ok _ _ _ _ _ E3), bind_assoc, bind_gets. unfold id.
    rewrite (internal_valid_eq _ _ Ha3). destruct (Nat.ltb_spec (Datatypes.S j) (length ks)) as [Hlt|Hge].
    + rewrite bind_ret. destruct (IH (Datatypes.S j) m' sk' s3) as (s4 & E4 & Hf); [lia|done|done|by rewrite Hk3|].
      exists s4. split; [done|]. by rewrite <- Hcount, <- Hdir.
    + rewrite bind_assoc. unfold ClearSavedKey, SaveKey. rewrite bind_modify, bind_assoc, bind_modify, bind_ret.
      eexists. split; [done|]. exists (Datatypes.S j). split; [done|].
      pose proof (hides_le _ _ _ _ Hh') as Hm'. rewrite <- Hcount. replace m' with (Datatypes.S j) by lia.
      split; [done|]. split; [done|]. right. split; [done|lia].
  - destruct Hout as [-> Hshown]. rewrite bind_ret. eexists. split; [done|]. exists m.
    split; [done|]. split; [done|]. split; [done|]. left. split; [done|]. by exists e.
Qed.

Lemma FindNextUserEntry_ok j m sk st :
  (j < length ks)%nat -> at_index j st -> di_direction st = kForward -> hides j m sk (di_saved_key st) ->
  exists st', FindNextUserEntry RecordReadSample C s fuel sk st = Ok tt st' /\ found (shown_upto C s ks m) kForward st'.
Proof.
  intros Hj Ha Hd Hh. unfold FindNextUserEntry. rewrite bind_gets. unfold id.
  rewrite (internal_valid_eq _ _ Ha), bind_assert by (by apply Nat.ltb_lt). rewrite Hd, bind_assert by done.
  rewrite <- Hd. eapply next_loop; [|done..]. lia.
Qed.

(** ** Backward *)

(** Entries that are not visible. *)
Definition invisible (k c : nat) : Prop := forall x e, (k <= x < c)%nat -> ks !! x = Some e -> s < e_seq e.

(** Entries [k] to [j] have been scanned: the newest one for the last key is saved,
    unless it is a deletion. *)
Definition scanned (k j : nat) (value_type : Z) st : Prop :=
  (value_type = kTypeDeletion /\ forall x e, (k <= x < j)%nat -> ks !! x = Some e -> shown C s ks e = false) \/
  (value_type = kTypeValue /\ exists c e, (k <= c < j)%nat /\ ks !! c = Some e /\ e_type e = kTypeValue /\
     e_seq e <= s /\ di_saved_key st = e_key e /\ di_saved_value st = e_value e /\ invisible k c /\
     forall x e', (c < x < j)%nat -> ks !! x = Some e' -> shown C s ks e' = false).

(** The saved entry is the last one that is shown. *)
Definition saved_shown (k j : nat) st : Prop :=
  exists c e, (k <= c < j)%nat /\ ks !! c = Some e /\ shown C s ks e = true /\
    di_saved_key st = e_key e /\ di_saved_value st = e_value e /\ invisible k c /\
    shown_upto C s ks j = Datatypes.S (shown_upto C s ks c).

Lemma shown_saved k j st c e :
  (k <= c < j)%nat -> ks !! c = Some e -> e_type e = kTypeValue -> e_seq e <= s ->
  di_saved_key st = e_key e -> di_saved_value st = e_value e -> invisible k c ->
  (forall x e', (c < x < j)%nat -> ks !! x = Some e' -> shown C s ks e' = false) ->
  (forall x e', (x < k)%nat -> ks !! x = Some e' -> e_seq e' <= s -> ~ same_key C e' e) ->
  saved_shown k j st.
Proof.
  intros Hc He Ht Hv Hk1 Hv1 Hinv Hno Hbefore. exists c, e.
  assert (shown C s ks e = true) as Hshown.
  { apply (shown_spec C s ks Hks c e He). split; [done|]. split; [done|]. intros x a b Hx Ha Hb Hav Hsame.
    assert (b = e) as -> by congruence. destruct (decide (x < k)%nat); [by eapply (Hbefore x a)|].
    pose proof (Hinv x a ltac:(lia) Ha). lia. }
  do 6 (split; [done|]). rewrite (shown_upto_hidden C s ks (Datatypes.S c) j) by (lia || (intros x e' Hx; apply Hno; lia)).
  rewrite (shown_upto_S C s ks c e He), Hshown. lia.
Qed.

(** A deletion, or the value of a key that is not the saved one. *)
Lemma scanned_step k j vt e st st1 :
  ks !! k = Some e -> (Datatypes.S k <= j)%nat -> scanned (Datatypes.S k) j vt st -> shell st1 = shell st ->
  at_index k st1 ->
  (exists st', take_entry_back C s vt (parsed e) st1 = Ok (inr vt) st' /\ at_index k st' /\
     di_direction st' = di_direction st /\ vt = kTypeValue /\ saved_shown (Datatypes.S k) j st') \/
  (exists vt' st', take_entry_back C s vt (parsed e) st1 = Ok (inl vt') st' /\ at_index k st' /\
     di_direction st' = di_direction st /\ scanned k j vt' st').
Proof.
  intros He Hkj Hsc [= Hk1 Hv1 Hd1 _] Ha. pose proof (shown_spec C s ks Hks k e He) as Hshown.
  unfold take_entry_back, parsed. cbn [sequence type user_key].
  destruct (Z.leb_spec (e_seq e) s) as [Hv|Hinv].
  2: { right. exists vt, st1. split; [done|]. split; [done|]. split; [done|]. destruct Hsc as [(-> & Hno)|(-> & c & ec & H)].
       - left. split; [done|]. intros x e' Hx He'. destruct (decide (x = k)) as [->|]; [|by apply (Hno x); [lia|]].
         assert (e' = e) as -> by congruence. destruct (shown C s ks e); [|done].
         destruct (proj1 Hshown eq_refl) as (_ & ? & _). lia.
       - right. split; [done|]. destruct H as (Hc & Hec & Ht & Hvc & Hks1 & Hvs1 & Hic & Hno). exists c, ec.
         split; [lia|]. do 3 (split; [done|]). split; [congruence|]. split; [congruence|]. split; [|done].
         intros x e' Hx He'. destruct (decide (x = k)) as [->|]; [|by apply (Hic x); [lia|]].
         by assert (e' = e) as -> by congruence. }
  rewrite bind_gets. unfold id. set (taken := bind _ _).
  (* the entry becomes the saved one *)
  assert ((forall x e', (k < x < j)%nat -> ks !! x = Some e' -> shown C s ks e' = false) ->
    exists vt' st', (if type (parsed e) =? kTypeDeletion then ClearSavedKey ;;; ClearSavedValue ;;; ret (inl (type (parsed e)))
      else let! raw_value := on_internal it_value in
        let! k := on_internal it_key in let! u := or_ub (ExtractUserKey k) in
        SaveKey u ;;; modify (fun s => set_saved (di_saved_key s) raw_value s) ;;; ret (inl (type (parsed e)))) st1 =
      (Ok (inl vt') st' : res DI (Z + Z)) /\ at_index k st' /\ di_direction st' = di_direction st /\ scanned k j vt' st') as Htake.
  { intros Hno. unfold parsed. cbn [type]. destruct (Z.eqb_spec (e_type e) kTypeDeletion) as [Ht|Ht].
    - exists (e_type e). eexists. split; [done|]. split; [done|]. split; [done|]. left. split; [done|].
      intros x e' Hx He'. destruct (decide (x = k)) as [->|]; [|by apply (Hno x); [lia|]].
      assert (e' = e) as -> by congruence. destruct (shown C s ks e); [|done].
      destruct (proj1 Hshown eq_refl) as (Ht' & _). by rewrite Ht in Ht'.
    - assert (e_type e = kTypeValue) as Ht' by (destruct (entry_types C ks Hks k e He); done).
      rewrite (bind_ok _ _ _ _ _ (internal_value_ok k e st1 Ha He)), (bind_ok _ _ _ _ _ (internal_key_ok k e st1 Ha He)).
      rewrite ExtractUserKey_internal. cbn [or_ub]. rewrite bind_ret. exists (e_type e). eexists. split; [done|].
      split; [done|]. split; [done|]. right. split; [done|]. exists k, e.
      split; [lia|]. do 5 (split; [done|]). split; [intros x e' Hx; lia|done]. }
  destruct Hsc as [(-> & Hno)|(-> & c & ec & Hc & Hec & Ht & Hvc & Hks1 & Hvs1 & Hic & Hno)].
  - right. unfold taken. change (negb (kTypeDeletion =? kTypeDeletion)) with false. cbv iota. rewrite bind_ret.
    apply Htake. intros x e' Hx. apply Hno. lia.
  - unfold taken. change (negb (kTypeValue =? kTypeDeletion)) with true. cbv iota.
    destruct (entries_order C ks Hks k c e ec He Hec ltac:(lia)) as (r & Hr & Hle & _).
    rewrite Hk1, Hks1, Hr. cbn [or_ub]. rewrite bind_assoc, bind_ret, bind_ret.
    destruct (Z.ltb_spec r 0) as [Hlt|Hge].
    + left. eexists. split; [done|]. split; [done|]. split; [done|]. split; [done|].
      apply (shown_saved (Datatypes.S k) j st1 c ec); try done; [congruence|congruence|].
      intros x e' Hx He' Hv' Hsame.
      pose proof (same_key_between_right C ks Hks x k c e' e ec He' He Hec ltac:(lia) Hsame) as Hke.
      unfold same_key in Hke. assert (r = 0) by congruence. lia.
    + right. apply Htake. intros x e' Hx He'. destruct (decide (x = c)) as [->|]; [|].
      * assert (e' = ec) as -> by congruence. destruct (shown C s ks ec) eqn:Es; [|done].
        apply (shown_spec C s ks Hks c ec Hec) in Es as (_ & _ & Hf).
        destruct (Hf k e ec ltac:(lia) He Hec Hv). unfold same_key. rewrite Hr. f_equal. lia.
      * destruct (decide (x < c)%nat); [|by apply (Hno x); [lia|]].
        destruct (shown C s ks e') eqn:Es; [|done]. apply (shown_spec C s ks Hks x e' He') in Es as (_ & Hv' & _).
        pose proof (Hic x e' ltac:(lia) He'). lia.
Qed.

Lemma prev_loop n k j vt st :
  (Datatypes.S k <= n)%nat -> (k < j <= length ks)%nat -> at_index k st -> scanned (Datatypes.S k) j vt st ->
  exists vt' k' st', loop n (prev_round RecordReadSample C s) vt st = Ok vt' st' /\
    at_index (before_index k') st' /\ di_direction st' = di_direction st /\
    ((vt' = kTypeDeletion /\ shown_upto C s ks j = 0%nat) \/ (vt' = kTypeValue /\ saved_shown k' j st')).
Proof.
  revert k vt st. induction n as [|n IH]; intros k vt st Hn Hkj Ha Hsc; [lia|].
  destruct (lookup_lt_is_Some_2 ks k ltac:(lia)) as [e He].
  destruct (ParseKey_ok k e st Ha He) as (s1 & E1 & Ha1 & Hsh1).
  rewrite loop_S. unfold prev_round at 1. rewrite bind_assoc, (bind_ok _ _ _ _ _ E1).
  destruct (scanned_step k j vt e st s1 He ltac:(lia) Hsc Hsh1 Ha1) as
    [(s2 & E2 & Ha2 & Hd2 & -> & Hss)|(vt' & s2 & E2 & Ha2 & Hd2 & Hsc2)];
    rewrite bind_assoc, (bind_ok _ _ _ _ _ E2).
  - rewrite bind_ret. exists kTypeValue, (Datatypes.S k), s2. split; [done|]. split; [done|]. split; [done|]. by right.
  - destruct (internal_prev k s2 Ha2 ltac:(lia)) as (s3 & E3 & Ha3 & [= Hk3 Hv3 Hd3 _]).
    assert (di_direction s3 = di_direction st) as Hdir by congruence.
    assert (scanned k j vt' s3) as Hsc3.
    { unfold scanned. by rewrite Hk3, Hv3. }
    rewrite bind_assoc, (bind_ok _ _ _ _ _ E3), bind_assoc, bind_gets. unfold id.
    rewrite (internal_valid_eq _ _ Ha3). destruct k as [|k]; cbn [before_index] in *.
    + destruct (Nat.ltb_spec (length ks) (length ks)); [lia|]. rewrite bind_ret.
      exists vt', 0%nat, s3. split; [done|]. split; [done|]. split; [done|].
      destruct Hsc3 as [(-> & Hno)|(-> & c & ec & Hc & Hec & Ht & Hvc & Hks1 & Hvs1 & Hic & Hno)].
      * left. split; [done|]. by rewrite (shown_upto_hidden C s ks 0 j) by (lia || apply Hno).
      * right. split; [done|]. apply (shown_saved 0 j s3 c ec); try done. intros; lia.
    + destruct (Nat.ltb_spec k (length ks)); [|lia]. rewrite bind_ret.
      destruct (IH k vt' s3 ltac:(lia) ltac:(lia) Ha3 Hsc3) as (vt2 & k2 & s4 & E4 & Ha4 & Hd4 & H4).
      exists vt2, k2, s4. split; [done|]. split; [done|]. split; [congruence|done].
Qed.

(** The result: behind the saved entry, or nothing. *)
Definition found_back (j : nat) st : Prop :=
  (exists i, at_index i st) /\
  ((di_valid st = false /\ shown_upto C s ks j = 0%nat) \/
   (di_valid st = true /\ di_direction st = kReverse /\
    exists k, at_index (before_index k) st /\ saved_shown k j st)).

Lemma FindPrevUserEntry_ok j st :
  (j <= length ks)%nat -> at_index (before_index j) st -> di_direction st = kReverse ->
  exists st', FindPrevUserEntry RecordReadSample C s fuel st = Ok tt st' /\ found_back j st'.
Proof.
  intros Hj Ha Hd. unfold FindPrevUserEntry. rewrite bind_gets. unfold id. rewrite Hd, bind_assert by done.
  rewrite (internal_valid_eq _ _ Ha). destruct j as [|k]; cbn [before_index] in *.
  - destruct (Nat.ltb_spec (length ks) (length ks)); [lia|]. rewrite bind_ret.
    eexists. split; [done|]. split; [by exists (length ks)|]. by left.
  - destruct (Nat.ltb_spec k (length ks)); [|lia].
    destruct (prev_loop fuel k (Datatypes.S k) kTypeDeletion st) as (vt & k' & s1 & E1 & Ha1 & Hd1 & H1);
      [lia|lia|done|left; split; [done|lia]|].
    rewrite (bind_ok _ _ _ _ _ E1). destruct H1 as [(-> & H0)|(-> & Hss)].
    + eexists. split; [done|]. split; [by exists (before_index k')|]. by left.
    + eexists. split; [done|]. split; [by exists (before_index k')|]. right. split; [done|].
      split; [by rewrite <- Hd|]. by exists k'.
Qed.

(** ** The operations *)

Abbreviation view := (user_view C s ks).

(** At entry [n] of the view: on its internal entry, or somewhere before it with the
    entry saved and nothing visible between. *)
Definition positioned (n : nat) st : Prop :=
  exists i e, ks !! i = Some e /\ shown C s ks e = true /\ shown_upto C s ks i = n /\
    ((di_direction st = kForward /\ at_index i st) \/
     (di_direction st = kReverse /\ di_saved_key st = e_key e /\ di_saved_value st = e_value e /\
      exists k, (k <= i)%nat /\ at_index (before_index k) st /\ invisible k i)).

Definition db_pos (n : nat) st : Prop :=
  (exists i, at_index i st) /\
  if decide (n < length view)%nat then di_valid st = true /\ positioned n st else di_valid st = false.

Lemma shown_upto_lt i e : ks !! i = Some e -> shown C s ks e = true -> (shown_upto C s ks i < length view)%nat.
Proof.
  intros Hi He. pose proof (shown_upto_S C s ks i e Hi) as E. rewrite He in E.
  pose proof (shown_upto_le C s ks (Datatypes.S i)). lia.
Qed.

Lemma found_pos n st : found n kForward st -> db_pos n st.
Proof.
  intros (i & Ha & Hn & Hd & H). split; [by exists i|]. destruct H as [(Hv & e & He & Hs')|(Hv & ->)].
  - rewrite decide_True by (rewrite <- Hn; by eapply shown_upto_lt). split; [done|]. exists i, e. repeat (split; [done|]).
    by left.
  - rewrite decide_False; [done|]. rewrite <- Hn, shown_upto_all by done. lia.
Qed.

Lemma found_back_pos j n st :
  found_back j st -> shown_upto C s ks j = n -> db_pos (match n with O => length view | Datatypes.S m => m end) st.
Proof.
  intros [Ha H] Hn. split; [done|]. destruct H as [(Hv & H0)|(Hv & Hd & k & Hk & c & e & Hc & He & Hsh & Hk1 & Hv1 & Hi & Hj)].
  - rewrite H0 in Hn. subst n. by rewrite decide_False by lia.
  - rewrite Hj in Hn. subst n. rewrite decide_True by (by eapply shown_upto_lt). split; [done|].
    exists c, e. repeat (split; [done|]). right. repeat (split; [done|]). exists k. split; [lia|done].
Qed.

Lemma hides_none j :
  (j <= length ks)%nat ->
  (forall k k' e e', (k' < j)%nat -> (j <= k)%nat -> ks !! k = Some e -> ks !! k' = Some e' -> e_seq e' <= s ->
     ~ same_key C e' e) ->
  forall saved, hides j j false saved.
Proof.
  intros Hj Hno saved. split; [lia|lia|done|]. intros k e Hk He Hv. split; [by intros [? _]|].
  intros (k' & e' & Hk' & He' & Hv' & Hsame). by destruct (Hno k k' e e').
Qed.

(** Behind an entry that is shown, when the entries from [k] to it are not visible. *)
Lemma hides_current k i e :
  (k <= i)%nat -> ks !! i = Some e -> shown C s ks e = true -> invisible k i -> hides k (Datatypes.S i) true (e_key e).
Proof.
  intros Hk He Hsh Hinv. apply (shown_spec C s ks Hks i e He) in Hsh as (Ht & Hv & _).
  pose proof (lookup_lt_Some _ _ _ He) as Hlt. split; [lia| |intros _; by eapply entry_key_valid|].
  - intros x e' Hx He' Hv'. destruct (decide (x = i)) as [->|]; [by replace e' with e by congruence|].
    pose proof (Hinv x e' ltac:(lia) He'). lia.
  - intros x e' Hx He' Hv'. assert (i <= x)%nat as Hix.
    { destruct (decide (x < i)%nat); [|lia]. pose proof (Hinv x e' ltac:(lia) He'). lia. }
    split.
    + intros [_ (r & Hr & Hr0)]. exists i, e. split; [lia|]. split; [done|]. split; [done|].
      destruct (decide (i = x)) as [->|]; [replace e' with e by congruence; apply compare_refl; by eapply entry_key_valid|].
      destruct (entries_order C ks Hks i x e e' He He' ltac:(lia)) as (r' & Hr' & Hle & _).
      pose proof (compare_antisym (e_key e) (e_key e') r' r ltac:(by eapply entry_key_valid) ltac:(by eapply entry_key_valid) Hr' Hr).
      unfold same_key. rewrite Hr'. f_equal. lia.
    + intros (k' & e2 & Hk' & He2 & _ & Hsame). split; [done|]. exists 0. split; [|done].
      apply (same_key_sym C ks Hks i x e e' He He').
      by apply (same_key_between_right C ks Hks k' i x e2 e e'); [..|lia|].
Qed.

Lemma db_SeekToFirst_ok n st : db_pos n st ->
  exists st', db_SeekToFirst RecordReadSample C s fuel st = Ok tt st' /\ db_pos 0 st'.
Proof.
  intros [[i Ha] _]. unfold db_SeekToFirst, ClearSavedValue. rewrite !bind_modify.
  set (st1 := set_saved _ _ _). assert (at_index i st1) as Ha1 by done.
  destruct (cursor_first _ _ _ _ _ Hcur i _ (proj1 Ha1)) as (x & E & Hx).
  assert (on_internal it_SeekToFirst st1 = Ok tt (set_iter x st1)) as E1 by (unfold on_internal, zoom; by rewrite E).
  rewrite (bind_ok _ _ _ _ _ E1), bind_gets. unfold id.
  assert (at_index 0 (set_iter x st1)) as Ha2 by (by eapply at_index_iter).
  rewrite (internal_valid_eq _ _ Ha2). destruct (Nat.ltb_spec 0 (length ks)) as [Hlt|Hge].
  - destruct (FindNextUserEntry_ok 0 0 false (set_iter x st1)) as (st' & E2 & Hf); [done|done|done| |].
    { apply hides_none; [lia|]. intros; lia. }
    exists st'. split; [done|]. by apply found_pos.
  - eexists. split; [done|]. split; [by exists 0%nat|]. rewrite decide_False; [done|].
    rewrite <- (shown_upto_all C s ks 0) by lia. rewrite shown_upto_0. lia.
Qed.

Lemma db_SeekToLast_ok n st : db_pos n st ->
  exists st', db_SeekToLast RecordReadSample C s fuel st = Ok tt st' /\ db_pos (pred (length view)) st'.
Proof.
  intros [[i Ha] _]. unfold db_SeekToLast, ClearSavedValue. rewrite !bind_modify.
  set (st1 := set_saved _ _ _). assert (at_index i st1) as Ha1 by done.
  destruct (cursor_last _ _ _ _ _ Hcur i _ (proj1 Ha1)) as (x & E & Hx). rewrite length_fmap in Hx.
  assert (on_internal it_SeekToLast st1 = Ok tt (set_iter x st1)) as E1 by (unfold on_internal, zoom; by rewrite E).
  rewrite (bind_ok _ _ _ _ _ E1).
  assert (at_index (before_index (length ks)) (set_iter x st1)) as Ha2.
  { apply (at_index_iter i st1 x Ha1). by destruct (length ks) eqn:El; cbn [before_index pred] in *; rewrite ?El. }
  destruct (FindPrevUserEntry_ok (length ks) (set_iter x st1)) as (st' & E2 & Hf); [done..|].
  exists st'. split; [done|]. pose proof (found_back_pos _ _ _ Hf eq_refl) as Hp. rewrite shown_upto_all in Hp by done.
  by destruct (length view) eqn:El; rewrite ?El in Hp.
Qed.

Lemma db_Next_ok n st : db_pos n st -> (n < length view)%nat ->
  exists st', db_Next RecordReadSample C s fuel st = Ok tt st' /\ db_pos (Datatypes.S n) st'.
Proof.
  intros [_ H] Hn. rewrite decide_True in H by done. destruct H as (Hv & i & e & He & Hsh & <- & H).
  unfold db_Next. rewrite bind_gets. unfold id. rewrite bind_assert by done.
  assert (Datatypes.S (shown_upto C s ks i) = shown_upto C s ks (Datatypes.S i)) as Hcount
    by (rewrite (shown_upto_S C s ks i e He), Hsh; lia).
  pose proof (lookup_lt_Some _ _ _ He) as Hlt. rewrite Hcount.
  destruct H as [(Hd & Ha)|(Hd & Hk1 & Hv1 & k & Hk & Ha & Hinv)]; rewrite Hd.
  - rewrite (bind_ok _ _ _ _ _ (internal_key_ok i e st Ha He)), ExtractUserKey_internal. cbn [or_ub].
    rewrite bind_ret. unfold SaveKey. rewrite bind_modify.
    destruct (FindNextUserEntry_ok i (Datatypes.S i) true (set_saved (e_key e) (di_saved_value st) st)) as (st' & E2 & Hf);
      [done|done|done|apply hides_current; try done; intros x; lia|].
    exists st'. split; [done|]. by apply found_pos.
  - rewrite bind_modify. set (st1 := set_di_direction kForward st).
    assert (exists st2, (if negb (it_Valid (di_iter st)) then on_internal it_SeekToFirst else on_internal it_Next) st1 =
              Ok tt st2 /\ at_index k st2 /\ shell st2 = shell st1) as (st2 & E2 & Ha2 & [= Hk2 Hv2 Hd2 _]).
    { rewrite (internal_valid_eq _ _ Ha). destruct k as [|k]; cbn [before_index] in Ha |- *.
      - rewrite Nat.ltb_irrefl. cbn [negb]. destruct (cursor_first _ _ _ _ _ Hcur _ _ (proj1 Ha)) as (x & E & Hx).
        exists (set_iter x st1). unfold on_internal, zoom. change (di_iter st1) with (di_iter st). rewrite E.
        split; [done|]. split; [by apply (at_index_iter (length ks))|done].
      - rewrite (proj2 (Nat.ltb_lt k (length ks))) by lia. cbn [negb]. apply (internal_next k st1 Ha). lia. }
    rewrite (bind_ok _ _ _ _ _ E2), bind_gets. unfold id. rewrite (internal_valid_eq _ _ Ha2).
    rewrite (proj2 (Nat.ltb_lt k (length ks))) by lia. cbn [negb].
    destruct (FindNextUserEntry_ok k (Datatypes.S i) true st2) as (st' & E3 & Hf); [lia|done|by rewrite Hd2| |].
    { rewrite Hk2. change (di_saved_key st1) with (di_saved_key st). rewrite Hk1. by apply hides_current. }
    exists st'. split; [done|]. by apply found_pos.
Qed.

(** Back to before the entries of the current key. *)
Lemma leave_loop n x i e st :
  (Datatypes.S x <= n)%nat -> ks !! i = Some e -> shown C s ks e = true -> (x <= i)%nat -> at_index x st ->
  di_saved_key st = e_key e -> (forall y a, (x <= y < i)%nat -> ks !! y = Some a -> same_key C a e) ->
  exists st', di_direction st' = di_direction st /\
    ((loop n (leave_round C) tt st = Ok true st' /\ di_valid st' = false /\ shown_upto C s ks i = 0%nat /\
      at_index (length ks) st') \/
     (exists j, loop n (leave_round C) tt st = Ok false st' /\ (j <= length ks)%nat /\ at_index (before_index j) st' /\
        shown_upto C s ks j = shown_upto C s ks i)).
Proof.
  intros Hn He Hsh. pose proof (lookup_lt_Some _ _ _ He) as Hlt.
  pose proof (proj1 (shown_spec C s ks Hks i e He) Hsh) as (_ & _ & Hfirst).
  revert x st Hn. induction n as [|n IH]; intros x st Hn Hx Ha Hsv Hsame; [lia|].
  assert (shown_upto C s ks i = shown_upto C s ks x) as Hcount.
  { apply shown_upto_hidden; [lia|]. intros y a Hy Hya. destruct (shown C s ks a) eqn:Es; [|done].
    apply (shown_spec C s ks Hks y a Hya) in Es as (_ & Hav & _).
    destruct (Hfirst y a e ltac:(lia) Hya He Hav). by apply (Hsame y). }
  destruct (internal_prev x st Ha ltac:(lia)) as (s1 & E1 & Ha1 & [= Hk1 Hv1 Hd1 _]).
  assert (leave_round C tt st = (let! s := gets id in
      if negb (it_Valid (di_iter s)) then
        modify (set_di_valid false) ;;; ClearSavedKey ;;; ClearSavedValue ;;; ret (inr true)
      else
        let! k := on_internal it_key in let! u := or_ub (ExtractUserKey k) in
        let! r := or_ub (@Compare C u (di_saved_key s)) in ret (if r <? 0 then inr false else inl tt)) s1) as Er
    by (unfold leave_round; by rewrite (bind_ok _ _ _ _ _ E1)).
  rewrite bind_gets in Er. unfold id in Er. rewrite (internal_valid_eq _ _ Ha1) in Er.
  destruct x as [|x]; cbn [before_index] in Ha1, Er.
  - rewrite Nat.ltb_irrefl in Er. eexists (set_saved [] [] (set_di_valid false s1)). split; [done|]. left.
    split; [by rewrite loop_S, (bind_ok _ _ _ _ _ Er)|]. split; [done|]. by rewrite Hcount.
  - rewrite (proj2 (Nat.ltb_lt x (length ks))) in Er by lia. cbn [negb] in Er.
    destruct (lookup_lt_is_Some_2 ks x ltac:(lia)) as [a Hxa].
    rewrite (bind_ok _ _ _ _ _ (internal_key_ok x a s1 Ha1 Hxa)), ExtractUserKey_internal in Er.
    destruct (entries_order C ks Hks x i a e Hxa He ltac:(lia)) as (r & Hr & Hle & _).
    cbn [or_ub] in Er. rewrite bind_ret, Hk1, Hsv, Hr in Er. cbn [or_ub] in Er. rewrite bind_ret in Er.
    destruct (Z.ltb_spec r 0) as [Hr0|Hr0].
    + exists s1. split; [done|]. right. exists (Datatypes.S x).
      split; [by rewrite loop_S, (bind_ok _ _ _ _ _ Er)|]. by split; [lia|].
    + rewrite (loop_cont _ _ _ _ _ _ Er). destruct (IH x s1) as (st' & Hd' & H'); [lia|lia|done|congruence| |].
      * intros y b Hy Hyb. destruct (decide (y = x)) as [->|]; [|apply (Hsame y); [lia|done]].
        assert (b = a) as -> by congruence. unfold same_key. rewrite Hr. f_equal. lia.
      * exists st'. split; [congruence|done].
Qed.

Lemma db_Prev_ok n st : db_pos n st -> (n < length view)%nat ->
  exists st', db_Prev RecordReadSample C s fuel st = Ok tt st' /\
              db_pos (match n with O => length view | Datatypes.S m => m end) st'.
Proof.
  intros [_ H] Hn. rewrite decide_True in H by done. destruct H as (Hv & i & e & He & Hsh & Hcount & H).
  unfold db_Prev. rewrite bind_gets. unfold id. rewrite bind_assert by done.
  pose proof (lookup_lt_Some _ _ _ He) as Hlt.
  destruct H as [(Hd & Ha)|(Hd & Hk1 & Hv1 & k & Hk & Ha & Hinv)]; rewrite Hd.
  - rewrite (internal_valid_eq _ _ Ha), bind_assert by (by apply Nat.ltb_lt).
    rewrite (bind_ok _ _ _ _ _ (internal_key_ok i e st Ha He)), ExtractUserKey_internal. cbn [or_ub].
    rewrite bind_ret. unfold SaveKey. rewrite bind_modify. set (st1 := set_saved _ _ st).
    destruct (leave_loop fuel i i e st1) as (st2 & Hd2 & H2); [lia|done|done|done|done|done|intros; lia|].
    destruct H2 as [(E2 & Hv2 & H0 & Ha2)|(j & E2 & Hj & Ha2 & Hcj)]; unfold leave_key; rewrite (bind_ok _ _ _ _ _ E2).
    + exists st2. split; [done|]. split; [by exists (length ks)|].
      rewrite <- Hcount, H0. by rewrite decide_False by lia.
    + rewrite bind_modify. destruct (FindPrevUserEntry_ok j (set_di_direction kReverse st2)) as (st' & E3 & Hf); [done..|].
      exists st'. split; [done|]. apply (found_back_pos j); [done|]. by rewrite Hcj.
  - destruct (FindPrevUserEntry_ok k st) as (st' & E3 & Hf); [lia|done..|].
    exists st'. split; [done|]. apply (found_back_pos k); [done|]. rewrite <- Hcount. symmetry.
    apply shown_upto_hidden; [done|]. intros x a Hx Hxa. destruct (shown C s ks a) eqn:Es; [|done].
    apply (shown_spec C s ks Hks x a Hxa) in Es as (_ & Hav & _). pose proof (Hinv x a Hx Hxa). lia.
Qed.

(** ** Seek *)

(** The internal key that [Seek] looks for. *)
Definition seek_key (target : Slice) : Slice := internal target (256 * s + 1).

Lemma seek_number : 0 <= 256 * s + 1 < 2 ^ 64.
Proof. unfold kMaxSequenceNumber in Hs. lia. Qed.

Lemma before_seek i e target : ks !! i = Some e -> valid target ->
  before (InternalKeyComparator C) (internal (e_key e) (e_number e)) (seek_key target) =
  before C (e_key e) target || (match @Compare C (e_key e) target with Some r => r =? 0 | None => false end
                                 && (256 * s + 1 <? e_number e)).
Proof.
  intros Hi Ht. unfold before, seek_key. change (@Compare (InternalKeyComparator C)) with (InternalCompare C).
  rewrite InternalCompare_eq; [|by eapply e_number_range, (entry_at C ks Hks i)|apply seek_number].
  destruct (Compare (e_key e) target) as [r|]; [|done]. cbn [mbind option_bind].
  destruct (Z.eqb_spec r 0) as [Hz|Hz]; [|cbn; by rewrite orb_false_r].
  subst r. cbn. unfold compare_number. destruct (Z.ltb_spec (256 * s + 1) (e_number e)); [done|].
  by destruct (e_number e <? 256 * s + 1).
Qed.

(** The visible entries before the target are those with smaller keys. *)
Lemma before_seek_visible i e target : ks !! i = Some e -> valid target -> e_seq e <= s ->
  before C (e_key e) target = (i <? keys_before (InternalKeyComparator C) (seek_key target) (entry_pair <$> ks))%nat.
Proof.
  intros Hi Ht Hv.
  assert (@valid _ (InternalKeyComparator_laws C) (seek_key target)) as Hvt.
  { exists target, (256 * s + 1). split; [done|]. split; [done|apply seek_number]. }
  rewrite <- (@sorted_target _ (InternalKeyComparator_laws C) (entry_pair <$> ks) i (entry_pair e) (seek_key target)
    (sorted_internal C ks Hks) Hvt) by (by rewrite list_lookup_fmap, Hi).
  cbn [entry_pair fst]. rewrite (before_seek i e target Hi Ht).
  assert ((256 * s + 1 <? e_number e) = false) as ->; [|by rewrite andb_false_r, orb_false_r].
  apply Z.ltb_ge. unfold e_number.
  destruct (entry_types C ks Hks i e Hi) as [-> | ->]; unfold kTypeDeletion, kTypeValue; lia.
Qed.

Lemma view_before target : valid target ->
  keys_before C target view =
  shown_upto C s ks (keys_before (InternalKeyComparator C) (seek_key target) (entry_pair <$> ks)).
Proof.
  intros Ht. set (idx := keys_before (InternalKeyComparator C) _ _).
  assert (forall e, e ∈ List.filter (shown C s ks) (take idx ks) -> before C (e_key e) target = true) as Hbelow.
  { intros e He. apply list_elem_of_In, filter_In in He as [He Hsh]. apply list_elem_of_In, list_elem_of_lookup in He as [i Hi].
    apply lookup_take_Some in Hi as [Hi Hlt]. pose proof (proj1 (shown_spec C s ks Hks i e Hi) Hsh) as (_ & Hv & _).
    rewrite (before_seek_visible i e target Hi Ht Hv). by apply Nat.ltb_lt. }
  assert (forall e, e ∈ List.filter (shown C s ks) (drop idx ks) -> before C (e_key e) target = false) as Habove.
  { intros e He. apply list_elem_of_In, filter_In in He as [He Hsh]. apply list_elem_of_In, list_elem_of_lookup in He as [i Hi].
    rewrite lookup_drop in Hi. pose proof (proj1 (shown_spec C s ks Hks _ e Hi) Hsh) as (_ & Hv & _).
    rewrite (before_seek_visible _ e target Hi Ht Hv). apply Nat.ltb_ge. fold idx. lia. }
  unfold view, shown_upto. rewrite <- (take_drop idx ks) at 2. rewrite List.filter_app, fmap_app, keys_before_app.
  rewrite keys_before_all, keys_before_none; [by rewrite length_fmap, Nat.add_0_r| |].
  - intros k v Hin. apply list_elem_of_fmap in Hin as (e & [= -> ->] & He). by apply Habove.
  - intros k v Hin. apply list_elem_of_fmap in Hin as (e & [= -> ->] & He). by apply Hbelow.
Qed.

Lemma db_Seek_ok n st target : db_pos n st -> valid target -> target_ok (seek_key target) ->
  exists st', db_Seek RecordReadSample C s fuel target st = Ok tt st' /\ db_pos (keys_before C target view) st'.
Proof.
  intros [[i Ha] _] Ht Htok. unfold db_Seek, ClearSavedValue, ClearSavedKey, SaveKey.
  rewrite !bind_modify, bind_gets. unfold id. cbn [set_saved di_saved_key].
  rewrite AppendInternalKey_eq by done. cbn [or_ub app]. rewrite bind_ret, bind_modify. fold (seek_key target).
  set (st1 := set_saved _ _ _). assert (at_index i st1) as Ha1 by done.
  destruct (cursor_seek _ _ _ _ _ Hcur i _ _ (proj1 Ha1) Htok) as (x & E & Hx).
  assert (on_internal (it_Seek (seek_key target)) st1 = Ok tt (set_iter x st1)) as E1
    by (unfold on_internal, zoom; by rewrite E).
  rewrite (bind_ok _ _ _ _ _ E1), bind_gets. unfold id. set (idx := keys_before _ _ _) in Hx.
  assert (at_index idx (set_iter x st1)) as Ha2 by (by eapply at_index_iter).
  rewrite (internal_valid_eq _ _ Ha2), (view_before target Ht). fold idx.
  destruct (Nat.ltb_spec idx (length ks)) as [Hlt|Hge].
  - destruct (FindNextUserEntry_ok idx idx false (set_iter x st1)) as (st' & E2 & Hf); [done|done|done| |].
    { apply hides_none; [lia|]. intros k k' e e' Hk' Hk He He' Hv' Hsame.
      pose proof (before_seek_visible k' e' target He' Ht Hv') as Hb. fold idx in Hb.
      rewrite (proj2 (Nat.ltb_lt _ _) Hk') in Hb.
      assert (before C (e_key e) target = true) as Hb'.
      { apply (before_le_trans C (e_key e) (e_key e') target 0); [by eapply entry_key_valid..|done| |done|done].
        by apply (same_key_sym C ks Hks k' k e' e). }
      assert (@valid _ (InternalKeyComparator_laws C) (seek_key target)) as Hvt.
      { exists target, (256 * s + 1). split; [done|]. split; [done|apply seek_number]. }
      pose proof (@sorted_target _ (InternalKeyComparator_laws C) (entry_pair <$> ks) k (entry_pair e) (seek_key target)
        (sorted_internal C ks Hks) Hvt ltac:(by rewrite list_lookup_fmap, He)) as Hst.
      cbn [entry_pair fst] in Hst. rewrite (before_seek k e target He Ht), Hb' in Hst. cbn [orb] in Hst.
      symmetry in Hst. apply Nat.ltb_lt in Hst. fold idx in Hst. lia. }
    exists st'. split; [done|]. by apply found_pos.
  - eexists. split; [done|]. split; [by exists idx|]. rewrite decide_False; [done|].
    rewrite shown_upto_all by done. lia.
Qed.

Lemma db_entry n st k v : db_pos n st -> view !! n = Some (k, v) ->
  di_valid st = true /\ db_key st = Ok k st /\ db_value st = Ok v st.
Proof.
  intros [_ H] Hn. rewrite decide_True in H by (by eapply lookup_lt_Some).
  destruct H as (Hv & i & e & He & Hsh & Hcount & H). split; [done|].
  pose proof (view_lookup C s ks i e He Hsh) as Hview. rewrite Hcount, Hn in Hview. injection Hview as -> ->.
  unfold db_key, db_value. rewrite !bind_gets. unfold id. rewrite !bind_assert by done.
  destruct H as [(Hd & Ha)|(Hd & -> & -> & _)]; rewrite Hd; [|done].
  by rewrite (bind_ok _ _ _ _ _ (internal_key_ok i e st Ha He)), ExtractUserKey_internal, (internal_value_ok i e st Ha He).
Qed.

Lemma db_cursor :
  cursor_over (DB_Iterator RecordReadSample C s fuel) C (fun t => valid t /\ target_ok (seek_key t)) view db_pos.
Proof.
  split; cbn [it_Valid it_key it_value it_status it_SeekToFirst it_SeekToLast it_Seek it_Next it_Prev DB_Iterator].
  - intros n st k v. apply db_entry.
  - intros n st [_ H] Hn. by rewrite decide_False in H by lia.
  - intros n st [[i (Hp & _ & _ & Hst)] _]. unfold db_status. rewrite Hst. cbn.
    by rewrite (cursor_status _ _ _ _ _ Hcur i _ Hp).
  - apply db_SeekToFirst_ok.
  - apply db_SeekToLast_ok.
  - intros n st t Hp [Ht Htok]. by eapply db_Seek_ok.
  - apply db_Next_ok.
  - apply db_Prev_ok.
Qed.

Lemma NewDBIterator_ok db it seed i :
  0 <= seed < 2 ^ 32 -> pos i it -> exists st, NewDBIterator db it seed = Some st /\ db_pos (length view) st.
Proof.
  intros Hseed Hp. unfold NewDBIterator.
  destruct (RandomPeriod_ok (Random seed) (Random_good seed Hseed)) as (p & r & -> & Hp0 & Hg & _).
  cbn [mbind option_bind]. eexists. split; [done|]. split; [by exists i|]. by rewrite decide_False by apply Nat.lt_irrefl.
Qed.

End dbiter.

(** C23: An iterator of the database at a sequence number is a cursor over what the
    user sees at that number: it shows every user key once, with the value of its
    newest entry that is not newer than the number, and leaves out the keys whose
    newest entry is a deletion - whichever way it moves, and however it turns. *)
Theorem db_iterator_is_cursor {S D : Type} {I : Iterator S} (C : Comparator) {L : ComparatorLaws C}
    (RecordReadSample : Slice -> D -> D) (s : Z) (fuel : nat) (target_ok : Slice -> Prop) (ks : list Entry)
    (pos : nat -> S -> Prop) (db : D) (it : S) (seed : Z) (i : nat) :
  cursor_over I (InternalKeyComparator C) target_ok (entry_pair <$> ks) pos ->
  internal_sorted C ks -> 0 <= s <= kMaxSequenceNumber -> (length ks <= fuel)%nat ->
  0 <= seed < 2 ^ 32 -> pos i it ->
  exists st pos', NewDBIterator db it seed = Some st /\ pos' (length (user_view C s ks)) st /\
    cursor_over (DB_Iterator RecordReadSample C s fuel) C
      (fun t => valid t /\ target_ok (internal t (256 * s + 1))) (user_view C s ks) pos'.
Proof.
  intros Hcur Hks Hs Hfuel Hseed Hp.
  destruct (NewDBIterator_ok C s ks pos db it seed i Hseed Hp) as (st & E & Hst).
  exists st, (db_pos C s ks pos). split; [done|]. split; [done|]. by apply db_cursor.
Qed.

(** A key with a newer and an older value, and one that has been deleted. *)
Definition view_entries : list Entry :=
  [mk_entry 5 kTypeValue [97] [2]; mk_entry 3 kTypeValue [97] [1]; mk_entry 4 kTypeDeletion [98] [];
   mk_entry 2 kTypeValue [98] [3]].

Lemma view_entries_sorted : internal_sorted BytewiseComparator view_entries.
Proof.
  split; [repeat constructor; (done || by left || by right)|]. split.
  - intros e He. cbn in He. repeat (apply elem_of_cons in He as [->|He]; [eexists _, _; split; [reflexivity|]; by repeat constructor|]).
    by apply elem_of_nil in He.
  - intros i j a b Hi Hj Hij. do 4 (destruct i as [|i]; [injection Hi as <-; do 4 (destruct j as [|j]; [lia || (injection Hj as <-; reflexivity)|]); discriminate Hj|]).
    discriminate Hi.
Qed.

Lemma db_iterator_is_cursor_witness :
  exists st pos', NewDBIterator 0%nat 4%nat 301 = Some st /\ pos' (length (user_view BytewiseComparator 4 view_entries)) st /\
    cursor_over (DB_Iterator (I := sorted_iterator (InternalKeyComparator BytewiseComparator) (entry_pair <$> view_entries))
                   (fun _ n => S n) BytewiseComparator 4 4) BytewiseComparator
      (fun t => @valid BytewiseComparator _ t /\ True) (user_view BytewiseComparator 4 view_entries) pos'.
Proof.
  apply (db_iterator_is_cursor (I := sorted_iterator (InternalKeyComparator BytewiseComparator) (entry_pair <$> view_entries))
    BytewiseComparator (fun _ n => S n) 4 4 (fun _ => True) view_entries (fun i s => i = s) 0%nat 4%nat 301 4).
  - apply sorted_iterator_cursor.
  - apply view_entries_sorted.
  - done.
  - done.
  - done.
  - done.
Defined.

Example view_at_4 : user_view BytewiseComparator 4 view_entries = [([97], [1])].
Proof. reflexivity. Qed.
