(* ===== verification/ReadPath.v ===== *)
(** * Reading memtables through the iterators

    The iterators put together as the database puts them together: one over each
    memtable, one that merges those, and on top of it the iterator that the user
    gets.  It agrees with looking up keys one by one. *)

From Stdlib Require Import ZArith Lia String.
From stdpp Require Import base option list strings sorting gmap.
From S2P Require Import Prelude Memory Slice Coding DbFormat SkipList Status Iterator TwoLevelProof MergeLists WriteBatch MemTable.
From S2P Require Import MemTheorems MemIterator Merger MergerProof UserView DbIter DbIterProof.

Section view.
Context (C : Comparator) {L : ComparatorLaws C} (s : Z) (ks es : list Entry).
Context (Hks : internal_sorted C ks) (HP : ks ≡ₚ es) (Hd : NoDup (e_seq <$> es)).

(** The newest entry does not depend on the order. *)
Lemma newest_perm u : newest C u s ks = newest C u s es.
Proof.
  pose proof (newest_spec C u s ks) as H1. pose proof (newest_spec C u s es) as H2.
  destruct (newest C u s ks) as [e1|], (newest C u s es) as [e2|]; [| | |done].
  - destruct H1 as (Hin1 & V1 & M1), H2 as (Hin2 & V2 & M2). f_equal. apply (NoDup_fmap_inj e_seq es); [done|by rewrite <- HP|done|].
    pose proof (M1 e2 ltac:(by rewrite HP) V2). pose proof (M2 e1 ltac:(by rewrite <- HP) V1). lia.
  - destruct H1 as (Hin1 & V1 & _). rewrite H2 in V1; [done|by rewrite <- HP].
  - destruct H2 as (Hin2 & V2 & _). rewrite H1 in V2; [done|by rewrite HP].
Qed.

(** The view has a key if and only if a lookup finds a value for it, and it has that
    value. *)
Lemma view_lookup_key u k v : valid u ->
  ((k, v) ∈ user_view C s ks /\ @Compare C k u = Some 0) <->
  exists e, newest C u s es = Some e /\ e_type e = kTypeValue /\ (k, v) = user_pair e.
Proof.
  intros Hu. rewrite <- newest_perm.
  assert (forall e, e ∈ ks -> valid (e_key e)) as Hvalid.
  { intros e [i Hi]%list_elem_of_lookup. by eapply entry_key_valid. }
  (* for entries whose key compares equal to [u], the same entries are visible *)
  assert (forall e, e ∈ ks -> @Compare C (e_key e) u = Some 0 -> forall x, x ∈ ks ->
            visible C u s x = visible C (e_key e) s x) as Hsame.
  { intros e He Heq x Hx. unfold visible. pose proof (Hvalid e He) as Ve. pose proof (Hvalid x Hx) as Vx.
    destruct (compare_total (e_key x) u Vx Hu) as [r Hr], (compare_total (e_key x) (e_key e) Vx Ve) as [r' Hr'].
    rewrite Hr, Hr'. f_equal. apply eq_true_iff_eq. rewrite !Z.eqb_eq.
    destruct (compare_total u (e_key e) Hu Ve) as [q Hq]. pose proof (compare_antisym _ _ 0 q Ve Hu Heq Hq).
    assert (q = 0) as -> by lia. destruct (compare_total u (e_key x) Hu Vx) as [q1 Hq1], (compare_total (e_key e) (e_key x) Ve Vx) as [q2 Hq2].
    pose proof (compare_antisym _ _ r q1 Vx Hu Hr Hq1). pose proof (compare_antisym _ _ r' q2 Vx Ve Hr' Hq2).
    split; intros ->.
    - destruct (compare_trans (e_key x) u (e_key e) 0 0 Vx Hu Ve Hr Hq) as (a & Ha & Ha0 & _); [done..|].
      destruct (compare_trans (e_key e) u (e_key x) 0 q1 Ve Hu Vx Heq Hq1) as (b & Hb & Hb0 & _); [done|lia|].
      assert (r' = a) by congruence. assert (q2 = b) by congruence. lia.
    - destruct (compare_trans (e_key x) (e_key e) u 0 0 Vx Ve Hu Hr' Heq) as (a & Ha & Ha0 & _); [done..|].
      destruct (compare_trans u (e_key e) (e_key x) 0 q2 Hu Ve Vx Hq Hq2) as (b & Hb & Hb0 & _); [done|lia|].
      assert (r = a) by congruence. assert (q1 = b) by congruence. lia. }
  assert (forall e, e ∈ ks -> @Compare C (e_key e) u = Some 0 -> newest C u s ks = newest C (e_key e) s ks) as Hnew.
  { intros e He Heq. pose proof (Hsame e He Heq) as Hvis. clear -Hvis. induction ks as [|x l IH]; [done|]. cbn [newest].
    rewrite (Hvis x) by left. rewrite IH; [done|]. intros y Hy. apply Hvis. by right. }
  assert (NoDup (e_seq <$> ks)) as Hd' by (by rewrite HP). unfold user_view. split.
  - intros [(e & Hkv & He)%list_elem_of_fmap Heq]. injection Hkv as -> ->.
    apply list_elem_of_In, filter_In in He as [He Hsh]. apply list_elem_of_In in He.
    rewrite (Hnew e He Heq). unfold shown in Hsh. apply andb_prop in Hsh as [Ht Hn]. apply Z.eqb_eq in Ht.
    pose proof (newest_spec C (e_key e) s ks) as Hspec. destruct (newest C (e_key e) s ks) as [e'|]; [|done].
    apply Z.eqb_eq in Hn. exists e. split; [|done]. f_equal. apply (NoDup_fmap_inj e_seq ks); [done|apply Hspec|done|done].
  - intros (e & Hn & Ht & Hkv). injection Hkv as -> ->. pose proof (newest_spec C u s ks) as Hspec. rewrite Hn in Hspec.
    destruct Hspec as (He & Hv & _). unfold visible in Hv. destruct (Compare (e_key e) u) as [r|] eqn:Er; [|done].
    apply andb_prop in Hv as [Hr%Z.eqb_eq _]. subst r. split; [|done]. apply list_elem_of_fmap. exists e. split; [done|].
    apply list_elem_of_In, filter_In. split; [by apply list_elem_of_In|]. unfold shown.
    rewrite <- (Hnew e He Er), Hn, Ht. by rewrite !Z.eqb_refl.
Qed.

End view.

Section memtables.
Context (C : Comparator) {L : ComparatorLaws C}.

(** Entries with different numbers have different internal keys. *)
Lemma entries_apart e e' : entry_ok C e -> entry_ok C e' -> e_seq e <> e_seq e' ->
  before (InternalKeyComparator C) (entry_pair e).1 (entry_pair e').1 = true \/
  before (InternalKeyComparator C) (entry_pair e').1 (entry_pair e).1 = true.
Proof.
  intros He He' Hne. unfold before, entry_pair. cbn [fst].
  change (@Compare (InternalKeyComparator C)) with (InternalCompare C).
  rewrite !InternalCompare_eq by (by apply (e_number_range C)).
  destruct (compare_total (e_key e) (e_key e')) as [r Hr]; [apply He|apply He'|].
  destruct (compare_total (e_key e') (e_key e)) as [r' Hr']; [apply He'|apply He|].
  pose proof (compare_antisym _ _ r r' ltac:(apply He) ltac:(apply He') Hr Hr') as Hsgn.
  rewrite Hr, Hr'. cbn [mbind option_bind]. rewrite !Z.ltb_lt.
  destruct (Z.eqb_spec r 0) as [Hz|Hz], (Z.eqb_spec r' 0) as [Hz'|Hz']; try lia.
  destruct He as (_ & _ & Ht & _), He' as (_ & _ & Ht' & _).
  assert (e_number e <> e_number e') by (unfold e_number, kTypeDeletion, kTypeValue in *; lia).
  unfold compare_number. destruct (Z.ltb_spec (e_number e') (e_number e)), (Z.ltb_spec (e_number e) (e_number e')); lia.
Qed.

Lemma sort_entries es : Forall (entry_ok C) es -> NoDup (e_seq <$> es) ->
  exists ks, ks ≡ₚ es /\ internal_sorted C ks.
Proof.
  intros Ho Hd. pose proof Ho as Ho'. rewrite Forall_forall in Ho'.
  destruct (@sorted_exists _ (InternalKeyComparator_laws C) (entry_pair <$> es)) as (l & HP & Hl).
  - intros x (e & -> & He)%list_elem_of_fmap. exists (e_key e), (e_number e).
    split; [done|]. split; [apply (Ho' e He)|by apply (e_number_range C), Ho'].
  - intros i j x y Hx Hy Hij. apply list_lookup_fmap_Some in Hx as (e & -> & He).
    apply list_lookup_fmap_Some in Hy as (e' & -> & He').
    apply entries_apart; [by eapply Forall_lookup_1..|]. intros E.
    apply Hij, (NoDup_lookup _ i j (e_seq e) Hd).
    + by rewrite list_lookup_fmap, He.
    + by rewrite list_lookup_fmap, He', E.
  - apply Permutation_map_inv in HP as (ks & -> & HP). exists ks. split; [by symmetry|].
    split; [by rewrite <- HP|done].
Qed.

(** The iterators of memtables, with the entries they show. *)
Lemma memtable_cursors mems ess : Forall2 (mem_holds C) mems ess ->
  exists kss pos, length kss = length mems /\ concat kss ≡ₚ concat ess /\ Forall (internal_sorted C) kss /\
    (forall j ks, kss !! j = Some ks ->
       cursor_over (MemTable_Iterator C) (InternalKeyComparator C) (internal_target C) (entry_pair <$> ks) (pos j)) /\
    (forall j ks m, kss !! j = Some ks -> mems !! j = Some m -> pos j (length ks) (MemTable_NewIterator m)).
Proof.
  induction 1 as [|m es mems ess Hm _ (kss & pos & Hlen & HP & Hs & Hc & Hi)].
  - by exists [], (fun _ _ _ => False).
  - destruct (memtable_cursor C m es Hm) as (ks & p & HPk & Hsk & Hck & Hik).
    exists (ks :: kss), (fun j => match j with O => p | S j => pos j end).
    split; [cbn; congruence|]. split; [cbn; by rewrite HPk, HP|]. split; [by constructor|]. split.
    + intros [|j] k Hk; [by injection Hk as <-|by apply Hc].
    + intros [|j] k m' Hk Hm'; [injection Hk as <-; by injection Hm' as <-|by apply Hi].
Qed.

Lemma concat_fmap {A B} (f : A -> B) (l : list (list A)) : concat (fmap (M:=list) (fmap (M:=list) f) l) = fmap (M:=list) f (concat l).
Proof. induction l as [|x l IH]; [done|]. cbn [fmap list_fmap concat]. by rewrite fmap_app, IH. Qed.

(** What the merged iterator of memtables shows. *)
Lemma merged_memtables mems ess : Forall2 (mem_holds C) mems ess -> NoDup (e_seq <$> concat ess) ->
  exists ks merged pos n, ks ≡ₚ concat ess /\ internal_sorted C ks /\
    NewMergingIterator (I := MemTable_Iterator C) (MemTable_NewIterator <$> mems) = Some merged /\
    cursor_over (Merged_Iterator (MemTable_Iterator C) (InternalKeyComparator C)) (InternalKeyComparator C)
      (internal_target C) (entry_pair <$> ks) pos /\ pos n merged.
Proof.
  intros Hm Hd. destruct (memtable_cursors mems ess Hm) as (kss & pos & Hlen & HP & Hs & Hc & Hi).
  assert (Forall (entry_ok C) (concat kss)) as Ho.
  { apply Forall_forall. intros e (j & ks & Hj & [i He]%list_elem_of_lookup)%elem_of_concat.
    by eapply (entry_at C ks), He; eapply Forall_lookup_1 in Hs. }
  destruct (sort_entries (concat kss) Ho) as (ks & HPk & Hks); [by rewrite HP|].
  destruct (@merged_cursor _ (MemTable_Iterator C) (InternalKeyComparator C) (InternalKeyComparator_laws C)
    (internal_target C) (fmap (M:=list) (fmap (M:=list) entry_pair) kss) pos (fmap (M:=list) entry_pair ks)
    (fmap (M:=list) MemTable_NewIterator mems))
    as (merged & pos' & E & Hcur & n & Hn).
  - intros j l (k & -> & Hk)%list_lookup_fmap_Some. by apply Hc.
  - split; [apply Hks| |].
    + intros j l (k & -> & Hk)%list_lookup_fmap_Some. by eapply Forall_lookup_1 in Hs; [apply Hs|].
    + by rewrite concat_fmap, HPk.
  - intros e (x & -> & Hx)%list_elem_of_fmap. rewrite HPk in Hx. rewrite Forall_forall in Ho.
    exists (e_key x), (e_number x). split; [done|]. split; [by apply Ho|by apply (e_number_range C), Ho].
  - intros t (u & k & -> & Hu & Hk). exists u, k. split; [done|]. split; [apply Hu|done].
  - apply Forall2_same_length_lookup_2; [by rewrite length_imap, !length_fmap|].
    intros j [j' l] c Hj Hcj. rewrite list_lookup_imap in Hj. apply fmap_Some in Hj as (l' & Hl' & [= -> ->]).
    apply list_lookup_fmap_Some in Hl' as (k & -> & Hk). apply list_lookup_fmap_Some in Hcj as (m & -> & Hmj).
    exists (length k). by apply Hi.
  - exists ks, merged, pos', n. split; [by rewrite HPk|]. by split.
Qed.

End memtables.

(** C24: Reading memtables through the iterators the database makes: over memtables
    that hold entries with different numbers, the merging iterator and the iterator
    of the database can be made, and the result is a cursor over a view of all their
    entries at the sequence number, in which a key is if and only if looking it up
    at that number finds a value, and then with this value. *)
Theorem memtables_read {D : Type} (C : Comparator) {L : ComparatorLaws C} (RecordReadSample : Slice -> D -> D)
    (s seed : Z) (fuel : nat) (mems : list MemTable) (ess : list (list Entry)) (db : D) :
  Forall2 (mem_holds C) mems ess -> NoDup (e_seq <$> concat ess) ->
  0 <= s <= kMaxSequenceNumber -> 0 <= seed < 2 ^ 32 -> (length (concat ess) <= fuel)%nat ->
  exists view merged st pos,
    NewMergingIterator (I := MemTable_Iterator C) (MemTable_NewIterator <$> mems) = Some merged /\
    NewDBIterator db merged seed = Some st /\ pos (length view) st /\
    cursor_over (DB_Iterator (I := Merged_Iterator (MemTable_Iterator C) (InternalKeyComparator C))
                   RecordReadSample C s fuel) C (key_ok C) view pos /\
    forall u k v, valid u ->
      ((k, v) ∈ view /\ @Compare C k u = Some 0) <->
      exists e, newest C u s (concat ess) = Some e /\ e_type e = kTypeValue /\ (k, v) = user_pair e.
Proof.
  intros Hm Hd Hs Hseed Hfuel. destruct (merged_memtables C mems ess Hm Hd) as (ks & merged & pos & n & HP & Hks & E & Hcur & Hn).
  assert (length ks <= fuel)%nat as Hf by (by rewrite HP).
  destruct (NewDBIterator_ok C s ks pos db merged seed n Hseed Hn) as (st & E' & Hst).
  exists (user_view C s ks), merged, st, (db_pos C s ks pos). split; [done|]. split; [done|]. split; [done|]. split.
  - eapply cursor_fewer_targets; [by apply (db_cursor C RecordReadSample s fuel _ ks pos Hcur)|].
    intros t Ht. split; [apply Ht|]. exists t, (256 * s + 1). split; [done|]. split; [done|].
    unfold kMaxSequenceNumber in Hs. lia.
  - intros u k v Hu. by apply (view_lookup_key C s ks (concat ess)).
Qed.

(** ** Instances *)

(** A younger memtable than the sample one: [a] is put again, [b] deleted, [c] put. *)
Definition younger_entries : list Entry :=
  [mk_entry 10 kTypeValue [97] [5]; mk_entry 11 kTypeDeletion [98] []; mk_entry 12 kTypeValue [99] [6]].

Definition younger_memtable : MemTable :=
  match (Add BytewiseComparator 10 kTypeValue [97] [5] ;;; Add BytewiseComparator 11 kTypeDeletion [98] [] ;;;
         Add BytewiseComparator 12 kTypeValue [99] [6]) new_MemTable with
  | Ok _ m => m
  | _ => new_MemTable
  end.

Lemma younger_memtable_holds : mem_holds BytewiseComparator younger_memtable younger_entries.
Proof.
  destruct (Add_holds BytewiseComparator new_MemTable [] (mk_entry 10 kTypeValue [97] [5])) as (m1 & E1 & H1 & _).
  { apply mem_holds_new. }
  { repeat constructor; (done || by right). }
  { constructor. }
  destruct (Add_holds BytewiseComparator m1 _ (mk_entry 11 kTypeDeletion [98] []) H1) as (m2 & E2 & H2 & _).
  { repeat constructor; (done || by left). }
  { repeat constructor; done. }
  destruct (Add_holds BytewiseComparator m2 _ (mk_entry 12 kTypeValue [99] [6]) H2) as (m3 & E3 & H3 & _).
  { repeat constructor; (done || by right). }
  { repeat constructor; done. }
  unfold younger_memtable. rewrite (bind_ok _ _ _ _ _ E1), (bind_ok _ _ _ _ _ E2). cbn [e_seq e_type e_key e_value] in E3.
  by rewrite E3.
Qed.

Lemma memtables_read_witness :
  exists view merged st pos,
    NewMergingIterator (I := MemTable_Iterator BytewiseComparator)
      (MemTable_NewIterator <$> [younger_memtable; sample_memtable]) = Some merged /\
    NewDBIterator 0%nat merged 301 = Some st /\ pos (length view) st /\
    cursor_over (DB_Iterator (I := Merged_Iterator (MemTable_Iterator BytewiseComparator)
                                     (InternalKeyComparator BytewiseComparator))
                   (fun _ n => S n) BytewiseComparator 11 6) BytewiseComparator (key_ok BytewiseComparator) view pos /\
    forall u k v, @valid BytewiseComparator _ u ->
      ((k, v) ∈ view /\ @Compare BytewiseComparator k u = Some 0) <->
      exists e, newest BytewiseComparator u 11 (concat [younger_entries; sample_entries]) = Some e /\
                e_type e = kTypeValue /\ (k, v) = user_pair e.
Proof.
  apply (memtables_read BytewiseComparator (fun _ n => S n) 11 301 6 [younger_memtable; sample_memtable]
    [younger_entries; sample_entries] 0%nat).
  - constructor; [apply younger_memtable_holds|]. constructor; [apply sample_memtable_holds|constructor].
  - apply (bool_decide_unpack _). vm_compute. done.
  - done.
  - done.
  - cbn. lia.
Defined.

(** At number 9 only [b] is there; at 11, [a] with its new value; at 12 also [c].
    The keys are listed forward, then backward. *)
Definition list_keys (s : Z) : option (list Slice * list Slice) :=
  let I := Merged_Iterator (MemTable_Iterator BytewiseComparator) (InternalKeyComparator BytewiseComparator) in
  let J := DB_Iterator (I := I) (fun _ n => S n) BytewiseComparator s 6 in
  let walk (move : M _ unit) := loop 5 (fun keys =>
    let! st := gets id in
    if di_valid st then let! k := @it_key _ J in move ;;; ret (inl (keys ++ [k])) else ret (inr keys)) [] in
  merged ← NewMergingIterator (I := MemTable_Iterator BytewiseComparator)
             (MemTable_NewIterator <$> [younger_memtable; sample_memtable]);
  st ← NewDBIterator 0%nat merged 301;
  match (@it_SeekToFirst _ J ;;; let! forward := walk (@it_Next _ J) in
         @it_SeekToLast _ J ;;; let! backward := walk (@it_Prev _ J) in ret (forward, backward)) st with
  | Ok r _ => Some r
  | _ => None
  end.

Example keys_at_9 : list_keys 9 = Some ([[98]], [[98]]).
Proof. vm_compute. reflexivity. Qed.
Example keys_at_11 : list_keys 11 = Some ([[97]], [[97]]).
Proof. vm_compute. reflexivity. Qed.
Example keys_at_12 : list_keys 12 = Some ([[97]; [99]], [[99]; [97]]).
Proof. vm_compute. reflexivity. Qed.
