(* ===== verification/FileName.v ===== *)
(** * Numbers as text and file names (logging.h, logging.cc, filename.h, filename.cc)

    Printing and reading decimal numbers; the names of the files of a database, and
    that parsing a name gives back what it was made of. *)

From Stdlib Require Import ZArith Lia String Ascii.
From stdpp Require Import base option list strings gmap.
From S2P Require Import Prelude Memory Slice Status Env.

(** The conversions of [snprintf]: [%llu] of a 64-bit number, which has at most 20
    digits, with [%06llu] zeros in front of fewer than six of them; [%02x] of a byte. *)
Fixpoint decimal (fuel : nat) (n : Z) : Slice :=
  match fuel with
  | O => []
  | S fuel => (if n <? 10 then [] else decimal fuel (n / 10)) ++ [48 + n mod 10]
  end.

Definition print_llu (n : Z) : Slice := decimal 20 n.

Definition print_06llu (n : Z) : Slice :=
  replicate (6 - length (print_llu n)) 48 ++ print_llu n.

Definition hex_digit (d : Z) : Z := if d <? 10 then 48 + d else 87 + d.
Definition print_02x (c : Z) : Slice := [hex_digit (c / 16); hex_digit (c mod 16)].

Definition AppendNumberTo (str : Slice) (num : Z) : Slice := str ++ print_llu num.

(** The comparisons are of [char], which is signed: they fail for bytes from 128 on. *)
Definition printable (c : Z) : bool := let c := swrap 8 c in (32 <=? c) && (c <=? 126).

Fixpoint AppendEscapedStringTo (str value : Slice) : Slice :=
  match value with
  | [] => str
  | c :: value =>
      AppendEscapedStringTo
        (if printable c then str ++ [c] else str ++ c_string "\x" ++ print_02x (Z.land c 0xff)) value
  end.

Definition NumberToString (num : Z) : Slice := AppendNumberTo [] num.
Definition EscapeString (value : Slice) : Slice := AppendEscapedStringTo [] value.

Definition is_digit (c : Z) : bool := let c := swrap 8 c in (48 <=? c) && (c <=? 57).

Definition kMaxUint64 : Z := u64 (Z.lnot 0).

(** The loop: [v], the number of digits, and what is left of [*in]; [None] is the
    result [false] for an overflow. *)
Fixpoint consume_digits (v : Z) (digits : nat) (input : Slice) : option (Z * nat * Slice) :=
  match input with
  | c :: rest =>
      if is_digit c then
        let delta := c - 48 in
        if (kMaxUint64 / 10 <? v) || ((v =? kMaxUint64 / 10) && (kMaxUint64 mod 10 <? delta)) then None
        else consume_digits (u64 (v * 10 + delta)) (S digits) rest
      else Some (v, digits, input)
  | [] => Some (v, digits, [])
  end.

(** The number and what is left, if the result is [true]. *)
Definition ConsumeDecimalNumber (input : Slice) : option (Z * Slice) :=
  match consume_digits 0 0 input with
  | Some (v, digits, rest) => if (0 <? digits)%nat then Some (v, rest) else None
  | None => None
  end.

(** ** Reading *)

(** The value of a string of digits. *)
Definition digits_value (v : Z) (ds : Slice) : Z := fold_left (fun v c => 10 * v + (c - 48)) ds v.

(** The digits in front. *)
Fixpoint digit_prefix (input : Slice) : Slice :=
  match input with
  | c :: rest => if is_digit c then c :: digit_prefix rest else []
  | [] => []
  end.

Lemma is_digit_byte c : is_byte c -> is_digit c = (48 <=? c) && (c <=? 57).
Proof.
  unfold is_byte, is_digit. intros Hc. apply eq_true_iff_eq. rewrite !andb_true_iff, !Z.leb_le. cbv zeta.
  destruct (Z.ltb_spec c 128).
  - by rewrite swrap_small by lia.
  - assert (swrap 8 c < 0); [|lia]. unfold swrap. change (2 ^ 8) with 256. change (2 ^ (8 - 1)) with 128.
    rewrite (Z.mod_small c 256) by lia. destruct (Z.ltb_spec c 128); lia.
Qed.

Lemma digits_value_ge v ds : 0 <= v -> Forall (fun c => 48 <= c) ds -> v <= digits_value v ds.
Proof.
  intros Hv Hds. revert v Hv. induction Hds as [|c ds Hc _ IH]; intros v Hv; cbn; [lia|].
  etransitivity; [|apply IH]; lia.
Qed.

Lemma consume_digits_eq v n input :
  Forall is_byte input -> 0 <= v < 2 ^ 64 ->
  consume_digits v n input =
  if digits_value v (digit_prefix input) <? 2 ^ 64
  then Some (digits_value v (digit_prefix input), (n + length (digit_prefix input))%nat,
             drop (length (digit_prefix input)) input)
  else None.
Proof.
  intros Hb. revert v n. induction Hb as [|c input Hc Hb IH]; intros v n Hv.
  { cbn. destruct (Z.ltb_spec v (2 ^ 64)); [|lia]. by rewrite Nat.add_0_r. }
  cbn [consume_digits digit_prefix]. rewrite is_digit_byte by done.
  destruct ((48 <=? c) && (c <=? 57)) eqn:Ed.
  2: { cbn. destruct (Z.ltb_spec v (2 ^ 64)); [|lia]. by rewrite Nat.add_0_r. }
  apply andb_prop in Ed as [E1%Z.leb_le E2%Z.leb_le].
  assert (Forall (fun c => 48 <= c) (digit_prefix input)) as Hge.
  { clear -Hb. induction Hb as [|c l Hc _ IH]; [constructor|]. cbn [digit_prefix].
    rewrite is_digit_byte by done. destruct ((48 <=? c) && (c <=? 57)) eqn:E; [|constructor].
    apply andb_prop in E as [E%Z.leb_le _]. by constructor. }
  change (digits_value v (c :: digit_prefix input)) with (digits_value (10 * v + (c - 48)) (digit_prefix input)).
  change (kMaxUint64 / 10) with 1844674407370955161. change (kMaxUint64 mod 10) with 5. cbv zeta.
  destruct ((1844674407370955161 <? v) || ((v =? 1844674407370955161) && (5 <? c - 48))) eqn:Eo.
  - assert (2 ^ 64 <= 10 * v + (c - 48)).
    { apply orb_prop in Eo as [H%Z.ltb_lt|[->%Z.eqb_eq H%Z.ltb_lt]%andb_prop]; lia. }
    pose proof (digits_value_ge (10 * v + (c - 48)) _ ltac:(lia) Hge).
    destruct (Z.ltb_spec (digits_value (10 * v + (c - 48)) (digit_prefix input)) (2 ^ 64)); [lia|done].
  - apply orb_false_elim in Eo as [H1%Z.ltb_ge H2].
    assert (10 * v + (c - 48) < 2 ^ 64).
    { destruct (Z.eqb_spec v 1844674407370955161); cbn [andb] in H2; [apply Z.ltb_ge in H2|]; lia. }
    rewrite uwrap_small by lia. replace (v * 10 + (c - 48)) with (10 * v + (c - 48)) by lia.
    rewrite IH by lia. cbn [length drop]. by replace (S n + length (digit_prefix input))%nat
      with (n + S (length (digit_prefix input)))%nat by lia.
Qed.

(** What is read: the digits in front, unless there are none or their value does not
    fit in 64 bits. *)
Lemma ConsumeDecimalNumber_eq input : Forall is_byte input ->
  ConsumeDecimalNumber input =
  let ds := digit_prefix input in
  if (0 <? length ds)%nat && (digits_value 0 ds <? 2 ^ 64)
  then Some (digits_value 0 ds, drop (length ds) input) else None.
Proof.
  intros Hb. unfold ConsumeDecimalNumber. rewrite consume_digits_eq by done. cbv zeta.
  destruct (_ <? 2 ^ 64); [|by rewrite andb_false_r]. rewrite andb_true_r. done.
Qed.

(** ** Printing *)

Definition all_digits (ds : Slice) : Prop := Forall (fun c => 48 <= c <= 57) ds.

Lemma digits_value_app v ds ds' : digits_value v (ds ++ ds') = digits_value (digits_value v ds) ds'.
Proof. apply fold_left_app. Qed.

Lemma decimal_spec fuel n : 0 <= n < 10 ^ Z.of_nat fuel ->
  all_digits (decimal fuel n) /\ digits_value 0 (decimal fuel n) = n /\ (length (decimal fuel n) <= fuel)%nat /\
  (fuel <> 0%nat -> decimal fuel n <> []).
Proof.
  revert n. induction fuel as [|fuel IH]; intros n Hn; [cbn in *; split; [constructor|]; lia|].
  cbn [decimal]. rewrite Nat2Z.inj_succ, Z.pow_succ_r in Hn by lia.
  pose proof (Z.mod_pos_bound n 10 ltac:(lia)) as Hm. pose proof (Z.div_mod n 10 ltac:(lia)) as Hd.
  assert (all_digits [48 + n mod 10]) as H1 by (constructor; [lia|constructor]).
  destruct (Z.ltb_spec n 10) as [Hlt|Hge].
  - rewrite Z.mod_small in * by lia. split; [done|]. cbn. split; [lia|]. split; [lia|done].
  - destruct (IH (n / 10)) as (Ha & Hv & Hl & _).
    { split; [apply Z.div_pos; lia|]. apply Z.div_lt_upper_bound; lia. }
    split; [by apply Forall_app|]. split; [|split].
    + rewrite digits_value_app, Hv. cbn. lia.
    + rewrite length_app. cbn. lia.
    + intros _ E. by destruct (decimal fuel (n / 10)).
Qed.

Lemma print_llu_spec n : 0 <= n < 2 ^ 64 ->
  all_digits (print_llu n) /\ digits_value 0 (print_llu n) = n /\ (0 < length (print_llu n) <= 20)%nat.
Proof.
  intros Hn. destruct (decimal_spec 20 n) as (Ha & Hv & Hl & Hne); [cbn; lia|].
  split; [done|]. split; [done|]. specialize (Hne ltac:(lia)). unfold print_llu.
  destruct (decimal 20 n); [done|]. cbn [length] in *. lia.
Qed.

Lemma digits_value_zeros k ds : digits_value 0 (replicate k 48 ++ ds) = digits_value 0 ds.
Proof. induction k as [|k IH]; [done|]. cbn [replicate app]. change (digits_value 0 (48 :: ?l)) with (digits_value 0 l). apply IH. Qed.

Lemma print_06llu_spec n : 0 <= n < 2 ^ 64 ->
  all_digits (print_06llu n) /\ digits_value 0 (print_06llu n) = n /\ (6 <= length (print_06llu n) <= 20)%nat.
Proof.
  intros Hn. destruct (print_llu_spec n Hn) as (Ha & Hv & Hl). unfold print_06llu. split; [|split].
  - apply Forall_app. split; [|done]. apply Forall_replicate. lia.
  - by rewrite digits_value_zeros.
  - rewrite length_app, length_replicate. lia.
Qed.

Lemma all_digits_bytes ds : all_digits ds -> Forall is_byte ds.
Proof. intros H. eapply Forall_impl; [exact H|]. unfold is_byte. cbn. lia. Qed.

(** Digits are read back, if no digit follows. *)
Lemma ConsumeDecimalNumber_digits ds rest :
  all_digits ds -> ds <> [] -> Forall is_byte rest -> digits_value 0 ds < 2 ^ 64 ->
  match rest with c :: _ => is_digit c = false | [] => True end ->
  ConsumeDecimalNumber (ds ++ rest) = Some (digits_value 0 ds, rest).
Proof.
  intros Hd Hne Hr Hv Hrest.
  assert (digit_prefix (ds ++ rest) = ds) as E.
  { clear Hne Hv. induction Hd as [|c ds Hc Hd IH]; cbn [app digit_prefix].
    - destruct rest as [|c rest]; [done|]. cbn [digit_prefix]. by rewrite Hrest.
    - rewrite is_digit_byte by (unfold is_byte; lia).
      rewrite (proj2 (Z.leb_le 48 c)), (proj2 (Z.leb_le c 57)) by lia. cbn [andb]. by rewrite IH. }
  rewrite ConsumeDecimalNumber_eq by (apply Forall_app; split; [by apply all_digits_bytes|done]).
  rewrite E. cbv zeta. destruct (Z.ltb_spec (digits_value 0 ds) (2 ^ 64)); [|lia].
  assert ((0 <? length ds)%nat = true) as -> by (destruct ds; [done|apply Nat.ltb_lt; cbn; lia]).
  cbn [andb]. by rewrite drop_app_length.
Qed.

(** * File names (filename.h, filename.cc)

    The names of the files of a database, and what a name says about the file. *)

Inductive FileType :=
| kLogFile
| kDBLockFile
| kTableFile
| kDescriptorFile
| kCurrentFile
| kTempFile
| kInfoLogFile.

(** [assert(number > 0)] *)
Definition assert_number (number : Z) : option unit := if 0 <? number then Some tt else None.

(** The buffer has 100 bytes: [snprintf] cuts off what does not fit. *)
Definition MakeFileName (name : Slice) (number : Z) (suffix : Slice) : Slice :=
  name ++ take 99 (c_string "/" ++ print_06llu number ++ c_string "." ++ suffix).

Definition LogFileName (name : Slice) (number : Z) : option Slice :=
  _ ← assert_number number; Some (MakeFileName name number (c_string "log")).
Definition TableFileName (name : Slice) (number : Z) : option Slice :=
  _ ← assert_number number; Some (MakeFileName name number (c_string "ldb")).
Definition SSTTableFileName (name : Slice) (number : Z) : option Slice :=
  _ ← assert_number number; Some (MakeFileName name number (c_string "sst")).
Definition DescriptorFileName (dbname : Slice) (number : Z) : option Slice :=
  _ ← assert_number number; Some (dbname ++ take 99 (c_string "/MANIFEST-" ++ print_06llu number)).
Definition CurrentFileName (dbname : Slice) : Slice := dbname ++ c_string "/CURRENT".
Definition LockFileName (dbname : Slice) : Slice := dbname ++ c_string "/LOCK".
Definition TempFileName (dbname : Slice) (number : Z) : option Slice :=
  _ ← assert_number number; Some (MakeFileName dbname number (c_string "dbtmp")).
Definition InfoLogFileName (dbname : Slice) : Slice := dbname ++ c_string "/LOG".
Definition OldInfoLogFileName (dbname : Slice) : Slice := dbname ++ c_string "/LOG.old".

(** The number and the type, if the result is [true]. *)
Definition ParseFileName (fname : Slice) : option (Z * FileType) :=
  let rest := fname in
  if slice_eqb rest (c_string "CURRENT") then Some (0, kCurrentFile)
  else if slice_eqb rest (c_string "LOCK") then Some (0, kDBLockFile)
  else if slice_eqb rest (c_string "LOG") || slice_eqb rest (c_string "LOG.old") then Some (0, kInfoLogFile)
  else if starts_with rest (c_string "MANIFEST-") then
    rest ← remove_prefix rest (length (c_string "MANIFEST-"));
    r ← ConsumeDecimalNumber rest;
    let '(num, rest) := r in
    if match rest with [] => false | _ => true end then None else Some (num, kDescriptorFile)
  else
    r ← ConsumeDecimalNumber rest;
    let '(num, suffix) := r in
    if slice_eqb suffix (c_string ".log") then Some (num, kLogFile)
    else if slice_eqb suffix (c_string ".sst") || slice_eqb suffix (c_string ".ldb") then Some (num, kTableFile)
    else if slice_eqb suffix (c_string ".dbtmp") then Some (num, kTempFile)
    else None.

(** ** Files of the environment *)

Section current.
Context {E W G R : Type} {FS : FileSystem E W G R}.

Definition SetCurrentFile (dbname : Slice) (descriptor_number : Z) (env : E) : option (Status * E) :=
  manifest ← DescriptorFileName dbname descriptor_number;
  if starts_with manifest (dbname ++ c_string "/") then
    contents ← remove_prefix manifest (length dbname + 1);
    tmp ← TempFileName dbname descriptor_number;
    r ← WriteStringToFileSync (contents ++ [10]) tmp env;
    let '(s, env) := r in
    let '(s, env) := if ok s then RenameFile tmp (CurrentFileName dbname) env else (s, env) in
    if negb (ok s) then let '(_, env) := DeleteFile tmp env in Some (s, env)
    else Some (s, env)
  else None.

End current.

(** ** Names are read back *)

(** The base name: what is behind the directory and the slash. *)
Definition base_name (dbname fname : Slice) : Slice := drop (length dbname + 1) fname.

Lemma slice_eqb_false x y : x <> y -> slice_eqb x y = false.
Proof. intros H. destruct (slice_eqb x y) eqn:E; [|done]. by apply slice_eqb_eq in E. Qed.

(** A name that begins with a digit is none of the fixed ones. *)
Definition starts_above_digits (y : Slice) : bool := match y with c :: _ => 57 <? c | [] => false end.

Lemma digit_name ds rest y : all_digits ds -> ds <> [] -> starts_above_digits y = true -> slice_eqb (ds ++ rest) y = false.
Proof.
  intros Hd Hne Hy. destruct Hd as [|c ds Hc _]; [done|]. destruct y as [|x y]; [done|]. apply Z.ltb_lt in Hy.
  apply slice_eqb_false. cbn. intros [= -> _]. lia.
Qed.

Lemma digit_start ds rest y : all_digits ds -> ds <> [] -> starts_above_digits y = true -> starts_with (ds ++ rest) y = false.
Proof.
  intros Hd Hne Hy. destruct Hd as [|c ds Hc _]; [done|]. destruct y as [|x y]; [done|]. apply Z.ltb_lt in Hy.
  destruct (starts_with _ _) eqn:E; [|done]. apply starts_with_prefix in E as [t E]. cbn in E. injection E as -> _. lia.
Qed.

(** What a name made of a number and a suffix says. *)
Lemma ParseFileName_number number suffix t :
  0 <= number < 2 ^ 64 -> Forall is_byte suffix ->
  match suffix with c :: _ => is_digit c = false | [] => True end ->
  (if slice_eqb suffix (c_string ".log") then Some kLogFile
   else if slice_eqb suffix (c_string ".sst") || slice_eqb suffix (c_string ".ldb") then Some kTableFile
   else if slice_eqb suffix (c_string ".dbtmp") then Some kTempFile else None) = Some t ->
  ParseFileName (print_06llu number ++ suffix) = Some (number, t).
Proof.
  intros Hn Hb Hs Ht. destruct (print_06llu_spec number Hn) as (Hd & Hv & Hl).
  assert (print_06llu number <> []) as Hne by (destruct (print_06llu number); [cbn in Hl; lia|done]).
  unfold ParseFileName. cbv zeta.
  rewrite !(digit_name (print_06llu number)) by done. cbn [orb].
  rewrite (digit_start (print_06llu number)) by done.
  rewrite ConsumeDecimalNumber_digits by (done || lia). cbn [mbind option_bind]. rewrite Hv.
  destruct (slice_eqb suffix (c_string ".log")); [by injection Ht as <-|].
  destruct (_ || _); [by injection Ht as <-|]. destruct (slice_eqb _ _); [by injection Ht as <-|done].
Qed.

Lemma base_name_number dbname number suffix :
  0 <= number < 2 ^ 64 -> (length suffix <= 10)%nat ->
  base_name dbname (MakeFileName dbname number suffix) = print_06llu number ++ 46 :: suffix.
Proof.
  intros Hn Hl. destruct (print_06llu_spec number Hn) as (_ & _ & Hlen).
  unfold base_name, MakeFileName. rewrite take_ge
    by (rewrite !length_app; change (length (c_string "/")) with 1%nat; change (length (c_string ".")) with 1%nat; lia).
  rewrite drop_app_ge by lia. by replace (length dbname + 1 - length dbname)%nat with 1%nat by lia.
Qed.

Lemma base_name_descriptor dbname number :
  0 <= number < 2 ^ 64 ->
  base_name dbname (dbname ++ take 99 (c_string "/MANIFEST-" ++ print_06llu number)) =
  c_string "MANIFEST-" ++ print_06llu number.
Proof.
  intros Hn. destruct (print_06llu_spec number Hn) as (_ & _ & Hlen).
  unfold base_name. rewrite take_ge
    by (rewrite !length_app; change (length (c_string "/MANIFEST-")) with 10%nat; lia).
  rewrite drop_app_ge by lia. by replace (length dbname + 1 - length dbname)%nat with 1%nat by lia.
Qed.

Lemma ParseFileName_descriptor number : 0 <= number < 2 ^ 64 ->
  ParseFileName (c_string "MANIFEST-" ++ print_06llu number) = Some (number, kDescriptorFile).
Proof.
  intros Hn. destruct (print_06llu_spec number Hn) as (Hd & Hv & Hl). unfold ParseFileName. cbv zeta.
  rewrite !slice_eqb_false by done. cbn [orb].
  assert (starts_with (c_string "MANIFEST-" ++ print_06llu number) (c_string "MANIFEST-") = true) as ->
    by (apply starts_with_prefix; by eexists).
  unfold remove_prefix. rewrite (proj2 (Nat.leb_le _ _)) by (rewrite length_app; lia). cbn [mbind option_bind].
  rewrite drop_app_length. replace (print_06llu number) with (print_06llu number ++ []) by apply app_nil_r.
  rewrite ConsumeDecimalNumber_digits; try done; [|by destruct (print_06llu number); [cbn in Hl; lia|]|lia].
  cbn [mbind option_bind]. by rewrite Hv.
Qed.

(** C40: The names of the files of a database are read back: the base name of each
    kind of file, with its number where it has one, says this kind and this number.
    No assertion fails for a number that is not zero. *)
Theorem file_names_parse dbname number :
  0 < number < 2 ^ 64 ->
  (exists f, LogFileName dbname number = Some f /\ ParseFileName (base_name dbname f) = Some (number, kLogFile)) /\
  (exists f, TableFileName dbname number = Some f /\ ParseFileName (base_name dbname f) = Some (number, kTableFile)) /\
  (exists f, SSTTableFileName dbname number = Some f /\ ParseFileName (base_name dbname f) = Some (number, kTableFile)) /\
  (exists f, TempFileName dbname number = Some f /\ ParseFileName (base_name dbname f) = Some (number, kTempFile)) /\
  (exists f, DescriptorFileName dbname number = Some f /\
             ParseFileName (base_name dbname f) = Some (number, kDescriptorFile)) /\
  ParseFileName (base_name dbname (CurrentFileName dbname)) = Some (0, kCurrentFile) /\
  ParseFileName (base_name dbname (LockFileName dbname)) = Some (0, kDBLockFile) /\
  ParseFileName (base_name dbname (InfoLogFileName dbname)) = Some (0, kInfoLogFile) /\
  ParseFileName (base_name dbname (OldInfoLogFileName dbname)) = Some (0, kInfoLogFile).
Proof.
  intros Hn. assert (assert_number number = Some tt) as Ha by (unfold assert_number; by rewrite (proj2 (Z.ltb_lt _ _)) by lia).
  unfold LogFileName, TableFileName, SSTTableFileName, TempFileName, DescriptorFileName. rewrite Ha. cbn [mbind option_bind].
  do 4 (split; [eexists; split; [done|]; rewrite base_name_number by (done || lia || (cbn; lia));
                by apply ParseFileName_number; [lia|repeat constructor; done|done|done]|]).
  split; [eexists; split; [done|]; rewrite base_name_descriptor by lia; apply ParseFileName_descriptor; lia|].
  assert (forall x, base_name dbname (dbname ++ c_string (String.String "/"%char x)) = c_string x) as Hb.
  { intros x. unfold base_name. rewrite drop_app_ge by lia.
    by replace (length dbname + 1 - length dbname)%nat with 1%nat by lia. }
  unfold CurrentFileName, LockFileName, InfoLogFileName, OldInfoLogFileName. by rewrite !Hb.
Qed.

Lemma file_names_parse_witness :
  0 < 5 < 2 ^ 64 /\ (exists f, LogFileName [47; 116] 5 = Some f /\ ParseFileName (base_name [47; 116] f) = Some (5, kLogFile)).
Proof. split; [lia|]. apply (file_names_parse [47; 116] 5). lia. Defined.

(** The descriptor is made the current one in two steps: its name and a newline are
    written to a temporary file, which is renamed; if a step fails the temporary file
    is deleted and the error is returned. *)
Lemma SetCurrentFile_eq {E W G R : Type} {FS : FileSystem E W G R} dbname number (env : E) :
  0 < number < 2 ^ 64 ->
  exists tmp, TempFileName dbname number = Some tmp /\
  SetCurrentFile dbname number env =
  (r ← WriteStringToFileSync (c_string "MANIFEST-" ++ print_06llu number ++ [10]) tmp env;
  let '(s, env) := r in
  let '(s, env) := if ok s then RenameFile tmp (CurrentFileName dbname) env else (s, env) in
  Some (s, if ok s then env else (DeleteFile tmp env).2)).
Proof.
  intros Hn. assert (assert_number number = Some tt) as Ha by (unfold assert_number; by rewrite (proj2 (Z.ltb_lt _ _)) by lia).
  eexists. split; [unfold TempFileName; rewrite Ha; done|].
  unfold SetCurrentFile, DescriptorFileName, TempFileName. rewrite Ha. cbn [mbind option_bind].
  set (manifest := dbname ++ take 99 (c_string "/MANIFEST-" ++ print_06llu number)).
  destruct (print_06llu_spec number ltac:(lia)) as (_ & _ & Hlen).
  assert (manifest = (dbname ++ c_string "/") ++ c_string "MANIFEST-" ++ print_06llu number) as Em.
  { unfold manifest. rewrite take_ge by (rewrite !length_app; change (length (c_string "/MANIFEST-")) with 10%nat; lia).
    by rewrite <- app_assoc. }
  assert (starts_with manifest (dbname ++ c_string "/") = true) as -> by (apply starts_with_prefix; rewrite Em; by eexists).
  unfold remove_prefix. rewrite (proj2 (Nat.leb_le (length dbname + 1) (length manifest))).
  2: { rewrite Em, !length_app. change (length (c_string "/")) with 1%nat. lia. }
  cbn [mbind option_bind]. rewrite Em at 1. rewrite drop_app_length' by (by rewrite length_app).
  rewrite <- app_assoc. destruct (WriteStringToFileSync _ _ env) as [[st e]|]; [|done]. cbn [mbind option_bind].
  destruct (ok st) eqn:Es; [|by rewrite Es; destruct (DeleteFile _ e)].
  destruct (RenameFile _ _ e) as [st' e']. destruct (ok st'); [done|]. by destruct (DeleteFile _ e').
Qed.
