(* ===== verification/VersionEdit.v ===== *)
(** * Version edits (version_edit.h, version_edit.cc)

    A change of the set of files of a database, as it is written to the manifest and
    read from it. *)

From Stdlib Require Import ZArith Lia String Sorted.
From stdpp Require Import base option list strings sorting gmap.
From S2P Require Import Prelude Memory Wire Slice Coding DbFormat Status WriteBatch FileName.

Definition kNumLevels : Z := 7.

(** [class InternalKey] keeps the bytes; no bytes are no key. *)
Definition InternalKey_Encode (rep : Slice) : option Slice := match rep with [] => None | _ => Some rep end.

Record FileMetaData := mk_file {
  refs : Z;
  allowed_seeks : Z;
  fnumber : Z;
  file_size : Z;
  smallest : Slice;
  largest : Slice
}.

Record VersionEdit := mk_edit {
  comparator_ : Slice;
  log_number_ : Z;
  prev_log_number_ : Z;
  next_file_number_ : Z;
  last_sequence_ : Z;
  has_comparator_ : bool;
  has_log_number_ : bool;
  has_prev_log_number_ : bool;
  has_next_file_number_ : bool;
  has_last_sequence_ : bool;
  compact_pointers_ : list (Z * Slice);
  deleted_files_ : list (Z * Z);
  new_files_ : list (Z * FileMetaData)
}.

(** What is kept is [compact_pointers_] only. *)
Definition Clear (e : VersionEdit) : VersionEdit :=
  mk_edit [] 0 0 0 0 false false false false false (compact_pointers_ e) [] [].

Definition new_VersionEdit : VersionEdit := Clear (mk_edit [] 0 0 0 0 false false false false false [] [] []).

Definition SetComparatorName (name : Slice) (e : VersionEdit) : VersionEdit :=
  mk_edit name (log_number_ e) (prev_log_number_ e) (next_file_number_ e) (last_sequence_ e) true (has_log_number_ e)
    (has_prev_log_number_ e) (has_next_file_number_ e) (has_last_sequence_ e) (compact_pointers_ e) (deleted_files_ e)
    (new_files_ e).
Definition SetLogNumber (num : Z) (e : VersionEdit) : VersionEdit :=
  mk_edit (comparator_ e) num (prev_log_number_ e) (next_file_number_ e) (last_sequence_ e) (has_comparator_ e) true
    (has_prev_log_number_ e) (has_next_file_number_ e) (has_last_sequence_ e) (compact_pointers_ e) (deleted_files_ e)
    (new_files_ e).
Definition SetPrevLogNumber (num : Z) (e : VersionEdit) : VersionEdit :=
  mk_edit (comparator_ e) (log_number_ e) num (next_file_number_ e) (last_sequence_ e) (has_comparator_ e)
    (has_log_number_ e) true (has_next_file_number_ e) (has_last_sequence_ e) (compact_pointers_ e) (deleted_files_ e)
    (new_files_ e).
Definition SetNextFile (num : Z) (e : VersionEdit) : VersionEdit :=
  mk_edit (comparator_ e) (log_number_ e) (prev_log_number_ e) num (last_sequence_ e) (has_comparator_ e)
    (has_log_number_ e) (has_prev_log_number_ e) true (has_last_sequence_ e) (compact_pointers_ e) (deleted_files_ e)
    (new_files_ e).
Definition SetLastSequence (seq : Z) (e : VersionEdit) : VersionEdit :=
  mk_edit (comparator_ e) (log_number_ e) (prev_log_number_ e) (next_file_number_ e) seq (has_comparator_ e)
    (has_log_number_ e) (has_prev_log_number_ e) (has_next_file_number_ e) true (compact_pointers_ e) (deleted_files_ e)
    (new_files_ e).

Definition SetCompactPointer (level : Z) (key : Slice) (e : VersionEdit) : VersionEdit :=
  mk_edit (comparator_ e) (log_number_ e) (prev_log_number_ e) (next_file_number_ e) (last_sequence_ e)
    (has_comparator_ e) (has_log_number_ e) (has_prev_log_number_ e) (has_next_file_number_ e) (has_last_sequence_ e)
    (compact_pointers_ e ++ [(level, key)]) (deleted_files_ e) (new_files_ e).

(** The order of [std::pair]. *)
Definition pair_lt (a b : Z * Z) : bool := (a.1 <? b.1) || ((a.1 =? b.1) && (a.2 <? b.2)).

(** The set is the list of its elements in their order. *)
Fixpoint set_insert (x : Z * Z) (l : list (Z * Z)) : list (Z * Z) :=
  match l with
  | [] => [x]
  | y :: l' => if pair_lt x y then x :: l else if pair_lt y x then y :: set_insert x l' else l
  end.

Definition VersionEdit_DeleteFile (level file : Z) (e : VersionEdit) : VersionEdit :=
  mk_edit (comparator_ e) (log_number_ e) (prev_log_number_ e) (next_file_number_ e) (last_sequence_ e)
    (has_comparator_ e) (has_log_number_ e) (has_prev_log_number_ e) (has_next_file_number_ e) (has_last_sequence_ e)
    (compact_pointers_ e) (set_insert (level, file) (deleted_files_ e)) (new_files_ e).

Definition add_new_file (level : Z) (f : FileMetaData) (e : VersionEdit) : VersionEdit :=
  mk_edit (comparator_ e) (log_number_ e) (prev_log_number_ e) (next_file_number_ e) (last_sequence_ e)
    (has_comparator_ e) (has_log_number_ e) (has_prev_log_number_ e) (has_next_file_number_ e) (has_last_sequence_ e)
    (compact_pointers_ e) (deleted_files_ e) (new_files_ e ++ [(level, f)]).

(** The file is as its constructor makes it, but for what is given. *)
Definition AddFile (level file size : Z) (small large : Slice) (e : VersionEdit) : VersionEdit :=
  add_new_file level (mk_file 0 (Z.shiftl 1 30) file size small large) e.

(** ** Writing *)

Definition kComparator : Z := 1.
Definition kLogNumber : Z := 2.
Definition kNextFileNumber : Z := 3.
Definition kLastSequence : Z := 4.
Definition kCompactPointer : Z := 5.
Definition kDeletedFile : Z := 6.
Definition kNewFile : Z := 7.
Definition kPrevLogNumber : Z := 9.

(** A number with a tag, if the edit has it. *)
Definition put_number (has : bool) (tag v : Z) (dst : Slice) : option Slice :=
  if has then PutVarint64 (PutVarint32 dst tag) v else Some dst.

Definition put_compact_pointer (dst : Slice) (p : Z * Slice) : option Slice :=
  k ← InternalKey_Encode p.2;
  Some (PutLengthPrefixedSlice (PutVarint32 (PutVarint32 dst kCompactPointer) (u32 p.1)) k).

Definition put_deleted_file (dst : Slice) (p : Z * Z) : option Slice :=
  PutVarint64 (PutVarint32 (PutVarint32 dst kDeletedFile) (u32 p.1)) p.2.

Definition put_new_file (dst : Slice) (p : Z * FileMetaData) : option Slice :=
  let f := p.2 in
  dst ← PutVarint64 (PutVarint32 (PutVarint32 dst kNewFile) (u32 p.1)) (fnumber f);
  dst ← PutVarint64 dst (file_size f);
  small ← InternalKey_Encode (smallest f);
  large ← InternalKey_Encode (largest f);
  Some (PutLengthPrefixedSlice (PutLengthPrefixedSlice dst small) large).

Fixpoint put_all {A} (put : Slice -> A -> option Slice) (l : list A) (dst : Slice) : option Slice :=
  match l with
  | [] => Some dst
  | x :: l => dst ← put dst x; put_all put l dst
  end.

Definition EncodeTo (e : VersionEdit) (dst : Slice) : option Slice :=
  let dst := if has_comparator_ e then PutLengthPrefixedSlice (PutVarint32 dst kComparator) (comparator_ e) else dst in
  dst ← put_number (has_log_number_ e) kLogNumber (log_number_ e) dst;
  dst ← put_number (has_prev_log_number_ e) kPrevLogNumber (prev_log_number_ e) dst;
  dst ← put_number (has_next_file_number_ e) kNextFileNumber (next_file_number_ e) dst;
  dst ← put_number (has_last_sequence_ e) kLastSequence (last_sequence_ e) dst;
  dst ← put_all put_compact_pointer (compact_pointers_ e) dst;
  dst ← put_all put_deleted_file (deleted_files_ e) dst;
  put_all put_new_file (new_files_ e) dst.

(** ** Reading *)

(** [dst->DecodeFrom(str)] *)
Definition GetInternalKey (input : Slice) : option (Slice * Slice) := GetLengthPrefixedSlice input.

Definition GetLevel (input : Slice) : option (Z * Slice) :=
  r ← GetVarint32 input;
  let '(v, input) := r in
  if v <? kNumLevels then Some (v, input) else None.

(** One field: the edit with it and what is left of the input, or the message. *)
Definition decode_field (tag : Z) (input : Slice) (e : VersionEdit) : (Slice * VersionEdit) + string :=
  if tag =? kComparator then
    match GetLengthPrefixedSlice input with
    | Some (str, input) => inl (input, SetComparatorName str e)
    | None => inr "comparator name"%string
    end
  else if tag =? kLogNumber then
    match GetVarint64 input with
    | Some (n, input) => inl (input, SetLogNumber n e)
    | None => inr "log number"%string
    end
  else if tag =? kPrevLogNumber then
    match GetVarint64 input with
    | Some (n, input) => inl (input, SetPrevLogNumber n e)
    | None => inr "previous log number"%string
    end
  else if tag =? kNextFileNumber then
    match GetVarint64 input with
    | Some (n, input) => inl (input, SetNextFile n e)
    | None => inr "next file number"%string
    end
  else if tag =? kLastSequence then
    match GetVarint64 input with
    | Some (n, input) => inl (input, SetLastSequence n e)
    | None => inr "last sequence number"%string
    end
  else if tag =? kCompactPointer then
    match ('(level, input) ← GetLevel input; '(key, input) ← GetInternalKey input; Some (level, key, input)) with
    | Some (level, key, input) => inl (input, SetCompactPointer level key e)
    | None => inr "compaction pointer"%string
    end
  else if tag =? kDeletedFile then
    match ('(level, input) ← GetLevel input; '(number, input) ← GetVarint64 input; Some (level, number, input)) with
    | Some (level, number, input) => inl (input, VersionEdit_DeleteFile level number e)
    | None => inr "deleted file"%string
    end
  else if tag =? kNewFile then
    match ('(level, input) ← GetLevel input; '(number, input) ← GetVarint64 input; '(size, input) ← GetVarint64 input;
           '(small, input) ← GetInternalKey input; '(large, input) ← GetInternalKey input;
           Some (level, AddFile level number size small large e, input)) with
    | Some (_, e, input) => inl (input, e)
    | None => inr "new-file entry"%string
    end
  else inr "unknown tag"%string.

(** The loop, which leaves with a message or without one. *)
Definition decode_round (input : Slice) : M VersionEdit (Slice + option string) :=
  match GetVarint32 input with
  | Some (tag, input) =>
      let! e := gets id in
      match decode_field tag input e with
      | inl (input, e) => modify (fun _ => e) ;;; ret (inl input)
      | inr msg => ret (inr (Some msg))
      end
  | None => ret (inr (match input with [] => None | _ => Some "invalid tag"%string end))
  end.

(** Every field takes a byte. *)
Definition DecodeFrom (src : Slice) : M VersionEdit Status :=
  modify Clear ;;;
  let! msg := loop (S (length src)) decode_round src in
  match msg with
  | Some msg => or_ub (Status_Corruption (c_string "VersionEdit") (c_string msg))
  | None => ret Status_OK
  end.

(** ** Printing *)

Definition ParsedInternalKey_DebugString (k : ParsedInternalKey) : Slice :=
  c_string "'" ++ EscapeString (user_key k) ++
  take 49 (c_string "' @ " ++ print_llu (sequence k) ++ c_string " : " ++ print_llu (type k)).

(** [None] is a read past the end of the key. *)
Definition InternalKey_DebugString (rep : Slice) : option Slice :=
  r ← ParseInternalKey rep;
  match r with
  | (true, Some parsed) => Some (ParsedInternalKey_DebugString parsed)
  | _ => Some (c_string "(bad)" ++ EscapeString rep)
  end.

(** A line of the text. *)
Definition debug_line (label : string) (text : Slice) : Slice := [10] ++ c_string label ++ text.
Definition debug_number (has : bool) (label : string) (v : Z) : Slice :=
  if has then debug_line label (NumberToString v) else [].

Definition DebugString (e : VersionEdit) : option Slice :=
  pointers ← mapM (fun p : Z * Slice =>
    k ← InternalKey_DebugString p.2;
    Some (debug_line "  CompactPointer: " (NumberToString (u64 p.1) ++ c_string " " ++ k))) (compact_pointers_ e);
  let deleted := (fun p : Z * Z =>
    debug_line "  DeleteFile: " (NumberToString (u64 p.1) ++ c_string " " ++ NumberToString p.2)) <$> deleted_files_ e in
  added ← mapM (fun p : Z * FileMetaData =>
    small ← InternalKey_DebugString (smallest p.2);
    large ← InternalKey_DebugString (largest p.2);
    Some (debug_line "  AddFile: " (NumberToString (u64 p.1) ++ c_string " " ++ NumberToString (fnumber p.2) ++
            c_string " " ++ NumberToString (file_size p.2) ++ c_string " " ++ small ++ c_string " .. " ++ large)))
    (new_files_ e);
  Some (c_string "VersionEdit {" ++
    (if has_comparator_ e then debug_line "  Comparator: " (comparator_ e) else []) ++
    debug_number (has_log_number_ e) "  LogNumber: " (log_number_ e) ++
    debug_number (has_prev_log_number_ e) "  PrevLogNumber: " (prev_log_number_ e) ++
    debug_number (has_next_file_number_ e) "  NextFile: " (next_file_number_ e) ++
    debug_number (has_last_sequence_ e) "  LastSeq: " (last_sequence_ e) ++
    concat pointers ++ concat deleted ++ concat added ++ [10] ++ c_string "}" ++ [10]).

(** ** Well-formed edits *)

Definition u64_range (n : Z) : Prop := 0 <= n < 2 ^ 64.
Definition level_range (l : Z) : Prop := 0 <= l < kNumLevels.

Definition pointer_typed (p : Z * Slice) : Prop := level_range p.1 /\ short_string p.2.
Definition deleted_typed (p : Z * Z) : Prop := level_range p.1 /\ u64_range p.2.
Definition file_typed (p : Z * FileMetaData) : Prop :=
  level_range p.1 /\ refs p.2 = 0 /\ allowed_seeks p.2 = 2 ^ 30 /\ u64_range (fnumber p.2) /\
  u64_range (file_size p.2) /\ short_string (smallest p.2) /\ short_string (largest p.2).

Record edit_typed (e : VersionEdit) : Prop := mk_edit_typed {
  typed_comparator : short_string (comparator_ e);
  typed_log : u64_range (log_number_ e);
  typed_prev : u64_range (prev_log_number_ e);
  typed_next : u64_range (next_file_number_ e);
  typed_last : u64_range (last_sequence_ e);
  typed_pointers : Forall pointer_typed (compact_pointers_ e);
  typed_deleted : Forall deleted_typed (deleted_files_ e);
  typed_set : StronglySorted (fun a b => pair_lt a b = true) (deleted_files_ e);
  typed_files : Forall file_typed (new_files_ e)
}.
