(* ===== verification/VersionEditProof.v ===== *)
(** * Version edits are read back *)

From Stdlib Require Import ZArith Lia String Sorted.
From stdpp Require Import base option list strings sorting gmap.
From S2P Require Import Prelude Memory Wire Slice Coding DbFormat Status WriteBatch FileName VersionEdit.

(** ** The set of deleted files *)

Lemma pair_lt_trans a b c : pair_lt a b = true -> pair_lt b c = true -> pair_lt a c = true.
Proof.
  unfold pair_lt. rewrite !orb_true_iff, !andb_true_iff, !Z.ltb_lt, !Z.eqb_eq. lia.
Qed.

Lemma pair_lt_total a b : pair_lt a b = false -> pair_lt b a = false -> a = b.
Proof.
  unfold pair_lt. destruct a as [a1 a2], b as [b1 b2]. cbn [fst snd].
  rewrite !orb_false_iff, !andb_false_iff, !Z.ltb_ge, !Z.eqb_neq. intros [H1 H2] [H3 H4]. f_equal; lia.
Qed.

Lemma elem_of_set_insert x y l : y ∈ set_insert x l <-> y = x \/ y ∈ l.
Proof.
  induction l as [|z l IH]; cbn [set_insert]; [by rewrite list_elem_of_singleton, elem_of_nil; tauto|].
  destruct (pair_lt x z) eqn:E1; [by rewrite elem_of_cons|]. destruct (pair_lt z x) eqn:E2.
  - rewrite !elem_of_cons, IH. tauto.
  - rewrite (pair_lt_total x z E1 E2). rewrite elem_of_cons. split; [by right|intros [->|?]; [by left|done]].
Qed.

Abbreviation sorted_pairs := (StronglySorted (fun a b => pair_lt a b = true)).

Lemma set_insert_sorted x l : sorted_pairs l -> sorted_pairs (set_insert x l).
Proof.
  induction 1 as [|z l Hs IH Hz]; cbn [set_insert]; [constructor; constructor|].
  destruct (pair_lt x z) eqn:E1.
  - constructor; [by constructor|]. constructor; [done|]. eapply Forall_impl; [exact Hz|].
    intros y. by apply pair_lt_trans.
  - destruct (pair_lt z x) eqn:E2; [|by constructor]. constructor; [done|]. rewrite Forall_forall in Hz |- *.
    intros y [->|Hy]%elem_of_set_insert; [done|by apply Hz].
Qed.

Lemma set_insert_last x l : Forall (fun y => pair_lt y x = true) l -> set_insert x l = l ++ [x].
Proof.
  induction 1 as [|y l Hy _ IH]; [done|]. cbn [set_insert app]. rewrite IH, Hy.
  destruct (pair_lt x y) eqn:E; [|done]. pose proof (pair_lt_trans _ _ _ E Hy) as H.
  unfold pair_lt in H. rewrite !Z.ltb_irrefl, andb_false_r in H. done.
Qed.

(** ** What is read of any bytes *)

(** The rest of bytes that are read. *)
Definition rest_of (p rest : Slice) : Prop := Forall is_byte rest /\ (length rest < length p)%nat.

Lemma read_varint_typed w k p v rest :
  0 <= w -> Forall is_byte p -> read_varint w k p = Some (v, rest) -> 0 <= v < 2 ^ w /\ rest_of p rest.
Proof.
  intros Hw Hp. unfold read_varint. destruct (parse_varint p) as [[x n]|] eqn:E; [|done].
  destruct (_ <=? _); [|done]. intros [= <- <-]. split; [by apply uwrap_range|].
  split; [by apply Forall_drop|]. rewrite length_drop. pose proof (parse_varint_pos p x n Hp E).
  destruct p; [done|]. cbn [length]. lia.
Qed.

Lemma GetVarint32_typed p v rest : Forall is_byte p -> GetVarint32 p = Some (v, rest) -> 0 <= v < 2 ^ 32 /\ rest_of p rest.
Proof. intros Hp. rewrite GetVarint32_eq by done. by apply read_varint_typed. Qed.

Lemma GetVarint64_typed p v rest : Forall is_byte p -> GetVarint64 p = Some (v, rest) -> u64_range v /\ rest_of p rest.
Proof. intros Hp. rewrite GetVarint64_eq by done. by apply read_varint_typed. Qed.

Lemma GetLengthPrefixedSlice_typed p v rest : Forall is_byte p ->
  GetLengthPrefixedSlice p = Some (v, rest) -> short_string v /\ rest_of p rest.
Proof.
  intros Hp. rewrite GetLengthPrefixedSlice_eq. unfold GetLengthPrefixedSlicePtr.
  change (GetVarint32Ptr p) with (GetVarint32 p). destruct (GetVarint32 p) as [[n q]|] eqn:E; [|done].
  destruct (GetVarint32_typed p n q Hp E) as (Hn & Hq & Hl). cbn [mbind option_bind].
  destruct (_ <? _) eqn:El; [done|]. apply Z.ltb_ge in El. intros [= <- <-]. split; split.
  - by apply Forall_take.
  - rewrite length_take. lia.
  - by apply Forall_drop.
  - rewrite length_drop. lia.
Qed.

Lemma GetLevel_typed p v rest : Forall is_byte p -> GetLevel p = Some (v, rest) -> level_range v /\ rest_of p rest.
Proof.
  intros Hp. unfold GetLevel. destruct (GetVarint32 p) as [[n q]|] eqn:E; [|done].
  destruct (GetVarint32_typed p n q Hp E) as (Hn & Hq). cbn [mbind option_bind].
  destruct (Z.ltb_spec n kNumLevels); [|done]. intros [= <- <-]. split; [|done]. split; [lia|done].
Qed.

Lemma rest_of_trans p q r : rest_of p q -> rest_of q r -> rest_of p r.
Proof. intros [_ H1] [H2 H3]. split; [done|lia]. Qed.

(** Takes a read apart: its result and what is left. *)
Ltac read_one :=
  match goal with
  | Hp : Forall is_byte ?p |- context [GetLevel ?p] =>
      let v := fresh "level" in let r := fresh "rest" in let E := fresh "E" in
      destruct (GetLevel p) as [[v r]|] eqn:E; [|done];
      let Ht := fresh "Ht" in let Hr := fresh "Hr" in
      destruct (GetLevel_typed p v r Hp E) as [Ht Hr]; pose proof (proj1 Hr); cbn [mbind option_bind]
  | Hp : Forall is_byte ?p |- context [GetVarint64 ?p] =>
      let v := fresh "n" in let r := fresh "rest" in let E := fresh "E" in
      destruct (GetVarint64 p) as [[v r]|] eqn:E; [|done];
      let Ht := fresh "Ht" in let Hr := fresh "Hr" in
      destruct (GetVarint64_typed p v r Hp E) as [Ht Hr]; pose proof (proj1 Hr); cbn [mbind option_bind]
  | Hp : Forall is_byte ?p |- context [GetInternalKey ?p] => change (GetInternalKey p) with (GetLengthPrefixedSlice p)
  | Hp : Forall is_byte ?p |- context [GetLengthPrefixedSlice ?p] =>
      let v := fresh "str" in let r := fresh "rest" in let E := fresh "E" in
      destruct (GetLengthPrefixedSlice p) as [[v r]|] eqn:E; [|done];
      let Ht := fresh "Ht" in let Hr := fresh "Hr" in
      destruct (GetLengthPrefixedSlice_typed p v r Hp E) as [Ht Hr]; pose proof (proj1 Hr); cbn [mbind option_bind]
  end.

Lemma decode_field_typed tag input e rest e' :
  Forall is_byte input -> edit_typed e -> decode_field tag input e = inl (rest, e') ->
  edit_typed e' /\ rest_of input rest.
Proof.
  intros Hp He. destruct He. unfold decode_field.
  repeat match goal with |- context [if ?b then _ else _] => destruct b end;
    repeat read_one; intros Heq; try discriminate Heq; injection Heq as <- <-;
    (split; [constructor; cbn; try done|repeat (done || eapply rest_of_trans)]).
  - apply Forall_app. split; [done|]. apply Forall_singleton. by split.
  - apply Forall_forall. intros y [->|Hy]%elem_of_set_insert; [done|]. by eapply Forall_forall in Hy.
  - by apply set_insert_sorted.
  - apply Forall_app. split; [done|]. apply Forall_singleton. by do 6 (split; [done|]).
Qed.

(** ** Decoding ends *)

Lemma decode_loop_typed n input e :
  (length input < n)%nat -> Forall is_byte input -> edit_typed e ->
  exists msg e', loop n decode_round input e = Ok msg e' /\ edit_typed e'.
Proof.
  revert input e. induction n as [|n IH]; intros input e Hn Hp He; [lia|].
  rewrite loop_S. unfold decode_round at 1. destruct (GetVarint32 input) as [[tag rest]|] eqn:E.
  - destruct (GetVarint32_typed _ _ _ Hp E) as (_ & Hr & Hl). rewrite bind_assoc, bind_gets. unfold id.
    destruct (decode_field tag rest e) as [[rest' e']|msg] eqn:Ef; [|by eexists _, e].
    destruct (decode_field_typed _ _ _ _ _ Hr He Ef) as (He' & Hr' & Hl').
    rewrite bind_assoc, bind_modify, bind_ret. apply IH; [lia|done|done].
  - by eexists _, e.
Qed.

Lemma Clear_typed e : Forall pointer_typed (compact_pointers_ e) -> edit_typed (Clear e).
Proof. intros Hp. constructor; cbn; try done; try constructor. Qed.

Lemma edit_message_status msg : exists st, Status_Corruption (c_string "VersionEdit") msg = Some st /\ IsCorruption st = Some true.
Proof. unfold Status_Corruption, make_Status. change (kCorruption =? kOk) with false. cbv iota zeta. by eexists. Qed.

(** C31: Reading a version edit ends for any bytes, with status OK or with a corruption;
    in either case what is in the edit has the types it should have: levels below
    the number of levels, 64-bit numbers, keys of a length that fits in 32 bits, and
    the deleted files in order without repetition - so that what was read can be
    used as an array index or a set. *)
Theorem DecodeFrom_typed src e :
  Forall is_byte src -> Forall pointer_typed (compact_pointers_ e) ->
  exists st e', DecodeFrom src e = Ok st e' /\ edit_typed e' /\ (ok st = true \/ IsCorruption st = Some true).
Proof.
  intros Hs Hp. unfold DecodeFrom. rewrite bind_modify.
  destruct (decode_loop_typed (S (length src)) src (Clear e)) as (msg & e' & E & He'); [lia|done|by apply Clear_typed|].
  rewrite (bind_ok _ _ _ _ _ E). destruct msg as [msg|].
  - destruct (edit_message_status (c_string msg)) as (st & Est & Hc). rewrite Est. exists st, e'. by split; [|split; [|right]].
  - exists Status_OK, e'. by split; [|split; [|left]].
Qed.

Lemma DecodeFrom_typed_witness :
  exists st e', DecodeFrom [1; 1; 97; 6; 6; 9; 6; 7; 9] new_VersionEdit = Ok st e' /\ edit_typed e' /\
                (ok st = true \/ IsCorruption st = Some true).
Proof. apply DecodeFrom_typed; [repeat constructor; done|constructor]. Defined.

(** ** Reading what has been written *)

(** From [input] the loop gets to [rest], with [e'] read. *)
Definition reads (input : Slice) (e : VersionEdit) (rest : Slice) (e' : VersionEdit) : Prop :=
  forall n, (length input < n)%nat -> exists n', (length rest < n')%nat /\
    loop n decode_round input e = loop n' decode_round rest e'.

Lemma reads_refl input e : reads input e input e.
Proof. intros n Hn. by exists n. Qed.

Lemma reads_trans p e q e1 r e2 : reads p e q e1 -> reads q e1 r e2 -> reads p e r e2.
Proof.
  intros H1 H2 n Hn. destruct (H1 n Hn) as (n1 & Hn1 & ->). by apply H2.
Qed.

(** A field is written as its tag and its text. *)
Lemma reads_field tag text rest e e' :
  0 <= tag < 2 ^ 32 -> Forall is_byte text -> Forall is_byte rest ->
  decode_field tag (text ++ rest) e = inl (rest, e') -> reads (varint_bytes tag ++ text ++ rest) e rest e'.
Proof.
  intros Ht Htext Hrest Hf n Hn. destruct n as [|n]; [lia|]. exists n.
  rewrite !length_app in Hn. pose proof (varint_bytes_length tag) as Hl. split; [lia|].
  rewrite loop_S. unfold decode_round at 1. rewrite GetVarint32_bytes by (done || by apply Forall_app).
  rewrite bind_assoc, bind_gets. unfold id. rewrite Hf. by rewrite bind_assoc, bind_modify, bind_ret.
Qed.

(** The texts. *)
Definition level_bytes (level : Z) : Slice := varint_bytes level.
Definition prefixed (s : Slice) : Slice := PutLengthPrefixedSlice [] s.

Lemma append_prefixed dst s : PutLengthPrefixedSlice dst s = dst ++ prefixed s.
Proof. apply PutLengthPrefixedSlice_app. Qed.

Lemma PutVarint32_app dst v : 0 <= v < 2 ^ 32 -> PutVarint32 dst v = dst ++ varint_bytes v.
Proof. intros Hv. unfold PutVarint32. by rewrite EncodeVarint32_eq. Qed.

Lemma PutVarint64_app dst v : u64_range v -> PutVarint64 dst v = Some (dst ++ varint_bytes v).
Proof. intros Hv. unfold PutVarint64. by rewrite EncodeVarint64_eq. Qed.

Lemma varint_is_bytes v : 0 <= v < 2 ^ 64 -> Forall is_byte (varint_bytes v).
Proof. intros Hv. apply varint_bytes_bytes. lia. Qed.

Lemma GetLevel_bytes level rest : level_range level -> Forall is_byte rest ->
  GetLevel (varint_bytes level ++ rest) = Some (level, rest).
Proof.
  unfold level_range, kNumLevels. intros Hl Hr. unfold GetLevel. rewrite GetVarint32_bytes by (done || lia).
  cbn [mbind option_bind]. by rewrite (proj2 (Z.ltb_lt level kNumLevels)) by (unfold kNumLevels; lia).
Qed.

Lemma prefixed_bytes s : short_string s -> Forall is_byte (prefixed s).
Proof. apply PutLengthPrefixedSlice_bytes. Qed.

Lemma prefixed_read s rest : short_string s -> Forall is_byte rest -> GetLengthPrefixedSlice (prefixed s ++ rest) = Some (s, rest).
Proof. intros [Hb Hl] Hr. by apply GetLengthPrefixedSlice_bytes. Qed.

Lemma level_range_u32 l : level_range l -> 0 <= l < 2 ^ 32.
Proof. unfold level_range, kNumLevels. lia. Qed.

#[local] Hint Resolve varint_is_bytes prefixed_bytes level_range_u32 : core.

Lemma level_is_bytes l : level_range l -> Forall is_byte (varint_bytes l).
Proof. intros Hl%level_range_u32. apply varint_is_bytes. lia. Qed.

#[local] Hint Resolve level_is_bytes : core.

(** An edit whose keys can be written: they are not empty. *)
Definition edit_writable (e : VersionEdit) : Prop :=
  Forall (fun p => p.2 <> []) (compact_pointers_ e) /\
  Forall (fun p : Z * FileMetaData => smallest p.2 <> [] /\ largest p.2 <> []) (new_files_ e).

(** A number that is not there is zero. *)
Record edit_canonical (e : VersionEdit) : Prop := mk_canonical {
  no_comparator : has_comparator_ e = false -> comparator_ e = [];
  no_log : has_log_number_ e = false -> log_number_ e = 0;
  no_prev : has_prev_log_number_ e = false -> prev_log_number_ e = 0;
  no_next : has_next_file_number_ e = false -> next_file_number_ e = 0;
  no_last : has_last_sequence_ e = false -> last_sequence_ e = 0
}.

Definition pointer_bytes (p : Z * Slice) : Slice := varint_bytes kCompactPointer ++ varint_bytes p.1 ++ prefixed p.2.
Definition deleted_bytes (p : Z * Z) : Slice := varint_bytes kDeletedFile ++ varint_bytes p.1 ++ varint_bytes p.2.
Definition file_bytes (p : Z * FileMetaData) : Slice :=
  varint_bytes kNewFile ++ varint_bytes p.1 ++ varint_bytes (fnumber p.2) ++ varint_bytes (file_size p.2) ++
  prefixed (smallest p.2) ++ prefixed (largest p.2).
Definition number_bytes (has : bool) (tag v : Z) : Slice := if has then varint_bytes tag ++ varint_bytes v else [].

Definition edit_bytes (e : VersionEdit) : Slice :=
  (if has_comparator_ e then varint_bytes kComparator ++ prefixed (comparator_ e) else []) ++
  number_bytes (has_log_number_ e) kLogNumber (log_number_ e) ++
  number_bytes (has_prev_log_number_ e) kPrevLogNumber (prev_log_number_ e) ++
  number_bytes (has_next_file_number_ e) kNextFileNumber (next_file_number_ e) ++
  number_bytes (has_last_sequence_ e) kLastSequence (last_sequence_ e) ++
  concat (pointer_bytes <$> compact_pointers_ e) ++ concat (deleted_bytes <$> deleted_files_ e) ++
  concat (file_bytes <$> new_files_ e).

(** ** What is written *)

Lemma put_number_eq has tag v dst : 0 <= tag < 2 ^ 32 -> u64_range v ->
  put_number has tag v dst = Some (dst ++ number_bytes has tag v).
Proof.
  intros Ht Hv. unfold put_number, number_bytes. destruct has; [|by rewrite app_nil_r].
  by rewrite PutVarint32_app, PutVarint64_app, <- app_assoc.
Qed.

Lemma put_all_eq {A} (put : Slice -> A -> option Slice) (bytes : A -> Slice) l dst :
  Forall (fun x => forall dst, put dst x = Some (dst ++ bytes x)) l ->
  put_all put l dst = Some (dst ++ concat (bytes <$> l)).
Proof.
  intros H. revert dst. induction H as [|x l Hx _ IH]; intros dst; [by rewrite app_nil_r|].
  cbn [put_all]. rewrite Hx. cbn [mbind option_bind]. rewrite IH. by rewrite <- app_assoc.
Qed.

Lemma InternalKey_Encode_eq k : k <> [] -> InternalKey_Encode k = Some k.
Proof. by destruct k. Qed.

Lemma EncodeTo_eq e dst : edit_typed e -> edit_writable e -> EncodeTo e dst = Some (dst ++ edit_bytes e).
Proof.
  intros [Hc Hl Hp Hn Hs Hcp Hd _ Hf] [Hwp Hwf]. unfold EncodeTo. cbv zeta.
  set (dst1 := if has_comparator_ e then _ else dst).
  assert (dst1 = dst ++ if has_comparator_ e then varint_bytes kComparator ++ prefixed (comparator_ e) else []) as E1.
  { unfold dst1. destruct (has_comparator_ e); [|by rewrite app_nil_r].
    by rewrite append_prefixed, PutVarint32_app, <- app_assoc by done. }
  rewrite E1. clear dst1 E1.
  rewrite put_number_eq by done. cbn [mbind option_bind]. rewrite put_number_eq by done. cbn [mbind option_bind].
  rewrite put_number_eq by done. cbn [mbind option_bind]. rewrite put_number_eq by done. cbn [mbind option_bind].
  rewrite (put_all_eq put_compact_pointer pointer_bytes).
  2: { rewrite Forall_forall in Hcp, Hwp |- *. intros p Hin d. destruct (Hcp p Hin) as [Hlv Hk].
       unfold put_compact_pointer, pointer_bytes. rewrite InternalKey_Encode_eq by auto. cbn [mbind option_bind].
       rewrite uwrap_small, !PutVarint32_app, append_prefixed by (done || auto). by rewrite <- !app_assoc. }
  cbn [mbind option_bind]. rewrite (put_all_eq put_deleted_file deleted_bytes).
  2: { rewrite Forall_forall in Hd |- *. intros p Hin d. destruct (Hd p Hin) as [Hlv Hk].
       unfold put_deleted_file, deleted_bytes.
       rewrite uwrap_small, !PutVarint32_app, PutVarint64_app by (done || auto). by rewrite <- !app_assoc. }
  cbn [mbind option_bind]. rewrite (put_all_eq put_new_file file_bytes).
  2: { rewrite Forall_forall in Hf, Hwf |- *. intros p Hin d.
       destruct (Hf p Hin) as (Hlv & _ & _ & Hn1 & Hn2 & _ & _), (Hwf p Hin) as [Hw1 Hw2].
       unfold put_new_file, file_bytes. rewrite uwrap_small, !PutVarint32_app, PutVarint64_app by (done || auto).
       cbn [mbind option_bind]. rewrite PutVarint64_app by done. cbn [mbind option_bind].
       rewrite !InternalKey_Encode_eq by done. cbn [mbind option_bind].
       rewrite !append_prefixed. by rewrite <- !app_assoc. }
  unfold edit_bytes. by rewrite <- !app_assoc.
Qed.

(** ** What is read back *)

Lemma reads_list {A} (bytes : A -> Slice) (f : VersionEdit -> A -> VersionEdit) l rest e :
  Forall (fun x => Forall is_byte (bytes x) /\
            forall rest e, Forall is_byte rest -> reads (bytes x ++ rest) e rest (f e x)) l ->
  Forall is_byte rest -> reads (concat (bytes <$> l) ++ rest) e rest (fold_left f l e).
Proof.
  intros H Hr. revert e. induction H as [|x l [Hb Hx] Hl IH]; intros e; [apply reads_refl|].
  cbn [fmap list_fmap concat fold_left]. rewrite <- app_assoc. eapply reads_trans; [apply Hx|apply IH].
  apply Forall_app. split; [|done]. clear -Hl. induction Hl as [|y l [Hy _] _ IH]; [constructor|].
  cbn [fmap list_fmap concat]. by apply Forall_app.
Qed.

Lemma concat_bytes {A} (bytes : A -> Slice) l : Forall (fun x => Forall is_byte (bytes x)) l -> Forall is_byte (concat (bytes <$> l)).
Proof. induction 1 as [|x l Hx _ IH]; [constructor|]. cbn [fmap list_fmap concat]. by apply Forall_app. Qed.

Lemma reads_number has tag v (set : Z -> VersionEdit -> VersionEdit) rest e :
  0 <= tag < 2 ^ 32 -> u64_range v -> Forall is_byte rest ->
  (forall input e, decode_field tag input e = match GetVarint64 input with
                                              | Some (n, input) => inl (input, set n e)
                                              | None => decode_field tag [] e end) ->
  reads (number_bytes has tag v ++ rest) e rest (if has then set v e else e).
Proof.
  intros Ht Hv Hr Hf. unfold number_bytes. destruct has; [|apply reads_refl].
  rewrite <- app_assoc. apply reads_field; [done|auto|done|]. by rewrite Hf, GetVarint64_bytes.
Qed.

Lemma number_is_bytes has tag v : 0 <= tag < 2 ^ 32 -> u64_range v -> Forall is_byte (number_bytes has tag v).
Proof.
  intros Ht Hv. unfold number_bytes. destruct has; [|constructor]. apply Forall_app. split; [apply varint_is_bytes; lia|auto].
Qed.

(** What the tags of the lists select. *)
Lemma decode_pointer input e : decode_field kCompactPointer input e =
  match ('(level, input) ← GetLevel input; '(key, input) ← GetInternalKey input; Some (level, key, input)) with
  | Some (level, key, input) => inl (input, SetCompactPointer level key e)
  | None => inr "compaction pointer"%string
  end.
Proof. done. Qed.

Lemma decode_deleted input e : decode_field kDeletedFile input e =
  match ('(level, input) ← GetLevel input; '(number, input) ← GetVarint64 input; Some (level, number, input)) with
  | Some (level, number, input) => inl (input, VersionEdit_DeleteFile level number e)
  | None => inr "deleted file"%string
  end.
Proof. done. Qed.

Lemma decode_file input e : decode_field kNewFile input e =
  match ('(level, input) ← GetLevel input; '(number, input) ← GetVarint64 input; '(size, input) ← GetVarint64 input;
         '(small, input) ← GetInternalKey input; '(large, input) ← GetInternalKey input;
         Some (level, AddFile level number size small large e, input)) with
  | Some (_, e, input) => inl (input, e)
  | None => inr "new-file entry"%string
  end.
Proof. done. Qed.

Lemma reads_pointer p rest e : pointer_typed p -> Forall is_byte rest ->
  reads (pointer_bytes p ++ rest) e rest (SetCompactPointer p.1 p.2 e).
Proof.
  intros [Hl Hk] Hr. unfold pointer_bytes. rewrite <- app_assoc. apply reads_field; [done|apply Forall_app; auto|done|].
  rewrite decode_pointer, <- app_assoc.
  rewrite GetLevel_bytes by (done || (apply Forall_app; auto)). cbn [mbind option_bind].
  unfold GetInternalKey. by rewrite prefixed_read.
Qed.

Lemma reads_deleted p rest e : deleted_typed p -> Forall is_byte rest ->
  reads (deleted_bytes p ++ rest) e rest (VersionEdit_DeleteFile p.1 p.2 e).
Proof.
  intros [Hl Hk] Hr. unfold deleted_bytes. rewrite <- app_assoc. apply reads_field; [done|apply Forall_app; auto|done|].
  rewrite decode_deleted, <- app_assoc.
  rewrite GetLevel_bytes by (done || (apply Forall_app; auto)). cbn [mbind option_bind].
  by rewrite GetVarint64_bytes.
Qed.

Lemma file_is_bytes p : file_typed p -> Forall is_byte (file_bytes p).
Proof.
  intros (Hl & _ & _ & Hn & Hs & Hk1 & Hk2). unfold file_bytes.
  repeat (apply Forall_app; split; auto). apply varint_is_bytes. by unfold kNewFile.
Qed.

Lemma reads_file p rest e : file_typed p -> Forall is_byte rest ->
  reads (file_bytes p ++ rest) e rest (add_new_file p.1 p.2 e).
Proof.
  intros (Hl & Hrefs & Hseeks & Hn & Hs & Hk1 & Hk2) Hr. unfold file_bytes. rewrite <- app_assoc.
  apply reads_field; [done|repeat (apply Forall_app; split; auto)|done|].
  rewrite decode_file, <- !app_assoc.
  assert (Forall is_byte (prefixed (largest p.2) ++ rest)) as H1 by (apply Forall_app; auto).
  assert (Forall is_byte (prefixed (smallest p.2) ++ prefixed (largest p.2) ++ rest)) as H2 by (apply Forall_app; auto).
  assert (Forall is_byte (varint_bytes (file_size p.2) ++ prefixed (smallest p.2) ++ prefixed (largest p.2) ++ rest)) as H3
    by (apply Forall_app; auto).
  assert (Forall is_byte (varint_bytes (fnumber p.2) ++ varint_bytes (file_size p.2) ++ prefixed (smallest p.2) ++
    prefixed (largest p.2) ++ rest)) as H4 by (apply Forall_app; auto).
  rewrite GetLevel_bytes by done. cbn [mbind option_bind]. rewrite GetVarint64_bytes by done. cbn [mbind option_bind].
  rewrite GetVarint64_bytes by done. cbn [mbind option_bind]. unfold GetInternalKey. rewrite prefixed_read by done.
  cbn [mbind option_bind]. rewrite prefixed_read by done. cbn [mbind option_bind]. unfold AddFile. do 4 f_equal.
  destruct p as [l [a b c d s g]]. cbn in *. by subst.
Qed.

(** What the setters add up to. *)
Definition set_lists (cp : list (Z * Slice)) (del : list (Z * Z)) (nf : list (Z * FileMetaData)) (e : VersionEdit) : VersionEdit :=
  mk_edit (comparator_ e) (log_number_ e) (prev_log_number_ e) (next_file_number_ e) (last_sequence_ e)
    (has_comparator_ e) (has_log_number_ e) (has_prev_log_number_ e) (has_next_file_number_ e) (has_last_sequence_ e)
    cp del nf.

Lemma fold_pointers l e :
  fold_left (fun e p => SetCompactPointer p.1 p.2 e) l e = set_lists (compact_pointers_ e ++ l) (deleted_files_ e) (new_files_ e) e.
Proof.
  revert e. induction l as [|[lv k] l IH]; intros e; [rewrite app_nil_r; by destruct e|].
  cbn [fold_left]. rewrite IH. cbn. by rewrite <- app_assoc.
Qed.

Lemma fold_deleted l e : sorted_pairs (deleted_files_ e ++ l) ->
  fold_left (fun e p => VersionEdit_DeleteFile p.1 p.2 e) l e =
  set_lists (compact_pointers_ e) (deleted_files_ e ++ l) (new_files_ e) e.
Proof.
  revert e. induction l as [|[lv k] l IH]; intros e Hs; [rewrite app_nil_r; by destruct e|].
  cbn [fold_left]. assert (set_insert (lv, k) (deleted_files_ e) = deleted_files_ e ++ [(lv, k)]) as E.
  { apply set_insert_last. apply Forall_forall. intros y Hy.
    apply (StronglySorted_app_1_elem_of _ _ _ y (lv, k) Hs Hy). by left. }
  rewrite IH; cbn [VersionEdit_DeleteFile deleted_files_ fst snd]; rewrite E, <- app_assoc; [done|by cbn].
Qed.

Lemma fold_files l e :
  fold_left (fun e p => add_new_file p.1 p.2 e) l e = set_lists (compact_pointers_ e) (deleted_files_ e) (new_files_ e ++ l) e.
Proof.
  revert e. induction l as [|[lv k] l IH]; intros e; [rewrite app_nil_r; by destruct e|].
  cbn [fold_left]. rewrite IH. cbn. by rewrite <- app_assoc.
Qed.

Lemma edit_reads e old : edit_typed e -> edit_canonical e ->
  reads (edit_bytes e) (Clear old) [] (set_lists (compact_pointers_ old ++ compact_pointers_ e) (deleted_files_ e) (new_files_ e) e).
Proof.
  intros [Hc Hl Hp Hn Hs Hcp Hd Hss Hf] Hcan. unfold edit_bytes.
  assert (Forall is_byte (concat (file_bytes <$> new_files_ e) ++ [])) as B8.
  { rewrite app_nil_r. apply concat_bytes. eapply Forall_impl; [exact Hf|]. apply file_is_bytes. }
  assert (Forall is_byte (concat (deleted_bytes <$> deleted_files_ e) ++ concat (file_bytes <$> new_files_ e) ++ [])) as B7.
  { apply Forall_app. split; [|done]. apply concat_bytes. eapply Forall_impl; [exact Hd|]. intros p [H1 H2].
    unfold deleted_bytes. repeat (apply Forall_app; split; auto). by apply varint_is_bytes. }
  assert (forall p, pointer_typed p -> Forall is_byte (pointer_bytes p)) as Bp.
  { intros p [H1 H2]. unfold pointer_bytes. repeat (apply Forall_app; split; auto). by apply varint_is_bytes. }
  assert (forall p, deleted_typed p -> Forall is_byte (deleted_bytes p)) as Bd.
  { intros p [H1 H2]. unfold deleted_bytes. repeat (apply Forall_app; split; auto). by apply varint_is_bytes. }
  match goal with |- reads ?b _ _ _ => rewrite <- (app_nil_r b) end. rewrite <- !app_assoc.
  assert (forall has tag v rest, 0 <= tag < 2 ^ 32 -> u64_range v -> Forall is_byte rest ->
    Forall is_byte (number_bytes has tag v ++ rest)) as Bn.
  { intros has tag v rest H1 H2 H3. apply Forall_app. split; [by apply number_is_bytes|done]. }
  assert (Forall is_byte (concat (pointer_bytes <$> compact_pointers_ e) ++ concat (deleted_bytes <$> deleted_files_ e) ++
    concat (file_bytes <$> new_files_ e) ++ [])) as B6.
  { apply Forall_app. split; [|done]. apply concat_bytes. eapply Forall_impl; [exact Hcp|]. apply Bp. }
  set (e1 := if has_comparator_ e then SetComparatorName (comparator_ e) (Clear old) else Clear old).
  set (e2 := if has_log_number_ e then SetLogNumber (log_number_ e) e1 else e1).
  set (e3 := if has_prev_log_number_ e then SetPrevLogNumber (prev_log_number_ e) e2 else e2).
  set (e4 := if has_next_file_number_ e then SetNextFile (next_file_number_ e) e3 else e3).
  set (e5 := if has_last_sequence_ e then SetLastSequence (last_sequence_ e) e4 else e4).
  apply (reads_trans _ _ (number_bytes (has_log_number_ e) kLogNumber (log_number_ e) ++
    number_bytes (has_prev_log_number_ e) kPrevLogNumber (prev_log_number_ e) ++
    number_bytes (has_next_file_number_ e) kNextFileNumber (next_file_number_ e) ++
    number_bytes (has_last_sequence_ e) kLastSequence (last_sequence_ e) ++
    concat (pointer_bytes <$> compact_pointers_ e) ++ concat (deleted_bytes <$> deleted_files_ e) ++
    concat (file_bytes <$> new_files_ e) ++ []) e1).
  { unfold e1. destruct (has_comparator_ e); [|apply reads_refl]. rewrite <- app_assoc.
    apply reads_field; [done|auto|repeat apply Bn; done|]. change (decode_field kComparator ?i ?x) with (match GetLengthPrefixedSlice i with
      | Some (str, input) => inl (input, SetComparatorName str x) | None => inr "comparator name"%string end).
    rewrite prefixed_read; [done|done|]. repeat apply Bn; done. }
  eapply reads_trans; [apply (reads_number _ _ _ SetLogNumber); [done|done|repeat apply Bn; done|done]|]. fold e2.
  eapply reads_trans; [apply (reads_number _ _ _ SetPrevLogNumber); [done|done|repeat apply Bn; done|done]|]. fold e3.
  eapply reads_trans; [apply (reads_number _ _ _ SetNextFile); [done|done|repeat apply Bn; done|done]|]. fold e4.
  eapply reads_trans; [apply (reads_number _ _ _ SetLastSequence); [done|done|done|done]|]. fold e5.
  eapply reads_trans; [apply (reads_list pointer_bytes (fun e p => SetCompactPointer p.1 p.2 e)); [|done]|].
  { eapply Forall_impl; [exact Hcp|]. intros p Hpt. split; [by apply Bp|]. intros. by apply reads_pointer. }
  eapply reads_trans; [apply (reads_list deleted_bytes (fun e p => VersionEdit_DeleteFile p.1 p.2 e)); [|done]|].
  { eapply Forall_impl; [exact Hd|]. intros p Hpt. split; [by apply Bd|]. intros. by apply reads_deleted. }
  assert (deleted_files_ e5 = [] /\ new_files_ e5 = [] /\ compact_pointers_ e5 = compact_pointers_ old) as (Ed & En & Ec).
  { unfold e5, e4, e3, e2, e1. by destruct (has_comparator_ e), (has_log_number_ e), (has_prev_log_number_ e),
      (has_next_file_number_ e), (has_last_sequence_ e). }
  rewrite fold_pointers, fold_deleted by (cbn [set_lists deleted_files_]; by rewrite Ed).
  replace (set_lists (compact_pointers_ old ++ _) _ _ e) with
    (fold_left (fun e p => add_new_file p.1 p.2 e) (new_files_ e)
      (set_lists (compact_pointers_ e5 ++ compact_pointers_ e) (deleted_files_ e5 ++ deleted_files_ e) (new_files_ e5) e5)).
  { apply (reads_list file_bytes (fun e p => add_new_file p.1 p.2 e)); [|done].
    eapply Forall_impl; [exact Hf|]. intros p Hpt. split; [by apply file_is_bytes|]. intros. by apply reads_file. }
  rewrite fold_files. cbn [set_lists compact_pointers_ deleted_files_ new_files_]. rewrite Ed, En, Ec.
  destruct Hcan as [C1 C2 C3 C4 C5]. unfold e5, e4, e3, e2, e1.
  destruct e as [c l p n q [] [] [] [] [] cp d nf]; cbn in *;
    rewrite ?(C1 eq_refl), ?(C2 eq_refl), ?(C3 eq_refl), ?(C4 eq_refl), ?(C5 eq_refl); done.
Qed.

(** C30: A version edit is read back: the bytes it is written as are read with status OK
    as the same edit.  The compaction pointers that the reading edit had before are
    still there, in front of the ones read: [Clear] does not remove them. *)
Theorem version_edit_roundtrip e old :
  edit_typed e -> edit_writable e -> edit_canonical e ->
  exists bytes, EncodeTo e [] = Some bytes /\
    DecodeFrom bytes old = Ok Status_OK (set_lists (compact_pointers_ old ++ compact_pointers_ e) (deleted_files_ e) (new_files_ e) e).
Proof.
  intros Ht Hw Hc. exists (edit_bytes e). split; [by rewrite EncodeTo_eq|].
  unfold DecodeFrom. rewrite bind_modify.
  destruct (edit_reads e old Ht Hc (S (length (edit_bytes e))) ltac:(lia)) as (n & Hn & E).
  destruct n as [|n]; [cbn in Hn; lia|]. unfold bind at 1. by rewrite E.
Qed.

(** ** Instances *)

(** Comparator, log number and last sequence, a pointer, two deleted files, a new one. *)
Definition sample_edit : VersionEdit :=
  AddFile 1 300 4096 [97; 1; 1; 0; 0; 0; 0; 0; 0] [98; 1; 1; 0; 0; 0; 0; 0; 0]
    (VersionEdit_DeleteFile 2 7 (VersionEdit_DeleteFile 2 (2 ^ 63)
      (SetCompactPointer 3 [97; 1; 5; 0; 0; 0; 0; 0; 0]
        (SetLastSequence 1000 (SetLogNumber 9 (SetComparatorName [99; 109; 112] new_VersionEdit)))))).

Lemma sample_edit_typed : edit_typed sample_edit.
Proof.
  unfold sample_edit. constructor; cbn [comparator_ log_number_ prev_log_number_ next_file_number_ last_sequence_
    compact_pointers_ deleted_files_ new_files_ AddFile add_new_file VersionEdit_DeleteFile SetCompactPointer
    SetLastSequence SetLogNumber SetComparatorName new_VersionEdit Clear set_insert pair_lt fst snd].
  all: try (by repeat constructor).
  all: try (split; cbn; lia).
Qed.

Lemma version_edit_roundtrip_witness :
  exists bytes, EncodeTo sample_edit [] = Some bytes /\
    DecodeFrom bytes new_VersionEdit = Ok Status_OK (set_lists [(3, [97; 1; 5; 0; 0; 0; 0; 0; 0])]
      [(2, 7); (2, 2 ^ 63)] (new_files_ sample_edit) sample_edit).
Proof.
  apply (version_edit_roundtrip sample_edit new_VersionEdit).
  - apply sample_edit_typed.
  - by repeat constructor.
  - by constructor.
Defined.

(** The pointers of an edit that is used again: reading the same bytes twice leaves
    the pointer twice. *)
Example pointers_stay :
  match EncodeTo sample_edit [] with
  | Some bytes => match (DecodeFrom bytes ;;; DecodeFrom bytes) new_VersionEdit with
                  | Ok _ e => length (compact_pointers_ e) = 2%nat
                  | _ => False
                  end
  | None => False
  end.
Proof. vm_compute. reflexivity. Qed.

(** Levels that do not exist are refused. *)
Example level_refused : match DecodeFrom [6; 7; 1] new_VersionEdit with Ok st _ => ok st = false | _ => False end.
Proof. vm_compute. reflexivity. Qed.
