(* ===== verification/LevelFiles.v ===== *)
(** * The files of a level (version_set.h, version_set.cc)

    What the set of versions asks of the vector of files of one level: the search
    by key, overlaps with a range of keys, the iterator over the files.  A file is a
    pointer and the record it points to. *)

From Stdlib Require Import ZArith Lia.
From stdpp Require Import base option list strings gmap.
From S2P Require Import Prelude Memory Slice Coding DbFormat Status Iterator VersionEdit.

Definition FilePtr : Type := nat * FileMetaData.

Definition meta (f : FilePtr) : FileMetaData := f.2.

Definition kTargetFileSize : Z := 2 * 1048576.
Definition kMaxGrandParentOverlapBytes : Z := 10 * kTargetFileSize.
Definition kExpandedCompactionByteSizeLimit : Z := 25 * kTargetFileSize.
Definition MaxFileSizeForLevel (level : Z) : Z := kTargetFileSize.

Definition TotalFileSize (files : list FilePtr) : Z :=
  fold_left (fun sum f => s64 (sum + file_size (meta f))) files 0.

(** [InternalKey::user_key] *)
Definition InternalKey_user_key (rep : Slice) : option Slice := ExtractUserKey rep.

Section files.
Context (user_comparator : Comparator).

Abbreviation icmp := (InternalKeyComparator user_comparator).

(** [icmp.Compare(a, b)] on two [InternalKey]s. *)
Definition compare_keys (a b : Slice) : option Z :=
  a ← InternalKey_Encode a; b ← InternalKey_Encode b; @Compare icmp a b.

(** ** Searching *)

(** One round of the loop, on [left] and [right], which are [uint32_t]. *)
Definition find_file_round {S} (files : list FilePtr) (key : Slice) (bounds : Z * Z) : M S (Z * Z + Z) :=
  let '(l, r) := bounds in
  if l <? r then
    let mid := u32 (l + r) / 2 in
    let! f := or_ub (files !! Z.to_nat mid) in
    let! k := or_ub (InternalKey_Encode (largest (meta f))) in
    let! c := or_ub (@Compare icmp k key) in
    ret (if c <? 0 then inl (u32 (mid + 1), r) else inl (l, mid))
  else ret (inr (s32 r)).

Definition FindFile {S} (files : list FilePtr) (key : Slice) : M S Z :=
  loop (Datatypes.S (length files)) (find_file_round files key) (0, u32 (Z.of_nat (length files))).

(** ** Overlaps *)

(** No key is the null pointer. *)
Definition AfterFile (user_key : option Slice) (f : FilePtr) : option bool :=
  match user_key with
  | None => Some false
  | Some k =>
      l ← InternalKey_user_key (largest (meta f)); c ← @Compare user_comparator k l; Some (0 <? c)
  end.

Definition BeforeFile (user_key : option Slice) (f : FilePtr) : option bool :=
  match user_key with
  | None => Some false
  | Some k =>
      l ← InternalKey_user_key (smallest (meta f)); c ← @Compare user_comparator k l; Some (c <? 0)
  end.

(** [AfterFile(..) || BeforeFile(..)] *)
Definition outside_file (smallest_user_key largest_user_key : option Slice) (f : FilePtr) : option bool :=
  a ← AfterFile smallest_user_key f;
  if a : bool then Some true else BeforeFile largest_user_key f.

Fixpoint some_file_overlaps (files : list FilePtr) (smallest_user_key largest_user_key : option Slice) : option bool :=
  match files with
  | [] => Some false
  | f :: files =>
      b ← outside_file smallest_user_key largest_user_key f;
      if b : bool then some_file_overlaps files smallest_user_key largest_user_key else Some true
  end.

Definition SomeFileOverlapsRange {S} (disjoint_sorted_files : bool) (files : list FilePtr)
    (smallest_user_key largest_user_key : option Slice) : M S bool :=
  if negb disjoint_sorted_files then
    or_ub (some_file_overlaps files smallest_user_key largest_user_key)
  else
    let! index :=
      match smallest_user_key with
      | Some k =>
          let! small := or_ub (InternalKey k kMaxSequenceNumber kValueTypeForSeek) in
          let! small := or_ub (InternalKey_Encode small) in
          let! i := FindFile files small in ret (u32 i)
      | None => ret 0
      end in
    match files !! Z.to_nat index with
    | None => ret false
    | Some f => let! b := or_ub (BeforeFile largest_user_key f) in ret (negb b)
    end.

(** [GetOverlappingInputs]: one round of the loop, on [i], [*inputs] and the two
    ends of the range.  An end that is not there stays so. *)
Record Overlapping := mk_overlapping {
  o_index : nat;
  o_inputs : list FilePtr;
  o_begin : option Slice;
  o_end : option Slice
}.

Definition is_before (k : Slice) (bound : option Slice) : option bool :=
  match bound with None => Some false | Some b => c ← @Compare user_comparator k b; Some (c <? 0) end.
Definition is_after (k : Slice) (bound : option Slice) : option bool :=
  match bound with None => Some false | Some b => c ← @Compare user_comparator k b; Some (0 <? c) end.

Definition overlapping_round {S} (level : Z) (files : list FilePtr) (st : Overlapping)
    : M S (Overlapping + list FilePtr) :=
  match files !! o_index st with
  | None => ret (inr (o_inputs st))
  | Some f =>
      let i := Datatypes.S (o_index st) in
      let '(mk_overlapping _ inputs b e) := st in
      let! file_start := or_ub (InternalKey_user_key (smallest (meta f))) in
      let! file_limit := or_ub (InternalKey_user_key (largest (meta f))) in
      let! before_range := or_ub (is_before file_limit b) in
      if before_range : bool then ret (inl (mk_overlapping i inputs b e)) else
      let! after_range := or_ub (is_after file_start e) in
      if after_range : bool then ret (inl (mk_overlapping i inputs b e)) else
      let inputs := inputs ++ [f] in
      if level =? 0 then
        let! wider := or_ub (is_before file_start b) in
        if wider : bool then ret (inl (mk_overlapping 0 [] (Some file_start) e)) else
        let! wider := or_ub (is_after file_limit e) in
        if wider : bool then ret (inl (mk_overlapping 0 [] b (Some file_limit))) else
        ret (inl (mk_overlapping i inputs b e))
      else ret (inl (mk_overlapping i inputs b e))
  end.

Definition overlapping_fuel (files : list FilePtr) : nat :=
  ((2 * length files + 1) * (length files + 1) + 1)%nat.

(** [user_begin] is read only if [begin] is not null. *)
Definition user_bound {S} (k : option Slice) : M S (option Slice) :=
  match k with
  | None => ret None
  | Some k => let! u := or_ub (InternalKey_user_key k) in ret (Some u)
  end.

Definition GetOverlappingInputs {S} (level : Z) (files : list FilePtr) (begin end_ : option Slice)
    : M S (list FilePtr) :=
  assert_ (0 <=? level) ;;;
  assert_ (level <? kNumLevels) ;;;
  let! user_begin := user_bound begin in
  let! user_end := user_bound end_ in
  loop (overlapping_fuel files) (overlapping_round level files) (mk_overlapping 0 [] user_begin user_end).

(** ** The iterator over the files *)

Record LevelFileNumIterator := mk_level_iter { flist_ : list FilePtr; index_ : Z }.

Definition new_LevelFileNumIterator (flist : list FilePtr) : LevelFileNumIterator :=
  mk_level_iter flist (u32 (Z.of_nat (length flist))).

Definition set_index (i : Z) : M LevelFileNumIterator unit :=
  modify (fun s => mk_level_iter (flist_ s) i).

Definition level_Valid (s : LevelFileNumIterator) : bool := index_ s <? Z.of_nat (length (flist_ s)).

Definition level_Seek (target : Slice) : M LevelFileNumIterator unit :=
  let! s := gets id in let! i := FindFile (flist_ s) target in set_index (u32 i).

Definition level_SeekToLast : M LevelFileNumIterator unit :=
  let! s := gets id in
  set_index (if (length (flist_ s) =? 0)%nat then 0 else u32 (Z.of_nat (length (flist_ s)) - 1)).

Definition level_Next : M LevelFileNumIterator unit :=
  let! s := gets id in assert_ (level_Valid s) ;;; set_index (u32 (index_ s + 1)).

Definition level_Prev : M LevelFileNumIterator unit :=
  let! s := gets id in
  assert_ (level_Valid s) ;;;
  set_index (if index_ s =? 0 then u32 (Z.of_nat (length (flist_ s))) else u32 (index_ s - 1)).

(** The file the iterator is at. *)
Definition current_file : M LevelFileNumIterator FilePtr :=
  let! s := gets id in assert_ (level_Valid s) ;;; or_ub (flist_ s !! Z.to_nat (index_ s)).

Definition level_key : M LevelFileNumIterator Slice :=
  let! f := current_file in or_ub (InternalKey_Encode (largest (meta f))).

(** The number and the size, in [value_buf_]. *)
Definition file_value (f : FilePtr) : Slice :=
  EncodeFixed64 (fnumber (meta f)) ++ EncodeFixed64 (file_size (meta f)).
Definition level_value : M LevelFileNumIterator Slice :=
  let! f := current_file in ret (file_value f).

Definition LevelFile_Iterator : Iterator LevelFileNumIterator := {|
  it_Valid := level_Valid;
  it_SeekToFirst := set_index 0;
  it_SeekToLast := level_SeekToLast;
  it_Seek := level_Seek;
  it_Next := level_Next;
  it_Prev := level_Prev;
  it_key := level_key;
  it_value := level_value;
  it_status _ := Some Status_OK
|}.

End files.
