(* ===== verification/LevelFilesProof.v ===== *)
(** * Searching the files of a level

    Finding a file, the iterator over the files, and what overlaps with a range of
    keys. *)

From Stdlib Require Import ZArith Lia.
From stdpp Require Import base option list strings gmap.
From S2P Require Import Prelude Memory Slice Coding DbFormat Status Iterator TwoLevelProof MergeLists VersionEdit LevelFiles.

(** ** The order of keys *)

Section order.
Context (C : Comparator) {L : ComparatorLaws C}.

(** The results of a comparison as tests. *)
Lemma compare_tests a b : valid a -> valid b ->
  exists r, @Compare C a b = Some r /\ (r <? 0) = before C a b /\ (0 <? r) = before C b a.
Proof.
  intros Ha Hb. destruct (compare_total a b Ha Hb) as [r Hr]. destruct (compare_total b a Hb Ha) as [r' Hr'].
  pose proof (compare_antisym a b r r' Ha Hb Hr Hr'). exists r. unfold before. rewrite Hr, Hr'.
  split; [done|]. split; [done|]. destruct (Z.ltb_spec 0 r), (Z.ltb_spec r' 0); done || lia.
Qed.

Lemma not_before_trans a b c : valid a -> valid b -> valid c ->
  before C b a = false -> before C c b = false -> before C c a = false.
Proof.
  intros Ha Hb Hc. destruct (compare_tests a b Ha Hb) as (r1 & E1 & _ & <-).
  destruct (compare_tests b c Hb Hc) as (r2 & E2 & _ & <-). intros H1%Z.ltb_ge H2%Z.ltb_ge.
  destruct (compare_trans a b c r1 r2 Ha Hb Hc E1 E2 H1 H2) as (r & E & Hr & _).
  destruct (compare_tests a c Ha Hc) as (r' & E' & _ & <-). apply Z.ltb_ge. congruence.
Qed.

Lemma before_then_not a b c : valid a -> valid b -> valid c ->
  before C a b = true -> before C c b = false -> before C a c = true.
Proof.
  intros Ha Hb Hc Hab Hbc. destruct (before C a c) eqn:E; [done|].
  by rewrite (not_before_trans b c a) in Hab.
Qed.

Lemma not_then_before a b c : valid a -> valid b -> valid c ->
  before C b a = false -> before C b c = true -> before C a c = true.
Proof.
  intros Ha Hb Hc Hab Hbc. destruct (before C a c) eqn:E; [done|].
  by rewrite (not_before_trans c a b) in Hbc.
Qed.

End order.

(** ** Keys of files *)

(** The user key of an internal key. *)
Definition ukey (rep : Slice) : Slice := take (length rep - 8) rep.

Lemma ukey_internal u n : ukey (internal u n) = u.
Proof. unfold ukey. rewrite internal_length. unfold internal. by rewrite take_app_length' by lia. Qed.

Section files.
Context (C : Comparator) {L : ComparatorLaws C}.

Abbreviation icmp := (InternalKeyComparator C).
Abbreviation ilaws := (InternalKeyComparator_laws C).

(** A key of an entry: the types are those of entries, so that a key for seeking
    sorts before all entries of its user key. *)
Definition file_key (k : Slice) : Prop :=
  exists u s t, k = internal u (256 * s + t) /\ valid u /\ 0 <= s <= kMaxSequenceNumber /\ 0 <= t <= kTypeValue.

Lemma file_key_valid k : file_key k -> @valid icmp ilaws k.
Proof.
  intros (u & s & t & -> & Hu & Hs & Ht). exists u, (256 * s + t). split; [done|]. split; [done|].
  unfold kMaxSequenceNumber, kTypeValue in *. lia.
Qed.

Lemma file_key_user k : file_key k -> valid (ukey k) /\ InternalKey_user_key k = Some (ukey k).
Proof.
  intros (u & s & t & -> & Hu & _). unfold InternalKey_user_key. by rewrite ukey_internal, ExtractUserKey_internal.
Qed.

Lemma file_key_encode k : file_key k -> InternalKey_Encode k = Some k.
Proof.
  intros (u & s & t & -> & _). destruct (internal u (256 * s + t)) eqn:E; [|done].
  pose proof (internal_length u (256 * s + t)) as H. rewrite E in H. cbn in H. lia.
Qed.

(** The order of internal keys in terms of user keys and numbers. *)
Lemma before_internal u m v n : valid u -> valid v -> 0 <= m < 2 ^ 64 -> 0 <= n < 2 ^ 64 ->
  before icmp (internal u m) (internal v n) = before C u v || (negb (before C v u) && (n <? m)).
Proof.
  intros Hu Hv Hm Hn. destruct (compare_tests C u v Hu Hv) as (r & E & <- & <-). unfold before.
  change (@Compare icmp) with (InternalCompare C). rewrite InternalCompare_eq, E by done. cbn [mbind option_bind].
  destruct (Z.eqb_spec r 0) as [->|Hr].
  - cbn. unfold compare_number. destruct (Z.ltb_spec n m); [done|]. by destruct (m <? n).
  - destruct (Z.ltb_spec r 0), (Z.ltb_spec 0 r); try done; lia.
Qed.

(** Smaller internal keys have user keys that are not larger. *)
Lemma before_user k k' : file_key k -> file_key k' -> before icmp k k' = true -> before C (ukey k') (ukey k) = false.
Proof.
  intros (u & s & t & -> & Hu & Hs & Ht) (v & s' & t' & -> & Hv & Hs' & Ht'). rewrite !ukey_internal.
  unfold kMaxSequenceNumber, kTypeValue in *. rewrite before_internal by (done || lia).
  intros [H|H]%orb_true_iff; [by apply (before_asym C)|]. apply andb_true_iff in H as [H _]. by apply negb_true_iff.
Qed.

Lemma not_before_user k k' : file_key k -> file_key k' -> before icmp k' k = false -> before C (ukey k') (ukey k) = false.
Proof.
  intros (u & s & t & -> & Hu & Hs & Ht) (v & s' & t' & -> & Hv & Hs' & Ht'). rewrite !ukey_internal.
  unfold kMaxSequenceNumber, kTypeValue in *. rewrite before_internal by (done || lia).
  by intros [H _]%orb_false_iff.
Qed.

(** A key for seeking comes behind exactly the entries of smaller user keys. *)
Definition seek_for (u : Slice) : Slice := internal u (256 * kMaxSequenceNumber + kValueTypeForSeek).

Lemma before_seek_for k u : file_key k -> valid u -> before icmp k (seek_for u) = before C (ukey k) u.
Proof.
  intros (v & s & t & -> & Hv & Hs & Ht) Hu. unfold seek_for. rewrite ukey_internal.
  unfold kMaxSequenceNumber, kValueTypeForSeek, kTypeValue in *. rewrite before_internal by (done || lia).
  destruct (Z.ltb_spec (256 * (2 ^ 56 - 1) + 1) (256 * s + t)); [lia|]. by rewrite andb_false_r, orb_false_r.
Qed.

Lemma seek_for_key u : valid u -> file_key (seek_for u) /\ InternalKey u kMaxSequenceNumber kValueTypeForSeek = Some (seek_for u).
Proof.
  intros Hu. unfold seek_for. split.
  - exists u, kMaxSequenceNumber, kValueTypeForSeek. done.
  - unfold InternalKey. by rewrite AppendInternalKey_eq.
Qed.

(** The range of a file is not empty. *)
Record file_ok (f : FilePtr) : Prop := mk_file_ok {
  smallest_key : file_key (smallest (meta f));
  largest_key : file_key (largest (meta f));
  file_range : before icmp (largest (meta f)) (smallest (meta f)) = false
}.

(** The files of a level above 0: the range of each is before those of the next. *)
Definition disjoint_files (files : list FilePtr) : Prop :=
  Forall file_ok files /\
  forall i j f g, files !! i = Some f -> files !! j = Some g -> (i < j)%nat ->
    before icmp (largest (meta f)) (smallest (meta g)) = true.

(** What the iterator over the files shows. *)
Definition file_pair (f : FilePtr) : Slice * Slice := (largest (meta f), file_value f).

Lemma largest_sorted files i j f g : disjoint_files files -> files !! i = Some f -> files !! j = Some g ->
  (i < j)%nat -> before icmp (largest (meta f)) (largest (meta g)) = true.
Proof.
  intros [Hok Hd] Hi Hj Hij. pose proof (Forall_lookup_1 _ _ _ _ Hok Hi) as [_ Hf _].
  pose proof (Forall_lookup_1 _ _ _ _ Hok Hj) as [Hs Hg Hr].
  apply (before_then_not icmp (L := ilaws) _ (smallest (meta g)));
    [by apply file_key_valid..|by apply (Hd i j)|done].
Qed.

(** How many files end before the key. *)
Definition files_before (key : Slice) (files : list FilePtr) : nat := keys_before icmp key (file_pair <$> files).

Lemma files_before_le key files : (files_before key files <= length files)%nat.
Proof. unfold files_before. etransitivity; [apply keys_before_le|]. by rewrite length_fmap. Qed.

Lemma files_before_lookup files key i f : disjoint_files files -> @valid icmp ilaws key ->
  files !! i = Some f -> before icmp (largest (meta f)) key = (i <? files_before key files)%nat.
Proof.
  intros Hd Hk Hi.
  apply (filter_length_prefix (fun kv => before icmp kv.1 key) (file_pair <$> files)) with (x := file_pair f);
    [|by rewrite list_lookup_fmap, Hi].
  intros a b x y Ha Hb Hab. apply list_lookup_fmap_Some in Ha as (fa & -> & Ha). apply list_lookup_fmap_Some in Hb as (fb & -> & Hb).
  cbn [file_pair fst]. pose proof (Forall_lookup_1 _ _ _ _ (proj1 Hd) Ha) as [_ Hfa _].
  pose proof (Forall_lookup_1 _ _ _ _ (proj1 Hd) Hb) as [_ Hfb _].
  apply (key_before_trans icmp (L := ilaws)); [by apply file_key_valid..|done|by eapply largest_sorted].
Qed.

(** ** Searching *)

(** The number of files fits in an [int]. *)
Definition few_files (files : list FilePtr) : Prop := Z.of_nat (length files) < 2 ^ 31.

Lemma find_file_loop_ok {S} (files : list FilePtr) key (s : S) fuel l r :
  disjoint_files files -> few_files files -> @valid icmp ilaws key ->
  0 <= l <= Z.of_nat (files_before key files) -> Z.of_nat (files_before key files) <= r <= Z.of_nat (length files) ->
  (Z.to_nat (r - l) < fuel)%nat ->
  loop fuel (find_file_round C files key) (l, r) s = Ok (Z.of_nat (files_before key files)) s.
Proof.
  unfold few_files. intros Hd Hfew Hk. revert l r.
  induction fuel as [|fuel IH]; intros l r Hl Hr Hfuel; [lia|]. rewrite loop_S. unfold find_file_round at 1.
  destruct (Z.ltb_spec l r) as [Hlt|Hge].
  - rewrite uwrap_small by lia. set (mid := (l + r) / 2).
    assert (l <= mid < r) as Hmid by (split; [apply Z.div_le_lower_bound|apply Z.div_lt_upper_bound]; lia).
    destruct (lookup_lt_is_Some_2 files (Z.to_nat mid)) as [f Hf]; [lia|]. rewrite Hf.
    pose proof (Forall_lookup_1 _ _ _ _ (proj1 Hd) Hf) as [_ Hlk _].
    rewrite bind_assoc, (bind_or_ub _ f) by done. rewrite bind_assoc, file_key_encode, (bind_or_ub _ (largest (meta f))) by done.
    destruct (compare_tests icmp (L := ilaws) (largest (meta f)) key) as (c & -> & Hc & _); [by apply file_key_valid|done|].
    rewrite bind_assoc, (bind_or_ub _ c), bind_ret, Hc, (files_before_lookup files key _ f) by done.
    destruct (Nat.ltb_spec (Z.to_nat mid) (files_before key files)).
    + rewrite uwrap_small by lia. apply IH; lia.
    + apply IH; lia.
  - rewrite bind_ret. rewrite swrap_small by lia. unfold ret. f_equal. lia.
Qed.

Lemma FindFile_ok {S} (files : list FilePtr) key (s : S) :
  disjoint_files files -> few_files files -> @valid icmp ilaws key ->
  FindFile C files key s = Ok (Z.of_nat (files_before key files)) s.
Proof.
  intros Hd Hfew Hk. pose proof (files_before_le key files). unfold FindFile, few_files in *.
  rewrite uwrap_small by lia. apply find_file_loop_ok; try done; lia.
Qed.

(** ** The iterator over the files is a cursor *)

(** Behind the last file, the index is the number of files. *)
Definition level_pos (files : list FilePtr) (i : nat) (s : LevelFileNumIterator) : Prop :=
  s = mk_level_iter files (Z.of_nat i) /\ (i <= length files)%nat.

Lemma current_file_ok files i f :
  files !! i = Some f -> current_file (mk_level_iter files (Z.of_nat i)) = Ok f (mk_level_iter files (Z.of_nat i)).
Proof.
  intros Hi. pose proof (lookup_lt_Some _ _ _ Hi). unfold current_file, level_Valid. rewrite bind_gets. unfold id.
  cbn [index_ flist_]. rewrite bind_assert by (apply Z.ltb_lt; lia). by rewrite Nat2Z.id, Hi.
Qed.

Lemma level_cursor files : disjoint_files files -> few_files files ->
  cursor_over (LevelFile_Iterator C) icmp (@valid icmp ilaws) (file_pair <$> files) (level_pos files).
Proof.
  intros Hd Hfew. unfold few_files in Hfew.
  split; rewrite ?length_fmap;
    cbn [it_Valid it_key it_value it_status it_SeekToFirst it_SeekToLast it_Seek it_Next it_Prev LevelFile_Iterator].
  - intros i s k v [-> Hi] (f & [= -> ->] & Hf)%list_lookup_fmap_Some. pose proof (lookup_lt_Some _ _ _ Hf).
    split; [by apply Z.ltb_lt; cbn; lia|]. pose proof (Forall_lookup_1 _ _ _ _ (proj1 Hd) Hf) as [_ Hk _].
    unfold level_key, level_value. rewrite !(bind_ok _ _ _ _ _ (current_file_ok files i f Hf)), file_key_encode by done. done.
  - intros i s [-> Hi] Hlen. apply Z.ltb_ge. cbn. lia.
  - done.
  - intros i s [-> Hi]. eexists. split; [done|]. split; [done|lia].
  - intros i s [-> Hi]. unfold level_SeekToLast. rewrite bind_gets. unfold id. cbn [flist_]. eexists. split; [done|].
    split; [|lia]. f_equal. destruct (Nat.eqb_spec (length files) 0) as [->|]; [done|]. rewrite uwrap_small by lia. lia.
  - intros i s target [-> Hi] Ht. unfold level_Seek. rewrite bind_gets. unfold id. cbn [flist_].
    rewrite (bind_ok _ _ _ _ _ (FindFile_ok files target _ Hd Hfew Ht)). pose proof (files_before_le target files).
    eexists. split; [done|]. split; [|done]. cbn [flist_]. f_equal. rewrite uwrap_small by lia. done.
  - intros i s [-> Hi] Hlt. unfold level_Next, level_Valid. rewrite bind_gets. unfold id. cbn [index_ flist_].
    rewrite bind_assert by (apply Z.ltb_lt; lia). eexists. split; [done|]. split; [|lia]. cbn [flist_]. f_equal.
    rewrite uwrap_small by lia. lia.
  - intros i s [-> Hi] Hlt. unfold level_Prev, level_Valid. rewrite bind_gets. unfold id. cbn [index_ flist_].
    rewrite bind_assert by (apply Z.ltb_lt; lia). eexists. split; [done|]. split; [|destruct i; lia]. cbn [flist_]. f_equal.
    destruct i as [|i].
    + cbn. rewrite uwrap_small by lia. done.
    + destruct (Z.eqb_spec (Z.of_nat (S i)) 0); [lia|]. rewrite uwrap_small by lia. lia.
Qed.

(** ** Overlaps *)

(** The key is before the lower end of a range, or after its upper end; an end that
    is not there is infinitely far. *)
Definition below (k : Slice) (lo : option Slice) : bool := match lo with Some x => before C k x | None => false end.
Definition above (k : Slice) (hi : option Slice) : bool := match hi with Some x => before C x k | None => false end.

Definition overlaps (lo hi : option Slice) (f : FilePtr) : bool :=
  negb (below (ukey (largest (meta f))) lo) && negb (above (ukey (smallest (meta f))) hi).

Definition bound_ok (b : option Slice) : Prop := match b with Some k => valid k | None => True end.

Lemma is_before_ok k b : valid k -> bound_ok b -> is_before C k b = Some (below k b).
Proof.
  intros Hk Hb. destruct b as [b|]; [|done]. cbn. destruct (compare_tests C k b Hk Hb) as (r & -> & Hr & _).
  cbn. by rewrite Hr.
Qed.

Lemma is_after_ok k b : valid k -> bound_ok b -> is_after C k b = Some (above k b).
Proof.
  intros Hk Hb. destruct b as [b|]; [|done]. cbn. destruct (compare_tests C k b Hk Hb) as (r & -> & _ & Hr).
  cbn. by rewrite Hr.
Qed.

Lemma AfterFile_ok lo f : file_ok f -> bound_ok lo -> AfterFile C lo f = Some (below (ukey (largest (meta f))) lo).
Proof.
  intros [_ Hl _] Hb. destruct lo as [k|]; [|done]. cbn. destruct (file_key_user _ Hl) as [Hv ->]. cbn [mbind option_bind].
  by destruct (compare_tests C k _ Hb Hv) as (r & -> & _ & <-).
Qed.

Lemma BeforeFile_ok hi f : file_ok f -> bound_ok hi -> BeforeFile C hi f = Some (above (ukey (smallest (meta f))) hi).
Proof.
  intros [Hs _ _] Hb. destruct hi as [k|]; [|done]. cbn. destruct (file_key_user _ Hs) as [Hv ->]. cbn [mbind option_bind].
  by destruct (compare_tests C k _ Hb Hv) as (r & -> & <- & _).
Qed.

Lemma some_file_overlaps_ok files lo hi : Forall file_ok files -> bound_ok lo -> bound_ok hi ->
  some_file_overlaps C files lo hi = Some (existsb (overlaps lo hi) files).
Proof.
  intros Hok Hlo Hhi. induction Hok as [|f files Hf _ IH]; [done|]. cbn [some_file_overlaps existsb].
  unfold outside_file. rewrite AfterFile_ok by done. cbn [mbind option_bind]. unfold overlaps at 1.
  destruct (below _ lo); [done|]. rewrite BeforeFile_ok by done. cbn [mbind option_bind]. by destruct (above _ hi).
Qed.

(** Among disjoint files the first one that does not end before the range decides. *)
Lemma overlaps_first files lo hi : disjoint_files files -> bound_ok lo -> bound_ok hi ->
  let n := match lo with Some k => files_before (seek_for k) files | None => 0%nat end in
  existsb (overlaps lo hi) files =
  match files !! n with Some f => negb (above (ukey (smallest (meta f))) hi) | None => false end.
Proof.
  intros Hd Hlo Hhi n.
  assert (forall i f, files !! i = Some f -> below (ukey (largest (meta f))) lo = (i <? n)%nat) as Hn.
  { intros i f Hf. pose proof (Forall_lookup_1 _ _ _ _ (proj1 Hd) Hf) as [_ Hl _]. subst n. destruct lo as [k|]; [|done].
    cbn [below]. rewrite <- before_seek_for by done. apply files_before_lookup; [done| |done].
    by apply file_key_valid, seek_for_key. }
  apply eq_true_iff_eq. rewrite existsb_exists. split.
  - intros (g & Hin & [Hb Ha]%andb_true_iff). apply list_elem_of_In, list_elem_of_lookup in Hin as (j & Hj).
    rewrite (Hn j g Hj) in Hb. apply negb_true_iff in Hb. apply Nat.ltb_ge in Hb.
    pose proof (lookup_lt_Some _ _ _ Hj). destruct (lookup_lt_is_Some_2 files n) as [f Hf]; [lia|]. rewrite Hf.
    destruct (decide (n = j)) as [->|]; [by replace f with g by congruence|]. destruct hi as [h|]; [|done].
    cbn [above] in *. apply negb_true_iff in Ha. apply negb_true_iff.
    pose proof (Forall_lookup_1 _ _ _ _ (proj1 Hd) Hf) as [Hs Hl Hr]. pose proof (Forall_lookup_1 _ _ _ _ (proj1 Hd) Hj) as [Hs' _ _].
    apply (not_before_trans C _ (ukey (smallest (meta g)))); [by apply file_key_user..|done| |done].
    apply before_user; [done|done|]. apply (not_then_before icmp (L := ilaws) _ (largest (meta f)));
      [by apply file_key_valid..|done|]. apply (proj2 Hd n j); [done|done|lia].
  - destruct (files !! n) as [f|] eqn:Hf; [|done]. intros Ha. exists f. split; [by eapply list_elem_of_In, list_elem_of_lookup_2|].
    unfold overlaps. by rewrite (Hn n f Hf), Nat.ltb_irrefl, Ha.
Qed.

Lemma SomeFileOverlapsRange_ok {S} sorted files lo hi (s : S) : Forall file_ok files -> bound_ok lo -> bound_ok hi ->
  (sorted = true -> disjoint_files files /\ few_files files) ->
  SomeFileOverlapsRange C sorted files lo hi s = Ok (existsb (overlaps lo hi) files) s.
Proof.
  intros Hok Hlo Hhi Hs. unfold SomeFileOverlapsRange. destruct sorted; cbn [negb].
  - destruct (Hs eq_refl) as [Hd Hfew]. rewrite overlaps_first by done. unfold few_files in Hfew.
    assert (forall n, (n <= length files)%nat ->
      match files !! Z.to_nat (u32 (Z.of_nat n)) with
      | Some f => let! b := or_ub (BeforeFile C hi f) in ret (negb b)
      | None => ret false
      end s = Ok (match files !! n with Some f => negb (above (ukey (smallest (meta f))) hi) | None => false end) s) as Hfirst.
    { intros n Hn. rewrite uwrap_small, Nat2Z.id by lia. destruct (files !! n) as [f|] eqn:Hf; [|done].
      by rewrite BeforeFile_ok by (done || by eapply Forall_lookup_1). }
    destruct lo as [k|]; [|by apply (Hfirst 0%nat); lia].
    destruct (seek_for_key k Hlo) as [Hk E]. rewrite bind_assoc, (bind_or_ub _ _ _ _ E), bind_assoc.
    rewrite file_key_encode, (bind_or_ub _ (seek_for k)) by done.
    rewrite bind_assoc, (bind_ok _ _ _ _ _ (FindFile_ok files _ s Hd Hfew (file_key_valid _ Hk))), bind_ret.
    apply Hfirst, files_before_le.
  - by rewrite some_file_overlaps_ok.
Qed.

(** ** All files that overlap *)

(** A range that contains another: no key outside the first is inside the second. *)
Record wider (lo hi b e : option Slice) : Prop := mk_wider {
  wider_lo k : valid k -> below k lo = true -> below k b = true;
  wider_hi k : valid k -> above k hi = true -> above k e = true
}.

(** A range that no file sticks out of. *)
Definition closed_range (files : list FilePtr) (lo hi : option Slice) : Prop :=
  Forall (fun f => overlaps lo hi f = true ->
    below (ukey (smallest (meta f))) lo = false /\ above (ukey (largest (meta f))) hi = false) files.

Lemma wider_refl lo hi : wider lo hi lo hi.
Proof. by split. Qed.

Lemma wider_overlaps lo hi b e f : file_ok f -> wider lo hi b e -> overlaps b e f = true -> overlaps lo hi f = true.
Proof.
  intros [Hs Hl _] [Wl Wh] [H1 H2]%andb_true_iff. apply negb_true_iff in H1, H2. unfold overlaps.
  destruct (below _ lo) eqn:E1; [rewrite (Wl _ (proj1 (file_key_user _ Hl)) E1) in H1; done|].
  destruct (above _ hi) eqn:E2; [rewrite (Wh _ (proj1 (file_key_user _ Hs)) E2) in H2; done|done].
Qed.

(** A lower end at the start of a file that sticks out. *)
Lemma wider_start lo hi b e x : bound_ok lo -> bound_ok b -> valid x ->
  wider lo hi b e -> below x lo = false -> wider lo hi (Some x) e.
Proof.
  intros Hlo Hb Hx [Wl Wh] Hxl. split; [|done]. intros k Hk Hkl. destruct lo as [y|]; [|done]. cbn in *.
  by apply (before_then_not C k y x).
Qed.

Lemma wider_limit lo hi b e x : bound_ok hi -> bound_ok e -> valid x ->
  wider lo hi b e -> above x hi = false -> wider lo hi b (Some x).
Proof.
  intros Hhi He Hx [Wl Wh] Hxh. split; [done|]. intros k Hk Hkh. destruct hi as [y|]; [|done]. cbn in *.
  by apply (not_then_before C x y k).
Qed.

Lemma widen_start b e x b0 e0 : bound_ok b -> valid x -> below x b = true -> wider b e b0 e0 -> wider (Some x) e b0 e0.
Proof.
  intros Hb Hx Hxb [Wl Wh]. split; [|done]. intros k Hk Hkx. apply Wl; [done|]. destruct b as [y|]; [|done]. cbn in *.
  by apply (key_before_trans C k x y).
Qed.

Lemma widen_limit b e x b0 e0 : bound_ok e -> valid x -> above x e = true -> wider b e b0 e0 -> wider b (Some x) b0 e0.
Proof.
  intros He Hx Hxe [Wl Wh]. split; [done|]. intros k Hk Hkx. apply Wh; [done|]. destruct e as [y|]; [|done]. cbn in *.
  by apply (key_before_trans C y x k).
Qed.

(** The files selected, for a level above 0 and for level 0. *)
Definition selected (files : list FilePtr) (level : Z) (b e : option Slice) (inputs : list FilePtr) (b' e' : option Slice) : Prop :=
  inputs = List.filter (overlaps b' e') files /\
  if level =? 0 then
    wider b' e' b e /\ closed_range files b' e' /\
    forall lo hi, bound_ok lo -> bound_ok hi -> wider lo hi b e -> closed_range files lo hi -> wider lo hi b' e'
  else b' = b /\ e' = e.

(** How far the range can still grow, and how many files are left to be looked at. *)
Definition overlapping_measure (files : list FilePtr) (st : Overlapping) : nat :=
  ((length (List.filter (fun f => below (ukey (smallest (meta f))) (o_begin st)) files) +
    length (List.filter (fun f => above (ukey (largest (meta f))) (o_end st)) files)) * (length files + 1) +
   (length files - o_index st))%nat.

Record overlapping_inv (files : list FilePtr) (level : Z) (b e : option Slice) (st : Overlapping) : Prop := mk_oinv {
  oi_begin : bound_ok (o_begin st);
  oi_end : bound_ok (o_end st);
  oi_index : (o_index st <= length files)%nat;
  oi_inputs : o_inputs st = List.filter (overlaps (o_begin st) (o_end st)) (take (o_index st) files);
  oi_range : if level =? 0 then
    wider (o_begin st) (o_end st) b e /\ closed_range (take (o_index st) files) (o_begin st) (o_end st) /\
    forall lo hi, bound_ok lo -> bound_ok hi -> wider lo hi b e -> closed_range files lo hi ->
      wider lo hi (o_begin st) (o_end st)
  else o_begin st = b /\ o_end st = e
}.

Lemma take_snoc {A} (l : list A) i x : l !! i = Some x -> take (S i) l = take i l ++ [x].
Proof. apply take_S_r. Qed.

Lemma filter_shrinks {A} (g h : A -> bool) l x :
  (forall y, y ∈ l -> g y = true -> h y = true) -> x ∈ l -> h x = true -> g x = false ->
  (length (List.filter g l) < length (List.filter h l))%nat.
Proof.
  induction l as [|y l IH]; intros Hgh Hx Hh Hg; [by apply elem_of_nil in Hx|].
  assert (length (List.filter g l) <= length (List.filter h l))%nat as Hle.
  { clear -Hgh. induction l as [|z l IH]; [done|]. cbn.
    pose proof (Hgh z ltac:(right; left)) as Hz. specialize (IH ltac:(intros w [->|Hw]%elem_of_cons; apply Hgh; [left|right; by right])).
    destruct (g z) eqn:E; [rewrite Hz by done|destruct (h z)]; cbn; lia. }
  apply elem_of_cons in Hx as [->|Hx]; cbn.
  - rewrite Hg, Hh. cbn. lia.
  - assert (length (List.filter g l) < length (List.filter h l))%nat by (apply IH; [intros z Hz; apply Hgh; by right|done..]).
    pose proof (Hgh y ltac:(by left)) as Hy. destruct (g y) eqn:E; [rewrite Hy by done|destruct (h y)]; cbn; lia.
Qed.

(** The round that looks at a file outside the range, or at one that stays inside it. *)
Lemma oinv_step files level b e st f :
  overlapping_inv files level b e st -> files !! o_index st = Some f ->
  (overlaps (o_begin st) (o_end st) f = true -> level = 0 ->
    below (ukey (smallest (meta f))) (o_begin st) = false /\ above (ukey (largest (meta f))) (o_end st) = false) ->
  let inputs := o_inputs st ++ (if overlaps (o_begin st) (o_end st) f then [f] else []) in
  let st' := mk_overlapping (S (o_index st)) inputs (o_begin st) (o_end st) in
  overlapping_inv files level b e st' /\ (overlapping_measure files st' < overlapping_measure files st)%nat.
Proof.
  destruct st as [i inputs b' e']. intros [Hb He Hi Hin Hr] Hf Hcl. cbn [o_index o_inputs o_begin o_end] in *.
  pose proof (lookup_lt_Some _ _ _ Hf) as Hlt. split.
  - constructor; cbn [o_index o_inputs o_begin o_end]; [done|done|lia| |].
    + rewrite (take_snoc _ _ f Hf), List.filter_app, Hin. cbn. by destruct (overlaps b' e' f).
    + destruct (Z.eqb_spec level 0) as [H0|]; [|done]. destruct Hr as (Hw & Hc & Hleast). split; [done|]. split; [|done].
      rewrite (take_snoc _ _ f Hf). apply Forall_app. split; [done|]. constructor; [|done]. intros Ho. by apply Hcl.
  - unfold overlapping_measure. cbn [o_index o_begin o_end]. lia.
Qed.

Lemma below_trans x k b : bound_ok b -> valid x -> valid k -> below x b = true -> below k (Some x) = true -> below k b = true.
Proof. intros Hb Hx Hk. destruct b as [y|]; [|done]. cbn in *. intros H1 H2. by apply (key_before_trans C k x y). Qed.

Lemma above_trans x k e : bound_ok e -> valid x -> valid k -> above x e = true -> above k (Some x) = true -> above k e = true.
Proof. intros He Hx Hk. destruct e as [y|]; [|done]. cbn in *. intros H1 H2. by apply (key_before_trans C y x k). Qed.

(** The rounds that start again with a wider range. *)
Lemma oinv_start files b e st f : Forall file_ok files ->
  overlapping_inv files 0 b e st -> files !! o_index st = Some f ->
  overlaps (o_begin st) (o_end st) f = true -> below (ukey (smallest (meta f))) (o_begin st) = true ->
  let st' := mk_overlapping 0 [] (Some (ukey (smallest (meta f)))) (o_end st) in
  overlapping_inv files 0 b e st' /\ (overlapping_measure files st' < overlapping_measure files st)%nat.
Proof.
  destruct st as [i inputs b' e']. intros Hok [Hb He Hi Hin (Hw & Hc & Hleast)] Hf Ho Hbl. cbn [o_index o_inputs o_begin o_end] in *.
  pose proof (Forall_lookup_1 _ _ _ _ Hok Hf) as Hfok. pose proof Hfok as [Hs Hl _].
  destruct (file_key_user _ Hs) as [Hv _]. split.
  - constructor; cbn [o_index o_inputs o_begin o_end]; [done|done|lia|done|]. cbn.
    split; [by apply (widen_start b')|]. split; [constructor|].
    intros lo hi Hlo Hhi Hwide Hclosed. pose proof (Hleast lo hi Hlo Hhi Hwide Hclosed) as Hw'.
    apply (wider_start lo hi b'); try done. apply (Forall_lookup_1 _ _ _ _ Hclosed Hf). by apply (wider_overlaps lo hi b' e').
  - pose proof (filter_shrinks (fun g => below (ukey (smallest (meta g))) (Some (ukey (smallest (meta f)))))
      (fun g => below (ukey (smallest (meta g))) b') files f) as Hlt.
    unfold overlapping_measure. cbn [o_index o_begin o_end]. enough (H : forall x y z : nat, (x < y)%nat ->
      ((x + z) * (length files + 1) + (length files - 0) < (y + z) * (length files + 1) + (length files - i))%nat);
      [apply H, Hlt; [|by eapply list_elem_of_lookup_2|done|by apply (before_irrefl C)]|nia].
    intros g Hg. pose proof (proj1 (Forall_forall _ _) Hok g Hg) as [Hgs _ _].
    apply below_trans; [done|done|by apply file_key_user|done].
Qed.

Lemma oinv_limit files b e st f : Forall file_ok files ->
  overlapping_inv files 0 b e st -> files !! o_index st = Some f ->
  overlaps (o_begin st) (o_end st) f = true -> above (ukey (largest (meta f))) (o_end st) = true ->
  let st' := mk_overlapping 0 [] (o_begin st) (Some (ukey (largest (meta f)))) in
  overlapping_inv files 0 b e st' /\ (overlapping_measure files st' < overlapping_measure files st)%nat.
Proof.
  destruct st as [i inputs b' e']. intros Hok [Hb He Hi Hin (Hw & Hc & Hleast)] Hf Ho Hbl. cbn [o_index o_inputs o_begin o_end] in *.
  pose proof (Forall_lookup_1 _ _ _ _ Hok Hf) as Hfok. pose proof Hfok as [Hs Hl _].
  destruct (file_key_user _ Hl) as [Hv _]. split.
  - constructor; cbn [o_index o_inputs o_begin o_end]; [done|done|lia|done|]. cbn.
    split; [by apply (widen_limit b' e')|]. split; [constructor|].
    intros lo hi Hlo Hhi Hwide Hclosed. pose proof (Hleast lo hi Hlo Hhi Hwide Hclosed) as Hw'.
    apply (wider_limit lo hi b' e'); try done. apply (Forall_lookup_1 _ _ _ _ Hclosed Hf). by apply (wider_overlaps lo hi b' e').
  - pose proof (filter_shrinks (fun g => above (ukey (largest (meta g))) (Some (ukey (largest (meta f)))))
      (fun g => above (ukey (largest (meta g))) e') files f) as Hlt.
    unfold overlapping_measure. cbn [o_index o_begin o_end]. enough (H : forall x y z : nat, (x < y)%nat ->
      ((z + x) * (length files + 1) + (length files - 0) < (z + y) * (length files + 1) + (length files - i))%nat);
      [apply H, Hlt; [|by eapply list_elem_of_lookup_2|done|by apply (before_irrefl C)]|nia].
    intros g Hg. pose proof (proj1 (Forall_forall _ _) Hok g Hg) as [_ Hgl _].
    apply above_trans; [done|done|by apply file_key_user|done].
Qed.

Lemma overlapping_round_ok {S} files level b e st (s : S) : Forall file_ok files -> overlapping_inv files level b e st ->
  exists r, overlapping_round C level files st s = Ok r s /\
    match r with
    | inl st' => overlapping_inv files level b e st' /\ (overlapping_measure files st' < overlapping_measure files st)%nat
    | inr inputs => exists b' e', bound_ok b' /\ bound_ok e' /\ selected files level b e inputs b' e'
    end.
Proof.
  intros Hok Hinv. unfold overlapping_round. destruct (files !! o_index st) as [f|] eqn:Hf.
  - pose proof (Forall_lookup_1 _ _ _ _ Hok Hf) as [Hs Hl _]. destruct (file_key_user _ Hs) as [Vs Es].
    destruct (file_key_user _ Hl) as [Vl El]. pose proof (oinv_step files level b e st f Hinv Hf) as Hstep.
    pose proof (oinv_start files b e st f Hok) as Hstart. pose proof (oinv_limit files b e st f Hok) as Hlimit.
    destruct st as [i inputs b' e']. pose proof Hinv as [Hb He _ _ _]. cbn [o_index o_inputs o_begin o_end] in *.
    unfold overlaps in *.
    rewrite (bind_or_ub _ _ _ _ Es), (bind_or_ub _ _ _ _ El), (bind_or_ub _ _ _ _ (is_before_ok _ _ Vl Hb)).
    destruct (below (ukey (largest (meta f))) b') eqn:E1; cbn [negb andb] in *.
    { rewrite app_nil_r in Hstep. eexists. split; [done|]. by apply Hstep. }
    rewrite (bind_or_ub _ _ _ _ (is_after_ok _ _ Vs He)).
    destruct (above (ukey (smallest (meta f))) e') eqn:E2; cbn [negb andb] in *.
    { rewrite app_nil_r in Hstep. eexists. split; [done|]. by apply Hstep. }
    destruct (Z.eqb_spec level 0) as [->|Hne]; [|eexists; split; [done|]; by apply Hstep].
    rewrite (bind_or_ub _ _ _ _ (is_before_ok _ _ Vs Hb)). destruct (below (ukey (smallest (meta f))) b') eqn:E3.
    { eexists. split; [done|]. by apply Hstart. }
    rewrite (bind_or_ub _ _ _ _ (is_after_ok _ _ Vl He)). destruct (above (ukey (largest (meta f))) e') eqn:E4.
    { eexists. split; [done|]. by apply Hlimit. }
    eexists. split; [done|]. by apply Hstep.
  - destruct st as [i inputs b' e']. destruct Hinv as [Hb He Hi Hin Hr]. cbn [o_index o_inputs o_begin o_end] in *.
    apply lookup_ge_None in Hf. rewrite take_ge in Hin, Hr by done. eexists. split; [done|].
    exists b', e'. split; [done|]. split; [done|]. by split.
Qed.

(** The user key of an end. *)
Definition user_end (k : option Slice) : option Slice := ukey <$> k.
Definition end_ok (k : option Slice) : Prop := match k with Some k => file_key k | None => True end.

Lemma user_bound_ok {S} k (s : S) : end_ok k -> user_bound k s = Ok (user_end k) s /\ bound_ok (user_end k).
Proof.
  destruct k as [k|]; [|done]. intros Hk. cbn [user_bound user_end fmap option_fmap option_map bound_ok].
  destruct (file_key_user k Hk) as [Hv E]. by rewrite (bind_or_ub _ _ _ _ E).
Qed.

Lemma GetOverlappingInputs_ok {S} level files b e (s : S) :
  Forall file_ok files -> 0 <= level < kNumLevels -> end_ok b -> end_ok e ->
  exists inputs b' e', GetOverlappingInputs C level files b e s = Ok inputs s /\
    bound_ok b' /\ bound_ok e' /\ selected files level (user_end b) (user_end e) inputs b' e'.
Proof.
  intros Hok [Hl1 Hl2] Hb He. unfold GetOverlappingInputs. rewrite bind_assert by (by apply Z.leb_le).
  rewrite bind_assert by (by apply Z.ltb_lt). destruct (user_bound_ok b s Hb) as [Eb Vb]. destruct (user_bound_ok e s He) as [Ee Ve].
  rewrite (bind_ok _ _ _ _ _ Eb), (bind_ok _ _ _ _ _ Ee).
  destruct (pure_loop_ok (overlapping_round C level files) (overlapping_inv files level (user_end b) (user_end e))
    (fun inputs => exists b' e', bound_ok b' /\ bound_ok e' /\ selected files level (user_end b) (user_end e) inputs b' e')
    (overlapping_measure files) s (fun st Hst => overlapping_round_ok files level _ _ st s Hok Hst) (overlapping_fuel files)
    (mk_overlapping 0 [] (user_end b) (user_end e))) as (inputs & E & b' & e' & H).
  - constructor; cbn [o_index o_inputs o_begin o_end]; [done|done|lia|done|]. destruct (level =? 0); [|done].
    split; [apply wider_refl|]. split; [constructor|done].
  - unfold overlapping_measure, overlapping_fuel. cbn [o_index o_begin o_end].
    pose proof (List.filter_length_le (fun f => below (ukey (smallest (meta f))) (user_end b)) files).
    pose proof (List.filter_length_le (fun f => above (ukey (largest (meta f))) (user_end e)) files). nia.
  - by exists inputs, b', e'.
Qed.

End files.

(** A range of files: the smallest and the largest user key. *)
Definition sample_file (p : nat) (number : Z) (lo hi : Slice) : FilePtr :=
  (p, mk_file 1 100 number 1000 (internal lo 257) (internal hi 257)).

Lemma sample_file_ok p number lo hi : Forall is_byte lo -> Forall is_byte hi -> before BytewiseComparator hi lo = false ->
  file_ok BytewiseComparator (sample_file p number lo hi).
Proof.
  intros Hlo Hhi Hb. split; cbn [sample_file meta snd smallest largest]; [exists lo, 1, 1; done|exists hi, 1, 1; done|].
  rewrite (before_internal BytewiseComparator) by done. by rewrite Hb, andb_false_r.
Qed.

(** C27: The files that overlap with a range are found, on any level, whatever the files
    are: on a level above 0 they are those of which some key is in the range; on
    level 0, where the range grows to what its files cover, they are those that
    overlap with the smallest range around the given one that no file sticks out of.
    The search restarts when the range grows, and ends. *)
Theorem overlapping_inputs {S} (C : Comparator) {L : ComparatorLaws C} level files b e (s : S) :
  Forall (file_ok C) files -> 0 <= level < kNumLevels -> end_ok C b -> end_ok C e ->
  exists inputs b' e', GetOverlappingInputs C level files b e s = Ok inputs s /\
    inputs = List.filter (overlaps C b' e') files /\
    if level =? 0 then
      wider C b' e' (user_end b) (user_end e) /\ closed_range C files b' e' /\
      forall lo hi, bound_ok C lo -> bound_ok C hi -> wider C lo hi (user_end b) (user_end e) ->
        closed_range C files lo hi -> wider C lo hi b' e'
    else b' = user_end b /\ e' = user_end e.
Proof.
  intros Hf Hl Hb He. destruct (GetOverlappingInputs_ok C (L := L) level files b e s Hf Hl Hb He) as (inputs & b' & e' & E & _ & _ & H).
  by exists inputs, b', e'.
Qed.

(** C28: Asking whether a file overlaps with a range by binary search over files that do
    not overlap each other gives what asking every file gives. *)
Theorem overlap_search_is_scan {S} (C : Comparator) {L : ComparatorLaws C} files lo hi (s : S) :
  disjoint_files C files -> few_files files -> bound_ok C lo -> bound_ok C hi ->
  SomeFileOverlapsRange C true files lo hi s = SomeFileOverlapsRange C false files lo hi s.
Proof. intros Hd Hfew Hlo Hhi. by rewrite !(SomeFileOverlapsRange_ok C) by (done || apply Hd). Qed.

(** On level 0, [b..c] takes in the file up to [e], which takes in the one up to [g]. *)
Definition sample_level0 : list FilePtr :=
  [sample_file 1 5 [100] [103]; sample_file 2 6 [98] [101]; sample_file 3 7 [120] [121]].

Lemma sample_level0_ok : Forall (file_ok BytewiseComparator) sample_level0.
Proof. repeat constructor; by apply sample_file_ok; repeat constructor. Qed.

Lemma overlapping_inputs_witness : exists inputs b' e',
  GetOverlappingInputs BytewiseComparator 0 sample_level0 (Some (internal [98] 257)) (Some (internal [99] 257)) tt = Ok inputs tt /\
  inputs = List.filter (overlaps BytewiseComparator b' e') sample_level0 /\
  (wider BytewiseComparator b' e' (user_end (Some (internal [98] 257))) (user_end (Some (internal [99] 257))) /\
   closed_range BytewiseComparator sample_level0 b' e' /\
   forall lo hi, bound_ok BytewiseComparator lo -> bound_ok BytewiseComparator hi ->
     wider BytewiseComparator lo hi (user_end (Some (internal [98] 257))) (user_end (Some (internal [99] 257))) ->
     closed_range BytewiseComparator sample_level0 lo hi -> wider BytewiseComparator lo hi b' e').
Proof.
  apply (overlapping_inputs BytewiseComparator 0 sample_level0 (Some (internal [98] 257)) (Some (internal [99] 257)) tt).
  - apply sample_level0_ok.
  - done.
  - exists [98], 1, 1. by repeat constructor.
  - exists [99], 1, 1. by repeat constructor.
Defined.

Example level0_inputs :
  match GetOverlappingInputs BytewiseComparator 0 sample_level0 (Some (internal [98] 257)) (Some (internal [99] 257)) tt with
  | Ok inputs _ => fst <$> inputs
  | _ => []
  end = [1; 2]%nat.
Proof. vm_compute. reflexivity. Qed.

Definition sample_level1 : list FilePtr := [sample_file 1 5 [98] [100]; sample_file 2 6 [102] [104]; sample_file 3 7 [120] [121]].

Lemma overlap_search_is_scan_witness :
  SomeFileOverlapsRange BytewiseComparator true sample_level1 (Some [101]) (Some [103]) tt =
  SomeFileOverlapsRange BytewiseComparator false sample_level1 (Some [101]) (Some [103]) tt.
Proof.
  apply (overlap_search_is_scan BytewiseComparator).
  - split; [repeat constructor; by apply sample_file_ok; repeat constructor|].
    intros i j f g Hi Hj Hij. do 3 (destruct i as [|i]; [do 3 (destruct j as [|j]; [lia || (injection Hi as <-; injection Hj as <-; reflexivity)|]); discriminate Hj|]).
    discriminate Hi.
  - done.
  - by repeat constructor.
  - by repeat constructor.
Defined.
