(* ===== verification/Version.v ===== *)
(** * Versions and how they are built (version_set.h, version_set.cc)

    A version is the files of each level; versions are in a circular list behind
    [dummy_versions_], count references to themselves and to the files they share.
    Searching the files of a version for a key goes through the cache of open tables,
    which is the interface [TableCacheOps].  [VersionSet::Builder] applies edits to
    a version. *)

From Stdlib Require Import ZArith Lia String SpecFloat.
From stdpp Require Import base option list strings sorting gmap.
From S2P Require Import Prelude Memory Slice Coding DbFormat Status Iterator Table Merger FileName VersionEdit LevelFiles.

(** ** Memory *)

(** A version in the list, or the head of the list. *)
Inductive VLink := Dummy | Ver (v : nat).

#[export] Instance VLink_eq_dec : EqDecision VLink.
Proof. solve_decision. Defined.

(** [files_] holds pointers to files; a [double] is an IEEE number of 64 bits. *)
Record Version := mk_version {
  files_ : list (list nat);
  v_next : VLink;
  v_prev : VLink;
  v_refs : Z;
  file_to_compact_ : option nat;
  file_to_compact_level_ : Z;
  compaction_score_ : spec_float;
  compaction_level_ : Z
}.

(** The files and versions in memory, and of the version set [dummy_versions_],
    [current_] and [compact_pointer_]. *)
Record Versions := mk_versions {
  vs_files : gmap nat FileMetaData;
  vs_versions : gmap nat Version;
  dummy_next : VLink;
  dummy_prev : VLink;
  current_ : option nat;
  compact_pointer_ : list Slice
}.

Abbreviation VM := (M Versions).

Definition set_files (f : gmap nat FileMetaData -> gmap nat FileMetaData) (s : Versions) : Versions :=
  mk_versions (f (vs_files s)) (vs_versions s) (dummy_next s) (dummy_prev s) (current_ s) (compact_pointer_ s).
Definition set_versions (f : gmap nat Version -> gmap nat Version) (s : Versions) : Versions :=
  mk_versions (vs_files s) (f (vs_versions s)) (dummy_next s) (dummy_prev s) (current_ s) (compact_pointer_ s).
Definition set_dummy (n p : VLink) (s : Versions) : Versions :=
  mk_versions (vs_files s) (vs_versions s) n p (current_ s) (compact_pointer_ s).
Definition set_current_version (c : option nat) (s : Versions) : Versions :=
  mk_versions (vs_files s) (vs_versions s) (dummy_next s) (dummy_prev s) c (compact_pointer_ s).
Definition set_compact_pointer (f : list Slice -> list Slice) (s : Versions) : Versions :=
  mk_versions (vs_files s) (vs_versions s) (dummy_next s) (dummy_prev s) (current_ s) (f (compact_pointer_ s)).

Definition load_file (p : nat) : VM FileMetaData := let! f := gets (fun s => vs_files s !! p) in or_ub f.
Definition store_file (p : nat) (f : FileMetaData) : VM unit :=
  load_file p ;;; modify (set_files (insert p f)).
Definition new_file (f : FileMetaData) : VM nat :=
  let! p := gets (fun s => fresh (dom (vs_files s))) in modify (set_files (insert p f)) ;;; ret p.
Definition delete_file (p : nat) : VM unit := load_file p ;;; modify (set_files (delete p)).

Definition load_version (v : nat) : VM Version := let! x := gets (fun s => vs_versions s !! v) in or_ub x.
Definition update_version (v : nat) (f : Version -> Version) : VM unit :=
  let! x := load_version v in modify (set_versions (insert v (f x))).

Definition set_v_files (l : list (list nat)) (x : Version) : Version :=
  mk_version l (v_next x) (v_prev x) (v_refs x) (file_to_compact_ x) (file_to_compact_level_ x)
    (compaction_score_ x) (compaction_level_ x).
Definition set_v_next (n : VLink) (x : Version) : Version :=
  mk_version (files_ x) n (v_prev x) (v_refs x) (file_to_compact_ x) (file_to_compact_level_ x)
    (compaction_score_ x) (compaction_level_ x).
Definition set_v_prev (p : VLink) (x : Version) : Version :=
  mk_version (files_ x) (v_next x) p (v_refs x) (file_to_compact_ x) (file_to_compact_level_ x)
    (compaction_score_ x) (compaction_level_ x).
Definition set_v_refs (n : Z) (x : Version) : Version :=
  mk_version (files_ x) (v_next x) (v_prev x) n (file_to_compact_ x) (file_to_compact_level_ x)
    (compaction_score_ x) (compaction_level_ x).
Definition set_file_to_compact (f : option nat) (level : Z) (x : Version) : Version :=
  mk_version (files_ x) (v_next x) (v_prev x) (v_refs x) f level (compaction_score_ x) (compaction_level_ x).
Definition set_compaction (score : spec_float) (level : Z) (x : Version) : Version :=
  mk_version (files_ x) (v_next x) (v_prev x) (v_refs x) (file_to_compact_ x) (file_to_compact_level_ x) score level.

Definition set_file_refs (n : Z) (f : FileMetaData) : FileMetaData :=
  mk_file n (allowed_seeks f) (fnumber f) (file_size f) (smallest f) (largest f).
Definition set_allowed_seeks (n : Z) (f : FileMetaData) : FileMetaData :=
  mk_file (refs f) n (fnumber f) (file_size f) (smallest f) (largest f).

(** An array with an entry per level. *)
Definition at_level {A} (level : Z) (l : list A) : option A := if 0 <=? level then l !! Z.to_nat level else None.

(** The vector of files of a level, with what its pointers point to; where the code
    reads some of them, the model reads all. *)
Definition load_files (ps : list nat) : VM (list FilePtr) :=
  map_m (fun p => let! f := load_file p in ret (p, f)) ps.
Definition level_files (v : nat) (level : Z) : VM (list FilePtr) :=
  let! x := load_version v in let! ps := or_ub (at_level level (files_ x)) in load_files ps.
Definition all_levels (v : nat) : VM (list (list FilePtr)) :=
  let! x := load_version v in map_m load_files (files_ x).

(** The numbers that are read as [double]. *)
Definition double_of (n : Z) : spec_float := binary_normalize 53 1024 n 0 false.

(** ** References *)

(** [f->refs--; if (f->refs <= 0) delete f] *)
Definition unref_file (p : nat) : VM unit :=
  let! f := load_file p in
  store_file p (set_file_refs (refs f - 1) f) ;;;
  if refs f - 1 <=? 0 then delete_file p else ret tt.

Definition assign_v_next (l : VLink) (n : VLink) : VM unit :=
  match l with
  | Dummy => modify (fun s => set_dummy n (dummy_prev s) s)
  | Ver v => update_version v (set_v_next n)
  end.
Definition assign_v_prev (l : VLink) (p : VLink) : VM unit :=
  match l with
  | Dummy => modify (fun s => set_dummy (dummy_next s) p s)
  | Ver v => update_version v (set_v_prev p)
  end.

(** [new Version(vset)]: its links lead to itself. *)
Definition new_Version : VM nat :=
  let! v := gets (fun s => fresh (dom (vs_versions s))) in
  modify (set_versions (insert v
    (mk_version (replicate (Z.to_nat kNumLevels) []) (Ver v) (Ver v) 0 None (-1) (double_of (-1)) (-1)))) ;;;
  ret v.

Definition delete_Version (v : nat) : VM unit :=
  let! x := load_version v in
  assert_ (v_refs x =? 0) ;;;
  assign_v_next (v_prev x) (v_next x) ;;;
  let! x := load_version v in
  assign_v_prev (v_next x) (v_prev x) ;;;
  iter_m (fun p => let! f := load_file p in assert_ (0 <? refs f) ;;; unref_file p) (concat (files_ x)) ;;;
  modify (set_versions (delete v)).

Definition Ref (v : nat) : VM unit := update_version v (fun x => set_v_refs (v_refs x + 1) x).

(** A pointer to a version in the heap is not [&dummy_versions_]. *)
Definition Unref (v : nat) : VM unit :=
  let! x := load_version v in
  assert_ (1 <=? v_refs x) ;;;
  update_version v (set_v_refs (v_refs x - 1)) ;;;
  if v_refs x - 1 =? 0 then delete_Version v else ret tt.

(** ** Reading *)

(** The cache of open tables: what it does for a file with a number and a size.  The
    iterator comes with the table, unless the table could not be opened. *)
Class TableCacheOps (T TI TB : Type) := {
  tc_NewIterator : ReadOptions -> Z -> Z -> M T (TI * option TB);
  tc_NewErrorIterator : Status -> TI;
  tc_Get : ReadOptions -> Z -> Z -> Slice -> M T (Status * option (Slice * Slice));
  tc_ApproximateOffsetOf : TB -> Slice -> M T Z;
  tc_delete_iterator : TI -> M T unit
}.

(** The file that a read is charged to, and its level. *)
Record GetStats := mk_stats { seek_file : option nat; seek_file_level : Z }.

Inductive SaverState := kNotFound | kFound | kDeleted | kCorrupt.

Section read.
Context (user_comparator : Comparator) {T TI TB : Type} {TC : TableCacheOps T TI TB}.

Abbreviation icmp := (InternalKeyComparator user_comparator).

(** What the callback leaves in the saver, when it is called: the state and the value. *)
Definition SaveValue (user_key : Slice) (ikey v : Slice) : option (SaverState * Slice) :=
  r ← ParseInternalKey ikey;
  match r with
  | (true, Some parsed_key) =>
      c ← @Compare user_comparator (DbFormat.user_key parsed_key) user_key;
      Some (if c =? 0 then
              if type parsed_key =? kTypeValue then (kFound, v) else (kDeleted, [])
            else (kNotFound, []))
  | _ => Some (kCorrupt, [])
  end.

Definition NewestFirst (a b : FilePtr) : Prop := fnumber (meta b) <= fnumber (meta a).

#[export] Instance NewestFirst_dec : RelDecision NewestFirst.
Proof. unfold NewestFirst. intros a b. apply _. Defined.

(** [user_key] is between the smallest and the largest key of the file. *)
Definition covers_key (user_key : Slice) (f : FilePtr) : option bool :=
  s ← InternalKey_user_key (smallest (meta f));
  c ← @Compare user_comparator user_key s;
  if 0 <=? c then
    l ← InternalKey_user_key (largest (meta f));
    d ← @Compare user_comparator user_key l;
    Some (d <=? 0)
  else Some false.

(** Files of level 0 that may have the key, the newest first; [std::sort] on numbers
    that are different. *)
Definition level0_files (user_key : Slice) (files : list FilePtr) : option (list FilePtr) :=
  tmp ← filter_opt (covers_key user_key) files; Some (merge_sort NewestFirst tmp).

(** The file of another level that may have the key. *)
Definition level_file {S} (user_key ikey : Slice) (files : list FilePtr) : M S (list FilePtr) :=
  let! index := FindFile user_comparator files ikey in
  match files !! Z.to_nat (u32 index) with
  | None => ret []
  | Some f =>
      let! s := or_ub (InternalKey_user_key (smallest (meta f))) in
      let! c := or_ub (@Compare user_comparator user_key s) in
      ret (if c <? 0 then [] else [f])
  end.

Definition files_to_search {S} (user_key ikey : Slice) (level : Z) (files : list FilePtr) : M S (list FilePtr) :=
  if (length files =? 0)%nat then ret []
  else if level =? 0 then or_ub (level0_files user_key files)
  else level_file user_key ikey files.

(** [*stats], [last_file_read] and its level. *)
Record get_vars := mk_get_vars { g_stats : GetStats; last_file_read : option nat; last_file_read_level : Z }.

(** One file; what [Get] returns, with [*val] if it is set, or that the search goes on. *)
Definition search_file (options : ReadOptions) (user_key ikey : Slice) (level : Z) (vars : get_vars) (f : FilePtr)
    : M T (get_vars + (Status * option Slice * GetStats)) :=
  let stats :=
    match last_file_read vars, seek_file (g_stats vars) with
    | Some p, None => mk_stats (Some p) (last_file_read_level vars)
    | _, _ => g_stats vars
    end in
  let! r := tc_Get options (fnumber (meta f)) (file_size (meta f)) ikey in
  let '(s, called) := r in
  let! saver := match called with
                | Some (k, v) => or_ub (SaveValue user_key k v)
                | None => ret (kNotFound, [])
                end in
  if negb (ok s) then
    ret (inr (s, match saver with (kFound, v) => Some v | _ => None end, stats))
  else
    match saver with
    | (kNotFound, _) => ret (inl (mk_get_vars stats (Some f.1) level))
    | (kFound, v) => ret (inr (s, Some v, stats))
    | (kDeleted, _) => let! s := or_ub (Status_NotFound [] []) in ret (inr (s, None, stats))
    | (kCorrupt, _) =>
        let! s := or_ub (Status_Corruption (c_string "corrupted key for ") user_key) in ret (inr (s, None, stats))
    end.

Fixpoint search_files (options : ReadOptions) (user_key ikey : Slice) (level : Z) (vars : get_vars) (files : list FilePtr)
    : M T (get_vars + (Status * option Slice * GetStats)) :=
  match files with
  | [] => ret (inl vars)
  | f :: files =>
      let! r := search_file options user_key ikey level vars f in
      match r with inl vars => search_files options user_key ikey level vars files | inr r => ret (inr r) end
  end.

Fixpoint search_levels (options : ReadOptions) (user_key ikey : Slice) (level : Z) (vars : get_vars)
    (levels : list (list FilePtr)) : M T (Status * option Slice * GetStats) :=
  match levels with
  | [] => let! s := or_ub (Status_NotFound [] []) in ret (s, None, g_stats vars)
  | files :: levels =>
      let! fs := files_to_search user_key ikey level files in
      let! r := search_files options user_key ikey level vars fs in
      match r with inl vars => search_levels options user_key ikey (level + 1) vars levels | inr r => ret r end
  end.

(** [Version::Get], on the files of the version. *)
Definition Version_Get (options : ReadOptions) (levels : list (list FilePtr)) (k : LookupKey)
    : M T (Status * option Slice * GetStats) :=
  search_levels options (lookup_user_key k) (lookup_internal_key k) 0 (mk_get_vars (mk_stats None (-1)) None (-1)) levels.

(** ** Statistics of reads *)

(** [func] is called for one file after the other until it returns false. *)
Fixpoint call_each {A} (func : A -> Z -> FilePtr -> A * bool) (arg : A) (level : Z) (files : list FilePtr) : A * bool :=
  match files with
  | [] => (arg, true)
  | f :: files => let '(arg, b) := func arg level f in if b : bool then call_each func arg level files else (arg, false)
  end.

Fixpoint call_levels {S A} (func : A -> Z -> FilePtr -> A * bool) (arg : A) (user_key internal_key : Slice) (level : Z)
    (levels : list (list FilePtr)) : M S A :=
  match levels with
  | [] => ret arg
  | files :: levels =>
      let! fs := files_to_search user_key internal_key level files in
      let '(arg, b) := call_each func arg level fs in
      if b : bool then call_levels func arg user_key internal_key (level + 1) levels else ret arg
  end.

Definition ForEachOverlapping {S A} (levels : list (list FilePtr)) (user_key internal_key : Slice)
    (arg : A) (func : A -> Z -> FilePtr -> A * bool) : M S A :=
  call_levels func arg user_key internal_key 0 levels.

Definition UpdateStats (v : nat) (stats : GetStats) : VM bool :=
  match seek_file stats with
  | None => ret false
  | Some p =>
      let! f := load_file p in
      store_file p (set_allowed_seeks (allowed_seeks f - 1) f) ;;;
      let! x := load_version v in
      match file_to_compact_ x with
      | None =>
          if allowed_seeks f - 1 <=? 0 then
            update_version v (set_file_to_compact (Some p) (seek_file_level stats)) ;;; ret true
          else ret false
      | Some _ => ret false
      end
  end.

(** The local class [State] of [RecordReadSample]. *)
Definition Match (state : GetStats * Z) (level : Z) (f : FilePtr) : (GetStats * Z) * bool :=
  let '(stats, matches) := state in
  let matches := matches + 1 in
  ((if matches =? 1 then mk_stats (Some f.1) level else stats, matches), matches <? 2).

Definition RecordReadSample (v : nat) (internal_key : Slice) : VM bool :=
  let! r := or_ub (ParseInternalKey internal_key) in
  match r with
  | (true, Some ikey) =>
      let! levels := all_levels v in
      let! state := ForEachOverlapping levels (user_key ikey) internal_key (mk_stats None (-1), 0) Match in
      let '(stats, matches) := state in
      if 2 <=? matches then UpdateStats v stats else ret false
  | _ => ret false
  end.

(** ** Where the result of a memtable goes *)

Definition kMaxMemCompactLevel : Z := 2.

Definition OverlapInLevel {S} (levels : list (list FilePtr)) (level : Z)
    (smallest_user_key largest_user_key : option Slice) : M S bool :=
  let! files := or_ub (at_level level levels) in
  SomeFileOverlapsRange user_comparator (0 <? level) files smallest_user_key largest_user_key.

Definition pick_level_round {S} (levels : list (list FilePtr)) (smallest_user_key largest_user_key start limit : Slice)
    (level : Z) : M S (Z + Z) :=
  if level <? kMaxMemCompactLevel then
    let! overlap := OverlapInLevel levels (level + 1) (Some smallest_user_key) (Some largest_user_key) in
    if overlap : bool then ret (inr level)
    else
      let! too_many :=
        if level + 2 <? kNumLevels then
          let! files := or_ub (at_level (level + 2) levels) in
          let! overlaps := GetOverlappingInputs user_comparator (level + 2) files (Some start) (Some limit) in
          ret (kMaxGrandParentOverlapBytes <? TotalFileSize overlaps)
        else ret false in
      ret (if too_many : bool then inr level else inl (level + 1))
  else ret (inr level).

Definition PickLevelForMemTableOutput {S} (levels : list (list FilePtr)) (smallest_user_key largest_user_key : Slice) : M S Z :=
  let! overlap := OverlapInLevel levels 0 (Some smallest_user_key) (Some largest_user_key) in
  if overlap : bool then ret 0
  else
    let! start := or_ub (InternalKey smallest_user_key kMaxSequenceNumber kValueTypeForSeek) in
    let! limit := or_ub (InternalKey largest_user_key 0 0) in
    loop (Z.to_nat kNumLevels) (pick_level_round levels smallest_user_key largest_user_key start limit) 0.

(** ** Iterators *)

(** The callback of a two-level iterator over the files of a level. *)
Definition GetFileIterator (options : ReadOptions) (file_value : Slice) : M T TI :=
  if negb (length file_value =? 16)%nat then
    let! s := or_ub (Status_Corruption (c_string "FileReader invoked with unexpected value") []) in
    ret (tc_NewErrorIterator s)
  else
    let! number := or_ub (DecodeFixed64 file_value) in
    let! size := or_ub (DecodeFixed64 (drop 8 file_value)) in
    let! r := tc_NewIterator options number size in ret r.1.

Abbreviation Concat := (TwoLevelIterator LevelFileNumIterator TI T).

(** [Version::NewConcatenatingIterator]: the iterator has the table cache in its state. *)
Definition NewConcatenatingIterator (files : list FilePtr) (cache : T) : option Concat :=
  @NewTwoLevelIterator _ _ _ (LevelFile_Iterator user_comparator) (new_LevelFileNumIterator files) cache.

Definition AddIterators (options : ReadOptions) (levels : list (list FilePtr)) : M T (list (TI + Concat)) :=
  let! files := or_ub (levels !! 0%nat) in
  let! iters := map_m (fun f => let! r := tc_NewIterator options (fnumber (meta f)) (file_size (meta f)) in ret r.1) files in
  let! cache := gets id in
  let! concats := or_ub (mapM (fun files => NewConcatenatingIterator files cache)
                           (List.filter (fun files => negb (length files =? 0)%nat) (drop 1 levels))) in
  ret ((inl <$> iters) ++ (inr <$> concats)).

End read.

(** ** Printing *)

Definition print_file (f : FilePtr) : option Slice :=
  small ← InternalKey_DebugString (smallest (meta f));
  large ← InternalKey_DebugString (largest (meta f));
  Some ([32] ++ NumberToString (fnumber (meta f)) ++ [58] ++ NumberToString (file_size (meta f)) ++
        c_string "[" ++ small ++ c_string " .. " ++ large ++ c_string "]" ++ [10]).

Fixpoint print_levels (level : Z) (levels : list (list FilePtr)) : option Slice :=
  match levels with
  | [] => Some []
  | files :: levels =>
      fs ← mapM print_file files;
      rest ← print_levels (level + 1) levels;
      Some (c_string "--- level " ++ NumberToString level ++ c_string " ---" ++ [10] ++ concat fs ++ rest)
  end.

Definition Version_DebugString (levels : list (list FilePtr)) : option Slice := print_levels 0 levels.

(** * Building versions (version_set.cc)

    [VersionSet::Builder] collects the changes of a sequence of edits and applies
    them to the files of a version. *)

(** [std::set<uint64_t>] and [std::set<FileMetaData*, BySmallestKey>], the latter in
    its order. *)
Record LevelState := mk_level_state { b_deleted : gset Z; b_added : list nat }.

Record Builder := mk_builder { b_base : nat; b_levels : list LevelState }.

(** An assignment to an entry of an array with an entry per level. *)
Definition insert_level {A} (level : Z) (x : A) (l : list A) : list A := <[Z.to_nat level := x]> l.

Definition set_level (level : Z) (ls : LevelState) (b : Builder) : Builder :=
  mk_builder (b_base b) (insert_level level ls (b_levels b)).

Section builder.
Context (user_comparator : Comparator).

Abbreviation icmp := (InternalKeyComparator user_comparator).

(** [BySmallestKey]: ties are broken by the file number. *)
Definition BySmallestKey (f1 f2 : FilePtr) : option bool :=
  r ← compare_keys user_comparator (smallest (meta f1)) (smallest (meta f2));
  Some (if negb (r =? 0) then r <? 0 else fnumber (meta f1) <? fnumber (meta f2)).

(** [insert]: nothing happens if there is an equal element. *)
Fixpoint file_set_insert (f : FilePtr) (l : list FilePtr) : option (list FilePtr) :=
  match l with
  | [] => Some [f]
  | g :: l =>
      b ← BySmallestKey g f;
      if b : bool then r ← file_set_insert f l; Some (g :: r)
      else c ← BySmallestKey f g; Some (if c : bool then f :: g :: l else g :: l)
  end.

(** [std::upper_bound] in a sorted vector: what comes before the first element that
    is larger, and the rest. *)
Fixpoint upper_bound (base : list FilePtr) (x : FilePtr) : option (list FilePtr * list FilePtr) :=
  match base with
  | [] => Some ([], [])
  | g :: l =>
      larger ← BySmallestKey x g;
      if larger : bool then Some ([], base)
      else r ← upper_bound l x; let '(before, rest) := r in Some (g :: before, rest)
  end.

Definition new_Builder (base : nat) : VM Builder :=
  Ref base ;;; ret (mk_builder base (replicate (Z.to_nat kNumLevels) (mk_level_state ∅ []))).

(** The destructor. *)
Definition delete_Builder (b : Builder) : VM unit :=
  iter_m (fun ls => iter_m unref_file (b_added ls)) (b_levels b) ;;;
  Unref (b_base b).

Definition apply_pointer (p : Z * Slice) : VM unit :=
  let! key := or_ub (InternalKey_Encode p.2) in
  let! s := gets id in
  let! _ := or_ub (at_level p.1 (compact_pointer_ s)) in
  modify (set_compact_pointer (insert_level p.1 key)).

Definition apply_deleted (b : Builder) (p : Z * Z) : VM Builder :=
  let! ls := or_ub (at_level p.1 (b_levels b)) in
  ret (set_level p.1 (mk_level_state ({[ p.2 ]} ∪ b_deleted ls) (b_added ls)) b).

(** [allowed_seeks] is an [int]. *)
Definition seeks_for (file_size : Z) : Z :=
  let n := s32 (file_size / 16384) in if n <? 100 then 100 else n.

Definition apply_file (b : Builder) (p : Z * FileMetaData) : VM Builder :=
  let f := p.2 in
  let f := set_allowed_seeks (seeks_for (file_size f)) (set_file_refs 1 f) in
  let! q := new_file f in
  let! ls := or_ub (at_level p.1 (b_levels b)) in
  let! added := load_files (b_added ls) in
  let! added := or_ub (file_set_insert (q, f) added) in
  ret (set_level p.1 (mk_level_state (b_deleted ls ∖ {[ fnumber f ]}) (added.*1)) b).

Definition Apply (edit : VersionEdit) (b : Builder) : VM Builder :=
  iter_m apply_pointer (compact_pointers_ edit) ;;;
  let! b := fold_m apply_deleted b (deleted_files_ edit) in
  fold_m apply_file b (new_files_ edit).

Definition MaybeAddFile (b : Builder) (v : nat) (level : Z) (f : FilePtr) : VM unit :=
  let! ls := or_ub (at_level level (b_levels b)) in
  if bool_decide (fnumber (meta f) ∈ b_deleted ls) then ret tt
  else
    let! x := load_version v in
    let! files := or_ub (at_level level (files_ x)) in
    (if 0 <? level then
       match last files with
       | Some p =>
           let! prev := load_file p in
           let! r := or_ub (compare_keys user_comparator (largest prev) (smallest (meta f))) in
           assert_ (r <? 0)
       | None => ret tt
       end
     else ret tt) ;;;
    let! m := load_file f.1 in
    store_file f.1 (set_file_refs (refs m + 1) m) ;;;
    update_version v (fun x => set_v_files (insert_level level (files ++ [f.1]) (files_ x)) x).

(** The merge of the files of the base, from [base_iter] on, and those added. *)
Fixpoint save_level (b : Builder) (v : nat) (level : Z) (base added : list FilePtr) : VM unit :=
  match added with
  | [] => iter_m (MaybeAddFile b v level) base
  | a :: added =>
      let! r := or_ub (upper_bound base a) in
      let '(smaller, base) := r in
      iter_m (MaybeAddFile b v level) smaller ;;;
      MaybeAddFile b v level a ;;;
      save_level b v level base added
  end.

(** The test of builds without NDEBUG, which aborts. *)
Fixpoint check_no_overlap {S} (files : list FilePtr) : M S unit :=
  match files with
  | f :: ((g :: _) as files) =>
      let! r := or_ub (compare_keys user_comparator (largest (meta f)) (smallest (meta g))) in
      assert_ (negb (0 <=? r)) ;;; check_no_overlap files
  | _ => ret tt
  end.

Definition save_to_level (b : Builder) (v : nat) (level : Z) : VM unit :=
  let! base := level_files (b_base b) level in
  let! ls := or_ub (at_level level (b_levels b)) in
  let! added := load_files (b_added ls) in
  save_level b v level base added ;;;
  if 0 <? level then let! files := level_files v level in check_no_overlap files else ret tt.

Definition SaveTo (b : Builder) (v : nat) : VM unit :=
  iter_m (save_to_level b v) (seqZ 0 kNumLevels).

End builder.
