(* ===== verification/VersionSet.v ===== *)
(** * The set of versions (version_set.h, version_set.cc)

    [VersionSet] has the current version, writes every change of it to a descriptor
    before it is installed, and reads the descriptor when the database is opened. *)

From Stdlib Require Import ZArith Lia String SpecFloat.
From stdpp Require Import base option list strings sorting gmap.
From S2P Require Import Prelude Memory Slice Coding DbFormat Status Log Env FileName VersionEdit LevelFiles Version.

(** [descriptor_file_] and [descriptor_log_]: the handle of the file and the block
    offset of the writer. *)
Record VersionSet (E W : Type) := mk_vset {
  vs_versions_ : Versions;
  vs_env_ : E;
  vs_next_file_number_ : Z;
  vs_manifest_file_number_ : Z;
  vs_last_sequence_ : Z;
  vs_log_number_ : Z;
  vs_prev_log_number_ : Z;
  descriptor_ : option (W * Z)
}.
Arguments mk_vset {E W}. Arguments vs_versions_ {E W}. Arguments vs_env_ {E W}.
Arguments vs_next_file_number_ {E W}. Arguments vs_manifest_file_number_ {E W}.
Arguments vs_last_sequence_ {E W}. Arguments vs_log_number_ {E W}. Arguments vs_prev_log_number_ {E W}.
Arguments descriptor_ {E W}.

(** ** Scores *)

Definition kL0_CompactionTrigger : Z := 4.

(** [while (level > 1)] *)
Fixpoint times_ten (n : nat) (result : spec_float) : spec_float :=
  match n with O => result | S n => times_ten n (SFmul 53 1024 result (double_of 10)) end.

Definition MaxBytesForLevel (level : Z) : spec_float := times_ten (Z.to_nat (level - 1)) (double_of (10 * 1048576)).

Definition level_score (level : Z) (files : list FilePtr) : spec_float :=
  if level =? 0 then SFdiv 53 1024 (double_of (Z.of_nat (length files))) (double_of kL0_CompactionTrigger)
  else SFdiv 53 1024 (double_of (u64 (TotalFileSize files))) (MaxBytesForLevel level).

(** The level with the best score so far, and the score; the last level has none. *)
Fixpoint best_score (level : Z) (levels : list (list FilePtr)) (best_level : Z) (best : spec_float) : Z * spec_float :=
  match levels with
  | files :: ((_ :: _) as levels) =>
      let score := level_score level files in
      if SFltb best score then best_score (level + 1) levels level score
      else best_score (level + 1) levels best_level best
  | _ => (best_level, best)
  end.

Definition Finalize (v : nat) : VM unit :=
  let! levels := all_levels v in
  let '(level, score) := best_score 0 levels (-1) (double_of (-1)) in
  update_version v (set_compaction score level).

(** ** The list of versions *)

Definition AppendVersion (v : nat) : VM unit :=
  let! x := load_version v in
  assert_ (v_refs x =? 0) ;;;
  let! s := gets id in
  assert_ (bool_decide (current_ s <> Some v)) ;;;
  match current_ s with Some c => Unref c | None => ret tt end ;;;
  modify (set_current_version (Some v)) ;;;
  Ref v ;;;
  let! s := gets id in
  update_version v (set_v_prev (dummy_prev s)) ;;;
  update_version v (set_v_next Dummy) ;;;
  let! x := load_version v in
  assign_v_next (v_prev x) (Ver v) ;;;
  let! x := load_version v in
  assign_v_prev (v_next x) (Ver v).

(** The versions in the list, from the oldest. *)
Fixpoint list_versions (n : nat) (l : VLink) : VM (list nat) :=
  match n, l with
  | _, Dummy => ret []
  | O, _ => out_of_fuel
  | S n, Ver v =>
      let! x := load_version v in let! vs := list_versions n (v_next x) in ret (v :: vs)
  end.

(** The numbers are inserted into a [std::set]. *)
Definition AddLiveFiles (live : gset Z) : VM (gset Z) :=
  let! s := gets id in
  let! vs := list_versions (S (size (vs_versions s))) (dummy_next s) in
  fold_m (fun live v =>
    let! levels := all_levels v in
    ret (live ∪ list_to_set ((fun f => fnumber (meta f)) <$> concat levels))) live vs.

(** The current version. *)
Definition current_version : VM nat := let! s := gets id in or_ub (current_ s).

Definition NumLevelFiles (level : Z) : VM Z :=
  assert_ (0 <=? level) ;;; assert_ (level <? kNumLevels) ;;;
  let! v := current_version in
  let! files := level_files v level in ret (s32 (Z.of_nat (length files))).

Definition NumLevelBytes (level : Z) : VM Z :=
  assert_ (0 <=? level) ;;; assert_ (level <? kNumLevels) ;;;
  let! v := current_version in
  let! files := level_files v level in ret (TotalFileSize files).

(** The buffer has 100 bytes. *)
Definition LevelSummary : VM Slice :=
  let! v := current_version in
  let! levels := all_levels v in
  ret (take 99 (c_string "files[ " ++
    concat ((fun files => print_llu (Z.of_nat (length files)) ++ [32]) <$> levels) ++ c_string "]")).

Definition NeedsCompaction : VM bool :=
  let! v := current_version in
  let! x := load_version v in
  ret (SFleb (double_of 1) (compaction_score_ x) ||
       match file_to_compact_ x with Some _ => true | None => false end).

Section set.
Context {PL : Platform} {PM : Placement}.
Context {E W G R : Type} {FS : FileSystem E W G R} {SF : SequentialFile G}.
Context (user_comparator : Comparator) (dbname_ : Slice).

Abbreviation icmp := (InternalKeyComparator user_comparator).
Abbreviation VS := (VersionSet E W).
Abbreviation SM := (M VS).

(** ** State *)

Definition set_vs_versions (x : Versions) (s : VS) : VS :=
  mk_vset x (vs_env_ s) (vs_next_file_number_ s) (vs_manifest_file_number_ s) (vs_last_sequence_ s)
    (vs_log_number_ s) (vs_prev_log_number_ s) (descriptor_ s).
Definition set_vs_env (e : E) (s : VS) : VS :=
  mk_vset (vs_versions_ s) e (vs_next_file_number_ s) (vs_manifest_file_number_ s) (vs_last_sequence_ s)
    (vs_log_number_ s) (vs_prev_log_number_ s) (descriptor_ s).
Definition set_next_file_number (n : Z) (s : VS) : VS :=
  mk_vset (vs_versions_ s) (vs_env_ s) n (vs_manifest_file_number_ s) (vs_last_sequence_ s)
    (vs_log_number_ s) (vs_prev_log_number_ s) (descriptor_ s).
Definition set_manifest_file_number (n : Z) (s : VS) : VS :=
  mk_vset (vs_versions_ s) (vs_env_ s) (vs_next_file_number_ s) n (vs_last_sequence_ s)
    (vs_log_number_ s) (vs_prev_log_number_ s) (descriptor_ s).
Definition set_vs_last_sequence (n : Z) (s : VS) : VS :=
  mk_vset (vs_versions_ s) (vs_env_ s) (vs_next_file_number_ s) (vs_manifest_file_number_ s) n
    (vs_log_number_ s) (vs_prev_log_number_ s) (descriptor_ s).
Definition set_log_numbers (log prev : Z) (s : VS) : VS :=
  mk_vset (vs_versions_ s) (vs_env_ s) (vs_next_file_number_ s) (vs_manifest_file_number_ s) (vs_last_sequence_ s)
    log prev (descriptor_ s).
Definition set_descriptor (d : option (W * Z)) (s : VS) : VS :=
  mk_vset (vs_versions_ s) (vs_env_ s) (vs_next_file_number_ s) (vs_manifest_file_number_ s) (vs_last_sequence_ s)
    (vs_log_number_ s) (vs_prev_log_number_ s) d.

Definition on_versions {A} : VM A -> SM A := zoom vs_versions_ set_vs_versions.

(** A call of the environment. *)
Definition on_env {A} (op : E -> A * E) : SM A := fun s => let '(a, e) := op (vs_env_ s) in Ok a (set_vs_env e s).

(** A call of [descriptor_log_]. *)
Definition on_log {A} (m : M (Writer (W * E)) A) : SM A := fun s =>
  match descriptor_ s with
  | Some (w, offset) =>
      zoom (fun _ => mk_writer (w, vs_env_ s) offset)
        (fun l s => set_descriptor (Some ((w_dest l).1, w_block_offset l)) (set_vs_env (w_dest l).2 s)) m s
  | None => Ub
  end.

(** ** Numbers *)

Definition NewFileNumber : SM Z :=
  let! s := gets id in
  modify (set_next_file_number (u64 (vs_next_file_number_ s + 1))) ;;; ret (vs_next_file_number_ s).

Definition ReuseFileNumber (file_number : Z) : SM unit :=
  let! s := gets id in
  if vs_next_file_number_ s =? u64 (file_number + 1) then modify (set_next_file_number file_number) else ret tt.

Definition SetLastSequence_vs (n : Z) : SM unit :=
  let! s := gets id in
  assert_ (vs_last_sequence_ s <=? n) ;;; modify (set_vs_last_sequence n).

Definition MarkFileNumberUsed (number : Z) : SM unit :=
  let! s := gets id in
  if vs_next_file_number_ s <=? number then modify (set_next_file_number (u64 (number + 1))) else ret tt.

(** ** Construction *)

Definition empty_versions : Versions := mk_versions ∅ ∅ Dummy Dummy None (replicate (Z.to_nat kNumLevels) []).

Definition new_VersionSet (env : E) : res VS unit :=
  (on_versions (let! v := new_Version in AppendVersion v)) (mk_vset empty_versions env 2 0 0 0 0 None).

(** The destructor. *)
Definition delete_VersionSet : SM unit :=
  on_versions (let! v := current_version in Unref v) ;;;
  let! s := gets id in
  assert_ (bool_decide (dummy_next (vs_versions_ s) = Dummy)) ;;;
  match descriptor_ s with
  | Some (w, _) => on_env (fun e => (tt, file_delete w e))
  | None => ret tt
  end.

(** ** Writing the descriptor *)

Definition snapshot_pointers (pointers : list Slice) (edit : VersionEdit) : VersionEdit :=
  foldl (fun edit p => if (length (snd p) =? 0)%nat then edit else SetCompactPointer (fst p) (snd p) edit) edit
    (zip (seqZ 0 kNumLevels) pointers).

Definition snapshot_files (levels : list (list FilePtr)) (edit : VersionEdit) : VersionEdit :=
  foldl (fun edit p =>
    foldl (fun edit f => AddFile (fst p) (fnumber (meta f)) (file_size (meta f)) (smallest (meta f)) (largest (meta f)) edit)
      edit (snd p)) edit (zip (seqZ 0 kNumLevels) levels).

Definition snapshot_edit (s : Versions) (levels : list (list FilePtr)) : VersionEdit :=
  snapshot_files levels
    (snapshot_pointers (compact_pointer_ s) (SetComparatorName (c_string (@Name user_comparator)) new_VersionEdit)).

Definition WriteSnapshot : SM Status :=
  let! s := gets id in
  let! levels := on_versions (let! v := current_version in all_levels v) in
  let! record := or_ub (EncodeTo (snapshot_edit (vs_versions_ s) levels) []) in
  on_log (AddRecord record).

(** The numbers of the edit, where it has none. *)
Definition complete_edit (edit : VersionEdit) : SM VersionEdit :=
  let! s := gets id in
  let! edit :=
    if has_log_number_ edit then
      assert_ (vs_log_number_ s <=? log_number_ edit) ;;;
      assert_ (log_number_ edit <? vs_next_file_number_ s) ;;; ret edit
    else ret (SetLogNumber (vs_log_number_ s) edit) in
  let edit := if has_prev_log_number_ edit then edit else SetPrevLogNumber (vs_prev_log_number_ s) edit in
  ret (SetLastSequence (vs_last_sequence_ s) (SetNextFile (vs_next_file_number_ s) edit)).

(** The new version. *)
Definition build_version (edit : VersionEdit) : VM nat :=
  let! v := new_Version in
  let! c := current_version in
  let! b := new_Builder c in
  let! b := Apply user_comparator edit b in
  SaveTo user_comparator b v ;;;
  delete_Builder b ;;;
  Finalize v ;;;
  ret v.

(** A descriptor, if there is none: its name, and the status. *)
Definition new_descriptor (edit : VersionEdit) : SM (Status * option Slice * VersionEdit) :=
  let! s := gets id in
  match descriptor_ s with
  | Some _ => ret (Status_OK, None, edit)
  | None =>
      let! name := or_ub (DescriptorFileName dbname_ (vs_manifest_file_number_ s)) in
      let edit := SetNextFile (vs_next_file_number_ s) edit in
      let! r := on_env (NewWritableFile name) in
      let '(st, file) := r in
      if ok st then
        let! file := or_ub file in
        modify (set_descriptor (Some (file, 0))) ;;;
        let! st := WriteSnapshot in ret (st, Some name, edit)
      else ret (st, Some name, edit)
  end.

(** The edit is written to the descriptor and synced. *)
Definition write_edit (edit : VersionEdit) : SM Status :=
  let! record := or_ub (EncodeTo edit []) in
  let! st := on_log (AddRecord record) in
  if ok st then
    let! s := gets id in
    let! d := or_ub (descriptor_ s) in
    on_env (file_Sync d.1)
  else ret st.

(** [unlocked] is what other threads do while the mutex is not held. *)
Definition LogAndApply (unlocked : SM unit) (edit : VersionEdit) : SM (Status * VersionEdit) :=
  let! edit := complete_edit edit in
  let! v := on_versions (build_version edit) in
  let! r := new_descriptor edit in
  let '(st, new_manifest_file, edit) := r in
  unlocked ;;;
  let! st := if ok st then write_edit edit else ret st in
  let! s := gets id in
  let! st :=
    match new_manifest_file with
    | Some _ =>
        if ok st then
          let! r := or_ub (SetCurrentFile dbname_ (vs_manifest_file_number_ s) (vs_env_ s)) in
          on_env (fun _ => r)
        else ret st
    | None => ret st
    end in
  if ok st then
    on_versions (AppendVersion v) ;;;
    modify (set_log_numbers (log_number_ edit) (prev_log_number_ edit)) ;;;
    ret (st, edit)
  else
    on_versions (delete_Version v) ;;;
    match new_manifest_file with
    | Some name =>
        let! s := gets id in
        match descriptor_ s with
        | Some (w, _) => on_env (fun e => (tt, file_delete w e))
        | None => ret tt
        end ;;;
        modify (set_descriptor None) ;;;
        on_env (fun e => (tt, (DeleteFile name e).2))
    | None => ret tt
    end ;;;
    ret (st, edit).

(** ** Reading the descriptor *)

(** The variables of the loop of [Recover]: the reader, the builder, the status, and
    what has been found of the numbers. *)
Record recover_vars := mk_recover {
  rc_reader : Reader G;
  rc_builder : Builder;
  rc_status : Status;
  rc_log_number : option Z;
  rc_prev_log_number : option Z;
  rc_next_file : option Z;
  rc_last_sequence : option Z
}.

(** [LogReporter::Corruption], for the calls made by one [ReadRecord]. *)
Definition report (status : Status) (drops : list (Z * Status)) : Status :=
  foldl (fun status d => if ok status then snd d else status) status drops.

Definition updated (has : bool) (n : Z) (old : option Z) : option Z := if has then Some n else old.

(** The status of an edit that has been read. *)
Definition check_edit (st : Status) (edit : VersionEdit) : option Status :=
  if ok st && (has_comparator_ edit && negb (slice_eqb (comparator_ edit) (c_string (@Name user_comparator)))) then
    Status_InvalidArgument (comparator_ edit ++ c_string " does not match existing comparator ")
      (c_string (@Name user_comparator))
  else Some st.

Definition recover_round (fuel : nat) (vars : recover_vars) : SM (recover_vars + recover_vars) :=
  let before := length (r_drops (rc_reader vars)) in
  match ReadRecord true true 0 fuel (rc_reader vars) with
  | Ok record reader =>
      let st := report (rc_status vars) (drop before (r_drops reader)) in
      match record with
      | Some record =>
          if ok st then
            match DecodeFrom record new_VersionEdit with
            | Ok st edit =>
                let! st := or_ub (check_edit st edit) in
                let! b := if ok st then on_versions (Apply user_comparator edit (rc_builder vars))
                          else ret (rc_builder vars) in
                ret (inl (mk_recover reader b st
                  (updated (has_log_number_ edit) (log_number_ edit) (rc_log_number vars))
                  (updated (has_prev_log_number_ edit) (prev_log_number_ edit) (rc_prev_log_number vars))
                  (updated (has_next_file_number_ edit) (next_file_number_ edit) (rc_next_file vars))
                  (updated (has_last_sequence_ edit) (last_sequence_ edit) (rc_last_sequence vars))))
            | _ => ub
            end
          else ret (inr (mk_recover reader (rc_builder vars) st (rc_log_number vars) (rc_prev_log_number vars)
                           (rc_next_file vars) (rc_last_sequence vars)))
      | None => ret (inr (mk_recover reader (rc_builder vars) st (rc_log_number vars) (rc_prev_log_number vars)
                            (rc_next_file vars) (rc_last_sequence vars)))
      end
  | OutOfFuel => out_of_fuel
  | _ => ub
  end.

(** The numbers that must have been found; [prev_log_number] need not be. *)
Definition recovered_status (vars : recover_vars) : option Status :=
  match rc_next_file vars, rc_log_number vars, rc_last_sequence vars with
  | None, _, _ => Status_Corruption (c_string "no meta-nextfile entry in descriptor") []
  | _, None, _ => Status_Corruption (c_string "no meta-lognumber entry in descriptor") []
  | _, _, None => Status_Corruption (c_string "no last-sequence-number entry in descriptor") []
  | _, _, _ => Some (rc_status vars)
  end.

(** The version that has been read becomes the current one. *)
Definition install (vars : recover_vars) : SM unit :=
  on_versions (let! v := new_Version in
               SaveTo user_comparator (rc_builder vars) v ;;; Finalize v ;;; AppendVersion v) ;;;
  let next_file := default 0 (rc_next_file vars) in
  modify (set_manifest_file_number next_file) ;;;
  modify (set_next_file_number (u64 (next_file + 1))) ;;;
  modify (set_vs_last_sequence (default 0 (rc_last_sequence vars))) ;;;
  modify (set_log_numbers (default 0 (rc_log_number vars)) (default 0 (rc_prev_log_number vars))).

Definition recover_from (fuel : nat) (file : G) : SM Status :=
  let! b := on_versions (let! c := current_version in new_Builder c) in
  let! vars := loop fuel (recover_round fuel) (mk_recover (new_Reader file) b Status_OK None None None None) in
  let! st :=
    if ok (rc_status vars) then
      let! st := or_ub (recovered_status vars) in
      MarkFileNumberUsed (default 0 (rc_prev_log_number vars)) ;;;
      MarkFileNumberUsed (default 0 (rc_log_number vars)) ;;;
      ret st
    else ret (rc_status vars) in
  (if ok st then install vars else ret tt) ;;;
  on_versions (delete_Builder (rc_builder vars)) ;;;
  ret st.

Definition Recover (fuel : nat) : SM Status :=
  let! s := gets id in
  let! r := or_ub (ReadFileToString fuel (CurrentFileName dbname_) (vs_env_ s)) in
  let '(st, current) := r in
  if negb (ok st) then ret st
  else
    match last current with
    | Some 10 =>
        let current := take (length current - 1) current in
        let '(st, file) := NewSequentialFile (dbname_ ++ c_string "/" ++ current) (vs_env_ s) in
        if negb (ok st) then ret st
        else let! file := or_ub file in recover_from fuel file
    | _ => or_ub (Status_Corruption (c_string "CURRENT file does not end with newline") [])
    end.

End set.
