(* ===== verification/Compaction.v ===== *)
(** * Compactions (version_set.h, version_set.cc)

    Which files are merged into the next level: the inputs, their ranges, and the
    questions that the merge asks for every key. *)

From Stdlib Require Import ZArith Lia String SpecFloat.
From stdpp Require Import base option list strings sorting gmap.
From S2P Require Import Prelude Memory Slice Coding DbFormat Status Iterator Table Merger VersionEdit LevelFiles Version.
From S2P Require Import VersionSet.

(** [inputs_] and [grandparents_] hold pointers to files. *)
Record Compaction := mk_compaction {
  c_level : Z;
  max_output_file_size_ : Z;
  input_version_ : option nat;
  c_edit : VersionEdit;
  inputs_0 : list nat;
  inputs_1 : list nat;
  grandparents_ : list nat;
  grandparent_index_ : nat;
  seen_key_ : bool;
  overlapped_bytes_ : Z;
  level_ptrs_ : list nat
}.

Definition new_Compaction (level : Z) : Compaction :=
  mk_compaction level (MaxFileSizeForLevel level) None new_VersionEdit [] [] [] 0 false 0
    (replicate (Z.to_nat kNumLevels) 0%nat).

Definition set_inputs (i0 i1 : list nat) (c : Compaction) : Compaction :=
  mk_compaction (c_level c) (max_output_file_size_ c) (input_version_ c) (c_edit c) i0 i1 (grandparents_ c)
    (grandparent_index_ c) (seen_key_ c) (overlapped_bytes_ c) (level_ptrs_ c).
Definition set_grandparents (g : list nat) (c : Compaction) : Compaction :=
  mk_compaction (c_level c) (max_output_file_size_ c) (input_version_ c) (c_edit c) (inputs_0 c) (inputs_1 c) g
    (grandparent_index_ c) (seen_key_ c) (overlapped_bytes_ c) (level_ptrs_ c).
Definition set_input_version (v : option nat) (c : Compaction) : Compaction :=
  mk_compaction (c_level c) (max_output_file_size_ c) v (c_edit c) (inputs_0 c) (inputs_1 c) (grandparents_ c)
    (grandparent_index_ c) (seen_key_ c) (overlapped_bytes_ c) (level_ptrs_ c).
Definition set_c_edit (e : VersionEdit) (c : Compaction) : Compaction :=
  mk_compaction (c_level c) (max_output_file_size_ c) (input_version_ c) e (inputs_0 c) (inputs_1 c) (grandparents_ c)
    (grandparent_index_ c) (seen_key_ c) (overlapped_bytes_ c) (level_ptrs_ c).
Definition set_overlap (index : nat) (seen : bool) (bytes : Z) (c : Compaction) : Compaction :=
  mk_compaction (c_level c) (max_output_file_size_ c) (input_version_ c) (c_edit c) (inputs_0 c) (inputs_1 c)
    (grandparents_ c) index seen bytes (level_ptrs_ c).
Definition set_level_ptrs (l : list nat) (c : Compaction) : Compaction :=
  mk_compaction (c_level c) (max_output_file_size_ c) (input_version_ c) (c_edit c) (inputs_0 c) (inputs_1 c)
    (grandparents_ c) (grandparent_index_ c) (seen_key_ c) (overlapped_bytes_ c) l.

(** [~Compaction] and [ReleaseInputs]. *)
Definition ReleaseInputs (c : Compaction) : VM Compaction :=
  match input_version_ c with
  | Some v => Unref v ;;; ret (set_input_version None c)
  | None => ret c
  end.
Definition delete_Compaction (c : Compaction) : VM unit :=
  match input_version_ c with Some v => Unref v | None => ret tt end.

Section compaction.
Context (user_comparator : Comparator).

Abbreviation icmp := (InternalKeyComparator user_comparator).

(** ** Ranges *)

(** One step of the loop of [GetRange]. *)
Definition extend_range (range : Slice * Slice) (f : FilePtr) : option (Slice * Slice) :=
  let '(small, large) := range in
  a ← compare_keys user_comparator (smallest (meta f)) small;
  b ← compare_keys user_comparator (largest (meta f)) large;
  Some (if a <? 0 then smallest (meta f) else small, if 0 <? b then largest (meta f) else large).

Fixpoint extend_ranges (range : Slice * Slice) (inputs : list FilePtr) : option (Slice * Slice) :=
  match inputs with
  | [] => Some range
  | f :: inputs => range ← extend_range range f; extend_ranges range inputs
  end.

Definition GetRange (inputs : list FilePtr) : option (Slice * Slice) :=
  match inputs with
  | [] => None
  | f :: inputs => extend_ranges (smallest (meta f), largest (meta f)) inputs
  end.

Definition GetRange2 (inputs1 inputs2 : list FilePtr) : option (Slice * Slice) := GetRange (inputs1 ++ inputs2).

(** The files of a level of the current version that overlap with a range. *)
Definition overlapping_files (level : Z) (range : Slice * Slice) : VM (list FilePtr) :=
  let! v := current_version in
  let! files := level_files v level in
  GetOverlappingInputs user_comparator level files (Some range.1) (Some range.2).

(** ** Choosing the inputs *)

(** Whether the inputs of the level can grow without more inputs of the next level:
    the inputs and the range of all of them. *)
Definition expand_inputs (level : Z) (inputs0 inputs1 : list FilePtr) (largest_key : Slice) (all : Slice * Slice)
    : VM (list FilePtr * list FilePtr * Slice * (Slice * Slice)) :=
  let kept := (inputs0, inputs1, largest_key, all) in
  if (length inputs1 =? 0)%nat then ret kept
  else
    let! expanded0 := overlapping_files level all in
    let inputs1_size := TotalFileSize inputs1 in
    let expanded0_size := TotalFileSize expanded0 in
    if (length inputs0 <? length expanded0)%nat &&
       (s64 (inputs1_size + expanded0_size) <? kExpandedCompactionByteSizeLimit) then
      let! new_range := or_ub (GetRange expanded0) in
      let! expanded1 := overlapping_files (level + 1) new_range in
      if (length expanded1 =? length inputs1)%nat then
        let! all := or_ub (GetRange2 expanded0 expanded1) in
        ret (expanded0, expanded1, new_range.2, all)
      else ret kept
    else ret kept.

Definition SetupOtherInputs (c : Compaction) : VM Compaction :=
  let level := c_level c in
  let! inputs0 := load_files (inputs_0 c) in
  let! range := or_ub (GetRange inputs0) in
  let! inputs1 := overlapping_files (level + 1) range in
  let! all := or_ub (GetRange2 inputs0 inputs1) in
  let! r := expand_inputs level inputs0 inputs1 range.2 all in
  let '(inputs0, inputs1, largest_key, all) := r in
  let! grandparents :=
    if level + 2 <? kNumLevels then
      let! files := overlapping_files (level + 2) all in ret (files.*1)
    else ret (grandparents_ c) in
  let c := set_grandparents grandparents (set_inputs (inputs0.*1) (inputs1.*1) c) in
  let! k := or_ub (InternalKey_Encode largest_key) in
  let! s := gets id in
  let! _ := or_ub (at_level level (compact_pointer_ s)) in
  modify (set_compact_pointer (insert_level level k)) ;;;
  ret (set_c_edit (SetCompactPointer level largest_key (c_edit c)) c).

(** The first file behind the pointer of the level. *)
Fixpoint first_after (pointer : Slice) (files : list FilePtr) : option (option FilePtr) :=
  match files with
  | [] => Some None
  | f :: files =>
      b ← match pointer with
          | [] => Some true
          | _ => k ← InternalKey_Encode (largest (meta f)); r ← @Compare icmp k pointer; Some (0 <? r)
          end;
      if b : bool then Some (Some f) else first_after pointer files
  end.

(** The compaction of the size or of the seeks, with its first input. *)
Definition pick_input : VM (option Compaction) :=
  let! v := current_version in
  let! x := load_version v in
  if SFleb (double_of 1) (compaction_score_ x) then
    let level := compaction_level_ x in
    assert_ (0 <=? level) ;;; assert_ (level + 1 <? kNumLevels) ;;;
    let! files := level_files v level in
    let! s := gets id in
    let! pointer := or_ub (at_level level (compact_pointer_ s)) in
    let! f := or_ub (first_after pointer files) in
    let! f := match f with Some f => ret f | None => or_ub (head files) end in
    ret (Some (set_inputs [f.1] [] (new_Compaction level)))
  else
    match file_to_compact_ x with
    | Some p => ret (Some (set_inputs [p] [] (new_Compaction (file_to_compact_level_ x))))
    | None => ret None
    end.

Definition PickCompaction : VM (option Compaction) :=
  let! c := pick_input in
  match c with
  | None => ret None
  | Some c =>
      let! v := current_version in
      Ref v ;;;
      let c := set_input_version (Some v) c in
      let! c :=
        if c_level c =? 0 then
          let! inputs0 := load_files (inputs_0 c) in
          let! range := or_ub (GetRange inputs0) in
          let! inputs0 := overlapping_files 0 range in
          assert_ (negb (length inputs0 =? 0)%nat) ;;;
          ret (set_inputs (inputs0.*1) (inputs_1 c) c)
        else ret c in
      let! c := SetupOtherInputs c in ret (Some c)
  end.

(** [inputs.resize(i + 1)] at the file where the total reaches the limit. *)
Fixpoint limit_inputs (limit total : Z) (inputs : list FilePtr) : list FilePtr :=
  match inputs with
  | [] => []
  | f :: inputs =>
      let total := u64 (total + file_size (meta f)) in
      if limit <=? total then [f] else f :: limit_inputs limit total inputs
  end.

Definition CompactRange (level : Z) (begin end_ : option Slice) : VM (option Compaction) :=
  let! v := current_version in
  let! files := level_files v level in
  let! inputs := GetOverlappingInputs user_comparator level files begin end_ in
  if (length inputs =? 0)%nat then ret None
  else
    let inputs := if 0 <? level then limit_inputs (MaxFileSizeForLevel level) 0 inputs else inputs in
    Ref v ;;;
    let! c := SetupOtherInputs (set_inputs (inputs.*1) [] (set_input_version (Some v) (new_Compaction level))) in
    ret (Some c).

(** The largest overlap of a file with the next level. *)
Definition level_overlaps (level : Z) (result : Z) : VM Z :=
  let! v := current_version in
  let! files := level_files v level in
  fold_m (fun result f =>
    let! overlaps := overlapping_files (level + 1) (smallest (meta f), largest (meta f)) in
    let sum := TotalFileSize overlaps in
    ret (if result <? sum then sum else result)) result files.

Definition MaxNextLevelOverlappingBytes : VM Z :=
  fold_m (fun result level => level_overlaps level result) 0 (seqZ 1 (kNumLevels - 2)).

(** ** Questions *)

Definition IsTrivialMove (c : Compaction) : VM bool :=
  if (length (inputs_0 c) =? 1)%nat && (length (inputs_1 c) =? 0)%nat then
    let! gs := load_files (grandparents_ c) in ret (TotalFileSize gs <=? kMaxGrandParentOverlapBytes)
  else ret false.

Definition AddInputDeletions (c : Compaction) (edit : VersionEdit) : VM VersionEdit :=
  let! inputs0 := load_files (inputs_0 c) in
  let! inputs1 := load_files (inputs_1 c) in
  ret (foldl (fun edit f => VersionEdit_DeleteFile (c_level c + 1) (fnumber (meta f)) edit)
         (foldl (fun edit f => VersionEdit_DeleteFile (c_level c) (fnumber (meta f)) edit) edit inputs0) inputs1).

(** The loop over the files of a level, from [level_ptrs_[lvl]] on: where it stops,
    and whether the key is in the range of the file there. *)
Fixpoint advance_ptr (user_key : Slice) (ptr : nat) (files : list FilePtr) : option (nat * bool) :=
  match files with
  | [] => Some (ptr, false)
  | f :: files =>
      l ← InternalKey_user_key (largest (meta f));
      c ← @Compare user_comparator user_key l;
      if c <=? 0 then
        s ← InternalKey_user_key (smallest (meta f));
        d ← @Compare user_comparator user_key s;
        Some (ptr, 0 <=? d)
      else advance_ptr user_key (S ptr) files
  end.

(** The levels from [lvl] on. *)
Fixpoint base_levels (user_key : Slice) (lvl : nat) (levels : list (list FilePtr)) (ptrs : list nat)
    : option (bool * list nat) :=
  match levels with
  | [] => Some (true, ptrs)
  | files :: levels =>
      ptr ← ptrs !! lvl;
      r ← advance_ptr user_key ptr (drop ptr files);
      let '(ptr, found) := r in
      let ptrs := <[lvl := ptr]> ptrs in
      if found : bool then Some (false, ptrs) else base_levels user_key (S lvl) levels ptrs
  end.

Definition IsBaseLevelForKey (user_key : Slice) (c : Compaction) : VM (bool * Compaction) :=
  let! v := or_ub (input_version_ c) in
  let! levels := all_levels v in
  let lvl := Z.to_nat (c_level c + 2) in
  let! r := or_ub (base_levels user_key lvl (drop lvl levels) (level_ptrs_ c)) in
  ret (r.1, set_level_ptrs r.2 c).

(** The loop over the grandparents that end before the key: how many, and the bytes. *)
Fixpoint skip_grandparents (internal_key : Slice) (seen : bool) (bytes : Z) (files : list FilePtr) : option (nat * Z) :=
  match files with
  | [] => Some (0%nat, bytes)
  | f :: files =>
      k ← InternalKey_Encode (largest (meta f));
      r ← @Compare icmp internal_key k;
      if 0 <? r then
        q ← skip_grandparents internal_key seen (if seen then s64 (bytes + file_size (meta f)) else bytes) files;
        let '(n, bytes) := q in Some (S n, bytes)
      else Some (0%nat, bytes)
  end.

Definition ShouldStopBefore (internal_key : Slice) (c : Compaction) : VM (bool * Compaction) :=
  let! gs := load_files (grandparents_ c) in
  let! r := or_ub (skip_grandparents internal_key (seen_key_ c) (overlapped_bytes_ c) (drop (grandparent_index_ c) gs)) in
  let '(n, bytes) := r in
  let index := (grandparent_index_ c + n)%nat in
  ret (if kMaxGrandParentOverlapBytes <? bytes then (true, set_overlap index true 0 c)
       else (false, set_overlap index true bytes c)).

(** ** Tables *)

Section tables.
Context {T TI TB : Type} {TC : TableCacheOps T TI TB}.

(** [options] are those of the database: whether checksums are verified. *)
Definition input_iterators (options : ReadOptions) (level : Z) (which : Z) (inputs : list FilePtr)
    : M T (list (TI + TwoLevelIterator LevelFileNumIterator TI T)) :=
  if (length inputs =? 0)%nat then ret []
  else if level + which =? 0 then
    map_m (fun f => let! r := tc_NewIterator options (fnumber (meta f)) (file_size (meta f)) in ret (inl r.1)) inputs
  else
    let! cache := gets id in
    let! it := or_ub (NewConcatenatingIterator user_comparator inputs cache) in ret [inr it].

Context {TIter : Iterator TI} (fuel : nat).

Abbreviation Input := (TI + TwoLevelIterator LevelFileNumIterator TI T)%type.

Definition input_iterator_class (options : ReadOptions) : Iterator (TI + TwoLevelIterator LevelFileNumIterator TI T) :=
  Either_Iterator TIter
    (@TwoLevel_Iterator _ _ _ (LevelFile_Iterator user_comparator) TIter
      (GetFileIterator options) tc_delete_iterator fuel).

Definition MakeInputIterator (paranoid_checks : bool) (level : Z) (inputs0 inputs1 : list FilePtr)
    : M T (Status + (Input + MergingIterator Input)) :=
  let options := mk_read_options paranoid_checks false in
  let space := if level =? 0 then (length inputs0 + 1)%nat else 2%nat in
  let! l0 := input_iterators options level 0 inputs0 in
  let! l1 := input_iterators options level 1 inputs1 in
  assert_ (length (l0 ++ l1) <=? space)%nat ;;;
  or_ub (@NewMergingIterator _ (input_iterator_class options) (l0 ++ l1)).

(** The part of a file that is before the key. *)
Definition file_offset (ikey : Slice) (result : Z) (f : FilePtr) : M T Z :=
  let! r := tc_NewIterator new_ReadOptions (fnumber (meta f)) (file_size (meta f)) in
  let '(iter, tableptr) := r in
  let! result :=
    match tableptr with
    | Some t =>
        let! k := or_ub (InternalKey_Encode ikey) in
        let! n := tc_ApproximateOffsetOf t k in ret (u64 (result + n))
    | None => ret result
    end in
  tc_delete_iterator iter ;;; ret result.

Fixpoint level_offset (ikey : Slice) (level : Z) (result : Z) (files : list FilePtr) : M T Z :=
  match files with
  | [] => ret result
  | f :: files =>
      let! a := or_ub (compare_keys user_comparator (largest (meta f)) ikey) in
      if a <=? 0 then level_offset ikey level (u64 (result + file_size (meta f))) files
      else
        let! b := or_ub (compare_keys user_comparator (smallest (meta f)) ikey) in
        if 0 <? b then
          if 0 <? level then ret result else level_offset ikey level result files
        else
          let! result := file_offset ikey result f in level_offset ikey level result files
  end.

Fixpoint levels_offset (ikey : Slice) (level : Z) (result : Z) (levels : list (list FilePtr)) : M T Z :=
  match levels with
  | [] => ret result
  | files :: levels =>
      let! result := level_offset ikey level result files in levels_offset ikey (level + 1) result levels
  end.

(** [VersionSet::ApproximateOffsetOf], on the files of the version. *)
Definition VersionSet_ApproximateOffsetOf (levels : list (list FilePtr)) (ikey : Slice) : M T Z :=
  levels_offset ikey 0 0 levels.

End tables.
End compaction.
