(* ===== verification/TableCache.v ===== *)
(** * The cache of open tables (table_cache.h, table_cache.cc)

    Tables are opened by the number of their file and kept, open, in a cache.  The
    blocks of the tables are in another cache, of which an iterator takes its own
    copy. *)

From Stdlib Require Import ZArith Lia String.
From stdpp Require Import base option list strings gmap.
From S2P Require Import Prelude Memory Slice Coding DbFormat Status Iterator Block Format TableBuilder LRU Table.
From S2P Require Import Env FileName VersionEdit LevelFiles Version.

(** [cache_], the block cache of the options, and what the environment holds. *)
Record TableCache (Y X E : Type) := mk_table_cache {
  tables_ : Y;
  blocks_ : option X;
  tc_env : E
}.
Arguments mk_table_cache {Y X E}. Arguments tables_ {Y X E}. Arguments blocks_ {Y X E}. Arguments tc_env {Y X E}.

(** An iterator over a table with the options it was made with, or one for an error,
    and the handles that its cleanup functions release. *)
Record CachedIterator (R I J : Type) := mk_cached {
  ci_iter : Status + Table R * ReadOptions * I;
  ci_cleanup : list J
}.
Arguments mk_cached {R I J}. Arguments ci_iter {R I J}. Arguments ci_cleanup {R I J}.

Section table_cache.
Context {PL : Platform} {PM : Placement} {SN : Snappy}.
Context {E W G R : Type} {FS : FileSystem E W G R} {RA : RandomAccessFile R}.
Context {X H : Type} {CA : Cache X H Block}.
Context {Y J : Type} {CT : Cache Y J (Table R)}.
Context (options : Options) (dbname_ : Slice).

Abbreviation TC := (TableCache Y X E).
Abbreviation TableIt := (TwoLevelIterator (TableIter H) (TableIter H) (option X)).
Abbreviation CI := (CachedIterator R TableIt J).

Definition on_tables {A} : M Y A -> M TC A := zoom tables_ (fun y s => mk_table_cache y (blocks_ s) (tc_env s)).
Definition on_blocks {A} : M (option X) A -> M TC A := zoom blocks_ (fun x s => mk_table_cache (tables_ s) x (tc_env s)).

Definition table_key (file_number : Z) : Slice := EncodeFixed64 file_number.

(** The file of a table, under its name or its old name. *)
Definition open_file (file_number : Z) : M TC (Status * option R) :=
  let! s := gets id in
  let! fname := or_ub (TableFileName dbname_ file_number) in
  let '(st, file) := NewRandomAccessFile fname (tc_env s) in
  if negb (ok st) then
    let! old_fname := or_ub (SSTTableFileName dbname_ file_number) in
    let '(st', file) := NewRandomAccessFile old_fname (tc_env s) in
    ret (if ok st' then Status_OK else st, file)
  else ret (st, file).

Definition FindTable (file_number file_size : Z) : M TC (Status * option J) :=
  let! handle := on_tables (cache_Lookup (table_key file_number)) in
  match handle with
  | Some h => ret (Status_OK, Some h)
  | None =>
      let! r := open_file file_number in
      let '(st, file) := r in
      if ok st then
        let! file := or_ub file in
        let! r := on_blocks (Open options file file_size) in
        let '(st, table) := r in
        if negb (ok st) then
          assert_ (match table with None => true | Some _ => false end) ;;; ret (st, None)
        else
          let! table := or_ub table in
          let! h := on_tables (cache_Insert (table_key file_number) table 1) in
          ret (st, Some h)
      else ret (st, None)
  end.

(** The iterator, and the table for [tableptr]. *)
Definition TableCache_NewIterator (o : ReadOptions) (file_number file_size : Z) : M TC (CI * option (Table R)) :=
  let! r := FindTable file_number file_size in
  let '(st, handle) := r in
  if negb (ok st) then ret (mk_cached (inl st) [], None)
  else
    let! handle := or_ub handle in
    let! table := on_tables (cache_Value handle) in
    let! s := gets id in
    let! result := or_ub (Table_NewIterator table (blocks_ s)) in
    ret (mk_cached (inr (table, o, result)) (RegisterCleanup handle []), Some table).

Definition TableCache_Get (o : ReadOptions) (file_number file_size : Z) (k : Slice)
    : M TC (Status * option (Slice * Slice)) :=
  let! r := FindTable file_number file_size in
  let '(st, handle) := r in
  if ok st then
    let! handle := or_ub handle in
    let! t := on_tables (cache_Value handle) in
    let! r := on_blocks (InternalGet t o k) in
    on_tables (cache_Release handle) ;;;
    ret r
  else ret (st, None).

Definition Evict (file_number : Z) : M TC unit := on_tables (cache_Erase (table_key file_number)).

(** The destructor of an iterator: the blocks it holds are released, then the table. *)
Definition delete_cached (i : CI) : M TC unit :=
  match ci_iter i with
  | inl _ => ret tt
  | inr (_, _, t) =>
      match two_level_delete delete_iter delete_iter t with
      | Ok _ t => modify (fun s => mk_table_cache (tables_ s) (arg_ t) (tc_env s))
      | _ => ub
      end
  end ;;;
  iter_m (fun h => on_tables (cache_Release h)) (ci_cleanup i).

#[export] Instance TableCache_ops : TableCacheOps TC CI (Table R) := {|
  tc_NewIterator := TableCache_NewIterator;
  tc_NewErrorIterator st := mk_cached (inl st) [];
  tc_Get := TableCache_Get;
  tc_ApproximateOffsetOf t k := on_blocks (ApproximateOffsetOf t k);
  tc_delete_iterator := delete_cached
|}.

(** The virtual functions of the iterators. *)
Section iterator.
(** As many blocks as can be skipped in a row. *)
Context (fuel : nat).

Definition Table_Iterator (t : Table R) (o : ReadOptions) : Iterator TableIt :=
  @TwoLevel_Iterator _ _ _ (Table_Iter (comparator (t_options t))) (Table_Iter (comparator (t_options t)))
    (BlockReader t o) delete_iter fuel.

Definition on_table_iter {A} (f : forall S, Iterator S -> M S A) : M CI A := fun i =>
  match ci_iter i with
  | inl st => zoom (fun _ => st) (fun st i => mk_cached (inl st) (ci_cleanup i)) (f _ EmptyIterator) i
  | inr (t, o, it) =>
      zoom (fun _ => it) (fun it i => mk_cached (inr (t, o, it)) (ci_cleanup i)) (f _ (Table_Iterator t o)) i
  end.

Definition Cached_Iterator : Iterator CI := {|
  it_Valid i := match ci_iter i with inl _ => false | inr (t, o, it) => @it_Valid _ (Table_Iterator t o) it end;
  it_SeekToFirst := on_table_iter (fun _ I => it_SeekToFirst);
  it_SeekToLast := on_table_iter (fun _ I => it_SeekToLast);
  it_Seek k := on_table_iter (fun _ I => it_Seek k);
  it_Next := on_table_iter (fun _ I => it_Next);
  it_Prev := on_table_iter (fun _ I => it_Prev);
  it_key := on_table_iter (fun _ I => it_key);
  it_value := on_table_iter (fun _ I => it_value);
  it_status i := match ci_iter i with inl st => Some st | inr (t, o, it) => @it_status _ (Table_Iterator t o) it end
|}.

End iterator.
End table_cache.
