(* ===== verification/VersionRead.v ===== *)
(** * Looking up a key in a version

    The files of a version are searched from the newest to the oldest: the files of
    level 0 one by one, then one file of each level.  What is found is the newest
    entry of the key, provided that entries in earlier files are newer. *)

From Stdlib Require Import ZArith Lia String.
From stdpp Require Import base option list strings sorting gmap.
From S2P Require Import Prelude Memory Slice Coding DbFormat Status Iterator TwoLevelProof MergeLists MemTheorems MemIterator Table.
From S2P Require Import UserView VersionEdit LevelFiles LevelFilesProof Version.

Section lookup.
Context (C : Comparator) {L : ComparatorLaws C}.

Abbreviation icmp := (InternalKeyComparator C).
Abbreviation ilaws := (InternalKeyComparator_laws C).

(** ** Sorted entries *)

Definition entry_key (e : Entry) : Slice := (entry_pair e).1.

Lemma entry_file_key e : entry_ok C e -> file_key C (entry_key e).
Proof.
  intros (Hk & Hs & Ht & _). exists (e_key e), (e_seq e), (e_type e). split; [done|]. split; [apply Hk|].
  split; [done|]. unfold kTypeDeletion, kTypeValue in *. lia.
Qed.

Lemma ukey_entry e : ukey (entry_key e) = e_key e.
Proof. apply ukey_internal. Qed.

(** The key that is sought: behind the entries of the key that are newer than [s]. *)
Definition lookup_at (u : Slice) (s : Z) : Slice := internal u (256 * s + kValueTypeForSeek).

Lemma lookup_at_key u s : valid u -> 0 <= s <= kMaxSequenceNumber -> file_key C (lookup_at u s).
Proof. intros Hu Hs. by exists u, s, kValueTypeForSeek. Qed.

Lemma before_lookup e u s : entry_ok C e -> valid u -> 0 <= s <= kMaxSequenceNumber ->
  before icmp (entry_key e) (lookup_at u s) = before C (e_key e) u || (negb (before C u (e_key e)) && (s <? e_seq e)).
Proof.
  intros He Hu Hs. pose proof (e_number_range C e He) as Hn. destruct He as (Hk & Hse & Ht & _).
  unfold kMaxSequenceNumber, kTypeDeletion, kTypeValue in *. unfold entry_key, entry_pair, lookup_at. cbn [fst].
  rewrite (before_internal C) by (done || apply Hk || (unfold kValueTypeForSeek, kTypeValue; lia)).
  f_equal. f_equal. unfold kValueTypeForSeek, kTypeValue, e_number.
  destruct (Z.ltb_spec (256 * s + 1) (256 * e_seq e + e_type e)), (Z.ltb_spec s (e_seq e)); done || lia.
Qed.

Lemma visible_before e u s : entry_ok C e -> valid u ->
  visible C u s e = negb (before C (e_key e) u) && negb (before C u (e_key e)) && (e_seq e <=? s).
Proof.
  intros He Hu. destruct (compare_tests C (e_key e) u) as (r & E & <- & <-); [apply He|done|].
  unfold visible. rewrite E. f_equal. destruct (Z.eqb_spec r 0) as [->|]; [done|].
  destruct (Z.ltb_spec r 0), (Z.ltb_spec 0 r); done || lia.
Qed.

(** The newest visible entry, or that there is none. *)
Definition is_newest (u : Slice) (s : Z) (es : list Entry) (r : option Entry) : Prop :=
  match r with
  | Some e => e ∈ es /\ visible C u s e = true /\ forall e', e' ∈ es -> visible C u s e' = true -> e_seq e' <= e_seq e
  | None => forall e', e' ∈ es -> visible C u s e' = false
  end.

(** Where a search for the key stops in a sorted list, and what that says. *)
Definition stop (u : Slice) (s : Z) (es : list Entry) : nat := keys_before icmp (lookup_at u s) (entry_pair <$> es).

Definition at_stop (u : Slice) (s : Z) (es : list Entry) : option Entry :=
  match es !! stop u s es with
  | Some e => if before C u (e_key e) then None else Some e
  | None => None
  end.

Lemma entry_stop u s es i e : internal_sorted C es -> valid u -> 0 <= s <= kMaxSequenceNumber -> es !! i = Some e ->
  before icmp (entry_key e) (lookup_at u s) = (i <? stop u s es)%nat.
Proof.
  intros [_ Hs] Hu Hrange Hi. apply (sorted_target icmp (L := ilaws) _ i (entry_pair e)); [done| |].
  - by apply file_key_valid, lookup_at_key.
  - by rewrite list_lookup_fmap, Hi.
Qed.

Lemma visible_not_before e u s : entry_ok C e -> valid u -> 0 <= s <= kMaxSequenceNumber -> visible C u s e = true ->
  before icmp (entry_key e) (lookup_at u s) = false.
Proof.
  intros He Hu Hs Hv. rewrite before_lookup by done. rewrite visible_before in Hv by done.
  apply andb_prop in Hv as [[Hv1 Hv2]%andb_prop Hv3]. apply negb_true_iff in Hv1, Hv2. rewrite Hv1, Hv2. cbn.
  apply Z.leb_le in Hv3. apply Z.ltb_ge. lia.
Qed.

(** Behind an entry of a larger key, in the order of internal keys, nothing is visible. *)
Lemma larger_not_visible e e' u s : entry_ok C e -> entry_ok C e' -> valid u -> before C u (e_key e) = true ->
  before icmp (entry_key e) (entry_key e') = true -> visible C u s e' = false.
Proof.
  intros He He' Hu Hue Hb. destruct (visible C u s e') eqn:Hv; [|done].
  rewrite visible_before in Hv by done. apply andb_prop in Hv as [[_ Hv2]%andb_prop _]. apply negb_true_iff in Hv2.
  apply (before_user C) in Hb; [|by apply entry_file_key..]. rewrite !ukey_entry in Hb.
  by rewrite (before_then_not C u (e_key e) (e_key e')) in Hv2 by (done || apply He || apply He').
Qed.

(** Of two visible entries the first is the newer. *)
Lemma visible_order e e' u s : entry_ok C e -> entry_ok C e' -> valid u -> visible C u s e = true ->
  visible C u s e' = true -> before icmp (entry_key e) (entry_key e') = true -> e_seq e' <= e_seq e.
Proof.
  intros He He' Hu Hv Hv' Hb. rewrite visible_before in Hv, Hv' by done.
  apply andb_prop in Hv as [[Hv1 Hv2]%andb_prop _]. apply andb_prop in Hv' as [[Hv1' Hv2']%andb_prop _].
  apply negb_true_iff in Hv1, Hv2, Hv1', Hv2'. unfold entry_key, entry_pair in Hb. cbn [fst] in Hb.
  rewrite (before_internal C) in Hb by (apply He || apply He' || by apply (e_number_range C)).
  rewrite (not_before_trans C (e_key e') u (e_key e)) in Hb by (done || apply He || apply He'). cbn [orb] in Hb.
  apply andb_prop in Hb as [_ Hlt%Z.ltb_lt]. unfold e_number in Hlt. destruct He as (_ & _ & Ht & _), He' as (_ & _ & Ht' & _).
  unfold kTypeDeletion, kTypeValue in *. lia.
Qed.

Lemma entries_before es i j e e' : internal_sorted C es -> es !! i = Some e -> es !! j = Some e' -> (i < j)%nat ->
  before icmp (entry_key e) (entry_key e') = true.
Proof.
  intros [_ Hs] Hi Hj Hij. apply (entries_sorted icmp (L := ilaws) _ Hs i j (entry_pair e) (entry_pair e')); [| |done].
  - by rewrite list_lookup_fmap, Hi.
  - by rewrite list_lookup_fmap, Hj.
Qed.

Lemma at_stop_newest u s es : internal_sorted C es -> valid u -> 0 <= s <= kMaxSequenceNumber ->
  is_newest u s es (at_stop u s es).
Proof.
  intros H Hu Hs.
  assert (forall i e, es !! i = Some e -> visible C u s e = true -> (stop u s es <= i)%nat) as Hlater.
  { intros i e Hi Hv. apply Nat.ltb_ge. rewrite <- (entry_stop u s es i e) by done.
    by apply visible_not_before; [apply (entry_at C es H i)|..]. }
  unfold at_stop. destruct (es !! stop u s es) as [e|] eqn:E.
  - pose proof (entry_at C es H _ e E) as He. pose proof (entry_stop u s es _ e H Hu Hs E) as Hb.
    rewrite Nat.ltb_irrefl, before_lookup in Hb by done. apply orb_false_iff in Hb as [Hb1 Hb2].
    destruct (before C u (e_key e)) eqn:Hue.
    + intros e' [i Hi]%list_elem_of_lookup. destruct (visible C u s e') eqn:Hv; [|done].
      pose proof (Hlater i e' Hi Hv) as Hle. pose proof (entry_at C es H i e' Hi) as He'.
      destruct (decide (i = stop u s es)) as [->|].
      * assert (e' = e) as -> by congruence. rewrite visible_before, Hue in Hv by done. by destruct (negb _) in Hv.
      * rewrite <- Hv. apply (larger_not_visible e); try done. apply (entries_before es (stop u s es) i); [done..|lia].
    + cbn [negb andb] in Hb2. split; [by eapply list_elem_of_lookup_2|].
      assert (visible C u s e = true) as Hve.
      { rewrite visible_before, Hb1, Hue by done. cbn. apply Z.leb_le. apply Z.ltb_ge in Hb2. lia. }
      split; [done|]. intros e' [i Hi]%list_elem_of_lookup Hv. pose proof (Hlater i e' Hi Hv) as Hle.
      destruct (decide (i = stop u s es)) as [->|]; [assert (e' = e) as -> by congruence; lia|].
      apply (visible_order e e' u s); try done; [by eapply (entry_at C es H)|].
      apply (entries_before es (stop u s es) i); [done..|lia].
  - apply lookup_ge_None in E. intros e' [i Hi]%list_elem_of_lookup. destruct (visible C u s e') eqn:Hv; [|done].
    pose proof (Hlater i e' Hi Hv). apply lookup_lt_Some in Hi. lia.
Qed.

End lookup.

(** ** The contract of the table cache *)

(** [tc_serves m es]: the table file of [m] can be opened and has the entries [es].
    [tc_inv n st]: the cache is in order and good for [n] lookups at least.  A lookup calls back with the entry it stops at, and must do so if it is for the
    key that is looked up. *)
Class TableCacheLaws (T TI TB : Type) `{TC : TableCacheOps T TI TB} (C : Comparator) {L : ComparatorLaws C} := {
  tc_serves : FileMetaData -> list Entry -> Prop;
  tc_inv : nat -> T -> Prop;
  tc_inv_le m n st : (m <= n)%nat -> tc_inv n st -> tc_inv m st;
  tc_get_ok o m es u s n st : tc_serves m es -> internal_sorted C es -> key_ok C u -> 0 <= s <= kMaxSequenceNumber ->
    tc_inv (S n) st -> exists saved st', tc_Get o (fnumber m) (file_size m) (lookup_at u s) st = Ok (Status_OK, saved) st' /\
      tc_inv n st' /\
      match es !! stop C u s es with
      | Some e => saved = Some (entry_pair e) \/ (saved = None /\ before C u (e_key e) = true)
      | None => saved = None
      end
}.

Section version.
Context {T TI TB : Type} {TC : TableCacheOps T TI TB} (C : Comparator) {L : ComparatorLaws C}.
Context {TL : TableCacheLaws T TI TB C}.

Abbreviation icmp := (InternalKeyComparator C).
Abbreviation ilaws := (InternalKeyComparator_laws C).

(** The entries of the files, by their numbers. *)
Context (tables : Z -> list Entry).

Definition entries_of (f : FilePtr) : list Entry := tables (fnumber (meta f)).

(** The table of a file has the entries, from the smallest key to the largest. *)
Record table_file (f : FilePtr) : Prop := mk_table_file {
  tf_serves : tc_serves (meta f) (entries_of f);
  tf_sorted : internal_sorted C (entries_of f);
  tf_smallest : exists e, head (entries_of f) = Some e /\ smallest (meta f) = entry_key e;
  tf_largest : exists e, last (entries_of f) = Some e /\ largest (meta f) = entry_key e
}.

Lemma file_entry_bounds f i e : table_file f -> entries_of f !! i = Some e ->
  before icmp (entry_key e) (smallest (meta f)) = false /\ before icmp (largest (meta f)) (entry_key e) = false.
Proof.
  intros [_ Hs (a & Ha & ->) (b & Hb & ->)] Hi. pose proof (sorted_internal _ _ Hs) as He.
  rewrite head_lookup in Ha. rewrite last_lookup in Hb. pose proof (lookup_lt_Some _ _ _ Hi) as Hlt. split.
  - unfold entry_key. rewrite (sorted_positions icmp (L := ilaws) _ i 0 (entry_pair e) (entry_pair a) He);
      [by apply Nat.ltb_ge; lia|by rewrite list_lookup_fmap, Hi|by rewrite list_lookup_fmap, Ha].
  - unfold entry_key. rewrite (sorted_positions icmp (L := ilaws) _ (pred (length (entries_of f))) i (entry_pair b) (entry_pair e) He);
      [by apply Nat.ltb_ge; lia|by rewrite list_lookup_fmap, Hb|by rewrite list_lookup_fmap, Hi].
Qed.

Lemma table_file_ok f : table_file f -> file_ok C f.
Proof.
  intros Hf. pose proof Hf as [_ Hs (a & Ha & Ea) (b & Hb & Eb)]. rewrite head_lookup in Ha. rewrite last_lookup in Hb.
  split.
  - rewrite Ea. by eapply entry_file_key, (entry_at C _ Hs).
  - rewrite Eb. by eapply entry_file_key, (entry_at C _ Hs).
  - rewrite Ea. by eapply (file_entry_bounds f 0 a Hf).
Qed.

(** What the search makes of an entry. *)
Definition answer (e : Entry) (stats : GetStats) : Status * option Slice * GetStats :=
  if e_type e =? kTypeValue then (Status_OK, Some (e_value e), stats) else (not_found_status, None, stats).

Lemma SaveValue_entry e u : entry_ok C e -> valid u ->
  SaveValue C u (entry_pair e).1 (entry_pair e).2 =
  Some (if negb (before C (e_key e) u) && negb (before C u (e_key e)) then
          if e_type e =? kTypeValue then (kFound, e_value e) else (kDeleted, [])
        else (kNotFound, [])).
Proof.
  intros He Hu. pose proof (e_number_range C e He) as Hn. pose proof He as (Hk & _ & Ht & _).
  unfold SaveValue, entry_pair. cbn [fst snd]. unfold e_number in *.
  rewrite ParseInternalKey_eq by (done || unfold kTypeDeletion, kTypeValue in *; lia).
  cbn [mbind option_bind DbFormat.user_key type].
  replace (e_type e <=? kTypeValue) with true by (symmetry; apply Z.leb_le; unfold kTypeDeletion, kTypeValue in *; lia).
  cbv iota. destruct (compare_tests C (e_key e) u) as (r & -> & <- & <-); [apply Hk|done|]. cbn [mbind option_bind].
  destruct (Z.eqb_spec r 0) as [->|]; [done|]. destruct (Z.ltb_spec r 0), (Z.ltb_spec 0 r); done || lia.
Qed.

(** One file: the search ends with what is newest there, or there is nothing. *)
Lemma search_file_ok o u s level vars f n st :
  table_file f -> key_ok C u -> 0 <= s <= kMaxSequenceNumber -> tc_inv (S n) st ->
  exists r st', search_file C o u (lookup_at u s) level vars f st = Ok r st' /\ tc_inv n st' /\
    match r with
    | inl _ => is_newest C u s (entries_of f) None
    | inr res => exists e, is_newest C u s (entries_of f) (Some e) /\ exists stats, res = answer e stats
    end.
Proof.
  intros Hf Hu Hs Hst. pose proof Hf as [Hserves Hsorted _ _].
  destruct (tc_get_ok o (meta f) (entries_of f) u s n st Hserves Hsorted Hu Hs Hst) as (saved & st' & E & Hst' & Hsaved).
  pose proof (at_stop_newest C u s (entries_of f) Hsorted (proj1 Hu) Hs) as Hnew. unfold at_stop in Hnew.
  unfold search_file. rewrite (bind_ok _ _ _ _ _ E). cbn [negb ok state_ Status_OK].
  destruct (entries_of f !! stop C u s (entries_of f)) as [e|] eqn:Ee.
  - pose proof (entry_at C _ Hsorted _ e Ee) as He.
    assert (before C (e_key e) u = false) as Hle.
    { pose proof (entry_stop C u s _ _ e Hsorted (proj1 Hu) Hs Ee) as Hb.
      rewrite Nat.ltb_irrefl, (before_lookup C) in Hb by (done || apply Hu). by apply orb_false_iff in Hb as [? _]. }
    destruct Hsaved as [->|[-> Hb]].
    + rewrite (surjective_pairing (entry_pair e)), (bind_or_ub _ _ _ _ (SaveValue_entry e u He (proj1 Hu))), Hle. cbn [negb andb].
      destruct (before C u (e_key e)); cbn [negb]; [eexists _, st'; split; [done|]; by split|].
      destruct (Z.eqb_spec (e_type e) kTypeValue) as [Ht|Ht].
      * eexists _, st'. split; [done|]. split; [done|]. exists e. split; [done|]. eexists. unfold answer. by rewrite Ht.
      * eexists _, st'. split; [done|]. split; [done|]. exists e. split; [done|]. eexists. unfold answer.
        by rewrite (proj2 (Z.eqb_neq (e_type e) kTypeValue) Ht).
    + rewrite bind_ret, Hb in *. eexists _, st'. split; [done|]. by split.
  - subst saved. rewrite bind_ret. eexists _, st'. split; [done|]. by split.
Qed.

(** ** Several files *)

Lemma is_newest_ext u s es es' r : (forall e, visible C u s e = true -> e ∈ es <-> e ∈ es') ->
  is_newest C u s es r -> is_newest C u s es' r.
Proof.
  intros Hext. destruct r as [e|]; cbn.
  - intros (He & Hv & Hmax). split; [by apply Hext|]. split; [done|]. intros e' He' Hv'. by apply Hmax; [apply Hext|].
  - intros H e' He'. destruct (visible C u s e') eqn:Hv; [|done]. rewrite <- Hv. by apply H, Hext.
Qed.

Lemma is_newest_skip u s es es' r : is_newest C u s es None -> is_newest C u s es' r -> is_newest C u s (es ++ es') r.
Proof.
  intros Hnone. apply is_newest_ext. intros e Hv. rewrite elem_of_app. split; [by right|]. intros [He|]; [|done].
  by rewrite (Hnone e He) in Hv.
Qed.

Lemma is_newest_app u s es es' e : is_newest C u s es (Some e) ->
  (forall e', e' ∈ es' -> visible C u s e' = true -> e_seq e' <= e_seq e) -> is_newest C u s (es ++ es') (Some e).
Proof.
  intros (He & Hv & Hmax) Hother. split; [set_solver|]. split; [done|]. intros e' [?|?]%elem_of_app; auto.
Qed.

(** Entries for the same key are newer in [f] than in [g]. *)
Definition newer (f g : FilePtr) : Prop :=
  forall e e', e ∈ entries_of f -> e' ∈ entries_of g ->
    before C (e_key e) (e_key e') = false -> before C (e_key e') (e_key e) = false -> e_seq e' < e_seq e.

Lemma newer_visible f g u s e e' : table_file f -> table_file g -> valid u -> newer f g ->
  e ∈ entries_of f -> e' ∈ entries_of g -> visible C u s e = true -> visible C u s e' = true -> e_seq e' <= e_seq e.
Proof.
  intros Hf Hg Hu Hn He He' Hv Hv'.
  assert (entry_ok C e) as Hok by (apply list_elem_of_lookup in He as [i Hi]; exact (entry_at C _ (tf_sorted f Hf) i e Hi)).
  assert (entry_ok C e') as Hok' by (apply list_elem_of_lookup in He' as [i Hi]; exact (entry_at C _ (tf_sorted g Hg) i e' Hi)).
  rewrite (visible_before C) in Hv, Hv' by done.
  apply andb_prop in Hv as [[Hv1 Hv2]%andb_prop _]. apply andb_prop in Hv' as [[Hv1' Hv2']%andb_prop _].
  apply negb_true_iff in Hv1, Hv2, Hv1', Hv2'.
  pose proof (Hn e e' He He'
    (not_before_trans C (e_key e') u (e_key e) ltac:(apply Hok') Hu ltac:(apply Hok) Hv2' Hv1)
    (not_before_trans C (e_key e) u (e_key e') ltac:(apply Hok) Hu ltac:(apply Hok') Hv2 Hv1')). lia.
Qed.

Abbreviation all_entries fs := (concat (entries_of <$> fs)).

Lemma in_all_entries e fs : e ∈ all_entries fs <-> exists f, f ∈ fs /\ e ∈ entries_of f.
Proof.
  rewrite list_elem_of_In, in_concat. setoid_rewrite <- list_elem_of_In. split.
  - intros (x & (f & -> & Hf)%list_elem_of_fmap & He). by exists f.
  - intros (f & Hf & He). exists (entries_of f). split; [by apply list_elem_of_fmap_2|done].
Qed.

(** What a search through files has found. *)
Definition search_result (u : Slice) (s : Z) (es : list Entry) (r : get_vars + (Status * option Slice * GetStats)) : Prop :=
  match r with
  | inl _ => is_newest C u s es None
  | inr res => exists e, is_newest C u s es (Some e) /\ exists stats, res = answer e stats
  end.

Lemma search_result_ext u s es es' r : (forall e, visible C u s e = true -> e ∈ es <-> e ∈ es') ->
  search_result u s es r -> search_result u s es' r.
Proof.
  intros Hext. destruct r; cbn [search_result]; [by apply is_newest_ext|]. intros (e & He & Hr). exists e. split; [|done].
  by eapply is_newest_ext.
Qed.

Lemma search_files_ok o u s level fs vars n st :
  Forall table_file fs -> StronglySorted newer fs -> key_ok C u -> 0 <= s <= kMaxSequenceNumber -> tc_inv (length fs + n) st ->
  exists r st', search_files C o u (lookup_at u s) level vars fs st = Ok r st' /\ tc_inv n st' /\
    search_result u s (all_entries fs) r.
Proof.
  intros Hf Hn Hu Hs. revert vars st. induction Hn as [|f fs Hn IH Hnewer]; intros vars st Hst.
  { eexists _, st. split; [done|]. split; [done|]. intros e' He'. by apply not_elem_of_nil in He'. }
  apply Forall_cons in Hf as [Hf Hfs]. cbn [search_files fmap list_fmap concat].
  destruct (search_file_ok o u s level vars f _ st Hf Hu Hs Hst) as (r & st1 & E & Hst1 & Hr).
  rewrite (bind_ok _ _ _ _ _ E). destruct r as [vars'|res].
  - destruct (IH Hfs vars' st1 Hst1) as (r & st2 & E2 & Hst2 & Hr2). exists r, st2. split; [done|]. split; [done|].
    destruct r as [|res]; cbn [search_result] in Hr2 |- *; [by apply is_newest_skip|]. destruct Hr2 as (e & He & Hans). exists e.
    split; [by apply is_newest_skip|done].
  - exists (inr res), st1. split; [done|]. split; [by apply (tc_inv_le n (length fs + n)); [lia|]|].
    destruct Hr as (e & He & Hans). exists e. split; [|done]. apply is_newest_app; [done|]. intros e' (g & Hg & He')%in_all_entries Hv'. pose proof He as (Hin & Hv & _).
    pose proof (proj1 (Forall_forall _ _) Hnewer g Hg). pose proof (proj1 (Forall_forall _ _) Hfs g Hg).
    apply (newer_visible f g u s); try done. apply Hu.
Qed.

(** ** One level *)

Lemma covers_key_ok u f : file_ok C f -> valid u ->
  covers_key C u f =
  Some (negb (before C u (ukey (smallest (meta f)))) && negb (before C (ukey (largest (meta f))) u)).
Proof.
  intros [Hs Hl _] Hu. destruct (file_key_user C _ Hs) as [Vs Es], (file_key_user C _ Hl) as [Vl El].
  unfold covers_key. rewrite Es. cbn [mbind option_bind].
  destruct (compare_tests C u (ukey (smallest (meta f)))) as (c & -> & <- & _); [done..|]. cbn [mbind option_bind].
  destruct (Z.leb_spec 0 c), (Z.ltb_spec c 0); try lia; [|done]. rewrite El. cbn [mbind option_bind negb andb].
  destruct (compare_tests C u (ukey (largest (meta f)))) as (d & -> & _ & <-); [done..|]. cbn [mbind option_bind].
  destruct (Z.leb_spec d 0), (Z.ltb_spec 0 d); done || lia.
Qed.

Lemma entry_in_file f e : table_file f -> e ∈ entries_of f ->
  entry_ok C e /\ before icmp (entry_key e) (smallest (meta f)) = false /\
  before icmp (largest (meta f)) (entry_key e) = false.
Proof.
  intros Hf [i Hi]%list_elem_of_lookup. split; [exact (entry_at C _ (tf_sorted f Hf) i e Hi)|].
  by apply (file_entry_bounds f i).
Qed.

(** Nothing is visible in a file that does not cover the key. *)
Lemma covers_visible f e u s : table_file f -> e ∈ entries_of f -> valid u -> visible C u s e = true ->
  before C u (ukey (smallest (meta f))) = false /\ before C (ukey (largest (meta f))) u = false.
Proof.
  intros Hf He Hu Hv. destruct (entry_in_file f e Hf He) as (Hok & Hs & Hl).
  destruct (table_file_ok f Hf) as [Ks Kl _]. rewrite (visible_before C) in Hv by done.
  apply andb_prop in Hv as [[Hv1 Hv2]%andb_prop _]. apply negb_true_iff in Hv1, Hv2.
  apply (not_before_user C) in Hs; [|done|by apply entry_file_key]. rewrite ukey_entry in Hs.
  apply (not_before_user C) in Hl; [|by apply entry_file_key|done]. rewrite ukey_entry in Hl. split.
  - apply (not_before_trans C (ukey (smallest (meta f))) (e_key e) u); try done; [by apply file_key_user|apply Hok].
  - apply (not_before_trans C u (e_key e) (ukey (largest (meta f)))); try done; [apply Hok|by apply file_key_user].
Qed.

(** Files with larger numbers have newer entries. *)
Definition level0_ok (files : list FilePtr) : Prop :=
  NoDup (fnumber ∘ meta <$> files) /\
  forall f g, f ∈ files -> g ∈ files -> fnumber (meta g) < fnumber (meta f) -> newer f g.

#[local] Instance NewestFirst_total : Total NewestFirst.
Proof. intros f g. unfold NewestFirst. lia. Qed.

#[local] Instance NewestFirst_trans : Transitive NewestFirst.
Proof. intros f g h. unfold NewestFirst. lia. Qed.

Lemma newest_first_newer files fs : level0_ok files -> (forall f, f ∈ fs -> f ∈ files) -> NoDup fs ->
  StronglySorted NewestFirst fs -> StronglySorted newer fs.
Proof.
  intros [Hnd Hnew] Hsub Hfs Hs. induction Hs as [|f fs Hs IH Hf]; [constructor|].
  apply NoDup_cons in Hfs as [Hout Hfs]. constructor; [apply IH; [set_solver|done]|].
  apply Forall_forall. intros g Hg. pose proof (proj1 (Forall_forall _ _) Hf g Hg) as Hle. unfold NewestFirst in Hle.
  apply Hnew; [set_solver..|]. destruct (decide (fnumber (meta g) = fnumber (meta f))) as [E|]; [|lia].
  assert (g = f) as -> by (by apply (NoDup_fmap_inj (fnumber ∘ meta) files); [|set_solver..|]). done.
Qed.

Lemma level0_search o u s files vars n st :
  Forall table_file files -> level0_ok files -> key_ok C u -> 0 <= s <= kMaxSequenceNumber -> tc_inv (length files + n) st ->
  exists fs r st', level0_files C u files = Some fs /\
    search_files C o u (lookup_at u s) 0 vars fs st = Ok r st' /\ tc_inv n st' /\ search_result u s (all_entries files) r.
Proof.
  intros Hf Hok Hu Hs Hst.
  set (g f := negb (before C u (ukey (smallest (meta f)))) && negb (before C (ukey (largest (meta f))) u)).
  assert (filter_opt (covers_key C u) files = Some (List.filter g files)) as Eg.
  { apply filter_opt_some, Forall_forall. intros f Hin. pose proof (proj1 (Forall_forall _ _) Hf f Hin).
    apply covers_key_ok; [by apply table_file_ok|apply Hu]. }
  unfold level0_files. rewrite Eg. cbn [mbind option_bind].
  set (fs := merge_sort NewestFirst (List.filter g files)).
  assert (forall f, f ∈ fs <-> f ∈ files /\ g f = true) as Hin.
  { intros f. unfold fs. rewrite merge_sort_Permutation, !list_elem_of_In, filter_In. done. }
  assert (length fs <= length files)%nat as Hlen.
  { unfold fs. rewrite merge_sort_Permutation. apply List.filter_length_le. }
  destruct (search_files_ok o u s 0 fs vars n st) as (r & st' & E & Hst' & Hr); try done.
  - apply Forall_forall. intros f [Hff _]%Hin. by apply (proj1 (Forall_forall _ _) Hf).
  - apply (newest_first_newer files); [done|by intros f [? _]%Hin| |apply StronglySorted_merge_sort; apply _].
    unfold fs. rewrite merge_sort_Permutation. apply NoDup_ListNoDup, List.NoDup_filter, NoDup_ListNoDup.
    by eapply NoDup_fmap_1, Hok.
  - by apply (tc_inv_le _ (length files + n)); [lia|].
  - exists fs, r, st'. split; [done|]. split; [done|]. split; [done|].
    eapply search_result_ext, Hr. intros e Hv. rewrite !in_all_entries. setoid_rewrite Hin. split; [by intros (f & [? _] & ?); exists f|].
    intros (f & Hff & He). exists f. split; [|done]. split; [done|].
    destruct (covers_visible f e u s) as [H1 H2]; [by apply (proj1 (Forall_forall _ _) Hf)|done|apply Hu|done|].
    unfold g. by rewrite H1, H2.
Qed.

(** Entries of a later file of the level come after the largest key of an earlier one. *)
Lemma later_file files i j f g e : disjoint_files C files -> table_file g ->
  files !! i = Some f -> files !! j = Some g -> (i < j)%nat -> e ∈ entries_of g ->
  before icmp (largest (meta f)) (entry_key e) = true.
Proof.
  intros [Hok Hd] Hg Hi Hj Hij He. destruct (entry_in_file g e Hg He) as (Hk & Hs & _).
  pose proof (Forall_lookup_1 _ _ _ _ Hok Hi) as [_ Hfl _]. pose proof (Forall_lookup_1 _ _ _ _ Hok Hj) as [Hgs _ _].
  apply (before_then_not icmp (L := ilaws) _ (smallest (meta g))); [by apply file_key_valid..| |by apply (Hd i j)|done].
  by apply (file_key_valid C), entry_file_key.
Qed.

(** An entry that comes before the key that is sought is not visible. *)
Lemma earlier_file files i f e u s : disjoint_files C files -> table_file f -> valid u -> 0 <= s <= kMaxSequenceNumber ->
  files !! i = Some f -> (i < files_before C (lookup_at u s) files)%nat -> e ∈ entries_of f -> visible C u s e = false.
Proof.
  intros Hd Hf Hu Hs Hi Hlt He. destruct (visible C u s e) eqn:Hv; [|done].
  destruct (entry_in_file f e Hf He) as (Hk & _ & Hl). pose proof (lookup_at_key C u s Hu Hs) as Hkey.
  pose proof (visible_not_before C e u s Hk Hu Hs Hv) as Hb. destruct (table_file_ok f Hf) as [_ Kl _].
  rewrite <- Hb. symmetry.
  assert (before icmp (largest (meta f)) (lookup_at u s) = true) as Hend.
  { rewrite (files_before_lookup C files _ i f) by (done || by apply (file_key_valid C)). by apply Nat.ltb_lt. }
  apply (not_then_before icmp (L := ilaws) _ (largest (meta f))); try done;
    by apply (file_key_valid C); try apply entry_file_key.
Qed.

(** The one file that is searched dominates those behind it. *)
Lemma level_file_result files n f u s vars r :
  Forall table_file files -> disjoint_files C files -> valid u -> 0 <= s <= kMaxSequenceNumber ->
  n = files_before C (lookup_at u s) files -> files !! n = Some f ->
  search_result u s (entries_of f) r ->
  search_result u s (all_entries files) (if before C u (ukey (smallest (meta f))) then inl vars else r).
Proof.
  intros Hf Hd Hu Hs -> Hn Hr. set (n := files_before C (lookup_at u s) files) in *.
  pose proof (Forall_lookup_1 _ _ _ _ Hf Hn) as Hff. destruct (table_file_ok f Hff) as [Ks Kl _].
  assert (forall e, e ∈ all_entries files -> visible C u s e = true ->
    e ∈ entries_of f \/ (entry_ok C e /\ before icmp (largest (meta f)) (entry_key e) = true)) as Hwhere.
  { intros e (g & [j Hj]%list_elem_of_lookup & He)%in_all_entries Hv. pose proof (Forall_lookup_1 _ _ _ _ Hf Hj) as Hg.
    destruct (Nat.lt_trichotomy j n) as [Hlt|[->|Hgt]].
    - by rewrite (earlier_file files j g e u s) in Hv.
    - left. by assert (g = f) as -> by congruence.
    - right. split; [by apply (entry_in_file g)|]. by apply (later_file files n j f g). }
  destruct (tf_largest f Hff) as (b & Hb & Eb).
  assert (b ∈ entries_of f) as Hbin by (rewrite last_lookup in Hb; by eapply list_elem_of_lookup_2).
  pose proof (proj1 (entry_in_file f b Hff Hbin)) as Kb.
  assert (before icmp (entry_key b) (lookup_at u s) = false) as Hend.
  { rewrite <- Eb, (files_before_lookup C files _ n f) by (done || by apply (file_key_valid C), lookup_at_key).
    apply Nat.ltb_irrefl. }
  rewrite (before_lookup C) in Hend by done. apply orb_false_iff in Hend as [Hb1 Hb2].
  assert (before C u (e_key b) = false -> visible C u s b = true) as Hbv.
  { intros Hb3. rewrite (visible_before C), Hb1, Hb3 by done. rewrite Hb3 in Hb2. apply Z.leb_le.
    apply Z.ltb_ge in Hb2. lia. }
  assert (before C u (e_key b) = true -> forall e, entry_ok C e -> before icmp (largest (meta f)) (entry_key e) = true ->
    visible C u s e = false) as Hlarge.
  { intros Hb3 e Ke He. apply (larger_not_visible C b); try done. by rewrite <- Eb. }
  destruct (before C u (ukey (smallest (meta f)))) eqn:Hsm.
  - intros e He. destruct (visible C u s e) eqn:Hv; [|done]. destruct (Hwhere e He Hv) as [Hin|[Ke Hlater]].
    + destruct (covers_visible f e u s Hff Hin Hu Hv) as [H1 _]. congruence.
    + rewrite Hlarge in Hv; [done| |done|done].
      apply (before_then_not C u (ukey (smallest (meta f)))); try done; [by apply file_key_user|apply Kb|].
      destruct (entry_in_file f b Hff Hbin) as (_ & Hbs & _). apply (not_before_user C) in Hbs; [|done|by apply entry_file_key].
      by rewrite ukey_entry in Hbs.
  - destruct r as [vars'|res]; cbn [search_result] in Hr |- *.
    + intros e He. destruct (visible C u s e) eqn:Hv; [|done]. destruct (Hwhere e He Hv) as [Hin|[Ke Hlater]].
      * by rewrite Hr in Hv.
      * rewrite Hlarge in Hv; [done| |done|done]. destruct (before C u (e_key b)) eqn:E; [done|].
        by rewrite Hr in Hbv; [specialize (Hbv eq_refl)|].
    + destruct Hr as (e & (Hin & Hv & Hmax) & Hans). exists e. split; [|done]. split; [|split; [done|]].
      * apply in_all_entries. exists f. split; [by eapply list_elem_of_lookup_2|done].
      * intros e' He' Hv'. destruct (Hwhere e' He' Hv') as [Hin'|[Ke' Hlater]]; [by apply Hmax|].
        destruct (before C u (e_key b)) eqn:E; [by rewrite Hlarge in Hv'|].
        transitivity (e_seq b); [|by apply Hmax; [|apply Hbv]].
        apply (visible_order C b e' u s); try done; [by apply Hbv|by rewrite <- Eb].
Qed.

(** ** All levels *)

(** A level above 0: the file that may have the key, if there is one. *)
Lemma level_search o u s level files vars n st :
  Forall table_file files -> disjoint_files C files -> few_files files -> key_ok C u -> 0 <= s <= kMaxSequenceNumber ->
  tc_inv (length files + n) st -> exists fs r st', level_file C u (lookup_at u s) files st = Ok fs st /\
    search_files C o u (lookup_at u s) level vars fs st = Ok r st' /\ tc_inv n st' /\ search_result u s (all_entries files) r.
Proof.
  intros Hf Hd Hfew Hu Hs Hst.
  assert (tc_inv n st) as Hst0 by (by apply (tc_inv_le _ (length files + n)); [lia|]). pose proof (files_before_le C (lookup_at u s) files) as Hle.
  pose proof (lookup_at_key C u s (proj1 Hu) Hs) as Hkey. unfold level_file.
  rewrite (bind_ok _ _ _ _ _ (FindFile_ok C files _ st Hd Hfew (file_key_valid C _ Hkey))).
  unfold few_files in Hfew. rewrite uwrap_small by lia. rewrite Nat2Z.id.
  destruct (files !! files_before C (lookup_at u s) files) as [f|] eqn:Hn.
  - pose proof (Forall_lookup_1 _ _ _ _ Hf Hn) as Hff. destruct (table_file_ok f Hff) as [Ks _ _].
    destruct (file_key_user C _ Ks) as [Vs Es]. rewrite (bind_or_ub _ _ _ _ Es).
    destruct (compare_tests C u (ukey (smallest (meta f)))) as (c & Ec & Hc & _); [apply Hu|done|].
    rewrite (bind_or_ub _ _ _ _ Ec), Hc.
    destruct (search_files_ok o u s level [f] vars n st) as (r & st' & E & Hst' & Hr); try done.
    { by constructor. }
    { repeat constructor. }
    { apply (tc_inv_le _ (length files + n)); [apply lookup_lt_Some in Hn; cbn; lia|done]. }
    cbn [fmap list_fmap concat] in Hr. rewrite app_nil_r in Hr.
    pose proof (level_file_result files _ f u s vars r Hf Hd (proj1 Hu) Hs eq_refl Hn Hr) as Hres.
    destruct (before C u (ukey (smallest (meta f)))); [exists [], (inl vars), st|exists [f], r, st']; done.
  - exists [], (inl vars), st. split; [done|]. split; [done|]. split; [done|].
    intros e (g & [j Hj]%list_elem_of_lookup & He)%in_all_entries.
    apply (earlier_file files j g e u s); try done; [by eapply Forall_lookup_1|apply Hu|].
    apply lookup_ge_None in Hn. apply lookup_lt_Some in Hj. lia.
Qed.

(** The levels of a version: the ranges of keys, and that entries of a key are newer
    in earlier levels and, on level 0, in files with larger numbers. *)
Record version_ok (levels : list (list FilePtr)) : Prop := mk_version_ok {
  vo_tables : Forall (Forall table_file) levels;
  vo_level0 : forall files, head levels = Some files -> level0_ok files;
  vo_disjoint : Forall (fun files => disjoint_files C files /\ few_files files) (tail levels);
  vo_newer : forall i j fs gs f g, levels !! i = Some fs -> levels !! j = Some gs -> (i < j)%nat -> f ∈ fs -> g ∈ gs -> newer f g
}.

Definition levels_sorted (levels : list (list FilePtr)) : Prop :=
  StronglySorted (fun fs gs => forall f g, f ∈ fs -> g ∈ gs -> newer f g) levels.

(** What the levels have to be when the search comes to the level. *)
Definition level_ok (level : Z) (files : list FilePtr) : Prop :=
  if level =? 0 then level0_ok files else disjoint_files C files /\ few_files files.

Lemma files_search o u s level files vars n st :
  Forall table_file files -> level_ok level files -> key_ok C u -> 0 <= s <= kMaxSequenceNumber -> tc_inv (length files + n) st ->
  exists fs r st', files_to_search C u (lookup_at u s) level files st = Ok fs st /\
    search_files C o u (lookup_at u s) level vars fs st = Ok r st' /\ tc_inv n st' /\ search_result u s (all_entries files) r.
Proof.
  unfold level_ok, files_to_search. intros Hf Hok Hu Hs Hst. destruct files as [|f files].
  { exists [], (inl vars), st. split; [done|]. split; [done|]. split; [done|]. intros e He. by apply not_elem_of_nil in He. }
  cbn [length Nat.eqb]. destruct (Z.eqb_spec level 0) as [->|].
  - destruct (level0_search o u s (f :: files) vars n st) as (fs & r & st' & E & H); try done.
    exists fs, r, st'. split; [by rewrite E|done].
  - destruct Hok as [Hd Hfew]. by apply level_search.
Qed.

Lemma search_levels_ok o u s level levels vars n st : 0 <= level ->
  Forall (Forall table_file) levels -> (forall i files, levels !! i = Some files -> level_ok (level + Z.of_nat i) files) ->
  levels_sorted levels -> key_ok C u -> 0 <= s <= kMaxSequenceNumber -> tc_inv (length (concat levels) + n) st ->
  exists r stats st', search_levels C o u (lookup_at u s) level vars levels st =
      Ok (match r with Some e => answer e stats | None => (not_found_status, None, stats) end) st' /\
    tc_inv n st' /\ is_newest C u s (all_entries (concat levels)) r.
Proof.
  intros Hlevel Hf Hok Hsorted Hu Hs. revert level vars st Hlevel Hok.
  induction Hsorted as [|files levels Hsorted IH Hnew]; intros level vars st Hlevel Hok Hst.
  { exists None, (g_stats vars), st. split; [done|]. split; [done|]. intros e He. by apply not_elem_of_nil in He. }
  apply Forall_cons in Hf as [Hff Hf]. cbn [search_levels concat]. rewrite fmap_app, concat_app.
  cbn [concat] in Hst. rewrite length_app, <- Nat.add_assoc in Hst.
  destruct (files_search o u s level files vars (length (concat levels) + n) st) as (fs & r & st1 & E1 & E2 & Hst1 & Hr); try done.
  { specialize (Hok 0%nat files eq_refl). by rewrite Z.add_0_r in Hok. }
  rewrite (bind_ok _ _ _ _ _ E1), (bind_ok _ _ _ _ _ E2). destruct r as [vars'|res]; cbn [search_result] in Hr.
  - destruct (IH Hf (level + 1) vars' st1) as (r & stats & st2 & E & Hst2 & Hr2); [lia| |done|].
    { intros i fs' Hi. specialize (Hok (S i) fs' Hi). by replace (level + 1 + Z.of_nat i) with (level + Z.of_nat (S i)) by lia. }
    exists r, stats, st2. split; [done|]. split; [done|]. by apply is_newest_skip.
  - destruct Hr as (e & He & stats & ->). exists (Some e), stats, st1. split; [done|].
    split; [by apply (tc_inv_le _ (length (concat levels) + n)); [lia|]|]. apply is_newest_app; [done|]. intros e' (g & Hg & He')%in_all_entries Hv'. pose proof He as (Hin & Hv & _).
    apply in_all_entries in Hin as (f & Hfin & Hein). apply list_elem_of_In, in_concat in Hg as (gs & Hgs & Hg).
    apply list_elem_of_In in Hgs, Hg. pose proof (proj1 (Forall_forall _ _) Hnew gs Hgs) as Hn. cbn in Hn.
    apply (newer_visible f g u s); try done.
    + by apply (proj1 (Forall_forall _ _) Hff).
    + pose proof (proj1 (Forall_forall _ _) Hf gs Hgs) as Hgf. by apply (proj1 (Forall_forall _ _) Hgf).
    + apply Hu.
    + by apply Hn.
Qed.

Lemma version_levels levels : version_ok levels -> levels_sorted levels /\
  forall i files, levels !! i = Some files -> level_ok (0 + Z.of_nat i) files.
Proof.
  intros [Hf H0 Hd Hn]. split.
  - clear Hf H0 Hd. induction levels as [|fs levels IH]; [constructor|]. constructor.
    + apply IH. intros i j gs hs f g Hi Hj Hij. apply (Hn (S i) (S j)); [done..|lia].
    + apply Forall_forall. intros gs [j Hj]%list_elem_of_lookup f g. apply (Hn 0%nat (S j)); [done..|lia].
  - intros i files Hi. unfold level_ok. destruct levels as [|l levels]; [done|]. destruct i as [|i].
    + apply H0. exact Hi.
    + cbn in Hi, Hd. replace (_ =? 0) with false by (symmetry; apply Z.eqb_neq; lia). by eapply Forall_lookup_1 in Hd.
Qed.

End version.

Lemma Version_Get_newest {T TI TB : Type} {TC : TableCacheOps T TI TB} (C : Comparator) {L : ComparatorLaws C}
    {TL : TableCacheLaws T TI TB C} (tables : Z -> list Entry) (levels : list (list FilePtr))
    (o : ReadOptions) (u : Slice) (s : Z) (k : LookupKey) (n : nat) (st : T) :
  version_ok C tables levels -> key_ok C u -> 0 <= s <= kMaxSequenceNumber -> make_LookupKey u s = Some k ->
  tc_inv (length (concat levels) + n) st ->
  exists r stats st', is_newest C u s (concat (entries_of tables <$> concat levels)) r /\ tc_inv n st' /\
    Version_Get C o levels k st =
      Ok (match r with Some e => answer e stats | None => (not_found_status, None, stats) end) st'.
Proof.
  intros Hv Hu Hs Hk Hst. pose proof Hu as (Vu & _ & Lu).
  destruct (make_LookupKey_eq u s) as (k' & Ek & _ & Hik & Huk & _); [done..|].
  assert (k' = k) as -> by congruence.
  destruct (version_levels C tables levels Hv) as [Hsorted Hok].
  destruct (search_levels_ok C tables o u s 0 levels (mk_get_vars (mk_stats None (-1)) None (-1)) n st)
    as (r & stats & st' & E & Hst' & Hr); try done; [apply Hv|].
  exists r, stats, st'. split; [done|]. split; [done|]. unfold Version_Get. by rewrite Hik, Huk.
Qed.

(** C25: Looking up a key in a version at a sequence number finds the newest entry in all
    its files that is not newer than the number, if the tables of the files can be
    read, the files of a level above 0 do not overlap, and entries are newer in
    earlier levels and in files of level 0 with larger numbers: the result is the
    value of that entry, or that there is none or a deletion. *)
Theorem version_get {T TI TB : Type} {TC : TableCacheOps T TI TB} (C : Comparator) {L : ComparatorLaws C}
    {TL : TableCacheLaws T TI TB C} (tables : Z -> list Entry) (levels : list (list FilePtr))
    (o : ReadOptions) (u : Slice) (s : Z) (k : LookupKey) (n : nat) (st : T) :
  version_ok C tables levels -> key_ok C u -> 0 <= s <= kMaxSequenceNumber -> make_LookupKey u s = Some k ->
  tc_inv (length (concat levels) + n) st ->
  exists r stats st', is_newest C u s (concat (entries_of tables <$> concat levels)) r /\ tc_inv n st' /\
    Version_Get C o levels k st =
      Ok (match r with Some e => answer e stats | None => (not_found_status, None, stats) end) st'.
Proof. apply Version_Get_newest. Qed.

(** ** Tables in memory *)

Section tables.
Context (C : Comparator) {L : ComparatorLaws C} (tables : Z -> list Entry).

(** A cache that has the entries of all tables. *)
Definition list_TableCache : TableCacheOps unit unit unit := {|
  tc_NewIterator := fun _ _ _ => ret (tt, None);
  tc_NewErrorIterator := fun _ => tt;
  tc_Get := fun _ number _ key =>
    ret (Status_OK, entry_pair <$> (tables number !! keys_before (InternalKeyComparator C) key (entry_pair <$> tables number)));
  tc_ApproximateOffsetOf := fun _ _ => ret 0;
  tc_delete_iterator := fun _ => ret tt
|}.

#[export] Program Instance list_TableCache_laws : TableCacheLaws unit unit unit C (TC := list_TableCache) := {|
  tc_serves m es := es = tables (fnumber m);
  tc_inv _ _ := True
|}.
Next Obligation. done. Qed.
Next Obligation.
  intros o m es u s n st -> _ _ _ _. exists (entry_pair <$> (tables (fnumber m) !! stop C u s (tables (fnumber m)))), st.
  split; [done|]. split; [done|]. destruct (tables (fnumber m) !! stop C u s (tables (fnumber m))); [by left|done].
Qed.

End tables.

(** ** Checking that a version is as it should be *)

Fixpoint all_pairs {A} (f : A -> A -> bool) (l : list A) : bool :=
  match l with [] => true | x :: l => forallb (f x) l && all_pairs f l end.

Lemma all_pairs_lookup {A} (f : A -> A -> bool) l i j a b : all_pairs f l = true ->
  l !! i = Some a -> l !! j = Some b -> (i < j)%nat -> f a b = true.
Proof.
  revert i j. induction l as [|x l IH]; intros i j H Hi Hj Hij; [done|]. apply andb_prop in H as [Hx Hl].
  destruct j as [|j]; [lia|]. destruct i as [|i].
  - injection Hi as ->. rewrite forallb_forall in Hx. apply Hx, list_elem_of_In. by eapply list_elem_of_lookup_2.
  - apply (IH i j); [done..|lia].
Qed.

#[local] Instance is_byte_dec b : Decision (is_byte b).
Proof. unfold is_byte. apply _. Defined.

Definition entry_okb (e : Entry) : bool :=
  bool_decide (Forall is_byte (e_key e)) && (Z.of_nat (length (e_key e)) + 8 <? 2 ^ 32) &&
  bool_decide (0 <= e_seq e <= kMaxSequenceNumber) &&
  ((e_type e =? kTypeDeletion) || (e_type e =? kTypeValue)) &&
  bool_decide (Forall is_byte (e_value e)) && (Z.of_nat (length (e_value e)) <? 2 ^ 32).

Abbreviation bytewise := (InternalKeyComparator BytewiseComparator).

Definition sortedb (es : list Entry) : bool :=
  forallb entry_okb es && all_pairs (fun e e' => before bytewise (entry_key e) (entry_key e')) es.

Lemma entry_okb_ok e : entry_okb e = true -> entry_ok BytewiseComparator e.
Proof.
  unfold entry_okb. rewrite !andb_true_iff, orb_true_iff, !Z.eqb_eq, !Z.ltb_lt, !bool_decide_eq_true.
  intros [[[[[Hk Hl] Hs] Ht] Hv] Hvl]. done.
Qed.

Lemma sortedb_ok es : sortedb es = true -> internal_sorted BytewiseComparator es.
Proof.
  intros [Ho Hp]%andb_prop. rewrite forallb_forall in Ho.
  assert (Forall (entry_ok BytewiseComparator) es) as Hok.
  { apply Forall_forall. intros e He%list_elem_of_In. by apply entry_okb_ok, Ho. }
  split; [done|]. split.
  - intros e (e' & -> & He)%list_elem_of_fmap. pose proof (proj1 (Forall_forall _ _) Hok e' He) as H.
    apply (file_key_valid BytewiseComparator), (entry_file_key BytewiseComparator e' H).
  - intros i j a b Hi Hj Hij. apply list_lookup_fmap_Some in Hi as (x & -> & Hx).
    apply list_lookup_fmap_Some in Hj as (y & -> & Hy). by apply (all_pairs_lookup _ es i j x y Hp).
Qed.

Section check.
Context (tables : Z -> list Entry).

Definition table_fileb (f : FilePtr) : bool :=
  sortedb (tables (fnumber (meta f))) &&
  bool_decide (entry_key <$> head (tables (fnumber (meta f))) = Some (smallest (meta f))) &&
  bool_decide (entry_key <$> last (tables (fnumber (meta f))) = Some (largest (meta f))).

Definition newerb (f g : FilePtr) : bool :=
  forallb (fun e => forallb (fun e' =>
    before BytewiseComparator (e_key e) (e_key e') || before BytewiseComparator (e_key e') (e_key e) ||
    (e_seq e' <? e_seq e)) (tables (fnumber (meta g)))) (tables (fnumber (meta f))).

Definition version_okb (levels : list (list FilePtr)) : bool :=
  forallb (forallb table_fileb) levels &&
  forallb (fun files => bool_decide (NoDup (fnumber ∘ meta <$> files)) &&
    forallb (fun f => forallb (fun g => negb (fnumber (meta g) <? fnumber (meta f)) || newerb f g) files) files)
    (take 1 levels) &&
  forallb (fun files => (Z.of_nat (length files) <? 2 ^ 31) &&
    all_pairs (fun f g => before bytewise (largest (meta f)) (smallest (meta g))) files) (tail levels) &&
  all_pairs (fun fs gs => forallb (fun f => forallb (newerb f) gs) fs) levels.

Context {T TI TB : Type} {TC : TableCacheOps T TI TB} {TL : TableCacheLaws T TI TB BytewiseComparator}.

Lemma table_fileb_ok f : tc_serves (TableCacheLaws := TL) (meta f) (tables (fnumber (meta f))) -> table_fileb f = true ->
  table_file BytewiseComparator tables f.
Proof.
  intros Hserves. unfold table_fileb. rewrite !andb_true_iff, !bool_decide_eq_true. intros [[Hs Hh] Hl].
  apply fmap_Some in Hh as (a & Ha & Ea), Hl as (b & Hb & Eb).
  split; [done|by apply sortedb_ok|by exists a|by exists b].
Qed.

Lemma newerb_ok f g : newerb f g = true -> newer BytewiseComparator tables f g.
Proof.
  intros H e e' He He' H1 H2. unfold newerb in H. rewrite forallb_forall in H. apply list_elem_of_In in He, He'.
  specialize (H e He). rewrite forallb_forall in H. specialize (H e' He'). rewrite H1, H2 in H. by apply Z.ltb_lt.
Qed.

Lemma version_okb_ok levels :
  Forall (fun f => tc_serves (TableCacheLaws := TL) (meta f) (tables (fnumber (meta f)))) (concat levels) -> version_okb levels = true ->
  version_ok BytewiseComparator tables levels.
Proof.
  intros Hserves. unfold version_okb. rewrite !andb_true_iff. intros [[[Hf H0] Hd] Hn].
  assert (forall files f, files ∈ levels -> f ∈ files ->
    table_file BytewiseComparator tables f) as Hfile.
  { intros files f Hin%list_elem_of_In Hff%list_elem_of_In.
    assert (tc_serves (TableCacheLaws := TL) (meta f) (tables (fnumber (meta f)))) as Hs.
    { apply (proj1 (Forall_forall _ _) Hserves), list_elem_of_In, in_concat. by exists files. }
    rewrite forallb_forall in Hf.
    specialize (Hf files Hin). rewrite forallb_forall in Hf. by apply table_fileb_ok; [|apply Hf]. }
  split.
  - apply Forall_forall. intros files Hin. apply Forall_forall. intros f. by apply Hfile.
  - intros files Hhead. destruct levels as [|l levels]; [done|]. injection Hhead as ->. cbn [take forallb] in H0.
    rewrite take_0 in H0. cbn [forallb] in H0. rewrite andb_true_r in H0. apply andb_prop in H0 as [Hnd Hnew].
    split; [by eapply bool_decide_eq_true_1|]. intros f g Hff Hg Hlt. apply list_elem_of_In in Hff, Hg.
    rewrite forallb_forall in Hnew. specialize (Hnew f Hff). rewrite forallb_forall in Hnew. specialize (Hnew g Hg).
    apply newerb_ok. by rewrite (proj2 (Z.ltb_lt _ _) Hlt) in Hnew.
  - apply Forall_forall. intros files Hin. assert (files ∈ levels) as Hin' by (by destruct levels; [|right]).
    apply list_elem_of_In in Hin. rewrite forallb_forall in Hd. specialize (Hd files Hin).
    apply andb_prop in Hd as [Hlen Hp]. split; [|by apply Z.ltb_lt].
    split.
    + apply Forall_forall. intros f Hff. by eapply table_file_ok, Hfile.
    + intros i j f g Hi Hj Hij. by apply (all_pairs_lookup _ files i j f g Hp).
  - intros i j fs gs f g Hi Hj Hij Hff Hg. pose proof (all_pairs_lookup _ levels i j fs gs Hn Hi Hj Hij) as H.
    apply list_elem_of_In in Hff, Hg. rewrite forallb_forall in H. specialize (H f Hff).
    rewrite forallb_forall in H. by apply newerb_ok, H.
Qed.

End check.

(** Two files of level 0, the newer a deletion of [b], and two of level 1. *)
Definition sample_tables (number : Z) : list Entry :=
  match number with
  | 7 => [mk_entry 30 kTypeDeletion [98] []]
  | 6 => [mk_entry 25 kTypeValue [97] [65]; mk_entry 21 kTypeValue [98] [66]]
  | 4 => [mk_entry 11 kTypeValue [97] [1]; mk_entry 12 kTypeValue [99] [3]]
  | 3 => [mk_entry 10 kTypeValue [101] [5]]
  | _ => []
  end.

Definition table_of (p : nat) (number : Z) : FilePtr :=
  (p, mk_file 1 100 number 1000 (from_option entry_key [] (head (sample_tables number)))
                                (from_option entry_key [] (last (sample_tables number)))).

Definition sample_levels : list (list FilePtr) :=
  [[table_of 1 6; table_of 2 7]; [table_of 3 4; table_of 4 3]; []; []; []; []; []].

Lemma version_get_witness : exists k, make_LookupKey [98] 40 = Some k /\
  exists r stats st', is_newest BytewiseComparator [98] 40 (concat (entries_of sample_tables <$> concat sample_levels)) r /\
    True /\
    Version_Get (TC := list_TableCache BytewiseComparator sample_tables) BytewiseComparator new_ReadOptions
      sample_levels k tt =
      Ok (match r with Some e => answer e stats | None => (not_found_status, None, stats) end) st'.
Proof.
  eexists. split; [reflexivity|].
  apply (version_get (TC := list_TableCache BytewiseComparator sample_tables)
    (TL := list_TableCache_laws BytewiseComparator sample_tables)
    BytewiseComparator sample_tables sample_levels new_ReadOptions [98] 40 _ 0).
  - apply version_okb_ok; [by repeat constructor|]. vm_compute. reflexivity.
  - split; [repeat constructor; done|]. split; [repeat constructor; done|]. vm_compute. reflexivity.
  - done.
  - reflexivity.
  - exact I.
Defined.

(** At 40 the key [b] is deleted; at 29 it has the value in file 6; [c] is on level 1,
    and the read of [c] is charged to no file, that of [a] at 20 to file 6. *)
Definition sample_get (u : Slice) (s : Z) : option (Z * option Slice * option nat) :=
  match make_LookupKey u s with
  | Some k =>
      match Version_Get (TC := list_TableCache BytewiseComparator sample_tables) BytewiseComparator
              new_ReadOptions sample_levels k tt with
      | Ok (st, v, stats) _ => c ← code st; Some (c, v, seek_file stats)
      | _ => None
      end
  | None => None
  end.

Example sample_gets :
  (sample_get [98] 40, sample_get [98] 29, sample_get [99] 40, sample_get [97] 20, sample_get [100] 20) =
  (Some (1, None, None), Some (0, Some [66], Some 2%nat), Some (0, Some [3], None), Some (0, Some [1], Some 1%nat),
   Some (1, None, None)).
Proof. vm_compute. reflexivity. Qed.
