(* ===== verification/Snapshot.v ===== *)
(** * Snapshots (snapshot.h)

    The list of snapshots of a database, doubly linked and circular around a head,
    as objects in a heap; and that it is the list of numbers in the order in which
    the snapshots were made. *)

From Stdlib Require Import ZArith Lia.
From stdpp Require Import base option list sorting gmap.
From S2P Require Import Prelude.

(** A pointer to the head of the list or to a snapshot. *)
Inductive SnapLink := Head | Snap (p : nat).

#[export] Instance SnapLink_eq_dec : EqDecision SnapLink.
Proof. solve_decision. Defined.

(** [number_], [prev_] and [next_]; [list_] is for an assertion only. *)
Record SnapshotImpl := mk_snapshot {
  number_ : Z;
  sn_prev : SnapLink;
  sn_next : SnapLink
}.

(** The snapshots that have not been deleted, and the links of the head. *)
Record SnapshotList := mk_snapshots {
  sn_heap : gmap nat SnapshotImpl;
  head_prev : SnapLink;
  head_next : SnapLink
}.

Definition new_SnapshotList : SnapshotList := mk_snapshots ∅ Head Head.

Abbreviation LM := (M SnapshotList).

Definition load_snapshot (p : nat) : LM SnapshotImpl := let! x := gets (fun s => sn_heap s !! p) in or_ub x.

Definition set_heap (f : gmap nat SnapshotImpl -> gmap nat SnapshotImpl) (s : SnapshotList) : SnapshotList :=
  mk_snapshots (f (sn_heap s)) (head_prev s) (head_next s).

(** [l->next_ = n] and [l->prev_ = p]. *)
Definition assign_next (l n : SnapLink) : LM unit :=
  match l with
  | Head => modify (fun s => mk_snapshots (sn_heap s) (head_prev s) n)
  | Snap p => let! x := load_snapshot p in modify (set_heap <[p := mk_snapshot (number_ x) (sn_prev x) n]>)
  end.

Definition assign_prev (l p : SnapLink) : LM unit :=
  match l with
  | Head => modify (fun s => mk_snapshots (sn_heap s) p (head_next s))
  | Snap q => let! x := load_snapshot q in modify (set_heap <[q := mk_snapshot (number_ x) p (sn_next x)]>)
  end.

Definition snapshots_empty (s : SnapshotList) : bool := bool_decide (head_next s = Head).

Definition oldest : LM nat :=
  let! s := gets id in
  assert_ (negb (snapshots_empty s)) ;;;
  match head_next s with Snap p => ret p | Head => ub end.

Definition newest_snapshot : LM nat :=
  let! s := gets id in
  assert_ (negb (snapshots_empty s)) ;;;
  match head_prev s with Snap p => ret p | Head => ub end.

Definition SnapshotList_New (seq : Z) : LM nat :=
  let! s := gets id in
  let p := fresh (dom (sn_heap s)) in
  modify (set_heap <[p := mk_snapshot seq (head_prev s) Head]>) ;;;
  let! x := load_snapshot p in
  assign_next (sn_prev x) (Snap p) ;;;
  let! x := load_snapshot p in
  assign_prev (sn_next x) (Snap p) ;;;
  ret p.

Definition SnapshotList_Delete (p : nat) : LM unit :=
  let! x := load_snapshot p in
  assign_next (sn_prev x) (sn_next x) ;;;
  let! x := load_snapshot p in
  assign_prev (sn_next x) (sn_prev x) ;;;
  modify (set_heap (delete p)).

(** ** The list *)

Section proof.

(** The pointers before and behind position [i] of the circular list. *)
Definition prev_link (l : list (nat * Z)) (i : nat) : SnapLink :=
  match i with O => Head | S i => match l !! i with Some x => Snap x.1 | None => Head end end.
Definition next_link (l : list (nat * Z)) (i : nat) : SnapLink :=
  match l !! S i with Some x => Snap x.1 | None => Head end.

(** The snapshots [l], with their numbers, in the order in which they were made. *)
Record snapshots (l : list (nat * Z)) (s : SnapshotList) : Prop := mk_snapshots_inv {
  sl_nodup : NoDup l.*1;
  sl_first : head_next s = match l !! 0%nat with Some x => Snap x.1 | None => Head end;
  sl_last : head_prev s = prev_link l (length l);
  sl_dom p : is_Some (sn_heap s !! p) <-> p ∈ l.*1;
  sl_at i p n : l !! i = Some (p, n) -> sn_heap s !! p = Some (mk_snapshot n (prev_link l i) (next_link l i))
}.

Lemma new_snapshots : snapshots [] new_SnapshotList.
Proof.
  split; cbn; [constructor|done..| |done]. intros p. rewrite lookup_empty. split; [by intros []|]. by intros ?%not_elem_of_nil.
Qed.

(** What the assignments do, as total functions on the heap. *)
Definition with_next (l n : SnapLink) (h : gmap nat SnapshotImpl) : gmap nat SnapshotImpl :=
  match l with Head => h | Snap p => alter (fun x => mk_snapshot (number_ x) (sn_prev x) n) p h end.
Definition with_prev (l p : SnapLink) (h : gmap nat SnapshotImpl) : gmap nat SnapshotImpl :=
  match l with Head => h | Snap q => alter (fun x => mk_snapshot (number_ x) p (sn_next x)) q h end.

Definition in_heap (l : SnapLink) (h : gmap nat SnapshotImpl) : Prop :=
  match l with Head => True | Snap p => is_Some (h !! p) end.

Lemma load_snapshot_ok p x s : sn_heap s !! p = Some x -> load_snapshot p s = Ok x s.
Proof. intros H. unfold load_snapshot. rewrite bind_gets. by rewrite H. Qed.

Lemma alter_is_insert {A} (f : A -> A) (h : gmap nat A) p x : h !! p = Some x -> <[p := f x]> h = alter f p h.
Proof. intros H. apply map_eq. intros q. destruct (decide (q = p)) as [->|]; [by rewrite lookup_insert_eq, lookup_alter_eq, H|]. by rewrite lookup_insert_ne, lookup_alter_ne. Qed.

Lemma assign_next_ok l n s : in_heap l (sn_heap s) ->
  assign_next l n s = Ok tt (mk_snapshots (with_next l n (sn_heap s)) (head_prev s) (match l with Head => n | _ => head_next s end)).
Proof.
  destruct l as [|p]; [done|]. intros [x Hx]. cbn [assign_next with_next]. rewrite (bind_ok _ _ _ _ _ (load_snapshot_ok p x s Hx)).
  unfold modify, set_heap. by rewrite (alter_is_insert (fun x => mk_snapshot (number_ x) (sn_prev x) n) _ p x Hx).
Qed.

Lemma assign_prev_ok l p s : in_heap l (sn_heap s) ->
  assign_prev l p s = Ok tt (mk_snapshots (with_prev l p (sn_heap s)) (match l with Head => p | _ => head_prev s end) (head_next s)).
Proof.
  destruct l as [|q]; [done|]. intros [x Hx]. cbn [assign_prev with_prev]. rewrite (bind_ok _ _ _ _ _ (load_snapshot_ok q x s Hx)).
  unfold modify, set_heap. by rewrite (alter_is_insert (fun x => mk_snapshot (number_ x) p (sn_next x)) _ q x Hx).
Qed.

Lemma prev_link_app l l' i : (i <= length l)%nat -> prev_link (l ++ l') i = prev_link l i.
Proof. intros Hi. destruct i as [|i]; [done|]. cbn. by rewrite lookup_app_l by lia. Qed.

Lemma prev_link_in l i a : prev_link l i = Snap a -> exists j n, i = S j /\ l !! j = Some (a, n).
Proof. destruct i as [|i]; [done|]. cbn. destruct (l !! i) as [[b n]|] eqn:E; [|done]. intros [= ->]. by exists i, n. Qed.

Lemma next_link_in l i a : next_link l i = Snap a -> exists n, l !! S i = Some (a, n).
Proof. unfold next_link. destruct (l !! S i) as [[b n]|] eqn:E; [|done]. intros [= ->]. by exists n. Qed.

Lemma pointer_index (l : list (nat * Z)) i j a m n : NoDup l.*1 -> l !! i = Some (a, m) -> l !! j = Some (a, n) -> i = j.
Proof. intros H Hi Hj. apply (NoDup_lookup l.*1 i j a H); rewrite list_lookup_fmap; [by rewrite Hi|by rewrite Hj]. Qed.

Lemma New_ok l s seq : snapshots l s -> exists p s',
  SnapshotList_New seq s = Ok p s' /\ (p ∉ l.*1) /\ snapshots (l ++ [(p, seq)]) s'.
Proof.
  intros [Hnd Hf Hl Hd Hat]. set (p := fresh (dom (sn_heap s))).
  assert (sn_heap s !! p = None) as Hp by (apply not_elem_of_dom, is_fresh).
  assert (p ∉ l.*1) as Hout by (intros H; apply Hd in H as [x Hx]; congruence).
  set (x := mk_snapshot seq (head_prev s) Head).
  set (h := <[p := x]> (sn_heap s)).
  assert (forall l', in_heap l' (sn_heap s) -> in_heap l' h) as Hin.
  { intros [|q]; [done|]. cbn. intros [y Hy]. exists y. unfold h. rewrite lookup_insert_ne; [done|congruence]. }
  assert (in_heap (head_prev s) (sn_heap s)) as Hlast.
  { rewrite Hl. destruct (prev_link l (length l)) as [|a] eqn:E; [done|]. apply prev_link_in in E as (j & n & _ & Hj).
    cbn. rewrite (Hat j a n Hj). done. }
  assert (forall y, head_prev s = Snap y -> y <> p) as Hne.
  { intros y E ->. rewrite E in Hlast. cbn in Hlast. rewrite Hp in Hlast. by destruct Hlast. }
  set (h2 := with_next (head_prev s) (Snap p) h).
  assert (h2 !! p = Some x) as Hx2.
  { unfold h2, h. destruct (head_prev s) as [|y] eqn:E; cbn [with_next]; [by rewrite lookup_insert_eq|].
    rewrite lookup_alter_ne by (by apply Hne). by rewrite lookup_insert_eq. }
  eexists p, (mk_snapshots h2 (Snap p) (match head_prev s with Head => Snap p | _ => head_next s end)).
  split; [|split; [done|]].
  - unfold SnapshotList_New. rewrite bind_gets. cbv beta. change (id s) with s. fold p. rewrite bind_modify. fold x. cbv beta.
    unfold set_heap at 1. fold h.
    rewrite (bind_ok _ _ _ _ _ (load_snapshot_ok p x (mk_snapshots h _ _) (lookup_insert_eq _ _ _))). cbn [sn_prev x].
    rewrite (bind_ok _ _ _ _ _ (assign_next_ok _ _ (mk_snapshots h (head_prev s) (head_next s)) (Hin _ Hlast))).
    cbn [sn_heap head_prev head_next]. fold h2.
    rewrite (bind_ok _ _ _ _ _ (load_snapshot_ok p x (mk_snapshots h2 _ _) Hx2)). cbn [sn_next x].
    rewrite (bind_ok _ _ _ _ _ (assign_prev_ok Head (Snap p) (mk_snapshots h2 _ _) I)). done.
  - assert (forall q, q <> p -> is_Some (h2 !! q) <-> is_Some (sn_heap s !! q)) as Hsame.
    { intros q Hq. unfold h2, h. destruct (head_prev s) as [|y]; cbn [with_next].
      - by rewrite lookup_insert_ne by done.
      - destruct (decide (q = y)) as [->|].
        + rewrite lookup_alter_eq, lookup_insert_ne by done. by rewrite fmap_is_Some.
        + by rewrite lookup_alter_ne, lookup_insert_ne by done. }
    split; cbn [sn_heap head_prev head_next].
    + rewrite fmap_app. apply NoDup_app. split; [done|]. split; [|apply NoDup_singleton].
      intros q Hq ->%list_elem_of_singleton. done.
    + rewrite Hl. destruct l as [|[a m] l]; [done|]. cbn [length prev_link].
      destruct (lookup_lt_is_Some_2 ((a, m) :: l) (length l)) as [y ->]; [cbn; lia|]. exact Hf.
    + rewrite length_app. cbn [length]. rewrite Nat.add_comm. cbn. by rewrite list_lookup_middle.
    + intros q. rewrite fmap_app, elem_of_app. cbn. rewrite list_elem_of_singleton.
      destruct (decide (q = p)) as [->|Hq]; [split; [by right|by rewrite Hx2]|]. rewrite Hsame, Hd by done.
      split; [by left|]. by intros [?|?].
    + intros i q n Hi. destruct (decide (i < length l)%nat) as [Hlt|Hge].
      * rewrite lookup_app_l in Hi by done. pose proof (Hat i q n Hi) as Hq.
        assert (q <> p) as Hqp by (intros ->; congruence). rewrite prev_link_app by lia. unfold h2, h.
        destruct (decide (S i = length l)) as [El|].
        -- rewrite Hl, <- El. cbn [prev_link]. rewrite Hi. cbn [with_next fst]. rewrite lookup_alter_eq, lookup_insert_ne, Hq by done.
           cbn. unfold next_link. by rewrite El, list_lookup_middle.
        -- assert (next_link (l ++ [(p, seq)]) i = next_link l i) as -> by (unfold next_link; by rewrite lookup_app_l by lia).
           rewrite <- Hq. destruct (head_prev s) as [|y] eqn:Ey; cbn [with_next]; [by rewrite lookup_insert_ne|].
           rewrite lookup_alter_ne, lookup_insert_ne; [done|done|]. intros ->. symmetry in Hl. apply prev_link_in in Hl as (j & m & Ej & Hj).
           pose proof (pointer_index l i j q n m Hnd Hi Hj). lia.
      * assert (i = length l) as ->.
        { apply lookup_lt_Some in Hi. rewrite length_app in Hi. cbn in Hi. lia. }
        rewrite list_lookup_middle in Hi by done. injection Hi as <- <-. rewrite Hx2, prev_link_app by done. unfold x. rewrite Hl.
        unfold next_link. rewrite lookup_ge_None_2; [done|]. rewrite length_app. cbn. lia.
Qed.

(** A snapshot in the list and what its links point to. *)
Lemma links_in_heap l s i p n : snapshots l s -> l !! i = Some (p, n) ->
  in_heap (prev_link l i) (sn_heap s) /\ in_heap (next_link l i) (sn_heap s) /\
  prev_link l i <> Snap p /\ next_link l i <> Snap p /\ (forall a, prev_link l i = Snap a -> next_link l i <> Snap a).
Proof.
  intros H Hi. pose proof (sl_nodup _ _ H) as Hnd.
  assert (forall j a m, l !! j = Some (a, m) -> in_heap (Snap a) (sn_heap s)) as Hheap.
  { intros j a m Hj. cbn. by rewrite (sl_at _ _ H j a m Hj). }
  repeat split.
  - destruct (prev_link l i) as [|a] eqn:E; [done|]. apply prev_link_in in E as (j & m & _ & Hj). by eapply Hheap.
  - destruct (next_link l i) as [|a] eqn:E; [done|]. apply next_link_in in E as (m & Hj). by eapply Hheap.
  - intros (j & m & -> & Hj)%prev_link_in. pose proof (pointer_index l _ _ p n m Hnd Hi Hj). lia.
  - intros (m & Hj)%next_link_in. pose proof (pointer_index l _ _ p n m Hnd Hi Hj). lia.
  - intros a (j & m & -> & Hj)%prev_link_in (m' & Hj')%next_link_in. pose proof (pointer_index l _ _ a m m' Hnd Hj Hj'). lia.
Qed.

Lemma next_heap_ne l n h q : l <> Snap q -> with_next l n h !! q = h !! q.
Proof. destruct l as [|a]; [done|]. intros Hq. cbn. rewrite lookup_alter_ne; [done|congruence]. Qed.

Lemma prev_heap_ne l n h q : l <> Snap q -> with_prev l n h !! q = h !! q.
Proof. destruct l as [|a]; [done|]. intros Hq. cbn. rewrite lookup_alter_ne; [done|congruence]. Qed.

Lemma Delete_eq l s i p n : snapshots l s -> l !! i = Some (p, n) ->
  SnapshotList_Delete p s = Ok tt (mk_snapshots
    (delete p (with_prev (next_link l i) (prev_link l i) (with_next (prev_link l i) (next_link l i) (sn_heap s))))
    (match next_link l i with Head => prev_link l i | _ => head_prev s end)
    (match prev_link l i with Head => next_link l i | _ => head_next s end)).
Proof.
  intros H Hi. destruct (links_in_heap l s i p n H Hi) as (Hp & Hn & Hpp & Hnp & Hpn).
  pose proof (sl_at _ _ H i p n Hi) as Hat. unfold SnapshotList_Delete.
  rewrite (bind_ok _ _ _ _ _ (load_snapshot_ok p _ s Hat)). cbn [sn_prev sn_next].
  rewrite (bind_ok _ _ _ _ _ (assign_next_ok _ _ s Hp)).
  set (s1 := mk_snapshots _ _ _).
  assert (sn_heap s1 !! p = Some (mk_snapshot n (prev_link l i) (next_link l i))) as Hat1.
  { unfold s1. cbn [sn_heap]. by rewrite next_heap_ne by done. }
  rewrite (bind_ok _ _ _ _ _ (load_snapshot_ok p _ s1 Hat1)). cbn [sn_prev sn_next].
  assert (in_heap (next_link l i) (sn_heap s1)) as Hn1.
  { destruct (next_link l i) as [|a] eqn:E; [done|]. unfold s1. cbn [in_heap sn_heap].
    rewrite next_heap_ne; [done|]. intros E'. by eapply Hpn. }
  rewrite (bind_ok _ _ _ _ _ (assign_prev_ok _ _ s1 Hn1)). done.
Qed.

(** The links of the list without position [i]. *)
Lemma prev_without l i j : (i < length l)%nat -> prev_link (delete i l) j =
  if (j <=? i)%nat then prev_link l j else prev_link l (S j).
Proof.
  intros Hi. destruct (Nat.leb_spec j i) as [Hle|Hgt]; destruct j as [|j]; try done; cbn [prev_link].
  - by rewrite list_lookup_delete_lt by lia.
  - lia.
  - by rewrite list_lookup_delete_ge by lia.
Qed.

Lemma next_without l i j : (i < length l)%nat -> next_link (delete i l) j =
  if (S j <? i)%nat then next_link l j else next_link l (S j).
Proof.
  intros Hi. unfold next_link. destruct (Nat.ltb_spec (S j) i); [by rewrite list_lookup_delete_lt|by rewrite list_lookup_delete_ge].
Qed.

(** What remains in the heap when position [i] is taken out. *)
Definition shift (i j : nat) : nat := if (j <? i)%nat then j else S j.

Lemma delete_lookup (l : list (nat * Z)) i j : delete i l !! j = l !! shift i j.
Proof. unfold shift. destruct (Nat.ltb_spec j i); [by apply list_lookup_delete_lt|by apply list_lookup_delete_ge]. Qed.

Lemma delete_pointers (l : list (nat * Z)) i p n q : NoDup l.*1 -> l !! i = Some (p, n) ->
  q ∈ (delete i l).*1 <-> q ∈ l.*1 /\ q <> p.
Proof.
  intros Hnd Hi. rewrite !list_elem_of_fmap. split.
  - intros ([a m] & -> & [j Hj]%list_elem_of_lookup). rewrite delete_lookup in Hj. cbn. split.
    + exists (a, m). split; [done|by eapply list_elem_of_lookup_2].
    + intros ->. pose proof (pointer_index l _ _ p m n Hnd Hj Hi). unfold shift in *. destruct (Nat.ltb_spec j i); lia.
  - intros (([a m] & -> & [j Hj]%list_elem_of_lookup) & Hne). cbn in *. exists (a, m). split; [done|].
    assert (j <> i) by (intros ->; congruence).
    apply list_elem_of_lookup. exists (if (j <? i)%nat then j else pred j). rewrite delete_lookup. unfold shift.
    destruct (Nat.ltb_spec j i) as [Hlt|Hge].
    + by rewrite (proj2 (Nat.ltb_lt j i) Hlt).
    + rewrite (proj2 (Nat.ltb_ge (pred j) i)) by lia. by replace (S (pred j)) with j by lia.
Qed.

Lemma with_next_some l n h q : is_Some (with_next l n h !! q) <-> is_Some (h !! q).
Proof.
  destruct l as [|a]; [done|]. cbn. destruct (decide (q = a)) as [->|]; [|by rewrite lookup_alter_ne].
  by rewrite lookup_alter_eq, fmap_is_Some.
Qed.

Lemma with_prev_some l n h q : is_Some (with_prev l n h !! q) <-> is_Some (h !! q).
Proof.
  destruct l as [|a]; [done|]. cbn. destruct (decide (q = a)) as [->|]; [|by rewrite lookup_alter_ne].
  by rewrite lookup_alter_eq, fmap_is_Some.
Qed.

(** The links of a snapshot that stays. *)
Lemma relinked l s i p n k q m : snapshots l s -> l !! i = Some (p, n) -> l !! k = Some (q, m) -> k <> i ->
  with_prev (next_link l i) (prev_link l i) (with_next (prev_link l i) (next_link l i) (sn_heap s)) !! q =
  Some (mk_snapshot m (if (k =? S i)%nat then prev_link l i else prev_link l k)
                      (if (S k =? i)%nat then next_link l i else next_link l k)).
Proof.
  intros H Hi Hk Hne. pose proof (sl_nodup _ _ H) as Hnd. pose proof (sl_at _ _ H k q m Hk) as Hq.
  assert (next_link l i = Snap q <-> k = S i) as Hnext.
  { split; [intros (m' & Hj)%next_link_in; by eapply pointer_index|]. intros ->. unfold next_link. by rewrite Hk. }
  assert (prev_link l i = Snap q <-> S k = i) as Hprev.
  { split; [intros (j & m' & -> & Hj)%prev_link_in; f_equal; by eapply pointer_index|]. intros <-. cbn. by rewrite Hk. }
  destruct (Nat.eqb_spec k (S i)) as [E|E], (Nat.eqb_spec (S k) i) as [E'|E']; [lia|..].
  - rewrite (proj2 Hnext E). cbn [with_prev]. rewrite lookup_alter_eq, next_heap_ne, Hq by (by intros ?%Hprev). done.
  - rewrite prev_heap_ne by (by intros ?%Hnext). rewrite (proj2 Hprev E'). cbn [with_next]. by rewrite lookup_alter_eq, Hq.
  - rewrite prev_heap_ne by (by intros ?%Hnext). rewrite next_heap_ne by (by intros ?%Hprev). done.
Qed.

Lemma Delete_ok l s i p n : snapshots l s -> l !! i = Some (p, n) ->
  exists s', SnapshotList_Delete p s = Ok tt s' /\ snapshots (delete i l) s'.
Proof.
  intros H Hi. rewrite (Delete_eq l s i p n H Hi). destruct (links_in_heap l s i p n H Hi) as (Hp & Hn & Hpp & Hnp & Hpn).
  pose proof H as [Hnd Hf Hl Hd Hat]. pose proof (lookup_lt_Some _ _ _ Hi) as Hlt.
  eexists. split; [done|]. set (a := prev_link l i) in *. set (b := next_link l i) in *.
  assert (length (delete i l) = length l - 1)%nat as Hlen by (by apply length_delete).
  split; cbn [sn_heap head_prev head_next].
  - rewrite list_fmap_delete. by eapply sublist_NoDup, sublist_delete.
  - destruct i as [|i]; cbn [a prev_link].
    + unfold b, next_link. by rewrite list_lookup_delete_ge by lia.
    + destruct (lookup_lt_is_Some_2 l i) as [y ->]; [lia|]. by rewrite list_lookup_delete_lt by lia.
  - rewrite prev_without, Hlen by done. destruct (Nat.leb_spec (length l - 1) i) as [Hle|Hgt].
    + assert (b = Head) as ->.
      { unfold b, next_link. by rewrite lookup_ge_None_2 by lia. }
      unfold a. by replace (length l - 1)%nat with i by lia.
    + destruct b as [|y] eqn:Eb.
      * unfold b, next_link in Eb. destruct (lookup_lt_is_Some_2 l (S i)) as [y Hy]; [lia|]. by rewrite Hy in Eb.
      * rewrite Hl. by replace (S (length l - 1)) with (length l) by lia.
  - intros q. rewrite (delete_pointers l i p n) by done. destruct (decide (q = p)) as [->|Hq].
    + rewrite lookup_delete_eq. split; [by intros []|by intros []].
    + rewrite lookup_delete_ne by done. rewrite with_prev_some, with_next_some, Hd. by split; [|intros []].
  - intros j q m Hj. rewrite delete_lookup in Hj.
    assert (shift i j <> i) as Hne by (unfold shift; destruct (Nat.ltb_spec j i); lia).
    assert (q <> p) as Hqp by (intros ->; by apply Hne; eapply pointer_index).
    rewrite lookup_delete_ne by done. unfold a, b. rewrite (relinked l s i p n (shift i j) q m) by done.
    rewrite prev_without, next_without by done. f_equal. unfold shift.
    destruct (Nat.ltb_spec j i); f_equal.
    + rewrite (proj2 (Nat.eqb_neq _ _)) by lia. by rewrite (proj2 (Nat.leb_le _ _)) by lia.
    + destruct (Nat.eqb_spec (S j) i) as [<-|]; [by rewrite Nat.ltb_irrefl|]. by rewrite (proj2 (Nat.ltb_lt _ _)) by lia.
    + destruct (Nat.eqb_spec (S j) (S i)) as [E|].
      * by assert (j = i) as -> by lia; rewrite Nat.leb_refl.
      * by rewrite (proj2 (Nat.leb_gt _ _)) by lia.
    + rewrite (proj2 (Nat.eqb_neq _ _)) by lia. by rewrite (proj2 (Nat.ltb_ge _ _)) by lia.
Qed.

End proof.

Lemma StronglySorted_delete {A} (R : A -> A -> Prop) l i : StronglySorted R l -> StronglySorted R (delete i l).
Proof.
  intros H. revert i. induction H as [|x l H IH Hx]; intros i; [constructor|]. destruct i as [|i]; [done|]. cbn.
  constructor; [apply IH|]. apply Forall_forall. intros y Hy. apply (proj1 (Forall_forall _ _) Hx).
  revert Hy. apply sublist_subseteq, sublist_delete.
Qed.

(** The snapshots that have not been released, and that their numbers do not
    decrease in the order in which they were made. *)
Definition live_snapshots (l : list (nat * Z)) (s : SnapshotList) : Prop := snapshots l s /\ StronglySorted Z.le l.*2.

(** C19: The list of snapshots: a new snapshot, with a number that is not smaller than
    those there are, is added, a released one is removed, whichever it is; and as long
    as there are any, the oldest has the smallest number of all, so that no snapshot
    needs an entry that is hidden at that number. *)
Theorem oldest_snapshot_smallest l s : live_snapshots l s ->
  (forall seq, Forall (fun n => n <= seq) l.*2 -> exists p s',
     SnapshotList_New seq s = Ok p s' /\ live_snapshots (l ++ [(p, seq)]) s') /\
  (forall i p n, l !! i = Some (p, n) -> exists s',
     SnapshotList_Delete p s = Ok tt s' /\ live_snapshots (delete i l) s') /\
  snapshots_empty s = (length l =? 0)%nat /\
  (l <> [] -> exists p x, oldest s = Ok p s /\ sn_heap s !! p = Some x /\
     (p, number_ x) ∈ l /\ Forall (fun n => number_ x <= n) l.*2).
Proof.
  intros [H Hs]. split; [|split; [|split]].
  - intros seq Hseq. destruct (New_ok l s seq H) as (p & s' & E & _ & H'). exists p, s'. split; [done|]. split; [done|].
    rewrite fmap_app. apply StronglySorted_app. split; [|split; [done|by repeat constructor]].
    intros a b Ha ->%list_elem_of_singleton. by apply (proj1 (Forall_forall _ _) Hseq).
  - intros i p n Hi. destruct (Delete_ok l s i p n H Hi) as (s' & E & H'). exists s'. split; [done|]. split; [done|].
    rewrite list_fmap_delete. by apply StronglySorted_delete.
  - unfold snapshots_empty. rewrite (sl_first _ _ H). by destruct l.
  - intros Hne. destruct l as [|[p n] l]; [done|]. exists p. pose proof (sl_at _ _ H 0%nat p n eq_refl) as Hp.
    eexists. split; [|split; [exact Hp|split; [by left|]]].
    + unfold oldest. rewrite bind_gets. cbv beta. change (id s) with s. unfold snapshots_empty. rewrite (sl_first _ _ H).
      by rewrite bind_assert.
    + cbn [number_ fmap list_fmap snd]. apply StronglySorted_inv in Hs as [_ Hall]. by constructor.
Qed.

(** Three snapshots at 5, 7 and 7, of which the second is released. *)
Definition three_snapshots : res SnapshotList (nat * nat * nat) :=
  (let! a := SnapshotList_New 5 in let! b := SnapshotList_New 7 in let! c := SnapshotList_New 7 in ret (a, b, c))
  new_SnapshotList.

Definition sample_snapshots : SnapshotList :=
  match three_snapshots with Ok _ s => s | _ => new_SnapshotList end.

Lemma sample_snapshots_live : live_snapshots [(0%nat, 5); (1%nat, 7); (2%nat, 7)] sample_snapshots.
Proof.
  split; [|by repeat constructor].
  destruct (New_ok [] _ 5 new_snapshots) as (a & s1 & E1 & _ & H1).
  destruct (New_ok _ _ 7 H1) as (b & s2 & E2 & _ & H2). destruct (New_ok _ _ 7 H2) as (c & s3 & E3 & _ & H3).
  assert (three_snapshots = Ok (a, b, c) s3) as E.
  { unfold three_snapshots. by rewrite (bind_ok _ _ _ _ _ E1), (bind_ok _ _ _ _ _ E2), (bind_ok _ _ _ _ _ E3). }
  assert (match three_snapshots with Ok r _ => Some r | _ => None end = Some (0%nat, 1%nat, 2%nat)) as Ep by (vm_compute; reflexivity).
  rewrite E in Ep. injection Ep as -> -> ->. unfold sample_snapshots. rewrite E. exact H3.
Qed.

Lemma oldest_snapshot_smallest_witness :
  let l := [(0%nat, 5); (1%nat, 7); (2%nat, 7)] in
  (forall seq, Forall (fun n => n <= seq) l.*2 -> exists p s',
     SnapshotList_New seq sample_snapshots = Ok p s' /\ live_snapshots (l ++ [(p, seq)]) s') /\
  (forall i p n, l !! i = Some (p, n) -> exists s',
     SnapshotList_Delete p sample_snapshots = Ok tt s' /\ live_snapshots (delete i l) s') /\
  snapshots_empty sample_snapshots = false /\
  (l <> [] -> exists p x, oldest sample_snapshots = Ok p sample_snapshots /\ sn_heap sample_snapshots !! p = Some x /\
     (p, number_ x) ∈ l /\ Forall (fun n => number_ x <= n) l.*2).
Proof. apply (oldest_snapshot_smallest [(0%nat, 5); (1%nat, 7); (2%nat, 7)]), sample_snapshots_live. Defined.

Example release_second :
  match three_snapshots with
  | Ok (a, b, c) s =>
      match (SnapshotList_Delete b ;;; let! o := oldest in let! n := newest_snapshot in ret (o, n)) s with
      | Ok (o, n) s => (bool_decide (o = a), bool_decide (n = c), bool_decide (sn_next <$> sn_heap s !! a = Some (Snap c)))
      | _ => (false, false, false)
      end
  | _ => (false, false, false)
  end = (true, true, true).
Proof. vm_compute. reflexivity. Qed.
