(* ===== verification/LevelTheorems.v ===== *)
(** * LevelDB: theorems

    Encodings, internal keys, the random generator and the skip list. *)

From Stdlib Require Import ZArith Lia Sorted.
From stdpp Require Import base option list relations sorting strings gmap.
From S2P Require Import Prelude Memory Wire Slice Coding DbFormat SkipList SkipSearch SkipInsert SkipContents.

(** ** The skip list *)

Section skiplist.
Context {Key : Type} (compare_ : Key -> Key -> Z) (good : Key -> Prop).
Context {KO : KeyOrder compare_ good}.

(** C38: A search that runs without a lock while another thread inserts never
    follows an uninitialized or dangling link, and when it ends, its answer is the
    first node at or behind the key in the list as it is at that moment; the nodes
    of the list that was there when the search began are still in it. *)
Theorem concurrent_search_linearizes k s0 L0 s w x level :
  sk_inv compare_ good s0 L0 -> good k ->
  rtc (step compare_ good k) (s0, Idle, Starting) (s, w, Searching x level) ->
  exists L r, sk_inv compare_ good s L /\
    find_round compare_ k (x, level, None) s = Ok r s /\
    (forall n prev, r = inr (n, prev) -> n = first_at_least compare_ s L k) /\
    (forall y, y ∈ L0 0%nat -> y ∈ L 0%nat /\ key_of s y = key_of s0 y).
Proof.
  intros I0 Hk Hr.
  destruct (steps_inv compare_ good k s0 L0 _ I0 Hk Hr) as (L & HW & HG & HR). cbn in *.
  apply writer_inv_lists in HW.
  destruct (find_round_eq compare_ good s L HW k x level None Hk HR) as (r & E & Hround).
  exists L, r. split; [done|]. split; [done|]. split.
  - intros n prev ->. by destruct Hround as (_ & -> & _).
  - intros y Hy. split; [by apply HG|]. apply (gr_key _ _ _ _ HG 0). by right.
Qed.

(** C26: A search without a lock ends under every schedule: from any state that can be
    reached, no run in which the writer begins no further insertion goes on for ever,
    and where such a run can go no further the insertion is complete and the reader
    has its answer.  So neither thread waits for the other, and neither can be kept
    from its end by the order in which they take steps. *)
Theorem concurrent_search_finishes k s0 L0 c :
  sk_inv compare_ good s0 L0 -> good k -> rtc (step compare_ good k) (s0, Idle, Starting) c ->
  sn (finishing compare_ good k) c /\
  forall c', rtc (finishing compare_ good k) c c' -> nf (finishing compare_ good k) c' ->
    exists s n, c' = (s, Idle, Found n).
Proof.
  intros I0 Hk Hr. pose proof (steps_inv compare_ good k s0 L0 _ I0 Hk Hr) as (L & HW & HG & HR).
  split; [by eapply finishing_sn|]. intros c' Hc' Hnf.
  assert (rtc (step compare_ good k) (s0, Idle, Starting) c') as Hr'.
  { etransitivity; [exact Hr|]. eapply rtc_subrel, Hc'. by intros ?? [? _]. }
  destruct (steps_inv compare_ good k s0 L0 _ I0 Hk Hr') as (L' & HW' & _ & HR').
  destruct c' as [[s w] r]. cbn in HW', HR'.
  assert (w = Idle) as ->.
  { assert (w = Idle \/ w <> Idle) as [|Hw] by (destruct w; by (left + right)); [done|].
    destruct (writer_moves compare_ good s w L' HW' Hw) as (s' & w' & Hs).
    destruct Hnf. exists (s', w', r). split; [by apply step_writer|done]. }
  destruct (reader_moves compare_ good k s L' r) as [[n ->]|[r' Hs]]; [by eapply writer_inv_lists|done..|by exists s, n|].
  destruct Hnf. exists (s, Idle, r'). split; [by apply step_reader|done].
Qed.

(** Inserting a key that is not in the list succeeds and leaves the sorted list
    with the key in its place; no assertion fails. *)
Theorem Insert_inserts s keys k :
  represents compare_ good s keys -> good k -> Forall (fun a => compare_ a k <> 0) keys ->
  exists s', Insert compare_ k s = Ok tt s' /\
             represents compare_ good s' (insert_key compare_ k keys).
Proof. apply (represents_insert compare_ good). Qed.

(** Membership is decided for the keys of the list, and the list is not
    changed. *)
Theorem Contains_member s keys k :
  represents compare_ good s keys -> good k ->
  Contains compare_ k s = Ok (existsb (fun a => Equal compare_ k a) keys) s.
Proof. intros (L & I & H) Hk. by apply (Contains_eq compare_ good s L I keys H). Qed.

(** An iterator walks over the keys in order, in both directions, and a seek
    finds the first key that is not before its target. *)
Theorem iterator_walks s keys :
  represents compare_ good s keys ->
  exists ids : list nat, length ids = length keys /\
    Iterator_SeekToFirst s = Ok (ids !! 0%nat) s /\
    Iterator_SeekToLast s = Ok (last ids) s /\
    (forall j k, keys !! j = Some k ->
       Iterator_key (ids !! j) s = Ok k s /\
       Iterator_Next (ids !! j) s = Ok (ids !! S j) s /\
       Iterator_Prev compare_ (ids !! j) s =
         Ok (match j with O => None | S i => ids !! i end) s) /\
    (forall k, good k ->
       Iterator_Seek compare_ k s =
         Ok (ids !! length (List.filter (fun a => compare_ a k <? 0) keys)) s).
Proof. apply (represents_walk compare_ good). Qed.

End skiplist.

(** The generator computes [seed * 16807 mod (2^31 - 1)] without a division,
    and never reaches one of the two seeds at which it would stand still. *)
Theorem Random_Next_modulo seed :
  good_seed seed ->
  Random_Next seed = (seed * 16807) mod (2 ^ 31 - 1) /\ good_seed (Random_Next seed).
Proof. intros Hs. split; [by apply Next_mod|by apply Next_good]. Qed.

(** ** Encodings *)

(** A 64-bit number appended to a string as a varint is read back, with the
    bytes behind it left; it takes at most 10 bytes, as many as VarintLength
    says. *)
Theorem varint64_roundtrip v rest :
  0 <= v < 2 ^ 64 -> Forall is_byte rest ->
  exists l, PutVarint64 [] v = Some l /\ (length l <= 10)%nat /\
            VarintLength v = Some (Z.of_nat (length l)) /\ GetVarint64 (l ++ rest) = Some (v, rest).
Proof.
  intros Hv Hr. exists (varint_bytes v). unfold PutVarint64. rewrite EncodeVarint64_eq by done.
  split; [done|]. split; [apply varint_bytes_length|]. split; [by apply VarintLength_eq|].
  by apply GetVarint64_bytes.
Qed.

(** The unrolled encoder of 32-bit numbers and the loop for 64-bit numbers
    write the same bytes, and the decoder of 32-bit numbers reads them. *)
Theorem varint32_unrolled v rest :
  0 <= v < 2 ^ 32 -> Forall is_byte rest ->
  EncodeVarint64 v = Some (EncodeVarint32 v) /\
  GetVarint32 (EncodeVarint32 v ++ rest) = Some (v, rest).
Proof.
  intros Hv Hr. rewrite EncodeVarint32_eq, EncodeVarint64_eq by lia.
  split; [done|]. by apply GetVarint32_bytes.
Qed.

(** On any input the 32-bit decoder reads a varint of at most 5 bytes, modulo
    [2^32], and fails on everything else; the shortcut for one byte does not
    matter. *)
Theorem GetVarint32_spec p : Forall is_byte p -> GetVarint32 p = read_varint 32 5 p.
Proof. apply GetVarint32_eq. Qed.

(** A string stored behind its length is read back by both overloads. *)
Theorem length_prefixed_roundtrip value rest :
  Z.of_nat (length value) < 2 ^ 32 -> Forall is_byte value -> Forall is_byte rest ->
  GetLengthPrefixedSlice (PutLengthPrefixedSlice [] value ++ rest) = Some (value, rest) /\
  GetLengthPrefixedSlicePtr (PutLengthPrefixedSlice [] value ++ rest) = Some (value, rest).
Proof.
  intros Hl Hv Hr. rewrite <- GetLengthPrefixedSlice_eq.
  by rewrite GetLengthPrefixedSlice_bytes by done.
Qed.

(** ** Internal keys *)

(** What is appended as an internal key parses to its user key, sequence number
    and type. *)
Theorem internal_key_roundtrip u s t :
  0 <= s <= kMaxSequenceNumber -> 0 <= t <= kTypeValue ->
  exists k, InternalKey u s t = Some k /\
    ParseInternalKey k = Some (true, Some (mk_parsed u s t)) /\
    length k = InternalKeyEncodingLength (mk_parsed u s t).
Proof.
  intros Hs Ht. exists (internal u (256 * s + t)). unfold InternalKey.
  rewrite AppendInternalKey_eq by done. split; [done|].
  destruct (PackSequenceAndType_eq s t Hs Ht) as [_ Hr].
  rewrite ParseInternalKey_eq by (unfold kTypeValue in *; lia).
  destruct (Z.leb_spec t kTypeValue); [|lia]. split; [done|]. apply internal_length.
Qed.

(** C39: For any order of user keys that keeps its contract: the internal separator
    of two keys is the first key, or a key strictly between them; the internal
    successor is the key, or a key behind it; and the assertions in both functions
    hold. *)
Theorem internal_separator_between C {L : ComparatorLaws C} start limit :
  internal_valid C start -> internal_valid C limit ->
  (exists s, InternalFindShortestSeparator C start limit = Some s /\
     (s = start \/ exists r1 r2, InternalCompare C start s = Some r1 /\ r1 < 0 /\
                                 InternalCompare C s limit = Some r2 /\ r2 < 0)) /\
  (exists s, InternalFindShortSuccessor C start = Some s /\
     (s = start \/ exists r, InternalCompare C start s = Some r /\ r < 0)).
Proof.
  intros Hs Hl. split.
  - destruct (internal_separator C start limit Hs Hl) as (s & E & _ & H). by exists s.
  - destruct (internal_successor C start Hs) as (s & E & _ & H). by exists s.
Qed.

(** The key built for a lookup at a snapshot sorts behind the entries of its
    user key that are newer than the snapshot, and not behind the others; it has
    the form of a memtable key and fits in the space allocated. *)
Theorem lookup_key_seeks C {L : ComparatorLaws C} u snapshot seq t :
  valid u -> 0 <= snapshot <= kMaxSequenceNumber -> Z.of_nat (length u) + 8 < 2 ^ 32 ->
  0 <= seq <= kMaxSequenceNumber -> 0 <= t <= kTypeValue ->
  exists k entry r,
    make_LookupKey u snapshot = Some k /\ InternalKey u seq t = Some entry /\
    (length (lookup_bytes k) <= lookup_needed u)%nat /\
    lookup_memtable_key k = PutLengthPrefixedSlice [] (lookup_internal_key k) /\
    lookup_user_key k = u /\
    InternalCompare C (lookup_internal_key k) entry = Some r /\ (0 < r <-> snapshot < seq).
Proof.
  intros Hu Hs Hl Hq Ht. destruct (make_LookupKey_eq u snapshot Hs Hl) as (k & E & Hm & Hi & Hk & Hn).
  destruct (PackSequenceAndType_eq seq t Hq Ht) as [_ Hr].
  destruct (PackSequenceAndType_eq snapshot 1 Hs ltac:(done)) as [_ Hr1].
  eexists k, (internal u (256 * seq + t)), _. split; [done|].
  split; [unfold InternalKey; by rewrite AppendInternalKey_eq|].
  split; [done|]. split; [by rewrite Hi|]. split; [done|].
  rewrite Hi, InternalCompare_eq, compare_refl by done. split; [reflexivity|].
  cbn [Z.eqb]. unfold compare_number, kTypeValue in *.
  destruct (Z.ltb_spec (256 * seq + t) (256 * snapshot + 1)),
    (Z.ltb_spec (256 * snapshot + 1) (256 * seq + t)); lia.
Qed.

(** ** Instances *)

#[export] Program Instance bytes_order : KeyOrder compare (fun _ => True).
Next Obligation. intros a b _ _. rewrite (compare_flip a b). lia. Qed.
Next Obligation. intros a b c _ _ _. apply compare_le_trans. Qed.

(** The list of [b] and [d], and the state while [c] is linked into it. *)
Definition run {St A} (m : M St A) (s : St) : St := match m s with Ok _ s' => s' | _ => s end.

Definition list_bd : SkipList Slice :=
  run (Insert compare [100]) (run (Insert compare [98]) (SkipList_new [])).

Lemma list_bd_represents : represents compare (fun _ => True) list_bd [[98]; [100]].
Proof.
  destruct (represents_insert compare (fun _ => True) _ _ [98]
    (represents_new compare (fun _ => True) [])) as (s1 & E1 & H1); [done|constructor|].
  destruct (represents_insert compare (fun _ => True) _ _ [100] H1) as (s2 & E2 & H2);
    [done|by repeat constructor|].
  unfold list_bd, run. by rewrite E1, E2.
Qed.

Lemma Insert_inserts_witness :
  exists s', Insert compare [99] list_bd = Ok tt s' /\
             represents compare (fun _ => True) s' [[98]; [99]; [100]].
Proof.
  apply (Insert_inserts compare (fun _ => True) list_bd [[98]; [100]] [99]).
  - apply list_bd_represents.
  - done.
  - by repeat constructor.
Defined.

Lemma Contains_member_witness : Contains compare [100] list_bd = Ok true list_bd.
Proof.
  apply (Contains_member compare (fun _ => True) list_bd [[98]; [100]]);
    [apply list_bd_represents|done].
Defined.

Lemma iterator_walks_witness :
  exists ids : list nat, length ids = 2%nat /\
    Iterator_SeekToFirst list_bd = Ok (ids !! 0%nat) list_bd /\
    Iterator_SeekToLast list_bd = Ok (last ids) list_bd /\
    (forall j k, [[98]; [100]] !! j = Some k ->
       Iterator_key (ids !! j) list_bd = Ok k list_bd /\
       Iterator_Next (ids !! j) list_bd = Ok (ids !! S j) list_bd /\
       Iterator_Prev compare (ids !! j) list_bd =
         Ok (match j with O => None | S i => ids !! i end) list_bd) /\
    (forall k, True ->
       Iterator_Seek compare k list_bd =
         Ok (ids !! length (List.filter (fun a => compare a k <? 0) [[98]; [100]])) list_bd).
Proof.
  apply (iterator_walks compare (fun _ => True) list_bd [[98]; [100]]), list_bd_represents.
Defined.

(** [c] allocated, and the two stores at the lowest level. *)
Definition prepared : SkipList Slice * nat * list (option nat) :=
  match prepare compare [99] list_bd with
  | Ok (x, height, prev) s => (s, x, prev)
  | _ => (list_bd, 0%nat, [])
  end.
Definition new_node : nat := snd (fst prepared).
Definition list_linked : SkipList Slice := run (link_node new_node 0 (snd prepared)) (fst (fst prepared)).
Definition list_published : SkipList Slice := run (publish new_node 0 (snd prepared)) list_linked.

Lemma list_bd_fresh L :
  sk_inv compare (fun _ => True) list_bd L -> holds_keys list_bd (L 0%nat) [[98]; [100]] ->
  fresh_key compare list_bd L [99].
Proof.
  intros I H y a Hy Ha. apply list_elem_of_lookup in Hy as [i Hi].
  eapply Forall2_lookup_l in H as (b & Hb & Hk); [|exact Hi]. rewrite Ha in Hk.
  assert (a = b) as -> by congruence. clear -Hb.
  destruct i as [|[|]]; [injection Hb as <-|injection Hb as <-|]; done.
Qed.

(** A search for [c] that began before [c] was linked: the writer has published its
    node. *)
Lemma sample_run L0 : sk_inv compare (fun _ => True) list_bd L0 -> holds_keys list_bd (L0 0%nat) [[98]; [100]] ->
  rtc (step compare (fun _ => True) [99]) (list_bd, Idle, Starting)
    (list_published, Linking new_node 1 (snd prepared) 1, Searching 0 1).
Proof.
  intros I0 H0.
  apply (rtc_l _ _ (list_bd, Idle, Searching 0 1)).
  { apply step_reader. apply (step_start compare [99] list_bd). }
  apply (rtc_l _ _ (fst (fst prepared), Linking new_node 1 (snd prepared) 0, Searching 0 1)).
  { apply step_writer. apply (step_prepare compare (fun _ => True) list_bd [99] L0); [done|done| |].
    - by apply list_bd_fresh.
    - vm_compute. reflexivity. }
  apply (rtc_l _ _ (list_linked, Publishing new_node 1 (snd prepared) 0, Searching 0 1)).
  { apply step_writer, step_link; [lia|]. vm_compute. reflexivity. }
  apply (rtc_l _ _ (list_published, Linking new_node 1 (snd prepared) 1, Searching 0 1)).
  { apply step_writer, step_publish. vm_compute. reflexivity. }
  apply rtc_refl.
Qed.

Lemma concurrent_search_linearizes_witness :
  exists (L0 L : nat -> list nat) r, sk_inv compare (fun _ => True) list_published L /\
    find_round compare [99] (0%nat, 1%nat, None) list_published = Ok r list_published /\
    (forall n prev, r = inr (n, prev) -> n = first_at_least compare list_published L [99]) /\
    (forall y, y ∈ L0 0%nat -> y ∈ L 0%nat /\ key_of list_published y = key_of list_bd y).
Proof.
  destruct list_bd_represents as (L0 & I0 & H0). exists L0.
  apply (concurrent_search_linearizes compare (fun _ => True) [99] list_bd L0 list_published
           (Linking new_node 1 (snd prepared) 1) 0 1 I0 I).
  by apply (sample_run L0).
Defined.

Lemma concurrent_search_finishes_witness :
  let c := (list_published, Linking new_node 1 (snd prepared) 1, Searching 0 1) in
  sn (finishing compare (fun _ => True) [99]) c /\
  forall c', rtc (finishing compare (fun _ => True) [99]) c c' -> nf (finishing compare (fun _ => True) [99]) c' ->
    exists s n, c' = (s, Idle, Found n).
Proof.
  destruct list_bd_represents as (L0 & I0 & H0).
  apply (concurrent_search_finishes compare (fun _ => True) [99] list_bd L0 _ I0 I).
  by apply (sample_run L0).
Defined.

Lemma Random_Next_modulo_witness :
  Random_Next 2147483646 = (2147483646 * 16807) mod (2 ^ 31 - 1) /\ good_seed (Random_Next 2147483646).
Proof. apply (Random_Next_modulo 2147483646). unfold good_seed, M31. lia. Defined.

Lemma varint64_roundtrip_witness :
  exists l, PutVarint64 [] 300 = Some l /\ (length l <= 10)%nat /\
            VarintLength 300 = Some (Z.of_nat (length l)) /\ GetVarint64 (l ++ [7]) = Some (300, [7]).
Proof. apply (varint64_roundtrip 300 [7]); [lia|by apply all_bytes_Forall]. Defined.

Lemma varint32_unrolled_witness :
  EncodeVarint64 (2 ^ 32 - 1) = Some (EncodeVarint32 (2 ^ 32 - 1)) /\
  GetVarint32 (EncodeVarint32 (2 ^ 32 - 1) ++ [7]) = Some (2 ^ 32 - 1, [7]).
Proof. apply (varint32_unrolled (2 ^ 32 - 1) [7]); [lia|by apply all_bytes_Forall]. Defined.

Lemma GetVarint32_spec_witness : GetVarint32 [0xAC; 0x02; 7] = Some (300, [7]).
Proof. rewrite (GetVarint32_spec [0xAC; 0x02; 7]); [reflexivity|by apply all_bytes_Forall]. Defined.

Lemma length_prefixed_roundtrip_witness :
  GetLengthPrefixedSlice (PutLengthPrefixedSlice [] [104; 105] ++ [7]) = Some ([104; 105], [7]) /\
  GetLengthPrefixedSlicePtr (PutLengthPrefixedSlice [] [104; 105] ++ [7]) = Some ([104; 105], [7]).
Proof. apply (length_prefixed_roundtrip [104; 105] [7]); [done|by apply all_bytes_Forall..]. Defined.

Lemma internal_key_roundtrip_witness :
  exists k, InternalKey [104; 105] 1000 kTypeValue = Some k /\
    ParseInternalKey k = Some (true, Some (mk_parsed [104; 105] 1000 kTypeValue)) /\
    length k = InternalKeyEncodingLength (mk_parsed [104; 105] 1000 kTypeValue).
Proof.
  apply (internal_key_roundtrip [104; 105] 1000 kTypeValue); unfold kMaxSequenceNumber, kTypeValue; lia.
Defined.

(** Between [hello] at 5 and [house] at 7 there is [hf]. *)
Lemma internal_separator_between_witness :
  let start := internal [104; 101; 108; 108; 111] 1281 in
  let limit := internal [104; 111; 117; 115; 101] 1793 in
  (exists s, InternalFindShortestSeparator BytewiseComparator start limit = Some s /\
     (s = start \/ exists r1 r2, InternalCompare BytewiseComparator start s = Some r1 /\ r1 < 0 /\
                                 InternalCompare BytewiseComparator s limit = Some r2 /\ r2 < 0)) /\
  (exists s, InternalFindShortSuccessor BytewiseComparator start = Some s /\
     (s = start \/ exists r, InternalCompare BytewiseComparator start s = Some r /\ r < 0)).
Proof.
  cbv zeta. apply (internal_separator_between BytewiseComparator).
  - eexists _, _. split; [reflexivity|]. split; [by apply all_bytes_Forall|lia].
  - eexists _, _. split; [reflexivity|]. split; [by apply all_bytes_Forall|lia].
Defined.

Lemma lookup_key_seeks_witness :
  exists k entry r,
    make_LookupKey [104; 105] 10 = Some k /\ InternalKey [104; 105] 9 kTypeDeletion = Some entry /\
    (length (lookup_bytes k) <= lookup_needed [104; 105]%Z)%nat /\
    lookup_memtable_key k = PutLengthPrefixedSlice [] (lookup_internal_key k) /\
    lookup_user_key k = [104; 105] /\
    InternalCompare BytewiseComparator (lookup_internal_key k) entry = Some r /\ (0 < r <-> 10 < 9).
Proof.
  apply (lookup_key_seeks BytewiseComparator [104; 105] 10 9 kTypeDeletion).
  - by apply all_bytes_Forall.
  - unfold kMaxSequenceNumber. lia.
  - done.
  - unfold kMaxSequenceNumber. lia.
  - unfold kTypeDeletion, kTypeValue. lia.
Defined.
