(* ===== verification/DbImpl.v ===== *)
(** * The database (db_impl.h, db_impl.cc, builder.h, builder.cc)

    The database ties the other components together: updates go to a log and to a
    memtable; a full memtable becomes a table file; files are compacted; reads look
    into the memtables and then into the files of the current version.

    A function of the code is a function of the state that the mutex protects.  Where
    the code releases the mutex or waits, [others] is called: what other threads do to
    the state in the meantime, an argument of the model.  Objects that several threads
    point to (memtables, waiting writers, manual compactions) are in heaps. *)

From Stdlib Require Import ZArith Lia String SpecFloat.
From stdpp Require Import base option list strings sorting gmap.
From S2P Require Import Prelude Memory Slice Coding DbFormat Status Iterator Bloom WriteBatch MemTable MemIterator Block Format.
From S2P Require Import Env Log TableBuilder LRU Table Merger DbIter FileName VersionEdit LevelFiles Version VersionSet Compaction.
From S2P Require Import TableCache Snapshot.

(** Directories and locks of the environment. *)
Class Directory (E : Type) := {
  FileExists : Slice -> E -> bool;
  GetChildren : Slice -> E -> Status * list Slice;
  CreateDir : Slice -> E -> Status * E;
  DeleteDir : Slice -> E -> Status * E;
  LockFile : Slice -> E -> Status * E;
  UnlockFile : E -> Status * E
}.

(** ** Options *)

Definition kNumNonTableCacheFiles : Z := 10.
Definition kL0_SlowdownWritesTrigger : Z := 8.
Definition kL0_StopWritesTrigger : Z := 12.

(** The options of tables, with those of the database; the logger is left out. *)
Record DbOptions := mk_db_options {
  table_options : Options;
  create_if_missing : bool;
  error_if_exists : bool;
  write_buffer_size : Z;
  max_open_files : Z
}.

Definition ClipToRange (v minvalue maxvalue : Z) : Z :=
  let v := if maxvalue <? v then maxvalue else v in if v <? minvalue then minvalue else v.

(** [icmp] is at another address than the comparator of the user. *)
Definition SanitizeOptions (icmp_address : Z) (src : DbOptions) : DbOptions :=
  let o := table_options src in
  mk_db_options
    (mk_options icmp_address (InternalKeyComparator (comparator o)) (paranoid_checks o)
       (ClipToRange (block_size o) 1024 4194304) (block_restart_interval o) (compression o)
       (InternalFilterPolicy <$> filter_policy o))
    (create_if_missing src) (error_if_exists src)
    (ClipToRange (write_buffer_size src) 65536 1073741824)
    (ClipToRange (max_open_files src) (64 + kNumNonTableCacheFiles) 50000).

(** ** State *)

(** A writer that waits; a batch that is not there asks for a compaction. *)
Record DbWriter := mk_db_writer {
  w_status : Status;
  w_batch : option WriteBatch;
  w_sync : bool;
  w_done : bool
}.

Record ManualCompaction := mk_manual {
  m_level : Z;
  m_done : bool;
  m_begin : option Slice;
  m_end : option Slice
}.

(** What the mutex protects, with the environment in [versions_].  [logfile_] comes
    with the block offset of [log_]; the statistics of compactions are left out. *)
Record DBImpl (E W X Y : Type) := mk_db {
  mems : gmap nat MemTable;
  db_mem : nat;
  db_imm : option nat;
  logfile_ : option (W * Z);
  logfile_number_ : Z;
  seed_ : Z;
  writer_heap : gmap nat DbWriter;
  writers_ : list nat;
  tmp_batch_ : WriteBatch;
  snapshots_ : SnapshotList;
  pending_outputs_ : gset Z;
  bg_compaction_scheduled_ : bool;
  manual_heap : gmap nat ManualCompaction;
  manual_compaction_ : option nat;
  versions_ : VersionSet E W;
  bg_error_ : Status;
  db_lock_ : bool;
  shutting_down_ : bool;
  table_cache_ : Y;
  block_cache_ : option X
}.
Arguments mk_db {E W X Y}.
Arguments mems {E W X Y}. Arguments db_mem {E W X Y}. Arguments db_imm {E W X Y}. Arguments logfile_ {E W X Y}.
Arguments logfile_number_ {E W X Y}. Arguments seed_ {E W X Y}. Arguments writer_heap {E W X Y}.
Arguments writers_ {E W X Y}. Arguments tmp_batch_ {E W X Y}. Arguments snapshots_ {E W X Y}.
Arguments pending_outputs_ {E W X Y}. Arguments bg_compaction_scheduled_ {E W X Y}.
Arguments manual_heap {E W X Y}. Arguments manual_compaction_ {E W X Y}. Arguments versions_ {E W X Y}.
Arguments bg_error_ {E W X Y}. Arguments db_lock_ {E W X Y}. Arguments shutting_down_ {E W X Y}.
Arguments table_cache_ {E W X Y}. Arguments block_cache_ {E W X Y}.

Section db.
Context {PL : Platform} {PM : Placement} {SN : Snappy}.
Context {E W G R : Type} {FS : FileSystem E W G R} {DE : Directory E}.
Context {SF : SequentialFile G} {RA : RandomAccessFile R}.
Context {X H : Type} {CA : Cache X H Block} {Y J : Type} {CT : Cache Y J (Table R)}.

Abbreviation DB := (DBImpl E W X Y).
Abbreviation DM := (M DB).
Abbreviation TC := (TableCache Y X E).

Definition set_mems (x : gmap nat MemTable) (s : DB) : DB :=
  mk_db x (db_mem s) (db_imm s) (logfile_ s) (logfile_number_ s) (seed_ s) (writer_heap s) (writers_ s)
    (tmp_batch_ s) (snapshots_ s) (pending_outputs_ s) (bg_compaction_scheduled_ s) (manual_heap s)
    (manual_compaction_ s) (versions_ s) (bg_error_ s) (db_lock_ s) (shutting_down_ s) (table_cache_ s)
    (block_cache_ s).
Definition set_memtables (x0 : nat) (x1 : option nat) (s : DB) : DB :=
  mk_db (mems s) x0 x1 (logfile_ s) (logfile_number_ s) (seed_ s) (writer_heap s) (writers_ s) (tmp_batch_ s)
    (snapshots_ s) (pending_outputs_ s) (bg_compaction_scheduled_ s) (manual_heap s) (manual_compaction_ s)
    (versions_ s) (bg_error_ s) (db_lock_ s) (shutting_down_ s) (table_cache_ s) (block_cache_ s).
Definition set_logfile (x0 : option (W * Z)) (x1 : Z) (s : DB) : DB :=
  mk_db (mems s) (db_mem s) (db_imm s) x0 x1 (seed_ s) (writer_heap s) (writers_ s) (tmp_batch_ s) (snapshots_
    s) (pending_outputs_ s) (bg_compaction_scheduled_ s) (manual_heap s) (manual_compaction_ s) (versions_ s)
    (bg_error_ s) (db_lock_ s) (shutting_down_ s) (table_cache_ s) (block_cache_ s).
Definition set_seed (x : Z) (s : DB) : DB :=
  mk_db (mems s) (db_mem s) (db_imm s) (logfile_ s) (logfile_number_ s) x (writer_heap s) (writers_ s)
    (tmp_batch_ s) (snapshots_ s) (pending_outputs_ s) (bg_compaction_scheduled_ s) (manual_heap s)
    (manual_compaction_ s) (versions_ s) (bg_error_ s) (db_lock_ s) (shutting_down_ s) (table_cache_ s)
    (block_cache_ s).
Definition set_writer_heap (x : gmap nat DbWriter) (s : DB) : DB :=
  mk_db (mems s) (db_mem s) (db_imm s) (logfile_ s) (logfile_number_ s) (seed_ s) x (writers_ s) (tmp_batch_ s)
    (snapshots_ s) (pending_outputs_ s) (bg_compaction_scheduled_ s) (manual_heap s) (manual_compaction_ s)
    (versions_ s) (bg_error_ s) (db_lock_ s) (shutting_down_ s) (table_cache_ s) (block_cache_ s).
Definition set_writers (x : list nat) (s : DB) : DB :=
  mk_db (mems s) (db_mem s) (db_imm s) (logfile_ s) (logfile_number_ s) (seed_ s) (writer_heap s) x (tmp_batch_
    s) (snapshots_ s) (pending_outputs_ s) (bg_compaction_scheduled_ s) (manual_heap s) (manual_compaction_ s)
    (versions_ s) (bg_error_ s) (db_lock_ s) (shutting_down_ s) (table_cache_ s) (block_cache_ s).
Definition set_tmp_batch (x : WriteBatch) (s : DB) : DB :=
  mk_db (mems s) (db_mem s) (db_imm s) (logfile_ s) (logfile_number_ s) (seed_ s) (writer_heap s) (writers_ s) x
    (snapshots_ s) (pending_outputs_ s) (bg_compaction_scheduled_ s) (manual_heap s) (manual_compaction_ s)
    (versions_ s) (bg_error_ s) (db_lock_ s) (shutting_down_ s) (table_cache_ s) (block_cache_ s).
Definition set_snapshots (x : SnapshotList) (s : DB) : DB :=
  mk_db (mems s) (db_mem s) (db_imm s) (logfile_ s) (logfile_number_ s) (seed_ s) (writer_heap s) (writers_ s)
    (tmp_batch_ s) x (pending_outputs_ s) (bg_compaction_scheduled_ s) (manual_heap s) (manual_compaction_ s)
    (versions_ s) (bg_error_ s) (db_lock_ s) (shutting_down_ s) (table_cache_ s) (block_cache_ s).
Definition set_pending_outputs (x : gset Z) (s : DB) : DB :=
  mk_db (mems s) (db_mem s) (db_imm s) (logfile_ s) (logfile_number_ s) (seed_ s) (writer_heap s) (writers_ s)
    (tmp_batch_ s) (snapshots_ s) x (bg_compaction_scheduled_ s) (manual_heap s) (manual_compaction_ s)
    (versions_ s) (bg_error_ s) (db_lock_ s) (shutting_down_ s) (table_cache_ s) (block_cache_ s).
Definition set_scheduled (x : bool) (s : DB) : DB :=
  mk_db (mems s) (db_mem s) (db_imm s) (logfile_ s) (logfile_number_ s) (seed_ s) (writer_heap s) (writers_ s)
    (tmp_batch_ s) (snapshots_ s) (pending_outputs_ s) x (manual_heap s) (manual_compaction_ s) (versions_ s)
    (bg_error_ s) (db_lock_ s) (shutting_down_ s) (table_cache_ s) (block_cache_ s).
Definition set_manuals (x : gmap nat ManualCompaction) (s : DB) : DB :=
  mk_db (mems s) (db_mem s) (db_imm s) (logfile_ s) (logfile_number_ s) (seed_ s) (writer_heap s) (writers_ s)
    (tmp_batch_ s) (snapshots_ s) (pending_outputs_ s) (bg_compaction_scheduled_ s) x (manual_compaction_ s)
    (versions_ s) (bg_error_ s) (db_lock_ s) (shutting_down_ s) (table_cache_ s) (block_cache_ s).
Definition set_manual (x : option nat) (s : DB) : DB :=
  mk_db (mems s) (db_mem s) (db_imm s) (logfile_ s) (logfile_number_ s) (seed_ s) (writer_heap s) (writers_ s)
    (tmp_batch_ s) (snapshots_ s) (pending_outputs_ s) (bg_compaction_scheduled_ s) (manual_heap s) x (versions_
    s) (bg_error_ s) (db_lock_ s) (shutting_down_ s) (table_cache_ s) (block_cache_ s).
Definition set_db_versions (x : VersionSet E W) (s : DB) : DB :=
  mk_db (mems s) (db_mem s) (db_imm s) (logfile_ s) (logfile_number_ s) (seed_ s) (writer_heap s) (writers_ s)
    (tmp_batch_ s) (snapshots_ s) (pending_outputs_ s) (bg_compaction_scheduled_ s) (manual_heap s)
    (manual_compaction_ s) x (bg_error_ s) (db_lock_ s) (shutting_down_ s) (table_cache_ s) (block_cache_ s).
Definition set_bg_error (x : Status) (s : DB) : DB :=
  mk_db (mems s) (db_mem s) (db_imm s) (logfile_ s) (logfile_number_ s) (seed_ s) (writer_heap s) (writers_ s)
    (tmp_batch_ s) (snapshots_ s) (pending_outputs_ s) (bg_compaction_scheduled_ s) (manual_heap s)
    (manual_compaction_ s) (versions_ s) x (db_lock_ s) (shutting_down_ s) (table_cache_ s) (block_cache_ s).
Definition set_db_lock (x : bool) (s : DB) : DB :=
  mk_db (mems s) (db_mem s) (db_imm s) (logfile_ s) (logfile_number_ s) (seed_ s) (writer_heap s) (writers_ s)
    (tmp_batch_ s) (snapshots_ s) (pending_outputs_ s) (bg_compaction_scheduled_ s) (manual_heap s)
    (manual_compaction_ s) (versions_ s) (bg_error_ s) x (shutting_down_ s) (table_cache_ s) (block_cache_ s).
Definition set_shutting_down (x : bool) (s : DB) : DB :=
  mk_db (mems s) (db_mem s) (db_imm s) (logfile_ s) (logfile_number_ s) (seed_ s) (writer_heap s) (writers_ s)
    (tmp_batch_ s) (snapshots_ s) (pending_outputs_ s) (bg_compaction_scheduled_ s) (manual_heap s)
    (manual_compaction_ s) (versions_ s) (bg_error_ s) (db_lock_ s) x (table_cache_ s) (block_cache_ s).
Definition set_caches (x0 : Y) (x1 : option X) (s : DB) : DB :=
  mk_db (mems s) (db_mem s) (db_imm s) (logfile_ s) (logfile_number_ s) (seed_ s) (writer_heap s) (writers_ s)
    (tmp_batch_ s) (snapshots_ s) (pending_outputs_ s) (bg_compaction_scheduled_ s) (manual_heap s)
    (manual_compaction_ s) (versions_ s) (bg_error_ s) (db_lock_ s) (shutting_down_ s) x0 x1.

Definition on_set {A} : M (VersionSet E W) A -> DM A := zoom versions_ set_db_versions.
Definition on_vers {A} (m : VM A) : DM A := on_set (on_versions m).
Definition on_fs {A} (op : E -> A * E) : DM A := on_set (on_env op).
Definition db_env (s : DB) : E := vs_env_ (versions_ s).

(** A call of the table cache, which has the environment of the database. *)
Definition on_cache {A} : M TC A -> DM A :=
  zoom (fun s => mk_table_cache (table_cache_ s) (block_cache_ s) (db_env s))
       (fun t s => set_caches (tables_ t) (blocks_ t) (set_db_versions (set_vs_env (tc_env t) (versions_ s)) s)).

(** A call of a memtable. *)
Definition on_memtable {A} (p : nat) (m : M MemTable A) : DM A :=
  let! t := gets (fun s => mems s !! p) in
  let! t := or_ub t in
  zoom (fun _ => t) (fun t s => set_mems (<[p := t]> (mems s)) s) m.

Definition Ref_mem (p : nat) : DM unit := on_memtable p MemTable.Ref.

(** [Unref] deletes a memtable that nobody refers to. *)
Definition Unref_mem (p : nat) : DM unit :=
  let! gone := on_memtable p MemTable.Unref in
  if gone : bool then modify (fun s => set_mems (delete p (mems s)) s) else ret tt.

(** [new MemTable(internal_comparator_)], with one reference. *)
Definition new_mem : DM nat :=
  let! s := gets id in
  let p := fresh (dom (mems s)) in
  modify (set_mems (<[p := new_MemTable]> (mems s))) ;;;
  Ref_mem p ;;; ret p.

(** A call of a log writer: its file, with the block offset. *)
Definition on_writer {A} (w : W * Z) (m : M (Writer (W * E)) A) : DM (A * (W * Z)) := fun s =>
  match m (mk_writer (w.1, db_env s) w.2) with
  | Ok a l => Ok (a, ((w_dest l).1, w_block_offset l)) (set_db_versions (set_vs_env (w_dest l).2 (versions_ s)) s)
  | Err _ => Err s
  | Ub => Ub
  | OutOfFuel => OutOfFuel
  end.

(** A call of a table builder: its file is written to in the environment. *)
Definition on_builder {A} (b : Rep (W * E)) (m : M (Rep (W * E)) A) : DM (A * Rep (W * E)) := fun s =>
  match m (set_file ((TableBuilder.file b).1, db_env s) (TableBuilder.status b) b) with
  | Ok a b => Ok (a, b) (set_db_versions (set_vs_env (TableBuilder.file b).2 (versions_ s)) s)
  | Err _ => Err s
  | Ub => Ub
  | OutOfFuel => OutOfFuel
  end.

(** [NewWritableFile]: the handle if the status is ok. *)
Definition create_file (fname : Slice) : DM (Status * option W) := on_fs (NewWritableFile fname).

Definition delete_file_handle (w : W) : DM unit := on_fs (fun e => (tt, file_delete w e)).

Context (user_comparator : Comparator) (db_options : DbOptions) (dbname_ : Slice).
(** The memory of a memtable, which is not modelled; the fuel of loops; the other
    threads, in general, and while [LogAndApply] has released the mutex, where what
    they do to the set of versions is an argument of its own. *)
Context (ApproximateMemoryUsage : MemTable -> Z) (fuel : nat) (others meanwhile : DM unit) (manifest_others : M (VersionSet E W) unit).

Abbreviation icmp := (InternalKeyComparator user_comparator).
Abbreviation options := (table_options db_options).
Abbreviation TableIt := (TwoLevelIterator (TableIter H) (TableIter H) (option X)).
Abbreviation CI := (CachedIterator R TableIt J).
#[local] Instance cache_ops : TableCacheOps TC CI (Table R) := TableCache_ops options dbname_.
#[local] Instance cached_iterator : Iterator CI := Cached_Iterator fuel.

(** ** Errors *)

(** The errors that are only logged unless the options are paranoid. *)
Definition MaybeIgnoreError (s : Status) : Status :=
  if ok s || paranoid_checks options then s else Status_OK.

Definition RecordBackgroundError (s : Status) : DM unit :=
  let! b := gets bg_error_ in
  if ok b then modify (set_bg_error s) else ret tt.

(** ** A new database *)

Definition new_db_edit : VersionEdit :=
  SetLastSequence 0 (SetNextFile 2 (SetLogNumber 0
    (SetComparatorName (c_string (@Name user_comparator)) new_VersionEdit))).

Definition NewDB : DM Status :=
  let! manifest := or_ub (DescriptorFileName dbname_ 1) in
  let! r := create_file manifest in
  let '(st, file) := r in
  if negb (ok st) then ret st
  else
    let! file := or_ub file in
    let! record := or_ub (EncodeTo new_db_edit []) in
    let! r := on_writer (file, 0) (AddRecord record) in
    let '(st, _) := r in
    let! st := if ok st then on_fs (file_Close file) else ret st in
    delete_file_handle file ;;;
    if ok st then
      let! s := gets id in
      let! r := or_ub (SetCurrentFile dbname_ 1 (db_env s)) in on_fs (fun _ => r)
    else
      on_fs (DeleteFile manifest) ;;; ret st.

(** ** Files that are not needed any more *)

(** What is kept, of the files with a name that means something. *)
Definition keep_file (live : gset Z) (v : VersionSet E W) (number : Z) (type : FileType) : bool :=
  match type with
  | kLogFile => (vs_log_number_ v <=? number) || (number =? vs_prev_log_number_ v)
  | kDescriptorFile => vs_manifest_file_number_ v <=? number
  | kTableFile | kTempFile => bool_decide (number ∈ live)
  | kCurrentFile | kDBLockFile | kInfoLogFile => true
  end.

Definition delete_obsolete (live : gset Z) (filename : Slice) : DM unit :=
  match ParseFileName filename with
  | Some (number, type) =>
      let! s := gets id in
      if keep_file live (versions_ s) number type then ret tt
      else
        (match type with kTableFile => on_cache (Evict number) | _ => ret tt end) ;;;
        on_fs (DeleteFile (dbname_ ++ c_string "/" ++ filename)) ;;; ret tt
  | None => ret tt
  end.

Definition DeleteObsoleteFiles : DM unit :=
  let! s := gets id in
  if negb (ok (bg_error_ s)) then ret tt
  else
    let! live := on_vers (AddLiveFiles (pending_outputs_ s)) in
    iter_m (delete_obsolete live) (GetChildren dbname_ (db_env s)).2.

(** ** Tables of memtables *)

Section build.
Context {S : Type} {I : Iterator S}.

Definition on_iter {A} (it : S) (m : M S A) : DM (A * S) := fun s =>
  match m it with Ok a it => Ok (a, it) s | Err _ => Err s | Ub => Ub | OutOfFuel => OutOfFuel end.

(** The loop that adds the entries: the iterator, the builder, [meta->largest]. *)
Definition build_round (vars : S * Rep (W * E) * Slice) : DM (S * Rep (W * E) * Slice + S * Rep (W * E) * Slice) :=
  let '(iter, builder, largest) := vars in
  if it_Valid iter then
    let! r := on_iter iter it_key in
    let '(key, iter) := r in
    let! r := on_iter iter it_value in
    let '(value, iter) := r in
    let! r := on_builder builder (TableBuilder_Add key value) in
    let '(_, builder) := r in
    let! r := on_iter iter it_Next in
    let '(_, iter) := r in
    ret (inl (iter, builder, key))
  else ret (inr (iter, builder, largest)).

(** The file is synced, closed and, if all is well, opened as a table. *)
Definition verify_table (file : W) (number size : Z) (st : Status) : DM Status :=
  let! st := if ok st then on_fs (file_Sync file) else ret st in
  let! st := if ok st then on_fs (file_Close file) else ret st in
  delete_file_handle file ;;;
  if ok st then
    let! r := on_cache (tc_NewIterator new_ReadOptions number size) in
    let! st := or_ub (it_status r.1) in
    on_cache (tc_delete_iterator r.1) ;;; ret st
  else ret st.

(** The entries of an iterator, at its first entry, go into a new file. *)
Definition build_file (iter : S) (fname : Slice) (meta : FileMetaData) (file : W) : DM (Status * FileMetaData * S) :=
  let! s := gets id in
  let! builder := or_ub (new_TableBuilder options (file, db_env s)) in
  let! r := on_iter iter it_key in
  let '(smallest, iter) := r in
  let! r := loop fuel build_round (iter, builder, []) in
  let '(iter, builder, largest) := r in
  let! r := on_builder builder TableBuilder_Finish in
  let '(st, builder) := r in
  let! r := on_builder builder FileSize in
  let size := if ok st then r.1 else 0 in
  assert_ (negb (ok st) || (0 <? size)) ;;;
  let meta := mk_file (refs meta) (allowed_seeks meta) (fnumber meta) size smallest largest in
  let! st := verify_table file (fnumber meta) size st in
  ret (st, meta, iter).

(** [BuildTable], for a [FileMetaData] that has its number. *)
Definition BuildTable (iter : S) (number : Z) : DM (Status * FileMetaData) :=
  let meta := mk_file 0 (Z.shiftl 1 30) number 0 [] [] in
  let! r := on_iter iter it_SeekToFirst in
  let '(_, iter) := r in
  let! fname := or_ub (TableFileName dbname_ number) in
  let finish st meta iter :=
    let! ist := or_ub (it_status iter) in
    let st := if ok ist then st else ist in
    (if ok st && (0 <? file_size meta) then ret tt else on_fs (DeleteFile fname) ;;; ret tt) ;;;
    ret (st, meta) in
  if it_Valid iter then
    let! r := create_file fname in
    let '(st, file) := r in
    if negb (ok st) then ret (st, meta)
    else
      let! file := or_ub file in
      let! r := build_file iter fname meta file in
      let '(st, meta, iter) := r in finish st meta iter
  else finish Status_OK meta iter.

End build.

(** The level of the table of a memtable. *)
Definition output_level (base : option nat) (meta : FileMetaData) : DM Z :=
  match base with
  | Some v =>
      let! levels := on_vers (all_levels v) in
      let! min_user_key := or_ub (InternalKey_user_key (smallest meta)) in
      let! max_user_key := or_ub (InternalKey_user_key (largest meta)) in
      PickLevelForMemTableOutput user_comparator levels min_user_key max_user_key
  | None => ret 0
  end.

Definition WriteLevel0Table (mem : nat) (edit : VersionEdit) (base : option nat) : DM (Status * VersionEdit) :=
  let! number := on_set NewFileNumber in
  modify (fun s => set_pending_outputs ({[number]} ∪ pending_outputs_ s) s) ;;;
  let! t := gets (fun s => mems s !! mem) in
  let! t := or_ub t in
  let! r := @BuildTable _ (MemTable_Iterator user_comparator) (MemTable_NewIterator t) number in
  let '(st, meta) := r in
  others ;;;
  modify (fun s => set_pending_outputs (pending_outputs_ s ∖ {[number]}) s) ;;;
  if ok st && (0 <? file_size meta) then
    let! level := output_level base meta in
    ret (st, AddFile level (fnumber meta) (file_size meta) (smallest meta) (largest meta) edit)
  else ret (st, edit).

(** ** Recovery *)

(** [LogReporter::Corruption]: [status] is null unless the options are paranoid. *)
Definition report_drops (status : Status) (drops : list (Z * Status)) : Status :=
  if paranoid_checks options then report status drops else status.

Record log_vars := mk_log_vars {
  lv_reader : Reader G;
  lv_status : Status;
  lv_mem : option nat;
  lv_edit : VersionEdit;
  lv_max_sequence : Z
}.

(** One record goes into the memtable; whether the loop goes on. *)
Definition recover_record (record : Slice) (vars : log_vars) : DM (log_vars + log_vars) :=
  let '(mk_log_vars reader st mem edit max_sequence) := vars in
  if (length record <? 12)%nat then
    let! c := or_ub (Status_Corruption (c_string "log record too small") []) in
    ret (inl (mk_log_vars reader (report_drops st [(Z.of_nat (length record), c)]) mem edit max_sequence))
  else
    let! batch := or_ub (SetContents record) in
    let! mem := match mem with Some p => ret p | None => new_mem end in
    let! st := on_memtable mem (InsertInto user_comparator batch) in
    let st := MaybeIgnoreError st in
    if negb (ok st) then ret (inr (mk_log_vars reader st (Some mem) edit max_sequence))
    else
      let! seq := or_ub (WriteBatch.Sequence batch) in
      let! count := or_ub (Count batch) in
      let last_seq := u64 (seq + count - 1) in
      let max_sequence := if max_sequence <? last_seq then last_seq else max_sequence in
      let! t := gets (fun s => mems s !! mem) in
      let! t := or_ub t in
      if write_buffer_size db_options <? ApproximateMemoryUsage t then
        let! r := WriteLevel0Table mem edit None in
        let '(st, edit) := r in
        if negb (ok st) then ret (inr (mk_log_vars reader st (Some mem) edit max_sequence))
        else Unref_mem mem ;;; ret (inl (mk_log_vars reader st None edit max_sequence))
      else ret (inl (mk_log_vars reader st (Some mem) edit max_sequence)).

Definition recover_log_round (vars : log_vars) : DM (log_vars + log_vars) :=
  let before := length (r_drops (lv_reader vars)) in
  match ReadRecord true true 0 fuel (lv_reader vars) with
  | Ok record reader =>
      let st := report_drops (lv_status vars) (drop before (r_drops reader)) in
      let vars := mk_log_vars reader st (lv_mem vars) (lv_edit vars) (lv_max_sequence vars) in
      match record with
      | Some record => if ok st then recover_record record vars else ret (inr vars)
      | None => ret (inr vars)
      end
  | OutOfFuel => out_of_fuel
  | _ => ub
  end.

(** The status, the edit and [*max_sequence]. *)
Definition RecoverLogFile (log_number : Z) (edit : VersionEdit) (max_sequence : Z) : DM (Status * VersionEdit * Z) :=
  let! fname := or_ub (LogFileName dbname_ log_number) in
  let! s := gets id in
  let '(st, file) := NewSequentialFile fname (db_env s) in
  if negb (ok st) then ret (MaybeIgnoreError st, edit, max_sequence)
  else
    let! file := or_ub file in
    let! vars := loop fuel recover_log_round (mk_log_vars (new_Reader file) st None edit max_sequence) in
    let '(mk_log_vars _ st mem edit max_sequence) := vars in
    let! r :=
      match mem with
      | Some p => if ok st then WriteLevel0Table p edit None else ret (st, edit)
      | None => ret (st, edit)
      end in
    match mem with Some p => Unref_mem p | None => ret tt end ;;;
    ret (r.1, r.2, max_sequence).

(** The logs among the files, and the numbers that are not found. *)
Definition scan_file (min_log prev_log : Z) (acc : gset Z * list Z) (filename : Slice) : gset Z * list Z :=
  match ParseFileName filename with
  | Some (number, type) =>
      let expected := acc.1 ∖ {[number]} in
      match type with
      | kLogFile => (expected, if (min_log <=? number) || (number =? prev_log) then acc.2 ++ [number] else acc.2)
      | _ => (expected, acc.2)
      end
  | None => acc
  end.

(** The numbers in order, from the smallest. *)
Definition sorted_numbers (l : list Z) : list Z := merge_sort Z.le l.

(** The logs one after the other; the status is that of the last. *)
Fixpoint recover_logs (logs : list Z) (st : Status) (edit : VersionEdit) (max_sequence : Z)
    : DM (Status * VersionEdit * Z) :=
  match logs with
  | [] => ret (st, edit, max_sequence)
  | log :: logs =>
      let! r := RecoverLogFile log edit max_sequence in
      let '(st, edit, max_sequence) := r in
      on_set (MarkFileNumberUsed log) ;;;
      recover_logs logs st edit max_sequence
  end.

(** The error for table files that are not there. *)
Definition missing_files (expected : gset Z) : option Status :=
  first ← hd_error (sorted_numbers (elements expected));
  name ← TableFileName dbname_ first;
  Status_Corruption (take 49 (print_llu (Z.of_nat (size expected)) ++ c_string " missing files; e.g.")) name.

(** From the set of versions on. *)
Definition recover_files (edit : VersionEdit) : DM (Status * VersionEdit) :=
  let! st := on_set (VersionSet.Recover user_comparator dbname_ fuel) in
  if negb (ok st) then ret (st, edit)
  else
    let! s := gets id in
    let '(st, filenames) := GetChildren dbname_ (db_env s) in
    if negb (ok st) then ret (st, edit)
    else
      let! expected := on_vers (AddLiveFiles ∅) in
      let '(expected, logs) :=
        foldl (scan_file (vs_log_number_ (versions_ s)) (vs_prev_log_number_ (versions_ s))) (expected, []) filenames in
      if negb (bool_decide (expected = ∅)) then
        let! st := or_ub (missing_files expected) in ret (st, edit)
      else
        let! r := recover_logs (sorted_numbers logs) st edit 0 in
        let '(st, edit, max_sequence) := r in
        (if ok st then
           let! s := gets id in
           if vs_last_sequence_ (versions_ s) <? max_sequence then on_set (SetLastSequence_vs max_sequence) else ret tt
         else ret tt) ;;;
        ret (st, edit).

Definition DB_Recover (edit : VersionEdit) : DM (Status * VersionEdit) :=
  on_fs (CreateDir dbname_) ;;;
  let! s := gets id in
  assert_ (negb (db_lock_ s)) ;;;
  let! st := on_fs (LockFile (LockFileName dbname_)) in
  if negb (ok st) then ret (st, edit)
  else
    modify (set_db_lock true) ;;;
    let! s := gets id in
    if negb (FileExists (CurrentFileName dbname_) (db_env s)) then
      if create_if_missing db_options then
        let! st := NewDB in
        if negb (ok st) then ret (st, edit) else recover_files edit
      else
        let! st := or_ub (Status_InvalidArgument dbname_ (c_string "does not exist (create_if_missing is false)")) in
        ret (st, edit)
    else if error_if_exists db_options then
      let! st := or_ub (Status_InvalidArgument dbname_ (c_string "exists (error_if_exists is true)")) in
      ret (st, edit)
    else recover_files edit.

(** ** Compactions *)

(** [*edit] is written; the mutex is released meanwhile. *)
Definition log_and_apply (edit : VersionEdit) : DM (Status * VersionEdit) :=
  let! r := on_set (LogAndApply user_comparator dbname_ manifest_others edit) in meanwhile ;;; ret r.

Definition MaybeScheduleCompaction : DM unit :=
  let! s := gets id in
  if bg_compaction_scheduled_ s then ret tt
  else if shutting_down_ s then ret tt
  else if negb (ok (bg_error_ s)) then ret tt
  else
    let! needed := on_vers NeedsCompaction in
    match db_imm s, manual_compaction_ s with
    | None, None => if needed : bool then modify (set_scheduled true) else ret tt
    | _, _ => modify (set_scheduled true)
    end.

Definition CompactMemTable : DM unit :=
  let! s := gets id in
  let! imm := or_ub (db_imm s) in
  let! base := on_vers current_version in
  on_vers (Ref base) ;;;
  let! r := WriteLevel0Table imm new_VersionEdit (Some base) in
  let '(st, edit) := r in
  on_vers (Unref base) ;;;
  let! s := gets id in
  let! st :=
    if ok st && shutting_down_ s then or_ub (Status_IOError (c_string "Deleting DB during memtable compaction") [])
    else ret st in
  let! st :=
    if ok st then
      let! r := log_and_apply (SetLogNumber (logfile_number_ s) (SetPrevLogNumber 0 edit)) in ret r.1
    else ret st in
  if ok st then
    Unref_mem imm ;;;
    modify (fun s => set_memtables (db_mem s) None s) ;;;
    DeleteObsoleteFiles
  else RecordBackgroundError st.

Record Output := mk_output {
  out_number : Z;
  out_file_size : Z;
  out_smallest : Slice;
  out_largest : Slice
}.

Record CompactionState := mk_compaction_state {
  cs_compaction : Compaction;
  smallest_snapshot : Z;
  outputs : list Output;
  outfile : option W;
  cs_builder : option (Rep (W * E));
  total_bytes : Z
}.

Definition new_CompactionState (c : Compaction) : CompactionState := mk_compaction_state c 0 [] None None 0.

Definition set_cs_compaction (c : Compaction) (cs : CompactionState) : CompactionState :=
  mk_compaction_state c (smallest_snapshot cs) (outputs cs) (outfile cs) (cs_builder cs) (total_bytes cs).
Definition set_smallest_snapshot (n : Z) (cs : CompactionState) : CompactionState :=
  mk_compaction_state (cs_compaction cs) n (outputs cs) (outfile cs) (cs_builder cs) (total_bytes cs).
Definition set_outputs (l : list Output) (cs : CompactionState) : CompactionState :=
  mk_compaction_state (cs_compaction cs) (smallest_snapshot cs) l (outfile cs) (cs_builder cs) (total_bytes cs).
Definition set_output_file (f : option W) (b : option (Rep (W * E))) (bytes : Z) (cs : CompactionState) : CompactionState :=
  mk_compaction_state (cs_compaction cs) (smallest_snapshot cs) (outputs cs) f b bytes.

(** A change of [*current_output()]. *)
Definition update_output (f : Output -> Output) (cs : CompactionState) : option CompactionState :=
  match last (outputs cs) with
  | Some out => Some (set_outputs (take (length (outputs cs) - 1) (outputs cs) ++ [f out]) cs)
  | None => None
  end.

Definition OpenCompactionOutputFile (cs : CompactionState) : DM (Status * CompactionState) :=
  assert_ (match cs_builder cs with None => true | Some _ => false end) ;;;
  let! file_number := on_set NewFileNumber in
  modify (fun s => set_pending_outputs ({[file_number]} ∪ pending_outputs_ s) s) ;;;
  let cs := set_outputs (outputs cs ++ [mk_output file_number 0 [] []]) cs in
  let! fname := or_ub (TableFileName dbname_ file_number) in
  let! r := create_file fname in
  let '(st, file) := r in
  if ok st then
    let! file := or_ub file in
    let! s := gets id in
    let! builder := or_ub (new_TableBuilder options (file, db_env s)) in
    ret (st, set_output_file (Some file) (Some builder) (total_bytes cs) cs)
  else ret (st, cs).

(** [input_status] is that of the input iterator. *)
Definition FinishCompactionOutputFile (input_status : Status) (cs : CompactionState) : DM (Status * CompactionState) :=
  let! file := or_ub (outfile cs) in
  let! builder := or_ub (cs_builder cs) in
  let! out := or_ub (last (outputs cs)) in
  let output_number := out_number out in
  assert_ (negb (output_number =? 0)) ;;;
  let! r := on_builder builder NumEntries in
  let '(current_entries, builder) := r in
  let! r :=
    if ok input_status then on_builder builder TableBuilder_Finish
    else let! r := on_builder builder TableBuilder_Abandon in ret (input_status, r.2) in
  let '(st, builder) := r in
  let! r := on_builder builder FileSize in
  let '(current_bytes, _) := r in
  let! cs := or_ub (update_output (fun o => mk_output (out_number o) current_bytes (out_smallest o) (out_largest o)) cs) in
  let cs := set_output_file None None (u64 (total_bytes cs + current_bytes)) cs in
  let! st := if ok st then on_fs (file_Sync file) else ret st in
  let! st := if ok st then on_fs (file_Close file) else ret st in
  delete_file_handle file ;;;
  if ok st && (0 <? current_entries) then
    let! r := on_cache (tc_NewIterator new_ReadOptions output_number current_bytes) in
    let! st := or_ub (it_status r.1) in
    on_cache (tc_delete_iterator r.1) ;;; ret (st, cs)
  else ret (st, cs).

(** The inputs are deleted, the outputs added, and the change is written. *)
Definition InstallCompactionResults (cs : CompactionState) : DM (Status * CompactionState) :=
  let c := cs_compaction cs in
  let! edit := on_vers (AddInputDeletions c (c_edit c)) in
  let edit := foldl (fun edit out =>
    AddFile (c_level c + 1) (out_number out) (out_file_size out) (out_smallest out) (out_largest out) edit)
    edit (outputs cs) in
  let! r := log_and_apply edit in
  ret (r.1, set_cs_compaction (set_c_edit r.2 c) cs).

(** *** Which entries are dropped *)

(** [current_user_key], if [has_current_user_key], and [last_sequence_for_key]. *)
Record key_state := mk_key_state {
  current_user_key : option Slice;
  last_sequence_for_key : Z
}.

Definition first_key_state : key_state := mk_key_state None kMaxSequenceNumber.

(** Whether the entry is dropped, at the smallest snapshot; [is_base] asks for the
    user key whether there is no data in higher levels. *)
Definition drop_entry {S} (is_base : Slice -> M S bool) (smallest : Z) (key : Slice) (ks : key_state)
    : M S (bool * key_state) :=
  let! r := or_ub (ParseInternalKey key) in
  match r with
  | (true, Some ikey) =>
      let! same :=
        match current_user_key ks with
        | None => ret false
        | Some k => let! c := or_ub (@Compare user_comparator (user_key ikey) k) in ret (c =? 0)
        end in
      let ks := if same : bool then ks else mk_key_state (Some (user_key ikey)) kMaxSequenceNumber in
      let! drop :=
        if last_sequence_for_key ks <=? smallest then ret true
        else if (type ikey =? kTypeDeletion) && (sequence ikey <=? smallest) then is_base (user_key ikey)
        else ret false in
      ret (drop, mk_key_state (current_user_key ks) (sequence ikey))
  | _ => ret (false, first_key_state)
  end.

(** [IsBaseLevelForKey] of a compaction that is kept with the state. *)
Definition is_base_level (user_key : Slice) : M (DB * Compaction) bool := fun s =>
  match on_vers (IsBaseLevelForKey user_comparator user_key s.2) s.1 with
  | Ok (b, c) d => Ok b (d, c)
  | Err d => Err (d, s.2)
  | Ub => Ub
  | OutOfFuel => OutOfFuel
  end.

Definition drop_input (key : Slice) (ks : key_state) (cs : CompactionState) : DM (bool * key_state * CompactionState) := fun s =>
  match drop_entry is_base_level (smallest_snapshot cs) key ks (s, cs_compaction cs) with
  | Ok (b, ks) (s, c) => Ok (b, ks, set_cs_compaction c cs) s
  | Err (s, _) => Err s
  | Ub => Ub
  | OutOfFuel => OutOfFuel
  end.

Section work.
Context {S : Type} {I : Iterator S}.

Definition input_status (input : S) : DM Status := or_ub (it_status input).

(** An entry that is kept goes to the output. *)
Definition add_output (key value : Slice) (input : S) (cs : CompactionState) : DM (Status * CompactionState) :=
  let! r := match cs_builder cs with None => OpenCompactionOutputFile cs | Some _ => ret (Status_OK, cs) end in
  let '(st, cs) := r in
  if negb (ok st) then ret (st, cs)
  else
    let! builder := or_ub (cs_builder cs) in
    let! r := on_builder builder NumEntries in
    let '(n, builder) := r in
    let! cs := or_ub (update_output (fun o =>
      mk_output (out_number o) (out_file_size o) (if n =? 0 then key else out_smallest o) key) cs) in
    let! r := on_builder builder (TableBuilder_Add key value) in
    let '(_, builder) := r in
    let! r := on_builder builder FileSize in
    let '(size, builder) := r in
    let cs := set_output_file (outfile cs) (Some builder) (total_bytes cs) cs in
    if max_output_file_size_ (cs_compaction cs) <=? size then
      let! st := input_status input in FinishCompactionOutputFile st cs
    else ret (Status_OK, cs).

Record work_vars := mk_work {
  wv_input : S;
  wv_state : CompactionState;
  wv_key : key_state
}.

(** The output is finished before a key at which it should stop. *)
Definition stop_before (key : Slice) (input : S) (cs : CompactionState) : DM (Status * CompactionState) :=
  let! r := on_vers (ShouldStopBefore user_comparator key (cs_compaction cs)) in
  let '(stop, c) := r in
  let cs := set_cs_compaction c cs in
  match cs_builder cs with
  | Some _ => if stop : bool then let! st := input_status input in FinishCompactionOutputFile st cs else ret (Status_OK, cs)
  | None => ret (Status_OK, cs)
  end.

(** A round of the loop over the input; other threads run between any two. *)
Definition work_round (vars : work_vars) : DM (work_vars + Status * work_vars) :=
  let '(mk_work input cs ks) := vars in
  others ;;;
  let! s := gets id in
  if it_Valid input && negb (shutting_down_ s) then
    match db_imm s with Some _ => CompactMemTable | None => ret tt end ;;;
    let! r := on_iter input it_key in
    let '(key, input) := r in
    let! r := stop_before key input cs in
    let '(st, cs) := r in
    if negb (ok st) then ret (inr (st, mk_work input cs ks))
    else
      let! r := drop_input key ks cs in
      let '(drop, ks, cs) := r in
      let! r :=
        if drop : bool then ret (Status_OK, input, cs)
        else
          let! r := on_iter input it_value in
          let '(value, input) := r in
          let! r := add_output key value input cs in ret (r.1, input, r.2) in
      let '(st, input, cs) := r in
      if negb (ok st) then ret (inr (st, mk_work input cs ks))
      else
        let! r := on_iter input it_Next in
        ret (inl (mk_work r.2 cs ks))
  else ret (inr (Status_OK, vars)).

(** From the first entry of the input to the last output. *)
Definition compact_input (input : S) (cs : CompactionState) : DM (Status * CompactionState) :=
  let! r := on_iter input it_SeekToFirst in
  let! r := loop fuel work_round (mk_work r.2 cs first_key_state) in
  let '(st, mk_work input cs _) := r in
  let! s := gets id in
  let! st :=
    if ok st && shutting_down_ s then or_ub (Status_IOError (c_string "Deleting DB during compaction") []) else ret st in
  let! r :=
    match cs_builder cs with
    | Some _ => if ok st then let! ist := input_status input in FinishCompactionOutputFile ist cs else ret (st, cs)
    | None => ret (st, cs)
    end in
  let '(st, cs) := r in
  let! st := if ok st then input_status input else ret st in
  ret (st, cs).

End work.

Abbreviation Input := (CI + TwoLevelIterator LevelFileNumIterator CI TC)%type.

(** The input iterators do not fill the cache. *)
Definition input_options : ReadOptions := mk_read_options (paranoid_checks options) false.

#[local] Instance input_iterator : Iterator (Status + (Input + MergingIterator Input)) :=
  Merged_Iterator (input_iterator_class user_comparator fuel input_options) icmp.

Definition DoCompactionWork (cs : CompactionState) : DM (Status * CompactionState) :=
  let c := cs_compaction cs in
  let! n := on_vers (NumLevelFiles (c_level c)) in
  assert_ (0 <? n) ;;;
  assert_ (match cs_builder cs, outfile cs with None, None => true | _, _ => false end) ;;;
  let! s := gets id in
  let! smallest :=
    if snapshots_empty (snapshots_ s) then ret (vs_last_sequence_ (versions_ s))
    else
      match oldest (snapshots_ s) with
      | Ok p _ => let! x := or_ub (sn_heap (snapshots_ s) !! p) in ret (number_ x)
      | _ => ub
      end in
  let cs := set_smallest_snapshot smallest cs in
  let! inputs0 := on_vers (load_files (inputs_0 c)) in
  let! inputs1 := on_vers (load_files (inputs_1 c)) in
  let! input := on_cache (MakeInputIterator user_comparator fuel (paranoid_checks options) (c_level c) inputs0 inputs1) in
  let! r := compact_input input cs in
  let '(st, cs) := r in
  let! r := if ok st then InstallCompactionResults cs else ret (st, cs) in
  let '(st, cs) := r in
  (if ok st then ret tt else RecordBackgroundError st) ;;;
  ret (st, cs).

Definition CleanupCompaction (cs : CompactionState) : DM unit :=
  match cs_builder cs with
  | Some builder => let! _ := on_builder builder TableBuilder_Abandon in ret tt
  | None => assert_ (match outfile cs with None => true | Some _ => false end)
  end ;;;
  match outfile cs with Some file => delete_file_handle file | None => ret tt end ;;;
  modify (fun s => set_pending_outputs (pending_outputs_ s ∖ list_to_set (out_number <$> outputs cs)) s).

(** ** Background work *)

(** A manual compaction is changed. *)
Definition update_manual (p : nat) (f : ManualCompaction -> ManualCompaction) : DM unit :=
  let! m := gets (fun s => manual_heap s !! p) in
  let! m := or_ub m in
  modify (fun s => set_manuals (<[p := f m]> (manual_heap s)) s).

(** The compaction of a manual request, and the last key it takes in. *)
Definition manual_inputs (p : nat) : DM (option Compaction * Slice) :=
  let! m := gets (fun s => manual_heap s !! p) in
  let! m := or_ub m in
  let! c := on_vers (CompactRange user_comparator (m_level m) (m_begin m) (m_end m)) in
  update_manual p (fun m => mk_manual (m_level m) (match c with None => true | Some _ => false end) (m_begin m) (m_end m)) ;;;
  match c with
  | Some c =>
      let! inputs0 := on_vers (load_files (inputs_0 c)) in
      let! f := or_ub (last inputs0) in ret (Some c, largest (meta f))
  | None => ret (None, [])
  end.

(** A file that is moved to the next level. *)
Definition move_file (c : Compaction) : DM (Status * Compaction) :=
  assert_ (length (inputs_0 c) =? 1)%nat ;;;
  let! p := or_ub (head (inputs_0 c)) in
  let! f := on_vers (load_file p) in
  let edit := AddFile (c_level c + 1) (fnumber f) (file_size f) (smallest f) (largest f)
                (VersionEdit_DeleteFile (c_level c) (fnumber f) (c_edit c)) in
  let! r := log_and_apply edit in
  let '(st, edit) := r in
  (if ok st then ret tt else RecordBackgroundError st) ;;;
  ret (st, set_c_edit edit c).

Definition compact_files (c : Compaction) : DM (Status * Compaction) :=
  let! r := DoCompactionWork (new_CompactionState c) in
  let '(st, cs) := r in
  (if ok st then ret tt else RecordBackgroundError st) ;;;
  CleanupCompaction cs ;;;
  let! c := on_vers (ReleaseInputs (cs_compaction cs)) in
  DeleteObsoleteFiles ;;;
  ret (st, c).

(** A manual compaction may have done only a part of its range.  The request is
    looked up again: other threads may have changed it. *)
Definition finish_manual (st : Status) (manual_end : Slice) : DM unit :=
  let! m := gets manual_compaction_ in
  let! p := or_ub m in
  (if ok st then ret tt else update_manual p (fun m => mk_manual (m_level m) true (m_begin m) (m_end m))) ;;;
  update_manual p (fun m => if m_done m then m else mk_manual (m_level m) (m_done m) (Some manual_end) (m_end m)) ;;;
  modify (set_manual None).

Definition BackgroundCompaction : DM unit :=
  let! s := gets id in
  match db_imm s with
  | Some _ => CompactMemTable
  | None =>
      let manual := manual_compaction_ s in
      let! r := match manual with
                | Some p => manual_inputs p
                | None => let! c := on_vers (PickCompaction user_comparator) in ret (c, [])
                end in
      let '(c, manual_end) := r in
      let! st :=
        match c with
        | None => ret Status_OK
        | Some c =>
            let! trivial := on_vers (IsTrivialMove c) in
            let! r := match manual with
                      | None => if trivial : bool then move_file c else compact_files c
                      | Some _ => compact_files c
                      end in
            let '(st, c) := r in
            on_vers (delete_Compaction c) ;;; ret st
        end in
      match manual with Some _ => finish_manual st manual_end | None => ret tt end
  end.

(** [BGWork] in the thread for background work. *)
Definition BackgroundCall : DM unit :=
  let! s := gets id in
  assert_ (bg_compaction_scheduled_ s) ;;;
  (if shutting_down_ s then ret tt
   else if negb (ok (bg_error_ s)) then ret tt
   else BackgroundCompaction) ;;;
  modify (set_scheduled false) ;;;
  MaybeScheduleCompaction.

(** ** Reading *)

(** The memtables, then the files of the version: the status, the value and, if the
    files were read, what is charged for it. *)
Definition lookup_value (o : ReadOptions) (mem : nat) (imm : option nat) (current : nat) (lkey : LookupKey) (value : Slice)
    : DM (Status * Slice * option GetStats) :=
  let! r := on_memtable mem (MemTable.Get user_comparator lkey value Status_OK) in
  let '(found, value, st) := r in
  let! r :=
    if found : bool then ret (found, value, st)
    else
      match imm with
      | Some p => on_memtable p (MemTable.Get user_comparator lkey value st)
      | None => ret (false, value, st)
      end in
  let '(found, value, st) := r in
  if found : bool then ret (st, value, None)
  else
    let! levels := on_vers (all_levels current) in
    let! r := on_cache (Version_Get user_comparator o levels lkey) in
    let '(st, v, stats) := r in ret (st, default value v, Some stats).

(** [snapshot]: the number of a snapshot, if the options have one. *)
Definition DB_Get (o : ReadOptions) (snapshot : option nat) (key : Slice) (value : Slice) : DM (Status * Slice) :=
  let! s := gets id in
  let! number :=
    match snapshot with
    | Some p => let! x := or_ub (sn_heap (snapshots_ s) !! p) in ret (number_ x)
    | None => ret (vs_last_sequence_ (versions_ s))
    end in
  let mem := db_mem s in
  let imm := db_imm s in
  let! current := on_vers current_version in
  Ref_mem mem ;;;
  match imm with Some p => Ref_mem p | None => ret tt end ;;;
  on_vers (Ref current) ;;;
  others ;;;
  let! lkey := or_ub (make_LookupKey key number) in
  let! r := lookup_value o mem imm current lkey value in
  let '(st, value, stats) := r in
  others ;;;
  match stats with
  | Some stats =>
      let! more := on_vers (UpdateStats current stats) in
      if more : bool then MaybeScheduleCompaction else ret tt
  | None => ret tt
  end ;;;
  Unref_mem mem ;;;
  match imm with Some p => Unref_mem p | None => ret tt end ;;;
  on_vers (Unref current) ;;;
  ret (st, value).

Abbreviation TreeInput := (MemTableIterator + (CI + TwoLevelIterator LevelFileNumIterator CI TC))%type.

#[local] Instance tree_input (o : ReadOptions) : Iterator TreeInput :=
  Either_Iterator (MemTable_Iterator user_comparator) (input_iterator_class user_comparator fuel o).
#[local] Instance internal_iterator (o : ReadOptions) : Iterator (Status + (TreeInput + MergingIterator TreeInput)) :=
  Merged_Iterator (tree_input o) icmp.

(** The iterator, [*latest_snapshot] and [*seed]; it keeps a reference to each of the
    memtables and to the version, which are returned for its cleanup. *)
Definition NewInternalIterator (o : ReadOptions)
    : DM ((Status + (TreeInput + MergingIterator TreeInput)) * Z * Z * (nat * option nat * nat)) :=
  let! s := gets id in
  let latest_snapshot := vs_last_sequence_ (versions_ s) in
  let! mem := or_ub (mems s !! db_mem s) in
  Ref_mem (db_mem s) ;;;
  let! imms :=
    match db_imm s with
    | Some p => let! imm := or_ub (mems s !! p) in Ref_mem p ;;; ret [MemTable_NewIterator imm]
    | None => ret []
    end in
  let! current := on_vers current_version in
  let! levels := on_vers (all_levels current) in
  let! files := on_cache (AddIterators user_comparator o levels) in
  let list := (inl <$> (MemTable_NewIterator mem :: imms)) ++ (inr <$> files) in
  let! internal_iter := or_ub (@NewMergingIterator _ (tree_input o) list) in
  on_vers (Ref current) ;;;
  modify (fun s => set_seed (u32 (seed_ s + 1)) s) ;;;
  let! s' := gets id in
  ret (internal_iter, latest_snapshot, seed_ s', (db_mem s, db_imm s, current)).

(** The cleanup function of the iterator. *)
Definition CleanupIteratorState (state : nat * option nat * nat) : DM unit :=
  let '(mem, imm, version) := state in
  Unref_mem mem ;;;
  match imm with Some p => Unref_mem p | None => ret tt end ;;;
  on_vers (Unref version).

Definition DB_RecordReadSample (key : Slice) : DM unit :=
  let! current := on_vers current_version in
  let! more := on_vers (RecordReadSample user_comparator current key) in
  if more : bool then MaybeScheduleCompaction else ret tt.

Definition DB_NewIterator (o : ReadOptions) (snapshot : option nat)
    : DM (DBIter (Status + (TreeInput + MergingIterator TreeInput)) DB * Z * (nat * option nat * nat)) :=
  let! r := NewInternalIterator o in
  let '(iter, latest_snapshot, seed, cleanup) := r in
  let! s := gets id in
  let! number :=
    match snapshot with
    | Some p => let! x := or_ub (sn_heap (snapshots_ s) !! p) in ret (number_ x)
    | None => ret latest_snapshot
    end in
  let! it := or_ub (NewDBIterator s iter seed) in
  ret (it, number, cleanup).

(** What the iterator calls for a sample of what it reads, on the state it was made with. *)
Definition sample_read (key : Slice) (s : DB) : DB :=
  match DB_RecordReadSample key s with Ok _ s => s | _ => s end.

Definition Tree_Iterator (o : ReadOptions) (number : Z) : Iterator (DBIter (Status + (TreeInput + MergingIterator TreeInput)) DB) :=
  DB_Iterator (I := internal_iterator o) sample_read user_comparator number fuel.

Definition on_snapshots {A} : LM A -> DM A := zoom snapshots_ set_snapshots.

Definition GetSnapshot : DM nat :=
  let! s := gets id in on_snapshots (SnapshotList_New (vs_last_sequence_ (versions_ s))).
Definition ReleaseSnapshot (p : nat) : DM unit := on_snapshots (SnapshotList_Delete p).

(** The sizes of ranges of keys. *)
Definition approximate_size (v : nat) (range : Slice * Slice) : DM Z :=
  let! k1 := or_ub (InternalKey range.1 kMaxSequenceNumber kValueTypeForSeek) in
  let! k2 := or_ub (InternalKey range.2 kMaxSequenceNumber kValueTypeForSeek) in
  let! levels := on_vers (all_levels v) in
  let! start := on_cache (VersionSet_ApproximateOffsetOf user_comparator levels k1) in
  let! limit := on_cache (VersionSet_ApproximateOffsetOf user_comparator levels k2) in
  ret (if start <=? limit then limit - start else 0).

Definition GetApproximateSizes (ranges : list (Slice * Slice)) : DM (list Z) :=
  let! v := on_vers current_version in
  on_vers (Ref v) ;;;
  others ;;;
  let! sizes := map_m (approximate_size v) ranges in
  others ;;;
  on_vers (Unref v) ;;;
  ret sizes.

(** ** Writing *)

(** A call of [log_]. *)
Definition on_log_file {A} (m : M (Writer (W * E)) A) : DM A :=
  let! s := gets id in
  let! w := or_ub (logfile_ s) in
  let! r := on_writer w m in
  modify (fun s => set_logfile (Some r.2) (logfile_number_ s) s) ;;;
  ret r.1.

Definition load_writer (p : nat) : DM DbWriter := let! w := gets (fun s => writer_heap s !! p) in or_ub w.
Definition store_writer (p : nat) (w : DbWriter) : DM unit :=
  modify (fun s => set_writer_heap (<[p := w]> (writer_heap s)) s).

(** [size], [result], if it is [tmp_batch_], and [*last_writer]. *)
Record group_vars := mk_group {
  gv_size : Z;
  gv_tmp : option WriteBatch;
  gv_last : nat
}.

(** The writers behind the first. *)
Fixpoint group_writers (first : WriteBatch) (first_sync : bool) (max_size : Z) (vars : group_vars) (ws : list nat)
    : DM group_vars :=
  match ws with
  | [] => ret vars
  | p :: ws =>
      let! w := load_writer p in
      if w_sync w && negb first_sync then ret vars
      else
        match w_batch w with
        | None => group_writers first first_sync max_size (mk_group (gv_size vars) (gv_tmp vars) p) ws
        | Some b =>
            let size := usize (gv_size vars + Z.of_nat (ByteSize b)) in
            if max_size <? size then ret vars
            else
              let! result :=
                match gv_tmp vars with
                | Some result => ret result
                | None =>
                    let! tmp := gets tmp_batch_ in
                    let! n := or_ub (Count tmp) in
                    assert_ (n =? 0) ;;;
                    or_ub (WriteBatch.Append tmp first)
                end in
              let! result := or_ub (WriteBatch.Append result b) in
              group_writers first first_sync max_size (mk_group size (Some result) p) ws
        end
  end.

Definition max_group_size (size : Z) : Z := if size <=? 131072 then usize (size + 131072) else 1048576.

(** The batch, whether it is [tmp_batch_], and [*last_writer]. *)
Definition BuildBatchGroup : DM (WriteBatch * bool * nat) :=
  let! s := gets id in
  let! p := or_ub (head (writers_ s)) in
  let! first := load_writer p in
  let! batch := or_ub (w_batch first) in
  let size := Z.of_nat (ByteSize batch) in
  let! vars := group_writers batch (w_sync first) (max_group_size size) (mk_group size None p) (tail (writers_ s)) in
  match gv_tmp vars with
  | Some result => modify (set_tmp_batch result) ;;; ret (result, true, gv_last vars)
  | None => ret (batch, false, gv_last vars)
  end.

(** A new log and a new memtable; the old one is to be compacted. *)
Definition switch_memtable : DM Status :=
  let! s := gets id in
  assert_ (vs_prev_log_number_ (versions_ s) =? 0) ;;;
  let! new_log_number := on_set NewFileNumber in
  let! fname := or_ub (LogFileName dbname_ new_log_number) in
  let! r := create_file fname in
  let '(st, lfile) := r in
  if negb (ok st) then on_set (ReuseFileNumber new_log_number) ;;; ret st
  else
    let! lfile := or_ub lfile in
    match logfile_ s with Some w => delete_file_handle w.1 | None => ret tt end ;;;
    modify (set_logfile (Some (lfile, 0)) new_log_number) ;;;
    let! mem := new_mem in
    modify (fun s => set_memtables mem (Some (db_mem s)) s) ;;;
    MaybeScheduleCompaction ;;;
    ret st.

(** [allow_delay] and [force]. *)
Definition make_room_round (vars : bool * bool) : DM (bool * bool + Status) :=
  let '(allow_delay, force) := vars in
  let! s := gets id in
  let! level0 := on_vers (NumLevelFiles 0) in
  let! mem := or_ub (mems s !! db_mem s) in
  if negb (ok (bg_error_ s)) then ret (inr (bg_error_ s))
  else if allow_delay && (kL0_SlowdownWritesTrigger <=? level0) then others ;;; ret (inl (false, force))
  else if negb force && (ApproximateMemoryUsage mem <=? write_buffer_size db_options) then ret (inr Status_OK)
  else
    match db_imm s with
    | Some _ => others ;;; ret (inl (allow_delay, force))
    | None =>
        if kL0_StopWritesTrigger <=? level0 then others ;;; ret (inl (allow_delay, force))
        else
          let! st := switch_memtable in
          ret (if ok st then inl (allow_delay, false) else inr st)
    end.

Definition MakeRoomForWrite (force : bool) : DM Status :=
  let! s := gets id in
  assert_ (match writers_ s with [] => false | _ => true end) ;;;
  loop fuel make_room_round (negb force, force).

(** The log, the file if the write is synced, and the memtable. *)
Definition apply_group (sync : bool) (updates : WriteBatch) : DM (Status * bool) :=
  let! st := on_log_file (AddRecord (Contents updates)) in
  let! r :=
    if ok st && sync then
      let! s := gets id in
      let! w := or_ub (logfile_ s) in
      let! st := on_fs (file_Sync w.1) in ret (st, negb (ok st))
    else ret (st, false) in
  let '(st, sync_error) := r in
  let! st := if ok st then let! s := gets id in on_memtable (db_mem s) (InsertInto user_comparator updates) else ret st in
  ret (st, sync_error).

(** The group that begins with writer [p]; the last writer of it. *)
Definition write_group (p : nat) (sync : bool) (last_sequence : Z) : DM (Status * nat) :=
  let! r := BuildBatchGroup in
  let '(updates, is_tmp, last_writer) := r in
  let! updates := or_ub (SetSequence updates (u64 (last_sequence + 1))) in
  (if is_tmp : bool then modify (set_tmp_batch updates)
   else let! w := load_writer p in store_writer p (mk_db_writer (w_status w) (Some updates) (w_sync w) (w_done w))) ;;;
  let! n := or_ub (Count updates) in
  let! r := apply_group sync updates in
  let '(st, sync_error) := r in
  others ;;;
  (if sync_error : bool then RecordBackgroundError st else ret tt) ;;;
  (if is_tmp : bool then modify (set_tmp_batch WriteBatch.Clear) else ret tt) ;;;
  on_set (SetLastSequence_vs (u64 (last_sequence + n))) ;;;
  ret (st, last_writer).

(** The writers up to [last_writer] leave the queue with the status. *)
Fixpoint pop_writers (p last_writer : nat) (st : Status) (ws : list nat) : DM unit :=
  match ws with
  | [] => ub
  | ready :: ws =>
      modify (set_writers ws) ;;;
      (if (ready =? p)%nat then ret tt
       else let! w := load_writer ready in store_writer ready (mk_db_writer st (w_batch w) (w_sync w) true)) ;;;
      if (ready =? last_writer)%nat then ret tt else pop_writers p last_writer st ws
  end.

Definition wait_turn (p : nat) : DM unit :=
  loop fuel (fun _ =>
    let! w := load_writer p in
    let! s := gets id in
    if w_done w || bool_decide (head (writers_ s) = Some p) then ret (inr tt) else others ;;; ret (inl tt)) tt.

(** The writer at the front of the queue: its group is written if there is room, and
    leaves the queue. *)
Definition commit_group (p : nat) (sync : bool) (my_batch : option WriteBatch) (st : Status) : DM Status :=
  let! s := gets id in
  let! r :=
    match my_batch with
    | Some _ => if ok st then write_group p sync (vs_last_sequence_ (versions_ s)) else ret (st, p)
    | None => ret (st, p)
    end in
  let '(st, last_writer) := r in
  let! s := gets id in
  pop_writers p last_writer st (writers_ s) ;;;
  ret st.

(** The status and the batch of the caller, which gets its sequence number. *)
Definition DB_Write (sync : bool) (my_batch : option WriteBatch) : DM (Status * option WriteBatch) :=
  let! s := gets id in
  let p := fresh (dom (writer_heap s)) in
  store_writer p (mk_db_writer Status_OK my_batch sync false) ;;;
  modify (fun s => set_writers (writers_ s ++ [p]) s) ;;;
  wait_turn p ;;;
  let! w := load_writer p in
  if w_done w then
    modify (fun s => set_writer_heap (delete p (writer_heap s)) s) ;;; ret (w_status w, w_batch w)
  else
    let! st := MakeRoomForWrite (match my_batch with None => true | Some _ => false end) in
    let! st := commit_group p sync my_batch st in
    let! w := load_writer p in
    modify (fun s => set_writer_heap (delete p (writer_heap s)) s) ;;;
    ret (st, w_batch w).

Definition DB_Put (sync : bool) (key value : Slice) : DM Status :=
  let! batch := or_ub (Put new_WriteBatch key value) in
  let! r := DB_Write sync (Some batch) in ret r.1.

Definition DB_Delete (sync : bool) (key : Slice) : DM Status :=
  let! batch := or_ub (WriteBatch.Delete new_WriteBatch key) in
  let! r := DB_Write sync (Some batch) in ret r.1.

(** ** Compacting by hand *)

(** The loop of [TEST_CompactRange], for a request in the heap. *)
Definition manual_round (p : nat) (_ : unit) : DM (unit + unit) :=
  let! m := gets (fun s => manual_heap s !! p) in
  let! m := or_ub m in
  let! s := gets id in
  if negb (m_done m) && negb (shutting_down_ s) && ok (bg_error_ s) then
    match manual_compaction_ s with
    | None => modify (set_manual (Some p)) ;;; MaybeScheduleCompaction ;;; ret (inl tt)
    | Some _ => others ;;; ret (inl tt)
    end
  else ret (inr tt).

Definition TEST_CompactRange (level : Z) (begin end_ : option Slice) : DM unit :=
  assert_ (0 <=? level) ;;;
  assert_ (level + 1 <? kNumLevels) ;;;
  let! b := match begin with
            | None => ret None
            | Some k => let! k := or_ub (InternalKey k kMaxSequenceNumber kValueTypeForSeek) in ret (Some k)
            end in
  let! e := match end_ with
            | None => ret None
            | Some k => let! k := or_ub (InternalKey k 0 0) in ret (Some k)
            end in
  let! s := gets id in
  let p := fresh (dom (manual_heap s)) in
  modify (set_manuals (<[p := mk_manual level false b e]> (manual_heap s))) ;;;
  loop fuel (manual_round p) tt ;;;
  let! s := gets id in
  (if bool_decide (manual_compaction_ s = Some p) then modify (set_manual None) else ret tt) ;;;
  modify (fun s => set_manuals (delete p (manual_heap s)) s).

Definition wait_imm (_ : unit) : DM (unit + unit) :=
  let! s := gets id in
  match db_imm s with
  | Some _ => if ok (bg_error_ s) then others ;;; ret (inl tt) else ret (inr tt)
  | None => ret (inr tt)
  end.

Definition TEST_CompactMemTable : DM Status :=
  let! r := DB_Write false None in
  if ok r.1 then
    loop fuel wait_imm tt ;;;
    let! s := gets id in
    ret (match db_imm s with Some _ => bg_error_ s | None => r.1 end)
  else ret r.1.

Definition DB_CompactRange (begin end_ : option Slice) : DM unit :=
  let! base := on_vers current_version in
  let! levels := on_vers (all_levels base) in
  let! max_level_with_files :=
    fold_m (fun found level =>
      let! overlap := OverlapInLevel user_comparator levels level begin end_ in
      ret (if overlap : bool then level else found)) 1 (seqZ 1 (kNumLevels - 1)) in
  TEST_CompactMemTable ;;;
  iter_m (fun level => TEST_CompactRange level begin end_) (seqZ 0 max_level_with_files).

Definition TEST_MaxNextLevelOverlappingBytes : DM Z := on_vers (MaxNextLevelOverlappingBytes user_comparator).

(** [stats] is the text on the statistics of compactions. *)
Definition GetProperty (stats : Slice) (property : Slice) : DM (option Slice) :=
  let prefix := c_string "leveldb." in
  if negb (starts_with property prefix) then ret None
  else
    let! rest := or_ub (remove_prefix property (length prefix)) in
    let files := c_string "num-files-at-level" in
    if starts_with rest files then
      let! rest := or_ub (remove_prefix rest (length files)) in
      match ConsumeDecimalNumber rest with
      | Some (level, []) =>
          if kNumLevels <=? level then ret None
          else let! n := on_vers (NumLevelFiles level) in ret (Some (take 99 (print_llu n)))
      | _ => ret None
      end
    else if slice_eqb rest (c_string "stats") then ret (Some stats)
    else if slice_eqb rest (c_string "sstables") then
      let! current := on_vers current_version in
      let! levels := on_vers (all_levels current) in
      let! text := or_ub (Version_DebugString levels) in ret (Some text)
    else ret None.

(** ** Opening and closing *)

(** The constructor, with an empty cache of tables. *)
Definition new_DBImpl (env : E) (tables : Y) (blocks : option X) : res DB unit :=
  match new_VersionSet env with
  | Ok _ v =>
      (let! mem := new_mem in modify (fun s => set_memtables mem None s))
        (mk_db ∅ 0 None None 0 0 ∅ [] new_WriteBatch new_SnapshotList ∅ false ∅ None v Status_OK false false tables blocks)
  | _ => Ub
  end.

Definition wait_background (_ : unit) : DM (unit + unit) :=
  let! s := gets id in
  if bg_compaction_scheduled_ s then others ;;; ret (inl tt) else ret (inr tt).

Definition delete_DBImpl : DM unit :=
  modify (set_shutting_down true) ;;;
  loop fuel wait_background tt ;;;
  let! s := gets id in
  (if db_lock_ s then on_fs UnlockFile ;;; ret tt else ret tt) ;;;
  on_set delete_VersionSet ;;;
  Unref_mem (db_mem s) ;;;
  match db_imm s with Some p => Unref_mem p | None => ret tt end ;;;
  match logfile_ s with Some w => delete_file_handle w.1 | None => ret tt end.

(** [DB::Open], on a database that has been constructed, which is deleted on an error. *)
Definition DB_Open : DM Status :=
  let! r := DB_Recover new_VersionEdit in
  let '(st, edit) := r in
  if negb (ok st) then delete_DBImpl ;;; ret st
  else
    let! new_log_number := on_set NewFileNumber in
    let! fname := or_ub (LogFileName dbname_ new_log_number) in
    let! r := create_file fname in
    let '(st, lfile) := r in
    let! st :=
      if ok st then
        let! lfile := or_ub lfile in
        modify (set_logfile (Some (lfile, 0)) new_log_number) ;;;
        let! r := log_and_apply (SetLogNumber new_log_number edit) in ret r.1
      else ret st in
    (if ok st then DeleteObsoleteFiles ;;; MaybeScheduleCompaction else delete_DBImpl) ;;;
    ret st.

(** A file of [DestroyDB]; the first error is kept. *)
Definition destroy_file (acc : Status * E) (filename : Slice) : Status * E :=
  match ParseFileName filename with
  | Some (_, kDBLockFile) | None => acc
  | Some _ =>
      let '(del, env) := DeleteFile (dbname_ ++ c_string "/" ++ filename) acc.2 in
      (if ok acc.1 && negb (ok del) then del else acc.1, env)
  end.

Definition DestroyDB (env : E) : Status * E :=
  match (GetChildren dbname_ env).2 with
  | [] => (Status_OK, env)
  | filenames =>
      let lockname := LockFileName dbname_ in
      let '(result, env) := LockFile lockname env in
      if ok result then
        let '(result, env) := foldl destroy_file (result, env) filenames in
        let '(_, env) := UnlockFile env in
        let '(_, env) := DeleteFile lockname env in
        let '(_, env) := DeleteDir dbname_ env in
        (result, env)
      else (result, env)
  end.

End db.
