(* ===== verification/CompactProof.v ===== *)
(** * What a compaction keeps

    The merge of a compaction drops entries that no reader can ask for any more: those
    behind an entry of the same key that every snapshot sees, and deletions of keys
    that older levels do not have.  Reads give the same results afterwards. *)

From Stdlib Require Import ZArith Lia String.
From stdpp Require Import base option list strings sorting gmap.
From S2P Require Import Prelude Memory Slice Coding DbFormat Status Iterator TwoLevelProof MergeLists MemTheorems MemIterator Table.
From S2P Require Import UserView WriteBatch VersionEdit LevelFiles LevelFilesProof Version VersionSet Compaction VersionRead Snapshot DbImpl.

(** ** The contract of the test for the base level

    The test is asked for keys in their order; if it says yes, [absent] holds of the
    key: the levels behind those of the compaction do not have it. *)
Class BaseLevelLaws {S : Type} (C : Comparator) {L : ComparatorLaws C}
    (is_base : Slice -> M S bool) (absent : Slice -> Prop) := {
  bl_asked : option Slice -> S -> Prop;
  bl_answers o u st : bl_asked o st -> valid u -> match o with Some v => before C u v = false | None => True end ->
    exists b st', is_base u st = Ok b st' /\ bl_asked (Some u) st' /\ (b = true -> absent u)
}.

Section keep.
Context {S : Type} (C : Comparator) {L : ComparatorLaws C}.
Context (is_base : Slice -> M S bool) (absent : Slice -> Prop) {BL : BaseLevelLaws C is_base absent}.
Context (smallest : Z) (Hsmallest : 0 <= smallest < kMaxSequenceNumber).

(** The entries that are kept, of those a compaction still has to look at. *)
Fixpoint kept_entries (ks : key_state) (es : list Entry) : M S (list Entry) :=
  match es with
  | [] => ret []
  | e :: es =>
      let! r := drop_entry C is_base smallest (entry_key e) ks in
      let '(drop, ks) := r in
      let! kept := kept_entries ks es in
      ret (if drop : bool then kept else e :: kept)
  end.

(** The entry follows one of the same key that every snapshot sees. *)
Definition hidden (es : list Entry) (i : nat) : Prop :=
  exists j d e, i = Datatypes.S j /\ es !! j = Some d /\ es !! i = Some e /\ same_key C d e /\ e_seq d <= smallest.

(** The deletion of a key that is not in older levels. *)
Definition obsolete (e : Entry) : Prop := e_type e = kTypeDeletion /\ e_seq e <= smallest /\ absent (e_key e).

(** The flags say which entries are dropped. *)
Fixpoint unflagged (flags : list bool) (es : list Entry) : list Entry :=
  match flags, es with
  | b :: flags, e :: es => if b : bool then unflagged flags es else e :: unflagged flags es
  | _, _ => []
  end.

Lemma unflagged_at flags es e : e ∈ unflagged flags es <-> exists i, es !! i = Some e /\ flags !! i = Some false.
Proof.
  revert es. induction flags as [|b flags IH]; intros [|e' es]; cbn [unflagged];
    try (split; [by intros ?%not_elem_of_nil|by intros (i & ? & ?)]).
  assert ((exists i, (e' :: es) !! i = Some e /\ (b :: flags) !! i = Some false) <->
          (e' = e /\ b = false) \/ exists i, es !! i = Some e /\ flags !! i = Some false) as ->.
  { split.
    - intros ([|i] & H1 & H2); [left; by simplify_eq/=|right; by exists i].
    - intros [[-> ->]|(i & H1 & H2)]; [by exists 0%nat|by exists (Datatypes.S i)]. }
  rewrite <- IH. destruct b; [|rewrite elem_of_cons]; [split; [by right|by intros [[_ ?]|?]]|].
  split; intros [H|H]; try (by right); left; [done|by destruct H].
Qed.

Lemma unflagged_sublist flags es : unflagged flags es `sublist_of` es.
Proof.
  revert es. induction flags as [|b flags IH]; intros [|e es]; cbn [unflagged]; try apply sublist_nil_l.
  destruct b; [apply sublist_cons, IH|apply sublist_skip, IH].
Qed.

Lemma equal_sym a b : valid a -> valid b -> @Compare C a b = Some 0 -> @Compare C b a = Some 0.
Proof.
  intros Ha Hb E. destruct (compare_total b a Hb Ha) as [r Hr]. pose proof (compare_antisym a b 0 r Ha Hb E Hr).
  rewrite Hr. f_equal. lia.
Qed.

Lemma equal_trans a b c : valid a -> valid b -> valid c ->
  @Compare C a b = Some 0 -> @Compare C b c = Some 0 -> @Compare C a c = Some 0.
Proof.
  intros Ha Hb Hc H1 H2. destruct (compare_trans a b c 0 0 Ha Hb Hc H1 H2) as (r & Hr & Hle & _); [done..|].
  destruct (compare_trans c b a 0 0 Hc Hb Ha) as (r' & Hr' & Hle' & _); [by apply equal_sym..|done|done|].
  pose proof (compare_antisym a c r r' Ha Hc Hr Hr'). rewrite Hr. f_equal. lia.
Qed.

(** Entries that are visible for a key have the same key. *)
Lemma visible_same u s a b : valid u -> valid (e_key a) -> valid (e_key b) ->
  visible C u s a = true -> visible C u s b = true -> same_key C a b.
Proof.
  intros Vu Va Vb. unfold visible. destruct (compare_total (e_key a) u Va Vu) as [r Hr], (compare_total (e_key b) u Vb Vu) as [r' Hr'].
  rewrite Hr, Hr'. intros [->%Z.eqb_eq _]%andb_prop [->%Z.eqb_eq _]%andb_prop.
  apply (equal_trans (e_key a) u (e_key b)); [done..|by apply equal_sym].
Qed.

(** What the state of the loop says of the entries before. *)
Definition last_key (pre : list Entry) (ks : key_state) : Prop :=
  match last pre with
  | None => ks = first_key_state
  | Some d => exists k, current_user_key ks = Some k /\ valid k /\ @Compare C k (e_key d) = Some 0 /\
                        last_sequence_for_key ks = e_seq d
  end.

Definition asked_before (o : option Slice) (e : Entry) : Prop :=
  match o with Some v => before C (e_key e) v = false | None => True end.

(** One entry. *)
Lemma drop_entry_ok ks o e st :
  entry_ok C e -> bl_asked o st -> asked_before o e -> match current_user_key ks with Some k => valid k | None => True end ->
  exists drop st' o',
    let same := match current_user_key ks with
                | Some k => match @Compare C (e_key e) k with Some r => r =? 0 | None => false end
                | None => false
                end in
    let hid := (if same then last_sequence_for_key ks else kMaxSequenceNumber) <=? smallest in
    drop_entry C is_base smallest (entry_key e) ks st =
      Ok (drop, mk_key_state (if same then current_user_key ks else Some (e_key e)) (e_seq e)) st' /\
    bl_asked o' st' /\ (o' = o \/ o' = Some (e_key e)) /\
    (hid = true -> drop = true) /\ (drop = true -> hid = true \/ obsolete e).
Proof.
  intros He Ho Hord Hk. pose proof (e_number_range C e He) as Hn. pose proof He as (Vk & _ & Ht & _).
  assert (ParseInternalKey (entry_key e) = Some (true, Some (mk_parsed (e_key e) (e_seq e) (e_type e)))) as Hp.
  { unfold entry_key, entry_pair, e_number in *. cbn [fst]. unfold kTypeDeletion, kTypeValue in *.
    rewrite ParseInternalKey_eq by lia. do 2 f_equal. apply Z.leb_le. unfold kTypeValue. lia. }
  unfold drop_entry. rewrite (bind_or_ub _ _ _ _ Hp). cbn [user_key sequence type].
  set (same := match current_user_key ks with Some k => _ | None => false end).
  assert (forall (B : Type) (k : bool -> M S B) s, bind (match current_user_key ks with
            | None => ret false
            | Some k => let! c := or_ub (@Compare C (e_key e) k) in ret (c =? 0)
            end) k s = k same s) as Hsame.
  { intros B k s. unfold same. destruct (current_user_key ks) as [k'|]; [|by rewrite bind_ret].
    destruct (compare_total (e_key e) k') as [r Hr]; [apply Vk|done|].
    rewrite Hr, bind_assoc. cbn [or_ub]. by rewrite !bind_ret. }
  rewrite Hsame. set (ks' := if same then ks else _).
  assert (current_user_key ks' = (if same then current_user_key ks else Some (e_key e))) as Hcur by (unfold ks'; by destruct same).
  assert (last_sequence_for_key ks' = (if same then last_sequence_for_key ks else kMaxSequenceNumber)) as Hlast
    by (unfold ks'; by destruct same).
  rewrite Hcur, Hlast. clear Hcur Hlast Hsame ks'. cbv zeta.
  destruct (Z.leb_spec (if same then last_sequence_for_key ks else kMaxSequenceNumber) smallest) as [Hh|Hh].
  { exists true, st, o. rewrite bind_ret. split; [done|]. split; [done|]. split; [by left|]. split; [done|]. by left. }
  destruct ((e_type e =? kTypeDeletion) && (e_seq e <=? smallest)) eqn:Hd.
  - destruct (bl_answers o (e_key e) st Ho) as (b & st' & E & Ho' & Hb); [apply Vk|done|].
    exists b, st', (Some (e_key e)). rewrite (bind_ok _ _ _ _ _ E). split; [done|]. split; [done|].
    split; [by right|]. split; [done|]. intros ->. right. apply andb_prop in Hd as [?%Z.eqb_eq ?%Z.leb_le].
    split; [done|]. split; [done|]. by apply Hb.
  - exists false, st, o. rewrite bind_ret. split; [done|]. split; [done|]. split; [by left|]. by split.
Qed.

(** The entry [e] behind [pre] is hidden exactly if the state of the loop says so. *)
Lemma hidden_next pre es ks e : internal_sorted C (pre ++ e :: es) -> last_key pre ks ->
  match current_user_key ks with Some k => valid k | None => True end /\
  let same := match current_user_key ks with
              | Some k => match @Compare C (e_key e) k with Some r => r =? 0 | None => false end
              | None => false
              end in
  (((if same then last_sequence_for_key ks else kMaxSequenceNumber) <=? smallest) = true <->
   hidden (pre ++ e :: es) (length pre)) /\
  last_key (pre ++ [e]) (mk_key_state (if same then current_user_key ks else Some (e_key e)) (e_seq e)).
Proof.
  intros H Hk.
  assert ((pre ++ e :: es) !! length pre = Some e) as He by (by rewrite lookup_app_r, Nat.sub_diag by done).
  pose proof (entry_key_valid C _ H _ e He) as Ve. unfold last_key in *. rewrite last_snoc.
  cbn [current_user_key last_sequence_for_key].
  destruct (last pre) as [d|] eqn:Ed.
  - destruct Hk as (k & Ek & Vk & Ekd & Hseq). rewrite Ek, Hseq. split; [done|].
    rewrite last_lookup in Ed. assert (pred (length pre) < length pre)%nat as Hlt by (by eapply lookup_lt_Some).
    assert ((pre ++ e :: es) !! pred (length pre) = Some d) as Hd by (by rewrite lookup_app_l by lia).
    pose proof (entry_key_valid C _ H _ d Hd) as Vd. destruct (compare_total (e_key e) k Ve Vk) as [r Hr]. rewrite Hr. cbv zeta.
    destruct (Z.eqb_spec r 0) as [->|Hne].
    + assert (same_key C d e) as Hsame.
      { apply equal_sym; [done..|]. by apply (equal_trans (e_key e) k (e_key d)). }
      split; [|exists k; split; [done|]; split; [done|]; split; [by apply equal_sym|done]].
      split.
      * intros Hle%Z.leb_le. exists (pred (length pre)), d, e. split; [lia|]. done.
      * intros (j & d' & e' & Hj & Hd' & _ & _ & Hle). apply Z.leb_le.
        assert (j = pred (length pre)) as -> by lia. rewrite Hd in Hd'. by injection Hd' as <-.
    + split; [|exists (e_key e); split; [done|]; split; [done|]; split; [by apply compare_refl|done]].
      split; [intros Hle%Z.leb_le; lia|]. intros (j & d' & e' & Hj & Hd' & He' & Hs & _).
      assert (j = pred (length pre)) as -> by lia. rewrite Hd in Hd'. rewrite He in He'. injection Hd' as <-. injection He' as <-.
      destruct Hne. assert (@Compare C (e_key e) k = Some 0) as E; [|congruence].
      apply (equal_trans (e_key e) (e_key d) k); [done..|by apply equal_sym|by apply equal_sym].
  - apply last_None in Ed. subst pre ks. split; [done|]. cbn. split; [|exists (e_key e); split; [done|]; split; [done|]; split; [by apply compare_refl|done]].
    split; [intros Hle%Z.leb_le; lia|]. by intros (j & d & e' & Hj & _).
Qed.

(** All entries. *)
Lemma kept_entries_ok pre es ks o st : internal_sorted C (pre ++ es) -> last_key pre ks -> bl_asked o st ->
  (forall e, e ∈ es -> asked_before o e) ->
  exists flags st', kept_entries ks es st = Ok (unflagged flags es) st' /\ length flags = length es /\
    forall i e, es !! i = Some e ->
      (hidden (pre ++ es) (length pre + i) -> flags !! i = Some true) /\
      (flags !! i = Some true -> hidden (pre ++ es) (length pre + i) \/ obsolete e).
Proof.
  revert pre ks o st. induction es as [|e es IH]; intros pre ks o st H Hk Ho Hord; [by exists [], st|].
  assert ((pre ++ e :: es) !! length pre = Some e) as He by (by rewrite lookup_app_r, Nat.sub_diag by done).
  destruct (hidden_next pre es ks e H Hk) as (Hv & Hhid & Hk').
  destruct (drop_entry_ok ks o e st) as (b & st1 & o' & E & Ho' & Hoo & Hdrop & Hwhy);
    [by eapply entry_at|done|apply Hord; by left|done|].
  replace (pre ++ e :: es) with ((pre ++ [e]) ++ es) in * by (by rewrite <- app_assoc).
  destruct (IH (pre ++ [e]) _ o' st1 H Hk' Ho') as (flags & st' & E' & Hlen & Hflags).
  { intros e' He'. destruct Hoo as [->| ->]; [apply Hord; by right|]. cbn.
    apply list_elem_of_lookup in He' as [i Hi].
    destruct (entries_order C _ H (length pre) (length pre + Datatypes.S i) e e') as (r & Hr & Hle & _);
      [done| |lia|].
    { rewrite lookup_app_r by (rewrite length_app; cbn; lia). rewrite length_app. cbn [length].
      by replace (length pre + Datatypes.S i - (length pre + 1))%nat with i by lia. }
    destruct (compare_tests C (e_key e) (e_key e')) as (r' & Hr' & _ & <-);
      [by eapply (entry_key_valid C _ H)|..|].
    - eapply (entry_key_valid C _ H (length pre + Datatypes.S i)). rewrite lookup_app_r by (rewrite length_app; cbn; lia).
      rewrite length_app. cbn [length]. by replace (length pre + Datatypes.S i - (length pre + 1))%nat with i by lia.
    - apply Z.ltb_ge. congruence. }
  exists (b :: flags), st'. cbn [kept_entries]. rewrite (bind_ok _ _ _ _ _ E), (bind_ok _ _ _ _ _ E'). split; [by destruct b|].
  split; [cbn; lia|]. intros [|i] e' Hi.
  - injection Hi as <-. rewrite Nat.add_0_r. cbn [lookup list_lookup]. rewrite <- Hhid.
    split; [intros Hh; f_equal; by apply Hdrop|]. intros [= ->]. by apply Hwhy.
  - cbn in Hi. specialize (Hflags i e' Hi). rewrite length_app in Hflags. cbn [length] in Hflags.
    by replace (length pre + Datatypes.S i)%nat with (length pre + 1 + i)%nat by lia.
Qed.

(** What the flags say of all entries. *)
Definition flags_ok (es : list Entry) (flags : list bool) : Prop :=
  length flags = length es /\
  forall i e, es !! i = Some e ->
    (hidden es i -> flags !! i = Some true) /\ (flags !! i = Some true -> hidden es i \/ obsolete e).

Section flags.
Context (es : list Entry) (flags : list bool) (H : internal_sorted C es) (Hf : flags_ok es flags).

(** A later entry of the same key is not newer. *)
Lemma older_behind i j e e' : es !! i = Some e -> es !! j = Some e' -> (i < j)%nat -> same_key C e e' -> e_seq e' <= e_seq e.
Proof.
  intros Hi Hj Hij Hs. destruct (entries_order C es H i j e e' Hi Hj Hij) as (r & Hr & _ & Hn).
  unfold same_key in Hs. rewrite Hr in Hs. injection Hs as ->. specialize (Hn eq_refl). unfold e_number in Hn.
  destruct (entry_types C es H i e Hi), (entry_types C es H j e' Hj); unfold kTypeDeletion, kTypeValue in *; lia.
Qed.

(** Behind an entry of its key that every snapshot sees, an entry is hidden. *)
Lemma later_hidden i j e e' : es !! i = Some e -> es !! j = Some e' -> (i < j)%nat -> same_key C e e' ->
  e_seq e <= smallest -> hidden es j.
Proof.
  intros Hi Hj Hij Hs Hle. destruct j as [|j]; [lia|].
  destruct (lookup_lt_is_Some_2 es j) as [d Hd]; [apply lookup_lt_Some in Hj; lia|]. exists j, d, e'.
  pose proof (same_key_between_right C es H i j (Datatypes.S j) e d e' Hi Hd Hj ltac:(lia) Hs) as Hsd.
  repeat split; try done. destruct (decide (i = j)) as [->|]; [by simplify_eq|].
  pose proof (older_behind i j e d Hi Hd ltac:(lia)
    (same_key_between C es H i j (Datatypes.S j) e d e' Hi Hd Hj ltac:(lia) Hs)). lia.
Qed.

Lemma kept_in e : e ∈ unflagged flags es -> exists i, es !! i = Some e /\ ~ hidden es i.
Proof.
  intros (i & Hi & Hfi)%unflagged_at. exists i. split; [done|]. intros Hh.
  pose proof (proj1 (proj2 Hf i e Hi) Hh). congruence.
Qed.

(** Of a key, at most one entry is kept that every snapshot sees. *)
Lemma kept_once e e' : e ∈ unflagged flags es -> e' ∈ unflagged flags es -> same_key C e e' ->
  e_seq e <= smallest -> e_seq e' <= smallest -> e = e'.
Proof.
  intros (i & Hi & Hhi)%kept_in (j & Hj & Hhj)%kept_in Hs Hle Hle'.
  destruct (decide (i = j)) as [->|]; [by simplify_eq|]. destruct (decide (i < j)%nat).
  - destruct Hhj. by apply (later_hidden i j e e').
  - destruct Hhi. apply (later_hidden j i e' e); [done..|lia|by apply (same_key_sym C es H i j)|done].
Qed.

Context (Hd : NoDup (e_seq <$> es)).

Lemma seq_index i j e e' : es !! i = Some e -> es !! j = Some e' -> e_seq e = e_seq e' -> i = j.
Proof.
  intros Hi Hj Eq. apply (NoDup_lookup (e_seq <$> es) _ _ (e_seq e) Hd); rewrite list_lookup_fmap; [by rewrite Hi|].
  rewrite Hj. cbn. by rewrite Eq.
Qed.

Lemma kept_subset e : e ∈ unflagged flags es -> e ∈ es.
Proof. intros (i & Hi & _)%kept_in. by eapply list_elem_of_lookup_2. Qed.

Lemma kept_nodup : NoDup (e_seq <$> unflagged flags es).
Proof. eapply sublist_NoDup; [apply Hd|]. apply fmap_sublist, unflagged_sublist. Qed.

(** The newest entry is kept, or it is obsolete. *)
Lemma newest_flag u s e i : valid u -> smallest <= s -> newest C u s es = Some e -> es !! i = Some e ->
  flags !! i = Some true -> obsolete e.
Proof.
  intros Vu Hs En Hi Hfi. destruct (proj2 (proj2 Hf i e Hi) Hfi) as [(j & d & e' & -> & Hj & He' & Hsk & Hle)|Hob]; [|done].
  exfalso. assert (e' = e) as -> by congruence. pose proof (newest_spec C u s es) as Hspec. rewrite En in Hspec.
  destruct Hspec as (_ & Hv & Hmax).
  assert (visible C u s d = true) as Hvd.
  { unfold visible in Hv |- *. pose proof (entry_key_valid C es H j d Hj) as Vd.
    pose proof (entry_key_valid C es H _ e Hi) as Ve. destruct (compare_total (e_key e) u Ve Vu) as [r Hr'].
    rewrite Hr' in Hv. apply andb_prop in Hv as [->%Z.eqb_eq _].
    rewrite (equal_trans _ (e_key e) u) by done. cbn. apply Z.leb_le. lia. }
  pose proof (Hmax d ltac:(by eapply list_elem_of_lookup_2) Hvd) as Hmd.
  pose proof (older_behind j (Datatypes.S j) d e Hj Hi ltac:(lia) Hsk).
  assert (j = Datatypes.S j) by (apply (seq_index j (Datatypes.S j) d e); [done..|lia]). lia.
Qed.

(** If it is not kept, nothing visible of its key is. *)
Lemma obsolete_newest u s e i : valid u -> newest C u s es = Some e -> es !! i = Some e ->
  flags !! i = Some true -> e_seq e <= smallest -> newest C u s (unflagged flags es) = None.
Proof.
  intros Vu En Hi Hfi Hle. pose proof (newest_spec C u s es) as Hspec. rewrite En in Hspec. destruct Hspec as (_ & Hv & Hmax).
  apply newest_none. intros e' He'. destruct (visible C u s e') eqn:Hv'; [|done]. exfalso.
  pose proof (kept_subset e' He') as Hine. pose proof (kept_in e' He') as (j & Hj & Hh).
  pose proof (visible_same u s e e' Vu ltac:(by eapply (entry_key_valid C es H)) ltac:(by eapply (entry_key_valid C es H)) Hv Hv') as Hsk.
  destruct (lt_eq_lt_dec i j) as [[Hij| ->]|Hij].
  - by apply Hh, (later_hidden i j e e').
  - apply unflagged_at in He' as (i' & Hi' & Hfi'). pose proof (seq_index i' j e' e' Hi' Hj eq_refl). congruence.
  - pose proof (older_behind j i e' e Hj Hi Hij ltac:(by apply (same_key_sym C es H i j))).
    pose proof (Hmax e' Hine Hv'). assert (j = i) by (apply (seq_index j i e' e); [done..|lia]). lia.
Qed.

Lemma kept_newest u s : valid u -> smallest <= s ->
  newest C u s (unflagged flags es) = newest C u s es \/
  exists e, newest C u s es = Some e /\ obsolete e /\ visible C u s e = true /\ newest C u s (unflagged flags es) = None.
Proof.
  intros Vu Hs. pose proof (newest_spec C u s es) as Hspec. destruct (newest C u s es) as [e|] eqn:En.
  - destruct Hspec as ([i Hi]%list_elem_of_lookup & Hv & Hmax).
    destruct (flags !! i) as [[]|] eqn:Hfi; [| |apply lookup_ge_None in Hfi; apply lookup_lt_Some in Hi; destruct Hf; lia].
    + pose proof (newest_flag u s e i Vu Hs En Hi Hfi) as Hob. right. exists e. split; [done|]. split; [done|].
      split; [done|]. apply (obsolete_newest u s e i); [done..|apply Hob].
    + left. apply newest_unique; [apply kept_nodup| |done|].
      * apply unflagged_at. by exists i.
      * intros e' He' Hv'. by apply Hmax; [apply kept_subset|].
  - left. apply newest_none. intros e' He'. by apply Hspec, kept_subset.
Qed.

End flags.

End keep.

(** ** What a read finds *)

(** The value of the newest entry, if there is one and it is not a deletion. *)
Definition read_value (C : Comparator) (u : Slice) (s : Z) (es : list Entry) : option Slice :=
  match newest C u s es with
  | Some e => if e_type e =? kTypeValue then Some (e_value e) else None
  | None => None
  end.

Definition newer_of (a b : option Entry) : option Entry :=
  match a, b with
  | Some x, Some y => if e_seq y <? e_seq x then a else b
  | Some _, None => a
  | None, _ => b
  end.

Lemma newest_app C u s a b : newest C u s (a ++ b) = newer_of (newest C u s a) (newest C u s b).
Proof.
  induction a as [|e a IH]; [done|]. cbn [app newest]. rewrite IH.
  destruct (visible C u s e); [|done]. destruct (newest C u s a) as [x|], (newest C u s b) as [y|]; cbn [newer_of]; try done.
  destruct (Z.ltb_spec (e_seq y) (e_seq x)), (Z.ltb_spec (e_seq x) (e_seq e)); cbn [newer_of];
    try destruct (Z.ltb_spec (e_seq y) (e_seq e)); try done; try lia.
  all: try (destruct (Z.ltb_spec (e_seq y) (e_seq x)); done || lia).
  by destruct (e_seq x <? e_seq e).
Qed.

(** With any test for the base level. *)
Lemma kept_reads {S : Type} (C : Comparator) {L : ComparatorLaws C} (is_base : Slice -> M S bool)
    (absent : Slice -> Prop) {BL : BaseLevelLaws C is_base absent} (smallest : Z) (young es old : list Entry) (st : S) :
  0 <= smallest < kMaxSequenceNumber -> internal_sorted C es -> NoDup (e_seq <$> es) -> bl_asked None st ->
  (forall u e, valid u -> absent u -> e ∈ old -> @Compare C (e_key e) u <> Some 0) ->
  (forall e e', e ∈ young -> e' ∈ es -> same_key C e e' -> e_seq e' < e_seq e) ->
  (forall e, e ∈ young ++ old -> valid (e_key e)) ->
  exists kept st', kept_entries C is_base smallest first_key_state es st = Ok kept st' /\
    kept `sublist_of` es /\
    (forall u s, valid u -> smallest <= s ->
       read_value C u s (young ++ kept ++ old) = read_value C u s (young ++ es ++ old)) /\
    (forall e e', e ∈ kept -> e' ∈ kept -> same_key C e e' -> e_seq e <= smallest -> e_seq e' <= smallest -> e = e').
Proof.
  intros Hsm H Hd Hst Habs Hyoung Hvalid.
  destruct (kept_entries_ok C is_base absent smallest Hsm [] es first_key_state None st) as (flags & st' & E & Hlen & Hf);
    [done|done|done|done|].
  exists (unflagged flags es), st'. split; [done|]. split; [apply unflagged_sublist|].
  assert (flags_ok C absent smallest es flags) as Hok by done.
  split; [|by intros e e'; apply (kept_once C absent smallest es flags H Hok)].
  intros u s Vu Hs. unfold read_value. rewrite !newest_app.
  destruct (kept_newest C absent smallest es flags H Hok Hd u s Vu Hs) as [->|(e & En & (Ht & Hle & Ha) & Hv & ->)]; [done|].
  rewrite En. cbn [newer_of].
  assert (newest C u s old = None) as ->.
  { apply newest_none. intros e' He'. apply not_true_is_false. intros Hv'. apply (Habs (e_key e) e'); [|done|done|].
    { pose proof (newest_spec C u s es) as Hspec. rewrite En in Hspec. destruct Hspec as ([i Hi]%list_elem_of_lookup & _).
      by eapply (entry_key_valid C es H). }
    apply (visible_same C u s e' e); try done; [apply Hvalid, elem_of_app; by right|].
    pose proof (newest_spec C u s es) as Hspec. rewrite En in Hspec. destruct Hspec as ([i Hi]%list_elem_of_lookup & _).
    by eapply (entry_key_valid C es H). }
  pose proof (newest_spec C u s young) as Hspec. pose proof (newest_spec C u s es) as Hspec'. rewrite En in Hspec'.
  destruct Hspec' as (He & _). destruct (newest C u s young) as [y|]; cbn [newer_of].
  - destruct Hspec as (Hy & Hvy & _). assert (e_seq e < e_seq y) as Hlt.
    { apply Hyoung; [done..|]. apply (visible_same C u s y e); try done; [apply Hvalid, elem_of_app; by left|].
      apply list_elem_of_lookup in He as [i Hi]. by eapply (entry_key_valid C es H). }
    by rewrite (proj2 (Z.ltb_lt _ _) Hlt).
  - by rewrite Ht.
Qed.

(** ** The test for the base level *)

Section base.
Context (C : Comparator) {L : ComparatorLaws C}.

Definition in_range (u : Slice) (f : FilePtr) : Prop :=
  before C u (ukey (smallest (meta f))) = false /\ before C (ukey (largest (meta f))) u = false.

(** The files in front of the pointer end before the key. *)
Definition passed (u : Slice) (files : list FilePtr) (ptr : nat) : Prop :=
  (ptr <= length files)%nat /\
  forall i f, (i < ptr)%nat -> files !! i = Some f -> before C (ukey (largest (meta f))) u = true.

Lemma user_smallest f : file_ok C f -> InternalKey_user_key (smallest (meta f)) = Some (ukey (smallest (meta f))) /\ valid (ukey (smallest (meta f))).
Proof. intros Hf. by destruct (file_key_user C _ (smallest_key _ _ Hf)). Qed.

Lemma user_largest f : file_ok C f -> InternalKey_user_key (largest (meta f)) = Some (ukey (largest (meta f))) /\ valid (ukey (largest (meta f))).
Proof. intros Hf. by destruct (file_key_user C _ (largest_key _ _ Hf)). Qed.

(** Files behind one that starts behind the key start behind it. *)
Lemma later_starts files i j f g u : disjoint_files C files -> files !! i = Some f -> files !! j = Some g -> (i <= j)%nat ->
  valid u -> before C u (ukey (smallest (meta f))) = true -> before C u (ukey (smallest (meta g))) = true.
Proof.
  intros [Hok Hd] Hi Hj Hij Vu Hb. destruct (decide (i = j)) as [->|]; [by simplify_eq|].
  pose proof (Forall_lookup_1 _ _ _ _ Hok Hi) as Hf. pose proof (Forall_lookup_1 _ _ _ _ Hok Hj) as Hg.
  destruct (user_smallest f Hf) as [_ Vs], (user_largest f Hf) as [_ Vl], (user_smallest g Hg) as [_ Vg].
  apply (before_then_not C _ (ukey (largest (meta f)))); try done.
  - apply (before_then_not C _ (ukey (smallest (meta f)))); try done.
    apply (not_before_user C); [apply Hf..|apply Hf].
  - apply (before_user C); [apply Hf|apply Hg|]. apply (Hd i j); [done..|lia].
Qed.

Lemma advance_ptr_ok files u ptr : disjoint_files C files -> valid u -> passed u files ptr ->
  exists ptr' found, advance_ptr C u ptr (drop ptr files) = Some (ptr', found) /\ passed u files ptr' /\
    (found = true <-> exists f, f ∈ files /\ in_range u f).
Proof.
  intros Hd Vu. remember (length files - ptr)%nat as n eqn:En. revert ptr En.
  induction n as [|n IH]; intros ptr En [Hle Hp].
  { exists ptr, false. rewrite drop_ge by lia. split; [done|]. split; [done|]. split; [done|].
    intros (f & [i Hi]%list_elem_of_lookup & _ & Hf). rewrite (Hp i f) in Hf; [done| |done].
    apply lookup_lt_Some in Hi. lia. }
  destruct (lookup_lt_is_Some_2 files ptr) as [f Hf]; [lia|].
  rewrite (drop_S _ _ _ Hf). cbn [advance_ptr]. pose proof (Forall_lookup_1 _ _ _ _ (proj1 Hd) Hf) as Hok.
  destruct (user_largest f Hok) as [-> Vl], (user_smallest f Hok) as [-> Vs]. cbn [mbind option_bind].
  destruct (compare_tests C u (ukey (largest (meta f))) Vu Vl) as (r & -> & _ & Hr). cbn [mbind option_bind].
  destruct (Z.leb_spec r 0) as [Hle0|Hgt].
  - destruct (compare_tests C u (ukey (smallest (meta f))) Vu Vs) as (r' & -> & Hr' & _). cbn [mbind option_bind].
    exists ptr, (0 <=? r'). split; [done|]. split; [done|]. rewrite Z.leb_antisym, Hr', negb_true_iff. split.
    + intros Hs. exists f. split; [by eapply list_elem_of_lookup_2|]. split; [done|]. rewrite <- Hr. apply Z.ltb_ge. lia.
    + intros (g & [j Hj]%list_elem_of_lookup & Hg1 & Hg2). destruct (before C u (ukey (smallest (meta f)))) eqn:Hb; [|done].
      destruct (decide (j < ptr)%nat) as [Hlt|Hge]; [by rewrite (Hp j g) in Hg2|].
      by rewrite (later_starts files ptr j f g u) in Hg1 by (done || lia).
  - apply IH; [lia|]. split; [apply lookup_lt_Some in Hf; lia|]. intros i g Hi Hg.
    destruct (decide (i = ptr)) as [->|]; [|apply (Hp i); [lia|done]]. assert (g = f) as -> by congruence.
    rewrite <- Hr. by apply Z.ltb_lt.
Qed.

Lemma disjoint_concat levels : Forall (disjoint_files C) levels -> Forall (file_ok C) (concat levels).
Proof. induction 1 as [|files levels [Hf _] _ IH]; [constructor|]. by apply Forall_app. Qed.

Lemma in_range_equal u u' f : file_ok C f -> valid u -> valid u' -> @Compare C u u' = Some 0 -> in_range u f -> in_range u' f.
Proof.
  intros Hok Vu Vu' Heq [Hs Hl]. destruct (user_smallest f Hok) as [_ Vs], (user_largest f Hok) as [_ Vl].
  destruct (compare_tests C u u' Vu Vu') as (r & E & H1 & H2). assert (r = 0) as -> by congruence.
  split; [by apply (not_before_trans C _ u)|by apply (not_before_trans C _ u)].
Qed.

(** The pointers of the levels from [lvl] on. *)
Definition ptrs_ok (u : Slice) (lvl : nat) (levels : list (list FilePtr)) (ptrs : list nat) : Prop :=
  forall i files, levels !! i = Some files -> exists ptr, ptrs !! (lvl + i)%nat = Some ptr /\ passed u files ptr.

Lemma base_levels_ok levels u lvl ptrs : Forall (disjoint_files C) levels -> valid u -> ptrs_ok u lvl levels ptrs ->
  exists b ptrs', base_levels C u lvl levels ptrs = Some (b, ptrs') /\ ptrs_ok u lvl levels ptrs' /\
    (forall j, (j < lvl)%nat -> ptrs' !! j = ptrs !! j) /\
    (b = true <-> forall f, f ∈ concat levels -> ~ in_range u f).
Proof.
  intros Hd Vu. revert lvl ptrs. induction Hd as [|files levels Hfiles Hd IH]; intros lvl ptrs Hp; cbn [base_levels].
  { exists true, ptrs. split; [done|]. split; [done|]. split; [done|]. split; [|done]. by intros _ f ?%not_elem_of_nil. }
  destruct (Hp 0%nat files eq_refl) as (ptr & Hptr & Hpass). rewrite Nat.add_0_r in Hptr. rewrite Hptr. cbn [mbind option_bind].
  destruct (advance_ptr_ok files u ptr Hfiles Vu Hpass) as (ptr' & found & E & Hpass' & Hfound). rewrite E. cbn [mbind option_bind].
  assert (ptrs_ok u (S lvl) levels (<[lvl:=ptr']> ptrs)) as Hp'.
  { intros i fs Hi. destruct (Hp (S i) fs Hi) as (q & Hq & Hqp). exists q. split; [|done].
    rewrite list_lookup_insert_ne by lia. by replace (S lvl + i)%nat with (lvl + S i)%nat by lia. }
  assert (<[lvl:=ptr']> ptrs !! lvl = Some ptr') as Hnew by (apply list_lookup_insert_eq; by eapply lookup_lt_Some).
  assert (forall ptrs', ptrs' !! lvl = Some ptr' -> ptrs_ok u (S lvl) levels ptrs' -> ptrs_ok u lvl (files :: levels) ptrs') as Hcons.
  { intros ptrs' H0 Hrest [|i] fs Hi; [injection Hi as <-; exists ptr'; by rewrite Nat.add_0_r|].
    replace (lvl + S i)%nat with (S lvl + i)%nat by lia. by apply Hrest. }
  destruct found.
  - exists false, (<[lvl:=ptr']> ptrs). split; [done|]. split; [by apply Hcons|]. split.
    + intros j Hj. by rewrite list_lookup_insert_ne by lia.
    + split; [done|]. intros Hno. destruct (proj1 Hfound eq_refl) as (f & Hf & Hr). destruct (Hno f); [|done].
      cbn. apply elem_of_app. by left.
  - destruct (IH (S lvl) _ Hp') as (b & ptrs' & E' & Hok & Hsame & Hb). exists b, ptrs'. split; [done|].
    split; [apply Hcons; [rewrite Hsame by lia; done|done]|]. split.
    + intros j Hj. rewrite Hsame by lia. by rewrite list_lookup_insert_ne by lia.
    + rewrite Hb. split; intros Hno f Hf; [|apply Hno; cbn; apply elem_of_app; by right].
      cbn in Hf. apply elem_of_app in Hf as [Hf|Hf]; [|by apply Hno]. intros Hr.
      assert (false = true) by (apply Hfound; by exists f). done.
Qed.

End base.

Section base_level.
Context {E W X Y : Type} (C : Comparator) {L : ComparatorLaws C}.
Context (level : Z) (behind : list (list FilePtr)) (Hbehind : Forall (disjoint_files C) behind).

Abbreviation DB := (DBImpl E W X Y).

(** A compaction into the level in front of [behind], that has been asked for [o]. *)
Definition base_asked (o : option Slice) (s : DB * Compaction) : Prop :=
  c_level s.2 = level /\
  (exists v levels, input_version_ s.2 = Some v /\ drop (Z.to_nat (level + 2)) levels = behind /\
     all_levels v (vs_versions_ (versions_ s.1)) = Ok levels (vs_versions_ (versions_ s.1))) /\
  match o with
  | Some u => valid u /\ ptrs_ok C u (Z.to_nat (level + 2)) behind (level_ptrs_ s.2)
  | None => forall i, (i < length behind)%nat -> level_ptrs_ s.2 !! (Z.to_nat (level + 2) + i)%nat = Some 0%nat
  end.

Definition behind_lacks (u : Slice) : Prop := forall f, f ∈ concat behind -> ~ in_range C u f.

Lemma passed_later u u' files ptr : Forall (file_ok C) files -> valid u -> valid u' -> before C u' u = false ->
  passed C u files ptr -> passed C u' files ptr.
Proof.
  intros Hok Vu Vu' Hle [Hlen Hp]. split; [done|]. intros i f Hi Hf.
  destruct (user_largest C f (Forall_lookup_1 _ _ _ _ Hok Hf)) as [_ Vl].
  apply (before_then_not C _ u); try done. by apply (Hp i).
Qed.

Lemma asked_ptrs o u s : base_asked o s -> valid u -> match o with Some v => before C u v = false | None => True end ->
  ptrs_ok C u (Z.to_nat (level + 2)) behind (level_ptrs_ s.2).
Proof.
  intros (_ & _ & Ho) Vu Hord i files Hi. destruct o as [v|].
  - destruct Ho as [Vv Hp]. destruct (Hp i files Hi) as (ptr & Hptr & Hpass). exists ptr. split; [done|].
    apply (passed_later v); try done. by apply (Forall_lookup_1 _ _ _ _ Hbehind Hi).
  - exists 0%nat. split; [apply Ho; by eapply lookup_lt_Some|]. split; [lia|]. intros j f Hj. lia.
Qed.

(** Asked for keys in their order, [IsBaseLevelForKey] says exactly whether none of the
    files behind may have the key. *)
Lemma is_base_level_ok o u s : base_asked o s -> valid u -> match o with Some v => before C u v = false | None => True end ->
  exists b s', is_base_level C u s = Ok b s' /\ base_asked (Some u) s' /\ (b = true <-> behind_lacks u).
Proof.
  intros Ha Vu Hord. pose proof (asked_ptrs o u s Ha Vu Hord) as Hp. destruct Ha as (Hlvl & (v & levels & Hv & Hd & Hall) & _).
  destruct (base_levels_ok C behind u _ _ Hbehind Vu Hp) as (b & ptrs' & Eb & Hp' & _ & Hb). destruct s as [d c]. cbn [fst snd] in *.
  exists b, (set_db_versions (set_vs_versions (vs_versions_ (versions_ d)) (versions_ d)) d, set_level_ptrs ptrs' c).
  split; [|split; [|done]].
  - unfold is_base_level, on_vers, on_set, on_versions, zoom, IsBaseLevelForKey. cbn [fst snd]. rewrite Hv.
    rewrite (bind_or_ub _ v) by done. rewrite (bind_ok _ _ _ _ _ Hall). cbv zeta. rewrite Hlvl, Hd.
    by rewrite (bind_or_ub _ _ _ _ Eb).
  - split; [done|]. split; [|done]. exists v, levels. by destruct d as [? ? ? ? ? ? ? ? ? ? ? ? ? ? [? ? ? ? ? ? ? ?] ? ? ? ? ?].
Qed.

#[export] Program Instance is_base_level_laws : BaseLevelLaws C (is_base_level C) behind_lacks := {| bl_asked := base_asked |}.
Next Obligation.
  intros o u s Ha Vu Hord. destruct (is_base_level_ok o u s Ha Vu Hord) as (b & s' & E1 & Ha' & Hb).
  exists b, s'. split; [done|]. split; [done|]. apply Hb.
Qed.

End base_level.

(** C16: What a compaction drops is not missed: if the levels in front of the compacted
    files have the newer entries of their keys, then for every key and every number that
    is not below the smallest snapshot, a read of all entries in front, of the entries
    that are kept and of the files of the levels behind gives the same result as before
    the compaction; and of a key, at most one entry is kept that all snapshots see. *)
Theorem compaction_keeps_reads {E W X Y : Type} (C : Comparator) {L : ComparatorLaws C} (tables : Z -> list Entry)
    (level smallest : Z) (behind : list (list FilePtr)) (young es : list Entry) (s : DBImpl E W X Y * Compaction) :
  0 <= smallest < kMaxSequenceNumber -> internal_sorted C es -> NoDup (e_seq <$> es) ->
  Forall (disjoint_files C) behind -> base_asked C level behind None s ->
  (forall f e, f ∈ concat behind -> e ∈ entries_of tables f -> valid (e_key e) /\ in_range C (e_key e) f) ->
  (forall e, e ∈ young -> valid (e_key e)) ->
  (forall e e', e ∈ young -> e' ∈ es -> same_key C e e' -> e_seq e' < e_seq e) ->
  exists kept s', kept_entries C (is_base_level C) smallest first_key_state es s = Ok kept s' /\
    kept `sublist_of` es /\
    (forall u n, valid u -> smallest <= n ->
       read_value C u n (young ++ kept ++ concat (entries_of tables <$> concat behind)) =
       read_value C u n (young ++ es ++ concat (entries_of tables <$> concat behind))) /\
    (forall e e', e ∈ kept -> e' ∈ kept -> same_key C e e' -> e_seq e <= smallest -> e_seq e' <= smallest -> e = e').
Proof.
  intros Hsm H Hd Hdis Hasked Hfiles Hvy Hyoung.
  assert (forall e, e ∈ concat (entries_of tables <$> concat behind) -> valid (e_key e) /\ exists f, f ∈ concat behind /\ in_range C (e_key e) f) as Hold.
  { intros e (f & Hf & He)%in_all_entries. destruct (Hfiles f e Hf He). split; [done|]. by exists f. }
  apply (kept_reads C (is_base_level C) (behind_lacks C behind) (BL := is_base_level_laws C level behind Hdis)); try done.
  - intros u e Vu Habs He Heq. destruct (Hold e He) as (Ve & f & Hf & Hr1 & Hr2). apply (Habs f Hf).
    pose proof (proj1 (Forall_forall _ _) (disjoint_concat C behind Hdis) f Hf) as Hok.
    by apply (in_range_equal C (e_key e) u).
  - intros e [He|He]%elem_of_app; [by apply Hvy|by apply Hold].
Qed.

(** A compaction of level 0 when level 2 has a file with the keys from [b] to [c]. *)
Definition behind_file : FileMetaData :=
  mk_file 1 100 9 1000 (entry_key (mk_entry 2 kTypeValue [98] [])) (entry_key (mk_entry 1 kTypeValue [99] [])).

Definition behind_tables (number : Z) : list Entry :=
  if number =? 9 then [mk_entry 2 kTypeValue [98] [66]; mk_entry 1 kTypeValue [99] [67]] else [].

Definition sample_version : Version := mk_version [[]; []; [0%nat]; []; []; []; []] Dummy Dummy 1 None 0 (double_of 0) 0.

Definition sample_db : DBImpl unit unit unit unit :=
  mk_db ∅ 0 None None 0 0 ∅ [] new_WriteBatch new_SnapshotList ∅ false ∅ None
    (mk_vset (mk_versions {[0%nat := behind_file]} {[0%nat := sample_version]} (Ver 0) (Ver 0) (Some 0%nat) []) tt 10 1 9 3 0 None)
    Status_OK false false tt None.

Definition sample_compaction : Compaction := set_input_version (Some 0%nat) (new_Compaction 0).

(** At the smallest snapshot 7: both values of [a], the deletion of [b], and an
    obsolete deletion of [d]. *)
Definition compacted : list Entry :=
  [mk_entry 9 kTypeValue [97] [1]; mk_entry 5 kTypeValue [97] [2]; mk_entry 4 kTypeValue [97] [3];
   mk_entry 6 kTypeDeletion [98] []; mk_entry 7 kTypeDeletion [100] []; mk_entry 3 kTypeValue [100] [4]].

Definition newer_entries : list Entry := [mk_entry 10 kTypeDeletion [97] []].

Definition behind_levels : list (list FilePtr) := [[(0%nat, behind_file)]; []; []; []; []].

Example sample_kept :
  match kept_entries BytewiseComparator (is_base_level BytewiseComparator) 7 first_key_state compacted (sample_db, sample_compaction) with
  | Ok kept _ => e_seq <$> kept
  | _ => []
  end = [9; 5; 6].
Proof. vm_compute. reflexivity. Qed.

Lemma behind_disjoint : Forall (disjoint_files BytewiseComparator) behind_levels.
Proof.
  assert (disjoint_files BytewiseComparator []) as Hnil by (split; [constructor|by intros [|i] [|j]]).
  repeat (constructor; [done|]); constructor; [|by repeat constructor]. split.
  - constructor; [|constructor]. split; [apply (entry_file_key BytewiseComparator), entry_okb_ok; by vm_compute..|by vm_compute].
  - intros [|i] [|j] f g Hi Hj Hij; try done; lia.
Qed.

Lemma compaction_keeps_reads_witness :
  exists kept s', kept_entries BytewiseComparator (is_base_level BytewiseComparator) 7 first_key_state compacted (sample_db, sample_compaction) = Ok kept s' /\
    kept `sublist_of` compacted /\
    (forall u n, @valid BytewiseComparator _ u -> 7 <= n ->
       read_value BytewiseComparator u n (newer_entries ++ kept ++ concat (entries_of behind_tables <$> concat behind_levels)) =
       read_value BytewiseComparator u n (newer_entries ++ compacted ++ concat (entries_of behind_tables <$> concat behind_levels))) /\
    (forall e e', e ∈ kept -> e' ∈ kept -> same_key BytewiseComparator e e' -> e_seq e <= 7 -> e_seq e' <= 7 -> e = e').
Proof.
  apply (compaction_keeps_reads BytewiseComparator behind_tables 0 7 behind_levels newer_entries compacted).
  - done.
  - apply sortedb_ok. vm_compute. reflexivity.
  - apply (bool_decide_eq_true_1 _). vm_compute. reflexivity.
  - exact behind_disjoint.
  - split; [done|]. split.
    + exists 0%nat, ([] :: [] :: behind_levels). split; [done|]. split; [done|]. vm_compute. reflexivity.
    + intros i Hi. cbn in Hi. do 5 (destruct i as [|i]; [done|]). lia.
  - intros f e ->%list_elem_of_singleton He. split; [|split].
    + apply (proj1 (proj1 (entry_okb_ok e ltac:(by repeat (apply elem_of_cons in He as [->|He]; [done|]); apply not_elem_of_nil in He)))).
    + by repeat (apply elem_of_cons in He as [->|He]; [done|]); apply not_elem_of_nil in He.
    + by repeat (apply elem_of_cons in He as [->|He]; [done|]); apply not_elem_of_nil in He.
  - intros e ->%list_elem_of_singleton. by repeat constructor.
  - intros e e' ->%list_elem_of_singleton He. intros _.
    by repeat (apply elem_of_cons in He as [->|He]; [done|]); apply not_elem_of_nil in He.
Defined.
