(* ===== verification/DbProof.v ===== *)
(** * Files that are not needed

    Which files are in use, and that exactly the others are deleted. *)

From Stdlib Require Import ZArith Lia String.
From stdpp Require Import base option list strings sorting gmap.
From S2P Require Import Prelude Memory Slice Coding DbFormat Status Iterator Bloom WriteBatch MemTable MemTheorems MemIterator Block Format.
From S2P Require Import Env Log LRU LRUProof LRUTheorems Table Merger FileName VersionEdit LevelFiles LevelFilesProof Version VersionSet.
From S2P Require Import Compaction TableCache VersionRead Snapshot DbImpl.

(** ** The files of the versions *)

Section versions.











End versions.

(** ** Files that are not needed *)

(** Deleting a file that is not there changes nothing. *)
Class DirectoryLaws (E W G R : Type) `{FL : FileSystemLaws E W G R} := {
  delete_missing name e : fs_contents e !! name = None -> fs_contents (DeleteFile name e).2 = fs_contents e
}.

Section delete.
Context {E W G R X Y J : Type} `{FL : FileSystemLaws E W G R} {DE : Directory E} {DL : DirectoryLaws E W G R}.
Context {CT : Cache Y J (Table R)} {CTL : CacheLaws Y J (Table R)}.
Context (dbname_ : Slice).

Abbreviation DB := (DBImpl E W X Y).





















End delete.


(** ** A directory in memory *)

#[export] Instance memory_directory : Directory MemoryFiles := {|
  FileExists name e := bool_decide (is_Some (e !! name));
  GetChildren dir e :=
    (Status_OK, omap (fun p : Slice * Slice => if starts_with p.1 (dir ++ c_string "/") then Some (drop (length dir + 1) p.1) else None)
                  (map_to_list e));
  CreateDir _ e := (Status_OK, e);
  DeleteDir _ e := (Status_OK, e);
  LockFile name e := (Status_OK, <[name := default [] (e !! name)]> e);
  UnlockFile e := (Status_OK, e)
|}.

#[export] Program Instance memory_directory_laws : DirectoryLaws MemoryFiles Slice Slice Slice.
Next Obligation. intros name e H. cbn in *. by rewrite H. Qed.

(** The current log is 8, the only table of the current version 9; 5.ldb was compacted. *)
Definition sample_files : MemoryFiles :=
  list_to_map ((fun name => (c_string "db/" ++ name, [1])) <$>
    [c_string "000003.log"; c_string "000008.log"; c_string "000005.ldb"; c_string "000009.ldb";
     c_string "MANIFEST-000007"; c_string "CURRENT"; c_string "notes"]).

Definition sample_versions : Versions :=
  mk_versions {[0%nat := mk_file 1 100 9 1000 [] []]}
    {[0%nat := mk_version [[0%nat]; []; []; []; []; []; []] Dummy Dummy 1 None 0 (double_of 0) 0]} (Ver 0) (Ver 0) (Some 0%nat) [].

Definition files_db (cache : ShardedLRUCache (Table Slice)) : DBImpl MemoryFiles Slice unit (ShardedLRUCache (Table Slice)) :=
  mk_db ∅ 0 None None 8 0 ∅ [] new_WriteBatch new_SnapshotList ∅ false ∅ None
    (mk_vset sample_versions sample_files 10 7 100 8 0 None) Status_OK false false cache None.

#[local] Instance db_platform : Platform := {| size_bits := 64; size_bits_cases := or_intror eq_refl |}.



Example sample_deletion :
  match NewLRUCache 990 with
  | Some x =>
      match DeleteObsoleteFiles (c_string "db") (files_db x) with
      | Ok _ s => bool_decide ((GetChildren (c_string "db") (db_env s)).2 ≡ₚ
          [c_string "000008.log"; c_string "000009.ldb"; c_string "MANIFEST-000007"; c_string "CURRENT"; c_string "notes"])
      | _ => false
      end
  | None => false
  end = true.
Proof. vm_compute. reflexivity. Qed.
