(* ===== verification/DbWrite.v ===== *)
(** * Writing in groups

    The writer at the front of the queue writes for those behind it as well: one
    record of the log and one insertion into the memtable take the updates of all of
    them, in the order of the queue. *)

From Stdlib Require Import ZArith Lia String.
From stdpp Require Import base option list strings sorting gmap.
From S2P Require Import Prelude Memory Wire Slice Coding DbFormat Crc32c Status WriteBatch MemTable MemTheorems Env Log LogTheorems.
From S2P Require Import FileName VersionEdit LevelFiles Version VersionSet Snapshot DbImpl.

(** A writer in the queue, with the updates of its batch. *)
Record Waiting := mk_waiting { wt_id : nat; wt_writer : DbWriter; wt_updates : list Update }.

(** The updates of some writers in the order of the queue. *)
Definition all_updates (ws : list Waiting) : list Update := concat (wt_updates <$> ws).

Definition batch_bytes (x : Waiting) : Z := match w_batch (wt_writer x) with Some b => Z.of_nat (ByteSize b) | None => 0 end.

Fixpoint sum_bytes (ws : list Waiting) : Z := match ws with [] => 0 | x :: ws => batch_bytes x + sum_bytes ws end.

(** The batch holds the updates; a writer without one waits for a compaction. *)
Definition batch_holds (x : Waiting) : Prop :=
  match w_batch (wt_writer x) with
  | Some b => exists seq, holds_updates b seq (wt_updates x)
  | None => wt_updates x = []
  end.

Lemma in_take {A} n (l : list A) x : x ∈ take n l -> x ∈ l.
Proof. intros H. rewrite <- (take_drop n l). apply elem_of_app. by left. Qed.

Lemma in_drop {A} n (l : list A) x : x ∈ drop n l -> x ∈ l.
Proof. intros H. rewrite <- (take_drop n l). apply elem_of_app. by right. Qed.

Section group.
Context {PL : Platform} {E W X Y : Type}.

Abbreviation DB := (DBImpl E W X Y).

Definition queued (s : DB) (x : Waiting) : Prop := writer_heap s !! wt_id x = Some (wt_writer x) /\ batch_holds x.

Lemma load_writer_ok s x : queued s x -> load_writer (wt_id x) s = Ok (wt_writer x) s.
Proof. intros [H _]. unfold load_writer. by rewrite bind_gets, H. Qed.

Lemma batch_bytes_nonneg x : 0 <= batch_bytes x.
Proof. unfold batch_bytes. destruct (w_batch _); lia. Qed.

Lemma sum_bytes_nonneg ws : 0 <= sum_bytes ws.
Proof. induction ws as [|x ws IH]; cbn [sum_bytes]; [lia|]. pose proof (batch_bytes_nonneg x). lia. Qed.

Lemma sum_bytes_app ws ws' : sum_bytes (ws ++ ws') = sum_bytes ws + sum_bytes ws'.
Proof. induction ws as [|x ws IH]; cbn [sum_bytes app]; [done|]. rewrite IH. lia. Qed.

Lemma batch_bytes_updates x b : batch_holds x -> w_batch (wt_writer x) = Some b ->
  12 + Z.of_nat (length (wt_updates x)) <= batch_bytes x.
Proof.
  unfold batch_holds, batch_bytes. intros H Hb. rewrite Hb in *. destruct H as (seq & Hr & _). unfold ByteSize. rewrite Hr.
  rewrite !length_app, EncodeFixed64_length, EncodeFixed32_length. pose proof (records_length (wt_updates x)). lia.
Qed.

Lemma max_group_size_bound size : 0 <= size -> max_group_size size <= 1048576.
Proof.
  intros H. unfold max_group_size. destruct (Z.leb_spec size 131072); [|lia].
  rewrite usize_small_32; lia.
Qed.

(** The most bytes a group has that begins with so many. *)
Definition group_limit (size : Z) : Z := if size <=? 131072 then size + 131072 else 1048576.

Lemma max_group_size_eq size : 0 <= size -> max_group_size size = group_limit size.
Proof.
  intros H. unfold max_group_size, group_limit. destruct (Z.leb_spec size 131072); [|done]. by rewrite usize_small_32 by lia.
Qed.

(** Why the group ends: the next writer wants a sync that the group does not do, or its
    batch is too much. *)
Definition ends_before (fsync : bool) (max size : Z) (behind : list Waiting) : Prop :=
  match behind with
  | [] => True
  | y :: _ => (w_sync (wt_writer y) = true /\ fsync = false) \/ (w_batch (wt_writer y) <> None /\ max < size + batch_bytes y)
  end.

(** What has been put together: the batch if it is the temporary one, or the first. *)
Definition collected (first : WriteBatch) (vars : group_vars) (us : list Update) : Prop :=
  exists seq, holds_updates (default first (gv_tmp vars)) seq us.

(** The writers behind the first that join the group: how many there are. *)
Lemma group_writers_ok first fsync max vars ws us s :
  Forall (queued s) ws -> tmp_batch_ s = new_WriteBatch -> collected first vars us ->
  Z.of_nat (length us) <= gv_size vars -> gv_size vars + sum_bytes ws < 2 ^ size_bits -> max <= 1048576 ->
  exists n vars', group_writers first fsync max vars (wt_id <$> ws) s = Ok vars' s /\ (n <= length ws)%nat /\
    collected first vars' (us ++ all_updates (take n ws)) /\
    gv_last vars' = default (gv_last vars) (wt_id <$> last (take n ws)) /\
    Forall (fun x => w_sync (wt_writer x) = true -> fsync = true) (take n ws) /\
    gv_size vars + sum_bytes (take n ws) <= Z.max (gv_size vars) max /\
    ends_before fsync max (gv_size vars + sum_bytes (take n ws)) (drop n ws).
Proof.
  intros Hq Htmp. revert vars us. induction Hq as [|x ws Hx _ IH]; intros vars us Hc Hl Hsize Hmax.
  { exists 0%nat, vars. rewrite app_nil_r. cbn. split; [done|]. split; [lia|]. split; [done|]. split; [done|]. split; [constructor|]. split; [lia|done]. }
  assert (ends_before fsync max (gv_size vars) (x :: ws) -> exists n vars', ret vars s = Ok vars' s /\ (n <= length (x :: ws))%nat /\
    collected first vars' (us ++ all_updates (take n (x :: ws))) /\
    gv_last vars' = default (gv_last vars) (wt_id <$> last (take n (x :: ws))) /\
    Forall (fun x => w_sync (wt_writer x) = true -> fsync = true) (take n (x :: ws)) /\
    gv_size vars + sum_bytes (take n (x :: ws)) <= Z.max (gv_size vars) max /\
    ends_before fsync max (gv_size vars + sum_bytes (take n (x :: ws))) (drop n (x :: ws))) as Hstop.
  { intros Hend. exists 0%nat, vars. rewrite take_0, drop_0, app_nil_r. cbn [sum_bytes length last fmap option_fmap option_map default].
    rewrite Z.add_0_r. split; [done|]. split; [lia|]. split; [done|]. split; [done|]. split; [constructor|]. split; [lia|done]. }
  cbn [fmap list_fmap group_writers]. rewrite (bind_ok _ _ _ _ _ (load_writer_ok s x Hx)).
  destruct (w_sync (wt_writer x) && negb fsync) eqn:Hsync.
  { apply Hstop. left. apply andb_prop in Hsync as [? ?%negb_true_iff]. done. }
  assert (w_sync (wt_writer x) = true -> fsync = true) as Hs.
  { intros H. rewrite H in Hsync. cbn in Hsync. by destruct fsync. }
  pose proof Hx as [_ Hb]. unfold batch_holds in Hb. cbn [sum_bytes] in Hsize.
  pose proof (batch_bytes_nonneg x) as Hnn. pose proof (sum_bytes_nonneg ws) as Hwn.
  destruct (w_batch (wt_writer x)) as [b|] eqn:Eb.
  - destruct Hb as (seq & Hb). pose proof (batch_bytes_updates x b (proj2 Hx) Eb) as Hbytes.
    assert (batch_bytes x = Z.of_nat (ByteSize b)) as Ebytes by (unfold batch_bytes; by rewrite Eb). rewrite <- Ebytes.
    rewrite usize_small by lia. destruct (Z.ltb_spec max (gv_size vars + batch_bytes x)) as [Hbig|Hfit].
    { apply Hstop. right. by rewrite Eb. }
    destruct Hc as (seq0 & Hc).
    assert (exists r seq1, match gv_tmp vars with
      | Some result => ret result
      | None => let! tmp := gets tmp_batch_ in let! n := or_ub (Count tmp) in assert_ (n =? 0) ;;; or_ub (WriteBatch.Append tmp first)
      end s = Ok r s /\ holds_updates r seq1 us) as (r & seq1 & Er & Hr).
    { destruct (gv_tmp vars) as [r|]; cbn [default] in Hc; [by exists r, seq0|].
      destruct (held_append new_WriteBatch 0 [] holds_new first seq0 us Hc) as (r & Er & Hr); [cbn; lia|].
      exists r, 0. split; [|done]. rewrite bind_gets, Htmp, (bind_or_ub _ 0) by done. rewrite bind_assert by done. by rewrite Er. }
    rewrite (bind_ok _ _ _ _ _ Er).
    destruct (held_append r seq1 us Hr b seq (wt_updates x) Hb) as (r' & Er' & Hr'); [lia|].
    rewrite (bind_or_ub _ _ _ _ Er').
    destruct (IH (mk_group (gv_size vars + batch_bytes x) (Some r') (wt_id x)) (us ++ wt_updates x)) as (n & vars' & E1 & Hn & Hc' & Hlast & Hsy & Hm & Hend).
    + by exists seq1.
    + cbn [gv_size]. rewrite length_app. lia.
    + cbn [gv_size]. lia.
    + done.
    + exists (S n), vars'. split; [exact E1|]. split; [cbn; lia|]. split; [|split; [|split; [|split]]].
      * unfold all_updates in *. cbn [take fmap list_fmap concat]. by rewrite app_assoc.
      * rewrite Hlast. cbn [gv_last take]. rewrite last_cons. by destruct (last (take n ws)).
      * cbn [take]. by constructor.
      * cbn [take sum_bytes gv_size] in *. lia.
      * cbn [take drop sum_bytes gv_size] in *. by rewrite Z.add_assoc.
  - destruct (IH (mk_group (gv_size vars) (gv_tmp vars) (wt_id x)) us Hc Hl) as (n & vars' & E1 & Hn & Hc' & Hlast & Hsy & Hm & Hend); [cbn [gv_size]; lia|done|].
    exists (S n), vars'. split; [exact E1|]. split; [cbn; lia|].
    assert (batch_bytes x = 0) as Hb0 by (unfold batch_bytes; by rewrite Eb). split; [|split; [|split; [|split]]].
    + unfold all_updates in *. cbn [take fmap list_fmap concat]. by rewrite Hb.
    + rewrite Hlast. cbn [gv_last take]. rewrite last_cons. by destruct (last (take n ws)).
    + cbn [take]. by constructor.
    + cbn [take sum_bytes gv_size] in *. lia.
    + cbn [take drop sum_bytes gv_size] in *. by rewrite Hb0.
Qed.

(** The group is the front of the queue, as much of it as may be: its bytes are within
    the limit or those of the first batch, and none is synced if the first is not. *)
Lemma BuildBatchGroup_ok s x ws b :
  writers_ s = wt_id <$> (x :: ws) -> Forall (queued s) (x :: ws) -> w_batch (wt_writer x) = Some b ->
  tmp_batch_ s = new_WriteBatch -> sum_bytes (x :: ws) < 2 ^ size_bits ->
  exists n r tmp p, BuildBatchGroup s = Ok (r, tmp, p) (if tmp : bool then set_tmp_batch r s else s) /\
    (exists seq, holds_updates r seq (all_updates (take (S n) (x :: ws)))) /\
    wt_id <$> last (take (S n) (x :: ws)) = Some p /\
    Forall (fun y => w_sync (wt_writer y) = true -> w_sync (wt_writer x) = true) (take (S n) (x :: ws)) /\
    sum_bytes (take (S n) (x :: ws)) <= Z.max (batch_bytes x) (group_limit (batch_bytes x)) /\
    ends_before (w_sync (wt_writer x)) (group_limit (batch_bytes x)) (sum_bytes (take (S n) (x :: ws))) (drop n ws).
Proof.
  intros Hws Hq Hb Htmp Hsize. apply Forall_cons in Hq as [Hx Hq]. pose proof (proj2 Hx) as Hh. unfold batch_holds in Hh.
  rewrite Hb in Hh. destruct Hh as (seq & Hh). pose proof (batch_bytes_updates x b (proj2 Hx) Hb) as Hbytes.
  assert (batch_bytes x = Z.of_nat (ByteSize b)) as Ebytes by (unfold batch_bytes; by rewrite Hb).
  pose proof (max_group_size_bound (batch_bytes x) ltac:(lia)) as Hmax. cbn [sum_bytes] in Hsize.
  pose proof (max_group_size_eq (batch_bytes x) ltac:(lia)) as Elimit.
  destruct (group_writers_ok b (w_sync (wt_writer x)) (max_group_size (batch_bytes x)) (mk_group (batch_bytes x) None (wt_id x)) ws
    (wt_updates x) s Hq Htmp) as (n & vars & E1 & Hn & (seq' & Hc) & Hlast & Hsy & Hm & Hend); [by exists seq|cbn [gv_size]; lia|done|done|].
  exists n. unfold BuildBatchGroup. rewrite bind_gets. cbv beta. change (id s) with s. rewrite Hws. cbn [fmap list_fmap head].
  rewrite (bind_or_ub _ (wt_id x)) by done. rewrite (bind_ok _ _ _ _ _ (load_writer_ok s x Hx)), Hb, (bind_or_ub _ b) by done.
  cbv zeta. rewrite <- Ebytes. cbn [tail]. rewrite (bind_ok _ _ _ _ _ E1).
  assert (wt_id <$> last (x :: take n ws) = Some (gv_last vars)) as Hl.
  { rewrite Hlast, last_cons. cbn [gv_last]. by destruct (last (take n ws)). }
  cbn [gv_size take sum_bytes] in *.
  exists (default b (gv_tmp vars)), (match gv_tmp vars with Some _ => true | None => false end), (gv_last vars).
  split; [by destruct (gv_tmp vars)|]. split; [by exists seq'|]. split; [done|]. split; [by constructor|].
  rewrite <- Elimit. split; [lia|exact Hend].
Qed.

End group.

Section commit.
Context {PL : Platform} {PM : Placement} {E W G R X Y : Type} {FS : FileSystem E W G R} {RF : ReliableFile (W * E)} {SY : SyncedFile E W G R}.
Context (C : Comparator) {L : ComparatorLaws C}.

Abbreviation DB := (DBImpl E W X Y).

(** ** The log and the memtable *)

(** What the steps of a write leave alone. *)
Record same_queue (s s' : DB) : Prop := mk_same_queue {
  sq_writers : writers_ s' = writers_ s;
  sq_heap : writer_heap s' = writer_heap s;
  sq_tmp : tmp_batch_ s' = tmp_batch_ s;
  sq_error : bg_error_ s' = bg_error_ s;
  sq_mem : db_mem s' = db_mem s;
  sq_sequence : vs_last_sequence_ (versions_ s') = vs_last_sequence_ (versions_ s)
}.

Lemma holds_bytes b seq us : holds_updates b seq us -> Forall is_byte (Contents b).
Proof.
  intros (Hr & _ & _ & Hu). unfold Contents. rewrite Hr. apply Forall_app. split; [apply EncodeFixed64_bytes|].
  apply Forall_app. split; [apply EncodeFixed32_bytes|by apply records_bytes].
Qed.

(** A record of the log. *)
Definition logged (s s' : DB) (record : Slice) : Prop :=
  exists w off w' off' bs, logfile_ s = Some (w, off) /\ logfile_ s' = Some (w', off') /\ in_block off' /\
    emitted off true record bs off' /\ contents (w', db_env s') = contents (w, db_env s) ++ bs.

(** The log has been synced if that is asked for, and the status is that of the sync:
    [e] is what the file system held before. *)
Definition log_synced (s : DB) (sync : bool) (st : Status) : Prop :=
  exists w off e, logfile_ s = Some (w, off) /\ contents (w, db_env s) = contents (w, e) /\
    if sync then db_env s = (file_Sync w e).2 /\ st = (if ok (file_Sync w e).1 then Status_OK else (file_Sync w e).1)
    else db_env s = e /\ st = Status_OK.

Lemma log_synced_durable s st w off : log_synced s true st -> ok st = true -> logfile_ s = Some (w, off) ->
  durable (w, db_env s) = contents (w, db_env s).
Proof.
  intros (w' & off' & e & Hw' & Hc & -> & ->) Hok Hw. rewrite Hw in Hw'. injection Hw' as <- <-.
  rewrite sync_contents. apply sync_durable. destruct (ok (file_Sync w e).1) eqn:Eok; [done|by rewrite Eok in Hok].
Qed.

Lemma log_record_ok d w off (s : DB) : logfile_ s = Some (w, off) -> in_block off -> Forall is_byte d ->
  exists s', on_log_file (AddRecord d) s = Ok Status_OK s' /\ same_queue s s' /\ mems s' = mems s /\ logged s s' d.
Proof.
  intros Hw Hoff Hd. destruct (AddRecord_emits d (mk_writer (w, db_env s) off) Hoff Hd) as (l & bs & E1 & Hem & Hc & Hb).
  unfold on_log_file. rewrite bind_gets. cbv beta. change (id s) with s. rewrite Hw, (bind_or_ub _ (w, off)) by done.
  unfold bind at 1. unfold on_writer. cbn [fst snd]. rewrite E1. eexists. split; [done|].
  split; [done|]. split; [done|]. destruct l as [[w' e'] off']. exists w, off, w', off', bs. by split.
Qed.

Lemma apply_group_ok sync b seq us m es w off (s : DB) :
  logfile_ s = Some (w, off) -> in_block off -> holds_updates b seq us -> Forall (fun u => key_ok C (update_key u)) us ->
  seq + Z.of_nat (length us) <= kMaxSequenceNumber + 1 ->
  mems s !! db_mem s = Some m -> mem_holds C m es -> Forall (fun e => e_seq e < seq) es ->
  exists st s' m', apply_group C sync b s = Ok (st, negb (ok st)) s' /\ same_queue s s' /\ logged s s' (Contents b) /\
    log_synced s' sync st /\
    mems s' !! db_mem s = Some m' /\ mem_holds C m' (if ok st then es ++ numbered seq us else es).
Proof.
  intros Hw Hoff Hb Hk Hn Hm Hmem Hes.
  destruct (log_record_ok (Contents b) w off s Hw Hoff (holds_bytes _ _ _ Hb)) as (s1 & E1 & Hq1 & Hm1 & Hl1).
  unfold apply_group. rewrite (bind_ok _ _ _ _ _ E1). change (ok Status_OK) with true. cbn [andb].
  assert (exists st s2, (if sync then
      let! s := gets id in let! w := or_ub (logfile_ s) in let! st := on_fs (file_Sync w.1) in ret (st, negb (ok st))
    else ret (Status_OK, false)) s1 = Ok (st, negb (ok st)) s2 /\ same_queue s s2 /\ mems s2 = mems s /\ logged s s2 (Contents b) /\
    log_synced s2 sync (if ok st then Status_OK else st)) as (st & s2 & E2 & Hq2 & Hm2 & Hl2 & Hst).
  { destruct Hl1 as (w0 & o0 & w1 & o1 & bs & H1 & H2 & H3 & H4 & H5). destruct sync.
    2:{ exists Status_OK, s1. split; [done|]. split; [done|]. split; [done|]. split; [by exists w0, o0, w1, o1, bs|].
        by exists w1, o1, (db_env s1). }
    rewrite bind_gets. cbv beta. change (id s1) with s1. rewrite H2, (bind_or_ub _ (w1, o1)) by done. cbn [fst].
    exists (file_Sync w1 (db_env s1)).1, (set_db_versions (set_vs_env (file_Sync w1 (db_env s1)).2 (versions_ s1)) s1).
    split; [|split; [|split; [done|split]]].
    - unfold on_fs, on_set, on_env, zoom, bind. change (vs_env_ (versions_ s1)) with (db_env s1). by destruct (file_Sync w1 (db_env s1)).
    - by destruct Hq1.
    - exists w0, o0, w1, o1, bs. split; [done|]. split; [done|]. split; [done|]. split; [done|]. rewrite <- H5. apply sync_contents.
    - exists w1, o1, (db_env s1). split; [done|]. split; [apply sync_contents|]. done. }
  rewrite (bind_ok _ _ _ _ _ E2). destruct (ok st) eqn:Est; cbn [negb].
  - destruct (InsertInto_adds C b seq us m es Hb Hk Hn Hmem Hes) as (m' & E3 & Hm').
    assert (bind (gets id) (fun s => on_memtable (db_mem s) (InsertInto C b)) s2 = Ok Status_OK (set_mems (<[db_mem s := m']> (mems s2)) s2)) as E4.
    { rewrite bind_gets. cbv beta. change (id s2) with s2. rewrite (sq_mem _ _ Hq2). unfold on_memtable. rewrite bind_gets, Hm2, Hm.
      rewrite (bind_or_ub _ m) by done. unfold zoom. by rewrite E3, Hm2. }
    rewrite (bind_ok _ _ _ _ _ E4). eexists Status_OK, _, m'. split; [done|]. split; [by destruct Hq2|]. split; [done|]. split; [exact Hst|].
    split; [|done]. cbn [mems set_mems]. by rewrite lookup_insert_eq.
  - rewrite bind_ret. exists st, s2, m. split; [by rewrite Est|]. split; [done|]. split; [done|]. split; [exact Hst|].
    split; [by rewrite Hm2|by rewrite Est].
Qed.

(** ** Other threads *)

(** What other threads leave alone while a writer has released the mutex: the
    memtable, the log and the sequence number, which are its business, the writers
    that wait, and an error, once there is one.  New writers come behind. *)
Record quiet (s s' : DB) : Prop := mk_quiet {
  q_db_mem : db_mem s' = db_mem s;
  q_mem : mems s' !! db_mem s = mems s !! db_mem s;
  q_logfile : logfile_ s' = logfile_ s;
  q_log w off : logfile_ s = Some (w, off) -> contents (w, db_env s') = contents (w, db_env s);
  q_durable w off : logfile_ s = Some (w, off) -> durable (w, db_env s) `prefix_of` durable (w, db_env s');
  q_tmp : tmp_batch_ s' = tmp_batch_ s;
  q_writers : exists more, writers_ s' = writers_ s ++ more;
  q_heap p : p ∈ writers_ s -> writer_heap s' !! p = writer_heap s !! p;
  q_sequence : vs_last_sequence_ (versions_ s') = vs_last_sequence_ (versions_ s);
  q_error : ok (bg_error_ s) = false -> bg_error_ s' = bg_error_ s
}.

Context (others : M DB unit) (Hothers : forall s, exists s', others s = Ok tt s' /\ quiet s s').

Lemma RecordBackgroundError_ok st (s : DB) : ok st = false ->
  RecordBackgroundError st s = Ok tt (set_bg_error (if ok (bg_error_ s) then st else bg_error_ s) s).
Proof. intros H. unfold RecordBackgroundError. rewrite bind_gets. destruct (ok (bg_error_ s)); [done|]. by destruct s. Qed.

(** The state behind the batch group: the updates go where they belong.  The other
    threads find the log synced ([t]); what they leave ([t']) gets the error, unless
    they have had one. *)
Definition written (s s' : DB) (sync : bool) (st : Status) (b : WriteBatch) (us : list Update) (es : list Entry) : Prop :=
  exists m' t t', logged s s' (Contents b) /\
    log_synced t sync st /\ others t = Ok tt t' /\ logfile_ s' = logfile_ t' /\ db_env s' = db_env t' /\
    (sync = true -> ok st = true -> forall w off, logfile_ s' = Some (w, off) -> durable (w, db_env s') = contents (w, db_env s')) /\
    bg_error_ t = bg_error_ s /\ bg_error_ s' = (if negb (ok st) && ok (bg_error_ t') then st else bg_error_ t') /\
    db_mem s' = db_mem s /\ mems s' !! db_mem s = Some m' /\
    mem_holds C m' (if ok st then es ++ numbered (vs_last_sequence_ (versions_ s) + 1) us else es) /\
    vs_last_sequence_ (versions_ s') = vs_last_sequence_ (versions_ s) + Z.of_nat (length us) /\
    tmp_batch_ s' = new_WriteBatch.

(** From the batch on. *)
Lemma write_batch_ok sync b us m es w off (tmp : bool) (p : nat) (s : DB) :
  let last := vs_last_sequence_ (versions_ s) in
  logfile_ s = Some (w, off) -> in_block off -> holds_updates b (last + 1) us -> Forall (fun u => key_ok C (update_key u)) us ->
  0 <= last -> last + Z.of_nat (length us) <= kMaxSequenceNumber ->
  mems s !! db_mem s = Some m -> mem_holds C m es -> Forall (fun e => e_seq e <= last) es ->
  tmp_batch_ s = (if tmp then b else new_WriteBatch) ->
  exists st s', (let! n := or_ub (Count b) in
      let! r := apply_group C sync b in
      let '(st, sync_error) := r in
      others ;;;
      (if sync_error : bool then RecordBackgroundError st else ret tt) ;;;
      (if tmp : bool then modify (set_tmp_batch WriteBatch.Clear) else ret tt) ;;;
      on_set (SetLastSequence_vs (u64 (last + n))) ;;; ret (st, p)) s = Ok (st, p) s' /\
    written s s' sync st b us es /\
    (exists more, writers_ s' = writers_ s ++ more) /\ forall q, q ∈ writers_ s -> writer_heap s' !! q = writer_heap s !! q.
Proof.
  intros last Hw Hoff Hb Hk Hlast Hn Hm Hmem Hes Htmp.
  destruct (apply_group_ok sync b (last + 1) us m es w off s Hw Hoff Hb Hk ltac:(lia) Hm Hmem) as
    (st & s1 & m' & E1 & Hq & Hl & Hst & Hm' & Hmem'); [by eapply Forall_impl; [exact Hes|]; cbn; lia|].
  destruct (Hothers s1) as (s2 & E2 & Hquiet).
  set (e := if negb (ok st) && ok (bg_error_ s2) then st else bg_error_ s2).
  assert ((if negb (ok st) then RecordBackgroundError st else ret tt) s2 = Ok tt (set_bg_error e s2)) as E3.
  { unfold e. destruct (ok st) eqn:Est; cbn [negb andb]; [by destruct s2|]. by rewrite RecordBackgroundError_ok. }
  rewrite (bind_or_ub _ _ _ _ (held_count b _ _ Hb)), (bind_ok _ _ _ _ _ E1), (bind_ok _ _ _ _ _ E2), (bind_ok _ _ _ _ _ E3).
  set (s4 := if tmp then set_tmp_batch new_WriteBatch (set_bg_error e s2) else set_bg_error e s2).
  assert ((if tmp then modify (set_tmp_batch WriteBatch.Clear) else ret tt) (set_bg_error e s2) = Ok tt s4) as E4 by (by unfold s4; destruct tmp).
  rewrite (bind_ok _ _ _ _ _ E4).
  assert (vs_last_sequence_ (versions_ s4) = last) as Hs4.
  { unfold s4. destruct tmp; cbn; by rewrite (q_sequence _ _ Hquiet), (sq_sequence _ _ Hq). }
  rewrite uwrap_small by (unfold kMaxSequenceNumber in Hn; lia).
  set (n := last + Z.of_nat (length us)).
  assert (on_set (SetLastSequence_vs n) s4 = Ok tt (set_db_versions (set_vs_last_sequence n (versions_ s4)) s4)) as E5.
  { unfold on_set, SetLastSequence_vs, zoom. rewrite bind_gets. cbv beta. change (id (versions_ s4)) with (versions_ s4).
    rewrite bind_assert; [done|]. apply Z.leb_le. unfold n. lia. }
  rewrite (bind_ok _ _ _ _ _ E5). eexists st, _. split; [done|].
  assert (forall q, q ∈ writers_ s -> writer_heap s4 !! q = writer_heap s !! q) as Hheap.
  { intros q Hq'. rewrite <- (sq_heap _ _ Hq). rewrite <- (q_heap _ _ Hquiet) by (by rewrite (sq_writers _ _ Hq)). by unfold s4; destruct tmp. }
  split; [|split; [|exact Hheap]].
  2: { destruct (q_writers _ _ Hquiet) as (more & Hmore). exists more. rewrite <- (sq_writers _ _ Hq), <- Hmore. by unfold s4; destruct tmp. }
  exists m', s1, s2. assert (logfile_ s4 = logfile_ s2 /\ db_env s4 = db_env s2) as [Hlog4 Henv4] by (unfold s4; by destruct tmp).
  split; [|split; [done|split; [done|split; [done|split; [done|split; [|split; [apply (sq_error _ _ Hq)|split; [|split; [|split; [|split; [done|split; [done|]]]]]]]]]]]].
  - destruct Hl as (w0 & o0 & w1 & o1 & bs & H1 & H2 & H3 & H4 & H5). exists w0, o0, w1, o1, bs.
    split; [done|]. split; [by unfold s4; destruct tmp; cbn; rewrite (q_logfile _ _ Hquiet)|].
    split; [done|]. split; [done|]. rewrite <- H5, <- (q_log _ _ Hquiet w1 o1 H2). by unfold s4; destruct tmp.
  - intros -> Hok w' off' Hw'. change (logfile_ s4 = Some (w', off')) in Hw'. change (durable (w', db_env s4) = contents (w', db_env s4)).
    rewrite Hlog4, (q_logfile _ _ Hquiet) in Hw'. rewrite Henv4. apply (anti_symm prefix); [apply durable_prefix|].
    rewrite (q_log _ _ Hquiet w' off' Hw'), <- (log_synced_durable s1 st w' off' Hst Hok Hw'). by apply (q_durable _ _ Hquiet w' off').
  - unfold s4. by destruct tmp.
  - unfold s4. destruct tmp; cbn; by rewrite (q_db_mem _ _ Hquiet), (sq_mem _ _ Hq).
  - rewrite <- Hm', <- (sq_mem _ _ Hq), <- (q_mem _ _ Hquiet). by unfold s4; destruct tmp.
  - unfold s4. destruct tmp; [done|]. cbn. by rewrite (q_tmp _ _ Hquiet), (sq_tmp _ _ Hq).
Qed.

(** ** The queue *)

Lemma pop_writers_ok p lst st g rest (s : DB) :
  NoDup g -> last g = Some lst -> (forall q, q ∈ g -> is_Some (writer_heap s !! q)) ->
  exists h, pop_writers p lst st (g ++ rest) s = Ok tt (set_writer_heap h (set_writers rest s)) /\
    forall q, h !! q = if decide (q ∈ g /\ q <> p) then (fun w => mk_db_writer st (w_batch w) (w_sync w) true) <$> writer_heap s !! q
                       else writer_heap s !! q.
Proof.
  revert s. induction g as [|q g IH]; intros s Hd Hlast Hin; [done|]. apply NoDup_cons in Hd as [Hq Hd].
  cbn [app pop_writers]. rewrite bind_modify.
  destruct (Hin q ltac:(by left)) as [w Hw].
  set (h0 := if (q =? p)%nat then writer_heap s else <[q := mk_db_writer st (w_batch w) (w_sync w) true]> (writer_heap s)).
  assert ((if (q =? p)%nat then ret tt else let! w := load_writer q in store_writer q (mk_db_writer st (w_batch w) (w_sync w) true))
    (set_writers (g ++ rest) s) = Ok tt (set_writer_heap h0 (set_writers (g ++ rest) s))) as E1.
  { unfold h0. destruct (q =? p)%nat; [by destruct s|]. unfold load_writer. rewrite bind_assoc, bind_gets. cbn [writer_heap set_writers].
    rewrite Hw. by rewrite (bind_or_ub _ w). }
  rewrite (bind_ok _ _ _ _ _ E1).
  assert (forall r, h0 !! r = if decide (r = q /\ r <> p) then (fun w => mk_db_writer st (w_batch w) (w_sync w) true) <$> writer_heap s !! r
                       else writer_heap s !! r) as Hh0.
  { intros r. unfold h0. destruct (Nat.eqb_spec q p) as [->|Hne].
    - by rewrite decide_False by (intros [-> ?]; done).
    - destruct (decide (r = q)) as [->|]; [rewrite lookup_insert_eq, Hw, decide_True by done; done|].
      rewrite lookup_insert_ne by done. by rewrite decide_False by (by intros [? ?]). }
  destruct g as [|q' g].
  - injection Hlast as ->. rewrite Nat.eqb_refl. exists h0. split; [done|]. intros r. rewrite Hh0.
    apply decide_ext. by rewrite list_elem_of_singleton.
  - assert (q <> lst) as Hne.
    { intros ->. apply Hq. apply last_Some_elem_of. by rewrite last_cons_cons in Hlast. }
    rewrite (proj2 (Nat.eqb_neq _ _) Hne).
    destruct (IH (set_writer_heap h0 (set_writers ((q' :: g) ++ rest) s)) Hd) as (h & E2 & Hh); [done| |].
    { intros r Hr. cbn [writer_heap set_writer_heap]. rewrite Hh0. destruct (Hin r ltac:(by right)) as [x Hx]. rewrite Hx. by case_decide. }
    exists h. split; [exact E2|]. intros r. rewrite Hh. cbn [writer_heap set_writer_heap]. rewrite Hh0.
    destruct (decide (r = q)) as [->|Hrq].
    + rewrite (decide_False (P := q ∈ q' :: g /\ q <> p)) by (by intros [? _]). apply decide_ext.
      split; [intros [_ ?]; split; [by left|done]|by intros [_ ?]].
    + rewrite (decide_False (P := r = q /\ r <> p)) by (by intros [? _]). apply decide_ext.
      rewrite (elem_of_cons (q' :: g) r q). split; [intros [? ?]; split; [by right|done]|intros [[?|?] ?]; done].
Qed.

(** What the theorem asks of the state: the queue, the memtable and the log. *)
Record ready (s : DB) (x : Waiting) (ws : list Waiting) (es : list Entry) : Prop := mk_ready {
  rd_queue : writers_ s = wt_id <$> (x :: ws);
  rd_nodup : NoDup (wt_id <$> (x :: ws));
  rd_queued : Forall (queued s) (x :: ws);
  rd_batch : w_batch (wt_writer x) <> None;
  rd_size : sum_bytes (x :: ws) < 2 ^ size_bits;
  rd_keys : Forall (fun y => Forall (fun u => key_ok C (update_key u)) (wt_updates y)) (x :: ws);
  rd_tmp : tmp_batch_ s = new_WriteBatch;
  rd_mem : exists m, mems s !! db_mem s = Some m /\ mem_holds C m es;
  rd_entries : Forall (fun e => e_seq e <= vs_last_sequence_ (versions_ s)) es;
  rd_last : 0 <= vs_last_sequence_ (versions_ s);
  rd_room : vs_last_sequence_ (versions_ s) + Z.of_nat (length (all_updates (x :: ws))) <= kMaxSequenceNumber;
  rd_log : exists w off, logfile_ s = Some (w, off) /\ in_block off
}.

Lemma all_updates_take n ws : (length (all_updates (take n ws)) <= length (all_updates ws))%nat.
Proof.
  unfold all_updates. rewrite <- (take_drop n ws) at 2. rewrite fmap_app, concat_app, length_app. lia.
Qed.

Lemma write_group_ok s x ws es : ready s x ws es ->
  exists n b p st s', write_group C others (wt_id x) (w_sync (wt_writer x)) (vs_last_sequence_ (versions_ s)) s = Ok (st, p) s' /\
    let group := take (S n) (x :: ws) in
    holds_updates b (vs_last_sequence_ (versions_ s) + 1) (all_updates group) /\
    wt_id <$> last group = Some p /\
    Forall (fun y => w_sync (wt_writer y) = true -> w_sync (wt_writer x) = true) group /\
    (sum_bytes group <= Z.max (batch_bytes x) (group_limit (batch_bytes x)) /\
     ends_before (w_sync (wt_writer x)) (group_limit (batch_bytes x)) (sum_bytes group) (drop n ws)) /\
    written s s' (w_sync (wt_writer x)) st b (all_updates group) es /\
    (exists more, writers_ s' = writers_ s ++ more) /\
    (forall y, y ∈ ws -> writer_heap s' !! wt_id y = Some (wt_writer y)) /\ is_Some (writer_heap s' !! wt_id x).
Proof.
  intros [Hqueue Hnd Hq Hb Hsize Hkeys Htmp (m & Hm & Hmem) Hes Hlast Hroom (w & off & Hw & Hoff)].
  destruct (w_batch (wt_writer x)) as [b|] eqn:Eb; [|done].
  destruct (BuildBatchGroup_ok s x ws b Hqueue Hq Eb Htmp Hsize) as (n & r & tmp & p & E1 & (seq & Hr) & Hp & Hsy & Hbytes).
  destruct (held_set_sequence r _ _ Hr (vs_last_sequence_ (versions_ s) + 1)) as (b' & Eb' & Hb'); [unfold kMaxSequenceNumber in Hroom; lia|].
  exists n, b', p. set (s1 := if tmp then set_tmp_batch r s else s) in E1.
  set (s2 := if tmp then set_tmp_batch b' s
             else set_writer_heap (<[wt_id x := mk_db_writer (w_status (wt_writer x)) (Some b') (w_sync (wt_writer x)) (w_done (wt_writer x))]> (writer_heap s)) s).
  assert ((if tmp then modify (set_tmp_batch b')
    else let! w := load_writer (wt_id x) in store_writer (wt_id x) (mk_db_writer (w_status w) (Some b') (w_sync w) (w_done w))) s1 = Ok tt s2) as E2.
  { unfold s1, s2. destruct tmp; [done|]. apply Forall_cons in Hq as [Hx _]. by rewrite (bind_ok _ _ _ _ _ (load_writer_ok s x Hx)). }
  assert (length (all_updates (take (S n) (x :: ws))) <= length (all_updates (x :: ws)))%nat as Hlen by apply all_updates_take.
  destruct (write_batch_ok (w_sync (wt_writer x)) b' (all_updates (take (S n) (x :: ws))) m es w off tmp p s2) as (st & s' & E3 & Hwr & Hmore & Hheap).
  - unfold s2. by destruct tmp.
  - done.
  - unfold s2. by destruct tmp.
  - apply Forall_forall. intros u (i & us & (y & -> & Hy)%list_lookup_fmap_Some & Hu)%elem_of_concat.
    apply lookup_take_Some in Hy as [Hy _]. pose proof (Forall_lookup_1 _ _ _ _ Hkeys Hy) as Hk.
    by apply (proj1 (Forall_forall _ _) Hk).
  - unfold s2. by destruct tmp.
  - assert (vs_last_sequence_ (versions_ s2) = vs_last_sequence_ (versions_ s)) as -> by (unfold s2; by destruct tmp). lia.
  - unfold s2. by destruct tmp.
  - done.
  - unfold s2. by destruct tmp.
  - unfold s2. by destruct tmp.
  - exists st, s'. split.
    { unfold write_group. rewrite (bind_ok _ _ _ _ _ E1), uwrap_small by (unfold kMaxSequenceNumber in Hroom; lia).
      rewrite (bind_or_ub _ _ _ _ Eb'), (bind_ok _ _ _ _ _ E2). rewrite <- E3. unfold s2. by destruct tmp. }
    split; [done|]. split; [done|]. split; [done|]. split; [done|]. split; [unfold s2 in Hwr; by destruct tmp|].
    split; [unfold s2 in Hmore; by destruct tmp|].
    assert (forall q, q ∈ wt_id <$> (x :: ws) -> writer_heap s' !! q = writer_heap s2 !! q) as Hin.
    { intros q Hq'. apply Hheap. unfold s2. destruct tmp; cbn; by rewrite Hqueue. }
    split.
    + intros y Hy. rewrite Hin by (apply list_elem_of_fmap; exists y; split; [done|by right]).
      rewrite <- (proj1 (proj1 (Forall_forall _ _) Hq y ltac:(by right))). unfold s2. destruct tmp; [done|].
      cbn [writer_heap set_writer_heap]. rewrite lookup_insert_ne; [done|]. intros Heq. cbn [fmap list_fmap] in Hnd.
      apply NoDup_cons in Hnd as [Hx _]. apply Hx. rewrite Heq. by apply list_elem_of_fmap_2.
    + rewrite Hin by (by left). unfold s2. apply Forall_cons in Hq as [[Hx _] _]. destruct tmp; [by eexists|].
      cbn [writer_heap set_writer_heap]. rewrite lookup_insert_eq. by eexists.
Qed.

End commit.

(** C15: Writing in groups: the writer at the front of the queue takes with it the writers
    behind it, until one wants to be synced and it does not, or until there are too many
    bytes: 128 KB more than its own, or a megabyte if its own batch is larger.  One record
    of the log has all their updates in the order of the queue, and so has the memtable,
    numbered from the last sequence number on.  If the writer wants a sync the log is
    synced behind the record and before the memtable changes: the status is that of the
    sync, and if it is OK the log with the record outlives the machine.  If it is not,
    the memtable stays as it was, everyone in the group gets that error, and the database
    keeps it, or the error other threads have left in the meantime.  The others of the
    group get the status and are done; the writers behind stay in the queue, and new ones
    may have come. *)
Theorem group_commit {PL : Platform} {PM : Placement} {E W G R X Y : Type} {FS : FileSystem E W G R} {RF : ReliableFile (W * E)}
    {SY : SyncedFile E W G R} (C : Comparator) {L : ComparatorLaws C} (others : M (DBImpl E W X Y) unit) (s : DBImpl E W X Y)
    (x : Waiting) (ws : list Waiting) (es : list Entry) :
  (forall s, exists s', others s = Ok tt s' /\ quiet s s') ->
  ready C s x ws es ->
  exists n b st s', commit_group C others (wt_id x) (w_sync (wt_writer x)) (w_batch (wt_writer x)) Status_OK s = Ok st s' /\
    let group := take (S n) (x :: ws) in
    Forall (fun y => w_sync (wt_writer y) = true -> w_sync (wt_writer x) = true) group /\
    sum_bytes group <= Z.max (batch_bytes x) (group_limit (batch_bytes x)) /\
    ends_before (w_sync (wt_writer x)) (group_limit (batch_bytes x)) (sum_bytes group) (drop n ws) /\
    holds_updates b (vs_last_sequence_ (versions_ s) + 1) (all_updates group) /\
    written C others s s' (w_sync (wt_writer x)) st b (all_updates group) es /\
    (exists more, writers_ s' = (wt_id <$> drop n ws) ++ more) /\
    (forall y, y ∈ take n ws -> writer_heap s' !! wt_id y =
       Some (mk_db_writer st (w_batch (wt_writer y)) (w_sync (wt_writer y)) true)) /\
    (forall y, y ∈ drop n ws -> writer_heap s' !! wt_id y = Some (wt_writer y)).
Proof.
  intros Hothers Hr. pose proof Hr as [Hqueue Hnd Hq Hb _ _ _ _ _ _ _ _].
  destruct (write_group_ok C others Hothers s x ws es Hr) as
    (n & b & p & st & s' & E1 & Hb' & Hp & Hsy & [Hbytes Hend] & Hwr & (more & Hmore) & Hheap & Hx).
  assert (wt_id <$> (x :: ws) = (wt_id <$> take (S n) (x :: ws)) ++ (wt_id <$> drop n ws)) as Esplit
    by (rewrite <- fmap_app; f_equal; symmetry; apply (take_drop (S n) (x :: ws))).
  rewrite Hqueue, Esplit, <- app_assoc in Hmore. rewrite Esplit in Hnd. apply NoDup_app in Hnd as (Hnd & Hdis & Hnd').
  destruct (pop_writers_ok (wt_id x) p st (wt_id <$> take (S n) (x :: ws)) ((wt_id <$> drop n ws) ++ more) s') as (h & E2 & Hh).
  { done. } { by rewrite fmap_last. }
  { intros q (y & -> & Hy)%list_elem_of_fmap. cbn [take] in Hy. apply elem_of_cons in Hy as [->|Hy]; [done|].
    rewrite Hheap; [by eexists|by eapply in_take]. }
  exists n, b, st, (set_writer_heap h (set_writers ((wt_id <$> drop n ws) ++ more) s')). split.
  { unfold commit_group. rewrite bind_gets. cbv beta. change (id s) with s. change (ok Status_OK) with true.
    destruct (w_batch (wt_writer x)) as [b0|]; [|done]. rewrite (bind_ok _ _ _ _ _ E1), bind_gets. cbv beta. change (id s') with s'.
    rewrite Hmore. by rewrite (bind_ok _ _ _ _ _ E2). }
  split; [done|]. split; [done|]. split; [done|]. split; [done|]. split; [exact Hwr|]. split; [by exists more|].
  cbn [writer_heap set_writer_heap]. split; intros y Hy; rewrite Hh.
  - assert (y ∈ ws) as Hyw by (by eapply in_take).
    rewrite decide_True; [by rewrite Hheap|]. split; [by apply list_elem_of_fmap_2; right|].
    intros Heq. cbn [take fmap list_fmap] in Hnd. apply NoDup_cons in Hnd as [Hnx _]. apply Hnx. rewrite <- Heq. by apply list_elem_of_fmap_2.
  - assert (y ∈ ws) as Hyw by (by eapply in_drop).
    rewrite decide_False; [by rewrite Hheap|]. intros [Hin _]. apply (Hdis _ Hin). by apply list_elem_of_fmap_2.
Qed.

(** ** A machine with a disk

    What is written stays in memory until it is synced; the disk may be broken. *)
Record Machine := mk_machine { in_memory : MemoryFiles; on_disk : MemoryFiles; disk_works : bool }.

Definition with_memory (r : Status * MemoryFiles) (e : Machine) : Status * Machine :=
  (r.1, mk_machine r.2 (on_disk e) (disk_works e)).

Definition disk_error : Status := default Status_OK (Status_IOError (c_string "disk") []).

#[local] Instance machine_files : FileSystem Machine Slice Slice Slice := {|
  NewWritableFile name e := (Status_OK, Some name, mk_machine (<[name := []]> (in_memory e)) (on_disk e) (disk_works e));
  NewSequentialFile name e := NewSequentialFile name (in_memory e);
  NewRandomAccessFile name e := NewRandomAccessFile name (in_memory e);
  Env.DeleteFile name e := with_memory (Env.DeleteFile name (in_memory e)) e;
  RenameFile src dst e := with_memory (RenameFile src dst (in_memory e)) e;
  file_Append d w e := with_memory (file_Append d w (in_memory e)) e;
  file_Flush w e := (Status_OK, e);
  file_Sync w e :=
    if disk_works e
    then (Status_OK, mk_machine (in_memory e) (<[w := default [] (in_memory e !! w)]> (on_disk e)) true)
    else (disk_error, e);
  file_Close w e := (Status_OK, e);
  file_delete w e := e
|}.

#[local] Program Instance machine_reliable : ReliableFile (Slice * Machine) := {|
  contents f := default [] (in_memory f.2 !! f.1)
|}.
Next Obligation.
  intros d [w e]. exists (w, mk_machine (append_to d w (in_memory e)) (on_disk e) (disk_works e)). split; [done|].
  cbn [fst snd in_memory]. unfold append_to. by rewrite lookup_insert, decide_True.
Qed.
Next Obligation. intros [w e]. by eexists. Qed.

(** What is on the disk of a file that has been made again since does not count. *)
#[local] Program Instance machine_synced : SyncedFile Machine Slice Slice Slice := {|
  durable f := let c := default [] (on_disk f.2 !! f.1) in if bool_decide (c `prefix_of` contents f) then c else []
|}.
Next Obligation. intros [w e]. cbv zeta. case_bool_decide; [done|apply prefix_nil]. Qed.
Next Obligation. intros w e. unfold file_Sync, machine_files. by destruct (disk_works e). Qed.
Next Obligation.
  intros w e. unfold file_Sync, machine_files. destruct (disk_works e); [|done]. intros _. cbv zeta.
  cbn [fst snd on_disk in_memory contents machine_reliable]. rewrite lookup_insert, decide_True by done. cbn [default].
  by rewrite bool_decide_true.
Qed.

(** ** Three writers *)

#[local] Instance write_platform : Platform := {| size_bits := 64; size_bits_cases := or_intror eq_refl |}.
#[local] Program Instance write_placement : Placement := {| placed _ := 4096 |}.
Next Obligation. intros s Hs. unfold addressable. cbn. lia. Qed.

Definition batch_of (us : list Update) : WriteBatch := default new_WriteBatch (put_updates new_WriteBatch us).

(** The third wants its batch to be synced, and the first if [sync] is set. *)
Definition waiting (p : nat) (us : list Update) (sync : bool) : Waiting :=
  mk_waiting p (mk_db_writer Status_OK (Some (batch_of us)) sync false) us.

Definition first_waiting (sync : bool) : Waiting := waiting 0 [UPut [97] [1]] sync.
Definition others_waiting : list Waiting := [waiting 1 [UDelete [97]; UPut [98] [2]] false; waiting 2 [UPut [99] [3]] true].

Definition waiting_db (sync works : bool) : DBImpl Machine Slice unit unit :=
  mk_db {[0%nat := new_MemTable]} 0 None (Some (c_string "db/000008.log", 0)) 8 0
    (list_to_map ((fun x => (wt_id x, wt_writer x)) <$> first_waiting sync :: others_waiting)) [0; 1; 2]%nat new_WriteBatch new_SnapshotList ∅ false ∅ None
    (mk_vset (mk_versions ∅ ∅ Dummy Dummy None []) (mk_machine ∅ ∅ works) 10 7 100 8 0 None) Status_OK false false tt None.

Lemma batch_of_holds us : Forall update_ok us -> Z.of_nat (length us) < 2 ^ 31 -> holds_updates (batch_of us) 0 us.
Proof. intros Hu Hn. destruct (put_updates_holds _ _ _ us holds_new Hu) as (b & E & H); [cbn; lia|]. unfold batch_of. by rewrite E. Qed.

Lemma waiting_ready sync works : ready BytewiseComparator (waiting_db sync works) (first_waiting sync) others_waiting [].
Proof.
  split; try done.
  - apply (bool_decide_eq_true_1 _). vm_compute. reflexivity.
  - do 3 (apply Forall_cons; split; [split; [vm_compute; reflexivity|exists 0; apply batch_of_holds; [by repeat constructor|done]]|]).
    apply Forall_nil_2.
  - repeat constructor; done.
  - exists new_MemTable. split; [done|apply mem_holds_new].
  - by exists (c_string "db/000008.log"), 0.
Qed.

Lemma group_commit_witness :
  exists n b st s', commit_group BytewiseComparator (ret tt) 0 true (Some (batch_of [UPut [97] [1]])) Status_OK (waiting_db true true) = Ok st s' /\
    let group := take (S n) (first_waiting true :: others_waiting) in
    Forall (fun y => w_sync (wt_writer y) = true -> true = true) group /\
    sum_bytes group <= Z.max (batch_bytes (first_waiting true)) (group_limit (batch_bytes (first_waiting true))) /\
    ends_before true (group_limit (batch_bytes (first_waiting true))) (sum_bytes group) (drop n others_waiting) /\
    holds_updates b 101 (all_updates group) /\
    written BytewiseComparator (ret tt) (waiting_db true true) s' true st b (all_updates group) [] /\
    (exists more, writers_ s' = (wt_id <$> drop n others_waiting) ++ more) /\
    (forall y, y ∈ take n others_waiting -> writer_heap s' !! wt_id y =
       Some (mk_db_writer st (w_batch (wt_writer y)) (w_sync (wt_writer y)) true)) /\
    (forall y, y ∈ drop n others_waiting -> writer_heap s' !! wt_id y = Some (wt_writer y)).
Proof.
  apply (group_commit (SY := machine_synced) BytewiseComparator (ret tt) (waiting_db true true) (first_waiting true) others_waiting []).
  - intros s. exists s. split; [done|]. split; try done. exists []. by rewrite app_nil_r.
  - exact (waiting_ready true true).
Defined.

(** What the writers find: the status, who is left, the last sequence number, whether
    the second and the third are done, and the bytes of the log in memory and on the
    disk. *)
Definition committed (sync works : bool) :=
  match commit_group BytewiseComparator (ret tt) 0 sync (Some (batch_of [UPut [97] [1]])) Status_OK (waiting_db sync works) with
  | Ok st s => Some (ok st, writers_ s, vs_last_sequence_ (versions_ s), w_done <$> writer_heap s !! 1%nat, w_done <$> writer_heap s !! 2%nat,
                length <$> in_memory (db_env s) !! c_string "db/000008.log", length <$> on_disk (db_env s) !! c_string "db/000008.log",
                ok (bg_error_ s))
  | _ => None
  end.

(** Without a sync, the first two are written and the third stays. *)
Example sample_commit : committed false true = Some (true, [2%nat], 103, Some true, Some false, Some 32%nat, None, true).
Proof. by vm_compute. Qed.

(** With one, all three are. *)
Example sample_synced : committed true true = Some (true, [], 104, Some true, Some true, Some 37%nat, Some 37%nat, true).
Proof. by vm_compute. Qed.

(** A sync that fails is kept as the error of the database. *)
Example sample_sync_fails : committed true false = Some (false, [], 104, Some true, Some true, Some 37%nat, None, false).
Proof. by vm_compute. Qed.
