(* ===== verification/TableCacheProof.v ===== *)
(** * The table cache and the files

    A lookup through the table cache gives what the contract of table caches promises:
    the files that hold the tables are opened when they are asked for, the caches of
    tables and of blocks may keep or drop what they hold, and tables that share the
    block cache do not get at the blocks of each other. *)

From Stdlib Require Import ZArith Lia String.
From stdpp Require Import base option list strings sorting gmap.
From S2P Require Import Prelude Memory Slice Coding DbFormat Crc32c Status Iterator TwoLevelProof Bloom FilterBlock Block BlockTheorems Format TableBuilder.
From S2P Require Import TableTheorems TableBuild LRU LRUProof LRUTheorems Table TableFile Env FileName MemTable MemTheorems MemIterator VersionEdit.
From S2P Require Import UserView LevelFiles LevelFilesProof Version TableCache VersionRead.

(** ** The ids that a cache gives out *)

(** What an action leaves as it is. *)
Definition keeps {S T A} (f : S -> T) (m : M S A) : Prop := forall s a s', m s = Ok a s' -> f s' = f s.

Section keeps.
Context {S T : Type} (f : S -> T).

Lemma keeps_ret {A} (a : A) : keeps f (ret a).
Proof. by intros s b s' [= _ <-]. Qed.

Lemma keeps_ub {A} : keeps f (A := A) ub.
Proof. by intros s b s' [=]. Qed.

Lemma keeps_or_ub {A} (o : option A) : keeps f (or_ub o).
Proof. destruct o; [apply keeps_ret|apply keeps_ub]. Qed.

Lemma keeps_gets {A} (g : S -> A) : keeps f (gets g).
Proof. by intros s b s' [= _ <-]. Qed.

Lemma keeps_bind {A B} (m : M S A) (k : A -> M S B) : keeps f m -> (forall a, keeps f (k a)) -> keeps f (bind m k).
Proof.
  intros Hm Hk s b s' (a & s1 & E1 & E2)%bind_ok_inv. by rewrite (Hk a _ _ _ E2), (Hm _ _ _ E1).
Qed.
End keeps.

Create HintDb keeps.

(** A walk through an action, with what is known of its parts. *)
Ltac keeps_walk :=
  repeat first
    [ solve [auto 3 with keeps nocore] | apply keeps_ret | apply keeps_ub | apply keeps_or_ub | apply keeps_gets | assumption
    | apply keeps_bind; [|intros ?]
    | match goal with |- keeps _ (match ?x with _ => _ end) => destruct x end
    | match goal with |- keeps _ (let '_ := ?x in _) => destruct x end ].

(** Only [NewId] changes the last id, and it gives out the next one. *)
Class CacheIds (X H V : Type) `{!Cache X H V} := {
  cache_last : X -> Z;
  insert_keeps k v charge : keeps cache_last (cache_Insert k v charge);
  lookup_keeps k : keeps cache_last (cache_Lookup k);
  value_keeps h : keeps cache_last (cache_Value h);
  release_keeps h : keeps cache_last (cache_Release h);
  new_id_next x id x' : cache_NewId x = Ok id x' -> 0 <= cache_last x -> cache_last x + 1 < 2 ^ 64 ->
    id = cache_last x + 1 /\ cache_last x' = cache_last x + 1
}.

Section sharded.
Context {PL : Platform} {V : Type}.

Lemma on_shard_keeps {A} i (m : M (Shard_ V) A) : keeps last_id_ (on_shard i m).
Proof.
  unfold on_shard. keeps_walk. intros s b s'. unfold zoom. destruct (m _) as [c l| | |]; try done. by intros [= _ <-].
Qed.
#[local] Hint Resolve on_shard_keeps : keeps.

#[export] Program Instance Sharded_ids : CacheIds (ShardedLRUCache V) nat V := {| cache_last := last_id_ |}.
Next Obligation. intros. cbn. unfold sharded_Insert. keeps_walk. Qed.
Next Obligation. intros. cbn. unfold sharded_Lookup. keeps_walk. Qed.
Next Obligation. intros. cbn. unfold sharded_Value, load_handle. keeps_walk. Qed.
Next Obligation. intros. cbn. unfold sharded_Release, load_handle. keeps_walk. Qed.
Next Obligation.
  intros x id x' E H0 H1. change (sharded_NewId x = Ok id x') in E. unfold sharded_NewId in E. rewrite bind_gets, bind_modify in E.
  injection E as <- <-. rewrite uwrap_small by lia. done.
Qed.

End sharded.

Section lookup_ids.
Context {PL : Platform} {PM : Placement} {SN : Snappy} {G : Type} {RA : RandomAccessFile G}.
Context {X H : Type} {CA : Cache X H Block} {IDS : CacheIds X H Block} (t : Table G).

(** The last id, if there is a cache. *)
Definition last_id : option X -> option Z := fmap cache_last.

Lemma on_cache_keeps {A} (m : M X A) : keeps cache_last m -> keeps last_id (on_cache m).
Proof.
  intros Hm [x|] a c'; [|done]. unfold on_cache, zoom. destruct (m x) as [b x'| | |] eqn:E; try done.
  intros [= _ <-]. cbn. by rewrite (Hm _ _ _ E).
Qed.

#[local] Hint Resolve on_cache_keeps insert_keeps lookup_keeps value_keeps release_keeps : keeps.

Lemma ask_keeps {A} (m : M (TableIter H) A) i : keeps last_id (ask (X := X) m i).
Proof. unfold ask. keeps_walk. Qed.

Lemma delete_iter_keeps (i : TableIter H) : keeps last_id (delete_iter i).
Proof.
  unfold delete_iter. induction (ti_cleanup i) as [|c l IH]; cbn [run_cleanups]; keeps_walk.
  destruct c; cbn [run_cleanup]; [apply keeps_ret|apply on_cache_keeps, release_keeps].
Qed.

#[local] Hint Resolve ask_keeps delete_iter_keeps : keeps.

Lemma read_block_keeps o h : keeps last_id (read_block (X := X) t o h).
Proof. unfold read_block. keeps_walk. Qed.
#[local] Hint Resolve read_block_keeps : keeps.

Lemma find_block_keeps o h : keeps last_id (find_block (X := X) (H := H) t o h).
Proof. unfold find_block. keeps_walk. Qed.
#[local] Hint Resolve find_block_keeps : keeps.

Lemma BlockReader_keeps o v : keeps last_id (BlockReader (X := X) (H := H) t o v).
Proof. unfold BlockReader. keeps_walk. Qed.
#[local] Hint Resolve BlockReader_keeps : keeps.

Lemma InternalGet_keeps o k : keeps last_id (InternalGet (X := X) (H := H) t o k).
Proof. unfold InternalGet, filtered_out. keeps_walk. Qed.

End lookup_ids.

(** ** What a lookup may miss *)

(** The separator of two internal keys is the first, or its user key is before the
    user key of the second. *)
Lemma internal_separator_user C {L : ComparatorLaws C} start limit s : internal_valid C start -> internal_valid C limit ->
  InternalFindShortestSeparator C start limit = Some s ->
  s = start \/ (exists v n, s = internal v n /\ valid v /\ 0 <= n < 2 ^ 64 /\ before C v (ukey limit) = true).
Proof.
  intros (u & a & -> & Hu & Ha) (v & b & -> & Hv & Hb). unfold InternalFindShortestSeparator. rewrite ukey_internal.
  rewrite !ExtractUserKey_internal. cbn [mbind option_bind].
  destruct (separator_between u v Hu Hv) as (t & -> & Ht & Hsep). cbn [mbind option_bind].
  destruct (shorter_and_larger_ok C u t Hu Ht) as (l & -> & Hl). cbn [mbind option_bind].
  destruct l; [|intros [= <-]; by left]. destruct (Hl eq_refl) as (r & Hr & Hlt).
  rewrite max_packed. cbn [mbind option_bind]. unfold PutFixed64. fold (internal t (2 ^ 64 - 255)).
  destruct Hsep as [->|(r1 & r2 & _ & _ & H2 & Hlt2)].
  { rewrite compare_refl in Hr by done. injection Hr as <-. lia. }
  destruct (assert_less_ok C u a t (2 ^ 64 - 255) r ltac:(lia) ltac:(lia) Hr Hlt) as [_ ->].
  destruct (assert_less_ok C t (2 ^ 64 - 255) v b r2 ltac:(lia) ltac:(lia) H2 Hlt2) as [_ ->].
  cbn [mbind option_bind]. intros [= <-]. right.
  exists t, (2 ^ 64 - 255). split; [done|]. split; [done|]. split; [lia|]. unfold before. rewrite H2. by apply Z.ltb_lt.
Qed.

(** So a lookup that comes to a block whose keys are all before the key, although the
    separator is not, does not miss an entry of the user key. *)
Lemma separated_user C {L : ComparatorLaws C} start limit s u n : internal_valid C start -> internal_valid C limit ->
  InternalFindShortestSeparator C start limit = Some s -> valid u -> 0 <= n < 2 ^ 64 ->
  before (InternalKeyComparator C) start (internal u n) = true -> before (InternalKeyComparator C) s (internal u n) = false ->
  before C u (ukey limit) = true.
Proof.
  intros Hs Hl E Hu Hn Hb Hnb. destruct (internal_separator_user C start limit s Hs Hl E) as [->|(v & m & -> & Hv & Hm & Hlim)]; [congruence|].
  rewrite (before_internal C (L := L)) in Hnb by done. apply orb_false_iff in Hnb as [Hnb _].
  destruct Hl as (w & k & -> & Hw & _). rewrite ukey_internal in *.
  destruct (compare_tests C u v Hu Hv) as (r & Er & _ & Hr). rewrite Hnb in Hr. 
  apply (before_le_trans C (L := L) u v w r); try done. by apply Z.ltb_ge.
Qed.

Lemma EncodeFixed64_inj a b : 0 <= a < 2 ^ 64 -> 0 <= b < 2 ^ 64 -> EncodeFixed64 a = EncodeFixed64 b -> a = b.
Proof.
  intros Ha Hb E. pose proof (DecodeFixed64_EncodeFixed64 a [] Ha) as E1.
  pose proof (DecodeFixed64_EncodeFixed64 b [] Hb) as E2. rewrite E in E1. congruence.
Qed.

(** ** The cache in order *)

Section tables.
Context {PL : Platform} {PM : Placement} {SN : Snappy} {SL : SnappyLaws}.
Context {E W G R : Type} `{FL : FileSystemLaws E W G R}.
Context {X H : Type} {CA : Cache X H Block} {CBL : CacheLaws X H Block} {IDS : CacheIds X H Block}.
Context {Y J : Type} {CT : Cache Y J (Table R)} {CTL : CacheLaws Y J (Table R)}.
(** The files that the builders write. *)
Context {F : Type} {WF : WritableFile F} {RF : ReliableFile F}.
Context (C : Comparator) {L : ComparatorLaws C} {SK : ShortKeys C}.
Context (address : Z) (paranoid : bool) (bsize interval : Z) (comp : CompressionType) (policy : option FilterPolicy) (dbname_ : Slice).
Context (Hpolicy : forall p, policy = Some p -> TableFilter p C).
(** The entries and the sizes of the tables, by the numbers of their files. *)
Context (tables : Z -> list Entry) (sizes : Z -> option Z).
(** The handles of others. *)
Context (live_tables : list (J * Table R)) (live_blocks : list (H * Block)).
Context (Htables : Z.of_nat (length live_tables) + 1 <= cache_max_live (CacheLaws := CTL)).
Context (Htcharge : 1 <= cache_max_charge (CacheLaws := CTL)).
Context (Hblocks : Z.of_nat (length live_blocks) + 2 <= cache_max_live (CacheLaws := CBL)).
Context (Hbcharge : 2 ^ 28 + 8 <= cache_max_charge (CacheLaws := CBL)).

(** The options of the tables of a database, with the filter policy of the user, if
    there is one, for internal keys. *)
Definition table_options_of : Options :=
  mk_options address (InternalKeyComparator C) paranoid bsize interval comp (InternalFilterPolicy <$> policy).
Abbreviation options := table_options_of.
Abbreviation TC := (TableCache Y X E).
Abbreviation icmp := (InternalKeyComparator C).
Abbreviation ilaws := (InternalKeyComparator_laws C).

Lemma table_options_filter : OptionFilter options.
Proof.
  intros p E1. cbn [filter_policy table_options_of] in E1. destruct policy as [q|] eqn:Eq; [|done].
  assert (p = InternalFilterPolicy q) as -> by (cbn in E1; congruence).
  apply InternalTableFilter. by apply Hpolicy.
Qed.
#[local] Existing Instance table_options_filter.

Definition kvs_of (n : Z) : list (Slice * Slice) := entry_pair <$> tables n.

(** The file of the table has what a builder has written, entry by entry. *)
Definition stored_table (e : E) (n size : Z) : Prop :=
  exists fname (r : Rep F) done, TableFileName dbname_ n = Some fname /\ fs_contents e !! fname = Some (contents (file r)) /\
    table_entries options (kvs_of n) /\ finished (G := R) options r (kvs_of n) done /\ size = offset r.

(** A table that has been opened. *)
Record OpenTable := mk_open_table { ot_number : Z; ot_table : Table R; ot_blocks : list (Slice * DataBlock) }.

Definition well_opened (x : OpenTable) : Prop :=
  is_Some (sizes (ot_number x)) /\ serves options (ot_table x) (ot_blocks x) /\ all_of ((ot_blocks x).*2) = kvs_of (ot_number x).

(** What the caches may hold. *)
Definition tables_held (opened : list OpenTable) (k : Slice) (t : Table R) : Prop :=
  exists x, x ∈ opened /\ t = ot_table x /\ k = table_key (ot_number x).

Definition blocks_held (opened : list OpenTable) (k : Slice) (b : Block) : Prop :=
  exists x db, x ∈ opened /\ db ∈ (ot_blocks x).*2 /\ k = cache_key (ot_table x) (db_handle db) /\ new_Block (db_raw db) = Some b.

(** The block cache is good for [n] more ids, and no two tables have the same. *)
Definition blocks_in_order (n : nat) (c : option X) (opened : list OpenTable) : Prop :=
  match c with
  | Some x => cache_inv x live_blocks (blocks_held opened) /\ 0 <= cache_last x /\ cache_last x + Z.of_nat n < 2 ^ 64 /\
              Forall (fun y => 1 <= cache_id (ot_table y) <= cache_last x) opened /\ NoDup (cache_id ∘ ot_table <$> opened)
  | None => True
  end.

Record in_order (live : list (J * Table R)) (n : nat) (st : TC) (opened : list OpenTable) : Prop := mk_in_order {
  io_files k size : sizes k = Some size -> 0 <= k < 2 ^ 64 /\ stored_table (tc_env st) k size;
  io_opened : Forall well_opened opened;
  io_tables : cache_inv (tables_ st) live (tables_held opened);
  io_blocks : blocks_in_order n (blocks_ st) opened
}.

Lemma in_order_le live m n st opened : (m <= n)%nat -> in_order live n st opened -> in_order live m st opened.
Proof.
  intros Hle [Hf Ho Ht Hb]. split; [done..|]. unfold blocks_in_order in *. destruct (blocks_ st); [|done].
  destruct Hb as (? & ? & ? & ?). split; [done|]. split; [done|]. split; [lia|done].
Qed.

(** What the block cache may hold, for one of the tables. *)
Definition held_in (c : option X) (opened : list OpenTable) (k : Slice) (b : Block) : Prop :=
  match c with Some _ => blocks_held opened k b | None => False end.

Lemma held_consistent n c opened x : Forall well_opened opened -> blocks_in_order n c opened -> x ∈ opened ->
  consistent (ot_table x) (ot_blocks x) (held_in c opened).
Proof.
  intros Ho Hb Hx k b db Hk Hdb Ek. destruct c as [c|]; [|done].
  destruct Hk as (y & db' & Hy & Hdb' & Ek' & Enew). rewrite Ek in Ek'. destruct Hb as (_ & H0 & Hn & Hids & Hnd).
  pose proof (proj1 (Forall_forall _ _) Hids x Hx) as Hxid. pose proof (proj1 (Forall_forall _ _) Hids y Hy) as Hyid. cbn in Hxid, Hyid.
  assert (x = y) as <-.
  { apply (NoDup_fmap_inj (cache_id ∘ ot_table) opened); [done|done|done|]. cbn. unfold cache_key in Ek'.
    apply app_inj_1 in Ek' as [Ek' _]; [|done]. apply EncodeFixed64_inj in Ek'; [done|lia|lia]. }
  destruct (proj1 (Forall_forall _ _) Ho x Hx) as (_ & HS & _).
  pose proof (blocks_ok options (ot_table x) (ot_blocks x) HS) as Hok. rewrite Forall_forall in Hok.
  apply cache_key_inj in Ek'; [|by apply Hok..].
  apply list_elem_of_lookup in Hdb as (i & Hi). apply list_elem_of_lookup in Hdb' as (j & Hj).
  assert (i = j) as ->; [|congruence]. by apply (offset_once (ot_blocks x) (sv_handles _ _ _ HS) i j db db').
Qed.

(** ** A lookup in an open table *)

Lemma cache_at_start x opened c : x ∈ opened -> blocks_in_order 0 c opened ->
  cache_at (ot_table x) (ot_blocks x) (held_in c opened) live_blocks [] c.
Proof.
  intros Hx Hb. destruct c as [c|]; [|by constructor]. destruct Hb as (Hb & _). cbn [cache_at omap list_omap app].
  eapply cache_inv_mono; [|exact Hb]. intros k v Hk. by left.
Qed.

Lemma cache_at_end x opened n c c' : x ∈ opened -> blocks_in_order n c opened -> last_id c' = last_id c ->
  cache_at (ot_table x) (ot_blocks x) (held_in c opened) live_blocks [] c' -> blocks_in_order n c' opened.
Proof.
  intros Hx Hb Hlast Hc. destruct c as [c|], c' as [c'|]; try done. injection Hlast as Hlast.
  destruct Hb as (_ & H0 & Hn & Hids & Hnd). cbn [blocks_in_order]. rewrite Hlast. split; [|done].
  cbn [cache_at omap list_omap app] in Hc. eapply cache_inv_mono; [|exact Hc]. intros k v [Hk|(db & Hdb & -> & Enew)]; [done|].
  by exists x, db.
Qed.

Lemma get_opened live n st opened x ro k : in_order live n st opened -> x ∈ opened -> @valid icmp ilaws k ->
  exists saved st', on_blocks (InternalGet (ot_table x) ro k) st = Ok (Status_OK, saved) st' /\ in_order live n st' opened /\
    (forall kv, saved = Some kv -> kvs_of (ot_number x) !! keys_before icmp k (kvs_of (ot_number x)) = Some kv) /\
    (forall kv, saved = None -> kvs_of (ot_number x) !! keys_before icmp k (kvs_of (ot_number x)) = Some kv ->
       (exists start sep, @valid icmp ilaws start /\ @FindShortestSeparator icmp start kv.1 = Some sep /\
         before icmp start k = true /\ before icmp sep k = false) \/ ruled_out options k [kv]).
Proof.
  intros HI Hx Hk. pose proof HI as [Hf Ho Ht Hb]. destruct (proj1 (Forall_forall _ _) Ho x Hx) as (_ & HS & Hall).
  destruct (InternalGet_ok options (ot_table x) (ot_blocks x) HS (held_in (blocks_ st) opened) (held_consistent n _ _ x Ho Hb Hx)
    live_blocks ro Hblocks Hbcharge k (blocks_ st) Hk) as (saved & c' & Eo & Hc' & Hsome & _ & Hmissed).
  { apply cache_at_start; [done|]. pose proof (io_blocks _ _ _ _ (in_order_le live 0 n st opened ltac:(lia) HI)). done. }
  exists saved, (mk_table_cache (tables_ st) c' (tc_env st)). split; [|split; [|by rewrite Hall in Hsome, Hmissed]].
  { unfold on_blocks, zoom. by rewrite Eo. }
  split; [done|done|done|]. by eapply cache_at_end, Hc'; [exact Hx|exact Hb|eapply InternalGet_keeps; exact Eo].
Qed.

(** ** Opening a table *)

Lemma open_file_ok n size st : stored_table (tc_env st) n size -> exists g (r : Rep F) done,
  open_file (E := E) (Y := Y) (X := X) dbname_ n st = Ok (Status_OK, Some g) st /\ stored g = contents (file r) /\
  table_entries options (kvs_of n) /\ finished (G := R) options r (kvs_of n) done /\ size = offset r.
Proof.
  intros (fname & r & done & Hn & Hc & Hk & Hfin & Hsize). destruct (random_ok fname _ _ Hc) as (g & Eg & Hg).
  exists g, r, done. split; [|done]. unfold open_file. rewrite bind_gets, (bind_or_ub _ fname) by done. unfold id. by rewrite Eg.
Qed.

Lemma tables_held_mono opened x k t : tables_held opened k t -> tables_held (x :: opened) k t.
Proof. intros (y & Hy & H'). exists y. split; [by right|done]. Qed.

Lemma blocks_held_mono opened x k b : blocks_held opened k b -> blocks_held (x :: opened) k b.
Proof. intros (y & db & Hy & H'). exists y, db. split; [by right|done]. Qed.

Lemma open_table_ok live n st opened k size : in_order live (S n) st opened -> sizes k = Some size ->
  exists g st' x, open_file (E := E) (Y := Y) (X := X) dbname_ k st = Ok (Status_OK, Some g) st /\
    on_blocks (Open options g size) st = Ok (Status_OK, Some (ot_table x)) st' /\ ot_number x = k /\
    in_order live n st' (x :: opened).
Proof.
  intros [Hf Ho Ht Hb] Hsize. destruct (Hf k size Hsize) as [_ Hst].
  destruct (open_file_ok k size st Hst) as (g & r & done & Eg & Hg & Hk & Hfin & ->). exists g.
  assert (cache_usable (blocks_ st) live_blocks (held_in (blocks_ st) opened)) as Hu.
  { split; [done|]. split; [done|]. destruct (blocks_ st) as [c|]; [|by intros ? ? ?].
    destruct Hb as (Hb & H0 & Hn & Hids & _). split; [done|]. intros id c' Enew key b (y & db & Hy & _ & -> & _) Ek.
    destruct (new_id_next _ _ _ Enew) as [-> _]; [lia|lia|]. unfold cache_key in Ek.
    rewrite take_app_length' in Ek by (by rewrite EncodeFixed64_length).
    pose proof (proj1 (Forall_forall _ _) Hids y Hy) as Hy'. cbn in Hy'. apply EncodeFixed64_inj in Ek; lia. }
  destruct (Open_ok options g r (kvs_of k) done (blocks_ st) live_blocks _ Hk Hfin Hg
    ltac:(pose proof (fi_size _ _ _ _ Hfin); lia) Hu) as (t & c' & Eo & HS & Hcons & Hat & Hid).
  exists (mk_table_cache (tables_ st) c' (tc_env st)), (mk_open_table k t done). split; [done|].
  split; [unfold on_blocks, zoom; by rewrite Eo|]. split; [done|]. split.
  - done.
  - constructor; [|done]. split; [by eexists|]. split; [done|]. exact (fi_entries _ _ _ _ Hfin).
  - eapply cache_inv_mono; [|exact Ht]. intros ? ?. apply tables_held_mono.
  - cbn [blocks_]. destruct (blocks_ st) as [c|]; [|by subst c']. destruct Hid as (c1 & Enew & ->).
    destruct Hb as (_ & H0 & Hn & Hids & Hnd). destruct (new_id_next _ _ _ Enew) as [Eid Elast]; [lia|lia|].
    cbn [blocks_in_order]. rewrite Elast. split; [|split; [lia|split; [lia|split]]].
    + cbn [cache_at omap list_omap app] in Hat. eapply cache_inv_mono; [|exact Hat]. intros key b [Hkey|(db & Hdb & -> & Eb)].
      * by apply blocks_held_mono.
      * exists (mk_open_table k t done), db. split; [by left|done].
    + constructor; cbn [ot_table]; [lia|]. eapply Forall_impl; [exact Hids|]. cbn. lia.
    + cbn [fmap list_fmap]. constructor; [|done]. intros (y & Ey & Hy)%list_elem_of_fmap. cbn in Ey.
      pose proof (proj1 (Forall_forall _ _) Hids y Hy). cbn in *. lia.
Qed.

(** ** The contract *)

Lemma table_key_held live n st opened k t size : in_order live n st opened -> sizes k = Some size ->
  tables_held opened (table_key k) t -> exists x, x ∈ opened /\ t = ot_table x /\ ot_number x = k.
Proof.
  intros [Hf Ho _ _] Hsize (x & Hx & -> & Ek). exists x. split; [done|]. split; [done|].
  destruct (proj1 (Forall_forall _ _) Ho x Hx) as ((size' & Hsize') & _).
  symmetry. apply EncodeFixed64_inj; [by eapply Hf|by eapply Hf|exact Ek].
Qed.

Lemma FindTable_ok n st opened k size : in_order live_tables (S n) st opened -> sizes k = Some size ->
  exists h st' opened' x, FindTable options dbname_ k size st = Ok (Status_OK, Some h) st' /\ x ∈ opened' /\ ot_number x = k /\
    in_order ((h, ot_table x) :: live_tables) n st' opened'.
Proof.
  intros HI Hsize. pose proof HI as [Hf Ho Ht Hb]. unfold FindTable.
  destruct (cache_lookup_ok (table_key k) _ _ _ Ht ltac:(lia)) as (r & y & Er & Hr).
  erewrite bind_ok by (unfold on_tables, zoom; rewrite Er; reflexivity).
  destruct r as [h|].
  - destruct Hr as (t & Hheld & Hy). destruct (table_key_held _ _ _ _ _ _ _ HI Hsize Hheld) as (x & Hx & -> & Hk).
    exists h. eexists. exists opened, x. split; [reflexivity|]. split; [done|]. split; [done|].
    apply (in_order_le _ n (S n)); [lia|]. by split.
  - destruct (open_table_ok live_tables n (mk_table_cache y (blocks_ st) (tc_env st)) opened k size) as (g & st2 & x & Eg & Eo & Hx & HI2);
      [by split|done|].
    rewrite (bind_ok _ _ _ _ _ Eg). cbn [ok state_ Status_OK or_ub]. rewrite bind_ret, (bind_ok _ _ _ _ _ Eo).
    cbn [ok state_ Status_OK negb or_ub]. rewrite bind_ret. pose proof HI2 as [Hf2 Ho2 Ht2 Hb2].
    destruct (cache_insert_ok (table_key k) (ot_table x) 1 _ _ _ Ht2) as (h & y2 & Eh & Hy2); [|lia|lia|].
    { exists x. split; [by left|]. by rewrite Hx. }
    erewrite bind_ok by (unfold on_tables, zoom; rewrite Eh; reflexivity).
    exists h. eexists. exists (x :: opened), x. split; [reflexivity|]. split; [by left|]. split; [done|]. by split.
Qed.

Lemma lookup_valid u n : key_ok C u -> 0 <= n <= kMaxSequenceNumber -> @valid icmp ilaws (lookup_at u n).
Proof. intros Hu Hn. apply (file_key_valid C), lookup_at_key; [apply Hu|done]. Qed.

(** A filter tells an entry from a key only if the entry has another user key. *)
Lemma ruled_out_user es u s e : internal_sorted C es -> key_ok C u -> 0 <= s <= kMaxSequenceNumber ->
  es !! stop C u s es = Some e -> ruled_out options (lookup_at u s) [entry_pair e] -> before C u (e_key e) = true.
Proof.
  intros Hes Hu Hs He (p & Ep & Hall). pose proof (UserView.entry_at C _ Hes _ e He) as Hok.
  pose proof (entry_stop C u s es _ e Hes (proj1 Hu) Hs He) as Hb. rewrite Nat.ltb_irrefl in Hb.
  rewrite (before_lookup C) in Hb by (done || apply Hu). apply orb_false_iff in Hb as [Hb _].
  destruct (Hall (entry_pair e)) as (f & Hf & H1 & H2); [by left|].
  cbn [filter_policy table_options_of] in Ep. destruct policy as [q|] eqn:Eq; [|done].
  assert (p = InternalFilterPolicy q) as -> by (cbn in Ep; congruence).
  unfold lookup_at in H2. cbn [KeyMayMatch InternalFilterPolicy entry_pair fst] in H1, H2.
  rewrite ExtractUserKey_internal in H1, H2. cbn [mbind option_bind] in H1, H2.
  destruct (compare_tests C (e_key e) u (proj1 (proj1 Hok)) (proj1 Hu)) as (r & Er & Hr1 & <-). rewrite Hb in Hr1.
  apply Z.ltb_ge in Hr1. apply Z.ltb_lt. destruct (decide (r = 0)) as [->|]; [|lia].
  pose proof (tf_same (TableFilter := Hpolicy q eq_refl) (e_key e) u f (proj1 (proj1 Hok)) (proj1 Hu) Er Hf H1). congruence.
Qed.

Lemma TableCache_Get_ok o m u s n st opened : sizes (fnumber m) = Some (file_size m) -> internal_sorted C (tables (fnumber m)) ->
  key_ok C u -> 0 <= s <= kMaxSequenceNumber -> in_order live_tables (S n) st opened ->
  exists saved st' opened', TableCache_Get options dbname_ o (fnumber m) (file_size m) (lookup_at u s) st = Ok (Status_OK, saved) st' /\
    in_order live_tables n st' opened' /\
    match tables (fnumber m) !! stop C u s (tables (fnumber m)) with
    | Some e => saved = Some (entry_pair e) \/ (saved = None /\ before C u (e_key e) = true)
    | None => saved = None
    end.
Proof.
  intros Hsize Hes Hu Hs HI. pose proof (lookup_valid u s Hu Hs) as Hk.
  destruct (FindTable_ok n st opened _ _ HI Hsize) as (h & st1 & opened1 & x & Ef & Hx & Hnum & HI1).
  unfold TableCache_Get. rewrite (bind_ok _ _ _ _ _ Ef). cbn [ok state_ Status_OK or_ub]. rewrite bind_ret.
  pose proof (cache_value_ok h (ot_table x) _ _ _ (io_tables _ _ _ _ HI1) ltac:(by left)) as Ev.
  erewrite bind_ok by (unfold on_tables, zoom; rewrite Ev; reflexivity).
  assert (mk_table_cache (tables_ st1) (blocks_ st1) (tc_env st1) = st1) as -> by (by destruct st1).
  destruct (get_opened _ n st1 opened1 x o _ HI1 Hx Hk) as (saved & st2 & Eg & HI2 & Hsome & Hmissed).
  rewrite (bind_ok _ _ _ _ _ Eg). pose proof HI2 as [Hf2 Ho2 Ht2 Hb2].
  destruct (cache_release_ok h (ot_table x) _ _ _ Ht2) as (y & Ey & Hy).
  erewrite bind_ok by (unfold on_tables, zoom; rewrite Ey; reflexivity).
  exists saved. eexists. exists opened1. split; [reflexivity|]. split; [by split|]. rewrite Hnum in Hsome, Hmissed.
  unfold stop, kvs_of in *. rewrite list_lookup_fmap in Hsome, Hmissed.
  destruct (tables (fnumber m) !! keys_before icmp (lookup_at u s) (entry_pair <$> tables (fnumber m))) as [e|] eqn:Ee.
  - destruct saved as [kv|]; [left; symmetry; by rewrite <- (Hsome kv)|]. right. split; [done|].
    destruct (Hmissed (entry_pair e) eq_refl eq_refl) as [(start & sep & Hstart & Esep & Hb & Hnb)|Hout]; [|by eapply ruled_out_user].
    pose proof (UserView.entry_at C _ Hes _ e Ee) as He.
    rewrite <- (ukey_entry e). apply (separated_user C start (entry_key e) sep u (256 * s + kValueTypeForSeek)); try done.
    + by apply (file_key_valid C), entry_file_key.
    + apply Hu.
    + unfold kMaxSequenceNumber, kValueTypeForSeek, kTypeValue in *. lia.
  - destruct saved as [kv|]; [|done]. by specialize (Hsome kv eq_refl).
Qed.

(** C18: A lookup through the table cache keeps its contract.  If the files of the tables
    hold what builders have written, with or without a lawful filter policy, and the
    two caches hold nothing but these tables and their blocks, then a lookup of a user key at a sequence number ends with the
    status OK, whether or not the table was in the cache; the callback gets the entry of
    the table at which a search for the key stops, and that may fail only if the entry
    belongs to a larger user key; the caches stay in order, with all handles given back. *)
Theorem table_cache_get o m u s n st opened : sizes (fnumber m) = Some (file_size m) -> internal_sorted C (tables (fnumber m)) ->
  key_ok C u -> 0 <= s <= kMaxSequenceNumber -> in_order live_tables (S n) st opened ->
  exists saved st' opened', TableCache_Get options dbname_ o (fnumber m) (file_size m) (lookup_at u s) st = Ok (Status_OK, saved) st' /\
    in_order live_tables n st' opened' /\
    match tables (fnumber m) !! stop C u s (tables (fnumber m)) with
    | Some e => saved = Some (entry_pair e) \/ (saved = None /\ before C u (e_key e) = true)
    | None => saved = None
    end.
Proof. apply TableCache_Get_ok. Qed.

Lemma in_order_start n st : (forall k size, sizes k = Some size -> 0 <= k < 2 ^ 64 /\ stored_table (tc_env st) k size) ->
  cache_inv (tables_ st) live_tables (fun _ _ => False) ->
  match blocks_ st with
  | Some x => cache_inv x live_blocks (fun _ _ => False) /\ 0 <= cache_last x /\ cache_last x + Z.of_nat n < 2 ^ 64
  | None => True
  end -> in_order live_tables n st [].
Proof.
  intros Hf Ht Hb. split; [done|constructor| |].
  - by eapply cache_inv_mono, Ht.
  - unfold blocks_in_order. destruct (blocks_ st) as [c|]; [|done]. destruct Hb as (Hb & Hl & Hn).
    split; [by eapply cache_inv_mono, Hb|]. split; [done|]. split; [done|]. split; constructor.
Qed.

(** The contract of [TableCacheLaws] holds. *)
#[local] Instance cache_of_tables : TableCacheOps TC _ (Table R) := TableCache_ops options dbname_.

Program Definition cached_tables_laws : TableCacheLaws TC _ (Table R) C := {|
  tc_serves m es := sizes (fnumber m) = Some (file_size m) /\ es = tables (fnumber m);
  tc_inv n st := exists opened, in_order live_tables n st opened
|}.
Next Obligation. intros m n st Hle (opened & HI). exists opened. by eapply in_order_le. Qed.
Next Obligation.
  intros o m es u s n st [Hsize ->] Hes Hu Hs (opened & HI).
  destruct (TableCache_Get_ok o m u s n st opened Hsize Hes Hu Hs HI) as (saved & st' & opened' & Eo & HI' & Hres).
  exists saved, st'. split; [done|]. split; [by exists opened'|done].
Qed.

End tables.

(** ** Tables in memory *)

(** What a builder writes for the entries, and the size. *)
Definition table_contents {PL : Platform} {PM : Placement} {SN : Snappy} (o : Options) (kvs : list (Slice * Slice)) : option (Slice * Z) :=
  r ← new_TableBuilder (F := Slice * MemoryFiles) o ([], ∅);
  match bind (add_all_entries kvs) (fun _ => TableBuilder_Finish) r with
  | Ok _ r => Some (contents (file r), offset r)
  | _ => None
  end.

Section written.
Context {PL : Platform} {PM : Placement} {SN : Snappy} {SL : SnappyLaws}.
Context (C : Comparator) {L : ComparatorLaws C} {SK : ShortKeys C}.
Context (address : Z) (paranoid : bool) (bsize interval : Z) (comp : CompressionType) (policy : option FilterPolicy) (dbname_ : Slice).
Context (Hinterval : 1 <= interval) (Hpolicy : forall p, policy = Some p -> TableFilter p C).
Context (tables : Z -> list Entry).

Abbreviation o := (table_options_of C address paranoid bsize interval comp policy).

Lemma written_table (e : MemoryFiles) n fname c size : TableFileName dbname_ n = Some fname ->
  table_entries o (kvs_of tables n) -> table_contents o (kvs_of tables n) = Some (c, size) -> e !! fname = Some c ->
  stored_table (F := Slice * MemoryFiles) C address paranoid bsize interval comp policy dbname_ tables e n size.
Proof.
  intros Hn Hk Hc He.
  assert (contents (([], ∅) : Slice * MemoryFiles) = []) as H0 by (cbn; by rewrite lookup_empty).
  destruct (table_built (G := Slice) o (OF := table_options_filter C address paranoid bsize interval comp policy Hpolicy) Hinterval (kvs_of tables n) (([], ∅) : Slice * MemoryFiles) Hk H0)
    as (r & r' & done & E1 & E2 & Hfin).
  unfold table_contents in Hc. rewrite E1 in Hc. cbn [mbind option_bind] in Hc. rewrite E2 in Hc. injection Hc as <- <-.
  by exists fname, r', done.
Qed.

(** Entries in the order of their internal keys make a table, if they are not too large. *)
Lemma sorted_table_entries n : internal_sorted C (tables n) -> entries_size (kvs_of tables n) < 2 ^ 28 ->
  table_entries o (kvs_of tables n).
Proof.
  intros [Hok [_ Hs]] Hsize. rewrite Forall_forall in Hok. split; [|split; [|split; [|done]]].
  - apply StronglySorted_by_index. exact Hs.
  - apply Forall_forall. intros kv (e & -> & He)%list_elem_of_fmap. by apply (file_key_valid C), entry_file_key, Hok.
  - apply Forall_forall. intros kv (e & -> & He)%list_elem_of_fmap. by apply Hok.
Qed.

End written.

(** ** A table in a file *)

#[local] Instance read_platform : Platform := {| size_bits := 64; size_bits_cases := or_intror eq_refl |}.
#[local] Program Instance read_placement : Placement := {| placed _ := 4096 |}.
Next Obligation. intros s Hs. unfold addressable. cbn. lia. Qed.
#[local] Instance plain_snappy : Snappy := {|
  Snappy_Compress _ := None; Snappy_GetUncompressedLength _ := None; Snappy_Uncompress _ := None
|}.
#[local] Program Instance plain_snappy_laws : SnappyLaws.
Next Obligation. done. Qed.
#[local] Instance read_tables_laws : CacheLaws (ShardedLRUCache (Table Slice)) nat (Table Slice) := Sharded_laws 1000 1.
#[local] Instance read_blocks_laws : CacheLaws (ShardedLRUCache Block) nat Block := Sharded_laws 1000 (2 ^ 28 + 8).

Lemma old_policy p : Some (BloomPolicy ten_bits) = Some p -> TableFilter p BytewiseComparator.
Proof. intros E. assert (p = BloomPolicy ten_bits) as -> by congruence. by apply BloomTableFilter. Qed.

Definition old_options : Options := table_options_of BytewiseComparator 0 true 4096 16 kNoCompression (Some (BloomPolicy ten_bits)).

(** File 5 has [b] with 2 and [c] with 3. *)
Definition old_entries : list Entry := [mk_entry 2 kTypeValue [98] [1]; mk_entry 3 kTypeValue [99] [7]].
Definition old_tables (n : Z) : list Entry := if n =? 5 then old_entries else [].
Definition old_table : Slice * Z := default ([], 0) (table_contents old_options (kvs_of old_tables 5)).
Definition old_sizes (n : Z) : option Z := if n =? 5 then Some old_table.2 else None.
Definition old_files : MemoryFiles := {[c_string "db/000005.ldb" := old_table.1]}.

Lemma old_entries_table : table_entries (old_options) (kvs_of old_tables 5).
Proof. apply sorted_table_entries; [apply sortedb_ok; by vm_compute|by vm_compute]. Qed.

Lemma new_caches : exists x b, NewLRUCache 990 = Some x /\ NewLRUCache 8388608 = Some b /\
  cache_inv (V := Table Slice) x [] (fun _ _ => False) /\ cache_inv (V := Block) b [] (fun _ _ => False) /\ last_id_ b = 0.
Proof.
  destruct (NewLRUCache_ok (V := Table Slice) 1000 1 990) as (x & E & Hcs & Hnone & _); [by vm_compute|].
  destruct (NewLRUCache_ok (V := Block) 1000 (2 ^ 28 + 8) 8388608) as (b & E2 & Hcs2 & Hnone2 & _); [by vm_compute|].
  exists x, b. split; [done|]. split; [done|]. split; [|split].
  - split; [done|]. split; [done|]. split; [by intros e v ?%not_elem_of_nil|]. intros e k v. unfold kv. by rewrite Hnone.
  - split; [done|]. split; [done|]. split; [by intros e v ?%not_elem_of_nil|]. intros e k v. unfold kv. by rewrite Hnone2.
  - unfold NewLRUCache in E2. destruct new_LRUCache; [|done]. by injection E2 as <-.
Qed.

Lemma old_table_stored : stored_table (F := Slice * MemoryFiles) BytewiseComparator 0 true 4096 16 kNoCompression (Some (BloomPolicy ten_bits)) (c_string "db") old_tables
  old_files 5 old_table.2.
Proof.
  apply (written_table BytewiseComparator 0 true 4096 16 kNoCompression (Some (BloomPolicy ten_bits)) (c_string "db") ltac:(done) old_policy old_tables old_files 5
    (c_string "db/000005.ldb") old_table.1 old_table.2).
  - by vm_compute.
  - exact old_entries_table.
  - by vm_compute.
  - by vm_compute.
Qed.

Abbreviation old_in_order :=
  (in_order (F := Slice * MemoryFiles) BytewiseComparator 0 true 4096 16 kNoCompression (Some (BloomPolicy ten_bits)) (c_string "db") old_tables old_sizes []).

Lemma old_tables_in_order x b n : cache_inv (V := Table Slice) x [] (fun _ _ => False) ->
  cache_inv (V := Block) b [] (fun _ _ => False) -> last_id_ b = 0 -> Z.of_nat n < 2 ^ 64 ->
  old_in_order [] n (mk_table_cache x (Some b) old_files) [].
Proof.
  intros Hx Hb Hid Hn. apply in_order_start.
  - intros k size. unfold old_sizes. destruct (Z.eqb_spec k 5) as [->|]; [|done]. intros <-%(inj Some).
    split; [done|exact old_table_stored].
  - exact Hx.
  - cbn [blocks_]. split; [exact Hb|]. cbn [cache_last Sharded_ids]. rewrite Hid. by split.
Qed.

Lemma table_cache_get_witness : exists x b, NewLRUCache 990 = Some x /\ NewLRUCache 8388608 = Some b /\
  exists saved st' opened', TableCache_Get old_options (c_string "db") new_ReadOptions 5 old_table.2 (lookup_at [98] 9)
      (mk_table_cache x (Some b) old_files) = Ok (Status_OK, saved) st' /\
    old_in_order [] 1000 st' opened' /\
    match old_tables 5 !! stop BytewiseComparator [98] 9 (old_tables 5) with
    | Some e => saved = Some (entry_pair e) \/ (saved = None /\ before BytewiseComparator [98] (e_key e) = true)
    | None => saved = None
    end.
Proof.
  destruct new_caches as (x & b & Ex & Eb & Hx & Hb & Hid). exists x, b. split; [done|]. split; [done|].
  apply (table_cache_get (F := Slice * MemoryFiles) (W := Slice) (G := Slice) (CTL := read_tables_laws) (CBL := read_blocks_laws) BytewiseComparator 0 true 4096 16 kNoCompression (Some (BloomPolicy ten_bits)) (c_string "db") old_policy
    old_tables old_sizes [] [] ltac:(by vm_compute) ltac:(by vm_compute) ltac:(by vm_compute) ltac:(by vm_compute)
    new_ReadOptions (mk_file 1 100 5 old_table.2 [] []) [98] 9 1000 _ []).
  - by vm_compute.
  - apply sortedb_ok. by vm_compute.
  - repeat constructor; done.
  - done.
  - by apply old_tables_in_order.
Defined.
