(* ===== verification/DbRead.v ===== *)
(** * Reading from the database

    A read looks into the memtables and then into the files of the version, and finds
    the newest entry. *)

From Stdlib Require Import ZArith Lia String.
From stdpp Require Import base option list strings sorting gmap.
From S2P Require Import Prelude Memory Slice Coding DbFormat Crc32c Status Iterator Bloom FilterBlock Block Format Env LRU Table WriteBatch MemTable MemTheorems.
From S2P Require Import TableTheorems TableBuild LRUProof LRUTheorems TableFile VersionEdit LevelFiles LevelFilesProof Version VersionSet TableCache.
From S2P Require Import VersionRead TableCacheProof Snapshot DbImpl.

Section reading.
Context {PL : Platform} {PM : Placement} {SN : Snappy} {E W G R X H Y J : Type}.
Context {FS : FileSystem E W G R} {RA : RandomAccessFile R} {CA : Cache X H Block} {CT : Cache Y J (Table R)}.
Context (C : Comparator) {L : ComparatorLaws C} (options : DbOptions) (dbname_ : Slice).

Abbreviation DB := (DBImpl E W X Y).
#[local] Instance table_ops : TableCacheOps (TableCache Y X E) _ (Table R) := TableCache_ops (table_options options) dbname_.
Context {TL : TableCacheLaws (TableCache Y X E) _ (Table R) C}.

(** The state of the table cache of the database. *)
Definition db_cache (s : DB) : TableCache Y X E := mk_table_cache (table_cache_ s) (block_cache_ s) (db_env s).

Lemma on_memtable_get p m k value st r (s : DB) : mems s !! p = Some m -> MemTable.Get C k value st m = Ok r m ->
  on_memtable p (MemTable.Get C k value st) s = Ok r s.
Proof.
  intros Hm Hr. unfold on_memtable. rewrite bind_gets, Hm, (bind_or_ub _ m) by done. unfold zoom. rewrite Hr. f_equal.
  destruct s. cbn in *. unfold set_mems. cbn. f_equal. by apply insert_id.
Qed.

(** The entries of a memtable that may not be there. *)
Definition imm_holds (s : DB) (imm : option nat) (es : list Entry) : Prop :=
  match imm with Some p => exists m, mems s !! p = Some m /\ mem_holds C m es | None => es = [] end.

(** For the same key, the entries of the first list are the newer ones. *)
Definition newer_entries (es es' : list Entry) : Prop :=
  forall e e' u s, e ∈ es -> e' ∈ es' -> visible C u s e = true -> visible C u s e' = true -> e_seq e' <= e_seq e.

Lemma newest_is_newest u s es : is_newest C u s es (newest C u s es).
Proof. pose proof (newest_spec C u s es) as Hs. by destruct (newest C u s es). Qed.

Lemma first_newest u s es es' e : is_newest C u s es (Some e) -> newer_entries es es' -> is_newest C u s (es ++ es') (Some e).
Proof.
  intros He Hn. apply (is_newest_app C (fun _ => [])); [done|]. destruct He as (Hin & Hv & _). intros e' He' Hv'. by apply (Hn e e' u s).
Qed.

(** C13: Get finds the newest entry: with a sequence number, the read looks into the
    memtable, the memtable that is being compacted and the files of the version, and
    what it gives is the value of the newest entry of all of them that is not newer than
    the number, or that there is none or a deletion - if what comes first is newer.  It
    changes neither the memtables nor the version, and reads can follow.  In the example
    the files are read through the caches of tables and of blocks, and tables have
    Bloom filters. *)
Theorem db_lookup (tables : Z -> list Entry) (s : DB) (o : ReadOptions) (mem : nat) (imm : option nat) (v : nat)
    (u value : Slice) (n : Z) (k : LookupKey) (rest : nat) (m : MemTable) (es1 es2 : list Entry) (levels : list (list FilePtr)) :
  key_ok C u -> 0 <= n <= kMaxSequenceNumber -> make_LookupKey u n = Some k ->
  mems s !! mem = Some m -> mem_holds C m es1 -> imm_holds s imm es2 ->
  all_levels v (vs_versions_ (versions_ s)) = Ok levels (vs_versions_ (versions_ s)) -> version_ok C tables levels ->
  tc_inv (length (concat levels) + rest) (db_cache s) ->
  newer_entries es1 (es2 ++ concat (entries_of tables <$> concat levels)) ->
  newer_entries es2 (concat (entries_of tables <$> concat levels)) ->
  exists r st v' stats s', lookup_value C options dbname_ o mem imm v k value s = Ok (st, v', stats) s' /\
    is_newest C u n (es1 ++ es2 ++ concat (entries_of tables <$> concat levels)) r /\
    match r with
    | Some e => if e_type e =? kTypeValue then st = Status_OK /\ v' = e_value e else st = not_found_status /\ v' = value
    | None => st = not_found_status /\ v' = value
    end /\
    mems s' = mems s /\ vs_versions_ (versions_ s') = vs_versions_ (versions_ s) /\ tc_inv rest (db_cache s').
Proof.
  intros Hu Hn Hk Hm Hmem Himm Hl Hv Hinv H1 H2. unfold lookup_value.
  assert (tc_inv rest (db_cache s)) as Hinv0 by (eapply tc_inv_le, Hinv; lia).
  pose proof (newest_is_newest u n es1) as N1. pose proof (newest_is_newest u n es2) as N2.
  assert (forall r value st, get_result r value st = match r with
    | Some e => if e_type e =? kTypeValue then (true, e_value e, st) else (true, value, not_found_status)
    | None => (false, value, st) end) as Hres by done.
  rewrite (bind_ok _ _ _ _ _ (on_memtable_get mem m k value Status_OK _ s Hm (Get_newest C u n Hu Hn m es1 k value Status_OK Hmem Hk))).
  destruct (newest C u n es1) as [e|].
  { rewrite Hres. exists (Some e).
    assert (is_newest C u n (es1 ++ es2 ++ concat (entries_of tables <$> concat levels)) (Some e)) as Hnew by (by apply first_newest).
    destruct (e_type e =? kTypeValue).
    - exists Status_OK, (e_value e), None, s. rewrite bind_ret. by split_and!.
    - exists not_found_status, value, None, s. rewrite bind_ret. by split_and!. }
  rewrite Hres.
  assert ((match imm with
    | Some p => on_memtable p (MemTable.Get C k value Status_OK)
    | None => ret (false, value, Status_OK)
    end) s = Ok (get_result (newest C u n es2) value Status_OK) s) as E2.
  { destruct imm as [p|]; cbn [imm_holds] in Himm; [|by rewrite Himm].
    destruct Himm as (m2 & Hm2 & Hmem2). by apply (on_memtable_get p m2), (Get_newest C u n Hu Hn). }
  rewrite (bind_ok _ _ _ _ _ E2), Hres. destruct (newest C u n es2) as [e|].
  { exists (Some e).
    assert (is_newest C u n (es1 ++ es2 ++ concat (entries_of tables <$> concat levels)) (Some e)) as Hnew
      by (by apply is_newest_skip, first_newest).
    destruct (e_type e =? kTypeValue).
    - exists Status_OK, (e_value e), None, s. by split_and!.
    - exists not_found_status, value, None, s. by split_and!. }
  destruct (Version_Get_newest C tables levels o u n k rest _ Hv Hu Hn Hk Hinv) as (r & stats & t & Hr & Ht & E3).
  assert (on_vers (all_levels v) s = Ok levels s) as E4.
  { unfold on_vers, on_set, on_versions, zoom. rewrite Hl. f_equal.
    by destruct s as [? ? ? ? ? ? ? ? ? ? ? ? ? ? [? ? ? ? ? ? ? ?] ? ? ? ? ?]. }
  rewrite (bind_ok _ _ _ _ _ E4). unfold on_cache at 1.
  unfold table_ops in E3. unfold cache_ops. unfold db_cache in E3. erewrite bind_ok by (unfold zoom; rewrite E3; reflexivity).
  assert (is_newest C u n (es1 ++ es2 ++ concat (entries_of tables <$> concat levels)) r) as Hnew by (by apply is_newest_skip; [|apply is_newest_skip]).
  assert (tc_inv rest (db_cache (set_caches (tables_ t) (blocks_ t) (set_db_versions (set_vs_env (tc_env t) (versions_ s)) s)))) as Hinv'
    by (by destruct t).
  destruct r as [e|]; [unfold answer; destruct (e_type e =? kTypeValue) eqn:Etype|].
  - eexists (Some e), _, _, _, _. split; [reflexivity|]. rewrite Etype. by split_and!.
  - eexists (Some e), _, _, _, _. split; [reflexivity|]. rewrite Etype. by split_and!.
  - eexists None, _, _, _, _. split; [reflexivity|]. by split_and!.
Qed.

End reading.

(** ** A database with two memtables and a file *)

#[local] Existing Instance read_platform.
#[local] Existing Instance read_placement.
#[local] Existing Instance plain_snappy.
#[local] Existing Instance plain_snappy_laws.
#[local] Existing Instance read_tables_laws.
#[local] Existing Instance read_blocks_laws.

Definition read_options : DbOptions :=
  mk_db_options old_options true false 4194304 1000.

(** The memtable that is being compacted has [a] with 7 and 9 and [b] with 8; the
    memtable has [b] with 20, and file 5 has [b] with 2 and [c] with 3. *)
Definition newer_updates : list Update := [UPut [98] [5]].

Definition newer_batch : WriteBatch :=
  default new_WriteBatch (b ← put_updates new_WriteBatch newer_updates; SetSequence b 20).

Definition newer_memtable : MemTable :=
  match InsertInto BytewiseComparator newer_batch new_MemTable with Ok _ m => m | _ => new_MemTable end.

Lemma newer_memtable_holds : mem_holds BytewiseComparator newer_memtable (numbered 20 newer_updates).
Proof.
  destruct (InsertInto_adds BytewiseComparator newer_batch 20 newer_updates new_MemTable []) as (m & E & Hm).
  - repeat split; try done; repeat constructor; done.
  - repeat constructor; done.
  - done.
  - apply mem_holds_new.
  - constructor.
  - unfold newer_memtable. by rewrite E.
Qed.

Definition old_file : FileMetaData := mk_file 1 100 5 old_table.2 (entry_key (mk_entry 2 kTypeValue [98] [1])) (entry_key (mk_entry 3 kTypeValue [99] [7])).
Definition old_levels : list (list FilePtr) := [[(0%nat, old_file)]; []; []; []; []; []; []].
Definition read_db (x : ShardedLRUCache (Table Slice)) (b : ShardedLRUCache Block) :
    DBImpl MemoryFiles Slice (ShardedLRUCache Block) (ShardedLRUCache (Table Slice)) :=
  mk_db {[0%nat := newer_memtable; 1%nat := sample_memtable]} 0 (Some 1%nat) None 8 0 ∅ [] new_WriteBatch new_SnapshotList ∅ false ∅ None
    (mk_vset (mk_versions {[0%nat := old_file]}
      {[0%nat := mk_version [[0%nat]; []; []; []; []; []; []] Dummy Dummy 1 None 0 (double_of 0) 0]} (Ver 0) (Ver 0) (Some 0%nat) [])
       old_files 10 7 100 8 0 None) Status_OK false false x (Some b).

#[local] Instance read_table_ops : TableCacheOps (TableCache (ShardedLRUCache (Table Slice)) (ShardedLRUCache Block) MemoryFiles) _ (Table Slice) :=
  TableCache_ops (W := Slice) (G := Slice) (table_options read_options) (c_string "db").

Definition read_laws : TableCacheLaws (TableCache (ShardedLRUCache (Table Slice)) (ShardedLRUCache Block) MemoryFiles) _ (Table Slice)
    BytewiseComparator :=
  cached_tables_laws (F := Slice * MemoryFiles) (CTL := read_tables_laws) (CBL := read_blocks_laws) BytewiseComparator 0 true 4096 16 kNoCompression (Some (BloomPolicy ten_bits)) (c_string "db") old_policy old_tables old_sizes
    [] [] ltac:(by vm_compute) ltac:(by vm_compute) ltac:(by vm_compute) ltac:(by vm_compute).

(** Whether the entries of the first list are newer. *)
Definition newer_entriesb (es es' : list Entry) : bool :=
  forallb (fun e => forallb (fun e' => negb (bool_decide (e_key e = e_key e')) || (e_seq e' <=? e_seq e)) es') es.

Lemma visible_key u s e : visible BytewiseComparator u s e = true -> e_key e = u.
Proof.
  unfold visible. destruct (Compare (e_key e) u) as [r|] eqn:E; [|done]. intros [Hr _]%andb_prop. apply Z.eqb_eq in Hr as ->.
  injection E as E. by apply compare_eq.
Qed.

Lemma sample_newer es es' : newer_entriesb es es' = true -> newer_entries BytewiseComparator es es'.
Proof.
  unfold newer_entriesb. rewrite forallb_forall. intros Hall e e' u s He He' Hv Hv'. apply list_elem_of_In in He, He'.
  specialize (Hall e He). rewrite forallb_forall in Hall. specialize (Hall e' He').
  apply visible_key in Hv, Hv'. subst u. rewrite bool_decide_true in Hall by done. by apply Z.leb_le.
Qed.

(** At 15 the memtables have nothing for [c], and the file has 7. *)
Lemma db_lookup_witness : exists k x b, make_LookupKey [99] 15 = Some k /\ NewLRUCache 990 = Some x /\ NewLRUCache 8388608 = Some b /\
  exists r st v' stats s', lookup_value (R := Slice) (G := Slice) BytewiseComparator read_options (c_string "db") new_ReadOptions
      0 (Some 1%nat) 0 k [] (read_db x b) = Ok (st, v', stats) s' /\
    is_newest BytewiseComparator [99] 15 (numbered 20 newer_updates ++ sample_entries ++ concat (entries_of old_tables <$> concat old_levels)) r /\
    match r with
    | Some e => if e_type e =? kTypeValue then st = Status_OK /\ v' = e_value e else st = not_found_status /\ v' = []
    | None => st = not_found_status /\ v' = []
    end /\
    mems s' = mems (read_db x b) /\ vs_versions_ (versions_ s') = vs_versions_ (versions_ (read_db x b)) /\
    tc_inv (TableCacheLaws := read_laws) 1000 (db_cache s').
Proof.
  destruct new_caches as (x & b & Ex & Eb & Hx & Hb & Hid). eexists _, x, b. split; [reflexivity|]. split; [done|]. split; [done|].
  apply (db_lookup (TL := read_laws) BytewiseComparator read_options (c_string "db") old_tables (read_db x b) new_ReadOptions 0 (Some 1%nat) 0
    [99] [] 15 _ 1000 newer_memtable (numbered 20 newer_updates) sample_entries old_levels).
  - repeat constructor; done.
  - done.
  - reflexivity.
  - done.
  - exact newer_memtable_holds.
  - exists sample_memtable. split; [done|exact sample_memtable_holds].
  - reflexivity.
  - apply version_okb_ok; [repeat constructor|by vm_compute].
  - exists []. by apply old_tables_in_order.
  - apply sample_newer; by vm_compute.
  - apply sample_newer; by vm_compute.
Defined.

(** [c] comes from the file, [b] from one memtable or the other, [a] has been deleted. *)
Definition sample_lookup (u : Slice) (n : Z) : option (bool * Slice) :=
  x ← NewLRUCache 990; b ← NewLRUCache 8388608; k ← make_LookupKey u n;
  match lookup_value (R := Slice) (G := Slice) BytewiseComparator read_options (c_string "db") new_ReadOptions
      0 (Some 1%nat) 0 k [] (read_db x b) with
  | Ok (st, v, _) _ => Some (ok st, v)
  | _ => None
  end.

Example sample_reads :
  (sample_lookup [99] 15, sample_lookup [99] 2, sample_lookup [98] 25, sample_lookup [98] 15, sample_lookup [98] 5, sample_lookup [97] 7, sample_lookup [97] 15) =
  (Some (true, [7]), Some (false, []), Some (true, [5]), Some (true, [2]), Some (true, [1]), Some (true, [1]), Some (false, [])).
Proof. vm_compute. reflexivity. Qed.
