(* ===== verification/BuilderProof.v ===== *)
(** * Versions that the builder makes

    Saving the state of a builder makes the version that has, on each level, the files
    of the base that are not deleted and those that were added, in the order of their
    smallest keys; the assertions of the code hold, and the files count the references
    of the new version. *)

From Stdlib Require Import ZArith Lia String.
From stdpp Require Import base option list strings sorting gmap.
From S2P Require Import Prelude Memory Slice Coding DbFormat Status Iterator TwoLevelProof MergeLists BlockTheorems VersionEdit LevelFiles LevelFilesProof Version.

Section order.
Context (C : Comparator) {L : ComparatorLaws C}.

Abbreviation icmp := (InternalKeyComparator C).
Abbreviation ilaws := (InternalKeyComparator_laws C).

(** The order of the files: by the smallest keys, then by the numbers. *)
Definition smaller (f g : FilePtr) : bool :=
  before icmp (smallest (meta f)) (smallest (meta g)) ||
  (negb (before icmp (smallest (meta g)) (smallest (meta f))) && (fnumber (meta f) <? fnumber (meta g))).

Abbreviation lt_file := (fun f g => smaller f g = true).

Lemma compare_keys_tests a b : file_key C a -> file_key C b ->
  exists r, compare_keys C a b = Some r /\ (r <? 0) = before icmp a b /\ (0 <? r) = before icmp b a.
Proof.
  intros Ha Hb. unfold compare_keys. rewrite !(file_key_encode C) by done. cbn [mbind option_bind].
  apply (compare_tests icmp (L := ilaws)); by apply file_key_valid.
Qed.

Lemma BySmallestKey_ok f g : file_ok C f -> file_ok C g -> BySmallestKey C f g = Some (smaller f g).
Proof.
  intros [Hf _ _] [Hg _ _]. unfold BySmallestKey, smaller.
  destruct (compare_keys_tests _ _ Hf Hg) as (r & -> & <- & <-). cbn [mbind option_bind].
  destruct (Z.eqb_spec r 0) as [->|Hr]; [done|]. destruct (Z.ltb_spec r 0), (Z.ltb_spec 0 r); try done; lia.
Qed.

Lemma smaller_trans f g h : file_ok C f -> file_ok C g -> file_ok C h ->
  smaller f g = true -> smaller g h = true -> smaller f h = true.
Proof.
  intros [Hf _ _] [Hg _ _] [Hh _ _]. unfold smaller. apply (file_key_valid C) in Hf, Hg, Hh.
  destruct (compare_tests icmp (L := ilaws) _ _ Hf Hg) as (r1 & E1 & <- & <-).
  destruct (compare_tests icmp (L := ilaws) _ _ Hg Hh) as (r2 & E2 & <- & <-).
  destruct (compare_tests icmp (L := ilaws) _ _ Hf Hh) as (r3 & E3 & <- & <-).
  rewrite !orb_true_iff, !andb_true_iff, !negb_true_iff, !Z.ltb_lt, !Z.ltb_ge. intros H1 H2.
  destruct (@compare_trans icmp ilaws _ _ _ r1 r2 Hf Hg Hh E1 E2 ltac:(lia) ltac:(lia)) as (r & E & Hle & Hlt).
  assert (r3 = r) as -> by congruence. lia.
Qed.

Lemma smaller_total f g : file_ok C f -> file_ok C g -> fnumber (meta f) <> fnumber (meta g) ->
  smaller f g = false -> smaller g f = true.
Proof.
  intros [Hf _ _] [Hg _ _] Hn. unfold smaller. apply (file_key_valid C) in Hf, Hg.
  destruct (compare_tests icmp (L := ilaws) _ _ Hf Hg) as (r & E & <- & <-).
  rewrite orb_false_iff, orb_true_iff, andb_true_iff, andb_false_iff, !negb_true_iff, !negb_false_iff, !Z.ltb_lt, !Z.ltb_ge. lia.
Qed.

(** ** Merging the files of a level *)

Lemma upper_bound_ok base x : Forall (file_ok C) base -> file_ok C x ->
  exists l1 l2, upper_bound C base x = Some (l1, l2) /\ base = l1 ++ l2 /\ Forall (fun g => smaller x g = false) l1 /\
    (forall g, head l2 = Some g -> smaller x g = true).
Proof.
  intros Hb Hx. induction Hb as [|g base Hg Hb IH]; cbn [upper_bound].
  - exists [], []. by repeat split.
  - rewrite BySmallestKey_ok by done. cbn [mbind option_bind]. destruct (smaller x g) eqn:E.
    + exists [], (g :: base). split; [done|]. split; [done|]. split; [constructor|]. by intros h [= <-].
    + destruct IH as (l1 & l2 & -> & -> & H1 & H2). exists (g :: l1), l2. cbn. split; [done|]. split; [done|]. split; [by constructor|done].
Qed.

Lemma save_level_merge b v level base added : Forall (file_ok C) base -> Forall (file_ok C) added ->
  exists fs, (forall s, save_level C b v level base added s = iter_m (MaybeAddFile C b v level) fs s) /\ fs ≡ₚ base ++ added /\
    (StronglySorted lt_file base -> StronglySorted lt_file added ->
     (forall f g, f ∈ base -> g ∈ added -> fnumber (meta f) <> fnumber (meta g)) -> StronglySorted lt_file fs).
Proof.
  intros Hb Ha. revert base Hb. induction Ha as [|a added Ha Hadd IH]; intros base Hb.
  { exists base. split; [done|]. split; [by rewrite app_nil_r|done]. }
  destruct (upper_bound_ok base a Hb Ha) as (l1 & l2 & E & -> & H1 & H2). apply Forall_app in Hb as [Hb1 Hb2].
  destruct (IH l2 Hb2) as (fs & Hfs & Hp & Hs). exists (l1 ++ a :: fs). split; [|split].
  - intros s. cbn [save_level]. rewrite (bind_or_ub _ _ _ _ E), iter_m_app. cbn [iter_m]. unfold bind at 1 3.
    destruct (iter_m _ l1 s) as [[] s1| | |]; [|done..]. unfold bind. destruct (MaybeAddFile _ _ _ _ _ s1) as [[] s2| | |]; done.
  - by rewrite Hp, <- app_assoc, Permutation_middle.
  - intros Hsb Hsa Hn. apply StronglySorted_app in Hsb as (Hcross & Hs1 & Hs2). apply StronglySorted_inv in Hsa as [Hsa Hmin].
    rewrite Forall_forall in H1, Hb1, Hb2, Hadd, Hmin.
    assert (forall f, f ∈ l1 -> lt_file f a) as Hl1.
    { intros f Hf. apply smaller_total; [done|by apply Hb1| |by apply H1]. intros Heq.
      apply (Hn f a); [apply elem_of_app; by left|by left|done]. }
    assert (forall f, f ∈ fs -> lt_file a f) as Hfs'.
    { intros f. rewrite Hp, elem_of_app. intros [Hf|Hf]; [|by apply Hmin]. destruct l2 as [|g l2]; [by apply not_elem_of_nil in Hf|].
      apply elem_of_cons in Hf as [->|Hf]; [by apply H2|]. apply StronglySorted_inv in Hs2 as [_ Hg]. rewrite Forall_forall in Hg.
      apply (smaller_trans a g f); [done|apply Hb2; by left|apply Hb2; by right|by apply H2|by apply Hg]. }
    apply StronglySorted_app. split; [|split; [done|constructor]].
    + intros f g Hf [->|Hg]%elem_of_cons; [by apply Hl1|].
      apply (smaller_trans f a g); [by apply Hb1|done| |by apply Hl1|by apply Hfs'].
      rewrite Hp, elem_of_app in Hg. destruct Hg; [by apply Hb2|by apply Hadd].
    + apply Hs; [done|done|]. intros f g Hf Hg. apply Hn; [apply elem_of_app; by right|by right].
    + by apply Forall_forall.
Qed.

End order.

(** ** Adding files to a version *)

Definition occurrences (p : nat) (ps : list nat) : Z := Z.of_nat (count_occ Nat.eq_dec ps p).

Lemma occurrences_app p ps qs : occurrences p (ps ++ qs) = occurrences p ps + occurrences p qs.
Proof. unfold occurrences. rewrite count_occ_app. lia. Qed.

(** The pointer leads to the file, with some number of references. *)
Definition stored (s : Versions) (f : FilePtr) : Prop := exists n, vs_files s !! f.1 = Some (set_file_refs n f.2).

(** What a file pointer is when it is loaded. *)
Definition reload (s : Versions) (f : FilePtr) : FilePtr := (f.1, default f.2 (vs_files s !! f.1)).

Lemma reload_stored s f : stored s f -> exists n, reload s f = (f.1, set_file_refs n f.2).
Proof. intros [n E]. exists n. unfold reload. by rewrite E. Qed.

Lemma load_files_stored s fs : Forall (stored s) fs -> load_files (fs.*1) s = Ok (reload s <$> fs) s.
Proof.
  induction 1 as [|f fs [n E] _ IH]; [done|]. unfold load_files in *. cbn [fmap list_fmap map_m]. unfold load_file in *.
  rewrite !bind_assoc, bind_gets, E. cbn [or_ub]. rewrite !bind_ret, (bind_ok _ _ _ _ _ IH). unfold reload at 2. by rewrite E.
Qed.

(** [files_added s s' v pss]: the files [pss] of the levels are appended to those of the
    version, and count the references. *)
Record files_added (s s' : Versions) (v : nat) (level : Z) (ps : list nat) : Prop := mk_files_added {
  fa_files p : vs_files s' !! p = (fun f => set_file_refs (refs f + occurrences p ps) f) <$> vs_files s !! p;
  fa_version : exists x qs, vs_versions s !! v = Some x /\ at_level level (files_ x) = Some qs /\
    vs_versions s' = <[v := set_v_files (insert_level level (qs ++ ps) (files_ x)) x]> (vs_versions s);
  fa_rest : dummy_next s' = dummy_next s /\ dummy_prev s' = dummy_prev s /\ current_ s' = current_ s /\
            compact_pointer_ s' = compact_pointer_ s
}.

Lemma set_file_refs_same f : set_file_refs (refs f + 0) f = f.
Proof. destruct f. unfold set_file_refs. cbn. f_equal. lia. Qed.

Lemma at_level_set {A} level (l : list A) x y : at_level level l = Some x ->
  at_level level (insert_level level y l) = Some y /\ insert_level level x l = l /\
  (forall z, insert_level level z (insert_level level y l) = insert_level level z l) /\
  (forall level' , 0 <= level' -> level' <> level -> at_level level' (insert_level level y l) = at_level level' l).
Proof.
  unfold at_level, insert_level. destruct (Z.leb_spec 0 level) as [Hl|]; [|done]. intros E. split; [|split; [|split]].
  - apply list_lookup_insert_eq. by apply lookup_lt_Some in E.
  - by apply list_insert_id.
  - intros z. apply list_insert_insert_eq.
  - intros level' Hl' Hne. destruct (Z.leb_spec 0 level'); [|lia]. apply list_lookup_insert_ne. lia.
Qed.

Lemma files_added_refl s v x level qs : vs_versions s !! v = Some x -> at_level level (files_ x) = Some qs -> files_added s s v level [].
Proof.
  intros Hv Hl. split; [| |done].
  - intros p. change (occurrences p []) with 0. destruct (vs_files s !! p) as [f|]; [|done]. cbn. by rewrite set_file_refs_same.
  - exists x, qs. split; [done|]. split; [done|]. rewrite app_nil_r. destruct (at_level_set level (files_ x) qs [] Hl) as (_ & -> & _).
    rewrite insert_id; [done|]. rewrite Hv. by destruct x.
Qed.

Lemma files_added_trans s s1 s2 v level ps qs : files_added s s1 v level ps -> files_added s1 s2 v level qs -> files_added s s2 v level (ps ++ qs).
Proof.
  intros [Hf1 (x & l & Hx & Hl & E1) (R1 & R2 & R3 & R4)] [Hf2 (x1 & l1 & Hx1 & Hl1 & E2) (Q1 & Q2 & Q3 & Q4)].
  rewrite E1, lookup_insert_eq in Hx1. injection Hx1 as <-. cbn [files_ set_v_files] in *.
  destruct (at_level_set level (files_ x) l (l ++ ps) Hl) as (E & _ & Eins & _). rewrite E in Hl1. injection Hl1 as <-. split.
  - intros p. rewrite Hf2, Hf1. destruct (vs_files s !! p) as [f|]; [|done]. cbn. rewrite occurrences_app. unfold set_file_refs. cbn.
    do 2 f_equal. lia.
  - exists x, l. split; [done|]. split; [done|]. rewrite E2, E1, insert_insert_eq, Eins, app_assoc. by destruct x.
  - by rewrite Q1, Q2, Q3, Q4.
Qed.

Lemma files_added_stored s s' v level ps f : files_added s s' v level ps -> stored s f -> stored s' f.
Proof. intros H [n E]. unfold stored. rewrite (fa_files _ _ _ _ _ H), E. cbn. by eexists. Qed.

Section add.
Context (C : Comparator) {L : ComparatorLaws C}.

Abbreviation icmp := (InternalKeyComparator C).
Abbreviation lt_file := (fun f g => smaller C f g = true).

(** The files that are not deleted. *)
Definition kept (ls : LevelState) (fs : list FilePtr) : list FilePtr := filter (fun f => fnumber (meta f) ∉ b_deleted ls) fs.

Lemma MaybeAddFile_ok b v level ls f s x front : at_level level (b_levels b) = Some ls -> vs_versions s !! v = Some x ->
  at_level level (files_ x) = Some (front.*1) -> Forall (stored s) front -> stored s f -> Forall (file_ok C) front -> file_ok C f ->
  (0 < level -> fnumber (meta f) ∉ b_deleted ls -> forall g, last front = Some g -> before icmp (largest (meta g)) (smallest (meta f)) = true) ->
  exists s', MaybeAddFile C b v level f s = Ok tt s' /\ files_added s s' v level ((kept ls [f]).*1).
Proof.
  intros Hls Hx Hl Hfront Hf Hok Hokf Hbefore. unfold MaybeAddFile, kept. rewrite (bind_or_ub _ ls) by done.
  rewrite filter_cons, filter_nil. destruct (decide (fnumber (meta f) ∈ b_deleted ls)) as [Hd|Hd].
  { rewrite bool_decide_true, decide_False by (done || by intros []). exists s. split; [done|]. by eapply files_added_refl. }
  rewrite bool_decide_false, decide_True by done. unfold load_version at 1.
  rewrite !bind_assoc, bind_gets, Hx. cbn [or_ub]. rewrite bind_ret, (bind_or_ub _ _ _ _ Hl).
  assert ((if 0 <? level then
       match last (front.*1) with
       | Some p =>
           let! prev := load_file p in
           let! r := or_ub (compare_keys C (largest prev) (smallest (meta f))) in
           assert_ (r <? 0)
       | None => ret tt
       end
     else ret tt) s = Ok tt s) as Hchk.
  { destruct (Z.ltb_spec 0 level) as [Hpos|]; [|done]. rewrite fmap_last. destruct (last front) as [g|] eqn:Hg; [|done]. cbn [fmap option_fmap option_map].
    apply last_Some_elem_of in Hg as Hin. rewrite Forall_forall in Hfront, Hok. destruct (Hfront g Hin) as [n En].
    unfold load_file. rewrite bind_assoc, bind_gets, En. cbn [or_ub]. rewrite bind_ret. cbn [largest set_file_refs].
    destruct (compare_keys_tests C (largest (meta g)) (smallest (meta f))) as (r & Er & Hr & _); [by apply Hok|by apply Hokf|].
    pose proof (Hbefore Hpos Hd g eq_refl) as Hb. unfold meta in *. rewrite Er. cbn [or_ub]. by rewrite bind_ret, Hr, Hb. }
  rewrite (bind_ok _ _ _ _ _ Hchk). destruct Hf as [n En]. unfold load_file at 1. rewrite bind_assoc, bind_gets, En. cbn [or_ub]. rewrite bind_ret.
  unfold store_file, load_file. rewrite !bind_assoc, bind_gets, En. cbn [or_ub]. rewrite bind_ret, bind_modify.
  unfold update_version, load_version. rewrite bind_assoc, bind_gets. cbn [vs_versions set_files]. rewrite Hx. cbn [or_ub]. rewrite bind_ret.
  eexists. split; [reflexivity|]. split; [| |done].
  - intros p. cbn [vs_files set_versions set_files fmap list_fmap]. unfold occurrences. cbn [count_occ].
    destruct (Nat.eq_dec f.1 p) as [<-|Hne].
    + rewrite lookup_insert_eq, En. done.
    + rewrite lookup_insert_ne by done. destruct (vs_files s !! p) as [g|]; [|done]. cbn. by rewrite set_file_refs_same.
  - by exists x, (front.*1).
Qed.

Lemma MaybeAddFile_all b v level ls fs s x front : at_level level (b_levels b) = Some ls -> vs_versions s !! v = Some x ->
  at_level level (files_ x) = Some (front.*1) -> Forall (stored s) (front ++ fs) -> Forall (file_ok C) (front ++ fs) ->
  (0 < level -> disjoint_files C (front ++ kept ls fs)) ->
  exists s', iter_m (MaybeAddFile C b v level) fs s = Ok tt s' /\ files_added s s' v level ((kept ls fs).*1).
Proof.
  intros Hls. revert s x front. induction fs as [|f fs IH]; intros s x front Hx Hl Hst Hok Hdis.
  { exists s. split; [done|]. by eapply files_added_refl. }
  change (f :: fs) with ([f] ++ fs) in Hst, Hok, Hdis |- *. unfold kept in Hdis |- *. rewrite filter_app in Hdis |- *.
  fold (kept ls [f]) in Hdis |- *. fold (kept ls fs) in Hdis |- *. rewrite app_assoc in Hst, Hok. rewrite app_assoc in Hdis.
  pose proof Hst as [[Hst1 Hst2%Forall_inv]%Forall_app Hst3]%Forall_app. pose proof Hok as [[Hok1 Hok2%Forall_inv]%Forall_app Hok3]%Forall_app.
  assert (Forall (fun g => g ∈ front ++ [f]) (front ++ kept ls [f])) as Hsub.
  { apply Forall_forall. intros g. rewrite !elem_of_app. intros [?|Hg]; [by left|]. right.
    by apply list_elem_of_filter in Hg as [_ Hg]. }
  destruct (MaybeAddFile_ok b v level ls f s x front) as (s1 & E1 & H1); try done.
  { intros Hpos Hd g Hg. destruct (Hdis Hpos) as [_ Hlt]. rewrite last_lookup in Hg.
    apply (Hlt (pred (length front)) (length front) g f); [| |apply lookup_lt_Some in Hg; lia].
    - rewrite <- app_assoc, lookup_app_l; [done|]. by apply lookup_lt_Some in Hg.
    - unfold kept at 1. rewrite filter_cons, decide_True, filter_nil by (by apply Hd). rewrite <- app_assoc. by apply list_lookup_middle. }
  destruct (fa_version _ _ _ _ _ H1) as (x' & qs & Hx' & Hqs & Ev). assert (x' = x) as -> by congruence.
  assert (qs = front.*1) as -> by congruence. destruct (at_level_set level (files_ x) _ (front.*1 ++ (kept ls [f]).*1) Hl) as (El & _).
  destruct (IH s1 (set_v_files (insert_level level (front.*1 ++ (kept ls [f]).*1) (files_ x)) x) (front ++ kept ls [f])) as (s2 & E2 & H2).
  - by rewrite Ev, lookup_insert_eq.
  - cbn [files_ set_v_files]. by rewrite El, fmap_app.
  - apply Forall_app. split; [|by eapply Forall_impl; [exact Hst3|]; intros g; apply files_added_stored with (1 := H1)].
    rewrite Forall_forall in Hsub |- *. intros g Hg. apply (files_added_stored _ _ _ _ _ _ H1).
    apply Forall_app in Hst as [Hst _]. rewrite Forall_forall in Hst. by apply Hst, Hsub.
  - apply Forall_app. split; [|done]. rewrite Forall_forall in Hsub |- *. intros g Hg.
    apply Forall_app in Hok as [Hok _]. rewrite Forall_forall in Hok. by apply Hok, Hsub.
  - done.
  - exists s2. cbn [iter_m app]. rewrite (bind_ok _ _ _ _ _ E1). split; [done|]. rewrite fmap_app. by eapply files_added_trans.
Qed.

(** ** One level *)

Lemma StronglySorted_filter {A} (R : A -> A -> Prop) (P : A -> Prop) `{!forall x, Decision (P x)} l :
  StronglySorted R l -> StronglySorted R (filter P l).
Proof.
  induction 1 as [|x l _ IH Hx]; [constructor|]. rewrite filter_cons. destruct (decide (P x)); [|done]. constructor; [done|].
  rewrite Forall_forall in Hx |- *. intros y [_ Hy]%list_elem_of_filter. by apply Hx.
Qed.

(** Different files do not overlap: the range of the smaller is before the other. *)
Definition apart (fs : list FilePtr) : Prop :=
  forall f g, f ∈ fs -> g ∈ fs -> smaller C f g = true -> before icmp (largest (meta f)) (smallest (meta g)) = true.

Lemma sorted_disjoint fs : Forall (file_ok C) fs -> StronglySorted lt_file fs -> apart fs -> disjoint_files C fs.
Proof.
  intros Hok Hs Ha. split; [done|]. intros i j f g Hi Hj Hij. apply Ha; [by eapply list_elem_of_lookup_2..|].
  by apply (StronglySorted_lookup lt_file fs i j).
Qed.

Lemma check_no_overlap_ok fs (s : Versions) : disjoint_files C fs -> check_no_overlap C fs s = Ok tt s.
Proof.
  intros [Hok Hd]. induction fs as [|f fs IH]; [done|]. destruct fs as [|g fs]; [done|]. cbn [check_no_overlap].
  destruct (compare_keys_tests C (largest (meta f)) (smallest (meta g))) as (r & Er & Hr & _).
  { by apply Forall_inv in Hok as [_ ? _]. } { by apply Forall_inv_tail, Forall_inv in Hok as [? _ _]. }
  rewrite (bind_or_ub _ _ _ _ Er), bind_assert.
  - apply IH; [by apply Forall_inv_tail in Hok|]. intros i j f' g' Hi Hj Hij. apply (Hd (S i) (S j)); [done..|lia].
  - rewrite (Hd 0%nat 1%nat f g eq_refl eq_refl ltac:(lia)) in Hr. apply Z.ltb_lt in Hr. destruct (Z.leb_spec 0 r); [lia|done].
Qed.

Lemma file_ok_reload s f : stored s f -> file_ok C f -> file_ok C (reload s f).
Proof. intros [n ->]%reload_stored [H1 H2 H3]. by split. Qed.

Lemma smaller_reload s f g : stored s f -> stored s g -> smaller C (reload s f) (reload s g) = smaller C f g.
Proof. intros [n ->]%reload_stored [m ->]%reload_stored. done. Qed.

Lemma sorted_reload s fs : Forall (stored s) fs -> StronglySorted lt_file fs <-> StronglySorted lt_file (reload s <$> fs).
Proof.
  intros Hst. induction Hst as [|f fs Hf Hst IH]; [done|]. cbn [fmap list_fmap]. split; intros [Hs Hmin]%StronglySorted_inv;
    (constructor; [by apply IH|]); rewrite Forall_forall in Hst, Hmin |- *.
  - intros g (h & -> & Hh)%list_elem_of_fmap. rewrite smaller_reload; [by apply Hmin|done|by apply Hst].
  - intros g Hg. rewrite <- (smaller_reload s f g Hf (Hst g Hg)). by apply Hmin, list_elem_of_fmap_2.
Qed.

Lemma kept_reload s ls fs : Forall (stored s) fs -> kept ls (reload s <$> fs) = reload s <$> kept ls fs.
Proof.
  intros Hst. unfold kept. induction Hst as [|f fs Hf Hst IH]; [done|]. cbn [fmap list_fmap]. rewrite !filter_cons, IH.
  destruct (reload_stored s f Hf) as [n E]. assert (fnumber (meta (reload s f)) = fnumber (meta f)) as -> by (by rewrite E).
  by destruct (decide _).
Qed.

Lemma disjoint_reload s fs : Forall (stored s) fs -> disjoint_files C fs -> disjoint_files C (reload s <$> fs).
Proof.
  intros Hst [Hok Hd]. rewrite Forall_forall in Hst, Hok. split.
  - apply Forall_forall. intros g (f & -> & Hf)%list_elem_of_fmap. by apply file_ok_reload; [apply Hst|apply Hok].
  - intros i j f' g' (f & -> & Hf)%list_lookup_fmap_Some (g & -> & Hg)%list_lookup_fmap_Some Hij.
    pose proof (Hd i j f g Hf Hg Hij) as H. apply list_elem_of_lookup_2 in Hf, Hg.
    destruct (reload_stored s f) as [n ->]; [by apply Hst|]. destruct (reload_stored s g) as [m ->]; [by apply Hst|]. exact H.
Qed.

(** What a level of the base and of the builder have to be. *)
Record mergeable (s : Versions) (level : Z) (ls : LevelState) (base added : list FilePtr) : Prop := mk_mergeable {
  mg_added : b_added ls = added.*1;
  mg_stored : Forall (stored s) (base ++ added);
  mg_ok : Forall (file_ok C) (base ++ added);
  mg_base : StronglySorted lt_file base;
  mg_new : StronglySorted lt_file added;
  mg_numbers f g : f ∈ base -> g ∈ added -> fnumber (meta f) <> fnumber (meta g);
  mg_apart : 0 < level -> apart (kept ls (base ++ added))
}.

(** The files of the level in the new version. *)
Record merged (level : Z) (ls : LevelState) (base added fs : list FilePtr) : Prop := mk_merged {
  me_files : fs ≡ₚ kept ls (base ++ added);
  me_sorted : StronglySorted lt_file fs;
  me_disjoint : 0 < level -> disjoint_files C fs
}.

Lemma save_to_level_ok b v level ls base added s x0 x : b_base b <> v ->
  vs_versions s !! b_base b = Some x0 -> at_level level (files_ x0) = Some (base.*1) ->
  at_level level (b_levels b) = Some ls -> mergeable s level ls base added ->
  vs_versions s !! v = Some x -> at_level level (files_ x) = Some [] ->
  exists s' fs, save_to_level C b v level s = Ok tt s' /\ merged level ls base added fs /\ files_added s s' v level (fs.*1).
Proof.
  intros Hne Hx0 Hbase Hls [Hadd Hst Hok Hsb Hsn Hnum Hapart] Hx Hl.
  apply Forall_app in Hst as Hst'. destruct Hst' as [Hst1 Hst2]. apply Forall_app in Hok as Hok'. destruct Hok' as [Hok1 Hok2].
  assert (forall l, Forall (stored s) l -> Forall (file_ok C) l -> Forall (file_ok C) (reload s <$> l)) as Hrok.
  { intros l Hs Ho. apply Forall_fmap. rewrite Forall_forall in Hs, Ho |- *. intros f Hf. by apply file_ok_reload; [apply Hs|apply Ho]. }
  destruct (save_level_merge C b v level (reload s <$> base) (reload s <$> added)) as (fs' & Eq & Hp & Hsort); [by apply Hrok..|].
  rewrite <- fmap_app in Hp. apply Permutation_map_inv in Hp as (fs & Efs & Hp). change (fs' = reload s <$> fs) in Efs. subst fs'.
  assert (Forall (stored s) fs) as Hsf by (by rewrite <- Hp).
  assert (Forall (file_ok C) fs) as Hof by (by rewrite <- Hp).
  assert (StronglySorted lt_file fs) as Hs.
  { apply (sorted_reload s fs Hsf), Hsort; [by apply sorted_reload|by apply sorted_reload|].
    intros f' g' (f & -> & Hf)%list_elem_of_fmap (g & -> & Hg)%list_elem_of_fmap. rewrite Forall_forall in Hst1, Hst2.
    destruct (reload_stored s f (Hst1 f Hf)) as [n ->]. destruct (reload_stored s g (Hst2 g Hg)) as [m ->]. exact (Hnum f g Hf Hg). }
  assert (kept ls fs ≡ₚ kept ls (base ++ added)) as Hk by (unfold kept; by rewrite Hp).
  assert (forall P, Forall P fs -> Forall P (kept ls fs)) as Hsub.
  { intros P HP. rewrite Forall_forall in HP |- *. intros f [_ Hf]%list_elem_of_filter. by apply HP. }
  assert (merged level ls base added (kept ls fs)) as Hm.
  { pose proof (StronglySorted_filter lt_file (fun f => fnumber (meta f) ∉ b_deleted ls) fs Hs) as Hs'. split; [done|exact Hs'|].
    intros Hpos. apply sorted_disjoint; [by apply Hsub|exact Hs'|]. intros f g. rewrite !Hk. by apply Hapart. }
  destruct (MaybeAddFile_all b v level ls (reload s <$> fs) s x []) as (s' & E & H'); try done.
  { cbn [app]. apply Forall_fmap. rewrite Forall_forall in Hsf |- *. intros f Hf. destruct (Hsf f Hf) as [n En].
    exists n. cbn. rewrite En. done. }
  { by apply Hrok. }
  { intros Hpos. cbn [app]. rewrite kept_reload by done. apply disjoint_reload; [by apply Hsub|by apply Hm]. }
  rewrite kept_reload in H' by done. rewrite <- list_fmap_compose in H'. change (fst ∘ reload s) with (@fst nat FileMetaData) in H'.
  exists s', (kept ls fs). split; [|done]. unfold save_to_level, level_files, load_version.
  rewrite !bind_assoc, bind_gets, Hx0. cbn [or_ub]. rewrite bind_ret, bind_assoc, (bind_or_ub _ _ _ _ Hbase).
  rewrite (bind_ok _ _ _ _ _ (load_files_stored s base Hst1)), (bind_or_ub _ _ _ _ Hls), Hadd.
  rewrite (bind_ok _ _ _ _ _ (load_files_stored s added Hst2)). erewrite bind_ok by (rewrite Eq; exact E).
  destruct (Z.ltb_spec 0 level) as [Hpos|]; [|done].
  destruct (fa_version _ _ _ _ _ H') as (x1 & qs & Hx1 & Hqs & Ev). assert (x1 = x) as -> by congruence. assert (qs = []) as -> by congruence.
  rewrite !bind_assoc, bind_gets, Ev, lookup_insert_eq. cbn [or_ub]. rewrite bind_ret, bind_assoc.
  destruct (at_level_set level (files_ x) _ ([] ++ (kept ls fs).*1) Hl) as (El & _). cbn [files_ set_v_files].
  rewrite (bind_or_ub _ _ _ _ El). cbn [app].
  assert (Forall (stored s') (kept ls fs)) as Hst'.
  { eapply Forall_impl; [apply Hsub; exact Hsf|]. intros f. by apply files_added_stored with (1 := H'). }
  rewrite (bind_ok _ _ _ _ _ (load_files_stored s' _ Hst')). apply check_no_overlap_ok, disjoint_reload; [done|by apply Hm].
Qed.

(** ** All levels *)

(** A level of the builder, with the files of the base and those that were added. *)
Record Layer := mk_layer { ly_state : LevelState; ly_base : list FilePtr; ly_added : list FilePtr }.

Definition levels_count : nat := Z.to_nat kNumLevels.

(** What the version holds of the files. *)
Definition pointers (levels : list (list FilePtr)) : list (list nat) := (fun fs : list FilePtr => fs.*1) <$> levels.

(** The first levels have been saved. *)
Record saved (s s' : Versions) (v : nat) (x : Version) (levels : list (list FilePtr)) : Prop := mk_saved {
  sa_files p : vs_files s' !! p =
    (fun f => set_file_refs (refs f + occurrences p (concat (pointers levels))) f) <$> vs_files s !! p;
  sa_version : vs_versions s' =
    <[v := set_v_files (pointers levels ++ replicate (levels_count - length levels) []) x]> (vs_versions s);
  sa_rest : dummy_next s' = dummy_next s /\ dummy_prev s' = dummy_prev s /\ current_ s' = current_ s /\
            compact_pointer_ s' = compact_pointer_ s
}.

Lemma saved_start s v x : vs_versions s !! v = Some x -> files_ x = replicate levels_count [] -> saved s s v x [].
Proof.
  intros Hx Hf. split; [| |done].
  - intros p. cbn [pointers fmap list_fmap concat]. change (occurrences p []) with 0. destruct (vs_files s !! p) as [f|]; [|done]. cbn.
    by rewrite set_file_refs_same.
  - cbn [pointers fmap list_fmap app length]. rewrite Nat.sub_0_r, <- Hf, insert_id; [done|]. rewrite Hx. by destruct x.
Qed.

Lemma saved_stored s s' v x levels f : saved s s' v x levels -> stored s f -> stored s' f.
Proof. intros H [n E]. unfold stored. rewrite (sa_files _ _ _ _ _ H), E. cbn. by eexists. Qed.

Lemma saved_empty s s' v x levels : saved s s' v x levels -> (length levels < levels_count)%nat ->
  exists x', vs_versions s' !! v = Some x' /\ at_level (Z.of_nat (length levels)) (files_ x') = Some [].
Proof.
  intros [_ E _] Hl. eexists. split; [by rewrite E, lookup_insert_eq|]. cbn [files_ set_v_files]. unfold at_level.
  rewrite (proj2 (Z.leb_le 0 _)) by lia. unfold pointers. rewrite Nat2Z.id, lookup_app_r, length_fmap, Nat.sub_diag by (rewrite length_fmap; lia).
  by apply lookup_replicate_2; lia.
Qed.

Lemma saved_next s s1 s2 v x levels fs : saved s s1 v x levels -> (length levels < levels_count)%nat ->
  files_added s1 s2 v (Z.of_nat (length levels)) (fs.*1) -> saved s s2 v x (levels ++ [fs]).
Proof.
  intros Hs Hl [Hf (x' & qs & Hx' & Hqs & E) (R1 & R2 & R3 & R4)].
  destruct (saved_empty s s1 v x levels Hs Hl) as (x2 & Hx2 & Hempty). assert (x2 = x') as -> by congruence.
  assert (qs = []) as -> by congruence. destruct Hs as [Hf1 Ev (Q1 & Q2 & Q3 & Q4)].
  rewrite Ev, lookup_insert_eq in Hx'. injection Hx' as <-. split.
  - intros p. rewrite Hf, Hf1. unfold pointers. rewrite fmap_app, concat_app. cbn [fmap list_fmap concat]. rewrite app_nil_r, occurrences_app.
    destruct (vs_files s !! p) as [f|]; [|done]. cbn. unfold set_file_refs. cbn. do 2 f_equal. lia.
  - rewrite E, Ev, insert_insert_eq. f_equal. unfold set_v_files. cbn [files_ v_next v_prev v_refs file_to_compact_ file_to_compact_level_
      compaction_score_ compaction_level_]. f_equal. unfold insert_level, pointers. rewrite Nat2Z.id, insert_app_r_alt by (rewrite length_fmap; lia).
    rewrite length_fmap, Nat.sub_diag, length_app, fmap_app, <- app_assoc. cbn [length fmap list_fmap app].
    replace (levels_count - length levels)%nat with (S (levels_count - (length levels + 1))) by lia. done.
  - by rewrite R1, R2, R3, R4.
Qed.

Section save.
Context (b : Builder) (v : nat) (s : Versions) (layers : list Layer) (x0 x : Version).
Context (Hne : b_base b <> v) (Hlen : length layers = levels_count).
Context (Hstates : b_levels b = ly_state <$> layers).
Context (Hx0 : vs_versions s !! b_base b = Some x0) (Hbase : files_ x0 = (fun y => (ly_base y).*1) <$> layers).
Context (Hx : vs_versions s !! v = Some x) (Hempty : files_ x = replicate levels_count []).
Context (Hlayers : forall i y, layers !! i = Some y -> mergeable s (Z.of_nat i) (ly_state y) (ly_base y) (ly_added y)).

Definition merged_layers (levels : list (list FilePtr)) : Prop :=
  forall i y fs, layers !! i = Some y -> levels !! i = Some fs -> merged (Z.of_nat i) (ly_state y) (ly_base y) (ly_added y) fs.

Lemma save_levels_ok k : (k <= levels_count)%nat ->
  exists s' levels, iter_m (save_to_level C b v) ((fun i => Z.of_nat i + 0) <$> seq 0 k) s = Ok tt s' /\
    length levels = k /\ merged_layers levels /\ saved s s' v x levels.
Proof.
  induction k as [|k IH]; intros Hk.
  { exists s, []. split; [done|]. split; [done|]. split; [done|]. by apply saved_start. }
  destruct (IH ltac:(lia)) as (s1 & levels & E & Hl & Hm & Hs). clear IH.
  destruct (lookup_lt_is_Some_2 layers k) as [y Hy]; [lia|].
  assert (forall A (f : Layer -> A), at_level (Z.of_nat k) (f <$> layers) = Some (f y)) as Hat.
  { intros A f. unfold at_level. rewrite (proj2 (Z.leb_le 0 _)) by lia. by rewrite Nat2Z.id, list_lookup_fmap, Hy. }
  destruct (saved_empty s s1 v x levels Hs ltac:(lia)) as (x1 & Hx1 & Hat1). rewrite Hl in Hat1.
  destruct (save_to_level_ok b v (Z.of_nat k) (ly_state y) (ly_base y) (ly_added y) s1 x0 x1 Hne) as (s2 & fs & E2 & Hmerge & Hadd).
  - by rewrite (sa_version _ _ _ _ _ Hs), lookup_insert_ne.
  - rewrite Hbase. apply Hat.
  - rewrite Hstates. apply Hat.
  - destruct (Hlayers k y Hy) as [H1 H2 H3 H4 H5 H6 H7]. split; try done. eapply Forall_impl; [exact H2|].
    intros f. by apply saved_stored with (1 := Hs).
  - done.
  - done.
  - exists s2, (levels ++ [fs]). split; [|split; [|split]].
    + rewrite seq_S, fmap_app, iter_m_app, (bind_ok _ _ _ _ _ E). cbn [fmap list_fmap iter_m Nat.add]. rewrite Z.add_0_r.
      by rewrite (bind_ok _ _ _ _ _ E2).
    + rewrite length_app, Hl. cbn. lia.
    + intros i y' fs' Hy' [Hfs|[Hi Hfs]]%lookup_app_Some; [by apply (Hm i)|]. apply list_lookup_singleton_Some in Hfs as [Hi0 <-].
      assert (i = k) as -> by lia. by assert (y' = y) as -> by congruence.
    + apply (saved_next s s1 s2 v x levels fs Hs ltac:(lia)). by rewrite Hl.
Qed.

End save.

(** Saving the state of a builder into a new version.  On each level the version gets
    the files of the base and the added ones that are not deleted, in the order of
    their smallest keys; on the levels above 0 they are disjoint, so that the
    assertion for each file and the check at the end hold.  Each file has one more
    reference for each place it gets, and nothing else changes.  Conditions: the lists
    are in order, added files have other numbers than those of the base, and the files
    that stay on a level above 0 do not overlap. *)
Lemma builder_saves (b : Builder) (v : nat) (s : Versions) (layers : list Layer) (x0 x : Version) :
  b_base b <> v -> length layers = levels_count -> b_levels b = ly_state <$> layers ->
  vs_versions s !! b_base b = Some x0 -> files_ x0 = (fun y => (ly_base y).*1) <$> layers ->
  vs_versions s !! v = Some x -> files_ x = replicate levels_count [] ->
  (forall i y, layers !! i = Some y -> mergeable s (Z.of_nat i) (ly_state y) (ly_base y) (ly_added y)) ->
  exists s' levels, SaveTo C b v s = Ok tt s' /\ length levels = levels_count /\
    vs_versions s' = <[v := set_v_files (pointers levels) x]> (vs_versions s) /\
    (forall i y fs, layers !! i = Some y -> levels !! i = Some fs ->
       fs ≡ₚ kept (ly_state y) (ly_base y ++ ly_added y) /\ StronglySorted lt_file fs /\
       ((0 < i)%nat -> disjoint_files C fs)) /\
    (forall p, vs_files s' !! p =
       (fun f => set_file_refs (refs f + occurrences p (concat (pointers levels))) f) <$> vs_files s !! p) /\
    dummy_next s' = dummy_next s /\ dummy_prev s' = dummy_prev s /\ current_ s' = current_ s /\
    compact_pointer_ s' = compact_pointer_ s.
Proof.
  intros Hne Hlen Hstates Hx0 Hbase Hx Hempty Hlayers.
  destruct (save_levels_ok b v s layers x0 x Hne Hlen Hstates Hx0 Hbase Hx Hempty Hlayers levels_count ltac:(lia))
    as (s' & levels & E & Hl & Hm & [Hf Hv Hr]).
  exists s', levels. split; [exact E|]. split; [done|]. split; [|split; [|split; [exact Hf|exact Hr]]].
  - rewrite Hl, Nat.sub_diag, app_nil_r in Hv. exact Hv.
  - intros i y fs Hy Hfs. destruct (Hm i y fs Hy Hfs) as [H1 H2 H3]. split; [done|]. split; [done|]. intros Hi. apply H3. lia.
Qed.

End add.

(** ** Applying an edit *)

(** The numbers that are deleted from a level, and the files that are added to it. *)
Definition deleted_on (level : Z) (ds : list (Z * Z)) : gset Z := list_to_set ((filter (fun p : Z * Z => p.1 = level) ds).*2).
Definition files_on (level : Z) (fs : list (Z * FileMetaData)) : list FileMetaData :=
  (filter (fun p : Z * FileMetaData => p.1 = level) fs).*2.

(** The file as the builder keeps it. *)
Definition ready (f : FileMetaData) : FileMetaData := set_allowed_seeks (seeks_for (file_size f)) (set_file_refs 1 f).

Section apply.
Context (C : Comparator) {L : ComparatorLaws C}.

Abbreviation lt_file := (fun f g => smaller C f g = true).

Definition is_level (level : Z) : Prop := 0 <= level < kNumLevels.

Lemma apply_pointers_ok ps s : Forall (fun p : Z * Slice => is_level p.1 /\ file_key C p.2) ps ->
  length (compact_pointer_ s) = levels_count ->
  exists cp, iter_m apply_pointer ps s = Ok tt (set_compact_pointer (fun _ => cp) s) /\ length cp = levels_count.
Proof.
  intros H. revert s. induction H as [|[level k] ps [Hl Hk] _ IH]; intros s Hlen.
  { exists (compact_pointer_ s). split; [by destruct s|done]. }
  cbn [fst snd] in *. destruct (lookup_lt_is_Some_2 (compact_pointer_ s) (Z.to_nat level)) as [c Hc].
  { unfold is_level, levels_count, kNumLevels in *. lia. }
  destruct (IH (set_compact_pointer (insert_level level k) s)) as (cp & E & Hcp).
  { cbn. unfold insert_level. by rewrite length_insert. }
  exists cp. split; [|done]. cbn [iter_m]. unfold apply_pointer at 1. cbn [fst snd].
  rewrite bind_assoc, (bind_or_ub _ _ _ _ (file_key_encode C k Hk)), bind_assoc, bind_gets. unfold id.
  unfold at_level. rewrite (proj2 (Z.leb_le 0 level)) by apply Hl. rewrite bind_assoc, (bind_or_ub _ _ _ _ Hc), bind_modify. exact E.
Qed.

Lemma apply_deleted_ok ds b (s : Versions) : Forall (fun p : Z * Z => is_level p.1) ds -> length (b_levels b) = levels_count ->
  exists b', fold_m apply_deleted b ds s = Ok b' s /\ b_base b' = b_base b /\ length (b_levels b') = levels_count /\
    forall i ls, b_levels b !! i = Some ls ->
      b_levels b' !! i = Some (mk_level_state (deleted_on (Z.of_nat i) ds ∪ b_deleted ls) (b_added ls)).
Proof.
  intros H. revert b. induction H as [|[level n] ds Hl _ IH]; intros b Hlen.
  { exists b. split; [done|]. split; [done|]. split; [done|]. intros i [d a] E. rewrite E. f_equal. f_equal.
    unfold deleted_on. rewrite filter_nil. cbn. by rewrite (left_id_L ∅ (∪)). }
  cbn [fst] in Hl. destruct (lookup_lt_is_Some_2 (b_levels b) (Z.to_nat level)) as [ls Hls].
  { unfold is_level, levels_count, kNumLevels in *. lia. }
  destruct (IH (set_level level (mk_level_state ({[ n ]} ∪ b_deleted ls) (b_added ls)) b)) as (b' & E & Hb & Hlen' & Hb').
  { cbn. unfold insert_level. by rewrite length_insert. }
  exists b'. split; [|split; [done|split; [done|]]].
  - cbn [fold_m]. unfold apply_deleted at 1. cbn [fst snd]. unfold at_level. rewrite (proj2 (Z.leb_le 0 level)) by apply Hl.
    by rewrite bind_assoc, (bind_or_ub _ _ _ _ Hls), bind_ret.
  - intros i ls' Hi. destruct (decide (Z.to_nat level = i)) as [<-|Hne].
    + assert (ls' = ls) as -> by congruence.
      rewrite (Hb' (Z.to_nat level) (mk_level_state ({[ n ]} ∪ b_deleted ls) (b_added ls))).
      * cbn [b_deleted b_added]. f_equal. f_equal. unfold deleted_on.
        rewrite filter_cons, decide_True by (cbn; unfold is_level in Hl; lia). cbn.
        by rewrite (assoc_L (∪)), (comm_L (∪) _ {[n]}).
      * cbn. apply list_lookup_insert_eq. by apply lookup_lt_Some in Hls.
    + rewrite (Hb' i ls') by (cbn; unfold insert_level; by rewrite list_lookup_insert_ne). f_equal. f_equal. unfold deleted_on.
      rewrite filter_cons, decide_False by (cbn; unfold is_level in Hl; lia). done.
Qed.

Lemma file_set_insert_ok f l : Forall (file_ok C) l -> file_ok C f -> StronglySorted lt_file l ->
  (forall g, g ∈ l -> fnumber (meta g) <> fnumber (meta f)) ->
  exists l', file_set_insert C f l = Some l' /\ l' ≡ₚ f :: l /\ StronglySorted lt_file l'.
Proof.
  intros Hl Hf Hs Hn. induction Hl as [|g l Hg Hl IH]; cbn [file_set_insert]; [exists [f]; by repeat constructor|].
  apply StronglySorted_inv in Hs as [Hs Hmin]. rewrite (BySmallestKey_ok C (L := L) g f) by done. cbn [mbind option_bind]. destruct (smaller C g f) eqn:E.
  - destruct IH as (l' & -> & Hp & Hs'); [done|intros h Hh; apply Hn; by right|]. exists (g :: l'). split; [done|].
    split; [rewrite Hp; constructor|]. constructor; [done|]. rewrite Hp. by constructor.
  - rewrite (BySmallestKey_ok C (L := L) f g) by done. cbn [mbind option_bind].
    assert (smaller C f g = true) as Hfg by (apply (smaller_total C (L := L)); [done|done|apply Hn; by left|done]). rewrite Hfg.
    exists (f :: g :: l). split; [done|]. split; [done|]. constructor; [by constructor|]. constructor; [done|].
    rewrite Forall_forall in Hmin, Hl |- *. intros h Hh. apply (smaller_trans C (L := L) f g h); [done|done|by apply Hl|done|by apply Hmin].
Qed.

(** A level of the builder while files are added. *)
Record layer_ok (s : Versions) (y : Layer) : Prop := mk_layer_ok {
  lo_added : b_added (ly_state y) = (ly_added y).*1;
  lo_stored : Forall (stored s) (ly_base y ++ ly_added y);
  lo_ok : Forall (file_ok C) (ly_base y ++ ly_added y);
  lo_base : StronglySorted lt_file (ly_base y);
  lo_new : StronglySorted lt_file (ly_added y);
  lo_numbers : NoDup ((fnumber ∘ meta) <$> ly_base y ++ ly_added y)
}.

(** A file of the edit: its range, and that its number is new on its level. *)
Definition fits (y : Layer) (f : FileMetaData) : Prop :=
  file_ok C (0%nat, f) /\ fnumber f ∉ ((fnumber ∘ meta) <$> ly_base y ++ ly_added y).

Lemma apply_file_ok b level f s y : is_level level -> length (b_levels b) = levels_count ->
  at_level level (b_levels b) = Some (ly_state y) -> layer_ok s y -> fits y f ->
  exists q added s', apply_file C b (level, f) s =
      Ok (set_level level (mk_level_state (b_deleted (ly_state y) ∖ {[ fnumber f ]}) (added.*1)) b) s' /\
    added ≡ₚ (q, ready f) :: ly_added y /\ s' = set_files (insert q (ready f)) s /\ vs_files s !! q = None /\
    layer_ok s' (mk_layer (mk_level_state (b_deleted (ly_state y) ∖ {[ fnumber f ]}) (added.*1)) (ly_base y) added).
Proof.
  intros Hl Hlen Hat [Hadd Hst Hok Hsb Hsn Hnd] [Hf Hnum]. set (q := fresh (dom (vs_files s))).
  assert (vs_files s !! q = None) as Hq by (apply not_elem_of_dom, is_fresh).
  set (s' := set_files (insert q (ready f)) s).
  assert (forall g, stored s g -> stored s' g) as Hkeep.
  { intros g [n E]. exists n. cbn. rewrite lookup_insert_ne; [done|]. intros Heq. rewrite Heq, E in Hq. done. }
  assert (reload s' (q, ready f) = (q, ready f)) as Er by (unfold reload; cbn; by rewrite lookup_insert_eq).
  assert (stored s' (q, ready f)) as Hsq by (exists 1; cbn; by rewrite lookup_insert_eq).
  assert (file_ok C (q, ready f)) as Hokf by (destruct Hf; by split).
  apply Forall_app in Hst as [Hst1 Hst2]. apply Forall_app in Hok as [Hok1 Hok2].
  assert (Forall (stored s') (ly_added y)) as Hst2' by (eapply Forall_impl; [exact Hst2|]; apply Hkeep).
  assert (forall g, g ∈ ly_added y -> fnumber (meta g) <> fnumber f) as Hne.
  { intros g Hg E. apply Hnum. rewrite <- E. apply (list_elem_of_fmap_2 (fnumber ∘ meta)), elem_of_app. by right. }
  destruct (file_set_insert_ok (q, ready f) (reload s' <$> ly_added y)) as (l' & El & Hp & Hs').
  { apply Forall_fmap. rewrite Forall_forall in Hst2', Hok2 |- *. intros g Hg. by apply file_ok_reload; [apply Hst2'|apply Hok2]. }
  { done. }
  { by apply sorted_reload. }
  { intros g' (g & -> & Hg)%list_elem_of_fmap. rewrite Forall_forall in Hst2'. destruct (reload_stored s' g (Hst2' g Hg)) as [n ->].
    exact (Hne g Hg). }
  rewrite <- Er in Hp at 1. change (reload s' (q, ready f) :: (reload s' <$> ly_added y)) with (reload s' <$> ((q, ready f) :: ly_added y)) in Hp.
  apply Permutation_map_inv in Hp as (added & Eadded & Hp). change (l' = reload s' <$> added) in Eadded. subst l'.
  assert (Forall (stored s') added) as Hsa by (rewrite <- Hp; by constructor).
  exists q, added, s'. split; [|split; [by symmetry|split; [done|split; [done|]]]].
  - unfold apply_file. cbn [fst snd]. fold (ready f). unfold new_file. rewrite !bind_assoc, bind_gets. fold q. cbv beta zeta.
    rewrite bind_assoc, bind_modify, bind_ret. fold s'. rewrite (bind_or_ub _ _ _ _ Hat), Hadd.
    rewrite (bind_ok _ _ _ _ _ (load_files_stored s' _ Hst2')), (bind_or_ub _ _ _ _ El).
    rewrite <- list_fmap_compose. done.
  - split; cbn [ly_state ly_base ly_added b_added].
    + done.
    + apply Forall_app. split; [eapply Forall_impl; [exact Hst1|]; apply Hkeep|done].
    + apply Forall_app. split; [done|]. rewrite <- Hp. by constructor.
    + done.
    + by apply (sorted_reload C s' added Hsa).
    + rewrite <- Hp. rewrite fmap_app, fmap_cons. rewrite <- Permutation_middle, <- fmap_app. constructor; [exact Hnum|done].
Qed.

Lemma layer_ok_mono s s' y : (forall f, stored s f -> stored s' f) -> layer_ok s y -> layer_ok s' y.
Proof. intros H [H1 H2 H3 H4 H5 H6]. split; try done. eapply Forall_impl; [exact H2|exact H]. Qed.

Lemma files_on_cons_eq level f nfs : files_on level ((level, f) :: nfs) = f :: files_on level nfs.
Proof. unfold files_on. by rewrite filter_cons, decide_True. Qed.

Lemma files_on_cons_ne level level' f nfs : level <> level' -> files_on level' ((level, f) :: nfs) = files_on level' nfs.
Proof. intros H. unfold files_on. by rewrite filter_cons, decide_False. Qed.

Abbreviation numbers fs := ((fnumber ∘ meta) <$> fs).

(** What is asked of the files that an edit adds to a level. *)
Definition all_fit (i : nat) (y : Layer) (nfs : list (Z * FileMetaData)) : Prop :=
  Forall (fun f => file_ok C (0%nat, f)) (files_on (Z.of_nat i) nfs) /\
  NoDup (numbers (ly_base y ++ ly_added y) ++ (fnumber <$> files_on (Z.of_nat i) nfs)).

(** The level after the files have been added. *)
Record layer_added (i : nat) (nfs : list (Z * FileMetaData)) (y y' : Layer) : Prop := mk_layer_added {
  ld_base : ly_base y' = ly_base y;
  ld_deleted : b_deleted (ly_state y') = b_deleted (ly_state y) ∖ list_to_set (fnumber <$> files_on (Z.of_nat i) nfs);
  ld_added : exists news, ly_added y' ≡ₚ news ++ ly_added y /\ meta <$> news ≡ₚ ready <$> files_on (Z.of_nat i) nfs
}.

Record builder_layers (b : Builder) (s : Versions) (layers : list Layer) : Prop := mk_builder_layers {
  bl_length : length layers = levels_count;
  bl_states : b_levels b = ly_state <$> layers;
  bl_ok i y : layers !! i = Some y -> layer_ok s y
}.

Lemma apply_files_ok nfs b s layers : Forall (fun p : Z * FileMetaData => is_level p.1) nfs -> builder_layers b s layers ->
  (forall i y, layers !! i = Some y -> all_fit i y nfs) ->
  exists b' s' layers', fold_m (apply_file C) b nfs s = Ok b' s' /\ b_base b' = b_base b /\ builder_layers b' s' layers' /\
    (forall i y, layers !! i = Some y -> exists y', layers' !! i = Some y' /\ layer_added i nfs y y') /\
    (exists fs, s' = set_files (fun _ => fs) s /\ vs_files s ⊆ fs).
Proof.
  intros Hl. revert b s layers. induction Hl as [|[level f] nfs Hl _ IH]; intros b s layers [Hlen Hst Hok] Hfit.
  { exists b, s, layers. split; [done|]. split; [done|]. split; [done|]. split.
    - intros i y Hy. exists y. split; [done|]. split; [done| |by exists []].
      change (files_on (Z.of_nat i) []) with (@nil FileMetaData). cbn. by rewrite difference_empty_L.
    - exists (vs_files s). split; [by destruct s|done]. }
  cbn [fst] in Hl. set (k := Z.to_nat level). assert (Z.of_nat k = level) as Hk by (unfold is_level in Hl; lia).
  destruct (lookup_lt_is_Some_2 layers k) as [y Hy]; [unfold is_level, levels_count, kNumLevels in *; lia|].
  destruct (Hfit k y Hy) as [Hf Hnd]. rewrite Hk, files_on_cons_eq in Hf, Hnd. apply Forall_cons in Hf as [Hf Hfs].
  destruct (apply_file_ok b level f s y Hl) as (q & added & s1 & E1 & Hadd & Es1 & Hq & Hok1).
  { rewrite Hst, length_fmap. done. }
  { unfold at_level. rewrite (proj2 (Z.leb_le 0 level)) by apply Hl. fold k. by rewrite Hst, list_lookup_fmap, Hy. }
  { by apply (Hok k). }
  { split; [done|]. intros Hin. apply NoDup_app in Hnd as (_ & Hnd & _). apply (Hnd _ Hin). by left. }
  set (y1 := mk_layer (mk_level_state (b_deleted (ly_state y) ∖ {[ fnumber f ]}) (added.*1)) (ly_base y) added) in *.
  assert (forall g, stored s g -> stored s1 g) as Hmono.
  { intros g [n E]. exists n. rewrite Es1. cbn. rewrite lookup_insert_ne; [done|]. intros Heq. by rewrite Heq, E in Hq. }
  assert (numbers (ly_base y ++ added) ≡ₚ fnumber f :: numbers (ly_base y ++ ly_added y)) as Hnum.
  { rewrite Hadd, !fmap_app, fmap_cons. by rewrite <- Permutation_middle. }
  destruct (IH (set_level level (ly_state y1) b) s1 (<[k := y1]> layers)) as (b' & s' & layers' & E & Hb & Hbl & Hla & (fs & -> & Hsub)).
  - split.
    + by rewrite length_insert.
    + cbn [b_levels set_level]. unfold insert_level. fold k. by rewrite Hst, list_fmap_insert.
    + intros i z [(-> & -> & _)|[Hne Hz]]%list_lookup_insert_Some; [done|]. apply (layer_ok_mono s s1 z Hmono), (Hok i z Hz).
  - intros i z [(<- & <- & _)|[Hne Hz]]%list_lookup_insert_Some.
    + unfold all_fit. rewrite Hk. split; [done|]. cbn [ly_base ly_added y1]. rewrite Hnum. cbn [app].
      by rewrite Permutation_middle.
    + destruct (Hfit i z Hz) as [Hf' Hnd']. unfold all_fit. rewrite files_on_cons_ne in Hf', Hnd' by lia. done.
  - exists b', (set_files (fun _ => fs) s1), layers'. split; [cbn [fold_m]; by rewrite (bind_ok _ _ _ _ _ E1)|].
    split; [exact Hb|]. split; [done|]. split.
    + intros i z Hz. destruct (decide (i = k)) as [->|Hne].
      * assert (z = y) as -> by congruence. destruct (Hla k y1) as (y' & Hy' & [H1 H2 (news & H3 & H4)]).
        { apply list_lookup_insert_eq. by apply lookup_lt_Some in Hy. }
        exists y'. split; [done|]. rewrite Hk in H2, H4. split.
        -- by rewrite H1.
        -- rewrite Hk, files_on_cons_eq, H2. cbn [y1 ly_state b_deleted fmap list_fmap list_to_set].
           by rewrite difference_difference_l_L.
        -- exists (news ++ [(q, ready f)]). rewrite Hk, files_on_cons_eq. split.
           ++ rewrite H3. cbn [y1 ly_added]. by rewrite Hadd, <- app_assoc.
           ++ rewrite fmap_app, H4. cbn [fmap list_fmap meta snd]. symmetry. apply Permutation_cons_append.
      * destruct (Hla i z) as (y' & Hy' & [H1 H2 H3]); [by rewrite list_lookup_insert_ne|]. exists y'. split; [done|].
        split; [done| |]; rewrite files_on_cons_ne by lia; done.
    + exists fs. split; [by rewrite Es1|]. etransitivity; [|exact Hsub]. rewrite Es1. cbn. by apply insert_subseteq.
Qed.

Lemma filter_ext_in {A} (P Q : A -> Prop) `{!forall x, Decision (P x), !forall x, Decision (Q x)} (l : list A) :
  (forall x, x ∈ l -> P x <-> Q x) -> filter P l = filter Q l.
Proof.
  induction l as [|x l IH]; intros Heq; [done|]. rewrite !filter_cons, IH by (intros y Hy; apply Heq; by right).
  pose proof (Heq x ltac:(by left)) as Hx. destruct (decide (P x)), (decide (Q x)); tauto.
Qed.

Lemma filter_all_in {A} (P : A -> Prop) `{!forall x, Decision (P x)} (l : list A) : (forall x, x ∈ l -> P x) -> filter P l = l.
Proof.
  induction l as [|x l IH]; intros Heq; [done|]. rewrite filter_cons, decide_True by (apply Heq; by left).
  f_equal. apply IH. intros y Hy. apply Heq. by right.
Qed.

(** What the files of a level should be after an edit. *)
Definition after_edit (edit : VersionEdit) (level : Z) (files : list FilePtr) : list FilePtr :=
  filter (fun f => fnumber (meta f) ∉ deleted_on level (deleted_files_ edit)) files ++
  ((fun f => (0%nat, ready f)) <$> files_on level (new_files_ edit)).

(** A level that an edit can be applied to. *)
Record editable (edit : VersionEdit) (s : Versions) (level : Z) (files : list FilePtr) : Prop := mk_editable {
  ed_stored : Forall (stored s) files;
  ed_ok : Forall (file_ok C) files;
  ed_sorted : StronglySorted lt_file files;
  ed_numbers : NoDup (numbers files ++ (fnumber <$> files_on level (new_files_ edit)));
  ed_apart : 0 < level -> apart C (after_edit edit level files)
}.

Lemma apart_meta fs gs : (forall m, m ∈ meta <$> fs -> m ∈ meta <$> gs) -> apart C gs -> apart C fs.
Proof.
  intros Hsub Ha f g Hf Hg Hs.
  pose proof (Hsub (meta f) (list_elem_of_fmap_2 _ _ _ Hf)) as (f' & Ef & Hf')%list_elem_of_fmap.
  pose proof (Hsub (meta g) (list_elem_of_fmap_2 _ _ _ Hg)) as (g' & Eg & Hg')%list_elem_of_fmap.
  unfold smaller in *. rewrite Ef, Eg in *. by apply Ha.
Qed.

(** The files that stay on a level are those of the base that the edit does not delete,
    and those that it adds. *)
Lemma kept_after_edit edit level files news ls :
  NoDup (numbers files ++ (fnumber <$> files_on level (new_files_ edit))) ->
  meta <$> news ≡ₚ ready <$> files_on level (new_files_ edit) ->
  b_deleted ls = deleted_on level (deleted_files_ edit) ∖ list_to_set (fnumber <$> files_on level (new_files_ edit)) ->
  meta <$> kept ls (files ++ news) ≡ₚ meta <$> after_edit edit level files.
Proof.
  intros Hnd Hnews Hd. unfold kept, after_edit. rewrite filter_app, !fmap_app, Hd.
  assert (forall n, n ∈ numbers news <-> n ∈ fnumber <$> files_on level (new_files_ edit)) as Hn.
  { intros n. rewrite (list_fmap_compose meta fnumber), Hnews, <- list_fmap_compose. done. }
  apply NoDup_app in Hnd as (_ & Hdis & _). f_equiv.
  - erewrite filter_ext_in; [done|]. intros f Hf. rewrite elem_of_difference, elem_of_list_to_set.
    pose proof (Hdis _ (list_elem_of_fmap_2 (fnumber ∘ meta) _ _ Hf)) as Hno. cbn in Hno. tauto.
  - rewrite <- list_fmap_compose. change (meta ∘ (fun f => (0%nat, ready f))) with ready. rewrite <- Hnews.
    rewrite filter_all_in; [done|]. intros f Hf. rewrite elem_of_difference, elem_of_list_to_set.
    intros [_ Hno]. apply Hno, Hn. by apply (list_elem_of_fmap_2 (fnumber ∘ meta)).
Qed.

Section edit.
Context (edit : VersionEdit) (base : nat) (s : Versions) (bases : list (list FilePtr)).
Context (Hlen : length bases = levels_count) (Hcp : length (compact_pointer_ s) = levels_count).
Context (Hptrs : Forall (fun p : Z * Slice => is_level p.1 /\ file_key C p.2) (compact_pointers_ edit)).
Context (Hdel : Forall (fun p : Z * Z => is_level p.1) (deleted_files_ edit)).
Context (Hnew : Forall (fun p : Z * FileMetaData => is_level p.1 /\ file_ok C (0%nat, p.2)) (new_files_ edit)).
Context (Hed : forall i files, bases !! i = Some files -> editable edit s (Z.of_nat i) files).

(** A builder without changes. *)
Definition fresh_builder : Builder := mk_builder base (replicate levels_count (mk_level_state ∅ [])).

(** The levels when the deletions have been applied, and in the end. *)
Definition start_layers : list Layer :=
  imap (fun i files => mk_layer (mk_level_state (deleted_on (Z.of_nat i) (deleted_files_ edit) ∪ ∅) []) files []) bases.

Definition layer_edited (i : nat) (y : Layer) : Prop :=
  exists files, bases !! i = Some files /\ ly_base y = files /\
    meta <$> ly_added y ≡ₚ ready <$> files_on (Z.of_nat i) (new_files_ edit) /\
    b_deleted (ly_state y) = deleted_on (Z.of_nat i) (deleted_files_ edit) ∖
      list_to_set (fnumber <$> files_on (Z.of_nat i) (new_files_ edit)).

Lemma start_layers_lookup i y : start_layers !! i = Some y -> exists files, bases !! i = Some files /\
  y = mk_layer (mk_level_state (deleted_on (Z.of_nat i) (deleted_files_ edit) ∪ ∅) []) files [].
Proof. unfold start_layers. rewrite list_lookup_imap. intros (files & Hf & ->)%fmap_Some. by exists files. Qed.

Lemma start_layers_ok b s1 : vs_files s1 = vs_files s -> length (b_levels b) = levels_count ->
  (forall i ls, b_levels fresh_builder !! i = Some ls ->
     b_levels b !! i = Some (mk_level_state (deleted_on (Z.of_nat i) (deleted_files_ edit) ∪ b_deleted ls) (b_added ls))) ->
  builder_layers b s1 start_layers.
Proof.
  intros Hfiles Hb Hlevels. assert (length start_layers = levels_count) as Hl by (unfold start_layers; by rewrite length_imap).
  split; [done| |].
  - apply list_eq_same_length with (n := levels_count); [by rewrite length_fmap|done|].
    intros i ls ls' Hi E3 E4. apply list_lookup_fmap_Some in E4 as (y & -> & Hy). apply start_layers_lookup in Hy as (files & _ & ->).
    rewrite (Hlevels i (mk_level_state ∅ [])) in E3 by (by apply lookup_replicate_2). by injection E3 as <-.
  - intros i y (files & Hf & ->)%start_layers_lookup. destruct (Hed i files Hf) as [H1 H2 H3 H4 _].
    split; cbn [ly_state ly_base ly_added b_added]; rewrite ?app_nil_r; try done; [|by constructor|by apply NoDup_app in H4 as [? _]].
    eapply Forall_impl; [exact H1|]. intros f [n En]. exists n. by rewrite Hfiles.
Qed.

Lemma Apply_ok : exists b s2 layers, Apply C edit fresh_builder s = Ok b s2 /\ b_base b = base /\ builder_layers b s2 layers /\
  vs_versions s2 = vs_versions s /\ forall i y, layers !! i = Some y -> layer_edited i y.
Proof.
  destruct (apply_pointers_ok _ s Hptrs Hcp) as (cp & E1 & _). set (s1 := set_compact_pointer (fun _ => cp) s) in *.
  destruct (apply_deleted_ok (deleted_files_ edit) fresh_builder s1 Hdel) as (b1 & E2 & Hb1 & Hlen1 & Hlevels1); [apply length_replicate|].
  pose proof (start_layers_ok b1 s1 eq_refl Hlen1 Hlevels1) as Hbl.
  destruct (apply_files_ok (new_files_ edit) b1 s1 start_layers) as (b2 & s2 & layers2 & E3 & Hb2 & Hbl2 & Hla & (files2 & -> & _)).
  { eapply Forall_impl; [exact Hnew|]. by intros p []. }
  { done. }
  { intros i y (files & Hf & ->)%start_layers_lookup. destruct (Hed i files Hf) as [_ _ _ H4 _].
    split; cbn [ly_base ly_added]; [|by rewrite app_nil_r].
    apply Forall_forall. intros f ([l f'] & -> & [_ Hin]%list_elem_of_filter)%list_elem_of_fmap. rewrite Forall_forall in Hnew.
    apply (Hnew _ Hin). }
  exists b2, (set_files (fun _ => files2) s1), layers2. split; [|split; [by rewrite Hb2|split; [done|split; [done|]]]].
  { unfold Apply. rewrite (bind_ok _ _ _ _ _ E1), (bind_ok _ _ _ _ _ E2). exact E3. }
  intros i y Hy. destruct (lookup_lt_is_Some_2 start_layers i) as [y0 Hy0].
  { rewrite (bl_length _ _ _ Hbl), <- (bl_length _ _ _ Hbl2). by apply lookup_lt_Some in Hy. }
  destruct (Hla i y0 Hy0) as (y' & Hy' & [H1 H2 (news & H3 & H4)]). assert (y' = y) as -> by congruence.
  apply start_layers_lookup in Hy0 as (files & Hf & ->). cbn [ly_state ly_base ly_added b_deleted] in *. exists files.
  rewrite app_nil_r in H3. rewrite (right_id_L ∅ (∪)) in H2. split; [done|]. split; [done|]. split; [by rewrite H3|done].
Qed.

Lemma edited_mergeable b s2 layers i y : builder_layers b s2 layers -> layers !! i = Some y -> layer_edited i y ->
  mergeable C s2 (Z.of_nat i) (ly_state y) (ly_base y) (ly_added y).
Proof.
  intros Hbl Hy (files & Hf & Eb & Hn & Hd). destruct (bl_ok _ _ _ Hbl i y Hy) as [H1 H2 H3 H4 H5 H6]. split; try done.
  - intros f g Hbf Hag Heq. rewrite fmap_app in H6. apply NoDup_app in H6 as (_ & Hdis & _).
    apply (Hdis (fnumber (meta f))); [by apply (list_elem_of_fmap_2 (fnumber ∘ meta))|]. rewrite Heq.
    by apply (list_elem_of_fmap_2 (fnumber ∘ meta)).
  - intros Hpos. destruct (Hed i files Hf) as [_ _ _ Hnd Hap]. apply (apart_meta _ (after_edit edit (Z.of_nat i) files)); [|by apply Hap].
    intros m. by rewrite Eb, <- (kept_after_edit edit (Z.of_nat i) files (ly_added y) (ly_state y) Hnd).
Qed.

End edit.

(** C14: A version from an edit.  If the edit is applied to the files of the base version -
    [Apply] of a new builder, then [SaveTo] of a new version - then the new version has
    on each level exactly the files of the base that the edit does not delete and those
    that it adds, in the order of their smallest keys and, on the levels above 0, one
    behind the other; the assertions of the code hold, its pointers lead to these files,
    and no other version has changed.  Conditions: the base is in order, the files that
    are added have new numbers, and the files that are there in the end do not overlap
    on a level above 0. *)
Theorem edit_builds_version (edit : VersionEdit) (base v : nat) (s : Versions) (bases : list (list FilePtr)) (x0 x : Version) :
  base <> v -> length bases = levels_count -> length (compact_pointer_ s) = levels_count ->
  vs_versions s !! base = Some x0 -> files_ x0 = pointers bases ->
  vs_versions s !! v = Some x -> files_ x = replicate levels_count [] ->
  Forall (fun p : Z * Slice => is_level p.1 /\ file_key C p.2) (compact_pointers_ edit) ->
  Forall (fun p : Z * Z => is_level p.1) (deleted_files_ edit) ->
  Forall (fun p : Z * FileMetaData => is_level p.1 /\ file_ok C (0%nat, p.2)) (new_files_ edit) ->
  (forall i files, bases !! i = Some files -> editable edit s (Z.of_nat i) files) ->
  exists s' levels, bind (Apply C edit (fresh_builder base)) (fun b => SaveTo C b v) s = Ok tt s' /\
    length levels = levels_count /\ vs_versions s' = <[v := set_v_files (pointers levels) x]> (vs_versions s) /\
    forall i files fs, bases !! i = Some files -> levels !! i = Some fs ->
      meta <$> fs ≡ₚ meta <$> after_edit edit (Z.of_nat i) files /\ StronglySorted lt_file fs /\
      ((0 < i)%nat -> disjoint_files C fs) /\ Forall (stored s') fs.
Proof.
  intros Hne Hlen Hcp Hx0 Hbase Hx Hempty Hptrs Hdel Hnew Hed.
  destruct (Apply_ok edit base s bases Hlen Hcp Hptrs Hdel Hnew Hed) as (b & s2 & layers & E & Hb & Hbl & Hv2 & Hlayers).
  destruct (builder_saves C b v s2 layers x0 x) as (s' & levels & E4 & Hl & Hv & Hm & Hfiles & _);
    [by rewrite Hb|apply (bl_length _ _ _ Hbl)|apply (bl_states _ _ _ Hbl)|by rewrite Hb, Hv2| |by rewrite Hv2|done| |].
  - rewrite Hbase. apply list_eq_same_length with (n := levels_count);
      [rewrite length_fmap; apply (bl_length _ _ _ Hbl)|unfold pointers; by rewrite length_fmap|].
    intros i ps ps' Hi (files & -> & Hf)%list_lookup_fmap_Some (y & -> & Hy)%list_lookup_fmap_Some.
    destruct (Hlayers i y Hy) as (files' & Hf' & -> & _). by assert (files' = files) as -> by congruence.
  - intros i y Hy. by apply (edited_mergeable edit s bases Hed b s2 layers i y Hbl Hy), Hlayers.
  - exists s', levels. split; [by rewrite (bind_ok _ _ _ _ _ E)|]. split; [done|]. split; [by rewrite Hv, Hv2|].
    intros i files fs Hf Hfs. destruct (lookup_lt_is_Some_2 layers i) as [y Hy].
    { rewrite (bl_length _ _ _ Hbl), <- Hlen. by apply lookup_lt_Some in Hf. }
    destruct (Hm i y fs Hy Hfs) as (Hp & Hs & Hd). destruct (Hlayers i y Hy) as (files' & Hf' & Eb & Hn & Hdel').
    assert (files' = files) as -> by congruence. destruct (Hed i files Hf) as [_ _ _ Hnd _].
    split; [rewrite Hp, Eb; by apply kept_after_edit|]. split; [done|]. split; [done|].
    rewrite Hp. apply Forall_forall. intros f [_ Hin]%list_elem_of_filter.
    pose proof (lo_stored _ _ (bl_ok _ _ _ Hbl i y Hy)) as Hst. rewrite Forall_forall in Hst. destruct (Hst f Hin) as [n En].
    unfold stored. rewrite Hfiles, En. cbn. by eexists.
Qed.

End apply.

(** ** An edit that deletes a file and adds another *)

Definition sample_file (number a b : Z) : FileMetaData := mk_file 1 100 number 1000 (internal [a] 257) (internal [b] 257).

(** On level 1 there are [a..c], [e..g] and [x..z]; [e..g] is deleted and [d..h] added. *)
Definition sample_bases : list (list FilePtr) :=
  [[(0%nat, sample_file 3 97 122)]; [(1%nat, sample_file 4 97 99); (2%nat, sample_file 5 101 103); (3%nat, sample_file 6 120 122)]] ++
  replicate 5 [].

Definition sample_edit : VersionEdit := AddFile 1 9 1000 (internal [100] 257) (internal [104] 257) (VersionEdit_DeleteFile 1 5 new_VersionEdit).

Definition plain_version (files : list (list nat)) : Version := mk_version files Dummy Dummy 1 None 0 (double_of 0) 0.

Definition edited_versions : Versions :=
  mk_versions (list_to_map (concat sample_bases))
    {[0%nat := plain_version (pointers sample_bases); 1%nat := plain_version (replicate levels_count [])]}
    Dummy Dummy (Some 0%nat) (replicate levels_count []).

Lemma sample_key c : is_byte c -> file_key BytewiseComparator (internal [c] 257).
Proof. intros Hc. exists [c], 1, kTypeValue. split; [done|]. split; [by constructor|done]. Qed.

Ltac sample_file_ok := constructor; [by apply sample_key|by apply sample_key|by vm_compute].

Definition apartb (fs : list FilePtr) : bool :=
  forallb (fun f => forallb (fun g => negb (smaller BytewiseComparator f g) ||
    before (InternalKeyComparator BytewiseComparator) (largest (meta f)) (smallest (meta g))) fs) fs.

Lemma apartb_ok fs : apartb fs = true -> apart BytewiseComparator fs.
Proof.
  unfold apartb. rewrite forallb_forall. intros H f g Hf Hg Hs. apply list_elem_of_In in Hf, Hg.
  specialize (H f Hf). rewrite forallb_forall in H. specialize (H g Hg). by rewrite Hs in H.
Qed.

Lemma sample_editable i files : sample_bases !! i = Some files -> editable BytewiseComparator sample_edit edited_versions (Z.of_nat i) files.
Proof.
  unfold sample_bases. destruct i as [|[|i]].
  - intros [= <-]. split; [| | |apply (bool_decide_eq_true_1 _); by vm_compute|done].
    + constructor; [|constructor]. exists 1. by vm_compute.
    + constructor; [sample_file_ok|constructor].
    + repeat constructor.
  - intros [= <-]. split.
    + repeat (apply Forall_cons; split; [exists 1; by vm_compute|]). by apply Forall_nil.
    + repeat (apply Forall_cons; split; [sample_file_ok|]). by apply Forall_nil.
    + repeat (constructor; [|repeat (apply Forall_cons; split; [by vm_compute|]); by apply Forall_nil]). constructor.
    + apply (bool_decide_eq_true_1 _). by vm_compute.
    + intros _. apply apartb_ok. by vm_compute.
  - intros Hy. assert (files = [] /\ files_on (Z.of_nat (S (S i))) (new_files_ sample_edit) = []) as [-> E].
    { do 5 (destruct i as [|i]; [by injection Hy as <-|]). done. }
    split; [done|done|constructor|rewrite E; constructor|].
    intros _. unfold after_edit. rewrite E. intros f g Hf. by apply elem_of_nil in Hf.
Qed.

Lemma edit_builds_version_witness :
  exists s' levels,
    bind (Apply BytewiseComparator sample_edit (fresh_builder 0)) (fun b => SaveTo BytewiseComparator b 1) edited_versions = Ok tt s' /\
    length levels = levels_count /\
    vs_versions s' = <[1%nat := set_v_files (pointers levels) (plain_version (replicate levels_count []))]> (vs_versions edited_versions) /\
    forall i files fs, sample_bases !! i = Some files -> levels !! i = Some fs ->
      meta <$> fs ≡ₚ meta <$> after_edit sample_edit (Z.of_nat i) files /\
      StronglySorted (fun f g => smaller BytewiseComparator f g = true) fs /\
      ((0 < i)%nat -> disjoint_files BytewiseComparator fs) /\ Forall (stored s') fs.
Proof.
  apply (edit_builds_version BytewiseComparator sample_edit 0 1 edited_versions sample_bases
    (plain_version (pointers sample_bases)) (plain_version (replicate levels_count []))); try done.
  - apply Forall_cons_2; [by vm_compute|by apply Forall_nil].
  - apply Forall_cons_2; [|by apply Forall_nil]. split; [by vm_compute|sample_file_ok].
  - intros i files. apply sample_editable.
Defined.

Definition edited_levels : option (list (list nat)) :=
  match bind (Apply BytewiseComparator sample_edit (fresh_builder 0)) (fun b => SaveTo BytewiseComparator b 1) edited_versions with
  | Ok _ s => files_ <$> vs_versions s !! 1%nat
  | _ => None
  end.

(** The new file takes a fresh cell, 4, and stands where the deleted one stood. *)
Example sample_edited : edited_levels = Some ([[0]; [1; 4; 3]; []; []; []; []; []]%nat).
Proof. by vm_compute. Qed.
